(* ===== verification/_CoqProject ===== *)
-Q . S2P
Prelude.v
Vocabulary.v
Protocol.v
Crypto.v
Wire.v
Registry.v
Grants.v
Tombstone.v
Admission.v
AdmissionSafety.v
AdmissionRestart.v
AdmissionTheorems.v
AdmissionEffects.v
SafetyTypes.v
Recovery.v
RecoveryTheorems.v
EphemeralRefs.v
EphemeralRefsTheorems.v
Evidence.v
Transport.v
TransportTheorems.v
Controller.v
ControllerSnapshot.v
ControllerLedger.v
ControllerSafety.v
ControllerRecovery.v
ControllerRetirement.v
ControllerCalls.v
ControllerRestart.v
ControllerRefinement.v
ControllerTheorems.v
ControllerDevice.v
ControllerFindings.v
AgentGate.v
SessionRuntime.v
Trust.v
WorkflowRefs.v
WorkflowRefsTheorems.v
Persistence.v
PersistenceTheorems.v
StateStore.v
StateStoreTheorems.v
Hub.v
HubSession.v
HubService.v
HubDispatch.v
HubSteps.v
HubHandlers.v
HubSystem.v
HubInvariant.v
HubRuns.v
HubTheorems.v
HubExamples.v
MutationAuthority.v
MutationAuthorityTheorems.v
AgentErrors.v
AgentWorker.v
Agent.v
AgentSession.v
HandoffRuntime.v
AgentHandoff.v
HandoffCoordinator.v
AgentLogic.v
AgentQuiet.v
AgentOnce.v
AgentHonest.v
AgentDurable.v
AgentAuthority.v
AgentClosed.v
HandoffTheorems.v
AgentTheorems.v
EndToEnd.v
AgentExamples.v
HandoffExamples.v
