(* ===== verification/Prelude.v ===== *)
(** * Verification of the V2 control plane of computer-use-mcp-gateway

    The program lets MCP clients drive desktops. A Hub authenticates the clients,
    keeps the registry of devices and decides which operation runs where; an Agent
    on each device executes commands and reports back over a mutually
    authenticated session. The hard part is what happens when the outcome of an
    operation is not known (a connection lost after dispatch, a restart): the Hub
    must not run it again, must keep the device contained until somebody
    establishes or accepts the outcome, and must survive its own restart. This
    development models the state machines that decide this, and proves what they
    guarantee over every sequence of calls and restarts.

    ** Correspondence

    A Rust enum or struct [X] is a module [X] with an inductive type or record of
    that name, so that constructors and fields read as in the source; a method is
    a function that takes the state and returns the new state with a [result].
    Unsigned integers are [N] with saturation and overflow checks written out,
    [i32] is [Z], a [String] is a byte string, a [HashMap] a [gmap]. The order in
    which a hash table is iterated is the class [HashIter], so that nothing
    depends on it unproved. Code outside the repository is a class of operations
    with a class of laws: Ed25519 ([Crypto.Ed25519]), canonical JSON
    ([GrantSerializer], [RotationSerializer], [RecoverySerializer],
    [AuditHmac]), base64url ([Tombstone.Base64Url]). Each has a concrete instance in the
    examples, under which the witnesses evaluate. Random bytes and the clock are
    arguments.

    - [Vocabulary], [Protocol]: the commands, results, capabilities and error
      codes of [v2_m0.rs] and [v2_browser_runtime.rs]; which capability a command
      needs, when a command belongs to a session, when a result answers a command.
    - [Crypto], [Registry], [Grants]: [DeviceRegistry], [GrantAuthority],
      [GrantLedger], [LeaseManager] and [AuditLog] of [v2_m0.rs].
    - [Tombstone], [Admission]: [ReplayDenyTombstone] and
      [HubAdmissionController] of [v2_m0_execution.rs]. [AdmissionSafety] has its
      invariant, [AdmissionRestart] its restart, [AdmissionEffects] the exact
      effect of each call, [AdmissionTheorems] the guarantees.
    - [SafetyTypes], [Evidence], [Controller], [ControllerSnapshot]:
      [AuthoritativeOperationController] of [v2_execution_safety.rs], which keeps
      the ledger of operations on top of the admission controller, with the
      validators of everything it stores and its snapshots. [ControllerLedger]
      states the invariant, [ControllerSafety], [ControllerRecovery] and
      [ControllerRetirement] prove that each operation keeps it,
      [ControllerCalls] gathers the calls and the life cycle of a record,
      [ControllerRestart] characterises the restart, [ControllerRefinement] is the
      simulation by the admission controller, [ControllerTheorems] has the
      guarantees and [ControllerFindings] the histories that end in a state the
      Hub cannot restore.
    - [AgentGate]: [AgentExecutionGate] of [v2_m0_execution.rs], the Agent's replay
      barrier.
    - [SessionRuntime]: [v2_m1.rs], reconnection, heartbeats, the single-device
      router and the answer to a cancellation.
    - [Trust]: [v2_m0_trust.rs], key rotation and the client authorization policy.
    - [Wire], [Recovery]: the byte strings and the protocol of
      [v2_online_recovery.rs], in which the local user authorises recovery with a
      key of their own; [RecoveryTheorems].
    - [Transport]: the handshake, the signed messages and the frames of
      [v2_m0_transport.rs]; [TransportTheorems].
    - [EphemeralRefs], [WorkflowRefs]: the references that a Hub gives to clients in
      place of data and handles of an Agent: [v2_ephemeral_data_refs.rs],
      [v2_managed_job_refs.rs] and [v2_interaction_context.rs];
      [EphemeralRefsTheorems], [WorkflowRefsTheorems].
    - [Persistence], [StateStore]: the checkpoint directory of
      [v2_m1_persistence.rs] with the faults and crashes of a file system, and the
      authoritative store of [v2_hub_state_store.rs]. [StateStoreTheorems] states
      the contract of a store as the class [StoreLaws]; the store over the
      directory and the store in memory are instances.
    - [Hub], [HubSession], [HubService]: the Hub of [v2_m1_hub.rs], the composition
      of the above: the state that its tasks share, its durable commits, the
      handlers of a session from the handshake to the cleanup, the start over a
      store and the operations of [HubHandle]. The handlers are programs of a small
      state monad; the clock, random bytes, the grant signer, the channels and the
      faults of the store are an environment, read at each effect.
      [HubDispatch] proves that the dispatch loop ends; [HubSteps] and
      [HubHandlers] show every handler to be a sequence of steps on the shared
      state, where only the blocks that hold the state lock are uninterrupted;
      [HubSystem] runs any number of Hubs over one store, with takeovers and
      crashes, and states the invariant, [HubInvariant] proves it; [HubRuns] keeps
      the steps of a run and finds in it the durable step behind every command and
      every receipt; [HubTheorems] has the guarantees and [HubExamples] a run of two
      Hubs.
      [ControllerDevice] is the controller of one device, which is what a Hub has.
    - [AgentErrors], [AgentWorker], [Agent], [AgentSession]: the Agent of
      [v2_m1_agent.rs]. [AgentErrors] has the errors of its executors and which of
      them prove an outcome; [AgentWorker] the workers of all commands, given what
      the executors answer; [Agent] the state, the checkpoint, the start and the
      recovery files; [AgentSession] the handshake, a handler for every event and
      message of a session, the end of a session and the reconnection. A program
      runs in a state monad over the world of the device (service, disk, messages
      sent, and a history and a log of the calls to the hand-off that only the
      theorems read); before each effect the process may die, which nothing in it
      can catch.
      [AgentLogic] is the program logic of these programs, relations that every
      program keeps and triples; [AgentQuiet] the parts that change nothing
      durable; [AgentOnce] the replay barrier, [AgentHonest] the reports,
      [AgentDurable] the order of evidence and result, [AgentAuthority] the checks
      of a command, [AgentClosed] that an Agent which fails closed has stored it;
      [AgentTheorems] has the guarantees, [EndToEnd] those of the
      Hubs and the Agent together, [AgentExamples] a run of a Hub and a device.
    - [HandoffRuntime], [AgentHandoff], [HandoffCoordinator]: the hand-off of a
      window to a human. [HandoffRuntime] is the client of the runtime process of
      [v2_operator_handoff.rs], in a state monad whose state is whether the
      runtime is stopped, how often it was asked and what it answered; what the
      process does at each exchange is an argument. [AgentHandoff] is the
      coordinator of the Agent ([v2_agent_handoff.rs]), [HandoffCoordinator] that of
      the Hub ([v2_handoff_coordinator.rs]); [HandoffTheorems], and
      [HandoffExamples] with a device that has a hand-off.
    - [MutationAuthority]: the owner file and the lock of
      [mutation_authority.rs], by which one generation of gateways acts on a
      desktop, as calls on a directory with faults and power failures;
      [MutationAuthorityTheorems].

    ** What the theorems show

    - Unknown outcomes: nothing is executed again under the identifier of an
      operation whose outcome became unknown, except for a recovery read once the
      outcome was retired ([unknown_outcome_identifier_refused] for the Hub's
      ledger, [unknown_outcome_never_replayed] for admission alone,
      [agent_starts_operation_once] for the Agent); its device runs nothing but
      recovery reads until the outcome is established ([quarantine_contains],
      [quarantine_persists]); an accepted unknown click bars mutations until the
      local user resumes them ([mutation_barrier_holds]).
    - The ledger: it refines admission ([controller_refines_admission]), its
      records follow a life cycle ([ledger_follows_lifecycle]) and claim no outcome
      without evidence ([outcomes_are_justified]); refused calls leave no trace
      ([refused_calls_leave_no_trace]); results belong to their owner
      ([attached_result_is_the_owners]), and what pruning forgets is said exactly
      ([pruning_keeps_results]). Settling an operation leaves no capacity idle
      ([finalize_is_work_conserving]).
    - Restarts: which states the Hub, the registry, the grant ledger and the Agent
      gate restore, and to what ([controller_restart_iff],
      [restart_settles], [registry_restart_roundtrip], [agent_gate_restart_iff]).
    - Authority: grants are single-use and go only to allowed clients
      ([grant_single_use], [only_allowed_clients_get_grants]), revocation is
      permanent, keys change only by proved rotations, stale sessions are fenced.
    - Protocol: exact characterisations of the envelope checks and of the paged
      results.
    - The system of Hubs: in a run of the Hubs every command that was sent has a
      step of its own that made its dispatch durable, every receipt that was given
      comes from a step that made it durable, and whatever the store holds, now or
      after a crash, is the snapshot of a state of the operation controller
      ([hubs_refine_controller]), so that the guarantees on unknown outcomes
      hold across Hubs; two Hubs never both commit ([at_most_one_hub_commits]);
      sessions have generations of their own ([accepted_generations_are_fresh]);
      the sessions and decisions are runs of this system
      ([sessions_stay_in_the_system]).
    - Storage: a checkpoint is published atomically under every fault
      ([checkpoint_publication_is_atomic]), and acknowledged states are linear
      ([acknowledged_states_are_linear]).
    - Messages: what either side of a session accepts was signed by the other side
      as this message of this session, the messages of a recovery with their own
      content and nonce ([hub_messages_are_authentic],
      [agent_messages_are_authentic]), honest handshakes succeed, frames are read
      back; a recovery authorization was approved by the local user
      ([accepted_authorization_is_the_users]). Assumed are that a signature is not
      forged and that the JSON text of a signed message determines it; of SHA-256
      only the length of a digest is: where a WebAuthn key signs a hash, the theorem
      names the two inputs that collide.
    - References: they resolve only for whom and what they were made for
      ([hub_references_are_bound] and the theorems of [WorkflowRefsTheorems]).
    - The Agent on its device, over any number of processes, each of which may die
      at any effect, with faults of the file system and power failures: an
      operation is executed at most once ([agent_executes_at_most_once]); what is
      stored and sent about it is what its worker reported
      ([agent_reports_what_happened]), in this order
      ([results_follow_their_evidence]); it was commanded by the provisioned Hub
      with a grant of a configured key and the consent of the hand-off
      ([started_operations_are_authorized]); an Agent that lost control of a job
      fails closed for good ([unproven_jobs_fail_closed], which excludes a cleanup
      task that panics, [closed_agent_stays_closed]).
    - Both ends: every execution on a device has a step of its own in the run of the
      Hubs that made its dispatch durable, and no operation is executed twice in a
      generation ([executions_are_durable_dispatches]). The
      hypothesis [delivered] is what signatures and nonces give: the device enters
      sessions that the Hubs accepted and is given commands that they sent.
    - The hand-off: when the calls of a process to its coordinator are answered by
      the modelled coordinator over the modelled runtime, each protected command
      that runs has a call of its own at which the runtime allowed exactly it
      ([protected_commands_were_allowed]); a runtime that does not decide is
      never asked again ([admission_decides_or_stops]); the Hub and the Agent put
      the same question ([hub_and_agent_ask_alike]); a human is given only a window
      that was admitted in the last minute ([human_control_needs_a_fresh_window]).
    - The mutation authority: a permit excludes every other one and every change of
      the owner ([mutation_permit_is_exclusive]), and while the power lasts epochs
      never go back ([mutation_permits_are_ordered]).

    ** Bounds and fuel

    All definitions are total. The loops of the source are recursions on the list
    or map they consume. Loops that are not structural take fuel, and the fuel is
    shown to be enough: [rotate_retirements] and [bound_archive] get the number of
    entries they may remove, [dispatch_loop] the number of pending operations
    ([dispatch_next_ends]), [lifecycle_loop], which may run for ever, any number of
    attempts, of which [max_attempts] suffice when the Hub stays unreachable
    ([outbound_lifecycle_gives_up]). A session of the Agent and its reconnections
    run over the lists of what happens to them; a list that ends is a process that
    dies there. The loops that draw random identifiers are
    bounded in the source; their draws are arguments.

    ** Not modelled
    - The executors that the Agent's workers call (processes, shells, files, jobs,
      browsers, the desktop backend): their answers are arguments of the model, so
      that the theorems hold for all of them. The answers of the hand-off
      coordinator are an argument too; [HandoffTheorems] puts the modelled
      coordinator there.
    - HTTP, MCP, gRPC, TLS, OIDC and PostgreSQL: protocols of third parties. What
      the modelled code needs of them is an argument or a class.
    - The Rust scheduler: a task of the Hub is a sequence of atomic steps, the
      blocks under a lock; steps of several tasks interleave in any order.
    - Of the Hub, the wrappers of [HubHandle] that only build a command and wait
      for its reply; the waiting itself is a channel.
    - The operator tools, telemetry and the first-generation gateway.
    - The process that the hand-off runtime is, the hosted control service and the
      terminals: the model has the client of the runtime and what it checks. *)

From stdpp Require Export base gmap strings list sorting fin_maps fin_sets.
From stdpp Require Import options.
From Stdlib Require Export NArith Ascii.
From Stdlib Require String.

#[global] Set Default Goal Selector "!".
#[global] Set Warnings "-clear-no-such-hyp".

(** ** Rust [Result] *)

Inductive result (E A : Type) : Type :=
| Ok (a : A)
| Err (e : E).
Arguments Ok {E A} a.
Arguments Err {E A} e.

Definition is_ok {E A} (r : result E A) : bool :=
  match r with Ok _ => true | Err _ => false end.

#[export] Instance result_eq_dec {E A} `{EqDecision E, EqDecision A} :
  EqDecision (result E A).
Proof. solve_decision. Defined.

Declare Scope rust_scope.
Delimit Scope rust_scope with rust.

(** Early returns. [return_if b with r ;; k] is [if b { return r }; k];
    [let_some x := o else r ;; k] is [let Some(x) = o else { return r }; k]
    (and [let x = o.ok_or(e)?; k]); [let_ok x := m else e => r ;; k] is
    [let x = m?; k] with the error wrapped by [r]. *)
Notation "'return_if' b 'with' r ';;' k" :=
  (if (b : bool) then r else k)
  (at level 10, b at level 99, r at level 99, k at level 200,
   format "'[v' 'return_if'  b  'with'  r  ';;' '/' k ']'") : rust_scope.
Notation "'let_some' x ':=' o 'else' r ';;' k" :=
  (match o with Some x => k | None => r end)
  (at level 10, x pattern, o at level 99, r at level 99, k at level 200,
   format "'[v' 'let_some'  x  ':='  o  'else'  r  ';;' '/' k ']'") : rust_scope.
Notation "'let_ok' x ':=' m 'else' e '=>' r ';;' k" :=
  (match m with Ok x => k | Err e => r end)
  (at level 10, x pattern, m at level 99, e name, r at level 99, k at level 200,
   format "'[v' 'let_ok'  x  ':='  m  'else'  e  '=>'  r  ';;' '/' k ']'") : rust_scope.
Open Scope rust_scope.

(** ** Rust [Option]: [is_some_and], [is_none_or], [is_some], [is_none] *)

Definition is_some_and {A} (p : A → bool) (o : option A) : bool :=
  match o with Some a => p a | None => false end.
Definition is_none_or {A} (p : A → bool) (o : option A) : bool :=
  match o with Some a => p a | None => true end.
Definition opt_some {A} (o : option A) : bool := match o with Some _ => true | None => false end.
Definition opt_none {A} (o : option A) : bool := negb (opt_some o).

Definition opt_filter {A} (p : A → bool) (o : option A) : option A :=
  match o with Some a => if p a then Some a else None | None => None end.

Definition is_err {E A} (r : result E A) : bool := negb (is_ok r).

(** ** Machine integers: [u64] as [N], with the checked and saturating operations *)

Definition u64_max : N := 18446744073709551615.
Definition u32_max : N := 4294967295.

Definition saturating_mul (a b : N) : N := N.min (a * b) u64_max.

(** [u32::try_from] *)
Definition try_into_u32 (n : N) : option N := if (n <=? u32_max)%N then Some n else None.

Definition saturating_add (a b : N) : N := N.min (a + b) u64_max.

Definition checked_add (a b : N) : option N :=
  if (a + b <=? u64_max)%N then Some (a + b)%N else None.

Definition checked_sub (a b : N) : option N :=
  if (b <=? a)%N then Some (a - b)%N else None.

(** [Vec::len], [String::len] (bytes) and [HashMap::len] as [N]. *)
Definition vlen {A} (l : list A) : N := N.of_nat (length l).
Definition slen (s : string) : N := N.of_nat (String.length s).
Definition mlen {A} (m : gmap string A) : N := N.of_nat (size m).
Definition setlen (s : gset string) : N := N.of_nat (size s).

(** ** Strings: Rust strings are UTF-8 byte sequences, here [string] *)

Definition bytes (s : string) : list N := N_of_ascii <$> String.list_ascii_of_string s.
Definition of_bytes (l : list N) : string := String.string_of_list_ascii (ascii_of_N <$> l).

Definition in_range (lo hi b : N) : bool := (lo <=? b)%N && (b <=? hi)%N.

Definition is_ascii_digit (b : N) : bool := in_range 48 57 b.
Definition is_ascii_lowercase (b : N) : bool := in_range 97 122 b.
Definition is_ascii_uppercase (b : N) : bool := in_range 65 90 b.
Definition is_ascii_alphanumeric (b : N) : bool :=
  is_ascii_digit b || is_ascii_lowercase b || is_ascii_uppercase b.
Definition is_ascii_hexdigit (b : N) : bool :=
  is_ascii_digit b || in_range 97 102 b || in_range 65 70 b.
(** [byte.is_ascii_digit() || (b'a'..=b'f').contains(&byte)] *)
Definition is_lower_hexdigit (b : N) : bool := is_ascii_digit b || in_range 97 102 b.

Definition all_bytes (p : N → bool) (s : string) : bool := forallb p (bytes s).

(** The UTF-8 encodings of the characters with the Unicode [White_Space]
    property, by number of bytes. *)
Definition ws1 (b : N) : bool := in_range 9 13 b || (b =? 32)%N.
Definition ws2 (b c : N) : bool := (b =? 194)%N && ((c =? 133)%N || (c =? 160)%N).
Definition ws3 (b c d : N) : bool :=
  ((b =? 225)%N && (c =? 154)%N && (d =? 128)%N)
  || ((b =? 226)%N && (c =? 128)%N
      && (in_range 128 138 d || (d =? 168)%N || (d =? 169)%N || (d =? 175)%N))
  || ((b =? 226)%N && (c =? 129)%N && (d =? 159)%N)
  || ((b =? 227)%N && (c =? 128)%N && (d =? 128)%N).

Fixpoint all_whitespace (l : list N) : bool :=
  match l with
  | [] => true
  | b :: l1 =>
      if ws1 b then all_whitespace l1 else
      match l1 with
      | [] => false
      | c :: l2 =>
          if ws2 b c then all_whitespace l2 else
          match l2 with
          | [] => false
          | d :: l3 => if ws3 b c d then all_whitespace l3 else false
          end
      end
  end.

(** [s.trim().is_empty()] *)
Definition trim_is_empty (s : string) : bool := all_whitespace (bytes s).
#[global] Arguments trim_is_empty _ : simpl never.

Definition is_empty_string (s : string) : bool := bool_decide (s = "").

(** [s.chars().any(char::is_control)]: U+0000..001F, U+007F, U+0080..009F. *)
Fixpoint any_control (l : list N) : bool :=
  match l with
  | [] => false
  | b :: l1 =>
      in_range 0 31 b || (b =? 127)%N
      || match l1 with
         | c :: _ => (b =? 194)%N && in_range 128 159 c
         | [] => false
         end
      || any_control l1
  end.

(** [s.chars().count()]: the bytes that do not continue a character. *)
Definition chars_count (s : string) : N :=
  vlen (filter (λ b, in_range 128 191 b = false) (bytes s)).

(** [s.split('\n').count()] *)
Definition split_newline_count (s : string) : N :=
  (1 + vlen (filter (λ b, b = 10%N) (bytes s)))%N.

(** [s.ends_with('\n')] *)
Definition ends_with_newline (s : string) : bool := bool_decide (last (bytes s) = Some 10%N).

(** [String::from_utf8] accepts exactly the well-formed UTF-8 sequences: no
    overlong forms, no surrogates, nothing above U+10FFFF. *)
Definition utf8_cont (b : N) : bool := in_range 128 191 b.
Fixpoint utf8_valid (l : list N) : bool :=
  match l with
  | [] => true
  | b :: l1 =>
      if (b <? 128)%N then utf8_valid l1 else
      match l1 with
      | [] => false
      | c :: l2 =>
          if in_range 194 223 b then utf8_cont c && utf8_valid l2 else
          match l2 with
          | [] => false
          | d :: l3 =>
              if in_range 224 239 b then
                in_range (if (b =? 224)%N then 160 else 128) (if (b =? 237)%N then 159 else 191) c
                && utf8_cont d && utf8_valid l3
              else
              match l3 with
              | [] => false
              | e :: l4 =>
                  in_range 240 244 b
                  && in_range (if (b =? 240)%N then 144 else 128)
                       (if (b =? 244)%N then 143 else 191) c
                  && utf8_cont d && utf8_cont e && utf8_valid l4
              end
          end
      end
  end.

Definition from_utf8 (l : list N) : option string :=
  if utf8_valid l then Some (of_bytes l) else None.

(** [s.strip_prefix(p)] *)
Fixpoint strip_prefix (p s : string) : option string :=
  match p, s with
  | EmptyString, _ => Some s
  | String a p', String b s' => if bool_decide (a = b) then strip_prefix p' s' else None
  | String _ _, EmptyString => None
  end.

(** ** Iteration over [HashMap] and [HashSet]

    The iteration order of a hash map is unspecified; a model of one run of the
    program fixes it, and the theorems hold for every choice. *)
Class HashIter := {
  hash_iter : ∀ {A : Type}, gmap string A → list (string * A);
  hash_iter_perm : ∀ {A : Type} (m : gmap string A), hash_iter m ≡ₚ map_to_list m
}.

Definition canonical_hash_iter : HashIter :=
  {| hash_iter := λ A m, map_to_list m; hash_iter_perm := λ A m, Permutation_refl _ |}.

Definition reversed_hash_iter : HashIter.
Proof.
  refine {| hash_iter := λ A m, reverse (map_to_list m) |}.
  intros A m. apply reverse_Permutation.
Defined.

(** Iteration over a set is iteration over the map with the same keys. *)
Definition hash_set_iter `{HashIter} (X : gset string) : list string :=
  (hash_iter (gset_to_gmap tt X)).*1.

(** The order of [sort] on byte strings. *)
Fixpoint lex_leb (a b : list N) : bool :=
  match a, b with
  | [], _ => true
  | _ :: _, [] => false
  | x :: a, y :: b => if (x <? y)%N then true else if (x =? y)%N then lex_leb a b else false
  end.
Definition bytes_le (a b : list N) : Prop := lex_leb a b = true.
#[export] Instance bytes_le_dec : RelDecision bytes_le.
Proof. intros a b. unfold bytes_le. apply _. Defined.

(** ** Tactics and hints *)

(** The preservation lemmas of the components' operations. *)
Create HintDb admission.


(** Turn the boolean guards of the code into propositions. *)
Ltac split_bools :=
  repeat match goal with
  | H : _ && _ = true |- _ => apply andb_true_iff in H as [? ?]
  | H : _ || _ = false |- _ => apply orb_false_iff in H as [? ?]
  | H : negb _ = false |- _ => apply negb_false_iff in H
  | H : negb _ = true |- _ => apply negb_true_iff in H
  | H : bool_decide _ = true |- _ => apply bool_decide_eq_true in H
  | H : bool_decide _ = false |- _ => apply bool_decide_eq_false in H
  | H : (_ =? _)%N = true |- _ => apply N.eqb_eq in H
  | H : (_ =? _)%N = false |- _ => apply N.eqb_neq in H
  | H : (_ <=? _)%N = true |- _ => apply N.leb_le in H
  | H : (_ <=? _)%N = false |- _ => apply N.leb_gt in H
  | H : (_ <? _)%N = true |- _ => apply N.ltb_lt in H
  | H : (_ <? _)%N = false |- _ => apply N.ltb_ge in H
  | H : Bool.eqb _ _ = true |- _ => apply Bool.eqb_prop in H
  end.

Ltac no_match x := lazymatch x with context [match _ with _ => _ end] => fail | _ => idtac end.

(** Run the code in hypothesis [H]: destruct every scrutinee, keep the
    branches that can produce the stated result. *)
Ltac run H :=
  repeat (match type of H with
          | context [match ?x with _ => _ end] =>
              no_match x; let E := fresh "E" in destruct x eqn:E; try discriminate H
          end);
  simplify_eq/=; repeat match goal with u : unit |- _ => destruct u end; split_bools.

(** Closes an equation between closed terms by evaluating both sides in the
    virtual machine (and not their types, which [vm_compute] would normalise). *)
Ltac by_eval := match goal with |- ?a = ?b => exact (eq_refl b <: a = b) end.

(** [run] for the goal. *)
Ltac run_goal :=
  repeat match goal with
  | |- context [match ?x with _ => _ end] =>
      no_match x; let E := fresh "E" in destruct x eqn:E; try discriminate
  end; simplify_eq/=; split_bools.

(** Propositional reasoning from the facts at hand, without the quantified
    hypotheses. *)
Ltac solve_facts :=
  repeat match goal with H : ∀ _, _ |- _ => clear H end;
  solve [intuition congruence | naive_solver].

(** ** Order on strings *)

Lemma string_compare_refl (s : string) : String.compare s s = Eq.
Proof.
  induction s as [|a s IH]; simpl; [done|].
  unfold Ascii.compare. by rewrite N.compare_refl.
Qed.

Lemma string_ltb_iff (a b : string) : String.ltb a b = true ↔ String.le a b ∧ a ≠ b.
Proof.
  unfold String.ltb, String.le, String.leb.
  destruct (String.compare a b) eqn:E; simpl.
  - apply String.compare_eq_iff in E. naive_solver.
  - split; [|done]. intros _. split; [done|]. intros ->.
    by rewrite string_compare_refl in E.
  - naive_solver.
Qed.

Lemma string_ltb_trans (a b c : string) :
  String.ltb a b = true → String.ltb b c = true → String.ltb a c = true.
Proof.
  rewrite !string_ltb_iff. intros [Hab Hne] [Hbc Hne']. split; [by etrans|].
  intros ->. apply Hne. by apply (anti_symm String.le).
Qed.

Lemma string_ltb_irrefl (a : string) : String.ltb a a = false.
Proof.
  destruct (String.ltb a a) eqn:E; [|done]. apply string_ltb_iff in E as [_ []]. done.
Qed.

#[export] Instance string_ltb_transitive : Transitive (λ a b, String.ltb a b = true).
Proof. intros a b c. apply string_ltb_trans. Qed.

(** ** Byte strings *)

Lemma of_bytes_bytes (s : string) : of_bytes (bytes s) = s.
Proof.
  unfold of_bytes, bytes. induction s as [|a s IH]; [done|].
  cbn. f_equal; [apply ascii_N_embedding|exact IH].
Qed.

Lemma length_bytes (s : string) : length (bytes s) = String.length s.
Proof. unfold bytes. rewrite length_fmap. induction s as [|a s IH]; [done|]. cbn. by rewrite IH. Qed.

Lemma bytes_u8 (s : string) : Forall (λ b, b < 256)%N (bytes s).
Proof.
  unfold bytes. apply Forall_fmap, Forall_true. intros a. apply N_ascii_bounded.
Qed.

Lemma bytes_inj (s s' : string) : bytes s = bytes s' → s = s'.
Proof. intros Heq. by rewrite <-(of_bytes_bytes s), Heq, of_bytes_bytes. Qed.

Lemma strip_prefix_app (p s : string) : strip_prefix p (p +:+ s) = Some s.
Proof.
  induction p as [|a p IH]; [done|]. change (String a p +:+ s) with (String a (p +:+ s)).
  cbn [strip_prefix]. by rewrite bool_decide_true by done.
Qed.

Lemma strip_prefix_Some (p s s' : string) : strip_prefix p s = Some s' → s = p +:+ s'.
Proof.
  revert s. induction p as [|a p IH]; intros [|b s]; cbn; try by intros [= <-].
  case_bool_decide as Heq; [|done]. intros ->%IH. by rewrite Heq.
Qed.

(** ** Options, lists and sums *)

Lemma checked_add_Some a b c : checked_add a b = Some c ↔ c = (a + b)%N ∧ (a + b ≤ u64_max)%N.
Proof. unfold checked_add. destruct (N.leb_spec (a + b) u64_max); naive_solver lia. Qed.

Lemma checked_sub_Some a b c : checked_sub a b = Some c ↔ c = (a - b)%N ∧ (b ≤ a)%N.
Proof. unfold checked_sub. destruct (N.leb_spec b a); naive_solver lia. Qed.

Lemma checked_sub_le a b : (b ≤ a)%N → checked_sub a b = Some (a - b)%N.
Proof. intros. by apply checked_sub_Some. Qed.

Lemma vlen_app {A} (l k : list A) : vlen (l ++ k) = (vlen l + vlen k)%N.
Proof. unfold vlen. rewrite length_app. lia. Qed.

(** ** Invariants of transition systems *)

Lemma NoDup_fmap_inj {A B} (f : A → B) (l : list A) x y :
  NoDup (f <$> l) → x ∈ l → y ∈ l → f x = f y → x = y.
Proof.
  induction l as [|a l IH]; intros Hnd Hx Hy Hf; [by apply elem_of_nil in Hx|].
  cbn in Hnd. apply NoDup_cons in Hnd as [Hn Hnd].
  apply elem_of_cons in Hx as [->|Hx], Hy as [->|Hy]; [done| | |by apply IH];
    exfalso; apply Hn; [rewrite Hf|rewrite <- Hf]; by apply list_elem_of_fmap_2.
Qed.

Lemma elem_of_delete {A} i (l : list A) x : x ∈ delete i l → x ∈ l.
Proof.
  revert i. induction l as [|a l IH]; intros [|i]; cbn; rewrite ?elem_of_cons; naive_solver.
Qed.

Lemma rtc_invariant {A} (R : relation A) (P : A → Prop) :
  (∀ x y, R x y → P x → P y) → ∀ x y, rtc R x y → P x → P y.
Proof. intros Hstep x y Hxy. induction Hxy; eauto. Qed.

(** ** Sorted snapshots of hash maps and sets *)

Section HashIteration.
Context `{HI : HashIter}.

Lemma elem_of_hash_iter {A} (m : gmap string A) k a : (k, a) ∈ hash_iter m ↔ m !! k = Some a.
Proof. rewrite hash_iter_perm. apply elem_of_map_to_list. Qed.

Lemma elem_of_hash_set_iter (X : gset string) k : k ∈ hash_set_iter X ↔ k ∈ X.
Proof.
  unfold hash_set_iter. rewrite list_elem_of_fmap. split.
  - intros ([k' []] & -> & Hin). apply elem_of_hash_iter in Hin.
    by apply lookup_gset_to_gmap_Some in Hin as [? _].
  - intros Hin. exists (k, tt). split; [done|].
    apply elem_of_hash_iter. by apply lookup_gset_to_gmap_Some.
Qed.

(** A sorted projection of the entries of a map is the projection of some
    enumeration of the map. *)
Lemma sorted_hash_iter {A B} (f : string * A → B) (R : relation B) `{!RelDecision R}
    (m : gmap string A) :
  ∃ l, merge_sort R (f <$> hash_iter m) = f <$> l ∧ l ≡ₚ map_to_list m.
Proof.
  assert (merge_sort R (f <$> hash_iter m) ≡ₚ map f (hash_iter m))
    as (l & Hl & Hp)%Permutation_map_inv by apply merge_sort_Permutation.
  exists l. split; [done|]. by rewrite <-Hp, hash_iter_perm.
Qed.

Lemma sorted_hash_set (R : relation string) `{!RelDecision R} (X : gset string) :
  list_to_set (merge_sort R (hash_set_iter X)) = X.
Proof.
  apply set_eq. intros k. rewrite elem_of_list_to_set, merge_sort_Permutation.
  apply elem_of_hash_set_iter.
Qed.
End HashIteration.

Lemma list_to_map_perm {A} (l : list (string * A)) (m : gmap string A) :
  l ≡ₚ map_to_list m → list_to_map l = m.
Proof.
  intros Hp. rewrite (list_to_map_proper l (map_to_list m)), list_to_map_to_list;
    [done|rewrite Hp; apply NoDup_fst_map_to_list|done].
Qed.
