(* ===== verification/Vocabulary.v ===== *)
(** * Vocabulary of the Hub-Agent control protocol

    The data types that [src/src/v2_m0.rs] shares between the Hub and the Agent:
    capability classes and capabilities, the semantic [DeviceCommand]s, their
    [DeviceResult]s and the safe error codes, with the browser commands of
    [src/src/v2_browser_runtime.rs] and the managed-job status types they carry.
    Every enum is a module holding an inductive type of the same name, so that a
    variant reads [DeviceCommand.Screenshot] as it does in the source; structs
    are records in the same way. Integers are [N] ([u8] to [u64]) or [Z]
    ([i32]), strings are UTF-8 byte strings. *)

From S2P Require Import Prelude.

(** ** Capabilities *)

Module CapabilityClass.
Inductive CapabilityClass :=
| Observe
| Interact
| System
| Dangerous.
#[global] Instance CapabilityClass_eq_dec : EqDecision CapabilityClass.
Proof. solve_decision. Defined.
End CapabilityClass.
Abbreviation CapabilityClass := CapabilityClass.CapabilityClass.

Module DeviceCapability.
Inductive DeviceCapability :=
| ListApplications
| ScreenGeometry
| Screenshot
| PointerClick
| PointerDrag
| TypeText
| ExecuteProcess
| Shell
| ReadProcessOutput
| ManagedJobControl
| ManagedJobObserve
| PlaywrightTestControl
| PlaywrightTestObserve
| ReadFile
| ListDirectory
| WriteWorkspaceFile
| ListWindows
| LaunchApplication
| InspectWindow
| VerifyUiState
| TerminateApplication
| ActivateWindow
| SetWindowFrame
| InvokeMenu
| KeyboardInput
| Scroll
| ClipboardRead
| ClipboardWrite
| PointerPosition
| MovePointer
| SetUiValue
| CaptureRegion
| DesktopScope
| BrowserInspect
| BrowserPrepare
| BrowserNavigate
| BrowserClick
| BrowserType
| BrowserDialog
| BrowserPointer
| BrowserUploadFile
| BrowserDownload.
#[global] Instance DeviceCapability_eq_dec : EqDecision DeviceCapability.
Proof. solve_decision. Defined.
End DeviceCapability.
Abbreviation DeviceCapability := DeviceCapability.DeviceCapability.

(** ** Input and UI vocabulary *)

Module PointerButton.
Inductive PointerButton :=
| Left
| Right
| Middle.
#[global] Instance PointerButton_eq_dec : EqDecision PointerButton.
Proof. solve_decision. Defined.
End PointerButton.
Abbreviation PointerButton := PointerButton.PointerButton.

Module InputDeliveryMode.
Inductive InputDeliveryMode :=
| Background
| Foreground.
#[global] Instance InputDeliveryMode_eq_dec : EqDecision InputDeliveryMode.
Proof. solve_decision. Defined.
End InputDeliveryMode.
Abbreviation InputDeliveryMode := InputDeliveryMode.InputDeliveryMode.

Module KeyboardModifier.
Inductive KeyboardModifier :=
| Meta
| Shift
| Alt
| Control
| Function.
#[global] Instance KeyboardModifier_eq_dec : EqDecision KeyboardModifier.
Proof. solve_decision. Defined.
End KeyboardModifier.
Abbreviation KeyboardModifier := KeyboardModifier.KeyboardModifier.

Module UiElementAction.
Inductive UiElementAction :=
| Press
| Open
| ShowMenu
| Pick
| Confirm
| Cancel.
#[global] Instance UiElementAction_eq_dec : EqDecision UiElementAction.
Proof. solve_decision. Defined.
End UiElementAction.
Abbreviation UiElementAction := UiElementAction.UiElementAction.

Module PointerTarget.
Inductive PointerTarget :=
| DesktopPhysical (x : Z) (y : Z)
| WindowPhysical (process_id : N) (window_id : N) (x : Z) (y : Z)
| Element (process_id : N) (window_id : N) (element_ref : string).
#[global] Instance PointerTarget_eq_dec : EqDecision PointerTarget.
Proof. solve_decision. Defined.
End PointerTarget.
Abbreviation PointerTarget := PointerTarget.PointerTarget.

Module InputTarget.
Inductive InputTarget :=
| Desktop
| Window (process_id : N) (window_id : option N)
| WindowPoint (process_id : N) (window_id : N) (x : Z) (y : Z)
| Element (process_id : N) (window_id : N) (element_ref : string).
#[global] Instance InputTarget_eq_dec : EqDecision InputTarget.
Proof. solve_decision. Defined.
End InputTarget.
Abbreviation InputTarget := InputTarget.InputTarget.

Module ScrollDirection.
Inductive ScrollDirection :=
| Up
| Down
| Left
| Right.
#[global] Instance ScrollDirection_eq_dec : EqDecision ScrollDirection.
Proof. solve_decision. Defined.
End ScrollDirection.
Abbreviation ScrollDirection := ScrollDirection.ScrollDirection.

Module ScrollGranularity.
Inductive ScrollGranularity :=
| Line
| Page.
#[global] Instance ScrollGranularity_eq_dec : EqDecision ScrollGranularity.
Proof. solve_decision. Defined.
End ScrollGranularity.
Abbreviation ScrollGranularity := ScrollGranularity.ScrollGranularity.

Module ScrollTarget.
Inductive ScrollTarget :=
| Window (process_id : N) (window_id : option N)
| WindowPoint (process_id : N) (window_id : N) (x : Z) (y : Z)
| DesktopPoint (x : Z) (y : Z).
#[global] Instance ScrollTarget_eq_dec : EqDecision ScrollTarget.
Proof. solve_decision. Defined.
End ScrollTarget.
Abbreviation ScrollTarget := ScrollTarget.ScrollTarget.

Module ProcessEnvVar.
Record ProcessEnvVar := mk {
  key : string;
  value : string
}.
#[global] Instance ProcessEnvVar_eq_dec : EqDecision ProcessEnvVar.
Proof. solve_decision. Defined.
End ProcessEnvVar.
Abbreviation ProcessEnvVar := ProcessEnvVar.ProcessEnvVar.

Module ProcessRequest.
Record ProcessRequest := mk {
  program : string;
  args : list string;
  cwd : string;
  env : list ProcessEnvVar;
  timeout_ms : N
}.
#[global] Instance ProcessRequest_eq_dec : EqDecision ProcessRequest.
Proof. solve_decision. Defined.
End ProcessRequest.
Abbreviation ProcessRequest := ProcessRequest.ProcessRequest.

Module ShellRequest.
Record ShellRequest := mk {
  command : string;
  cwd : string;
  env : list ProcessEnvVar;
  timeout_ms : N
}.
#[global] Instance ShellRequest_eq_dec : EqDecision ShellRequest.
Proof. solve_decision. Defined.
End ShellRequest.
Abbreviation ShellRequest := ShellRequest.ShellRequest.

Module ProcessOutput.
Record ProcessOutput := mk {
  exit_code : option Z;
  stdout : string;
  stderr : string;
  stdout_truncated : bool;
  stderr_truncated : bool;
  timed_out : bool;
  cancelled : bool;
  duration_ms : N
}.
#[global] Instance ProcessOutput_eq_dec : EqDecision ProcessOutput.
Proof. solve_decision. Defined.
End ProcessOutput.
Abbreviation ProcessOutput := ProcessOutput.ProcessOutput.

Module ProcessOutputStream.
Inductive ProcessOutputStream :=
| Stdout
| Stderr.
#[global] Instance ProcessOutputStream_eq_dec : EqDecision ProcessOutputStream.
Proof. solve_decision. Defined.
End ProcessOutputStream.
Abbreviation ProcessOutputStream := ProcessOutputStream.ProcessOutputStream.

Module ProcessOutputRef.
Record ProcessOutputRef := mk {
  output_ref : string;
  retained_bytes : N;
  complete : bool
}.
#[global] Instance ProcessOutputRef_eq_dec : EqDecision ProcessOutputRef.
Proof. solve_decision. Defined.
End ProcessOutputRef.
Abbreviation ProcessOutputRef := ProcessOutputRef.ProcessOutputRef.

Module ProcessOutputRefs.
Record ProcessOutputRefs := mk {
  stdout : option ProcessOutputRef;
  stderr : option ProcessOutputRef
}.
#[global] Instance ProcessOutputRefs_eq_dec : EqDecision ProcessOutputRefs.
Proof. solve_decision. Defined.
End ProcessOutputRefs.
Abbreviation ProcessOutputRefs := ProcessOutputRefs.ProcessOutputRefs.

Module AgentProcessOutputLocator.
Record AgentProcessOutputLocator := mk {
  locator : string;
  retained_bytes : N;
  complete : bool
}.
#[global] Instance AgentProcessOutputLocator_eq_dec : EqDecision AgentProcessOutputLocator.
Proof. solve_decision. Defined.
End AgentProcessOutputLocator.
Abbreviation AgentProcessOutputLocator := AgentProcessOutputLocator.AgentProcessOutputLocator.

Module AgentProcessOutputLocators.
Record AgentProcessOutputLocators := mk {
  stdout : option AgentProcessOutputLocator;
  stderr : option AgentProcessOutputLocator
}.
#[global] Instance AgentProcessOutputLocators_eq_dec : EqDecision AgentProcessOutputLocators.
Proof. solve_decision. Defined.
End AgentProcessOutputLocators.
Abbreviation AgentProcessOutputLocators := AgentProcessOutputLocators.AgentProcessOutputLocators.

Module DirectoryEntryKind.
Inductive DirectoryEntryKind :=
| File
| Directory
| Symlink
| Other.
#[global] Instance DirectoryEntryKind_eq_dec : EqDecision DirectoryEntryKind.
Proof. solve_decision. Defined.
End DirectoryEntryKind.
Abbreviation DirectoryEntryKind := DirectoryEntryKind.DirectoryEntryKind.

Module DirectoryEntry.
Record DirectoryEntry := mk {
  name : string;
  kind : DirectoryEntryKind
}.
#[global] Instance DirectoryEntry_eq_dec : EqDecision DirectoryEntry.
Proof. solve_decision. Defined.
End DirectoryEntry.
Abbreviation DirectoryEntry := DirectoryEntry.DirectoryEntry.

Module UiRect.
Record UiRect := mk {
  x : Z;
  y : Z;
  width : N;
  height : N
}.
#[global] Instance UiRect_eq_dec : EqDecision UiRect.
Proof. solve_decision. Defined.
End UiRect.
Abbreviation UiRect := UiRect.UiRect.

Module WindowInfo.
Record WindowInfo := mk {
  window_id : N;
  process_id : N;
  application : string;
  title : string;
  bounds : UiRect;
  is_on_screen : bool;
  on_current_workspace : option bool
}.
#[global] Instance WindowInfo_eq_dec : EqDecision WindowInfo.
Proof. solve_decision. Defined.
End WindowInfo.
Abbreviation WindowInfo := WindowInfo.WindowInfo.

Module UiRole.
Inductive UiRole :=
| Window
| Button
| Text
| TextField
| Checkbox
| RadioButton
| Link
| Menu
| MenuItem
| Toolbar
| Tab
| List
| ListItem
| Table
| Row
| Cell
| Group
| Image
| Slider
| Other.
#[global] Instance UiRole_eq_dec : EqDecision UiRole.
Proof. solve_decision. Defined.
End UiRole.
Abbreviation UiRole := UiRole.UiRole.

Module UiElement.
Record UiElement := mk {
  element_ref : string;
  role : UiRole;
  label : option string;
  value : option string;
  bounds : option UiRect;
  enabled : option bool;
  selected : option bool;
  parent_ref : option string;
  depth : N
}.
#[global] Instance UiElement_eq_dec : EqDecision UiElement.
Proof. solve_decision. Defined.
End UiElement.
Abbreviation UiElement := UiElement.UiElement.

Module UiElementSelector.
Record UiElementSelector := mk {
  role : option UiRole;
  label_contains : option string
}.
#[global] Instance UiElementSelector_eq_dec : EqDecision UiElementSelector.
Proof. solve_decision. Defined.
End UiElementSelector.
Abbreviation UiElementSelector := UiElementSelector.UiElementSelector.

Module UiPredicate.
Inductive UiPredicate :=
| WindowExists (exists_ : bool)
| WindowBounds (bounds : UiRect) (tolerance_px : N)
| ElementExists (selector : UiElementSelector)
| ElementState (selector : UiElementSelector) (enabled : option bool)
    (selected : option bool) (value_equals : option string).
#[global] Instance UiPredicate_eq_dec : EqDecision UiPredicate.
Proof. solve_decision. Defined.
End UiPredicate.
Abbreviation UiPredicate := UiPredicate.UiPredicate.

Module VerificationStatus.
Inductive VerificationStatus :=
| Satisfied
| Unsatisfied
| Unknown.
#[global] Instance VerificationStatus_eq_dec : EqDecision VerificationStatus.
Proof. solve_decision. Defined.
End VerificationStatus.
Abbreviation VerificationStatus := VerificationStatus.VerificationStatus.

Module UiPredicateResult.
Record UiPredicateResult := mk {
  status : VerificationStatus;
  unknown_reason : option string
}.
#[global] Instance UiPredicateResult_eq_dec : EqDecision UiPredicateResult.
Proof. solve_decision. Defined.
End UiPredicateResult.
Abbreviation UiPredicateResult := UiPredicateResult.UiPredicateResult.

Module UiImage.
Record UiImage := mk {
  data_base64 : string;
  mime_type : string;
  width_pixels : N;
  height_pixels : N
}.
#[global] Instance UiImage_eq_dec : EqDecision UiImage.
Proof. solve_decision. Defined.
End UiImage.
Abbreviation UiImage := UiImage.UiImage.

Module WorkspaceWritePrecondition.
Inductive WorkspaceWritePrecondition :=
| ExpectedAbsent
| ExpectedSha256 (sha256 : string).
#[global] Instance WorkspaceWritePrecondition_eq_dec : EqDecision WorkspaceWritePrecondition.
Proof. solve_decision. Defined.
End WorkspaceWritePrecondition.
Abbreviation WorkspaceWritePrecondition := WorkspaceWritePrecondition.WorkspaceWritePrecondition.

(** The validated payload newtypes: transparent wrappers around a string. *)
Module BrowserUploadPayload.
Record BrowserUploadPayload := mk { as_str : string }.
End BrowserUploadPayload.
Abbreviation BrowserUploadPayload := BrowserUploadPayload.BrowserUploadPayload.

Module WorkspaceWritePath.
Record WorkspaceWritePath := mk { as_str : string }.
End WorkspaceWritePath.
Abbreviation WorkspaceWritePath := WorkspaceWritePath.WorkspaceWritePath.

Module WorkspaceWritePayload.
Record WorkspaceWritePayload := mk { as_str : string }.
End WorkspaceWritePayload.
Abbreviation WorkspaceWritePayload := WorkspaceWritePayload.WorkspaceWritePayload.

(** ** Browser commands and results *)

Module BrowserPrepareProfileMode.
Inductive BrowserPrepareProfileMode :=
| IsolatedNew
| IsolatedNamed
| ExistingProfile.
#[global] Instance BrowserPrepareProfileMode_eq_dec : EqDecision BrowserPrepareProfileMode.
Proof. solve_decision. Defined.
End BrowserPrepareProfileMode.
Abbreviation BrowserPrepareProfileMode := BrowserPrepareProfileMode.BrowserPrepareProfileMode.

Module BrowserInputRoute.
Inductive BrowserInputRoute :=
| Trusted
| DomEvent.
#[global] Instance BrowserInputRoute_eq_dec : EqDecision BrowserInputRoute.
Proof. solve_decision. Defined.
End BrowserInputRoute.
Abbreviation BrowserInputRoute := BrowserInputRoute.BrowserInputRoute.

Module BrowserTypeMode.
Inductive BrowserTypeMode :=
| InsertText
| Keystrokes.
#[global] Instance BrowserTypeMode_eq_dec : EqDecision BrowserTypeMode.
Proof. solve_decision. Defined.
End BrowserTypeMode.
Abbreviation BrowserTypeMode := BrowserTypeMode.BrowserTypeMode.

Module BrowserDialogAction.
Inductive BrowserDialogAction :=
| Inspect
| Accept
| Dismiss.
#[global] Instance BrowserDialogAction_eq_dec : EqDecision BrowserDialogAction.
Proof. solve_decision. Defined.
End BrowserDialogAction.
Abbreviation BrowserDialogAction := BrowserDialogAction.BrowserDialogAction.

Module BrowserDialogDelivery.
Inductive BrowserDialogDelivery :=
| Background
| Foreground.
#[global] Instance BrowserDialogDelivery_eq_dec : EqDecision BrowserDialogDelivery.
Proof. solve_decision. Defined.
End BrowserDialogDelivery.
Abbreviation BrowserDialogDelivery := BrowserDialogDelivery.BrowserDialogDelivery.

Module BrowserPointerAction.
Inductive BrowserPointerAction :=
| Hover
| RightClick
| DoubleClick
| Scroll
| Drag.
#[global] Instance BrowserPointerAction_eq_dec : EqDecision BrowserPointerAction.
Proof. solve_decision. Defined.
End BrowserPointerAction.
Abbreviation BrowserPointerAction := BrowserPointerAction.BrowserPointerAction.

Module BrowserAction.
Inductive BrowserAction :=
| Click
| Type_
| Pointer
| Scroll
| Upload.
#[global] Instance BrowserAction_eq_dec : EqDecision BrowserAction.
Proof. solve_decision. Defined.
End BrowserAction.
Abbreviation BrowserAction := BrowserAction.BrowserAction.

Module BrowserRuntimeCapability.
Inductive BrowserRuntimeCapability :=
| Inspect
| Prepare
| Navigate
| Click
| Type_
| Dialog
| Pointer
| UploadFile
| Download.
#[global] Instance BrowserRuntimeCapability_eq_dec : EqDecision BrowserRuntimeCapability.
Proof. solve_decision. Defined.
End BrowserRuntimeCapability.
Abbreviation BrowserRuntimeCapability := BrowserRuntimeCapability.BrowserRuntimeCapability.

Module BrowserBackendClickTarget.
Inductive BrowserBackendClickTarget :=
| Element (backend_element_ref : string)
| ViewportCss (x : Z) (y : Z).
#[global] Instance BrowserBackendClickTarget_eq_dec : EqDecision BrowserBackendClickTarget.
Proof. solve_decision. Defined.
End BrowserBackendClickTarget.
Abbreviation BrowserBackendClickTarget := BrowserBackendClickTarget.BrowserBackendClickTarget.

Module BrowserStagedUploadFile.
Record BrowserStagedUploadFile := mk {
  backend_file_handle : string
}.
#[global] Instance BrowserStagedUploadFile_eq_dec : EqDecision BrowserStagedUploadFile.
Proof. solve_decision. Defined.
End BrowserStagedUploadFile.
Abbreviation BrowserStagedUploadFile := BrowserStagedUploadFile.BrowserStagedUploadFile.

Module BrowserBackendCommand.
Inductive BrowserBackendCommand :=
| Prepare (context_id : string) (process_id : N) (window_id : option N)
    (allow_launch : bool) (profile_mode : BrowserPrepareProfileMode)
    (profile_name : option string)
| Bind (context_id : string) (process_id : N) (window_id : N)
| Inspect (context_id : string) (backend_target_id : string) (backend_tab_id : string)
    (backend_scope_ref : option string) (query : option string)
    (backend_continuation : option string) (include_screenshot : bool)
| Navigate (context_id : string) (backend_target_id : string) (backend_tab_id : string)
    (url : string)
| Click (context_id : string) (backend_target_id : string) (backend_tab_id : string)
    (target : BrowserBackendClickTarget) (input_route : BrowserInputRoute)
| Type_ (context_id : string) (backend_target_id : string) (backend_tab_id : string)
    (backend_element_ref : string) (text : string) (mode : BrowserTypeMode) (replace : bool)
| Dialog (context_id : string) (backend_target_id : string) (backend_tab_id : string)
    (backend_dialog_id : option string) (action : BrowserDialogAction)
    (prompt_text : option string) (delivery : BrowserDialogDelivery)
| Pointer (context_id : string) (backend_target_id : string) (backend_tab_id : string)
    (backend_element_ref : string) (action : BrowserPointerAction)
    (backend_destination_ref : option string) (delta_x : Z) (delta_y : Z)
    (input_route : BrowserInputRoute)
| Upload (context_id : string) (backend_target_id : string) (backend_tab_id : string)
    (backend_element_ref : string) (staged_files : list BrowserStagedUploadFile)
| Download (context_id : string) (backend_target_id : string) (backend_tab_id : string)
    (backend_element_ref : string) (destination_name : string) (max_bytes : N)
    (overwrite : bool).
End BrowserBackendCommand.
Abbreviation BrowserBackendCommand := BrowserBackendCommand.BrowserBackendCommand.

Module BrowserBackendTab.
Record BrowserBackendTab := mk {
  backend_tab_id : string;
  title : option string;
  url : option string;
  active : option bool
}.
#[global] Instance BrowserBackendTab_eq_dec : EqDecision BrowserBackendTab.
Proof. solve_decision. Defined.
End BrowserBackendTab.
Abbreviation BrowserBackendTab := BrowserBackendTab.BrowserBackendTab.

Module BrowserBackendSemanticRef.
Record BrowserBackendSemanticRef := mk {
  backend_ref : string;
  role : string;
  name : option string;
  value : option string;
  states : list string;
  actions : list BrowserAction;
  frame : string;
  visibility : string
}.
#[global] Instance BrowserBackendSemanticRef_eq_dec : EqDecision BrowserBackendSemanticRef.
Proof. solve_decision. Defined.
End BrowserBackendSemanticRef.
Abbreviation BrowserBackendSemanticRef := BrowserBackendSemanticRef.BrowserBackendSemanticRef.

Module BrowserBackendScreenshot.
Record BrowserBackendScreenshot := mk {
  data_base64 : string;
  mime_type : string;
  width_pixels : N;
  height_pixels : N;
  viewport_css_width : N;
  viewport_css_height : N;
  pixel_to_css_scale_x_millionths : N;
  pixel_to_css_scale_y_millionths : N
}.
#[global] Instance BrowserBackendScreenshot_eq_dec : EqDecision BrowserBackendScreenshot.
Proof. solve_decision. Defined.
End BrowserBackendScreenshot.
Abbreviation BrowserBackendScreenshot := BrowserBackendScreenshot.BrowserBackendScreenshot.

Module BrowserMutationEffect.
Inductive BrowserMutationEffect :=
| Dispatched
| Unverifiable.
#[global] Instance BrowserMutationEffect_eq_dec : EqDecision BrowserMutationEffect.
Proof. solve_decision. Defined.
End BrowserMutationEffect.
Abbreviation BrowserMutationEffect := BrowserMutationEffect.BrowserMutationEffect.

Module BrowserBackendResult.
Inductive BrowserBackendResult :=
| Prepared (prepared : bool) (prepared_process_id : option N) (side_effect_count : N)
| Bound (backend_target_id : string) (process_id : N) (window_id : N)
    (tabs : list BrowserBackendTab)
| Snapshot (backend_snapshot_id : string) (outline : string)
    (action_refs : list BrowserBackendSemanticRef)
    (content_refs : list BrowserBackendSemanticRef) (complete : bool) (omitted : N)
    (backend_continuation : option string) (screenshot : option BrowserBackendScreenshot)
| NavigationCompleted
| ClickCompleted (effect : BrowserMutationEffect)
| TypeCompleted
| DialogObserved (present : bool) (backend_dialog_id : option string) (kind : option string)
| DialogCompleted
| PointerCompleted
| UploadAssigned (file_count : N)
| DownloadStaged (backend_download_id : string) (bytes_written : N)
| DownloadCompleted (backend_download_handle : string) (destination_name : string)
    (bytes_written : N) (data_base64 : string).
End BrowserBackendResult.
Abbreviation BrowserBackendResult := BrowserBackendResult.BrowserBackendResult.

(** ** Managed jobs and Playwright tests *)

Module ManagedJobState.
Inductive ManagedJobState :=
| Starting
| Running
| StopRequested
| Completed
| Stopped
| Expired
| IndeterminateTermination.
#[global] Instance ManagedJobState_eq_dec : EqDecision ManagedJobState.
Proof. solve_decision. Defined.
End ManagedJobState.
Abbreviation ManagedJobState := ManagedJobState.ManagedJobState.

Module ManagedJobStatus.
Record ManagedJobStatus := mk {
  state : ManagedJobState;
  exit_code : option Z;
  lease_remaining_ms : N;
  hard_lifetime_remaining_ms : N;
  stdout_total_bytes : N;
  stderr_total_bytes : N
}.
#[global] Instance ManagedJobStatus_eq_dec : EqDecision ManagedJobStatus.
Proof. solve_decision. Defined.
End ManagedJobStatus.
Abbreviation ManagedJobStatus := ManagedJobStatus.ManagedJobStatus.

Module ManagedJobOutputRange.
Record ManagedJobOutputRange := mk {
  bytes : list N;
  requested_offset : N;
  earliest_available_offset : N;
  next_offset : N;
  total_bytes : N;
  eof : bool;
  gap_before_range : bool;
  history_truncated : bool
}.
#[global] Instance ManagedJobOutputRange_eq_dec : EqDecision ManagedJobOutputRange.
Proof. solve_decision. Defined.
End ManagedJobOutputRange.
Abbreviation ManagedJobOutputRange := ManagedJobOutputRange.ManagedJobOutputRange.

Module PlaywrightTestRequest.
Record PlaywrightTestRequest := mk {
  workspace : string;
  test_paths : list string;
  project : option string;
  grep : option string;
  workers : option N;
  hard_lifetime_ms : N
}.
#[global] Instance PlaywrightTestRequest_eq_dec : EqDecision PlaywrightTestRequest.
Proof. solve_decision. Defined.
End PlaywrightTestRequest.
Abbreviation PlaywrightTestRequest := PlaywrightTestRequest.PlaywrightTestRequest.

Module PlaywrightTestStatus.
Record PlaywrightTestStatus := mk {
  job : ManagedJobStatus;
  artifact_count : N;
  artifact_total_bytes : N
}.
#[global] Instance PlaywrightTestStatus_eq_dec : EqDecision PlaywrightTestStatus.
Proof. solve_decision. Defined.
End PlaywrightTestStatus.
Abbreviation PlaywrightTestStatus := PlaywrightTestStatus.PlaywrightTestStatus.

(** ** Device commands, error codes and results *)

Module DeviceCommand.
Inductive DeviceCommand :=
| ListApplications
| ScreenGeometry
| Screenshot
| ScreenshotContextual (context_id : string)
| PointerClick (x : Z) (y : Z) (button : PointerButton)
| PointerClickAdvanced (context_id : option string) (target : PointerTarget)
    (button : PointerButton) (click_count : N) (action : option UiElementAction)
    (modifiers : list KeyboardModifier) (delivery : InputDeliveryMode)
| PointerDrag (from_x : Z) (from_y : Z) (to_x : Z) (to_y : Z) (duration_ms : N)
| PointerDragAdvanced (context_id : option string) (from_ : PointerTarget)
    (to : PointerTarget) (button : PointerButton) (modifiers : list KeyboardModifier)
    (delivery : InputDeliveryMode) (duration_ms : N) (steps : N)
| TypeText (text : string)
| TypeTextAdvanced (context_id : option string) (text : string) (target : InputTarget)
    (delivery : InputDeliveryMode) (delay_ms : N)
| ExecuteProcess (request : ProcessRequest)
| Shell (request : ShellRequest)
| ReadProcessOutput (locator : string) (source_operation_id : string)
    (stream : ProcessOutputStream) (offset : N) (max_bytes : N)
| ManagedJobStart (request : ProcessRequest)
| ManagedJobStatus (locator : string)
| ManagedJobOutput (locator : string) (stream : ProcessOutputStream) (offset : N)
    (max_bytes : N)
| ManagedJobRenew (locator : string) (lease_ms : N)
| ManagedJobStop (locator : string)
| PlaywrightTestStart (request : PlaywrightTestRequest)
| PlaywrightTestStatus (locator : string)
| PlaywrightTestOutput (locator : string) (stream : ProcessOutputStream) (offset : N)
    (max_bytes : N)
| PlaywrightTestStop (locator : string)
| ReadFile (path : string) (offset : N) (max_bytes : option N)
| ListDirectory (path : string) (after : option string)
| WriteWorkspaceFile (path : WorkspaceWritePath) (data_base64 : WorkspaceWritePayload)
    (expected_bytes : N) (content_sha256 : string)
    (precondition : WorkspaceWritePrecondition)
| ListWindows (process_id : option N) (on_screen_only : bool)
| LaunchApplication (identifier : option string) (name : option string)
    (targets : list string) (new_instance : bool)
| InspectWindow (process_id : N) (window_id : N) (query : option string) (max_elements : N)
    (max_depth : N) (include_screenshot : bool)
| InspectWindowContextual (context_id : string) (process_id : N) (window_id : N)
    (query : option string) (max_elements : N) (max_depth : N) (include_screenshot : bool)
| VerifyUiState (process_id : N) (window_id : N) (predicates : list UiPredicate)
    (timeout_ms : N) (stable_samples : N) (include_screenshot : bool)
| VerifyUiStateContextual (context_id : string) (process_id : N) (window_id : N)
    (predicates : list UiPredicate) (timeout_ms : N) (stable_samples : N)
    (include_screenshot : bool)
| TerminateApplication (process_id : N)
| ActivateWindow (process_id : N) (window_id : option N)
| SetWindowFrame (context_id : option string) (process_id : N) (window_id : N)
    (bounds : UiRect)
| InvokeMenu (context_id : option string) (process_id : N) (window_id : N)
    (path : list string)
| KeyboardInput (context_id : option string) (key : string)
    (modifiers : list KeyboardModifier) (target : InputTarget)
    (delivery : InputDeliveryMode)
| Scroll (context_id : option string) (direction : ScrollDirection)
    (granularity : ScrollGranularity) (amount : N) (target : ScrollTarget)
    (delivery : InputDeliveryMode)
| ClipboardRead (context_id : option string) (include_text : bool)
| ClipboardWrite (context_id : option string) (text : string)
| PointerPosition (context_id : option string)
| MovePointer (context_id : string) (x : Z) (y : Z)
| SetUiValue (context_id : string) (process_id : N) (window_id : N) (element_ref : string)
    (value : string)
| CaptureRegion (context_id : option string) (process_id : N) (window_id : N)
    (bounds : UiRect)
| ExpandInteractionScope (context_id : string) (reason : string)
| StageBrowserUploadFile (context_id : string) (file_name : string)
    (data_base64 : BrowserUploadPayload) (expected_bytes : N)
| Browser (command : BrowserBackendCommand).
End DeviceCommand.
Abbreviation DeviceCommand := DeviceCommand.DeviceCommand.

Module DeviceErrorCode.
Inductive DeviceErrorCode :=
| InvalidRequest
| PermissionDenied
| NotFound
| IoFailure
| InternalFailure
| BackendOutcomeIndeterminate
| ExecutionBudgetExceeded
| MutationAuthorityUnavailable
| HandoffAuthoritySuspended
| HandoffRuntimeUnavailable
| HandoffVerificationUnavailable
| EnvironmentKeyDenied
| InvalidEnvironment
| TooManyEnvironmentEntries
| WorkingDirectoryDenied
| WorkingDirectoryInvalid
| InvalidTimeout
| InvalidProgram
| ProgramDenied
| TooManyArguments
| ProcessSpawnFailed
| WorkspacePreconditionFailed
| WorkspacePayloadTooLarge
| BrowserRouteUnavailable
| BrowserRequiresSetup
| BrowserBindingAmbiguous
| BrowserBindingStale
| BrowserWrongTargetRefused
| BrowserTabRequired
| BrowserTabNotFound
| BrowserRefStale
| BrowserInputTrustUnavailable
| BrowserEndpointOwnerMismatch
| BrowserConsentRequired
| BrowserConsentRevoked
| BrowserReconnectExhausted
| BrowserInputIncomplete
| BrowserActionUnavailable
| BrowserOriginOutsideScope
| BrowserRefused.
#[global] Instance DeviceErrorCode_eq_dec : EqDecision DeviceErrorCode.
Proof. solve_decision. Defined.
End DeviceErrorCode.
Abbreviation DeviceErrorCode := DeviceErrorCode.DeviceErrorCode.

Module DeviceResult.
Inductive DeviceResult :=
| Applications (count : N)
| ScreenGeometry (width_points : N) (height_points : N) (scale_factor_milli : N)
| Screenshot (data_base64 : string) (mime_type : string) (width_pixels : N)
    (height_pixels : N)
| PointerClickCompleted
| PointerDragCompleted
| TypeTextCompleted
| ApplicationTerminated (process_id : N)
| WindowActivated (process_id : N) (window_id : option N) (process_activated : bool)
    (exact_window_verified : option bool)
| WindowFrameSet (process_id : N) (window_id : N) (bounds : UiRect)
| MenuInvoked
| KeyboardInputCompleted
| ScrollCompleted
| ClipboardState (types : list string) (text : option string)
| ClipboardWritten (types : list string)
| PointerPosition (x_points : Z) (y_points : Z)
| PointerMoveCompleted
| UiValueSet
| RegionCaptured (image : UiImage)
| InteractionScopeExpanded
| Process (output : ProcessOutput) (output_refs : option ProcessOutputRefs)
    (agent_output_locators : option AgentProcessOutputLocators)
| ManagedJobStarted (agent_locator : string) (status : ManagedJobStatus)
| ManagedJobStatus (status : ManagedJobStatus)
| ManagedJobOutput (stream : ProcessOutputStream) (range : ManagedJobOutputRange)
| ManagedJobRenewed (status : ManagedJobStatus)
| ManagedJobStopped (status : ManagedJobStatus)
| PlaywrightTestStarted (agent_locator : string) (status : PlaywrightTestStatus)
| PlaywrightTestStatus (status : PlaywrightTestStatus)
| PlaywrightTestOutput (stream : ProcessOutputStream) (range : ManagedJobOutputRange)
| PlaywrightTestStopped (status : PlaywrightTestStatus)
| Shell (output : ProcessOutput) (output_refs : option ProcessOutputRefs)
    (agent_output_locators : option AgentProcessOutputLocators)
| ProcessOutputRange (bytes : list N) (stream : ProcessOutputStream)
    (source_operation_id : string) (offset : N) (next_offset : N) (total_bytes : N)
    (eof : bool)
| FileContents (bytes : list N) (truncated : bool) (offset : N) (next_offset : option N)
| DirectoryEntries (entries : list DirectoryEntry) (truncated : bool)
    (after : option string) (next_cursor : option string)
| WorkspaceFileWritten (bytes_written : N) (content_sha256 : string) (created : bool)
| Windows (windows : list WindowInfo) (truncated : bool)
| ApplicationLaunched (process_id : N) (identifier : option string) (name : string)
    (process_running : bool) (window_ready : bool) (windows : list WindowInfo)
    (windows_truncated : bool)
| WindowSnapshot (snapshot_ref : string) (process_id : N) (window_id : N)
    (elements : list UiElement) (elements_complete : bool) (screenshot : option UiImage)
| UiStateVerification (status : VerificationStatus) (stable : bool) (samples : N)
    (predicates : list UiPredicateResult) (screenshot : option UiImage)
| BrowserUploadStaged (backend_file_handle : string) (bytes : N)
| Browser (result : BrowserBackendResult)
| Error (code : DeviceErrorCode).
End DeviceResult.
Abbreviation DeviceResult := DeviceResult.DeviceResult.
