(* ===== verification/Protocol.v ===== *)
(** * Classification of commands and validation of envelopes

    The functions of [src/src/v2_m0.rs] (and [v2_browser_runtime.rs]) that say
    which capability and class a command needs, which commands are read-only,
    when a device result answers a command, and when a command or a result
    envelope belongs to the session it arrived on. *)

From S2P Require Import Prelude Vocabulary.

(** ** Classes of capabilities *)

Definition is_recovery_evidence_read_only (c : DeviceCapability) : bool :=
  match c with
  | DeviceCapability.ListApplications
  | DeviceCapability.ScreenGeometry
  | DeviceCapability.Screenshot
  | DeviceCapability.ReadProcessOutput
  | DeviceCapability.ReadFile
  | DeviceCapability.ListDirectory
  | DeviceCapability.ListWindows
  | DeviceCapability.InspectWindow
  | DeviceCapability.VerifyUiState
  | DeviceCapability.ClipboardRead
  | DeviceCapability.PointerPosition
  | DeviceCapability.CaptureRegion
  | DeviceCapability.BrowserInspect => true
  | _ => false
  end.

Definition class (c : DeviceCapability) : CapabilityClass :=
  match c with
  | DeviceCapability.ListApplications
  | DeviceCapability.ScreenGeometry
  | DeviceCapability.Screenshot
  | DeviceCapability.ReadProcessOutput
  | DeviceCapability.ManagedJobObserve
  | DeviceCapability.PlaywrightTestObserve
  | DeviceCapability.ReadFile
  | DeviceCapability.ListDirectory
  | DeviceCapability.ListWindows
  | DeviceCapability.InspectWindow
  | DeviceCapability.VerifyUiState
  | DeviceCapability.ClipboardRead
  | DeviceCapability.PointerPosition
  | DeviceCapability.CaptureRegion
  | DeviceCapability.BrowserInspect => CapabilityClass.Observe
  | DeviceCapability.PointerClick
  | DeviceCapability.PointerDrag
  | DeviceCapability.TypeText
  | DeviceCapability.InvokeMenu
  | DeviceCapability.KeyboardInput
  | DeviceCapability.Scroll
  | DeviceCapability.ClipboardWrite
  | DeviceCapability.MovePointer
  | DeviceCapability.SetUiValue
  | DeviceCapability.BrowserNavigate
  | DeviceCapability.BrowserClick
  | DeviceCapability.BrowserType
  | DeviceCapability.BrowserDialog
  | DeviceCapability.BrowserPointer => CapabilityClass.Interact
  | DeviceCapability.LaunchApplication
  | DeviceCapability.ActivateWindow
  | DeviceCapability.SetWindowFrame
  | DeviceCapability.DesktopScope
  | DeviceCapability.BrowserPrepare => CapabilityClass.System
  | DeviceCapability.ExecuteProcess
  | DeviceCapability.Shell
  | DeviceCapability.ManagedJobControl
  | DeviceCapability.PlaywrightTestControl
  | DeviceCapability.TerminateApplication
  | DeviceCapability.BrowserUploadFile
  | DeviceCapability.BrowserDownload
  | DeviceCapability.WriteWorkspaceFile => CapabilityClass.Dangerous
  end.

(** ** Commands *)

Definition browser_capability (c : BrowserBackendCommand) : BrowserRuntimeCapability :=
  match c with
  | BrowserBackendCommand.Bind _ _ _
  | BrowserBackendCommand.Inspect _ _ _ _ _ _ _ => BrowserRuntimeCapability.Inspect
  | BrowserBackendCommand.Prepare _ _ _ _ _ _ => BrowserRuntimeCapability.Prepare
  | BrowserBackendCommand.Navigate _ _ _ _ => BrowserRuntimeCapability.Navigate
  | BrowserBackendCommand.Click _ _ _ _ _ => BrowserRuntimeCapability.Click
  | BrowserBackendCommand.Type_ _ _ _ _ _ _ _ => BrowserRuntimeCapability.Type_
  | BrowserBackendCommand.Dialog _ _ _ _ _ _ _ => BrowserRuntimeCapability.Dialog
  | BrowserBackendCommand.Pointer _ _ _ _ _ _ _ _ _ => BrowserRuntimeCapability.Pointer
  | BrowserBackendCommand.Upload _ _ _ _ _ => BrowserRuntimeCapability.UploadFile
  | BrowserBackendCommand.Download _ _ _ _ _ _ _ => BrowserRuntimeCapability.Download
  end.

Definition browser_device_capability (c : BrowserRuntimeCapability) : DeviceCapability :=
  match c with
  | BrowserRuntimeCapability.Inspect => DeviceCapability.BrowserInspect
  | BrowserRuntimeCapability.Prepare => DeviceCapability.BrowserPrepare
  | BrowserRuntimeCapability.Navigate => DeviceCapability.BrowserNavigate
  | BrowserRuntimeCapability.Click => DeviceCapability.BrowserClick
  | BrowserRuntimeCapability.Type_ => DeviceCapability.BrowserType
  | BrowserRuntimeCapability.Dialog => DeviceCapability.BrowserDialog
  | BrowserRuntimeCapability.Pointer => DeviceCapability.BrowserPointer
  | BrowserRuntimeCapability.UploadFile => DeviceCapability.BrowserUploadFile
  | BrowserRuntimeCapability.Download => DeviceCapability.BrowserDownload
  end.

Definition capability (c : DeviceCommand) : DeviceCapability :=
  match c with
  | DeviceCommand.ListApplications => DeviceCapability.ListApplications
  | DeviceCommand.ScreenGeometry => DeviceCapability.ScreenGeometry
  | DeviceCommand.Screenshot
  | DeviceCommand.ScreenshotContextual _ => DeviceCapability.Screenshot
  | DeviceCommand.PointerClick _ _ _
  | DeviceCommand.PointerClickAdvanced _ _ _ _ _ _ _ => DeviceCapability.PointerClick
  | DeviceCommand.PointerDrag _ _ _ _ _
  | DeviceCommand.PointerDragAdvanced _ _ _ _ _ _ _ _ => DeviceCapability.PointerDrag
  | DeviceCommand.TypeText _
  | DeviceCommand.TypeTextAdvanced _ _ _ _ _ => DeviceCapability.TypeText
  | DeviceCommand.ExecuteProcess _ => DeviceCapability.ExecuteProcess
  | DeviceCommand.Shell _ => DeviceCapability.Shell
  | DeviceCommand.ReadProcessOutput _ _ _ _ _ => DeviceCapability.ReadProcessOutput
  | DeviceCommand.ManagedJobStart _
  | DeviceCommand.ManagedJobRenew _ _
  | DeviceCommand.ManagedJobStop _ => DeviceCapability.ManagedJobControl
  | DeviceCommand.ManagedJobStatus _
  | DeviceCommand.ManagedJobOutput _ _ _ _ => DeviceCapability.ManagedJobObserve
  | DeviceCommand.PlaywrightTestStart _
  | DeviceCommand.PlaywrightTestStop _ => DeviceCapability.PlaywrightTestControl
  | DeviceCommand.PlaywrightTestStatus _
  | DeviceCommand.PlaywrightTestOutput _ _ _ _ => DeviceCapability.PlaywrightTestObserve
  | DeviceCommand.ReadFile _ _ _ => DeviceCapability.ReadFile
  | DeviceCommand.ListDirectory _ _ => DeviceCapability.ListDirectory
  | DeviceCommand.WriteWorkspaceFile _ _ _ _ _ => DeviceCapability.WriteWorkspaceFile
  | DeviceCommand.ListWindows _ _ => DeviceCapability.ListWindows
  | DeviceCommand.LaunchApplication _ _ _ _ => DeviceCapability.LaunchApplication
  | DeviceCommand.InspectWindow _ _ _ _ _ _
  | DeviceCommand.InspectWindowContextual _ _ _ _ _ _ _ => DeviceCapability.InspectWindow
  | DeviceCommand.VerifyUiState _ _ _ _ _ _
  | DeviceCommand.VerifyUiStateContextual _ _ _ _ _ _ _ => DeviceCapability.VerifyUiState
  | DeviceCommand.TerminateApplication _ => DeviceCapability.TerminateApplication
  | DeviceCommand.ActivateWindow _ _ => DeviceCapability.ActivateWindow
  | DeviceCommand.SetWindowFrame _ _ _ _ => DeviceCapability.SetWindowFrame
  | DeviceCommand.InvokeMenu _ _ _ _ => DeviceCapability.InvokeMenu
  | DeviceCommand.KeyboardInput _ _ _ _ _ => DeviceCapability.KeyboardInput
  | DeviceCommand.Scroll _ _ _ _ _ _ => DeviceCapability.Scroll
  | DeviceCommand.ClipboardRead _ _ => DeviceCapability.ClipboardRead
  | DeviceCommand.ClipboardWrite _ _ => DeviceCapability.ClipboardWrite
  | DeviceCommand.PointerPosition _ => DeviceCapability.PointerPosition
  | DeviceCommand.MovePointer _ _ _ => DeviceCapability.MovePointer
  | DeviceCommand.SetUiValue _ _ _ _ _ => DeviceCapability.SetUiValue
  | DeviceCommand.CaptureRegion _ _ _ _ => DeviceCapability.CaptureRegion
  | DeviceCommand.ExpandInteractionScope _ _ => DeviceCapability.DesktopScope
  | DeviceCommand.StageBrowserUploadFile _ _ _ _ => DeviceCapability.BrowserUploadFile
  | DeviceCommand.Browser command => browser_device_capability (browser_capability command)
  end.

Definition command_class (c : DeviceCommand) : CapabilityClass := class (capability c).

Definition is_read_only (c : DeviceCommand) : bool :=
  match c with
  | DeviceCommand.ListApplications
  | DeviceCommand.ScreenGeometry
  | DeviceCommand.Screenshot
  | DeviceCommand.ScreenshotContextual _
  | DeviceCommand.ReadProcessOutput _ _ _ _ _
  | DeviceCommand.ManagedJobStatus _
  | DeviceCommand.ManagedJobOutput _ _ _ _
  | DeviceCommand.PlaywrightTestStatus _
  | DeviceCommand.PlaywrightTestOutput _ _ _ _
  | DeviceCommand.ReadFile _ _ _
  | DeviceCommand.ListDirectory _ _
  | DeviceCommand.ListWindows _ _
  | DeviceCommand.InspectWindow _ _ _ _ _ _
  | DeviceCommand.InspectWindowContextual _ _ _ _ _ _ _
  | DeviceCommand.VerifyUiState _ _ _ _ _ _
  | DeviceCommand.VerifyUiStateContextual _ _ _ _ _ _ _
  | DeviceCommand.ClipboardRead _ _
  | DeviceCommand.PointerPosition _
  | DeviceCommand.CaptureRegion _ _ _ _
  | DeviceCommand.Browser (BrowserBackendCommand.Bind _ _ _)
  | DeviceCommand.Browser (BrowserBackendCommand.Inspect _ _ _ _ _ _ _)
  | DeviceCommand.Browser
      (BrowserBackendCommand.Dialog _ _ _ _ BrowserDialogAction.Inspect _ _) => true
  | _ => false
  end.

(** ** Error codes *)

Definition safe_code (c : DeviceErrorCode) : string :=
  match c with
  | DeviceErrorCode.InvalidRequest => "invalid_request"
  | DeviceErrorCode.PermissionDenied => "permission_denied"
  | DeviceErrorCode.NotFound => "not_found"
  | DeviceErrorCode.IoFailure => "io_failure"
  | DeviceErrorCode.InternalFailure => "internal_failure"
  | DeviceErrorCode.BackendOutcomeIndeterminate => "backend_outcome_indeterminate"
  | DeviceErrorCode.ExecutionBudgetExceeded => "execution_budget_exceeded"
  | DeviceErrorCode.MutationAuthorityUnavailable => "mutation_authority_unavailable"
  | DeviceErrorCode.HandoffAuthoritySuspended => "handoff_authority_suspended"
  | DeviceErrorCode.HandoffRuntimeUnavailable => "handoff_runtime_unavailable"
  | DeviceErrorCode.HandoffVerificationUnavailable => "handoff_verification_unavailable"
  | DeviceErrorCode.EnvironmentKeyDenied => "environment_key_denied"
  | DeviceErrorCode.InvalidEnvironment => "invalid_environment"
  | DeviceErrorCode.TooManyEnvironmentEntries => "too_many_environment_entries"
  | DeviceErrorCode.WorkingDirectoryDenied => "working_directory_denied"
  | DeviceErrorCode.WorkingDirectoryInvalid => "working_directory_invalid"
  | DeviceErrorCode.InvalidTimeout => "invalid_timeout"
  | DeviceErrorCode.InvalidProgram => "invalid_program"
  | DeviceErrorCode.ProgramDenied => "program_denied"
  | DeviceErrorCode.TooManyArguments => "too_many_arguments"
  | DeviceErrorCode.ProcessSpawnFailed => "process_spawn_failed"
  | DeviceErrorCode.WorkspacePreconditionFailed => "workspace_precondition_failed"
  | DeviceErrorCode.WorkspacePayloadTooLarge => "workspace_payload_too_large"
  | DeviceErrorCode.BrowserRouteUnavailable => "browser_route_unavailable"
  | DeviceErrorCode.BrowserRequiresSetup => "browser_requires_setup"
  | DeviceErrorCode.BrowserBindingAmbiguous => "browser_binding_ambiguous"
  | DeviceErrorCode.BrowserBindingStale => "browser_binding_stale"
  | DeviceErrorCode.BrowserWrongTargetRefused => "browser_wrong_target_refused"
  | DeviceErrorCode.BrowserTabRequired => "browser_tab_required"
  | DeviceErrorCode.BrowserTabNotFound => "browser_tab_not_found"
  | DeviceErrorCode.BrowserRefStale => "browser_ref_stale"
  | DeviceErrorCode.BrowserInputTrustUnavailable => "browser_input_trust_unavailable"
  | DeviceErrorCode.BrowserEndpointOwnerMismatch => "browser_endpoint_owner_mismatch"
  | DeviceErrorCode.BrowserConsentRequired => "browser_consent_required"
  | DeviceErrorCode.BrowserConsentRevoked => "browser_consent_revoked"
  | DeviceErrorCode.BrowserReconnectExhausted => "browser_reconnect_exhausted"
  | DeviceErrorCode.BrowserInputIncomplete => "browser_input_incomplete"
  | DeviceErrorCode.BrowserActionUnavailable => "browser_action_unavailable"
  | DeviceErrorCode.BrowserOriginOutsideScope => "browser_origin_outside_scope"
  | DeviceErrorCode.BrowserRefused => "browser_refused"
  end.

Definition is_browser_refusal (c : DeviceErrorCode) : bool :=
  match c with
  | DeviceErrorCode.BrowserRouteUnavailable
  | DeviceErrorCode.BrowserRequiresSetup
  | DeviceErrorCode.BrowserBindingAmbiguous
  | DeviceErrorCode.BrowserBindingStale
  | DeviceErrorCode.BrowserWrongTargetRefused
  | DeviceErrorCode.BrowserTabRequired
  | DeviceErrorCode.BrowserTabNotFound
  | DeviceErrorCode.BrowserRefStale
  | DeviceErrorCode.BrowserInputTrustUnavailable
  | DeviceErrorCode.BrowserEndpointOwnerMismatch
  | DeviceErrorCode.BrowserConsentRequired
  | DeviceErrorCode.BrowserConsentRevoked
  | DeviceErrorCode.BrowserReconnectExhausted
  | DeviceErrorCode.BrowserInputIncomplete
  | DeviceErrorCode.BrowserActionUnavailable
  | DeviceErrorCode.BrowserOriginOutsideScope
  | DeviceErrorCode.BrowserRefused => true
  | _ => false
  end.

(** ** When a result answers a command *)

Definition browser_matches_command
    (r : BrowserBackendResult) (c : BrowserBackendCommand) : bool :=
  match r, c with
  | BrowserBackendResult.Prepared _ _ _, BrowserBackendCommand.Prepare _ _ _ _ _ _ => true
  | BrowserBackendResult.Bound _ _ _ _, BrowserBackendCommand.Bind _ _ _ => true
  | BrowserBackendResult.Snapshot _ _ _ _ _ _ _ _,
    BrowserBackendCommand.Inspect _ _ _ _ _ _ _ => true
  | BrowserBackendResult.NavigationCompleted, BrowserBackendCommand.Navigate _ _ _ _ => true
  | BrowserBackendResult.ClickCompleted _, BrowserBackendCommand.Click _ _ _ _ _ => true
  | BrowserBackendResult.TypeCompleted, BrowserBackendCommand.Type_ _ _ _ _ _ _ _ => true
  | BrowserBackendResult.DialogObserved _ _ _,
    BrowserBackendCommand.Dialog _ _ _ _ BrowserDialogAction.Inspect _ _ => true
  | BrowserBackendResult.DialogCompleted,
    BrowserBackendCommand.Dialog _ _ _ _ BrowserDialogAction.Accept _ _ => true
  | BrowserBackendResult.DialogCompleted,
    BrowserBackendCommand.Dialog _ _ _ _ BrowserDialogAction.Dismiss _ _ => true
  | BrowserBackendResult.PointerCompleted,
    BrowserBackendCommand.Pointer _ _ _ _ _ _ _ _ _ => true
  | BrowserBackendResult.UploadAssigned _, BrowserBackendCommand.Upload _ _ _ _ _ => true
  | BrowserBackendResult.DownloadStaged _ _,
    BrowserBackendCommand.Download _ _ _ _ _ _ _ => true
  | BrowserBackendResult.DownloadCompleted _ _ _ _,
    BrowserBackendCommand.Download _ _ _ _ _ _ _ => true
  | _, _ => false
  end.

(** [u64::try_from(v.len()).ok()] *)
Definition len_u64 {A} (l : list A) : option N :=
  if (vlen l <=? u64_max)%N then Some (vlen l) else None.

(** [entries.windows(2).all(|pair| pair[0].name < pair[1].name)] *)
Fixpoint strictly_sorted (l : list DirectoryEntry) : bool :=
  match l with
  | a :: ((b :: _) as l') =>
      String.ltb a.(DirectoryEntry.name) b.(DirectoryEntry.name) && strictly_sorted l'
  | _ => true
  end.

Definition process_output_range_matches
    (result_bytes : list N) (result_stream : ProcessOutputStream)
    (result_source : string) (result_offset next_offset total_bytes : N) (eof : bool)
    (source : string) (stream : ProcessOutputStream) (offset max_bytes : N) : bool :=
  let_some len := len_u64 result_bytes else false ;;
  let_some expected_next := checked_add result_offset len else false ;;
  bool_decide (result_stream = stream)
  && bool_decide (result_source = source)
  && (result_offset =? offset)%N
  && (len <=? max_bytes)%N
  && (next_offset =? expected_next)%N
  && (next_offset <=? total_bytes)%N
  && Bool.eqb eof (total_bytes <=? next_offset)%N.

Definition file_contents_match
    (result_bytes : list N) (truncated : bool) (result_offset : N) (next_offset : option N)
    (offset : N) (max_bytes : option N) : bool :=
  let within_requested_limit :=
    match max_bytes with
    | Some limit =>
        match len_u64 result_bytes with Some len => (len <=? limit)%N | None => false end
    | None => true
    end in
  let expected_next :=
    if truncated then len_u64 result_bytes ≫= checked_add result_offset else None in
  (result_offset =? offset)%N
  && within_requested_limit
  && bool_decide (next_offset = expected_next).

Definition directory_entries_match
    (entries : list DirectoryEntry) (truncated : bool)
    (result_after next_cursor after : option string) : bool :=
  let after_bound_valid :=
    match result_after with
    | Some cursor => forallb (λ e, String.ltb cursor e.(DirectoryEntry.name)) entries
    | None => true
    end in
  let cursor_shape_valid :=
    if truncated
    then negb (bool_decide (entries = []))
         && bool_decide (next_cursor = DirectoryEntry.name <$> last entries)
    else bool_decide (next_cursor = None) in
  bool_decide (result_after = after)
  && strictly_sorted entries
  && after_bound_valid
  && cursor_shape_valid.

Definition workspace_write_matches
    (bytes_written : N) (result_sha256 : string) (created : bool)
    (expected_bytes : N) (content_sha256 : string)
    (precondition : WorkspaceWritePrecondition) : bool :=
  let expected_created :=
    match precondition with
    | WorkspaceWritePrecondition.ExpectedAbsent => true
    | WorkspaceWritePrecondition.ExpectedSha256 _ => false
    end in
  (bytes_written =? expected_bytes)%N
  && bool_decide (result_sha256 = content_sha256)
  && Bool.eqb created expected_created.

Definition matches_command (r : DeviceResult) (c : DeviceCommand) : bool :=
  match r, c with
  | DeviceResult.Browser result, DeviceCommand.Browser command =>
      browser_matches_command result command
  | DeviceResult.ProcessOutputRange bytes result_stream result_source result_offset
      next_offset total_bytes eof,
    DeviceCommand.ReadProcessOutput _ source stream offset max_bytes =>
      process_output_range_matches bytes result_stream result_source result_offset
        next_offset total_bytes eof source stream offset max_bytes
  | DeviceResult.FileContents bytes truncated result_offset next_offset,
    DeviceCommand.ReadFile _ offset max_bytes =>
      file_contents_match bytes truncated result_offset next_offset offset max_bytes
  | DeviceResult.DirectoryEntries entries truncated result_after next_cursor,
    DeviceCommand.ListDirectory _ after =>
      directory_entries_match entries truncated result_after next_cursor after
  | DeviceResult.WorkspaceFileWritten bytes_written result_sha256 created,
    DeviceCommand.WriteWorkspaceFile _ _ expected_bytes content_sha256 precondition =>
      workspace_write_matches bytes_written result_sha256 created
        expected_bytes content_sha256 precondition
  | DeviceResult.Applications _, DeviceCommand.ListApplications => true
  | DeviceResult.ScreenGeometry _ _ _, DeviceCommand.ScreenGeometry => true
  | DeviceResult.Screenshot _ _ _ _, DeviceCommand.Screenshot => true
  | DeviceResult.Screenshot _ _ _ _, DeviceCommand.ScreenshotContextual _ => true
  | DeviceResult.PointerClickCompleted, DeviceCommand.PointerClick _ _ _ => true
  | DeviceResult.PointerClickCompleted,
    DeviceCommand.PointerClickAdvanced _ _ _ _ _ _ _ => true
  | DeviceResult.PointerDragCompleted, DeviceCommand.PointerDrag _ _ _ _ _ => true
  | DeviceResult.PointerDragCompleted,
    DeviceCommand.PointerDragAdvanced _ _ _ _ _ _ _ _ => true
  | DeviceResult.TypeTextCompleted, DeviceCommand.TypeText _ => true
  | DeviceResult.TypeTextCompleted, DeviceCommand.TypeTextAdvanced _ _ _ _ _ => true
  | DeviceResult.Process _ _ _, DeviceCommand.ExecuteProcess _ => true
  | DeviceResult.Shell _ _ _, DeviceCommand.Shell _ => true
  | DeviceResult.Windows _ _, DeviceCommand.ListWindows _ _ => true
  | DeviceResult.ApplicationLaunched _ _ _ _ _ _ _,
    DeviceCommand.LaunchApplication _ _ _ _ => true
  | DeviceResult.WindowSnapshot _ _ _ _ _ _, DeviceCommand.InspectWindow _ _ _ _ _ _ => true
  | DeviceResult.WindowSnapshot _ _ _ _ _ _,
    DeviceCommand.InspectWindowContextual _ _ _ _ _ _ _ => true
  | DeviceResult.UiStateVerification _ _ _ _ _,
    DeviceCommand.VerifyUiState _ _ _ _ _ _ => true
  | DeviceResult.UiStateVerification _ _ _ _ _,
    DeviceCommand.VerifyUiStateContextual _ _ _ _ _ _ _ => true
  | DeviceResult.ApplicationTerminated _, DeviceCommand.TerminateApplication _ => true
  | DeviceResult.WindowActivated _ _ _ _, DeviceCommand.ActivateWindow _ _ => true
  | DeviceResult.WindowFrameSet _ _ _, DeviceCommand.SetWindowFrame _ _ _ _ => true
  | DeviceResult.MenuInvoked, DeviceCommand.InvokeMenu _ _ _ _ => true
  | DeviceResult.KeyboardInputCompleted, DeviceCommand.KeyboardInput _ _ _ _ _ => true
  | DeviceResult.ScrollCompleted, DeviceCommand.Scroll _ _ _ _ _ _ => true
  | DeviceResult.ClipboardState _ _, DeviceCommand.ClipboardRead _ _ => true
  | DeviceResult.ClipboardWritten _, DeviceCommand.ClipboardWrite _ _ => true
  | DeviceResult.PointerPosition _ _, DeviceCommand.PointerPosition _ => true
  | DeviceResult.PointerMoveCompleted, DeviceCommand.MovePointer _ _ _ => true
  | DeviceResult.UiValueSet, DeviceCommand.SetUiValue _ _ _ _ _ => true
  | DeviceResult.RegionCaptured _, DeviceCommand.CaptureRegion _ _ _ _ => true
  | DeviceResult.InteractionScopeExpanded, DeviceCommand.ExpandInteractionScope _ _ => true
  | DeviceResult.BrowserUploadStaged _ _,
    DeviceCommand.StageBrowserUploadFile _ _ _ _ => true
  | DeviceResult.Error _, _ => true
  | _, _ => false
  end.

(** ** Sessions, envelopes and control errors *)

Definition CONTROL_SCHEMA_VERSION : N := 12.
Definition CAPABILITY_SCHEMA_VERSION : N := 8.

Module CapabilityAdvertisement.
Record CapabilityAdvertisement := mk {
  backend : string;
  backend_version : string;
  platform : string;
  capability_schema_version : N;
  revision : N;
  supported : list DeviceCapability
}.
#[global] Instance CapabilityAdvertisement_eq_dec : EqDecision CapabilityAdvertisement.
Proof. solve_decision. Defined.
End CapabilityAdvertisement.
Abbreviation CapabilityAdvertisement := CapabilityAdvertisement.CapabilityAdvertisement.

Definition supports (a : CapabilityAdvertisement) (c : DeviceCapability) : bool :=
  bool_decide (c ∈ a.(CapabilityAdvertisement.supported)).

Module DeviceSession.
Record DeviceSession := mk {
  device_id : string;
  generation : N;
  capabilities : CapabilityAdvertisement
}.
#[global] Instance DeviceSession_eq_dec : EqDecision DeviceSession.
Proof. solve_decision. Defined.
End DeviceSession.
Abbreviation DeviceSession := DeviceSession.DeviceSession.

Module ControlError.
Inductive ControlError :=
| InvalidDeviceIdentity
| InvalidEnrollmentProof
| InvalidDeviceSignature
| InvalidDeviceRotationProof
| InvalidRegistrySnapshot
| UnknownDevice
| DeviceRevoked
| DeviceOffline
| UnsupportedCapabilitySchema (got : N)
| UnsupportedControlSchema (got : N)
| InvalidGrantLifetime
| InvalidGrantSignature
| UnknownGrantSigningKey
| InvalidGrantLedgerSnapshot
| GrantDeviceMismatch
| GrantNotYetValid
| GrantExpired
| GrantRevoked
| GrantReplay
| CapabilityDenied (granted : CapabilityClass) (required : CapabilityClass)
| DeviceCapabilityGrantMismatch (granted : option DeviceCapability)
    (required : DeviceCapability)
| CommandDeviceMismatch
| StaleDeviceGeneration (expected : N) (got : N)
| StaleCapabilityRevision (expected : N) (got : N)
| UnsupportedDeviceCapability (_ : DeviceCapability)
| ResultDeviceMismatch
| ResultGenerationMismatch
| ResultCapabilityRevisionMismatch
| ResultOperationMismatch
| ResultTypeMismatch
| InvalidLeaseLifetime
| LeaseConflict (owner_operation_id : string) (owner_generation : N)
| LeaseNotFound
| LeaseOwnershipMismatch
| Serialization.
#[global] Instance ControlError_eq_dec : EqDecision ControlError.
Proof. solve_decision. Defined.
End ControlError.
Abbreviation ControlError := ControlError.ControlError.

Module CommandEnvelope.
Record CommandEnvelope := mk {
  schema_version : N;
  device_id : string;
  device_generation : N;
  capability_revision : N;
  operation_id : string;
  command : DeviceCommand
}.
End CommandEnvelope.
Abbreviation CommandEnvelope := CommandEnvelope.CommandEnvelope.

Definition required_class (e : CommandEnvelope) : CapabilityClass :=
  command_class e.(CommandEnvelope.command).

Definition validate_command_session (command : CommandEnvelope) (session : DeviceSession)
    : result ControlError unit :=
  return_if negb (command.(CommandEnvelope.schema_version) =? CONTROL_SCHEMA_VERSION)%N
    with Err (ControlError.UnsupportedControlSchema
                command.(CommandEnvelope.schema_version)) ;;
  return_if negb (bool_decide
      (command.(CommandEnvelope.device_id) = session.(DeviceSession.device_id)))
    with Err ControlError.CommandDeviceMismatch ;;
  return_if negb (command.(CommandEnvelope.device_generation)
                  =? session.(DeviceSession.generation))%N
    with Err (ControlError.StaleDeviceGeneration
                session.(DeviceSession.generation)
                command.(CommandEnvelope.device_generation)) ;;
  return_if negb (command.(CommandEnvelope.capability_revision)
                  =? session.(DeviceSession.capabilities).(CapabilityAdvertisement.revision))%N
    with Err (ControlError.StaleCapabilityRevision
                session.(DeviceSession.capabilities).(CapabilityAdvertisement.revision)
                command.(CommandEnvelope.capability_revision)) ;;
  let required_capability := capability command.(CommandEnvelope.command) in
  return_if negb (supports session.(DeviceSession.capabilities) required_capability)
    with Err (ControlError.UnsupportedDeviceCapability required_capability) ;;
  Ok tt.

Module CommandResultEnvelope.
Record CommandResultEnvelope := mk {
  schema_version : N;
  device_id : string;
  device_generation : N;
  capability_revision : N;
  operation_id : string;
  device_result : DeviceResult
}.
End CommandResultEnvelope.
Abbreviation CommandResultEnvelope := CommandResultEnvelope.CommandResultEnvelope.

Definition validate_command_result
    (command : CommandEnvelope) (r : CommandResultEnvelope) : result ControlError unit :=
  return_if negb (r.(CommandResultEnvelope.schema_version) =? CONTROL_SCHEMA_VERSION)%N
    with Err (ControlError.UnsupportedControlSchema
                r.(CommandResultEnvelope.schema_version)) ;;
  return_if negb (bool_decide
      (r.(CommandResultEnvelope.device_id) = command.(CommandEnvelope.device_id)))
    with Err ControlError.ResultDeviceMismatch ;;
  return_if negb (r.(CommandResultEnvelope.device_generation)
                  =? command.(CommandEnvelope.device_generation))%N
    with Err ControlError.ResultGenerationMismatch ;;
  return_if negb (r.(CommandResultEnvelope.capability_revision)
                  =? command.(CommandEnvelope.capability_revision))%N
    with Err ControlError.ResultCapabilityRevisionMismatch ;;
  return_if negb (bool_decide
      (r.(CommandResultEnvelope.operation_id) = command.(CommandEnvelope.operation_id)))
    with Err ControlError.ResultOperationMismatch ;;
  return_if negb (matches_command r.(CommandResultEnvelope.device_result)
                    command.(CommandEnvelope.command))
    with Err ControlError.ResultTypeMismatch ;;
  Ok tt.

(** * Theorems *)

(** ** Classification *)

(** The two classifications of a command agree: a command is read-only
    exactly when its capability class is [Observe], with the one exception of
    inspecting a browser dialog, which is read-only but needs the interactive
    [BrowserDialog] capability. *)
Theorem read_only_iff_observe (c : DeviceCommand) :
  is_read_only c = true ↔
  command_class c = CapabilityClass.Observe ∨
  ∃ ctx target tab dialog prompt delivery,
    c = DeviceCommand.Browser
          (BrowserBackendCommand.Dialog ctx target tab dialog
             BrowserDialogAction.Inspect prompt delivery).
Proof.
  destruct c as [| | | | | | | | | | | | | | | | | | | | | | | | | | | | | | | | | | | | | | | |
                 | | | | |b]; try (cbn; naive_solver).
  destruct b as [| | | | | |???? [] ??| | |]; cbn; naive_solver.
Qed.

(** The capabilities that may read a quarantined device are the [Observe] ones
    that do not depend on a managed job. *)
Lemma recovery_evidence_capabilities (c : DeviceCapability) :
  is_recovery_evidence_read_only c = true ↔
  class c = CapabilityClass.Observe ∧
  c ≠ DeviceCapability.ManagedJobObserve ∧ c ≠ DeviceCapability.PlaywrightTestObserve.
Proof. destruct c; cbn; naive_solver. Qed.

Lemma recovery_evidence_is_observe (c : DeviceCapability) :
  is_recovery_evidence_read_only c = true → class c = CapabilityClass.Observe.
Proof. intros H. by apply recovery_evidence_capabilities in H as [? _]. Qed.

(** The wire name of an error code identifies the code: [safe_code] is
    injective over all error codes. *)
Theorem safe_code_injective (a b : DeviceErrorCode) : safe_code a = safe_code b → a = b.
Proof. destruct a, b; (reflexivity || (cbn; discriminate)). Qed.

Lemma safe_code_injective_witness :
  DeviceErrorCode.NotFound = DeviceErrorCode.NotFound.
Proof. apply (safe_code_injective DeviceErrorCode.NotFound DeviceErrorCode.NotFound). reflexivity. Defined.

(** ** Session and result validation *)

(** A command envelope is admitted on a session exactly when the schema is
    current, device, generation and capability revision are the session's own,
    and the session advertises the capability the command needs. *)
Theorem validate_command_session_ok_iff (e : CommandEnvelope) (s : DeviceSession) :
  validate_command_session e s = Ok tt ↔
  e.(CommandEnvelope.schema_version) = CONTROL_SCHEMA_VERSION ∧
  e.(CommandEnvelope.device_id) = s.(DeviceSession.device_id) ∧
  e.(CommandEnvelope.device_generation) = s.(DeviceSession.generation) ∧
  e.(CommandEnvelope.capability_revision)
    = s.(DeviceSession.capabilities).(CapabilityAdvertisement.revision) ∧
  capability e.(CommandEnvelope.command)
    ∈ s.(DeviceSession.capabilities).(CapabilityAdvertisement.supported).
Proof.
  unfold validate_command_session, supports. split.
  - intros H. run H. done.
  - intros (-> & -> & -> & -> & Hc).
    by rewrite !N.eqb_refl, !bool_decide_true.
Qed.

Lemma validate_command_result_matches (e : CommandEnvelope) (r : CommandResultEnvelope) :
  validate_command_result e r = Ok tt →
  matches_command r.(CommandResultEnvelope.device_result) e.(CommandEnvelope.command) = true.
Proof. unfold validate_command_result. intros H. by run H. Qed.

(** A result envelope is accepted exactly when it names the device,
    generation, revision and operation of the command and its payload answers
    that command. *)
Theorem validate_command_result_ok_iff (e : CommandEnvelope) (r : CommandResultEnvelope) :
  validate_command_result e r = Ok tt ↔
  r.(CommandResultEnvelope.schema_version) = CONTROL_SCHEMA_VERSION ∧
  r.(CommandResultEnvelope.device_id) = e.(CommandEnvelope.device_id) ∧
  r.(CommandResultEnvelope.device_generation) = e.(CommandEnvelope.device_generation) ∧
  r.(CommandResultEnvelope.capability_revision) = e.(CommandEnvelope.capability_revision) ∧
  r.(CommandResultEnvelope.operation_id) = e.(CommandEnvelope.operation_id) ∧
  matches_command r.(CommandResultEnvelope.device_result) e.(CommandEnvelope.command) = true.
Proof.
  unfold validate_command_result. split.
  - intros H. run H. done.
  - intros (-> & -> & -> & -> & -> & Hc).
    by rewrite !N.eqb_refl, !bool_decide_true, Hc.
Qed.

(** The commands of managed jobs and Playwright test runs. *)
Definition is_job_command (c : DeviceCommand) : bool :=
  match c with
  | DeviceCommand.ManagedJobStart _ | DeviceCommand.ManagedJobStatus _
  | DeviceCommand.ManagedJobOutput _ _ _ _ | DeviceCommand.ManagedJobRenew _ _
  | DeviceCommand.ManagedJobStop _ | DeviceCommand.PlaywrightTestStart _
  | DeviceCommand.PlaywrightTestStatus _ | DeviceCommand.PlaywrightTestOutput _ _ _ _
  | DeviceCommand.PlaywrightTestStop _ => true
  | _ => false
  end.

(** C40: No successful result can answer a managed-job or Playwright command:
    [validate_command_result], which the Hub runs on every Agent result before
    it settles an operation, accepts only an error for them. (The table of
    answers in [matches_command] has no row for these result types.) *)
Theorem job_results_never_validate (e : CommandEnvelope) (r : CommandResultEnvelope) :
  is_job_command e.(CommandEnvelope.command) = true →
  validate_command_result e r = Ok tt →
  ∃ code, r.(CommandResultEnvelope.device_result) = DeviceResult.Error code.
Proof.
  intros Hjob Hm%validate_command_result_matches.
  destruct (CommandEnvelope.command e); try discriminate Hjob;
    destruct (CommandResultEnvelope.device_result r); cbn in Hm; try discriminate Hm; eauto.
Qed.

(** A managed job that the Agent did start: the Hub refuses its answer. *)
Definition job_start_command : CommandEnvelope :=
  CommandEnvelope.mk CONTROL_SCHEMA_VERSION "dev_1" 3 1 "op_1"
    (DeviceCommand.ManagedJobStart (ProcessRequest.mk "make" [] "/work" [] 1000)).

Definition job_started_result : CommandResultEnvelope :=
  CommandResultEnvelope.mk CONTROL_SCHEMA_VERSION "dev_1" 3 1 "op_1"
    (DeviceResult.ManagedJobStarted "locator"
       (ManagedJobStatus.mk ManagedJobState.Running None 10 10 0 0)).

Lemma job_results_never_validate_witness :
  validate_command_result job_start_command job_started_result
    = Err ControlError.ResultTypeMismatch ∧
  ∃ code,
    CommandResultEnvelope.device_result
      (CommandResultEnvelope.mk CONTROL_SCHEMA_VERSION "dev_1" 3 1 "op_1"
         (DeviceResult.Error DeviceErrorCode.NotFound)) = DeviceResult.Error code.
Proof.
  split; [vm_compute; reflexivity|].
  apply (job_results_never_validate job_start_command); vm_compute; reflexivity.
Defined.

(** ** Paged reads *)

(** The successive pages of a directory listing, each requested with the cursor
    the page before it returned. *)
Fixpoint listing_chain (path : string) (after : option string)
    (pages : list (list DirectoryEntry * bool * option string)) : Prop :=
  match pages with
  | [] => True
  | (entries, truncated, next_cursor) :: rest =>
      matches_command (DeviceResult.DirectoryEntries entries truncated after next_cursor)
        (DeviceCommand.ListDirectory path after) = true ∧
      (rest ≠ [] → truncated = true) ∧
      listing_chain path next_cursor rest
  end.

Definition page_entries (p : list DirectoryEntry * bool * option string)
  : list DirectoryEntry := p.1.1.

Definition entry_lt (a b : DirectoryEntry) : Prop :=
  String.ltb a.(DirectoryEntry.name) b.(DirectoryEntry.name) = true.

#[export] Instance entry_lt_transitive : Transitive entry_lt.
Proof. intros a b c. apply string_ltb_trans. Qed.

Lemma strictly_sorted_StronglySorted l :
  strictly_sorted l = true → StronglySorted entry_lt l.
Proof.
  intros H. apply (Sorted_StronglySorted entry_lt).
  induction l as [|a [|b l] IH]; [constructor|repeat constructor|].
  apply andb_true_iff in H as [Hab H]. constructor; [by apply IH|]. by constructor.
Qed.

Lemma directory_page_sound entries truncated after next_cursor :
  directory_entries_match entries truncated after next_cursor after = true →
  StronglySorted entry_lt entries ∧
  (∀ c, after = Some c → ∀ e, e ∈ entries → String.ltb c e.(DirectoryEntry.name) = true) ∧
  (truncated = true → ∃ e, last entries = Some e ∧ next_cursor = Some e.(DirectoryEntry.name)).
Proof.
  unfold directory_entries_match. intros H. split_bools.
  split_and!; [by apply strictly_sorted_StronglySorted|..].
  - intros c -> e He. rewrite forallb_forall in H1.
    by apply H1, list_elem_of_In.
  - intros ->. split_bools. destruct (last entries) as [e|] eqn:E; [by eauto|].
    by apply last_None in E.
Qed.

Lemma StronglySorted_last_max l e :
  StronglySorted entry_lt l → last l = Some e → ∀ x, x ∈ l → x = e ∨ entry_lt x e.
Proof.
  intros Hs (l' & ->)%last_Some x Hx.
  apply StronglySorted_app in Hs as (Hlt & _ & _).
  apply elem_of_app in Hx as [Hx|Hx%list_elem_of_singleton]; [|by left].
  right. apply Hlt; set_solver.
Qed.

Lemma listing_chain_after path pages c :
  listing_chain path (Some c) pages →
  ∀ e, e ∈ pages ≫= page_entries → String.ltb c e.(DirectoryEntry.name) = true.
Proof.
  revert c. induction pages as [|[[entries truncated] cursor] rest IH]; intros c Hc e He.
  { set_solver. }
  destruct Hc as (Hpage & Htr & Hrest).
  apply directory_page_sound in Hpage as (Hs & Hafter & Hcur).
  cbn in He. apply elem_of_app in He as [He|He]; [by eapply Hafter|].
  destruct (decide (rest = [])) as [->|Hne]; [set_solver|].
  destruct (Hcur (Htr Hne)) as (m & Hm & ->).
  eapply string_ltb_trans; [eapply Hafter; [done|]|by eapply IH].
  by apply last_Some_elem_of.
Qed.

(** Reading a directory page by page lists it in strictly increasing order
    of names: across all pages no entry is repeated, skipped backwards or out of
    order, whatever the Agent answered, as long as every page validates. *)
Theorem listing_chain_sorted path after pages :
  listing_chain path after pages → StronglySorted entry_lt (pages ≫= page_entries).
Proof.
  revert after. induction pages as [|[[entries truncated] cursor] rest IH]; intros after Hc.
  { constructor. }
  destruct Hc as (Hpage & Htr & Hrest).
  apply directory_page_sound in Hpage as (Hs & Hafter & Hcur).
  cbn. apply StronglySorted_app. split_and!; [|done|by eapply IH].
  intros x y Hx Hy. destruct (decide (rest = [])) as [->|Hne]; [set_solver|].
  destruct (Hcur (Htr Hne)) as (m & Hm & ->).
  pose proof (listing_chain_after _ _ _ Hrest y Hy) as Hmy.
  destruct (StronglySorted_last_max _ _ Hs Hm x Hx) as [->|Hxm]; [done|].
  by transitivity m.
Qed.

Lemma listing_chain_sorted_witness :
  StronglySorted entry_lt
    ([([DirectoryEntry.mk "a" DirectoryEntryKind.File;
        DirectoryEntry.mk "b" DirectoryEntryKind.Directory], true, Some "b");
      ([DirectoryEntry.mk "c" DirectoryEntryKind.File], false, None)] ≫= page_entries).
Proof.
  apply (listing_chain_sorted "/work" None).
  split; [vm_compute; reflexivity|split; [reflexivity|]].
  split; [vm_compute; reflexivity|]. split; [intros []; reflexivity|exact I].
Defined.

(** The successive ranges of one retained process output, each requested at the
    offset where the range before it ended. *)
Fixpoint output_chain (locator source : string) (stream : ProcessOutputStream)
    (max_bytes offset : N) (pages : list (list N * N * N * bool)) : Prop :=
  match pages with
  | [] => True
  | (chunk, next_offset, total_bytes, eof) :: rest =>
      matches_command
        (DeviceResult.ProcessOutputRange chunk stream source offset next_offset total_bytes eof)
        (DeviceCommand.ReadProcessOutput locator source stream offset max_bytes) = true ∧
      output_chain locator source stream max_bytes next_offset rest
  end.

Definition page_chunk (p : list N * N * N * bool) : list N := p.1.1.1.
Definition page_next (p : list N * N * N * bool) : N := p.1.1.2.
Definition page_total (p : list N * N * N * bool) : N := p.1.2.
Definition page_eof (p : list N * N * N * bool) : bool := p.2.

Lemma len_u64_Some {A} (l : list A) n : len_u64 l = Some n → n = vlen l.
Proof. unfold len_u64. intros H. by run H. Qed.

Lemma output_page_sound chunk stream source offset next total eof max_bytes :
  process_output_range_matches chunk stream source offset next total eof
    source stream offset max_bytes = true →
  next = (offset + vlen chunk)%N ∧ (vlen chunk ≤ max_bytes)%N ∧ (next ≤ u64_max)%N ∧
  (next ≤ total)%N ∧ (eof = true ↔ next = total).
Proof.
  unfold process_output_range_matches. intros H. run H.
  match goal with H : len_u64 _ = Some _ |- _ => apply len_u64_Some in H as -> end.
  match goal with H : checked_add _ _ = Some _ |- _ => apply checked_add_Some in H as [-> ?] end.
  split_and!; [lia..|]. split; intros He.
  - subst eof. split_bools. lia.
  - subst eof. apply N.leb_le. lia.
Qed.

(** Reading a retained process output range by range returns consecutive
    bytes: no range is longer than requested, the ranges read so far cover
    exactly the bytes from the first offset to the last [next_offset] (which
    never wraps around [u64]), and [eof] is reported exactly when the last
    range reaches the total. *)
Theorem output_chain_contiguous locator source stream max_bytes offset pages p :
  output_chain locator source stream max_bytes offset pages →
  last pages = Some p →
  page_next p = (offset + vlen (pages ≫= page_chunk))%N ∧
  (page_next p ≤ u64_max)%N ∧
  Forall (λ q, (vlen (page_chunk q) ≤ max_bytes)%N) pages ∧
  (page_eof p = true ↔ page_next p = page_total p).
Proof.
  revert offset. induction pages as [|[[[chunk next] total] eof] rest IH]; intros offset Hc Hp.
  { done. }
  destruct Hc as [(Hn & Hmax & Hu & Htot & Heof)%output_page_sound Hrest].
  destruct rest as [|q rest].
  - simplify_eq/=. rewrite app_nil_r. split_and!; [done..| |done]. by repeat constructor.
  - destruct (IH next Hrest Hp) as (Hnext & ? & ? & ?).
    split_and!; [|done|by constructor|done].
    rewrite Hnext, Hn, <-N.add_assoc, <-vlen_app. done.
Qed.

Lemma output_chain_contiguous_witness :
  page_next ([4], 3, 3, true)%N = (0 + vlen ([([7; 9], 2, 3, false); ([4], 3, 3, true)]%N
                                      ≫= page_chunk))%N.
Proof.
  refine (proj1 (output_chain_contiguous "loc" "op_1" ProcessOutputStream.Stdout 2 0
    [([7; 9], 2, 3, false); ([4], 3, 3, true)]%N _ _ _)).
  - split; [vm_compute; reflexivity|]. split; [vm_compute; reflexivity|exact I].
  - reflexivity.
Defined.
