(* ===== verification/Crypto.v ===== *)
(** * The cryptographic interface of the control plane

    The control plane signs and verifies with [ed25519_dalek] and serialises
    with [serde_json]; both are outside the repository. They are a class of
    operations here, and what the proofs rely on is a second class of laws:
    the documented behaviour of those crates, never unforgeability. The file
    also holds the hexadecimal identifiers the source derives from keys. *)

From S2P Require Import Prelude Vocabulary.

Class Ed25519 := {
  VerifyingKey : Type;
  SigningKey : Type;
  verifying_key_eq_dec :: EqDecision VerifyingKey;
  (** [VerifyingKey::from_bytes] on 32 bytes *)
  vk_from_bytes : list N → option VerifyingKey;
  vk_to_bytes : VerifyingKey → list N;
  (** [Verifier::verify] of a message against a 64-byte signature *)
  vk_verify : VerifyingKey → list N → list N → bool;
  sk_verifying_key : SigningKey → VerifyingKey;
  sk_sign : SigningKey → list N → list N
}.

Class Ed25519Laws `{Ed25519} : Prop := {
  vk_to_bytes_length : ∀ k, length (vk_to_bytes k) = 32;
  vk_to_bytes_u8 : ∀ k, Forall (λ b, b < 256)%N (vk_to_bytes k);
  vk_from_to_bytes : ∀ k, vk_from_bytes (vk_to_bytes k) = Some k;
  vk_to_from_bytes : ∀ b k, vk_from_bytes b = Some k → vk_to_bytes k = b;
  sk_sign_length : ∀ sk m, length (sk_sign sk m) = 64;
  sk_sign_verifies : ∀ sk m, vk_verify (sk_verifying_key sk) m (sk_sign sk m) = true
}.

(** [<[u8; n]>::try_from(slice)] *)
Definition try_into_array (n : nat) (l : list N) : option (list N) :=
  if bool_decide (length l = n) then Some l else None.

(** ** Hexadecimal identifiers *)

Definition hex_digit (n : N) : ascii :=
  ascii_of_N (if (n <? 10)%N then 48 + n else 87 + n).

Fixpoint hex (l : list N) : string :=
  match l with
  | [] => EmptyString
  | b :: l => String (hex_digit (N.shiftr b 4)) (String (hex_digit (N.land b 15)) (hex l))
  end.

Definition verifying_key_id `{Ed25519} (k : VerifyingKey) : string :=
  "key_" +:+ hex (vk_to_bytes k).

(** [format!("dev_{}", hex(&key_bytes))] *)
Definition device_id_of_key_bytes (key_bytes : list N) : string := "dev_" +:+ hex key_bytes.

(** ** [hex] is injective on byte strings *)

Definition nibbles : list N := [0;1;2;3;4;5;6;7;8;9;10;11;12;13;14;15]%N.

Lemma nibble_elem n : (n < 16)%N → n ∈ nibbles.
Proof.
  intros H. assert (n = 0 ∨ n = 1 ∨ n = 2 ∨ n = 3 ∨ n = 4 ∨ n = 5 ∨ n = 6 ∨ n = 7 ∨ n = 8 ∨ n = 9
    ∨ n = 10 ∨ n = 11 ∨ n = 12 ∨ n = 13 ∨ n = 14 ∨ n = 15)%N as Hn by lia.
  unfold nibbles. destruct_or!; subst; set_solver.
Qed.

Lemma hex_digit_inj a b : (a < 16)%N → (b < 16)%N → hex_digit a = hex_digit b → a = b.
Proof.
  intros Ha%nibble_elem Hb%nibble_elem.
  assert (forallb (λ x, forallb (λ y,
            implb (bool_decide (hex_digit x = hex_digit y)) (x =? y)%N) nibbles) nibbles = true)
    as Hall by (vm_compute; reflexivity).
  rewrite forallb_forall in Hall. specialize (Hall a (proj1 (list_elem_of_In _ _) Ha)).
  rewrite forallb_forall in Hall. specialize (Hall b (proj1 (list_elem_of_In _ _) Hb)).
  intros Heq. rewrite bool_decide_true in Hall by done. by apply N.eqb_eq in Hall.
Qed.

Lemma byte_nibbles b : (b < 256)%N →
  (N.shiftr b 4 < 16)%N ∧ (N.land b 15 < 16)%N ∧ b = (16 * N.shiftr b 4 + N.land b 15)%N.
Proof.
  intros Hb. rewrite N.shiftr_div_pow2. change (N.land b 15) with (N.land b (N.ones 4)).
  rewrite N.land_ones. change (2 ^ 4)%N with 16%N.
  pose proof (N.div_mod b 16 ltac:(done)). pose proof (N.mod_lt b 16 ltac:(done)).
  split_and!; [|done|done]. apply N.Div0.div_lt_upper_bound. lia.
Qed.

Lemma hex_inj l k :
  Forall (λ b, b < 256)%N l → Forall (λ b, b < 256)%N k → hex l = hex k → l = k.
Proof.
  intros Hl. revert k. induction Hl as [|a l Ha Hl IH]; intros [|b k] Hk Heq; [done..|].
  apply Forall_cons in Hk as [Hb Hk]. cbn [hex] in Heq.
  injection Heq as Hhi Hlo Hrest.
  destruct (byte_nibbles a Ha) as (Ha1 & Ha2 & Ha3).
  destruct (byte_nibbles b Hb) as (Hb1 & Hb2 & Hb3).
  apply hex_digit_inj in Hhi; [|done..]. apply hex_digit_inj in Hlo; [|done..].
  f_equal; [congruence|by apply IH].
Qed.

Lemma verifying_key_id_inj `{Ed25519Laws} (k k' : VerifyingKey) :
  verifying_key_id k = verifying_key_id k' → k = k'.
Proof.
  unfold verifying_key_id. intros Heq. apply (inj (String.app "key_")) in Heq.
  apply hex_inj in Heq; [|apply vk_to_bytes_u8..].
  pose proof (vk_from_to_bytes k) as Hk. rewrite Heq, vk_from_to_bytes in Hk. by simplify_eq.
Qed.

(** ** An instance, for the examples

    Keys are 32 bytes; a signature is the key followed by a 32-byte digest that
    adds up the message. It is no signature scheme, but it satisfies the laws. *)
Module ToyCrypto.
Definition pad (n : nat) (l : list N) : list N := take n (l ++ replicate n 0%N).
Definition is_key (l : list N) : bool :=
  bool_decide (length l = 32) && forallb (λ b, b <? 256)%N l.
Definition key := { l : list N | is_key l = true }.
Definition digest (m : list N) : list N := pad 32 [fold_right N.add 0 m mod 256; vlen m mod 256]%N.

Lemma digest_length m : length (digest m) = 32.
Proof. reflexivity. Qed.

Lemma digest_u8 m : Forall (λ b, b < 256)%N (digest m).
Proof.
  unfold digest, pad. apply Forall_take, Forall_app. split.
  - repeat constructor; apply N.mod_lt; done.
  - by apply Forall_replicate.
Qed.

#[export] Instance key_eq_dec : EqDecision key.
Proof. intros x y. apply (sig_eq_dec (λ l, is_key l = true)). Defined.

Definition of_list (l : list N) : option key :=
  match is_key l as b return is_key l = b → option key with
  | true => λ e, Some (exist _ l e)
  | false => λ _, None
  end eq_refl.

Lemma of_list_Some (k : key) : of_list (`k) = Some k.
Proof.
  destruct k as [l e]. unfold of_list. cbn.
  generalize (eq_refl (is_key l)). generalize (is_key l) at 2 3. intros [] e'.
  - f_equal. by apply sig_eq_pi; [intros; apply _|].
  - congruence.
Qed.

Lemma of_list_proj l k : of_list l = Some k → `k = l.
Proof.
  unfold of_list. generalize (eq_refl (is_key l)). generalize (is_key l) at 2 3.
  intros [] e' H; by simplify_eq/=.
Qed.

#[export] Instance ed25519 : Ed25519 := {|
  VerifyingKey := key;
  SigningKey := key;
  vk_from_bytes := of_list;
  vk_to_bytes := proj1_sig;
  vk_verify k m s := bool_decide (s = `k ++ digest m);
  sk_verifying_key sk := sk;
  sk_sign sk m := `sk ++ digest m
|}.

Lemma key_shape (k : key) : length (`k) = 32 ∧ Forall (λ b, b < 256)%N (`k).
Proof.
  destruct k as [l e]. cbn. apply andb_true_iff in e as [E1 E2]. split_bools.
  split; [done|]. apply Forall_forall. intros b Hb%list_elem_of_In.
  rewrite forallb_forall in E2. by apply N.ltb_lt, E2.
Qed.

#[export] Instance laws : Ed25519Laws.
Proof.
  split; cbn; intros.
  - apply key_shape.
  - apply key_shape.
  - apply of_list_Some.
  - by apply of_list_proj.
  - rewrite length_app, (proj1 (key_shape _)). reflexivity.
  - by apply bool_decide_true.
Qed.

Definition key_of_byte (b : N) : key := default (exist _ (replicate 32 0%N) eq_refl)
  (of_list (replicate 32 b)).
End ToyCrypto.
