(* ===== verification/Wire.v ===== *)
(** * Byte-level encodings

    The encodings the source writes by hand: big-endian integers and
    length-prefixed byte strings, with the facts that make concatenations of them
    uniquely decodable. *)

From S2P Require Import Prelude.

(** [to_be_bytes] of an unsigned integer of [n] bytes. *)
Fixpoint to_be_bytes (n : nat) (v : N) : list N :=
  match n with
  | O => []
  | S n => ((v / 256 ^ N.of_nat n) mod 256)%N :: to_be_bytes n v
  end.

(** [from_be_bytes] *)
Definition from_be_bytes (l : list N) : N := foldl (λ a b, a * 256 + b)%N 0%N l.

(** [push_bytes(out, value)]: the length as a [u32], then the bytes. *)
Definition push_bytes (output value : list N) : list N :=
  output ++ to_be_bytes 4 (vlen value mod 2 ^ 32) ++ value.

Definition push_str (output : list N) (value : string) : list N := push_bytes output (bytes value).

(** The type of an unsigned integer of [n] bytes. *)
Definition fits (n : nat) (v : N) : Prop := (v < 256 ^ N.of_nat n)%N.

(** A string whose length is a [u32]. *)
Definition short (s : string) : Prop := (slen s < 2 ^ 32)%N.

Lemma to_be_bytes_length n v : length (to_be_bytes n v) = n.
Proof. induction n as [|n IH]; cbn; [done|by rewrite IH]. Qed.

Lemma to_be_bytes_u8 n v : Forall (λ b, b < 256)%N (to_be_bytes n v).
Proof. induction n as [|n IH]; cbn; constructor; [by apply N.mod_lt|done]. Qed.

Lemma to_be_bytes_mod n v : to_be_bytes n (v mod 256 ^ N.of_nat n) = to_be_bytes n v.
Proof.
  assert (∀ k, k ≤ n → to_be_bytes k (v mod 256 ^ N.of_nat n) = to_be_bytes k v) as H; [|by apply H].
  induction k as [|k IH]; intros Hk; [done|]. cbn [to_be_bytes]. rewrite IH by lia. f_equal.
  assert (256 ^ N.of_nat n = 256 ^ N.of_nat k * 256 ^ N.of_nat (n - k))%N as ->.
  { rewrite <- N.pow_add_r. f_equal. lia. }
  assert (256 ^ N.of_nat (n - k) = 256 * 256 ^ N.of_nat (n - k - 1))%N as E.
  { rewrite <- N.pow_succ_r'. f_equal. lia. }
  rewrite N.Div0.mod_mul_r, N.mul_comm, N.div_add by (apply N.pow_nonzero; done).
  rewrite (N.div_small (v mod _)) by (apply N.mod_lt, N.pow_nonzero; done).
  rewrite N.add_0_l, E, N.Div0.mod_mul_r.
  rewrite N.mul_comm, N.Div0.mod_add. by rewrite N.Div0.mod_mod.
Qed.

Lemma from_be_bytes_acc l a :
  foldl (λ a b, a * 256 + b)%N a l = (a * 256 ^ vlen l + from_be_bytes l)%N.
Proof.
  unfold from_be_bytes, vlen. revert a. induction l as [|b l IH]; intros a; cbn [foldl length].
  - cbn. lia.
  - rewrite IH, (IH (0 * 256 + b)%N), Nat2N.inj_succ, N.pow_succ_r'. lia.
Qed.

Lemma from_to_be_bytes n v : from_be_bytes (to_be_bytes n v) = (v mod 256 ^ N.of_nat n)%N.
Proof.
  induction n as [|n IH]; [cbn; by rewrite N.mod_1_r|].
  cbn [to_be_bytes]. unfold from_be_bytes. cbn [foldl]. rewrite from_be_bytes_acc, IH.
  unfold vlen. rewrite to_be_bytes_length, Nat2N.inj_succ, N.pow_succ_r', (N.mul_comm 256).
  rewrite N.Div0.mod_mul_r. lia.
Qed.

Lemma to_be_bytes_inj n v v' : fits n v → fits n v' → to_be_bytes n v = to_be_bytes n v' → v = v'.
Proof.
  intros Hv Hv' Heq%(f_equal from_be_bytes). rewrite !from_to_be_bytes in Heq.
  by rewrite !N.mod_small in Heq.
Qed.

(** ** Unique decoding *)

Lemma be_prefix n v v' r r' :
  fits n v → fits n v' → to_be_bytes n v ++ r = to_be_bytes n v' ++ r' → v = v' ∧ r = r'.
Proof.
  intros Hv Hv' [H ->]%app_inj_1; [|by rewrite !to_be_bytes_length].
  split; [by eapply to_be_bytes_inj|done].
Qed.

Lemma array_prefix (a a' r r' : list N) :
  length a = 32 → length a' = 32 → a ++ r = a' ++ r' → a = a' ∧ r = r'.
Proof. intros H H'. apply app_inj_1. by rewrite H, H'. Qed.

Lemma short_len s : short s → vlen (bytes s) = slen s ∧ fits 4 (slen s).
Proof. intros H. unfold vlen, slen. rewrite length_bytes. split; [done|]. exact H. Qed.

Lemma str_prefix s s' r r' :
  short s → short s' →
  push_str [] s ++ r = push_str [] s' ++ r' → s = s' ∧ r = r'.
Proof.
  intros [Hl Hf]%short_len [Hl' Hf']%short_len. unfold push_str, push_bytes. cbn [app].
  rewrite Hl, Hl', !N.mod_small by done. rewrite <- !app_assoc.
  intros [Hlen Hrest]%be_prefix; [|done..].
  apply app_inj_1 in Hrest as [Hb ->].
  - split; [by apply bytes_inj|done].
  - rewrite !length_bytes. unfold slen in Hlen. lia.
Qed.

Lemma push_str_app out s : push_str out s = out ++ push_str [] s.
Proof. done. Qed.
Lemma push_bytes_app out v : push_bytes out v = out ++ push_bytes [] v.
Proof. done. Qed.
