(* ===== verification/Registry.v ===== *)
(** * The device registry

    [DeviceRegistry] of [src/src/v2_m0.rs]: enrolled device keys, the generation
    counter that fences reconnecting devices, revocation, and the persisted
    snapshots with their historical schemas. *)

From S2P Require Import Prelude Vocabulary Protocol Crypto.

Module DeviceRegistry.

Definition DEVICE_REGISTRY_SNAPSHOT_SCHEMA_VERSION : N := 8.

Section Operations.
Context `{ED : Ed25519}.

Record EnrolledDevice := mk_enrolled {
  verifying_key : VerifyingKey;
  generation : N;
  capabilities : option CapabilityAdvertisement
}.

Record EnrolledDeviceSnapshot := mk_device_snapshot {
  snap_device_id : string;
  snap_verifying_key : list N;
  snap_generation : N;
  snap_capabilities : option CapabilityAdvertisement
}.

Record DeviceRegistrySnapshot := mk_registry_snapshot {
  snap_schema_version : N;
  snap_devices : list EnrolledDeviceSnapshot;
  snap_revoked_device_ids : list string
}.

Record DeviceRegistry := mk_registry {
  devices : gmap string EnrolledDevice;
  revoked : gset string
}.

Definition default_registry : DeviceRegistry := mk_registry ∅ ∅.

(** ** Snapshots *)

Definition snapshot_device (kv : string * EnrolledDevice) : EnrolledDeviceSnapshot :=
  mk_device_snapshot kv.1 (vk_to_bytes kv.2.(verifying_key)) kv.2.(generation)
    kv.2.(capabilities).

Definition snapshot_le (a b : EnrolledDeviceSnapshot) : Prop :=
  String.le a.(snap_device_id) b.(snap_device_id).

#[export] Instance snapshot_le_dec : RelDecision snapshot_le.
Proof. intros a b. unfold snapshot_le. apply _. Defined.

Definition snapshot `{HashIter} (r : DeviceRegistry) : DeviceRegistrySnapshot :=
  mk_registry_snapshot DEVICE_REGISTRY_SNAPSHOT_SCHEMA_VERSION
    (merge_sort snapshot_le (snapshot_device <$> hash_iter r.(devices)))
    (merge_sort String.le (hash_set_iter r.(revoked))).

(** The loop of [from_snapshot] over the devices. *)
Fixpoint load_devices (l : list EnrolledDeviceSnapshot) (m : gmap string EnrolledDevice)
    : result ControlError (gmap string EnrolledDevice) :=
  match l with
  | [] => Ok m
  | d :: l =>
      return_if bool_decide (is_Some (m !! d.(snap_device_id)))
        with Err ControlError.InvalidRegistrySnapshot ;;
      let_some key := vk_from_bytes d.(snap_verifying_key)
        else Err ControlError.InvalidRegistrySnapshot ;;
      match d.(snap_capabilities) with
      | Some c =>
          return_if negb (c.(CapabilityAdvertisement.capability_schema_version)
                          =? CAPABILITY_SCHEMA_VERSION)%N
            with Err (ControlError.UnsupportedCapabilitySchema
                        c.(CapabilityAdvertisement.capability_schema_version)) ;;
          load_devices l (<[d.(snap_device_id) :=
            mk_enrolled key d.(snap_generation) d.(snap_capabilities)]> m)
      | None =>
          load_devices l (<[d.(snap_device_id) :=
            mk_enrolled key d.(snap_generation) d.(snap_capabilities)]> m)
      end
  end.

Definition from_snapshot (s : DeviceRegistrySnapshot) : result ControlError DeviceRegistry :=
  return_if negb (s.(snap_schema_version) =? DEVICE_REGISTRY_SNAPSHOT_SCHEMA_VERSION)%N
    with Err (ControlError.UnsupportedControlSchema s.(snap_schema_version)) ;;
  let_ok m := load_devices s.(snap_devices) ∅ else e => Err e ;;
  Ok (mk_registry m (list_to_set s.(snap_revoked_device_ids))).

(** The exact historical pairings of registry and capability schemas; [None] is
    the unsupported schema of the last match arm. *)
Definition valid_pairing (schema_version capability_schema : N) : option bool :=
  if (schema_version =? 2)%N then Some (capability_schema =? 2)%N
  else if (schema_version =? 3)%N then Some (capability_schema =? 3)%N
  else if in_range 4 6 schema_version then Some (capability_schema =? 4)%N
  else if (schema_version =? 7)%N then Some (capability_schema =? 5)%N
  else if (schema_version =? 8)%N
  then Some ((capability_schema =? 6)%N || (capability_schema =? 7)%N)
  else None.

Fixpoint check_pairings (schema_version : N) (l : list EnrolledDeviceSnapshot)
    : result ControlError unit :=
  match l with
  | [] => Ok tt
  | d :: l =>
      match d.(snap_capabilities) with
      | None => check_pairings schema_version l
      | Some c =>
          let_some valid :=
              valid_pairing schema_version c.(CapabilityAdvertisement.capability_schema_version)
            else Err (ControlError.UnsupportedControlSchema schema_version) ;;
          return_if negb valid with Err ControlError.InvalidRegistrySnapshot ;;
          check_pairings schema_version l
      end
  end.

Definition is_current_device (d : EnrolledDeviceSnapshot) : bool :=
  match d.(snap_capabilities) with
  | Some c => (c.(CapabilityAdvertisement.capability_schema_version)
               =? CAPABILITY_SCHEMA_VERSION)%N
  | None => true
  end.

Definition clear_capabilities (d : EnrolledDeviceSnapshot) : EnrolledDeviceSnapshot :=
  mk_device_snapshot d.(snap_device_id) d.(snap_verifying_key) d.(snap_generation) None.

Definition from_persisted_snapshot (s : DeviceRegistrySnapshot)
    : result ControlError DeviceRegistry :=
  return_if (s.(snap_schema_version) =? DEVICE_REGISTRY_SNAPSHOT_SCHEMA_VERSION)%N
            && forallb is_current_device s.(snap_devices)
    with from_snapshot s ;;
  let_ok _ := check_pairings s.(snap_schema_version) s.(snap_devices) else e => Err e ;;
  from_snapshot
    (mk_registry_snapshot DEVICE_REGISTRY_SNAPSHOT_SCHEMA_VERSION
       (clear_capabilities <$> s.(snap_devices)) s.(snap_revoked_device_ids)).

(** ** Operations *)

Definition set_device (r : DeviceRegistry) (id : string) (d : EnrolledDevice)
    : DeviceRegistry := mk_registry (<[id := d]> r.(devices)) r.(revoked).

(** [entry(id).or_insert(d)] *)
Definition or_insert_device (r : DeviceRegistry) (id : string) (d : EnrolledDevice)
    : DeviceRegistry :=
  match r.(devices) !! id with Some _ => r | None => set_device r id d end.

Definition provision_trusted_device (r : DeviceRegistry) (key : VerifyingKey)
    : DeviceRegistry * string :=
  let device_id := device_id_of_key_bytes (vk_to_bytes key) in
  (or_insert_device r device_id (mk_enrolled key 0 None), device_id).

Definition device_verifier (r : DeviceRegistry) (id : string)
    : result ControlError VerifyingKey :=
  let_some d := r.(devices) !! id else Err ControlError.UnknownDevice ;;
  Ok d.(verifying_key).

Definition set_capabilities (d : EnrolledDevice) (c : option CapabilityAdvertisement)
    : EnrolledDevice := mk_enrolled d.(verifying_key) d.(generation) c.

Definition disconnect (r : DeviceRegistry) (id : string)
    : DeviceRegistry * result ControlError unit :=
  let_some d := r.(devices) !! id else (r, Err ControlError.UnknownDevice) ;;
  (set_device r id (set_capabilities d None), Ok tt).

Definition mark_all_offline (r : DeviceRegistry) : DeviceRegistry :=
  mk_registry ((λ d, set_capabilities d None) <$> r.(devices)) r.(revoked).

Definition enroll (r : DeviceRegistry) (public_key challenge proof : list N)
    : DeviceRegistry * result ControlError string :=
  let_some key_bytes := try_into_array 32 public_key
    else (r, Err ControlError.InvalidDeviceIdentity) ;;
  let_some key := vk_from_bytes key_bytes
    else (r, Err ControlError.InvalidDeviceIdentity) ;;
  let_some signature := try_into_array 64 proof
    else (r, Err ControlError.InvalidDeviceIdentity) ;;
  return_if negb (vk_verify key challenge signature)
    with (r, Err ControlError.InvalidEnrollmentProof) ;;
  let device_id := device_id_of_key_bytes key_bytes in
  (or_insert_device r device_id (mk_enrolled key 0 None), Ok device_id).

Definition revoke_device (r : DeviceRegistry) (id : string) : DeviceRegistry :=
  mk_registry r.(devices) ({[id]} ∪ r.(revoked)).

Definition verify_device_signature (r : DeviceRegistry) (id : string) (message proof : list N)
    : result ControlError unit :=
  return_if bool_decide (id ∈ r.(revoked)) with Err ControlError.DeviceRevoked ;;
  let_some d := r.(devices) !! id else Err ControlError.UnknownDevice ;;
  let_some signature := try_into_array 64 proof
    else Err ControlError.InvalidDeviceSignature ;;
  return_if negb (vk_verify d.(verifying_key) message signature)
    with Err ControlError.InvalidDeviceSignature ;;
  Ok tt.

(** [generation.saturating_add(1).max(1)] *)
Definition next_generation (g : N) : N := N.max (saturating_add g 1) 1.

Definition rotate_device_key (r : DeviceRegistry) (id : string)
    (new_public_key rotation_message old_proof new_proof : list N)
    : DeviceRegistry * result ControlError unit :=
  return_if bool_decide (id ∈ r.(revoked)) with (r, Err ControlError.DeviceRevoked) ;;
  let_some new_key_bytes := try_into_array 32 new_public_key
    else (r, Err ControlError.InvalidDeviceIdentity) ;;
  let_some new_key := vk_from_bytes new_key_bytes
    else (r, Err ControlError.InvalidDeviceIdentity) ;;
  let_some old_signature := try_into_array 64 old_proof
    else (r, Err ControlError.InvalidDeviceSignature) ;;
  let_some new_signature := try_into_array 64 new_proof
    else (r, Err ControlError.InvalidDeviceSignature) ;;
  let_some d := r.(devices) !! id else (r, Err ControlError.UnknownDevice) ;;
  return_if negb (vk_verify d.(verifying_key) rotation_message old_signature)
    with (r, Err ControlError.InvalidDeviceRotationProof) ;;
  return_if negb (vk_verify new_key rotation_message new_signature)
    with (r, Err ControlError.InvalidDeviceRotationProof) ;;
  (set_device r id (mk_enrolled new_key (next_generation d.(generation)) None), Ok tt).

Definition connect (r : DeviceRegistry) (id : string) (c : CapabilityAdvertisement)
    : DeviceRegistry * result ControlError DeviceSession :=
  return_if bool_decide (id ∈ r.(revoked)) with (r, Err ControlError.DeviceRevoked) ;;
  return_if negb (c.(CapabilityAdvertisement.capability_schema_version)
                  =? CAPABILITY_SCHEMA_VERSION)%N
    with (r, Err (ControlError.UnsupportedCapabilitySchema
                    c.(CapabilityAdvertisement.capability_schema_version))) ;;
  let_some d := r.(devices) !! id else (r, Err ControlError.UnknownDevice) ;;
  let generation' := next_generation d.(generation) in
  (set_device r id (mk_enrolled d.(verifying_key) generation' (Some c)),
   Ok (DeviceSession.mk id generation' c)).

Definition current_session (r : DeviceRegistry) (id : string)
    : result ControlError DeviceSession :=
  let_some d := r.(devices) !! id else Err ControlError.UnknownDevice ;;
  let_some c := d.(capabilities) else Err ControlError.DeviceOffline ;;
  Ok (DeviceSession.mk id d.(generation) c).

(** ** Transitions

    One call of a mutating operation, or a restart that restores the snapshot
    the registry persisted. *)
Inductive step `{HashIter} : DeviceRegistry → DeviceRegistry → Prop :=
| step_provision r key : step r (provision_trusted_device r key).1
| step_enroll r public_key challenge proof : step r (enroll r public_key challenge proof).1
| step_disconnect r id : step r (disconnect r id).1
| step_offline r : step r (mark_all_offline r)
| step_revoke r id : step r (revoke_device r id)
| step_rotate r id key message old_proof new_proof :
    step r (rotate_device_key r id key message old_proof new_proof).1
| step_connect r id c : step r (connect r id c).1
| step_restart r r' : from_persisted_snapshot (snapshot r) = Ok r' → step r r'.

Definition reachable `{HashIter} (r : DeviceRegistry) : Prop := rtc step default_registry r.

End Operations.

(** * Theorems *)

Section Theorems.
Context `{ED : Ed25519, EDL : !Ed25519Laws} `{HI : HashIter}.
Implicit Types r : DeviceRegistry.

(** Every stored advertisement has the current capability schema. *)
Definition wf_device (d : EnrolledDevice) : Prop :=
  ∀ c, d.(capabilities) = Some c →
       c.(CapabilityAdvertisement.capability_schema_version) = CAPABILITY_SCHEMA_VERSION.

Definition wf r : Prop := map_Forall (λ _, wf_device) r.(devices).

(** ** Snapshots *)

Lemma load_devices_snapshot (l : list (string * EnrolledDevice)) m :
  NoDup l.*1 → (∀ id, id ∈ l.*1 → m !! id = None) → Forall (λ kv, wf_device kv.2) l →
  load_devices (snapshot_device <$> l) m = Ok (list_to_map l ∪ m).
Proof.
  revert m. induction l as [|[id d] l IH]; intros m Hnd Hm Hwf.
  { cbn. by rewrite (left_id_L ∅ (∪)). }
  apply NoDup_cons in Hnd as [Hid Hnd]. apply Forall_cons in Hwf as [Hd Hwf].
  cbn [fmap list_fmap load_devices snapshot_device fst snd snap_device_id
       snap_verifying_key snap_capabilities snap_generation].
  rewrite bool_decide_false by (rewrite Hm by set_solver; by intros [? ?]).
  rewrite vk_from_to_bytes.
  assert (load_devices (snapshot_device <$> l)
            (<[id := mk_enrolled (verifying_key d) (generation d) (capabilities d)]> m)
          = Ok (list_to_map ((id, d) :: l) ∪ m)) as Hgo.
  { rewrite IH; [|done| |done].
    - cbn. rewrite <-insert_union_l, insert_union_r by by apply not_elem_of_list_to_map.
      by destruct d.
    - intros id' Hid'. rewrite lookup_insert_ne by set_solver. apply Hm. set_solver. }
  destruct (capabilities d) as [c|] eqn:E; [|by rewrite Hgo].
  cbn in Hd. rewrite (Hd c E), N.eqb_refl. cbn. by rewrite Hgo.
Qed.

Lemma snapshot_devices_perm r :
  ∃ l, (snapshot r).(snap_devices) = snapshot_device <$> l ∧ l ≡ₚ map_to_list r.(devices).
Proof. apply sorted_hash_iter. Qed.

Lemma snapshot_revoked r :
  list_to_set (snapshot r).(snap_revoked_device_ids) = r.(revoked).
Proof. apply sorted_hash_set. Qed.

Lemma from_snapshot_snapshot r : wf r → from_snapshot (snapshot r) = Ok r.
Proof.
  intros Hwf. destruct (snapshot_devices_perm r) as (l & Hl & Hp).
  unfold from_snapshot. rewrite snapshot_revoked, Hl. cbn.
  rewrite load_devices_snapshot.
  - rewrite (list_to_map_perm _ _ Hp), (right_id_L ∅ (∪)). by destruct r.
  - rewrite Hp. apply NoDup_fst_map_to_list.
  - intros. apply lookup_empty.
  - apply Forall_forall. intros [id d] Hin. rewrite Hp in Hin.
    apply elem_of_map_to_list in Hin. by eapply Hwf.
Qed.

Lemma from_persisted_snapshot_snapshot r :
  wf r → from_persisted_snapshot (snapshot r) = Ok r.
Proof.
  intros Hwf. unfold from_persisted_snapshot.
  assert (forallb is_current_device (snapshot r).(snap_devices) = true) as ->.
  { apply forallb_forall. intros d Hd%list_elem_of_In.
    destruct (snapshot_devices_perm r) as (l & Hl & Hp). rewrite Hl in Hd.
    apply list_elem_of_fmap in Hd as ([id d'] & -> & Hd). rewrite Hp in Hd.
    apply elem_of_map_to_list in Hd. unfold is_current_device. cbn.
    destruct (capabilities d') eqn:E; [|done].
    apply N.eqb_eq. by apply (Hwf id d' Hd). }
  cbn. by apply from_snapshot_snapshot.
Qed.

(** ** The invariant *)

Lemma wf_set_device r id d : wf r → wf_device d → wf (set_device r id d).
Proof. intros Hr Hd. by apply map_Forall_insert_2. Qed.

Lemma wf_or_insert r id d : wf r → wf_device d → wf (or_insert_device r id d).
Proof.
  intros Hr Hd. unfold or_insert_device. destruct (devices r !! id); [done|].
  by apply wf_set_device.
Qed.

Lemma step_wf r r' : step r r' → wf r → wf r'.
Proof.
  intros Hstep Hwf. destruct Hstep as [r key|r pk ch pf|r id|r|r id|r id key m o n|r id c|r r' Hr].
  - by apply wf_or_insert.
  - unfold enroll. run_goal; try done. by apply wf_or_insert.
  - unfold disconnect. run_goal; try done. by apply wf_set_device.
  - intros id d Hd. cbn in Hd. apply lookup_fmap_Some in Hd as (d' & <- & _). by intros c.
  - done.
  - unfold rotate_device_key. run_goal; try done. by apply wf_set_device.
  - unfold connect. run_goal; try done. apply wf_set_device; [done|].
    intros c' Hc'. by simplify_eq/=.
  - rewrite from_persisted_snapshot_snapshot in Hr by done. by simplify_eq.
Qed.

Lemma reachable_wf r : reachable r → wf r.
Proof.
  intros Hr. apply (rtc_invariant _ wf step_wf _ _ Hr), map_Forall_empty.
Qed.

(** ** Properties *)

(** Restart round trip. Whatever the history of the registry, the snapshot
    it persists is restored to exactly the same registry: keys, generations,
    advertisements and revocations. *)
Theorem registry_restart_roundtrip r :
  reachable r → from_persisted_snapshot (snapshot r) = Ok r.
Proof. intros Hr. by apply from_persisted_snapshot_snapshot, reachable_wf. Qed.

Lemma revoked_step r r' id : step r r' → wf r → id ∈ r.(revoked) → id ∈ r'.(revoked).
Proof.
  intros Hstep Hwf Hid. destruct Hstep as [| | | | | | |r r' Hr];
    unfold provision_trusted_device, enroll, disconnect, rotate_device_key, connect,
      or_insert_device.
  1-4, 6, 7: run_goal; done.
  - cbn. set_solver.
  - rewrite from_persisted_snapshot_snapshot in Hr by done. by simplify_eq.
Qed.

(** C34: Revocation is permanent. Once a device is revoked, after any further
    operations and restarts it can neither connect, nor prove a signature, nor
    rotate its key, and the refusals leave the registry unchanged. *)
Theorem revocation_is_permanent r r' id :
  reachable r → id ∈ r.(revoked) → rtc step r r' →
  (∀ c, connect r' id c = (r', Err ControlError.DeviceRevoked)) ∧
  (∀ m p, verify_device_signature r' id m p = Err ControlError.DeviceRevoked) ∧
  (∀ k m o n, rotate_device_key r' id k m o n = (r', Err ControlError.DeviceRevoked)).
Proof.
  intros Hr%reachable_wf Hid Hsteps.
  assert (wf r' ∧ id ∈ r'.(revoked)) as [_ Hid'].
  { apply (rtc_invariant step (λ r, wf r ∧ id ∈ r.(revoked))) with (x := r); [|done..].
    intros ?? Hs []. split; [by eapply step_wf|by eapply revoked_step]. }
  unfold connect, verify_device_signature, rotate_device_key.
  by rewrite bool_decide_true.
Qed.

(** The fence: the generation of a device that has connected never falls below
    that of an earlier session. *)
Definition fenced (g : N) (id : string) r : Prop :=
  ∃ d, r.(devices) !! id = Some d ∧ (g ≤ d.(generation))%N.

Lemma next_generation_ge g g' : (g < u64_max)%N → (g ≤ g')%N → (g < next_generation g')%N.
Proof. unfold next_generation, saturating_add. lia. Qed.

Lemma fenced_set_device g id id' d r :
  fenced g id r → (id = id' → (g ≤ d.(generation))%N) → fenced g id (set_device r id' d).
Proof.
  intros (d0 & Hd0 & Hg) Hd. unfold fenced, set_device. cbn.
  destruct (decide (id' = id)) as [->|Hne].
  - exists d. rewrite lookup_insert_eq. split; [done|by apply Hd].
  - exists d0. by rewrite lookup_insert_ne.
Qed.

Lemma fenced_or_insert g id id' d r : fenced g id r → fenced g id (or_insert_device r id' d).
Proof.
  intros Hf. unfold or_insert_device. destruct (devices r !! id') eqn:E; [done|].
  apply fenced_set_device; [done|]. intros <-. destruct Hf as (? & ? & _). congruence.
Qed.

Lemma fenced_step g id r r' :
  (g < u64_max)%N → wf r → step r r' → fenced g id r → fenced g id r'.
Proof.
  intros Hg Hwf Hstep Hf.
  assert (∀ id' d, r.(devices) !! id' = Some d → id = id' → (g ≤ d.(generation))%N) as Hle.
  { intros id' d Hd ->. destruct Hf as (? & ? & ?). by simplify_eq. }
  destruct Hstep as [r key|r pk ch pf|r id'|r|r id'|r id' key m o n|r id' c|r r' Hr].
  - by apply fenced_or_insert.
  - unfold enroll. run_goal; try done. by apply fenced_or_insert.
  - unfold disconnect. run_goal; try done. apply fenced_set_device; [done|]. cbn; eauto.
  - destruct Hf as (d & Hd & ?). exists (set_capabilities d None).
    cbn. by rewrite lookup_fmap, Hd.
  - done.
  - unfold rotate_device_key. run_goal; try done. apply fenced_set_device; [done|].
    intros Heq. apply N.lt_le_incl, next_generation_ge; eauto.
  - unfold connect. run_goal; try done. apply fenced_set_device; [done|].
    intros Heq. apply N.lt_le_incl, next_generation_ge; eauto.
  - rewrite from_persisted_snapshot_snapshot in Hr by done. by simplify_eq.
Qed.

Lemma connect_Ok r r' id c s :
  connect r id c = (r', Ok s) →
  s.(DeviceSession.device_id) = id ∧
  ∃ d, r.(devices) !! id = Some d ∧
       s.(DeviceSession.generation) = next_generation d.(generation) ∧
       fenced s.(DeviceSession.generation) id r'.
Proof.
  unfold connect. intros H. run H. split; [done|]. eexists. split_and!; [done..|].
  eexists. cbn. by rewrite lookup_insert_eq.
Qed.

(** Generation fencing. A command that was valid on one session of a device
    is refused as stale on every later session of that device, whatever happened
    in between (reconnects, key rotations, restarts), as long as the generation
    counter had not saturated at [u64::MAX]. *)
Theorem stale_commands_are_fenced r0 r1 r2 r3 id c1 c2 s1 s2 e :
  reachable r0 →
  connect r0 id c1 = (r1, Ok s1) → rtc step r1 r2 → connect r2 id c2 = (r3, Ok s2) →
  (s1.(DeviceSession.generation) < u64_max)%N →
  validate_command_session e s1 = Ok tt →
  validate_command_session e s2 =
    Err (ControlError.StaleDeviceGeneration s2.(DeviceSession.generation)
           e.(CommandEnvelope.device_generation)).
Proof.
  intros Hr0 H1 Hsteps H2 Hlt He.
  assert (wf r1) as Hwf.
  { apply (step_wf r0); [|by apply reachable_wf].
    pose proof (step_connect r0 id c1) as Hs. by rewrite H1 in Hs. }
  apply connect_Ok in H1 as (<- & d1 & _ & _ & Hf).
  assert (fenced s1.(DeviceSession.generation) s1.(DeviceSession.device_id) r2)
    as (d2' & Hd2' & Hge).
  { apply (rtc_invariant step (λ r, wf r ∧ fenced (DeviceSession.generation s1)
             (DeviceSession.device_id s1) r)) with (x := r1); [|done..].
    intros ?? Hs []. split; [by eapply step_wf|by eapply fenced_step]. }
  apply connect_Ok in H2 as (Hid2 & d2 & Hd2 & Hg2 & _). simplify_eq.
  pose proof (next_generation_ge _ _ Hlt Hge) as Hne.
  unfold validate_command_session in He |- *. run He.
  rewrite bool_decide_true by congruence. cbn.
  by rewrite (proj2 (N.eqb_neq _ _)) by (rewrite Hg2; lia).
Qed.

(** Keys change only by rotation. If one operation replaces the key stored
    for a device, it is a rotation, and its message was signed both with the old
    and with the new key; enrolling or provisioning a known device keeps the
    stored key. *)
Theorem key_change_is_proved_rotation r r' id d d' :
  wf r → step r r' →
  r.(devices) !! id = Some d → r'.(devices) !! id = Some d' →
  d'.(verifying_key) ≠ d.(verifying_key) →
  ∃ message old_proof new_proof,
    vk_verify d.(verifying_key) message old_proof = true ∧
    vk_verify d'.(verifying_key) message new_proof = true ∧
    (id ∉ r.(revoked)) ∧ d'.(capabilities) = None.
Proof.
  intros Hwf Hstep Hd Hd' Hne.
  assert (∀ id0 d0, (or_insert_device r id0 d0).(devices) !! id = Some d' → False) as Hins.
  { intros id0 d0. unfold or_insert_device. destruct (devices r !! id0) eqn:E; [congruence|].
    cbn. rewrite lookup_insert_ne by congruence. congruence. }
  assert (∀ id0 d0, r.(devices) !! id0 = Some d0 →
            ∀ c g, (set_device r id0 (mk_enrolled d0.(verifying_key) g c)).(devices) !! id
                   = Some d' → False) as Hset.
  { intros id0 d0 Hd0 c g. cbn. destruct (decide (id0 = id)) as [->|].
    - rewrite lookup_insert_eq. by intros ?; simplify_eq/=.
    - rewrite lookup_insert_ne by done. congruence. }
  destruct Hstep as [r key|r pk ch pf|r id'|r|r id'|r id' key m o n|r id' c|r r' Hr].
  - by destruct (Hins _ _ Hd').
  - unfold enroll in Hd'. run Hd'; solve [by destruct (Hins _ _ Hd')|congruence].
  - unfold disconnect in Hd'. run Hd'; solve [by destruct (Hset _ _ E _ _ Hd')|congruence].
  - cbn in Hd'. rewrite lookup_fmap, Hd in Hd'. by simplify_eq/=.
  - cbn in Hd'. congruence.
  - unfold rotate_device_key in Hd'. run Hd'; try congruence.
    cbn in Hd'. destruct (decide (id' = id)) as [->|].
    + rewrite lookup_insert_eq in Hd'. simplify_eq/=. eauto 7.
    + rewrite lookup_insert_ne in Hd' by done. congruence.
  - unfold connect in Hd'. run Hd'; solve [by destruct (Hset _ _ E1 _ _ Hd')|congruence].
  - rewrite from_persisted_snapshot_snapshot in Hr by done. by simplify_eq.
Qed.

Lemma check_pairings_offline v l :
  Forall (λ d, d.(snap_capabilities) = None) l → check_pairings v l = Ok tt.
Proof. induction 1 as [|d l Hd _ IH]; cbn; [done|]. by rewrite Hd. Qed.

Definition with_schema_version (s : DeviceRegistrySnapshot) (v : N) : DeviceRegistrySnapshot :=
  mk_registry_snapshot v s.(snap_devices) s.(snap_revoked_device_ids).

(** The persisted registry schema is not checked when no device is online.
    For every registry and every schema number [v], known or not, a snapshot of
    the registry with all devices offline restores under schema [v]: the version
    of the snapshot is only looked at through the advertisements it holds. *)
Theorem offline_snapshot_of_any_schema_restores r v :
  wf r →
  from_persisted_snapshot (with_schema_version (snapshot (mark_all_offline r)) v)
    = Ok (mark_all_offline r).
Proof.
  intros Hwf. set (r' := mark_all_offline r).
  assert (wf r') as Hwf' by (by apply (step_wf r); [constructor|]).
  destruct (snapshot_devices_perm r') as (l & Hl & Hp).
  assert (Forall (λ d, d.(snap_capabilities) = None) (snapshot r').(snap_devices)) as Hoff.
  { rewrite Hl. apply Forall_fmap, Forall_forall. intros [id d] Hin. rewrite Hp in Hin.
    apply elem_of_map_to_list in Hin. cbn in Hin.
    apply lookup_fmap_Some in Hin as (? & <- & _). done. }
  assert (clear_capabilities <$> (snapshot r').(snap_devices) = (snapshot r').(snap_devices)) as Hclr.
  { clear -Hoff. induction Hoff as [|d k Hd _ IH]; cbn; [done|]. rewrite IH. f_equal.
    destruct d. cbn in *. by subst. }
  assert (forallb is_current_device (snapshot r').(snap_devices) = true) as Hcur.
  { apply forallb_forall. intros d Hd%list_elem_of_In. rewrite Forall_forall in Hoff.
    unfold is_current_device. by rewrite Hoff. }
  pose proof (from_snapshot_snapshot r' Hwf') as Hok.
  unfold from_persisted_snapshot, with_schema_version. cbn [snap_devices snap_schema_version
    snap_revoked_device_ids]. rewrite Hcur, check_pairings_offline, Hclr by done.
  destruct (N.eqb_spec v DEVICE_REGISTRY_SNAPSHOT_SCHEMA_VERSION) as [->|_]; exact Hok.
Qed.

End Theorems.

(** ** Witnesses *)

Module Examples.
Import ToyCrypto.
#[local] Existing Instance canonical_hash_iter.

Definition ads (revision : N) : CapabilityAdvertisement :=
  CapabilityAdvertisement.mk "cua" "0.19.3" "macos" CAPABILITY_SCHEMA_VERSION revision
    [DeviceCapability.Screenshot].

Definition key1 : key := key_of_byte 1.
Definition key2 : key := key_of_byte 2.
Definition id1 : string := device_id_of_key_bytes (vk_to_bytes key1).
Definition challenge : list N := [7; 7]%N.
Definition proof_of (k : key) : list N := sk_sign (k : SigningKey) [1; 2]%N.

Definition r1 : DeviceRegistry := (enroll default_registry (`key1) challenge (sk_sign key1 challenge)).1.
Definition r2 : DeviceRegistry := (connect r1 id1 (ads 1)).1.
Definition r3 : DeviceRegistry := (connect r2 id1 (ads 2)).1.
Definition r4 : DeviceRegistry := revoke_device r3 id1.

Lemma r1_reachable : reachable r1.
Proof. exact (rtc_once _ _ (step_enroll _ _ _ _)). Qed.
Lemma r2_reachable : reachable r2.
Proof. exact (rtc_r _ _ _ r1_reachable (step_connect r1 id1 (ads 1))). Qed.
Lemma r3_reachable : reachable r3.
Proof. exact (rtc_r _ _ _ r2_reachable (step_connect r2 id1 (ads 2))). Qed.
Lemma r4_reachable : reachable r4.
Proof. exact (rtc_r _ _ _ r3_reachable (step_revoke r3 id1)). Qed.

Definition screenshot (generation revision : N) : CommandEnvelope :=
  CommandEnvelope.mk CONTROL_SCHEMA_VERSION id1 generation revision "op_1" DeviceCommand.Screenshot.

Lemma registry_restart_roundtrip_witness : from_persisted_snapshot (snapshot r4) = Ok r4.
Proof. apply (registry_restart_roundtrip r4), r4_reachable. Defined.

Lemma revocation_is_permanent_witness :
  connect (mark_all_offline r4) id1 (ads 3) = (mark_all_offline r4, Err ControlError.DeviceRevoked).
Proof.
  refine (proj1 (revocation_is_permanent r4 (mark_all_offline r4) id1 r4_reachable _ _) (ads 3)).
  - change (id1 ∈ ({[id1]} ∪ revoked r3)). by apply elem_of_union_l, elem_of_singleton.
  - exact (rtc_once _ _ (step_offline r4)).
Defined.

Lemma stale_commands_are_fenced_witness :
  validate_command_session (screenshot 1 1) (DeviceSession.mk id1 2 (ads 2)) =
    Err (ControlError.StaleDeviceGeneration 2 1).
Proof.
  apply (stale_commands_are_fenced r1 r2 r2 r3 id1 (ads 1) (ads 2)
           (DeviceSession.mk id1 1 (ads 1)) (DeviceSession.mk id1 2 (ads 2)) (screenshot 1 1)
           r1_reachable); [by_eval|apply rtc_refl|by_eval|done|by_eval].
Defined.

Definition before : EnrolledDevice := mk_enrolled key1 0 None.
Definition after : EnrolledDevice := mk_enrolled key2 1 None.

Lemma key_change_is_proved_rotation_witness :
  ∃ message old_proof new_proof,
    vk_verify key1 message old_proof = true ∧ vk_verify key2 message new_proof = true ∧
    (id1 ∉ revoked r1) ∧ @None CapabilityAdvertisement = None.
Proof.
  apply (key_change_is_proved_rotation r1
           (rotate_device_key r1 id1 (`key2) [1; 2]%N
              (proof_of key1) (proof_of key2)).1
           id1 before after).
  - apply reachable_wf, r1_reachable.
  - apply step_rotate.
  - by_eval.
  - by_eval.
  - intros Heq%(f_equal (λ k : key, head (`k))). discriminate Heq.
Defined.

Lemma offline_snapshot_of_any_schema_restores_witness :
  from_persisted_snapshot (with_schema_version (snapshot (mark_all_offline r3)) 4242)
    = Ok (mark_all_offline r3).
Proof.
  apply (offline_snapshot_of_any_schema_restores r3 4242).
  apply reachable_wf, r3_reachable.
Defined.
End Examples.
End DeviceRegistry.
