(* ===== verification/Grants.v ===== *)
(** * Capability grants, operation leases and the audit log

    [GrantAuthority], [GrantLedger], [LeaseManager] and [AuditLog] of
    [src/src/v2_m0.rs]. A grant is a signed, short-lived, single-use permission
    for one capability on one device. The bytes that are signed come from
    [serde_json], which is a parameter here; the random bytes of [OsRng] are an
    argument of the operations that draw them. *)

From S2P Require Import Prelude Vocabulary Protocol Crypto.

Module GrantPayload.
Record GrantPayload := mk {
  schema_version : N;
  issuer_key_id : string;
  grant_id : string;
  device_id : string;
  capability : CapabilityClass;
  device_capability : option DeviceCapability;
  issued_at_ms : N;
  expires_at_ms : N
}.
#[global] Instance GrantPayload_eq_dec : EqDecision GrantPayload.
Proof. solve_decision. Defined.
End GrantPayload.
Abbreviation GrantPayload := GrantPayload.GrantPayload.

Module GrantToken.
Record GrantToken := mk {
  payload : GrantPayload;
  signature : list N
}.
#[global] Instance GrantToken_eq_dec : EqDecision GrantToken.
Proof. solve_decision. Defined.
End GrantToken.
Abbreviation GrantToken := GrantToken.GrantToken.

(** [serde_json::to_vec] on a grant payload. *)
Class GrantSerializer := grant_to_vec : GrantPayload → option (list N).

(** A payload of strings, integers and unit variants always serialises. *)
Class GrantSerializerTotal `{GrantSerializer} : Prop :=
  grant_to_vec_total : ∀ p, is_Some (grant_to_vec p).

Definition GRANT_LEDGER_SNAPSHOT_SCHEMA_VERSION : N := 7.
Definition MAX_GRANT_LIFETIME_MS : N := 5 * 60 * 1000.

Module Grants.

Section Operations.
Context `{ED : Ed25519} `{GS : GrantSerializer}.

Definition canonical_grant_bytes (p : GrantPayload) : result ControlError (list N) :=
  let_some b := grant_to_vec p else Err ControlError.Serialization ;; Ok b.

(** ** Issuing *)

Record GrantAuthority := mk_authority { signing_key : SigningKey }.

Definition verifier (a : GrantAuthority) : VerifyingKey := sk_verifying_key a.(signing_key).

Definition key_id (a : GrantAuthority) : string := verifying_key_id (verifier a).

Definition issue (a : GrantAuthority) (device_id : string) (capability : CapabilityClass)
    (now_ms ttl_ms : N) (random : list N) : result ControlError GrantToken :=
  return_if (ttl_ms =? 0)%N || (MAX_GRANT_LIFETIME_MS <? ttl_ms)%N
    with Err ControlError.InvalidGrantLifetime ;;
  let_some expires_at_ms := checked_add now_ms ttl_ms
    else Err ControlError.InvalidGrantLifetime ;;
  let payload := GrantPayload.mk CONTROL_SCHEMA_VERSION (key_id a) ("grant_" +:+ hex random)
                   device_id capability None now_ms expires_at_ms in
  let_ok b := canonical_grant_bytes payload else e => Err e ;;
  Ok (GrantToken.mk payload (sk_sign a.(signing_key) b)).

Definition issue_for_device_capability (a : GrantAuthority) (device_id : string)
    (cap : DeviceCapability) (now_ms ttl_ms : N) (random : list N)
    : result ControlError GrantToken :=
  return_if (ttl_ms =? 0)%N || (MAX_GRANT_LIFETIME_MS <? ttl_ms)%N
    with Err ControlError.InvalidGrantLifetime ;;
  let_some expires_at_ms := checked_add now_ms ttl_ms
    else Err ControlError.InvalidGrantLifetime ;;
  let payload := GrantPayload.mk CONTROL_SCHEMA_VERSION (key_id a) ("grant_" +:+ hex random)
                   device_id (class cap) (Some cap) now_ms expires_at_ms in
  let_ok b := canonical_grant_bytes payload else e => Err e ;;
  Ok (GrantToken.mk payload (sk_sign a.(signing_key) b)).

Definition verify_grant_token_with_verifier (token : GrantToken) (v : VerifyingKey)
    : result ControlError unit :=
  return_if negb (bool_decide (token.(GrantToken.payload).(GrantPayload.issuer_key_id)
                               = verifying_key_id v))
    with Err ControlError.UnknownGrantSigningKey ;;
  let_some sig := try_into_array 64 token.(GrantToken.signature)
    else Err ControlError.InvalidGrantSignature ;;
  let_ok b := canonical_grant_bytes token.(GrantToken.payload) else e => Err e ;;
  return_if negb (vk_verify v b sig) with Err ControlError.InvalidGrantSignature ;;
  Ok tt.

(** ** The ledger *)

Record GrantLedger := mk_ledger {
  verifiers : gmap string VerifyingKey;
  consumed : gmap string N;
  revoked : gset string
}.

Record ConsumedGrantSnapshot := mk_consumed {
  consumed_grant_id : string;
  consumed_expires_at_ms : N
}.

Record GrantLedgerSnapshot := mk_ledger_snapshot {
  snap_schema_version : N;
  snap_verifier_keys : list (list N);
  snap_consumed_grants : list ConsumedGrantSnapshot;
  snap_revoked_grant_ids : list string
}.

Definition new_ledger (v : VerifyingKey) : GrantLedger :=
  mk_ledger {[verifying_key_id v := v]} ∅ ∅.

Definition consumed_le (a b : ConsumedGrantSnapshot) : Prop :=
  String.le a.(consumed_grant_id) b.(consumed_grant_id).
#[export] Instance consumed_le_dec : RelDecision consumed_le.
Proof. intros a b. unfold consumed_le. apply _. Defined.

Definition snapshot `{HashIter} (l : GrantLedger) : GrantLedgerSnapshot :=
  mk_ledger_snapshot GRANT_LEDGER_SNAPSHOT_SCHEMA_VERSION
    (merge_sort bytes_le ((λ kv, vk_to_bytes kv.2) <$> hash_iter l.(verifiers)))
    (merge_sort consumed_le ((λ kv, mk_consumed kv.1 kv.2) <$> hash_iter l.(consumed)))
    (merge_sort String.le (hash_set_iter l.(revoked))).

Fixpoint load_verifiers (keys : list (list N)) (m : gmap string VerifyingKey)
    : result ControlError (gmap string VerifyingKey) :=
  match keys with
  | [] => Ok m
  | b :: keys =>
      let_some v := vk_from_bytes b else Err ControlError.InvalidGrantLedgerSnapshot ;;
      load_verifiers keys (<[verifying_key_id v := v]> m)
  end.

Fixpoint load_consumed (entries : list ConsumedGrantSnapshot) (m : gmap string N)
    : result ControlError (gmap string N) :=
  match entries with
  | [] => Ok m
  | e :: entries =>
      return_if trim_is_empty e.(consumed_grant_id) || (e.(consumed_expires_at_ms) =? 0)%N
                || bool_decide (is_Some (m !! e.(consumed_grant_id)))
        with Err ControlError.InvalidGrantLedgerSnapshot ;;
      load_consumed entries (<[e.(consumed_grant_id) := e.(consumed_expires_at_ms)]> m)
  end.

Definition from_snapshot (s : GrantLedgerSnapshot) : result ControlError GrantLedger :=
  return_if negb (s.(snap_schema_version) =? GRANT_LEDGER_SNAPSHOT_SCHEMA_VERSION)%N
    with Err (ControlError.UnsupportedControlSchema s.(snap_schema_version)) ;;
  return_if bool_decide (s.(snap_verifier_keys) = [])
    with Err ControlError.InvalidGrantLedgerSnapshot ;;
  let_ok vs := load_verifiers s.(snap_verifier_keys) ∅ else e => Err e ;;
  let_ok cs := load_consumed s.(snap_consumed_grants) ∅ else e => Err e ;;
  Ok (mk_ledger vs cs (list_to_set s.(snap_revoked_grant_ids))).

Definition from_persisted_snapshot (s : GrantLedgerSnapshot) : result ControlError GrantLedger :=
  if (s.(snap_schema_version) =? GRANT_LEDGER_SNAPSHOT_SCHEMA_VERSION)%N then from_snapshot s
  else if in_range 2 6 s.(snap_schema_version) then
    from_snapshot (mk_ledger_snapshot GRANT_LEDGER_SNAPSHOT_SCHEMA_VERSION
      s.(snap_verifier_keys) s.(snap_consumed_grants) s.(snap_revoked_grant_ids))
  else Err (ControlError.UnsupportedControlSchema s.(snap_schema_version)).

Definition trust_verifier (l : GrantLedger) (v : VerifyingKey) : GrantLedger * string :=
  let key_id := verifying_key_id v in
  (mk_ledger (<[key_id := v]> l.(verifiers)) l.(consumed) l.(revoked), key_id).

Definition retire_verifier (l : GrantLedger) (key_id : string) : GrantLedger * bool :=
  (mk_ledger (delete key_id l.(verifiers)) l.(consumed) l.(revoked),
   bool_decide (is_Some (l.(verifiers) !! key_id))).

Definition revoke (l : GrantLedger) (grant_id : string) : GrantLedger :=
  mk_ledger l.(verifiers) l.(consumed) ({[grant_id]} ∪ l.(revoked)).

Definition verify_signature (l : GrantLedger) (token : GrantToken) : result ControlError unit :=
  let_some sig := try_into_array 64 token.(GrantToken.signature)
    else Err ControlError.InvalidGrantSignature ;;
  let_ok b := canonical_grant_bytes token.(GrantToken.payload) else e => Err e ;;
  let_some v := l.(verifiers) !! token.(GrantToken.payload).(GrantPayload.issuer_key_id)
    else Err ControlError.UnknownGrantSigningKey ;;
  return_if negb (vk_verify v b sig) with Err ControlError.InvalidGrantSignature ;;
  Ok tt.

(** [self.consumed.retain(|_, expires_at_ms| *expires_at_ms > now_ms)] *)
Definition retain_unexpired (l : GrantLedger) (now_ms : N) : GrantLedger :=
  mk_ledger l.(verifiers) (filter (λ kv, now_ms < kv.2)%N l.(consumed)) l.(revoked).

Definition validate_unconsumed_grant (l : GrantLedger) (token : GrantToken)
    (device_id : string) (now_ms : N) : GrantLedger * result ControlError unit :=
  let_ok _ := verify_signature l token else e => (l, Err e) ;;
  let p := token.(GrantToken.payload) in
  return_if negb (p.(GrantPayload.schema_version) =? CONTROL_SCHEMA_VERSION)%N
    with (l, Err (ControlError.UnsupportedControlSchema p.(GrantPayload.schema_version))) ;;
  return_if negb (bool_decide (p.(GrantPayload.device_id) = device_id))
    with (l, Err ControlError.GrantDeviceMismatch) ;;
  let_some lifetime := checked_sub p.(GrantPayload.expires_at_ms) p.(GrantPayload.issued_at_ms)
    else (l, Err ControlError.InvalidGrantLifetime) ;;
  return_if (lifetime =? 0)%N || (MAX_GRANT_LIFETIME_MS <? lifetime)%N
    with (l, Err ControlError.InvalidGrantLifetime) ;;
  let l := retain_unexpired l now_ms in
  return_if (now_ms <? p.(GrantPayload.issued_at_ms))%N
    with (l, Err ControlError.GrantNotYetValid) ;;
  return_if (p.(GrantPayload.expires_at_ms) <=? now_ms)%N
    with (l, Err ControlError.GrantExpired) ;;
  return_if bool_decide (p.(GrantPayload.grant_id) ∈ l.(revoked))
    with (l, Err ControlError.GrantRevoked) ;;
  return_if bool_decide (is_Some (l.(consumed) !! p.(GrantPayload.grant_id)))
    with (l, Err ControlError.GrantReplay) ;;
  (l, Ok tt).

Definition consume (l : GrantLedger) (p : GrantPayload) : GrantLedger :=
  mk_ledger l.(verifiers) (<[p.(GrantPayload.grant_id) := p.(GrantPayload.expires_at_ms)]>
    l.(consumed)) l.(revoked).

Definition authorize_once (l : GrantLedger) (token : GrantToken) (device_id : string)
    (required : CapabilityClass) (now_ms : N) : GrantLedger * result ControlError unit :=
  let '(l, r) := validate_unconsumed_grant l token device_id now_ms in
  let_ok _ := r else e => (l, Err e) ;;
  let p := token.(GrantToken.payload) in
  return_if negb (bool_decide (p.(GrantPayload.capability) = required))
    with (l, Err (ControlError.CapabilityDenied p.(GrantPayload.capability) required)) ;;
  (consume l p, Ok tt).

Definition authorize_device_capability_once (l : GrantLedger) (token : GrantToken)
    (device_id : string) (required : DeviceCapability) (now_ms : N)
    : GrantLedger * result ControlError unit :=
  let '(l, r) := validate_unconsumed_grant l token device_id now_ms in
  let_ok _ := r else e => (l, Err e) ;;
  let p := token.(GrantToken.payload) in
  return_if negb (bool_decide (p.(GrantPayload.capability) = class required))
    with (l, Err (ControlError.CapabilityDenied p.(GrantPayload.capability) (class required))) ;;
  return_if negb (bool_decide (p.(GrantPayload.device_capability) = Some required))
    with (l, Err (ControlError.DeviceCapabilityGrantMismatch
                    p.(GrantPayload.device_capability) required)) ;;
  (consume l p, Ok tt).

(** ** Transitions of the ledger under a clock that does not go back *)

Inductive step `{HashIter} : N * GrantLedger → N * GrantLedger → Prop :=
| step_tick t t' l : (t ≤ t')%N → step (t, l) (t', l)
| step_trust t l v : step (t, l) (t, (trust_verifier l v).1)
| step_retire t l key_id : step (t, l) (t, (retire_verifier l key_id).1)
| step_revoke t l grant_id : step (t, l) (t, revoke l grant_id)
| step_authorize t l token device_id required :
    step (t, l) (t, (authorize_once l token device_id required t).1)
| step_authorize_capability t l token device_id required :
    step (t, l) (t, (authorize_device_capability_once l token device_id required t).1)
| step_restart t l l' : from_persisted_snapshot (snapshot l) = Ok l' → step (t, l) (t, l').

Definition reachable `{HashIter} (tl : N * GrantLedger) : Prop :=
  ∃ t0 v, rtc step (t0, new_ledger v) tl.

End Operations.

(** * Theorems *)

Section Theorems.
Context `{ED : Ed25519, EDL : !Ed25519Laws} `{GS : GrantSerializer} `{HI : HashIter}.
Implicit Types (l : GrantLedger) (token : GrantToken) (t : N).

(** ** What an accepted grant satisfies *)

Definition signed_by_trusted_key l token : Prop :=
  ∃ v b, l.(verifiers) !! token.(GrantToken.payload).(GrantPayload.issuer_key_id) = Some v ∧
         grant_to_vec token.(GrantToken.payload) = Some b ∧
         length token.(GrantToken.signature) = 64 ∧
         vk_verify v b token.(GrantToken.signature) = true.

Lemma verify_signature_Ok l token :
  verify_signature l token = Ok tt ↔ signed_by_trusted_key l token.
Proof.
  unfold verify_signature, signed_by_trusted_key, canonical_grant_bytes, try_into_array. split.
  - intros H. run H. eauto 10.
  - intros (v & b & Hv & Hb & Hlen & Hok).
    by rewrite bool_decide_true, Hb, Hv, Hok by done.
Qed.

(** The grant is current for the device: schema, device, bounded lifetime,
    within its window, neither revoked nor spent. *)
Definition grant_current l (p : GrantPayload) (device_id : string) t : Prop :=
  p.(GrantPayload.schema_version) = CONTROL_SCHEMA_VERSION ∧
  p.(GrantPayload.device_id) = device_id ∧
  (p.(GrantPayload.issued_at_ms) ≤ t < p.(GrantPayload.expires_at_ms))%N ∧
  (p.(GrantPayload.expires_at_ms) ≤ p.(GrantPayload.issued_at_ms) + MAX_GRANT_LIFETIME_MS)%N ∧
  (p.(GrantPayload.grant_id) ∉ l.(revoked)) ∧
  ∀ e, l.(consumed) !! p.(GrantPayload.grant_id) = Some e → (e ≤ t)%N.

Lemma retain_unexpired_lookup l t g e :
  (retain_unexpired l t).(consumed) !! g = Some e ↔ l.(consumed) !! g = Some e ∧ (t < e)%N.
Proof. cbn. by rewrite map_lookup_filter_Some. Qed.

Lemma retain_unexpired_None l t g :
  (retain_unexpired l t).(consumed) !! g = None ↔ ∀ e, l.(consumed) !! g = Some e → (e ≤ t)%N.
Proof.
  rewrite eq_None_not_Some. split.
  - intros H e He. apply N.le_ngt. intros Hlt. apply H. exists e. by apply retain_unexpired_lookup.
  - intros H [e [He Hlt]%retain_unexpired_lookup]. apply H in He. lia.
Qed.

Lemma validate_unconsumed_grant_Ok l token device_id t l' :
  validate_unconsumed_grant l token device_id t = (l', Ok tt) ↔
    signed_by_trusted_key l token ∧ grant_current l token.(GrantToken.payload) device_id t ∧
    l' = retain_unexpired l t.
Proof.
  rewrite <-verify_signature_Ok. unfold validate_unconsumed_grant, grant_current. split.
  - intros H. run H.
    match goal with H : checked_sub _ _ = Some _ |- _ => apply checked_sub_Some in H as [-> ?] end.
    match goal with H : ¬ is_Some _ |- _ => rename H into Hnew end.
    split_and!; try done; try lia. apply retain_unexpired_None. by apply eq_None_not_Some.
  - intros (-> & (H1 & H2 & [H3 H3'] & H4 & H5 & H6) & ->).
    apply retain_unexpired_None in H6.
    rewrite (proj2 (N.eqb_eq _ _) H1), (bool_decide_true _ H2). cbn.
    rewrite checked_sub_le by lia.
    rewrite (proj2 (N.eqb_neq _ 0)) by lia. rewrite (proj2 (N.ltb_ge _ _)) by lia. cbn.
    rewrite (proj2 (N.ltb_ge _ _)), (proj2 (N.leb_gt _ _)) by lia.
    rewrite (bool_decide_false _ H5). cbn in H6. rewrite H6.
    by rewrite bool_decide_false by by intros [].
Qed.

(** [authorize_device_capability_once] succeeds exactly when the token is
    signed by a trusted key, is current for the device, and grants this very
    capability (and its class); it then prunes expired entries and records the
    grant as consumed until it expires. *)
Theorem authorize_device_capability_ok_iff l token device_id required t l' :
  authorize_device_capability_once l token device_id required t = (l', Ok tt) ↔
    signed_by_trusted_key l token ∧ grant_current l token.(GrantToken.payload) device_id t ∧
    token.(GrantToken.payload).(GrantPayload.capability) = class required ∧
    token.(GrantToken.payload).(GrantPayload.device_capability) = Some required ∧
    l' = consume (retain_unexpired l t) token.(GrantToken.payload).
Proof.
  unfold authorize_device_capability_once. split.
  - destruct (validate_unconsumed_grant l token device_id t) as [l1 r] eqn:E. intros H.
    destruct r as [[]|]; [|discriminate].
    apply validate_unconsumed_grant_Ok in E as (? & ? & ->). run H. done.
  - intros (H1 & H2 & H3 & H4 & ->).
    rewrite (proj2 (validate_unconsumed_grant_Ok _ _ _ _ _) (conj H1 (conj H2 eq_refl))).
    by rewrite H3, H4, !bool_decide_true by done.
Qed.

(** ** Effects of an authorization on the ledger *)

Inductive authorize_effect l t : GrantLedger → Prop :=
| effect_none : authorize_effect l t l
| effect_prune : authorize_effect l t (retain_unexpired l t)
| effect_consume (p : GrantPayload) :
    (p.(GrantPayload.issued_at_ms) ≤ t < p.(GrantPayload.expires_at_ms))%N →
    (retain_unexpired l t).(consumed) !! p.(GrantPayload.grant_id) = None →
    authorize_effect l t (consume (retain_unexpired l t) p).

Lemma validate_effect l token device_id t :
  (validate_unconsumed_grant l token device_id t).1 = l ∨
  (validate_unconsumed_grant l token device_id t).1 = retain_unexpired l t.
Proof. unfold validate_unconsumed_grant. run_goal; auto. Qed.

Lemma validate_then_consume l token device_id t l' :
  validate_unconsumed_grant l token device_id t = (l', Ok tt) →
  authorize_effect l t (consume l' token.(GrantToken.payload)).
Proof.
  intros (_ & (_ & _ & Ht & _ & _ & Hc) & ->)%validate_unconsumed_grant_Ok.
  apply effect_consume; [done|]. by apply retain_unexpired_None.
Qed.

Lemma validate_authorize_effect l token device_id t :
  authorize_effect l t (validate_unconsumed_grant l token device_id t).1.
Proof. destruct (validate_effect l token device_id t) as [-> | ->]; constructor. Qed.

Lemma authorize_once_effect l token device_id required t :
  authorize_effect l t (authorize_once l token device_id required t).1.
Proof.
  pose proof (validate_authorize_effect l token device_id t) as Hv.
  pose proof (validate_then_consume l token device_id t) as Hc.
  unfold authorize_once.
  destruct (validate_unconsumed_grant l token device_id t) as [l' [[]|e]]; [|done].
  run_goal; [done|]. by apply Hc.
Qed.

Lemma authorize_device_capability_once_effect l token device_id required t :
  authorize_effect l t (authorize_device_capability_once l token device_id required t).1.
Proof.
  pose proof (validate_authorize_effect l token device_id t) as Hv.
  pose proof (validate_then_consume l token device_id t) as Hc.
  unfold authorize_device_capability_once.
  destruct (validate_unconsumed_grant l token device_id t) as [l' [[]|e]]; [|done].
  run_goal; [done|done|]. by apply Hc.
Qed.

(** ** Well-formed ledgers *)

Definition restorable_entry (kv : string * N) : bool :=
  negb (trim_is_empty kv.1) && negb (kv.2 =? 0)%N.

Definition wf l : Prop :=
  map_Forall (λ key_id v, key_id = verifying_key_id v) l.(verifiers) ∧
  map_Forall (λ _ e, e ≠ 0%N) l.(consumed).

Lemma load_verifiers_wf (vs : list (string * VerifyingKey)) m :
  NoDup vs.*1 → (∀ k, k ∈ vs.*1 → m !! k = None) →
  Forall (λ kv, kv.1 = verifying_key_id kv.2) vs →
  load_verifiers ((λ kv, vk_to_bytes kv.2) <$> vs) m = Ok (list_to_map vs ∪ m).
Proof.
  revert m. induction vs as [|[k v] vs IH]; intros m Hnd Hm Hwf.
  { cbn. by rewrite (left_id_L ∅ (∪)). }
  apply NoDup_cons in Hnd as [Hk Hnd]. apply Forall_cons in Hwf as [Heq Hwf]. cbn in Heq, Hk.
  cbn. rewrite vk_from_to_bytes, <-Heq, IH; [|done| |done].
  - by rewrite <-insert_union_l, insert_union_r by by apply not_elem_of_list_to_map.
  - intros k' Hk'. rewrite lookup_insert_ne by set_solver. apply Hm. set_solver.
Qed.

Lemma load_consumed_spec (cs : list (string * N)) m :
  NoDup cs.*1 → (∀ k, k ∈ cs.*1 → m !! k = None) →
  load_consumed ((λ kv, mk_consumed kv.1 kv.2) <$> cs) m =
    if forallb restorable_entry cs then Ok (list_to_map cs ∪ m)
    else Err ControlError.InvalidGrantLedgerSnapshot.
Proof.
  revert m. induction cs as [|[k e] cs IH]; intros m Hnd Hm.
  { cbn. by rewrite (left_id_L ∅ (∪)). }
  apply NoDup_cons in Hnd as [Hk Hnd]. cbn in Hk.
  cbn. rewrite (bool_decide_false (is_Some _)) by (rewrite Hm by set_solver; by intros []).
  unfold restorable_entry at 1. cbn.
  destruct (trim_is_empty k), (e =? 0)%N; cbn; [done..|].
  rewrite IH; [|done|].
  - by rewrite <-insert_union_l, insert_union_r by by apply not_elem_of_list_to_map.
  - intros k' Hk'. rewrite lookup_insert_ne by set_solver. apply Hm. set_solver.
Qed.

Lemma list_to_map_fresh {A} (xs : list (string * A)) (m : gmap string A) :
  xs ≡ₚ map_to_list m → list_to_map xs ∪ ∅ = m ∧ NoDup xs.*1 ∧
  ∀ k, k ∈ xs.*1 → (∅ : gmap string A) !! k = None.
Proof.
  intros Hp. split_and!; [by rewrite (right_id_L ∅ (∪)), (list_to_map_perm _ _ Hp)| |done].
  rewrite Hp. apply NoDup_fst_map_to_list.
Qed.

(** Restoring a snapshot gives the ledger back or reports it invalid; which of
    the two depends on the verifiers and on the consumed entries. *)
Definition restorable l : Prop :=
  l.(verifiers) ≠ ∅ ∧ ∀ g e, l.(consumed) !! g = Some e → restorable_entry (g, e) = true.

#[local] Instance restorable_dec l : Decision (restorable l).
Proof.
  refine (cast_if (decide (l.(verifiers) ≠ ∅ ∧
    map_Forall (λ g e, restorable_entry (g, e) = true) l.(consumed)))); done.
Defined.

Lemma ledger_snapshot_restores l :
  map_Forall (λ key_id v, key_id = verifying_key_id v) l.(verifiers) →
  from_persisted_snapshot (snapshot l) =
    if decide (restorable l) then Ok l else Err ControlError.InvalidGrantLedgerSnapshot.
Proof.
  intros Hv. unfold from_persisted_snapshot, from_snapshot, snapshot.
  destruct (sorted_hash_iter (λ kv, vk_to_bytes kv.2) bytes_le l.(verifiers)) as (vs & Evs & Hvs).
  destruct (sorted_hash_iter (λ kv, mk_consumed kv.1 kv.2) consumed_le l.(consumed))
    as (cs & Ecs & Hcs).
  cbn. rewrite Evs, Ecs, sorted_hash_set.
  destruct (list_to_map_fresh _ _ Hvs) as (Mvs & Nvs & Fvs).
  destruct (list_to_map_fresh _ _ Hcs) as (Mcs & Ncs & Fcs).
  rewrite load_verifiers_wf, load_consumed_spec, Mvs, Mcs; try done.
  2: { apply Forall_forall. intros [k v] Hin. rewrite Hvs in Hin.
       apply elem_of_map_to_list in Hin. by apply Hv. }
  assert ((λ kv : string * VerifyingKey, vk_to_bytes kv.2) <$> vs = [] ↔ l.(verifiers) = ∅) as Hnil.
  { rewrite <-map_to_list_empty_iff. split.
    - intros ->%fmap_nil_inv. by apply Permutation_nil_l in Hvs.
    - intros Hm. rewrite Hm in Hvs. by apply Permutation_nil_r in Hvs as ->. }
  rewrite (bool_decide_ext _ _ Hnil).
  assert (forallb restorable_entry cs = true ↔
          ∀ g e, l.(consumed) !! g = Some e → restorable_entry (g, e) = true) as Hall.
  { rewrite forallb_forall. split.
    - intros H g e He. apply H, list_elem_of_In. rewrite Hcs. by apply elem_of_map_to_list.
    - intros H [g e] Hin%list_elem_of_In. rewrite Hcs in Hin.
      apply elem_of_map_to_list in Hin. by apply H. }
  unfold restorable. destruct (decide _) as [[Hne Hok]|Hno]; run_goal; try done;
    solve [by destruct l | naive_solver | (destruct l; naive_solver)].
Qed.

Lemma authorize_effect_wf l t l' : authorize_effect l t l' → wf l → wf l'.
Proof.
  assert (wf l → wf (retain_unexpired l t)) as Hretain.
  { intros [Hv Hc]. split; [done|]. intros g e [He _]%retain_unexpired_lookup. by eapply Hc. }
  intros [| |p Hp _] Hwf; auto.
  destruct (Hretain Hwf) as [Hv Hc]. split; [done|].
  intros g e. cbn [consume consumed].
  intros [[<- <-]|[_ He]]%lookup_insert_Some; [lia|by eapply Hc].
Qed.

Lemma restart_same l l' :
  wf l → from_persisted_snapshot (snapshot l) = Ok l' → l' = l.
Proof.
  intros [Hv _]. rewrite ledger_snapshot_restores by done.
  destruct (decide _); congruence.
Qed.

Lemma ledger_step_wf tl tl' : step tl tl' → wf tl.2 → wf tl'.2.
Proof.
  intros Hs. destruct Hs as [|t l v|t l k|t l g|t l token d q|t l token d q|t l l' Hr];
    cbn; intros Hwf; try done.
  - destruct Hwf as [Hv Hc]. split; [|done]. by apply map_Forall_insert_2.
  - destruct Hwf as [Hv Hc]. split; [|done]. by apply map_Forall_delete.
  - eapply authorize_effect_wf; [apply authorize_once_effect|done].
  - eapply authorize_effect_wf; [apply authorize_device_capability_once_effect|done].
  - by rewrite (restart_same l l' Hwf Hr).
Qed.

Lemma reachable_ledger_wf tl : reachable tl → wf tl.2.
Proof.
  intros (t0 & v & Hrun). eapply (rtc_invariant step (λ tl, wf tl.2)); [apply ledger_step_wf|done|].
  split; [|apply map_Forall_empty]. by apply map_Forall_singleton.
Qed.

(** A restart restores the grant ledger exactly, replay and revocation
    records included, unless the last verifier was retired or a consumed grant
    has a blank identifier; in those two cases, and only in those, the ledger's
    own snapshot is refused. *)
Theorem grant_ledger_restart_iff t l :
  reachable (t, l) →
  (from_persisted_snapshot (snapshot l) = Ok l ↔
     l.(verifiers) ≠ ∅ ∧ ∀ g, is_Some (l.(consumed) !! g) → trim_is_empty g = false) ∧
  (from_persisted_snapshot (snapshot l) ≠ Ok l →
     from_persisted_snapshot (snapshot l) = Err ControlError.InvalidGrantLedgerSnapshot).
Proof.
  intros [Hv Hc]%reachable_ledger_wf. rewrite ledger_snapshot_restores by done.
  assert (restorable l ↔
    l.(verifiers) ≠ ∅ ∧ ∀ g, is_Some (l.(consumed) !! g) → trim_is_empty g = false) as Heq.
  { unfold restorable, restorable_entry. split; intros [Hne H]; (split; [done|]).
    - intros g [e He]. specialize (H g e He). cbn in H. by split_bools.
    - intros g e He. cbn. rewrite (H g) by eauto. cbn.
      by rewrite (proj2 (N.eqb_neq e 0) (Hc _ _ He)). }
  rewrite <-Heq. destruct (decide (restorable l)); naive_solver.
Qed.

(** ** Single use *)

(** The grant is spent: it has expired, or its consumption is on record. *)
Definition spent (g : string) (e : N) (tl : N * GrantLedger) : Prop :=
  wf tl.2 ∧ ((e ≤ tl.1)%N ∨ tl.2.(consumed) !! g = Some e).

Lemma authorize_effect_spent g e t l l' :
  authorize_effect l t l' → spent g e (t, l) → spent g e (t, l').
Proof.
  intros Heff [Hwf Hs]. cbn in *. split; [by eapply authorize_effect_wf|]. cbn.
  destruct (decide (e ≤ t)%N) as [|Hlt]; [by left|]. right. destruct Hs as [|Hs]; [done|].
  assert ((retain_unexpired l t).(consumed) !! g = Some e) as Hr
    by (apply retain_unexpired_lookup; split; [done|lia]).
  destruct Heff as [| |p _ Hfresh]; [done..|].
  cbn [consume consumed]. apply lookup_insert_Some. right. split; [|done]. intros Heq. rewrite Heq in Hfresh. congruence.
Qed.

Lemma step_spent g e tl tl' : step tl tl' → spent g e tl → spent g e tl'.
Proof.
  intros Hstep Hspent. pose proof (ledger_step_wf _ _ Hstep (proj1 Hspent)) as Hwf'.
  destruct Hstep as [|t l v|t l k|t l g'|t l token d q|t l token d q|t l l' Hr].
  - destruct Hspent as [? [?|?]]; (split; [done|]); [left|right]; cbn in *; [lia|done].
  - by destruct Hspent as [_ ?].
  - by destruct Hspent as [_ ?].
  - by destruct Hspent as [_ ?].
  - eapply authorize_effect_spent; [apply authorize_once_effect|done].
  - eapply authorize_effect_spent; [apply authorize_device_capability_once_effect|done].
  - by rewrite (restart_same l l' (proj1 Hspent) Hr).
Qed.

Lemma spent_refused g e t l token device_id :
  spent g e (t, l) →
  token.(GrantToken.payload).(GrantPayload.grant_id) = g →
  (token.(GrantToken.payload).(GrantPayload.expires_at_ms) ≤ e)%N →
  (validate_unconsumed_grant l token device_id t).2 ≠ Ok tt.
Proof.
  intros [_ Hs] <- He Hok.
  destruct (validate_unconsumed_grant l token device_id t) as [l' r] eqn:E. cbn in *. subst r.
  apply validate_unconsumed_grant_Ok in E as (_ & (_ & _ & Ht & _ & _ & Hc) & _).
  destruct Hs as [|Hs]; [lia|]. apply Hc in Hs. lia.
Qed.

Lemma authorize_Ok_spent l t token device_id l1 :
  wf l →
  ((∃ q, authorize_once l token device_id q t = (l1, Ok tt)) ∨
   (∃ c, authorize_device_capability_once l token device_id c t = (l1, Ok tt))) →
  spent token.(GrantToken.payload).(GrantPayload.grant_id)
        token.(GrantToken.payload).(GrantPayload.expires_at_ms) (t, l1).
Proof.
  intros Hwf Hauth. split.
  - destruct Hauth as [[q H]|[c H]].
    + eapply authorize_effect_wf; [|done].
      pose proof (authorize_once_effect l token device_id q t) as He. by rewrite H in He.
    + eapply authorize_effect_wf; [|done].
      pose proof (authorize_device_capability_once_effect l token device_id c t) as He.
      by rewrite H in He.
  - right. destruct Hauth as [[q H]|[c H]];
      [unfold authorize_once in H|unfold authorize_device_capability_once in H];
      destruct (validate_unconsumed_grant l token device_id t) as [l' r]; run H;
      apply lookup_insert_eq.
Qed.

(** C33: A grant authorizes at most one operation. Once either authorization
    entry point has accepted a token, no later call accepts a token with the
    same grant id and no later expiry: for any device and capability, after any
    interleaving of other authorizations, revocations, verifier changes and
    restarts, under a clock that does not go back. *)
Theorem grant_single_use t l token device_id l1 t' l2 token' :
  reachable (t, l) →
  ((∃ q, authorize_once l token device_id q t = (l1, Ok tt)) ∨
   (∃ c, authorize_device_capability_once l token device_id c t = (l1, Ok tt))) →
  rtc step (t, l1) (t', l2) →
  token'.(GrantToken.payload).(GrantPayload.grant_id)
    = token.(GrantToken.payload).(GrantPayload.grant_id) →
  (token'.(GrantToken.payload).(GrantPayload.expires_at_ms)
    ≤ token.(GrantToken.payload).(GrantPayload.expires_at_ms))%N →
  ∀ device_id', (∀ q, (authorize_once l2 token' device_id' q t').2 ≠ Ok tt) ∧
                (∀ c, (authorize_device_capability_once l2 token' device_id' c t').2 ≠ Ok tt).
Proof.
  intros Hreach Hauth Hrun Hid He device_id'.
  apply reachable_ledger_wf in Hreach.
  pose proof (rtc_invariant step _ (step_spent _ _) _ _ Hrun
                (authorize_Ok_spent _ _ _ _ _ Hreach Hauth)) as Hspent.
  pose proof (spent_refused _ _ _ _ token' device_id' Hspent Hid He) as Hno.
  unfold authorize_once, authorize_device_capability_once.
  destruct (validate_unconsumed_grant l2 token' device_id' t') as [l3 [[]|e]]; [done|].
  by split.
Qed.

(** ** Issuing and authorizing *)

Lemma issue_for_device_capability_Ok a device_id cap now_ms ttl_ms random token :
  issue_for_device_capability a device_id cap now_ms ttl_ms random = Ok token →
  ∃ b, (0 < ttl_ms ≤ MAX_GRANT_LIFETIME_MS)%N ∧
    token.(GrantToken.payload) = GrantPayload.mk CONTROL_SCHEMA_VERSION (key_id a)
      ("grant_" +:+ hex random) device_id (class cap) (Some cap) now_ms (now_ms + ttl_ms) ∧
    grant_to_vec token.(GrantToken.payload) = Some b ∧
    token.(GrantToken.signature) = sk_sign a.(signing_key) b.
Proof.
  unfold issue_for_device_capability, canonical_grant_bytes. intros H. run H.
  match goal with H : checked_add _ _ = Some _ |- _ => apply checked_add_Some in H as [-> ?] end.
  eexists. split_and!; try done; lia.
Qed.

(** A grant that was issued for a capability is accepted, at any time of
    its life, by every ledger that trusts the issuer and has neither revoked nor
    consumed it; presenting it again before it expires is reported as a replay. *)
Theorem issued_grant_authorizes_then_replays a device_id cap now_ms ttl_ms random token l t t' :
  issue_for_device_capability a device_id cap now_ms ttl_ms random = Ok token →
  l.(verifiers) !! key_id a = Some (verifier a) →
  (token.(GrantToken.payload).(GrantPayload.grant_id) ∉ l.(revoked)) →
  l.(consumed) !! token.(GrantToken.payload).(GrantPayload.grant_id) = None →
  (now_ms ≤ t ≤ t' ∧ t' < now_ms + ttl_ms)%N →
  ∃ l', authorize_device_capability_once l token device_id cap t = (l', Ok tt) ∧
        (authorize_device_capability_once l' token device_id cap t').2 = Err ControlError.GrantReplay.
Proof.
  intros (b & Httl & Hp & Hb & Hsig)%issue_for_device_capability_Ok Hv Hrev Hcons Ht.
  assert (signed_by_trusted_key l token) as Hsigned.
  { exists (verifier a), b. rewrite Hsig, sk_sign_length. split_and!; [by rewrite Hp|done..|].
    apply sk_sign_verifies. }
  assert (grant_current l token.(GrantToken.payload) device_id t) as Hcur.
  { split_and!; try done; try (rewrite Hp; cbn; done || lia). intros e. by rewrite Hcons. }
  exists (consume (retain_unexpired l t) token.(GrantToken.payload)).
  unfold authorize_device_capability_once at 1.
  rewrite (proj2 (validate_unconsumed_grant_Ok _ _ _ _ _) (conj Hsigned (conj Hcur eq_refl))).
  rewrite !bool_decide_true by by rewrite Hp. split; [done|].
  unfold authorize_device_capability_once, validate_unconsumed_grant.
  rewrite (proj2 (verify_signature_Ok _ _)) by exact Hsigned.
  rewrite Hp in Hrev |- *. cbn in Hrev |- *.
  rewrite bool_decide_true by done. cbn. rewrite checked_sub_le by lia.
  rewrite (proj2 (N.eqb_neq _ 0)), (proj2 (N.ltb_ge _ _)) by lia. cbn.
  rewrite (proj2 (N.ltb_ge _ _)), (proj2 (N.leb_gt _ _)) by lia.
  rewrite bool_decide_false by done. rewrite bool_decide_true; [done|].
  eexists. apply map_lookup_filter_Some. split; [apply lookup_insert_eq|cbn; lia].
Qed.

End Theorems.

(** ** Witnesses *)

Module Examples.
Import ToyCrypto.
#[local] Existing Instance canonical_hash_iter.

#[local] Instance serializer : GrantSerializer := λ p,
  Some (bytes p.(GrantPayload.grant_id) ++ bytes p.(GrantPayload.device_id)
        ++ [p.(GrantPayload.issued_at_ms); p.(GrantPayload.expires_at_ms)]).

Definition authority : GrantAuthority := mk_authority (key_of_byte 9).
Definition issued : result ControlError GrantToken :=
  issue_for_device_capability authority "dev_a" DeviceCapability.Screenshot 1000 500 [10; 11]%N.
Definition blank_payload : GrantPayload :=
  GrantPayload.mk 0 "" "" "" CapabilityClass.Observe None 0 0.
Definition token : GrantToken :=
  match issued with Ok t => t | Err _ => GrantToken.mk blank_payload [] end.
Definition l0 : GrantLedger := new_ledger (verifier authority).
Definition l1 : GrantLedger :=
  (authorize_device_capability_once l0 token "dev_a" DeviceCapability.Screenshot 1100).1.

Lemma l0_reachable t : reachable (t, l0).
Proof. exists t, (verifier authority). apply rtc_refl. Qed.

Lemma grant_ledger_restart_iff_witness :
  from_persisted_snapshot (snapshot l0) = Ok l0.
Proof.
  apply (proj1 (grant_ledger_restart_iff 1100 l0 (l0_reachable 1100))).
  split; [|by intros g [e He]].
  intros Heq%(f_equal (lookup (verifying_key_id (verifier authority)))).
  unfold l0, new_ledger in Heq. cbn [verifiers] in Heq.
  rewrite lookup_singleton_eq, lookup_empty in Heq. discriminate Heq.
Defined.

Lemma grant_single_use_witness :
  (authorize_device_capability_once l1 token "dev_a" DeviceCapability.Screenshot 1200).2 ≠ Ok tt.
Proof.
  refine (proj2 (grant_single_use 1100 l0 token "dev_a" l1 1200 l1 token
                   (l0_reachable 1100) _ _ eq_refl _ "dev_a") DeviceCapability.Screenshot).
  - right. exists DeviceCapability.Screenshot. by_eval.
  - apply rtc_once, step_tick. done.
  - apply N.le_refl.
Defined.

Lemma issued_grant_authorizes_then_replays_witness :
  ∃ l', authorize_device_capability_once l0 token "dev_a" DeviceCapability.Screenshot 1100
          = (l', Ok tt) ∧
        (authorize_device_capability_once l' token "dev_a" DeviceCapability.Screenshot 1200).2
          = Err ControlError.GrantReplay.
Proof.
  apply (issued_grant_authorizes_then_replays authority "dev_a" DeviceCapability.Screenshot
           1000 500 [10; 11]%N token l0 1100 1200).
  - by_eval.
  - apply lookup_singleton_eq.
  - apply not_elem_of_empty.
  - apply lookup_empty.
  - done.
Defined.

(** The clock matters: a ledger that is shown a later time and then an earlier
    one accepts the same grant twice, because entries are dropped by expiry. *)
Lemma clock_going_back_replays :
  let l2 := (authorize_once l1 token "dev_a" CapabilityClass.Observe 1600).1 in
  (authorize_device_capability_once l0 token "dev_a" DeviceCapability.Screenshot 1100).2 = Ok tt ∧
  (authorize_device_capability_once l2 token "dev_a" DeviceCapability.Screenshot 1200).2 = Ok tt.
Proof. split; by_eval. Qed.
End Examples.
End Grants.

Module OperationLease.
Record OperationLease := mk {
  device_id : string;
  operation_id : string;
  device_generation : N;
  expires_at_ms : N
}.
End OperationLease.
Abbreviation OperationLease := OperationLease.OperationLease.

(** * Operation leases: one owner per device until release or expiry *)

Module Leases.

Abbreviation LeaseManager := (gmap string OperationLease).

Definition acquire (m : LeaseManager) (device_id operation_id : string)
    (device_generation now_ms ttl_ms : N) : LeaseManager * result ControlError OperationLease :=
  return_if (ttl_ms =? 0)%N with (m, Err ControlError.InvalidLeaseLifetime) ;;
  let fresh :=
    let lease := OperationLease.mk device_id operation_id device_generation
                   (saturating_add now_ms ttl_ms) in
    (<[device_id := lease]> m, Ok lease) in
  match m !! device_id with
  | Some existing =>
      if (now_ms <? existing.(OperationLease.expires_at_ms))%N then
        if bool_decide (existing.(OperationLease.operation_id) = operation_id)
           && (existing.(OperationLease.device_generation) =? device_generation)%N
        then (m, Ok existing)
        else (m, Err (ControlError.LeaseConflict existing.(OperationLease.operation_id)
                        existing.(OperationLease.device_generation)))
      else fresh
  | None => fresh
  end.

Definition release (m : LeaseManager) (device_id operation_id : string) (device_generation : N)
    : LeaseManager * result ControlError unit :=
  let_some existing := m !! device_id else (m, Err ControlError.LeaseNotFound) ;;
  return_if negb (bool_decide (existing.(OperationLease.operation_id) = operation_id))
            || negb (existing.(OperationLease.device_generation) =? device_generation)%N
    with (m, Err ControlError.LeaseOwnershipMismatch) ;;
  (delete device_id m, Ok tt).

(** Everything that can happen to the leases other than the owner of [owner]
    releasing it: time passes, anyone acquires, anyone else releases. *)
Inductive step_beside (owner : string * string * N) : N * LeaseManager → N * LeaseManager → Prop :=
| step_tick t t' m : (t ≤ t')%N → step_beside owner (t, m) (t', m)
| step_acquire t m device_id operation_id generation ttl_ms :
    step_beside owner (t, m) (t, (acquire m device_id operation_id generation t ttl_ms).1)
| step_release t m device_id operation_id generation :
    (device_id, operation_id, generation) ≠ owner →
    step_beside owner (t, m) (t, (release m device_id operation_id generation).1).

(** The owner's lease is in force (or the time it ran until has passed). *)
Definition holds (d o : string) (g until : N) (tm : N * LeaseManager) : Prop :=
  (tm.1 < until)%N → ∃ lease, tm.2 !! d = Some lease ∧
    lease.(OperationLease.operation_id) = o ∧ lease.(OperationLease.device_generation) = g ∧
    lease.(OperationLease.expires_at_ms) = until.

Lemma step_beside_holds d o g until tm tm' :
  step_beside (d, o, g) tm tm' → holds d o g until tm → holds d o g until tm'.
Proof.
  intros [t t' m Ht|t m d' o' g' ttl|t m d' o' g' Hne] Hold Hlt; cbn in *.
  - apply Hold. cbn. lia.
  - destruct (Hold Hlt) as (lease & Hl & <- & <- & <-). cbn in Hl. exists lease. split; [|done].
    unfold acquire. destruct (decide (d' = d)) as [->|Hd].
    + rewrite Hl, (proj2 (N.ltb_lt _ _) Hlt). run_goal; done.
    + run_goal; try done; by rewrite lookup_insert_ne.
  - destruct (Hold Hlt) as (lease & Hl & <- & <- & <-). cbn in Hl. exists lease. split; [|done].
    unfold release. destruct (decide (d' = d)) as [->|Hd].
    + rewrite Hl. run_goal; [done|]. destruct Hne. congruence.
    + run_goal; try done; by rewrite lookup_delete_ne.
Qed.

Lemma acquire_Ok_holds m d o g t ttl m1 lease :
  acquire m d o g t ttl = (m1, Ok lease) →
  holds d o g lease.(OperationLease.expires_at_ms) (t, m1).
Proof.
  unfold acquire. intros H _. run H; cbn; eexists;
    (split; [done || apply lookup_insert_eq|done]).
Qed.

(** A lease excludes every other operation and every other connection
    generation of the same operation until it expires, whatever else happens to
    the leases meanwhile; its owner can still release it, which frees the device. *)
Theorem lease_exclusive m d o g t ttl m1 lease t' m2 :
  acquire m d o g t ttl = (m1, Ok lease) →
  rtc (step_beside (d, o, g)) (t, m1) (t', m2) →
  (t' < lease.(OperationLease.expires_at_ms))%N →
  (∀ o' g' ttl', (o', g') ≠ (o, g) → ttl' ≠ 0%N →
     acquire m2 d o' g' t' ttl' = (m2, Err (ControlError.LeaseConflict o g)) ∧
     release m2 d o' g' = (m2, Err ControlError.LeaseOwnershipMismatch)) ∧
  release m2 d o g = (delete d m2, Ok tt) ∧
  ∀ o' g' ttl', ttl' ≠ 0%N → is_ok (acquire (delete d m2) d o' g' t' ttl').2 = true.
Proof.
  intros Hacq Hrun Hlt.
  destruct (rtc_invariant _ _ (step_beside_holds d o g _) _ _ Hrun
              (acquire_Ok_holds _ _ _ _ _ _ _ _ Hacq) Hlt) as (lease' & Hl & <- & <- & Hexp).
  cbn in *. split_and!.
  - intros o' g' ttl' Hne Httl. unfold acquire, release. rewrite Hl, Hexp.
    rewrite (proj2 (N.eqb_neq _ _) Httl), (proj2 (N.ltb_lt _ _) Hlt).
    destruct (bool_decide_reflect (OperationLease.operation_id lease' = o')) as [<-|];
      destruct (N.eqb_spec (OperationLease.device_generation lease') g') as [<-|]; done.
  - unfold release. by rewrite Hl, bool_decide_true, N.eqb_refl.
  - intros o' g' ttl' Httl. unfold acquire.
    by rewrite lookup_delete_eq, (proj2 (N.eqb_neq _ _) Httl).
Qed.

Lemma lease_exclusive_witness :
  acquire {["dev_a" := OperationLease.mk "dev_a" "op_1" 3 1500]} "dev_a" "op_2" 3 1200 10
    = ({["dev_a" := OperationLease.mk "dev_a" "op_1" 3 1500]},
       Err (ControlError.LeaseConflict "op_1" 3)).
Proof.
  refine (proj1 (proj1 (lease_exclusive ∅ "dev_a" "op_1" 3 1000 500
    {["dev_a" := OperationLease.mk "dev_a" "op_1" 3 1500]}
    (OperationLease.mk "dev_a" "op_1" 3 1500) 1200 _ eq_refl _ _) "op_2" 3%N 10%N _ _)).
  - apply rtc_once, step_tick. done.
  - done.
  - intros [=].
  - done.
Defined.
End Leases.

(** * The audit log *)

Inductive PolicyOutcome := Allowed | Denied.

Inductive AuditReason :=
| GrantValidBackendCompleted
| ObserveGrantCannotAuthorizeInteract
| GrantReplayRejected
| GrantRevokedRejected
| GrantExpiredRejected
| LeaseConflictAfterReconnect.

Module AuditEvidence.
Record AuditEvidence := mk {
  event_id : string;
  occurred_at_ms : N;
  device_id : string;
  device_generation : N;
  grant_id : option string;
  operation_id : option string;
  capability : option CapabilityClass;
  outcome : PolicyOutcome;
  reason : AuditReason
}.
End AuditEvidence.
Abbreviation AuditEvidence := AuditEvidence.AuditEvidence.

Module AuditLog.
Definition AuditLog := list AuditEvidence.

Definition record (log : AuditLog) (evidence : AuditEvidence) (random : list N) : AuditLog :=
  let evidence' :=
    if is_empty_string evidence.(AuditEvidence.event_id)
    then AuditEvidence.mk ("audit_" +:+ hex random) evidence.(AuditEvidence.occurred_at_ms)
           evidence.(AuditEvidence.device_id) evidence.(AuditEvidence.device_generation)
           evidence.(AuditEvidence.grant_id) evidence.(AuditEvidence.operation_id)
           evidence.(AuditEvidence.capability) evidence.(AuditEvidence.outcome)
           evidence.(AuditEvidence.reason)
    else evidence in
  log ++ [evidence'].

(** The log only grows, and every recorded event is identified. *)
Lemma record_identified log evidence random :
  Forall (λ e, e.(AuditEvidence.event_id) ≠ "") log →
  log `prefix_of` record log evidence random ∧
  Forall (λ e, e.(AuditEvidence.event_id) ≠ "") (record log evidence random).
Proof.
  intros Hlog. unfold record. split; [by apply prefix_app_r|].
  apply Forall_app. split; [done|]. apply Forall_singleton.
  unfold is_empty_string. by case_bool_decide.
Qed.
End AuditLog.
