(* ===== verification/Tombstone.v ===== *)
(** * Replay-deny tombstones

    [ReplayDenyTombstone] of [src/src/v2_m0_execution.rs]: the compact, lossless
    encoding under which retired operation identifiers are persisted. The
    base64url engine is a parameter. Also the errors of the execution module. *)

From S2P Require Import Prelude Vocabulary Crypto.

Module ExecutionError.
Inductive ExecutionError :=
| InvalidGlobalLimit
| InvalidOperation
| OperationReplay
| BackpressureRejected
| UnknownOperation
| InvalidTransition
| RetirementCapacityExhausted
| AgentBusy
| GenerationChangeWhileActive
| OwnershipFenceMismatch
| DeviceIndeterminate (operation_id : string)
| MutationResumeRequired (operation_id : string)
| InvalidSnapshot.
#[global] Instance ExecutionError_eq_dec : EqDecision ExecutionError.
Proof. solve_decision. Defined.
End ExecutionError.
Abbreviation ExecutionError := ExecutionError.ExecutionError.

(** [URL_SAFE_NO_PAD] of the base64 crate. *)
Class Base64Url := {
  b64_encode : list N → string;
  b64_decode : string → option (list N)
}.

Class Base64UrlLaws `{Base64Url} : Prop :=
  b64_decode_encode : ∀ b, Forall (λ x, x < 256)%N b → b64_decode (b64_encode b) = Some b.

Module ReplayDenyTombstone.

Definition MAX_RETIRED_OPERATION_ID_BYTES : N := 128.

Record ReplayDenyTombstone := mk { encoded_id : string }.

#[export] Instance tombstone_eq_dec : EqDecision ReplayDenyTombstone.
Proof. solve_decision. Defined.

Definition CANONICAL_PREFIX : string := "c:".
Definition RAW_PREFIX : string := "r:".

Section Operations.
Context `{B64 : Base64Url}.

Definition hex_value (b : N) : option N :=
  if is_ascii_digit b then Some (b - 48)%N
  else if in_range 97 102 b then Some (b - 87)%N
  else if in_range 65 70 b then Some (b - 55)%N
  else None.

(** [u8::from_str_radix(text, 16)] on a text of two bytes; a leading [+] is
    accepted by the standard library. *)
Definition from_str_radix_16 (a b : N) : option N :=
  if (a =? 43)%N then hex_value b
  else let_some hi := hex_value a else None ;;
       let_some lo := hex_value b else None ;;
       Some (16 * hi + lo)%N.

(** The loop over [chunks_exact(2)]. *)
Fixpoint decode_pairs (l : list N) : result ExecutionError (list N) :=
  match l with
  | a :: b :: l =>
      let_some _ := from_utf8 [a; b] else Err ExecutionError.InvalidOperation ;;
      let_some byte := from_str_radix_16 a b else Err ExecutionError.InvalidOperation ;;
      let_ok rest := decode_pairs l else e => Err e ;;
      Ok (byte :: rest)
  | _ => Ok []
  end.

Definition is_canonical_suffix (suffix : string) : bool :=
  (slen suffix =? 32)%N && all_bytes is_lower_hexdigit suffix.

(** [id.trim().is_empty() || id.len() > MAX_RETIRED_OPERATION_ID_BYTES] *)
Definition unusable_id (operation_id : string) : bool :=
  trim_is_empty operation_id || (MAX_RETIRED_OPERATION_ID_BYTES <? slen operation_id)%N.

Definition from_operation_id (operation_id : string) : result ExecutionError ReplayDenyTombstone :=
  return_if unusable_id operation_id with Err ExecutionError.InvalidOperation ;;
  let raw := Ok (mk (RAW_PREFIX +:+ b64_encode (bytes operation_id))) in
  match strip_prefix "op_" operation_id with
  | Some suffix =>
      if is_canonical_suffix suffix then
        let_ok b := decode_pairs (bytes suffix) else e => Err e ;;
        Ok (mk (CANONICAL_PREFIX +:+ b64_encode b))
      else raw
  | None => raw
  end.

Definition operation_id (t : ReplayDenyTombstone) : result ExecutionError string :=
  match strip_prefix CANONICAL_PREFIX t.(encoded_id) with
  | Some payload =>
      let_some b := b64_decode payload else Err ExecutionError.InvalidSnapshot ;;
      return_if negb (vlen b =? 16)%N with Err ExecutionError.InvalidSnapshot ;;
      Ok ("op_" +:+ hex b)
  | None =>
      match strip_prefix RAW_PREFIX t.(encoded_id) with
      | Some payload =>
          let_some b := b64_decode payload else Err ExecutionError.InvalidSnapshot ;;
          let_some id := from_utf8 b else Err ExecutionError.InvalidSnapshot ;;
          return_if unusable_id id with Err ExecutionError.InvalidSnapshot ;;
          Ok id
      | None => Err ExecutionError.InvalidSnapshot
      end
  end.

End Operations.

(** ** The encoding is lossless *)

Section Theorems.
Context `{B64 : Base64Url, B64L : !Base64UrlLaws}.

Definition lower_hexdigits : list N :=
  [48;49;50;51;52;53;54;55;56;57;97;98;99;100;101;102]%N.

Lemma lower_hexdigit_elem b : is_lower_hexdigit b = true → b ∈ lower_hexdigits.
Proof.
  intros H. assert (b < 103)%N as Hb.
  { unfold is_lower_hexdigit, is_ascii_digit, in_range in H.
    apply orb_true_iff in H as [?|?]; split_bools; lia. }
  assert (forallb (λ n, implb (is_lower_hexdigit (N.of_nat n))
            (bool_decide (N.of_nat n ∈ lower_hexdigits))) (seq 0 103) = true) as Hall
    by (vm_compute; reflexivity).
  rewrite forallb_forall in Hall. specialize (Hall (N.to_nat b)).
  rewrite N2Nat.id, H in Hall. apply (bool_decide_eq_true _), Hall, in_seq. lia.
Qed.

(** A pair of lower-case digits is a byte, whose digits are the pair. *)
Definition pair_ok (a b : N) : bool :=
  match from_utf8 [a; b], from_str_radix_16 a b with
  | Some _, Some x =>
      (x <? 256)%N && bool_decide (hex [x] = of_bytes [a; b])
  | _, _ => false
  end.

Lemma pair_ok_lower a b : is_lower_hexdigit a = true → is_lower_hexdigit b = true → pair_ok a b = true.
Proof.
  intros Ha%lower_hexdigit_elem Hb%lower_hexdigit_elem.
  assert (forallb (λ x, forallb (pair_ok x) lower_hexdigits) lower_hexdigits = true) as Hall
    by (vm_compute; reflexivity).
  rewrite forallb_forall in Hall. specialize (Hall a (proj1 (list_elem_of_In _ _) Ha)).
  rewrite forallb_forall in Hall. by apply Hall, list_elem_of_In.
Qed.

Lemma decode_pairs_hex n (l : list N) :
  length l = 2 * n → forallb is_lower_hexdigit l = true →
  ∃ b, decode_pairs l = Ok b ∧ length b = n ∧ Forall (λ x, x < 256)%N b ∧ hex b = of_bytes l.
Proof.
  revert l. induction n as [|n IH]; intros [|x [|y l]] Hlen Hall; try (cbn in Hlen; lia).
  { by exists []. }
  cbn in Hall. split_bools.
  destruct (IH l) as (b & Hb & Hlb & Hu8 & Hhex); [cbn in Hlen; lia|done|].
  assert (pair_ok x y = true) as Hp by by apply pair_ok_lower.
  unfold pair_ok in Hp.
  destruct (from_utf8 [x; y]) eqn:E1; [|done].
  destruct (from_str_radix_16 x y) as [z|] eqn:E2; [|done]. split_bools.
  exists (z :: b). cbn [decode_pairs]. rewrite E1, E2, Hb. split_and!; [done|cbn; lia|by constructor|].
  change (hex [z] +:+ hex b = of_bytes ([x; y] ++ l)).
  match goal with H : hex [z] = _ |- _ => rewrite H end. by rewrite Hhex.
Qed.

(** An identifier the admission controller can retire. *)
Definition encodable (id : string) : Prop :=
  unusable_id id = false ∧ utf8_valid (bytes id) = true.

Lemma raw_decodes id :
  unusable_id id = false →
  operation_id (mk (RAW_PREFIX +:+ b64_encode (bytes id))) =
    if utf8_valid (bytes id) then Ok id else Err ExecutionError.InvalidSnapshot.
Proof.
  intros Huse. unfold operation_id. cbn [encoded_id].
  change (strip_prefix CANONICAL_PREFIX (RAW_PREFIX +:+ b64_encode (bytes id)))
    with (@None string).
  rewrite strip_prefix_app, b64_decode_encode by apply bytes_u8.
  unfold from_utf8. destruct (utf8_valid _); [|done]. by rewrite of_bytes_bytes, Huse.
Qed.

Lemma canonical_decodes suffix :
  is_canonical_suffix suffix = true →
  ∃ b, decode_pairs (bytes suffix) = Ok b ∧
       operation_id (mk (CANONICAL_PREFIX +:+ b64_encode b)) = Ok ("op_" +:+ suffix).
Proof.
  unfold is_canonical_suffix, slen, all_bytes. intros Hc. split_bools.
  destruct (decode_pairs_hex 16 (bytes suffix)) as (b & -> & Hlen & Hu8 & Hhex);
    [rewrite length_bytes; lia|done|].
  exists b. split; [done|]. unfold operation_id. cbn [encoded_id].
  rewrite strip_prefix_app, b64_decode_encode by done.
  unfold vlen. rewrite Hlen. cbn [N.of_nat]. by rewrite Hhex, of_bytes_bytes.
Qed.

(** Every usable identifier has a tombstone; it decodes to that identifier or
    (for a raw identifier that is not UTF-8) not at all. *)
Lemma from_operation_id_decodes id :
  unusable_id id = false →
  ∃ t, from_operation_id id = Ok t ∧
       (operation_id t = Ok id ∨
        utf8_valid (bytes id) = false ∧ operation_id t = Err ExecutionError.InvalidSnapshot).
Proof.
  intros Huse. unfold from_operation_id. rewrite Huse.
  pose proof (raw_decodes id Huse) as Hraw.
  destruct (strip_prefix "op_" id) as [suffix|] eqn:Hs;
    [destruct (is_canonical_suffix suffix) eqn:Hc|].
  - apply strip_prefix_Some in Hs as ->.
    destruct (canonical_decodes suffix Hc) as (b & -> & Hb). eauto.
  - destruct (utf8_valid (bytes id)); eauto 6.
  - destruct (utf8_valid (bytes id)); eauto 6.
Qed.

Lemma tombstone_roundtrip_ex id :
  encodable id → ∃ t, from_operation_id id = Ok t ∧ operation_id t = Ok id.
Proof.
  intros [Huse Hutf]. destruct (from_operation_id_decodes id Huse) as (t & Ht & [Hid|[? _]]);
    [eauto|congruence].
Qed.

(** Decoding never gives another identifier. *)
Lemma tombstone_sound id t id' :
  from_operation_id id = Ok t → operation_id t = Ok id' → id' = id.
Proof.
  intros Ht Hid. destruct (unusable_id id) eqn:Huse.
  { unfold from_operation_id in Ht. by rewrite Huse in Ht. }
  destruct (from_operation_id_decodes id Huse) as (t' & Ht' & [Hid'|[_ Hid']]); congruence.
Qed.

(** The tombstone of an operation identifier decodes to exactly that
    identifier, so two different retired operations never share a tombstone;
    blank identifiers and identifiers over 128 bytes have none. *)
Theorem tombstone_lossless id :
  utf8_valid (bytes id) = true →
  match from_operation_id id with
  | Ok t => operation_id t = Ok id
  | Err e => e = ExecutionError.InvalidOperation ∧
             (trim_is_empty id = true ∨ (128 < slen id)%N)
  end.
Proof.
  intros Hutf. destruct (unusable_id id) eqn:Huse.
  - unfold from_operation_id. rewrite Huse. split; [done|].
    apply orb_true_iff in Huse as [?|H]; [by left|right]. by apply N.ltb_lt in H.
  - destruct (tombstone_roundtrip_ex id) as (t & -> & Ht); done.
Qed.

End Theorems.

(** ** Witness: a base64url engine written out in hexadecimal *)

Module Examples.
Definition unhex (c d : ascii) : option N := from_str_radix_16 (N_of_ascii c) (N_of_ascii d).
Fixpoint hex_decode (s : string) : option (list N) :=
  match s with
  | EmptyString => Some []
  | String c (String d s) =>
      b ← unhex c d; l ← hex_decode s; Some (b :: l)
  | _ => None
  end.
#[export] Instance hex_engine : Base64Url := {| b64_encode := hex; b64_decode := hex_decode |}.

Lemma unhex_hex_digits hi lo :
  (hi < 16)%N → (lo < 16)%N → unhex (hex_digit hi) (hex_digit lo) = Some (16 * hi + lo)%N.
Proof.
  intros Hhi%nibble_elem Hlo%nibble_elem.
  assert (forallb (λ x, forallb (λ y, bool_decide
            (unhex (hex_digit x) (hex_digit y) = Some (16 * x + y)%N)) nibbles) nibbles = true)
    as Hall by (vm_compute; reflexivity).
  rewrite forallb_forall in Hall. specialize (Hall hi (proj1 (list_elem_of_In _ _) Hhi)).
  rewrite forallb_forall in Hall. specialize (Hall lo (proj1 (list_elem_of_In _ _) Hlo)).
  by apply bool_decide_eq_true in Hall.
Qed.

#[export] Instance hex_engine_laws : Base64UrlLaws.
Proof.
  intros b Hb. cbn. induction Hb as [|x b Hx _ IH]; [done|].
  destruct (byte_nibbles x Hx) as (H1 & H2 & H3).
  cbn [hex hex_decode]. rewrite unhex_hex_digits, <-H3 by done. cbn. by rewrite IH.
Qed.

Lemma tombstone_lossless_witness :
  operation_id (mk "c:00112233445566778899aabbccddeeff") = Ok "op_00112233445566778899aabbccddeeff" ∧
  operation_id (mk "r:6a6f622d31") = Ok "job-1".
Proof.
  split.
  - exact (tombstone_lossless "op_00112233445566778899aabbccddeeff" eq_refl).
  - exact (tombstone_lossless "job-1" eq_refl).
Defined.
End Examples.
End ReplayDenyTombstone.
