(* ===== verification/Admission.v ===== *)
(** * Hub admission

    [HubAdmissionController] of [src/src/v2_m0_execution.rs]: bounded admission
    of operations, one live operation per device, bounded per-device queues, and
    the quarantine of a device whose last operation has an unknown outcome. *)

From S2P Require Import Prelude Vocabulary Tombstone.

Module OperationRef.
Record OperationRef := mk {
  device_id : string;
  device_generation : N;
  operation_id : string
}.
#[global] Instance OperationRef_eq_dec : EqDecision OperationRef.
Proof. solve_decision. Defined.
End OperationRef.
Abbreviation OperationRef := OperationRef.OperationRef.

Module HubOperationState.
Inductive HubOperationState :=
| Queued
| ActiveNotDispatched
| Dispatched
| CancelRequested
| Completed
| Failed
| Cancelled
| Indeterminate.
#[global] Instance HubOperationState_eq_dec : EqDecision HubOperationState.
Proof. solve_decision. Defined.

(** [matches!(state, Dispatched | CancelRequested)] *)
Definition on_device (s : HubOperationState) : bool :=
  match s with Dispatched | CancelRequested => true | _ => false end.

(** [matches!(state, Completed | Failed | Cancelled)] *)
Definition settled (s : HubOperationState) : bool :=
  match s with Completed | Failed | Cancelled => true | _ => false end.

(** The states of an operation that occupies its device. *)
Definition live (s : HubOperationState) : bool :=
  match s with ActiveNotDispatched | Dispatched | CancelRequested => true | _ => false end.
End HubOperationState.
Abbreviation HubOperationState := HubOperationState.HubOperationState.
Import HubOperationState.

Module IndeterminateResolution.
Inductive IndeterminateResolution :=
| ConfirmedCompleted
| ConfirmedNotExecuted
| ConfirmedEffectAppliedUncommitted.
#[global] Instance IndeterminateResolution_eq_dec : EqDecision IndeterminateResolution.
Proof. solve_decision. Defined.
End IndeterminateResolution.
Abbreviation IndeterminateResolution := IndeterminateResolution.IndeterminateResolution.

Module CompletionDecision.
Inductive CompletionDecision :=
| Idle
| StartNext (operation : OperationRef).
#[global] Instance CompletionDecision_eq_dec : EqDecision CompletionDecision.
Proof. solve_decision. Defined.
End CompletionDecision.
Abbreviation CompletionDecision := CompletionDecision.CompletionDecision.

Module AdmissionDecision.
Inductive AdmissionDecision :=
| StartNow (operation : OperationRef)
| Queued (position : N).
#[global] Instance AdmissionDecision_eq_dec : EqDecision AdmissionDecision.
Proof. solve_decision. Defined.
End AdmissionDecision.
Abbreviation AdmissionDecision := AdmissionDecision.AdmissionDecision.

(** The state a decision puts the admitted operation in. *)
Definition admitted_state (decision : AdmissionDecision) : HubOperationState :=
  match decision with
  | AdmissionDecision.StartNow _ => ActiveNotDispatched
  | AdmissionDecision.Queued _ => Queued
  end.

Module CancellationDecision.
Inductive CancellationDecision :=
| CancelledBeforeDispatch (next : CompletionDecision)
| SendCancellation (operation : OperationRef)
| AlreadyTerminal (state : HubOperationState).
#[global] Instance CancellationDecision_eq_dec : EqDecision CancellationDecision.
Proof. solve_decision. Defined.
End CancellationDecision.
Abbreviation CancellationDecision := CancellationDecision.CancellationDecision.

Definition MAX_RETIRED_OPERATION_TOMBSTONES : N := 4096.

Record AdmissionLimits := mk_limits {
  max_global_active : N;
  max_queued_per_device : N
}.

Definition validate_limits (l : AdmissionLimits) : result ExecutionError AdmissionLimits :=
  return_if (l.(max_global_active) =? 0)%N with Err ExecutionError.InvalidGlobalLimit ;; Ok l.

Record HubOperation := mk_operation {
  operation : OperationRef;
  state : HubOperationState
}.

Record HubAdmissionSnapshot := mk_admission_snapshot {
  snap_operations : list HubOperation;
  snap_retired_ids : list string;
  snap_retired_tombstones : list ReplayDenyTombstone.ReplayDenyTombstone
}.

Record HubAdmissionController := mk_admission {
  limits : AdmissionLimits;
  active_by_device : gmap string string;
  operations : gmap string HubOperation;
  queued_by_device : gmap string (list OperationRef);
  blocked_by_indeterminate : gmap string string;
  retired_indeterminate : gset string;
  recovery_read_only_operations : gset string
}.

(** Assignments to one field. *)
Definition set_active (c : HubAdmissionController) x :=
  mk_admission c.(limits) x c.(operations) c.(queued_by_device) c.(blocked_by_indeterminate)
    c.(retired_indeterminate) c.(recovery_read_only_operations).
Definition set_operations (c : HubAdmissionController) x :=
  mk_admission c.(limits) c.(active_by_device) x c.(queued_by_device)
    c.(blocked_by_indeterminate) c.(retired_indeterminate) c.(recovery_read_only_operations).
Definition set_queued (c : HubAdmissionController) x :=
  mk_admission c.(limits) c.(active_by_device) c.(operations) x c.(blocked_by_indeterminate)
    c.(retired_indeterminate) c.(recovery_read_only_operations).
Definition set_blocked (c : HubAdmissionController) x :=
  mk_admission c.(limits) c.(active_by_device) c.(operations) c.(queued_by_device) x
    c.(retired_indeterminate) c.(recovery_read_only_operations).
Definition set_retired (c : HubAdmissionController) x :=
  mk_admission c.(limits) c.(active_by_device) c.(operations) c.(queued_by_device)
    c.(blocked_by_indeterminate) x c.(recovery_read_only_operations).
Definition set_recovery (c : HubAdmissionController) x :=
  mk_admission c.(limits) c.(active_by_device) c.(operations) c.(queued_by_device)
    c.(blocked_by_indeterminate) c.(retired_indeterminate) x.

Definition empty_admission (l : AdmissionLimits) : HubAdmissionController :=
  mk_admission l ∅ ∅ ∅ ∅ ∅ ∅.

Definition new_admission (l : AdmissionLimits) : result ExecutionError HubAdmissionController :=
  let_ok l := validate_limits l else e => Err e ;;
  Ok (empty_admission l).

(** [operation.state = s] on the record found under [id] *)
Definition put_state (c : HubAdmissionController) (id : string) (o : HubOperation)
    (s : HubOperationState) : HubAdmissionController :=
  set_operations c (<[id := mk_operation o.(operation) s]> c.(operations)).

Definition operation_device (o : HubOperation) : string :=
  o.(operation).(OperationRef.device_id).

Definition operation_state (c : HubAdmissionController) (id : string)
    : option HubOperationState := state <$> c.(operations) !! id.

(** ** Starting queued work *)

Definition start (c : HubAdmissionController) (r : OperationRef) : HubAdmissionController :=
  set_operations
    (set_active c (<[r.(OperationRef.device_id) := r.(OperationRef.operation_id)]>
                     c.(active_by_device)))
    (<[r.(OperationRef.operation_id) := mk_operation r ActiveNotDispatched]> c.(operations)).

Definition pop_queued (c : HubAdmissionController) (device_id : string)
    : HubAdmissionController * option OperationRef :=
  match c.(queued_by_device) !! device_id with
  | None => (c, None)
  | Some [] => (set_queued c (delete device_id c.(queued_by_device)), None)
  | Some [r] => (set_queued c (delete device_id c.(queued_by_device)), Some r)
  | Some (r :: q) => (set_queued c (<[device_id := q]> c.(queued_by_device)), Some r)
  end.

Definition is_free (c : HubAdmissionController) (device_id : string) : bool :=
  negb (bool_decide (is_Some (c.(active_by_device) !! device_id)))
  && negb (bool_decide (is_Some (c.(blocked_by_indeterminate) !! device_id))).

(** The loop over the candidate devices. *)
Fixpoint start_first (c : HubAdmissionController) (candidates : list string)
    : HubAdmissionController * option OperationRef :=
  match candidates with
  | [] => (c, None)
  | d :: candidates =>
      if is_free c d then
        match pop_queued c d with
        | (c, Some next) => (start c next, Some next)
        | (c, None) => start_first c candidates
        end
      else start_first c candidates
  end.

Definition start_next_for_available_capacity `{HashIter} (c : HubAdmissionController)
    (preferred_device : option string) : HubAdmissionController * option OperationRef :=
  return_if (c.(limits).(max_global_active) <=? mlen c.(active_by_device))%N with (c, None) ;;
  let '(c, started) :=
    match preferred_device with
    | Some d =>
        if is_free c d then
          match pop_queued c d with
          | (c, Some next) => (start c next, Some next)
          | (c, None) => (c, None)
          end
        else (c, None)
    | None => (c, None)
    end in
  match started with
  | Some next => (c, Some next)
  | None => start_first c ((hash_iter c.(queued_by_device)).*1)
  end.

(** [map_or(CompletionDecision::Idle, CompletionDecision::StartNext)] *)
Definition completion (next : option OperationRef) : CompletionDecision :=
  match next with Some r => CompletionDecision.StartNext r | None => CompletionDecision.Idle end.

Definition start_next `{HashIter} (c : HubAdmissionController) (device_id : string)
    : HubAdmissionController * CompletionDecision :=
  let '(c, next) := start_next_for_available_capacity c (Some device_id) in
  (c, completion next).

(** ** Admission *)

Definition blank_operation (r : OperationRef) : bool :=
  trim_is_empty r.(OperationRef.operation_id) || trim_is_empty r.(OperationRef.device_id).

Definition admit_operation (c : HubAdmissionController) (r : OperationRef)
    : HubAdmissionController * result ExecutionError AdmissionDecision :=
  let id := r.(OperationRef.operation_id) in
  let d := r.(OperationRef.device_id) in
  return_if blank_operation r with (c, Err ExecutionError.InvalidOperation) ;;
  return_if bool_decide (is_Some (c.(operations) !! id))
            || bool_decide (id ∈ c.(retired_indeterminate))
    with (c, Err ExecutionError.OperationReplay) ;;
  match c.(blocked_by_indeterminate) !! d with
  | Some blocked => (c, Err (ExecutionError.DeviceIndeterminate blocked))
  | None =>
      let device_busy := bool_decide (is_Some (c.(active_by_device) !! d)) in
      let global_busy := (c.(limits).(max_global_active) <=? mlen c.(active_by_device))%N in
      return_if negb device_busy && negb global_busy
        with (start c r, Ok (AdmissionDecision.StartNow r)) ;;
      let queue := default [] (c.(queued_by_device) !! d) in
      return_if (c.(limits).(max_queued_per_device) <=? vlen queue)%N
        with (set_queued c (<[d := queue]> c.(queued_by_device)),
              Err ExecutionError.BackpressureRejected) ;;
      let queue := queue ++ [r] in
      (set_operations (set_queued c (<[d := queue]> c.(queued_by_device)))
         (<[id := mk_operation r Queued]> c.(operations)),
       Ok (AdmissionDecision.Queued (vlen queue)))
  end.

Definition admit_recovery_read_only (c : HubAdmissionController) (r : OperationRef)
    : HubAdmissionController * result ExecutionError AdmissionDecision :=
  let id := r.(OperationRef.operation_id) in
  let d := r.(OperationRef.device_id) in
  return_if blank_operation r with (c, Err ExecutionError.InvalidOperation) ;;
  return_if bool_decide (is_Some (c.(operations) !! id))
    with (c, Err ExecutionError.OperationReplay) ;;
  return_if negb (bool_decide (is_Some (c.(blocked_by_indeterminate) !! d)))
    with (c, Err ExecutionError.InvalidTransition) ;;
  return_if bool_decide (is_Some (c.(active_by_device) !! d))
            || (c.(limits).(max_global_active) <=? mlen c.(active_by_device))%N
    with (c, Err ExecutionError.BackpressureRejected) ;;
  let c := start c r in
  (set_recovery c ({[id]} ∪ c.(recovery_read_only_operations)),
   Ok (AdmissionDecision.StartNow r)).

Definition is_recovery_read_only (c : HubAdmissionController) (id : string) : bool :=
  bool_decide (id ∈ c.(recovery_read_only_operations)).

Definition mark_dispatched (c : HubAdmissionController) (id : string)
    : HubAdmissionController * result ExecutionError unit :=
  let_some o := c.(operations) !! id else (c, Err ExecutionError.UnknownOperation) ;;
  return_if negb (bool_decide (o.(state) = ActiveNotDispatched))
    with (c, Err ExecutionError.InvalidTransition) ;;
  (put_state c id o Dispatched, Ok tt).

(** [queue.remove(queue.position(|o| o.operation_id == id))], if found *)
Fixpoint remove_queued (id : string) (q : list OperationRef) : list OperationRef :=
  match q with
  | [] => []
  | r :: q => if bool_decide (r.(OperationRef.operation_id) = id) then q
              else r :: remove_queued id q
  end.

(** Remove [id] from the queue of [device_id], and the queue once empty. *)
Definition unqueue (c : HubAdmissionController) (device_id id : string) : HubAdmissionController :=
  match c.(queued_by_device) !! device_id with
  | None => c
  | Some q =>
      match remove_queued id q with
      | [] => set_queued c (delete device_id c.(queued_by_device))
      | q => set_queued c (<[device_id := q]> c.(queued_by_device))
      end
  end.

(** The operation [id] of [device_id] stops occupying the device: the common
    tail of the settling transitions. *)
Definition release_device (c : HubAdmissionController) (device_id id : string)
    : HubAdmissionController :=
  set_recovery (set_active c (delete device_id c.(active_by_device)))
    (c.(recovery_read_only_operations) ∖ {[id]}).

Definition cancel `{HashIter} (c : HubAdmissionController) (id : string)
    : HubAdmissionController * result ExecutionError CancellationDecision :=
  let_some o := c.(operations) !! id else (c, Err ExecutionError.UnknownOperation) ;;
  let d := operation_device o in
  match o.(state) with
  | Queued =>
      (put_state (unqueue c d id) id o Cancelled,
       Ok (CancellationDecision.CancelledBeforeDispatch CompletionDecision.Idle))
  | ActiveNotDispatched =>
      let c := release_device (put_state c id o Cancelled) d id in
      let '(c, next) := start_next c d in
      (c, Ok (CancellationDecision.CancelledBeforeDispatch next))
  | Dispatched =>
      (put_state c id o CancelRequested,
       Ok (CancellationDecision.SendCancellation o.(operation)))
  | CancelRequested => (c, Ok (CancellationDecision.SendCancellation o.(operation)))
  | terminal => (c, Ok (CancellationDecision.AlreadyTerminal terminal))
  end.

Definition finalize_terminal `{HashIter} (c : HubAdmissionController) (id : string)
    (terminal : HubOperationState)
    : HubAdmissionController * result ExecutionError CompletionDecision :=
  return_if negb (settled terminal) with (c, Err ExecutionError.InvalidTransition) ;;
  let_some o := c.(operations) !! id else (c, Err ExecutionError.UnknownOperation) ;;
  return_if negb (on_device o.(state)) with (c, Err ExecutionError.InvalidTransition) ;;
  let d := operation_device o in
  let '(c, next) := start_next (release_device (put_state c id o terminal) d id) d in
  (c, Ok next).

Definition complete `{HashIter} (c : HubAdmissionController) (id : string) (cancelled : bool)
    : HubAdmissionController * result ExecutionError CompletionDecision :=
  finalize_terminal c id (if cancelled then Cancelled else Completed).

Definition fail_recovery_read_only `{HashIter} (c : HubAdmissionController) (id : string)
    : HubAdmissionController * result ExecutionError CompletionDecision :=
  return_if negb (bool_decide (id ∈ c.(recovery_read_only_operations)))
    with (c, Err ExecutionError.InvalidTransition) ;;
  let_some o := c.(operations) !! id else (c, Err ExecutionError.UnknownOperation) ;;
  return_if negb (on_device o.(state)) with (c, Err ExecutionError.InvalidTransition) ;;
  let d := operation_device o in
  let '(c, next) := start_next (release_device (put_state c id o Failed) d id) d in
  (c, Ok next).

(** ** Quarantine *)

Definition mark_indeterminate (c : HubAdmissionController) (id : string)
    : HubAdmissionController * result ExecutionError CompletionDecision :=
  return_if bool_decide (id ∈ c.(recovery_read_only_operations))
    with (c, Err ExecutionError.InvalidTransition) ;;
  let_some o := c.(operations) !! id else (c, Err ExecutionError.UnknownOperation) ;;
  return_if negb (on_device o.(state)) with (c, Err ExecutionError.InvalidTransition) ;;
  let d := operation_device o in
  let c := put_state c id o Indeterminate in
  let c := set_active c (delete d c.(active_by_device)) in
  (set_blocked c (<[d := id]> c.(blocked_by_indeterminate)), Ok CompletionDecision.Idle).

Definition mark_connection_lost (c : HubAdmissionController) (id : string)
    : HubAdmissionController * result ExecutionError CompletionDecision :=
  mark_indeterminate c id.

(** [blocked.get(&device_id).is_none_or(|blocked| blocked != operation_id)] *)
Definition not_blocked_by (c : HubAdmissionController) (device_id id : string) : bool :=
  negb (bool_decide (c.(blocked_by_indeterminate) !! device_id = Some id)).

Definition unblock (c : HubAdmissionController) (device_id : string) : HubAdmissionController :=
  set_blocked c (delete device_id c.(blocked_by_indeterminate)).

(** The state an operator's resolution settles an operation to. *)
Definition resolved_state (resolution : IndeterminateResolution) : HubOperationState :=
  match resolution with
  | IndeterminateResolution.ConfirmedCompleted
  | IndeterminateResolution.ConfirmedEffectAppliedUncommitted => Completed
  | IndeterminateResolution.ConfirmedNotExecuted => Cancelled
  end.

Definition resolve_indeterminate `{HashIter} (c : HubAdmissionController) (id : string)
    (resolution : IndeterminateResolution)
    : HubAdmissionController * result ExecutionError CompletionDecision :=
  let_some o := c.(operations) !! id else (c, Err ExecutionError.UnknownOperation) ;;
  return_if negb (bool_decide (o.(state) = Indeterminate))
    with (c, Err ExecutionError.InvalidTransition) ;;
  let d := operation_device o in
  return_if not_blocked_by c d id with (c, Err ExecutionError.InvalidTransition) ;;
  let '(c, next) := start_next (unblock (put_state c id o (resolved_state resolution)) d) d in
  (c, Ok next).

Definition reconcile_indeterminate_terminal `{HashIter} (c : HubAdmissionController)
    (id : string) (terminal : HubOperationState)
    : HubAdmissionController * result ExecutionError CompletionDecision :=
  return_if negb (settled terminal) with (c, Err ExecutionError.InvalidTransition) ;;
  let_some o := c.(operations) !! id else (c, Err ExecutionError.UnknownOperation) ;;
  return_if negb (bool_decide (o.(state) = Indeterminate))
    with (c, Err ExecutionError.InvalidTransition) ;;
  let d := operation_device o in
  return_if not_blocked_by c d id with (c, Err ExecutionError.InvalidTransition) ;;
  let '(c, next) := start_next (unblock (put_state c id o terminal) d) d in
  (c, Ok next).

(** The guards shared by the two retirements; the device on success. *)
Definition retirable (c : HubAdmissionController) (id : string) : result ExecutionError string :=
  let_some o := c.(operations) !! id else Err ExecutionError.UnknownOperation ;;
  return_if negb (bool_decide (o.(state) = Indeterminate))
            || bool_decide (id ∈ c.(retired_indeterminate))
    with Err ExecutionError.InvalidTransition ;;
  return_if (MAX_RETIRED_OPERATION_TOMBSTONES <=? setlen c.(retired_indeterminate))%N
    with Err ExecutionError.RetirementCapacityExhausted ;;
  return_if not_blocked_by c (operation_device o) id with Err ExecutionError.InvalidTransition ;;
  Ok (operation_device o).

Definition retire (c : HubAdmissionController) (device_id id : string) : HubAdmissionController :=
  let c := unblock c device_id in
  set_retired c ({[id]} ∪ c.(retired_indeterminate)).

Definition retire_indeterminate `{HashIter} (c : HubAdmissionController) (id : string)
    : HubAdmissionController * result ExecutionError CompletionDecision :=
  let_ok d := retirable c id else e => (c, Err e) ;;
  let '(c, next) := start_next (retire c d id) d in
  (c, Ok next).

(** [state = Cancelled] for each of the queued operations *)
Definition cancel_each (queued : list OperationRef) (ops : gmap string HubOperation)
    : gmap string HubOperation :=
  foldl (λ ops r,
    alter (λ o, mk_operation o.(operation) Cancelled) r.(OperationRef.operation_id) ops)
    ops queued.

Definition retire_indeterminate_and_cancel_queued (c : HubAdmissionController) (id : string)
    : HubAdmissionController * result ExecutionError (list OperationRef) :=
  let_ok d := retirable c id else e => (c, Err e) ;;
  let queued := default [] (c.(queued_by_device) !! d) in
  return_if existsb (λ r, negb (bool_decide
              (operation_state c r.(OperationRef.operation_id) = Some Queued))) queued
    with (c, Err ExecutionError.InvalidTransition) ;;
  let c := retire c d id in
  let c := set_queued c (delete d c.(queued_by_device)) in
  (set_operations c (cancel_each queued c.(operations)), Ok queued).

Definition compact_retired_indeterminate_detail (c : HubAdmissionController) (id : string)
    : HubAdmissionController * result ExecutionError unit :=
  return_if negb (bool_decide (id ∈ c.(retired_indeterminate)))
    with (c, Err ExecutionError.InvalidTransition) ;;
  let_some o := c.(operations) !! id else (c, Err ExecutionError.UnknownOperation) ;;
  return_if negb (bool_decide (o.(state) = Indeterminate))
            || existsb (λ kv, bool_decide (kv.2 = id))
                 (map_to_list c.(blocked_by_indeterminate))
    with (c, Err ExecutionError.InvalidTransition) ;;
  (set_recovery (set_operations c (delete id c.(operations)))
     (c.(recovery_read_only_operations) ∖ {[id]}), Ok tt).

Definition prunable (device_id : string) (current_generation : N) (o : HubOperation) : bool :=
  bool_decide (operation_device o = device_id)
  && (o.(operation).(OperationRef.device_generation) <? current_generation)%N
  && settled o.(state).

Definition prune_terminal_before_generation (c : HubAdmissionController) (device_id : string)
    (current_generation : N) : HubAdmissionController * result ExecutionError N :=
  return_if trim_is_empty device_id || (current_generation =? 0)%N
    with (c, Err ExecutionError.InvalidOperation) ;;
  let remove := filter (λ kv, prunable device_id current_generation kv.2 = true) c.(operations) in
  (set_recovery (set_operations c (c.(operations) ∖ remove))
     (c.(recovery_read_only_operations) ∖ dom remove), Ok (mlen remove)).

(** ** Restart *)

(** The state an operation is persisted in. *)
Definition restart_state (recovery_read_only : bool) (s : HubOperationState)
    : HubOperationState :=
  match s with
  | Queued | ActiveNotDispatched => Cancelled
  | Dispatched | CancelRequested => if recovery_read_only then Failed else Indeterminate
  | terminal => terminal
  end.

Definition operation_le (a b : HubOperation) : Prop :=
  String.le a.(operation).(OperationRef.operation_id) b.(operation).(OperationRef.operation_id).
#[export] Instance operation_le_dec : RelDecision operation_le.
Proof. intros a b. unfold operation_le. apply _. Defined.

Definition tombstone_le (a b : ReplayDenyTombstone.ReplayDenyTombstone) : Prop :=
  String.le a.(ReplayDenyTombstone.encoded_id) b.(ReplayDenyTombstone.encoded_id).
#[export] Instance tombstone_le_dec : RelDecision tombstone_le.
Proof. intros a b. unfold tombstone_le. apply _. Defined.

Definition snapshot_operation (c : HubAdmissionController) (o : HubOperation) : HubOperation :=
  mk_operation o.(operation)
    (restart_state (is_recovery_read_only c o.(operation).(OperationRef.operation_id)) o.(state)).

(** [iter().map(f).collect::<Result<Vec<_>, _>>()] *)
Fixpoint collect {E A B} (f : A → result E B) (l : list A) : result E (list B) :=
  match l with
  | [] => Ok []
  | a :: l => let_ok b := f a else e => Err e ;;
              let_ok bs := collect f l else e => Err e ;; Ok (b :: bs)
  end.

(** [None] is the panic of [expect] on an identifier that has no tombstone. *)
Definition snapshot_for_restart `{Base64Url} `{HashIter} (c : HubAdmissionController)
    : option HubAdmissionSnapshot :=
  let ops := merge_sort operation_le
               ((λ kv, snapshot_operation c kv.2) <$> hash_iter c.(operations)) in
  let_ok tombstones := collect ReplayDenyTombstone.from_operation_id
                         (hash_set_iter c.(retired_indeterminate)) else e => None ;;
  Some (mk_admission_snapshot ops [] (merge_sort tombstone_le tombstones)).

Definition snapshot_for_restart_legacy_retired_ids `{Base64Url} `{HashIter}
    (c : HubAdmissionController) : option HubAdmissionSnapshot :=
  let_some s := snapshot_for_restart c else None ;;
  Some (mk_admission_snapshot s.(snap_operations)
          (merge_sort String.le (hash_set_iter c.(retired_indeterminate))) []).

Definition restore_retired `{Base64Url} (s : HubAdmissionSnapshot)
    : result ExecutionError (gset string) :=
  return_if negb (bool_decide (s.(snap_retired_ids) = []))
            && negb (bool_decide (s.(snap_retired_tombstones) = []))
    with Err ExecutionError.InvalidSnapshot ;;
  if negb (bool_decide (s.(snap_retired_tombstones) = [])) then
    return_if (MAX_RETIRED_OPERATION_TOMBSTONES <? vlen s.(snap_retired_tombstones))%N
      with Err ExecutionError.InvalidSnapshot ;;
    let_ok decoded := collect ReplayDenyTombstone.operation_id s.(snap_retired_tombstones)
      else e => Err e ;;
    return_if negb (setlen (list_to_set decoded) =? vlen decoded)%N
      with Err ExecutionError.InvalidSnapshot ;;
    Ok (list_to_set decoded)
  else
    return_if (MAX_RETIRED_OPERATION_TOMBSTONES <? vlen s.(snap_retired_ids))%N
      with Err ExecutionError.InvalidSnapshot ;;
    return_if negb (setlen (list_to_set s.(snap_retired_ids)) =? vlen s.(snap_retired_ids))%N
              || existsb ReplayDenyTombstone.unusable_id s.(snap_retired_ids)
      with Err ExecutionError.InvalidSnapshot ;;
    Ok (list_to_set s.(snap_retired_ids)).

(** [matches!(state, Completed | Failed | Cancelled | Indeterminate)] *)
Definition persistable (s : HubOperationState) : bool :=
  settled s || bool_decide (s = Indeterminate).

(** The loop over the persisted operations. *)
Fixpoint restore_operations (retired : gset string) (l : list HubOperation)
    (c : HubAdmissionController) : result ExecutionError HubAdmissionController :=
  match l with
  | [] => Ok c
  | o :: l =>
      let id := o.(operation).(OperationRef.operation_id) in
      let d := operation_device o in
      return_if negb (persistable o.(state)) with Err ExecutionError.InvalidSnapshot ;;
      return_if bool_decide (is_Some (c.(operations) !! id))
        with Err ExecutionError.InvalidSnapshot ;;
      let blocks := bool_decide (o.(state) = Indeterminate) && negb (bool_decide (id ∈ retired)) in
      return_if blocks && bool_decide (is_Some (c.(blocked_by_indeterminate) !! d))
        with Err ExecutionError.InvalidSnapshot ;;
      let c := if blocks then set_blocked c (<[d := id]> c.(blocked_by_indeterminate)) else c in
      restore_operations retired l (set_operations c (<[id := o]> c.(operations)))
  end.

(** A retired identifier that still has a record is indeterminate. *)
Definition retired_consistent (retired : gset string) (c : HubAdmissionController) : bool :=
  forallb (λ id, match c.(operations) !! id with
                 | Some o => bool_decide (o.(state) = Indeterminate)
                 | None => true
                 end) (elements retired).

Definition restore_after_restart `{Base64Url} (l : AdmissionLimits) (s : HubAdmissionSnapshot)
    : result ExecutionError HubAdmissionController :=
  let_ok retired := restore_retired s else e => Err e ;;
  let_ok c := new_admission l else e => Err e ;;
  let_ok c := restore_operations retired s.(snap_operations) c else e => Err e ;;
  return_if negb (retired_consistent retired c) with Err ExecutionError.InvalidSnapshot ;;
  Ok (set_retired c retired).
