(* ===== verification/AdmissionSafety.v ===== *)
(** * The admission invariant

    The calls of [HubAdmissionController] as transitions, the invariant that ties
    its six collections together, and what follows from it for every reachable
    state. *)

From S2P Require Import Prelude Vocabulary Tombstone Admission.
Import HubOperationState.

(** ** Transitions *)

Inductive call :=
| Admit (r : OperationRef)
| AdmitRecovery (r : OperationRef)
| MarkDispatched (id : string)
| Cancel (id : string)
| Finalize (id : string) (terminal : HubOperationState)
| FailRecovery (id : string)
| MarkIndeterminate (id : string)
| Resolve (id : string) (resolution : IndeterminateResolution)
| Reconcile (id : string) (terminal : HubOperationState)
| Retire (id : string)
| RetireAndCancelQueued (id : string)
| Compact (id : string)
| Prune (device_id : string) (current_generation : N).

Definition exec `{HashIter} (c : HubAdmissionController) (k : call) : HubAdmissionController :=
  match k with
  | Admit r => (admit_operation c r).1
  | AdmitRecovery r => (admit_recovery_read_only c r).1
  | MarkDispatched id => (mark_dispatched c id).1
  | Cancel id => (cancel c id).1
  | Finalize id terminal => (finalize_terminal c id terminal).1
  | FailRecovery id => (fail_recovery_read_only c id).1
  | MarkIndeterminate id => (mark_indeterminate c id).1
  | Resolve id resolution => (resolve_indeterminate c id resolution).1
  | Reconcile id terminal => (reconcile_indeterminate_terminal c id terminal).1
  | Retire id => (retire_indeterminate c id).1
  | RetireAndCancelQueued id => (retire_indeterminate_and_cancel_queued c id).1
  | Compact id => (compact_retired_indeterminate_detail c id).1
  | Prune device_id g => (prune_terminal_before_generation c device_id g).1
  end.

(** ** The invariant *)

(** The record [id] occupies device [d]. *)
Definition holds_device (ops : gmap string HubOperation) (d id : string) : Prop :=
  ∃ o, ops !! id = Some o ∧ operation_device o = d ∧ live o.(state) = true.

(** The record [id] of device [d] has an unknown outcome. *)
Definition unknown_outcome (ops : gmap string HubOperation) (d id : string) : Prop :=
  ∃ o, ops !! id = Some o ∧ operation_device o = d ∧ o.(state) = Indeterminate.

(** The queues hold exactly the queued records, each once, within the bound. *)
Record queues_ok (bound : N) (ops : gmap string HubOperation)
    (queues : gmap string (list OperationRef)) : Prop := {
  queue_sound : ∀ d q r, queues !! d = Some q → r ∈ q →
    r.(OperationRef.device_id) = d ∧
    ops !! r.(OperationRef.operation_id) = Some (mk_operation r Queued);
  queue_complete : ∀ id o, ops !! id = Some o → o.(state) = Queued →
    o.(operation).(OperationRef.operation_id) = id ∧
    ∃ q, queues !! operation_device o = Some q ∧ o.(operation) ∈ q;
  queue_nodup : ∀ d q, queues !! d = Some q → NoDup q;
  queue_bound : ∀ d q, queues !! d = Some q → (vlen q ≤ bound)%N
}.

(** Who occupies the devices, and who blocks them. *)
Record occupancy_ok (capacity : N) (ops : gmap string HubOperation)
    (active blocked : gmap string string) (retired recovery : gset string) : Prop := {
  (** the active operation of a device is its live record, and the only one *)
  occ_active : ∀ d id, active !! d = Some id ↔ holds_device ops d id;
  (** a device is blocked by its unretired unknown outcome, and the only one *)
  occ_blocked : ∀ d id, blocked !! d = Some id ↔ unknown_outcome ops d id ∧ (id ∉ retired);
  occ_capacity : (mlen active ≤ capacity)%N;
  (** recovery reads are live, and nothing else runs on a blocked device *)
  occ_recovery : ∀ id, id ∈ recovery → ∃ d, holds_device ops d id;
  occ_exclusive : ∀ d id id', blocked !! d = Some id → active !! d = Some id' → id' ∈ recovery;
  (** only recovery reads reuse a retired identifier *)
  occ_fresh : ∀ id o, ops !! id = Some o → id ∈ retired →
    o.(state) = Queued ∨ live o.(state) = true → id ∈ recovery
}.

Record inv (c : HubAdmissionController) : Prop := {
  (** records are filed under their own identifier *)
  inv_key : ∀ id o, c.(operations) !! id = Some o →
    o.(operation).(OperationRef.operation_id) = id;
  inv_queues : queues_ok c.(limits).(max_queued_per_device) c.(operations) c.(queued_by_device);
  inv_occupancy : occupancy_ok c.(limits).(max_global_active) c.(operations)
    c.(active_by_device) c.(blocked_by_indeterminate) c.(retired_indeterminate)
    c.(recovery_read_only_operations);
  inv_positive : (0 < c.(limits).(max_global_active))%N;
  inv_retired : (setlen c.(retired_indeterminate) ≤ MAX_RETIRED_OPERATION_TOMBSTONES)%N
}.

(** ** Cardinalities *)

Lemma mlen_insert_new {A} (m : gmap string A) k a : m !! k = None → mlen (<[k := a]> m) = (mlen m + 1)%N.
Proof. intros H. unfold mlen. rewrite map_size_insert_None by done. lia. Qed.

Lemma mlen_delete_le {A} (m : gmap string A) k : (mlen (delete k m) ≤ mlen m)%N.
Proof. unfold mlen. rewrite map_size_delete. destruct (m !! k); cbn; lia. Qed.

(** ** Views of an updated ledger *)

Section Views.
Implicit Types (ops : gmap string HubOperation) (o : HubOperation) (id d : string).

Lemma holds_device_at ops id o d :
  ops !! id = Some o → holds_device ops d id ↔ operation_device o = d ∧ live o.(state) = true.
Proof. intros Ho. unfold holds_device. rewrite Ho. naive_solver. Qed.

Lemma unknown_outcome_at ops id o d :
  ops !! id = Some o → unknown_outcome ops d id ↔ operation_device o = d ∧ o.(state) = Indeterminate.
Proof. intros Ho. unfold unknown_outcome. rewrite Ho. naive_solver. Qed.

Lemma holds_device_none ops id d : ops !! id = None → ¬ holds_device ops d id.
Proof. intros Ho (o & ? & _). congruence. Qed.

Lemma unknown_outcome_none ops id d : ops !! id = None → ¬ unknown_outcome ops d id.
Proof. intros Ho (o & ? & _). congruence. Qed.

Lemma holds_device_insert ops id o d id' :
  holds_device (<[id := o]> ops) d id' ↔
    if decide (id' = id) then operation_device o = d ∧ live o.(state) = true
    else holds_device ops d id'.
Proof.
  case_decide; [subst; apply holds_device_at, lookup_insert_eq|].
  unfold holds_device. by rewrite lookup_insert_ne.
Qed.

Lemma unknown_outcome_insert ops id o d id' :
  unknown_outcome (<[id := o]> ops) d id' ↔
    if decide (id' = id) then operation_device o = d ∧ o.(state) = Indeterminate
    else unknown_outcome ops d id'.
Proof.
  case_decide; [subst; apply unknown_outcome_at, lookup_insert_eq|].
  unfold unknown_outcome. by rewrite lookup_insert_ne.
Qed.
End Views.

(** ** Queues *)

Section Queues.
Context (bound : N).
Implicit Types (ops : gmap string HubOperation) (queues : gmap string (list OperationRef)).

Definition put_queue (d : string) (q : list OperationRef) queues :=
  match q with [] => delete d queues | _ => <[d := q]> queues end.

Lemma put_queue_Some d q queues d' q' :
  put_queue d q queues !! d' = Some q' ↔
    (d' = d ∧ q' = q ∧ q ≠ []) ∨ (d' ≠ d ∧ queues !! d' = Some q').
Proof.
  destruct q; cbn; [rewrite lookup_delete_Some|rewrite lookup_insert_Some]; naive_solver.
Qed.

(** A record that is not queued changes, and still is not. *)
Lemma queues_put ops queues id o :
  queues_ok bound ops queues → (∀ o', ops !! id = Some o' → o'.(state) ≠ Queued) →
  o.(state) ≠ Queued → queues_ok bound (<[id := o]> ops) queues.
Proof.
  intros [Hs Hc Hn Hb] Hold Hnew. split; [|  |done|done].
  - intros d q r Hq Hin. destruct (Hs d q r Hq Hin) as [? Hrec]. split; [done|].
    rewrite lookup_insert_ne; [done|]. intros Heq. rewrite <-Heq in Hrec. by apply Hold in Hrec.
  - intros id' o' [[<- <-]|[_ H]]%lookup_insert_Some; [done|by eapply Hc].
Qed.

(** The record of [r] leaves its queue. *)
Lemma queues_leave ops queues d q q' r o :
  queues_ok bound ops queues → queues !! d = Some q → q ≡ₚ r :: q' → o.(state) ≠ Queued →
  queues_ok bound (<[r.(OperationRef.operation_id) := o]> ops) (put_queue d q' queues).
Proof.
  intros [Hs Hc Hn Hb] Hq Hperm Hnew.
  assert (r ∈ q) as Hr by (rewrite Hperm; left).
  destruct (Hs d q r Hq Hr) as [Hd Hrec].
  assert (NoDup (r :: q')) as [Hnotin Hnd]%NoDup_cons by (rewrite <-Hperm; by eapply Hn).
  assert (∀ d' p r', put_queue d q' queues !! d' = Some p → r' ∈ p →
            r' ≠ r ∧ ∃ p', queues !! d' = Some p' ∧ r' ∈ p') as Hsub.
  { intros d' p r' [(-> & -> & _)|[Hne Hp]]%put_queue_Some Hin.
    - split; [by intros ->|]. exists q. split; [done|]. rewrite Hperm. by right.
    - split; [|by exists p]. intros ->. by destruct (Hs d' p r Hp Hin) as [<- _]. }
  split.
  - intros d' p r' Hp Hin. destruct (Hsub d' p r' Hp Hin) as (Hne & p' & Hp' & Hin').
    destruct (Hs d' p' r' Hp' Hin') as [? Hrec']. split; [done|].
    rewrite lookup_insert_ne; [done|]. intros Heq. rewrite <-Heq in Hrec'.
    rewrite Hrec in Hrec'. by simplify_eq.
  - intros id' o' [[<- <-]|[Hne H]]%lookup_insert_Some Hq'; [done|].
    destruct (Hc id' o' H Hq') as (Hkey & p & Hp & Hin). split; [done|].
    destruct (decide (operation_device o' = d)) as [Hd'|Hd'].
    + rewrite Hd' in Hp |- *. assert (p = q) as -> by congruence. rewrite Hperm in Hin. apply elem_of_cons in Hin as [Heq|Hin].
      * destruct Hne. by rewrite <-Heq.
      * exists q'. split; [|done]. apply put_queue_Some. left. split_and!; [done|done|].
        by intros ->; apply elem_of_nil in Hin.
    + exists p. split; [|done]. apply put_queue_Some. by right.
  - intros d' p [(-> & -> & _)|[_ Hp]]%put_queue_Some; [done|by eapply Hn].
  - intros d' p [(-> & -> & _)|[_ Hp]]%put_queue_Some; [|by eapply Hb].
    apply Hb in Hq. unfold vlen in *. rewrite Hperm in Hq. cbn in Hq. lia.
Qed.

Lemma queues_enqueue ops queues r :
  queues_ok bound ops queues → ops !! r.(OperationRef.operation_id) = None →
  (vlen (default [] (queues !! r.(OperationRef.device_id))) < bound)%N →
  queues_ok bound (<[r.(OperationRef.operation_id) := mk_operation r Queued]> ops)
    (<[r.(OperationRef.device_id) := default [] (queues !! r.(OperationRef.device_id)) ++ [r]]>
       queues).
Proof.
  intros [Hs Hc Hn Hb] Hnew Hlen. set (queue := default [] _) in *.
  assert (∀ r', r' ∈ queue → ∃ q, queues !! r.(OperationRef.device_id) = Some q ∧ r' ∈ q) as Hin.
  { unfold queue. destruct (queues !! _); cbn; [by eauto|]. intros r' []%elem_of_nil. }
  assert (∀ d q r', <[r.(OperationRef.device_id) := queue ++ [r]]> queues !! d = Some q → r' ∈ q →
            (d = r.(OperationRef.device_id) ∧ r' = r) ∨
            ∃ q', queues !! d = Some q' ∧ r' ∈ q') as Hold.
  { intros d q r' [[<- <-]|[_ Hq]]%lookup_insert_Some Hr'; [|by eauto].
    apply elem_of_app in Hr' as [Hr'|Hr'%list_elem_of_singleton]; [right; by apply Hin|left; by split]. }
  split.
  - intros d q r' Hq Hr'. destruct (Hold d q r' Hq Hr') as [[-> ->]|(q' & Hq' & Hr'')].
    + split; [done|]. apply lookup_insert_eq.
    + destruct (Hs d q' r' Hq' Hr'') as [? Hrec]. split; [done|].
      rewrite lookup_insert_ne; [done|]. congruence.
  - intros id o [[<- <-]|[Hne Ho]]%lookup_insert_Some Hst; cbn.
    + split; [done|]. eexists. split; [apply lookup_insert_eq|set_solver].
    + destruct (Hc id o Ho Hst) as (? & q & Hq & Ho'). split; [done|].
      destruct (decide (operation_device o = r.(OperationRef.device_id))) as [Heq|Hd].
      * rewrite Heq in Hq |- *. eexists. split; [apply lookup_insert_eq|].
        unfold queue. rewrite Hq. set_solver.
      * exists q. by rewrite lookup_insert_ne.
  - intros d q [[<- <-]|[_ Hq]]%lookup_insert_Some; [|by eapply Hn].
    apply NoDup_app. split_and!.
    + unfold queue. destruct (queues !! _) eqn:E; cbn; [by eapply Hn|constructor].
    + intros r' (q' & Hq' & Hr')%Hin ->%list_elem_of_singleton.
      destruct (Hs _ _ _ Hq' Hr'). congruence.
    + apply NoDup_singleton.
  - intros d q [[<- <-]|[_ Hq]]%lookup_insert_Some; [|by eapply Hb].
    rewrite vlen_app. unfold vlen at 2. cbn. lia.
Qed.

(** [entry(d).or_default()] *)
Lemma queues_touch ops queues d :
  queues_ok bound ops queues → queues_ok bound ops (<[d := default [] (queues !! d)]> queues).
Proof.
  intros [Hs Hc Hn Hb].
  assert (∀ d' q, <[d := default [] (queues !! d)]> queues !! d' = Some q →
            queues !! d' = Some q ∨ q = []) as Hold.
  { intros d' q [[<- <-]|[_ ?]]%lookup_insert_Some; [|by left].
    destruct (queues !! d); cbn; auto. }
  split.
  - intros d' q r [Hq| ->]%Hold Hr; [by eapply Hs|by apply elem_of_nil in Hr].
  - intros id o Ho Hst. destruct (Hc id o Ho Hst) as (? & q & Hq & Hin). split; [done|].
    exists q. split; [|done]. apply lookup_insert_Some.
    destruct (decide (d = operation_device o)) as [->|]; [left|by right].
    by rewrite Hq.
  - intros d' q [Hq| ->]%Hold; [by eapply Hn|constructor].
  - intros d' q [Hq| ->]%Hold; [by eapply Hb|]. unfold vlen. cbn. lia.
Qed.

(** Records that are not queued are dropped. *)
Lemma queues_drop ops ops' queues :
  queues_ok bound ops queues → ops' ⊆ ops →
  (∀ id o, ops !! id = Some o → o.(state) = Queued → ops' !! id = Some o) →
  queues_ok bound ops' queues.
Proof.
  intros [Hs Hc Hn Hb] Hsub Hkeep. split; [| |done|done].
  - intros d q r Hq Hin. destruct (Hs d q r Hq Hin). split; [done|]. by apply Hkeep.
  - intros id o Ho. apply Hc. by eapply lookup_weaken.
Qed.
End Queues.

(** ** Occupancy *)

Section Occupancy.
Context (capacity : N).
Implicit Types (ops : gmap string HubOperation) (active blocked : gmap string string)
  (retired recovery : gset string) (o : HubOperation) (d id : string).

(** The record of [id], if any, neither runs nor blocks. *)
Definition quiet ops retired id : Prop :=
  ∀ o, ops !! id = Some o →
    live o.(state) = false ∧ (o.(state) = Indeterminate → id ∈ retired).

Lemma quiet_not_holding ops retired id d : quiet ops retired id → ¬ holds_device ops d id.
Proof. intros Hq (o & Ho & _ & Hl). apply Hq in Ho as [? _]. congruence. Qed.

Lemma quiet_not_blocking ops retired id d :
  quiet ops retired id → ¬ (unknown_outcome ops d id ∧ (id ∉ retired)).
Proof. intros Hq [(o & Ho & _ & Hl) Hr]. apply Hq in Ho as [_ ?]. auto. Qed.

(** Quiet records change into quiet ones. *)
Lemma occ_quiet ops ops' active blocked retired recovery :
  occupancy_ok capacity ops active blocked retired recovery →
  (∀ id, ops' !! id = ops !! id ∨
     (quiet ops retired id ∧ quiet ops' retired id ∧
      ∀ o, ops' !! id = Some o → o.(state) = Queued → id ∉ retired)) →
  occupancy_ok capacity ops' active blocked retired recovery.
Proof.
  intros [Ha Hb Hcap Hr Hx Hf] Hch.
  assert (∀ d id, holds_device ops' d id ↔ holds_device ops d id) as Hh.
  { intros d id. destruct (Hch id) as [Heq|(H1 & H2 & _)].
    - unfold holds_device. by rewrite Heq.
    - split; intros H; exfalso; [by apply (quiet_not_holding _ _ _ _ H2) in H
      |by apply (quiet_not_holding _ _ _ _ H1) in H]. }
  split; [| |done| |done|].
  - intros d id. by rewrite Ha, Hh.
  - intros d id. rewrite Hb. destruct (Hch id) as [Heq|(H1 & H2 & _)].
    + unfold unknown_outcome. by rewrite Heq.
    + split; intros H; exfalso; [by apply (quiet_not_blocking _ _ _ _ H1) in H
      |by apply (quiet_not_blocking _ _ _ _ H2) in H].
  - intros id [d Hd]%Hr. exists d. by apply Hh.
  - intros id o Ho Hret Hst. destruct (Hch id) as [Heq|(_ & H2 & H3)].
    + rewrite Heq in Ho. eauto.
    + destruct Hst as [Hst|Hst]; [by destruct (H3 o Ho Hst)|].
      apply H2 in Ho as [? _]. congruence.
Qed.

Lemma occ_put_live ops active blocked retired recovery id o o' :
  occupancy_ok capacity ops active blocked retired recovery →
  ops !! id = Some o → live o.(state) = true → live o'.(state) = true →
  operation_device o' = operation_device o →
  occupancy_ok capacity (<[id := o']> ops) active blocked retired recovery.
Proof.
  intros [Ha Hb Hcap Hr Hx Hf] Ho Hlo Hlo' Hd.
  assert (∀ d id', holds_device (<[id := o']> ops) d id' ↔ holds_device ops d id') as Hh.
  { intros d id'. rewrite holds_device_insert. case_decide; [subst|done].
    rewrite (holds_device_at _ _ _ _ Ho). by rewrite Hlo, Hlo', Hd. }
  split; [| |done| |done|].
  - intros d id'. by rewrite Ha, Hh.
  - intros d id'. rewrite Hb, unknown_outcome_insert. case_decide; [subst|done].
    rewrite (unknown_outcome_at _ _ _ _ Ho).
    assert (o.(state) ≠ Indeterminate ∧ o'.(state) ≠ Indeterminate) as [??]
      by (split; intros Heq; rewrite Heq in *; discriminate). solve_facts.
  - intros id' [d Hd']%Hr. exists d. by apply Hh.
  - intros id' o'' [[<- <-]|[_ Ho']]%lookup_insert_Some Hret Hst; [|by eapply Hf].
    by eapply Hf; [| |right].
Qed.

Lemma occ_start ops active blocked retired recovery recovery' r :
  let d := r.(OperationRef.device_id) in
  let id := r.(OperationRef.operation_id) in
  occupancy_ok capacity ops active blocked retired recovery →
  quiet ops retired id → active !! d = None → (mlen active < capacity)%N →
  (recovery' = recovery ∧ blocked !! d = None ∧ (id ∉ retired)) ∨ recovery' = {[id]} ∪ recovery →
  occupancy_ok capacity (<[id := mk_operation r ActiveNotDispatched]> ops)
    (<[d := id]> active) blocked retired recovery'.
Proof.
  intros d id [Ha Hb Hcap Hr Hx Hf] Hquiet Hidle Hlt Hrec.
  assert (∀ id', id' ∈ recovery → id' ∈ recovery') as Hsub by (destruct Hrec; set_solver).
  split.
  - intros d' id'. rewrite holds_device_insert, lookup_insert_Some, Ha. cbn. fold d id.
    case_decide as Hid.
    + subst id'. assert (¬ holds_device ops d' id) by by eapply quiet_not_holding. solve_facts.
    + split; [solve_facts|]. intros Hh. right. split; [|done].
      intros <-. apply Ha in Hh. congruence.
  - intros d' id'. rewrite Hb, unknown_outcome_insert. case_decide as Hid; [|done].
    subst id'. pose proof (quiet_not_blocking _ _ _ d' Hquiet). solve_facts.
  - rewrite mlen_insert_new by done. lia.
  - intros id' Hin. destruct (decide (id' = id)) as [->|Hne].
    + exists d. rewrite holds_device_insert, decide_True by done. by split.
    + destruct (Hr id') as [d' Hd']; [destruct Hrec as [(-> & _)| ->]; set_solver|].
      exists d'. by rewrite holds_device_insert, decide_False.
  - intros d' id1 id2 Hbl [[<- <-]|[_ Hact]]%lookup_insert_Some; [|by eapply Hsub, Hx].
    destruct Hrec as [(_ & ? & _)| ->]; [congruence|set_solver].
  - intros id' o [[<- <-]|[_ Ho]]%lookup_insert_Some Hret Hst; [|by eapply Hsub, Hf].
    destruct Hrec as [(_ & _ & ?)| ->]; [done|set_solver].
Qed.

(** Only the record [id] of [d] occupied [d]; it settles. *)
Lemma occ_release ops active blocked retired recovery id o o' :
  occupancy_ok capacity ops active blocked retired recovery →
  ops !! id = Some o → live o.(state) = true → settled o'.(state) = true →
  occupancy_ok capacity (<[id := o']> ops) (delete (operation_device o) active) blocked
    retired (recovery ∖ {[id]}).
Proof.
  intros [Ha Hb Hcap Hr Hx Hf] Ho Hlo Hs.
  assert (live o'.(state) = false ∧ o'.(state) ≠ Indeterminate ∧ o'.(state) ≠ Queued ∧
          o.(state) ≠ Indeterminate) as (Hl' & Hi' & Hq' & Hi)
    by (clear -Hlo Hs; destruct (state o), (state o'); naive_solver).
  assert (active !! operation_device o = Some id) as Hact
    by (apply Ha; by apply (holds_device_at _ _ _ _ Ho)).
  split.
  - intros d id'. rewrite lookup_delete_Some, holds_device_insert, Ha. case_decide as Hid.
    + subst id'. rewrite (holds_device_at _ _ _ _ Ho). solve_facts.
    + split; [solve_facts|]. intros Hh. split; [|done]. intros <-. apply Ha in Hh. congruence.
  - intros d id'. rewrite Hb, unknown_outcome_insert. case_decide as Hid; [|done].
    subst id'. rewrite (unknown_outcome_at _ _ _ _ Ho). solve_facts.
  - etrans; [apply mlen_delete_le|done].
  - intros id' [Hin Hne]%elem_of_difference. rewrite not_elem_of_singleton in Hne.
    destruct (Hr id' Hin) as [d Hd]. exists d. by rewrite holds_device_insert, decide_False.
  - intros d id1 id2 Hbl [Hne Hact']%lookup_delete_Some. apply elem_of_difference.
    split; [by eapply Hx|]. apply not_elem_of_singleton. intros ->.
    apply Ha, (holds_device_at _ _ _ _ Ho) in Hact' as [? _]. done.
  - intros id' o'' [[<- <-]|[Hne Ho'']]%lookup_insert_Some Hret Hst; [destruct Hst; congruence|].
    apply elem_of_difference. split; [by eapply Hf|]. by apply not_elem_of_singleton.
Qed.

(** The record [id] of [d] occupied [d]; its outcome becomes unknown. *)
Lemma occ_block ops active blocked retired recovery id o o' :
  occupancy_ok capacity ops active blocked retired recovery →
  ops !! id = Some o → live o.(state) = true → (id ∉ recovery) →
  o'.(state) = Indeterminate → operation_device o' = operation_device o →
  occupancy_ok capacity (<[id := o']> ops) (delete (operation_device o) active)
    (<[operation_device o := id]> blocked) retired recovery.
Proof.
  intros [Ha Hb Hcap Hr Hx Hf] Ho Hlo Hrec Hs Hd.
  assert (live o'.(state) = false ∧ o.(state) ≠ Indeterminate) as [Hl' Hi]
    by (rewrite Hs; split; [done|]; intros Heq; by rewrite Heq in Hlo).
  assert (active !! operation_device o = Some id) as Hact
    by (apply Ha; by apply (holds_device_at _ _ _ _ Ho)).
  assert (id ∉ retired) as Hret by (intros Hret; apply Hrec; by eapply Hf; [| |right]).
  assert (blocked !! operation_device o = None) as Hnb.
  { apply eq_None_not_Some. intros [b Hbl]. by apply Hrec, (Hx _ _ _ Hbl Hact). }
  split.
  - intros d id'. rewrite lookup_delete_Some, holds_device_insert, Ha. case_decide as Hid.
    + subst id'. rewrite (holds_device_at _ _ _ _ Ho). solve_facts.
    + split; [solve_facts|]. intros Hh. split; [|done]. intros <-. apply Ha in Hh. congruence.
  - intros d id'. rewrite lookup_insert_Some, unknown_outcome_insert, Hb. case_decide as Hid.
    + subst id'. rewrite (unknown_outcome_at _ _ _ _ Ho), Hs, Hd. solve_facts.
    + split; [solve_facts|]. intros Hu. right. split; [|done].
      intros <-. apply Hb in Hu. congruence.
  - etrans; [apply mlen_delete_le|done].
  - intros id' Hin. destruct (Hr id' Hin) as [d' Hd']. exists d'.
    rewrite holds_device_insert, decide_False; [done|]. by intros ->.
  - intros d id1 id2 [[<- <-]|[_ Hbl]]%lookup_insert_Some [? Hact']%lookup_delete_Some; [done|].
    by eapply Hx.
  - intros id' o'' [[<- <-]|[Hne Ho'']]%lookup_insert_Some Hret' Hst; [done|by eapply Hf].
Qed.

(** The record [id] of [d] blocked [d]; its outcome is settled. *)
Lemma occ_unblock ops active blocked retired recovery id o o' :
  occupancy_ok capacity ops active blocked retired recovery →
  ops !! id = Some o → blocked !! operation_device o = Some id → settled o'.(state) = true →
  occupancy_ok capacity (<[id := o']> ops) active (delete (operation_device o) blocked)
    retired recovery.
Proof.
  intros [Ha Hb Hcap Hr Hx Hf] Ho Hbl Hs.
  pose proof (proj1 (Hb _ _) Hbl) as [Hu Hnr].
  apply (unknown_outcome_at _ _ _ _ Ho) in Hu as [_ Hi].
  assert (live o'.(state) = false ∧ o'.(state) ≠ Indeterminate ∧ o'.(state) ≠ Queued)
    as (Hl' & Hi' & Hq') by (clear -Hs; destruct (state o'); naive_solver).
  assert (∀ d id', holds_device (<[id := o']> ops) d id' ↔ holds_device ops d id') as Hh.
  { intros d id'. rewrite holds_device_insert. case_decide; [subst|done].
    rewrite (holds_device_at _ _ _ _ Ho), Hi, Hl'. solve_facts. }
  split; [| |done| | |].
  - intros d id'. by rewrite Ha, Hh.
  - intros d id'. rewrite lookup_delete_Some, unknown_outcome_insert, Hb. case_decide as Hid.
    + subst id'. rewrite (unknown_outcome_at _ _ _ _ Ho). solve_facts.
    + split; [solve_facts|]. intros Hu. split; [|done]. intros <-. apply Hb in Hu. congruence.
  - intros id' [d Hd]%Hr. exists d. by apply Hh.
  - intros d id1 id2 [_ ?]%lookup_delete_Some. by eapply Hx.
  - intros id' o'' [[<- <-]|[_ Ho'']]%lookup_insert_Some Hret Hst; [by destruct Hnr|by eapply Hf].
Qed.

(** The record [id] of [d] blocked [d]; it is retired with its outcome unknown. *)
Lemma occ_retire ops active blocked retired recovery id o :
  occupancy_ok capacity ops active blocked retired recovery →
  ops !! id = Some o → blocked !! operation_device o = Some id →
  occupancy_ok capacity ops active (delete (operation_device o) blocked)
    ({[id]} ∪ retired) recovery.
Proof.
  intros [Ha Hb Hcap Hr Hx Hf] Ho Hbl.
  pose proof (proj1 (Hb _ _) Hbl) as [Hu _].
  apply (unknown_outcome_at _ _ _ _ Ho) in Hu as [_ Hi].
  split; [done| |done|done| |].
  - intros d id'. rewrite lookup_delete_Some, Hb, not_elem_of_union, not_elem_of_singleton.
    split.
    + intros (Hne & Hu & Hnr). split_and!; [done| |done]. intros ->.
      apply (unknown_outcome_at _ _ _ _ Ho) in Hu as [? _]. done.
    + intros (Hu & Hne & Hnr). split_and!; [|done|done]. intros <-.
      rewrite (proj2 (Hb _ _) (conj Hu Hnr)) in Hbl. congruence.
  - intros d id1 id2 [_ ?]%lookup_delete_Some. by eapply Hx.
  - intros id' o' Ho' [->%elem_of_singleton|Hret]%elem_of_union Hst; [|by eapply Hf].
    rewrite Ho in Ho'. simplify_eq. rewrite Hi in Hst. by destruct Hst.
Qed.
End Occupancy.

(** ** Starting the next queued operation *)

Section Fill.
Context `{HI : HashIter}.
Implicit Types (c : HubAdmissionController) (qs : gmap string (list OperationRef)).

(** The queues without some of the empty ones. *)
Definition trimmed qs qs' : Prop :=
  (∀ d q, qs' !! d = Some q → qs !! d = Some q) ∧
  (∀ d q, qs !! d = Some q → q ≠ [] → qs' !! d = Some q).

(** What [start_next_for_available_capacity] does: nothing when the capacity is
    used up; otherwise it starts the head of a queue whose device is free, and
    nothing only if there is no such queue. *)
Inductive filled c : HubAdmissionController * option OperationRef → Prop :=
| filled_full :
    (c.(limits).(max_global_active) ≤ mlen c.(active_by_device))%N → filled c (c, None)
| filled_none qs :
    trimmed c.(queued_by_device) qs →
    (∀ d q, c.(queued_by_device) !! d = Some q → q ≠ [] → is_free c d = false) →
    filled c (set_queued c qs, None)
| filled_start qs d r q :
    trimmed c.(queued_by_device) qs →
    (mlen c.(active_by_device) < c.(limits).(max_global_active))%N →
    is_free c d = true → qs !! d = Some (r :: q) →
    filled c (start (set_queued c (put_queue d q qs)) r, Some r).

Lemma trimmed_refl qs : trimmed qs qs.
Proof. by split. Qed.

Lemma trimmed_delete qs qs' d : trimmed qs qs' → qs' !! d = Some [] → trimmed qs (delete d qs').
Proof.
  intros [H1 H2] Hd. split.
  - intros d' q [_ ?]%lookup_delete_Some. by apply H1.
  - intros d' q Hq Hne. apply lookup_delete_Some. split; [|by apply H2].
    intros <-. rewrite (H2 _ _ Hq Hne) in Hd. congruence.
Qed.

Lemma pop_queued_spec c qs d :
  pop_queued (set_queued c qs) d =
    match qs !! d with
    | Some (r :: q) => (set_queued c (put_queue d q qs), Some r)
    | Some [] => (set_queued c (delete d qs), None)
    | None => (set_queued c qs, None)
    end.
Proof. unfold pop_queued. cbn. by destruct (qs !! d) as [[|r [|r' q]]|]. Qed.

Lemma start_first_filled c qs candidates :
  trimmed c.(queued_by_device) qs →
  (mlen c.(active_by_device) < c.(limits).(max_global_active))%N →
  (∀ d q, c.(queued_by_device) !! d = Some q → q ≠ [] → is_free c d = true → d ∈ candidates) →
  filled c (start_first (set_queued c qs) candidates).
Proof.
  revert qs. induction candidates as [|d candidates IH]; intros qs Htrim Hcap Hcover; cbn.
  - apply filled_none; [done|]. intros d q Hq Hne. apply not_true_is_false. intros Hfree.
    by apply (Hcover d q Hq Hne), elem_of_nil in Hfree.
  - change (is_free (set_queued c qs) d) with (is_free c d).
    assert (∀ qs', trimmed c.(queued_by_device) qs' →
              (is_free c d = true → ∀ q, c.(queued_by_device) !! d = Some q → q = []) →
              filled c (start_first (set_queued c qs') candidates)) as Hskip.
    { intros qs' Htrim' Hno. apply IH; [done..|]. intros d' q Hq Hne Hfree.
      pose proof (Hcover d' q Hq Hne Hfree) as [->|?]%elem_of_cons; [|done].
      by apply (Hno Hfree) in Hq. }
    destruct (is_free c d) eqn:Hfree; [|by apply Hskip].
    rewrite pop_queued_spec. destruct (qs !! d) as [[|r q]|] eqn:Hd.
    + apply Hskip; [by apply trimmed_delete|]. intros _ q Hq.
      apply Htrim in Hd. congruence.
    + by apply filled_start.
    + apply Hskip; [done|]. intros _ q Hq. destruct q as [|r q]; [done|].
      apply Htrim in Hq; [congruence|done].
Qed.

Lemma start_next_filled c preferred :
  filled c (start_next_for_available_capacity c preferred).
Proof.
  unfold start_next_for_available_capacity.
  destruct (N.leb_spec c.(limits).(max_global_active) (mlen c.(active_by_device))) as [|Hcap];
    [by apply filled_full|].
  assert (∀ qs, trimmed c.(queued_by_device) qs →
            filled c (start_first (set_queued c qs) (hash_iter qs).*1)) as Hloop.
  { intros qs Htrim. apply start_first_filled; [done..|]. intros d q Hq Hne _.
    apply Htrim in Hq; [|done]. apply list_elem_of_fmap. exists (d, q). split; [done|].
    by apply elem_of_hash_iter. }
  assert (c = set_queued c c.(queued_by_device)) as Hself by by destruct c.
  destruct preferred as [d|].
  2: { rewrite Hself at 2. apply Hloop, trimmed_refl. }
  destruct (is_free c d) eqn:Hfree.
  2: { rewrite Hself at 2. apply Hloop, trimmed_refl. }
  rewrite Hself at 2. rewrite pop_queued_spec.
  destruct (c.(queued_by_device) !! d) as [[|r q]|] eqn:Hd.
  - apply Hloop, trimmed_delete; [apply trimmed_refl|done].
  - apply filled_start; [apply trimmed_refl|done..].
  - apply Hloop, trimmed_refl.
Qed.
End Fill.

(** ** Every call preserves the invariant *)

Section Preservation.
Context `{HI : HashIter}.
Implicit Types (c : HubAdmissionController) (id d : string) (r : OperationRef).

Lemma inv_empty l : (0 < l.(max_global_active))%N → inv (empty_admission l).
Proof.
  intros Hl. split; cbn; [done| | |done|unfold setlen; by rewrite size_empty].
  - by split.
  - split; [| | |set_solver|done|done].
    + intros d id. rewrite lookup_empty. split; [done|]. by intros (o & ? & _).
    + intros d id. rewrite lookup_empty. split; [done|]. by intros [(o & ? & _) _].
    + unfold mlen. rewrite map_size_empty. lia.
Qed.

Lemma is_free_true c d :
  is_free c d = true ↔ c.(active_by_device) !! d = None ∧ c.(blocked_by_indeterminate) !! d = None.
Proof.
  unfold is_free. rewrite andb_true_iff, !negb_true_iff, !bool_decide_eq_false.
  by rewrite <-!eq_None_not_Some.
Qed.

Lemma queued_not_retired c id o :
  inv c → c.(operations) !! id = Some o → o.(state) = Queued → id ∉ c.(retired_indeterminate).
Proof.
  intros Hinv Ho Hst Hret. pose proof (inv_occupancy _ Hinv) as Hocc.
  destruct (occ_recovery _ _ _ _ _ _ Hocc id) as [d Hd]; [by eapply occ_fresh; [| | |left]|].
  apply (holds_device_at _ _ _ _ Ho) in Hd as [_ Hl]. by rewrite Hst in Hl.
Qed.

Lemma key_insert c id o :
  inv c → o.(operation).(OperationRef.operation_id) = id →
  ∀ id' o', <[id := o]> c.(operations) !! id' = Some o' →
    o'.(operation).(OperationRef.operation_id) = id'.
Proof.
  intros Hinv Hkey id' o' [[<- <-]|[_ Ho]]%lookup_insert_Some; [done|by apply (inv_key _ Hinv)].
Qed.

Lemma queues_trimmed bound ops qs qs' :
  queues_ok bound ops qs → trimmed qs qs' → queues_ok bound ops qs'.
Proof.
  intros [Hs Hc Hn Hb] [H1 H2]. split.
  - intros d q r Hq. by apply Hs, H1.
  - intros id o Ho Hst. destruct (Hc id o Ho Hst) as (? & q & Hq & Hin). split; [done|].
    exists q. split; [|done]. apply H2; [done|]. by intros ->; apply elem_of_nil in Hin.
  - intros d q Hq. by eapply Hn, H1.
  - intros d q Hq. by eapply Hb, H1.
Qed.

Lemma filled_inv c res : filled c res → inv c → inv res.1.
Proof.
  intros Hfill Hinv. destruct Hfill as [|qs Htrim _|qs d r q Htrim Hcap Hfree Hd]; [done| |].
  - destruct Hinv as [Hk Hq Ho Hp Hr]. split; cbn; try done. by eapply queues_trimmed.
  - apply is_free_true in Hfree as [Hact Hbl].
    pose proof (queues_trimmed _ _ _ _ (inv_queues _ Hinv) Htrim) as Hqs.
    destruct (queue_sound _ _ _ Hqs d (r :: q) r Hd) as [Hdev Hrec]; [left|]. subst d.
    pose proof (queued_not_retired _ _ _ Hinv Hrec eq_refl) as Hnr.
    split; cbn.
    + by apply (key_insert c).
    + by eapply queues_leave.
    + eapply occ_start; [apply (inv_occupancy _ Hinv)| |done|done|by left].
      intros o Ho. rewrite Hrec in Ho. by simplify_eq.
    + apply (inv_positive _ Hinv).
    + apply (inv_retired _ Hinv).
Qed.

Lemma start_next_inv c d : inv c → inv (start_next c d).1.
Proof.
  intros Hinv. unfold start_next.
  pose proof (filled_inv c _ (start_next_filled c (Some d)) Hinv) as H.
  by destruct (start_next_for_available_capacity c (Some d)).
Qed.

(** The outcomes of [admit_operation]. *)
Inductive admitted c r : HubAdmissionController * result ExecutionError AdmissionDecision → Prop :=
| admitted_refused e : admitted c r (c, Err e)
| admitted_backpressure :
    admitted c r (set_queued c (<[r.(OperationRef.device_id) :=
      default [] (c.(queued_by_device) !! r.(OperationRef.device_id))]> c.(queued_by_device)),
      Err ExecutionError.BackpressureRejected)
| admitted_started :
    c.(operations) !! r.(OperationRef.operation_id) = None →
    (r.(OperationRef.operation_id) ∉ c.(retired_indeterminate)) →
    c.(blocked_by_indeterminate) !! r.(OperationRef.device_id) = None →
    c.(active_by_device) !! r.(OperationRef.device_id) = None →
    (mlen c.(active_by_device) < c.(limits).(max_global_active))%N →
    admitted c r (start c r, Ok (AdmissionDecision.StartNow r))
| admitted_queued q :
    q = default [] (c.(queued_by_device) !! r.(OperationRef.device_id)) →
    c.(operations) !! r.(OperationRef.operation_id) = None →
    (r.(OperationRef.operation_id) ∉ c.(retired_indeterminate)) →
    c.(blocked_by_indeterminate) !! r.(OperationRef.device_id) = None →
    (vlen q < c.(limits).(max_queued_per_device))%N →
    admitted c r
      (set_operations (set_queued c (<[r.(OperationRef.device_id) := q ++ [r]]>
         c.(queued_by_device)))
         (<[r.(OperationRef.operation_id) := mk_operation r Queued]> c.(operations)),
       Ok (AdmissionDecision.Queued (vlen (q ++ [r])))).

Lemma admit_admitted c r : admitted c r (admit_operation c r).
Proof.
  unfold admit_operation. destruct (blank_operation r); [constructor|].
  destruct (bool_decide_reflect (is_Some (c.(operations) !! r.(OperationRef.operation_id))))
    as [|Hop]; [constructor|].
  destruct (bool_decide_reflect (r.(OperationRef.operation_id) ∈ c.(retired_indeterminate)));
    [constructor|]. cbn.
  destruct (c.(blocked_by_indeterminate) !! _) as [b|] eqn:Hb; [constructor|].
  destruct (bool_decide_reflect (is_Some (c.(active_by_device) !! r.(OperationRef.device_id))))
    as [|Hact]; destruct (N.leb_spec c.(limits).(max_global_active) (mlen c.(active_by_device)));
    cbn; try (apply admitted_started; first [done|by apply eq_None_not_Some]);
    (destruct (N.leb_spec c.(limits).(max_queued_per_device)
       (vlen (default [] (c.(queued_by_device) !! r.(OperationRef.device_id)))));
     [apply admitted_backpressure|apply admitted_queued; first [done|by apply eq_None_not_Some]]).
Qed.

Lemma admit_inv c r : inv c → inv (admit_operation c r).1.
Proof.
  intros Hinv. destruct (admit_admitted c r) as [e| |Hop Hnr Hb Ha Hcap|q -> Hop Hnr Hb Hlen];
    [done|..]; destruct Hinv as [Hk Hq Ho Hp Hr] eqn:E; split; cbn; try done.
  - by apply queues_touch.
  - by apply (key_insert c).
  - apply queues_put; [done| |done]. by rewrite Hop.
  - eapply occ_start; [done| |done|done|by left]. intros o. by rewrite Hop.
  - by apply (key_insert c).
  - by apply queues_enqueue.
  - eapply occ_quiet; [done|]. intros id.
    destruct (decide (id = r.(OperationRef.operation_id))) as [->|Hne];
      [right|left; by rewrite lookup_insert_ne].
    split_and!; [intros o; by rewrite Hop|intros o; rewrite lookup_insert_eq; by intros [= <-]|done].
Qed.

Lemma admit_recovery_inv c r : inv c → inv (admit_recovery_read_only c r).1.
Proof.
  intros Hinv. unfold admit_recovery_read_only.
  destruct (blank_operation r); [done|].
  destruct (bool_decide_reflect (is_Some (c.(operations) !! r.(OperationRef.operation_id))))
    as [|Hop%eq_None_not_Some]; [done|].
  destruct (bool_decide_reflect (is_Some (c.(blocked_by_indeterminate) !! r.(OperationRef.device_id))));
    [|done].
  destruct (bool_decide_reflect (is_Some (c.(active_by_device) !! r.(OperationRef.device_id))))
    as [|Hact%eq_None_not_Some]; [done|]. cbn.
  destruct (N.leb_spec c.(limits).(max_global_active) (mlen c.(active_by_device))); [done|].
  destruct Hinv as [Hk Hq Ho Hp Hr] eqn:E. split; cbn; try done.
  - by apply (key_insert c).
  - apply queues_put; [done| |done]. by rewrite Hop.
  - eapply occ_start; [done| |done|done|by right]. intros o. by rewrite Hop.
Qed.

Lemma put_state_live_inv c id o s :
  inv c → c.(operations) !! id = Some o → live o.(state) = true → live s = true →
  inv (put_state c id o s).
Proof.
  intros Hinv Ho Hlo Hls. pose proof (inv_key _ Hinv id o Ho) as Hkey.
  split; cbn; try apply Hinv.
  - by apply (key_insert c).
  - apply queues_put; [apply Hinv|..].
    + rewrite Ho. intros o' [= <-] Hq. by rewrite Hq in Hlo.
    + intros Hq. cbn in Hq. by rewrite Hq in Hls.
  - eapply occ_put_live; [apply Hinv|done..].
Qed.

Lemma release_device_inv c id o s :
  inv c → c.(operations) !! id = Some o → live o.(state) = true → settled s = true →
  inv (release_device (put_state c id o s) (operation_device o) id).
Proof.
  intros Hinv Ho Hlo Hs. pose proof (inv_key _ Hinv id o Ho) as Hkey.
  split; cbn; try apply Hinv.
  - by apply (key_insert c).
  - apply queues_put; [apply Hinv|..].
    + rewrite Ho. intros o' [= <-] Hq. by rewrite Hq in Hlo.
    + intros Hq. cbn in Hq. by rewrite Hq in Hs.
  - eapply (occ_release _ _ _ _ _ _ id o); [apply Hinv|done..].
Qed.

Lemma unblock_inv c id o s :
  inv c → c.(operations) !! id = Some o →
  c.(blocked_by_indeterminate) !! operation_device o = Some id → settled s = true →
  inv (unblock (put_state c id o s) (operation_device o)).
Proof.
  intros Hinv Ho Hbl Hs. pose proof (inv_key _ Hinv id o Ho) as Hkey.
  pose proof (proj1 (occ_blocked _ _ _ _ _ _ (inv_occupancy _ Hinv) _ _) Hbl) as [Hu _].
  apply (unknown_outcome_at _ _ _ _ Ho) in Hu as [_ Hi].
  split; cbn; try apply Hinv.
  - by apply (key_insert c).
  - apply queues_put; [apply Hinv|..].
    + rewrite Ho. intros o' [= <-] Hq. by rewrite Hq in Hi.
    + intros Hq. cbn in Hq. by rewrite Hq in Hs.
  - eapply (occ_unblock _ _ _ _ _ _ id o); [apply Hinv|done..].
Qed.

Lemma setlen_add (X : gset string) id : (setlen ({[id]} ∪ X) ≤ setlen X + 1)%N.
Proof.
  unfold setlen. rewrite size_union_alt, size_singleton.
  pose proof (subseteq_size (X ∖ {[id]}) X ltac:(set_solver)). lia.
Qed.

Lemma retirable_Ok c id d :
  retirable c id = Ok d →
  ∃ o, c.(operations) !! id = Some o ∧ operation_device o = d ∧ o.(state) = Indeterminate ∧
       (id ∉ c.(retired_indeterminate)) ∧
       (setlen c.(retired_indeterminate) < MAX_RETIRED_OPERATION_TOMBSTONES)%N ∧
       c.(blocked_by_indeterminate) !! d = Some id.
Proof.
  unfold retirable, not_blocked_by. intros H. run H. eauto 10.
Qed.

Lemma retire_inv c id d : inv c → retirable c id = Ok d → inv (retire c d id).
Proof.
  intros Hinv (o & Ho & <- & Hi & Hnr & Hlt & Hbl)%retirable_Ok.
  split; cbn; try apply Hinv.
  - eapply occ_retire; [apply Hinv|done..].
  - pose proof (setlen_add c.(retired_indeterminate) id). lia.
Qed.

(** ** Cancelling queued work *)

Definition cancelled (o : HubOperation) : HubOperation := mk_operation o.(operation) Cancelled.

Lemma cancel_each_lookup (q : list OperationRef) (ops : gmap string HubOperation) id :
  cancel_each q ops !! id =
    if decide (id ∈ OperationRef.operation_id <$> q) then cancelled <$> ops !! id else ops !! id.
Proof.
  revert ops. induction q as [|r q IH]; intros ops; [done|].
  unfold cancel_each in *. cbn [foldl]. rewrite IH. clear IH.
  destruct (decide (id = r.(OperationRef.operation_id))) as [->|Hne].
  - rewrite lookup_alter_eq, (decide_True (P := _ ∈ _ <$> r :: q)) by set_solver.
    case_decide; [|done]. by destruct (ops !! _).
  - rewrite lookup_alter_ne by done. repeat case_decide; set_solver.
Qed.

Lemma queues_cancel_all bound ops queues d :
  let q := default [] (queues !! d) in
  queues_ok bound ops queues → queues_ok bound (cancel_each q ops) (delete d queues).
Proof.
  intros q [Hs Hc Hn Hb].
  assert (∀ d' q' r, d' ≠ d → queues !! d' = Some q' → r ∈ q' →
            r.(OperationRef.operation_id) ∉ OperationRef.operation_id <$> q) as Hother.
  { intros d' q' r Hne Hq' Hr (r' & Heq & Hr')%list_elem_of_fmap.
    unfold q in Hr'. destruct (queues !! d) as [p|] eqn:Hp; cbn in Hr'; [|by apply elem_of_nil in Hr'].
    destruct (Hs _ _ _ Hq' Hr) as [Hd1 Hrec], (Hs _ _ _ Hp Hr') as [Hd2 Hrec'].
    rewrite Heq, Hrec' in Hrec. congruence. }
  split.
  - intros d' q' r [Hne Hq']%lookup_delete_Some Hr. destruct (Hs _ _ _ Hq' Hr). split; [done|].
    rewrite cancel_each_lookup, decide_False; [done|]. by eapply Hother.
  - intros id o. rewrite cancel_each_lookup. case_decide as Hin.
    { intros Ho Hst. destruct (ops !! id); simplify_eq/=. }
    intros Ho Hst. destruct (Hc id o Ho Hst) as (Hkey & q' & Hq' & Hr). split; [done|].
    exists q'. split; [|done]. apply lookup_delete_Some. split; [|done]. intros Hd.
    apply Hin. rewrite <-Hkey. apply list_elem_of_fmap_2. unfold q. by rewrite Hd, Hq'.
  - intros d' q' [_ Hq']%lookup_delete_Some. by eapply Hn.
  - intros d' q' [_ Hq']%lookup_delete_Some. by eapply Hb.
Qed.

Lemma occ_cancel_each capacity ops active blocked retired recovery q :
  occupancy_ok capacity ops active blocked retired recovery →
  (∀ r, r ∈ q → ops !! r.(OperationRef.operation_id) = Some (mk_operation r Queued)) →
  occupancy_ok capacity (cancel_each q ops) active blocked retired recovery.
Proof.
  intros Hocc Hq. eapply occ_quiet; [done|]. intros id. rewrite cancel_each_lookup.
  case_decide as Hin; [right|by left].
  apply list_elem_of_fmap in Hin as (r & -> & Hr). apply Hq in Hr as Ho.
  split_and!.
  - intros o. rewrite Ho. by intros [= <-].
  - intros o. rewrite cancel_each_lookup, decide_True, Ho by by apply list_elem_of_fmap_2.
    by intros [= <-].
  - intros o. rewrite Ho. by intros [= <-].
Qed.

Lemma retire_and_cancel_queued_inv c id :
  inv c → inv (retire_indeterminate_and_cancel_queued c id).1.
Proof.
  intros Hinv. unfold retire_indeterminate_and_cancel_queued.
  destruct (retirable c id) as [d|e] eqn:Hd; [|done].
  destruct (existsb _ _); [done|]. apply retire_inv in Hd; [|done]. cbn.
  destruct Hd as [Hk Hq Ho Hp Hr]. split; cbn in *; try done.
  - intros id' o. rewrite cancel_each_lookup. case_decide; [|apply Hk].
    destruct (c.(operations) !! id') as [o'|] eqn:Ho'; [|done]. intros [= <-]. cbn. by apply (Hk id' o').
  - by apply queues_cancel_all.
  - apply occ_cancel_each; [done|]. intros r Hr'.
    destruct (c.(queued_by_device) !! d) as [q|] eqn:Hq'; [|by apply elem_of_nil in Hr'].
    by apply (queue_sound _ _ _ Hq d q r Hq').
Qed.

Lemma remove_queued_perm q r :
  NoDup (OperationRef.operation_id <$> q) → r ∈ q →
  q ≡ₚ r :: remove_queued r.(OperationRef.operation_id) q.
Proof.
  induction q as [|r' q IH]; intros Hnd Hin; [by apply elem_of_nil in Hin|].
  rewrite fmap_cons in Hnd. apply NoDup_cons in Hnd as [Hn Hnd]. cbn.
  case_bool_decide as Heq.
  - apply elem_of_cons in Hin as [->|Hin]; [done|].
    destruct Hn. rewrite Heq. by apply list_elem_of_fmap_2.
  - apply elem_of_cons in Hin as [->|Hin]; [done|].
    rewrite (IH Hnd Hin) at 1. apply perm_swap.
Qed.

Lemma queue_ids_nodup bound ops queues d q :
  queues_ok bound ops queues → queues !! d = Some q → NoDup (OperationRef.operation_id <$> q).
Proof.
  intros Hok Hq. apply NoDup_fmap_2_strong; [|by eapply queue_nodup].
  intros r r' Hr Hr' Heq.
  destruct (queue_sound _ _ _ Hok _ _ _ Hq Hr) as [_ H1].
  destruct (queue_sound _ _ _ Hok _ _ _ Hq Hr') as [_ H2].
  rewrite Heq, H2 in H1. congruence.
Qed.

Lemma unqueue_spec c id o :
  inv c → c.(operations) !! id = Some o → o.(state) = Queued →
  ∃ q, c.(queued_by_device) !! operation_device o = Some q ∧
    q ≡ₚ o.(operation) :: remove_queued id q ∧
    unqueue c (operation_device o) id =
      set_queued c (put_queue (operation_device o) (remove_queued id q) c.(queued_by_device)).
Proof.
  intros Hinv Ho Hst.
  destruct (queue_complete _ _ _ (inv_queues _ Hinv) id o Ho Hst) as (Hkey & q & Hq & Hin).
  exists q. split_and!; [done| |].
  - rewrite <-Hkey. apply remove_queued_perm; [|done].
    eapply queue_ids_nodup; [apply Hinv|done].
  - unfold unqueue. rewrite Hq. by destruct (remove_queued id q).
Qed.

Lemma cancel_queued_inv c id o :
  inv c → c.(operations) !! id = Some o → o.(state) = Queued →
  inv (put_state (unqueue c (operation_device o) id) id o Cancelled).
Proof.
  intros Hinv Ho Hst. pose proof (inv_key _ Hinv id o Ho) as Hkey.
  destruct (unqueue_spec c id o Hinv Ho Hst) as (q & Hq & Hperm & ->).
  split; cbn; try apply Hinv.
  - by apply (key_insert c).
  - rewrite <-Hkey at 1. eapply queues_leave; [apply Hinv|done| |done]. done.
  - eapply occ_quiet; [apply Hinv|]. intros id'.
    destruct (decide (id' = id)) as [->|Hne]; [right|left; by rewrite lookup_insert_ne].
    rewrite lookup_insert_eq.
    split_and!; intros o' Ho'; rewrite ?lookup_insert_eq in Ho'; simplify_eq/=; [|done|done].
    by rewrite Hst.
Qed.

(** ** Dropping records *)

Lemma drop_inv c ops recovery :
  inv c → ops ⊆ c.(operations) →
  (∀ id o, c.(operations) !! id = Some o → ops !! id = None →
     o.(state) ≠ Queued ∧ live o.(state) = false ∧
     (o.(state) = Indeterminate → id ∈ c.(retired_indeterminate))) →
  (∀ id, id ∈ recovery ↔ id ∈ c.(recovery_read_only_operations)) →
  inv (set_recovery (set_operations c ops) recovery).
Proof.
  intros Hinv Hsub Hdrop Hrec.
  assert (∀ id o, ops !! id = Some o → c.(operations) !! id = Some o) as Hold
    by (intros; by eapply lookup_weaken).
  assert (recovery = c.(recovery_read_only_operations)) as -> by (apply set_eq, Hrec).
  split; cbn; try apply Hinv.
  - intros id o Ho. by apply (inv_key _ Hinv), Hold.
  - eapply queues_drop; [apply Hinv|done|]. intros id o Ho Hst.
    destruct (ops !! id) as [o'|] eqn:E; [apply Hold in E; congruence|].
    by destruct (Hdrop id o Ho E).
  - eapply occ_quiet; [apply Hinv|]. intros id.
    destruct (ops !! id) as [o'|] eqn:E; [left; by rewrite (Hold _ _ E)|].
    destruct (c.(operations) !! id) as [o|] eqn:Ho; [right|by left].
    destruct (Hdrop id o Ho E) as (H1 & H2 & H3).
    split_and!; intros o' Ho'; simplify_eq; done.
Qed.

Lemma recovery_live c id o :
  inv c → id ∈ c.(recovery_read_only_operations) → c.(operations) !! id = Some o →
  live o.(state) = true.
Proof.
  intros Hinv Hrec Ho. destruct (occ_recovery _ _ _ _ _ _ (inv_occupancy _ Hinv) id Hrec) as [d Hd].
  by apply (holds_device_at _ _ _ _ Ho) in Hd as [_ ?].
Qed.

Lemma compact_inv c id : inv c → inv (compact_retired_indeterminate_detail c id).1.
Proof.
  intros Hinv. unfold compact_retired_indeterminate_detail.
  destruct (bool_decide_reflect (id ∈ c.(retired_indeterminate))) as [Hret|]; [|done]. cbn.
  destruct (c.(operations) !! id) as [o|] eqn:Ho; [|done].
  destruct (bool_decide_reflect (o.(state) = Indeterminate)) as [Hi|]; [|done]. cbn.
  destruct (existsb _ _); [done|]. apply drop_inv; [done|apply delete_subseteq|..].
  - intros id' o' Ho' [->|Hn]%lookup_delete_None; [|congruence]. simplify_eq. by rewrite Hi.
  - intros id'. rewrite elem_of_difference, not_elem_of_singleton.
    split; [by intros [? _]|]. intros Hrec. split; [done|]. intros ->.
    pose proof (recovery_live c id o Hinv Hrec Ho) as Hl. by rewrite Hi in Hl.
Qed.

Lemma prune_inv c d g : inv c → inv (prune_terminal_before_generation c d g).1.
Proof.
  intros Hinv. unfold prune_terminal_before_generation. destruct (_ || _); [done|]. cbn.
  set (remove := filter _ _).
  assert (∀ id o, remove !! id = Some o → c.(operations) !! id = Some o ∧ settled o.(state) = true)
    as Hrem.
  { intros id o [Ho Hp]%map_lookup_filter_Some. split; [done|]. unfold prunable in Hp. cbn in Hp.
    by split_bools. }
  apply drop_inv; [done| |..].
  - apply map_subseteq_spec. by intros id o [? _]%lookup_difference_Some.
  - intros id o Ho [Hn|[o' Ho']]%lookup_difference_None; [congruence|].
    apply Hrem in Ho' as [Ho'' Hs]. simplify_eq. clear -Hs; destruct (state o); naive_solver.
  - intros id. rewrite elem_of_difference, not_elem_of_dom.
    split; [by intros [? _]|]. intros Hrec. split; [done|].
    destruct (remove !! id) as [o|] eqn:E; [|done]. apply Hrem in E as [Ho Hs].
    pose proof (recovery_live c id o Hinv Hrec Ho) as Hl. by destruct (state o).
Qed.

Lemma mark_dispatched_inv c id : inv c → inv (mark_dispatched c id).1.
Proof.
  intros Hinv. unfold mark_dispatched. run_goal; try done. apply put_state_live_inv; [done..| |done].
  by match goal with H : state _ = _ |- _ => rewrite H end.
Qed.

Lemma on_device_live s : on_device s = true → live s = true.
Proof. by destruct s. Qed.

Lemma settle_inv c id o s d :
  inv c → c.(operations) !! id = Some o → live o.(state) = true → settled s = true →
  d = operation_device o → inv (start_next (release_device (put_state c id o s) d id) d).1.
Proof. intros Hinv Ho Hl Hs ->. by apply start_next_inv, release_device_inv. Qed.

Lemma cancel_inv c id : inv c → inv (cancel c id).1.
Proof.
  intros Hinv. unfold cancel. destruct (c.(operations) !! id) as [o|] eqn:Ho; [|done].
  destruct (state o) eqn:Hst; try done.
  - by apply cancel_queued_inv.
  - pose proof (settle_inv c id o Cancelled _ Hinv Ho ltac:(by rewrite Hst) eq_refl eq_refl) as H.
    by destruct (start_next _ _).
  - apply put_state_live_inv; [done|done|by rewrite Hst|done].
Qed.

Lemma finalize_terminal_inv c id s : inv c → inv (finalize_terminal c id s).1.
Proof.
  intros Hinv. unfold finalize_terminal. destruct (settled s) eqn:Hs; [|done]. cbn.
  destruct (c.(operations) !! id) as [o|] eqn:Ho; [|done].
  destruct (on_device o.(state)) eqn:Hd; [|done]. cbn. apply on_device_live in Hd.
  pose proof (settle_inv c id o s _ Hinv Ho Hd Hs eq_refl) as H. by destruct (start_next _ _).
Qed.

Lemma fail_recovery_inv c id : inv c → inv (fail_recovery_read_only c id).1.
Proof.
  intros Hinv. unfold fail_recovery_read_only. destruct (negb _); [done|].
  destruct (c.(operations) !! id) as [o|] eqn:Ho; [|done].
  destruct (on_device o.(state)) eqn:Hd; [|done]. cbn. apply on_device_live in Hd.
  pose proof (settle_inv c id o Failed _ Hinv Ho Hd eq_refl eq_refl) as H.
  by destruct (start_next _ _).
Qed.

Lemma mark_indeterminate_inv c id : inv c → inv (mark_indeterminate c id).1.
Proof.
  intros Hinv. unfold mark_indeterminate.
  destruct (bool_decide_reflect (id ∈ c.(recovery_read_only_operations))) as [|Hrec]; [done|].
  destruct (c.(operations) !! id) as [o|] eqn:Ho; [|done].
  destruct (on_device o.(state)) eqn:Hd; [|done]. apply on_device_live in Hd.
  pose proof (inv_key _ Hinv id o Ho) as Hkey.
  split; cbn; try apply Hinv.
  - by apply (key_insert c).
  - apply queues_put; [apply Hinv| |done].
    rewrite Ho. intros o' [= <-] Hq. by rewrite Hq in Hd.
  - eapply (occ_block _ _ _ _ _ _ id o); [apply Hinv|done..].
Qed.

Lemma not_blocked_by_false c d id :
  not_blocked_by c d id = false → c.(blocked_by_indeterminate) !! d = Some id.
Proof. unfold not_blocked_by. intros H. by split_bools. Qed.

Lemma resolved_inv c id o s d :
  inv c → c.(operations) !! id = Some o → settled s = true → d = operation_device o →
  not_blocked_by c d id = false → inv (start_next (unblock (put_state c id o s) d) d).1.
Proof.
  intros Hinv Ho Hs -> Hb%not_blocked_by_false. by apply start_next_inv, unblock_inv.
Qed.

Lemma resolve_inv c id resolution : inv c → inv (resolve_indeterminate c id resolution).1.
Proof.
  intros Hinv. unfold resolve_indeterminate.
  destruct (c.(operations) !! id) as [o|] eqn:Ho; [|done]. destruct (negb _); [done|].
  destruct (not_blocked_by _ _ _) eqn:Hb; [done|].
  pose proof (resolved_inv c id o (resolved_state resolution) _ Hinv Ho
                ltac:(by destruct resolution) eq_refl Hb) as H. by destruct (start_next _ _).
Qed.

Lemma reconcile_inv c id s : inv c → inv (reconcile_indeterminate_terminal c id s).1.
Proof.
  intros Hinv. unfold reconcile_indeterminate_terminal. destruct (settled s) eqn:Hs; [|done]. cbn.
  destruct (c.(operations) !! id) as [o|] eqn:Ho; [|done]. destruct (negb _); [done|].
  destruct (not_blocked_by _ _ _) eqn:Hb; [done|].
  pose proof (resolved_inv c id o s _ Hinv Ho Hs eq_refl Hb) as H. by destruct (start_next _ _).
Qed.

Lemma retire_indeterminate_inv c id : inv c → inv (retire_indeterminate c id).1.
Proof.
  intros Hinv. unfold retire_indeterminate. destruct (retirable c id) as [d|e] eqn:Hd; [|done].
  pose proof (start_next_inv _ d (retire_inv c id d Hinv Hd)) as H. by destruct (start_next _ _).
Qed.

#[local] Hint Resolve admit_inv admit_recovery_inv mark_dispatched_inv cancel_inv
  finalize_terminal_inv fail_recovery_inv mark_indeterminate_inv resolve_inv reconcile_inv
  retire_indeterminate_inv retire_and_cancel_queued_inv compact_inv prune_inv : admission.

Lemma exec_inv c k : inv c → inv (exec c k).
Proof. destruct k; cbn [exec]; auto with admission. Qed.
End Preservation.
