(* ===== verification/AdmissionRestart.v ===== *)
(** * Restarting the admission controller

    What a restart makes of a controller state: [snapshot_for_restart] followed by
    [restore_after_restart] of [src/src/v2_m0_execution.rs]. *)

From S2P Require Import Prelude Vocabulary Tombstone Admission AdmissionSafety.
Import HubOperationState.

(** ** Collecting results *)

Lemma collect_Forall2 {E A B} (f : A → result E B) l bs :
  collect f l = Ok bs ↔ Forall2 (λ a b, f a = Ok b) l bs.
Proof.
  revert bs. induction l as [|a l IH]; intros bs; cbn.
  - split; [intros [= <-]; constructor|]. by intros ->%Forall2_nil_inv_l.
  - split.
    + intros H. run H. constructor; [done|]. by apply IH.
    + intros (b & bs' & Hb & Hbs & ->)%Forall2_cons_inv_l. rewrite Hb.
      by rewrite (proj2 (IH bs') Hbs).
Qed.

(** [NoDup] identifiers survive encoding and decoding in any order. *)
Lemma collect_decode {E A B} (f : A → result E B) (g : B → result E A) l bs bs' as' :
  (∀ a b a', f a = Ok b → g b = Ok a' → a' = a) →
  collect f l = Ok bs → bs' ≡ₚ bs → collect g bs' = Ok as' → as' ≡ₚ l.
Proof.
  intros Hfg Hl Hp. apply collect_Forall2 in Hl. rewrite collect_Forall2. intros Hg.
  destruct (Permutation_Forall2 Hp Hg) as (as'' & Has & Hg').
  rewrite Has. apply reflexive_eq. clear -Hfg Hl Hg'. revert as'' Hg'.
  induction Hl as [|a b l bs Hab _ IH]; intros as'' Hg'.
  - by apply Forall2_nil_inv_l in Hg' as ->.
  - apply Forall2_cons_inv_l in Hg' as (a' & as1 & Ha' & Hrest & ->).
    f_equal; [by eapply Hfg|by apply IH].
Qed.

(** ** The restarted controller *)

(** The operation [id] is on the device and is not a recovery read. *)
Definition dispatched_normally (c : HubAdmissionController) (id : string) : bool :=
  match c.(operations) !! id with
  | Some o => on_device o.(state) && negb (is_recovery_read_only c id)
  | None => false
  end.

Definition restart_blocked (c : HubAdmissionController) : gmap string string :=
  c.(blocked_by_indeterminate)
  ∪ filter (λ kv, dispatched_normally c kv.2 = true) c.(active_by_device).

(** Nothing runs or waits; what was never sent is cancelled, a dispatched
    recovery read has failed, every other dispatched operation has an unknown
    outcome and blocks its device. *)
Definition restarted (c : HubAdmissionController) (l : AdmissionLimits) : HubAdmissionController :=
  mk_admission l ∅ (snapshot_operation c <$> c.(operations)) ∅ (restart_blocked c)
    c.(retired_indeterminate) ∅.

Section Restart.
Context `{HI : HashIter} `{B64 : Base64Url, B64L : !Base64UrlLaws}.
Implicit Types (c : HubAdmissionController) (l : AdmissionLimits) (id d : string).

Lemma snapshot_operation_state c id o :
  inv c → c.(operations) !! id = Some o →
  (snapshot_operation c o).(state) = restart_state (is_recovery_read_only c id) o.(state).
Proof. intros Hinv Ho. cbn. by rewrite (inv_key _ Hinv id o Ho). Qed.

Lemma restart_state_Indeterminate b s :
  restart_state b s = Indeterminate ↔ s = Indeterminate ∨ (on_device s = true ∧ b = false).
Proof. destruct s, b; cbn; naive_solver. Qed.

Lemma restart_blocked_spec c d id :
  inv c →
  restart_blocked c !! d = Some id ↔
    unknown_outcome (snapshot_operation c <$> c.(operations)) d id ∧
    (id ∉ c.(retired_indeterminate)).
Proof.
  intros Hinv. pose proof (inv_occupancy _ Hinv) as [Ha Hb _ _ Hx Hf].
  unfold restart_blocked. rewrite lookup_union_Some_raw, map_lookup_filter_Some. cbn. split.
  - intros [[(o & Ho & Hd & Hi) Hnr]%Hb|(_ & Hact & Hdn)].
    + split; [|done]. exists (snapshot_operation c o). rewrite lookup_fmap, Ho. split_and!; [done|done|].
      rewrite (snapshot_operation_state c id o Hinv Ho), Hi. done.
    + unfold dispatched_normally in Hdn. apply Ha in Hact as (o & Ho & Hd & Hl).
      rewrite Ho in Hdn. unfold is_recovery_read_only in Hdn. split_bools. split.
      * exists (snapshot_operation c o). rewrite lookup_fmap, Ho. split_and!; [done|done|].
        rewrite (snapshot_operation_state c id o Hinv Ho). apply restart_state_Indeterminate.
        right. split; [done|]. by apply bool_decide_eq_false.
      * intros Hret. match goal with H : _ ∉ _ |- _ => apply H end. by eapply Hf; [| |right].
  - intros [(o' & Ho' & Hd & Hi) Hnr]. apply lookup_fmap_Some in Ho' as (o & <- & Ho).
    rewrite (snapshot_operation_state c id o Hinv Ho), restart_state_Indeterminate in Hi.
    destruct Hi as [Hi|[Hod Hrec]]; [left; apply Hb; split; [by exists o|done]|right].
    assert (c.(active_by_device) !! d = Some id) as Hact.
    { apply Ha. exists o. split_and!; [done|done|]. by apply on_device_live. }
    split_and!; [|done|].
    + apply eq_None_not_Some. intros [b Hbl]. unfold is_recovery_read_only in Hrec.
      apply bool_decide_eq_false in Hrec. by apply Hrec, (Hx _ _ _ Hbl Hact).
    + unfold dispatched_normally. by rewrite Ho, Hod, Hrec.
Qed.

Lemma restarted_records c :
  inv c → ∀ id o, (snapshot_operation c <$> c.(operations)) !! id = Some o →
  o.(operation).(OperationRef.operation_id) = id ∧ persistable o.(state) = true.
Proof.
  intros Hinv id o' (o & <- & Ho)%lookup_fmap_Some. split; [by apply (inv_key _ Hinv id o)|].
  cbn. destruct (state o); cbn; try done; by destruct (is_recovery_read_only _ _).
Qed.

Lemma restarted_inv c l : inv c → (0 < l.(max_global_active))%N → inv (restarted c l).
Proof.
  intros Hinv Hl. pose proof (restarted_records c Hinv) as Hops.
  split; cbn; try done.
  - intros id o Ho. by apply Hops.
  - split; try done. intros id o Ho Hst. apply Hops in Ho as [_ Hp]. by rewrite Hst in Hp.
  - split; [|by intros; apply restart_blocked_spec| |set_solver|done|].
    + intros d id. rewrite lookup_empty. split; [done|]. intros (o & Ho & _ & Hlive).
      apply Hops in Ho as [_ Hp]. by destruct (state o).
    + unfold mlen. rewrite map_size_empty. lia.
    + intros id o Ho _ Hst. apply Hops in Ho as [_ Hp]. destruct (state o); naive_solver.
  - apply Hinv.
Qed.

(** ** Restoring the operations *)

Definition blocks (retired : gset string) (o : HubOperation) : bool :=
  bool_decide (o.(state) = Indeterminate)
  && negb (bool_decide (o.(operation).(OperationRef.operation_id) ∈ retired)).

Definition by_id (o : HubOperation) : string * HubOperation :=
  (o.(operation).(OperationRef.operation_id), o).
Definition by_device (o : HubOperation) : string * string :=
  (operation_device o, o.(operation).(OperationRef.operation_id)).

Lemma restore_operations_spec retired ops c :
  Forall (λ o, persistable o.(state) = true) ops →
  NoDup (by_id <$> ops).*1 → (∀ id, id ∈ (by_id <$> ops).*1 → c.(operations) !! id = None) →
  NoDup (by_device <$> filter (λ o, blocks retired o = true) ops).*1 →
  (∀ d, d ∈ (by_device <$> filter (λ o, blocks retired o = true) ops).*1 →
     c.(blocked_by_indeterminate) !! d = None) →
  restore_operations retired ops c =
    Ok (set_blocked (set_operations c (list_to_map (by_id <$> ops) ∪ c.(operations)))
          (list_to_map (by_device <$> filter (λ o, blocks retired o = true) ops)
             ∪ c.(blocked_by_indeterminate))).
Proof.
  revert c. induction ops as [|o ops IH]; intros c Hp Hid Hnew Hd Hnb.
  { cbn. rewrite !(left_id_L ∅ (∪)). by destruct c. }
  apply Forall_cons in Hp as [Hpo Hp]. cbn in Hid. apply NoDup_cons in Hid as [Hio Hid].
  cbn [restore_operations]. rewrite Hpo. cbn [negb]. rewrite bool_decide_false.
  2: { rewrite Hnew by (cbn; set_solver). by intros []. }
  change (bool_decide (state o = Indeterminate) &&
          negb (bool_decide (OperationRef.operation_id (operation o) ∈ retired)))
    with (blocks retired o).
  rewrite filter_cons in Hd, Hnb |- *.
  destruct (blocks retired o) eqn:Hb;
    [rewrite decide_True in Hd, Hnb |- * by done|rewrite decide_False in Hd, Hnb |- * by done];
    cbn in Hd, Hnb |- *.
  - apply NoDup_cons in Hd as [Hdo Hd].
    rewrite bool_decide_false by (rewrite Hnb by set_solver; by intros []).
    rewrite IH; [|done|done| |done|]; cbn.
    + f_equal. unfold set_blocked, set_operations. cbn. f_equal.
      * by rewrite <-insert_union_l, insert_union_r by by apply not_elem_of_list_to_map.
      * by rewrite <-insert_union_l, insert_union_r by by apply not_elem_of_list_to_map.
    + intros id Hin. rewrite lookup_insert_ne by set_solver. apply Hnew. cbn. set_solver.
    + intros d Hin. rewrite lookup_insert_ne by set_solver. apply Hnb. set_solver.
  - rewrite IH; [|done|done| |done|done]; cbn.
    + f_equal. unfold set_blocked, set_operations. cbn. f_equal.
      by rewrite <-insert_union_l, insert_union_r by by apply not_elem_of_list_to_map.
    + intros id Hin. rewrite lookup_insert_ne by set_solver. apply Hnew. cbn. set_solver.
Qed.

(** The records of a map of operations, in some order. *)
Lemma by_id_records (ops : gmap string HubOperation) xs :
  (∀ id o, ops !! id = Some o → o.(operation).(OperationRef.operation_id) = id) →
  xs ≡ₚ map_to_list ops → by_id <$> xs.*2 ≡ₚ map_to_list ops.
Proof.
  intros Hkey Hp. rewrite <-Hp. apply reflexive_eq. rewrite <-list_fmap_compose.
  rewrite <-(list_fmap_id xs) at 2. apply list_fmap_ext. intros i [id o] Hi. cbn.
  apply list_elem_of_lookup_2 in Hi. rewrite Hp in Hi. apply elem_of_map_to_list in Hi.
  unfold by_id. by rewrite (Hkey id o Hi).
Qed.

Lemma restore_records retired (ops : gmap string HubOperation) blocked xs l :
  (∀ id o, ops !! id = Some o → o.(operation).(OperationRef.operation_id) = id ∧
                                  persistable o.(state) = true) →
  (∀ d id, blocked !! d = Some id ↔ unknown_outcome ops d id ∧ (id ∉ retired)) →
  xs ≡ₚ map_to_list ops →
  restore_operations retired xs.*2 (empty_admission l) = Ok (mk_admission l ∅ ops ∅ blocked ∅ ∅).
Proof.
  intros Hops Hblocked Hp.
  assert (by_id <$> xs.*2 ≡ₚ map_to_list ops) as Hids
    by (apply by_id_records; [by intros id o [? _]%Hops|done]).
  assert (∀ o, o ∈ xs.*2 → ops !! o.(operation).(OperationRef.operation_id) = Some o) as Hrec.
  { intros o Ho. apply elem_of_map_to_list. rewrite <-Hids.
    by apply (list_elem_of_fmap_2 by_id). }
  assert (NoDup (by_id <$> xs.*2).*1) as Hnd by (rewrite Hids; apply NoDup_fst_map_to_list).
  assert (∀ o, o ∈ filter (λ o, blocks retired o = true) xs.*2 →
            blocked !! operation_device o = Some o.(operation).(OperationRef.operation_id)) as Hbl.
  { intros o [Hb Ho]%list_elem_of_filter. unfold blocks in Hb. split_bools.
    apply Hblocked. split; [|done]. exists o. split_and!; [by apply Hrec|done..]. }
  assert (NoDup (by_device <$> filter (λ o, blocks retired o = true) xs.*2).*1) as Hnd'.
  { rewrite <-list_fmap_compose. apply NoDup_fmap_2_strong.
    - intros o o' Ho Ho' Heq. cbn in Heq. pose proof (Hbl o Ho) as H1. rewrite Heq, Hbl in H1 by done.
      apply list_elem_of_filter in Ho as [_ Ho%Hrec], Ho' as [_ Ho'%Hrec]. congruence.
    - apply NoDup_filter. by do 2 apply NoDup_fmap_1 in Hnd. }
  rewrite restore_operations_spec; [|..|intros; apply lookup_empty|done|intros; apply lookup_empty].
  - cbn. rewrite !(right_id_L ∅ (∪)). unfold set_blocked, set_operations. cbn.
    rewrite (list_to_map_perm _ _ Hids). do 2 f_equal. apply map_eq. intros d.
    apply option_eq. intros id. rewrite <-elem_of_list_to_map by done. rewrite Hblocked. split.
    + intros (o & [= -> ->] & Ho)%list_elem_of_fmap. by apply Hblocked, Hbl.
    + intros [(o & Ho & <- & Hi) Hnr]. apply list_elem_of_fmap. exists o.
      pose proof (proj1 (Hops id o Ho)) as Hid. unfold by_device. rewrite Hid. split; [done|].
      apply list_elem_of_filter. split.
      * unfold blocks. rewrite Hid, bool_decide_true by done. by rewrite bool_decide_false.
      * apply elem_of_map_to_list in Ho. rewrite <-Hp in Ho. by apply (list_elem_of_fmap_2 snd) in Ho.
  - apply Forall_forall. intros o Ho%Hrec. by apply Hops in Ho as [_ ?].
  - done.
Qed.

Lemma snapshot_records c :
  ∃ xs, merge_sort operation_le ((λ kv, snapshot_operation c kv.2) <$> hash_iter c.(operations))
          = xs.*2 ∧ xs ≡ₚ map_to_list (snapshot_operation c <$> c.(operations)).
Proof.
  destruct (sorted_hash_iter (λ kv : string * HubOperation, snapshot_operation c kv.2)
              operation_le c.(operations)) as (ys & -> & Hp).
  exists (prod_map id (snapshot_operation c) <$> ys). split.
  - rewrite <-list_fmap_compose. by apply list_fmap_ext.
  - rewrite Hp, map_to_list_fmap. by apply reflexive_eq, list_fmap_ext.
Qed.

(** ** Retired identifiers *)

Lemma list_to_set_hash_set_iter (X : gset string) ids :
  ids ≡ₚ hash_set_iter X → list_to_set ids = X.
Proof.
  intros Hp. apply set_eq. intros id. rewrite elem_of_list_to_set, Hp. apply elem_of_hash_set_iter.
Qed.

Lemma restore_retired_sound c s retired :
  snapshot_for_restart c = Some s → restore_retired s = Ok retired →
  retired = c.(retired_indeterminate).
Proof.
  unfold snapshot_for_restart, restore_retired. intros Hs Hr. run Hs.
  match goal with H : collect ReplayDenyTombstone.from_operation_id _ = _ |- _ => rename H into Hc end.
  case_bool_decide as Hnil; cbn in Hr.
  - simplify_eq. run Hr.
    assert (hash_set_iter c.(retired_indeterminate) = []) as Hempty.
    { apply collect_Forall2, Forall2_length in Hc. apply nil_length_inv. rewrite Hc.
      apply (f_equal length) in Hnil. rewrite merge_sort_Permutation in Hnil. done. }
    by rewrite <-(list_to_set_hash_set_iter c.(retired_indeterminate) []) by by rewrite Hempty.
  - run Hr. apply list_to_set_hash_set_iter.
    eapply collect_decode; [intros x y z; apply ReplayDenyTombstone.tombstone_sound|done| |done].
    apply merge_sort_Permutation.
Qed.

(** The identifier has a tombstone, and the tombstone gives it back. *)
Definition has_tombstone id : Prop :=
  ∃ t, ReplayDenyTombstone.from_operation_id id = Ok t ∧ ReplayDenyTombstone.operation_id t = Ok id.

Lemma tombstones_decode ids :
  Forall has_tombstone ids →
  ∃ ts, collect ReplayDenyTombstone.from_operation_id ids = Ok ts ∧
    ∀ ts', ts' ≡ₚ ts → ∃ ids', ids' ≡ₚ ids ∧
      collect ReplayDenyTombstone.operation_id ts' = Ok ids'.
Proof.
  intros Henc.
  assert (∃ ts, Forall2 (λ t id, ReplayDenyTombstone.from_operation_id id = Ok t ∧
            ReplayDenyTombstone.operation_id t = Ok id) ts ids) as [ts Hts].
  { induction Henc as [|id ids (t & ? & ?) _ [ts Hts]]; [by exists []; constructor|].
    exists (t :: ts). by constructor. }
  exists ts. split.
  - apply collect_Forall2, Forall2_flip. eapply Forall2_impl; [exact Hts|]. by intros t id [? _].
  - intros ts' Hp. destruct (Permutation_Forall2 (symmetry Hp) Hts) as (ids' & Hids & Hts').
    exists ids'. split; [done|]. apply collect_Forall2. eapply Forall2_impl; [exact Hts'|].
    by intros t id [_ ?].
Qed.

Lemma NoDup_hash_set_iter (X : gset string) : NoDup (hash_set_iter X).
Proof. unfold hash_set_iter. rewrite hash_iter_perm. apply NoDup_fst_map_to_list. Qed.

Lemma setlen_list_to_set (ids : list string) : NoDup ids → setlen (list_to_set ids) = vlen ids.
Proof. intros. unfold setlen, vlen. by rewrite size_list_to_set. Qed.

Lemma vlen_hash_set_iter (X : gset string) : vlen (hash_set_iter X) = setlen X.
Proof.
  rewrite <-setlen_list_to_set by apply NoDup_hash_set_iter.
  by rewrite (list_to_set_hash_set_iter X) by done.
Qed.

Lemma vlen_perm {A} (xs ys : list A) : xs ≡ₚ ys → vlen xs = vlen ys.
Proof. intros Hp. unfold vlen. by rewrite Hp. Qed.

(** Every encodable set of at most the permitted size is snapshotted, and
    restored as it was. *)
Lemma restore_retired_complete c :
  (setlen c.(retired_indeterminate) ≤ MAX_RETIRED_OPERATION_TOMBSTONES)%N →
  set_Forall has_tombstone c.(retired_indeterminate) →
  ∃ s, snapshot_for_restart c = Some s ∧ restore_retired s = Ok c.(retired_indeterminate).
Proof.
  intros Hlen Henc. unfold snapshot_for_restart.
  destruct (tombstones_decode (hash_set_iter c.(retired_indeterminate))) as (ts & Hts & Hdec).
  { apply Forall_forall. intros id Hid%elem_of_hash_set_iter. by apply Henc. }
  rewrite Hts. eexists. split; [done|]. unfold restore_retired. cbn.
  set (ts' := merge_sort tombstone_le ts).
  assert (ts' ≡ₚ ts) as Hp by apply merge_sort_Permutation.
  destruct (Hdec ts' Hp) as (ids & Hids & Hc).
  assert (vlen ts' = setlen c.(retired_indeterminate)) as Hvlen.
  { rewrite (vlen_perm _ _ Hp), <-vlen_hash_set_iter. apply collect_Forall2, Forall2_length in Hts.
    unfold vlen. by rewrite Hts. }
  case_bool_decide as Hnil; cbn.
  - rewrite Hnil in Hc. cbn in Hc. simplify_eq.
    by rewrite <-(list_to_set_hash_set_iter c.(retired_indeterminate) []).
  - rewrite Hvlen, (proj2 (N.ltb_ge _ _)) by done. rewrite Hc, setlen_list_to_set.
    + rewrite N.eqb_refl. cbn. by rewrite (list_to_set_hash_set_iter _ _ Hids).
    + rewrite Hids. apply NoDup_hash_set_iter.
Qed.

(** Only such a set is. *)
Lemma restore_retired_tombstones c s retired :
  snapshot_for_restart c = Some s → restore_retired s = Ok retired →
  set_Forall has_tombstone c.(retired_indeterminate).
Proof.
  unfold snapshot_for_restart, restore_retired. intros Hs Hr. run Hs.
  match goal with H : collect ReplayDenyTombstone.from_operation_id _ = _ |- _ => rename H into Hc end.
  apply collect_Forall2 in Hc. intros id Hid. apply elem_of_hash_set_iter in Hid.
  apply list_elem_of_lookup_1 in Hid as [i Hi].
  destruct (Forall2_lookup_l _ _ _ _ _ Hc Hi) as (t & Ht & Hfrom). exists t. split; [done|].
  apply list_elem_of_lookup_2 in Ht. rewrite <- (merge_sort_Permutation tombstone_le) in Ht.
  case_bool_decide as Hnil; cbn in Hr; [rewrite Hnil in Ht; by apply elem_of_nil in Ht|].
  run Hr. match goal with H : collect ReplayDenyTombstone.operation_id _ = _ |- _ => rename H into Hd end.
  apply collect_Forall2 in Hd. apply list_elem_of_lookup_1 in Ht as [j Hj].
  destruct (Forall2_lookup_l _ _ _ _ _ Hd Hj) as (id' & _ & Hid').
  by rewrite <- (ReplayDenyTombstone.tombstone_sound id t id' Hfrom Hid').
Qed.

(** ** Restart *)

Lemma snapshot_operations c s :
  snapshot_for_restart c = Some s →
  s.(snap_operations) =
    merge_sort operation_le ((λ kv, snapshot_operation c kv.2) <$> hash_iter c.(operations)).
Proof. unfold snapshot_for_restart. intros H. by run H. Qed.

Lemma new_admission_Ok l : (0 < l.(max_global_active))%N → new_admission l = Ok (empty_admission l).
Proof. intros. unfold new_admission, validate_limits. by rewrite (proj2 (N.eqb_neq _ 0)) by lia. Qed.

Lemma restore_snapshot c l s :
  inv c → (0 < l.(max_global_active))%N → snapshot_for_restart c = Some s →
  restore_after_restart l s =
    match restore_retired s with
    | Ok _ =>
        if retired_consistent c.(retired_indeterminate) (restarted c l) then Ok (restarted c l)
        else Err ExecutionError.InvalidSnapshot
    | Err e => Err e
    end.
Proof.
  intros Hinv Hl Hs. unfold restore_after_restart.
  destruct (restore_retired s) as [retired|e] eqn:Hret; [|done].
  apply (restore_retired_sound c s) in Hret as ->; [|done].
  rewrite new_admission_Ok by done. rewrite (snapshot_operations c s Hs).
  destruct (snapshot_records c) as (xs & -> & Hp).
  rewrite (restore_records _ (snapshot_operation c <$> c.(operations)) (restart_blocked c));
    [|by apply restarted_records|by intros; apply restart_blocked_spec|done].
  unfold retired_consistent. cbn. by destruct (forallb _ _).
Qed.
End Restart.
