(* ===== verification/AdmissionTheorems.v ===== *)
(** * What the admission controller guarantees

    Reachable states of [HubAdmissionController], the life cycle of an operation,
    mutual exclusion, quarantine and restart. *)

From S2P Require Import Prelude Vocabulary Tombstone Admission AdmissionSafety.
From S2P Require Import AdmissionRestart.
Import HubOperationState.

(** ** Reachable states *)

Section Transitions.
Context `{HI : HashIter} `{B64 : Base64Url}.

(** A call, or ([None]) a restart from the controller's own snapshot. *)
Inductive step (c : HubAdmissionController) : option call → HubAdmissionController → Prop :=
| step_call k : step c (Some k) (exec c k)
| step_restart l s c' :
    snapshot_for_restart c = Some s → restore_after_restart l s = Ok c' → step c None c'.

(** A run of calls and restarts none of which is excluded by [ok]. *)
Inductive run (ok : option call → Prop) (c : HubAdmissionController)
    : HubAdmissionController → Prop :=
| run_refl : run ok c c
| run_step k c' c'' : run ok c c' → ok k → step c' k c'' → run ok c c''.

Definition reachable (c : HubAdmissionController) : Prop :=
  ∃ l c0, new_admission l = Ok c0 ∧ run (λ _, True) c0 c.

End Transitions.

(** ** The life cycle of an operation *)

(** Calls that may start a queued operation. *)
Definition frees_capacity (k : call) : bool :=
  match k with
  | Cancel _ | Finalize _ _ | FailRecovery _ | Resolve _ _ | Reconcile _ _ | Retire _ => true
  | _ => false
  end.

(** How the state of the operation [id] may change in a call ([None]: a restart).
    No state at all means that the controller has no record of it. *)
Inductive lifecycle (id : string)
    : option call → option HubOperationState → option HubOperationState → Prop :=
| lc_stay k s : lifecycle id k s s
| lc_queue r : r.(OperationRef.operation_id) = id →
    lifecycle id (Some (Admit r)) None (Some Queued)
| lc_start r : r.(OperationRef.operation_id) = id →
    lifecycle id (Some (Admit r)) None (Some ActiveNotDispatched)
| lc_start_recovery r : r.(OperationRef.operation_id) = id →
    lifecycle id (Some (AdmitRecovery r)) None (Some ActiveNotDispatched)
| lc_promote k : frees_capacity k = true →
    lifecycle id (Some k) (Some Queued) (Some ActiveNotDispatched)
| lc_dispatch :
    lifecycle id (Some (MarkDispatched id)) (Some ActiveNotDispatched) (Some Dispatched)
| lc_cancel_queued : lifecycle id (Some (Cancel id)) (Some Queued) (Some Cancelled)
| lc_cancel_unsent : lifecycle id (Some (Cancel id)) (Some ActiveNotDispatched) (Some Cancelled)
| lc_cancel_sent : lifecycle id (Some (Cancel id)) (Some Dispatched) (Some CancelRequested)
| lc_settle s t : on_device s = true → settled t = true →
    lifecycle id (Some (Finalize id t)) (Some s) (Some t)
| lc_fail_recovery s : on_device s = true →
    lifecycle id (Some (FailRecovery id)) (Some s) (Some Failed)
| lc_lose s : on_device s = true →
    lifecycle id (Some (MarkIndeterminate id)) (Some s) (Some Indeterminate)
| lc_resolve resolution :
    lifecycle id (Some (Resolve id resolution)) (Some Indeterminate)
      (Some (resolved_state resolution))
| lc_reconcile t : settled t = true →
    lifecycle id (Some (Reconcile id t)) (Some Indeterminate) (Some t)
| lc_discard id' : lifecycle id (Some (RetireAndCancelQueued id')) (Some Queued) (Some Cancelled)
| lc_compact : lifecycle id (Some (Compact id)) (Some Indeterminate) None
| lc_prune d g s : settled s = true → lifecycle id (Some (Prune d g)) (Some s) None
| lc_restart_unsent s : s = Queued ∨ s = ActiveNotDispatched →
    lifecycle id None (Some s) (Some Cancelled)
| lc_restart_lost s t : on_device s = true → t = Indeterminate ∨ t = Failed →
    lifecycle id None (Some s) (Some t).

(** ** Frames: what each call leaves alone *)

Section Frames.
Context `{HI : HashIter}.
Implicit Types (c : HubAdmissionController) (id d : string).

Lemma filled_frame c res :
  filled c res →
  res.1.(blocked_by_indeterminate) = c.(blocked_by_indeterminate) ∧
  res.1.(retired_indeterminate) = c.(retired_indeterminate) ∧
  res.1.(recovery_read_only_operations) = c.(recovery_read_only_operations) ∧
  res.1.(limits) = c.(limits).
Proof. by intros []. Qed.

Lemma filled_operations c res id :
  inv c → filled c res →
  res.1.(operations) !! id = c.(operations) !! id ∨
  ∃ r, c.(operations) !! id = Some (mk_operation r Queued) ∧
       res.1.(operations) !! id = Some (mk_operation r ActiveNotDispatched).
Proof.
  intros Hinv [|qs _ _|qs d r q [Htrim _] _ _ Hd]; [by left..|]. cbn.
  destruct (decide (id = r.(OperationRef.operation_id))) as [->|Hne];
    [right|left; by rewrite lookup_insert_ne].
  exists r. rewrite lookup_insert_eq. split; [|done].
  apply (queue_sound _ _ _ (inv_queues _ Hinv) d (r :: q) r (Htrim _ _ Hd)). left.
Qed.

Lemma start_next_frame c d :
  (start_next c d).1.(blocked_by_indeterminate) = c.(blocked_by_indeterminate) ∧
  (start_next c d).1.(retired_indeterminate) = c.(retired_indeterminate) ∧
  (start_next c d).1.(recovery_read_only_operations) = c.(recovery_read_only_operations) ∧
  (start_next c d).1.(limits) = c.(limits).
Proof.
  unfold start_next. pose proof (filled_frame _ _ (start_next_filled c (Some d))) as H.
  by destruct (start_next_for_available_capacity c (Some d)).
Qed.

Lemma start_next_state c d id :
  inv c →
  operation_state (start_next c d).1 id = operation_state c id ∨
  (operation_state c id = Some Queued ∧
   operation_state (start_next c d).1 id = Some ActiveNotDispatched).
Proof.
  intros Hinv. unfold start_next, operation_state.
  pose proof (filled_operations _ _ id Hinv (start_next_filled c (Some d))) as H.
  destruct (start_next_for_available_capacity c (Some d)) as [c' next]. cbn in *.
  destruct H as [->|(r & -> & ->)]; auto.
Qed.

Lemma put_state_lookup c id o s id' :
  operation_state (put_state c id o s) id' =
    if decide (id' = id) then Some s else operation_state c id'.
Proof.
  unfold operation_state. cbn. case_decide; [subst; by rewrite lookup_insert_eq|].
  by rewrite lookup_insert_ne.
Qed.

(** A record changes as allowed, then queued work may start. *)
Lemma lifecycle_then_start id k c0 c c1 d :
  inv c → frees_capacity k = true →
  lifecycle id (Some k) (operation_state c0 id) (operation_state c id) →
  (operation_state c id = Some Queued → operation_state c0 id = Some Queued) →
  c1 = (start_next c d).1 →
  lifecycle id (Some k) (operation_state c0 id) (operation_state c1 id).
Proof.
  intros Hinv Hk Hl Hq ->. destruct (start_next_state c d id Hinv) as [->|[Hs ->]]; [done|].
  rewrite (Hq Hs). by apply lc_promote.
Qed.

Lemma lifecycle_settle id k c mid d id0 o s :
  inv mid → frees_capacity k = true → c.(operations) !! id0 = Some o →
  mid.(operations) = (put_state c id0 o s).(operations) →
  lifecycle id0 (Some k) (Some o.(state)) (Some s) → settled s = true →
  lifecycle id (Some k) (operation_state c id) (operation_state (start_next mid d).1 id).
Proof.
  intros Hinv Hk Ho Hops Hl Hs.
  assert (operation_state mid id = if decide (id = id0) then Some s else operation_state c id) as Hmid.
  { unfold operation_state at 1. rewrite Hops. apply put_state_lookup. }
  apply (lifecycle_then_start id k c mid _ d); [done|done| | |done]; rewrite Hmid; case_decide; subst.
  - unfold operation_state. by rewrite Ho.
  - constructor.
  - intros [= ->]. done.
  - done.
Qed.

Lemma lifecycle_put id k c id0 o s :
  c.(operations) !! id0 = Some o → lifecycle id0 (Some k) (Some o.(state)) (Some s) →
  lifecycle id (Some k) (operation_state c id) (operation_state (put_state c id0 o s) id).
Proof.
  intros Ho Hl. rewrite put_state_lookup. case_decide; [subst|constructor].
  unfold operation_state. by rewrite Ho.
Qed.

Lemma admit_lifecycle c r id :
  lifecycle id (Some (Admit r)) (operation_state c id) (operation_state (admit_operation c r).1 id).
Proof.
  unfold operation_state.
  destruct (admit_admitted c r) as [e| |Hop _ _ _ _|q _ Hop _ _ _]; cbn; [constructor..| |];
    (destruct (decide (id = r.(OperationRef.operation_id))) as [->|];
     [rewrite Hop, lookup_insert_eq; by constructor|rewrite lookup_insert_ne by done; constructor]).
Qed.

Lemma admit_recovery_lifecycle c r id :
  lifecycle id (Some (AdmitRecovery r)) (operation_state c id)
    (operation_state (admit_recovery_read_only c r).1 id).
Proof.
  unfold operation_state, admit_recovery_read_only.
  destruct (blank_operation r); [constructor|].
  destruct (bool_decide_reflect (is_Some (c.(operations) !! r.(OperationRef.operation_id))))
    as [|Hop%eq_None_not_Some]; [constructor|].
  destruct (negb _); [constructor|]. destruct (_ || _); [constructor|]. cbn.
  destruct (decide (id = r.(OperationRef.operation_id))) as [->|];
    [rewrite Hop, lookup_insert_eq; by constructor|rewrite lookup_insert_ne by done; constructor].
Qed.

Lemma cancel_lifecycle c id0 id :
  inv c → lifecycle id (Some (Cancel id0)) (operation_state c id) (operation_state (cancel c id0).1 id).
Proof.
  intros Hinv. unfold cancel. destruct (c.(operations) !! id0) as [o|] eqn:Ho; [|constructor].
  destruct (state o) eqn:Hst; try constructor.
  - assert ((unqueue c (operation_device o) id0).(operations) = c.(operations)) as Hu.
    { unfold unqueue. destruct (c.(queued_by_device) !! _); [|done]. by destruct (remove_queued _ _). }
    cbn [fst]. rewrite put_state_lookup. unfold operation_state. rewrite Hu.
    case_decide; [subst; rewrite Ho; cbn; rewrite Hst|]; constructor.
  - set (mid := release_device _ _ _).
    assert (inv mid) as Hmid by (apply release_device_inv; [done|done|by rewrite Hst|done]).
    pose proof (lifecycle_settle id (Cancel id0) c mid (operation_device o) id0 o Cancelled
      Hmid eq_refl Ho eq_refl ltac:(rewrite Hst; constructor) eq_refl) as H.
    by destruct (start_next mid _).
  - apply lifecycle_put; [done|]. rewrite Hst. constructor.
Qed.

Lemma finalize_lifecycle c id0 t id :
  inv c → lifecycle id (Some (Finalize id0 t)) (operation_state c id)
            (operation_state (finalize_terminal c id0 t).1 id).
Proof.
  intros Hinv. unfold finalize_terminal. destruct (settled t) eqn:Hs; [|constructor]. cbn.
  destruct (c.(operations) !! id0) as [o|] eqn:Ho; [|constructor].
  destruct (on_device o.(state)) eqn:Hd; [|constructor]. cbn.
  set (mid := release_device _ _ _).
  assert (inv mid) as Hmid by (apply release_device_inv; [done|done|by apply on_device_live|done]).
  pose proof (lifecycle_settle id (Finalize id0 t) c mid (operation_device o) id0 o t
    Hmid eq_refl Ho eq_refl ltac:(by constructor) Hs) as H.
  by destruct (start_next mid _).
Qed.

Lemma fail_recovery_lifecycle c id0 id :
  inv c → lifecycle id (Some (FailRecovery id0)) (operation_state c id)
            (operation_state (fail_recovery_read_only c id0).1 id).
Proof.
  intros Hinv. unfold fail_recovery_read_only. destruct (negb _); [constructor|].
  destruct (c.(operations) !! id0) as [o|] eqn:Ho; [|constructor].
  destruct (on_device o.(state)) eqn:Hd; [|constructor]. cbn.
  set (mid := release_device _ _ _).
  assert (inv mid) as Hmid by (apply release_device_inv; [done|done|by apply on_device_live|done]).
  pose proof (lifecycle_settle id (FailRecovery id0) c mid (operation_device o) id0 o Failed
    Hmid eq_refl Ho eq_refl ltac:(by constructor) eq_refl) as H.
  by destruct (start_next mid _).
Qed.

Lemma mark_indeterminate_lifecycle c id0 id :
  lifecycle id (Some (MarkIndeterminate id0)) (operation_state c id)
    (operation_state (mark_indeterminate c id0).1 id).
Proof.
  unfold mark_indeterminate. destruct (bool_decide _); [constructor|].
  destruct (c.(operations) !! id0) as [o|] eqn:Ho; [|constructor].
  destruct (on_device o.(state)) eqn:Hd; [|constructor].
  apply (lifecycle_put id (MarkIndeterminate id0) c id0 o Indeterminate Ho). by constructor.
Qed.

Lemma resolve_lifecycle c id0 resolution id :
  inv c → lifecycle id (Some (Resolve id0 resolution)) (operation_state c id)
            (operation_state (resolve_indeterminate c id0 resolution).1 id).
Proof.
  intros Hinv. unfold resolve_indeterminate.
  destruct (c.(operations) !! id0) as [o|] eqn:Ho; [|constructor].
  case_bool_decide as Hi; [|constructor]. cbn.
  destruct (not_blocked_by _ _ _) eqn:Hb; [constructor|].
  set (mid := unblock _ _).
  assert (settled (resolved_state resolution) = true) as Hs by by destruct resolution.
  assert (inv mid) as Hmid by (apply unblock_inv; [done|done|by apply not_blocked_by_false|done]).
  pose proof (lifecycle_settle id (Resolve id0 resolution) c mid (operation_device o) id0 o
    (resolved_state resolution) Hmid eq_refl Ho eq_refl ltac:(rewrite Hi; constructor) Hs) as H.
  by destruct (start_next mid _).
Qed.

Lemma reconcile_lifecycle c id0 t id :
  inv c → lifecycle id (Some (Reconcile id0 t)) (operation_state c id)
            (operation_state (reconcile_indeterminate_terminal c id0 t).1 id).
Proof.
  intros Hinv. unfold reconcile_indeterminate_terminal. destruct (settled t) eqn:Hs; [|constructor].
  cbn. destruct (c.(operations) !! id0) as [o|] eqn:Ho; [|constructor].
  case_bool_decide as Hi; [|constructor]. cbn.
  destruct (not_blocked_by _ _ _) eqn:Hb; [constructor|].
  set (mid := unblock _ _).
  assert (inv mid) as Hmid by (apply unblock_inv; [done|done|by apply not_blocked_by_false|done]).
  pose proof (lifecycle_settle id (Reconcile id0 t) c mid (operation_device o) id0 o t
    Hmid eq_refl Ho eq_refl ltac:(rewrite Hi; by constructor) Hs) as H.
  by destruct (start_next mid _).
Qed.

Lemma retire_lifecycle c id0 id :
  inv c → lifecycle id (Some (Retire id0)) (operation_state c id)
            (operation_state (retire_indeterminate c id0).1 id).
Proof.
  intros Hinv. unfold retire_indeterminate. destruct (retirable c id0) as [d|e] eqn:Hd; [|constructor].
  pose proof (lifecycle_then_start id (Retire id0) c (retire c d id0) _ d
    (retire_inv _ _ _ Hinv Hd) eq_refl (lc_stay _ _ _) (λ H, H) eq_refl) as H.
  by destruct (start_next _ d).
Qed.

Lemma discard_lifecycle c id0 id :
  inv c → lifecycle id (Some (RetireAndCancelQueued id0)) (operation_state c id)
            (operation_state (retire_indeterminate_and_cancel_queued c id0).1 id).
Proof.
  intros Hinv. unfold retire_indeterminate_and_cancel_queued.
  destruct (retirable c id0) as [d|e]; [|constructor].
  destruct (existsb _ _); [constructor|]. unfold operation_state. cbn.
  rewrite cancel_each_lookup. case_decide as Hin; [|constructor].
  apply list_elem_of_fmap in Hin as (r & -> & Hr).
  destruct (c.(queued_by_device) !! d) as [q|] eqn:Hq; [|by apply elem_of_nil in Hr].
  destruct (queue_sound _ _ _ (inv_queues _ Hinv) d q r Hq Hr) as [_ ->]. constructor.
Qed.

Lemma compact_lifecycle c id0 id :
  lifecycle id (Some (Compact id0)) (operation_state c id)
    (operation_state (compact_retired_indeterminate_detail c id0).1 id).
Proof.
  unfold compact_retired_indeterminate_detail. destruct (negb _); [constructor|].
  destruct (c.(operations) !! id0) as [o|] eqn:Ho; [|constructor].
  case_bool_decide as Hi; [|constructor]. cbn. destruct (existsb _ _); [constructor|].
  unfold operation_state. cbn. destruct (decide (id = id0)) as [->|];
    [rewrite Ho, lookup_delete_eq; cbn; rewrite Hi|rewrite lookup_delete_ne by done]; constructor.
Qed.

Lemma prune_lifecycle c d g id :
  lifecycle id (Some (Prune d g)) (operation_state c id)
    (operation_state (prune_terminal_before_generation c d g).1 id).
Proof.
  unfold prune_terminal_before_generation. destruct (_ || _); [constructor|].
  unfold operation_state. cbn. destruct (c.(operations) !! id) as [o|] eqn:Ho.
  - destruct (prunable d g o) eqn:Hp.
    + assert ((c.(operations) ∖ filter (λ kv, prunable d g kv.2 = true) c.(operations)) !! id = None)
        as -> by (apply lookup_difference_None; right; exists o; by apply map_lookup_filter_Some).
      apply lc_prune. unfold prunable in Hp. by split_bools.
    + rewrite (proj2 (lookup_difference_Some _ _ id o)); [constructor|]. split; [done|].
      apply map_lookup_filter_None. right. intros o' Ho' ?. simplify_eq/=. congruence.
  - rewrite (proj2 (lookup_difference_None _ _ id)); [constructor|by left].
Qed.

Lemma mark_dispatched_lifecycle c id0 id :
  lifecycle id (Some (MarkDispatched id0)) (operation_state c id)
    (operation_state (mark_dispatched c id0).1 id).
Proof.
  unfold mark_dispatched. destruct (c.(operations) !! id0) as [o|] eqn:Ho; [|constructor].
  case_bool_decide as Hst; [|constructor]. apply lifecycle_put; [done|]. rewrite Hst. constructor.
Qed.

#[local] Hint Resolve admit_lifecycle admit_recovery_lifecycle mark_dispatched_lifecycle
  cancel_lifecycle finalize_lifecycle fail_recovery_lifecycle mark_indeterminate_lifecycle
  resolve_lifecycle reconcile_lifecycle retire_lifecycle discard_lifecycle compact_lifecycle
  prune_lifecycle : admission.

Lemma exec_lifecycle c k id :
  inv c → lifecycle id (Some k) (operation_state c id) (operation_state (exec c k) id).
Proof. destruct k; cbn [exec]; auto with admission. Qed.
End Frames.

(** * Theorems *)

Section Theorems.
Context `{HI : HashIter} `{B64 : Base64Url, B64L : !Base64UrlLaws}.
Implicit Types (c : HubAdmissionController) (id d : string) (r : OperationRef).

Lemma restore_is_restarted c l s c' :
  inv c → snapshot_for_restart c = Some s → restore_after_restart l s = Ok c' →
  (0 < l.(max_global_active))%N ∧ c' = restarted c l.
Proof.
  intros Hinv Hs Hr. assert (0 < l.(max_global_active))%N as Hl.
  { unfold restore_after_restart, new_admission, validate_limits in Hr.
    destruct (restore_retired s); [|done].
    destruct (N.eqb_spec l.(max_global_active) 0); [done|lia]. }
  split; [done|]. rewrite (restore_snapshot c l s Hinv Hl Hs) in Hr.
  destruct (restore_retired s); [|done]. by destruct (retired_consistent _ _); simplify_eq.
Qed.

Lemma step_inv c k c' : inv c → step c k c' → inv c'.
Proof.
  intros Hinv [k'|l s c'' Hs Hr]; [by apply exec_inv|].
  destruct (restore_is_restarted c l s c'' Hinv Hs Hr) as [? ->]. by apply restarted_inv.
Qed.

Lemma run_inv ok c c' : inv c → run ok c c' → inv c'.
Proof. intros Hinv. induction 1; [done|]. by eapply step_inv. Qed.

Lemma reachable_inv c : reachable c → inv c.
Proof.
  intros (l & c0 & Hnew & Hrun). eapply run_inv; [|done].
  unfold new_admission, validate_limits in Hnew. destruct (N.eqb_spec l.(max_global_active) 0); [done|].
  simplify_eq/=. apply inv_empty. lia.
Qed.

(** C27: At most one operation is live (started, dispatched or being cancelled)
    on a device at any time, at most [max_global_active] devices have one, no
    device has more than [max_queued_per_device] queued operations, and while a
    device is quarantined only recovery reads are live on it. *)
Theorem admission_mutual_exclusion c :
  reachable c →
  (∀ d id id', holds_device c.(operations) d id → holds_device c.(operations) d id' → id = id') ∧
  (mlen c.(active_by_device) ≤ c.(limits).(max_global_active))%N ∧
  (∀ d id, holds_device c.(operations) d id ↔ c.(active_by_device) !! d = Some id) ∧
  (∀ d q, c.(queued_by_device) !! d = Some q → (vlen q ≤ c.(limits).(max_queued_per_device))%N) ∧
  (∀ d id id', unknown_outcome c.(operations) d id → (id ∉ c.(retired_indeterminate)) →
     holds_device c.(operations) d id' → is_recovery_read_only c id' = true).
Proof.
  intros Hinv%reachable_inv. pose proof (inv_occupancy _ Hinv) as [Ha Hb Hcap _ Hx _].
  split_and!.
  - intros d id id' H%Ha H'%Ha. congruence.
  - done.
  - intros d id. by rewrite Ha.
  - apply (queue_bound _ _ _ (inv_queues _ Hinv)).
  - intros d id id' Hu Hnr Hh. apply bool_decide_eq_true.
    eapply Hx; [by apply Hb; split|by apply Ha].
Qed.

(** Every call and every restart moves every operation along the life cycle:
    an operation is dispatched only once it was started, settles only from the
    device or by an explicit resolution, and a settled or indeterminate operation
    is never started again while the controller has a record of it. *)
Theorem operations_follow_lifecycle c k c' id :
  reachable c → step c k c' → lifecycle id k (operation_state c id) (operation_state c' id).
Proof.
  intros Hinv%reachable_inv [k'|l s c'' Hs Hr]; [by apply exec_lifecycle|].
  destruct (restore_is_restarted c l s c'' Hinv Hs Hr) as [_ ->].
  unfold operation_state. cbn. rewrite lookup_fmap.
  destruct (c.(operations) !! id) as [o|]; cbn; [|constructor].
  destruct (state o); cbn; try (by constructor; auto);
    destruct (is_recovery_read_only _ _); constructor; auto.
Qed.

(** A restart always succeeds, with any valid limits, on a state whose
    retired identifiers can be encoded and are not in use, and gives exactly the
    settled state: queued and unsent operations are cancelled, dispatched
    recovery reads have failed, every other dispatched operation is
    indeterminate and quarantines its device, the rest is unchanged. *)
Theorem restart_settles c l :
  reachable c → (0 < l.(max_global_active))%N →
  set_Forall ReplayDenyTombstone.encodable c.(retired_indeterminate) →
  (∀ id o, c.(operations) !! id = Some o → id ∈ c.(retired_indeterminate) →
     o.(state) = Indeterminate) →
  ∃ s, snapshot_for_restart c = Some s ∧ restore_after_restart l s = Ok (restarted c l).
Proof.
  intros Hinv%reachable_inv Hl Henc Hcons.
  destruct (restore_retired_complete c (inv_retired _ Hinv)) as (s & Hs & Hret).
  { intros id Hid. by apply ReplayDenyTombstone.tombstone_roundtrip_ex, Henc. }
  exists s. split; [done|]. rewrite (restore_snapshot c l s Hinv Hl Hs), Hret.
  assert (retired_consistent c.(retired_indeterminate) (restarted c l) = true) as ->; [|done].
  apply forallb_forall. intros id Hid%list_elem_of_In%elem_of_elements. cbn.
  rewrite lookup_fmap. destruct (c.(operations) !! id) as [o|] eqn:Ho; [|done]. cbn.
  apply bool_decide_eq_true. by rewrite (Hcons id o Ho Hid).
Qed.

(** ** Quarantine *)

(** Calls that end the quarantine caused by [id]. *)
Definition releases (id : string) (k : option call) : bool :=
  match k with
  | Some (Resolve id' _) | Some (Reconcile id' _) | Some (Retire id')
  | Some (RetireAndCancelQueued id') => bool_decide (id' = id)
  | _ => false
  end.

Lemma start_next_blocked c d :
  (start_next c d).1.(blocked_by_indeterminate) = c.(blocked_by_indeterminate).
Proof. apply start_next_frame. Qed.

(** Splits the tail [let (c, next) := start_next c d in (c, Ok next)]. *)
Ltac split_start :=
  match goal with |- context [start_next ?c ?d] =>
    let Hb := fresh in let Hr := fresh in
    pose proof (start_next_frame c d) as (Hb & Hr & _); destruct (start_next c d);
    cbn in Hb, Hr |- *; rewrite ?Hb, ?Hr
  end.

(** The quarantines and the retired identifiers after a call. *)
Inductive quarantine_change c k : HubAdmissionController → Prop :=
| change_none c' :
    c'.(blocked_by_indeterminate) = c.(blocked_by_indeterminate) →
    c'.(retired_indeterminate) = c.(retired_indeterminate) → quarantine_change c k c'
| change_block d id c' :
    c.(blocked_by_indeterminate) !! d = None →
    c'.(blocked_by_indeterminate) = <[d := id]> c.(blocked_by_indeterminate) →
    c'.(retired_indeterminate) = c.(retired_indeterminate) → quarantine_change c k c'
| change_release d id c' :
    c.(blocked_by_indeterminate) !! d = Some id → releases id (Some k) = true →
    c'.(blocked_by_indeterminate) = delete d c.(blocked_by_indeterminate) →
    (c'.(retired_indeterminate) = c.(retired_indeterminate) ∨
     c'.(retired_indeterminate) = {[id]} ∪ c.(retired_indeterminate)) → quarantine_change c k c'.

Lemma admit_change c r : quarantine_change c (Admit r) (admit_operation c r).1.
Proof. by destruct (admit_admitted c r); apply change_none. Qed.

Lemma admit_recovery_change c r : quarantine_change c (AdmitRecovery r) (admit_recovery_read_only c r).1.
Proof. unfold admit_recovery_read_only. run_goal; by apply change_none. Qed.

Lemma mark_dispatched_change c id : quarantine_change c (MarkDispatched id) (mark_dispatched c id).1.
Proof. unfold mark_dispatched. run_goal; by apply change_none. Qed.

Lemma cancel_change c id : quarantine_change c (Cancel id) (cancel c id).1.
Proof.
  unfold cancel. destruct (c.(operations) !! id) as [o|]; [|by apply change_none].
  destruct (state o); try by apply change_none.
  - apply change_none; unfold unqueue; run_goal; done.
  - apply change_none; by split_start.
Qed.

Lemma finalize_change c id t : quarantine_change c (Finalize id t) (finalize_terminal c id t).1.
Proof.
  unfold finalize_terminal. destruct (negb _); [by apply change_none|].
  destruct (c.(operations) !! id) as [o|]; [|by apply change_none].
  destruct (negb _); [by apply change_none|]. apply change_none; by split_start.
Qed.

Lemma fail_recovery_change c id : quarantine_change c (FailRecovery id) (fail_recovery_read_only c id).1.
Proof.
  unfold fail_recovery_read_only. destruct (negb _); [by apply change_none|].
  destruct (c.(operations) !! id) as [o|]; [|by apply change_none].
  destruct (negb _); [by apply change_none|]. apply change_none; by split_start.
Qed.

Lemma mark_indeterminate_change c id :
  inv c → quarantine_change c (MarkIndeterminate id) (mark_indeterminate c id).1.
Proof.
  intros Hinv. unfold mark_indeterminate.
  case_bool_decide as Hrec; [by apply change_none|].
  destruct (c.(operations) !! id) as [o|] eqn:Ho; [|by apply change_none].
  destruct (on_device o.(state)) eqn:Hd; [|by apply change_none].
  pose proof (inv_occupancy _ Hinv) as [Ha _ _ _ Hx _].
  apply (change_block _ _ (operation_device o) id); [|done..].
  apply eq_None_not_Some. intros [b Hb]. apply Hrec, (Hx _ _ _ Hb), Ha.
  exists o. split_and!; [done..|by apply on_device_live].
Qed.

Lemma resolve_change c id resolution :
  quarantine_change c (Resolve id resolution) (resolve_indeterminate c id resolution).1.
Proof.
  unfold resolve_indeterminate. destruct (c.(operations) !! id) as [o|]; [|by apply change_none].
  destruct (negb _); [by apply change_none|].
  destruct (not_blocked_by _ _ _) eqn:Hb; [by apply change_none|].
  apply not_blocked_by_false in Hb.
  apply (change_release _ _ (operation_device o) id);
    [done|by apply bool_decide_true|by split_start|left; by split_start].
Qed.

Lemma reconcile_change c id t :
  quarantine_change c (Reconcile id t) (reconcile_indeterminate_terminal c id t).1.
Proof.
  unfold reconcile_indeterminate_terminal. destruct (negb _); [by apply change_none|].
  destruct (c.(operations) !! id) as [o|]; [|by apply change_none].
  destruct (negb _); [by apply change_none|].
  destruct (not_blocked_by _ _ _) eqn:Hb; [by apply change_none|].
  apply not_blocked_by_false in Hb.
  apply (change_release _ _ (operation_device o) id);
    [done|by apply bool_decide_true|by split_start|left; by split_start].
Qed.

Lemma retire_change c id : quarantine_change c (Retire id) (retire_indeterminate c id).1.
Proof.
  unfold retire_indeterminate. destruct (retirable c id) as [d|e] eqn:Hd; [|by apply change_none].
  apply retirable_Ok in Hd as (o & _ & _ & _ & _ & _ & Hb).
  apply (change_release _ _ d id);
    [done|by apply bool_decide_true|by split_start|right; by split_start].
Qed.

Lemma discard_change c id :
  quarantine_change c (RetireAndCancelQueued id) (retire_indeterminate_and_cancel_queued c id).1.
Proof.
  unfold retire_indeterminate_and_cancel_queued.
  destruct (retirable c id) as [d|e] eqn:Hd; [|by apply change_none].
  apply retirable_Ok in Hd as (o & _ & _ & _ & _ & _ & Hb).
  destruct (existsb _ _); [by apply change_none|].
  apply (change_release _ _ d id); [done|by apply bool_decide_true|done|by right].
Qed.

Lemma compact_change c id : quarantine_change c (Compact id) (compact_retired_indeterminate_detail c id).1.
Proof. unfold compact_retired_indeterminate_detail. run_goal; by apply change_none. Qed.

Lemma prune_change c d g : quarantine_change c (Prune d g) (prune_terminal_before_generation c d g).1.
Proof. unfold prune_terminal_before_generation. run_goal; by apply change_none. Qed.

#[local] Hint Resolve admit_change admit_recovery_change mark_dispatched_change cancel_change
  finalize_change fail_recovery_change mark_indeterminate_change resolve_change reconcile_change
  retire_change discard_change compact_change prune_change : admission.

Lemma exec_change c k : inv c → quarantine_change c k (exec c k).
Proof. destruct k; cbn [exec]; auto with admission. Qed.

Lemma step_blocked c k c' d id :
  inv c → step c k c' → releases id k = false →
  c.(blocked_by_indeterminate) !! d = Some id → c'.(blocked_by_indeterminate) !! d = Some id.
Proof.
  intros Hinv [k'|l s c'' Hs Hr] Hrel Hb.
  - destruct (exec_change c k' Hinv) as [c1 -> _|d' id' c1 Hn -> _|d' id' c1 Hb' Hrel' -> _].
    + done.
    + rewrite lookup_insert_ne; [done|congruence].
    + rewrite lookup_delete_ne; [done|]. intros ->. congruence.
  - destruct (restore_is_restarted c l s c'' Hinv Hs Hr) as [_ ->]. cbn.
    apply lookup_union_Some_raw. by left.
Qed.

Lemma run_blocked c c' d id :
  inv c → run (λ k, releases id k = false) c c' →
  c.(blocked_by_indeterminate) !! d = Some id → c'.(blocked_by_indeterminate) !! d = Some id.
Proof.
  intros Hinv Hrun Hb. induction Hrun as [|k c' c'' Hrun IH Hok Hstep]; [done|].
  eapply step_blocked; [by eapply run_inv|done..].
Qed.

(** A device whose operation has an unknown outcome stays quarantined, over
    any calls and restarts, until that very operation is resolved, reconciled or
    retired: every new operation for the device is refused without any effect,
    and nothing but recovery reads is live on it. *)
Theorem quarantine_persists c c' d id :
  reachable c → unknown_outcome c.(operations) d id → (id ∉ c.(retired_indeterminate)) →
  run (λ k, releases id k = false) c c' →
  (∀ r, r.(OperationRef.device_id) = d → ∃ e, admit_operation c' r = (c', Err e)) ∧
  (∀ r, r.(OperationRef.device_id) = d → blank_operation r = false →
     c'.(operations) !! r.(OperationRef.operation_id) = None →
     (r.(OperationRef.operation_id) ∉ c'.(retired_indeterminate)) →
     admit_operation c' r = (c', Err (ExecutionError.DeviceIndeterminate id))) ∧
  (∀ id', holds_device c'.(operations) d id' → is_recovery_read_only c' id' = true).
Proof.
  intros Hinv%reachable_inv Hu Hnr Hrun.
  pose proof (inv_occupancy _ Hinv) as [_ Hb _ _ _ _].
  pose proof (run_blocked c c' d id Hinv Hrun (proj2 (Hb d id) (conj Hu Hnr))) as Hbl.
  pose proof (run_inv _ _ _ Hinv Hrun) as Hinv'. split_and!.
  - intros r Hd. unfold admit_operation. rewrite Hd, Hbl. destruct (blank_operation r); [by eexists|].
    destruct (_ || _); by eexists.
  - intros r Hd Hblank Hnew Hnr'. unfold admit_operation. rewrite Hd, Hbl, Hblank, Hnew.
    by rewrite !bool_decide_false by (done || by intros []).
  - intros id' Hh. pose proof (inv_occupancy _ Hinv') as [Ha' _ _ _ Hx' _].
    apply bool_decide_eq_true. eapply Hx'; [done|by apply Ha'].
Qed.

(** ** No replay *)

(** Calls that establish what happened to [id]. *)
Definition establishes (id : string) (k : option call) : bool :=
  match k with
  | Some (Resolve id' _) | Some (Reconcile id' _) => bool_decide (id' = id)
  | _ => false
  end.

Definition remembered c id : Prop :=
  id ∈ c.(retired_indeterminate) ∨ operation_state c id = Some Indeterminate.

Lemma step_remembered c k c' id :
  inv c → step c k c' → establishes id k = false → remembered c id → remembered c' id.
Proof.
  intros Hinv [k'|l s c'' Hs Hr] Hest [Hret|Hst].
  - left. by destruct (exec_change c k' Hinv) as [c1 _ ->|d' id' c1 _ _ ->|d' id' c1 _ _ _ [->| ->]];
      set_solver.
  - pose proof (exec_lifecycle c k' id Hinv) as Hl. rewrite Hst in Hl.
    destruct (operation_state (exec c k') id) as [s'|] eqn:Hs'.
    { right. rewrite Hs'. inversion Hl; subst; try done;
        cbn in Hest; by rewrite bool_decide_true in Hest. }
    inversion Hl; subst; try done.
    left. cbn in Hs' |- *. unfold compact_retired_indeterminate_detail in Hs' |- *.
    destruct (bool_decide_reflect (id ∈ c.(retired_indeterminate))); cbn in Hs' |- *; [|congruence].
    run_goal; done.
  - destruct (restore_is_restarted c l s c'' Hinv Hs Hr) as [_ ->]. by left.
  - destruct (restore_is_restarted c l s c'' Hinv Hs Hr) as [_ ->]. right.
    unfold operation_state in *. cbn. rewrite lookup_fmap.
    destruct (c.(operations) !! id) as [o|]; [|done]. cbn in *. by simplify_eq/=; rewrite Hst.
Qed.

(** an operation whose outcome became unknown is never admitted again, over
    any calls (retirement, compaction and pruning included) and restarts, unless
    its outcome was established by a resolution or by evidence. *)
Theorem unknown_outcome_never_replayed c c' id r :
  reachable c → operation_state c id = Some Indeterminate →
  run (λ k, establishes id k = false) c c' →
  r.(OperationRef.operation_id) = id → blank_operation r = false →
  admit_operation c' r = (c', Err ExecutionError.OperationReplay).
Proof.
  intros Hinv%reachable_inv Hst Hrun Hid Hblank.
  assert (remembered c' id) as Hrem.
  { assert (remembered c id) as Hrem by by right. revert Hrem.
    induction Hrun as [|k c' c'' Hrun IH Hok Hstep]; [done|]. intros Hrem.
    eapply step_remembered; [by eapply run_inv|done|done|by apply IH]. }
  unfold admit_operation. rewrite Hblank, Hid. destruct Hrem as [Hret|Hst'].
  - by rewrite (bool_decide_true (id ∈ _)), orb_true_r by done.
  - unfold operation_state in Hst'. destruct (c'.(operations) !! id); [|done].
    by rewrite bool_decide_true by by eexists.
Qed.

(** ** Queued work *)

(** No capacity is idle while work waits: it is used up, or no queued operation belongs
    to a device that is free and not quarantined. *)
Definition full c : Prop := (c.(limits).(max_global_active) ≤ mlen c.(active_by_device))%N.
Definition work_conserving c : Prop :=
  full c ∨ ∀ id o, c.(operations) !! id = Some o → o.(state) = Queued →
             is_free c (operation_device o) = false.

Lemma work_conserving_queues c :
  inv c → work_conserving c ↔
    full c ∨ ∀ d q, c.(queued_by_device) !! d = Some q → q ≠ [] → is_free c d = false.
Proof.
  intros [_ Hq _ _]. split; (intros [?|Hc]; [by left|right]).
  - intros d [|r q] Hd Hne; [done|]. destruct (queue_sound _ _ _ Hq d _ r Hd) as [<- Ho]; [by left|].
    exact (Hc _ _ Ho eq_refl).
  - intros id o Ho Hst. destruct (queue_complete _ _ _ Hq id o Ho Hst) as (_ & q & Hd & Hin).
    apply (Hc _ _ Hd). by intros ->; apply elem_of_nil in Hin.
Qed.

(** The queue of a device that was given up: what is started then uses the capacity
    again, or is work of the same device. *)
Lemma filled_conserving c d res :
  inv c → filled c res → c.(active_by_device) !! d = None →
  (res.2 = None → work_conserving res.1)
  ∧ ((c.(limits).(max_global_active) ≤ mlen c.(active_by_device) + 1)%N ∨
     (∀ d' q, c.(queued_by_device) !! d' = Some q → q ≠ [] → d' ≠ d → is_free c d' = false) →
     work_conserving res.1).
Proof.
  intros Hinv Hfill Hd. pose proof (filled_inv _ _ Hfill Hinv) as Hinv'.
  rewrite (work_conserving_queues _ Hinv').
  destruct Hfill as [Hfull|qs [Htrim _] Hno|qs e r q [Htrim Hkeep] Hlt Hfree Hq]; cbn in *.
  - split; intros _; by left.
  - split; intros _; right; intros d' q Hq; apply Hno; by apply Htrim.
  - split; [done|]. apply is_free_true in Hfree as [He Hb].
    destruct (queue_sound _ _ _ (inv_queues _ Hinv) e _ r (Htrim _ _ Hq)) as [He' _]; [by left|].
    intros [Hone|Hno]; [left|right]; unfold full, start; cbn; rewrite He'.
    + rewrite mlen_insert_new by done. lia.
    + destruct (decide (e = d)) as [->|Hne]; [|].
      * intros d' q' Hq' Hne'. unfold is_free. cbn. destruct (decide (d' = d)) as [->|Hdd].
        { by rewrite lookup_insert_eq. }
        rewrite lookup_insert_ne by done. apply put_queue_Some in Hq' as [[-> _]|[_ Hq']]; [done|].
        by eapply Hno; [apply Htrim| |].
      * assert (is_free c e = true) as Hf by by apply is_free_true.
        rewrite (Hno e (r :: q)) in Hf; [done|by apply Htrim|done..].
Qed.

(** C37: Settling an operation leaves no capacity idle while work waits. When
    [finalize_terminal] starts nothing, the capacity is used up or no queued operation
    belongs to a device that is free and not quarantined; and when that was so before
    the call, it is so afterwards, whatever the call starts. (A lost connection gives
    capacity up without starting anything, see [lost_connection_strands_queue]; the
    settlement of another operation then starts one of the operations that wait.) *)
Theorem finalize_is_work_conserving c id t c' next :
  reachable c → finalize_terminal c id t = (c', Ok next) →
  (next = CompletionDecision.Idle → work_conserving c')
  ∧ (work_conserving c → work_conserving c').
Proof.
  intros Hinv%reachable_inv Hf. unfold finalize_terminal in Hf. run Hf.
  match goal with H : c.(operations) !! id = Some _ |- _ => rename H into Ho end.
  match type of Ho with _ = Some ?x => set (o := x) in * end. split_bools.
  assert (live o.(state) = true) as Hlive by by apply on_device_live.
  set (c1 := release_device _ _ _) in *.
  assert (inv c1) as Hinv1 by by apply release_device_inv.
  assert (c.(active_by_device) !! operation_device o = Some id) as Hact.
  { apply (occ_active _ _ _ _ _ _ (inv_occupancy _ Hinv)). by exists o. }
  destruct (filled_conserving c1 (operation_device o) _ Hinv1
    (start_next_filled c1 (Some (operation_device o)))) as [Hidle Hkeep]; [apply lookup_delete_eq|].
  match goal with H : start_next _ _ = _ |- _ => unfold start_next in H;
    destruct (start_next_for_available_capacity _ _) as [c2 n]; injection H as <- <- end.
  cbn in Hidle, Hkeep. split; [by destruct n; [|intros _; apply Hidle]|].
  rewrite (work_conserving_queues c Hinv). intros [Hfull|Hno]; apply Hkeep; cbn; [left|right].
  - unfold full, mlen in *. rewrite map_size_delete, Hact. cbn. lia.
  - intros d' q Hq Hne Hd'. rewrite <- (Hno d' q Hq Hne). unfold is_free. cbn.
    by rewrite lookup_delete_ne.
Qed.
End Theorems.

(** ** Witnesses and two traces *)

Module Examples.
#[local] Existing Instance canonical_hash_iter.
Import ReplayDenyTombstone.Examples.

Definition op (d id : string) : OperationRef := OperationRef.mk d 1 id.
Definition one_slot : AdmissionLimits := mk_limits 1 4.

(** [op_1] of [dev_a] runs and loses its connection while [op_2] of [dev_b] waits. *)
Definition lost : list call :=
  [Admit (op "dev_a" "op_1"); Admit (op "dev_b" "op_2"); MarkDispatched "op_1";
   MarkIndeterminate "op_1"].

Definition exec_all (c : HubAdmissionController) (ks : list call) : HubAdmissionController :=
  foldl exec c ks.

Lemma exec_all_run ok c ks :
  Forall (λ k, ok (Some k)) ks → run ok c (exec_all c ks).
Proof.
  induction ks as [|k ks IH] using rev_ind; intros Hok; [constructor|].
  apply Forall_app in Hok as [Hok Hk]. rewrite Forall_singleton in Hk.
  unfold exec_all. rewrite foldl_app. eapply run_step; [by apply IH|exact Hk|constructor].
Qed.

Definition c_lost : HubAdmissionController := exec_all (empty_admission one_slot) lost.

Lemma exec_all_reachable l c0 ks : new_admission l = Ok c0 → reachable (exec_all c0 ks).
Proof. intros H. exists l, c0. split; [done|]. apply exec_all_run. by apply Forall_true. Qed.

Lemma c_lost_reachable : reachable c_lost.
Proof. by apply (exec_all_reachable one_slot). Qed.

Definition record (d id : string) (s : HubOperationState) : HubOperation := mk_operation (op d id) s.

Lemma admission_mutual_exclusion_witness :
  (mlen c_lost.(active_by_device) ≤ 1)%N.
Proof. exact (proj1 (proj2 (admission_mutual_exclusion c_lost c_lost_reachable))). Defined.

Lemma operations_follow_lifecycle_witness :
  lifecycle "op_2" (Some (Resolve "op_1" IndeterminateResolution.ConfirmedCompleted))
    (Some Queued) (Some ActiveNotDispatched).
Proof.
  exact (operations_follow_lifecycle c_lost
           (Some (Resolve "op_1" IndeterminateResolution.ConfirmedCompleted)) _ "op_2"
           c_lost_reachable (step_call _ _)).
Defined.

Lemma restart_settles_witness :
  ∃ s, snapshot_for_restart c_lost = Some s ∧
       restore_after_restart one_slot s = Ok (restarted c_lost one_slot).
Proof.
  apply (restart_settles c_lost one_slot c_lost_reachable); [done|..].
  - intros id Hid. exfalso. change (id ∈ (∅ : gset string)) in Hid. by apply elem_of_empty in Hid.
  - intros id o _ Hid. exfalso. change (id ∈ (∅ : gset string)) in Hid. by apply elem_of_empty in Hid.
Defined.

Lemma op_1_unknown : unknown_outcome c_lost.(operations) "dev_a" "op_1".
Proof. exists (record "dev_a" "op_1" Indeterminate). by split_and!. Qed.

Lemma quarantine_persists_witness :
  ∃ e, admit_operation c_lost (op "dev_a" "op_9") = (c_lost, Err e).
Proof.
  refine (proj1 (quarantine_persists c_lost c_lost "dev_a" "op_1" c_lost_reachable
                   op_1_unknown _ (run_refl _ _)) (op "dev_a" "op_9") eq_refl).
  intros Hid. change ("op_1" ∈ (∅ : gset string)) in Hid. by apply elem_of_empty in Hid.
Defined.

Definition retired_and_compacted : list call := [Retire "op_1"; Compact "op_1"].

Lemma unknown_outcome_never_replayed_witness :
  admit_operation (exec_all c_lost retired_and_compacted) (op "dev_a" "op_1") =
    (exec_all c_lost retired_and_compacted, Err ExecutionError.OperationReplay).
Proof.
  apply (unknown_outcome_never_replayed c_lost _ "op_1" (op "dev_a" "op_1") c_lost_reachable).
  - reflexivity.
  - apply exec_all_run. repeat constructor.
  - reflexivity.
  - reflexivity.
Defined.

Definition c_running : HubAdmissionController :=
  exec_all (empty_admission one_slot)
    [Admit (op "dev_a" "op_1"); Admit (op "dev_b" "op_2"); MarkDispatched "op_1"].

Lemma c_running_conserving : work_conserving c_running.
Proof. left. vm_compute. discriminate. Qed.

Lemma finalize_is_work_conserving_witness :
  (finalize_terminal c_running "op_1" Completed).2
    = Ok (CompletionDecision.StartNext (op "dev_b" "op_2"))
  ∧ work_conserving (finalize_terminal c_running "op_1" Completed).1.
Proof.
  split; [by_eval|].
  refine (proj2 (finalize_is_work_conserving c_running "op_1" Completed _
    (CompletionDecision.StartNext (op "dev_b" "op_2")) _ _) c_running_conserving).
  - by apply (exec_all_reachable one_slot).
  - by_eval.
Defined.

(** Losing the connection of one device's operation frees capacity but
    starts nothing: the queued operation of another, free device keeps waiting,
    and an operation admitted later for that device overtakes it. *)
Theorem lost_connection_strands_queue :
  (mark_indeterminate (exec_all (empty_admission one_slot) (take 3 lost)) "op_1").2
    = Ok CompletionDecision.Idle ∧
  mlen c_lost.(active_by_device) = 0%N ∧ is_free c_lost "dev_b" = true ∧
  operation_state c_lost "op_2" = Some Queued ∧
  (admit_operation c_lost (op "dev_b" "op_3")).2 = Ok (AdmissionDecision.StartNow (op "dev_b" "op_3")).
Proof. split_and!; by_eval. Qed.

(** [op_1] is retired and its record compacted; then [op_2] is quarantined. *)
Definition reuse : list call :=
  [Admit (op "dev_a" "op_1"); MarkDispatched "op_1"; MarkIndeterminate "op_1";
   Retire "op_1"; Compact "op_1";
   Admit (op "dev_a" "op_2"); MarkDispatched "op_2"; MarkIndeterminate "op_2"].

(** The recovery read reuses the retired identifier and completes. *)
Definition reused : list call :=
  reuse ++ [AdmitRecovery (op "dev_a" "op_1"); MarkDispatched "op_1"; Finalize "op_1" Completed].

(** The recovery lane does not consult the replay-deny tombstones: it admits
    an identifier that was retired with its outcome unknown (the normal lane
    refuses it), and the snapshot taken afterwards cannot be restored. *)
Theorem recovery_lane_reuses_retired_identifier :
  let c := exec_all (empty_admission one_slot) reuse in
  let c' := exec_all (empty_admission one_slot) reused in
  "op_1" ∈ c.(retired_indeterminate) ∧
  (admit_operation c (op "dev_a" "op_1")).2 = Err ExecutionError.OperationReplay ∧
  (admit_recovery_read_only c (op "dev_a" "op_1")).2
    = Ok (AdmissionDecision.StartNow (op "dev_a" "op_1")) ∧
  (restore_after_restart one_slot <$> snapshot_for_restart c') =
    Some (Err ExecutionError.InvalidSnapshot).
Proof.
  split_and!; [|by_eval..]. apply (bool_decide_eq_true _). by_eval.
Qed.
End Examples.
