(* ===== verification/AdmissionEffects.v ===== *)
(** * The exact effect of the admission calls

    What each call of [HubAdmissionController] does to the records and the books
    when it succeeds, and that it changes nothing when it fails: the interface the
    proofs about the operation ledger use instead of the definitions. *)

From S2P Require Import Prelude Vocabulary Tombstone Admission AdmissionSafety.
From S2P Require Import AdmissionRestart AdmissionTheorems.
Import HubOperationState.

(** The queued operation a decision starts. *)
Definition promote (next : CompletionDecision) (ops : gmap string HubOperation)
    : gmap string HubOperation :=
  match next with
  | CompletionDecision.Idle => ops
  | CompletionDecision.StartNext r =>
      alter (λ o, mk_operation o.(operation) ActiveNotDispatched)
        r.(OperationRef.operation_id) ops
  end.

Definition promotable (next : CompletionDecision) (ops : gmap string HubOperation) : Prop :=
  match next with
  | CompletionDecision.Idle => True
  | CompletionDecision.StartNext r =>
      ops !! r.(OperationRef.operation_id) = Some (mk_operation r Queued)
  end.

(** The controller [a'] has these records, after [next] started, and these books. *)
Record becomes (a' : HubAdmissionController) (next : CompletionDecision)
    (ops : gmap string HubOperation) (blocked : gmap string string)
    (retired recovery : gset string) : Prop := {
  be_ops : a'.(operations) = promote next ops;
  be_next : promotable next ops;
  be_blocked : a'.(blocked_by_indeterminate) = blocked;
  be_retired : a'.(retired_indeterminate) = retired;
  be_recovery : a'.(recovery_read_only_operations) = recovery
}.

Section Effects.
Context `{HI : HashIter}.
Implicit Types (a : HubAdmissionController) (id d : string).

Lemma start_next_becomes a d a' next :
  inv a → start_next a d = (a', next) →
  becomes a' next a.(operations) a.(blocked_by_indeterminate) a.(retired_indeterminate)
    a.(recovery_read_only_operations).
Proof.
  intros Hinv. unfold start_next.
  destruct (start_next_filled a (Some d)) as [|qs|qs d' r q [Htrim _] _ _ Hd];
    intros [= <- <-]; [by split..|].
  assert (a.(operations) !! r.(OperationRef.operation_id) = Some (mk_operation r Queued)) as Hr.
  { apply (queue_sound _ _ _ (inv_queues _ Hinv) d' (r :: q) r (Htrim _ _ Hd)). left. }
  split; cbn; [|done..]. apply map_eq. intros id.
  destruct (decide (id = r.(OperationRef.operation_id))) as [->|Hne].
  - by rewrite lookup_insert_eq, lookup_alter_eq, Hr.
  - by rewrite lookup_insert_ne, lookup_alter_ne.
Qed.

(** *** Admission *)

Lemma admit_Ok a r a' decision :
  admit_operation a r = (a', Ok decision) →
  a.(operations) !! r.(OperationRef.operation_id) = None ∧
  (r.(OperationRef.operation_id) ∉ a.(retired_indeterminate)) ∧
  a.(blocked_by_indeterminate) !! r.(OperationRef.device_id) = None ∧
  becomes a' CompletionDecision.Idle
    (<[r.(OperationRef.operation_id) := mk_operation r (admitted_state decision)]> a.(operations))
    a.(blocked_by_indeterminate) a.(retired_indeterminate) a.(recovery_read_only_operations).
Proof.
  destruct (admit_admitted a r) as [e| |Hop Hnr Hb Ha Hcap|q -> Hop Hnr Hb Hlen]; [done..| |];
    intros [= <- <-]; (split_and!; [done..|]; by split).
Qed.

Lemma admit_Err a r a' e :
  admit_operation a r = (a', Err e) →
  a' = a ∨ (e = ExecutionError.BackpressureRejected ∧
    a' = set_queued a (<[r.(OperationRef.device_id) :=
      default [] (a.(queued_by_device) !! r.(OperationRef.device_id))]> a.(queued_by_device))).
Proof.
  destruct (admit_admitted a r) as [e'| |Hop Hnr Hb Ha Hcap|q -> Hop Hnr Hb Hlen]; [| |done..];
    intros [= <- <-]; auto.
Qed.

Lemma admit_recovery_Ok a r a' decision :
  admit_recovery_read_only a r = (a', Ok decision) →
  a.(operations) !! r.(OperationRef.operation_id) = None ∧
  is_Some (a.(blocked_by_indeterminate) !! r.(OperationRef.device_id)) ∧
  admitted_state decision = ActiveNotDispatched ∧
  becomes a' CompletionDecision.Idle
    (<[r.(OperationRef.operation_id) := mk_operation r ActiveNotDispatched]> a.(operations))
    a.(blocked_by_indeterminate) a.(retired_indeterminate)
    ({[r.(OperationRef.operation_id)]} ∪ a.(recovery_read_only_operations)).
Proof.
  unfold admit_recovery_read_only. intros H. run H.
  split_and!; [by apply eq_None_not_Some|done|done|by split].
Qed.

Lemma admit_recovery_Err a r a' e : admit_recovery_read_only a r = (a', Err e) → a' = a.
Proof. unfold admit_recovery_read_only. intros H. by run H. Qed.

(** *** Dispatch and completion *)

Lemma mark_dispatched_Ok a id a' u :
  mark_dispatched a id = (a', Ok u) →
  ∃ o, a.(operations) !! id = Some o ∧ o.(state) = ActiveNotDispatched ∧
  becomes a' CompletionDecision.Idle (<[id := mk_operation o.(operation) Dispatched]> a.(operations))
    a.(blocked_by_indeterminate) a.(retired_indeterminate) a.(recovery_read_only_operations).
Proof.
  unfold mark_dispatched. intros H. run H. eexists. split_and!; [done..|by split].
Qed.

Lemma mark_dispatched_Err a id a' e : mark_dispatched a id = (a', Err e) → a' = a.
Proof. unfold mark_dispatched. intros H. by run H. Qed.

(** The common tail of the calls that settle the live operation [id]. *)
Lemma release_becomes a id o s a' next :
  inv a → a.(operations) !! id = Some o → live o.(state) = true → settled s = true →
  start_next (release_device (put_state a id o s) (operation_device o) id) (operation_device o)
    = (a', next) →
  becomes a' next (<[id := mk_operation o.(operation) s]> a.(operations))
    a.(blocked_by_indeterminate) a.(retired_indeterminate)
    (a.(recovery_read_only_operations) ∖ {[id]}).
Proof.
  intros Hinv Ho Hl Hs H. apply start_next_becomes in H; [done|].
  by apply release_device_inv.
Qed.

Lemma finalize_terminal_Ok a id t a' next :
  inv a → finalize_terminal a id t = (a', Ok next) →
  ∃ o, a.(operations) !! id = Some o ∧ on_device o.(state) = true ∧ settled t = true ∧
  becomes a' next (<[id := mk_operation o.(operation) t]> a.(operations))
    a.(blocked_by_indeterminate) a.(retired_indeterminate)
    (a.(recovery_read_only_operations) ∖ {[id]}).
Proof.
  intros Hinv. unfold finalize_terminal. destruct (settled t) eqn:Ht; [|done]. cbn.
  destruct (a.(operations) !! id) as [o|] eqn:Ho; [|done].
  destruct (on_device o.(state)) eqn:Hd; [|done]. cbn.
  destruct (start_next _ _) as [a1 n1] eqn:Hs. intros [= <- <-].
  exists o. split_and!; [done..|]. eapply release_becomes; [done|done|by apply on_device_live|done..].
Qed.

Lemma finalize_terminal_Err a id t a' e : finalize_terminal a id t = (a', Err e) → a' = a.
Proof. unfold finalize_terminal. intros H. by run H. Qed.

Lemma fail_recovery_Ok a id a' next :
  inv a → fail_recovery_read_only a id = (a', Ok next) →
  ∃ o, a.(operations) !! id = Some o ∧ on_device o.(state) = true ∧
  becomes a' next (<[id := mk_operation o.(operation) Failed]> a.(operations))
    a.(blocked_by_indeterminate) a.(retired_indeterminate)
    (a.(recovery_read_only_operations) ∖ {[id]}).
Proof.
  intros Hinv. unfold fail_recovery_read_only. case_bool_decide as Hrec; [|done]. cbn.
  destruct (a.(operations) !! id) as [o|] eqn:Ho; [|done].
  destruct (on_device o.(state)) eqn:Hd; [|done]. cbn.
  destruct (start_next _ _) as [a1 n1] eqn:Hs. intros [= <- <-].
  exists o. split_and!; [done..|]. eapply release_becomes; [done|done|by apply on_device_live|done..].
Qed.

Lemma fail_recovery_Err a id a' e : fail_recovery_read_only a id = (a', Err e) → a' = a.
Proof. unfold fail_recovery_read_only. intros H. by run H. Qed.

(** *** Cancellation *)

Lemma cancel_Err a id a' e : cancel a id = (a', Err e) → a' = a.
Proof.
  unfold cancel. destruct (a.(operations) !! id) as [o|]; [|congruence].
  destruct o.(state); try congruence. by destruct (start_next _ _).
Qed.

(** A cancellation before dispatch, of a queued or of an active operation. *)
Lemma cancel_before_dispatch a id a' next :
  inv a → cancel a id = (a', Ok (CancellationDecision.CancelledBeforeDispatch next)) →
  ∃ o, a.(operations) !! id = Some o ∧
  (o.(state) = Queued ∧ next = CompletionDecision.Idle ∨ o.(state) = ActiveNotDispatched) ∧
  becomes a' next (<[id := mk_operation o.(operation) Cancelled]> a.(operations))
    a.(blocked_by_indeterminate) a.(retired_indeterminate)
    (a.(recovery_read_only_operations) ∖ {[id]}).
Proof.
  intros Hinv. unfold cancel. destruct (a.(operations) !! id) as [o|] eqn:Ho; [|done].
  destruct o.(state) eqn:Hst; try done.
  - intros [= <- <-]. exists o. split_and!; [done|by left|].
    destruct (unqueue_spec a id o Hinv Ho Hst) as (q & _ & _ & ->). split; cbn; try done.
    assert (id ∉ a.(recovery_read_only_operations)); [|set_solver].
    intros Hr. destruct (occ_recovery _ _ _ _ _ _ (inv_occupancy _ Hinv) id Hr) as [d Hd].
    apply (holds_device_at _ _ _ _ Ho) in Hd as [_ Hl]. by rewrite Hst in Hl.
  - destruct (start_next _ _) as [a1 n1] eqn:Hs. intros [= <- <-].
    exists o. split_and!; [done|by right|].
    eapply release_becomes; [done|done|by rewrite Hst|done|done].
Qed.

Lemma cancel_sent a id a' r :
  cancel a id = (a', Ok (CancellationDecision.SendCancellation r)) →
  ∃ o, a.(operations) !! id = Some o ∧ on_device o.(state) = true ∧
  becomes a' CompletionDecision.Idle
    (<[id := mk_operation o.(operation) CancelRequested]> a.(operations))
    a.(blocked_by_indeterminate) a.(retired_indeterminate) a.(recovery_read_only_operations).
Proof.
  unfold cancel. destruct (a.(operations) !! id) as [o|] eqn:Ho; [|done].
  destruct o.(state) eqn:Hst; try done.
  - by destruct (start_next _ _).
  - intros [= <- <-]. exists o. rewrite Hst. split_and!; [done..|]. by split.
  - intros [= <- <-]. exists o. rewrite Hst. split_and!; [done..|]. split; try done.
    cbn. rewrite insert_id; [done|]. rewrite Ho. destruct o. cbn in *. by subst.
Qed.

Lemma cancel_terminal a id a' s :
  cancel a id = (a', Ok (CancellationDecision.AlreadyTerminal s)) → a' = a.
Proof.
  unfold cancel. destruct (a.(operations) !! id) as [o|]; [|done].
  destruct o.(state); try congruence. by destruct (start_next _ _).
Qed.

(** *** Unknown outcomes *)

Lemma mark_indeterminate_Ok a id a' next :
  mark_indeterminate a id = (a', Ok next) →
  next = CompletionDecision.Idle ∧ (id ∉ a.(recovery_read_only_operations)) ∧
  ∃ o, a.(operations) !! id = Some o ∧ on_device o.(state) = true ∧
  becomes a' next (<[id := mk_operation o.(operation) Indeterminate]> a.(operations))
    (<[operation_device o := id]> a.(blocked_by_indeterminate)) a.(retired_indeterminate)
    a.(recovery_read_only_operations).
Proof.
  unfold mark_indeterminate. intros H. run H. split_and!; [done..|].
  eexists. split_and!; [done..|]. by split.
Qed.

Lemma mark_indeterminate_Err a id a' e : mark_indeterminate a id = (a', Err e) → a' = a.
Proof. unfold mark_indeterminate. intros H. by run H. Qed.

(** The common tail of the calls that settle an unknown outcome. *)
Lemma unblock_becomes a id o s a' next :
  inv a → a.(operations) !! id = Some o →
  a.(blocked_by_indeterminate) !! operation_device o = Some id → settled s = true →
  start_next (unblock (put_state a id o s) (operation_device o)) (operation_device o)
    = (a', next) →
  becomes a' next (<[id := mk_operation o.(operation) s]> a.(operations))
    (delete (operation_device o) a.(blocked_by_indeterminate)) a.(retired_indeterminate)
    a.(recovery_read_only_operations).
Proof.
  intros Hinv Ho Hb Hs H. apply start_next_becomes in H; [done|]. by apply unblock_inv.
Qed.

Lemma resolve_Ok a id resolution a' next :
  inv a → resolve_indeterminate a id resolution = (a', Ok next) →
  ∃ o, a.(operations) !! id = Some o ∧ o.(state) = Indeterminate ∧
  a.(blocked_by_indeterminate) !! operation_device o = Some id ∧
  becomes a' next (<[id := mk_operation o.(operation) (resolved_state resolution)]> a.(operations))
    (delete (operation_device o) a.(blocked_by_indeterminate)) a.(retired_indeterminate)
    a.(recovery_read_only_operations).
Proof.
  intros Hinv. unfold resolve_indeterminate.
  destruct (a.(operations) !! id) as [o|] eqn:Ho; [|done]. case_bool_decide as Hi; [|done]. cbn.
  destruct (not_blocked_by _ _ _) eqn:Hb; [done|]. apply not_blocked_by_false in Hb.
  destruct (start_next _ _) as [a1 n1] eqn:Hs. intros [= <- <-].
  exists o. split_and!; [done..|]. eapply unblock_becomes; [done..|by destruct resolution|done].
Qed.

Lemma resolve_Err a id resolution a' e :
  resolve_indeterminate a id resolution = (a', Err e) → a' = a.
Proof. unfold resolve_indeterminate. intros H. by run H. Qed.

Lemma reconcile_Ok a id t a' next :
  inv a → reconcile_indeterminate_terminal a id t = (a', Ok next) →
  ∃ o, a.(operations) !! id = Some o ∧ o.(state) = Indeterminate ∧ settled t = true ∧
  a.(blocked_by_indeterminate) !! operation_device o = Some id ∧
  becomes a' next (<[id := mk_operation o.(operation) t]> a.(operations))
    (delete (operation_device o) a.(blocked_by_indeterminate)) a.(retired_indeterminate)
    a.(recovery_read_only_operations).
Proof.
  intros Hinv. unfold reconcile_indeterminate_terminal. destruct (settled t) eqn:Ht; [|done]. cbn.
  destruct (a.(operations) !! id) as [o|] eqn:Ho; [|done]. case_bool_decide as Hi; [|done]. cbn.
  destruct (not_blocked_by _ _ _) eqn:Hb; [done|]. apply not_blocked_by_false in Hb.
  destruct (start_next _ _) as [a1 n1] eqn:Hs. intros [= <- <-].
  exists o. split_and!; [done..|]. by eapply unblock_becomes.
Qed.

Lemma reconcile_Err a id t a' e :
  reconcile_indeterminate_terminal a id t = (a', Err e) → a' = a.
Proof. unfold reconcile_indeterminate_terminal. intros H. by run H. Qed.

(** *** Retirement *)

Lemma retire_Ok a id a' next :
  inv a → retire_indeterminate a id = (a', Ok next) →
  ∃ o, a.(operations) !! id = Some o ∧ o.(state) = Indeterminate ∧
  a.(blocked_by_indeterminate) !! operation_device o = Some id ∧
  (id ∉ a.(retired_indeterminate)) ∧
  becomes a' next a.(operations) (delete (operation_device o) a.(blocked_by_indeterminate))
    ({[id]} ∪ a.(retired_indeterminate)) a.(recovery_read_only_operations).
Proof.
  intros Hinv. unfold retire_indeterminate. destruct (retirable a id) as [d|] eqn:Hr; [|done].
  destruct (retirable_Ok _ _ _ Hr) as (o & Ho & <- & Hi & Hnr & _ & Hb).
  destruct (start_next _ _) as [a1 n1] eqn:Hs. intros [= <- <-].
  exists o. split_and!; [done..|]. apply start_next_becomes in Hs; [done|]. by apply retire_inv.
Qed.

Lemma retire_Err a id a' e : retire_indeterminate a id = (a', Err e) → a' = a.
Proof. unfold retire_indeterminate. intros H. by run H. Qed.

Lemma retire_and_cancel_Ok a id a' queued :
  inv a → retire_indeterminate_and_cancel_queued a id = (a', Ok queued) →
  ∃ o, a.(operations) !! id = Some o ∧ o.(state) = Indeterminate ∧
  a.(blocked_by_indeterminate) !! operation_device o = Some id ∧
  (id ∉ a.(retired_indeterminate)) ∧
  NoDup (OperationRef.operation_id <$> queued) ∧
  (∀ r, r ∈ queued → a.(operations) !! r.(OperationRef.operation_id) = Some (mk_operation r Queued)) ∧
  becomes a' CompletionDecision.Idle (cancel_each queued a.(operations))
    (delete (operation_device o) a.(blocked_by_indeterminate))
    ({[id]} ∪ a.(retired_indeterminate)) a.(recovery_read_only_operations).
Proof.
  intros Hinv. unfold retire_indeterminate_and_cancel_queued.
  destruct (retirable a id) as [d|] eqn:Hr; [|done].
  destruct (retirable_Ok _ _ _ Hr) as (o & Ho & <- & Hi & Hnr & _ & Hb).
  destruct (existsb _ _); [done|]. intros [= <- <-]. exists o. split_and!; [done..| | |by split].
  - destruct (a.(queued_by_device) !! operation_device o) as [q|] eqn:Hq; [|constructor].
    eapply queue_ids_nodup; [apply Hinv|done].
  - intros r Hin. destruct (a.(queued_by_device) !! operation_device o) as [q|] eqn:Hq;
      [|by apply elem_of_nil in Hin].
    by apply (queue_sound _ _ _ (inv_queues _ Hinv) _ _ _ Hq).
Qed.

Lemma retire_and_cancel_Err a id a' e :
  retire_indeterminate_and_cancel_queued a id = (a', Err e) → a' = a.
Proof. unfold retire_indeterminate_and_cancel_queued. intros H. by run H. Qed.

Lemma compact_Ok a id a' u :
  compact_retired_indeterminate_detail a id = (a', Ok u) →
  (id ∈ a.(retired_indeterminate)) ∧
  (∃ o, a.(operations) !! id = Some o ∧ o.(state) = Indeterminate) ∧
  becomes a' CompletionDecision.Idle (delete id a.(operations)) a.(blocked_by_indeterminate)
    a.(retired_indeterminate) (a.(recovery_read_only_operations) ∖ {[id]}).
Proof.
  unfold compact_retired_indeterminate_detail. intros H. run H.
  split_and!; [done|eauto|by split].
Qed.

(** A retired unknown outcome that has a record can always be compacted. *)
Lemma compact_succeeds a id o :
  inv a → id ∈ a.(retired_indeterminate) → a.(operations) !! id = Some o →
  o.(state) = Indeterminate → ∃ a', compact_retired_indeterminate_detail a id = (a', Ok tt).
Proof.
  intros Hinv Hr Ho Hi. unfold compact_retired_indeterminate_detail.
  rewrite bool_decide_true by done. cbn. rewrite Ho, bool_decide_true by done. cbn.
  destruct (existsb _ _) eqn:Hx; [|by eexists].
  apply existsb_exists in Hx as ([d b] & Hin & Hb). split_bools. cbn in Hb. subst b.
  apply list_elem_of_In, elem_of_map_to_list in Hin.
  by apply (occ_blocked _ _ _ _ _ _ (inv_occupancy _ Hinv)) in Hin as [_ ?].
Qed.

Lemma prune_Ok a d g :
  inv a → trim_is_empty d || (g =? 0)%N = false →
  ∃ a' n, prune_terminal_before_generation a d g = (a', Ok n) ∧
  (∀ id, a'.(operations) !! id =
         match a.(operations) !! id with
         | Some o => if prunable d g o then None else Some o
         | None => None
         end) ∧
  a'.(blocked_by_indeterminate) = a.(blocked_by_indeterminate) ∧
  a'.(retired_indeterminate) = a.(retired_indeterminate) ∧
  a'.(recovery_read_only_operations) = a.(recovery_read_only_operations).
Proof.
  intros Hinv Hg. unfold prune_terminal_before_generation. rewrite Hg. do 2 eexists.
  split; [done|]. cbn. split_and!; [|done|done|].
  2:{ apply set_eq. intros id. rewrite elem_of_difference. split; [by intros [? _]|].
      intros Hr. split; [done|]. intros [o [Ho Hp]%map_lookup_filter_Some]%elem_of_dom.
      apply (recovery_live _ _ _ Hinv Hr) in Ho. cbn in Hp. unfold prunable in Hp. split_bools.
      by destruct o.(state). }
  intros id.
  destruct (a.(operations) !! id) as [o|] eqn:Ho.
  - destruct (prunable d g o) eqn:Hp.
    + apply lookup_difference_None. right. exists o. by apply map_lookup_filter_Some.
    + apply lookup_difference_Some. split; [done|]. apply map_lookup_filter_None. right.
      intros o' Ho' ?. simplify_eq/=. congruence.
  - apply lookup_difference_None. by left.
Qed.
End Effects.
