(* ===== verification/SafetyTypes.v ===== *)
(** * Vocabulary of the execution-safety ledger

    The data types of [src/src/v2_execution_safety.rs]: owners, evidence and
    receipts, the reasons and reconciliation states of unknown outcomes, retirement
    and mutation-resume records, the metadata admitted with an operation, and the
    records the ledger keeps and persists. *)

From S2P Require Import Prelude Vocabulary Tombstone Admission.

(** ** Owners, evidence and receipts *)

Module OperationOwner.
Record OperationOwner := mk {
  issuer : string;
  subject : string
}.
#[global] Instance OperationOwner_eq_dec : EqDecision OperationOwner.
Proof. solve_decision. Defined.
End OperationOwner.
Abbreviation OperationOwner := OperationOwner.OperationOwner.

Module IndeterminateReason.
Inductive IndeterminateReason :=
| CancellationUnproven
| BackendTimedOut
| BackendOutcomeUnproven
| ConnectionLost
| HubRestartAfterDispatch
| AgentRestartAfterDispatch
| ResultDeliveryLost.
#[global] Instance IndeterminateReason_eq_dec : EqDecision IndeterminateReason.
Proof. solve_decision. Defined.
End IndeterminateReason.
Abbreviation IndeterminateReason := IndeterminateReason.IndeterminateReason.

Module ExecutionEvidence.
Inductive ExecutionEvidence :=
| VerifiedAgentResult
| VerifiedRemoteError
| ProvenProcessTermination
| CancelledBeforeDispatch
| OperatorResolution
| RecoveryReadInterrupted
| HubEncodeFailedBeforeEnqueue
| HubOutboundClosedBeforeEnqueue.
#[global] Instance ExecutionEvidence_eq_dec : EqDecision ExecutionEvidence.
Proof. solve_decision. Defined.
End ExecutionEvidence.
Abbreviation ExecutionEvidence := ExecutionEvidence.ExecutionEvidence.

Module ExecutionReceipt.
Record ExecutionReceipt := mk {
  schema_version : N;
  operation : OperationRef;
  owner : OperationOwner;
  capability : DeviceCapability;
  terminal_state : HubOperationState;
  evidence : ExecutionEvidence;
  finalized_at_ms : N
}.
#[global] Instance ExecutionReceipt_eq_dec : EqDecision ExecutionReceipt.
Proof. solve_decision. Defined.
End ExecutionReceipt.
Abbreviation ExecutionReceipt := ExecutionReceipt.ExecutionReceipt.

Module ReconciliationStatus.
Inductive ReconciliationStatus :=
| AutoReconciling
| AutoResolved
| OperatorRequired
| UnrecoverableEvidenceGap.
#[global] Instance ReconciliationStatus_eq_dec : EqDecision ReconciliationStatus.
Proof. solve_decision. Defined.
End ReconciliationStatus.
Abbreviation ReconciliationStatus := ReconciliationStatus.ReconciliationStatus.

(** ** Retirement *)

Module RetirementCapacityStatus.
Inductive RetirementCapacityStatus :=
| Normal
| Warning
| Critical
| Exhausted.
#[global] Instance RetirementCapacityStatus_eq_dec : EqDecision RetirementCapacityStatus.
Proof. solve_decision. Defined.
End RetirementCapacityStatus.
Abbreviation RetirementCapacityStatus := RetirementCapacityStatus.RetirementCapacityStatus.

Module RetirementCapacity.
Record RetirementCapacity := mk {
  used : N;
  limit : N;
  detailed_history_used : N;
  detailed_history_limit : N;
  status : RetirementCapacityStatus
}.
#[global] Instance RetirementCapacity_eq_dec : EqDecision RetirementCapacity.
Proof. solve_decision. Defined.
End RetirementCapacity.
Abbreviation RetirementCapacity := RetirementCapacity.RetirementCapacity.

Module RetirementOutcome.
Inductive RetirementOutcome :=
| Unknown.
#[global] Instance RetirementOutcome_eq_dec : EqDecision RetirementOutcome.
Proof. solve_decision. Defined.
End RetirementOutcome.
Abbreviation RetirementOutcome := RetirementOutcome.RetirementOutcome.

Module RetirementPolicy.
Inductive RetirementPolicy :=
| TransientUiInteractionV1
| AcknowledgedUnknownPointerClickV1.
#[global] Instance RetirementPolicy_eq_dec : EqDecision RetirementPolicy.
Proof. solve_decision. Defined.
End RetirementPolicy.
Abbreviation RetirementPolicy := RetirementPolicy.RetirementPolicy.

Module RetirementDisposition.
Inductive RetirementDisposition :=
| Retired
| CurrentStateAccepted.
#[global] Instance RetirementDisposition_eq_dec : EqDecision RetirementDisposition.
Proof. solve_decision. Defined.
End RetirementDisposition.
Abbreviation RetirementDisposition := RetirementDisposition.RetirementDisposition.

Module RetirementAuthority.
Inductive RetirementAuthority :=
| LocalMaintenanceOperator
| LocalUserPresence.
#[global] Instance RetirementAuthority_eq_dec : EqDecision RetirementAuthority.
Proof. solve_decision. Defined.
End RetirementAuthority.
Abbreviation RetirementAuthority := RetirementAuthority.RetirementAuthority.

Module RetirementTransition.
Record RetirementTransition := mk {
  disposition : RetirementDisposition;
  authority : RetirementAuthority;
  requested_policy : RetirementPolicy;
  reason : string;
  authorized_device_generation : N;
  now_ms : N
}.
#[global] Instance RetirementTransition_eq_dec : EqDecision RetirementTransition.
Proof. solve_decision. Defined.
End RetirementTransition.
Abbreviation RetirementTransition := RetirementTransition.RetirementTransition.

Module RetirementRecord.
Record RetirementRecord := mk {
  operation : OperationRef;
  capability : DeviceCapability;
  outcome : RetirementOutcome;
  indeterminate_reason : IndeterminateReason;
  prior_reconciliation_status : ReconciliationStatus;
  policy : RetirementPolicy;
  disposition : RetirementDisposition;
  authority : RetirementAuthority;
  reason : string;
  authorized_device_generation : N;
  retired_at_ms : N;
  replayed : bool
}.
#[global] Instance RetirementRecord_eq_dec : EqDecision RetirementRecord.
Proof. solve_decision. Defined.
End RetirementRecord.
Abbreviation RetirementRecord := RetirementRecord.RetirementRecord.

Module MutationResumeBarrier.
Record MutationResumeBarrier := mk {
  device_id : string;
  source_operation_id : string;
  source_device_generation : N;
  accepted_generation : N;
  policy : RetirementPolicy;
  created_at_ms : N
}.
#[global] Instance MutationResumeBarrier_eq_dec : EqDecision MutationResumeBarrier.
Proof. solve_decision. Defined.
End MutationResumeBarrier.
Abbreviation MutationResumeBarrier := MutationResumeBarrier.MutationResumeBarrier.

Module MutationResumeRecord.
Record MutationResumeRecord := mk {
  device_id : string;
  source_operation_id : string;
  accepted_generation : N;
  resumed_generation : N;
  policy : RetirementPolicy;
  authority : RetirementAuthority;
  reason : string;
  resumed_at_ms : N
}.
#[global] Instance MutationResumeRecord_eq_dec : EqDecision MutationResumeRecord.
Proof. solve_decision. Defined.
End MutationResumeRecord.
Abbreviation MutationResumeRecord := MutationResumeRecord.MutationResumeRecord.

(** ** Dispatch bindings and authoritative evidence *)

Module OperationDispatchBinding.
Record OperationDispatchBinding := mk {
  capability_revision : N;
  grant_id : string
}.
#[global] Instance OperationDispatchBinding_eq_dec : EqDecision OperationDispatchBinding.
Proof. solve_decision. Defined.
End OperationDispatchBinding.
Abbreviation OperationDispatchBinding := OperationDispatchBinding.OperationDispatchBinding.

Module AgentTerminalEvidence.
Record AgentTerminalEvidence := mk {
  operation : OperationRef;
  capability_revision : N;
  capability : DeviceCapability;
  dispatch_grant_id : string;
  terminal_state : HubOperationState;
  evidence : ExecutionEvidence
}.
#[global] Instance AgentTerminalEvidence_eq_dec : EqDecision AgentTerminalEvidence.
Proof. solve_decision. Defined.
End AgentTerminalEvidence.
Abbreviation AgentTerminalEvidence := AgentTerminalEvidence.AgentTerminalEvidence.

Module BackendReceiptTargetBinding.
Inductive BackendReceiptTargetBinding :=
| ApplicationLaunch (identifier : option string) (name : option string)
| ApplicationProcess (process_id : N).
#[global] Instance BackendReceiptTargetBinding_eq_dec : EqDecision BackendReceiptTargetBinding.
Proof. solve_decision. Defined.
End BackendReceiptTargetBinding.
Abbreviation BackendReceiptTargetBinding := BackendReceiptTargetBinding.BackendReceiptTargetBinding.

Module OperationRecoveryTarget.
Inductive OperationRecoveryTarget :=
| ApplicationLaunch (identifier : option string) (name : option string)
| ApplicationProcess (process_id : N) (application : string).
#[global] Instance OperationRecoveryTarget_eq_dec : EqDecision OperationRecoveryTarget.
Proof. solve_decision. Defined.
End OperationRecoveryTarget.
Abbreviation OperationRecoveryTarget := OperationRecoveryTarget.OperationRecoveryTarget.

Module BackendReceiptTerminalOutcome.
Inductive BackendReceiptTerminalOutcome :=
| EffectCommitted
| ProvenNotExecuted.
#[global] Instance BackendReceiptTerminalOutcome_eq_dec : EqDecision BackendReceiptTerminalOutcome.
Proof. solve_decision. Defined.
End BackendReceiptTerminalOutcome.
Abbreviation BackendReceiptTerminalOutcome := BackendReceiptTerminalOutcome.BackendReceiptTerminalOutcome.

Module BackendExecutionReceipt.
Record BackendExecutionReceipt := mk {
  schema_version : N;
  operation : OperationRef;
  capability_revision : N;
  capability : DeviceCapability;
  dispatch_grant_id : string;
  backend : string;
  backend_version : string;
  provider_contract_schema_version : N;
  sequence : N;
  target_binding : option BackendReceiptTargetBinding;
  terminal_outcome : BackendReceiptTerminalOutcome
}.
#[global] Instance BackendExecutionReceipt_eq_dec : EqDecision BackendExecutionReceipt.
Proof. solve_decision. Defined.
End BackendExecutionReceipt.
Abbreviation BackendExecutionReceipt := BackendExecutionReceipt.BackendExecutionReceipt.

Module AutoResolutionRecord.
Record AutoResolutionRecord := mk {
  operation : OperationRef;
  capability : DeviceCapability;
  terminal_state : HubOperationState;
  evidence : ExecutionEvidence;
  dispatch_binding : OperationDispatchBinding;
  resolved_at_ms : N
}.
#[global] Instance AutoResolutionRecord_eq_dec : EqDecision AutoResolutionRecord.
Proof. solve_decision. Defined.
End AutoResolutionRecord.
Abbreviation AutoResolutionRecord := AutoResolutionRecord.AutoResolutionRecord.

(** ** Admission metadata *)

Module OperationAuditMetadata.
Record OperationAuditMetadata := mk {
  workflow_id : option string;
  workflow_step_id : option string;
  client_correlation_id : option string
}.
#[global] Instance OperationAuditMetadata_eq_dec : EqDecision OperationAuditMetadata.
Proof. solve_decision. Defined.
End OperationAuditMetadata.
Abbreviation OperationAuditMetadata := OperationAuditMetadata.OperationAuditMetadata.

Module OperationRequestFingerprint.
Record OperationRequestFingerprint := mk {
  algorithm : string;
  key_id : string;
  value : string
}.
#[global] Instance OperationRequestFingerprint_eq_dec : EqDecision OperationRequestFingerprint.
Proof. solve_decision. Defined.
End OperationRequestFingerprint.
Abbreviation OperationRequestFingerprint := OperationRequestFingerprint.OperationRequestFingerprint.

Module TextInputTargetEvidence.
Inductive TextInputTargetEvidence :=
| Unspecified
| Desktop
| Window (process_id : N) (window_id : option N)
| WindowPoint (process_id : N) (window_id : N)
| Element (process_id : N) (window_id : N).
#[global] Instance TextInputTargetEvidence_eq_dec : EqDecision TextInputTargetEvidence.
Proof. solve_decision. Defined.
End TextInputTargetEvidence.
Abbreviation TextInputTargetEvidence := TextInputTargetEvidence.TextInputTargetEvidence.

Module OperationEvidenceEnvelope.
Inductive OperationEvidenceEnvelope :=
| TextInput (schema_version : N) (fingerprint : option OperationRequestFingerprint)
    (payload_bytes : N) (payload_chars : N) (line_count : N) (ends_with_newline : bool)
    (separate_submit_requested : bool) (target : TextInputTargetEvidence)
    (delivery : option InputDeliveryMode) (delay_ms : option N).
#[global] Instance OperationEvidenceEnvelope_eq_dec : EqDecision OperationEvidenceEnvelope.
Proof. solve_decision. Defined.
End OperationEvidenceEnvelope.
Abbreviation OperationEvidenceEnvelope := OperationEvidenceEnvelope.OperationEvidenceEnvelope.

Module SemanticConstraintAdmissionEvidence.
Record SemanticConstraintAdmissionEvidence := mk {
  revision : N;
  snapshot_digest : string;
  kind : string;
  rule_id : string
}.
#[global] Instance SemanticConstraintAdmissionEvidence_eq_dec : EqDecision SemanticConstraintAdmissionEvidence.
Proof. solve_decision. Defined.
End SemanticConstraintAdmissionEvidence.
Abbreviation SemanticConstraintAdmissionEvidence := SemanticConstraintAdmissionEvidence.SemanticConstraintAdmissionEvidence.

Module OperationAdmissionMetadata.
Record OperationAdmissionMetadata := mk {
  audit : OperationAuditMetadata;
  request_fingerprint : option OperationRequestFingerprint;
  evidence_envelope : option OperationEvidenceEnvelope;
  recovery_target : option OperationRecoveryTarget;
  semantic_constraint : option SemanticConstraintAdmissionEvidence
}.
#[global] Instance OperationAdmissionMetadata_eq_dec : EqDecision OperationAdmissionMetadata.
Proof. solve_decision. Defined.
End OperationAdmissionMetadata.
Abbreviation OperationAdmissionMetadata := OperationAdmissionMetadata.OperationAdmissionMetadata.

Module RequestFingerprintComparison.
Inductive RequestFingerprintComparison :=
| SameRequest
| DifferentRequest
| Unavailable.
#[global] Instance RequestFingerprintComparison_eq_dec : EqDecision RequestFingerprintComparison.
Proof. solve_decision. Defined.
End RequestFingerprintComparison.
Abbreviation RequestFingerprintComparison := RequestFingerprintComparison.RequestFingerprintComparison.

(** ** The ledger and its persisted form *)

Module DesktopQuarantine.
Record DesktopQuarantine := mk {
  device_id : string;
  operation_id : string;
  device_generation : N;
  owner : OperationOwner;
  reason : IndeterminateReason;
  since_ms : N
}.
#[global] Instance DesktopQuarantine_eq_dec : EqDecision DesktopQuarantine.
Proof. solve_decision. Defined.
End DesktopQuarantine.
Abbreviation DesktopQuarantine := DesktopQuarantine.DesktopQuarantine.

Module ResolutionRecord.
Record ResolutionRecord := mk {
  operation_id : string;
  device_id : string;
  device_generation : N;
  resolver : OperationOwner;
  decision : IndeterminateResolution;
  evidence : string;
  resolved_at_ms : N
}.
#[global] Instance ResolutionRecord_eq_dec : EqDecision ResolutionRecord.
Proof. solve_decision. Defined.
End ResolutionRecord.
Abbreviation ResolutionRecord := ResolutionRecord.ResolutionRecord.

Module RecoverableOperationResult.
Inductive RecoverableOperationResult :=
| Process (output : ProcessOutput)
| Shell (output : ProcessOutput)
| Error (code : DeviceErrorCode)
| EffectfulStatus.
#[global] Instance RecoverableOperationResult_eq_dec : EqDecision RecoverableOperationResult.
Proof. solve_decision. Defined.
End RecoverableOperationResult.
Abbreviation RecoverableOperationResult := RecoverableOperationResult.RecoverableOperationResult.

Module OperationRecoverySnapshot.
Record OperationRecoverySnapshot := mk {
  operation : OperationRef;
  capability : DeviceCapability;
  state : HubOperationState;
  indeterminate_reason : option IndeterminateReason;
  receipt : option ExecutionReceipt;
  result : option RecoverableOperationResult
}.
#[global] Instance OperationRecoverySnapshot_eq_dec : EqDecision OperationRecoverySnapshot.
Proof. solve_decision. Defined.
End OperationRecoverySnapshot.
Abbreviation OperationRecoverySnapshot := OperationRecoverySnapshot.OperationRecoverySnapshot.

Module QuarantineInspectionSnapshot.
Record QuarantineInspectionSnapshot := mk {
  operation : OperationRef;
  capability : DeviceCapability;
  audit : OperationAuditMetadata;
  request_fingerprint : option OperationRequestFingerprint;
  evidence_envelope : option OperationEvidenceEnvelope;
  recovery_target : option OperationRecoveryTarget;
  semantic_constraint : option SemanticConstraintAdmissionEvidence;
  prepared_at_ms : N;
  dispatched_at_ms : option N;
  indeterminate_at_ms : N;
  indeterminate_reason : IndeterminateReason;
  evidence : option ExecutionEvidence;
  reconciliation_status : ReconciliationStatus;
  dispatch_binding_present : bool
}.
#[global] Instance QuarantineInspectionSnapshot_eq_dec : EqDecision QuarantineInspectionSnapshot.
Proof. solve_decision. Defined.
End QuarantineInspectionSnapshot.
Abbreviation QuarantineInspectionSnapshot := QuarantineInspectionSnapshot.QuarantineInspectionSnapshot.

Module ArchivedOperationRecovery.
Record ArchivedOperationRecovery := mk {
  operation : OperationRef;
  owner : OperationOwner;
  capability : DeviceCapability;
  state : HubOperationState;
  receipt : ExecutionReceipt;
  result : RecoverableOperationResult;
  semantic_constraint : option SemanticConstraintAdmissionEvidence
}.
#[global] Instance ArchivedOperationRecovery_eq_dec : EqDecision ArchivedOperationRecovery.
Proof. solve_decision. Defined.
End ArchivedOperationRecovery.
Abbreviation ArchivedOperationRecovery := ArchivedOperationRecovery.ArchivedOperationRecovery.

Module OperationExecutionLane.
Inductive OperationExecutionLane :=
| Normal
| RecoveryEvidenceRead.
#[global] Instance OperationExecutionLane_eq_dec : EqDecision OperationExecutionLane.
Proof. solve_decision. Defined.
End OperationExecutionLane.
Abbreviation OperationExecutionLane := OperationExecutionLane.OperationExecutionLane.

Module SafetyOperation.
Record SafetyOperation := mk {
  operation : OperationRef;
  owner : OperationOwner;
  capability : DeviceCapability;
  execution_lane : OperationExecutionLane;
  state : HubOperationState;
  prepared_at_ms : N;
  dispatched_at_ms : option N;
  indeterminate_reason : option IndeterminateReason;
  receipt : option ExecutionReceipt;
  recoverable_result : option RecoverableOperationResult;
  audit : OperationAuditMetadata;
  request_fingerprint : option OperationRequestFingerprint;
  evidence_envelope : option OperationEvidenceEnvelope;
  recovery_target_required : bool;
  recovery_target : option OperationRecoveryTarget;
  semantic_constraint : option SemanticConstraintAdmissionEvidence;
  dispatch_binding : option OperationDispatchBinding;
  reconciliation_status : option ReconciliationStatus
}.
#[global] Instance SafetyOperation_eq_dec : EqDecision SafetyOperation.
Proof. solve_decision. Defined.
End SafetyOperation.
Abbreviation SafetyOperation := SafetyOperation.SafetyOperation.

(** [SafetyOperationSnapshot] has the fields of [SafetyOperation]. *)
Abbreviation SafetyOperationSnapshot := SafetyOperation.SafetyOperation.

Module AuthoritativeSafetySnapshot.
Record AuthoritativeSafetySnapshot := mk {
  schema_version : N;
  admission : HubAdmissionSnapshot;
  operations : list SafetyOperationSnapshot;
  recoveries : list ArchivedOperationRecovery;
  quarantines : list DesktopQuarantine;
  resolutions : list ResolutionRecord;
  auto_resolutions : list AutoResolutionRecord;
  retirements : list RetirementRecord;
  mutation_resume_barriers : list MutationResumeBarrier;
  mutation_resumes : list MutationResumeRecord
}.
End AuthoritativeSafetySnapshot.
Abbreviation AuthoritativeSafetySnapshot := AuthoritativeSafetySnapshot.AuthoritativeSafetySnapshot.
