(* ===== verification/Recovery.v ===== *)
(** * Online recovery authorised by the local user

    [src/src/v2_online_recovery.rs]: the Hub's challenge for a quarantined or
    barred device, the authorization the local user signs with a separate P-256
    key (directly or as a WebAuthn assertion), and the Hub's answer. The messages
    are signed over hand-written byte strings. SHA-256, P-256, base64 and the JSON
    of the WebAuthn documents are outside the repository and are classes here. *)

From S2P Require Import Prelude Vocabulary Protocol Crypto Wire Tombstone Admission.
From S2P Require Import SafetyTypes.

Definition ONLINE_RECOVERY_SCHEMA_VERSION : N := 3.
Definition CURRENT_STATE_ACCEPTANCE_ONLINE_RECOVERY_SCHEMA_VERSION : N := 2.
Definition LEGACY_ONLINE_RECOVERY_SCHEMA_VERSION : N := 1.
Definition RECOVERY_CHALLENGE_TTL_MS : N := 300000.
Definition MAX_RECOVERY_EVIDENCE_BYTES : N := 1024.
Definition MAX_RECOVERY_FILE_BYTES : N := 16 * 1024.
Definition WEBAUTHN_RECOVERY_RP_ID : string := "cumg-recovery.invalid".
Definition WEBAUTHN_RECOVERY_ORIGIN : string := "https://cumg-recovery.invalid".
Definition CHALLENGE_DOMAIN : list N := bytes "cumg-v2-online-recovery-challenge-v1".
Definition AUTHORIZATION_DOMAIN : list N := bytes "cumg-v2-online-recovery-authorization-v1".
Definition RESULT_DOMAIN : list N := bytes "cumg-v2-online-recovery-result-v1".
Definition FINGERPRINT_DOMAIN : list N := bytes "cumg-v2-quarantine-fingerprint-v1".
Definition MUTATION_RESUME_FINGERPRINT_DOMAIN : list N :=
  bytes "cumg-v2-mutation-resume-fingerprint-v1".
Definition WEBAUTHN_PROOF_SCHEMA_VERSION : N := 1.
Definition WEBAUTHN_VERIFIER_SCHEMA_VERSION : N := 1.
Definition MAX_WEBAUTHN_VERIFIER_BYTES : N := 4096.
Definition MAX_WEBAUTHN_CREDENTIAL_ID_BYTES : N := 1024.
Definition MAX_WEBAUTHN_AUTHENTICATOR_DATA_BYTES : N := 4096.
Definition MAX_WEBAUTHN_SIGNATURE_BYTES : N := 256.
Definition WEBAUTHN_FLAG_UP : N := 1.
Definition WEBAUTHN_FLAG_UV : N := 4.
Definition WEBAUTHN_FLAG_AT : N := 64.

Module RecoveryAuditAssessment.
Inductive RecoveryAuditAssessment := Completed | NotExecuted | Inconclusive.
#[global] Instance RecoveryAuditAssessment_eq_dec : EqDecision RecoveryAuditAssessment.
Proof. solve_decision. Defined.
End RecoveryAuditAssessment.
Abbreviation RecoveryAuditAssessment := RecoveryAuditAssessment.RecoveryAuditAssessment.

Module RecoveryDecision.
Inductive RecoveryDecision :=
| ConfirmedCompleted
| ConfirmedNotExecuted
| CurrentStateAccepted
| MutationsResumed.
#[global] Instance RecoveryDecision_eq_dec : EqDecision RecoveryDecision.
Proof. solve_decision. Defined.
End RecoveryDecision.
Abbreviation RecoveryDecision := RecoveryDecision.RecoveryDecision.

Module RecoveryPhase.
Inductive RecoveryPhase := QuarantineResolution | MutationResume.
#[global] Instance RecoveryPhase_eq_dec : EqDecision RecoveryPhase.
Proof. solve_decision. Defined.
End RecoveryPhase.
Abbreviation RecoveryPhase := RecoveryPhase.RecoveryPhase.

Module RecoveryChallenge.
Record RecoveryChallenge := mk {
  schema_version : N;
  phase : RecoveryPhase;
  device_id : string;
  operation_id : string;
  quarantine_generation : N;
  current_generation : N;
  quarantine_fingerprint : list N;
  nonce : list N;
  issued_at_ms : N;
  expires_at_ms : N;
  signature : list N
}.
#[global] Instance RecoveryChallenge_eq_dec : EqDecision RecoveryChallenge.
Proof. solve_decision. Defined.
End RecoveryChallenge.
Abbreviation RecoveryChallenge := RecoveryChallenge.RecoveryChallenge.

Module RecoveryAuthorization.
Record RecoveryAuthorization := mk {
  schema_version : N;
  phase : RecoveryPhase;
  request_id : string;
  device_id : string;
  operation_id : string;
  quarantine_generation : N;
  current_generation : N;
  quarantine_fingerprint : list N;
  challenge_nonce : list N;
  challenge_expires_at_ms : N;
  audit_assessment : RecoveryAuditAssessment;
  decision : RecoveryDecision;
  current_state_policy : option RetirementPolicy;
  evidence : string;
  signature : list N
}.
#[global] Instance RecoveryAuthorization_eq_dec : EqDecision RecoveryAuthorization.
Proof. solve_decision. Defined.
End RecoveryAuthorization.
Abbreviation RecoveryAuthorization := RecoveryAuthorization.RecoveryAuthorization.

Module RecoveryResolved.
Record RecoveryResolved := mk {
  schema_version : N;
  phase : RecoveryPhase;
  request_id : string;
  device_id : string;
  operation_id : string;
  current_generation : N;
  decision : RecoveryDecision;
  current_state_policy : option RetirementPolicy;
  resolved_at_ms : N;
  signature : list N
}.
#[global] Instance RecoveryResolved_eq_dec : EqDecision RecoveryResolved.
Proof. solve_decision. Defined.
End RecoveryResolved.
Abbreviation RecoveryResolved := RecoveryResolved.RecoveryResolved.

Module WebAuthnRecoveryVerifierDocument.
Record WebAuthnRecoveryVerifierDocument := mk {
  schema_version : N;
  credential_id_base64url : string;
  public_key_x963_base64url : string
}.
End WebAuthnRecoveryVerifierDocument.
Abbreviation WebAuthnRecoveryVerifierDocument :=
  WebAuthnRecoveryVerifierDocument.WebAuthnRecoveryVerifierDocument.

Module WebAuthnAssertionProof.
Record WebAuthnAssertionProof := mk {
  schema_version : N;
  credential_id_base64url : string;
  authenticator_data_base64url : string;
  signature_base64url : string
}.
End WebAuthnAssertionProof.
Abbreviation WebAuthnAssertionProof := WebAuthnAssertionProof.WebAuthnAssertionProof.

Module WebAuthnClientData.
Record WebAuthnClientData := mk {
  kind : string;
  challenge : string;
  origin : string;
  cross_origin : bool
}.
End WebAuthnClientData.
Abbreviation WebAuthnClientData := WebAuthnClientData.WebAuthnClientData.

Module RecoveryVerifierKind.
Inductive RecoveryVerifierKind :=
| DirectP256 (public_key : list N)
| WebAuthnEs256 (credential_id public_key : list N).
End RecoveryVerifierKind.
Abbreviation RecoveryVerifierKind := RecoveryVerifierKind.RecoveryVerifierKind.

Module RecoveryError.
Inductive RecoveryError :=
| UnsupportedSchema | InvalidMessage | InvalidEvidence | InvalidPublicKey | InvalidHubSignature
| InvalidRecoverySignature | ChallengeMismatch | ExpiredChallenge | InvalidPath | Io
| UnsafeTrustAnchor | UnsafeRecoveryKey | RecoveryHelperUnavailable | RecoveryHelperProtocol
| RecoveryHelperTimeout | RecoveryHelperAuthUnavailable | RecoveryHelperAbnormalExit
| UnsupportedPlatform | KeyUnavailable | KeyAlreadyExists | AuthorizationAlreadyPending
| UserPresenceDenied | ConflictingRecoveryVerifiers | InvalidWebAuthnProof
| WebAuthnCredentialMismatch | WebAuthnRpMismatch | WebAuthnUserVerificationRequired
| PlatformUserVerificationUnavailable | PlatformAuthenticatorFailure.
#[global] Instance RecoveryError_eq_dec : EqDecision RecoveryError.
Proof. solve_decision. Defined.
End RecoveryError.
Abbreviation RecoveryError := RecoveryError.RecoveryError.

(** [ring::digest] with SHA-256. *)
Class Sha256 := sha256 : list N → list N.
Class Sha256Laws `{Sha256} : Prop := {
  sha256_length : ∀ m, length (sha256 m) = 32;
  sha256_u8 : ∀ m, Forall (λ b, b < 256)%N (sha256 m)
}.

(** [ring::signature] with [ECDSA_P256_SHA256_ASN1]: key, message, signature. *)
Class P256 := p256_verify : list N → list N → list N → bool.

(** [serde_json] on the WebAuthn documents. *)
Class WebAuthnJson := {
  verifier_from_slice : list N → option WebAuthnRecoveryVerifierDocument;
  proof_to_vec : WebAuthnAssertionProof → option (list N);
  proof_from_slice : list N → option WebAuthnAssertionProof;
  client_data_to_vec : WebAuthnClientData → option (list N)
}.
Class WebAuthnJsonLaws `{WebAuthnJson} : Prop := {
  proof_from_to : ∀ p b, proof_to_vec p = Some b → proof_from_slice b = Some p;
  client_data_inj : ∀ c c' b, client_data_to_vec c = Some b → client_data_to_vec c' = Some b → c = c'
}.

Module Recovery.
Import RecoveryError.

Definition validate_recovery_schema (version : N) : result RecoveryError unit :=
  if (version =? LEGACY_ONLINE_RECOVERY_SCHEMA_VERSION)%N
     || (version =? CURRENT_STATE_ACCEPTANCE_ONLINE_RECOVERY_SCHEMA_VERSION)%N
     || (version =? ONLINE_RECOVERY_SCHEMA_VERSION)%N
  then Ok tt else Err UnsupportedSchema.

Definition validate_recovery_evidence (evidence : string) : result RecoveryError unit :=
  if trim_is_empty evidence || (MAX_RECOVERY_EVIDENCE_BYTES <? slen evidence)%N
  then Err InvalidEvidence else Ok tt.

Definition recovery_decision_name (value : RecoveryDecision) : string :=
  match value with
  | RecoveryDecision.ConfirmedCompleted => "confirmed_completed"
  | RecoveryDecision.ConfirmedNotExecuted => "confirmed_not_executed"
  | RecoveryDecision.CurrentStateAccepted => "current_state_accepted"
  | RecoveryDecision.MutationsResumed => "mutations_resumed"
  end.

Definition recovery_phase_name (value : RecoveryPhase) : string :=
  match value with
  | RecoveryPhase.QuarantineResolution => "quarantine_resolution"
  | RecoveryPhase.MutationResume => "mutation_resume"
  end.

Definition current_state_policy_name (value : option RetirementPolicy) : string :=
  match value with
  | None => "none"
  | Some RetirementPolicy.TransientUiInteractionV1 => "transient_ui_interaction_v1"
  | Some RetirementPolicy.AcknowledgedUnknownPointerClickV1 =>
      "acknowledged_unknown_pointer_click_v1"
  end.

Definition audit_assessment_name (value : RecoveryAuditAssessment) : string :=
  match value with
  | RecoveryAuditAssessment.Completed => "completed"
  | RecoveryAuditAssessment.NotExecuted => "not_executed"
  | RecoveryAuditAssessment.Inconclusive => "inconclusive"
  end.

Definition indeterminate_reason_name (value : IndeterminateReason) : string :=
  match value with
  | IndeterminateReason.CancellationUnproven => "cancellation_unproven"
  | IndeterminateReason.BackendTimedOut => "backend_timed_out"
  | IndeterminateReason.BackendOutcomeUnproven => "backend_outcome_unproven"
  | IndeterminateReason.ConnectionLost => "connection_lost"
  | IndeterminateReason.HubRestartAfterDispatch => "hub_restart_after_dispatch"
  | IndeterminateReason.AgentRestartAfterDispatch => "agent_restart_after_dispatch"
  | IndeterminateReason.ResultDeliveryLost => "result_delivery_lost"
  end.

Definition minimum_schema (policy : RetirementPolicy) : N :=
  match policy with
  | RetirementPolicy.TransientUiInteractionV1 =>
      CURRENT_STATE_ACCEPTANCE_ONLINE_RECOVERY_SCHEMA_VERSION
  | RetirementPolicy.AcknowledgedUnknownPointerClickV1 => ONLINE_RECOVERY_SCHEMA_VERSION
  end.

Definition validate_recovery_decision (schema_version : N) (phase : RecoveryPhase)
    (audit_assessment : RecoveryAuditAssessment) (decision : RecoveryDecision)
    (current_state_policy : option RetirementPolicy) : result RecoveryError unit :=
  let conclusive :=
    negb (bool_decide (audit_assessment = RecoveryAuditAssessment.Inconclusive)) in
  match phase, decision with
  | RecoveryPhase.QuarantineResolution,
    (RecoveryDecision.ConfirmedCompleted | RecoveryDecision.ConfirmedNotExecuted) =>
      return_if opt_some current_state_policy with Err InvalidMessage ;; Ok tt
  | RecoveryPhase.QuarantineResolution, RecoveryDecision.CurrentStateAccepted =>
      let_some policy := current_state_policy else Err InvalidMessage ;;
      return_if (schema_version <? minimum_schema policy)%N || conclusive
        with Err InvalidMessage ;;
      Ok tt
  | RecoveryPhase.MutationResume, RecoveryDecision.MutationsResumed =>
      return_if (schema_version <? ONLINE_RECOVERY_SCHEMA_VERSION)%N || conclusive
                || opt_some current_state_policy
        with Err InvalidMessage ;;
      Ok tt
  | _, _ => Err InvalidMessage
  end.

(** ** The signed byte strings *)

Definition since_v3 (schema_version : N) (out : list N) (name : string) : list N :=
  if (ONLINE_RECOVERY_SCHEMA_VERSION <=? schema_version)%N then push_str out name else out.

Definition authorization_signing_bytes (a : RecoveryAuthorization)
    : result RecoveryError (list N) :=
  let v := a.(RecoveryAuthorization.schema_version) in
  let_ok _ := validate_recovery_schema v else e => Err e ;;
  let_ok _ := validate_recovery_evidence a.(RecoveryAuthorization.evidence) else e => Err e ;;
  let_ok _ := validate_recovery_decision v a.(RecoveryAuthorization.phase)
    a.(RecoveryAuthorization.audit_assessment) a.(RecoveryAuthorization.decision)
    a.(RecoveryAuthorization.current_state_policy) else e => Err e ;;
  let out := push_bytes [] AUTHORIZATION_DOMAIN in
  let out := out ++ to_be_bytes 2 v in
  let out := since_v3 v out (recovery_phase_name a.(RecoveryAuthorization.phase)) in
  let out := push_str out a.(RecoveryAuthorization.request_id) in
  let out := push_str out a.(RecoveryAuthorization.device_id) in
  let out := push_str out a.(RecoveryAuthorization.operation_id) in
  let out := out ++ to_be_bytes 8 a.(RecoveryAuthorization.quarantine_generation) in
  let out := out ++ to_be_bytes 8 a.(RecoveryAuthorization.current_generation) in
  let out := out ++ a.(RecoveryAuthorization.quarantine_fingerprint) in
  let out := out ++ a.(RecoveryAuthorization.challenge_nonce) in
  let out := out ++ to_be_bytes 8 a.(RecoveryAuthorization.challenge_expires_at_ms) in
  let out := push_str out (audit_assessment_name a.(RecoveryAuthorization.audit_assessment)) in
  let out := push_str out (recovery_decision_name a.(RecoveryAuthorization.decision)) in
  let out := since_v3 v out
    (current_state_policy_name a.(RecoveryAuthorization.current_state_policy)) in
  Ok (push_str out a.(RecoveryAuthorization.evidence)).

Definition challenge_signing_bytes (c : RecoveryChallenge) : result RecoveryError (list N) :=
  let v := c.(RecoveryChallenge.schema_version) in
  let_ok _ := validate_recovery_schema v else e => Err e ;;
  let out := push_bytes [] CHALLENGE_DOMAIN in
  let out := out ++ to_be_bytes 2 v in
  let out := since_v3 v out (recovery_phase_name c.(RecoveryChallenge.phase)) in
  let out := push_str out c.(RecoveryChallenge.device_id) in
  let out := push_str out c.(RecoveryChallenge.operation_id) in
  let out := out ++ to_be_bytes 8 c.(RecoveryChallenge.quarantine_generation) in
  let out := out ++ to_be_bytes 8 c.(RecoveryChallenge.current_generation) in
  let out := out ++ c.(RecoveryChallenge.quarantine_fingerprint) in
  let out := out ++ c.(RecoveryChallenge.nonce) in
  let out := out ++ to_be_bytes 8 c.(RecoveryChallenge.issued_at_ms) in
  Ok (out ++ to_be_bytes 8 c.(RecoveryChallenge.expires_at_ms)).

Definition resolved_signing_bytes (r : RecoveryResolved) : result RecoveryError (list N) :=
  let v := r.(RecoveryResolved.schema_version) in
  let_ok _ := validate_recovery_schema v else e => Err e ;;
  let out := push_bytes [] RESULT_DOMAIN in
  let out := out ++ to_be_bytes 2 v in
  let out := since_v3 v out (recovery_phase_name r.(RecoveryResolved.phase)) in
  let out := push_str out r.(RecoveryResolved.request_id) in
  let out := push_str out r.(RecoveryResolved.device_id) in
  let out := push_str out r.(RecoveryResolved.operation_id) in
  let out := out ++ to_be_bytes 8 r.(RecoveryResolved.current_generation) in
  let out := push_str out (recovery_decision_name r.(RecoveryResolved.decision)) in
  let out := since_v3 v out
    (current_state_policy_name r.(RecoveryResolved.current_state_policy)) in
  Ok (out ++ to_be_bytes 8 r.(RecoveryResolved.resolved_at_ms)).

(** ** Challenges *)

Section Fingerprints.
Context `{SHA : Sha256}.

(** [OperationOwner] is the owner's issuer and subject. *)
Definition quarantine_fingerprint (q : DesktopQuarantine) : list N :=
  let out := push_bytes [] FINGERPRINT_DOMAIN in
  let out := push_str out q.(DesktopQuarantine.device_id) in
  let out := push_str out q.(DesktopQuarantine.operation_id) in
  let out := out ++ to_be_bytes 8 q.(DesktopQuarantine.device_generation) in
  let out := push_str out q.(DesktopQuarantine.owner).(OperationOwner.issuer) in
  let out := push_str out q.(DesktopQuarantine.owner).(OperationOwner.subject) in
  let out := push_str out (indeterminate_reason_name q.(DesktopQuarantine.reason)) in
  sha256 (out ++ to_be_bytes 8 q.(DesktopQuarantine.since_ms)).

Definition mutation_resume_barrier_fingerprint (b : MutationResumeBarrier) : list N :=
  let out := push_bytes [] MUTATION_RESUME_FINGERPRINT_DOMAIN in
  let out := push_str out b.(MutationResumeBarrier.device_id) in
  let out := push_str out b.(MutationResumeBarrier.source_operation_id) in
  let out := out ++ to_be_bytes 8 b.(MutationResumeBarrier.source_device_generation) in
  let out := out ++ to_be_bytes 8 b.(MutationResumeBarrier.accepted_generation) in
  let out := push_str out (current_state_policy_name (Some b.(MutationResumeBarrier.policy))) in
  sha256 (out ++ to_be_bytes 8 b.(MutationResumeBarrier.created_at_ms)).
End Fingerprints.

Section Challenges.
Context `{SHA : Sha256} `{ED : Ed25519}.

Definition sign_challenge (hub : SigningKey) (c : RecoveryChallenge)
    : result RecoveryError RecoveryChallenge :=
  let_ok b := challenge_signing_bytes c else e => Err e ;;
  Ok (RecoveryChallenge.mk c.(RecoveryChallenge.schema_version) c.(RecoveryChallenge.phase)
        c.(RecoveryChallenge.device_id) c.(RecoveryChallenge.operation_id)
        c.(RecoveryChallenge.quarantine_generation) c.(RecoveryChallenge.current_generation)
        c.(RecoveryChallenge.quarantine_fingerprint) c.(RecoveryChallenge.nonce)
        c.(RecoveryChallenge.issued_at_ms) c.(RecoveryChallenge.expires_at_ms) (sk_sign hub b)).

(** [nonce] is what [OsRng] fills in. *)
Definition build_recovery_challenge (hub : SigningKey) (q : DesktopQuarantine)
    (current_generation now_ms : N) (nonce : list N) : result RecoveryError RecoveryChallenge :=
  return_if (current_generation =? 0)%N
            || trim_is_empty q.(DesktopQuarantine.device_id)
            || trim_is_empty q.(DesktopQuarantine.operation_id)
    with Err InvalidMessage ;;
  sign_challenge hub (RecoveryChallenge.mk ONLINE_RECOVERY_SCHEMA_VERSION
    RecoveryPhase.QuarantineResolution q.(DesktopQuarantine.device_id)
    q.(DesktopQuarantine.operation_id) q.(DesktopQuarantine.device_generation)
    current_generation (quarantine_fingerprint q) nonce now_ms
    (saturating_add now_ms RECOVERY_CHALLENGE_TTL_MS) []).

Definition build_mutation_resume_challenge (hub : SigningKey) (b : MutationResumeBarrier)
    (current_generation now_ms : N) (nonce : list N) : result RecoveryError RecoveryChallenge :=
  return_if (current_generation <=? b.(MutationResumeBarrier.accepted_generation))%N
            || trim_is_empty b.(MutationResumeBarrier.device_id)
            || trim_is_empty b.(MutationResumeBarrier.source_operation_id)
    with Err InvalidMessage ;;
  sign_challenge hub (RecoveryChallenge.mk ONLINE_RECOVERY_SCHEMA_VERSION
    RecoveryPhase.MutationResume b.(MutationResumeBarrier.device_id)
    b.(MutationResumeBarrier.source_operation_id)
    b.(MutationResumeBarrier.source_device_generation)
    current_generation (mutation_resume_barrier_fingerprint b) nonce now_ms
    (saturating_add now_ms RECOVERY_CHALLENGE_TTL_MS) []).

Definition verify_hub_signature (trusted_hub : VerifyingKey) (b signature : list N)
    : result RecoveryError unit :=
  if vk_verify trusted_hub b signature then Ok tt else Err InvalidHubSignature.

Definition verify_recovery_challenge (c : RecoveryChallenge) (trusted_hub : VerifyingKey)
    (expected_device_id : string) (expected_current_generation now_ms : N)
    : result RecoveryError unit :=
  let_ok _ := validate_recovery_schema c.(RecoveryChallenge.schema_version) else e => Err e ;;
  let expired := (c.(RecoveryChallenge.expires_at_ms) <? now_ms)%N in
  return_if negb (bool_decide (c.(RecoveryChallenge.device_id) = expected_device_id))
            || negb (c.(RecoveryChallenge.current_generation) =? expected_current_generation)%N
            || (c.(RecoveryChallenge.quarantine_generation) =? 0)%N
            || trim_is_empty c.(RecoveryChallenge.operation_id)
            || (c.(RecoveryChallenge.expires_at_ms) <? c.(RecoveryChallenge.issued_at_ms))%N
            || expired
    with Err (if expired then ExpiredChallenge else ChallengeMismatch) ;;
  let_some signature := try_into_array 64 c.(RecoveryChallenge.signature)
    else Err InvalidHubSignature ;;
  let_ok b := challenge_signing_bytes c else e => Err e ;;
  verify_hub_signature trusted_hub b signature.

(** ** Authorizations *)

(** [random] is what [OsRng] fills in. *)
Definition new_authorization_with_decision (c : RecoveryChallenge)
    (audit_assessment : RecoveryAuditAssessment) (decision : RecoveryDecision)
    (current_state_policy : option RetirementPolicy) (evidence : string) (random : list N)
    : result RecoveryError RecoveryAuthorization :=
  let v := c.(RecoveryChallenge.schema_version) in
  let_ok _ := validate_recovery_schema v else e => Err e ;;
  let_ok _ := validate_recovery_evidence evidence else e => Err e ;;
  let_ok _ := validate_recovery_decision v c.(RecoveryChallenge.phase) audit_assessment decision
    current_state_policy else e => Err e ;;
  Ok (RecoveryAuthorization.mk v c.(RecoveryChallenge.phase) ("rec_" +:+ hex random)
        c.(RecoveryChallenge.device_id) c.(RecoveryChallenge.operation_id)
        c.(RecoveryChallenge.quarantine_generation) c.(RecoveryChallenge.current_generation)
        c.(RecoveryChallenge.quarantine_fingerprint) c.(RecoveryChallenge.nonce)
        c.(RecoveryChallenge.expires_at_ms) audit_assessment decision current_state_policy
        evidence []).

Definition new_authorization (c : RecoveryChallenge) (audit_assessment : RecoveryAuditAssessment)
    (decision : IndeterminateResolution) (evidence : string) (random : list N)
    : result RecoveryError RecoveryAuthorization :=
  match decision with
  | IndeterminateResolution.ConfirmedCompleted =>
      new_authorization_with_decision c audit_assessment RecoveryDecision.ConfirmedCompleted None
        evidence random
  | IndeterminateResolution.ConfirmedNotExecuted =>
      new_authorization_with_decision c audit_assessment RecoveryDecision.ConfirmedNotExecuted None
        evidence random
  | IndeterminateResolution.ConfirmedEffectAppliedUncommitted => Err InvalidMessage
  end.

Definition new_current_state_acceptance_authorization (c : RecoveryChallenge)
    (policy : RetirementPolicy) (evidence : string) (random : list N)
    : result RecoveryError RecoveryAuthorization :=
  return_if (c.(RecoveryChallenge.schema_version) <? minimum_schema policy)%N
            || negb (bool_decide (c.(RecoveryChallenge.phase) = RecoveryPhase.QuarantineResolution))
    with Err UnsupportedSchema ;;
  new_authorization_with_decision c RecoveryAuditAssessment.Inconclusive
    RecoveryDecision.CurrentStateAccepted (Some policy) evidence random.

Definition new_mutation_resume_authorization (c : RecoveryChallenge) (evidence : string)
    (random : list N) : result RecoveryError RecoveryAuthorization :=
  return_if (c.(RecoveryChallenge.schema_version) <? ONLINE_RECOVERY_SCHEMA_VERSION)%N
            || negb (bool_decide (c.(RecoveryChallenge.phase) = RecoveryPhase.MutationResume))
    with Err UnsupportedSchema ;;
  new_authorization_with_decision c RecoveryAuditAssessment.Inconclusive
    RecoveryDecision.MutationsResumed None evidence random.

(** [request_id[4..]] is taken after the prefix was checked. *)
Definition valid_request_id (id : string) : bool :=
  (slen id =? 36)%N
  && opt_some (strip_prefix "rec_" id)
  && forallb (λ b, is_ascii_hexdigit b && negb (is_ascii_uppercase b)) (drop 4 (bytes id)).

Definition validate_authorization_against_challenge (c : RecoveryChallenge)
    (a : RecoveryAuthorization) (now_ms : N) : result RecoveryError unit :=
  let_ok _ := validate_recovery_schema c.(RecoveryChallenge.schema_version) else e => Err e ;;
  let_ok _ := validate_recovery_schema a.(RecoveryAuthorization.schema_version) else e => Err e ;;
  let_ok _ := validate_recovery_evidence a.(RecoveryAuthorization.evidence) else e => Err e ;;
  let_ok _ := validate_recovery_decision a.(RecoveryAuthorization.schema_version)
    a.(RecoveryAuthorization.phase) a.(RecoveryAuthorization.audit_assessment)
    a.(RecoveryAuthorization.decision) a.(RecoveryAuthorization.current_state_policy)
    else e => Err e ;;
  return_if negb (valid_request_id a.(RecoveryAuthorization.request_id)) with Err InvalidMessage ;;
  return_if (c.(RecoveryChallenge.expires_at_ms) <? now_ms)%N
            || (a.(RecoveryAuthorization.challenge_expires_at_ms) <? now_ms)%N
    with Err ExpiredChallenge ;;
  return_if negb (a.(RecoveryAuthorization.schema_version)
                  =? c.(RecoveryChallenge.schema_version))%N
            || negb (bool_decide (a.(RecoveryAuthorization.phase) = c.(RecoveryChallenge.phase)))
            || negb (bool_decide (a.(RecoveryAuthorization.device_id)
                                  = c.(RecoveryChallenge.device_id)))
            || negb (bool_decide (a.(RecoveryAuthorization.operation_id)
                                  = c.(RecoveryChallenge.operation_id)))
            || negb (a.(RecoveryAuthorization.quarantine_generation)
                     =? c.(RecoveryChallenge.quarantine_generation))%N
            || negb (a.(RecoveryAuthorization.current_generation)
                     =? c.(RecoveryChallenge.current_generation))%N
            || negb (bool_decide (a.(RecoveryAuthorization.quarantine_fingerprint)
                                  = c.(RecoveryChallenge.quarantine_fingerprint)))
            || negb (bool_decide (a.(RecoveryAuthorization.challenge_nonce)
                                  = c.(RecoveryChallenge.nonce)))
            || negb (a.(RecoveryAuthorization.challenge_expires_at_ms)
                     =? c.(RecoveryChallenge.expires_at_ms))%N
    with Err ChallengeMismatch ;;
  Ok tt.

(** ** The Hub's answer *)

Definition build_recovery_resolved (hub : SigningKey) (a : RecoveryAuthorization)
    (resolved_at_ms : N) : result RecoveryError RecoveryResolved :=
  let r := RecoveryResolved.mk a.(RecoveryAuthorization.schema_version)
    a.(RecoveryAuthorization.phase) a.(RecoveryAuthorization.request_id)
    a.(RecoveryAuthorization.device_id) a.(RecoveryAuthorization.operation_id)
    a.(RecoveryAuthorization.current_generation) a.(RecoveryAuthorization.decision)
    a.(RecoveryAuthorization.current_state_policy) resolved_at_ms in
  let_ok b := resolved_signing_bytes (r []) else e => Err e ;;
  Ok (r (sk_sign hub b)).

Definition verify_recovery_resolved (r : RecoveryResolved) (trusted_hub : VerifyingKey)
    (expected_request_id expected_device_id : string) (expected_generation : N)
    : result RecoveryError unit :=
  let_ok _ := validate_recovery_schema r.(RecoveryResolved.schema_version) else e => Err e ;;
  return_if negb (bool_decide (r.(RecoveryResolved.request_id) = expected_request_id))
            || negb (bool_decide (r.(RecoveryResolved.device_id) = expected_device_id))
            || negb (r.(RecoveryResolved.current_generation) =? expected_generation)%N
    with Err ChallengeMismatch ;;
  let_some signature := try_into_array 64 r.(RecoveryResolved.signature)
    else Err InvalidHubSignature ;;
  let_ok b := resolved_signing_bytes r else e => Err e ;;
  verify_hub_signature trusted_hub b signature.

Definition verify_recovery_resolved_for_authorization (r : RecoveryResolved)
    (trusted_hub : VerifyingKey) (a : RecoveryAuthorization) : result RecoveryError unit :=
  let_ok _ := verify_recovery_resolved r trusted_hub a.(RecoveryAuthorization.request_id)
    a.(RecoveryAuthorization.device_id) a.(RecoveryAuthorization.current_generation)
    else e => Err e ;;
  return_if negb (bool_decide (r.(RecoveryResolved.phase) = a.(RecoveryAuthorization.phase)))
            || negb (bool_decide (r.(RecoveryResolved.operation_id)
                                  = a.(RecoveryAuthorization.operation_id)))
            || negb (bool_decide (r.(RecoveryResolved.decision)
                                  = a.(RecoveryAuthorization.decision)))
            || negb (bool_decide (r.(RecoveryResolved.current_state_policy)
                                  = a.(RecoveryAuthorization.current_state_policy)))
    with Err ChallengeMismatch ;;
  Ok tt.
End Challenges.

(** ** The user's key *)

Definition validate_p256_public_key (b : list N) : result RecoveryError (list N) :=
  let_some public_key := try_into_array 65 b else Err InvalidPublicKey ;;
  return_if negb (bool_decide (head public_key = Some 4%N)) with Err InvalidPublicKey ;;
  Ok public_key.

Section Verifier.
Context `{SHA : Sha256} `{P : P256} `{B64 : Base64Url} `{WJ : WebAuthnJson}.

Definition decode_base64url_bounded (value : string) (max : N)
    : result RecoveryError (list N) :=
  return_if is_empty_string value
            || (saturating_add (saturating_mul max 2) 16 <? slen value)%N
    with Err InvalidWebAuthnProof ;;
  let_some decoded := b64_decode value else Err InvalidWebAuthnProof ;;
  return_if (vlen decoded =? 0)%N || (max <? vlen decoded)%N with Err InvalidWebAuthnProof ;;
  Ok decoded.

Definition from_x963_bytes (b : list N) : result RecoveryError RecoveryVerifierKind :=
  let_ok public_key := validate_p256_public_key b else e => Err e ;;
  Ok (RecoveryVerifierKind.DirectP256 public_key).

Definition from_webauthn_es256 (credential_id public_key : list N)
    : result RecoveryError RecoveryVerifierKind :=
  return_if (vlen credential_id =? 0)%N
            || (MAX_WEBAUTHN_CREDENTIAL_ID_BYTES <? vlen credential_id)%N
    with Err InvalidPublicKey ;;
  let_ok public_key := validate_p256_public_key public_key else e => Err e ;;
  Ok (RecoveryVerifierKind.WebAuthnEs256 credential_id public_key).

Definition from_webauthn_document (b : list N) : result RecoveryError RecoveryVerifierKind :=
  return_if (vlen b =? 0)%N || (MAX_WEBAUTHN_VERIFIER_BYTES <? vlen b)%N
    with Err InvalidPublicKey ;;
  let_some document := verifier_from_slice b else Err InvalidPublicKey ;;
  return_if negb (document.(WebAuthnRecoveryVerifierDocument.schema_version)
                  =? WEBAUTHN_VERIFIER_SCHEMA_VERSION)%N
    with Err UnsupportedSchema ;;
  let_ok credential_id := decode_base64url_bounded
    document.(WebAuthnRecoveryVerifierDocument.credential_id_base64url)
    MAX_WEBAUTHN_CREDENTIAL_ID_BYTES else e => Err e ;;
  let_ok public_key := decode_base64url_bounded
    document.(WebAuthnRecoveryVerifierDocument.public_key_x963_base64url) 65 else e => Err e ;;
  from_webauthn_es256 credential_id public_key.

Definition webauthn_document (v : RecoveryVerifierKind)
    : option WebAuthnRecoveryVerifierDocument :=
  match v with
  | RecoveryVerifierKind.DirectP256 _ => None
  | RecoveryVerifierKind.WebAuthnEs256 credential_id public_key =>
      Some (WebAuthnRecoveryVerifierDocument.mk WEBAUTHN_VERIFIER_SCHEMA_VERSION
              (b64_encode credential_id) (b64_encode public_key))
  end.

(** What [load_public_trust_bytes] finds at a path. *)
Inductive TrustFile := Found (b : list N) | NotFound | Unsafe.

Definition load_optional (direct webauthn : TrustFile)
    : result RecoveryError (option RecoveryVerifierKind) :=
  let some (r : result RecoveryError RecoveryVerifierKind) :=
    let_ok v := r else e => Err e ;; Ok (Some v) in
  match direct, webauthn with
  | Unsafe, _ | _, Unsafe => Err UnsafeTrustAnchor
  | NotFound, NotFound => Ok None
  | Found b, NotFound => some (from_x963_bytes b)
  | NotFound, Found b => some (from_webauthn_document b)
  | Found _, Found _ => Err ConflictingRecoveryVerifiers
  end.

Definition public_key_bytes (v : RecoveryVerifierKind) : list N :=
  match v with
  | RecoveryVerifierKind.DirectP256 public_key
  | RecoveryVerifierKind.WebAuthnEs256 _ public_key => public_key
  end.

Definition key_id (v : RecoveryVerifierKind) : string :=
  match v with
  | RecoveryVerifierKind.DirectP256 public_key => "p256:" +:+ hex (take 8 (sha256 public_key))
  | RecoveryVerifierKind.WebAuthnEs256 credential_id public_key =>
      "webauthn-es256:" +:+ hex (take 8 (sha256 (credential_id ++ public_key)))
  end.

Definition client_data (signing_bytes : list N) : WebAuthnClientData :=
  WebAuthnClientData.mk "webauthn.get" (b64_encode (sha256 signing_bytes))
    WEBAUTHN_RECOVERY_ORIGIN false.

Definition webauthn_client_data_json (a : RecoveryAuthorization)
    : result RecoveryError (list N) :=
  let_ok b := authorization_signing_bytes a else e => Err e ;;
  let_some json := client_data_to_vec (client_data b) else Err InvalidMessage ;;
  Ok json.

Definition with_signature (a : RecoveryAuthorization) (signature : list N)
    : RecoveryAuthorization :=
  RecoveryAuthorization.mk a.(RecoveryAuthorization.schema_version)
    a.(RecoveryAuthorization.phase) a.(RecoveryAuthorization.request_id)
    a.(RecoveryAuthorization.device_id) a.(RecoveryAuthorization.operation_id)
    a.(RecoveryAuthorization.quarantine_generation) a.(RecoveryAuthorization.current_generation)
    a.(RecoveryAuthorization.quarantine_fingerprint) a.(RecoveryAuthorization.challenge_nonce)
    a.(RecoveryAuthorization.challenge_expires_at_ms) a.(RecoveryAuthorization.audit_assessment)
    a.(RecoveryAuthorization.decision) a.(RecoveryAuthorization.current_state_policy)
    a.(RecoveryAuthorization.evidence) signature.

Definition attach_webauthn_assertion_proof (a : RecoveryAuthorization)
    (credential_id authenticator_data assertion_signature : list N)
    : result RecoveryError RecoveryAuthorization :=
  return_if negb (vlen a.(RecoveryAuthorization.signature) =? 0)%N
            || (vlen credential_id =? 0)%N
            || (MAX_WEBAUTHN_CREDENTIAL_ID_BYTES <? vlen credential_id)%N
            || (vlen authenticator_data <? 37)%N
            || (MAX_WEBAUTHN_AUTHENTICATOR_DATA_BYTES <? vlen authenticator_data)%N
            || (vlen assertion_signature =? 0)%N
            || (MAX_WEBAUTHN_SIGNATURE_BYTES <? vlen assertion_signature)%N
    with Err InvalidMessage ;;
  let_some signature := proof_to_vec (WebAuthnAssertionProof.mk WEBAUTHN_PROOF_SCHEMA_VERSION
    (b64_encode credential_id) (b64_encode authenticator_data) (b64_encode assertion_signature))
    else Err InvalidMessage ;;
  return_if (MAX_RECOVERY_FILE_BYTES / 2 <? vlen signature)%N with Err InvalidMessage ;;
  Ok (with_signature a signature).

Definition flag_missing (flags flag : N) : bool := (N.land flags flag =? 0)%N.

Definition verify_webauthn_authorization_proof (expected_credential_id public_key : list N)
    (a : RecoveryAuthorization) (signing_bytes : list N) : result RecoveryError unit :=
  let signature := a.(RecoveryAuthorization.signature) in
  return_if (vlen signature =? 0)%N || (MAX_RECOVERY_FILE_BYTES / 2 <? vlen signature)%N
    with Err InvalidWebAuthnProof ;;
  let_some proof := proof_from_slice signature else Err InvalidWebAuthnProof ;;
  return_if negb (proof.(WebAuthnAssertionProof.schema_version)
                  =? WEBAUTHN_PROOF_SCHEMA_VERSION)%N
    with Err UnsupportedSchema ;;
  let_ok credential_id := decode_base64url_bounded
    proof.(WebAuthnAssertionProof.credential_id_base64url)
    MAX_WEBAUTHN_CREDENTIAL_ID_BYTES else e => Err e ;;
  return_if negb (bool_decide (credential_id = expected_credential_id))
    with Err WebAuthnCredentialMismatch ;;
  let_ok authenticator_data := decode_base64url_bounded
    proof.(WebAuthnAssertionProof.authenticator_data_base64url)
    MAX_WEBAUTHN_AUTHENTICATOR_DATA_BYTES else e => Err e ;;
  return_if (vlen authenticator_data <? 37)%N with Err InvalidWebAuthnProof ;;
  return_if negb (bool_decide (take 32 authenticator_data
                               = sha256 (bytes WEBAUTHN_RECOVERY_RP_ID)))
    with Err WebAuthnRpMismatch ;;
  let flags := default 0%N (authenticator_data !! 32) in
  return_if flag_missing flags WEBAUTHN_FLAG_UP || flag_missing flags WEBAUTHN_FLAG_UV
    with Err WebAuthnUserVerificationRequired ;;
  let_ok signature_bytes := decode_base64url_bounded
    proof.(WebAuthnAssertionProof.signature_base64url) MAX_WEBAUTHN_SIGNATURE_BYTES
    else e => Err e ;;
  let_some client := client_data_to_vec (client_data signing_bytes) else Err InvalidMessage ;;
  if p256_verify public_key (authenticator_data ++ sha256 client) signature_bytes
  then Ok tt else Err InvalidRecoverySignature.

Definition verify_authorization (v : RecoveryVerifierKind) (c : RecoveryChallenge)
    (a : RecoveryAuthorization) (now_ms : N) : result RecoveryError unit :=
  let_ok _ := validate_authorization_against_challenge c a now_ms else e => Err e ;;
  let_ok message := authorization_signing_bytes a else e => Err e ;;
  match v with
  | RecoveryVerifierKind.DirectP256 public_key =>
      if p256_verify public_key message a.(RecoveryAuthorization.signature)
      then Ok tt else Err InvalidRecoverySignature
  | RecoveryVerifierKind.WebAuthnEs256 credential_id public_key =>
      verify_webauthn_authorization_proof credential_id public_key a message
  end.
End Verifier.

(** ** The public key in an attestation

    A cursor into the bytes is threaded through the readers, as in the source. *)

(** [bytes.get(cursor..end)] *)
Definition get_range (b : list N) (cursor end_ : N) : option (list N) :=
  if (cursor <=? end_)%N && (end_ <=? vlen b)%N
  then Some (take (N.to_nat (end_ - cursor)) (drop (N.to_nat cursor) b)) else None.

Definition cbor_take (n : N) (b : list N) (cursor : N) : result RecoveryError (list N * N) :=
  let_some end_ := checked_add cursor n else Err InvalidWebAuthnProof ;;
  let_some slice := get_range b cursor end_ else Err InvalidWebAuthnProof ;;
  Ok (slice, end_).

Definition cbor_read_head (b : list N) (cursor : N) : result RecoveryError (N * N * N) :=
  let_some first := b !! N.to_nat cursor else Err InvalidWebAuthnProof ;;
  let cursor := (cursor + 1)%N in
  let major := N.shiftr first 5 in
  let additional := N.land first 31 in
  let wide n :=
    let_ok r := cbor_take n b cursor else e => Err e ;; Ok (major, from_be_bytes r.1, r.2) in
  if (additional <=? 23)%N then Ok (major, additional, cursor)
  else if (additional =? 24)%N then wide 1%N
  else if (additional =? 25)%N then wide 2%N
  else if (additional =? 26)%N then wide 4%N
  else Err InvalidWebAuthnProof.

Definition cbor_read_len (b : list N) (cursor expected_major : N)
    : result RecoveryError (N * N) :=
  let_ok r := cbor_read_head b cursor else e => Err e ;;
  return_if negb (r.1.1 =? expected_major)%N with Err InvalidWebAuthnProof ;;
  Ok (r.1.2, r.2).

(** The value fits an [i64], and its successor does. *)
Definition cbor_read_int (b : list N) (cursor : N) : result RecoveryError (Z * N) :=
  let_ok r := cbor_read_head b cursor else e => Err e ;;
  let major := r.1.1 in
  let value := Z.of_N r.1.2 in
  if (major =? 0)%N then Ok (value, r.2)
  else if (major =? 1)%N then Ok ((- (value + 1))%Z, r.2)
  else Err InvalidWebAuthnProof.

Definition cbor_read_fixed_bytes (n : N) (b : list N) (cursor : N)
    : result RecoveryError (list N * N) :=
  let_ok r := cbor_read_len b cursor 2 else e => Err e ;;
  return_if negb (r.1 =? n)%N with Err InvalidWebAuthnProof ;;
  cbor_take n b r.2.

Record CoseKey := mk_cose {
  kty : option Z;
  alg : option Z;
  curve : option Z;
  cose_x : option (list N);
  cose_y : option (list N)
}.

(** One iteration of the loop over the entries. *)
Definition read_cose_entry (b : list N) (k : CoseKey) (cursor : N)
    : result RecoveryError (CoseKey * N) :=
  let_ok key := cbor_read_int b cursor else e => Err e ;;
  let int (set : Z → CoseKey) :=
    let_ok r := cbor_read_int b key.2 else e => Err e ;; Ok (set r.1, r.2) in
  let coordinate (set : list N → CoseKey) :=
    let_ok r := cbor_read_fixed_bytes 32 b key.2 else e => Err e ;; Ok (set r.1, r.2) in
  match key.1 with
  | 1%Z => int (λ v, mk_cose (Some v) k.(alg) k.(curve) k.(cose_x) k.(cose_y))
  | 3%Z => int (λ v, mk_cose k.(kty) (Some v) k.(curve) k.(cose_x) k.(cose_y))
  | (-1)%Z => int (λ v, mk_cose k.(kty) k.(alg) (Some v) k.(cose_x) k.(cose_y))
  | (-2)%Z => coordinate (λ v, mk_cose k.(kty) k.(alg) k.(curve) (Some v) k.(cose_y))
  | (-3)%Z => coordinate (λ v, mk_cose k.(kty) k.(alg) k.(curve) k.(cose_x) (Some v))
  | _ => Err InvalidWebAuthnProof
  end.

Fixpoint read_cose_entries (n : nat) (b : list N) (k : CoseKey) (cursor : N)
    : result RecoveryError (CoseKey * N) :=
  match n with
  | O => Ok (k, cursor)
  | S n => let_ok r := read_cose_entry b k cursor else e => Err e ;; read_cose_entries n b r.1 r.2
  end.

Definition parse_es256_cose_key (b : list N) : result RecoveryError (list N) :=
  let_ok entries := cbor_read_len b 0 5 else e => Err e ;;
  return_if negb (entries.1 =? 5)%N with Err InvalidWebAuthnProof ;;
  let_ok r := read_cose_entries 5 b (mk_cose None None None None None) entries.2 else e => Err e ;;
  let k := r.1 in
  return_if negb (r.2 =? vlen b)%N
            || negb (bool_decide (k.(kty) = Some 2%Z))
            || negb (bool_decide (k.(alg) = Some (-7)%Z))
            || negb (bool_decide (k.(curve) = Some 1%Z))
    with Err InvalidWebAuthnProof ;;
  let_some x := k.(cose_x) else Err InvalidWebAuthnProof ;;
  let_some y := k.(cose_y) else Err InvalidWebAuthnProof ;;
  validate_p256_public_key (4%N :: x ++ y).

Definition parse_attested_es256_public_key `{Sha256}
    (authenticator_data expected_credential_id : list N) : result RecoveryError (list N) :=
  return_if (vlen authenticator_data <? 55)%N || (vlen expected_credential_id =? 0)%N
    with Err InvalidWebAuthnProof ;;
  return_if negb (bool_decide (take 32 authenticator_data
                               = sha256 (bytes WEBAUTHN_RECOVERY_RP_ID)))
    with Err WebAuthnRpMismatch ;;
  let flags := default 0%N (authenticator_data !! 32) in
  return_if flag_missing flags WEBAUTHN_FLAG_UP || flag_missing flags WEBAUTHN_FLAG_UV
            || flag_missing flags WEBAUTHN_FLAG_AT
    with Err WebAuthnUserVerificationRequired ;;
  let credential_len := from_be_bytes (take 2 (drop 53 authenticator_data)) in
  let_some credential_end := checked_add 55 credential_len else Err InvalidWebAuthnProof ;;
  return_if (credential_len =? 0)%N
            || (vlen authenticator_data <=? credential_end)%N
            || negb (bool_decide (take (N.to_nat credential_len) (drop 55 authenticator_data)
                                  = expected_credential_id))
    with Err WebAuthnCredentialMismatch ;;
  parse_es256_cose_key (drop (N.to_nat credential_end) authenticator_data).

End Recovery.
