(* ===== verification/RecoveryTheorems.v ===== *)
(** * What a recovery authorization says

    The byte strings of [Recovery] are uniquely decodable, so a signature on one
    of them is a signature on exactly one message; what the Hub accepts is bound
    to its pending challenge; honest messages are accepted; and the attestation
    parser reads exactly the keys it is meant to read. *)

From S2P Require Import Prelude Vocabulary Protocol Crypto Wire Tombstone Admission.
From S2P Require Import SafetyTypes Recovery.
Import RecoveryError Recovery.

(** ** The bytes identify the message *)

(** The ranges of the Rust types, and strings whose length fits the prefix. *)
Record authorization_typed (a : RecoveryAuthorization) : Prop := {
  at_schema : fits 2 a.(RecoveryAuthorization.schema_version);
  at_request : short a.(RecoveryAuthorization.request_id);
  at_device : short a.(RecoveryAuthorization.device_id);
  at_operation : short a.(RecoveryAuthorization.operation_id);
  at_quarantine : fits 8 a.(RecoveryAuthorization.quarantine_generation);
  at_current : fits 8 a.(RecoveryAuthorization.current_generation);
  at_fingerprint : length a.(RecoveryAuthorization.quarantine_fingerprint) = 32;
  at_nonce : length a.(RecoveryAuthorization.challenge_nonce) = 32;
  at_expires : fits 8 a.(RecoveryAuthorization.challenge_expires_at_ms)
}.

Lemma decision_name_inj d d' : recovery_decision_name d = recovery_decision_name d' → d = d'.
Proof. by destruct d, d'. Qed.
Lemma phase_name_inj p p' : recovery_phase_name p = recovery_phase_name p' → p = p'.
Proof. by destruct p, p'. Qed.
Lemma policy_name_inj p p' : current_state_policy_name p = current_state_policy_name p' → p = p'.
Proof. by destruct p as [[]|], p' as [[]|]. Qed.
Lemma assessment_name_inj x y : audit_assessment_name x = audit_assessment_name y → x = y.
Proof. by destruct x, y. Qed.
Lemma decision_name_short d : short (recovery_decision_name d).
Proof. by destruct d. Qed.
Lemma phase_name_short p : short (recovery_phase_name p).
Proof. by destruct p. Qed.
Lemma policy_name_short p : short (current_state_policy_name p).
Proof. by destruct p as [[]|]. Qed.
Lemma assessment_name_short x : short (audit_assessment_name x).
Proof. by destruct x. Qed.

Create HintDb wire.
#[export] Hint Resolve decision_name_short phase_name_short policy_name_short
  assessment_name_short at_schema at_request at_device at_operation at_quarantine at_current
  at_fingerprint at_nonce at_expires : wire.

Lemma evidence_short e : validate_recovery_evidence e = Ok tt → short e.
Proof.
  unfold validate_recovery_evidence, short, MAX_RECOVERY_EVIDENCE_BYTES. intros H. run H.
  split_bools. lia.
Qed.
#[export] Hint Resolve evidence_short : wire.

(** Before schema 3 the decision determines what is not written. *)
Lemma decision_before_v3 v phase x d p :
  validate_recovery_decision v phase x d p = Ok tt → (v < 3)%N →
  phase = RecoveryPhase.QuarantineResolution ∧
  p = (if bool_decide (d = RecoveryDecision.CurrentStateAccepted)
       then Some RetirementPolicy.TransientUiInteractionV1 else None).
Proof.
  intros H Hv. destruct phase, d, p as [[]|]; try done; cbn in H;
    unfold minimum_schema, ONLINE_RECOVERY_SCHEMA_VERSION in H;
    destruct (N.ltb_spec v 3); cbn in H; done || lia.
Qed.

(** Remove equal components from the front of two equal byte strings. *)
Ltac peel H :=
  repeat (rewrite <- ?app_assoc in H);
  repeat match type of H with
  | push_str [] _ ++ _ = push_str [] _ ++ _ =>
      apply str_prefix in H as [? H]; [|by eauto with wire|by eauto with wire]
  | to_be_bytes _ _ ++ _ = to_be_bytes _ _ ++ _ =>
      apply be_prefix in H as [? H]; [|by eauto with wire|by eauto with wire]
  | push_bytes [] _ ++ _ = push_bytes [] _ ++ _ => apply app_inv_head in H
  | _ ++ _ = _ ++ _ =>
      apply array_prefix in H as [? H]; [|by eauto with wire|by eauto with wire]
  end.

Lemma since_v3_app v out s :
  since_v3 v out s = out ++ since_v3 v [] s.
Proof. unfold since_v3. destruct (_ <=? _)%N; [done|by rewrite app_nil_r]. Qed.

Lemma Ok_inj {E A} (a b : A) : Ok (E:=E) a = Ok b → a = b.
Proof. by intros [= ->]. Qed.

Lemma authorization_bytes_shape a b :
  authorization_signing_bytes a = Ok b →
  validate_recovery_evidence a.(RecoveryAuthorization.evidence) = Ok tt ∧
  validate_recovery_decision a.(RecoveryAuthorization.schema_version)
    a.(RecoveryAuthorization.phase) a.(RecoveryAuthorization.audit_assessment)
    a.(RecoveryAuthorization.decision) a.(RecoveryAuthorization.current_state_policy) = Ok tt ∧
  b = push_bytes [] AUTHORIZATION_DOMAIN ++
      to_be_bytes 2 a.(RecoveryAuthorization.schema_version) ++
      since_v3 a.(RecoveryAuthorization.schema_version) []
        (recovery_phase_name a.(RecoveryAuthorization.phase)) ++
      push_str [] a.(RecoveryAuthorization.request_id) ++
      push_str [] a.(RecoveryAuthorization.device_id) ++
      push_str [] a.(RecoveryAuthorization.operation_id) ++
      to_be_bytes 8 a.(RecoveryAuthorization.quarantine_generation) ++
      to_be_bytes 8 a.(RecoveryAuthorization.current_generation) ++
      a.(RecoveryAuthorization.quarantine_fingerprint) ++
      a.(RecoveryAuthorization.challenge_nonce) ++
      to_be_bytes 8 a.(RecoveryAuthorization.challenge_expires_at_ms) ++
      push_str [] (audit_assessment_name a.(RecoveryAuthorization.audit_assessment)) ++
      push_str [] (recovery_decision_name a.(RecoveryAuthorization.decision)) ++
      since_v3 a.(RecoveryAuthorization.schema_version) []
        (current_state_policy_name a.(RecoveryAuthorization.current_state_policy)) ++
      push_str [] a.(RecoveryAuthorization.evidence) ++ [].
Proof.
  unfold authorization_signing_bytes.
  destruct (validate_recovery_schema _) as [[]|]; [|discriminate].
  destruct (validate_recovery_evidence _) as [[]|]; [|discriminate].
  destruct (validate_recovery_decision _ _ _ _ _) as [[]|]; [|discriminate].
  intros <-%Ok_inj. split; [reflexivity|]. split; [reflexivity|]. rewrite app_nil_r.
  repeat (rewrite (push_str_app (_ ++ _)) || rewrite (push_str_app (since_v3 _ _ _))
    || rewrite (push_str_app (push_str _ _)) || rewrite (since_v3_app _ (_ ++ _))).
  by rewrite <- !app_assoc.
Qed.

Lemma authorization_bytes_identify a a' b :
  authorization_typed a → authorization_typed a' →
  authorization_signing_bytes a = Ok b → authorization_signing_bytes a' = Ok b →
  with_signature a [] = with_signature a' [].
Proof.
  intros Ha Ha' (He & Hd & Hb)%authorization_bytes_shape (He' & Hd' & Hb')%authorization_bytes_shape.
  rewrite Hb' in Hb. clear Hb'. rename Hb into H. peel H.
  match goal with E : _ = a.(RecoveryAuthorization.schema_version) |- _ => rename E into Hv end.
  rewrite Hv in *. unfold with_signature. rewrite Hv. unfold since_v3 in H.
  destruct (N.leb_spec ONLINE_RECOVERY_SCHEMA_VERSION a.(RecoveryAuthorization.schema_version))
    as [Hle|Hlt].
  - peel H. f_equal; first [done|by symmetry; apply phase_name_inj|
      by symmetry; apply assessment_name_inj|by symmetry; apply decision_name_inj|
      by symmetry; apply policy_name_inj].
  - rewrite !app_nil_l in H. peel H.
    destruct (decision_before_v3 _ _ _ _ _ Hd Hlt) as [-> ->].
    destruct (decision_before_v3 _ _ _ _ _ Hd' Hlt) as [-> ->].
    assert (a'.(RecoveryAuthorization.decision) = a.(RecoveryAuthorization.decision)) as ->
      by by apply decision_name_inj.
    f_equal; first [done|by symmetry; apply assessment_name_inj].
Qed.

(** *** Challenges and resolutions, the messages of the Hub *)

Record challenge_typed (c : RecoveryChallenge) : Prop := {
  ct_schema : fits 2 c.(RecoveryChallenge.schema_version);
  ct_device : short c.(RecoveryChallenge.device_id);
  ct_operation : short c.(RecoveryChallenge.operation_id);
  ct_quarantine : fits 8 c.(RecoveryChallenge.quarantine_generation);
  ct_current : fits 8 c.(RecoveryChallenge.current_generation);
  ct_fingerprint : length c.(RecoveryChallenge.quarantine_fingerprint) = 32;
  ct_nonce : length c.(RecoveryChallenge.nonce) = 32;
  ct_issued : fits 8 c.(RecoveryChallenge.issued_at_ms);
  ct_expires : fits 8 c.(RecoveryChallenge.expires_at_ms)
}.

Record resolved_typed (r : RecoveryResolved) : Prop := {
  rt_schema : fits 2 r.(RecoveryResolved.schema_version);
  rt_request : short r.(RecoveryResolved.request_id);
  rt_device : short r.(RecoveryResolved.device_id);
  rt_operation : short r.(RecoveryResolved.operation_id);
  rt_current : fits 8 r.(RecoveryResolved.current_generation);
  rt_resolved : fits 8 r.(RecoveryResolved.resolved_at_ms)
}.
#[export] Hint Resolve ct_schema ct_device ct_operation ct_quarantine ct_current ct_fingerprint
  ct_nonce ct_issued ct_expires rt_schema rt_request rt_device rt_operation rt_current
  rt_resolved : wire.

(** What is written of a message: all but its signature, and before schema 3 neither the
    phase nor the policy *)
Definition written {A} (schema_version : N) (default value : A) : A :=
  if (ONLINE_RECOVERY_SCHEMA_VERSION <=? schema_version)%N then value else default.

Definition written_challenge (c : RecoveryChallenge) : RecoveryChallenge :=
  let v := c.(RecoveryChallenge.schema_version) in
  RecoveryChallenge.mk v (written v RecoveryPhase.QuarantineResolution c.(RecoveryChallenge.phase))
    c.(RecoveryChallenge.device_id) c.(RecoveryChallenge.operation_id)
    c.(RecoveryChallenge.quarantine_generation) c.(RecoveryChallenge.current_generation)
    c.(RecoveryChallenge.quarantine_fingerprint) c.(RecoveryChallenge.nonce)
    c.(RecoveryChallenge.issued_at_ms) c.(RecoveryChallenge.expires_at_ms) [].

Definition written_resolved (r : RecoveryResolved) : RecoveryResolved :=
  let v := r.(RecoveryResolved.schema_version) in
  RecoveryResolved.mk v (written v RecoveryPhase.QuarantineResolution r.(RecoveryResolved.phase))
    r.(RecoveryResolved.request_id) r.(RecoveryResolved.device_id)
    r.(RecoveryResolved.operation_id) r.(RecoveryResolved.current_generation)
    r.(RecoveryResolved.decision) (written v None r.(RecoveryResolved.current_state_policy))
    r.(RecoveryResolved.resolved_at_ms) [].

Lemma challenge_bytes_shape c b :
  challenge_signing_bytes c = Ok b →
  b = push_bytes [] CHALLENGE_DOMAIN ++
      to_be_bytes 2 c.(RecoveryChallenge.schema_version) ++
      since_v3 c.(RecoveryChallenge.schema_version) []
        (recovery_phase_name c.(RecoveryChallenge.phase)) ++
      push_str [] c.(RecoveryChallenge.device_id) ++
      push_str [] c.(RecoveryChallenge.operation_id) ++
      to_be_bytes 8 c.(RecoveryChallenge.quarantine_generation) ++
      to_be_bytes 8 c.(RecoveryChallenge.current_generation) ++
      c.(RecoveryChallenge.quarantine_fingerprint) ++
      c.(RecoveryChallenge.nonce) ++
      to_be_bytes 8 c.(RecoveryChallenge.issued_at_ms) ++
      to_be_bytes 8 c.(RecoveryChallenge.expires_at_ms) ++ [].
Proof.
  unfold challenge_signing_bytes.
  destruct (validate_recovery_schema _) as [[]|]; [|discriminate].
  intros <-%Ok_inj. rewrite app_nil_r.
  repeat (rewrite (push_str_app (_ ++ _)) || rewrite (push_str_app (since_v3 _ _ _))
    || rewrite (push_str_app (push_str _ _)) || rewrite (since_v3_app _ (_ ++ _))).
  by rewrite <- !app_assoc.
Qed.

Lemma challenge_bytes_identify c c' b :
  challenge_typed c → challenge_typed c' →
  challenge_signing_bytes c = Ok b → challenge_signing_bytes c' = Ok b →
  written_challenge c = written_challenge c'.
Proof.
  intros Hc Hc' Hb%challenge_bytes_shape Hb'%challenge_bytes_shape.
  rewrite Hb' in Hb. clear Hb'. rename Hb into H. peel H.
  match goal with E : _ = c.(RecoveryChallenge.schema_version) |- _ => rename E into Hv end.
  unfold written_challenge, written. rewrite Hv in *. unfold since_v3 in H.
  destruct (N.leb_spec ONLINE_RECOVERY_SCHEMA_VERSION c.(RecoveryChallenge.schema_version)).
  - peel H. f_equal; first [done|by symmetry; apply phase_name_inj].
  - rewrite !app_nil_l in H. peel H. f_equal; done.
Qed.

Lemma resolved_bytes_shape r b :
  resolved_signing_bytes r = Ok b →
  b = push_bytes [] RESULT_DOMAIN ++
      to_be_bytes 2 r.(RecoveryResolved.schema_version) ++
      since_v3 r.(RecoveryResolved.schema_version) []
        (recovery_phase_name r.(RecoveryResolved.phase)) ++
      push_str [] r.(RecoveryResolved.request_id) ++
      push_str [] r.(RecoveryResolved.device_id) ++
      push_str [] r.(RecoveryResolved.operation_id) ++
      to_be_bytes 8 r.(RecoveryResolved.current_generation) ++
      push_str [] (recovery_decision_name r.(RecoveryResolved.decision)) ++
      since_v3 r.(RecoveryResolved.schema_version) []
        (current_state_policy_name r.(RecoveryResolved.current_state_policy)) ++
      to_be_bytes 8 r.(RecoveryResolved.resolved_at_ms) ++ [].
Proof.
  unfold resolved_signing_bytes.
  destruct (validate_recovery_schema _) as [[]|]; [|discriminate].
  intros <-%Ok_inj. rewrite app_nil_r.
  repeat (rewrite (push_str_app (_ ++ _)) || rewrite (push_str_app (since_v3 _ _ _))
    || rewrite (push_str_app (push_str _ _)) || rewrite (since_v3_app _ (_ ++ _))
    || rewrite (since_v3_app _ (push_str _ _))).
  by rewrite <- !app_assoc.
Qed.

Lemma resolved_bytes_identify r r' b :
  resolved_typed r → resolved_typed r' →
  resolved_signing_bytes r = Ok b → resolved_signing_bytes r' = Ok b →
  written_resolved r = written_resolved r'.
Proof.
  intros Hr Hr' Hb%resolved_bytes_shape Hb'%resolved_bytes_shape.
  rewrite Hb' in Hb. clear Hb'. rename Hb into H. peel H.
  match goal with E : _ = r.(RecoveryResolved.schema_version) |- _ => rename E into Hv end.
  unfold written_resolved, written. rewrite Hv in *. unfold since_v3 in H.
  destruct (N.leb_spec ONLINE_RECOVERY_SCHEMA_VERSION r.(RecoveryResolved.schema_version)).
  - peel H. f_equal; first [done|by symmetry; apply phase_name_inj|
      by symmetry; apply decision_name_inj|by symmetry; apply policy_name_inj].
  - rewrite !app_nil_l in H. peel H. f_equal; first [done|by symmetry; apply decision_name_inj].
Qed.

(** The domains differ. *)
Lemma challenge_not_resolved c r b :
  challenge_signing_bytes c = Ok b → resolved_signing_bytes r = Ok b → False.
Proof. intros ->%challenge_bytes_shape Hb%resolved_bytes_shape. discriminate Hb. Qed.

(** ** Acceptance *)

Lemma validate_authorization_Ok c a now :
  validate_authorization_against_challenge c a now = Ok tt ↔
  validate_recovery_schema c.(RecoveryChallenge.schema_version) = Ok tt ∧
  validate_recovery_evidence a.(RecoveryAuthorization.evidence) = Ok tt ∧
  validate_recovery_decision c.(RecoveryChallenge.schema_version) c.(RecoveryChallenge.phase)
    a.(RecoveryAuthorization.audit_assessment) a.(RecoveryAuthorization.decision)
    a.(RecoveryAuthorization.current_state_policy) = Ok tt ∧
  valid_request_id a.(RecoveryAuthorization.request_id) = true ∧
  (now ≤ c.(RecoveryChallenge.expires_at_ms))%N ∧
  a.(RecoveryAuthorization.schema_version) = c.(RecoveryChallenge.schema_version) ∧
  a.(RecoveryAuthorization.phase) = c.(RecoveryChallenge.phase) ∧
  a.(RecoveryAuthorization.device_id) = c.(RecoveryChallenge.device_id) ∧
  a.(RecoveryAuthorization.operation_id) = c.(RecoveryChallenge.operation_id) ∧
  a.(RecoveryAuthorization.quarantine_generation) = c.(RecoveryChallenge.quarantine_generation) ∧
  a.(RecoveryAuthorization.current_generation) = c.(RecoveryChallenge.current_generation) ∧
  a.(RecoveryAuthorization.quarantine_fingerprint) = c.(RecoveryChallenge.quarantine_fingerprint) ∧
  a.(RecoveryAuthorization.challenge_nonce) = c.(RecoveryChallenge.nonce) ∧
  a.(RecoveryAuthorization.challenge_expires_at_ms) = c.(RecoveryChallenge.expires_at_ms).
Proof.
  unfold validate_authorization_against_challenge. split.
  - intros H. run H. repeat match goal with u : unit |- _ => destruct u end. split_bools.
    repeat match goal with H : RecoveryAuthorization.schema_version _ = _ |- _ => rewrite H in * end.
    repeat match goal with H : RecoveryAuthorization.phase _ = _ |- _ => rewrite H in * end.
    split_and!; first [done|lia].
  - intros (Hs & He & Hd & Hr & Hn & Hv & Hp & Hdev & Hop & Hq & Hc & Hf & Hno & Hx).
    rewrite Hv, Hs, He, Hp, Hd, Hr, Hx, Hdev, Hop, Hq, Hc, Hf, Hno.
    rewrite !N.eqb_refl, !bool_decide_true by done.
    by destruct (N.ltb_spec c.(RecoveryChallenge.expires_at_ms) now); [lia|].
Qed.

(** ** What is accepted is what the user approved *)

Section Users.
Context `{SHA : Sha256, SHAL : !Sha256Laws} `{P : P256}.
Context `{B64 : Base64Url, B64L : !Base64UrlLaws} `{WJ : WebAuthnJson, WJL : !WebAuthnJsonLaws}.

(** The messages the user's key signs when the user approves [x]. *)
Definition approves (v : RecoveryVerifierKind) (x : RecoveryAuthorization) (m : list N) : Prop :=
  ∃ b, authorization_signing_bytes x = Ok b ∧
  match v with
  | RecoveryVerifierKind.DirectP256 _ => m = b
  | RecoveryVerifierKind.WebAuthnEs256 _ _ =>
      ∃ authenticator_data json, client_data_to_vec (client_data b) = Some json ∧
        m = authenticator_data ++ sha256 json
  end.

(** A WebAuthn key signs hashes: two authorizations whose bytes, or whose client data, are
    different and have the same hash *)
Definition collide (v : RecoveryVerifierKind) (a x : RecoveryAuthorization) : Prop :=
  match v with
  | RecoveryVerifierKind.DirectP256 _ => False
  | RecoveryVerifierKind.WebAuthnEs256 _ _ =>
      ∃ b b' json json',
        authorization_signing_bytes a = Ok b ∧ authorization_signing_bytes x = Ok b' ∧
        client_data_to_vec (client_data b) = Some json ∧
        client_data_to_vec (client_data b') = Some json' ∧
        ((b ≠ b' ∧ sha256 b = sha256 b') ∨ (json ≠ json' ∧ sha256 json = sha256 json'))
  end.

Lemma client_data_same b b' json :
  client_data_to_vec (client_data b) = Some json →
  client_data_to_vec (client_data b') = Some json → sha256 b = sha256 b'.
Proof.
  intros H H'. pose proof (client_data_inj _ _ _ H H') as Heq.
  injection Heq as Heq%(f_equal b64_decode).
  rewrite !b64_decode_encode in Heq by apply sha256_u8. by injection Heq.
Qed.

Lemma verify_webauthn_Ok credential_id public_key a b :
  verify_webauthn_authorization_proof credential_id public_key a b = Ok tt →
  ∃ authenticator_data json signature flags,
    take 32 authenticator_data = sha256 (bytes WEBAUTHN_RECOVERY_RP_ID) ∧
    authenticator_data !! 32 = Some flags ∧
    N.land flags WEBAUTHN_FLAG_UP ≠ 0%N ∧ N.land flags WEBAUTHN_FLAG_UV ≠ 0%N ∧
    client_data_to_vec (client_data b) = Some json ∧
    p256_verify public_key (authenticator_data ++ sha256 json) signature = true.
Proof.
  unfold verify_webauthn_authorization_proof, flag_missing. intros H. run H. split_bools.
  match goal with H : p256_verify _ (?ad ++ sha256 ?j) ?s = true |- _ => exists ad, j, s end.
  match goal with H : (37 ≤ vlen ?ad)%N |- _ =>
    destruct (lookup_lt_is_Some_2 ad 32) as [flags Hf]; [unfold vlen in H; lia|] end.
  rewrite Hf in *. exists flags. by split_and!.
Qed.

(** The user's key signs nothing but what the user approves. *)
Definition signs_approved (v : RecoveryVerifierKind) (approved : list RecoveryAuthorization) : Prop :=
  ∀ m s, p256_verify (public_key_bytes v) m s = true → ∃ x, x ∈ approved ∧ approves v x m.

Lemma authorization_approved v c a now approved :
  verify_authorization v c a now = Ok tt → signs_approved v approved →
  authorization_typed a → (∀ x, x ∈ approved → authorization_typed x) →
  ∃ x, x ∈ approved ∧ (with_signature x [] = with_signature a [] ∨ collide v a x).
Proof.
  unfold verify_authorization. intros H Hunf Hta Happ.
  destruct (validate_authorization_against_challenge c a now) as [[]|]; [|done].
  destruct (authorization_signing_bytes a) as [b|] eqn:Hb; [|done].
  assert (∀ x, x ∈ approved → authorization_signing_bytes x = Ok b →
    with_signature x [] = with_signature a []) as Hsame.
  { intros x Hx Hbx. by eapply authorization_bytes_identify; [apply Happ|..]. }
  destruct v as [pk|cred pk]; unfold signs_approved in Hunf; cbn [public_key_bytes] in Hunf.
  - destruct (p256_verify pk b _) eqn:Hv; [|done].
    destruct (Hunf _ _ Hv) as (x & Hx & bx & Hbx & ->). exists x. auto.
  - apply verify_webauthn_Ok in H as (ad & json & s & flags & _ & _ & _ & _ & Hj & Hv).
    destruct (Hunf _ _ Hv) as (x & Hx & bx & Hbx & ad' & json' & Hj' & Heq).
    apply app_inj_2 in Heq as [_ Heq]; [|by rewrite !sha256_length].
    exists x. split; [done|]. destruct (decide (b = bx)) as [<-|Hne]; [left; auto|right].
    exists b, bx, json, json'. split_and!; [done..|].
    destruct (decide (json = json')) as [<-|Hj'']; [left|by right]. split; [done|].
    by eapply client_data_same.
Qed.

End Users.

(** ** Honest messages are accepted *)

Lemma hex_digit_lower n : (n < 16)%N →
  is_ascii_hexdigit (N_of_ascii (hex_digit n)) && negb (is_ascii_uppercase (N_of_ascii (hex_digit n)))
  = true.
Proof.
  intros Hn%nibble_elem.
  assert (forallb (λ n, is_ascii_hexdigit (N_of_ascii (hex_digit n))
            && negb (is_ascii_uppercase (N_of_ascii (hex_digit n)))) nibbles = true) as Hall
    by by_eval.
  rewrite forallb_forall in Hall. by apply Hall, list_elem_of_In.
Qed.

Lemma hex_lower l : Forall (λ b, b < 256)%N l →
  forallb (λ b, is_ascii_hexdigit b && negb (is_ascii_uppercase b)) (bytes (hex l)) = true.
Proof.
  induction 1 as [|b l Hb Hl IH]; [done|]. destruct (byte_nibbles b Hb) as (H1 & H2 & _).
  change (bytes (hex (b :: l))) with (N_of_ascii (hex_digit (N.shiftr b 4)) ::
    N_of_ascii (hex_digit (N.land b 15)) :: bytes (hex l)).
  cbn [forallb]. by rewrite !hex_digit_lower, IH.
Qed.

Lemma hex_length l : String.length (hex l) = 2 * length l.
Proof. induction l as [|b l IH]; [done|]. cbn [hex String.length length]. lia. Qed.

Lemma fresh_request_id random :
  length random = 16 → Forall (λ b, b < 256)%N random →
  valid_request_id ("rec_" +:+ hex random) = true.
Proof.
  intros Hl Hr. unfold valid_request_id. rewrite strip_prefix_app. cbn [opt_some].
  change (bytes ("rec_" +:+ hex random)) with ([114; 101; 99; 95]%N ++ bytes (hex random)).
  rewrite (drop_app_length' _ _ 4) by done. rewrite hex_lower by done.
  assert (slen ("rec_" +:+ hex random) = 36%N) as ->; [|done].
  unfold slen. rewrite <- length_bytes.
  change (bytes ("rec_" +:+ hex random)) with ([114; 101; 99; 95]%N ++ bytes (hex random)).
  by rewrite length_app, length_bytes, hex_length, Hl.
Qed.

Section Honest.
Context `{SHA : Sha256} `{ED : Ed25519, EDL : !Ed25519Laws} `{P : P256}.
Context `{B64 : Base64Url} `{WJ : WebAuthnJson}.

(** A challenge that the Hub built is accepted until it expires. *)
Lemma signed_challenge_verifies hub c c' device g now :
  sign_challenge hub c = Ok c' →
  c.(RecoveryChallenge.device_id) = device → c.(RecoveryChallenge.current_generation) = g →
  c.(RecoveryChallenge.quarantine_generation) ≠ 0%N →
  trim_is_empty c.(RecoveryChallenge.operation_id) = false →
  (c.(RecoveryChallenge.issued_at_ms) ≤ c.(RecoveryChallenge.expires_at_ms))%N →
  verify_recovery_challenge c' (sk_verifying_key hub) device g now =
    if (c.(RecoveryChallenge.expires_at_ms) <? now)%N then Err ExpiredChallenge else Ok tt.
Proof.
  unfold sign_challenge. destruct (challenge_signing_bytes c) as [b|] eqn:Hb; [|done].
  intros <-%Ok_inj <- <- Hq Hop Hle. unfold verify_recovery_challenge.
  pose proof Hb as Hs. unfold challenge_signing_bytes in Hs.
  cbn [RecoveryChallenge.schema_version RecoveryChallenge.device_id RecoveryChallenge.operation_id
    RecoveryChallenge.current_generation RecoveryChallenge.quarantine_generation
    RecoveryChallenge.issued_at_ms RecoveryChallenge.expires_at_ms RecoveryChallenge.signature].
  destruct (validate_recovery_schema _) as [[]|]; [|done]. clear Hs.
  rewrite bool_decide_true, N.eqb_refl, (proj2 (N.eqb_neq _ _) Hq), Hop by done. cbn [negb orb].
  rewrite (proj2 (N.ltb_ge _ _) Hle). cbn [orb].
  destruct (_ <? now)%N; [done|].
  unfold try_into_array. rewrite bool_decide_true by apply sk_sign_length.
  change (challenge_signing_bytes _) with (challenge_signing_bytes c). rewrite Hb.
  unfold verify_hub_signature. by rewrite sk_sign_verifies.
Qed.

Lemma fresh_authorization c x d p ev random a signature :
  new_authorization_with_decision c x d p ev random = Ok a →
  length random = 16 → Forall (λ b, b < 256)%N random →
  (∀ now, (now ≤ c.(RecoveryChallenge.expires_at_ms))%N →
     validate_authorization_against_challenge c (with_signature a signature) now = Ok tt) ∧
  authorization_signing_bytes (with_signature a signature) = authorization_signing_bytes a ∧
  is_Some (match authorization_signing_bytes a with Ok b => Some b | Err _ => None end) ∧
  a.(RecoveryAuthorization.signature) = [].
Proof.
  unfold new_authorization_with_decision. intros H Hl Hr.
  destruct (validate_recovery_schema _) as [[]|] eqn:Hs; [|done].
  destruct (validate_recovery_evidence _) as [[]|] eqn:He; [|done].
  destruct (validate_recovery_decision _ _ _ _ _) as [[]|] eqn:Hd; [|done].
  apply Ok_inj in H as <-. split_and!; [|done| |done].
  - intros now Hn. apply validate_authorization_Ok. cbn. split_and!; try done. by apply fresh_request_id.
  - unfold authorization_signing_bytes. cbn [RecoveryAuthorization.schema_version
      RecoveryAuthorization.evidence RecoveryAuthorization.phase RecoveryAuthorization.decision
      RecoveryAuthorization.audit_assessment RecoveryAuthorization.current_state_policy].
    rewrite Hs, He, Hd. eauto.
Qed.

(** The Hub's answer to an authorization is accepted for that authorization. *)
Lemma resolved_verifies hub a t :
  validate_recovery_schema a.(RecoveryAuthorization.schema_version) = Ok tt →
  ∃ r, build_recovery_resolved hub a t = Ok r ∧
       verify_recovery_resolved_for_authorization r (sk_verifying_key hub) a = Ok tt.
Proof.
  intros Hs. unfold build_recovery_resolved.
  destruct (resolved_signing_bytes _) as [b|] eqn:Hb.
  2:{ exfalso. unfold resolved_signing_bytes in Hb.
      cbn [RecoveryResolved.schema_version] in Hb. by rewrite Hs in Hb. }
  eexists. split; [reflexivity|].
  unfold verify_recovery_resolved_for_authorization, verify_recovery_resolved.
  cbn [RecoveryResolved.schema_version RecoveryResolved.request_id RecoveryResolved.device_id
    RecoveryResolved.current_generation RecoveryResolved.signature RecoveryResolved.phase
    RecoveryResolved.operation_id RecoveryResolved.decision RecoveryResolved.current_state_policy].
  rewrite Hs, !bool_decide_true, N.eqb_refl by done. cbn [negb orb].
  unfold try_into_array. rewrite bool_decide_true by apply sk_sign_length.
  change (resolved_signing_bytes _) with (resolved_signing_bytes
    (RecoveryResolved.mk a.(RecoveryAuthorization.schema_version)
    a.(RecoveryAuthorization.phase) a.(RecoveryAuthorization.request_id)
    a.(RecoveryAuthorization.device_id) a.(RecoveryAuthorization.operation_id)
    a.(RecoveryAuthorization.current_generation) a.(RecoveryAuthorization.decision)
    a.(RecoveryAuthorization.current_state_policy) t [])). rewrite Hb.
  unfold verify_hub_signature. by rewrite sk_sign_verifies.
Qed.

(** An honest recovery succeeds: the challenge for a quarantine is accepted by
    the device for which it was built, for exactly its life time; an
    authorization made from it and signed by the user's key is accepted by the
    Hub for as long; and the Hub's answer is accepted for that authorization. *)
Theorem honest_recovery_succeeds hub q g t nonce c :
  build_recovery_challenge hub q g t nonce = Ok c →
  q.(DesktopQuarantine.device_generation) ≠ 0%N → (t + RECOVERY_CHALLENGE_TTL_MS ≤ u64_max)%N →
  (∀ now, verify_recovery_challenge c (sk_verifying_key hub) q.(DesktopQuarantine.device_id) g now =
     if (t + RECOVERY_CHALLENGE_TTL_MS <? now)%N then Err ExpiredChallenge else Ok tt) ∧
  ∀ x d p ev random a,
    new_authorization_with_decision c x d p ev random = Ok a →
    length random = 16 → Forall (λ b, b < 256)%N random →
    ∃ b, authorization_signing_bytes a = Ok b ∧
    ∀ pk signature, p256_verify pk b signature = true →
      (∀ now, (now ≤ t + RECOVERY_CHALLENGE_TTL_MS)%N →
         verify_authorization (RecoveryVerifierKind.DirectP256 pk) c (with_signature a signature) now
         = Ok tt) ∧
      ∀ t', ∃ r, build_recovery_resolved hub (with_signature a signature) t' = Ok r ∧
        verify_recovery_resolved_for_authorization r (sk_verifying_key hub)
          (with_signature a signature) = Ok tt.
Proof.
  unfold build_recovery_challenge. intros H Hq Ht.
  destruct (_ || _) eqn:Hg; [done|]. apply orb_false_iff in Hg as [Hg Hop].
  assert (saturating_add t RECOVERY_CHALLENGE_TTL_MS = t + RECOVERY_CHALLENGE_TTL_MS)%N as Hx
    by (unfold saturating_add; lia).
  assert (c.(RecoveryChallenge.expires_at_ms) = t + RECOVERY_CHALLENGE_TTL_MS)%N as Hexp.
  { unfold sign_challenge in H. destruct (challenge_signing_bytes _); [|done].
    by apply Ok_inj in H as <-. }
  split.
  - intros now. rewrite (signed_challenge_verifies _ _ _ q.(DesktopQuarantine.device_id) g now H eq_refl
      eq_refl Hq Hop).
    + cbn [RecoveryChallenge.expires_at_ms]. by rewrite Hx.
    + cbn [RecoveryChallenge.expires_at_ms RecoveryChallenge.issued_at_ms]. rewrite Hx. lia.
  - intros x d p ev random a Ha Hl Hr.
    pose proof (λ s, fresh_authorization _ _ _ _ _ _ _ s Ha Hl Hr) as Hf.
    destruct (authorization_signing_bytes a) as [b|] eqn:Hb; [|by destruct (Hf []) as (_ & _ & [? ?] & _)].
    exists b. split; [done|]. intros pk signature Hp. destruct (Hf signature) as (Hv & Hs & _ & _).
    split.
    + intros now Hn. unfold verify_authorization. rewrite Hv by (by rewrite Hexp).
      rewrite Hs. cbn [with_signature RecoveryAuthorization.signature]. by rewrite Hp.
    + intros t'. apply resolved_verifies. revert Hb. unfold authorization_signing_bytes.
      cbn [with_signature RecoveryAuthorization.schema_version].
      by destruct (validate_recovery_schema _) as [[]|].
Qed.
End Honest.

(** ** The attestation parser *)

(** The CTAP2 encoding of an ES256 key with coordinates [x] and [y]. *)
Definition cose_key (x y : list N) : list N :=
  [165; 1; 2; 3; 38; 32; 1; 33; 88; 32]%N ++ x ++ [34; 88; 32]%N ++ y.

Lemma get_range_app pre s rest :
  get_range (pre ++ s ++ rest) (vlen pre) (vlen pre + vlen s) = Some s.
Proof.
  unfold get_range. rewrite !vlen_app.
  assert ((vlen pre <=? vlen pre + vlen s)%N = true) as -> by (apply N.leb_le; lia).
  assert ((vlen pre + vlen s <=? vlen pre + (vlen s + vlen rest))%N = true) as ->
    by (apply N.leb_le; lia). cbn [andb].
  replace (N.to_nat (vlen pre + vlen s - vlen pre)) with (length s) by (unfold vlen; lia).
  replace (N.to_nat (vlen pre)) with (length pre) by (unfold vlen; lia).
  by rewrite drop_app_length, take_app_length.
Qed.

Lemma cbor_take_app pre s rest :
  (vlen (pre ++ s ++ rest) ≤ u64_max)%N →
  cbor_take (vlen s) (pre ++ s ++ rest) (vlen pre) = Ok (s, vlen pre + vlen s)%N.
Proof.
  rewrite !vlen_app. intros Hle. unfold cbor_take.
  assert (checked_add (vlen pre) (vlen s) = Some (vlen pre + vlen s)%N) as ->
    by (apply checked_add_Some; lia).
  by rewrite get_range_app.
Qed.

Lemma cose_prefix_read x y k :
  read_cose_entries 3 (cose_key x y) k 1 =
    Ok (mk_cose (Some 2%Z) (Some (-7)%Z) (Some 1%Z) k.(cose_x) k.(cose_y), 7%N).
Proof. done. Qed.

Lemma coordinate_read pre s rest label :
  length s = 32 → (vlen (pre ++ label :: 88%N :: 32%N :: s ++ rest) ≤ u64_max)%N →
  cbor_read_fixed_bytes 32 (pre ++ label :: 88%N :: 32%N :: s ++ rest) (vlen pre + 1) =
    Ok (s, vlen pre + 35)%N.
Proof.
  intros Hs Hle. unfold cbor_read_fixed_bytes, cbor_read_len, cbor_read_head.
  set (b := pre ++ _) in *.
  assert (b !! N.to_nat (vlen pre + 1) = Some 88%N) as ->.
  { subst b. rewrite lookup_app_r by (unfold vlen; lia).
    by replace (N.to_nat (vlen pre + 1) - length pre) with 1 by (unfold vlen; lia). }
  change (N.land 88 31) with 24%N. change (N.shiftr 88 5) with 2%N.
  change (24 <=? 23)%N with false. change (24 =? 24)%N with true. cbv iota.
  assert (b = (pre ++ [label; 88%N]) ++ [32%N] ++ (s ++ rest)) as Hb1
    by (subst b; by rewrite <- app_assoc).
  assert (b = (pre ++ [label; 88%N; 32%N]) ++ s ++ rest) as Hb2
    by (subst b; by rewrite <- app_assoc).
  pose proof (cbor_take_app (pre ++ [label; 88%N]) [32%N] (s ++ rest)) as Ht. rewrite <- Hb1 in Ht.
  pose proof (cbor_take_app (pre ++ [label; 88%N; 32%N]) s rest) as Hx. rewrite <- Hb2 in Hx.
  assert (vlen s = 32%N) as Hl by (unfold vlen; lia). rewrite Hl, vlen_app in Hx.
  rewrite vlen_app in Ht.
  change (vlen [32%N]) with 1%N in Ht. change (vlen [label; 88%N]) with 2%N in Ht.
  change (vlen [label; 88%N; 32%N]) with 3%N in Hx.
  replace (vlen pre + 1 + 1)%N with (vlen pre + 2)%N by lia.
  rewrite Ht by done. cbn [fst snd]. change (from_be_bytes [32%N]) with 32%N.
  change (2 =? 2)%N with true. change (32 =? 32)%N with true. cbn [negb fst snd].
  replace (vlen pre + 2 + 1)%N with (vlen pre + 3)%N by lia.
  rewrite Hx by done. do 2 f_equal. lia.
Qed.

Lemma read_cose_entries_add n m b k c :
  read_cose_entries (n + m) b k c =
    let_ok r := read_cose_entries n b k c else e => Err e ;; read_cose_entries m b r.1 r.2.
Proof.
  revert k c. induction n as [|n IH]; intros k c; [done|]. cbn [read_cose_entries Nat.add].
  destruct (read_cose_entry b k c) as [[k' c']|]; [apply IH|done].
Qed.

(** Reading the label of a coordinate, and the coordinate. *)
Lemma coordinate_entry pre s rest label k :
  label = 33%N ∨ label = 34%N →
  length s = 32 → (vlen (pre ++ label :: 88%N :: 32%N :: s ++ rest) ≤ u64_max)%N →
  read_cose_entry (pre ++ label :: 88%N :: 32%N :: s ++ rest) k (vlen pre) =
    Ok (if (label =? 33)%N then mk_cose k.(kty) k.(alg) k.(curve) (Some s) k.(cose_y)
        else mk_cose k.(kty) k.(alg) k.(curve) k.(cose_x) (Some s), vlen pre + 35)%N.
Proof.
  intros Hl Hs Hle. pose proof (coordinate_read pre s rest label Hs Hle) as Hc.
  unfold read_cose_entry.
  assert (cbor_read_int (pre ++ label :: 88%N :: 32%N :: s ++ rest) (vlen pre) =
    Ok (if (label =? 33)%N then (-2)%Z else (-3)%Z, vlen pre + 1)%N) as ->.
  { unfold cbor_read_int, cbor_read_head.
    rewrite lookup_app_r by (unfold vlen; lia).
    replace (N.to_nat (vlen pre) - length pre) with 0 by (unfold vlen; lia).
    by destruct Hl as [-> | ->]. }
  cbn [fst snd]. rewrite Hc. by destruct Hl as [-> | ->].
Qed.

(** An attested ES256 key is read back as its uncompressed point. *)
Theorem attested_key_roundtrip x y :
  length x = 32 → length y = 32 → parse_es256_cose_key (cose_key x y) = Ok (4%N :: x ++ y).
Proof.
  intros Hx Hy. unfold parse_es256_cose_key.
  change (cbor_read_len (cose_key x y) 0 5) with (Ok (E:=RecoveryError) (5, 1)%N).
  cbn [fst snd]. change (5 =? 5)%N with true. cbn [negb].
  rewrite (read_cose_entries_add 3 2), cose_prefix_read. cbn [fst snd cose_x cose_y read_cose_entries].
  assert (vlen (cose_key x y) = 77%N) as Hlen.
  { unfold cose_key, vlen. rewrite !length_app, Hx, Hy. done. }
  pose proof (coordinate_entry [165; 1; 2; 3; 38; 32; 1]%N x (34%N :: 88%N :: 32%N :: y) 33%N
    (mk_cose (Some 2%Z) (Some (-7)%Z) (Some 1%Z) None None) (or_introl eq_refl) Hx) as H1.
  pose proof (coordinate_entry ([165; 1; 2; 3; 38; 32; 1; 33; 88; 32]%N ++ x) y [] 34%N
    (mk_cose (Some 2%Z) (Some (-7)%Z) (Some 1%Z) (Some x) None) (or_intror eq_refl) Hy) as H2.
  change ([165; 1; 2; 3; 38; 32; 1]%N ++ _) with (cose_key x y) in H1.
  replace ((_ ++ x) ++ 34%N :: 88%N :: 32%N :: y ++ []) with (cose_key x y) in H2
    by (by rewrite app_nil_r, <- app_assoc).
  rewrite Hlen in H1, H2. change (vlen [165; 1; 2; 3; 38; 32; 1]%N) with 7%N in H1.
  replace (vlen ([165; 1; 2; 3; 38; 32; 1; 33; 88; 32]%N ++ x)) with 42%N in H2
    by (unfold vlen; by rewrite length_app, Hx).
  rewrite H1 by done. change (33 =? 33)%N with true. cbn [fst snd kty alg curve cose_x cose_y].
  change (7 + 35)%N with 42%N. rewrite H2 by done. change (34 =? 33)%N with false.
  cbn [fst snd kty alg curve cose_x cose_y]. rewrite Hlen, !bool_decide_true by done. cbn.
  unfold validate_p256_public_key, try_into_array.
  rewrite bool_decide_true by (cbn; rewrite length_app; lia). done.
Qed.

Module RecoveryExamples.
Import ToyCrypto.
#[local] Existing Instances ReplayDenyTombstone.Examples.hex_engine
  ReplayDenyTombstone.Examples.hex_engine_laws.
#[local] Instance toy_sha256 : Sha256 := digest.
#[local] Instance toy_sha256_laws : Sha256Laws.
Proof. split; [apply digest_length|apply digest_u8]. Qed.
#[local] Instance toy_json : WebAuthnJson := {
  verifier_from_slice _ := None;
  proof_to_vec _ := None;
  proof_from_slice _ := None;
  client_data_to_vec c :=
    if bool_decide (c.(WebAuthnClientData.kind) = "webauthn.get")
       && bool_decide (c.(WebAuthnClientData.origin) = WEBAUTHN_RECOVERY_ORIGIN)
       && negb c.(WebAuthnClientData.cross_origin)
    then Some (bytes c.(WebAuthnClientData.challenge)) else None
}.
#[local] Instance toy_json_laws : WebAuthnJsonLaws.
Proof.
  split; [done|]. intros [k c o x] [k' c' o' x'] b H H'. cbn in H, H'.
  destruct x; [by rewrite andb_false_r in H|].
  destruct x'; [by rewrite andb_false_r in H'|].
  run H. run H'. split_bools. by f_equal; try congruence; apply bytes_inj.
Qed.

Definition hub : SigningKey := key_of_byte 1.
Definition lost_click : DesktopQuarantine :=
  DesktopQuarantine.mk "dev_a" "op_1" 1 (OperationOwner.mk "issuer" "alice")
    IndeterminateReason.ConnectionLost 1000.
Definition challenge : RecoveryChallenge :=
  match build_recovery_challenge hub lost_click 2 2000 (replicate 32 7%N) with
  | Ok c => c
  | Err _ => RecoveryChallenge.mk 0 RecoveryPhase.QuarantineResolution "" "" 0 0 [] [] 0 0 []
  end.
Definition unsigned : RecoveryAuthorization :=
  match new_authorization challenge RecoveryAuditAssessment.NotExecuted
          IndeterminateResolution.ConfirmedNotExecuted "checked the screen" (replicate 16 5%N) with
  | Ok a => a
  | Err _ => RecoveryAuthorization.mk 0 RecoveryPhase.QuarantineResolution "" "" "" 0 0 [] [] 0
      RecoveryAuditAssessment.Inconclusive RecoveryDecision.MutationsResumed None "" []
  end.
Definition message : list N :=
  match authorization_signing_bytes unsigned with Ok b => b | Err _ => [] end.

(** The user's key has made the signature [[7]] on this authorization only. *)
#[local] Instance toy_p256 : P256 := λ pk m s, bool_decide (m = message) && bool_decide (s = [7%N]).
Definition signed : RecoveryAuthorization := with_signature unsigned [7%N].
Definition user_key : RecoveryVerifierKind := RecoveryVerifierKind.DirectP256 (4%N :: replicate 64 0%N).

Lemma message_bytes : authorization_signing_bytes unsigned = Ok message.
Proof. by_eval. Qed.

Lemma unsigned_typed : authorization_typed unsigned.
Proof. by split. Qed.

Lemma user_signs_approved : signs_approved user_key [unsigned].
Proof.
  intros m s Hm. apply andb_true_iff in Hm as [Hm _]. apply bool_decide_eq_true in Hm as ->.
  exists unsigned. split; [by left|]. exists message. split; [exact message_bytes|done].
Qed.
Lemma signed_typed : authorization_typed signed.
Proof. by split. Qed.
Lemma approved_typed x : x ∈ [unsigned] → authorization_typed x.
Proof. intros ->%list_elem_of_singleton. exact unsigned_typed. Qed.
Lemma signed_accepted : verify_authorization user_key challenge signed 3000 = Ok tt.
Proof. by_eval. Qed.


Lemma honest_recovery_succeeds_witness :
  verify_recovery_challenge challenge (sk_verifying_key hub) "dev_a" 2 302000 = Ok tt.
Proof.
  assert (build_recovery_challenge hub lost_click 2 2000 (replicate 32 7%N) = Ok challenge) as H
    by by_eval.
  exact (proj1 (honest_recovery_succeeds hub lost_click 2 2000 (replicate 32 7%N) challenge H
    ltac:(discriminate) ltac:(discriminate)) 302000%N).
Defined.

Lemma attested_key_roundtrip_witness :
  parse_es256_cose_key (cose_key (replicate 32 1%N) (replicate 32 2%N))
  = Ok (4%N :: replicate 32 1%N ++ replicate 32 2%N).
Proof. apply attested_key_roundtrip; reflexivity. Defined.
End RecoveryExamples.
