(* ===== verification/EphemeralRefs.v ===== *)
(** * Ephemeral data references

    [src/src/v2_ephemeral_data_refs.rs]: the Hub's registry of public references
    to data retained by an Agent, and the Agent's store of the data itself. The
    random bytes of an identifier are an argument (one string per attempt); the
    private directory of the Agent is a map from locators to file contents. *)

From S2P Require Import Prelude Vocabulary Protocol Crypto SafetyTypes.

Definition DEFAULT_EPHEMERAL_REF_TTL_MS : N := 300000.
Definition DEFAULT_MAX_HUB_EPHEMERAL_REFS : N := 1024.
Definition DEFAULT_MAX_HUB_EPHEMERAL_REFS_PER_OWNER : N := 128.
Definition DEFAULT_MAX_HUB_EPHEMERAL_BYTES_PER_OWNER : N := 16777216.
Definition DEFAULT_MAX_AGENT_EPHEMERAL_OBJECTS : N := 1024.
Definition DEFAULT_MAX_AGENT_EPHEMERAL_BYTES : N := 67108864.
Definition DEFAULT_MAX_AGENT_EPHEMERAL_OBJECT_BYTES : N := 8388608.
Definition DEFAULT_MAX_AGENT_EPHEMERAL_READ_BYTES : N := 65536.
Definition MAX_AGENT_LOCATOR_BYTES : N := 512.

Module EphemeralDataKind.
Inductive EphemeralDataKind := ProcessStdout | ProcessStderr | DirectoryContinuation.
#[global] Instance EphemeralDataKind_eq_dec : EqDecision EphemeralDataKind.
Proof. solve_decision. Defined.
End EphemeralDataKind.
Abbreviation EphemeralDataKind := EphemeralDataKind.EphemeralDataKind.

Module HubEphemeralRefError.
Inductive HubEphemeralRefError :=
| InvalidLimits | InvalidBinding | InvalidAgentLocator | RefLimitExceeded
| OwnerRefLimitExceeded | OwnerByteLimitExceeded | IdentifierCollision | UnknownRef | Expired
| OwnerMismatch | DeviceMismatch | GenerationMismatch | CapabilityRevisionMismatch
| KindMismatch | OperationMismatch.
#[global] Instance HubEphemeralRefError_eq_dec : EqDecision HubEphemeralRefError.
Proof. solve_decision. Defined.
End HubEphemeralRefError.
Abbreviation HubEphemeralRefError := HubEphemeralRefError.HubEphemeralRefError.

(** [random_id]: a prefix and 16 random bytes in hexadecimal. *)
Definition random_id (prefix : string) (random : list N) : string := prefix +:+ hex random.

Definition validate_ref_binding (device_id : string) (device_generation capability_revision : N)
    (operation_id : option string) : bool :=
  negb (trim_is_empty device_id
        || (device_generation =? 0)%N
        || (capability_revision =? 0)%N
        || is_some_and trim_is_empty operation_id).

(** The first of the attempts whose identifier is not in use. *)
Fixpoint fresh_id {A} (prefix : string) (used : gmap string A) (attempts : list (list N))
    : option string :=
  match attempts with
  | [] => None
  | random :: attempts =>
      let id := random_id prefix random in
      if bool_decide (is_Some (used !! id)) then fresh_id prefix used attempts else Some id
  end.

(** ** The Hub's registry *)

Module HubRefs.
Import HubEphemeralRefError.

Record HubEphemeralRefLimits := mk_limits {
  max_refs : N;
  max_refs_per_owner : N;
  max_bytes_per_owner : N;
  ttl_ms : N
}.

Definition default_limits : HubEphemeralRefLimits :=
  mk_limits DEFAULT_MAX_HUB_EPHEMERAL_REFS DEFAULT_MAX_HUB_EPHEMERAL_REFS_PER_OWNER
    DEFAULT_MAX_HUB_EPHEMERAL_BYTES_PER_OWNER DEFAULT_EPHEMERAL_REF_TTL_MS.

Record HubEphemeralRefRecord := mk_record {
  public_ref : string;
  owner : OperationOwner;
  device_id : string;
  device_generation : N;
  capability_revision : N;
  operation_id : option string;
  kind : EphemeralDataKind;
  agent_locator : string;
  nbytes : N;
  expires_at_ms : N
}.

Record ResolvedHubEphemeralRef := mk_resolved {
  resolved_locator : string;
  resolved_bytes : N;
  resolved_expires_at_ms : N;
  resolved_operation_id : option string;
  resolved_kind : EphemeralDataKind
}.

Record HubEphemeralRefRegistry := mk {
  limits : HubEphemeralRefLimits;
  refs : gmap string HubEphemeralRefRecord
}.

Definition new_registry (l : HubEphemeralRefLimits)
    : result HubEphemeralRefError HubEphemeralRefRegistry :=
  if (l.(max_refs) =? 0)%N || (l.(max_refs_per_owner) =? 0)%N
     || (l.(max_refs) <? l.(max_refs_per_owner))%N || (l.(max_bytes_per_owner) =? 0)%N
     || (l.(ttl_ms) =? 0)%N
  then Err InvalidLimits else Ok (mk l ∅).

(** [self.refs.retain(...)] and the number of entries it removed *)
Definition retain (r : HubEphemeralRefRegistry) (keep : HubEphemeralRefRecord → bool)
    : HubEphemeralRefRegistry * N :=
  let refs := filter (λ kv, keep kv.2 = true) r.(refs) in
  (mk r.(limits) refs, mlen r.(HubRefs.refs) - mlen refs)%N.

Definition prune (r : HubEphemeralRefRegistry) (now_ms : N) :=
  retain r (λ record, now_ms <=? record.(expires_at_ms))%N.

Definition invalidate_device_generation (r : HubEphemeralRefRegistry) (device : string)
    (current_generation : N) :=
  retain r (λ record, negb (bool_decide (record.(device_id) = device))
                      || (record.(device_generation) =? current_generation)%N).

Definition invalidate_capability_revision (r : HubEphemeralRefRegistry) (device : string)
    (current_revision : N) :=
  retain r (λ record, negb (bool_decide (record.(device_id) = device))
                      || (record.(capability_revision) =? current_revision)%N).

Section Mint.
Context `{HashIter}.

Definition of_owner (r : HubEphemeralRefRegistry) (o : OperationOwner)
    : list HubEphemeralRefRecord :=
  filter (λ record, record.(owner) = o) (hash_iter r.(refs)).*2.

(** The counts [owner_refs] and [owner_bytes] of [mint]. *)
Definition owner_usage (records : list HubEphemeralRefRecord) : N * N :=
  foldl (λ '(n, b) record, (saturating_add n 1, saturating_add b record.(nbytes))) (0, 0)%N
    records.

Definition mint (r : HubEphemeralRefRegistry) (o : OperationOwner) (device : string)
    (generation revision : N) (operation : option string) (k : EphemeralDataKind)
    (locator : string) (size now_ms : N) (attempts : list (list N))
    : HubEphemeralRefRegistry * result HubEphemeralRefError string :=
  let '(r, _) := prune r now_ms in
  return_if negb (validate_ref_binding device generation revision operation)
    with (r, Err InvalidBinding) ;;
  return_if is_empty_string locator || (MAX_AGENT_LOCATOR_BYTES <? slen locator)%N
            || any_control (bytes locator)
    with (r, Err InvalidAgentLocator) ;;
  return_if (r.(limits).(max_refs) <=? mlen r.(refs))%N with (r, Err RefLimitExceeded) ;;
  let '(owner_refs, owner_bytes) := owner_usage (of_owner r o) in
  return_if (r.(limits).(max_refs_per_owner) <=? owner_refs)%N
    with (r, Err OwnerRefLimitExceeded) ;;
  return_if (r.(limits).(max_bytes_per_owner) <? saturating_add owner_bytes size)%N
    with (r, Err OwnerByteLimitExceeded) ;;
  let_some expires := checked_add now_ms r.(limits).(ttl_ms) else (r, Err InvalidBinding) ;;
  let_some ref := fresh_id "eref_" r.(refs) (take 8 attempts)
    else (r, Err IdentifierCollision) ;;
  (mk r.(limits)
     (<[ref := mk_record ref o device generation revision operation k locator size expires]>
        r.(refs)),
   Ok ref).
End Mint.

Definition resolve_owned (r : HubEphemeralRefRegistry) (ref : string) (o : OperationOwner)
    (device : string) (generation revision now_ms : N)
    : HubEphemeralRefRegistry * result HubEphemeralRefError ResolvedHubEphemeralRef :=
  let_some record := r.(refs) !! ref else (r, Err UnknownRef) ;;
  return_if (record.(expires_at_ms) <? now_ms)%N
    with (mk r.(limits) (delete ref r.(refs)), Err Expired) ;;
  return_if negb (bool_decide (record.(public_ref) = ref)) with (r, Err UnknownRef) ;;
  return_if negb (bool_decide (record.(owner) = o)) with (r, Err OwnerMismatch) ;;
  return_if negb (bool_decide (record.(device_id) = device)) with (r, Err DeviceMismatch) ;;
  return_if negb (record.(device_generation) =? generation)%N
    with (r, Err GenerationMismatch) ;;
  return_if negb (record.(capability_revision) =? revision)%N
    with (r, Err CapabilityRevisionMismatch) ;;
  (r, Ok (mk_resolved record.(agent_locator) record.(nbytes) record.(expires_at_ms)
            record.(operation_id) record.(kind))).

Definition resolve (r : HubEphemeralRefRegistry) (ref : string) (o : OperationOwner)
    (device : string) (generation revision : N) (operation : option string)
    (expected_kind : EphemeralDataKind) (now_ms : N)
    : HubEphemeralRefRegistry * result HubEphemeralRefError ResolvedHubEphemeralRef :=
  let '(r, resolved) := resolve_owned r ref o device generation revision now_ms in
  let_ok resolved := resolved else e => (r, Err e) ;;
  return_if negb (bool_decide (resolved.(resolved_kind) = expected_kind))
    with (r, Err KindMismatch) ;;
  return_if negb (bool_decide (resolved.(resolved_operation_id) = operation))
    with (r, Err OperationMismatch) ;;
  (r, Ok resolved).

Definition remove (r : HubEphemeralRefRegistry) (ref : string) (o : OperationOwner)
    : HubEphemeralRefRegistry * bool :=
  if is_some_and (λ record, bool_decide (record.(owner) = o)) (r.(refs) !! ref)
  then (mk r.(limits) (delete ref r.(refs)), true) else (r, false).

End HubRefs.

(** ** The Agent's store *)

Module AgentEphemeralDataError.
Inductive AgentEphemeralDataError :=
| InvalidLimits | InvalidBinding | InvalidPrivateRoot | ObjectTooLarge | ObjectLimitExceeded
| ByteLimitExceeded | IdentifierCollision | UnknownLocator | Expired | DeviceMismatch
| GenerationMismatch | CapabilityRevisionMismatch | KindMismatch | OperationMismatch
| ReadTooLarge | InvalidRange | InvalidObject | Io.
#[global] Instance AgentEphemeralDataError_eq_dec : EqDecision AgentEphemeralDataError.
Proof. solve_decision. Defined.
End AgentEphemeralDataError.
Abbreviation AgentEphemeralDataError := AgentEphemeralDataError.AgentEphemeralDataError.

Module AgentData.
Import AgentEphemeralDataError.

Record AgentEphemeralDataLimits := mk_limits {
  max_objects : N;
  max_total_bytes : N;
  max_object_bytes : N;
  max_read_bytes : N;
  ttl_ms : N
}.

Definition default_agent_limits : AgentEphemeralDataLimits :=
  mk_limits DEFAULT_MAX_AGENT_EPHEMERAL_OBJECTS DEFAULT_MAX_AGENT_EPHEMERAL_BYTES
    DEFAULT_MAX_AGENT_EPHEMERAL_OBJECT_BYTES DEFAULT_MAX_AGENT_EPHEMERAL_READ_BYTES
    DEFAULT_EPHEMERAL_REF_TTL_MS.

Record AgentEphemeralBinding := mk_binding {
  device_id : string;
  device_generation : N;
  capability_revision : N;
  operation_id : option string;
  kind : EphemeralDataKind
}.

Definition new_agent_binding (device : string) (generation revision : N) (operation : option string)
    (k : EphemeralDataKind) : result AgentEphemeralDataError AgentEphemeralBinding :=
  if validate_ref_binding device generation revision operation
  then Ok (mk_binding device generation revision operation k) else Err InvalidBinding.

Record AgentEphemeralRecord := mk_record {
  binding : AgentEphemeralBinding;
  nbytes : N;
  expires_at_ms : N
}.

Record StagedEphemeralData := mk_staged {
  locator : string;
  staged_bytes : N;
  staged_expires_at_ms : N
}.

Record EphemeralDataRange := mk_range {
  range_bytes : list N;
  offset : N;
  next_offset : N;
  total_bytes : N;
  eof : bool
}.

(** The file of a record is the one its locator names in the private root. *)
Record AgentEphemeralDataStore := mk {
  limits : AgentEphemeralDataLimits;
  records : gmap string AgentEphemeralRecord;
  stored_bytes : N;
  disk : gmap string (list N)
}.

(** What the file system does with the requests of one call: whether a file
    could be created, whether writing failed and what had been written by then,
    and which files cannot be removed. *)
Record FileIo := mk_io {
  create_fails : bool;
  write_fails : option (list N);
  open_fails : bool;
  remove_fails : string → bool
}.

Definition no_faults : FileIo := mk_io false None false (λ _, false).

Definition validate_agent_limits (l : AgentEphemeralDataLimits) : bool :=
  negb ((l.(max_objects) =? 0)%N || (l.(max_total_bytes) =? 0)%N
        || (l.(max_object_bytes) =? 0)%N || (l.(max_total_bytes) <? l.(max_object_bytes))%N
        || (l.(max_read_bytes) =? 0)%N || (l.(max_object_bytes) <? l.(max_read_bytes))%N
        || (l.(ttl_ms) =? 0)%N).

(** [new] on a private parent that can be prepared: the root starts empty. *)
Definition new_store (l : AgentEphemeralDataLimits)
    : result AgentEphemeralDataError AgentEphemeralDataStore :=
  if validate_agent_limits l then Ok (mk l ∅ 0 ∅) else Err InvalidLimits.

Definition validate_agent_record (record : AgentEphemeralRecord) (b : AgentEphemeralBinding)
    : result AgentEphemeralDataError unit :=
  let own := record.(binding) in
  return_if negb (bool_decide (own.(device_id) = b.(device_id))) with Err DeviceMismatch ;;
  return_if negb (own.(device_generation) =? b.(device_generation))%N
    with Err GenerationMismatch ;;
  return_if negb (own.(capability_revision) =? b.(capability_revision))%N
    with Err CapabilityRevisionMismatch ;;
  return_if negb (bool_decide (own.(kind) = b.(kind))) with Err KindMismatch ;;
  return_if negb (bool_decide (own.(operation_id) = b.(operation_id)))
    with Err OperationMismatch ;;
  Ok tt.

(** A regular file of the expected size in the private root. *)
Definition prove_private_regular_file (s : AgentEphemeralDataStore) (loc : string)
    (expected_bytes : N) : bool :=
  is_some_and (λ contents, vlen contents =? expected_bytes)%N (s.(disk) !! loc).

Definition remove_locator (s : AgentEphemeralDataStore) (io : FileIo) (loc : string)
    : AgentEphemeralDataStore * result AgentEphemeralDataError unit :=
  let_some record := s.(records) !! loc else (s, Ok tt) ;;
  return_if bool_decide (is_Some (s.(disk) !! loc)) && io.(remove_fails) loc
    with (s, Err Io) ;;
  (mk s.(limits) (delete loc s.(records)) (s.(stored_bytes) - record.(nbytes))
     (delete loc s.(disk)), Ok tt).

Fixpoint remove_all (s : AgentEphemeralDataStore) (io : FileIo) (locs : list string)
    : AgentEphemeralDataStore * result AgentEphemeralDataError unit :=
  match locs with
  | [] => (s, Ok tt)
  | loc :: locs =>
      let '(s, r) := remove_locator s io loc in
      let_ok _ := r else e => (s, Err e) ;;
      remove_all s io locs
  end.

Section Store.
Context `{HashIter}.

Definition expired (s : AgentEphemeralDataStore) (now_ms : N) : list string :=
  (List.filter (λ kv, kv.2.(expires_at_ms) <? now_ms)%N (hash_iter s.(records))).*1.

Definition prune_data (s : AgentEphemeralDataStore) (io : FileIo) (now_ms : N)
    : AgentEphemeralDataStore * result AgentEphemeralDataError N :=
  let gone := expired s now_ms in
  let '(s, r) := remove_all s io gone in
  let_ok _ := r else e => (s, Err e) ;;
  (s, Ok (vlen gone)).

Definition stage (s : AgentEphemeralDataStore) (io : FileIo) (b : AgentEphemeralBinding)
    (data : list N) (now_ms : N) (attempts : list (list N))
    : AgentEphemeralDataStore * result AgentEphemeralDataError StagedEphemeralData :=
  let '(s, pruned) := prune_data s io now_ms in
  let_ok _ := pruned else e => (s, Err e) ;;
  return_if negb (validate_ref_binding b.(device_id) b.(device_generation)
                    b.(capability_revision) b.(operation_id))
    with (s, Err InvalidBinding) ;;
  let size := vlen data in
  return_if (s.(limits).(max_object_bytes) <? size)%N with (s, Err ObjectTooLarge) ;;
  return_if (s.(limits).(max_objects) <=? mlen s.(records))%N
    with (s, Err ObjectLimitExceeded) ;;
  return_if (s.(limits).(max_total_bytes) <? saturating_add s.(stored_bytes) size)%N
    with (s, Err ByteLimitExceeded) ;;
  let_some expires := checked_add now_ms s.(limits).(ttl_ms) else (s, Err InvalidBinding) ;;
  let_some loc := fresh_id "edata_" s.(records) (take 8 attempts)
    else (s, Err IdentifierCollision) ;;
  return_if io.(create_fails) || bool_decide (is_Some (s.(disk) !! loc)) with (s, Err Io) ;;
  match io.(write_fails) with
  | Some written =>
      let disk := if io.(remove_fails) loc then <[loc := written]> s.(disk) else s.(disk) in
      (mk s.(limits) s.(records) s.(stored_bytes) disk, Err Io)
  | None =>
      (mk s.(limits) (<[loc := mk_record b size expires]> s.(records))
         (saturating_add s.(stored_bytes) size) (<[loc := data]> s.(disk)),
       Ok (mk_staged loc size expires))
  end.
End Store.

Definition read_range (s : AgentEphemeralDataStore) (io : FileIo) (loc : string)
    (b : AgentEphemeralBinding) (off max_bytes now_ms : N)
    : AgentEphemeralDataStore * result AgentEphemeralDataError EphemeralDataRange :=
  return_if (max_bytes =? 0)%N || (s.(limits).(max_read_bytes) <? max_bytes)%N
    with (s, Err ReadTooLarge) ;;
  let_some record := s.(records) !! loc else (s, Err UnknownLocator) ;;
  return_if (record.(expires_at_ms) <? now_ms)%N
    with (let '(s, r) := remove_locator s io loc in
          let_ok _ := r else e => (s, Err e) ;; (s, Err Expired)) ;;
  let_ok _ := validate_agent_record record b else e => (s, Err e) ;;
  return_if (record.(nbytes) <? off)%N with (s, Err InvalidRange) ;;
  return_if negb (prove_private_regular_file s loc record.(nbytes))
    with (s, Err InvalidObject) ;;
  let_some contents := s.(disk) !! loc else (s, Err Io) ;;
  return_if io.(open_fails) with (s, Err Io) ;;
  let limit := N.min (record.(nbytes) - off) max_bytes in
  let read := take (N.to_nat limit) (drop (N.to_nat off) contents) in
  let_some next := checked_add off (vlen read) else (s, Err InvalidRange) ;;
  (s, Ok (mk_range read off next record.(nbytes) (record.(nbytes) <=? next)%N)).

Definition remove_data (s : AgentEphemeralDataStore) (io : FileIo) (loc : string)
    (b : AgentEphemeralBinding)
    : AgentEphemeralDataStore * result AgentEphemeralDataError bool :=
  let_some record := s.(records) !! loc else (s, Ok false) ;;
  let_ok _ := validate_agent_record record b else e => (s, Err e) ;;
  let '(s, r) := remove_locator s io loc in
  let_ok _ := r else e => (s, Err e) ;;
  (s, Ok true).

End AgentData.
