(* ===== verification/EphemeralRefsTheorems.v ===== *)
(** * Properties of ephemeral references

    The Hub's registry stays within its limits and resolves a reference only for
    the owner, device and session it was minted for, during its life; a range
    that the Agent's store returns is that range of the data that was staged. *)

From S2P Require Import Prelude Vocabulary Protocol Crypto SafetyTypes EphemeralRefs.

#[export] Instance vlen_perm {A} : Proper ((≡ₚ) ==> eq) (@vlen A).
Proof. intros l k Hlk. unfold vlen. by rewrite Hlk. Qed.

Lemma fresh_id_None {A} prefix (used : gmap string A) attempts id :
  fresh_id prefix used attempts = Some id → used !! id = None.
Proof.
  induction attempts as [|random attempts IH]; cbn; [done|].
  case_bool_decide as Hd; [done|]. intros [= <-].
  destruct (used !! _) eqn:E; [|done]. destruct Hd. by eexists.
Qed.

(** ** The Hub's registry *)

Module HubRefsTheorems.
Import HubRefs.

(** Every state of a registry, with the record of the latest mint of each
    reference. *)
Inductive history `{HashIter} :
    HubEphemeralRefRegistry → gmap string HubEphemeralRefRecord → Prop :=
| history_new l r : (l.(max_refs) ≤ u64_max)%N → new_registry l = Ok r → history r ∅
| history_minted r m o d g v op k loc size now attempts r' ref :
    history r m → mint r o d g v op k loc size now attempts = (r', Ok ref) →
    history r' (<[ref := mk_record ref o d g v op k loc size (now + r.(limits).(ttl_ms))]> m)
| history_refused r m o d g v op k loc size now attempts r' e :
    history r m → mint r o d g v op k loc size now attempts = (r', Err e) → history r' m
| history_resolve_owned r m ref o d g v now :
    history r m → history (resolve_owned r ref o d g v now).1 m
| history_resolve r m ref o d g v op k now :
    history r m → history (resolve r ref o d g v op k now).1 m
| history_remove r m ref o : history r m → history (remove r ref o).1 m
| history_prune r m now : history r m → history (prune r now).1 m
| history_generation r m d g : history r m → history (invalidate_device_generation r d g).1 m
| history_revision r m d v : history r m → history (invalidate_capability_revision r d v).1 m.

Definition total_bytes (l : list HubEphemeralRefRecord) : N :=
  foldr (λ record n, record.(nbytes) + n)%N 0%N l.

Definition owned (m : gmap string HubEphemeralRefRecord) (o : OperationOwner)
    : list HubEphemeralRefRecord :=
  filter (λ record, record.(owner) = o) (map_to_list m).*2.

Definition within_limits (r : HubEphemeralRefRegistry) : Prop :=
  (mlen r.(refs) ≤ r.(limits).(max_refs))%N ∧
  ∀ o, (vlen (owned r.(refs) o) ≤ r.(limits).(max_refs_per_owner))%N ∧
       (N.min (total_bytes (owned r.(refs) o)) u64_max ≤ r.(limits).(max_bytes_per_owner))%N.

#[export] Instance total_bytes_perm : Proper ((≡ₚ) ==> eq) total_bytes.
Proof. unfold total_bytes. induction 1; cbn [foldr]; [lia..|congruence]. Qed.

Lemma total_bytes_app l k : total_bytes (l ++ k) = (total_bytes l + total_bytes k)%N.
Proof. unfold total_bytes. induction l; cbn [foldr app]; lia. Qed.

Lemma owner_usage_spec l :
  owner_usage l = (N.min (vlen l) u64_max, N.min (total_bytes l) u64_max).
Proof.
  induction l as [|record l IH] using rev_ind; [done|].
  unfold owner_usage in *. rewrite foldl_app, IH, total_bytes_app, vlen_app.
  cbn [foldl]. unfold saturating_add, total_bytes, vlen. cbn [foldr length]. f_equal; lia.
Qed.

Lemma of_owner_perm `{HashIter} r o : of_owner r o ≡ₚ owned r.(refs) o.
Proof. unfold of_owner, owned. by rewrite hash_iter_perm. Qed.

Lemma owned_insert m ref record o :
  m !! ref = None →
  owned (<[ref := record]> m) o
    ≡ₚ (if bool_decide (record.(owner) = o) then [record] else []) ++ owned m o.
Proof.
  intros Hm. unfold owned. rewrite (map_to_list_insert _ _ _ Hm), fmap_cons, filter_cons.
  by case_bool_decide; case_decide.
Qed.

Lemma owned_subseteq m m' o :
  m' ⊆ m → ∃ k, owned m o ≡ₚ owned m' o ++ k.
Proof.
  intros Hm. apply map_to_list_submseteq, submseteq_Permutation in Hm as [k Hk].
  exists (filter (λ record, record.(owner) = o) k.*2).
  unfold owned. by rewrite Hk, fmap_app, filter_app.
Qed.

Lemma within_limits_subseteq r m :
  m ⊆ r.(refs) → within_limits r → within_limits (mk r.(limits) m).
Proof.
  intros Hm [Hr Ho]. split; cbn.
  - pose proof (map_subseteq_size _ _ Hm) as Hs. unfold mlen in *. lia.
  - intros o. destruct (Ho o) as [Hn Hb]. destruct (owned_subseteq _ _ o Hm) as [k Hk].
    rewrite Hk, vlen_app in Hn. rewrite Hk, total_bytes_app in Hb. split; lia.
Qed.

Lemma retain_refs_subseteq r keep : (retain r keep).1.(refs) ⊆ r.(refs).
Proof. apply map_filter_subseteq. Qed.

Lemma retain_limits r keep : (retain r keep).1 = mk r.(limits) (retain r keep).1.(refs).
Proof. done. Qed.

Lemma resolve_owned_cases r ref o d g v now :
  (resolve_owned r ref o d g v now).1 = r
  ∨ (resolve_owned r ref o d g v now).1 = mk r.(limits) (delete ref r.(refs)).
Proof. unfold resolve_owned. destruct (r.(refs) !! ref); repeat case_match; auto. Qed.

Lemma resolve_fst r ref o d g v op k now :
  (resolve r ref o d g v op k now).1 = (resolve_owned r ref o d g v now).1.
Proof. unfold resolve. destruct (resolve_owned _ _ _ _ _ _ _) as [r' [?|?]]; repeat case_match; auto. Qed.

Lemma remove_cases r ref o :
  (remove r ref o).1 = r ∨ (remove r ref o).1 = mk r.(limits) (delete ref r.(refs)).
Proof. unfold remove. case_match; auto. Qed.

(** What a successful mint has checked, and what it does. *)
Lemma mint_Ok `{HashIter} r o d g v op k loc size now attempts r' ref :
  mint r o d g v op k loc size now attempts = (r', Ok ref) →
  let p := (prune r now).1 in
  p.(refs) !! ref = None
  ∧ r' = mk r.(limits) (<[ref := mk_record ref o d g v op k loc size
                                   (now + r.(limits).(ttl_ms))]> p.(refs))
  ∧ (mlen p.(refs) < r.(limits).(max_refs))%N
  ∧ (N.min (vlen (owned p.(refs) o)) u64_max < r.(limits).(max_refs_per_owner))%N
  ∧ (N.min (total_bytes (owned p.(refs) o) + size) u64_max
       ≤ r.(limits).(max_bytes_per_owner))%N
  ∧ validate_ref_binding d g v op = true.
Proof.
  unfold mint. destruct (prune r now) as [p n] eqn:Hp.
  assert (p = mk r.(limits) p.(refs)) as Hl by (injection Hp as <- <-; done).
  rewrite owner_usage_spec, !(of_owner_perm p o). cbn [fst].
  intros Hm. run Hm. split_bools.
  assert (p.(limits) = r.(limits)) as Hlim by (by rewrite Hl).
  rewrite Hlim in *. apply checked_add_Some in E4 as [-> _]. unfold saturating_add in E3.
  repeat split; eauto using fresh_id_None; lia.
Qed.

Lemma mint_Err `{HashIter} r o d g v op k loc size now attempts r' e :
  mint r o d g v op k loc size now attempts = (r', Err e) → r' = (prune r now).1.
Proof.
  unfold mint. destruct (prune r now) as [p n]. intros Hm. by run Hm.
Qed.

Definition registry_ok (r : HubEphemeralRefRegistry) (m : gmap string HubEphemeralRefRecord)
    : Prop :=
  within_limits r
  ∧ (r.(limits).(max_refs_per_owner) ≤ u64_max)%N
  ∧ r.(refs) ⊆ m
  ∧ ∀ ref record, m !! ref = Some record → record.(public_ref) = ref.

Lemma registry_ok_subseteq r m refs :
  refs ⊆ r.(HubRefs.refs) → registry_ok r m → registry_ok (mk r.(limits) refs) m.
Proof.
  intros Hs (Hw & Hl & Hm & Hk). repeat split; cbn; eauto.
  - by apply (within_limits_subseteq r refs Hs Hw).
  - by apply (within_limits_subseteq r refs Hs Hw).
  - by apply (within_limits_subseteq r refs Hs Hw).
  - by transitivity r.(HubRefs.refs).
Qed.

Lemma registry_ok_retain r m keep : registry_ok r m → registry_ok (retain r keep).1 m.
Proof. rewrite retain_limits. apply registry_ok_subseteq, retain_refs_subseteq. Qed.

Lemma registry_ok_delete r m ref r' :
  r' = r ∨ r' = mk r.(limits) (delete ref r.(refs)) → registry_ok r m → registry_ok r' m.
Proof.
  intros [-> | ->] Hr; [done|]. by apply registry_ok_subseteq; [apply delete_subseteq|].
Qed.

Lemma registry_ok_minted `{HashIter} r m o d g v op k loc size now attempts r' ref :
  registry_ok r m → mint r o d g v op k loc size now attempts = (r', Ok ref) →
  registry_ok r'
    (<[ref := mk_record ref o d g v op k loc size (now + r.(limits).(ttl_ms))]> m).
Proof.
  intros Hr Hm. apply mint_Ok in Hm as (Hnew & -> & Hn & Ho & Hb & _).
  apply (registry_ok_retain _ _ (λ record, now <=? record.(expires_at_ms))%N) in Hr.
  fold (prune r now) in Hr. destruct Hr as ([Hs Hw] & Hl & Hsub & Hk).
  set (p := (prune r now).1) in *. change (limits p) with (limits r) in *.
  split; [split; cbn [limits refs]|split; [done|split; cbn [refs]]].
  - unfold mlen in *. rewrite map_size_insert_None by done. lia.
  - intros o'. destruct (Hw o') as [Hc Ht].
    rewrite (owned_insert _ _ _ o' Hnew), vlen_app, total_bytes_app. cbn [owner].
    unfold vlen, total_bytes in *.
    case_bool_decide as Heq; [subst o'|]; cbn [length foldr nbytes] in *; split; lia.
  - by apply insert_mono.
  - intros ref' record. rewrite lookup_insert_Some. intros [[<- <-]|[_ Hin]]; eauto.
Qed.

Lemma history_ok `{HashIter} r m : history r m → registry_ok r m.
Proof.
  induction 1; eauto using registry_ok_retain, registry_ok_minted.
  - unfold new_registry in *. destruct (_ || _) eqn:E in *; simplify_eq. split_bools.
    unfold registry_ok, within_limits, mlen, owned. cbn [limits refs].
    rewrite map_size_empty, map_to_list_empty, fmap_nil.
    repeat split; try lia; intros; [..|by simplify_map_eq]; rewrite filter_nil;
      unfold vlen, total_bytes; cbn [length foldr]; lia.
  - match goal with Hm : mint _ _ _ _ _ _ _ _ _ _ _ = _ |- _ => apply mint_Err in Hm as -> end.
    by apply registry_ok_retain.
  - eapply registry_ok_delete; [apply resolve_owned_cases|done].
  - rewrite resolve_fst. eapply registry_ok_delete; [apply resolve_owned_cases|done].
  - eapply registry_ok_delete; [apply remove_cases|done].
Qed.

(** What resolution checks. *)
Lemma resolve_owned_Ok r ref o d g v now r' res :
  resolve_owned r ref o d g v now = (r', Ok res) ↔
  r' = r ∧ ∃ op k loc size t,
    r.(refs) !! ref = Some (mk_record ref o d g v op k loc size t)
    ∧ (now ≤ t)%N ∧ res = mk_resolved loc size t op k.
Proof.
  unfold resolve_owned. split.
  - intros Hr. run Hr. split_bools. split; [done|].
    match goal with H : refs _ !! _ = Some ?rec |- _ => destruct rec; cbn in * end.
    subst. eauto 10.
  - intros (-> & op & k & loc & size & t & -> & Hnow & ->). cbn.
    rewrite (proj2 (N.ltb_ge t now) Hnow), !bool_decide_true, !N.eqb_refl by done. done.
Qed.

(** C36: The registry stays within its limits; a reference resolves only for the
    owner, the device and the session it was minted for, while it lives, and then
    to what was minted; and what was just minted does resolve while it lives. *)
Theorem hub_references_are_bound `{HashIter} r m :
  history r m →
  within_limits r
  ∧ (∀ ref o d g v now r' res,
       resolve_owned r ref o d g v now = (r', Ok res) →
       r' = r ∧ ∃ op k loc size t,
         m !! ref = Some (mk_record ref o d g v op k loc size t)
         ∧ (now ≤ t)%N ∧ res = mk_resolved loc size t op k)
  ∧ (∀ o d g v op k loc size now attempts r' ref,
       mint r o d g v op k loc size now attempts = (r', Ok ref) →
       (prune r now).1.(refs) !! ref = None
       ∧ ∀ now', (now' ≤ now + r.(limits).(ttl_ms))%N →
         resolve_owned r' ref o d g v now'
         = (r', Ok (mk_resolved loc size (now + r.(limits).(ttl_ms)) op k))).
Proof.
  intros Hh. apply history_ok in Hh as (Hw & _ & Hsub & _). split; [done|]. split.
  - intros ref o d g v now r' res Hr.
    apply resolve_owned_Ok in Hr as (-> & op & k & loc & size & t & Hin & Hrest).
    split; [done|]. exists op, k, loc, size, t. split; [|done].
    by eapply lookup_weaken.
  - intros * Hm. apply mint_Ok in Hm as (Hnew & -> & _).
    split; [done|]. intros now' Hnow. apply resolve_owned_Ok. split; [done|].
    exists op, k, loc, size, (now + r.(limits).(ttl_ms))%N. cbn.
    by rewrite lookup_insert_eq.
Qed.

End HubRefsTheorems.

(** ** The Agent's store *)

Module AgentDataTheorems.
Import AgentData.

(** What was staged under a locator: the binding, the data and the expiry. *)
Abbreviation staged_map := (gmap string (AgentEphemeralBinding * list N * N)).

(** Every state of a store under any file-system faults, with what was staged
    last under each locator. *)
Inductive history `{HashIter} : AgentEphemeralDataStore → staged_map → Prop :=
| history_new l s : (l.(max_total_bytes) < u64_max)%N → new_store l = Ok s → history s ∅
| history_staged s m io b data now attempts s' st :
    history s m → stage s io b data now attempts = (s', Ok st) →
    history s' (<[st.(locator) := (b, data, st.(staged_expires_at_ms))]> m)
| history_refused s m io b data now attempts s' e :
    history s m → stage s io b data now attempts = (s', Err e) → history s' m
| history_read s m io loc b off n now :
    history s m → history (read_range s io loc b off n now).1 m
| history_remove s m io loc b : history s m → history (remove_data s io loc b).1 m
| history_prune s m io now : history s m → history (prune_data s io now).1 m.

Definition sum_bytes (records : gmap string AgentEphemeralRecord) : N :=
  foldr (λ record n, record.(nbytes) + n)%N 0%N (map_to_list records).*2.

Record store_ok (s : AgentEphemeralDataStore) (m : staged_map) : Prop := {
  ok_files loc record : s.(records) !! loc = Some record →
    ∃ data, m !! loc = Some (record.(binding), data, record.(expires_at_ms))
            ∧ s.(disk) !! loc = Some data ∧ record.(nbytes) = vlen data;
  ok_sum : s.(stored_bytes) = sum_bytes s.(records);
  ok_total : (s.(stored_bytes) ≤ s.(limits).(max_total_bytes))%N;
  ok_count : (mlen s.(records) ≤ s.(limits).(max_objects))%N;
  ok_limits : (s.(limits).(max_total_bytes) < u64_max)%N
              ∧ validate_agent_limits s.(limits) = true
}.

Lemma foldr_bytes_perm l k :
  l ≡ₚ k → foldr (λ record n, record.(nbytes) + n)%N 0%N l
         = foldr (λ record n, record.(nbytes) + n)%N 0%N k.
Proof. induction 1; cbn [foldr]; [lia..|congruence]. Qed.

Lemma sum_bytes_insert records loc record :
  records !! loc = None →
  sum_bytes (<[loc := record]> records) = (record.(nbytes) + sum_bytes records)%N.
Proof.
  intros Hn. unfold sum_bytes.
  by rewrite (foldr_bytes_perm _ _ (fmap_Permutation _ _ _ (map_to_list_insert _ _ record Hn))).
Qed.

Lemma sum_bytes_delete records loc record :
  records !! loc = Some record →
  sum_bytes records = (record.(nbytes) + sum_bytes (delete loc records))%N.
Proof.
  intros Hl. rewrite <- (sum_bytes_insert _ loc record) by apply lookup_delete_eq.
  by rewrite insert_delete_id.
Qed.

Lemma remove_locator_ok s m io loc :
  store_ok s m → store_ok (remove_locator s io loc).1 m.
Proof.
  intros Hs. unfold remove_locator. destruct (s.(records) !! loc) as [record|] eqn:E; [|done].
  destruct (_ && _); [done|]. destruct Hs as [Hf Hsum Ht Hc Hl]. split; cbn.
  - intros loc' record'. rewrite lookup_delete_Some. intros [Hne Hin].
    destruct (Hf _ _ Hin) as (data & ? & ? & ?). exists data. by rewrite lookup_delete_ne.
  - rewrite Hsum, (sum_bytes_delete _ _ _ E). lia.
  - lia.
  - unfold mlen in *. rewrite map_size_delete_Some by eauto. lia.
  - done.
Qed.

Lemma remove_all_ok io locs : ∀ s m, store_ok s m → store_ok (remove_all s io locs).1 m.
Proof.
  induction locs as [|loc locs IH]; cbn; [done|]. intros s m Hs.
  apply (remove_locator_ok _ _ io loc) in Hs.
  destruct (remove_locator s io loc) as [s' [?|?]]; [|done]. by apply IH.
Qed.

Lemma prune_ok `{HashIter} s m io now : store_ok s m → store_ok (prune_data s io now).1 m.
Proof.
  intros Hs. unfold prune_data. apply (remove_all_ok io (expired s now)) in Hs.
  by destruct (remove_all s io (expired s now)) as [s' [?|?]].
Qed.

Lemma remove_fst s io loc b :
  (remove_data s io loc b).1 = s ∨ (remove_data s io loc b).1 = (remove_locator s io loc).1.
Proof.
  unfold remove_data. destruct (s.(records) !! loc); [|by left].
  destruct (validate_agent_record _ _); [|by left].
  destruct (remove_locator s io loc) as [s' [?|?]]; by right.
Qed.

Lemma read_range_fst s io loc b off n now :
  (read_range s io loc b off n now).1 = s
  ∨ (read_range s io loc b off n now).1 = (remove_locator s io loc).1.
Proof.
  unfold read_range. destruct (_ || _); [by left|].
  destruct (s.(records) !! loc); [|by left]. destruct (_ <? _)%N.
  - destruct (remove_locator s io loc) as [s' [?|?]]; by right.
  - left. repeat case_match; done.
Qed.

(** What a successful stage has checked, and what it does. *)
Lemma stage_Ok `{HashIter} s io b data now attempts s' st :
  stage s io b data now attempts = (s', Ok st) →
  ∃ p, p = (prune_data s io now).1
  ∧ p.(records) !! st.(locator) = None
  ∧ s' = mk p.(limits)
           (<[st.(locator) := mk_record b (vlen data) st.(staged_expires_at_ms)]> p.(records))
           (saturating_add p.(stored_bytes) (vlen data))
           (<[st.(locator) := data]> p.(disk))
  ∧ (mlen p.(records) < p.(limits).(max_objects))%N
  ∧ (saturating_add p.(stored_bytes) (vlen data) ≤ p.(limits).(max_total_bytes))%N
  ∧ (vlen data ≤ p.(limits).(max_object_bytes))%N.
Proof.
  unfold stage. destruct (prune_data s io now) as [p [?|?]] eqn:Hp; [|done].
  intros Hm. run Hm. split_bools. exists p. cbn. repeat split; eauto using fresh_id_None.
Qed.

Lemma stage_Err `{HashIter} s m io b data now attempts s' e :
  store_ok s m → stage s io b data now attempts = (s', Err e) → store_ok s' m.
Proof.
  intros Hs. apply (prune_ok _ _ io now) in Hs. unfold stage.
  destruct (prune_data s io now) as [p [?|?]] eqn:Hp; [|by intros [= <- <-]].
  intros Hm. run Hm; try done;
    destruct Hs as [Hf Hsum Ht Hc Hl]; split; cbn in *; try done.
  intros loc record Hin. destruct (Hf _ _ Hin) as (data' & ? & Hd & ?). exists data'.
  split; [done|]. split; [|done]. rewrite lookup_insert_ne; [done|]. intros <-.
  match goal with H : fresh_id _ _ _ = Some _ |- _ => apply fresh_id_None in H; congruence end.
Qed.

Lemma limits_of_prune `{HashIter} s io now : (prune_data s io now).1.(limits) = s.(limits).
Proof.
  unfold prune_data. generalize (expired s now). intros locs.
  assert ((remove_all s io locs).1.(limits) = s.(limits)) as Hl.
  { revert s. induction locs as [|loc locs IH]; cbn; [done|]. intros s.
    assert ((remove_locator s io loc).1.(limits) = s.(limits)) as <-.
    { unfold remove_locator. by repeat case_match. }
    destruct (remove_locator s io loc) as [s' [?|?]]; cbn; [apply IH|done]. }
  by destruct (remove_all s io locs) as [s' [?|?]].
Qed.

Lemma agent_history_ok `{HashIter} s m : history s m → store_ok s m.
Proof.
  induction 1; eauto using prune_ok, stage_Err.
  - unfold new_store in *. destruct (validate_agent_limits l) eqn:E; simplify_eq.
    split; cbn; try done; unfold sum_bytes, mlen; rewrite ?map_to_list_empty, ?map_size_empty;
      cbn; try lia; done.
  - match goal with Hm : stage _ _ _ _ _ _ = _ |- _ =>
      apply stage_Ok in Hm as (p & Hp & Hnew & -> & Hn & Hb & _) end.
    apply (prune_ok _ _ io now) in IHhistory. rewrite <- Hp in IHhistory.
    destruct IHhistory as [Hf Hsum Ht Hc [Hu Hl]]. split; cbn.
    + intros loc record. rewrite !lookup_insert_Some. intros [[<- <-]|[Hne Hin]].
      * exists data. by rewrite !lookup_insert_eq.
      * destruct (Hf _ _ Hin) as (data' & ? & ? & ?). exists data'.
        by rewrite !lookup_insert_ne.
    + rewrite sum_bytes_insert by done. cbn. rewrite <- Hsum. unfold saturating_add in *. lia.
    + done.
    + unfold mlen in *. rewrite map_size_insert_None by done. lia.
    + done.
  - destruct (read_range_fst s io loc b off n now) as [-> | ->]; [done|].
    by apply remove_locator_ok.
  - destruct (remove_fst s io loc b) as [-> | ->]; [done|]. by apply remove_locator_ok.
Qed.

Lemma validate_agent_record_Ok record b :
  validate_agent_record record b = Ok tt ↔ record.(binding) = b.
Proof.
  unfold validate_agent_record. destruct record as [own ? ?], own as [d g v op k], b. cbn.
  split.
  - intros Hv. run Hv. split_bools. by subst.
  - intros [= <- <- <- <- <-]. by rewrite !bool_decide_true, !N.eqb_refl by done.
Qed.

(** A range that is read: the bytes of the data from the offset on, at most as
    many as were asked for. *)
Definition range_of (data : list N) (off n : N) : EphemeralDataRange :=
  let read := take (N.to_nat n) (drop (N.to_nat off) data) in
  mk_range read off (off + vlen read) (vlen data) (vlen data <=? off + vlen read)%N.

Lemma take_min_drop {A} (data : list A) (off n : N) :
  take (N.to_nat (N.min (vlen data - off) n)) (drop (N.to_nat off) data)
  = take (N.to_nat n) (drop (N.to_nat off) data).
Proof.
  destruct (decide (n ≤ vlen data - off)%N) as [Hle|Hgt].
  - by rewrite N.min_r.
  - rewrite N.min_l by lia. unfold vlen in *. rewrite !take_ge; try done; rewrite length_drop; lia.
Qed.

Lemma read_range_Ok s m io loc b off n now s' rg :
  store_ok s m → read_range s io loc b off n now = (s', Ok rg) →
  s' = s ∧ ∃ data t, m !! loc = Some (b, data, t) ∧ (now ≤ t)%N ∧ (off ≤ vlen data)%N
                     ∧ rg = range_of data off n.
Proof.
  intros Hs Hr. unfold read_range in Hr. run Hr; split_bools.
  destruct (ok_files _ _ Hs _ _ E0) as (data & Hm & Hd & Hn).
  apply validate_agent_record_Ok in E2 as <-. apply checked_add_Some in E7 as [-> _].
  simplify_eq. split; [done|]. eexists _, _. split; [exact Hm|].
  rewrite Hn in *. unfold range_of. rewrite take_min_drop. repeat split; done.
Qed.

(** Reading range after range until [eof]. *)
Fixpoint read_all (fuel : nat) (s : AgentEphemeralDataStore) (loc : string)
    (b : AgentEphemeralBinding) (off n now : N) : option (list N) :=
  match fuel with
  | O => None
  | S fuel =>
      match (read_range s no_faults loc b off n now).2 with
      | Ok rg =>
          if rg.(eof) then Some rg.(range_bytes)
          else (λ rest, rg.(range_bytes) ++ rest)
                 <$> read_all fuel s loc b rg.(next_offset) n now
      | Err _ => None
      end
  end.

Lemma sum_bytes_elem records loc record :
  records !! loc = Some record → (record.(nbytes) ≤ sum_bytes records)%N.
Proof. intros Hl. rewrite (sum_bytes_delete _ _ _ Hl). lia. Qed.

Lemma read_range_present s m loc record off n now :
  store_ok s m → s.(records) !! loc = Some record →
  (0 < n ≤ s.(limits).(max_read_bytes))%N → (now ≤ record.(expires_at_ms))%N →
  ∃ data, s.(disk) !! loc = Some data ∧ m !! loc = Some (record.(binding), data, record.(expires_at_ms))
  ∧ ((off ≤ vlen data)%N →
     read_range s no_faults loc record.(binding) off n now = (s, Ok (range_of data off n))).
Proof.
  intros Hs Hin [Hn Hmax] Hnow. destruct (ok_files _ _ Hs _ _ Hin) as (data & Hm & Hd & Hlen).
  exists data. split; [done|]. split; [done|]. intros Hoff. unfold read_range.
  rewrite (proj2 (N.eqb_neq n 0)), (proj2 (N.ltb_ge _ _) Hmax) by lia. cbn [orb]. rewrite Hin.
  rewrite (proj2 (N.ltb_ge _ _) Hnow), (proj2 (validate_agent_record_Ok record _) eq_refl).
  rewrite Hlen, (proj2 (N.ltb_ge _ _) Hoff).
  unfold prove_private_regular_file. rewrite Hd. cbn [is_some_and]. rewrite N.eqb_refl.
  cbn [negb no_faults open_fails]. rewrite take_min_drop.
  assert (vlen data ≤ u64_max)%N as Hfit.
  { rewrite <- Hlen. pose proof (sum_bytes_elem _ _ _ Hin).
    rewrite <- (ok_sum _ _ Hs) in *. pose proof (ok_total _ _ Hs).
    destruct (ok_limits _ _ Hs). lia. }
  set (read := take _ _).
  assert (checked_add off (vlen read) = Some (off + vlen read)%N) as ->; [|done].
  apply checked_add_Some. split; [done|]. unfold vlen, read in *.
  rewrite length_take, length_drop. lia.
Qed.

Lemma read_all_from s m loc record data n now :
  store_ok s m → s.(records) !! loc = Some record → s.(disk) !! loc = Some data →
  (0 < n ≤ s.(limits).(max_read_bytes))%N → (now ≤ record.(expires_at_ms))%N →
  ∀ fuel off, (off ≤ vlen data)%N → (length data - N.to_nat off < fuel)%nat →
  read_all fuel s loc record.(binding) off n now = Some (drop (N.to_nat off) data).
Proof.
  intros Hs Hin Hd Hn Hnow. induction fuel as [|fuel IH]; intros off Hoff Hfuel; [lia|].
  destruct (read_range_present s m loc record off n now Hs Hin Hn Hnow) as (? & ? & _ & Hr).
  simplify_eq. cbn. rewrite (Hr Hoff). cbn [snd]. unfold range_of. cbn [eof range_bytes].
  set (read := take _ _). destruct (vlen data <=? off + vlen read)%N eqn:E.
  - apply N.leb_le in E. f_equal. apply take_ge.
    unfold vlen, read in *. rewrite length_take, length_drop in E. rewrite length_drop. lia.
  - apply N.leb_gt in E. cbn [next_offset]. unfold vlen, read in *.
    rewrite length_take, length_drop in *.
    rewrite IH; [|unfold vlen; lia|lia]. cbn. f_equal.
    replace (N.to_nat (off + N.of_nat _)) with (N.to_nat off + N.to_nat n)%nat by lia.
    by rewrite <- drop_drop, take_drop.
Qed.

(** Under any faults of the file system the store stays within its limits; a
    range that is read is that range of the data staged under the locator, with
    exactly the binding it was staged with, while it lives; and reading range
    after range returns all of the data as long as its record is kept. *)
Theorem staged_data_is_read_back `{HashIter} s m :
  history s m →
  (s.(stored_bytes) = sum_bytes s.(records) ∧ s.(stored_bytes) ≤ s.(limits).(max_total_bytes)
   ∧ mlen s.(records) ≤ s.(limits).(max_objects))%N
  ∧ (∀ io loc b off n now s' rg,
       read_range s io loc b off n now = (s', Ok rg) →
       s' = s ∧ ∃ data t, m !! loc = Some (b, data, t) ∧ (now ≤ t)%N
                          ∧ (off ≤ vlen data)%N ∧ rg = range_of data off n)
  ∧ (∀ loc b data t n now,
       m !! loc = Some (b, data, t) → is_Some (s.(records) !! loc) →
       (0 < n ≤ s.(limits).(max_read_bytes))%N → (now ≤ t)%N →
       read_all (S (length data)) s loc b 0 n now = Some data).
Proof.
  intros Hs%agent_history_ok. split; [by destruct Hs|]. split.
  - intros * Hr. by eapply read_range_Ok.
  - intros loc b data t n now Hm [record Hin] Hn Hnow.
    destruct (ok_files _ _ Hs _ _ Hin) as (data' & Hm' & Hd & _). simplify_eq.
    rewrite (read_all_from s m loc record data n now Hs Hin Hd Hn Hnow); [done|lia|lia].
Qed.

End AgentDataTheorems.

Module RefsExamples.
Existing Instance canonical_hash_iter.

Definition ann : OperationOwner := OperationOwner.mk "https://issuer" "ann".
Definition hub_refs : HubRefs.HubEphemeralRefRegistry := HubRefs.mk HubRefs.default_limits ∅.
Definition minted :=
  HubRefs.mint hub_refs ann "dev_a" 1 1 (Some "op_1") EphemeralDataKind.ProcessStdout
    "edata_07" 10 100 [[1; 2]]%N.

Lemma hub_references_are_bound_witness :
  (HubRefs.resolve_owned minted.1 "eref_0102" ann "dev_a" 1 1 300100).2
  = Ok (HubRefs.mk_resolved "edata_07" 10 300100 (Some "op_1") EphemeralDataKind.ProcessStdout).
Proof.
  destruct (HubRefsTheorems.hub_references_are_bound hub_refs ∅) as (_ & _ & Hm).
  { apply (HubRefsTheorems.history_new HubRefs.default_limits); [done|reflexivity]. }
  destruct (Hm ann "dev_a" 1%N 1%N (Some "op_1") EphemeralDataKind.ProcessStdout "edata_07"
    10%N 100%N [[1; 2]]%N minted.1 "eref_0102") as [_ Hr]; [vm_compute; reflexivity|].
  rewrite Hr; [reflexivity|done].
Defined.

Definition out_binding : AgentData.AgentEphemeralBinding :=
  AgentData.mk_binding "dev_a" 1 1 (Some "op_1") EphemeralDataKind.ProcessStdout.
Definition empty_store : AgentData.AgentEphemeralDataStore :=
  AgentData.mk AgentData.default_agent_limits ∅ 0 ∅.
Definition staged :=
  AgentData.stage empty_store AgentData.no_faults out_binding [5; 6; 7]%N 100 [[1]]%N.

Lemma staged_data_is_read_back_witness :
  AgentDataTheorems.read_all 4 staged.1 "edata_01" out_binding 0 2 200 = Some [5; 6; 7]%N.
Proof.
  destruct (AgentDataTheorems.staged_data_is_read_back staged.1
    (<["edata_01" := (out_binding, [5; 6; 7]%N, 300100%N)]> ∅)) as (_ & _ & Hr).
  { apply (AgentDataTheorems.history_staged empty_store ∅ AgentData.no_faults out_binding
      [5; 6; 7]%N 100%N [[1]]%N staged.1 (AgentData.mk_staged "edata_01" 3 300100)).
    - apply (AgentDataTheorems.history_new AgentData.default_agent_limits); [done|reflexivity].
    - vm_compute. reflexivity. }
  apply (Hr "edata_01" out_binding [5; 6; 7]%N 300100%N 2%N 200%N).
  - apply lookup_insert_eq.
  - eexists. vm_compute. reflexivity.
  - vm_compute. by split.
  - done.
Defined.

End RefsExamples.
