(* ===== verification/Evidence.v ===== *)
(** * Evidence and its validation

    The validators of [src/src/v2_execution_safety.rs]: which grants bind a
    dispatch, which terminal states and evidence may be paired, what an operation
    may carry into the ledger, what a retirement or a backend receipt must say,
    and the keyed request fingerprints. *)

From S2P Require Import Prelude Vocabulary Protocol Crypto Tombstone Admission.
From S2P Require Import SafetyTypes.
Import HubOperationState.

(** ** Bounds *)

Definition EXECUTION_SAFETY_SCHEMA_VERSION : N := 15.
Definition MAX_RESOLUTION_EVIDENCE_BYTES : N := 1024.
Definition MAX_RECOVERY_ARCHIVE_ENTRIES : N := 8.
Definition MAX_RECOVERY_ARCHIVE_BYTES : N := 256 * 1024.
Definition MAX_AUDIT_CORRELATION_ID_BYTES : N := 128.
Definition MAX_DISPATCH_FENCE_BYTES : N := 128.
Definition MAX_RECONCILIATION_DEVICE_ID_BYTES : N := 128.
Definition MAX_RECONCILIATION_OPERATION_ID_BYTES : N := 128.
Definition MAX_AGENT_BACKEND_EXECUTION_RECEIPTS : N := 64.
Definition BACKEND_EXECUTION_RECEIPT_SCHEMA_VERSION : N := 1.
Definition MAX_BACKEND_RECEIPT_PROVIDER_BYTES : N := 128.
Definition MAX_AUTO_RESOLUTION_RECORDS : N := 64.
Definition MAX_RETIREMENT_REASON_BYTES : N := 1024.
Definition MAX_RETIREMENT_RECORDS : N := 64.
Definition OPERATION_EVIDENCE_ENVELOPE_SCHEMA_VERSION : N := 1.
Definition MAX_RECOVERY_TARGET_TEXT_BYTES : N := 512.
Definition MAX_SEMANTIC_CONSTRAINT_RULE_ID_BYTES : N := 64.
Definition SEMANTIC_CONSTRAINT_SNAPSHOT_DIGEST_BYTES : N := 64.
Definition MAX_SEMANTIC_CONSTRAINT_KIND_BYTES : N := 64.
Definition REQUEST_FINGERPRINT_ALGORITHM : string := "hmac-sha256:cumg-v2-shell-process-v1".
Definition TEXT_INPUT_FINGERPRINT_ALGORITHM : string := "hmac-sha256:cumg-v2-text-input-v1".
Definition POINTER_CLICK_FINGERPRINT_ALGORITHM : string := "hmac-sha256:cumg-v2-pointer-click-v1".

(** [if bad { return Err(InvalidOperation) } Ok(())] *)
Definition check (bad : bool) : result ExecutionError unit :=
  if bad then Err ExecutionError.InvalidOperation else Ok tt.

(** ** Owners *)

Definition new_owner (issuer subject : string) : result ExecutionError OperationOwner :=
  return_if trim_is_empty issuer || trim_is_empty subject
    with Err ExecutionError.InvalidOperation ;;
  Ok (OperationOwner.mk issuer subject).

Definition local_hub : OperationOwner := OperationOwner.mk "cumg://local-hub" "local".

(** ** Retirement policies *)

Definition offline_retirement_policy_for_capability (c : DeviceCapability)
    : option RetirementPolicy :=
  match c with
  | DeviceCapability.Scroll | DeviceCapability.MovePointer =>
      Some RetirementPolicy.TransientUiInteractionV1
  | _ => None
  end.

Definition current_state_acceptance_policy_for_capability (c : DeviceCapability)
    : option RetirementPolicy :=
  match c with
  | DeviceCapability.Scroll | DeviceCapability.MovePointer =>
      Some RetirementPolicy.TransientUiInteractionV1
  | DeviceCapability.PointerClick => Some RetirementPolicy.AcknowledgedUnknownPointerClickV1
  | _ => None
  end.

(** ** Dispatch bindings *)

(** [byte.is_ascii_alphanumeric() || matches!(byte, b'_' | b'-' | b'.' | b':')] *)
Definition is_fence_byte (b : N) : bool :=
  is_ascii_alphanumeric b || (b =? 95)%N || (b =? 45)%N || (b =? 46)%N || (b =? 58)%N.

Definition validate_binding (b : OperationDispatchBinding) : result ExecutionError unit :=
  check ((b.(OperationDispatchBinding.capability_revision) =? 0)%N
         || is_empty_string b.(OperationDispatchBinding.grant_id)
         || (MAX_DISPATCH_FENCE_BYTES <? slen b.(OperationDispatchBinding.grant_id))%N
         || negb (all_bytes is_fence_byte b.(OperationDispatchBinding.grant_id))).

Definition new_binding (capability_revision : N) (grant_id : string)
    : result ExecutionError OperationDispatchBinding :=
  let binding := OperationDispatchBinding.mk capability_revision grant_id in
  let_ok _ := validate_binding binding else e => Err e ;;
  Ok binding.

(** ** Authoritative terminal evidence *)

Definition authoritative_agent_terminal_pair (s : HubOperationState) (e : ExecutionEvidence)
    : bool :=
  match s, e with
  | Completed, ExecutionEvidence.VerifiedAgentResult => true
  | Failed, ExecutionEvidence.VerifiedRemoteError => true
  | Failed, ExecutionEvidence.ProvenProcessTermination => true
  | Cancelled, ExecutionEvidence.ProvenProcessTermination => true
  | _, _ => false
  end.

(** [matches!(evidence, HubEncodeFailedBeforeEnqueue | HubOutboundClosedBeforeEnqueue)] *)
Definition is_pre_enqueue (e : ExecutionEvidence) : bool :=
  match e with
  | ExecutionEvidence.HubEncodeFailedBeforeEnqueue
  | ExecutionEvidence.HubOutboundClosedBeforeEnqueue => true
  | _ => false
  end.

Definition authoritative_hub_pre_enqueue_non_delivery_pair
    (s : HubOperationState) (e : ExecutionEvidence) : bool :=
  bool_decide (s = Cancelled) && is_pre_enqueue e.

(** The identity checks shared by the evidence and the records built from it. *)
Definition invalid_operation_identity (r : OperationRef) : bool :=
  trim_is_empty r.(OperationRef.device_id)
  || (MAX_RECONCILIATION_DEVICE_ID_BYTES <? slen r.(OperationRef.device_id))%N
  || (r.(OperationRef.device_generation) =? 0)%N
  || trim_is_empty r.(OperationRef.operation_id)
  || (MAX_RECONCILIATION_OPERATION_ID_BYTES <? slen r.(OperationRef.operation_id))%N.

Definition validate_terminal_evidence (e : AgentTerminalEvidence) : result ExecutionError unit :=
  let_ok _ := new_binding e.(AgentTerminalEvidence.capability_revision)
                e.(AgentTerminalEvidence.dispatch_grant_id) else e => Err e ;;
  check (invalid_operation_identity e.(AgentTerminalEvidence.operation)
         || negb (authoritative_agent_terminal_pair e.(AgentTerminalEvidence.terminal_state)
                    e.(AgentTerminalEvidence.evidence))).

Definition evidence_binding (e : AgentTerminalEvidence) : OperationDispatchBinding :=
  OperationDispatchBinding.mk e.(AgentTerminalEvidence.capability_revision)
    e.(AgentTerminalEvidence.dispatch_grant_id).

Definition valid_auto_resolution (r : AutoResolutionRecord) : bool :=
  negb (invalid_operation_identity r.(AutoResolutionRecord.operation))
  && is_ok (validate_binding r.(AutoResolutionRecord.dispatch_binding))
  && (authoritative_agent_terminal_pair r.(AutoResolutionRecord.terminal_state)
        r.(AutoResolutionRecord.evidence)
      || authoritative_hub_pre_enqueue_non_delivery_pair
           r.(AutoResolutionRecord.terminal_state) r.(AutoResolutionRecord.evidence)).

Definition terminal_evidence_for_device_result (r : DeviceResult)
    : option (HubOperationState * ExecutionEvidence) :=
  let of_output (output : ProcessOutput) :=
    if output.(ProcessOutput.cancelled)
    then Some (Cancelled, ExecutionEvidence.ProvenProcessTermination)
    else if output.(ProcessOutput.timed_out)
    then Some (Failed, ExecutionEvidence.ProvenProcessTermination)
    else Some (Completed, ExecutionEvidence.VerifiedAgentResult) in
  match r with
  | DeviceResult.Error DeviceErrorCode.BackendOutcomeIndeterminate => None
  | DeviceResult.Error _ => Some (Failed, ExecutionEvidence.VerifiedRemoteError)
  | DeviceResult.Process output _ _ => of_output output
  | DeviceResult.Shell output _ _ => of_output output
  | _ => Some (Completed, ExecutionEvidence.VerifiedAgentResult)
  end.

(** ** Backend execution receipts *)

(** [!value.trim().is_empty() && value.len() <= MAX_RECOVERY_TARGET_TEXT_BYTES] *)
Definition valid_target_text (s : string) : bool :=
  negb (trim_is_empty s) && (slen s <=? MAX_RECOVERY_TARGET_TEXT_BYTES)%N.

Definition invalid_launch (identifier name : option string) (c : DeviceCapability) : bool :=
  negb (bool_decide (c = DeviceCapability.LaunchApplication))
  || (opt_none identifier && opt_none name)
  || is_some_and (λ v, negb (valid_target_text v)) identifier
  || is_some_and (λ v, negb (valid_target_text v)) name.

Definition target_binding_for_command (c : DeviceCommand) : option BackendReceiptTargetBinding :=
  match c with
  | DeviceCommand.LaunchApplication identifier name _ _ =>
      Some (BackendReceiptTargetBinding.ApplicationLaunch identifier name)
  | DeviceCommand.TerminateApplication process_id =>
      Some (BackendReceiptTargetBinding.ApplicationProcess process_id)
  | _ => None
  end.

Definition validate_target_binding (t : BackendReceiptTargetBinding) (c : DeviceCapability)
    : result ExecutionError unit :=
  match t with
  | BackendReceiptTargetBinding.ApplicationLaunch identifier name =>
      check (invalid_launch identifier name c)
  | BackendReceiptTargetBinding.ApplicationProcess process_id =>
      check (negb (bool_decide (c = DeviceCapability.TerminateApplication))
             || (process_id =? 0)%N)
  end.

Definition matches_recovery_target
    (b : BackendReceiptTargetBinding) (t : OperationRecoveryTarget) : bool :=
  match b, t with
  | BackendReceiptTargetBinding.ApplicationLaunch identifier name,
    OperationRecoveryTarget.ApplicationLaunch expected_identifier expected_name =>
      bool_decide (identifier = expected_identifier) && bool_decide (name = expected_name)
  | BackendReceiptTargetBinding.ApplicationProcess process_id,
    OperationRecoveryTarget.ApplicationProcess expected_process_id _ =>
      (process_id =? expected_process_id)%N
  | _, _ => false
  end.

Definition valid_backend_receipt_provider_component (value : string) : bool :=
  negb (trim_is_empty value)
  && (slen value <=? MAX_BACKEND_RECEIPT_PROVIDER_BYTES)%N
  && negb (any_control (bytes value)).

Definition receipt_pair (o : BackendReceiptTerminalOutcome)
    : HubOperationState * ExecutionEvidence :=
  match o with
  | BackendReceiptTerminalOutcome.EffectCommitted =>
      (Completed, ExecutionEvidence.VerifiedAgentResult)
  | BackendReceiptTerminalOutcome.ProvenNotExecuted =>
      (Failed, ExecutionEvidence.VerifiedRemoteError)
  end.

Definition as_terminal_evidence (r : BackendExecutionReceipt) : AgentTerminalEvidence :=
  let '(terminal_state, evidence) := receipt_pair r.(BackendExecutionReceipt.terminal_outcome) in
  AgentTerminalEvidence.mk
    r.(BackendExecutionReceipt.operation) r.(BackendExecutionReceipt.capability_revision)
    r.(BackendExecutionReceipt.capability) r.(BackendExecutionReceipt.dispatch_grant_id)
    terminal_state evidence.

(** Launching and terminating applications name their target. *)
Definition recovery_target_required (c : DeviceCapability) : bool :=
  match c with
  | DeviceCapability.LaunchApplication | DeviceCapability.TerminateApplication => true
  | _ => false
  end.

Definition validate_receipt (r : BackendExecutionReceipt) : result ExecutionError unit :=
  let c := r.(BackendExecutionReceipt.capability) in
  let_ok _ := new_binding r.(BackendExecutionReceipt.capability_revision)
                r.(BackendExecutionReceipt.dispatch_grant_id) else e => Err e ;;
  return_if
    negb (r.(BackendExecutionReceipt.schema_version)
          =? BACKEND_EXECUTION_RECEIPT_SCHEMA_VERSION)%N
    || negb (r.(BackendExecutionReceipt.provider_contract_schema_version)
             =? BACKEND_EXECUTION_RECEIPT_SCHEMA_VERSION)%N
    || invalid_operation_identity r.(BackendExecutionReceipt.operation)
    || bool_decide (class c = CapabilityClass.Observe)
    || (r.(BackendExecutionReceipt.sequence) =? 0)%N
    || negb (valid_backend_receipt_provider_component r.(BackendExecutionReceipt.backend))
    || negb (valid_backend_receipt_provider_component
               r.(BackendExecutionReceipt.backend_version))
    with Err ExecutionError.InvalidOperation ;;
  let target := r.(BackendExecutionReceipt.target_binding) in
  return_if negb (Bool.eqb (recovery_target_required c) (opt_some target))
    with Err ExecutionError.InvalidOperation ;;
  let_ok _ := match target with Some t => validate_target_binding t c | None => Ok tt end
    else e => Err e ;;
  validate_terminal_evidence (as_terminal_evidence r).

(** The loop of [validate_backend_execution_receipt_journal]: the identifiers and
    (provider, version, sequence) triples seen, and the latest sequence of every
    (provider, version). *)
Fixpoint validate_journal_from
    (operation_ids : gset string) (provider_sequences : gset (string * string * N))
    (latest_by_provider : gmap (string * string) N) (receipts : list BackendExecutionReceipt)
    : result ExecutionError unit :=
  match receipts with
  | [] => Ok tt
  | r :: receipts =>
      let_ok _ := validate_receipt r else e => Err e ;;
      let id := r.(BackendExecutionReceipt.operation).(OperationRef.operation_id) in
      let key := (r.(BackendExecutionReceipt.backend),
                  r.(BackendExecutionReceipt.backend_version)) in
      let seq := r.(BackendExecutionReceipt.sequence) in
      return_if bool_decide (id ∈ operation_ids)
                || bool_decide ((key, seq) ∈ provider_sequences)
        with Err ExecutionError.InvalidOperation ;;
      return_if is_some_and (λ latest, seq <=? latest)%N (latest_by_provider !! key)
        with Err ExecutionError.InvalidOperation ;;
      validate_journal_from ({[id]} ∪ operation_ids) ({[(key, seq)]} ∪ provider_sequences)
        (<[key := seq]> latest_by_provider) receipts
  end.

Definition validate_backend_execution_receipt_journal (receipts : list BackendExecutionReceipt)
    : result ExecutionError unit :=
  return_if (MAX_AGENT_BACKEND_EXECUTION_RECEIPTS <? vlen receipts)%N
    with Err ExecutionError.InvalidOperation ;;
  validate_journal_from ∅ ∅ ∅ receipts.

(** ** Reconciliation states *)

Definition default_reconciliation_status (reason : option IndeterminateReason)
    (dispatch_binding : option OperationDispatchBinding) : ReconciliationStatus :=
  if opt_some dispatch_binding
     && match reason with
        | Some IndeterminateReason.ConnectionLost
        | Some IndeterminateReason.HubRestartAfterDispatch
        | Some IndeterminateReason.ResultDeliveryLost => true
        | _ => false
        end
  then ReconciliationStatus.AutoReconciling
  else ReconciliationStatus.OperatorRequired.

Definition valid_reconciliation_state (s : HubOperationState)
    (status : option ReconciliationStatus) (dispatch_binding : option OperationDispatchBinding)
    : bool :=
  match s, status with
  | Indeterminate, None => true
  | Indeterminate, Some ReconciliationStatus.AutoReconciling => opt_some dispatch_binding
  | Indeterminate, Some (ReconciliationStatus.OperatorRequired
                         | ReconciliationStatus.UnrecoverableEvidenceGap) => true
  | (Completed | Failed | Cancelled), Some ReconciliationStatus.AutoResolved =>
      opt_some dispatch_binding
  | (Completed | Failed | Cancelled), None => true
  | _, _ => false
  end.

(** ** Metadata admitted with an operation *)

Definition validate_audit_correlation_id (value : string) : result ExecutionError unit :=
  check (is_empty_string value
         || (MAX_AUDIT_CORRELATION_ID_BYTES <? slen value)%N
         || negb (all_bytes is_fence_byte value)).

Definition validate_some {A} (validate : A → result ExecutionError unit) (o : option A)
    : result ExecutionError unit :=
  match o with Some a => validate a | None => Ok tt end.

Definition empty_audit : OperationAuditMetadata := OperationAuditMetadata.mk None None None.

Definition audit_is_empty (a : OperationAuditMetadata) : bool :=
  opt_none a.(OperationAuditMetadata.workflow_id)
  && opt_none a.(OperationAuditMetadata.workflow_step_id)
  && opt_none a.(OperationAuditMetadata.client_correlation_id).

Definition validate_audit (a : OperationAuditMetadata) : result ExecutionError unit :=
  let_ok _ := validate_some validate_audit_correlation_id
                a.(OperationAuditMetadata.workflow_id) else e => Err e ;;
  let_ok _ := validate_some validate_audit_correlation_id
                a.(OperationAuditMetadata.workflow_step_id) else e => Err e ;;
  validate_some validate_audit_correlation_id a.(OperationAuditMetadata.client_correlation_id).

Definition validate_fingerprint (f : OperationRequestFingerprint) : result ExecutionError unit :=
  check (negb (bool_decide (f.(OperationRequestFingerprint.algorithm)
                 ∈ [REQUEST_FINGERPRINT_ALGORITHM; TEXT_INPUT_FINGERPRINT_ALGORITHM;
                    POINTER_CLICK_FINGERPRINT_ALGORITHM]))
         || negb (slen f.(OperationRequestFingerprint.key_id) =? 16)%N
         || negb (all_bytes is_lower_hexdigit f.(OperationRequestFingerprint.key_id))
         || negb (slen f.(OperationRequestFingerprint.value) =? 64)%N
         || negb (all_bytes is_lower_hexdigit f.(OperationRequestFingerprint.value))).

Definition validate_envelope (e : OperationEvidenceEnvelope) (c : DeviceCapability)
    : result ExecutionError unit :=
  match e with
  | OperationEvidenceEnvelope.TextInput schema_version fingerprint payload_bytes payload_chars
      line_count _ separate_submit_requested _ _ _ =>
      check (negb (schema_version =? OPERATION_EVIDENCE_ENVELOPE_SCHEMA_VERSION)%N
             || negb (bool_decide (c = DeviceCapability.TypeText))
             || is_some_and (λ f,
                  negb (bool_decide (f.(OperationRequestFingerprint.algorithm)
                                     = TEXT_INPUT_FINGERPRINT_ALGORITHM))
                  || is_err (validate_fingerprint f)) fingerprint
             || (payload_bytes =? 0)%N
             || (payload_chars =? 0)%N
             || (line_count =? 0)%N
             || separate_submit_requested)
  end.

Definition envelope_fingerprint (e : OperationEvidenceEnvelope)
    : option OperationRequestFingerprint :=
  match e with
  | OperationEvidenceEnvelope.TextInput _ fingerprint _ _ _ _ _ _ _ _ => fingerprint
  end.

Definition validate_recovery_target (t : OperationRecoveryTarget) (c : DeviceCapability)
    : result ExecutionError unit :=
  match t with
  | OperationRecoveryTarget.ApplicationLaunch identifier name =>
      check (invalid_launch identifier name c)
  | OperationRecoveryTarget.ApplicationProcess process_id application =>
      check (negb (bool_decide (c = DeviceCapability.TerminateApplication))
             || (process_id =? 0)%N
             || trim_is_empty application
             || (MAX_RECOVERY_TARGET_TEXT_BYTES <? slen application)%N)
  end.

Definition recovery_target_for_command (c : DeviceCommand) : option OperationRecoveryTarget :=
  match c with
  | DeviceCommand.LaunchApplication identifier name _ _ =>
      Some (OperationRecoveryTarget.ApplicationLaunch identifier name)
  | _ => None
  end.

Definition validate_constraint (c : SemanticConstraintAdmissionEvidence)
    : result ExecutionError unit :=
  let digest := c.(SemanticConstraintAdmissionEvidence.snapshot_digest) in
  let kind := c.(SemanticConstraintAdmissionEvidence.kind) in
  let rule_id := c.(SemanticConstraintAdmissionEvidence.rule_id) in
  check ((c.(SemanticConstraintAdmissionEvidence.revision) =? 0)%N
         || negb (slen digest =? SEMANTIC_CONSTRAINT_SNAPSHOT_DIGEST_BYTES)%N
         || negb (all_bytes is_ascii_hexdigit digest)
         || is_empty_string kind
         || (MAX_SEMANTIC_CONSTRAINT_KIND_BYTES <? slen kind)%N
         || is_empty_string rule_id
         || (MAX_SEMANTIC_CONSTRAINT_RULE_ID_BYTES <? slen rule_id)%N
         || negb (all_bytes (λ b, is_ascii_lowercase b || is_ascii_digit b
                                  || (b =? 95)%N || (b =? 45)%N) kind)
         || negb (all_bytes (λ b, is_ascii_alphanumeric b || (b =? 95)%N || (b =? 45)%N
                                  || (b =? 46)%N) rule_id)).

Definition validate_constraint_for_capability
    (s : SemanticConstraintAdmissionEvidence) (c : DeviceCapability)
    : result ExecutionError unit :=
  let_ok _ := validate_constraint s else e => Err e ;;
  let kind := s.(SemanticConstraintAdmissionEvidence.kind) in
  check (negb ((bool_decide (kind = "type_text_max_utf8_bytes")
                && bool_decide (c = DeviceCapability.TypeText))
               || (bool_decide (kind = "browser_navigate_requested_origins")
                   && bool_decide (c = DeviceCapability.BrowserNavigate)))).

Definition empty_metadata : OperationAdmissionMetadata :=
  OperationAdmissionMetadata.mk empty_audit None None None None.

Definition validate_metadata (m : OperationAdmissionMetadata) (c : DeviceCapability)
    : result ExecutionError unit :=
  let_ok _ := validate_audit m.(OperationAdmissionMetadata.audit) else e => Err e ;;
  let_ok _ := validate_some validate_fingerprint
                m.(OperationAdmissionMetadata.request_fingerprint) else e => Err e ;;
  let_ok _ := validate_some (λ v, validate_envelope v c)
                m.(OperationAdmissionMetadata.evidence_envelope) else e => Err e ;;
  return_if recovery_target_required c
            && opt_none m.(OperationAdmissionMetadata.recovery_target)
    with Err ExecutionError.InvalidOperation ;;
  let_ok _ := validate_some (λ t, validate_recovery_target t c)
                m.(OperationAdmissionMetadata.recovery_target) else e => Err e ;;
  validate_some (λ s, validate_constraint_for_capability s c)
    m.(OperationAdmissionMetadata.semantic_constraint).

(** ** Keyed request fingerprints *)

(** The [serde_json::Value] objects the fingerprints cover, by their fields. *)
Module Contract.
Inductive Contract :=
| TypeTextPayload (text : string)
| ExecuteProcess (program : string) (args : list string) (cwd : string)
    (env : list ProcessEnvVar) (timeout_ms : N)
| Shell (command : string) (cwd : string) (env : list ProcessEnvVar) (timeout_ms : N)
| PointerClickLegacy (x y : Z) (button : PointerButton)
| PointerClickAdvanced (context_id : option string) (target : PointerTarget)
    (button : PointerButton) (click_count : N) (action : option UiElementAction)
    (modifiers : list KeyboardModifier) (delivery : InputDeliveryMode).
End Contract.
Abbreviation Contract := Contract.Contract.

(** [ring::hmac] with SHA-256 and [serde_json::to_vec] of a contract. *)
Class AuditHmac := {
  hmac_sign : list N → list N → list N;
  contract_to_vec : Contract → option (list N)
}.

Class AuditHmacLaws `{AuditHmac} : Prop := {
  hmac_sign_length : ∀ k m, length (hmac_sign k m) = 32;
  hmac_sign_u8 : ∀ k m, Forall (λ b, b < 256)%N (hmac_sign k m)
}.

Section Fingerprints.
Context `{AuditHmac}.

Definition fingerprint_canonical_contract (secret : list N) (algorithm : string)
    (contract : Contract) : result ExecutionError OperationRequestFingerprint :=
  return_if bool_decide (secret = []) with Err ExecutionError.InvalidOperation ;;
  let_some canonical := contract_to_vec contract else Err ExecutionError.InvalidOperation ;;
  let tag := hmac_sign secret canonical in
  let key_id_tag := hmac_sign secret (bytes "cumg-v2-audit-fingerprint-key-id") in
  let key_id_full := hex key_id_tag in
  Ok (OperationRequestFingerprint.mk algorithm (String.substring 0 16 key_id_full) (hex tag)).

Definition fingerprint_text_input_candidate (secret : list N) (text : string)
    : result ExecutionError OperationRequestFingerprint :=
  return_if is_empty_string text with Err ExecutionError.InvalidOperation ;;
  fingerprint_canonical_contract secret TEXT_INPUT_FINGERPRINT_ALGORITHM
    (Contract.TypeTextPayload text).

Definition fingerprint_process_request (secret : list N) (request : ProcessRequest)
    : result ExecutionError OperationRequestFingerprint :=
  fingerprint_canonical_contract secret REQUEST_FINGERPRINT_ALGORITHM
    (Contract.ExecuteProcess request.(ProcessRequest.program) request.(ProcessRequest.args)
       request.(ProcessRequest.cwd) request.(ProcessRequest.env)
       request.(ProcessRequest.timeout_ms)).

Definition fingerprint_shell_request (secret : list N) (request : ShellRequest)
    : result ExecutionError OperationRequestFingerprint :=
  fingerprint_canonical_contract secret REQUEST_FINGERPRINT_ALGORITHM
    (Contract.Shell request.(ShellRequest.command) request.(ShellRequest.cwd)
       request.(ShellRequest.env) request.(ShellRequest.timeout_ms)).

Definition fingerprint_pointer_click_request (secret : list N) (command : DeviceCommand)
    : result ExecutionError OperationRequestFingerprint :=
  match command with
  | DeviceCommand.PointerClick x y button =>
      fingerprint_canonical_contract secret POINTER_CLICK_FINGERPRINT_ALGORITHM
        (Contract.PointerClickLegacy x y button)
  | DeviceCommand.PointerClickAdvanced context_id target button click_count action modifiers
      delivery =>
      fingerprint_canonical_contract secret POINTER_CLICK_FINGERPRINT_ALGORITHM
        (Contract.PointerClickAdvanced context_id target button click_count action modifiers
           delivery)
  | _ => Err ExecutionError.InvalidOperation
  end.

Definition text_input_target_evidence (t : InputTarget) : TextInputTargetEvidence :=
  match t with
  | InputTarget.Desktop => TextInputTargetEvidence.Desktop
  | InputTarget.Window process_id window_id => TextInputTargetEvidence.Window process_id window_id
  | InputTarget.WindowPoint process_id window_id _ _ =>
      TextInputTargetEvidence.WindowPoint process_id window_id
  | InputTarget.Element process_id window_id _ =>
      TextInputTargetEvidence.Element process_id window_id
  end.

(** The part of [text_input_evidence_envelope] after its [match]. *)
Definition text_envelope (secret : option (list N)) (text : string)
    (target : TextInputTargetEvidence) (delivery : option InputDeliveryMode)
    (delay_ms : option N) : result ExecutionError (option OperationEvidenceEnvelope) :=
  let_some payload_bytes := try_into_u32 (slen text) else Err ExecutionError.InvalidOperation ;;
  let_some payload_chars := try_into_u32 (chars_count text)
    else Err ExecutionError.InvalidOperation ;;
  let_some line_count := try_into_u32 (split_newline_count text)
    else Err ExecutionError.InvalidOperation ;;
  return_if (payload_bytes =? 0)%N || (payload_chars =? 0)%N || (line_count =? 0)%N
    with Err ExecutionError.InvalidOperation ;;
  let_ok fingerprint :=
    match secret with
    | None => Ok None
    | Some secret =>
        let_ok f := fingerprint_canonical_contract secret TEXT_INPUT_FINGERPRINT_ALGORITHM
                      (Contract.TypeTextPayload text) else e => Err e ;;
        Ok (Some f)
    end else e => Err e ;;
  let envelope := OperationEvidenceEnvelope.TextInput
    OPERATION_EVIDENCE_ENVELOPE_SCHEMA_VERSION fingerprint payload_bytes payload_chars
    line_count (ends_with_newline text) false target delivery delay_ms in
  let_ok _ := validate_envelope envelope DeviceCapability.TypeText else e => Err e ;;
  Ok (Some envelope).

Definition text_input_evidence_envelope (secret : option (list N)) (command : DeviceCommand)
    : result ExecutionError (option OperationEvidenceEnvelope) :=
  match command with
  | DeviceCommand.TypeText text =>
      text_envelope secret text TextInputTargetEvidence.Unspecified None None
  | DeviceCommand.TypeTextAdvanced _ text target delivery delay_ms =>
      text_envelope secret text (text_input_target_evidence target) (Some delivery)
        (Some delay_ms)
  | _ => Ok None
  end.
End Fingerprints.

Definition compare_request_fingerprint
    (stored candidate : option OperationRequestFingerprint) : RequestFingerprintComparison :=
  match stored, candidate with
  | Some stored, Some candidate =>
      if negb (bool_decide (stored.(OperationRequestFingerprint.algorithm)
                            = candidate.(OperationRequestFingerprint.algorithm)))
         || negb (bool_decide (stored.(OperationRequestFingerprint.key_id)
                               = candidate.(OperationRequestFingerprint.key_id)))
      then RequestFingerprintComparison.Unavailable
      else if bool_decide (stored.(OperationRequestFingerprint.value)
                           = candidate.(OperationRequestFingerprint.value))
      then RequestFingerprintComparison.SameRequest
      else RequestFingerprintComparison.DifferentRequest
  | _, _ => RequestFingerprintComparison.Unavailable
  end.

(** ** Retirement and mutation-resume records *)

Definition disposition_policy (d : RetirementDisposition) (c : DeviceCapability)
    : option RetirementPolicy :=
  match d with
  | RetirementDisposition.Retired => offline_retirement_policy_for_capability c
  | RetirementDisposition.CurrentStateAccepted => current_state_acceptance_policy_for_capability c
  end.

Definition disposition_authorized (d : RetirementDisposition) (a : RetirementAuthority) : bool :=
  match d, a with
  | RetirementDisposition.Retired, RetirementAuthority.LocalMaintenanceOperator
  | RetirementDisposition.CurrentStateAccepted, RetirementAuthority.LocalUserPresence => true
  | _, _ => false
  end.

(** [matches!(status, OperatorRequired | UnrecoverableEvidenceGap)] *)
Definition needs_operator (s : ReconciliationStatus) : bool :=
  match s with
  | ReconciliationStatus.OperatorRequired | ReconciliationStatus.UnrecoverableEvidenceGap => true
  | _ => false
  end.

(** [!reason.trim().is_empty() && reason.len() <= MAX_RETIREMENT_REASON_BYTES] *)
Definition valid_reason (reason : string) : bool :=
  negb (trim_is_empty reason) && (slen reason <=? MAX_RETIREMENT_REASON_BYTES)%N.

Definition valid_retirement (r : RetirementRecord) : bool :=
  negb (invalid_operation_identity r.(RetirementRecord.operation))
  && bool_decide (r.(RetirementRecord.outcome) = RetirementOutcome.Unknown)
  && needs_operator r.(RetirementRecord.prior_reconciliation_status)
  && bool_decide (disposition_policy r.(RetirementRecord.disposition)
                    r.(RetirementRecord.capability) = Some r.(RetirementRecord.policy))
  && disposition_authorized r.(RetirementRecord.disposition) r.(RetirementRecord.authority)
  && valid_reason r.(RetirementRecord.reason)
  && (r.(RetirementRecord.operation).(OperationRef.device_generation)
      <? r.(RetirementRecord.authorized_device_generation))%N
  && negb r.(RetirementRecord.replayed).

Definition valid_barrier (b : MutationResumeBarrier) : bool :=
  negb (trim_is_empty b.(MutationResumeBarrier.device_id))
  && (slen b.(MutationResumeBarrier.device_id) <=? MAX_RECONCILIATION_DEVICE_ID_BYTES)%N
  && negb (trim_is_empty b.(MutationResumeBarrier.source_operation_id))
  && (slen b.(MutationResumeBarrier.source_operation_id)
      <=? MAX_RECONCILIATION_OPERATION_ID_BYTES)%N
  && (0 <? b.(MutationResumeBarrier.source_device_generation))%N
  && (b.(MutationResumeBarrier.source_device_generation)
      <? b.(MutationResumeBarrier.accepted_generation))%N
  && bool_decide (b.(MutationResumeBarrier.policy)
                  = RetirementPolicy.AcknowledgedUnknownPointerClickV1)
  && (0 <? b.(MutationResumeBarrier.created_at_ms))%N.

Definition valid_resume (r : MutationResumeRecord) : bool :=
  negb (trim_is_empty r.(MutationResumeRecord.device_id))
  && (slen r.(MutationResumeRecord.device_id) <=? MAX_RECONCILIATION_DEVICE_ID_BYTES)%N
  && negb (trim_is_empty r.(MutationResumeRecord.source_operation_id))
  && (slen r.(MutationResumeRecord.source_operation_id)
      <=? MAX_RECONCILIATION_OPERATION_ID_BYTES)%N
  && (0 <? r.(MutationResumeRecord.accepted_generation))%N
  && (r.(MutationResumeRecord.accepted_generation)
      <? r.(MutationResumeRecord.resumed_generation))%N
  && bool_decide (r.(MutationResumeRecord.policy)
                  = RetirementPolicy.AcknowledgedUnknownPointerClickV1)
  && bool_decide (r.(MutationResumeRecord.authority) = RetirementAuthority.LocalUserPresence)
  && valid_reason r.(MutationResumeRecord.reason)
  && (0 <? r.(MutationResumeRecord.resumed_at_ms))%N.

(** ** Recoverable results *)

Definition process_output_matches_state (output : ProcessOutput) (s : HubOperationState) : bool :=
  if output.(ProcessOutput.cancelled) && output.(ProcessOutput.timed_out) then false
  else if output.(ProcessOutput.cancelled) then bool_decide (s = Cancelled)
  else if output.(ProcessOutput.timed_out) then bool_decide (s = Failed)
  else bool_decide (s = Completed).

(** [matches!(capability, ExecuteProcess | Shell)] *)
Definition runs_process (c : DeviceCapability) : bool :=
  match c with
  | DeviceCapability.ExecuteProcess | DeviceCapability.Shell => true
  | _ => false
  end.

Definition result_valid_for (r : RecoverableOperationResult) (c : DeviceCapability)
    (s : HubOperationState) : bool :=
  match r with
  | RecoverableOperationResult.Process output =>
      bool_decide (c = DeviceCapability.ExecuteProcess) && process_output_matches_state output s
  | RecoverableOperationResult.Shell output =>
      bool_decide (c = DeviceCapability.Shell) && process_output_matches_state output s
  | RecoverableOperationResult.Error _ => runs_process c && bool_decide (s = Failed)
  | RecoverableOperationResult.EffectfulStatus =>
      negb (runs_process c) && negb (bool_decide (class c = CapabilityClass.Observe))
      && settled s
  end.

Definition valid_archived (r : ArchivedOperationRecovery) : bool :=
  let receipt := r.(ArchivedOperationRecovery.receipt) in
  settled r.(ArchivedOperationRecovery.state)
  && result_valid_for r.(ArchivedOperationRecovery.result)
       r.(ArchivedOperationRecovery.capability) r.(ArchivedOperationRecovery.state)
  && bool_decide (receipt.(ExecutionReceipt.operation) = r.(ArchivedOperationRecovery.operation))
  && bool_decide (receipt.(ExecutionReceipt.owner) = r.(ArchivedOperationRecovery.owner))
  && bool_decide (receipt.(ExecutionReceipt.capability)
                  = r.(ArchivedOperationRecovery.capability))
  && bool_decide (receipt.(ExecutionReceipt.terminal_state)
                  = r.(ArchivedOperationRecovery.state))
  && is_none_or (λ s, is_ok (validate_constraint_for_capability s
                               r.(ArchivedOperationRecovery.capability)))
       r.(ArchivedOperationRecovery.semantic_constraint).

(** ** Facts about validation *)

Lemma check_ok b : check b = Ok tt ↔ b = false.
Proof. unfold check. destruct b; naive_solver. Qed.

Lemma unit_ok {E} (r : result E unit) u : r = Ok u ↔ r = Ok tt.
Proof. by destruct u. Qed.

Lemma let_ok_iff {E A B} (m : result E A) (k : A → result E B) b :
  match m with Ok a => k a | Err e => Err e end = Ok b ↔ ∃ a, m = Ok a ∧ k a = Ok b.
Proof. destruct m; naive_solver. Qed.

Lemma validate_some_ok {A} (v : A → result ExecutionError unit) o :
  validate_some v o = Ok tt ↔ ∀ a, o = Some a → v a = Ok tt.
Proof. destruct o; naive_solver. Qed.

Lemma new_binding_ok rev g b :
  new_binding rev g = Ok b ↔
  b = OperationDispatchBinding.mk rev g ∧ validate_binding b = Ok tt.
Proof.
  unfold new_binding. rewrite let_ok_iff. split.
  - intros ([] & ? & [= <-]). done.
  - intros [-> ?]. eauto.
Qed.

Lemma validate_terminal_evidence_ok e :
  validate_terminal_evidence e = Ok tt ↔
  validate_binding (evidence_binding e) = Ok tt ∧
  invalid_operation_identity e.(AgentTerminalEvidence.operation) = false ∧
  authoritative_agent_terminal_pair e.(AgentTerminalEvidence.terminal_state)
    e.(AgentTerminalEvidence.evidence) = true.
Proof.
  unfold validate_terminal_evidence. rewrite let_ok_iff. split.
  - intros (b & [-> Hb]%new_binding_ok & Hc%check_ok). split; [done|].
    apply orb_false_iff in Hc as [-> Hc]. by rewrite negb_false_iff in Hc.
  - intros (Hb & Hi & Hp). exists (evidence_binding e). split; [by apply new_binding_ok|].
    apply check_ok. by rewrite Hi, Hp.
Qed.

Lemma agent_pair_settled s e : authoritative_agent_terminal_pair s e = true → settled s = true.
Proof. by destruct s, e. Qed.

(** A device result settles an operation except when it says itself that the
    outcome is unknown, and always with evidence of the agent. *)
Lemma device_result_evidence r :
  match terminal_evidence_for_device_result r with
  | Some (s, e) => authoritative_agent_terminal_pair s e = true
  | None => r = DeviceResult.Error DeviceErrorCode.BackendOutcomeIndeterminate
  end.
Proof.
  destruct r; try done; cbn; try (by destruct (ProcessOutput.cancelled output);
    [|destruct (ProcessOutput.timed_out output)]).
  by destruct code.
Qed.

(** *** Receipts *)

Section Receipts.
Import BackendExecutionReceipt.

Lemma as_terminal_evidence_binding r :
  evidence_binding (as_terminal_evidence r) =
  OperationDispatchBinding.mk r.(capability_revision) r.(dispatch_grant_id).
Proof. unfold as_terminal_evidence. by destruct (receipt_pair _). Qed.

(** A valid receipt is about an effectful capability, names its target exactly
    when recovery needs one, and reads as valid terminal evidence. *)
Lemma validate_receipt_sound r :
  validate_receipt r = Ok tt →
  class r.(capability) ≠ CapabilityClass.Observe ∧ (0 < r.(sequence))%N ∧
  recovery_target_required r.(capability) = opt_some r.(target_binding) ∧
  validate_some (λ t, validate_target_binding t r.(capability)) r.(target_binding) = Ok tt ∧
  validate_terminal_evidence (as_terminal_evidence r) = Ok tt.
Proof.
  unfold validate_receipt. intros Hv. run Hv; (split_and!; [done|lia|done..]).
Qed.

(** What one receipt of the journal says of a later one. *)
Definition journal_before (a b : BackendExecutionReceipt) : Prop :=
  a.(operation).(OperationRef.operation_id) ≠ b.(operation).(OperationRef.operation_id) ∧
  (a.(backend) = b.(backend) → a.(backend_version) = b.(backend_version) →
   (a.(sequence) < b.(sequence))%N).

Definition journal_fresh (ids : gset string) (latest : gmap (string * string) N)
    (r : BackendExecutionReceipt) : Prop :=
  (r.(operation).(OperationRef.operation_id) ∉ ids) ∧
  (∀ n, latest !! (r.(backend), r.(backend_version)) = Some n → (n < r.(sequence))%N).

Lemma journal_fresh_cons ids latest a r :
  journal_fresh ({[a.(operation).(OperationRef.operation_id)]} ∪ ids)
    (<[(a.(backend), a.(backend_version)) := a.(sequence)]> latest) r →
  journal_before a r.
Proof.
  intros [Hid Hseq]. split; [set_solver|]. intros Hb Hv. apply Hseq. rewrite <- Hb, <- Hv.
  apply lookup_insert_eq.
Qed.

Lemma journal_fresh_uncons ids latest a r :
  journal_fresh ids latest a → journal_fresh ids latest r → journal_before a r →
  journal_fresh ({[a.(operation).(OperationRef.operation_id)]} ∪ ids)
    (<[(a.(backend), a.(backend_version)) := a.(sequence)]> latest) r.
Proof.
  intros Ha [Hid Hseq] [Hne Hlt]. split; [set_solver|]. intros n Hn.
  apply lookup_insert_Some in Hn as [[Heq <-]|[Hk Hn]]; naive_solver.
Qed.

Lemma journal_fresh_weaken ids latest a r :
  journal_fresh ids latest a →
  journal_fresh ({[a.(operation).(OperationRef.operation_id)]} ∪ ids)
    (<[(a.(backend), a.(backend_version)) := a.(sequence)]> latest) r →
  journal_fresh ids latest r.
Proof.
  intros [_ Ha] Hr. pose proof (journal_fresh_cons _ _ _ _ Hr) as [_ Hlt].
  destruct Hr as [Hid Hseq]. split; [set_solver|]. intros n Hn.
  destruct (decide ((backend a, backend_version a) = (backend r, backend_version r)))
    as [Heq|Hne].
  - injection Heq as Hb Hv. specialize (Hlt Hb Hv). rewrite <- Hb, <- Hv in Hn.
    specialize (Ha n Hn). lia.
  - apply Hseq. by rewrite lookup_insert_ne.
Qed.

(** The triples seen are not above the latest sequence of their provider, so
    the second set never refuses what the third would accept. *)
Definition journal_coherent (seqs : gset (string * string * N))
    (latest : gmap (string * string) N) : Prop :=
  ∀ k n, (k, n) ∈ seqs → ∃ m, latest !! k = Some m ∧ (n ≤ m)%N.

Lemma journal_coherent_insert seqs latest k n :
  journal_coherent seqs latest → (∀ m, latest !! k = Some m → (m < n)%N) →
  journal_coherent ({[(k, n)]} ∪ seqs) (<[k := n]> latest).
Proof.
  intros Hc Hn k' n' [Heq%elem_of_singleton|Hin]%elem_of_union.
  - simplify_eq. exists n. split; [apply lookup_insert_eq|done].
  - destruct (Hc k' n' Hin) as (m & Hm & Hle). destruct (decide (k = k')) as [->|Hne].
    + exists n. split; [apply lookup_insert_eq|]. specialize (Hn m Hm). lia.
    + exists m. by rewrite lookup_insert_ne.
Qed.

Lemma journal_guards ids seqs latest r :
  journal_coherent seqs latest →
  (bool_decide (r.(operation).(OperationRef.operation_id) ∈ ids)
   || bool_decide ((r.(backend), r.(backend_version), r.(sequence)) ∈ seqs)) = false ∧
  is_some_and (λ n, r.(sequence) <=? n)%N (latest !! (r.(backend), r.(backend_version))) = false
  ↔ journal_fresh ids latest r.
Proof.
  intros Hc. unfold journal_fresh. rewrite orb_false_iff, !bool_decide_eq_false. split.
  - intros [[Hid _] Hl]. split; [done|]. intros n Hn. rewrite Hn in Hl. cbn in Hl. by split_bools.
  - intros [Hid Hl]. split_and!; [done| |].
    + intros Hin. destruct (Hc _ _ Hin) as (m & Hm & Hle). specialize (Hl m Hm). lia.
    + destruct (latest !! _) as [n|]; [|done]. by apply N.leb_gt, Hl.
Qed.

Lemma validate_journal_from_ok ids seqs latest receipts :
  journal_coherent seqs latest →
  validate_journal_from ids seqs latest receipts = Ok tt ↔
  Forall (λ r, validate_receipt r = Ok tt) receipts ∧
  Forall (journal_fresh ids latest) receipts ∧ StronglySorted journal_before receipts.
Proof.
  revert ids seqs latest. induction receipts as [|r receipts IH]; intros ids seqs latest Hc.
  { cbn. split; [|done]. intros _. repeat constructor. }
  cbn [validate_journal_from]. cbv zeta. rewrite !Forall_cons. split.
  - intros Hv. destruct (validate_receipt r) as [[]|] eqn:Hr; [|done].
    destruct (bool_decide _ || _) eqn:E1; [done|]. destruct (is_some_and _ _) eqn:E2; [done|].
    pose proof (proj1 (journal_guards _ _ _ r Hc) (conj E1 E2)) as Hf.
    apply IH in Hv as (Hvs & Hfs & Hs); [|by apply journal_coherent_insert, Hf].
    split_and!; [done..| | |]; [done| |constructor; [done|]].
    + eapply Forall_impl; [exact Hfs|]. intros x. by apply journal_fresh_weaken.
    + eapply Forall_impl; [exact Hfs|]. intros x. apply journal_fresh_cons.
  - intros ([-> Hvs] & [Hf Hfs] & [Hs Hb]%StronglySorted_inv).
    apply (journal_guards _ _ _ _ Hc) in Hf as Hg. destruct Hg as [-> ->]. apply IH.
    + by apply journal_coherent_insert, Hf.
    + split_and!; [done| |done]. rewrite Forall_forall in Hfs, Hb |- *.
      intros x Hx. apply journal_fresh_uncons; auto.
Qed.

(** C: the backend receipt journal is accepted exactly when it holds at most 64
    receipts, each of them valid, no two of them about the same operation, and the
    receipts of every provider version in strictly increasing sequence. *)
Theorem receipt_journal_ok_iff receipts :
  validate_backend_execution_receipt_journal receipts = Ok tt ↔
  (vlen receipts ≤ 64)%N ∧ Forall (λ r, validate_receipt r = Ok tt) receipts ∧
  StronglySorted journal_before receipts.
Proof.
  unfold validate_backend_execution_receipt_journal, MAX_AGENT_BACKEND_EXECUTION_RECEIPTS.
  destruct (N.ltb_spec 64 (vlen receipts)) as [Hlt|Hle]; [split; [done|lia]|].
  rewrite validate_journal_from_ok by (intros ?? []%elem_of_empty). split; [naive_solver|].
  intros (_ & Hv & Hs). split_and!; [done| |done]. apply Forall_true. intros r.
  split; [apply not_elem_of_empty|done].
Qed.
End Receipts.

(** *** Fingerprints *)

Section FingerprintTheorems.
Context `{AuditHmacLaws}.

Lemma hex_lower_digits l :
  Forall (λ b, b < 256)%N l → all_bytes is_lower_hexdigit (hex l) = true.
Proof.
  assert (forallb (λ n, is_lower_hexdigit (N_of_ascii (hex_digit n))) nibbles = true) as Hn
    by (vm_compute; reflexivity).
  rewrite forallb_forall in Hn. setoid_rewrite <- list_elem_of_In in Hn.
  induction 1 as [|b l Hb Hl IH]; [done|]. cbn.
  destruct (byte_nibbles b Hb) as (Hhi%nibble_elem & Hlo%nibble_elem & _).
  rewrite (Hn _ Hhi), (Hn _ Hlo). exact IH.
Qed.

Lemma length_hex l : String.length (hex l) = 2 * length l.
Proof. induction l as [|b l IH]; [done|]. cbn. rewrite IH. lia. Qed.

Lemma bytes_substring n s : bytes (String.substring 0 n s) = take n (bytes s).
Proof.
  revert n. induction s as [|a s IH]; intros [|n]; try done. cbn. by rewrite <- IH.
Qed.

Lemma fingerprint_Ok secret algorithm contract f :
  fingerprint_canonical_contract secret algorithm contract = Ok f ↔
  secret ≠ [] ∧ ∃ canonical, contract_to_vec contract = Some canonical ∧
  f = OperationRequestFingerprint.mk algorithm
        (String.substring 0 16 (hex (hmac_sign secret (bytes "cumg-v2-audit-fingerprint-key-id"))))
        (hex (hmac_sign secret canonical)).
Proof.
  unfold fingerprint_canonical_contract. case_bool_decide; [naive_solver|].
  destruct (contract_to_vec contract); naive_solver.
Qed.

(** A fingerprint of this code passes the check every stored one must pass: the
    slice of the key identifier is in range, and both parts are lower-case
    hexadecimal of the right length. *)
Lemma fingerprint_validates secret algorithm contract f :
  algorithm ∈ [REQUEST_FINGERPRINT_ALGORITHM; TEXT_INPUT_FINGERPRINT_ALGORITHM;
               POINTER_CLICK_FINGERPRINT_ALGORITHM] →
  fingerprint_canonical_contract secret algorithm contract = Ok f →
  validate_fingerprint f = Ok tt.
Proof.
  intros Ha (_ & canonical & _ & ->)%fingerprint_Ok. apply check_ok.
  cbn [OperationRequestFingerprint.algorithm OperationRequestFingerprint.key_id
       OperationRequestFingerprint.value].
  rewrite bool_decide_true by done. unfold slen.
  rewrite <- length_bytes, bytes_substring, length_take, length_bytes, !length_hex,
    !hmac_sign_length.
  rewrite (hex_lower_digits (hmac_sign secret canonical)) by apply hmac_sign_u8.
  rewrite !orb_false_r. apply negb_false_iff.
  unfold all_bytes. rewrite bytes_substring. apply forallb_forall. intros b Hb.
  pose proof (hex_lower_digits _ (hmac_sign_u8 secret (bytes "cumg-v2-audit-fingerprint-key-id")))
    as Hall.
  unfold all_bytes in Hall. rewrite forallb_forall in Hall. apply Hall.
  rewrite <- list_elem_of_In in Hb |- *.
  apply elem_of_take in Hb as (i & Hi & _). by eapply list_elem_of_lookup_2.
Qed.

(** Two fingerprints of one key and algorithm are always comparable, and equal
    exactly when the keyed tags of their contracts are. *)
Lemma same_key_fingerprints_compare secret algorithm c c' f f' :
  fingerprint_canonical_contract secret algorithm c = Ok f →
  fingerprint_canonical_contract secret algorithm c' = Ok f' →
  compare_request_fingerprint (Some f) (Some f') =
  if bool_decide (hmac_sign secret <$> contract_to_vec c = hmac_sign secret <$> contract_to_vec c')
  then RequestFingerprintComparison.SameRequest
  else RequestFingerprintComparison.DifferentRequest.
Proof.
  intros (_ & b & -> & ->)%fingerprint_Ok (_ & b' & -> & ->)%fingerprint_Ok.
  cbn -[String.substring bytes]. rewrite !bool_decide_true by done. cbn [negb orb].
  case_bool_decide as H1; case_bool_decide as H2; try done; exfalso.
  - apply hex_inj in H1; [|apply hmac_sign_u8..]. cbn in H2. congruence.
  - simplify_eq/=. congruence.
Qed.

Lemma text_envelope_fingerprint secret text target delivery delay_ms e :
  text_envelope (Some secret) text target delivery delay_ms = Ok (Some e) →
  validate_envelope e DeviceCapability.TypeText = Ok tt ∧
  ∃ f, envelope_fingerprint e = Some f ∧
       fingerprint_canonical_contract secret TEXT_INPUT_FINGERPRINT_ALGORITHM
         (Contract.TypeTextPayload text) = Ok f.
Proof.
  unfold text_envelope. intros He.
  destruct (try_into_u32 (slen text)); [|done].
  destruct (try_into_u32 (chars_count text)); [|done].
  destruct (try_into_u32 (split_newline_count text)); [|done].
  destruct (_ || _); [done|]. destruct (fingerprint_canonical_contract _ _ _) as [f|]; [|done].
  destruct (validate_envelope _ _) as [[]|] eqn:Hv; [|done]. injection He as <-.
  split; [exact Hv|]. by exists f.
Qed.

(** C: the text of a typing operation leaves only keyed evidence behind, and an
    operator who holds the key can later tell whether a candidate text is the one
    typed: the stored envelope validates, the comparison is always available, and
    it says [SameRequest] exactly when the keyed tags agree. *)
Theorem typed_text_is_recognised secret command text candidate e f :
  (command = DeviceCommand.TypeText text ∨
   ∃ context_id target delivery delay_ms,
     command = DeviceCommand.TypeTextAdvanced context_id text target delivery delay_ms) →
  text_input_evidence_envelope (Some secret) command = Ok (Some e) →
  fingerprint_text_input_candidate secret candidate = Ok f →
  validate_envelope e DeviceCapability.TypeText = Ok tt ∧
  compare_request_fingerprint (envelope_fingerprint e) (Some f) =
  if bool_decide (hmac_sign secret <$> contract_to_vec (Contract.TypeTextPayload text)
                  = hmac_sign secret <$> contract_to_vec (Contract.TypeTextPayload candidate))
  then RequestFingerprintComparison.SameRequest
  else RequestFingerprintComparison.DifferentRequest.
Proof.
  intros Hc He Hf. unfold fingerprint_text_input_candidate in Hf.
  destruct (is_empty_string candidate); [done|].
  assert (∃ target delivery delay_ms,
    text_envelope (Some secret) text target delivery delay_ms = Ok (Some e))
    as (target & delivery & delay_ms & He')
    by (destruct Hc as [->|(? & ? & ? & ? & ->)]; eauto).
  apply text_envelope_fingerprint in He' as (Hv & g & -> & Hg).
  split; [done|]. by eapply same_key_fingerprints_compare.
Qed.
End FingerprintTheorems.

(** ** Examples *)
Module Examples.
(** An authenticator with the laws of HMAC-SHA-256 output; contracts of a text
    serialise to its bytes. *)
Definition toy_hmac : AuditHmac := {|
  hmac_sign := λ k m, ToyCrypto.digest (k ++ m);
  contract_to_vec := λ c,
    match c with Contract.TypeTextPayload text => Some (bytes text) | _ => Some [] end
|}.

Lemma toy_hmac_laws : @AuditHmacLaws toy_hmac.
Proof.
  split.
  - intros k m. apply ToyCrypto.digest_length.
  - intros k m. apply ToyCrypto.digest_u8.
Qed.

#[local] Existing Instance toy_hmac.

Definition typed_envelope : OperationEvidenceEnvelope :=
  OperationEvidenceEnvelope.TextInput 1
    (Some (OperationRequestFingerprint.mk TEXT_INPUT_FINGERPRINT_ALGORITHM
       (String.substring 0 16 (hex (hmac_sign [7%N] (bytes "cumg-v2-audit-fingerprint-key-id"))))
       (hex (hmac_sign [7%N] (bytes "hello")))))%N
    5 5 1 false false TextInputTargetEvidence.Unspecified None None.

Definition candidate_fingerprint : OperationRequestFingerprint :=
  OperationRequestFingerprint.mk TEXT_INPUT_FINGERPRINT_ALGORITHM
    (String.substring 0 16 (hex (hmac_sign [7%N] (bytes "cumg-v2-audit-fingerprint-key-id"))))
    (hex (hmac_sign [7%N] (bytes "help")))%N.

Lemma typed_text_is_recognised_witness :
  validate_envelope typed_envelope DeviceCapability.TypeText = Ok tt ∧
  compare_request_fingerprint (envelope_fingerprint typed_envelope) (Some candidate_fingerprint) =
  RequestFingerprintComparison.DifferentRequest.
Proof.
  exact (@typed_text_is_recognised toy_hmac toy_hmac_laws [7%N]
           (DeviceCommand.TypeText "hello") "hello" "help" typed_envelope candidate_fingerprint
           (or_introl eq_refl) ltac:(by_eval) ltac:(by_eval)).
Defined.
End Examples.
