(* ===== verification/Transport.v ===== *)
(** * The authenticated Hub-Agent session

    [src/src/v2_m0_transport.rs]: the handshake that binds a session to both
    nonces and both keys, the signed messages of a session and their
    verification, and the bounded framing. A transcript is signed as JSON; the
    JSON of the types of this file is written out, [serde_json] itself is a
    class, and the values of types of other files are leaves of the JSON. *)

From S2P Require Import Prelude Vocabulary Protocol Crypto Wire Registry Grants Admission.
From S2P Require Import SafetyTypes Recovery Evidence.

Definition HUB_AGENT_SCHEMA_VERSION : N := 6.
Definition MAX_FRAME_BYTES : N := 64 * 1024.
Definition MAX_HANDOFF_CONTROL_BYTES : N := 4 * 1024.
Definition MAX_AGENT_TERMINAL_EVIDENCE_ENTRIES : N := 64.

(** ** Messages *)

Module AgentHello.
Record AgentHello := mk {
  schema_version : N;
  device_id : string;
  agent_nonce : list N;
  capabilities : CapabilityAdvertisement
}.
End AgentHello.
Abbreviation AgentHello := AgentHello.AgentHello.

Module HubChallenge.
Record HubChallenge := mk {
  schema_version : N;
  agent_nonce : list N;
  hub_nonce : list N;
  hub_public_key : list N;
  signature : list N
}.
End HubChallenge.
Abbreviation HubChallenge := HubChallenge.HubChallenge.

Module AgentProof.
Record AgentProof := mk {
  schema_version : N;
  device_id : string;
  agent_nonce : list N;
  hub_nonce : list N;
  signature : list N
}.
End AgentProof.
Abbreviation AgentProof := AgentProof.AgentProof.

Module SessionAccepted.
Record SessionAccepted := mk {
  schema_version : N;
  device_id : string;
  device_generation : N;
  capability_revision : N;
  hub_time_ms : N;
  signature : list N
}.
End SessionAccepted.
Abbreviation SessionAccepted := SessionAccepted.SessionAccepted.

Module RemoteHandoffExactWindow.
Record RemoteHandoffExactWindow := mk {
  context_binding : string;
  process_id : N;
  window_id : N
}.
End RemoteHandoffExactWindow.
Abbreviation RemoteHandoffExactWindow := RemoteHandoffExactWindow.RemoteHandoffExactWindow.

Module RemoteHandoffSurfaceBinding.
Inductive RemoteHandoffSurfaceBinding := OsWindow (window : RemoteHandoffExactWindow).
End RemoteHandoffSurfaceBinding.
Abbreviation RemoteHandoffSurfaceBinding := RemoteHandoffSurfaceBinding.RemoteHandoffSurfaceBinding.

Module RemoteHandoffAuthority.
Record RemoteHandoffAuthority := mk {
  principal_binding : string;
  device_binding : string;
  generation : N;
  capability_revision : N;
  surface : option RemoteHandoffSurfaceBinding;
  verification_candidate : bool
}.
End RemoteHandoffAuthority.
Abbreviation RemoteHandoffAuthority := RemoteHandoffAuthority.RemoteHandoffAuthority.

Module RemoteCommand.
Record RemoteCommand := mk {
  schema_version : N;
  command : CommandEnvelope;
  grant : GrantToken;
  handoff : option RemoteHandoffAuthority;
  signature : list N
}.
End RemoteCommand.
Abbreviation RemoteCommand := RemoteCommand.RemoteCommand.

Module RemoteResult.
Record RemoteResult := mk {
  schema_version : N;
  device_result : CommandResultEnvelope;
  signature : list N
}.
End RemoteResult.
Abbreviation RemoteResult := RemoteResult.RemoteResult.

Module RemoteReconciliationReport.
Record RemoteReconciliationReport := mk {
  schema_version : N;
  device_id : string;
  reporting_generation : N;
  terminal_evidence : list AgentTerminalEvidence;
  signature : list N
}.
End RemoteReconciliationReport.
Abbreviation RemoteReconciliationReport := RemoteReconciliationReport.RemoteReconciliationReport.

Module RemoteCancel.
Record RemoteCancel := mk {
  schema_version : N;
  device_id : string;
  device_generation : N;
  operation_id : string;
  signature : list N
}.
End RemoteCancel.
Abbreviation RemoteCancel := RemoteCancel.RemoteCancel.

Module RemoteBackendSessionEnd.
Record RemoteBackendSessionEnd := mk {
  schema_version : N;
  device_id : string;
  device_generation : N;
  context_id : string;
  signature : list N
}.
End RemoteBackendSessionEnd.
Abbreviation RemoteBackendSessionEnd := RemoteBackendSessionEnd.RemoteBackendSessionEnd.

Module RemoteBackendSessionEnded.
Record RemoteBackendSessionEnded := mk {
  schema_version : N;
  device_id : string;
  device_generation : N;
  context_id : string;
  ended : bool;
  signature : list N
}.
End RemoteBackendSessionEnded.
Abbreviation RemoteBackendSessionEnded := RemoteBackendSessionEnded.RemoteBackendSessionEnded.

Module RemoteHandoffOperatorCommand.
Inductive RemoteHandoffOperatorCommand :=
| Status
| Begin
| RecoverReissue
| RecoverRebind (prior_context_id : string) (prior_generation prior_capability_revision : option N)
| RebindLive
| AbandonExpiredRecovery (expected_epoch : N)
| RequestResume
| CancelBeforeHuman.
End RemoteHandoffOperatorCommand.
Abbreviation RemoteHandoffOperatorCommand :=
  RemoteHandoffOperatorCommand.RemoteHandoffOperatorCommand.

Module RemoteHandoffRequestKind.
Inductive RemoteHandoffRequestKind :=
| Admission (authority : RemoteHandoffAuthority)
| Operator (command : RemoteHandoffOperatorCommand) (authority : option RemoteHandoffAuthority).
End RemoteHandoffRequestKind.
Abbreviation RemoteHandoffRequestKind := RemoteHandoffRequestKind.RemoteHandoffRequestKind.

Definition requires_agent_idle (r : RemoteHandoffRequestKind) : bool :=
  match r with
  | RemoteHandoffRequestKind.Admission _
  | RemoteHandoffRequestKind.Operator RemoteHandoffOperatorCommand.Status _ => false
  | _ => true
  end.

Definition starts_human_control (r : RemoteHandoffRequestKind) : bool :=
  match r with
  | RemoteHandoffRequestKind.Operator RemoteHandoffOperatorCommand.Begin _ => true
  | _ => false
  end.

Module RemoteHandoffRequest.
Record RemoteHandoffRequest := mk {
  schema_version : N;
  device_id : string;
  device_generation : N;
  request_id : string;
  request : RemoteHandoffRequestKind;
  signature : list N
}.
End RemoteHandoffRequest.
Abbreviation RemoteHandoffRequest := RemoteHandoffRequest.RemoteHandoffRequest.

Module RemoteHandoffAdmissionDecision.
Inductive RemoteHandoffAdmissionDecision :=
| Allow
| Deny
| Verification (intervention_id : string) (epoch : N).
End RemoteHandoffAdmissionDecision.
Abbreviation RemoteHandoffAdmissionDecision :=
  RemoteHandoffAdmissionDecision.RemoteHandoffAdmissionDecision.

Module RemoteHandoffErrorCode.
Inductive RemoteHandoffErrorCode :=
| Unsupported | Unavailable | Rejected | Protocol | SessionFenceMismatch | InvalidRequest.
End RemoteHandoffErrorCode.
Abbreviation RemoteHandoffErrorCode := RemoteHandoffErrorCode.RemoteHandoffErrorCode.

(** From [src/src/v2_operator_handoff.rs]. *)
Module HandoffInterventionStatus.
Inductive HandoffInterventionStatus := AwaitingHuman | HumanActive | Verifying | ReadyToResume.
End HandoffInterventionStatus.
Abbreviation HandoffInterventionStatus := HandoffInterventionStatus.HandoffInterventionStatus.

Module HandoffExecutionAuthority.
Inductive HandoffExecutionAuthority := Human | NoAuthority.
End HandoffExecutionAuthority.
Abbreviation HandoffExecutionAuthority := HandoffExecutionAuthority.HandoffExecutionAuthority.

Module HandoffSurfaceKind.
Inductive HandoffSurfaceKind := Native | Webrtc.
End HandoffSurfaceKind.
Abbreviation HandoffSurfaceKind := HandoffSurfaceKind.HandoffSurfaceKind.

Module HandoffActiveStatus.
Record HandoffActiveStatus := mk {
  intervention_id : string;
  status : HandoffInterventionStatus;
  epoch : N;
  authority : HandoffExecutionAuthority
}.
End HandoffActiveStatus.
Abbreviation HandoffActiveStatus := HandoffActiveStatus.HandoffActiveStatus.

Module RemoteHandoffStatus.
Record RemoteHandoffStatus := mk {
  active : option HandoffActiveStatus;
  recovery_required : bool;
  recovery_status : option HandoffInterventionStatus;
  recovery_epoch : option N;
  recovery_expired : bool;
  resume_requested : bool;
  faulted : bool;
  human_surface : option HandoffSurfaceKind
}.
End RemoteHandoffStatus.
Abbreviation RemoteHandoffStatus := RemoteHandoffStatus.RemoteHandoffStatus.

Module RemoteHandoffResponseKind.
Inductive RemoteHandoffResponseKind :=
| Admission (decision : RemoteHandoffAdmissionDecision)
| Status (status : RemoteHandoffStatus)
| Operator (status : RemoteHandoffStatus) (locator : option string)
| Rejected (code : RemoteHandoffErrorCode).
End RemoteHandoffResponseKind.
Abbreviation RemoteHandoffResponseKind := RemoteHandoffResponseKind.RemoteHandoffResponseKind.

Module RemoteHandoffResponse.
Record RemoteHandoffResponse := mk {
  schema_version : N;
  device_id : string;
  device_generation : N;
  request_id : string;
  response : RemoteHandoffResponseKind;
  signature : list N
}.
End RemoteHandoffResponse.
Abbreviation RemoteHandoffResponse := RemoteHandoffResponse.RemoteHandoffResponse.

Module CancellationDisposition.
Inductive CancellationDisposition :=
| CancelledBeforeExecution | CancellationRequested | IndeterminateAfterPropagation
| AlreadyTerminal.
End CancellationDisposition.
Abbreviation CancellationDisposition := CancellationDisposition.CancellationDisposition.

Module RemoteCancellationAck.
Record RemoteCancellationAck := mk {
  schema_version : N;
  device_id : string;
  device_generation : N;
  operation_id : string;
  disposition : CancellationDisposition;
  signature : list N
}.
End RemoteCancellationAck.
Abbreviation RemoteCancellationAck := RemoteCancellationAck.RemoteCancellationAck.

Module RemoteIndeterminateCause.
Inductive RemoteIndeterminateCause := BackendTimedOut.
End RemoteIndeterminateCause.
Abbreviation RemoteIndeterminateCause := RemoteIndeterminateCause.RemoteIndeterminateCause.

Module RemoteIndeterminateAck.
Record RemoteIndeterminateAck := mk {
  schema_version : N;
  device_id : string;
  device_generation : N;
  operation_id : string;
  cause : RemoteIndeterminateCause;
  signature : list N
}.
End RemoteIndeterminateAck.
Abbreviation RemoteIndeterminateAck := RemoteIndeterminateAck.RemoteIndeterminateAck.

Module AgentHeartbeat.
Record AgentHeartbeat := mk {
  schema_version : N;
  device_id : string;
  device_generation : N;
  sequence : N;
  signature : list N
}.
End AgentHeartbeat.
Abbreviation AgentHeartbeat := AgentHeartbeat.AgentHeartbeat.

Module HubHeartbeatAck.
Record HubHeartbeatAck := mk {
  schema_version : N;
  device_id : string;
  device_generation : N;
  sequence : N;
  hub_time_ms : N;
  signature : list N
}.
End HubHeartbeatAck.
Abbreviation HubHeartbeatAck := HubHeartbeatAck.HubHeartbeatAck.

Module AgentToHub.
Inductive AgentToHub :=
| Hello (m : AgentHello)
| Proof (m : AgentProof)
| Result (m : RemoteResult)
| ReconciliationReport (m : RemoteReconciliationReport)
| CancellationAck (m : RemoteCancellationAck)
| IndeterminateAck (m : RemoteIndeterminateAck)
| BackendSessionEnded (m : RemoteBackendSessionEnded)
| RecoveryAuthorization (m : RecoveryAuthorization)
| HandoffResponse (m : RemoteHandoffResponse)
| Heartbeat (m : AgentHeartbeat).
End AgentToHub.
Abbreviation AgentToHub := AgentToHub.AgentToHub.

Module HubToAgent.
Inductive HubToAgent :=
| Challenge (m : HubChallenge)
| Accepted (m : SessionAccepted)
| Command (m : RemoteCommand)
| Cancel (m : RemoteCancel)
| BackendSessionEnd (m : RemoteBackendSessionEnd)
| RecoveryChallenge (m : RecoveryChallenge)
| RecoveryResolved (m : RecoveryResolved)
| HandoffRequest (m : RemoteHandoffRequest)
| HeartbeatAck (m : HubHeartbeatAck).
End HubToAgent.
Abbreviation HubToAgent := HubToAgent.HubToAgent.

Module TransportError.
Inductive TransportError :=
| Io
| Serialization
| FrameTooLarge (size : N)
| UnsupportedSchema (got : N)
| HubKeyMismatch
| InvalidReconciliationReport
| InvalidHandoffControl
| InvalidHubSignature
| HandshakeMismatch
| Control (e : ControlError).
End TransportError.
Abbreviation TransportError := TransportError.TransportError.

(** ** JSON *)

(** A value of a type of another file, as its derived serialisation writes it. *)
Inductive Payload :=
| PCapabilities (a : CapabilityAdvertisement)
| PCommand (c : CommandEnvelope)
| PGrant (g : GrantToken)
| PResult (r : CommandResultEnvelope)
| PEvidence (e : AgentTerminalEvidence).

#[local] Set Warnings "-register-all".
Inductive Json :=
| JNull
| JBool (b : bool)
| JNum (n : N)
| JStr (s : string)
| JArr (l : list Json)
| JObj (fields : list (string * Json))
| JDerived (p : Payload).

(** [serde_json::to_vec] *)
Class WireJson := json_to_vec : Json → option (list N).

(** Values whose keys are strings always serialise. *)
Class WireJsonTotal `{WireJson} : Prop := json_to_vec_total : ∀ j, is_Some (json_to_vec j).

Definition json_capabilities (a : CapabilityAdvertisement) : Json := JDerived (PCapabilities a).
Definition json_command (c : CommandEnvelope) : Json := JDerived (PCommand c).
Definition json_grant (g : GrantToken) : Json := JDerived (PGrant g).
Definition json_result (r : CommandResultEnvelope) : Json := JDerived (PResult r).
Definition json_evidence (e : AgentTerminalEvidence) : Json := JDerived (PEvidence e).

Definition json_bytes (l : list N) : Json := JArr (JNum <$> l).
Definition json_option {A} (f : A → Json) (o : option A) : Json :=
  match o with Some a => f a | None => JNull end.

Definition json_window (w : RemoteHandoffExactWindow) : Json :=
  JObj [("context_binding", JStr w.(RemoteHandoffExactWindow.context_binding));
        ("process_id", JNum w.(RemoteHandoffExactWindow.process_id));
        ("window_id", JNum w.(RemoteHandoffExactWindow.window_id))].

Definition json_surface (s : RemoteHandoffSurfaceBinding) : Json :=
  match s with
  | RemoteHandoffSurfaceBinding.OsWindow w =>
      JObj [("kind", JStr "os_window"); ("binding", json_window w)]
  end.

Definition json_authority (a : RemoteHandoffAuthority) : Json :=
  JObj [("principal_binding", JStr a.(RemoteHandoffAuthority.principal_binding));
        ("device_binding", JStr a.(RemoteHandoffAuthority.device_binding));
        ("generation", JNum a.(RemoteHandoffAuthority.generation));
        ("capability_revision", JNum a.(RemoteHandoffAuthority.capability_revision));
        ("surface", json_option json_surface a.(RemoteHandoffAuthority.surface));
        ("verification_candidate", JBool a.(RemoteHandoffAuthority.verification_candidate))].

Definition json_operator_command (c : RemoteHandoffOperatorCommand) : Json :=
  match c with
  | RemoteHandoffOperatorCommand.Status => JObj [("command", JStr "status")]
  | RemoteHandoffOperatorCommand.Begin => JObj [("command", JStr "begin")]
  | RemoteHandoffOperatorCommand.RecoverReissue => JObj [("command", JStr "recover_reissue")]
  | RemoteHandoffOperatorCommand.RecoverRebind context generation revision =>
      JObj [("command", JStr "recover_rebind"); ("prior_context_id", JStr context);
            ("prior_generation", json_option JNum generation);
            ("prior_capability_revision", json_option JNum revision)]
  | RemoteHandoffOperatorCommand.RebindLive => JObj [("command", JStr "rebind_live")]
  | RemoteHandoffOperatorCommand.AbandonExpiredRecovery epoch =>
      JObj [("command", JStr "abandon_expired_recovery"); ("expected_epoch", JNum epoch)]
  | RemoteHandoffOperatorCommand.RequestResume => JObj [("command", JStr "request_resume")]
  | RemoteHandoffOperatorCommand.CancelBeforeHuman => JObj [("command", JStr "cancel_before_human")]
  end.

Definition json_request (r : RemoteHandoffRequestKind) : Json :=
  match r with
  | RemoteHandoffRequestKind.Admission authority =>
      JObj [("type", JStr "admission"); ("authority", json_authority authority)]
  | RemoteHandoffRequestKind.Operator command authority =>
      JObj [("type", JStr "operator"); ("command", json_operator_command command);
            ("authority", json_option json_authority authority)]
  end.

Definition json_decision (d : RemoteHandoffAdmissionDecision) : Json :=
  match d with
  | RemoteHandoffAdmissionDecision.Allow => JObj [("decision", JStr "allow")]
  | RemoteHandoffAdmissionDecision.Deny => JObj [("decision", JStr "deny")]
  | RemoteHandoffAdmissionDecision.Verification id epoch =>
      JObj [("decision", JStr "verification"); ("intervention_id", JStr id); ("epoch", JNum epoch)]
  end.

Definition json_intervention (s : HandoffInterventionStatus) : Json :=
  JStr match s with
       | HandoffInterventionStatus.AwaitingHuman => "awaiting_human"
       | HandoffInterventionStatus.HumanActive => "human_active"
       | HandoffInterventionStatus.Verifying => "verifying"
       | HandoffInterventionStatus.ReadyToResume => "ready_to_resume"
       end.

Definition json_active (a : HandoffActiveStatus) : Json :=
  JObj [("intervention_id", JStr a.(HandoffActiveStatus.intervention_id));
        ("status", json_intervention a.(HandoffActiveStatus.status));
        ("epoch", JNum a.(HandoffActiveStatus.epoch));
        ("authority", JStr match a.(HandoffActiveStatus.authority) with
                           | HandoffExecutionAuthority.Human => "human"
                           | HandoffExecutionAuthority.NoAuthority => "none"
                           end)].

Definition json_status (s : RemoteHandoffStatus) : Json :=
  JObj [("active", json_option json_active s.(RemoteHandoffStatus.active));
        ("recovery_required", JBool s.(RemoteHandoffStatus.recovery_required));
        ("recovery_status", json_option json_intervention s.(RemoteHandoffStatus.recovery_status));
        ("recovery_epoch", json_option JNum s.(RemoteHandoffStatus.recovery_epoch));
        ("recovery_expired", JBool s.(RemoteHandoffStatus.recovery_expired));
        ("resume_requested", JBool s.(RemoteHandoffStatus.resume_requested));
        ("faulted", JBool s.(RemoteHandoffStatus.faulted));
        ("human_surface", json_option (λ k, JStr match k with
                                                 | HandoffSurfaceKind.Native => "native"
                                                 | HandoffSurfaceKind.Webrtc => "webrtc"
                                                 end) s.(RemoteHandoffStatus.human_surface))].

Definition json_error_code (c : RemoteHandoffErrorCode) : Json :=
  JStr match c with
       | RemoteHandoffErrorCode.Unsupported => "unsupported"
       | RemoteHandoffErrorCode.Unavailable => "unavailable"
       | RemoteHandoffErrorCode.Rejected => "rejected"
       | RemoteHandoffErrorCode.Protocol => "protocol"
       | RemoteHandoffErrorCode.SessionFenceMismatch => "session_fence_mismatch"
       | RemoteHandoffErrorCode.InvalidRequest => "invalid_request"
       end.

Definition json_response (r : RemoteHandoffResponseKind) : Json :=
  match r with
  | RemoteHandoffResponseKind.Admission decision =>
      JObj [("type", JStr "admission"); ("decision", json_decision decision)]
  | RemoteHandoffResponseKind.Status status =>
      JObj [("type", JStr "status"); ("status", json_status status)]
  | RemoteHandoffResponseKind.Operator status locator =>
      JObj [("type", JStr "operator"); ("status", json_status status);
            ("locator", json_option JStr locator)]
  | RemoteHandoffResponseKind.Rejected code =>
      JObj [("type", JStr "rejected"); ("code", json_error_code code)]
  end.

Definition json_disposition (d : CancellationDisposition) : Json :=
  JStr match d with
       | CancellationDisposition.CancelledBeforeExecution => "cancelled_before_execution"
       | CancellationDisposition.CancellationRequested => "cancellation_requested"
       | CancellationDisposition.IndeterminateAfterPropagation => "indeterminate_after_propagation"
       | CancellationDisposition.AlreadyTerminal => "already_terminal"
       end.

Definition json_cause (c : RemoteIndeterminateCause) : Json :=
  JStr match c with RemoteIndeterminateCause.BackendTimedOut => "backend_timed_out" end.

Definition json_hello (h : AgentHello) : Json :=
  JObj [("schema_version", JNum h.(AgentHello.schema_version));
        ("device_id", JStr h.(AgentHello.device_id));
        ("agent_nonce", json_bytes h.(AgentHello.agent_nonce));
        ("capabilities", json_capabilities h.(AgentHello.capabilities))].

Module Transport.
Import TransportError.

Definition validate_wire_schema (got : N) : result TransportError unit :=
  if (got =? HUB_AGENT_SCHEMA_VERSION)%N then Ok tt else Err (UnsupportedSchema got).

Definition validate_handoff_request_id (value : string) : result TransportError unit :=
  if is_empty_string value || (128 <? slen value)%N
     || negb (all_bytes (λ b, is_ascii_alphanumeric b || (b =? 45)%N || (b =? 95)%N) value)
  then Err InvalidHandoffControl else Ok tt.

(** ** Transcripts *)

Section Transcripts.
Context `{WJ : WireJson}.

Definition to_vec (j : Json) : result TransportError (list N) :=
  let_some b := json_to_vec j else Err Serialization ;; Ok b.

Definition validate_handoff_payload (j : Json) : result TransportError unit :=
  let_ok encoded := to_vec j else e => Err e ;;
  if (MAX_HANDOFF_CONTROL_BYTES <? vlen encoded)%N then Err InvalidHandoffControl else Ok tt.

(** The three transcripts of the handshake start with the Agent's hello. *)
Definition hello_transcript (domain : string) (hello : AgentHello) (hub_nonce : list N)
    (rest : list (string * Json)) : Json :=
  JObj (("domain", JStr domain) :: ("schema_version", JNum HUB_AGENT_SCHEMA_VERSION)
        :: ("hello", json_hello hello) :: ("hub_nonce", json_bytes hub_nonce) :: rest).

(** The transcripts of a session start with the device and both nonces. *)
Definition session_transcript (domain device_id : string) (agent_nonce hub_nonce : list N)
    (rest : list (string * Json)) : Json :=
  JObj (("domain", JStr domain) :: ("schema_version", JNum HUB_AGENT_SCHEMA_VERSION)
        :: ("device_id", JStr device_id) :: ("agent_nonce", json_bytes agent_nonce)
        :: ("hub_nonce", json_bytes hub_nonce) :: rest).

Definition hub_challenge_bytes (hello : AgentHello) (hub_nonce hub_public_key : list N) :=
  to_vec (hello_transcript "cumg-v2-m0-hub-challenge" hello hub_nonce
    [("hub_public_key", json_bytes hub_public_key)]).

Definition agent_proof_bytes (hello : AgentHello) (challenge : HubChallenge) :=
  to_vec (hello_transcript "cumg-v2-m0-agent-proof" hello challenge.(HubChallenge.hub_nonce)
    [("hub_public_key", json_bytes challenge.(HubChallenge.hub_public_key))]).

Definition session_accepted_bytes (hello : AgentHello) (challenge : HubChallenge)
    (accepted : SessionAccepted) :=
  to_vec (hello_transcript "cumg-v2-m0-session-accepted" hello challenge.(HubChallenge.hub_nonce)
    [("device_generation", JNum accepted.(SessionAccepted.device_generation));
     ("capability_revision", JNum accepted.(SessionAccepted.capability_revision));
     ("hub_time_ms", JNum accepted.(SessionAccepted.hub_time_ms))]).

Variables (hello : AgentHello) (challenge : HubChallenge).

Definition in_session (domain device_id : string) (rest : list (string * Json))
    : result TransportError (list N) :=
  to_vec (session_transcript domain device_id hello.(AgentHello.agent_nonce)
    challenge.(HubChallenge.hub_nonce) rest).

Definition remote_command_bytes (remote : RemoteCommand) :=
  in_session "cumg-v2-m0-remote-command" hello.(AgentHello.device_id)
    [("command", json_command remote.(RemoteCommand.command));
     ("grant", json_grant remote.(RemoteCommand.grant));
     ("handoff", json_option json_authority remote.(RemoteCommand.handoff))].

Definition agent_heartbeat_bytes (h : AgentHeartbeat) :=
  in_session "cumg-v2-m1-agent-heartbeat" h.(AgentHeartbeat.device_id)
    [("device_generation", JNum h.(AgentHeartbeat.device_generation));
     ("sequence", JNum h.(AgentHeartbeat.sequence))].

Definition hub_heartbeat_ack_bytes (ack : HubHeartbeatAck) :=
  in_session "cumg-v2-m1-hub-heartbeat-ack" ack.(HubHeartbeatAck.device_id)
    [("device_generation", JNum ack.(HubHeartbeatAck.device_generation));
     ("sequence", JNum ack.(HubHeartbeatAck.sequence));
     ("hub_time_ms", JNum ack.(HubHeartbeatAck.hub_time_ms))].

Definition remote_handoff_request_bytes (remote : RemoteHandoffRequest) :=
  in_session "cumg-v2-handoff-request-v1" remote.(RemoteHandoffRequest.device_id)
    [("device_generation", JNum remote.(RemoteHandoffRequest.device_generation));
     ("request_id", JStr remote.(RemoteHandoffRequest.request_id));
     ("request", json_request remote.(RemoteHandoffRequest.request))].

Definition remote_handoff_response_bytes (remote : RemoteHandoffResponse) :=
  in_session "cumg-v2-handoff-response-v1" remote.(RemoteHandoffResponse.device_id)
    [("device_generation", JNum remote.(RemoteHandoffResponse.device_generation));
     ("request_id", JStr remote.(RemoteHandoffResponse.request_id));
     ("response", json_response remote.(RemoteHandoffResponse.response))].

Definition remote_backend_session_end_bytes (remote : RemoteBackendSessionEnd) :=
  in_session "cumg-v2-m1-backend-session-end" remote.(RemoteBackendSessionEnd.device_id)
    [("device_generation", JNum remote.(RemoteBackendSessionEnd.device_generation));
     ("context_id", JStr remote.(RemoteBackendSessionEnd.context_id))].

Definition remote_backend_session_ended_bytes (ack : RemoteBackendSessionEnded) :=
  in_session "cumg-v2-m1-backend-session-ended" ack.(RemoteBackendSessionEnded.device_id)
    [("device_generation", JNum ack.(RemoteBackendSessionEnded.device_generation));
     ("context_id", JStr ack.(RemoteBackendSessionEnded.context_id));
     ("ended", JBool ack.(RemoteBackendSessionEnded.ended))].

Definition remote_cancel_bytes (remote : RemoteCancel) :=
  in_session "cumg-v2-m0-remote-cancel" remote.(RemoteCancel.device_id)
    [("device_generation", JNum remote.(RemoteCancel.device_generation));
     ("operation_id", JStr remote.(RemoteCancel.operation_id))].

Definition remote_cancellation_ack_bytes (ack : RemoteCancellationAck) :=
  in_session "cumg-v2-m0-remote-cancellation-ack" ack.(RemoteCancellationAck.device_id)
    [("device_generation", JNum ack.(RemoteCancellationAck.device_generation));
     ("operation_id", JStr ack.(RemoteCancellationAck.operation_id));
     ("disposition", json_disposition ack.(RemoteCancellationAck.disposition))].

Definition remote_indeterminate_ack_bytes (ack : RemoteIndeterminateAck) :=
  in_session "cumg-v2-m1-remote-indeterminate-ack-v1" ack.(RemoteIndeterminateAck.device_id)
    [("device_generation", JNum ack.(RemoteIndeterminateAck.device_generation));
     ("operation_id", JStr ack.(RemoteIndeterminateAck.operation_id));
     ("cause", json_cause ack.(RemoteIndeterminateAck.cause))].

Definition remote_reconciliation_report_bytes (remote : RemoteReconciliationReport) :=
  in_session "cumg-v2-m1-reconciliation-report-v1" remote.(RemoteReconciliationReport.device_id)
    [("reporting_generation", JNum remote.(RemoteReconciliationReport.reporting_generation));
     ("terminal_evidence",
      JArr (json_evidence <$> remote.(RemoteReconciliationReport.terminal_evidence)))].

Definition remote_result_bytes (remote : RemoteResult) :=
  in_session "cumg-v2-m0-remote-result" hello.(AgentHello.device_id)
    [("result", json_result remote.(RemoteResult.device_result))].
End Transcripts.

(** ** Building and verifying *)

Section Messages.
Context `{WJ : WireJson} `{ED : Ed25519}.

(** [serde_json] bytes signed into a message that is built up to its signature. *)
Definition sign_into {M} (key : SigningKey) (transcript : result TransportError (list N))
    (message : list N → M) : result TransportError M :=
  let_ok b := transcript else e => Err e ;; Ok (message (sk_sign key b)).

Definition verify_hub (trusted_hub : VerifyingKey) (signature : list N)
    (transcript : result TransportError (list N)) : result TransportError unit :=
  let_some signature := try_into_array 64 signature else Err InvalidHubSignature ;;
  let_ok b := transcript else e => Err e ;;
  if vk_verify trusted_hub b signature then Ok tt else Err InvalidHubSignature.

Definition verify_device (registry : DeviceRegistry.DeviceRegistry) (device_id : string)
    (transcript : result TransportError (list N)) (signature : list N)
    : result TransportError unit :=
  let_ok b := transcript else e => Err e ;;
  match DeviceRegistry.verify_device_signature registry device_id b signature with
  | Ok _ => Ok tt
  | Err e => Err (Control e)
  end.

(** *** Handshake *)

(** [agent_nonce] is what [OsRng] fills in. *)
Definition new_hello (device_id : string) (capabilities : CapabilityAdvertisement)
    (agent_nonce : list N) : AgentHello :=
  AgentHello.mk HUB_AGENT_SCHEMA_VERSION device_id agent_nonce capabilities.

Definition public_key (hub : SigningKey) : list N := vk_to_bytes (sk_verifying_key hub).

Definition hub_challenge (hub : SigningKey) (hello : AgentHello) (hub_nonce : list N)
    : result TransportError HubChallenge :=
  let_ok _ := validate_wire_schema hello.(AgentHello.schema_version) else e => Err e ;;
  sign_into hub (hub_challenge_bytes hello hub_nonce (public_key hub))
    (HubChallenge.mk HUB_AGENT_SCHEMA_VERSION hello.(AgentHello.agent_nonce) hub_nonce
       (public_key hub)).

Definition verify_hub_challenge (hello : AgentHello) (challenge : HubChallenge)
    (trusted_hub : VerifyingKey) : result TransportError unit :=
  let_ok _ := validate_wire_schema hello.(AgentHello.schema_version) else e => Err e ;;
  let_ok _ := validate_wire_schema challenge.(HubChallenge.schema_version) else e => Err e ;;
  return_if negb (bool_decide (challenge.(HubChallenge.agent_nonce)
                               = hello.(AgentHello.agent_nonce)))
    with Err HandshakeMismatch ;;
  return_if negb (bool_decide (challenge.(HubChallenge.hub_public_key)
                               = vk_to_bytes trusted_hub))
    with Err HubKeyMismatch ;;
  verify_hub trusted_hub challenge.(HubChallenge.signature)
    (hub_challenge_bytes hello challenge.(HubChallenge.hub_nonce)
       challenge.(HubChallenge.hub_public_key)).

Definition build_agent_proof (identity : SigningKey) (hello : AgentHello)
    (challenge : HubChallenge) : result TransportError AgentProof :=
  let_ok _ := validate_wire_schema hello.(AgentHello.schema_version) else e => Err e ;;
  let_ok _ := validate_wire_schema challenge.(HubChallenge.schema_version) else e => Err e ;;
  return_if negb (bool_decide (challenge.(HubChallenge.agent_nonce)
                               = hello.(AgentHello.agent_nonce)))
    with Err HandshakeMismatch ;;
  sign_into identity (agent_proof_bytes hello challenge)
    (AgentProof.mk HUB_AGENT_SCHEMA_VERSION hello.(AgentHello.device_id)
       hello.(AgentHello.agent_nonce) challenge.(HubChallenge.hub_nonce)).

Definition verify_agent_proof (registry : DeviceRegistry.DeviceRegistry) (hello : AgentHello)
    (challenge : HubChallenge) (proof : AgentProof) : result TransportError unit :=
  let_ok _ := validate_wire_schema proof.(AgentProof.schema_version) else e => Err e ;;
  return_if negb (bool_decide (proof.(AgentProof.device_id) = hello.(AgentHello.device_id)))
            || negb (bool_decide (proof.(AgentProof.agent_nonce)
                                  = hello.(AgentHello.agent_nonce)))
            || negb (bool_decide (proof.(AgentProof.hub_nonce)
                                  = challenge.(HubChallenge.hub_nonce)))
    with Err HandshakeMismatch ;;
  verify_device registry hello.(AgentHello.device_id) (agent_proof_bytes hello challenge)
    proof.(AgentProof.signature).

Definition accept_session (hub : SigningKey) (hello : AgentHello) (challenge : HubChallenge)
    (device_generation capability_revision hub_time_ms : N)
    : result TransportError SessionAccepted :=
  let accepted := SessionAccepted.mk HUB_AGENT_SCHEMA_VERSION hello.(AgentHello.device_id)
    device_generation capability_revision hub_time_ms in
  sign_into hub (session_accepted_bytes hello challenge (accepted [])) accepted.

Definition verify_session_accepted (hello : AgentHello) (challenge : HubChallenge)
    (accepted : SessionAccepted) (trusted_hub : VerifyingKey) : result TransportError unit :=
  let_ok _ := validate_wire_schema accepted.(SessionAccepted.schema_version) else e => Err e ;;
  return_if negb (bool_decide (accepted.(SessionAccepted.device_id)
                               = hello.(AgentHello.device_id)))
    with Err HandshakeMismatch ;;
  verify_hub trusted_hub accepted.(SessionAccepted.signature)
    (session_accepted_bytes hello challenge accepted).

(** [TrustedSessionClock::now_ms]; [elapsed_ms] is a [u128]. *)
Definition session_now_ms (hub_time_ms elapsed_ms : N) : N :=
  saturating_add hub_time_ms (if (elapsed_ms <=? u64_max)%N then elapsed_ms else u64_max).

(** *** Messages of the Hub *)

Variables (hello : AgentHello) (challenge : HubChallenge).

Definition remote_command_with_handoff (hub : SigningKey) (command : CommandEnvelope)
    (grant : GrantToken) (handoff : option RemoteHandoffAuthority)
    : result TransportError RemoteCommand :=
  let_ok _ := match handoff with
              | Some authority => validate_handoff_payload (json_authority authority)
              | None => Ok tt
              end else e => Err e ;;
  let remote := RemoteCommand.mk HUB_AGENT_SCHEMA_VERSION command grant handoff in
  sign_into hub (remote_command_bytes hello challenge (remote [])) remote.

Definition remote_command (hub : SigningKey) (command : CommandEnvelope) (grant : GrantToken)
    : result TransportError RemoteCommand :=
  remote_command_with_handoff hub command grant None.

Definition verify_remote_command (remote : RemoteCommand) (trusted_hub : VerifyingKey)
    : result TransportError unit :=
  let_ok _ := validate_wire_schema remote.(RemoteCommand.schema_version) else e => Err e ;;
  verify_hub trusted_hub remote.(RemoteCommand.signature)
    (remote_command_bytes hello challenge remote).

(** The device a message names is the device of the session. *)
Definition for_this_device (device_id : string) : bool :=
  bool_decide (device_id = hello.(AgentHello.device_id)).

Definition remote_cancel (hub : SigningKey) (device_id : string) (device_generation : N)
    (operation_id : string) : result TransportError RemoteCancel :=
  let remote := RemoteCancel.mk HUB_AGENT_SCHEMA_VERSION device_id device_generation
    operation_id in
  sign_into hub (remote_cancel_bytes hello challenge (remote [])) remote.

Definition verify_remote_cancel (remote : RemoteCancel) (trusted_hub : VerifyingKey)
    : result TransportError unit :=
  let_ok _ := validate_wire_schema remote.(RemoteCancel.schema_version) else e => Err e ;;
  return_if negb (for_this_device remote.(RemoteCancel.device_id)) with Err HandshakeMismatch ;;
  verify_hub trusted_hub remote.(RemoteCancel.signature)
    (remote_cancel_bytes hello challenge remote).

Definition backend_session_end (hub : SigningKey) (device_id : string) (device_generation : N)
    (context_id : string) : result TransportError RemoteBackendSessionEnd :=
  let remote := RemoteBackendSessionEnd.mk HUB_AGENT_SCHEMA_VERSION device_id device_generation
    context_id in
  sign_into hub (remote_backend_session_end_bytes hello challenge (remote [])) remote.

Definition verify_remote_backend_session_end (remote : RemoteBackendSessionEnd)
    (trusted_hub : VerifyingKey) : result TransportError unit :=
  let_ok _ := validate_wire_schema remote.(RemoteBackendSessionEnd.schema_version)
    else e => Err e ;;
  return_if negb (for_this_device remote.(RemoteBackendSessionEnd.device_id))
    with Err HandshakeMismatch ;;
  verify_hub trusted_hub remote.(RemoteBackendSessionEnd.signature)
    (remote_backend_session_end_bytes hello challenge remote).

Definition remote_handoff_request (hub : SigningKey) (device_id : string) (device_generation : N)
    (request_id : string) (request : RemoteHandoffRequestKind)
    : result TransportError RemoteHandoffRequest :=
  let_ok _ := validate_handoff_request_id request_id else e => Err e ;;
  return_if negb (for_this_device device_id) || (device_generation =? 0)%N
    with Err InvalidHandoffControl ;;
  let_ok _ := validate_handoff_payload (json_request request) else e => Err e ;;
  let remote := RemoteHandoffRequest.mk HUB_AGENT_SCHEMA_VERSION device_id device_generation
    request_id request in
  sign_into hub (remote_handoff_request_bytes hello challenge (remote [])) remote.

Definition verify_remote_handoff_request (remote : RemoteHandoffRequest)
    (trusted_hub : VerifyingKey) : result TransportError unit :=
  let_ok _ := validate_wire_schema remote.(RemoteHandoffRequest.schema_version)
    else e => Err e ;;
  let_ok _ := validate_handoff_request_id remote.(RemoteHandoffRequest.request_id)
    else e => Err e ;;
  let_ok _ := validate_handoff_payload (json_request remote.(RemoteHandoffRequest.request))
    else e => Err e ;;
  return_if negb (for_this_device remote.(RemoteHandoffRequest.device_id))
            || (remote.(RemoteHandoffRequest.device_generation) =? 0)%N
    with Err HandshakeMismatch ;;
  verify_hub trusted_hub remote.(RemoteHandoffRequest.signature)
    (remote_handoff_request_bytes hello challenge remote).

Definition heartbeat_ack (hub : SigningKey) (heartbeat : AgentHeartbeat) (hub_time_ms : N)
    : result TransportError HubHeartbeatAck :=
  let ack := HubHeartbeatAck.mk HUB_AGENT_SCHEMA_VERSION heartbeat.(AgentHeartbeat.device_id)
    heartbeat.(AgentHeartbeat.device_generation) heartbeat.(AgentHeartbeat.sequence)
    hub_time_ms in
  sign_into hub (hub_heartbeat_ack_bytes hello challenge (ack [])) ack.

Definition verify_hub_heartbeat_ack (ack : HubHeartbeatAck) (trusted_hub : VerifyingKey)
    : result TransportError unit :=
  let_ok _ := validate_wire_schema ack.(HubHeartbeatAck.schema_version) else e => Err e ;;
  return_if negb (for_this_device ack.(HubHeartbeatAck.device_id)) with Err HandshakeMismatch ;;
  verify_hub trusted_hub ack.(HubHeartbeatAck.signature)
    (hub_heartbeat_ack_bytes hello challenge ack).

(** *** Messages of the Agent *)

Definition build_remote_backend_session_ended (identity : SigningKey)
    (request : RemoteBackendSessionEnd) (ended : bool)
    : result TransportError RemoteBackendSessionEnded :=
  let ack := RemoteBackendSessionEnded.mk HUB_AGENT_SCHEMA_VERSION
    request.(RemoteBackendSessionEnd.device_id)
    request.(RemoteBackendSessionEnd.device_generation)
    request.(RemoteBackendSessionEnd.context_id) ended in
  sign_into identity (remote_backend_session_ended_bytes hello challenge (ack [])) ack.

Definition build_remote_cancellation_ack (identity : SigningKey) (cancel : RemoteCancel)
    (disposition : CancellationDisposition) : result TransportError RemoteCancellationAck :=
  let ack := RemoteCancellationAck.mk HUB_AGENT_SCHEMA_VERSION cancel.(RemoteCancel.device_id)
    cancel.(RemoteCancel.device_generation) cancel.(RemoteCancel.operation_id) disposition in
  sign_into identity (remote_cancellation_ack_bytes hello challenge (ack [])) ack.

Definition build_remote_indeterminate_ack (identity : SigningKey) (device_generation : N)
    (operation_id : string) (cause : RemoteIndeterminateCause)
    : result TransportError RemoteIndeterminateAck :=
  let ack := RemoteIndeterminateAck.mk HUB_AGENT_SCHEMA_VERSION hello.(AgentHello.device_id)
    device_generation operation_id cause in
  sign_into identity (remote_indeterminate_ack_bytes hello challenge (ack [])) ack.

Definition build_remote_handoff_response (identity : SigningKey) (device_id : string)
    (device_generation : N) (request_id : string) (response : RemoteHandoffResponseKind)
    : result TransportError RemoteHandoffResponse :=
  let_ok _ := validate_handoff_request_id request_id else e => Err e ;;
  return_if negb (for_this_device device_id) || (device_generation =? 0)%N
    with Err InvalidHandoffControl ;;
  let_ok _ := validate_handoff_payload (json_response response) else e => Err e ;;
  let remote := RemoteHandoffResponse.mk HUB_AGENT_SCHEMA_VERSION device_id device_generation
    request_id response in
  sign_into identity (remote_handoff_response_bytes hello challenge (remote [])) remote.

Definition build_agent_heartbeat (identity : SigningKey) (device_generation sequence : N)
    : result TransportError AgentHeartbeat :=
  let heartbeat := AgentHeartbeat.mk HUB_AGENT_SCHEMA_VERSION hello.(AgentHello.device_id)
    device_generation sequence in
  sign_into identity (agent_heartbeat_bytes hello challenge (heartbeat [])) heartbeat.

Definition build_remote_result (identity : SigningKey) (device_result : CommandResultEnvelope)
    : result TransportError RemoteResult :=
  let remote := RemoteResult.mk HUB_AGENT_SCHEMA_VERSION device_result in
  sign_into identity (remote_result_bytes hello challenge (remote [])) remote.

Definition invalid_report (reporting_generation : N) (evidence : list AgentTerminalEvidence)
    : bool :=
  (reporting_generation =? 0)%N
  || (MAX_AGENT_TERMINAL_EVIDENCE_ENTRIES <? vlen evidence)%N
  || existsb (λ e, is_err (validate_terminal_evidence e)) evidence.

Definition build_remote_reconciliation_report (identity : SigningKey) (reporting_generation : N)
    (terminal_evidence : list AgentTerminalEvidence)
    : result TransportError RemoteReconciliationReport :=
  return_if invalid_report reporting_generation terminal_evidence
    with Err InvalidReconciliationReport ;;
  let remote := RemoteReconciliationReport.mk HUB_AGENT_SCHEMA_VERSION
    hello.(AgentHello.device_id) reporting_generation terminal_evidence in
  sign_into identity (remote_reconciliation_report_bytes hello challenge (remote [])) remote.

Section Verify.
Variable registry : DeviceRegistry.DeviceRegistry.

(** The checks that most messages of the Agent share. *)
Definition verify_from_device (schema_version : N) (device_id : string)
    (transcript : result TransportError (list N)) (signature : list N)
    : result TransportError unit :=
  let_ok _ := validate_wire_schema schema_version else e => Err e ;;
  return_if negb (for_this_device device_id) with Err HandshakeMismatch ;;
  verify_device registry hello.(AgentHello.device_id) transcript signature.

Definition verify_remote_backend_session_ended (ack : RemoteBackendSessionEnded)
    : result TransportError unit :=
  verify_from_device ack.(RemoteBackendSessionEnded.schema_version)
    ack.(RemoteBackendSessionEnded.device_id)
    (remote_backend_session_ended_bytes hello challenge ack)
    ack.(RemoteBackendSessionEnded.signature).

Definition verify_remote_cancellation_ack (ack : RemoteCancellationAck)
    : result TransportError unit :=
  verify_from_device ack.(RemoteCancellationAck.schema_version)
    ack.(RemoteCancellationAck.device_id) (remote_cancellation_ack_bytes hello challenge ack)
    ack.(RemoteCancellationAck.signature).

Definition verify_remote_indeterminate_ack (ack : RemoteIndeterminateAck)
    : result TransportError unit :=
  verify_from_device ack.(RemoteIndeterminateAck.schema_version)
    ack.(RemoteIndeterminateAck.device_id) (remote_indeterminate_ack_bytes hello challenge ack)
    ack.(RemoteIndeterminateAck.signature).

Definition verify_agent_heartbeat (heartbeat : AgentHeartbeat) : result TransportError unit :=
  verify_from_device heartbeat.(AgentHeartbeat.schema_version)
    heartbeat.(AgentHeartbeat.device_id) (agent_heartbeat_bytes hello challenge heartbeat)
    heartbeat.(AgentHeartbeat.signature).

Definition verify_remote_handoff_response (remote : RemoteHandoffResponse)
    : result TransportError unit :=
  let_ok _ := validate_wire_schema remote.(RemoteHandoffResponse.schema_version)
    else e => Err e ;;
  let_ok _ := validate_handoff_request_id remote.(RemoteHandoffResponse.request_id)
    else e => Err e ;;
  let_ok _ := validate_handoff_payload (json_response remote.(RemoteHandoffResponse.response))
    else e => Err e ;;
  return_if negb (for_this_device remote.(RemoteHandoffResponse.device_id))
            || (remote.(RemoteHandoffResponse.device_generation) =? 0)%N
    with Err HandshakeMismatch ;;
  let_some signature := try_into_array 64 remote.(RemoteHandoffResponse.signature)
    else Err InvalidHubSignature ;;
  let_ok b := remote_handoff_response_bytes hello challenge remote else e => Err e ;;
  match DeviceRegistry.device_verifier registry hello.(AgentHello.device_id) with
  | Err e => Err (Control e)
  | Ok key =>
      if vk_verify key b signature then Ok tt
      else Err (Control ControlError.InvalidDeviceSignature)
  end.

Definition verify_remote_result (remote : RemoteResult) : result TransportError unit :=
  let_ok _ := validate_wire_schema remote.(RemoteResult.schema_version) else e => Err e ;;
  verify_device registry hello.(AgentHello.device_id) (remote_result_bytes hello challenge remote)
    remote.(RemoteResult.signature).

Definition verify_remote_reconciliation_report (remote : RemoteReconciliationReport)
    : result TransportError unit :=
  let_ok _ := validate_wire_schema remote.(RemoteReconciliationReport.schema_version)
    else e => Err e ;;
  return_if negb (for_this_device remote.(RemoteReconciliationReport.device_id))
            || invalid_report remote.(RemoteReconciliationReport.reporting_generation)
                 remote.(RemoteReconciliationReport.terminal_evidence)
    with Err InvalidReconciliationReport ;;
  verify_device registry hello.(AgentHello.device_id)
    (remote_reconciliation_report_bytes hello challenge remote)
    remote.(RemoteReconciliationReport.signature).
End Verify.
End Messages.

(** ** Framing

    The writer and the reader are byte buffers, as in the loopback transport. *)

Section Frames.
Context {T : Type}.
Variables (encode : T → option (list N)) (decode : list N → option T).

Definition write_frame (writer : list N) (value : T) : list N * result TransportError unit :=
  let_some payload := encode value else (writer, Err Serialization) ;;
  return_if (MAX_FRAME_BYTES <? vlen payload)%N with (writer, Err (FrameTooLarge (vlen payload))) ;;
  let_some len := try_into_u32 (vlen payload)
    else (writer, Err (FrameTooLarge (vlen payload))) ;;
  (writer ++ to_be_bytes 4 len ++ payload, Ok tt).

(** [read_exact] on a byte slice; what is left of it, empty after a failure. *)
Definition read_exact (n : N) (reader : list N) : list N * result TransportError (list N) :=
  if (n <=? vlen reader)%N
  then (drop (N.to_nat n) reader, Ok (take (N.to_nat n) reader))
  else ([], Err Io).

Definition read_frame (reader : list N) : list N * result TransportError T :=
  let '(reader, len_bytes) := read_exact 4 reader in
  let_ok len_bytes := len_bytes else e => (reader, Err e) ;;
  let len := from_be_bytes len_bytes in
  return_if (MAX_FRAME_BYTES <? len)%N with (reader, Err (FrameTooLarge len)) ;;
  let '(reader, payload) := read_exact len reader in
  let_ok payload := payload else e => (reader, Err e) ;;
  let_some value := decode payload else (reader, Err Serialization) ;;
  (reader, Ok value).
End Frames.

(** ** Kinds *)

Definition agent_message_kind (m : AgentToHub) : string :=
  match m with
  | AgentToHub.Hello _ => "hello"
  | AgentToHub.Proof _ => "proof"
  | AgentToHub.Result _ => "result"
  | AgentToHub.ReconciliationReport _ => "reconciliation_report"
  | AgentToHub.CancellationAck _ => "cancellation_ack"
  | AgentToHub.IndeterminateAck _ => "indeterminate_ack"
  | AgentToHub.BackendSessionEnded _ => "backend_session_ended"
  | AgentToHub.RecoveryAuthorization _ => "recovery_authorization"
  | AgentToHub.HandoffResponse _ => "handoff_response"
  | AgentToHub.Heartbeat _ => "heartbeat"
  end.

Definition hub_message_kind (m : HubToAgent) : string :=
  match m with
  | HubToAgent.Challenge _ => "challenge"
  | HubToAgent.Accepted _ => "accepted"
  | HubToAgent.Command _ => "command"
  | HubToAgent.Cancel _ => "cancel"
  | HubToAgent.BackendSessionEnd _ => "backend_session_end"
  | HubToAgent.RecoveryChallenge _ => "recovery_challenge"
  | HubToAgent.RecoveryResolved _ => "recovery_resolved"
  | HubToAgent.HandoffRequest _ => "handoff_request"
  | HubToAgent.HeartbeatAck _ => "heartbeat_ack"
  end.
End Transport.
