(* ===== verification/TransportTheorems.v ===== *)
(** * Authenticity of the Hub-Agent session

    Every message that one side accepts was signed by the other side as exactly
    this message of exactly this session, the messages of an honest peer are
    accepted, and frames are read back as they were written. *)

From S2P Require Import Prelude Vocabulary Protocol Crypto Wire Registry Grants Tombstone Admission.
From S2P Require Import SafetyTypes Recovery RecoveryTheorems Evidence Transport.
Import Recovery TransportError Transport.

(** ** The JSON of the messages is injective *)

#[export] Instance json_bytes_inj : Inj (=) (=) json_bytes.
Proof.
  intros l l' [= H]. assert (Inj (=) (=) JNum) by (by intros x y [= ->]). by apply (inj (fmap JNum)).
Qed.

Lemma json_option_inj {A} (f : A → Json) (o o' : option A) :
  (∀ x y, f x = f y → x = y) → (∀ x, f x ≠ JNull) → json_option f o = json_option f o' → o = o'.
Proof.
  intros Hf Hn. destruct o as [x|], o' as [y|]; cbn; intros H; [by f_equal; apply Hf| | |done].
  - by destruct (Hn x).
  - by destruct (Hn y).
Qed.

(** The value of a field; equal objects have equal fields. *)
Definition field (i : nat) (j : Json) : option Json :=
  match j with JObj l => snd <$> l !! i | _ => None end.

Lemma field_eq i j j' a b : j = j' → field i j = Some a → field i j' = Some b → a = b.
Proof. intros ->. congruence. Qed.

Ltac field_of H i := let F := fresh "F" in pose proof (field_eq i _ _ _ _ H eq_refl eq_refl) as F;
  cbn [snd] in F.

Lemma json_window_inj w w' : json_window w = json_window w' → w = w'.
Proof. destruct w, w'. by intros [= -> -> ->]. Qed.

Lemma json_surface_inj s s' : json_surface s = json_surface s' → s = s'.
Proof. destruct s, s'. intros H. field_of H 1. f_equal. by apply json_window_inj. Qed.

#[export] Instance json_authority_inj : Inj (=) (=) json_authority.
Proof.
  intros a a' H. field_of H 0. field_of H 1. field_of H 2. field_of H 3. field_of H 4. field_of H 5.
  destruct a, a'. cbn in *. simplify_eq. f_equal.
  revert F3. apply json_option_inj; [apply json_surface_inj|by intros []].
Qed.

Lemma json_number_inj o o' : json_option JNum o = json_option JNum o' → o = o'.
Proof. apply json_option_inj; [by intros x y [= ->]|done]. Qed.

Lemma json_operator_command_inj c c' : json_operator_command c = json_operator_command c' → c = c'.
Proof.
  destruct c, c'; intros H; try discriminate H; try done.
  - field_of H 1. field_of H 2. field_of H 3. injection F as ->.
    by rewrite (json_number_inj _ _ F0), (json_number_inj _ _ F1).
  - by injection H as ->.
Qed.

Lemma json_handoff_inj o o' : json_option json_authority o = json_option json_authority o' → o = o'.
Proof. apply json_option_inj; [apply json_authority_inj|done]. Qed.

#[export] Instance json_request_inj : Inj (=) (=) json_request.
Proof.
  intros [a|c o] [a'|c' o'] H; try discriminate H.
  - field_of H 1. f_equal. by apply (inj json_authority).
  - field_of H 1. field_of H 2. f_equal; [by apply json_operator_command_inj|by apply json_handoff_inj].
Qed.

Lemma json_decision_inj d d' : json_decision d = json_decision d' → d = d'.
Proof. destruct d, d'; intros H; try discriminate H; try done. by injection H as -> ->. Qed.

Lemma json_intervention_inj s s' : json_intervention s = json_intervention s' → s = s'.
Proof. by destruct s, s'. Qed.

Lemma json_active_inj a a' : json_active a = json_active a' → a = a'.
Proof.
  destruct a as [i s e x], a' as [i' s' e' x']. intros H.
  field_of H 0. field_of H 1. field_of H 2. field_of H 3.
  f_equal; [by injection F|by apply json_intervention_inj|by injection F1|by destruct x, x'].
Qed.

Lemma json_status_inj s s' : json_status s = json_status s' → s = s'.
Proof.
  destruct s as [a b c d e f g h], s' as [a' b' c' d' e' f' g' h']. intros H.
  field_of H 0. field_of H 1. field_of H 2. field_of H 3. field_of H 4. field_of H 5. field_of H 6.
  field_of H 7. clear H. cbn [RemoteHandoffStatus.active RemoteHandoffStatus.recovery_required
    RemoteHandoffStatus.recovery_status RemoteHandoffStatus.recovery_epoch
    RemoteHandoffStatus.recovery_expired RemoteHandoffStatus.resume_requested
    RemoteHandoffStatus.faulted RemoteHandoffStatus.human_surface] in *.
  f_equal; [|by injection F0| | |by injection F3|by injection F4|by injection F5|].
  - revert F. apply json_option_inj; [apply json_active_inj|done].
  - revert F1. apply json_option_inj; [apply json_intervention_inj|done].
  - by apply json_number_inj.
  - revert F6. apply json_option_inj; [by intros [] []|done].
Qed.

#[export] Instance json_response_inj : Inj (=) (=) json_response.
Proof.
  intros [d|s|s l|c] [d'|s'|s' l'|c'] H; try discriminate H.
  - field_of H 1. f_equal. by apply json_decision_inj.
  - field_of H 1. f_equal. by apply json_status_inj.
  - field_of H 1. field_of H 2. f_equal; [by apply json_status_inj|].
    revert F0. apply json_option_inj; [by intros ?? [= ->]|done].
  - by destruct c, c'.
Qed.

#[export] Instance json_disposition_inj : Inj (=) (=) json_disposition.
Proof. by intros [] []. Qed.
#[export] Instance json_cause_inj : Inj (=) (=) json_cause.
Proof. by intros [] []. Qed.

#[export] Instance json_capabilities_inj : Inj (=) (=) json_capabilities.
Proof. by intros ?? [= ->]. Qed.
#[export] Instance json_command_inj : Inj (=) (=) json_command.
Proof. by intros ?? [= ->]. Qed.
#[export] Instance json_grant_inj : Inj (=) (=) json_grant.
Proof. by intros ?? [= ->]. Qed.
#[export] Instance json_result_inj : Inj (=) (=) json_result.
Proof. by intros ?? [= ->]. Qed.
#[export] Instance json_evidence_inj : Inj (=) (=) json_evidence.
Proof. by intros ?? [= ->]. Qed.

#[export] Instance json_hello_inj : Inj (=) (=) json_hello.
Proof.
  intros h h' Heq. field_of Heq 0. field_of Heq 1. field_of Heq 2. field_of Heq 3. clear Heq.
  apply (inj json_bytes) in F1. apply (inj json_capabilities) in F2. destruct h, h'. cbn in *. congruence.
Qed.

(** ** What each side signs *)

(** The messages the Hub signs with its key; those of a session carry the device
    and both nonces. *)
Inductive HubSigned :=
| HChallenge (hello : AgentHello) (hub_nonce hub_public_key : list N)
| HAccepted (hello : AgentHello) (hub_nonce : list N)
    (device_generation capability_revision hub_time_ms : N)
| HCommand (device_id : string) (agent_nonce hub_nonce : list N) (command : CommandEnvelope)
    (grant : GrantToken) (handoff : option RemoteHandoffAuthority)
| HCancel (device_id : string) (agent_nonce hub_nonce : list N) (device_generation : N)
    (operation_id : string)
| HSessionEnd (device_id : string) (agent_nonce hub_nonce : list N) (device_generation : N)
    (context_id : string)
| HHandoff (device_id : string) (agent_nonce hub_nonce : list N) (device_generation : N)
    (request_id : string) (request : RemoteHandoffRequestKind)
| HHeartbeatAck (device_id : string) (agent_nonce hub_nonce : list N)
    (device_generation sequence hub_time_ms : N)
| HRecoveryChallenge (c : RecoveryChallenge)
| HRecoveryResolved (r : RecoveryResolved).

Inductive AgentSigned :=
| AProof (hello : AgentHello) (hub_nonce hub_public_key : list N)
| AResult (device_id : string) (agent_nonce hub_nonce : list N)
    (device_result : CommandResultEnvelope)
| AReport (device_id : string) (agent_nonce hub_nonce : list N) (reporting_generation : N)
    (evidence : list AgentTerminalEvidence)
| ACancellation (device_id : string) (agent_nonce hub_nonce : list N) (device_generation : N)
    (operation_id : string) (disposition : CancellationDisposition)
| AIndeterminate (device_id : string) (agent_nonce hub_nonce : list N) (device_generation : N)
    (operation_id : string) (cause : RemoteIndeterminateCause)
| ASessionEnded (device_id : string) (agent_nonce hub_nonce : list N) (device_generation : N)
    (context_id : string) (ended : bool)
| AHandoff (device_id : string) (agent_nonce hub_nonce : list N) (device_generation : N)
    (request_id : string) (response : RemoteHandoffResponseKind)
| AHeartbeat (device_id : string) (agent_nonce hub_nonce : list N)
    (device_generation sequence : N).

Definition hub_json (e : HubSigned) : option Json :=
  match e with
  | HChallenge hello hn key =>
      Some (hello_transcript "cumg-v2-m0-hub-challenge" hello hn
              [("hub_public_key", json_bytes key)])
  | HAccepted hello hn g r t =>
      Some (hello_transcript "cumg-v2-m0-session-accepted" hello hn
              [("device_generation", JNum g); ("capability_revision", JNum r);
               ("hub_time_ms", JNum t)])
  | HCommand d an hn command grant handoff =>
      Some (session_transcript "cumg-v2-m0-remote-command" d an hn
              [("command", json_command command); ("grant", json_grant grant);
               ("handoff", json_option json_authority handoff)])
  | HCancel d an hn g id =>
      Some (session_transcript "cumg-v2-m0-remote-cancel" d an hn
              [("device_generation", JNum g); ("operation_id", JStr id)])
  | HSessionEnd d an hn g id =>
      Some (session_transcript "cumg-v2-m1-backend-session-end" d an hn
              [("device_generation", JNum g); ("context_id", JStr id)])
  | HHandoff d an hn g id request =>
      Some (session_transcript "cumg-v2-handoff-request-v1" d an hn
              [("device_generation", JNum g); ("request_id", JStr id);
               ("request", json_request request)])
  | HHeartbeatAck d an hn g n t =>
      Some (session_transcript "cumg-v2-m1-hub-heartbeat-ack" d an hn
              [("device_generation", JNum g); ("sequence", JNum n); ("hub_time_ms", JNum t)])
  | HRecoveryChallenge _ | HRecoveryResolved _ => None
  end.

Definition agent_json (e : AgentSigned) : Json :=
  match e with
  | AProof hello hn key =>
      hello_transcript "cumg-v2-m0-agent-proof" hello hn [("hub_public_key", json_bytes key)]
  | AResult d an hn r =>
      session_transcript "cumg-v2-m0-remote-result" d an hn [("result", json_result r)]
  | AReport d an hn g l =>
      session_transcript "cumg-v2-m1-reconciliation-report-v1" d an hn
        [("reporting_generation", JNum g); ("terminal_evidence", JArr (json_evidence <$> l))]
  | ACancellation d an hn g id x =>
      session_transcript "cumg-v2-m0-remote-cancellation-ack" d an hn
        [("device_generation", JNum g); ("operation_id", JStr id);
         ("disposition", json_disposition x)]
  | AIndeterminate d an hn g id x =>
      session_transcript "cumg-v2-m1-remote-indeterminate-ack-v1" d an hn
        [("device_generation", JNum g); ("operation_id", JStr id); ("cause", json_cause x)]
  | ASessionEnded d an hn g id x =>
      session_transcript "cumg-v2-m1-backend-session-ended" d an hn
        [("device_generation", JNum g); ("context_id", JStr id); ("ended", JBool x)]
  | AHandoff d an hn g id x =>
      session_transcript "cumg-v2-handoff-response-v1" d an hn
        [("device_generation", JNum g); ("request_id", JStr id); ("response", json_response x)]
  | AHeartbeat d an hn g n =>
      session_transcript "cumg-v2-m1-agent-heartbeat" d an hn
        [("device_generation", JNum g); ("sequence", JNum n)]
  end.

(** The JSON that is signed *)
Definition transcript (j : Json) : Prop := (∃ e, hub_json e = Some j) ∨ ∃ e, agent_json e = j.

(** The text of a transcript determines it: its domain, which comes first, says which fields
    follow and of which types, and the derived deserialisations of these read the fields
    back. An object starts with a brace. *)
Class WireJsonLaws `{WireJson} : Prop := {
  transcript_to_vec_inj : ∀ j j' b, transcript j → transcript j' →
    json_to_vec j = Some b → json_to_vec j' = Some b → j = j';
  json_object_brace : ∀ fields b, json_to_vec (JObj fields) = Some b → head b = Some 123%N
}.

Section Authenticity.
Context `{WJ : WireJson, WJL : !WireJsonLaws} `{ED : Ed25519}.
Context `{SHA : Sha256, SHAL : !Sha256Laws} `{P : P256}.
Context `{B64 : Base64Url, B64L : !Base64UrlLaws} `{WAJ : WebAuthnJson, WAJL : !WebAuthnJsonLaws}.

(** What the Hub's key signs. The messages of the recovery are not JSON. *)
Definition hub_signed_bytes (e : HubSigned) : option (list N) :=
  match e with
  | HRecoveryChallenge c => match challenge_signing_bytes c with Ok b => Some b | Err _ => None end
  | HRecoveryResolved r => match resolved_signing_bytes r with Ok b => Some b | Err _ => None end
  | _ => hub_json e ≫= json_to_vec
  end.

(** Fields of equal transcripts, one after the other. *)
Ltac fields H :=
  field_of H 0; field_of H 1; field_of H 2; field_of H 3;
  try field_of H 4; try field_of H 5; try field_of H 6; try field_of H 7; clear H;
  repeat match goal with
  | H : ?x = ?x |- _ => clear H
  | H : JNum _ = JNum _ |- _ => injection H as ->
  | H : JStr _ = JStr _ |- _ => injection H as ->
  | H : JBool _ = JBool _ |- _ => injection H as ->
  | H : json_bytes _ = json_bytes _ |- _ => apply (inj json_bytes) in H; subst
  | H : json_hello _ = json_hello _ |- _ => apply (inj json_hello) in H; subst
  | H : json_command _ = _ |- _ => apply (inj json_command) in H; subst
  | H : json_grant _ = _ |- _ => apply (inj json_grant) in H; subst
  | H : json_result _ = _ |- _ => apply (inj json_result) in H; subst
  | H : json_request _ = _ |- _ => apply (inj json_request) in H; subst
  | H : json_response _ = _ |- _ => apply (inj json_response) in H; subst
  | H : json_disposition _ = _ |- _ => apply (inj json_disposition) in H; subst
  | H : json_cause _ = _ |- _ => apply (inj json_cause) in H; subst
  | H : json_option json_authority _ = _ |- _ => apply json_handoff_inj in H; subst
  end.

(** The domains separate the messages, and the fields determine them. *)
Lemma hub_json_inj e e' j : hub_json e = Some j → hub_json e' = Some j → e = e'.
Proof.
  intros He He'. destruct e, e'; cbn in He, He'; try discriminate; rewrite <- He in He';
    apply (inj Some) in He'; clear He; try discriminate He'; fields He'; done.
Qed.

Lemma agent_json_inj e e' : agent_json e = agent_json e' → e = e'.
Proof.
  intros H. destruct e, e'; cbn in H; try discriminate H; try (fields H; done).
  field_of H 5. field_of H 6. field_of H 2. field_of H 3. field_of H 4. clear H.
  injection F as ->. injection F1 as ->. apply (inj json_bytes) in F2, F3. subst. f_equal.
  apply (inj (fmap json_evidence)). by injection F0.
Qed.

Lemma recovery_bytes_head e b :
  hub_json e = None → hub_signed_bytes e = Some b → head b = Some 0%N.
Proof.
  destruct e as [| | | | | | |c|r]; try done; intros _; cbn [hub_signed_bytes].
  - unfold challenge_signing_bytes. destruct (validate_recovery_schema _); [|done].
    intros H. apply (inj Some) in H as <-. unfold since_v3. by destruct (_ <=? _)%N.
  - unfold resolved_signing_bytes. destruct (validate_recovery_schema _); [|done].
    intros H. apply (inj Some) in H as <-. unfold since_v3. by destruct (_ <=? _)%N.
Qed.

(** A session message is no other message of the Hub. *)
Lemma hub_signed_unique e e' j b :
  hub_json e = Some j → json_to_vec j = Some b → hub_signed_bytes e' = Some b → e' = e.
Proof.
  intros He Hb He'. destruct (hub_json e') as [j'|] eqn:Hj'.
  - assert (hub_signed_bytes e' = json_to_vec j') as H.
    { destruct e'; cbn [hub_json] in Hj'; try discriminate; cbn [hub_signed_bytes hub_json option_bind mbind];
        by injection Hj' as ->. }
    rewrite H in He'. assert (j' = j) as -> by (eapply transcript_to_vec_inj; [left; eauto..|done|done]). by eapply hub_json_inj.
  - apply recovery_bytes_head in He'; [|done].
    assert (∃ fields, j = JObj fields) as [fields ->] by (destruct e; cbn in He; try done; injection He as <-; eauto).
    apply json_object_brace in Hb. congruence.
Qed.

(** What a side accepts in the session of [hello] and [challenge]: the signature
    that was checked, and the message it is taken for. *)
Inductive accepted_from_hub (k : VerifyingKey) (hello : AgentHello) (challenge : HubChallenge)
    : list N → HubSigned → Prop :=
| acc_challenge :
    verify_hub_challenge hello challenge k = Ok tt →
    accepted_from_hub k hello challenge challenge.(HubChallenge.signature)
      (HChallenge hello challenge.(HubChallenge.hub_nonce) (vk_to_bytes k))
| acc_accepted m :
    verify_session_accepted hello challenge m k = Ok tt →
    accepted_from_hub k hello challenge m.(SessionAccepted.signature)
      (HAccepted hello challenge.(HubChallenge.hub_nonce) m.(SessionAccepted.device_generation)
         m.(SessionAccepted.capability_revision) m.(SessionAccepted.hub_time_ms))
| acc_command m :
    verify_remote_command hello challenge m k = Ok tt →
    accepted_from_hub k hello challenge m.(RemoteCommand.signature)
      (HCommand hello.(AgentHello.device_id) hello.(AgentHello.agent_nonce)
         challenge.(HubChallenge.hub_nonce) m.(RemoteCommand.command) m.(RemoteCommand.grant)
         m.(RemoteCommand.handoff))
| acc_cancel m :
    verify_remote_cancel hello challenge m k = Ok tt →
    accepted_from_hub k hello challenge m.(RemoteCancel.signature)
      (HCancel hello.(AgentHello.device_id) hello.(AgentHello.agent_nonce)
         challenge.(HubChallenge.hub_nonce) m.(RemoteCancel.device_generation)
         m.(RemoteCancel.operation_id))
| acc_session_end m :
    verify_remote_backend_session_end hello challenge m k = Ok tt →
    accepted_from_hub k hello challenge m.(RemoteBackendSessionEnd.signature)
      (HSessionEnd hello.(AgentHello.device_id) hello.(AgentHello.agent_nonce)
         challenge.(HubChallenge.hub_nonce) m.(RemoteBackendSessionEnd.device_generation)
         m.(RemoteBackendSessionEnd.context_id))
| acc_handoff m :
    verify_remote_handoff_request hello challenge m k = Ok tt →
    accepted_from_hub k hello challenge m.(RemoteHandoffRequest.signature)
      (HHandoff hello.(AgentHello.device_id) hello.(AgentHello.agent_nonce)
         challenge.(HubChallenge.hub_nonce) m.(RemoteHandoffRequest.device_generation)
         m.(RemoteHandoffRequest.request_id) m.(RemoteHandoffRequest.request))
| acc_heartbeat_ack m :
    verify_hub_heartbeat_ack hello challenge m k = Ok tt →
    accepted_from_hub k hello challenge m.(HubHeartbeatAck.signature)
      (HHeartbeatAck hello.(AgentHello.device_id) hello.(AgentHello.agent_nonce)
         challenge.(HubChallenge.hub_nonce) m.(HubHeartbeatAck.device_generation)
         m.(HubHeartbeatAck.sequence) m.(HubHeartbeatAck.hub_time_ms))
| acc_recovery_challenge c generation now :
    challenge_typed c →
    verify_recovery_challenge c k hello.(AgentHello.device_id) generation now = Ok tt →
    accepted_from_hub k hello challenge c.(RecoveryChallenge.signature)
      (HRecoveryChallenge (written_challenge c))
| acc_recovery_resolved r authorization :
    resolved_typed r → verify_recovery_resolved_for_authorization r k authorization = Ok tt →
    accepted_from_hub k hello challenge r.(RecoveryResolved.signature)
      (HRecoveryResolved (written_resolved r)).

(** The signature [s] under [k] is not a forgery: whatever it is valid for, the
    holder of [k] has signed. *)
Definition genuine (k : VerifyingKey) (signed : list N → Prop) (s : list N) : Prop :=
  ∀ m, vk_verify k m s = true → signed m.

(** The messages of the recovery as they are written *)
Definition hub_typed (e : HubSigned) : Prop :=
  match e with
  | HRecoveryChallenge c => challenge_typed c ∧ written_challenge c = c
  | HRecoveryResolved r => resolved_typed r ∧ written_resolved r = r
  | _ => True
  end.

Definition signed_by_hub (log : list HubSigned) (m : list N) : Prop :=
  ∃ e, e ∈ log ∧ hub_typed e ∧ hub_signed_bytes e = Some m.

Lemma verify_hub_Ok k s t :
  verify_hub k s t = Ok tt → ∃ b, t = Ok b ∧ vk_verify k b s = true.
Proof.
  unfold verify_hub, try_into_array. case_bool_decide; [|done]. destruct t as [b|]; [|done].
  destruct (vk_verify k b s) eqn:Hv; [eauto|done].
Qed.

Lemma verify_hub_log k s j e log :
  verify_hub k s (to_vec j) = Ok tt → hub_json e = Some j → genuine k (signed_by_hub log) s → e ∈ log.
Proof.
  intros (b & Hb & Hv)%verify_hub_Ok He Hg. unfold to_vec in Hb.
  destruct (json_to_vec j) as [b'|] eqn:Hj; [|done]. apply Ok_inj in Hb as ->.
  destruct (Hg _ Hv) as (e' & He' & _ & Hb'). by rewrite <- (hub_signed_unique _ _ _ _ He Hj Hb').
Qed.

(** A message of the recovery is no other message of the Hub. *)
Lemma session_not_recovery e j b :
  hub_json e = Some j → hub_signed_bytes e = Some b → head b = Some 123%N.
Proof.
  intros He Hb. destruct e; cbn [hub_json] in He; try discriminate;
    exact (json_object_brace _ _ Hb).
Qed.

Lemma verify_challenge_log c k device generation now log :
  challenge_typed c → verify_recovery_challenge c k device generation now = Ok tt →
  genuine k (signed_by_hub log) c.(RecoveryChallenge.signature) →
  HRecoveryChallenge (written_challenge c) ∈ log.
Proof.
  unfold verify_recovery_challenge, verify_hub_signature, try_into_array. intros Hc H Hg. run H.
  match goal with H : challenge_signing_bytes c = Ok ?x |- _ => rename H into Hb; rename x into b end.
  match goal with H : vk_verify _ _ _ = true |- _ => destruct (Hg _ H) as (e & He & Ht & Hs) end.
  destruct (hub_json e) as [j|] eqn:Hj.
  - apply (session_not_recovery _ _ _ Hj) in Hs. assert (head b = Some 0%N); [|congruence].
    apply (recovery_bytes_head (HRecoveryChallenge c)); [done|]. cbn. by rewrite Hb.
  - destruct e as [| | | | | | |c'|r]; try done; cbn in Hs, Ht; run Hs; simplify_eq.
    + destruct Ht as [Ht Hw]. by rewrite (challenge_bytes_identify c c' b), Hw.
    + by destruct (challenge_not_resolved c r b).
Qed.

Lemma verify_resolved_log r k a log :
  resolved_typed r → verify_recovery_resolved_for_authorization r k a = Ok tt →
  genuine k (signed_by_hub log) r.(RecoveryResolved.signature) →
  HRecoveryResolved (written_resolved r) ∈ log.
Proof.
  unfold verify_recovery_resolved_for_authorization, verify_recovery_resolved, verify_hub_signature,
    try_into_array. intros Hr H Hg. run H.
  match goal with H : resolved_signing_bytes r = Ok ?x |- _ => rename H into Hb; rename x into b end.
  match goal with H : vk_verify _ _ _ = true |- _ => destruct (Hg _ H) as (e & He & Ht & Hs) end.
  destruct (hub_json e) as [j|] eqn:Hj.
  - apply (session_not_recovery _ _ _ Hj) in Hs. assert (head b = Some 0%N); [|congruence].
    apply (recovery_bytes_head (HRecoveryResolved r)); [done|]. cbn. by rewrite Hb.
  - destruct e as [| | | | | | |c|r']; try done; cbn in Hs, Ht; run Hs; simplify_eq.
    + by destruct (challenge_not_resolved c r b).
    + destruct Ht as [Ht Hw]. by rewrite (resolved_bytes_identify r r' b), Hw.
Qed.

(** Rewrite with the check of the device, and conclude. *)
Ltac same_device H :=
  unfold for_this_device in H; run H; split_bools;
  match goal with E : _ = AgentHello.device_id _ |- _ => rewrite E in H end;
  by eapply verify_hub_log.

(** C29: The Agent accepts only what the Hub signed. Whatever the Agent accepts in a session
    under the trusted key, the Hub has signed as this kind of message with this content:
    for this device and the nonces of this handshake, if it is a message of the session
    (challenge, acceptance, command, cancellation, end of a backend session, hand-off
    request, heartbeat); and with all that is written of it, its device, generation and own
    nonce or request included, if it is one of the two messages of the recovery (challenge,
    resolution), which do not carry the nonces of a handshake. *)
Theorem hub_messages_are_authentic k hello challenge s e log :
  accepted_from_hub k hello challenge s e → genuine k (signed_by_hub log) s → e ∈ log.
Proof.
  intros Hacc Hg. destruct Hacc as [H|m H|m H|m H|m H|m H|m H|c generation now Ht H|r a Ht H].
  - unfold verify_hub_challenge in H. run H. split_bools.
    match goal with H : HubChallenge.hub_public_key _ = _ |- _ => rewrite H in * end.
    by eapply verify_hub_log.
  - unfold verify_session_accepted in H. run H. by eapply verify_hub_log.
  - unfold verify_remote_command in H. run H. by eapply verify_hub_log.
  - unfold verify_remote_cancel, remote_cancel_bytes, in_session in H. same_device H.
  - unfold verify_remote_backend_session_end, remote_backend_session_end_bytes, in_session in H.
    same_device H.
  - unfold verify_remote_handoff_request, remote_handoff_request_bytes, in_session in H.
    same_device H.
  - unfold verify_hub_heartbeat_ack, hub_heartbeat_ack_bytes, in_session in H. same_device H.
  - by eapply verify_challenge_log.
  - by eapply verify_resolved_log.
Qed.

(** ** The Hub accepts only what the device signed *)

Inductive accepted_from_agent (registry : DeviceRegistry.DeviceRegistry) (hello : AgentHello)
    (challenge : HubChallenge) : list N → AgentSigned → Prop :=
| acc_proof m :
    verify_agent_proof registry hello challenge m = Ok tt →
    accepted_from_agent registry hello challenge m.(AgentProof.signature)
      (AProof hello challenge.(HubChallenge.hub_nonce) challenge.(HubChallenge.hub_public_key))
| acc_result m :
    verify_remote_result hello challenge registry m = Ok tt →
    accepted_from_agent registry hello challenge m.(RemoteResult.signature)
      (AResult hello.(AgentHello.device_id) hello.(AgentHello.agent_nonce)
         challenge.(HubChallenge.hub_nonce) m.(RemoteResult.device_result))
| acc_report m :
    verify_remote_reconciliation_report hello challenge registry m = Ok tt →
    accepted_from_agent registry hello challenge m.(RemoteReconciliationReport.signature)
      (AReport hello.(AgentHello.device_id) hello.(AgentHello.agent_nonce)
         challenge.(HubChallenge.hub_nonce) m.(RemoteReconciliationReport.reporting_generation)
         m.(RemoteReconciliationReport.terminal_evidence))
| acc_cancellation m :
    verify_remote_cancellation_ack hello challenge registry m = Ok tt →
    accepted_from_agent registry hello challenge m.(RemoteCancellationAck.signature)
      (ACancellation hello.(AgentHello.device_id) hello.(AgentHello.agent_nonce)
         challenge.(HubChallenge.hub_nonce) m.(RemoteCancellationAck.device_generation)
         m.(RemoteCancellationAck.operation_id) m.(RemoteCancellationAck.disposition))
| acc_indeterminate m :
    verify_remote_indeterminate_ack hello challenge registry m = Ok tt →
    accepted_from_agent registry hello challenge m.(RemoteIndeterminateAck.signature)
      (AIndeterminate hello.(AgentHello.device_id) hello.(AgentHello.agent_nonce)
         challenge.(HubChallenge.hub_nonce) m.(RemoteIndeterminateAck.device_generation)
         m.(RemoteIndeterminateAck.operation_id) m.(RemoteIndeterminateAck.cause))
| acc_session_ended m :
    verify_remote_backend_session_ended hello challenge registry m = Ok tt →
    accepted_from_agent registry hello challenge m.(RemoteBackendSessionEnded.signature)
      (ASessionEnded hello.(AgentHello.device_id) hello.(AgentHello.agent_nonce)
         challenge.(HubChallenge.hub_nonce) m.(RemoteBackendSessionEnded.device_generation)
         m.(RemoteBackendSessionEnded.context_id) m.(RemoteBackendSessionEnded.ended))
| acc_response m :
    verify_remote_handoff_response hello challenge registry m = Ok tt →
    accepted_from_agent registry hello challenge m.(RemoteHandoffResponse.signature)
      (AHandoff hello.(AgentHello.device_id) hello.(AgentHello.agent_nonce)
         challenge.(HubChallenge.hub_nonce) m.(RemoteHandoffResponse.device_generation)
         m.(RemoteHandoffResponse.request_id) m.(RemoteHandoffResponse.response))
| acc_heartbeat m :
    verify_agent_heartbeat hello challenge registry m = Ok tt →
    accepted_from_agent registry hello challenge m.(AgentHeartbeat.signature)
      (AHeartbeat hello.(AgentHello.device_id) hello.(AgentHello.agent_nonce)
         challenge.(HubChallenge.hub_nonce) m.(AgentHeartbeat.device_generation)
         m.(AgentHeartbeat.sequence)).

Definition signed_by_agent (log : list AgentSigned) (m : list N) : Prop :=
  ∃ e, e ∈ log ∧ json_to_vec (agent_json e) = Some m.

(** The key under which the device [id] is enrolled. *)
Definition device_key (registry : DeviceRegistry.DeviceRegistry) (id : string)
    : option VerifyingKey :=
  DeviceRegistry.verifying_key <$> registry.(DeviceRegistry.devices) !! id.

Lemma agent_log k b e log s :
  json_to_vec (agent_json e) = Some b → vk_verify k b s = true →
  genuine k (signed_by_agent log) s → e ∈ log.
Proof.
  intros Hj Hv Hg. destruct (Hg _ Hv) as (e' & He' & Hb').
  assert (agent_json e' = agent_json e) as Heq
    by (eapply transcript_to_vec_inj; [right; eauto..|done|done]).
  by apply agent_json_inj in Heq as ->.
Qed.

(** The device key under which [e] was checked with signature [s]. *)
Definition vouched registry id s e : Prop :=
  ∃ k, device_key registry id = Some k ∧ ∀ log, genuine k (signed_by_agent log) s → e ∈ log.

Lemma verify_device_vouched registry id s e :
  verify_device registry id (to_vec (agent_json e)) s = Ok tt → vouched registry id s e.
Proof.
  unfold verify_device, to_vec. destruct (json_to_vec (agent_json e)) as [b|] eqn:Hj; [|done].
  unfold DeviceRegistry.verify_device_signature, try_into_array, vouched, device_key.
  case_bool_decide; [done|]. destruct (registry.(DeviceRegistry.devices) !! id) as [d|]; [|done].
  case_bool_decide; [|done]. destruct (vk_verify _ b s) eqn:Hv; [|done]. intros _.
  exists d.(DeviceRegistry.verifying_key). split; [done|]. intros log. by apply (agent_log _ b).
Qed.

Lemma verify_from_device_Ok hello registry v d t s :
  verify_from_device hello registry v d t s = Ok tt →
  d = hello.(AgentHello.device_id) ∧ verify_device registry hello.(AgentHello.device_id) t s = Ok tt.
Proof. unfold verify_from_device, for_this_device. intros H. run H. by split_bools. Qed.

Ltac from_device H :=
  let E := fresh "E" in apply verify_from_device_Ok in H as [E H];
  unfold remote_cancellation_ack_bytes, remote_indeterminate_ack_bytes,
    remote_backend_session_ended_bytes, agent_heartbeat_bytes, in_session in H;
  rewrite E in H; by apply verify_device_vouched.

End Authenticity.

(** ** Honest peers are accepted *)

Section Honest.
Context `{WJ : WireJson, WJT : !WireJsonTotal} `{ED : Ed25519, EDL : !Ed25519Laws}.

Lemma to_vec_Ok j : ∃ b, to_vec j = Ok b ∧ json_to_vec j = Some b.
Proof. unfold to_vec. destruct (json_to_vec_total j) as [b ->]. eauto. Qed.

Lemma signed_verifies_hub hub j : ∃ b, to_vec j = Ok b ∧
  verify_hub (sk_verifying_key hub) (sk_sign hub b) (to_vec j) = Ok tt.
Proof.
  destruct (to_vec_Ok j) as (b & Hb & Hj). exists b. split; [done|].
  unfold verify_hub, try_into_array. rewrite bool_decide_true by apply sk_sign_length.
  by rewrite Hb, sk_sign_verifies.
Qed.

(** The device is enrolled with this key and not revoked. *)
Definition enrolled (registry : DeviceRegistry.DeviceRegistry) (id : string) (device : SigningKey)
    : Prop :=
  device_key registry id = Some (sk_verifying_key device) ∧
  id ∉ registry.(DeviceRegistry.revoked).

Lemma signed_verifies_device registry id device j :
  enrolled registry id device →
  ∃ b, to_vec j = Ok b ∧ verify_device registry id (to_vec j) (sk_sign device b) = Ok tt.
Proof.
  intros [Hk Hrev]. destruct (to_vec_Ok j) as (b & Hb & Hj). exists b. split; [done|].
  unfold verify_device. rewrite Hb. unfold DeviceRegistry.verify_device_signature, try_into_array.
  rewrite bool_decide_false by done. unfold device_key in Hk.
  destruct (registry.(DeviceRegistry.devices) !! id) as [d|]; [|done]. injection Hk as Hk.
  rewrite bool_decide_true by apply sk_sign_length. by rewrite Hk, sk_sign_verifies.
Qed.

(** C35: The handshake of an honest Hub with an honest, enrolled Agent succeeds: the
    Agent accepts the challenge under the trusted key, the Hub accepts the proof,
    and the Agent accepts the session, whatever the nonces. *)
Theorem honest_handshake_succeeds hub device registry id capabilities agent_nonce hub_nonce :
  enrolled registry id device →
  let hello := new_hello id capabilities agent_nonce in
  ∃ challenge proof,
    hub_challenge hub hello hub_nonce = Ok challenge ∧
    verify_hub_challenge hello challenge (sk_verifying_key hub) = Ok tt ∧
    build_agent_proof device hello challenge = Ok proof ∧
    verify_agent_proof registry hello challenge proof = Ok tt ∧
    ∀ generation revision time, ∃ accepted,
      accept_session hub hello challenge generation revision time = Ok accepted ∧
      verify_session_accepted hello challenge accepted (sk_verifying_key hub) = Ok tt ∧
      accepted.(SessionAccepted.device_generation) = generation ∧
      accepted.(SessionAccepted.capability_revision) = revision.
Proof.
  intros Hen hello.
  destruct (signed_verifies_hub hub (hello_transcript "cumg-v2-m0-hub-challenge" hello hub_nonce
    [("hub_public_key", json_bytes (public_key hub))])) as (b & Hb & Hv).
  exists (HubChallenge.mk HUB_AGENT_SCHEMA_VERSION agent_nonce hub_nonce (public_key hub) (sk_sign hub b)).
  set (challenge := HubChallenge.mk _ _ _ _ _).
  destruct (signed_verifies_device registry id device (hello_transcript "cumg-v2-m0-agent-proof" hello
    hub_nonce [("hub_public_key", json_bytes (public_key hub))]) Hen) as (b' & Hb' & Hv').
  exists (AgentProof.mk HUB_AGENT_SCHEMA_VERSION id agent_nonce hub_nonce (sk_sign device b')).
  unfold hub_challenge, verify_hub_challenge, build_agent_proof, verify_agent_proof, sign_into,
    hub_challenge_bytes, agent_proof_bytes. cbn [new_hello hello AgentHello.schema_version
    AgentHello.agent_nonce AgentHello.device_id challenge HubChallenge.schema_version
    HubChallenge.agent_nonce HubChallenge.hub_nonce HubChallenge.hub_public_key
    HubChallenge.signature AgentProof.schema_version AgentProof.device_id AgentProof.agent_nonce
    AgentProof.hub_nonce AgentProof.signature].
  unfold validate_wire_schema. rewrite N.eqb_refl. rewrite !bool_decide_true by done. cbn [negb orb].
  split_and!; [by rewrite Hb|done|by rewrite Hb'|done|].
  intros generation revision time.
  destruct (signed_verifies_hub hub (hello_transcript "cumg-v2-m0-session-accepted" hello hub_nonce
    [("device_generation", JNum generation); ("capability_revision", JNum revision);
     ("hub_time_ms", JNum time)])) as (a & Ha & Hva).
  exists (SessionAccepted.mk HUB_AGENT_SCHEMA_VERSION id generation revision time (sk_sign hub a)).
  split_and!; [| |done|done].
  - unfold accept_session, sign_into, session_accepted_bytes. cbn. by rewrite Ha.
  - unfold verify_session_accepted, validate_wire_schema. cbn. by rewrite bool_decide_true.
Qed.

(** What is signed into a message verifies. *)
Lemma sign_into_hub {M} hub j (message : list N → M) m :
  sign_into hub (to_vec j) message = Ok m →
  ∃ s, m = message s ∧ verify_hub (sk_verifying_key hub) s (to_vec j) = Ok tt.
Proof.
  unfold sign_into. destruct (signed_verifies_hub hub j) as (b & -> & Hv).
  intros <-%Ok_inj. by exists (sk_sign hub b).
Qed.

Lemma sign_into_device {M} registry id device j (message : list N → M) m :
  enrolled registry id device → sign_into device (to_vec j) message = Ok m →
  ∃ s, m = message s ∧ verify_device registry id (to_vec j) s = Ok tt.
Proof.
  intros Hen. unfold sign_into.
  destruct (signed_verifies_device registry id device j Hen) as (b & -> & Hv).
  intros <-%Ok_inj. by exists (sk_sign device b).
Qed.

(** The messages that an honest Hub sends in a session are accepted by the
    Agent, those that it addresses to the device of the session that is. *)
Lemma honest_hub_messages_are_accepted hub hello challenge :
  let k := sk_verifying_key hub in
  let d := hello.(AgentHello.device_id) in
  (∀ c g h m, remote_command_with_handoff hello challenge hub c g h = Ok m →
     verify_remote_command hello challenge m k = Ok tt) ∧
  (∀ n id m, remote_cancel hello challenge hub d n id = Ok m →
     verify_remote_cancel hello challenge m k = Ok tt) ∧
  (∀ n id m, backend_session_end hello challenge hub d n id = Ok m →
     verify_remote_backend_session_end hello challenge m k = Ok tt) ∧
  (∀ n id r m, remote_handoff_request hello challenge hub d n id r = Ok m →
     verify_remote_handoff_request hello challenge m k = Ok tt) ∧
  (∀ h t m, h.(AgentHeartbeat.device_id) = d → heartbeat_ack hello challenge hub h t = Ok m →
     verify_hub_heartbeat_ack hello challenge m k = Ok tt).
Proof.
  intros k d.
  assert (for_this_device hello d = true) as Hd by by apply bool_decide_true.
  assert (validate_wire_schema HUB_AGENT_SCHEMA_VERSION = Ok tt) as Hs by done. split_and!.
  - intros c g h m H. unfold remote_command_with_handoff in H.
    destruct (match h with Some _ => _ | None => _ end); [|done].
    by apply sign_into_hub in H as (s & -> & Hv).
  - intros n id m H. apply sign_into_hub in H as (s & -> & Hv).
    unfold verify_remote_cancel. cbn. by rewrite Hd.
  - intros n id m H. apply sign_into_hub in H as (s & -> & Hv).
    unfold verify_remote_backend_session_end. cbn. by rewrite Hd.
  - intros n id r m. unfold remote_handoff_request. rewrite Hd.
    destruct (validate_handoff_request_id id) as [[]|] eqn:Hid; [|done]. cbn [negb orb].
    destruct (n =? 0)%N eqn:Hn; [done|].
    destruct (validate_handoff_payload _) as [[]|] eqn:Hp; [|done].
    intros (s & -> & Hv)%sign_into_hub. unfold verify_remote_handoff_request. cbn.
    by rewrite Hid, Hp, Hd, Hn.
  - intros h t m Hh H. apply sign_into_hub in H as (s & -> & Hv).
    rewrite <- Hh in Hd. unfold verify_hub_heartbeat_ack. cbn. by rewrite Hd.
Qed.

(** The messages that an honest, enrolled Agent sends in a session are accepted
    by the Hub, those about requests for the device of the session that is. *)
Lemma honest_agent_messages_are_accepted device registry hello challenge :
  let d := hello.(AgentHello.device_id) in
  enrolled registry d device →
  (∀ r m, build_remote_result hello challenge device r = Ok m →
     verify_remote_result hello challenge registry m = Ok tt) ∧
  (∀ n l m, build_remote_reconciliation_report hello challenge device n l = Ok m →
     verify_remote_reconciliation_report hello challenge registry m = Ok tt) ∧
  (∀ c x m, c.(RemoteCancel.device_id) = d →
     build_remote_cancellation_ack hello challenge device c x = Ok m →
     verify_remote_cancellation_ack hello challenge registry m = Ok tt) ∧
  (∀ n id x m, build_remote_indeterminate_ack hello challenge device n id x = Ok m →
     verify_remote_indeterminate_ack hello challenge registry m = Ok tt) ∧
  (∀ r x m, r.(RemoteBackendSessionEnd.device_id) = d →
     build_remote_backend_session_ended hello challenge device r x = Ok m →
     verify_remote_backend_session_ended hello challenge registry m = Ok tt) ∧
  (∀ n x m, build_agent_heartbeat hello challenge device n x = Ok m →
     verify_agent_heartbeat hello challenge registry m = Ok tt).
Proof.
  cbv zeta. intros Hen. set (d := hello.(AgentHello.device_id)) in Hen.
  assert (for_this_device hello hello.(AgentHello.device_id) = true) as Hd
    by by apply bool_decide_true.
  assert (validate_wire_schema HUB_AGENT_SCHEMA_VERSION = Ok tt) as Hs by done.
  assert (∀ x t s, x = d → verify_device registry d t s = Ok tt →
    verify_from_device hello registry HUB_AGENT_SCHEMA_VERSION x t s = Ok tt) as Hfrom.
  { intros x t s -> Hv. unfold verify_from_device. rewrite Hs. subst d. by rewrite Hd. }
  split_and!.
  - intros r m H. by apply (sign_into_device _ _ _ _ _ _ Hen) in H as (s & -> & Hv).
  - intros n l m. unfold build_remote_reconciliation_report. destruct (invalid_report n l) eqn:Hi; [done|].
    intros (s & -> & Hv)%(sign_into_device _ _ _ _ _ _ Hen).
    unfold verify_remote_reconciliation_report. cbn. by rewrite Hd, Hi.
  - intros c x m Hc (s & -> & Hv)%(sign_into_device _ _ _ _ _ _ Hen). by apply Hfrom.
  - intros n id x m (s & -> & Hv)%(sign_into_device _ _ _ _ _ _ Hen). by apply Hfrom.
  - intros r x m Hr (s & -> & Hv)%(sign_into_device _ _ _ _ _ _ Hen). by apply Hfrom.
  - intros n x m (s & -> & Hv)%(sign_into_device _ _ _ _ _ _ Hen). by apply Hfrom.
Qed.

(** The response to a handoff request is accepted even from a revoked device,
    unlike every other message of the Agent. *)
Lemma revoked_handoff_response_accepted device registry hello challenge n id r m :
  device_key registry hello.(AgentHello.device_id) = Some (sk_verifying_key device) →
  build_remote_handoff_response hello challenge device hello.(AgentHello.device_id) n id r = Ok m →
  verify_remote_handoff_response hello challenge registry m = Ok tt.
Proof.
  unfold device_key, build_remote_handoff_response, for_this_device. intros Hk.
  rewrite bool_decide_true by done. destruct (validate_handoff_request_id id) as [[]|] eqn:Hid; [|done].
  cbn [negb orb]. destruct (n =? 0)%N eqn:Hn; [done|].
  destruct (validate_handoff_payload _) as [[]|] eqn:Hp; [|done]. unfold sign_into.
  destruct (remote_handoff_response_bytes _ _ _) as [b|] eqn:Hb; [|done]. intros <-%Ok_inj.
  unfold verify_remote_handoff_response, for_this_device, try_into_array,
    DeviceRegistry.device_verifier. cbn.
  rewrite Hid, Hp, bool_decide_true, Hn, bool_decide_true by (done || apply sk_sign_length). cbn.
  change (remote_handoff_response_bytes _ _ _) with (remote_handoff_response_bytes hello challenge
    (RemoteHandoffResponse.mk HUB_AGENT_SCHEMA_VERSION hello.(AgentHello.device_id) n id r [])).
  rewrite Hb. destruct (_ !! _) as [x|]; [|done]. cbn in *. injection Hk as ->.
  by rewrite sk_sign_verifies.
Qed.
End Honest.

(** ** Frames *)

Section Framing.
Context {T : Type} (encode : T → option (list N)) (decode : list N → option T).
Hypothesis decode_encode : ∀ v b, encode v = Some b → decode b = Some v.

Lemma read_exact_app s rest : read_exact (vlen s) (s ++ rest) = (rest, Ok s).
Proof.
  unfold read_exact. rewrite vlen_app, (proj2 (N.leb_le _ _)) by lia.
  unfold vlen. by rewrite Nat2N.id, drop_app_length, take_app_length.
Qed.

Lemma read_written_frame b rest v :
  encode v = Some b → (vlen b ≤ MAX_FRAME_BYTES)%N →
  read_frame decode ((to_be_bytes 4 (vlen b) ++ b) ++ rest) = (rest, Ok v).
Proof.
  intros He Hle. unfold read_frame. rewrite <- app_assoc.
  change 4%N with (vlen (to_be_bytes 4 (vlen b))). rewrite read_exact_app.
  rewrite from_to_be_bytes, N.mod_small by (unfold MAX_FRAME_BYTES in Hle; cbn; lia).
  rewrite (proj2 (N.ltb_ge _ _) Hle), read_exact_app. by rewrite (decode_encode v b He).
Qed.

Fixpoint write_frames (writer : list N) (values : list T) : list N * result TransportError unit :=
  match values with
  | [] => (writer, Ok tt)
  | v :: values =>
      let '(writer, r) := write_frame encode writer v in
      let_ok _ := r else e => (writer, Err e) ;; write_frames writer values
  end.

Fixpoint read_frames (n : nat) (reader : list N) : list N * result TransportError (list T) :=
  match n with
  | O => (reader, Ok [])
  | S n =>
      let '(reader, r) := read_frame decode reader in
      let_ok v := r else e => (reader, Err e) ;;
      let '(reader, r) := read_frames n reader in
      let_ok l := r else e => (reader, Err e) ;; (reader, Ok (v :: l))
  end.

(** Frames are read back as they were written, whatever follows; no frame is
    longer than [MAX_FRAME_BYTES], and a longer length is refused before its
    payload is read. *)
Theorem frames_roundtrip values written :
  write_frames [] values = (written, Ok tt) →
  (∀ rest, read_frames (length values) (written ++ rest) = (rest, Ok values)) ∧
  (∀ n rest, (MAX_FRAME_BYTES < n)%N → fits 4 n →
     read_frame decode (to_be_bytes 4 n ++ rest) = (rest, Err (FrameTooLarge n))).
Proof.
  intros H. split.
  - assert (∀ values writer written, write_frames writer values = (written, Ok tt) →
      ∃ b, written = writer ++ b ∧ ∀ rest, read_frames (length values) (b ++ rest) = (rest, Ok values))
      as Hall; [|destruct (Hall _ _ _ H) as (b & -> & Hr); exact Hr].
    clear values written H. induction values as [|v values IH]; intros writer written H.
    + injection H as <-. exists []. split; [by rewrite app_nil_r|done].
    + cbn [write_frames] in H. unfold write_frame in H.
      destruct (encode v) as [b|] eqn:He; [|done].
      destruct (N.ltb_spec MAX_FRAME_BYTES (vlen b)) as [|Hle]; [done|].
      unfold try_into_u32 in H.
      rewrite (proj2 (N.leb_le _ _)) in H by (unfold MAX_FRAME_BYTES, u32_max in *; lia).
      apply IH in H as (b' & -> & Hr). eexists. rewrite <- app_assoc. split; [done|].
      intros rest. cbn [read_frames length].
      rewrite <- (app_assoc _ b' rest), (read_written_frame b _ v He Hle), Hr. done.
  - intros n rest Hn Hf. unfold read_frame. change 4%N with (vlen (to_be_bytes 4 n)).
    rewrite read_exact_app, from_to_be_bytes, N.mod_small by exact Hf.
    by rewrite (proj2 (N.ltb_lt _ _) Hn).
Qed.
End Framing.

Module TransportExamples.

(** Equality of JSON without derived leaves. *)
Fixpoint json_eqb (j j' : Json) : bool :=
  match j, j' with
  | JNull, JNull => true
  | JBool b, JBool b' => Bool.eqb b b'
  | JNum n, JNum n' => (n =? n')%N
  | JStr s, JStr s' => String.eqb s s'
  | JArr l, JArr l' =>
      (fix go l l' := match l, l' with
       | [], [] => true
       | j :: l, j' :: l' => json_eqb j j' && go l l'
       | _, _ => false
       end) l l'
  | JObj l, JObj l' =>
      (fix go l l' := match l, l' with
       | [], [] => true
       | (k, j) :: l, (k', j') :: l' => String.eqb k k' && json_eqb j j' && go l l'
       | _, _ => false
       end) l l'
  | _, _ => false
  end.

Fixpoint json_eqb_eq (j j' : Json) {struct j} : json_eqb j j' = true → j = j'.
Proof.
  destruct j as [|b|n|s|l|l|p], j' as [|b'|n'|s'|l'|l'|p']; cbn [json_eqb]; intros H; try discriminate H.
  - reflexivity.
  - by apply Bool.eqb_prop in H as ->.
  - by apply N.eqb_eq in H as ->.
  - by apply String.eqb_eq in H as ->.
  - f_equal. revert l' H. induction l as [|j l IH]; intros [|j' l'] H; try done.
    apply andb_true_iff in H as [H1 H2]. f_equal; [by apply json_eqb_eq|by apply IH].
  - f_equal. revert l' H. induction l as [|[k j] l IH]; intros [|[k' j'] l'] H; try done.
    apply andb_true_iff in H as [[H0 H1]%andb_true_iff H2]. apply String.eqb_eq in H0 as ->.
    f_equal; [f_equal; by apply json_eqb_eq|by apply IH].
Qed.

Definition adverts : CapabilityAdvertisement := CapabilityAdvertisement.mk "b" "1" "linux" 1 1 [].
Definition hello : AgentHello := new_hello "dev_a" adverts [1; 2]%N.
Definition challenge : HubChallenge :=
  HubChallenge.mk HUB_AGENT_SCHEMA_VERSION [1; 2]%N [3; 4]%N [] [].
Definition signature : list N := replicate 64 7%N.

(** A peer that has serialised and signed one message. *)
Section OneMessage.
Variable message : Json.

Definition one_message : WireJson := λ j, if json_eqb j message then Some [123; 1]%N else None.

Lemma one_message_laws : @WireJsonLaws one_message.
Proof.
  split; unfold json_to_vec, one_message.
  - intros j j' b _ _ H H'. destruct (json_eqb j message) eqn:E, (json_eqb j' message) eqn:E'; try done.
    apply json_eqb_eq in E, E'. congruence.
  - intros l b H. destruct (json_eqb _ _); [|done]. by injection H as <-.
Qed.

Definition one_signature : Ed25519 := {|
  VerifyingKey := list N;
  SigningKey := unit;
  vk_from_bytes := Some;
  vk_to_bytes := λ k, k;
  vk_verify _ m s := bool_decide (m = [123; 1]%N) && bool_decide (s = signature);
  sk_verifying_key _ := [];
  sk_sign _ _ := signature
|}.
End OneMessage.

Definition cancelled : HubSigned := HCancel "dev_a" [1; 2]%N [3; 4]%N 1 "op_1".
Definition cancel_json : Json := default JNull (hub_json cancelled).
Definition cancel_sent : RemoteCancel := RemoteCancel.mk HUB_AGENT_SCHEMA_VERSION "dev_a" 1 "op_1" signature.

Lemma hub_messages_are_authentic_witness : cancelled ∈ [cancelled].
Proof.
  refine (@hub_messages_are_authentic (one_message cancel_json) (one_message_laws _) one_signature
    [] hello challenge signature cancelled [cancelled] _ _).
  - apply (@acc_cancel (one_message cancel_json) one_signature [] hello challenge cancel_sent).
    vm_compute. reflexivity.
  - intros m Hm. apply andb_true_iff in Hm as [Hm _]. apply bool_decide_eq_true in Hm as ->.
    exists cancelled. split; [by left|]. split; [done|]. vm_compute. reflexivity.
Defined.

Definition beat : AgentSigned := AHeartbeat "dev_a" [1; 2]%N [3; 4]%N 1 5.
Definition heartbeat : AgentHeartbeat := AgentHeartbeat.mk HUB_AGENT_SCHEMA_VERSION "dev_a" 1 5 signature.
Definition fleet : @DeviceRegistry.DeviceRegistry one_signature :=
  @DeviceRegistry.mk_registry one_signature
    {[ "dev_a" := @DeviceRegistry.mk_enrolled one_signature [] 1 None ]} ∅.

Section OneUser.
#[local] Existing Instances ReplayDenyTombstone.Examples.hex_engine
  ReplayDenyTombstone.Examples.hex_engine_laws RecoveryExamples.toy_sha256
  RecoveryExamples.toy_sha256_laws RecoveryExamples.toy_json RecoveryExamples.toy_json_laws
  RecoveryExamples.toy_p256.

End OneUser.

Import ToyCrypto.
#[local] Instance brace_json : WireJson := λ _, Some [123; 125]%N.
#[local] Instance brace_json_total : WireJsonTotal.
Proof. intros j. by eexists. Qed.

Definition device : SigningKey := key_of_byte 2.
Definition hub : SigningKey := key_of_byte 1.
Definition enrolled_fleet : DeviceRegistry.DeviceRegistry :=
  DeviceRegistry.mk_registry
    {[ "dev_a" := DeviceRegistry.mk_enrolled (sk_verifying_key device) 1 None ]} ∅.

Lemma honest_handshake_succeeds_witness :
  ∃ challenge, hub_challenge hub hello [3; 4]%N = Ok challenge ∧
    verify_hub_challenge hello challenge (sk_verifying_key hub) = Ok tt.
Proof.
  destruct (honest_handshake_succeeds hub device enrolled_fleet "dev_a" adverts [1; 2]%N [3; 4]%N)
    as (c & p & H1 & H2 & _).
  - split; [vm_compute; reflexivity|]. exact (not_elem_of_empty _).
  - exists c. exact (conj H1 H2).
Defined.

Lemma frames_roundtrip_witness :
  read_frame (T:=list N) Some (to_be_bytes 4 3 ++ [1; 2; 3; 9]%N) = ([9%N], Ok [1; 2; 3]%N).
Proof.
  assert (write_frames (T:=list N) Some [] [[1; 2; 3]%N] = (to_be_bytes 4 3 ++ [1; 2; 3]%N, Ok tt)) as H
    by by_eval.
  pose proof (proj1 (frames_roundtrip Some Some (λ v b E, eq_sym E) [[1; 2; 3]%N] _ H) [9%N]) as Hr.
  cbn [read_frames length] in Hr.
  change ((to_be_bytes 4 3 ++ [1; 2; 3]%N) ++ [9%N]) with (to_be_bytes 4 3 ++ [1; 2; 3; 9]%N) in Hr.
  destruct (read_frame _ _) as [rest [v|]]; [|discriminate Hr]. by simplify_eq.
Defined.
End TransportExamples.
