(* ===== verification/Controller.v ===== *)
(** * The authoritative operation controller

    [AuthoritativeOperationController] of [src/src/v2_execution_safety.rs]: the
    Hub's ledger of operations on top of [HubAdmissionController]. Every operation
    of the impl is a function on the controller; an error that the source returns
    after a mutation leaves that mutation in the state returned here. *)

From S2P Require Import Prelude Vocabulary Protocol Tombstone Admission SafetyTypes.
From S2P Require Import Evidence.
Import HubOperationState.

(** [serde_json::to_vec(..).map(|bytes| bytes.len())] of the two types whose
    encoded size is bounded. *)
Class RecoverySerializer := {
  archived_json_len : ArchivedOperationRecovery → option N;
  result_json_len : RecoverableOperationResult → option N
}.

(** ** Assignments to the fields of a ledger record *)
Module Ledger.
Import SafetyOperation.

Definition amend (r : SafetyOperation) (state' : HubOperationState)
    (dispatched_at_ms' : option N) (indeterminate_reason' : option IndeterminateReason)
    (receipt' : option ExecutionReceipt)
    (recoverable_result' : option RecoverableOperationResult)
    (dispatch_binding' : option OperationDispatchBinding)
    (reconciliation_status' : option ReconciliationStatus) : SafetyOperation :=
  mk r.(operation) r.(owner) r.(capability) r.(execution_lane) state' r.(prepared_at_ms)
    dispatched_at_ms' indeterminate_reason' receipt' recoverable_result' r.(audit)
    r.(request_fingerprint) r.(evidence_envelope) r.(recovery_target_required)
    r.(recovery_target) r.(semantic_constraint) dispatch_binding' reconciliation_status'.

Definition set_state (r : SafetyOperation) s :=
  amend r s r.(dispatched_at_ms) r.(indeterminate_reason) r.(receipt) r.(recoverable_result)
    r.(dispatch_binding) r.(reconciliation_status).
Definition set_receipt (r : SafetyOperation) x :=
  amend r r.(state) r.(dispatched_at_ms) r.(indeterminate_reason) x r.(recoverable_result)
    r.(dispatch_binding) r.(reconciliation_status).
Definition set_reason (r : SafetyOperation) x :=
  amend r r.(state) r.(dispatched_at_ms) x r.(receipt) r.(recoverable_result)
    r.(dispatch_binding) r.(reconciliation_status).
Definition set_result (r : SafetyOperation) x :=
  amend r r.(state) r.(dispatched_at_ms) r.(indeterminate_reason) r.(receipt) x
    r.(dispatch_binding) r.(reconciliation_status).
Definition set_status (r : SafetyOperation) x :=
  amend r r.(state) r.(dispatched_at_ms) r.(indeterminate_reason) r.(receipt)
    r.(recoverable_result) r.(dispatch_binding) x.
Definition set_dispatch (r : SafetyOperation) at_ms binding :=
  amend r r.(state) (Some at_ms) r.(indeterminate_reason) r.(receipt) r.(recoverable_result)
    binding r.(reconciliation_status).

Definition id (r : SafetyOperation) : string := r.(operation).(OperationRef.operation_id).
Definition device (r : SafetyOperation) : string := r.(operation).(OperationRef.device_id).
Definition generation (r : SafetyOperation) : N := r.(operation).(OperationRef.device_generation).

Definition receipt_for (r : SafetyOperation) (terminal_state : HubOperationState)
    (evidence : ExecutionEvidence) (now_ms : N) : ExecutionReceipt :=
  ExecutionReceipt.mk EXECUTION_SAFETY_SCHEMA_VERSION r.(operation) r.(owner) r.(capability)
    terminal_state evidence now_ms.

(** [record.receipt = Some(Self::receipt_for(record, ..))] after [record.state] *)
Definition settle (r : SafetyOperation) (terminal_state : HubOperationState)
    (evidence : ExecutionEvidence) (now_ms : N) : SafetyOperation :=
  set_receipt (set_state r terminal_state)
    (Some (receipt_for r terminal_state evidence now_ms)).
End Ledger.

Module Controller.

Record AuthoritativeOperationController := mk_controller {
  admission : HubAdmissionController;
  operations : gmap string SafetyOperation;
  recovery_archive : gmap string ArchivedOperationRecovery;
  quarantines : gmap string DesktopQuarantine;
  resolutions : list ResolutionRecord;
  auto_resolutions : list AutoResolutionRecord;
  retirements : list RetirementRecord;
  mutation_resume_barriers : gmap string MutationResumeBarrier;
  mutation_resumes : list MutationResumeRecord
}.

Section Setters.
Variable c : AuthoritativeOperationController.
Definition set_admission x := mk_controller x c.(operations) c.(recovery_archive)
  c.(quarantines) c.(resolutions) c.(auto_resolutions) c.(retirements)
  c.(mutation_resume_barriers) c.(mutation_resumes).
Definition set_operations x := mk_controller c.(admission) x c.(recovery_archive)
  c.(quarantines) c.(resolutions) c.(auto_resolutions) c.(retirements)
  c.(mutation_resume_barriers) c.(mutation_resumes).
Definition set_archive x := mk_controller c.(admission) c.(operations) x
  c.(quarantines) c.(resolutions) c.(auto_resolutions) c.(retirements)
  c.(mutation_resume_barriers) c.(mutation_resumes).
Definition set_quarantines x := mk_controller c.(admission) c.(operations) c.(recovery_archive)
  x c.(resolutions) c.(auto_resolutions) c.(retirements) c.(mutation_resume_barriers)
  c.(mutation_resumes).
Definition set_resolutions x := mk_controller c.(admission) c.(operations) c.(recovery_archive)
  c.(quarantines) x c.(auto_resolutions) c.(retirements) c.(mutation_resume_barriers)
  c.(mutation_resumes).
Definition set_auto_resolutions x := mk_controller c.(admission) c.(operations)
  c.(recovery_archive) c.(quarantines) c.(resolutions) x c.(retirements)
  c.(mutation_resume_barriers) c.(mutation_resumes).
Definition set_retirements x := mk_controller c.(admission) c.(operations) c.(recovery_archive)
  c.(quarantines) c.(resolutions) c.(auto_resolutions) x c.(mutation_resume_barriers)
  c.(mutation_resumes).
Definition set_barriers x := mk_controller c.(admission) c.(operations) c.(recovery_archive)
  c.(quarantines) c.(resolutions) c.(auto_resolutions) c.(retirements) x
  c.(mutation_resumes).
Definition set_resumes x := mk_controller c.(admission) c.(operations) c.(recovery_archive)
  c.(quarantines) c.(resolutions) c.(auto_resolutions) c.(retirements)
  c.(mutation_resume_barriers) x.
End Setters.

(** What a call returns: the controller it leaves and its result. *)
Definition outcome (A : Type) : Type :=
  AuthoritativeOperationController * result ExecutionError A.

(** [self.admission.call(..)?] and the rest of the body *)
Definition on_admission {A B} (c : AuthoritativeOperationController)
    (call : HubAdmissionController * result ExecutionError A)
    (k : AuthoritativeOperationController → A → outcome B) : outcome B :=
  let c := set_admission c call.1 in
  let_ok a := call.2 else e => (c, Err e) ;; k c a.

Definition put (c : AuthoritativeOperationController) (id : string) (r : SafetyOperation)
    : AuthoritativeOperationController :=
  set_operations c (<[id := r]> c.(operations)).

Definition new_controller (l : AdmissionLimits)
    : result ExecutionError AuthoritativeOperationController :=
  let_ok a := new_admission l else e => Err e ;;
  Ok (mk_controller a ∅ ∅ ∅ [] [] [] ∅ []).

Definition checked (c : AuthoritativeOperationController) (id : string) (owner : OperationOwner)
    (device_generation : N) : result ExecutionError SafetyOperation :=
  let_some r := c.(operations) !! id else Err ExecutionError.UnknownOperation ;;
  return_if negb (bool_decide (r.(SafetyOperation.owner) = owner))
            || negb (Ledger.generation r =? device_generation)%N
    with Err ExecutionError.OwnershipFenceMismatch ;;
  Ok r.

Definition activate_next (c : AuthoritativeOperationController) (next : CompletionDecision)
    : AuthoritativeOperationController :=
  match next with
  | CompletionDecision.Idle => c
  | CompletionDecision.StartNext r =>
      set_operations c (alter (λ o, Ledger.set_state o ActiveNotDispatched)
                          r.(OperationRef.operation_id) c.(operations))
  end.

(** ** Admission *)

Section Operations.
Context `{HashIter}.

(** The lane an operation is admitted to: a quarantined device takes recovery
    evidence reads only. *)
Definition choose_lane (c : AuthoritativeOperationController) (device_id : string)
    (capability : DeviceCapability) : result ExecutionError OperationExecutionLane :=
  match c.(quarantines) !! device_id with
  | Some q =>
      if negb (is_recovery_evidence_read_only capability)
      then Err (ExecutionError.DeviceIndeterminate q.(DesktopQuarantine.operation_id))
      else Ok OperationExecutionLane.RecoveryEvidenceRead
  | None => Ok OperationExecutionLane.Normal
  end.

Definition admit_in_lane (c : AuthoritativeOperationController) (lane : OperationExecutionLane)
    (operation : OperationRef) :=
  match lane with
  | OperationExecutionLane.Normal => admit_operation c.(admission) operation
  | OperationExecutionLane.RecoveryEvidenceRead =>
      admit_recovery_read_only c.(admission) operation
  end.

(** The identifier is in the ledger, the archive or the retirement history. *)
Definition replayed_id (c : AuthoritativeOperationController) (id : string) : bool :=
  bool_decide (is_Some (c.(operations) !! id))
  || bool_decide (is_Some (c.(recovery_archive) !! id))
  || existsb (λ r, bool_decide (r.(RetirementRecord.operation).(OperationRef.operation_id) = id))
       c.(retirements).

Definition prepare_with_metadata (c : AuthoritativeOperationController)
    (operation : OperationRef) (owner : OperationOwner) (capability : DeviceCapability)
    (metadata : OperationAdmissionMetadata) (now_ms : N) : outcome AdmissionDecision :=
  let id := operation.(OperationRef.operation_id) in
  let device_id := operation.(OperationRef.device_id) in
  return_if replayed_id c id with (c, Err ExecutionError.OperationReplay) ;;
  let_ok _ := validate_metadata metadata capability else e => (c, Err e) ;;
  let barrier :=
    if bool_decide (class capability = CapabilityClass.Observe) then None
    else c.(mutation_resume_barriers) !! device_id in
  match barrier with
  | Some b => (c, Err (ExecutionError.MutationResumeRequired
                         b.(MutationResumeBarrier.source_operation_id)))
  | None =>
      let_ok lane := choose_lane c device_id capability else e => (c, Err e) ;;
      on_admission c (admit_in_lane c lane operation) (λ c decision,
        (put c id (SafetyOperation.mk operation owner capability lane (admitted_state decision)
           now_ms None None None None
           metadata.(OperationAdmissionMetadata.audit)
           metadata.(OperationAdmissionMetadata.request_fingerprint)
           metadata.(OperationAdmissionMetadata.evidence_envelope)
           (recovery_target_required capability)
           metadata.(OperationAdmissionMetadata.recovery_target)
           metadata.(OperationAdmissionMetadata.semantic_constraint) None None), Ok decision))
  end.

Definition prepare (c : AuthoritativeOperationController) (operation : OperationRef)
    (owner : OperationOwner) (capability : DeviceCapability) (now_ms : N)
    : outcome AdmissionDecision :=
  prepare_with_metadata c operation owner capability empty_metadata now_ms.

Definition mark_dispatched_with_binding (c : AuthoritativeOperationController) (id : string)
    (owner : OperationOwner) (device_generation : N)
    (dispatch_binding : option OperationDispatchBinding) (now_ms : N) : outcome unit :=
  let_ok _ := validate_some validate_binding dispatch_binding else e => (c, Err e) ;;
  let_ok r := checked c id owner device_generation else e => (c, Err e) ;;
  return_if negb (bool_decide (r.(SafetyOperation.state) = ActiveNotDispatched))
    with (c, Err ExecutionError.InvalidTransition) ;;
  on_admission c (mark_dispatched c.(admission) id) (λ c _,
    let_some r := c.(operations) !! id else (c, Err ExecutionError.UnknownOperation) ;;
    (put c id (Ledger.set_status
       (Ledger.set_dispatch (Ledger.set_state r Dispatched) now_ms dispatch_binding) None),
     Ok tt)).

(** [mark_dispatched], which shadows the admission transition of that name. *)
Definition mark_dispatched_unbound (c : AuthoritativeOperationController) (id : string)
    (owner : OperationOwner) (device_generation now_ms : N) : outcome unit :=
  mark_dispatched_with_binding c id owner device_generation None now_ms.

(** ** Cancellation and completion *)

Definition request_cancel (c : AuthoritativeOperationController) (id : string)
    (owner : OperationOwner) (device_generation now_ms : N) : outcome CancellationDecision :=
  let_ok _ := checked c id owner device_generation else e => (c, Err e) ;;
  on_admission c (cancel c.(admission) id) (λ c decision,
    match decision with
    | CancellationDecision.CancelledBeforeDispatch next =>
        let_some r := c.(operations) !! id else (c, Err ExecutionError.UnknownOperation) ;;
        let c := put c id
          (Ledger.settle r Cancelled ExecutionEvidence.CancelledBeforeDispatch now_ms) in
        (activate_next c next, Ok decision)
    | CancellationDecision.SendCancellation _ =>
        let_some r := c.(operations) !! id else (c, Err ExecutionError.UnknownOperation) ;;
        (put c id (Ledger.set_state r CancelRequested), Ok decision)
    | CancellationDecision.AlreadyTerminal _ => (c, Ok decision)
    end).

Definition finalize (c : AuthoritativeOperationController) (id : string)
    (owner : OperationOwner) (device_generation : N) (terminal_state : HubOperationState)
    (evidence : ExecutionEvidence) (now_ms : N)
    : outcome (CompletionDecision * ExecutionReceipt) :=
  let_ok r := checked c id owner device_generation else e => (c, Err e) ;;
  return_if negb (on_device r.(SafetyOperation.state))
            || negb (authoritative_agent_terminal_pair terminal_state evidence)
    with (c, Err ExecutionError.InvalidTransition) ;;
  on_admission c (finalize_terminal c.(admission) id terminal_state) (λ c next,
    let_some r := c.(operations) !! id else (c, Err ExecutionError.UnknownOperation) ;;
    let receipt := Ledger.receipt_for r terminal_state evidence now_ms in
    let c := put c id
      (Ledger.settle (Ledger.set_reason r None) terminal_state evidence now_ms) in
    (activate_next c next, Ok (next, receipt))).

(** [self.auto_resolutions.push(..)] and the [drain] of the excess *)
Definition push_auto_resolution (c : AuthoritativeOperationController)
    (r : AutoResolutionRecord) : AuthoritativeOperationController :=
  let l := c.(auto_resolutions) ++ [r] in
  set_auto_resolutions c
    (if (MAX_AUTO_RESOLUTION_RECORDS <? vlen l)%N
     then drop (length l - N.to_nat MAX_AUTO_RESOLUTION_RECORDS) l else l).

(** The replay of a non-delivery that is already recorded. *)
Definition already_non_delivered (r : SafetyOperation) (evidence : ExecutionEvidence) : bool :=
  bool_decide (r.(SafetyOperation.state) = Cancelled)
  && bool_decide (r.(SafetyOperation.reconciliation_status)
                  = Some ReconciliationStatus.AutoResolved)
  && is_some_and (λ receipt, bool_decide (receipt.(ExecutionReceipt.evidence) = evidence))
       r.(SafetyOperation.receipt).

Definition resolve_hub_pre_enqueue_non_delivery (c : AuthoritativeOperationController)
    (id : string) (owner : OperationOwner) (device_generation : N)
    (dispatch_binding : OperationDispatchBinding) (evidence : ExecutionEvidence) (now_ms : N)
    : outcome (CompletionDecision * ExecutionReceipt) :=
  return_if negb (authoritative_hub_pre_enqueue_non_delivery_pair Cancelled evidence)
    with (c, Err ExecutionError.InvalidOperation) ;;
  let_ok r := checked c id owner device_generation else e => (c, Err e) ;;
  return_if negb (bool_decide (r.(SafetyOperation.execution_lane)
                               = OperationExecutionLane.Normal))
            || negb (bool_decide (r.(SafetyOperation.dispatch_binding) = Some dispatch_binding))
    with (c, Err ExecutionError.OwnershipFenceMismatch) ;;
  if already_non_delivered r evidence then
    let_some receipt := r.(SafetyOperation.receipt)
      else (c, Err ExecutionError.InvalidTransition) ;;
    (c, Ok (CompletionDecision.Idle, receipt))
  else
  return_if negb (bool_decide (r.(SafetyOperation.state) = Dispatched))
            || opt_some r.(SafetyOperation.reconciliation_status)
            || bool_decide (is_Some (c.(quarantines) !! Ledger.device r))
    with (c, Err ExecutionError.InvalidTransition) ;;
  on_admission c (finalize_terminal c.(admission) id Cancelled) (λ c next,
    let_some r := c.(operations) !! id else (c, Err ExecutionError.UnknownOperation) ;;
    let receipt := Ledger.receipt_for r Cancelled evidence now_ms in
    let r := Ledger.set_result (Ledger.set_status (Ledger.set_reason r None)
               (Some ReconciliationStatus.AutoResolved)) None in
    let c := put c id (Ledger.settle r Cancelled evidence now_ms) in
    let c := push_auto_resolution c (AutoResolutionRecord.mk r.(SafetyOperation.operation)
               r.(SafetyOperation.capability) Cancelled evidence dispatch_binding now_ms) in
    (activate_next c next, Ok (next, receipt))).

(** ** Unknown outcomes *)

Definition is_recovery_evidence_read (c : AuthoritativeOperationController) (id : string)
    : bool :=
  is_some_and (λ r, bool_decide (r.(SafetyOperation.execution_lane)
                                 = OperationExecutionLane.RecoveryEvidenceRead))
    (c.(operations) !! id).

Definition mark_recovery_read_interrupted (c : AuthoritativeOperationController) (id : string)
    (now_ms : N) : outcome (CompletionDecision * ExecutionReceipt) :=
  let_some r := c.(operations) !! id else (c, Err ExecutionError.UnknownOperation) ;;
  return_if negb (bool_decide (r.(SafetyOperation.execution_lane)
                               = OperationExecutionLane.RecoveryEvidenceRead))
            || negb (on_device r.(SafetyOperation.state))
    with (c, Err ExecutionError.InvalidTransition) ;;
  on_admission c (fail_recovery_read_only c.(admission) id) (λ c next,
    let_some r := c.(operations) !! id else (c, Err ExecutionError.UnknownOperation) ;;
    let receipt := Ledger.receipt_for r Failed ExecutionEvidence.RecoveryReadInterrupted now_ms in
    let r := Ledger.set_status (Ledger.set_result (Ledger.set_reason r None) None) None in
    let c := put c id
      (Ledger.settle r Failed ExecutionEvidence.RecoveryReadInterrupted now_ms) in
    (activate_next c next, Ok (next, receipt))).

(** The queued operations of a device other than [id], in the map's order. *)
Definition queued_ids (c : AuthoritativeOperationController) (device_id id : string)
    : list string :=
  (filter (λ kv, kv.1 ≠ id ∧ Ledger.device kv.2 = device_id
                 ∧ kv.2.(SafetyOperation.state) = Queued) (hash_iter c.(operations))).*1.

(** The loop that cancels the queue of a device that becomes quarantined. *)
Fixpoint cancel_queued (c : AuthoritativeOperationController) (ids : list string) (now_ms : N)
    : outcome unit :=
  match ids with
  | [] => (c, Ok tt)
  | id :: ids =>
      on_admission c (cancel c.(admission) id) (λ c decision,
        match decision with
        | CancellationDecision.CancelledBeforeDispatch _ =>
            let_some r := c.(operations) !! id else (c, Err ExecutionError.UnknownOperation) ;;
            cancel_queued (put c id
              (Ledger.settle r Cancelled ExecutionEvidence.CancelledBeforeDispatch now_ms))
              ids now_ms
        | _ => (c, Err ExecutionError.InvalidTransition)
        end)
  end.

Definition indeterminate_record (r : SafetyOperation) (reason : IndeterminateReason)
    : SafetyOperation :=
  Ledger.amend r Indeterminate r.(SafetyOperation.dispatched_at_ms) (Some reason) None None
    r.(SafetyOperation.dispatch_binding)
    (Some (default_reconciliation_status (Some reason) r.(SafetyOperation.dispatch_binding))).

Definition quarantine_of (r : SafetyOperation) (reason : IndeterminateReason) (since_ms : N)
    : DesktopQuarantine :=
  DesktopQuarantine.mk (Ledger.device r) (Ledger.id r) (Ledger.generation r)
    r.(SafetyOperation.owner) reason since_ms.

Definition mark_indeterminate_internal (c : AuthoritativeOperationController) (id : string)
    (reason : IndeterminateReason) (now_ms : N) : outcome CompletionDecision :=
  let_some target := c.(operations) !! id else (c, Err ExecutionError.UnknownOperation) ;;
  return_if negb (bool_decide (target.(SafetyOperation.execution_lane)
                               = OperationExecutionLane.Normal))
            || negb (on_device target.(SafetyOperation.state))
    with (c, Err ExecutionError.InvalidTransition) ;;
  let device_id := Ledger.device target in
  return_if is_some_and (λ q, negb (bool_decide (q.(DesktopQuarantine.operation_id) = id)))
              (c.(quarantines) !! device_id)
    with (c, Err ExecutionError.InvalidTransition) ;;
  let ids := queued_ids c device_id id in
  on_admission c (mark_indeterminate c.(admission) id) (λ c next,
    let '(c, cancelled) := cancel_queued c ids now_ms in
    let_ok _ := cancelled else e => (c, Err e) ;;
    let_some r := c.(operations) !! id else (c, Err ExecutionError.UnknownOperation) ;;
    let c := put c id (indeterminate_record r reason) in
    (set_quarantines c (<[device_id := quarantine_of r reason now_ms]> c.(quarantines)),
     Ok next)).

Definition mark_indeterminate_owned (c : AuthoritativeOperationController) (id : string)
    (owner : OperationOwner) (device_generation : N) (reason : IndeterminateReason)
    (now_ms : N) : outcome CompletionDecision :=
  let_ok _ := checked c id owner device_generation else e => (c, Err e) ;;
  mark_indeterminate_internal c id reason now_ms.

Definition mark_connection_lost (c : AuthoritativeOperationController) (id : string)
    (now_ms : N) : outcome CompletionDecision :=
  if is_recovery_evidence_read c id then
    let '(c, r) := mark_recovery_read_interrupted c id now_ms in
    (c, match r with Ok (next, _) => Ok next | Err e => Err e end)
  else mark_indeterminate_internal c id IndeterminateReason.ConnectionLost now_ms.

Definition mark_reconciliation_evidence_gap (c : AuthoritativeOperationController)
    (id : string) : outcome unit :=
  let_some r := c.(operations) !! id else (c, Err ExecutionError.UnknownOperation) ;;
  return_if negb (bool_decide (r.(SafetyOperation.state) = Indeterminate))
            || negb (bool_decide (r.(SafetyOperation.reconciliation_status)
                                  = Some ReconciliationStatus.AutoReconciling))
    with (c, Err ExecutionError.InvalidTransition) ;;
  (put c id (Ledger.set_status r (Some ReconciliationStatus.UnrecoverableEvidenceGap)), Ok tt).

Definition mark_reconciliation_operator_required (c : AuthoritativeOperationController)
    (id : string) : outcome unit :=
  let_some r := c.(operations) !! id else (c, Err ExecutionError.UnknownOperation) ;;
  return_if negb (bool_decide (r.(SafetyOperation.state) = Indeterminate))
    with (c, Err ExecutionError.InvalidTransition) ;;
  (put c id (Ledger.set_status r (Some ReconciliationStatus.OperatorRequired)), Ok tt).

(** The fence of [reconcile_authoritative_terminal]: the record is the one the
    evidence is about. *)
Definition evidence_matches (r : SafetyOperation) (t : AgentTerminalEvidence) : bool :=
  bool_decide (r.(SafetyOperation.state) = Indeterminate)
  && bool_decide (r.(SafetyOperation.reconciliation_status)
                  = Some ReconciliationStatus.AutoReconciling)
  && bool_decide (r.(SafetyOperation.operation) = t.(AgentTerminalEvidence.operation))
  && bool_decide (r.(SafetyOperation.capability) = t.(AgentTerminalEvidence.capability))
  && bool_decide (r.(SafetyOperation.dispatch_binding) = Some (evidence_binding t)).

Definition reconcile_authoritative_terminal (c : AuthoritativeOperationController)
    (t : AgentTerminalEvidence) (now_ms : N)
    : outcome (CompletionDecision * ExecutionReceipt) :=
  let_ok _ := validate_terminal_evidence t else e => (c, Err e) ;;
  let id := t.(AgentTerminalEvidence.operation).(OperationRef.operation_id) in
  let terminal := t.(AgentTerminalEvidence.terminal_state) in
  let evidence := t.(AgentTerminalEvidence.evidence) in
  let_some r := c.(operations) !! id else (c, Err ExecutionError.UnknownOperation) ;;
  return_if negb (evidence_matches r t) with (c, Err ExecutionError.OwnershipFenceMismatch) ;;
  let_some q := c.(quarantines) !! Ledger.device r
    else (c, Err ExecutionError.InvalidTransition) ;;
  return_if negb (bool_decide (q.(DesktopQuarantine.operation_id) = id))
            || negb (q.(DesktopQuarantine.device_generation)
                     =? t.(AgentTerminalEvidence.operation).(OperationRef.device_generation))%N
    with (c, Err ExecutionError.OwnershipFenceMismatch) ;;
  on_admission c (reconcile_indeterminate_terminal c.(admission) id terminal) (λ c next,
    let_some r := c.(operations) !! id else (c, Err ExecutionError.UnknownOperation) ;;
    let receipt := Ledger.receipt_for r terminal evidence now_ms in
    let r := Ledger.set_result (Ledger.set_status (Ledger.set_reason r None)
               (Some ReconciliationStatus.AutoResolved)) None in
    let c := put c id (Ledger.settle r terminal evidence now_ms) in
    let_some binding := r.(SafetyOperation.dispatch_binding)
      else (c, Err ExecutionError.InvalidTransition) ;;
    let c := set_quarantines c (delete (Ledger.device r) c.(quarantines)) in
    let c := push_auto_resolution c (AutoResolutionRecord.mk r.(SafetyOperation.operation)
               r.(SafetyOperation.capability) terminal evidence binding now_ms) in
    (activate_next c next, Ok (next, receipt))).

(** [matches!(capability, TypeText | BrowserType)] *)
Definition types_text (capability : DeviceCapability) : bool :=
  match capability with
  | DeviceCapability.TypeText | DeviceCapability.BrowserType => true
  | _ => false
  end.

Definition resolve_indeterminate_by (c : AuthoritativeOperationController) (id : string)
    (resolver : OperationOwner) (decision : IndeterminateResolution) (evidence : string)
    (now_ms : N) : outcome (CompletionDecision * ExecutionReceipt) :=
  return_if trim_is_empty evidence || (MAX_RESOLUTION_EVIDENCE_BYTES <? slen evidence)%N
    with (c, Err ExecutionError.InvalidOperation) ;;
  let_some r := c.(operations) !! id else (c, Err ExecutionError.UnknownOperation) ;;
  return_if negb (bool_decide (r.(SafetyOperation.state) = Indeterminate))
    with (c, Err ExecutionError.InvalidTransition) ;;
  let_some q := c.(quarantines) !! Ledger.device r
    else (c, Err ExecutionError.InvalidTransition) ;;
  return_if negb (bool_decide (q.(DesktopQuarantine.operation_id) = id))
            || negb (q.(DesktopQuarantine.device_generation) =? Ledger.generation r)%N
    with (c, Err ExecutionError.InvalidTransition) ;;
  return_if bool_decide (decision = IndeterminateResolution.ConfirmedEffectAppliedUncommitted)
            && negb (types_text r.(SafetyOperation.capability))
    with (c, Err ExecutionError.InvalidTransition) ;;
  on_admission c (resolve_indeterminate c.(admission) id decision) (λ c next,
    let terminal := resolved_state decision in
    let_some r := c.(operations) !! id else (c, Err ExecutionError.UnknownOperation) ;;
    let receipt := Ledger.receipt_for r terminal ExecutionEvidence.OperatorResolution now_ms in
    let r := Ledger.set_status (Ledger.set_reason r None) None in
    let c := put c id (Ledger.settle r terminal ExecutionEvidence.OperatorResolution now_ms) in
    let c := set_quarantines c (delete (Ledger.device r) c.(quarantines)) in
    let c := set_resolutions c (c.(resolutions) ++
               [ResolutionRecord.mk id (Ledger.device r) (Ledger.generation r) resolver decision
                  evidence now_ms]) in
    (activate_next c next, Ok (next, receipt))).

(** ** Retirement *)

(** [self.mutation_resume_barriers.values().any(..)]: a barrier names the
    retirement as its source. *)
Definition barrier_source (c : AuthoritativeOperationController) (r : RetirementRecord) : bool :=
  existsb (λ kv, bool_decide (kv.2.(MutationResumeBarrier.source_operation_id)
             = r.(RetirementRecord.operation).(OperationRef.operation_id)))
    (hash_iter c.(mutation_resume_barriers)).

(** The order of [min_by]: retirement time, then identifier. *)
Definition retired_before (a b : RetirementRecord) : bool :=
  (a.(RetirementRecord.retired_at_ms) <? b.(RetirementRecord.retired_at_ms))%N
  || ((a.(RetirementRecord.retired_at_ms) =? b.(RetirementRecord.retired_at_ms))%N
      && String.ltb a.(RetirementRecord.operation).(OperationRef.operation_id)
           b.(RetirementRecord.operation).(OperationRef.operation_id)).

(** [iter().enumerate().filter(keep).min_by(..)]: the first of the least *)
Fixpoint min_index_from {A} (keep : A → bool) (before : A → A → bool) (i : nat)
    (best : option (nat * A)) (l : list A) : option (nat * A) :=
  match l with
  | [] => best
  | a :: l =>
      let best :=
        if keep a then
          match best with
          | None => Some (i, a)
          | Some (_, b) => if before a b then Some (i, a) else best
          end
        else best in
      min_index_from keep before (S i) best l
  end.

Definition min_index {A} (keep : A → bool) (before : A → A → bool) (l : list A)
    : option (nat * A) := min_index_from keep before 0 None l.

(** The resume record that proves how the barrier of a retirement ended. *)
Definition resume_of (retired : RetirementRecord) (m : MutationResumeRecord) : bool :=
  bool_decide (m.(MutationResumeRecord.source_operation_id)
               = retired.(RetirementRecord.operation).(OperationRef.operation_id))
  && bool_decide (m.(MutationResumeRecord.device_id)
                  = retired.(RetirementRecord.operation).(OperationRef.device_id))
  && (m.(MutationResumeRecord.accepted_generation)
      =? retired.(RetirementRecord.authorized_device_generation))%N
  && bool_decide (m.(MutationResumeRecord.policy) = retired.(RetirementRecord.policy)).

(** [remove(position(p)?)] *)
Fixpoint remove_first {A} (p : A → bool) (l : list A) : option (list A) :=
  match l with
  | [] => None
  | a :: l => if p a then Some l else (λ l, a :: l) <$> remove_first p l
  end.

(** One iteration of the loop of [rotate_retirement_history]. *)
Definition rotate_step (c : AuthoritativeOperationController) : outcome unit :=
  let_some oldest := min_index (λ r, negb (barrier_source c r)) retired_before c.(retirements)
    else (c, Err ExecutionError.InvalidTransition) ;;
  let '(index, retired) := oldest in
  let id := retired.(RetirementRecord.operation).(OperationRef.operation_id) in
  let c := set_retirements c (delete index c.(retirements)) in
  let_some c :=
    match retired.(RetirementRecord.policy) with
    | RetirementPolicy.AcknowledgedUnknownPointerClickV1 =>
        set_resumes c <$> remove_first (resume_of retired) c.(mutation_resumes)
    | RetirementPolicy.TransientUiInteractionV1 => Some c
    end else (c, Err ExecutionError.InvalidTransition) ;;
  on_admission c (compact_retired_indeterminate_detail c.(admission) id) (λ c _,
    let_some _ := c.(operations) !! id else (c, Err ExecutionError.InvalidTransition) ;;
    (set_operations c (delete id c.(operations)), Ok tt)).

(** The [while] loop. Every iteration that does not return removes one record,
    so the length of the history bounds the iterations. *)
Fixpoint rotate_retirements (fuel : nat) (c : AuthoritativeOperationController) : outcome unit :=
  return_if (vlen c.(retirements) <=? MAX_RETIREMENT_RECORDS)%N with (c, Ok tt) ;;
  match fuel with
  | O => (c, Ok tt)
  | S fuel =>
      let '(c, r) := rotate_step c in
      let_ok _ := r else e => (c, Err e) ;; rotate_retirements fuel c
  end.

Definition rotate_retirement_history (c : AuthoritativeOperationController) : outcome unit :=
  rotate_retirements (length c.(retirements)) c.

(** The loop that settles the records of the operations cancelled with the
    acceptance of the current state. *)
Fixpoint settle_cancelled (c : AuthoritativeOperationController) (queued : list OperationRef)
    (now_ms : N) : outcome unit :=
  match queued with
  | [] => (c, Ok tt)
  | q :: queued =>
      let id := q.(OperationRef.operation_id) in
      let_some r := c.(operations) !! id else (c, Err ExecutionError.InvalidTransition) ;;
      return_if negb (bool_decide (r.(SafetyOperation.state) = Queued))
        with (c, Err ExecutionError.InvalidTransition) ;;
      settle_cancelled
        (put c id (Ledger.settle r Cancelled ExecutionEvidence.CancelledBeforeDispatch now_ms))
        queued now_ms
  end.

(** The checks of [retire_indeterminate_with_disposition] before any change: the
    retirement record they establish. *)
Definition retirement_for (c : AuthoritativeOperationController) (id : string)
    (t : RetirementTransition) : result ExecutionError RetirementRecord :=
  let reason := t.(RetirementTransition.reason) in
  let disposition := t.(RetirementTransition.disposition) in
  let authorized := t.(RetirementTransition.authorized_device_generation) in
  return_if trim_is_empty reason || (MAX_RETIREMENT_REASON_BYTES <? slen reason)%N
    with Err ExecutionError.InvalidOperation ;;
  return_if existsb (λ r, bool_decide
              (r.(RetirementRecord.operation).(OperationRef.operation_id) = id)) c.(retirements)
    with Err ExecutionError.InvalidTransition ;;
  let_some r := c.(operations) !! id else Err ExecutionError.UnknownOperation ;;
  return_if negb (bool_decide (r.(SafetyOperation.state) = Indeterminate))
            || opt_none r.(SafetyOperation.dispatched_at_ms)
            || opt_some r.(SafetyOperation.receipt)
            || opt_some r.(SafetyOperation.recoverable_result)
            || (authorized <=? Ledger.generation r)%N
    with Err ExecutionError.InvalidTransition ;;
  let status := default ReconciliationStatus.OperatorRequired
                  r.(SafetyOperation.reconciliation_status) in
  return_if negb (needs_operator status) with Err ExecutionError.InvalidTransition ;;
  let_some policy := disposition_policy disposition r.(SafetyOperation.capability)
    else Err ExecutionError.InvalidTransition ;;
  return_if negb (bool_decide (policy = t.(RetirementTransition.requested_policy)))
    with Err ExecutionError.InvalidTransition ;;
  let_some indeterminate_reason := r.(SafetyOperation.indeterminate_reason)
    else Err ExecutionError.InvalidTransition ;;
  let_some q := c.(quarantines) !! Ledger.device r else Err ExecutionError.InvalidTransition ;;
  return_if negb (bool_decide (q.(DesktopQuarantine.operation_id) = id))
            || negb (q.(DesktopQuarantine.device_generation) =? Ledger.generation r)%N
            || negb (bool_decide (q.(DesktopQuarantine.reason) = indeterminate_reason))
    with Err ExecutionError.InvalidTransition ;;
  let retirement := RetirementRecord.mk r.(SafetyOperation.operation)
    r.(SafetyOperation.capability) RetirementOutcome.Unknown indeterminate_reason status policy
    disposition t.(RetirementTransition.authority) reason authorized
    t.(RetirementTransition.now_ms) false in
  return_if negb (valid_retirement retirement) with Err ExecutionError.InvalidTransition ;;
  Ok retirement.

Definition barrier_for (r : RetirementRecord) : MutationResumeBarrier :=
  MutationResumeBarrier.mk r.(RetirementRecord.operation).(OperationRef.device_id)
    r.(RetirementRecord.operation).(OperationRef.operation_id)
    r.(RetirementRecord.operation).(OperationRef.device_generation)
    r.(RetirementRecord.authorized_device_generation) r.(RetirementRecord.policy)
    r.(RetirementRecord.retired_at_ms).

Definition requires_mutation_barrier (r : RetirementRecord) : bool :=
  bool_decide (r.(RetirementRecord.disposition) = RetirementDisposition.CurrentStateAccepted)
  && bool_decide (r.(RetirementRecord.policy)
                  = RetirementPolicy.AcknowledgedUnknownPointerClickV1).

(** The change of admission, queue and barrier that a retirement makes. *)
Definition retire_in_admission (c : AuthoritativeOperationController) (id : string)
    (r : RetirementRecord) : outcome CompletionDecision :=
  let device_id := r.(RetirementRecord.operation).(OperationRef.device_id) in
  if requires_mutation_barrier r then
    return_if bool_decide (is_Some (c.(mutation_resume_barriers) !! device_id))
      with (c, Err ExecutionError.InvalidTransition) ;;
    on_admission c (retire_indeterminate_and_cancel_queued c.(admission) id) (λ c cancelled,
      let '(c, settled) := settle_cancelled c cancelled r.(RetirementRecord.retired_at_ms) in
      let_ok _ := settled else e => (c, Err e) ;;
      (set_barriers c (<[device_id := barrier_for r]> c.(mutation_resume_barriers)),
       Ok CompletionDecision.Idle))
  else
    on_admission c (retire_indeterminate c.(admission) id) (λ c next, (c, Ok next)).

Definition retire_indeterminate_with_disposition (c : AuthoritativeOperationController)
    (id : string) (t : RetirementTransition) : outcome (CompletionDecision * RetirementRecord) :=
  let_ok retirement := retirement_for c id t else e => (c, Err e) ;;
  let '(c, retired) := retire_in_admission c id retirement in
  let_ok next := retired else e => (c, Err e) ;;
  let c := set_quarantines c
    (delete retirement.(RetirementRecord.operation).(OperationRef.device_id) c.(quarantines)) in
  let c := set_retirements c (c.(retirements) ++ [retirement]) in
  let '(c, rotated) := rotate_retirement_history c in
  let_ok _ := rotated else e => (c, Err e) ;;
  (activate_next c next, Ok (next, retirement)).

Definition retire_indeterminate_by (c : AuthoritativeOperationController) (id : string)
    (authority : RetirementAuthority) (requested_policy : RetirementPolicy) (reason : string)
    (authorized_device_generation now_ms : N) : outcome (CompletionDecision * RetirementRecord) :=
  return_if negb (bool_decide (authority = RetirementAuthority.LocalMaintenanceOperator))
    with (c, Err ExecutionError.InvalidTransition) ;;
  retire_indeterminate_with_disposition c id (RetirementTransition.mk
    RetirementDisposition.Retired authority requested_policy reason
    authorized_device_generation now_ms).

Definition accept_current_state (c : AuthoritativeOperationController) (id : string)
    (requested_policy : RetirementPolicy) (reason : string)
    (authorized_device_generation now_ms : N) : outcome (CompletionDecision * RetirementRecord) :=
  retire_indeterminate_with_disposition c id (RetirementTransition.mk
    RetirementDisposition.CurrentStateAccepted RetirementAuthority.LocalUserPresence
    requested_policy reason authorized_device_generation now_ms).

Definition resume_mutations (c : AuthoritativeOperationController)
    (device_id source_operation_id : string) (authority : RetirementAuthority)
    (authorized_device_generation : N) (reason : string) (now_ms : N)
    : outcome MutationResumeRecord :=
  return_if negb (bool_decide (authority = RetirementAuthority.LocalUserPresence))
            || trim_is_empty reason
            || (MAX_RETIREMENT_REASON_BYTES <? slen reason)%N
    with (c, Err ExecutionError.InvalidOperation) ;;
  let_some b := c.(mutation_resume_barriers) !! device_id
    else (c, Err ExecutionError.InvalidTransition) ;;
  return_if negb (bool_decide (b.(MutationResumeBarrier.source_operation_id)
                               = source_operation_id))
            || (authorized_device_generation <=? b.(MutationResumeBarrier.accepted_generation))%N
    with (c, Err ExecutionError.InvalidTransition) ;;
  let record := MutationResumeRecord.mk b.(MutationResumeBarrier.device_id)
    b.(MutationResumeBarrier.source_operation_id) b.(MutationResumeBarrier.accepted_generation)
    authorized_device_generation b.(MutationResumeBarrier.policy) authority reason now_ms in
  return_if negb (valid_resume record)
            || (MAX_RETIREMENT_RECORDS <=? vlen c.(mutation_resumes))%N
    with (c, Err ExecutionError.InvalidTransition) ;;
  let c := set_barriers c (delete device_id c.(mutation_resume_barriers)) in
  (set_resumes c (c.(mutation_resumes) ++ [record]), Ok record).

(** ** Queries *)

Definition retirement_capacity_used (c : AuthoritativeOperationController) : N :=
  setlen c.(admission).(retired_indeterminate).

Definition retirement_capacity (c : AuthoritativeOperationController) : RetirementCapacity :=
  let used := retirement_capacity_used c in
  let limit := MAX_RETIRED_OPERATION_TOMBSTONES in
  let status :=
    if (limit <=? used)%N then RetirementCapacityStatus.Exhausted
    else if (saturating_mul limit 90 <=? saturating_mul used 100)%N
    then RetirementCapacityStatus.Critical
    else if (saturating_mul limit 75 <=? saturating_mul used 100)%N
    then RetirementCapacityStatus.Warning
    else RetirementCapacityStatus.Normal in
  RetirementCapacity.mk used limit (vlen c.(retirements)) MAX_RETIREMENT_RECORDS status.

Definition state_of (c : AuthoritativeOperationController) (id : string)
    : option HubOperationState := SafetyOperation.state <$> c.(operations) !! id.

Definition owner_of (c : AuthoritativeOperationController) (id : string)
    : option OperationOwner := SafetyOperation.owner <$> c.(operations) !! id.

Definition receipt_of (c : AuthoritativeOperationController) (id : string)
    : option ExecutionReceipt := c.(operations) !! id ≫= SafetyOperation.receipt.

(** [matches!(state, Queued | ActiveNotDispatched | Dispatched | CancelRequested)] *)
Definition unsettled (s : HubOperationState) : bool :=
  bool_decide (s = Queued) || live s.

Definition has_unsettled_work (c : AuthoritativeOperationController) (device_id : string) : bool :=
  existsb (λ kv, bool_decide (Ledger.device kv.2 = device_id)
                 && unsettled kv.2.(SafetyOperation.state)) (hash_iter c.(operations)).

Definition recovery_for_owner (c : AuthoritativeOperationController) (id : string)
    (owner : OperationOwner) : result ExecutionError OperationRecoverySnapshot :=
  match opt_filter (λ r, bool_decide (r.(SafetyOperation.owner) = owner))
          (c.(operations) !! id) with
  | Some r =>
      Ok (OperationRecoverySnapshot.mk r.(SafetyOperation.operation)
            r.(SafetyOperation.capability) r.(SafetyOperation.state)
            r.(SafetyOperation.indeterminate_reason) r.(SafetyOperation.receipt)
            r.(SafetyOperation.recoverable_result))
  | None =>
      let_some a := opt_filter (λ a, bool_decide (a.(ArchivedOperationRecovery.owner) = owner))
                      (c.(recovery_archive) !! id) else Err ExecutionError.UnknownOperation ;;
      Ok (OperationRecoverySnapshot.mk a.(ArchivedOperationRecovery.operation)
            a.(ArchivedOperationRecovery.capability) a.(ArchivedOperationRecovery.state) None
            (Some a.(ArchivedOperationRecovery.receipt))
            (Some a.(ArchivedOperationRecovery.result)))
  end.

Definition quarantine_le (a b : DesktopQuarantine) : Prop :=
  String.le a.(DesktopQuarantine.device_id) b.(DesktopQuarantine.device_id).
#[global] Instance quarantine_le_dec : RelDecision quarantine_le.
Proof. intros a b. unfold quarantine_le. apply _. Defined.

Definition inspect_quarantine (c : AuthoritativeOperationController) (q : DesktopQuarantine)
    : result ExecutionError QuarantineInspectionSnapshot :=
  let_some r := c.(operations) !! q.(DesktopQuarantine.operation_id)
    else Err ExecutionError.InvalidSnapshot ;;
  return_if negb (bool_decide (r.(SafetyOperation.state) = Indeterminate))
            || negb (bool_decide (Ledger.device r = q.(DesktopQuarantine.device_id)))
            || negb (Ledger.generation r =? q.(DesktopQuarantine.device_generation))%N
            || negb (bool_decide (r.(SafetyOperation.owner) = q.(DesktopQuarantine.owner)))
            || negb (bool_decide (r.(SafetyOperation.indeterminate_reason)
                                  = Some q.(DesktopQuarantine.reason)))
    with Err ExecutionError.InvalidSnapshot ;;
  Ok (QuarantineInspectionSnapshot.mk r.(SafetyOperation.operation)
        r.(SafetyOperation.capability) r.(SafetyOperation.audit)
        r.(SafetyOperation.request_fingerprint) r.(SafetyOperation.evidence_envelope)
        r.(SafetyOperation.recovery_target) r.(SafetyOperation.semantic_constraint)
        r.(SafetyOperation.prepared_at_ms) r.(SafetyOperation.dispatched_at_ms)
        q.(DesktopQuarantine.since_ms) q.(DesktopQuarantine.reason)
        (ExecutionReceipt.evidence <$> r.(SafetyOperation.receipt))
        (default ReconciliationStatus.OperatorRequired r.(SafetyOperation.reconciliation_status))
        (opt_some r.(SafetyOperation.dispatch_binding))).

Definition quarantine_inspections (c : AuthoritativeOperationController)
    : result ExecutionError (list QuarantineInspectionSnapshot) :=
  collect (inspect_quarantine c) (merge_sort quarantine_le (hash_iter c.(quarantines)).*2).

(** ** The recovery archive *)

Section Archive.
Context `{RecoverySerializer}.

Definition attach_recoverable_result (c : AuthoritativeOperationController) (id : string)
    (owner : OperationOwner) (device_generation : N) (result : RecoverableOperationResult)
    : outcome unit :=
  let_ok r := checked c id owner device_generation else e => (c, Err e) ;;
  return_if opt_none r.(SafetyOperation.receipt)
            || negb (result_valid_for result r.(SafetyOperation.capability)
                       r.(SafetyOperation.state))
            || is_none_or (λ len, MAX_RECOVERY_ARCHIVE_BYTES <? len)%N (result_json_len result)
            || opt_some r.(SafetyOperation.recoverable_result)
    with (c, Err ExecutionError.InvalidTransition) ;;
  let_some r := c.(operations) !! id else (c, Err ExecutionError.UnknownOperation) ;;
  (put c id (Ledger.set_result r (Some result)), Ok tt).

Definition encoded_len (a : ArchivedOperationRecovery) : N :=
  default u64_max (archived_json_len a).

Definition recovery_archive_encoded_bytes (archive : gmap string ArchivedOperationRecovery) : N :=
  foldl saturating_add 0%N (encoded_len <$> (hash_iter archive).*2).

Definition archived_id (a : ArchivedOperationRecovery) : string :=
  a.(ArchivedOperationRecovery.operation).(OperationRef.operation_id).

Definition archived_at (a : ArchivedOperationRecovery) : N :=
  a.(ArchivedOperationRecovery.receipt).(ExecutionReceipt.finalized_at_ms).

Definition archived_before (a b : ArchivedOperationRecovery) : bool :=
  (archived_at a <? archived_at b)%N
  || ((archived_at a =? archived_at b)%N && String.ltb (archived_id a) (archived_id b)).

(** The [while] loop; its fuel is the number of entries. *)
Fixpoint bound_archive (fuel : nat) (archive : gmap string ArchivedOperationRecovery)
    : gmap string ArchivedOperationRecovery :=
  return_if negb ((MAX_RECOVERY_ARCHIVE_ENTRIES <? mlen archive)%N
                  || (MAX_RECOVERY_ARCHIVE_BYTES <? recovery_archive_encoded_bytes archive)%N)
    with archive ;;
  match fuel with
  | O => archive
  | S fuel =>
      let_some oldest := min_index (λ _, true) archived_before (hash_iter archive).*2
        else archive ;;
      bound_archive fuel (delete (archived_id oldest.2) archive)
  end.

Definition bound_recovery_archive (c : AuthoritativeOperationController)
    : AuthoritativeOperationController :=
  set_archive c (bound_archive (size c.(recovery_archive)) c.(recovery_archive)).

(** The records a prune removes, and whether they leave a result to keep. *)
Definition prunable_record (device_id : string) (current_generation : N) (r : SafetyOperation)
    : bool :=
  bool_decide (Ledger.device r = device_id)
  && (Ledger.generation r <? current_generation)%N
  && settled r.(SafetyOperation.state).

Definition archive_entry (r : SafetyOperation) : result ExecutionError ArchivedOperationRecovery :=
  let_some receipt := r.(SafetyOperation.receipt) else Err ExecutionError.InvalidTransition ;;
  let_some result := r.(SafetyOperation.recoverable_result)
    else Err ExecutionError.InvalidTransition ;;
  Ok (ArchivedOperationRecovery.mk r.(SafetyOperation.operation) r.(SafetyOperation.owner)
        r.(SafetyOperation.capability) r.(SafetyOperation.state) receipt result
        r.(SafetyOperation.semantic_constraint)).

(** The loop that inserts the entries, refusing an invalid one. *)
Fixpoint archive_all (c : AuthoritativeOperationController)
    (entries : list ArchivedOperationRecovery) : outcome unit :=
  match entries with
  | [] => (c, Ok tt)
  | a :: entries =>
      return_if negb (valid_archived a) with (c, Err ExecutionError.InvalidTransition) ;;
      archive_all (set_archive c (<[archived_id a := a]> c.(recovery_archive))) entries
  end.

Definition prune_terminal (c : AuthoritativeOperationController)
    (device_id : string) (current_generation : N) : outcome N :=
  return_if trim_is_empty device_id || (current_generation =? 0)%N
    with (c, Err ExecutionError.InvalidOperation) ;;
  let_ok entries := collect (λ kv, archive_entry kv.2)
    (filter (λ kv, prunable_record device_id current_generation kv.2
                   && opt_some kv.2.(SafetyOperation.recoverable_result) = true)
       (hash_iter c.(operations))) else e => (c, Err e) ;;
  let '(c, archived) := archive_all c entries in
  let_ok _ := archived else e => (c, Err e) ;;
  let c := bound_recovery_archive c in
  on_admission c (prune_terminal_before_generation c.(admission) device_id current_generation)
    (λ c removed,
      (set_operations c (filter (λ kv,
         prunable_record device_id current_generation kv.2 = false) c.(operations)),
       Ok removed)).
End Archive.
End Operations.
End Controller.
