(* ===== verification/ControllerSnapshot.v ===== *)
(** * Persistence of the controller

    [snapshot_for_restart], [snapshot_for_restart_compatible_with] and
    [restore_after_restart] of [src/src/v2_execution_safety.rs], phase by phase:
    the schema gate, the ledger, the agreement with admission, the archive, the
    quarantines, the retirements, the barriers and resumes, the auto-resolution
    history. *)

From S2P Require Import Prelude Vocabulary Protocol Tombstone Admission SafetyTypes.
From S2P Require Import Evidence Controller.
Import HubOperationState Controller.

Module ControllerSnapshot.
Import AuthoritativeSafetySnapshot.

(** ** Schema versions *)
Definition RECOVERY_TARGET_EXECUTION_SAFETY_SCHEMA_VERSION : N := 14.
Definition MUTATION_RESUME_EXECUTION_SAFETY_SCHEMA_VERSION : N := 13.
Definition SEMANTIC_CONSTRAINT_EXECUTION_SAFETY_SCHEMA_VERSION : N := 12.
Definition REPLAY_TOMBSTONE_EXECUTION_SAFETY_SCHEMA_VERSION : N := 11.
Definition CURRENT_STATE_ACCEPTANCE_EXECUTION_SAFETY_SCHEMA_VERSION : N := 10.
Definition EFFECTFUL_RECOVERY_EXECUTION_SAFETY_SCHEMA_VERSION : N := 9.
Definition RECOVERY_EVIDENCE_READ_EXECUTION_SAFETY_SCHEMA_VERSION : N := 8.
Definition EVIDENCE_ENVELOPE_EXECUTION_SAFETY_SCHEMA_VERSION : N := 7.
Definition PARTIAL_INPUT_EXECUTION_SAFETY_SCHEMA_VERSION : N := 6.
Definition RETIREMENT_EXECUTION_SAFETY_SCHEMA_VERSION : N := 5.
Definition RECONCILIATION_EXECUTION_SAFETY_SCHEMA_VERSION : N := 4.
Definition AUDIT_EXECUTION_SAFETY_SCHEMA_VERSION : N := 3.
Definition RECOVERY_EXECUTION_SAFETY_SCHEMA_VERSION : N := 2.
Definition LEGACY_EXECUTION_SAFETY_SCHEMA_VERSION : N := 1.

(** ** Orders of the sorted lists *)

Definition record_le (a b : SafetyOperation) : Prop := String.le (Ledger.id a) (Ledger.id b).
#[global] Instance record_le_dec : RelDecision record_le.
Proof. intros a b. unfold record_le. apply _. Defined.

Definition archived_le (a b : ArchivedOperationRecovery) : Prop :=
  String.le (archived_id a) (archived_id b).
#[global] Instance archived_le_dec : RelDecision archived_le.
Proof. intros a b. unfold archived_le. apply _. Defined.

Definition barrier_le (a b : MutationResumeBarrier) : Prop :=
  String.le a.(MutationResumeBarrier.device_id) b.(MutationResumeBarrier.device_id).
#[global] Instance barrier_le_dec : RelDecision barrier_le.
Proof. intros a b. unfold barrier_le. apply _. Defined.

Definition resume_le (a b : MutationResumeRecord) : Prop :=
  (a.(MutationResumeRecord.resumed_at_ms) < b.(MutationResumeRecord.resumed_at_ms))%N ∨
  a.(MutationResumeRecord.resumed_at_ms) = b.(MutationResumeRecord.resumed_at_ms) ∧
  String.le a.(MutationResumeRecord.source_operation_id)
    b.(MutationResumeRecord.source_operation_id).
#[global] Instance resume_le_dec : RelDecision resume_le.
Proof. intros a b. unfold resume_le. apply _. Defined.

(** ** Taking a snapshot *)

(** What a restart makes of a record. *)
Definition restart_record (r : SafetyOperation) : SafetyOperation :=
  let dispatched_at := default r.(SafetyOperation.prepared_at_ms)
                         r.(SafetyOperation.dispatched_at_ms) in
  let recovery_read := bool_decide (r.(SafetyOperation.execution_lane)
                                    = OperationExecutionLane.RecoveryEvidenceRead) in
  match r.(SafetyOperation.state) with
  | Queued | ActiveNotDispatched =>
      Ledger.set_result (Ledger.settle r Cancelled ExecutionEvidence.CancelledBeforeDispatch
        r.(SafetyOperation.prepared_at_ms)) None
  | Dispatched | CancelRequested =>
      if recovery_read then
        Ledger.set_result (Ledger.settle (Ledger.set_reason r None) Failed
          ExecutionEvidence.RecoveryReadInterrupted dispatched_at) None
      else
        let reason := Some IndeterminateReason.HubRestartAfterDispatch in
        Ledger.amend r Indeterminate r.(SafetyOperation.dispatched_at_ms) reason None None
          r.(SafetyOperation.dispatch_binding)
          (Some (default (default_reconciliation_status reason
                            r.(SafetyOperation.dispatch_binding))
                   r.(SafetyOperation.reconciliation_status)))
  | Indeterminate =>
      Ledger.set_status r
        (Some (default (default_reconciliation_status r.(SafetyOperation.indeterminate_reason)
                          r.(SafetyOperation.dispatch_binding))
                 r.(SafetyOperation.reconciliation_status)))
  | Completed | Failed | Cancelled => r
  end.

(** The quarantine a restart adds for a record, if any. *)
Definition restart_quarantine (r : SafetyOperation) : option DesktopQuarantine :=
  if on_device r.(SafetyOperation.state)
     && negb (bool_decide (r.(SafetyOperation.execution_lane)
                           = OperationExecutionLane.RecoveryEvidenceRead))
  then Some (quarantine_of r IndeterminateReason.HubRestartAfterDispatch
               (default r.(SafetyOperation.prepared_at_ms) r.(SafetyOperation.dispatched_at_ms)))
  else None.

Definition restart_quarantines (l : list SafetyOperation)
    (q : gmap string DesktopQuarantine) : gmap string DesktopQuarantine :=
  foldl (λ q r, match restart_quarantine r with
                | Some d => <[Ledger.device r := d]> q
                | None => q
                end) q l.

Section Snapshot.
Context `{Base64Url} `{HashIter}.

(** [None] is the panic of [HubAdmissionController::snapshot_for_restart]. *)
Definition snapshot_controller (c : AuthoritativeOperationController)
    : option AuthoritativeSafetySnapshot :=
  let_some admission := snapshot_for_restart c.(Controller.admission) else None ;;
  let records := (hash_iter c.(Controller.operations)).*2 in
  let quarantines := restart_quarantines records c.(Controller.quarantines) in
  Some (mk EXECUTION_SAFETY_SCHEMA_VERSION admission
    (merge_sort record_le (restart_record <$> records))
    (merge_sort archived_le (hash_iter c.(recovery_archive)).*2)
    (merge_sort quarantine_le (hash_iter quarantines).*2)
    c.(Controller.resolutions) c.(Controller.auto_resolutions) c.(Controller.retirements)
    (merge_sort barrier_le (hash_iter c.(Controller.mutation_resume_barriers)).*2)
    (merge_sort resume_le c.(Controller.mutation_resumes))).
End Snapshot.

(** ** The features a snapshot uses, by the schema that introduced them *)
Section Features.
Variable s : AuthoritativeSafetySnapshot.

Definition has_audit_state : bool :=
  existsb (λ r, negb (audit_is_empty r.(SafetyOperation.audit))
                || opt_some r.(SafetyOperation.request_fingerprint)) s.(operations).

Definition has_reconciliation_state : bool :=
  existsb (λ r, opt_some r.(SafetyOperation.dispatch_binding)
                || opt_some r.(SafetyOperation.reconciliation_status)) s.(operations)
  || negb (bool_decide (s.(auto_resolutions) = [])).

Definition has_v6_state : bool :=
  existsb (λ r, bool_decide (r.(ResolutionRecord.decision)
                  = IndeterminateResolution.ConfirmedEffectAppliedUncommitted)) s.(resolutions).

Definition has_v7_state : bool :=
  existsb (λ r, opt_some r.(SafetyOperation.evidence_envelope)) s.(operations).

Definition has_v8_state : bool :=
  existsb (λ r, bool_decide (r.(SafetyOperation.execution_lane)
                             = OperationExecutionLane.RecoveryEvidenceRead)
                || is_some_and (λ x, bool_decide (x.(ExecutionReceipt.evidence)
                                       = ExecutionEvidence.RecoveryReadInterrupted))
                     r.(SafetyOperation.receipt)) s.(operations).

Definition has_v9_state : bool :=
  existsb (λ r, bool_decide (r.(SafetyOperation.recoverable_result)
                             = Some RecoverableOperationResult.EffectfulStatus)) s.(operations)
  || existsb (λ r, bool_decide (r.(ArchivedOperationRecovery.result)
                                = RecoverableOperationResult.EffectfulStatus)) s.(recoveries).

Definition has_v10_state : bool :=
  existsb (λ r, bool_decide (r.(RetirementRecord.disposition)
                             = RetirementDisposition.CurrentStateAccepted)
                || bool_decide (r.(RetirementRecord.authority)
                                = RetirementAuthority.LocalUserPresence)) s.(retirements).

Definition has_v12_semantic_constraint_state : bool :=
  existsb (λ r, opt_some r.(SafetyOperation.semantic_constraint)) s.(operations)
  || existsb (λ r, opt_some r.(ArchivedOperationRecovery.semantic_constraint)) s.(recoveries).

Definition has_v13_mutation_resume_state : bool :=
  negb (bool_decide (s.(mutation_resume_barriers) = []))
  || negb (bool_decide (s.(mutation_resumes) = []))
  || existsb (λ r, bool_decide (r.(RetirementRecord.policy)
                     = RetirementPolicy.AcknowledgedUnknownPointerClickV1)) s.(retirements)
  || existsb (λ r, is_some_and (λ f, bool_decide (f.(OperationRequestFingerprint.algorithm)
                                       = POINTER_CLICK_FINGERPRINT_ALGORITHM))
                     r.(SafetyOperation.request_fingerprint)) s.(operations).

Definition has_v14_recovery_target_state : bool :=
  existsb (λ r, r.(SafetyOperation.recovery_target_required)
                || opt_some r.(SafetyOperation.recovery_target)) s.(operations).

Definition has_v15_hub_pre_enqueue_non_delivery_state : bool :=
  existsb (λ r, is_some_and (λ x, is_pre_enqueue x.(ExecutionReceipt.evidence))
                  r.(SafetyOperation.receipt)) s.(operations)
  || existsb (λ r, is_pre_enqueue r.(AutoResolutionRecord.evidence)) s.(auto_resolutions).
End Features.

(** ** Snapshots in an older schema *)

Definition relabel_receipt (v : N) (x : ExecutionReceipt) : ExecutionReceipt :=
  ExecutionReceipt.mk v x.(ExecutionReceipt.operation) x.(ExecutionReceipt.owner)
    x.(ExecutionReceipt.capability) x.(ExecutionReceipt.terminal_state)
    x.(ExecutionReceipt.evidence) x.(ExecutionReceipt.finalized_at_ms).

Definition relabel_record (v : N) (r : SafetyOperation) : SafetyOperation :=
  Ledger.set_receipt r (relabel_receipt v <$> r.(SafetyOperation.receipt)).

Definition relabel_archived (v : N) (a : ArchivedOperationRecovery) : ArchivedOperationRecovery :=
  ArchivedOperationRecovery.mk a.(ArchivedOperationRecovery.operation)
    a.(ArchivedOperationRecovery.owner) a.(ArchivedOperationRecovery.capability)
    a.(ArchivedOperationRecovery.state)
    (relabel_receipt v a.(ArchivedOperationRecovery.receipt))
    a.(ArchivedOperationRecovery.result) a.(ArchivedOperationRecovery.semantic_constraint).

(** The schema of the snapshot, of its records and of its archive becomes [v]. *)
Definition relabel (v : N) (s : AuthoritativeSafetySnapshot) : AuthoritativeSafetySnapshot :=
  mk v s.(admission) (relabel_record v <$> s.(operations))
    (relabel_archived v <$> s.(recoveries)) s.(quarantines) s.(resolutions)
    s.(auto_resolutions) s.(retirements) s.(mutation_resume_barriers) s.(mutation_resumes).

Definition with_admission (s : AuthoritativeSafetySnapshot) (a : HubAdmissionSnapshot)
    : AuthoritativeSafetySnapshot :=
  mk s.(schema_version) a s.(operations) s.(recoveries) s.(quarantines) s.(resolutions)
    s.(auto_resolutions) s.(retirements) s.(mutation_resume_barriers) s.(mutation_resumes).

(** [retirements.clear()] and [retired_indeterminate_operation_ids.clear()] *)
Definition without_retirements (s : AuthoritativeSafetySnapshot) : AuthoritativeSafetySnapshot :=
  mk s.(schema_version)
    (mk_admission_snapshot s.(admission).(snap_operations) []
       s.(admission).(snap_retired_tombstones))
    s.(operations) s.(recoveries) s.(quarantines) s.(resolutions) s.(auto_resolutions) []
    s.(mutation_resume_barriers) s.(mutation_resumes).

(** [auto_resolutions.clear()], and no binding or reconciliation status *)
Definition without_reconciliation (s : AuthoritativeSafetySnapshot)
    : AuthoritativeSafetySnapshot :=
  mk s.(schema_version) s.(admission)
    ((λ r, Ledger.amend r r.(SafetyOperation.state) r.(SafetyOperation.dispatched_at_ms)
             r.(SafetyOperation.indeterminate_reason) r.(SafetyOperation.receipt)
             r.(SafetyOperation.recoverable_result) None None) <$> s.(operations))
    s.(recoveries) s.(quarantines) s.(resolutions) [] s.(retirements)
    s.(mutation_resume_barriers) s.(mutation_resumes).

(** The schema 1 arm leaves the (empty) archive as it is. *)
Definition keep_recoveries (old s : AuthoritativeSafetySnapshot) : AuthoritativeSafetySnapshot :=
  mk s.(schema_version) s.(admission) s.(operations) old.(recoveries) s.(quarantines)
    s.(resolutions) s.(auto_resolutions) s.(retirements) s.(mutation_resume_barriers)
    s.(mutation_resumes).

Section Compatible.
Context `{Base64Url} `{HashIter}.

Definition has_v4_state (c : AuthoritativeOperationController) : bool :=
  negb (bool_decide (c.(Controller.auto_resolutions) = []))
  || existsb (λ kv, opt_some kv.2.(SafetyOperation.dispatch_binding)
                    || opt_some kv.2.(SafetyOperation.reconciliation_status))
       (hash_iter c.(Controller.operations)).

Definition has_v5_state (s : AuthoritativeSafetySnapshot) : bool :=
  negb (bool_decide (s.(retirements) = []))
  || negb (bool_decide (s.(admission).(snap_retired_ids) = []))
  || negb (bool_decide (s.(admission).(snap_retired_tombstones) = [])).

Definition has_v11_compacted_state (c : AuthoritativeOperationController) : bool :=
  negb (retirement_capacity_used c =? vlen c.(Controller.retirements))%N.

(** The refusals of the arms of the [match], by target schema. *)
Definition refuses (c : AuthoritativeOperationController) (s : AuthoritativeSafetySnapshot)
    (target : N) : bool :=
  let v10_12 := has_v10_state s || has_v11_compacted_state c
                || has_v12_semantic_constraint_state s in
  let v6_10 := has_v6_state s || has_v7_state s || has_v8_state s || has_v9_state s
               || has_v10_state s in
  let v13 := has_v13_mutation_resume_state s in
  match target with
  | 15 | 14 => false
  | 13 => has_v14_recovery_target_state s
  | 12 => has_v14_recovery_target_state s || v13
  | 11 => v13 || has_v12_semantic_constraint_state s
  | 10 => v13 || has_v11_compacted_state c || has_v12_semantic_constraint_state s
  | 9 => v13 || v10_12
  | 8 => v13 || has_v9_state s || v10_12
  | 7 => v13 || has_v8_state s || has_v9_state s || v10_12
  | 6 => v13 || has_v7_state s || has_v8_state s || has_v9_state s || v10_12
  | 5 => v13 || has_v6_state s || has_v7_state s || has_v8_state s || has_v9_state s || v10_12
  | 4 => v13 || has_v5_state s || has_v6_state s || has_v7_state s || has_v8_state s
         || has_v9_state s || v10_12
  | 3 => v13 || has_v4_state c || has_v5_state s || has_v6_state s || has_v7_state s
         || has_v8_state s || has_v9_state s || v10_12
  | 2 => v13 || has_v4_state c || has_v5_state s || v6_10 || has_audit_state s
  | 1 => v13 || has_v4_state c || has_v5_state s || v6_10
         || negb (bool_decide (s.(recoveries) = []))
         || existsb (λ r, opt_some r.(SafetyOperation.recoverable_result)
                          || negb (audit_is_empty r.(SafetyOperation.audit))
                          || opt_some r.(SafetyOperation.request_fingerprint)) s.(operations)
  | _ => true
  end%N.

(** The rewriting of the arms. The outer option is the panic. *)
Definition rewrite_to (c : AuthoritativeOperationController) (s : AuthoritativeSafetySnapshot)
    (target : N) : option AuthoritativeSafetySnapshot :=
  match target with
  | 15 => Some s
  | 14 | 13 | 12 | 11 => Some (relabel target s)
  | 10 | 9 | 8 | 7 | 6 | 5 =>
      let_some legacy := snapshot_for_restart_legacy_retired_ids c.(Controller.admission)
        else None ;;
      Some (relabel target (with_admission s legacy))
  | 4 => Some (relabel target (without_retirements s))
  | 3 | 2 => Some (relabel target (without_reconciliation (without_retirements s)))
  | _ => Some (keep_recoveries s
                 (relabel target (without_reconciliation (without_retirements s))))
  end%N.

Definition snapshot_for_restart_compatible_with (c : AuthoritativeOperationController)
    (target : N) : option (result ExecutionError AuthoritativeSafetySnapshot) :=
  let_some s := snapshot_controller c else None ;;
  return_if (target <? EXECUTION_SAFETY_SCHEMA_VERSION)%N
            && has_v15_hub_pre_enqueue_non_delivery_state s
    with Some (Err ExecutionError.InvalidSnapshot) ;;
  return_if refuses c s target with Some (Err ExecutionError.InvalidSnapshot) ;;
  Ok <$> rewrite_to c s target.
End Compatible.

(** ** Restoring *)

(** Schema versions 1 to 15 are known. *)
Definition known_schema (v : N) : bool := (1 <=? v)%N && (v <=? EXECUTION_SAFETY_SCHEMA_VERSION)%N.

(** A feature the schema of the snapshot does not have. *)
Definition schema_violation (s : AuthoritativeSafetySnapshot) : bool :=
  let v := s.(schema_version) in
  let before schema feature := (v <? schema)%N && feature in
  before AUDIT_EXECUTION_SAFETY_SCHEMA_VERSION (has_audit_state s)
  || before RECONCILIATION_EXECUTION_SAFETY_SCHEMA_VERSION (has_reconciliation_state s)
  || before RETIREMENT_EXECUTION_SAFETY_SCHEMA_VERSION
       (negb (bool_decide (s.(retirements) = []))
        || negb (bool_decide (s.(admission).(snap_retired_ids) = [])))
  || before REPLAY_TOMBSTONE_EXECUTION_SAFETY_SCHEMA_VERSION
       (negb (bool_decide (s.(admission).(snap_retired_tombstones) = [])))
  || ((REPLAY_TOMBSTONE_EXECUTION_SAFETY_SCHEMA_VERSION <=? v)%N
      && negb (bool_decide (s.(admission).(snap_retired_ids) = [])))
  || before SEMANTIC_CONSTRAINT_EXECUTION_SAFETY_SCHEMA_VERSION
       (has_v12_semantic_constraint_state s)
  || before RECOVERY_TARGET_EXECUTION_SAFETY_SCHEMA_VERSION (has_v14_recovery_target_state s)
  || before EXECUTION_SAFETY_SCHEMA_VERSION (has_v15_hub_pre_enqueue_non_delivery_state s)
  || before MUTATION_RESUME_EXECUTION_SAFETY_SCHEMA_VERSION (has_v13_mutation_resume_state s)
  || before PARTIAL_INPUT_EXECUTION_SAFETY_SCHEMA_VERSION (has_v6_state s)
  || before EVIDENCE_ENVELOPE_EXECUTION_SAFETY_SCHEMA_VERSION (has_v7_state s)
  || before RECOVERY_EVIDENCE_READ_EXECUTION_SAFETY_SCHEMA_VERSION (has_v8_state s)
  || before CURRENT_STATE_ACCEPTANCE_EXECUTION_SAFETY_SCHEMA_VERSION (has_v10_state s)
  || before EFFECTFUL_RECOVERY_EXECUTION_SAFETY_SCHEMA_VERSION (has_v9_state s)
  || ((v =? LEGACY_EXECUTION_SAFETY_SCHEMA_VERSION)%N
      && (negb (bool_decide (s.(recoveries) = []))
          || existsb (λ r, opt_some r.(SafetyOperation.recoverable_result)) s.(operations))).

(** The evidence of a receipt fits the record it is in. *)
Definition receipt_misplaced (r : SafetyOperation) (x : ExecutionReceipt) : bool :=
  let lane := r.(SafetyOperation.execution_lane) in
  (bool_decide (x.(ExecutionReceipt.evidence) = ExecutionEvidence.RecoveryReadInterrupted)
   && (negb (bool_decide (lane = OperationExecutionLane.RecoveryEvidenceRead))
       || negb (bool_decide (r.(SafetyOperation.state) = Failed))))
  || (is_pre_enqueue x.(ExecutionReceipt.evidence)
      && (negb (bool_decide (lane = OperationExecutionLane.Normal))
          || negb (bool_decide (r.(SafetyOperation.state) = Cancelled))
          || negb (bool_decide (r.(SafetyOperation.reconciliation_status)
                                = Some ReconciliationStatus.AutoResolved))
          || opt_none r.(SafetyOperation.dispatch_binding))).

Definition lane_violation (r : SafetyOperation) : bool :=
  bool_decide (r.(SafetyOperation.execution_lane) = OperationExecutionLane.RecoveryEvidenceRead)
  && (negb (is_recovery_evidence_read_only r.(SafetyOperation.capability))
      || bool_decide (r.(SafetyOperation.state) = Indeterminate)
      || opt_some r.(SafetyOperation.dispatch_binding)
      || opt_some r.(SafetyOperation.reconciliation_status)).

Definition invalid_record (r : SafetyOperation) : bool :=
  let capability := r.(SafetyOperation.capability) in
  negb (persistable r.(SafetyOperation.state))
  || is_some_and (λ result, opt_none r.(SafetyOperation.receipt)
                  || negb (result_valid_for result capability r.(SafetyOperation.state)))
       r.(SafetyOperation.recoverable_result)
  || (bool_decide (r.(SafetyOperation.state) = Indeterminate)
      && opt_some r.(SafetyOperation.recoverable_result))
  || is_err (validate_audit r.(SafetyOperation.audit))
  || is_err (validate_some validate_fingerprint r.(SafetyOperation.request_fingerprint))
  || is_err (validate_some (λ e, validate_envelope e capability)
               r.(SafetyOperation.evidence_envelope))
  || (r.(SafetyOperation.recovery_target_required)
      && opt_none r.(SafetyOperation.recovery_target))
  || (opt_some r.(SafetyOperation.recovery_target)
      && negb r.(SafetyOperation.recovery_target_required))
  || is_err (validate_some (λ t, validate_recovery_target t capability)
               r.(SafetyOperation.recovery_target))
  || is_err (validate_some (λ s, validate_constraint_for_capability s capability)
               r.(SafetyOperation.semantic_constraint))
  || is_err (validate_some validate_binding r.(SafetyOperation.dispatch_binding))
  || negb (valid_reconciliation_state r.(SafetyOperation.state)
             r.(SafetyOperation.reconciliation_status) r.(SafetyOperation.dispatch_binding))
  || lane_violation r
  || is_some_and (receipt_misplaced r) r.(SafetyOperation.receipt).

Fixpoint restore_ledger (l : list SafetyOperation) (ops : gmap string SafetyOperation)
    : result ExecutionError (gmap string SafetyOperation) :=
  match l with
  | [] => Ok ops
  | r :: l =>
      return_if bool_decide (is_Some (ops !! Ledger.id r)) || invalid_record r
        with Err ExecutionError.InvalidSnapshot ;;
      restore_ledger l (<[Ledger.id r := r]> ops)
  end.

(** The admitted operations and the ledger are the same operations, in the same
    states. *)
Definition ledger_agrees (admitted : list HubOperation) (ops : gmap string SafetyOperation)
    : bool :=
  (vlen admitted =? mlen ops)%N
  && forallb (λ a, is_some_and (λ r,
       bool_decide (r.(SafetyOperation.operation) = a.(Admission.operation))
       && bool_decide (r.(SafetyOperation.state) = a.(Admission.state)))
       (ops !! a.(Admission.operation).(OperationRef.operation_id))) admitted.

Fixpoint restore_archive (ops : gmap string SafetyOperation)
    (l : list ArchivedOperationRecovery) (archive : gmap string ArchivedOperationRecovery)
    : result ExecutionError (gmap string ArchivedOperationRecovery) :=
  match l with
  | [] => Ok archive
  | a :: l =>
      return_if negb (valid_archived a) || bool_decide (is_Some (ops !! archived_id a))
                || bool_decide (is_Some (archive !! archived_id a))
        with Err ExecutionError.InvalidSnapshot ;;
      restore_archive ops l (<[archived_id a := a]> archive)
  end.

Fixpoint restore_quarantines (ops : gmap string SafetyOperation) (l : list DesktopQuarantine)
    (quarantines : gmap string DesktopQuarantine)
    : result ExecutionError (gmap string DesktopQuarantine) :=
  match l with
  | [] => Ok quarantines
  | q :: l =>
      let_some r := ops !! q.(DesktopQuarantine.operation_id)
        else Err ExecutionError.InvalidSnapshot ;;
      return_if negb (bool_decide (r.(SafetyOperation.state) = Indeterminate))
                || negb (bool_decide (Ledger.device r = q.(DesktopQuarantine.device_id)))
                || negb (Ledger.generation r =? q.(DesktopQuarantine.device_generation))%N
                || negb (bool_decide (r.(SafetyOperation.owner) = q.(DesktopQuarantine.owner)))
                || bool_decide (is_Some (quarantines !! q.(DesktopQuarantine.device_id)))
        with Err ExecutionError.InvalidSnapshot ;;
      restore_quarantines ops l (<[q.(DesktopQuarantine.device_id) := q]> quarantines)
  end.

Section Checks.
Variable s : AuthoritativeSafetySnapshot.
Variable ops : gmap string SafetyOperation.
Variable quarantined : gmap string DesktopQuarantine.

Definition retired_id (r : RetirementRecord) : string :=
  r.(RetirementRecord.operation).(OperationRef.operation_id).

Definition retirement_conflicts (r : RetirementRecord) : bool :=
  negb (valid_retirement r)
  || existsb (λ x, bool_decide (x.(ResolutionRecord.operation_id) = retired_id r)) s.(resolutions)
  || existsb (λ x, bool_decide
       (x.(AutoResolutionRecord.operation).(OperationRef.operation_id) = retired_id r))
       s.(auto_resolutions).

(** The record a retirement is about is still as it was retired. *)
Definition retirement_mismatch (t : RetirementRecord) : bool :=
  match ops !! retired_id t with
  | None => true
  | Some r =>
      negb (bool_decide (r.(SafetyOperation.state) = Indeterminate))
      || negb (bool_decide (r.(SafetyOperation.operation) = t.(RetirementRecord.operation)))
      || negb (bool_decide (r.(SafetyOperation.capability) = t.(RetirementRecord.capability)))
      || negb (bool_decide (r.(SafetyOperation.indeterminate_reason)
                            = Some t.(RetirementRecord.indeterminate_reason)))
      || negb (bool_decide (default ReconciliationStatus.OperatorRequired
                              r.(SafetyOperation.reconciliation_status)
                            = t.(RetirementRecord.prior_reconciliation_status)))
      || opt_some r.(SafetyOperation.receipt)
      || opt_some r.(SafetyOperation.recoverable_result)
      || existsb (λ kv, bool_decide (kv.2.(DesktopQuarantine.operation_id) = retired_id t))
           (map_to_list quarantined)
  end.

(** The loop over the retirements; the identifiers it collects. *)
Fixpoint check_retirements (l : list RetirementRecord) (ids : gset string)
    : result ExecutionError (gset string) :=
  match l with
  | [] => Ok ids
  | t :: l =>
      return_if bool_decide (retired_id t ∈ ids) || retirement_conflicts t
        with Err ExecutionError.InvalidSnapshot ;;
      return_if retirement_mismatch t with Err ExecutionError.InvalidSnapshot ;;
      check_retirements l ({[retired_id t]} ∪ ids)
  end.

(** An unknown outcome is either quarantined or retired. *)
Definition indeterminate_consistent (retired : gset string) : bool :=
  forallb (λ kv,
    let r := kv.2 in
    implb (bool_decide (r.(SafetyOperation.state) = Indeterminate))
      (xorb (bool_decide (Ledger.id r ∈ retired))
         (is_some_and (λ q, bool_decide (q.(DesktopQuarantine.operation_id) = Ledger.id r)
                            && (q.(DesktopQuarantine.device_generation)
                                =? Ledger.generation r)%N)
            (quarantined !! Ledger.device r)))) (map_to_list ops).

(** The retirement a barrier or a resume came from. *)
Definition accepted_retirement (id device_id : string) (accepted_generation : N)
    (policy : RetirementPolicy) (t : RetirementRecord) : bool :=
  bool_decide (retired_id t = id)
  && bool_decide (t.(RetirementRecord.operation).(OperationRef.device_id) = device_id)
  && (t.(RetirementRecord.authorized_device_generation) =? accepted_generation)%N
  && bool_decide (t.(RetirementRecord.policy) = policy)
  && bool_decide (t.(RetirementRecord.disposition) = RetirementDisposition.CurrentStateAccepted)
  && bool_decide (t.(RetirementRecord.authority) = RetirementAuthority.LocalUserPresence).

Definition barrier_retirement (b : MutationResumeBarrier) (t : RetirementRecord) : bool :=
  accepted_retirement b.(MutationResumeBarrier.source_operation_id)
    b.(MutationResumeBarrier.device_id) b.(MutationResumeBarrier.accepted_generation)
    b.(MutationResumeBarrier.policy) t
  && (t.(RetirementRecord.operation).(OperationRef.device_generation)
      =? b.(MutationResumeBarrier.source_device_generation))%N.

Fixpoint restore_barriers (l : list MutationResumeBarrier)
    (barriers : gmap string MutationResumeBarrier) (sources : gset string)
    : result ExecutionError (gmap string MutationResumeBarrier * gset string) :=
  match l with
  | [] => Ok (barriers, sources)
  | b :: l =>
      let device_id := b.(MutationResumeBarrier.device_id) in
      let source := b.(MutationResumeBarrier.source_operation_id) in
      return_if negb (valid_barrier b)
                || negb (existsb (barrier_retirement b) s.(retirements))
                || bool_decide (is_Some (quarantined !! device_id))
                || bool_decide (source ∈ sources)
                || bool_decide (is_Some (barriers !! device_id))
        with Err ExecutionError.InvalidSnapshot ;;
      restore_barriers l (<[device_id := b]> barriers) ({[source]} ∪ sources)
  end.

Fixpoint check_resumes (barrier_sources : gset string) (l : list MutationResumeRecord)
    (sources : gset string) : result ExecutionError (gset string) :=
  match l with
  | [] => Ok sources
  | m :: l =>
      let source := m.(MutationResumeRecord.source_operation_id) in
      return_if negb (valid_resume m)
                || negb (existsb (accepted_retirement source m.(MutationResumeRecord.device_id)
                           m.(MutationResumeRecord.accepted_generation)
                           m.(MutationResumeRecord.policy)) s.(retirements))
                || bool_decide (source ∈ sources)
                || bool_decide (source ∈ barrier_sources)
        with Err ExecutionError.InvalidSnapshot ;;
      check_resumes barrier_sources l ({[source]} ∪ sources)
  end.

(** Every accepted pointer click is behind a barrier or resumed. *)
Definition clicks_accounted (barrier_sources resume_sources : gset string) : bool :=
  forallb (λ t,
    implb (bool_decide (t.(RetirementRecord.policy)
                        = RetirementPolicy.AcknowledgedUnknownPointerClickV1))
      (bool_decide (retired_id t ∈ barrier_sources)
       || bool_decide (retired_id t ∈ resume_sources))) s.(retirements).

Definition auto_id (h : AutoResolutionRecord) : string :=
  h.(AutoResolutionRecord.operation).(OperationRef.operation_id).

(** The history entry and the record of an auto-resolved operation agree. *)
Definition history_matches (h : AutoResolutionRecord) (r : SafetyOperation) : bool :=
  bool_decide (h.(AutoResolutionRecord.operation) = r.(SafetyOperation.operation))
  && bool_decide (h.(AutoResolutionRecord.capability) = r.(SafetyOperation.capability))
  && bool_decide (h.(AutoResolutionRecord.terminal_state) = r.(SafetyOperation.state))
  && bool_decide (Some h.(AutoResolutionRecord.evidence)
                  = ExecutionReceipt.evidence <$> r.(SafetyOperation.receipt))
  && bool_decide (r.(SafetyOperation.dispatch_binding)
                  = Some h.(AutoResolutionRecord.dispatch_binding)).

Definition auto_resolved (r : SafetyOperation) : bool :=
  bool_decide (r.(SafetyOperation.reconciliation_status)
               = Some ReconciliationStatus.AutoResolved).

Definition auto_history_valid : bool :=
  (vlen s.(auto_resolutions) <=? MAX_AUTO_RESOLUTION_RECORDS)%N
  && forallb valid_auto_resolution s.(auto_resolutions)
  && bool_decide (NoDup (auto_id <$> s.(auto_resolutions)))
  && forallb (λ kv, implb (auto_resolved kv.2)
       (is_some_and (λ h, history_matches h kv.2)
          (find (λ h, bool_decide (auto_id h = Ledger.id kv.2)) s.(auto_resolutions))))
       (map_to_list ops)
  && forallb (λ h, is_none_or (λ r, auto_resolved r && history_matches h r) (ops !! auto_id h))
       s.(auto_resolutions).
End Checks.

Section Restore.
Context `{Base64Url} `{HashIter} `{RecoverySerializer}.

(** The [expect] inside the agreement check cannot fail on a controller that was
    just restored, so its panic is no outcome here: [restored_snapshot_total]. *)
Definition restore_controller (l : AdmissionLimits) (s : AuthoritativeSafetySnapshot)
    : result ExecutionError AuthoritativeOperationController :=
  return_if negb (known_schema s.(schema_version)) || schema_violation s
    with Err ExecutionError.InvalidSnapshot ;;
  let_ok a := restore_after_restart l s.(admission) else e => Err e ;;
  let_ok ops := restore_ledger s.(operations) ∅ else e => Err e ;;
  let_some admitted := snapshot_for_restart a else Err ExecutionError.InvalidSnapshot ;;
  return_if negb (ledger_agrees admitted.(snap_operations) ops)
    with Err ExecutionError.InvalidSnapshot ;;
  let_ok archive := restore_archive ops s.(recoveries) ∅ else e => Err e ;;
  return_if (MAX_RECOVERY_ARCHIVE_ENTRIES <? mlen archive)%N
            || (MAX_RECOVERY_ARCHIVE_BYTES <? recovery_archive_encoded_bytes archive)%N
    with Err ExecutionError.InvalidSnapshot ;;
  let_ok quarantined := restore_quarantines ops s.(quarantines) ∅ else e => Err e ;;
  let_ok ids := check_retirements s ops quarantined s.(retirements) ∅ else e => Err e ;;
  let retired := a.(retired_indeterminate) in
  return_if negb (bool_decide (ids ⊆ retired))
            || ((s.(schema_version) <? SEMANTIC_CONSTRAINT_EXECUTION_SAFETY_SCHEMA_VERSION)%N
                && negb (bool_decide (retired = ids)))
            || negb (indeterminate_consistent ops quarantined retired)
            || (MAX_RETIREMENT_RECORDS <? vlen s.(retirements))%N
            || (MAX_RETIREMENT_RECORDS <? vlen s.(mutation_resumes))%N
    with Err ExecutionError.InvalidSnapshot ;;
  let_ok bs := restore_barriers s quarantined s.(mutation_resume_barriers) ∅ ∅
    else e => Err e ;;
  let '(barriers, barrier_sources) := bs in
  let_ok resume_sources := check_resumes s barrier_sources s.(mutation_resumes) ∅
    else e => Err e ;;
  return_if negb (clicks_accounted s barrier_sources resume_sources)
            || negb (auto_history_valid s ops)
    with Err ExecutionError.InvalidSnapshot ;;
  Ok (mk_controller a ops archive quarantined s.(resolutions) s.(auto_resolutions)
        s.(retirements) barriers s.(mutation_resumes)).
End Restore.
End ControllerSnapshot.
