(* ===== verification/ControllerLedger.v ===== *)
(** * The invariant of the operation ledger

    What every record of [AuthoritativeOperationController] satisfies, how the
    ledger mirrors the admission controller, and how quarantines, retirements,
    barriers and resumes hang together. *)

From S2P Require Import Prelude Vocabulary Protocol Tombstone Admission AdmissionSafety.
From S2P Require Import AdmissionEffects SafetyTypes Evidence Controller.
Import HubOperationState.

(** ** Records *)

Section Records.
Import SafetyOperation.
Implicit Types (r : SafetyOperation).

Definition metadata_of r : OperationAdmissionMetadata :=
  OperationAdmissionMetadata.mk r.(audit) r.(request_fingerprint) r.(evidence_envelope)
    r.(recovery_target) r.(semantic_constraint).

(** What was admitted with the operation passed validation. *)
Record admission_ok r : Prop := {
  ao_metadata : validate_metadata (metadata_of r) r.(capability) = Ok tt;
  ao_target : r.(recovery_target_required) = Evidence.recovery_target_required r.(capability);
  ao_lane : r.(execution_lane) = OperationExecutionLane.RecoveryEvidenceRead →
            is_recovery_evidence_read_only r.(capability) = true;
  ao_binding : validate_some validate_binding r.(dispatch_binding) = Ok tt
}.

(** A result of the agent, delivered in time or reconciled later. *)
Definition agent_reported r : Prop :=
  is_Some r.(dispatched_at_ms) ∧
  (r.(reconciliation_status) = None ∨
   r.(reconciliation_status) = Some ReconciliationStatus.AutoResolved ∧
   is_Some r.(dispatch_binding) ∧ r.(execution_lane) = OperationExecutionLane.Normal).

(** What the evidence of a receipt says of the operation it settled. *)
Definition justified r (e : ExecutionEvidence) : Prop :=
  match e with
  | ExecutionEvidence.VerifiedAgentResult => r.(state) = Completed ∧ agent_reported r
  | ExecutionEvidence.VerifiedRemoteError => r.(state) = Failed ∧ agent_reported r
  | ExecutionEvidence.ProvenProcessTermination =>
      (r.(state) = Failed ∨ r.(state) = Cancelled) ∧ agent_reported r
  | ExecutionEvidence.CancelledBeforeDispatch =>
      r.(state) = Cancelled ∧ r.(dispatched_at_ms) = None ∧ r.(dispatch_binding) = None ∧
      r.(reconciliation_status) = None
  | ExecutionEvidence.OperatorResolution =>
      (r.(state) = Completed ∨ r.(state) = Cancelled) ∧ is_Some r.(dispatched_at_ms) ∧
      r.(execution_lane) = OperationExecutionLane.Normal ∧ r.(reconciliation_status) = None
  | ExecutionEvidence.RecoveryReadInterrupted =>
      r.(state) = Failed ∧ is_Some r.(dispatched_at_ms) ∧
      r.(execution_lane) = OperationExecutionLane.RecoveryEvidenceRead ∧
      r.(reconciliation_status) = None
  | ExecutionEvidence.HubEncodeFailedBeforeEnqueue
  | ExecutionEvidence.HubOutboundClosedBeforeEnqueue =>
      r.(state) = Cancelled ∧ is_Some r.(dispatched_at_ms) ∧
      r.(execution_lane) = OperationExecutionLane.Normal ∧ is_Some r.(dispatch_binding) ∧
      r.(reconciliation_status) = Some ReconciliationStatus.AutoResolved
  end.

Definition receipt_about r (x : ExecutionReceipt) : Prop :=
  x.(ExecutionReceipt.operation) = r.(operation) ∧ x.(ExecutionReceipt.owner) = r.(owner) ∧
  x.(ExecutionReceipt.capability) = r.(capability) ∧
  x.(ExecutionReceipt.terminal_state) = r.(state).

(** Nothing has been said about the outcome. *)
Definition open_record r : Prop :=
  r.(indeterminate_reason) = None ∧ r.(receipt) = None ∧ r.(recoverable_result) = None ∧
  r.(reconciliation_status) = None.

Definition state_ok r : Prop :=
  match r.(state) with
  | Queued | ActiveNotDispatched =>
      open_record r ∧ r.(dispatched_at_ms) = None ∧ r.(dispatch_binding) = None
  | Dispatched | CancelRequested => open_record r ∧ is_Some r.(dispatched_at_ms)
  | Indeterminate =>
      is_Some r.(dispatched_at_ms) ∧ is_Some r.(indeterminate_reason) ∧ r.(receipt) = None ∧
      r.(recoverable_result) = None ∧ r.(execution_lane) = OperationExecutionLane.Normal ∧
      ∃ status, r.(reconciliation_status) = Some status ∧
        status ≠ ReconciliationStatus.AutoResolved ∧
        (status = ReconciliationStatus.AutoReconciling → is_Some r.(dispatch_binding))
  | Completed | Failed | Cancelled =>
      r.(indeterminate_reason) = None ∧
      ∃ x, r.(receipt) = Some x ∧ receipt_about r x ∧ justified r x.(ExecutionReceipt.evidence)
  end.

Record record_ok r : Prop := {
  ro_admission : admission_ok r;
  ro_state : state_ok r;
  ro_result : ∀ x, r.(recoverable_result) = Some x →
    result_valid_for x r.(capability) r.(state) = true
}.

(** The same unknown outcome, whatever became of its reconciliation. *)
Definition same_unknown r r' : Prop :=
  r'.(operation) = r.(operation) ∧ r'.(owner) = r.(owner) ∧ r'.(capability) = r.(capability) ∧
  r'.(state) = r.(state) ∧ r'.(indeterminate_reason) = r.(indeterminate_reason).

Lemma same_unknown_refl r : same_unknown r r.
Proof. done. Qed.
End Records.

(** ** The ledger as the admission controller sees it *)

Section Ledger.
Implicit Types (ops : gmap string SafetyOperation) (r : SafetyOperation).

Definition admitted_view r : HubOperation :=
  mk_operation r.(SafetyOperation.operation) r.(SafetyOperation.state).

Definition view ops : gmap string HubOperation := admitted_view <$> ops.

Lemma view_lookup ops id : view ops !! id = admitted_view <$> ops !! id.
Proof. apply lookup_fmap. Qed.

Lemma view_insert ops id r : view (<[id := r]> ops) = <[id := admitted_view r]> (view ops).
Proof. apply fmap_insert. Qed.

Lemma view_delete ops id : view (delete id ops) = delete id (view ops).
Proof. apply fmap_delete. Qed.

Definition activated r : SafetyOperation := Ledger.set_state r ActiveNotDispatched.

Definition promote_ledger (next : CompletionDecision) ops : gmap string SafetyOperation :=
  match next with
  | CompletionDecision.Idle => ops
  | CompletionDecision.StartNext o => alter activated o.(OperationRef.operation_id) ops
  end.

Lemma view_promote next ops : view (promote_ledger next ops) = promote next (view ops).
Proof.
  destruct next as [|o]; [done|]. apply map_eq. intros id. cbn.
  rewrite view_lookup. destruct (decide (id = o.(OperationRef.operation_id))) as [->|Hne].
  - rewrite !lookup_alter_eq, view_lookup. by destruct (ops !! _).
  - by rewrite !lookup_alter_ne, view_lookup.
Qed.

Lemma promote_ledger_lookup next ops id r :
  promotable next (view ops) → promote_ledger next ops !! id = Some r →
  ops !! id = Some r ∨
  ∃ r0, ops !! id = Some r0 ∧ r0.(SafetyOperation.state) = Queued ∧ r = activated r0.
Proof.
  destruct next as [|o]; cbn; [by left|]. intros Hq Hr.
  destruct (decide (id = o.(OperationRef.operation_id))) as [->|Hne].
  - right. rewrite lookup_alter_eq in Hr. rewrite view_lookup in Hq.
    destruct (ops !! _) as [r0|]; simplify_eq/=.
    injection Hq as _ Hq. by exists r0.
  - left. by rewrite lookup_alter_ne in Hr.
Qed.

Lemma promote_ledger_kept next ops id r :
  promotable next (view ops) → ops !! id = Some r → r.(SafetyOperation.state) ≠ Queued →
  promote_ledger next ops !! id = Some r.
Proof.
  destruct next as [|o]; cbn; [done|]. intros Hq Hr Hne.
  rewrite lookup_alter_ne; [done|]. intros <-. rewrite view_lookup, Hr in Hq. by injection Hq.
Qed.

Lemma promote_ledger_None next ops id :
  promote_ledger next ops !! id = None ↔ ops !! id = None.
Proof. destruct next as [|o]; [done|]. cbn. apply lookup_alter_None. Qed.

(** *** The parts of the invariant *)

Definition ledger_ok ops : Prop := ∀ id r, ops !! id = Some r → record_ok r.

(** A recovery read is a record in the recovery lane until it settles. *)
Definition lanes_ok ops (recovery : gset string) : Prop :=
  ∀ id r, ops !! id = Some r → Controller.unsettled r.(SafetyOperation.state) = true →
    r.(SafetyOperation.execution_lane) = OperationExecutionLane.RecoveryEvidenceRead
    ↔ id ∈ recovery.

(** A quarantine is about a record of unknown outcome of its device. *)
Definition quarantined_by ops (d : string) (q : DesktopQuarantine) r : Prop :=
  ops !! q.(DesktopQuarantine.operation_id) = Some r ∧
  r.(SafetyOperation.state) = Indeterminate ∧ Ledger.device r = d ∧
  r.(SafetyOperation.indeterminate_reason) = Some q.(DesktopQuarantine.reason) ∧
  q = Controller.quarantine_of r q.(DesktopQuarantine.reason) q.(DesktopQuarantine.since_ms).

Definition quarantines_ok ops (qs : gmap string DesktopQuarantine) : Prop :=
  ∀ d q, qs !! d = Some q → ∃ r, quarantined_by ops d q r.

(** The archive holds valid recoveries of operations the ledger has dropped. *)
Definition archive_ok ops (archive : gmap string ArchivedOperationRecovery) : Prop :=
  ∀ id a, archive !! id = Some a →
    Controller.archived_id a = id ∧ valid_archived a = true ∧ ops !! id = None.

Definition retired_ref (t : RetirementRecord) : string :=
  t.(RetirementRecord.operation).(OperationRef.operation_id).

(** A retirement in the history has its record, still of unknown outcome. *)
Definition retirement_ok ops (retired : gset string) (t : RetirementRecord) : Prop :=
  valid_retirement t = true ∧ retired_ref t ∈ retired ∧
  ∃ r, ops !! retired_ref t = Some r ∧ r.(SafetyOperation.state) = Indeterminate ∧
       r.(SafetyOperation.operation) = t.(RetirementRecord.operation) ∧
       r.(SafetyOperation.capability) = t.(RetirementRecord.capability) ∧
       r.(SafetyOperation.indeterminate_reason) = Some t.(RetirementRecord.indeterminate_reason).

Definition retirements_ok ops (retired : gset string) (ts : list RetirementRecord) : Prop :=
  NoDup (retired_ref <$> ts) ∧ Forall (retirement_ok ops retired) ts.
End Ledger.

(** ** Barriers and resumes *)

Definition resume_source (m : MutationResumeRecord) : string :=
  m.(MutationResumeRecord.source_operation_id).

(** Every accepted pointer click is behind the barrier of its device or was
    resumed by the user, never both. *)
Record barriers_ok (ts : list RetirementRecord) (bs : gmap string MutationResumeBarrier)
    (ms : list MutationResumeRecord) : Prop := {
  ba_source : ∀ d b, bs !! d = Some b → ∃ t, t ∈ ts ∧ b = Controller.barrier_for t ∧
    Controller.requires_mutation_barrier t = true ∧ b.(MutationResumeBarrier.device_id) = d;
  ba_resume : ∀ m, m ∈ ms → valid_resume m = true ∧ ∃ t, t ∈ ts ∧
    Controller.resume_of t m = true ∧ Controller.requires_mutation_barrier t = true;
  ba_distinct : NoDup (resume_source <$> ms);
  ba_disjoint : ∀ d b m, bs !! d = Some b → m ∈ ms →
    b.(MutationResumeBarrier.source_operation_id) ≠ resume_source m;
  ba_clicks : ∀ t, t ∈ ts →
    t.(RetirementRecord.policy) = RetirementPolicy.AcknowledgedUnknownPointerClickV1 →
    (∃ d, bs !! d = Some (Controller.barrier_for t)) ∨
    ∃ m, m ∈ ms ∧ Controller.resume_of t m = true
}.

(** ** The invariant *)

Import Controller.

(** [n] bounds the retirement history, which exceeds its limit by one while a
    retirement is being recorded. *)
Record cinv_upto (n : N) (c : AuthoritativeOperationController) : Prop := {
  ci_admission : inv c.(admission);
  ci_view : view c.(operations) = c.(admission).(Admission.operations);
  ci_blocked : DesktopQuarantine.operation_id <$> c.(quarantines)
               = c.(admission).(blocked_by_indeterminate);
  ci_ledger : ledger_ok c.(operations);
  ci_lanes : lanes_ok c.(operations) c.(admission).(recovery_read_only_operations);
  ci_quarantines : quarantines_ok c.(operations) c.(quarantines);
  ci_archive : archive_ok c.(operations) c.(recovery_archive);
  ci_retirements : retirements_ok c.(operations) c.(admission).(retired_indeterminate)
                     c.(retirements);
  ci_barriers : barriers_ok c.(retirements) c.(mutation_resume_barriers) c.(mutation_resumes);
  ci_history : (vlen c.(retirements) ≤ n)%N;
  ci_resumes : (vlen c.(mutation_resumes) ≤ MAX_RETIREMENT_RECORDS)%N;
  ci_auto : (vlen c.(auto_resolutions) ≤ MAX_AUTO_RESOLUTION_RECORDS)%N
}.
Arguments ci_admission {n} c _.
Arguments ci_view {n} c _.
Arguments ci_blocked {n} c _.
Arguments ci_ledger {n} c _.
Arguments ci_lanes {n} c _.
Arguments ci_quarantines {n} c _.
Arguments ci_archive {n} c _.
Arguments ci_retirements {n} c _.
Arguments ci_barriers {n} c _.
Arguments ci_history {n} c _.
Arguments ci_resumes {n} c _.
Arguments ci_auto {n} c _.

Abbreviation cinv := (cinv_upto MAX_RETIREMENT_RECORDS).

(** ** How the parts survive a change of the ledger *)

Section Changes.
Implicit Types (ops : gmap string SafetyOperation) (r : SafetyOperation) (id d : string).

Lemma ledger_ok_insert ops id r : ledger_ok ops → record_ok r → ledger_ok (<[id := r]> ops).
Proof. intros Hl Hr id' r' [[<- <-]|[_ H]]%lookup_insert_Some; [done|by eapply Hl]. Qed.

Lemma activated_ok r : record_ok r → r.(SafetyOperation.state) = Queued → record_ok (activated r).
Proof.
  intros [Ha Hs Hx] Hq. unfold state_ok in Hs. rewrite Hq in Hs.
  destruct Hs as ((H1 & H2 & H3 & H4) & H5 & H6).
  split; [|unfold state_ok; cbn; unfold open_record; cbn; naive_solver|].
  - by destruct Ha; split.
  - cbn. intros x. rewrite H3. done.
Qed.

Lemma ledger_ok_promote next ops :
  ledger_ok ops → promotable next (view ops) → ledger_ok (promote_ledger next ops).
Proof.
  intros Hl Hp id r Hr.
  destruct (promote_ledger_lookup _ _ _ _ Hp Hr) as [?|(r0 & H0 & Hq & ->)]; [by eapply Hl|].
  apply activated_ok; [by eapply Hl|done].
Qed.

Lemma lanes_ok_promote next ops recovery :
  lanes_ok ops recovery → promotable next (view ops) → lanes_ok (promote_ledger next ops) recovery.
Proof.
  intros Hl Hp id r Hr Hu.
  destruct (promote_ledger_lookup _ _ _ _ Hp Hr) as [?|(r0 & H0 & Hq & ->)]; [by eapply Hl|].
  apply (Hl id r0 H0). by rewrite Hq.
Qed.

(** The record [id] settles and leaves the recovery set. *)
Lemma lanes_ok_settle ops recovery id r X :
  lanes_ok ops recovery → unsettled r.(SafetyOperation.state) = false →
  X = recovery ∖ {[id]} ∨ X = recovery →
  lanes_ok (<[id := r]> ops) X.
Proof.
  intros Hl Hs HX id' r' [[<- <-]|[Hne H]]%lookup_insert_Some Hu; [congruence|].
  rewrite (Hl id' r' H Hu). set_solver.
Qed.

(** The record [id] stays unsettled, in its lane. *)
Lemma lanes_ok_put ops recovery id r r' :
  lanes_ok ops recovery → ops !! id = Some r → unsettled r.(SafetyOperation.state) = true →
  r'.(SafetyOperation.execution_lane) = r.(SafetyOperation.execution_lane) →
  lanes_ok (<[id := r']> ops) recovery.
Proof.
  intros Hl Hr Hu Hlane id' x [[<- <-]|[Hne H]]%lookup_insert_Some Hx; [|by apply Hl].
  rewrite Hlane. by apply Hl.
Qed.

Lemma quarantines_mono ops ops' qs qs' :
  quarantines_ok ops qs → qs' ⊆ qs →
  (∀ d q r, qs' !! d = Some q → quarantined_by ops d q r →
     ∃ r', ops' !! q.(DesktopQuarantine.operation_id) = Some r' ∧ same_unknown r r') →
  quarantines_ok ops' qs'.
Proof.
  intros Hq Hsub Hkeep d q Hd. pose proof (lookup_weaken _ _ _ _ Hd Hsub) as Hd'.
  destruct (Hq d q Hd') as (r & Hby). destruct (Hkeep d q r Hd Hby) as (r' & Hr' & Hsame).
  destruct Hby as (_ & Hst & Hdev & Hrs & Heq). destruct Hsame as (Ho & Hown & _ & Hst' & Hrs').
  exists r'. split_and!; [done|congruence| |congruence|].
  - unfold Ledger.device in *. by rewrite Ho.
  - rewrite Heq at 1. unfold quarantine_of, Ledger.device, Ledger.id, Ledger.generation.
    by rewrite Ho, Hown.
Qed.

Lemma retirements_mono ops ops' retired retired' ts :
  retirements_ok ops retired ts → retired ⊆ retired' →
  (∀ id r, ops !! id = Some r → r.(SafetyOperation.state) = Indeterminate → id ∈ retired →
     ∃ r', ops' !! id = Some r' ∧ same_unknown r r') →
  retirements_ok ops' retired' ts.
Proof.
  intros [Hnd Hall] Hsub Hkeep. split; [done|]. eapply Forall_impl; [exact Hall|].
  intros t (Hv & Hin & r & Hr & Hst & Ho & Hc & Hrs).
  destruct (Hkeep _ _ Hr Hst Hin) as (r' & Hr' & Ho' & _ & Hc' & Hst' & Hrs').
  split_and!; [done|set_solver|]. exists r'. split_and!; congruence.
Qed.

Lemma archive_mono ops ops' archive :
  archive_ok ops archive → (∀ id, ops !! id = None → is_Some (archive !! id) → ops' !! id = None) →
  archive_ok ops' archive.
Proof.
  intros Ha Hn id a Hid. destruct (Ha id a Hid) as (? & ? & ?). split_and!; [done..|]. eauto.
Qed.
End Changes.

(** ** Records that change *)

Section RecordChanges.
Import SafetyOperation.
Implicit Types (r : SafetyOperation).

Lemma amend_ok r s at_ms reason rc res binding status :
  record_ok r → validate_some validate_binding binding = Ok tt → res = None →
  state_ok (Ledger.amend r s at_ms reason rc res binding status) →
  record_ok (Ledger.amend r s at_ms reason rc res binding status).
Proof. intros [[Hm Ht Hl _] _ _] Hb -> Hs. split; [by split|done|done]. Qed.

Lemma binding_ok r : record_ok r → validate_some validate_binding r.(dispatch_binding) = Ok tt.
Proof. intros Hr. apply Hr. Qed.

(** A live or queued record says nothing of its outcome. *)
Lemma unsettled_open r : record_ok r → unsettled r.(state) = true → open_record r.
Proof.
  intros [_ Hs _] Hu. unfold state_ok in Hs. by destruct r.(state); try done; destruct Hs.
Qed.

Lemma on_device_dispatched r :
  record_ok r → on_device r.(state) = true → is_Some r.(dispatched_at_ms).
Proof.
  intros [_ Hs _] Hu. unfold state_ok in Hs. by destruct r.(state); try done; destruct Hs.
Qed.

Lemma undispatched r :
  record_ok r → r.(state) = Queued ∨ r.(state) = ActiveNotDispatched →
  r.(dispatched_at_ms) = None ∧ r.(dispatch_binding) = None.
Proof.
  intros [_ Hs _] Hu. unfold state_ok in Hs.
  destruct Hu as [Hu|Hu]; rewrite Hu in Hs; by destruct Hs as (_ & ? & ?).
Qed.

Lemma dispatched_ok r now_ms binding :
  record_ok r → r.(state) = ActiveNotDispatched →
  validate_some validate_binding binding = Ok tt →
  record_ok (Ledger.set_status
    (Ledger.set_dispatch (Ledger.set_state r Dispatched) now_ms binding) None).
Proof.
  intros Hr Hst Hb. destruct (unsettled_open r Hr) as (H1 & H2 & H3 & H4); [by rewrite Hst|].
  apply (amend_ok r Dispatched (Some now_ms) r.(indeterminate_reason) r.(receipt)
    r.(recoverable_result) binding None); [done|done|done|]. split; [done|by eexists].
Qed.

Lemma cancel_requested_ok r :
  record_ok r → on_device r.(state) = true → record_ok (Ledger.set_state r CancelRequested).
Proof.
  intros Hr Hst. destruct (unsettled_open r Hr) as (H1 & H2 & H3 & H4); [by destruct r.(state)|].
  apply amend_ok; [done|by apply binding_ok|done|]. split; [done|exact (on_device_dispatched r Hr Hst)].
Qed.

Lemma cancelled_ok r now_ms :
  record_ok r → r.(state) = Queued ∨ r.(state) = ActiveNotDispatched →
  record_ok (Ledger.settle r Cancelled ExecutionEvidence.CancelledBeforeDispatch now_ms).
Proof.
  intros Hr Hst. destruct (undispatched r Hr Hst) as [Hd Hb].
  destruct (unsettled_open r Hr) as (H1 & H2 & H3 & H4); [by destruct Hst as [->| ->]|].
  apply (amend_ok r Cancelled r.(dispatched_at_ms) r.(indeterminate_reason)
    (Some (Ledger.receipt_for r Cancelled ExecutionEvidence.CancelledBeforeDispatch now_ms))
    r.(recoverable_result) r.(dispatch_binding) r.(reconciliation_status));
    [done|by apply binding_ok|done|]. split; [done|]. by eexists.
Qed.

(** A live record settles with a receipt the evidence of which it justifies. *)
Lemma settled_ok r t e now_ms status :
  record_ok r → settled t = true → r.(recoverable_result) = None →
  justified (Ledger.amend r t r.(dispatched_at_ms) None
    (Some (Ledger.receipt_for r t e now_ms)) None r.(dispatch_binding) status) e →
  record_ok (Ledger.amend r t r.(dispatched_at_ms) None
    (Some (Ledger.receipt_for r t e now_ms)) None r.(dispatch_binding) status).
Proof.
  intros Hr Ht Hres Hj. apply amend_ok; [done|by apply binding_ok|done|].
  unfold state_ok. cbn. destruct t; try done; (split; [done|]; by eexists).
Qed.

Lemma agent_pair_justified r t e :
  authoritative_agent_terminal_pair t e = true → r.(state) = t → agent_reported r → justified r e.
Proof. destruct t, e; try done; cbn; auto. Qed.

Lemma finalized_ok r t e now_ms :
  record_ok r → on_device r.(state) = true → authoritative_agent_terminal_pair t e = true →
  record_ok (Ledger.settle (Ledger.set_reason r None) t e now_ms).
Proof.
  intros Hr Hst Hp. destruct (unsettled_open r Hr) as (H1 & H2 & H3 & H4); [by destruct r.(state)|].
  pose proof (settled_ok r t e now_ms r.(reconciliation_status)) as Hok.
  unfold Ledger.settle, Ledger.set_reason, Ledger.set_receipt, Ledger.set_state. cbn.
  rewrite H3. apply Hok; [done|by eapply agent_pair_settled|done|].
  eapply agent_pair_justified; [done|done|]. split; [exact (on_device_dispatched r Hr Hst)|by left].
Qed.

Lemma non_delivered_ok r e now_ms :
  record_ok r → r.(state) = Dispatched → r.(execution_lane) = OperationExecutionLane.Normal →
  is_Some r.(dispatch_binding) → is_pre_enqueue e = true →
  record_ok (Ledger.settle (Ledger.set_result (Ledger.set_status (Ledger.set_reason r None)
    (Some ReconciliationStatus.AutoResolved)) None) Cancelled e now_ms).
Proof.
  intros Hr Hst Hl Hb He. destruct (unsettled_open r Hr) as (H1 & H2 & H3 & H4); [by rewrite Hst|].
  apply (settled_ok r Cancelled e now_ms (Some ReconciliationStatus.AutoResolved)); [done..|].
  assert (is_Some r.(dispatched_at_ms)) by (apply on_device_dispatched; [done|by rewrite Hst]).
  by destruct e; try done.
Qed.

Lemma interrupted_ok r now_ms :
  record_ok r → on_device r.(state) = true →
  r.(execution_lane) = OperationExecutionLane.RecoveryEvidenceRead →
  record_ok (Ledger.settle (Ledger.set_status (Ledger.set_result (Ledger.set_reason r None) None)
    None) Failed ExecutionEvidence.RecoveryReadInterrupted now_ms).
Proof.
  intros Hr Hst Hl. destruct (unsettled_open r Hr) as (H1 & H2 & H3 & H4); [by destruct r.(state)|].
  apply (settled_ok r Failed ExecutionEvidence.RecoveryReadInterrupted now_ms None); [done..|].
  split_and!; [done|exact (on_device_dispatched r Hr Hst)|done|done].
Qed.

Lemma indeterminate_ok r reason :
  record_ok r → on_device r.(state) = true → r.(execution_lane) = OperationExecutionLane.Normal →
  record_ok (indeterminate_record r reason).
Proof.
  intros Hr Hst Hl. apply amend_ok; [done|by apply binding_ok|done|].
  split_and!; [exact (on_device_dispatched r Hr Hst)|by eexists|done..|].
  eexists. split; [done|]. cbn. unfold default_reconciliation_status.
  destruct r.(dispatch_binding); cbn; [|done]. destruct reason; naive_solver.
Qed.

(** *** Unknown outcomes *)

Lemma unknown_facts r :
  record_ok r → r.(state) = Indeterminate →
  is_Some r.(dispatched_at_ms) ∧ is_Some r.(indeterminate_reason) ∧ r.(receipt) = None ∧
  r.(recoverable_result) = None ∧ r.(execution_lane) = OperationExecutionLane.Normal ∧
  ∃ status, r.(reconciliation_status) = Some status ∧
    status ≠ ReconciliationStatus.AutoResolved ∧
    (status = ReconciliationStatus.AutoReconciling → is_Some r.(dispatch_binding)).
Proof. intros [_ Hs _] Hst. unfold state_ok in Hs. by rewrite Hst in Hs. Qed.

Lemma operator_status_ok r status :
  record_ok r → r.(state) = Indeterminate → needs_operator status = true →
  record_ok (Ledger.set_status r (Some status)).
Proof.
  intros Hr Hst Hn. destruct (unknown_facts r Hr Hst) as (H1 & H2 & H3 & H4 & H5 & _).
  apply amend_ok; [done|by apply binding_ok|done|]. unfold state_ok. cbn. rewrite Hst.
  split_and!; [done..|]. exists status. by destruct status.
Qed.

Lemma reconciled_ok r t e now_ms :
  record_ok r → r.(state) = Indeterminate →
  r.(reconciliation_status) = Some ReconciliationStatus.AutoReconciling →
  authoritative_agent_terminal_pair t e = true →
  record_ok (Ledger.settle (Ledger.set_result (Ledger.set_status (Ledger.set_reason r None)
    (Some ReconciliationStatus.AutoResolved)) None) t e now_ms).
Proof.
  intros Hr Hst Hrs Hp.
  destruct (unknown_facts r Hr Hst) as (H1 & H2 & H3 & H4 & H5 & s & Hs & _ & Hb).
  apply (settled_ok r t e now_ms (Some ReconciliationStatus.AutoResolved)); [done| |done|].
  - by eapply agent_pair_settled.
  - eapply agent_pair_justified; [done|done|]. split; [done|]. right. cbn.
    split_and!; [done| |done]. apply Hb. congruence.
Qed.

Lemma resolved_ok r decision now_ms :
  record_ok r → r.(state) = Indeterminate →
  record_ok (Ledger.settle (Ledger.set_status (Ledger.set_reason r None) None)
    (resolved_state decision) ExecutionEvidence.OperatorResolution now_ms).
Proof.
  intros Hr Hst. destruct (unknown_facts r Hr Hst) as (H1 & H2 & H3 & H4 & H5 & _).
  pose proof (settled_ok r (resolved_state decision) ExecutionEvidence.OperatorResolution now_ms
    None) as Hok.
  unfold Ledger.settle, Ledger.set_status, Ledger.set_reason, Ledger.set_receipt,
    Ledger.set_state. cbn. rewrite H4. apply Hok; [done|by destruct decision|done|].
  cbn. split_and!; [destruct decision; auto|done..].
Qed.

(** *** Attached results *)

Lemma attached_ok r x :
  record_ok r → result_valid_for x r.(capability) r.(state) = true → is_Some r.(receipt) →
  record_ok (Ledger.set_result r (Some x)).
Proof.
  intros Hr Hx Hrc. destruct Hr as [[Hm Ht Hl Hb] Hs Hres].
  split; [by split| |by intros y [= <-]].
  unfold state_ok in *. cbn. destruct r.(state) eqn:Hst; cbn; try done;
    try (destruct Hs as [(_ & H & _) _]; by rewrite H in Hrc; destruct Hrc).
  destruct Hs as (_ & _ & H & _). rewrite H in Hrc. by destruct Hrc.
Qed.
End RecordChanges.
