(* ===== verification/ControllerSafety.v ===== *)
(** * The controller keeps its invariant

    For every operation of [AuthoritativeOperationController]: what it does when
    it succeeds, that it changes nothing when it is refused, and that it preserves
    the invariant of [ControllerLedger]. *)

From S2P Require Import Prelude Vocabulary Protocol Tombstone Admission AdmissionSafety.
From S2P Require Import AdmissionEffects SafetyTypes Evidence Controller ControllerLedger.
Import HubOperationState Controller.

(** ** Reading the invariant *)

Section Reading.
Context {n : N}.
Variable c : AuthoritativeOperationController.
Hypothesis Hc : cinv_upto n c.

Lemma admitted_record id r :
  c.(operations) !! id = Some r → c.(admission).(Admission.operations) !! id = Some (admitted_view r).
Proof. intros Hr. by rewrite <- (ci_view _ Hc), view_lookup, Hr. Qed.

Lemma ledger_record id o :
  c.(admission).(Admission.operations) !! id = Some o →
  ∃ r, c.(operations) !! id = Some r ∧ o = admitted_view r.
Proof.
  rewrite <- (ci_view _ Hc), view_lookup. destruct (c.(operations) !! id) as [r|]; [|done].
  intros [= <-]. by exists r.
Qed.

Lemma ledger_absent id :
  c.(admission).(Admission.operations) !! id = None ↔ c.(operations) !! id = None.
Proof. rewrite <- (ci_view _ Hc), view_lookup. apply fmap_None. Qed.

Lemma record_key id r : c.(operations) !! id = Some r → Ledger.id r = id.
Proof. intros Hr%admitted_record. by apply (inv_key _ (ci_admission _ Hc)) in Hr. Qed.

Lemma blocked_quarantine d id :
  c.(admission).(blocked_by_indeterminate) !! d = Some id ↔
  ∃ q, c.(quarantines) !! d = Some q ∧ q.(DesktopQuarantine.operation_id) = id.
Proof. rewrite <- (ci_blocked _ Hc), lookup_fmap_Some. naive_solver. Qed.

(** A quarantined operation is not retired, and quarantines its own device only. *)
Lemma quarantine_unretired d q :
  c.(quarantines) !! d = Some q →
  q.(DesktopQuarantine.operation_id) ∉ c.(admission).(retired_indeterminate).
Proof.
  intros Hq. assert (c.(admission).(blocked_by_indeterminate) !! d
    = Some q.(DesktopQuarantine.operation_id)) as Hb by (apply blocked_quarantine; by exists q).
  by apply (occ_blocked _ _ _ _ _ _ (inv_occupancy _ (ci_admission _ Hc))) in Hb as [_ ?].
Qed.

Lemma quarantine_device d q id r :
  c.(quarantines) !! d = Some q → q.(DesktopQuarantine.operation_id) = id →
  c.(operations) !! id = Some r → d = Ledger.device r.
Proof.
  intros Hq <- Hr. destruct (ci_quarantines _ Hc d q Hq) as (r' & Hr' & _ & Hd & _). congruence.
Qed.
End Reading.

(** ** Controllers up to the fields *)

Lemma activate_next_eq c next :
  activate_next c next = set_operations c (promote_ledger next c.(operations)).
Proof. destruct next; [by destruct c|done]. Qed.

Lemma set_admission_id c : set_admission c c.(admission) = c.
Proof. by destruct c. Qed.

Lemma on_admission_Ok {A B} c (call : HubAdmissionController * result ExecutionError A)
    (k : AuthoritativeOperationController → A → outcome B) c' b :
  on_admission c call k = (c', Ok b) →
  ∃ a' x, call = (a', Ok x) ∧ k (set_admission c a') x = (c', Ok b).
Proof. unfold on_admission. destruct call as [a' [x|e]]; cbn; [|done]. eauto. Qed.

Lemma on_admission_Err {A B} c (call : HubAdmissionController * result ExecutionError A)
    (k : AuthoritativeOperationController → A → outcome B) c' e :
  on_admission c call k = (c', Err e) →
  (∃ a', call = (a', Err e) ∧ c' = set_admission c a') ∨
  (∃ a' x, call = (a', Ok x) ∧ k (set_admission c a') x = (c', Err e)).
Proof. unfold on_admission. destruct call as [a' [x|e']]; cbn; [eauto|]. intros [= <- <-]. eauto. Qed.

Lemma checked_Ok c id owner g r :
  checked c id owner g = Ok r ↔
  c.(operations) !! id = Some r ∧ r.(SafetyOperation.owner) = owner ∧ Ledger.generation r = g.
Proof.
  unfold checked. destruct (c.(operations) !! id) as [r'|]; [|naive_solver].
  case_bool_decide; cbn; [|naive_solver].
  destruct (N.eqb_spec (Ledger.generation r') g); cbn; naive_solver.
Qed.

Lemma unsettled_not_unknown s : unsettled s = true → s ≠ Indeterminate.
Proof. by destruct s. Qed.

Lemma settled_not_unsettled s : settled s = true → unsettled s = false.
Proof. by destruct s. Qed.

Lemma on_device_unsettled s : on_device s = true → unsettled s = true.
Proof. by destruct s. Qed.

(** ** Changes that keep the invariant *)

Section Preserve.
Context {n : N}.
Variable c : AuthoritativeOperationController.
Hypothesis Hc : cinv_upto n c.

(** The unknown outcomes are where they were. *)
Definition unknown_kept (ops' : gmap string SafetyOperation) : Prop :=
  ∀ id r, c.(operations) !! id = Some r → r.(SafetyOperation.state) = Indeterminate →
    ∃ r', ops' !! id = Some r' ∧ same_unknown r r'.

Lemma unknown_kept_settle id r r' next :
  c.(operations) !! id = Some r → unsettled r.(SafetyOperation.state) = true →
  promotable next (view (<[id := r']> c.(operations))) →
  unknown_kept (promote_ledger next (<[id := r']> c.(operations))).
Proof.
  intros Hr Hu Hp id' x Hx Hst. exists x. split; [|apply same_unknown_refl].
  apply promote_ledger_kept; [done| |by rewrite Hst].
  rewrite lookup_insert_ne; [done|]. intros <-. simplify_eq.
  by apply (unsettled_not_unknown _ Hu).
Qed.

Lemma archive_ok_promote_insert id r r' next :
  c.(operations) !! id = Some r →
  archive_ok (promote_ledger next (<[id := r']> c.(operations))) c.(recovery_archive).
Proof.
  intros Hr. eapply archive_mono; [apply Hc|]. intros id' Hn _.
  apply promote_ledger_None. rewrite lookup_insert_ne; [done|]. congruence.
Qed.

Lemma retirements_kept ops' :
  unknown_kept ops' → retirements_ok ops' c.(admission).(retired_indeterminate) c.(retirements).
Proof. intros Hk. eapply retirements_mono; [apply Hc|done|]. eauto. Qed.

Lemma quarantines_kept ops' : unknown_kept ops' → quarantines_ok ops' c.(quarantines).
Proof.
  intros Hk. eapply quarantines_mono; [apply Hc|done|]. intros d q r Hd (Hr & Hst & _). eauto.
Qed.

(** The live or queued operation [id] settles, then queued work may start. *)
Lemma cinv_settle_live a' id r r' next resolutions' autos' :
  c.(operations) !! id = Some r → unsettled r.(SafetyOperation.state) = true →
  settled r'.(SafetyOperation.state) = true → record_ok r' → inv a' →
  becomes a' next (<[id := admitted_view r']> c.(admission).(Admission.operations))
    c.(admission).(blocked_by_indeterminate) c.(admission).(retired_indeterminate)
    (c.(admission).(recovery_read_only_operations) ∖ {[id]}) →
  (vlen autos' ≤ MAX_AUTO_RESOLUTION_RECORDS)%N →
  cinv_upto n (mk_controller a' (promote_ledger next (<[id := r']> c.(operations)))
          c.(recovery_archive) c.(quarantines) resolutions' autos' c.(retirements)
          c.(mutation_resume_barriers) c.(mutation_resumes)).
Proof.
  intros Hr Hu Hs Hok Hinv [Hops Hnext Hbl Hret Hrec] Hauto.
  rewrite <- (ci_view _ Hc), <- view_insert in Hops, Hnext.
  pose proof (unknown_kept_settle id r r' next Hr Hu Hnext) as Hkept.
  split; cbn; rewrite ?Hops, ?Hbl, ?Hret, ?Hrec; try apply Hc; try done.
  - apply view_promote.
  - apply ledger_ok_promote; [|done]. apply ledger_ok_insert; [apply Hc|done].
  - apply lanes_ok_promote; [|done].
    eapply lanes_ok_settle; [apply Hc|by apply settled_not_unsettled|by left].
  - by apply quarantines_kept.
  - by eapply archive_ok_promote_insert.
  - by apply retirements_kept.
Qed.

(** The live operation [id] changes and stays live. *)
Lemma cinv_put_live a' id r r' :
  c.(operations) !! id = Some r → unsettled r.(SafetyOperation.state) = true →
  unsettled r'.(SafetyOperation.state) = true →
  r'.(SafetyOperation.execution_lane) = r.(SafetyOperation.execution_lane) →
  record_ok r' → inv a' →
  becomes a' CompletionDecision.Idle
    (<[id := admitted_view r']> c.(admission).(Admission.operations))
    c.(admission).(blocked_by_indeterminate) c.(admission).(retired_indeterminate)
    c.(admission).(recovery_read_only_operations) →
  cinv_upto n (put (set_admission c a') id r').
Proof.
  intros Hr Hu Hu' Hlane Hok Hinv [Hops _ Hbl Hret Hrec]. cbn in Hops.
  rewrite <- (ci_view _ Hc), <- view_insert in Hops.
  pose proof (unknown_kept_settle id r r' CompletionDecision.Idle Hr Hu I) as Hkept.
  split; cbn; rewrite ?Hops, ?Hbl, ?Hret, ?Hrec; try apply Hc; try done.
  - apply ledger_ok_insert; [apply Hc|done].
  - by eapply lanes_ok_put; [apply Hc|..].
  - by apply quarantines_kept.
  - by apply (archive_ok_promote_insert id r r' CompletionDecision.Idle).
  - by apply retirements_kept.
Qed.

(** The quarantined operation [id] settles and frees its device. *)
Lemma cinv_settle_unknown a' id r r' q next resolutions' autos' :
  c.(operations) !! id = Some r → r.(SafetyOperation.state) = Indeterminate →
  c.(quarantines) !! Ledger.device r = Some q → q.(DesktopQuarantine.operation_id) = id →
  settled r'.(SafetyOperation.state) = true → record_ok r' → inv a' →
  becomes a' next (<[id := admitted_view r']> c.(admission).(Admission.operations))
    (delete (Ledger.device r) c.(admission).(blocked_by_indeterminate))
    c.(admission).(retired_indeterminate) c.(admission).(recovery_read_only_operations) →
  (vlen autos' ≤ MAX_AUTO_RESOLUTION_RECORDS)%N →
  cinv_upto n (mk_controller a' (promote_ledger next (<[id := r']> c.(operations)))
          c.(recovery_archive) (delete (Ledger.device r) c.(quarantines)) resolutions' autos'
          c.(retirements) c.(mutation_resume_barriers) c.(mutation_resumes)).
Proof.
  intros Hr Hst Hq Hid Hs Hok Hinv [Hops Hnext Hbl Hret Hrec] Hauto.
  rewrite <- (ci_view _ Hc), <- view_insert in Hops, Hnext.
  assert (∀ id' x, id' ≠ id → c.(operations) !! id' = Some x →
    x.(SafetyOperation.state) = Indeterminate →
    ∃ x', promote_ledger next (<[id := r']> c.(operations)) !! id' = Some x' ∧ same_unknown x x')
    as Hkept.
  { intros id' x Hne Hx Hxs. exists x. split; [|apply same_unknown_refl].
    apply promote_ledger_kept; [done| |by rewrite Hxs]. by rewrite lookup_insert_ne. }
  split; cbn; rewrite ?Hops, ?Hbl, ?Hret, ?Hrec; try apply Hc; try done.
  - apply view_promote.
  - by rewrite fmap_delete, (ci_blocked _ Hc).
  - apply ledger_ok_promote; [|done]. apply ledger_ok_insert; [apply Hc|done].
  - apply lanes_ok_promote; [|done].
    eapply lanes_ok_settle; [apply Hc|by apply settled_not_unsettled|by right].
  - eapply quarantines_mono; [apply Hc|apply delete_subseteq|].
    intros d q' x [Hne Hq']%lookup_delete_Some (Hx & Hxs & Hd & _). apply Hkept; [|done..].
    intros Heq. destruct Hne. by eapply quarantine_device in Hq'; [|done..].
  - by eapply archive_ok_promote_insert.
  - eapply retirements_mono; [apply Hc|done|]. intros id' x Hx Hxs Hin. apply Hkept; [|done..].
    intros ->. rewrite <- Hid in Hin. by apply (quarantine_unretired c Hc _ _ Hq).
Qed.

(** A new operation enters the ledger. *)
Lemma cinv_admit a' id r :
  c.(operations) !! id = None → c.(recovery_archive) !! id = None →
  (unsettled r.(SafetyOperation.state) = true →
   r.(SafetyOperation.execution_lane) = OperationExecutionLane.RecoveryEvidenceRead
   ↔ id ∈ a'.(recovery_read_only_operations)) →
  record_ok r → inv a' →
  (∀ id', id' ≠ id → id' ∈ a'.(recovery_read_only_operations)
                     ↔ id' ∈ c.(admission).(recovery_read_only_operations)) →
  becomes a' CompletionDecision.Idle
    (<[id := admitted_view r]> c.(admission).(Admission.operations))
    c.(admission).(blocked_by_indeterminate) c.(admission).(retired_indeterminate)
    a'.(recovery_read_only_operations) →
  cinv_upto n (put (set_admission c a') id r).
Proof.
  intros Hnew Harch Hlane Hok Hinv Hother [Hops _ Hbl Hret _]. cbn in Hops.
  rewrite <- (ci_view _ Hc), <- view_insert in Hops.
  assert (unknown_kept (<[id := r]> c.(operations))) as Hkept.
  { intros id' x Hx _. exists x. split; [|apply same_unknown_refl].
    rewrite lookup_insert_ne; [done|]. congruence. }
  split; cbn; rewrite ?Hops, ?Hbl, ?Hret; try apply Hc; try done.
  - apply ledger_ok_insert; [apply Hc|done].
  - intros id' x [[<- <-]|[Hne Hx]]%lookup_insert_Some Hu; [by apply Hlane|].
    rewrite Hother by done. by apply (ci_lanes _ Hc).
  - by apply quarantines_kept.
  - eapply archive_mono; [apply Hc|]. intros id' Hn [x Hx]. rewrite lookup_insert_ne; [done|].
    congruence.
  - by apply retirements_kept.
Qed.

(** Only the reconciliation status of an unknown outcome changes. *)
Lemma cinv_set_status id r status :
  c.(operations) !! id = Some r → r.(SafetyOperation.state) = Indeterminate →
  record_ok (Ledger.set_status r status) → cinv_upto n (put c id (Ledger.set_status r status)).
Proof.
  intros Hr Hst Hok.
  assert (unknown_kept (<[id := Ledger.set_status r status]> c.(operations))) as Hkept.
  { intros id' x Hx _. destruct (decide (id' = id)) as [->|Hne].
    - rewrite lookup_insert_eq. eexists. split; [done|]. unfold same_unknown.
      by simplify_eq.
    - rewrite lookup_insert_ne by done. exists x. split; [done|apply same_unknown_refl]. }
  split; cbn; try apply Hc.
  - rewrite view_insert, (ci_view _ Hc). apply insert_id.
    exact (admitted_record c Hc id r Hr).
  - apply ledger_ok_insert; [apply Hc|done].
  - eapply lanes_ok_settle; [apply Hc|by cbn; rewrite Hst|by right].
  - by apply quarantines_kept.
  - by apply (archive_ok_promote_insert id r _ CompletionDecision.Idle).
  - by apply retirements_kept.
Qed.
End Preserve.

(** ** The calls *)

Section Calls.
Context `{HI : HashIter}.
Implicit Types (c : AuthoritativeOperationController).
Implicit Types (id : string) (r : SafetyOperation).

(** *** Dispatch *)

Lemma dispatch_Ok c id owner g binding now_ms c' u :
  mark_dispatched_with_binding c id owner g binding now_ms = (c', Ok u) →
  ∃ r a', checked c id owner g = Ok r ∧ r.(SafetyOperation.state) = ActiveNotDispatched ∧
  validate_some validate_binding binding = Ok tt ∧ mark_dispatched c.(admission) id = (a', Ok tt) ∧
  c' = put (set_admission c a') id (Ledger.set_status
         (Ledger.set_dispatch (Ledger.set_state r Dispatched) now_ms binding) None).
Proof.
  unfold mark_dispatched_with_binding. destruct (validate_some _ _) as [[]|] eqn:Hb; [|done].
  destruct (checked c id owner g) as [r|] eqn:Hr; [|done]. case_bool_decide as Hst; [|done]. cbn.
  intros (a' & [] & Ha & Hk)%on_admission_Ok. apply checked_Ok in Hr as (Hr & _ & _).
  cbn in Hk. rewrite Hr in Hk. exists r, a'. by simplify_eq.
Qed.

Lemma dispatch_Err c id owner g binding now_ms c' e :
  mark_dispatched_with_binding c id owner g binding now_ms = (c', Err e) → c' = c.
Proof.
  unfold mark_dispatched_with_binding. destruct (validate_some _ _); [|congruence].
  destruct (checked c id owner g) as [r|] eqn:Hr; [|congruence]. case_bool_decide; [|by intros [= ->]].
  cbn. intros [(a' & Ha & ->)|(a' & x & _ & Hk)]%on_admission_Err.
  - apply mark_dispatched_Err in Ha as ->. apply set_admission_id.
  - apply checked_Ok in Hr as (Hr & _ & _). cbn in Hk. by rewrite Hr in Hk.
Qed.

Lemma dispatch_cinv c id owner g binding now_ms c' u :
  cinv c → mark_dispatched_with_binding c id owner g binding now_ms = (c', Ok u) → cinv c'.
Proof.
  intros Hc (r & a' & (Hr & _ & _)%checked_Ok & Hst & Hb & Ha & ->)%dispatch_Ok.
  pose proof (mark_dispatched_inv _ id (ci_admission _ Hc)) as Hinv. rewrite Ha in Hinv.
  apply mark_dispatched_Ok in Ha as (o & Ho & _ & Hbe).
  rewrite (admitted_record c Hc _ _ Hr) in Ho. injection Ho as <-.
  eapply (cinv_put_live c Hc a' id r); [done|by rewrite Hst|done|done| |done|done].
  apply dispatched_ok; [by eapply (ci_ledger _ Hc)|done|done].
Qed.

(** *** Completion *)

Lemma finalize_Ok c id owner g t e now_ms c' next x :
  finalize c id owner g t e now_ms = (c', Ok (next, x)) →
  ∃ r a', checked c id owner g = Ok r ∧ on_device r.(SafetyOperation.state) = true ∧
  authoritative_agent_terminal_pair t e = true ∧
  finalize_terminal c.(admission) id t = (a', Ok next) ∧
  x = Ledger.receipt_for r t e now_ms ∧
  c' = activate_next (put (set_admission c a') id
         (Ledger.settle (Ledger.set_reason r None) t e now_ms)) next.
Proof.
  unfold finalize. destruct (checked c id owner g) as [r|] eqn:Hr; [|done].
  destruct (on_device _) eqn:Hd; [|done]. destruct (authoritative_agent_terminal_pair t e) eqn:Hp;
    [|done]. cbn. intros (a' & n & Ha & Hk)%on_admission_Ok.
  apply checked_Ok in Hr as Hr'. destruct Hr' as (Hr' & _ & _). cbn in Hk. rewrite Hr' in Hk.
  simplify_eq. by exists r, a'.
Qed.

Lemma finalize_Err c id owner g t e now_ms c' err :
  finalize c id owner g t e now_ms = (c', Err err) → c' = c.
Proof.
  unfold finalize. destruct (checked c id owner g) as [r|] eqn:Hr; [|congruence].
  destruct (_ || _); [congruence|]. cbn.
  intros [(a' & Ha & ->)|(a' & n & _ & Hk)]%on_admission_Err.
  - apply finalize_terminal_Err in Ha as ->. apply set_admission_id.
  - apply checked_Ok in Hr as (Hr & _ & _). cbn in Hk. by rewrite Hr in Hk.
Qed.

Lemma finalize_cinv c id owner g t e now_ms c' res :
  cinv c → finalize c id owner g t e now_ms = (c', Ok res) → cinv c'.
Proof.
  intros Hc.
  destruct res as [next x].
  intros (r & a' & (Hr & _ & _)%checked_Ok & Hd & Hp & Ha & _ & ->)%finalize_Ok.
  pose proof (finalize_terminal_inv _ id t (ci_admission _ Hc)) as Hinv. rewrite Ha in Hinv.
  apply finalize_terminal_Ok in Ha as (o & Ho & _ & Hs & Hbe); [|apply Hc].
  rewrite (admitted_record c Hc _ _ Hr) in Ho. injection Ho as <-.
  rewrite activate_next_eq. eapply (cinv_settle_live c Hc a' id r); [done|by apply on_device_unsettled|done|
    |done|exact Hbe|apply Hc].
  apply finalized_ok; [by eapply (ci_ledger _ Hc)|done|done].
Qed.

(** *** Cancellation *)

Lemma cancel_Ok c id owner g now_ms c' decision :
  request_cancel c id owner g now_ms = (c', Ok decision) →
  ∃ r a', checked c id owner g = Ok r ∧ cancel c.(admission) id = (a', Ok decision) ∧
  c' = match decision with
       | CancellationDecision.CancelledBeforeDispatch next =>
           activate_next (put (set_admission c a') id
             (Ledger.settle r Cancelled ExecutionEvidence.CancelledBeforeDispatch now_ms)) next
       | CancellationDecision.SendCancellation _ =>
           put (set_admission c a') id (Ledger.set_state r CancelRequested)
       | CancellationDecision.AlreadyTerminal _ => set_admission c a'
       end.
Proof.
  unfold request_cancel. destruct (checked c id owner g) as [r|] eqn:Hr; [|done].
  intros (a' & d & Ha & Hk)%on_admission_Ok. apply checked_Ok in Hr as Hr'.
  destruct Hr' as (Hr' & _ & _). cbn in Hk. rewrite Hr' in Hk. exists r, a'.
  destruct d; by simplify_eq.
Qed.

Lemma cancel_request_Err c id owner g now_ms c' e :
  request_cancel c id owner g now_ms = (c', Err e) → c' = c.
Proof.
  unfold request_cancel. destruct (checked c id owner g) as [r|] eqn:Hr; [|congruence].
  intros [(a' & Ha & ->)|(a' & d & _ & Hk)]%on_admission_Err.
  - apply cancel_Err in Ha as ->. apply set_admission_id.
  - apply checked_Ok in Hr as (Hr & _ & _). cbn in Hk. rewrite Hr in Hk. by destruct d.
Qed.

(** The record of an operation cancelled before its dispatch. *)
Lemma cancel_before_dispatch_cinv c a' id r next now_ms :
  cinv c → c.(operations) !! id = Some r →
  cancel c.(admission) id = (a', Ok (CancellationDecision.CancelledBeforeDispatch next)) →
  cinv (activate_next (put (set_admission c a') id
    (Ledger.settle r Cancelled ExecutionEvidence.CancelledBeforeDispatch now_ms)) next).
Proof.
  intros Hc Hr Ha. pose proof (cancel_inv _ id (ci_admission _ Hc)) as Hinv. rewrite Ha in Hinv.
  apply cancel_before_dispatch in Ha as (o & Ho & Hst & Hbe); [|apply Hc].
  rewrite (admitted_record c Hc _ _ Hr) in Ho. injection Ho as <-. cbn in Hst.
  rewrite activate_next_eq. eapply (cinv_settle_live c Hc a' id r); [done| |done| |done|exact Hbe|apply Hc].
  - by destruct Hst as [[-> _]| ->].
  - apply cancelled_ok; [by eapply (ci_ledger _ Hc)|naive_solver].
Qed.

Lemma cancel_cinv c id owner g now_ms c' decision :
  cinv c → request_cancel c id owner g now_ms = (c', Ok decision) → cinv c'.
Proof.
  intros Hc (r & a' & (Hr & _ & _)%checked_Ok & Ha & ->)%cancel_Ok. destruct decision as [next|o|s].
  - by eapply cancel_before_dispatch_cinv.
  - pose proof (cancel_inv _ id (ci_admission _ Hc)) as Hinv. rewrite Ha in Hinv.
    apply cancel_sent in Ha as (o' & Ho & Hd & Hbe).
    rewrite (admitted_record c Hc _ _ Hr) in Ho. injection Ho as <-. cbn in Hd.
    eapply (cinv_put_live c Hc a' id r); [done|by apply on_device_unsettled|done|done| |done|done].
    apply cancel_requested_ok; [by eapply (ci_ledger _ Hc)|done].
  - apply cancel_terminal in Ha as ->. by rewrite set_admission_id.
Qed.

(** *** Admission *)

(** The record of an operation as it is admitted. *)
Definition fresh_record (operation : OperationRef) (owner : OperationOwner)
    (capability : DeviceCapability) (lane : OperationExecutionLane)
    (metadata : OperationAdmissionMetadata) (decision : AdmissionDecision) (now_ms : N)
    : SafetyOperation :=
  SafetyOperation.mk operation owner capability lane (admitted_state decision) now_ms None None
    None None metadata.(OperationAdmissionMetadata.audit)
    metadata.(OperationAdmissionMetadata.request_fingerprint)
    metadata.(OperationAdmissionMetadata.evidence_envelope)
    (recovery_target_required capability)
    metadata.(OperationAdmissionMetadata.recovery_target)
    metadata.(OperationAdmissionMetadata.semantic_constraint) None None.

(** The barrier of the device, for a capability that is not an observation. *)
Definition mutation_barrier c (capability : DeviceCapability) (d : string)
    : option MutationResumeBarrier :=
  if bool_decide (class capability = CapabilityClass.Observe) then None
  else c.(mutation_resume_barriers) !! d.

Lemma prepare_Ok c operation owner capability metadata now_ms c' decision :
  prepare_with_metadata c operation owner capability metadata now_ms = (c', Ok decision) →
  ∃ lane a', replayed_id c operation.(OperationRef.operation_id) = false ∧
  validate_metadata metadata capability = Ok tt ∧
  mutation_barrier c capability operation.(OperationRef.device_id) = None ∧
  choose_lane c operation.(OperationRef.device_id) capability = Ok lane ∧
  admit_in_lane c lane operation = (a', Ok decision) ∧
  c' = put (set_admission c a') operation.(OperationRef.operation_id)
         (fresh_record operation owner capability lane metadata decision now_ms).
Proof.
  unfold prepare_with_metadata. destruct (replayed_id _ _) eqn:Hid; [done|].
  destruct (validate_metadata _ _) as [[]|] eqn:Hm; [|done]. unfold mutation_barrier.
  destruct (if bool_decide _ then _ else _) eqn:Hb; [done|].
  destruct (choose_lane _ _ _) as [lane|] eqn:Hl; [|done].
  intros (a' & d & Ha & Hk)%on_admission_Ok. exists lane, a'. by simplify_eq.
Qed.

Lemma prepare_Err c operation owner capability metadata now_ms c' e :
  prepare_with_metadata c operation owner capability metadata now_ms = (c', Err e) →
  c' = c ∨ (e = ExecutionError.BackpressureRejected ∧
    let d := operation.(OperationRef.device_id) in
    let queues := c.(admission).(queued_by_device) in
    c' = set_admission c (set_queued c.(admission) (<[d := default [] (queues !! d)]> queues))).
Proof.
  unfold prepare_with_metadata. destruct (replayed_id _ _); [intros [= <- _]; auto|].
  destruct (validate_metadata _ _); [|intros [= <- _]; auto].
  destruct (if bool_decide _ then _ else _); [intros [= <- _]; auto|].
  destruct (choose_lane _ _ _) as [lane|]; [|intros [= <- _]; auto].
  intros [(a' & Ha & ->)|(a' & d & _ & Hk)]%on_admission_Err; [|done].
  unfold admit_in_lane in Ha. destruct lane.
  - apply admit_Err in Ha as [->|[-> ->]]; [left; apply set_admission_id|by right].
  - apply admit_recovery_Err in Ha as ->. left. apply set_admission_id.
Qed.

Lemma fresh_record_ok operation owner capability lane metadata decision now_ms :
  validate_metadata metadata capability = Ok tt →
  (lane = OperationExecutionLane.RecoveryEvidenceRead →
   is_recovery_evidence_read_only capability = true) →
  record_ok (fresh_record operation owner capability lane metadata decision now_ms).
Proof.
  intros Hm Hl. split; [|by destruct decision|done]. split; [|done|done|done].
  unfold metadata_of. cbn. by destruct metadata.
Qed.

Lemma choose_lane_Ok c d capability lane :
  choose_lane c d capability = Ok lane →
  match lane with
  | OperationExecutionLane.Normal => c.(quarantines) !! d = None
  | OperationExecutionLane.RecoveryEvidenceRead =>
      is_Some (c.(quarantines) !! d) ∧ is_recovery_evidence_read_only capability = true
  end.
Proof.
  unfold choose_lane. intros H. run H; [by split; [eexists|]|done].
Qed.

Lemma replayed_id_false c id :
  replayed_id c id = false →
  c.(operations) !! id = None ∧ c.(recovery_archive) !! id = None ∧
  id ∉ retired_ref <$> c.(retirements).
Proof.
  unfold replayed_id. intros Hid. split_bools. split_and!; try by apply eq_None_not_Some.
  intros (t & -> & Ht)%list_elem_of_fmap. match goal with H : existsb _ _ = false |- _ =>
    rewrite <- not_true_iff_false, existsb_exists in H; destruct H end.
  exists t. split; [by apply list_elem_of_In|]. by apply bool_decide_true.
Qed.

Lemma admit_in_lane_inv c lane operation :
  inv c.(admission) → inv (admit_in_lane c lane operation).1.
Proof. destruct lane; [apply admit_inv|apply admit_recovery_inv]. Qed.

Lemma prepare_cinv c operation owner capability metadata now_ms c' decision :
  cinv c → prepare_with_metadata c operation owner capability metadata now_ms = (c', Ok decision) →
  cinv c'.
Proof.
  intros Hc (lane & a' & Hid & Hm & _ & Hl & Ha & ->)%prepare_Ok.
  apply replayed_id_false in Hid as (Hnew & Harch & _). apply choose_lane_Ok in Hl.
  pose proof (admit_in_lane_inv c lane operation (ci_admission _ Hc)) as Hinv. rewrite Ha in Hinv.
  assert (operation.(OperationRef.operation_id) ∉ c.(admission).(recovery_read_only_operations))
    as Hnr.
  { intros Hr. destruct (occ_recovery _ _ _ _ _ _ (inv_occupancy _ (ci_admission _ Hc)) _ Hr)
      as (d & o & Ho & _). apply (ledger_absent c Hc) in Hnew. congruence. }
  destruct lane; cbn in Ha.
  - apply admit_Ok in Ha as (_ & _ & _ & Hbe). pose proof (be_recovery _ _ _ _ _ _ Hbe) as Hrec.
    eapply (cinv_admit c Hc a'); [done|done| | |done| |by rewrite Hrec].
    + intros _. rewrite Hrec. split; [done|]. intros ?. done.
    + by apply fresh_record_ok.
    + intros id' _. by rewrite Hrec.
  - destruct Hl as [_ Hro].
    apply admit_recovery_Ok in Ha as (_ & _ & Hst & Hbe).
    pose proof (be_recovery _ _ _ _ _ _ Hbe) as Hrec.
    eapply (cinv_admit c Hc a'); [done|done| | |done| |].
    + intros _. rewrite Hrec. set_solver.
    + by apply fresh_record_ok.
    + intros id' Hne. rewrite Hrec. set_solver.
    + rewrite Hrec. unfold admitted_view. cbn. by rewrite Hst.
Qed.

(** *** Non-delivery *)

(** [push] and [drain] leave at most the permitted number. *)
Lemma auto_bound c x :
  (vlen (push_auto_resolution c x).(auto_resolutions) ≤ MAX_AUTO_RESOLUTION_RECORDS)%N.
Proof.
  unfold push_auto_resolution, vlen, MAX_AUTO_RESOLUTION_RECORDS. cbn.
  destruct (N.ltb_spec 64 (N.of_nat (length (c.(auto_resolutions) ++ [x])))); [|lia].
  rewrite length_drop. lia.
Qed.

Definition non_delivered_record r (evidence : ExecutionEvidence) (now_ms : N) : SafetyOperation :=
  Ledger.settle (Ledger.set_result (Ledger.set_status (Ledger.set_reason r None)
    (Some ReconciliationStatus.AutoResolved)) None) Cancelled evidence now_ms.

Lemma non_delivery_Ok c id owner g binding evidence now_ms c' next x :
  resolve_hub_pre_enqueue_non_delivery c id owner g binding evidence now_ms
    = (c', Ok (next, x)) →
  ∃ r, checked c id owner g = Ok r ∧ is_pre_enqueue evidence = true ∧
  r.(SafetyOperation.execution_lane) = OperationExecutionLane.Normal ∧
  r.(SafetyOperation.dispatch_binding) = Some binding ∧
  (already_non_delivered r evidence = true ∧ c' = c ∧ next = CompletionDecision.Idle ∨
   ∃ a', r.(SafetyOperation.state) = Dispatched ∧
     r.(SafetyOperation.reconciliation_status) = None ∧
     c.(quarantines) !! Ledger.device r = None ∧
     finalize_terminal c.(admission) id Cancelled = (a', Ok next) ∧
     c' = activate_next (push_auto_resolution
            (put (set_admission c a') id (non_delivered_record r evidence now_ms))
            (AutoResolutionRecord.mk r.(SafetyOperation.operation)
               r.(SafetyOperation.capability) Cancelled evidence binding now_ms)) next).
Proof.
  unfold resolve_hub_pre_enqueue_non_delivery, authoritative_hub_pre_enqueue_non_delivery_pair.
  rewrite bool_decide_true by done. cbn. destruct (is_pre_enqueue evidence) eqn:He; [|done]. cbn.
  destruct (checked c id owner g) as [r|] eqn:Hr; [|done].
  case_bool_decide as Hl; [|done]. case_bool_decide as Hb; [|done]. cbn.
  destruct (already_non_delivered r evidence) eqn:Han.
  { destruct r.(SafetyOperation.receipt); [|done]. intros [= <- <- _]. eexists.
    split_and!; [done..|]. by left. }
  case_bool_decide as Hst; [|done]. destruct (r.(SafetyOperation.reconciliation_status)) eqn:Hrs;
    [done|]. case_bool_decide as Hq; [done|]. cbn.
  intros (a' & n & Ha & Hk)%on_admission_Ok. apply checked_Ok in Hr as Hr'.
  destruct Hr' as (Hr' & _ & _). cbn in Hk. rewrite Hr' in Hk. eexists. split_and!; [done..|].
  right. exists a'. simplify_eq. split_and!; [done..|by apply eq_None_not_Some|done|done].
Qed.

Lemma non_delivery_Err c id owner g binding evidence now_ms c' e :
  resolve_hub_pre_enqueue_non_delivery c id owner g binding evidence now_ms = (c', Err e) →
  c' = c.
Proof.
  unfold resolve_hub_pre_enqueue_non_delivery. destruct (negb _); [congruence|].
  destruct (checked c id owner g) as [r|] eqn:Hr; [|congruence]. destruct (_ || _); [congruence|].
  destruct (already_non_delivered r evidence).
  { destruct r.(SafetyOperation.receipt); congruence. }
  destruct (_ || _); [congruence|]. intros [(a' & Ha & ->)|(a' & n & _ & Hk)]%on_admission_Err.
  - apply finalize_terminal_Err in Ha as ->. apply set_admission_id.
  - apply checked_Ok in Hr as (Hr & _ & _). cbn in Hk. by rewrite Hr in Hk.
Qed.

Lemma non_delivery_cinv c id owner g binding evidence now_ms c' res :
  cinv c →
  resolve_hub_pre_enqueue_non_delivery c id owner g binding evidence now_ms = (c', Ok res) →
  cinv c'.
Proof.
  destruct res as [next x].
  intros Hc (r & (Hr & _ & _)%checked_Ok & He & Hl & Hb & [(_ & -> & _)|(a' & Hst & _ & _ & Ha & ->)])
    %non_delivery_Ok; [done|].
  pose proof (finalize_terminal_inv _ id Cancelled (ci_admission _ Hc)) as Hinv. rewrite Ha in Hinv.
  apply finalize_terminal_Ok in Ha as (o & Ho & _ & _ & Hbe); [|apply Hc].
  rewrite (admitted_record c Hc _ _ Hr) in Ho. injection Ho as <-.
  rewrite activate_next_eq.
  eapply (cinv_settle_live c Hc a' id r); [done|by rewrite Hst|done| |done|exact Hbe|apply auto_bound].
  apply non_delivered_ok; [by eapply (ci_ledger _ Hc)|done|done|by rewrite Hb|done].
Qed.

(** *** Interrupted recovery reads *)

Definition interrupted_record r (now_ms : N) : SafetyOperation :=
  Ledger.settle (Ledger.set_status (Ledger.set_result (Ledger.set_reason r None) None) None)
    Failed ExecutionEvidence.RecoveryReadInterrupted now_ms.

Lemma interrupted_Ok c id now_ms c' next x :
  mark_recovery_read_interrupted c id now_ms = (c', Ok (next, x)) →
  ∃ r a', c.(operations) !! id = Some r ∧
  r.(SafetyOperation.execution_lane) = OperationExecutionLane.RecoveryEvidenceRead ∧
  on_device r.(SafetyOperation.state) = true ∧
  fail_recovery_read_only c.(admission) id = (a', Ok next) ∧
  c' = activate_next (put (set_admission c a') id (interrupted_record r now_ms)) next.
Proof.
  unfold mark_recovery_read_interrupted. destruct (c.(operations) !! id) as [r|] eqn:Hr; [|done].
  case_bool_decide as Hl; [|done]. destruct (on_device _) eqn:Hd; [|done]. cbn.
  intros (a' & n & Ha & Hk)%on_admission_Ok. cbn in Hk. rewrite Hr in Hk. exists r, a'.
  by simplify_eq.
Qed.

Lemma interrupted_Err c id now_ms c' e :
  mark_recovery_read_interrupted c id now_ms = (c', Err e) → c' = c.
Proof.
  unfold mark_recovery_read_interrupted. destruct (c.(operations) !! id) as [r|] eqn:Hr;
    [|congruence]. destruct (_ || _); [congruence|].
  intros [(a' & Ha & ->)|(a' & n & _ & Hk)]%on_admission_Err.
  - apply fail_recovery_Err in Ha as ->. apply set_admission_id.
  - cbn in Hk. by rewrite Hr in Hk.
Qed.

Lemma interrupted_cinv c id now_ms c' res :
  cinv c → mark_recovery_read_interrupted c id now_ms = (c', Ok res) → cinv c'.
Proof.
  destruct res as [next x]. intros Hc (r & a' & Hr & Hl & Hd & Ha & ->)%interrupted_Ok.
  pose proof (fail_recovery_inv _ id (ci_admission _ Hc)) as Hinv. rewrite Ha in Hinv.
  apply fail_recovery_Ok in Ha as (o & Ho & _ & Hbe); [|apply Hc].
  rewrite (admitted_record c Hc _ _ Hr) in Ho. injection Ho as <-.
  rewrite activate_next_eq. eapply (cinv_settle_live c Hc a' id r);
    [done|by apply on_device_unsettled|done| |done|exact Hbe|apply Hc].
  apply interrupted_ok; [by eapply (ci_ledger _ Hc)|done|done].
Qed.

(** *** Settling an unknown outcome *)

Lemma evidence_gap_Ok c id c' u :
  mark_reconciliation_evidence_gap c id = (c', Ok u) →
  ∃ r, c.(operations) !! id = Some r ∧ r.(SafetyOperation.state) = Indeterminate ∧
  r.(SafetyOperation.reconciliation_status) = Some ReconciliationStatus.AutoReconciling ∧
  c' = put c id (Ledger.set_status r (Some ReconciliationStatus.UnrecoverableEvidenceGap)).
Proof. unfold mark_reconciliation_evidence_gap. intros H. run H. eauto. Qed.

Lemma operator_required_Ok c id c' u :
  mark_reconciliation_operator_required c id = (c', Ok u) →
  ∃ r, c.(operations) !! id = Some r ∧ r.(SafetyOperation.state) = Indeterminate ∧
  c' = put c id (Ledger.set_status r (Some ReconciliationStatus.OperatorRequired)).
Proof. unfold mark_reconciliation_operator_required. intros H. run H. eauto. Qed.

Lemma evidence_gap_Err c id c' e : mark_reconciliation_evidence_gap c id = (c', Err e) → c' = c.
Proof. unfold mark_reconciliation_evidence_gap. intros H. by run H. Qed.

Lemma operator_required_Err c id c' e :
  mark_reconciliation_operator_required c id = (c', Err e) → c' = c.
Proof. unfold mark_reconciliation_operator_required. intros H. by run H. Qed.

Lemma evidence_gap_cinv c id c' u :
  cinv c → mark_reconciliation_evidence_gap c id = (c', Ok u) → cinv c'.
Proof.
  intros Hc (r & Hr & Hst & _ & ->)%evidence_gap_Ok. apply cinv_set_status; [done..|].
  apply operator_status_ok; [by eapply (ci_ledger _ Hc)|done|done].
Qed.

Lemma operator_required_cinv c id c' u :
  cinv c → mark_reconciliation_operator_required c id = (c', Ok u) → cinv c'.
Proof.
  intros Hc (r & Hr & Hst & ->)%operator_required_Ok. apply cinv_set_status; [done..|].
  apply operator_status_ok; [by eapply (ci_ledger _ Hc)|done|done].
Qed.

Definition evidence_id (t : AgentTerminalEvidence) : string :=
  t.(AgentTerminalEvidence.operation).(OperationRef.operation_id).

Definition reconciled_record r (t : AgentTerminalEvidence) (now_ms : N) : SafetyOperation :=
  Ledger.settle (Ledger.set_result (Ledger.set_status (Ledger.set_reason r None)
    (Some ReconciliationStatus.AutoResolved)) None)
    t.(AgentTerminalEvidence.terminal_state) t.(AgentTerminalEvidence.evidence) now_ms.

Lemma evidence_matches_true r t :
  evidence_matches r t = true ↔
  r.(SafetyOperation.state) = Indeterminate ∧
  r.(SafetyOperation.reconciliation_status) = Some ReconciliationStatus.AutoReconciling ∧
  r.(SafetyOperation.operation) = t.(AgentTerminalEvidence.operation) ∧
  r.(SafetyOperation.capability) = t.(AgentTerminalEvidence.capability) ∧
  r.(SafetyOperation.dispatch_binding) = Some (evidence_binding t).
Proof. unfold evidence_matches. rewrite !andb_true_iff, !bool_decide_eq_true. tauto. Qed.

Lemma reconcile_terminal_Ok c t now_ms c' next x :
  reconcile_authoritative_terminal c t now_ms = (c', Ok (next, x)) →
  ∃ r q a', validate_terminal_evidence t = Ok tt ∧
  c.(operations) !! evidence_id t = Some r ∧ evidence_matches r t = true ∧
  c.(quarantines) !! Ledger.device r = Some q ∧
  q.(DesktopQuarantine.operation_id) = evidence_id t ∧
  reconcile_indeterminate_terminal c.(admission) (evidence_id t)
    t.(AgentTerminalEvidence.terminal_state) = (a', Ok next) ∧
  x = Ledger.receipt_for r t.(AgentTerminalEvidence.terminal_state)
        t.(AgentTerminalEvidence.evidence) now_ms ∧
  c' = activate_next (push_auto_resolution
         (set_quarantines (put (set_admission c a') (evidence_id t) (reconciled_record r t now_ms))
            (delete (Ledger.device r) c.(quarantines)))
         (AutoResolutionRecord.mk r.(SafetyOperation.operation) r.(SafetyOperation.capability)
            t.(AgentTerminalEvidence.terminal_state) t.(AgentTerminalEvidence.evidence)
            (evidence_binding t) now_ms)) next.
Proof.
  unfold reconcile_authoritative_terminal. fold (evidence_id t).
  destruct (validate_terminal_evidence t) as [[]|] eqn:Hv; [|done].
  destruct (c.(operations) !! evidence_id t) as [r|] eqn:Hr; [|done].
  destruct (evidence_matches r t) eqn:Hm; [|done]. cbn.
  destruct (c.(quarantines) !! Ledger.device r) as [q|] eqn:Hq; [|done].
  case_bool_decide as Hid; [|done]. cbn. destruct (negb _); [done|].
  intros (a' & n & Ha & Hk)%on_admission_Ok. cbn in Hk. rewrite Hr in Hk. cbn in Hk.
  apply evidence_matches_true in Hm as Hm'. destruct Hm' as (_ & _ & _ & _ & Hb). rewrite Hb in Hk.
  exists r, q, a'. by simplify_eq.
Qed.

Lemma reconcile_terminal_Err c t now_ms c' e :
  reconcile_authoritative_terminal c t now_ms = (c', Err e) → c' = c.
Proof.
  unfold reconcile_authoritative_terminal. fold (evidence_id t).
  destruct (validate_terminal_evidence t); [|congruence].
  destruct (c.(operations) !! evidence_id t) as [r|] eqn:Hr; [|congruence].
  destruct (evidence_matches r t) eqn:Hm; cbn; [|congruence].
  destruct (c.(quarantines) !! _); [|congruence]. destruct (_ || _); [congruence|].
  intros [(a' & Ha & ->)|(a' & n & _ & Hk)]%on_admission_Err.
  - apply reconcile_Err in Ha as ->. apply set_admission_id.
  - cbn in Hk. rewrite Hr in Hk. cbn in Hk.
    apply evidence_matches_true in Hm as (_ & _ & _ & _ & Hb). by rewrite Hb in Hk.
Qed.

Lemma reconcile_terminal_cinv c t now_ms c' res :
  cinv c → reconcile_authoritative_terminal c t now_ms = (c', Ok res) → cinv c'.
Proof.
  destruct res as [next x].
  intros Hc (r & q & a' & Hv & Hr & (Hst & Hrs & _)%evidence_matches_true & Hq & Hid & Ha & _ & ->)
    %reconcile_terminal_Ok.
  pose proof (reconcile_inv _ (evidence_id t) t.(AgentTerminalEvidence.terminal_state)
    (ci_admission _ Hc)) as Hinv. rewrite Ha in Hinv.
  apply reconcile_Ok in Ha as (o & Ho & _ & Hs & _ & Hbe); [|apply Hc].
  rewrite (admitted_record c Hc _ _ Hr) in Ho. injection Ho as <-.
  apply validate_terminal_evidence_ok in Hv as (_ & _ & Hp).
  rewrite activate_next_eq.
  eapply (cinv_settle_unknown c Hc a' (evidence_id t) r); [done..| |done|exact Hbe|apply auto_bound].
  apply reconciled_ok; [by eapply (ci_ledger _ Hc)|done..].
Qed.

Definition resolved_record r (decision : IndeterminateResolution) (now_ms : N) : SafetyOperation :=
  Ledger.settle (Ledger.set_status (Ledger.set_reason r None) None) (resolved_state decision)
    ExecutionEvidence.OperatorResolution now_ms.

Lemma resolve_by_Ok c id resolver decision evidence now_ms c' next x :
  resolve_indeterminate_by c id resolver decision evidence now_ms = (c', Ok (next, x)) →
  ∃ r q a', c.(operations) !! id = Some r ∧ r.(SafetyOperation.state) = Indeterminate ∧
  c.(quarantines) !! Ledger.device r = Some q ∧ q.(DesktopQuarantine.operation_id) = id ∧
  (decision = IndeterminateResolution.ConfirmedEffectAppliedUncommitted →
   types_text r.(SafetyOperation.capability) = true) ∧
  resolve_indeterminate c.(admission) id decision = (a', Ok next) ∧
  x = Ledger.receipt_for r (resolved_state decision) ExecutionEvidence.OperatorResolution now_ms ∧
  c' = activate_next (set_resolutions
         (set_quarantines (put (set_admission c a') id (resolved_record r decision now_ms))
            (delete (Ledger.device r) c.(quarantines)))
         (c.(resolutions) ++ [ResolutionRecord.mk id (Ledger.device r) (Ledger.generation r)
            resolver decision evidence now_ms])) next.
Proof.
  unfold resolve_indeterminate_by. destruct (_ || _); [done|].
  destruct (c.(operations) !! id) as [r|] eqn:Hr; [|done]. case_bool_decide as Hst; [|done]. cbn.
  destruct (c.(quarantines) !! Ledger.device r) as [q|] eqn:Hq; [|done].
  case_bool_decide as Hid; [|done]. cbn. destruct (negb _); [done|].
  destruct (bool_decide _ && _) eqn:Hd; [done|].
  intros (a' & n & Ha & Hk)%on_admission_Ok. cbn in Hk. rewrite Hr in Hk.
  exists r, q, a'. simplify_eq. split_and!; try done. intros ->.
  rewrite bool_decide_true in Hd by done. by apply negb_false_iff in Hd.
Qed.

Lemma resolve_by_Err c id resolver decision evidence now_ms c' e :
  resolve_indeterminate_by c id resolver decision evidence now_ms = (c', Err e) → c' = c.
Proof.
  unfold resolve_indeterminate_by. destruct (_ || _); [congruence|].
  destruct (c.(operations) !! id) as [r|] eqn:Hr; [|congruence]. case_bool_decide; cbn; [|congruence].
  destruct (c.(quarantines) !! _); [|congruence]. destruct (_ || _); [congruence|].
  destruct (_ && _); [congruence|].
  intros [(a' & Ha & ->)|(a' & n & _ & Hk)]%on_admission_Err.
  - apply resolve_Err in Ha as ->. apply set_admission_id.
  - cbn in Hk. by rewrite Hr in Hk.
Qed.

Lemma resolve_by_cinv c id resolver decision evidence now_ms c' res :
  cinv c → resolve_indeterminate_by c id resolver decision evidence now_ms = (c', Ok res) → cinv c'.
Proof.
  destruct res as [next x].
  intros Hc (r & q & a' & Hr & Hst & Hq & Hid & _ & Ha & _ & ->)%resolve_by_Ok.
  pose proof (resolve_inv _ id decision (ci_admission _ Hc)) as Hinv. rewrite Ha in Hinv.
  apply resolve_Ok in Ha as (o & Ho & _ & _ & Hbe); [|apply Hc].
  rewrite (admitted_record c Hc _ _ Hr) in Ho. injection Ho as <-.
  rewrite activate_next_eq. eapply (cinv_settle_unknown c Hc a' id r);
    [done|done|done|done|by destruct decision| |done|exact Hbe|apply Hc].
  apply resolved_ok; [by eapply (ci_ledger _ Hc)|done].
Qed.
End Calls.
