(* ===== verification/ControllerRecovery.v ===== *)
(** * Quarantine, retirement and the archive

    The operations of [AuthoritativeOperationController] that work on more than
    one record: an operation whose outcome becomes unknown takes its device's
    queue with it, a retirement may raise a mutation barrier and rotates the
    history, a prune moves results to the bounded archive. *)

From S2P Require Import Prelude Vocabulary Protocol Tombstone Admission AdmissionSafety.
From S2P Require Import AdmissionRestart AdmissionEffects SafetyTypes Evidence Controller.
From S2P Require Import ControllerLedger ControllerSafety.
Import HubOperationState Controller.

Section Quarantine.
Context `{HI : HashIter}.
Implicit Types (c : AuthoritativeOperationController) (id d : string) (r : SafetyOperation).

(** ** Cancelling a queue *)

Lemma cancel_of_queued (a : HubAdmissionController) id o :
  a.(Admission.operations) !! id = Some o → o.(state) = Queued →
  ∃ a', cancel a id =
    (a', Ok (CancellationDecision.CancelledBeforeDispatch CompletionDecision.Idle)).
Proof. intros Ho Hst. unfold cancel. rewrite Ho, Hst. by eexists. Qed.

(** What the cancellation of these queued operations leaves. *)
Record queue_cancelled c c' (ids : list string) (now_ms : N) : Prop := {
  qc_cinv : cinv c';
  qc_ops : ∀ id, c'.(operations) !! id =
    if decide (id ∈ ids)
    then (λ r, Ledger.settle r Cancelled ExecutionEvidence.CancelledBeforeDispatch now_ms)
           <$> c.(operations) !! id
    else c.(operations) !! id;
  qc_rest : c' = set_operations (set_admission c c'.(admission)) c'.(operations)
}.

Lemma cancel_queued_spec c ids now_ms :
  cinv c → NoDup ids →
  (∀ id, id ∈ ids → ∃ r, c.(operations) !! id = Some r ∧ r.(SafetyOperation.state) = Queued) →
  ∃ c', cancel_queued c ids now_ms = (c', Ok tt) ∧ queue_cancelled c c' ids now_ms.
Proof.
  revert c. induction ids as [|id ids IH]; intros c Hc Hnd Hq.
  { exists c. split; [done|]. split; [done| |by destruct c]. intros id. by rewrite decide_False by set_solver. }
  apply NoDup_cons in Hnd as [Hnotin Hnd].
  destruct (Hq id) as (r & Hr & Hst); [set_solver|].
  destruct (cancel_of_queued c.(admission) id (admitted_view r)) as [a' Ha];
    [by apply (admitted_record c Hc)|done|].
  set (c1 := put (set_admission c a') id
    (Ledger.settle r Cancelled ExecutionEvidence.CancelledBeforeDispatch now_ms)).
  assert (cinv c1) as Hc1 by exact (cancel_before_dispatch_cinv c a' id r _ now_ms Hc Hr Ha).
  destruct (IH c1 Hc1 Hnd) as (c' & Hrun & [Hinv Hops Hrest]).
  { intros id' Hin. destruct (Hq id') as (r' & Hr' & Hst'); [set_solver|]. exists r'.
    split; [|done]. cbn. rewrite lookup_insert_ne; [done|]. by intros ->. }
  exists c'. split.
  { cbn [cancel_queued]. unfold on_admission. rewrite Ha. cbn. rewrite Hr. exact Hrun. }
  split; [done| |by rewrite Hrest].
  intros id'. rewrite Hops. cbn. destruct (decide (id' = id)) as [->|Hne].
  - rewrite lookup_insert_eq, decide_False, decide_True, Hr by set_solver. done.
  - rewrite lookup_insert_ne by done. repeat case_decide; set_solver.
Qed.

(** ** An outcome becomes unknown *)

Definition quarantine_record c id r reason now_ms : AuthoritativeOperationController :=
  let c := put c id (indeterminate_record r reason) in
  set_quarantines c (<[Ledger.device r := quarantine_of r reason now_ms]> c.(quarantines)).

(** The loop does not see the record that becomes unknown. *)
Lemma cancel_queued_commute c id r reason ids now_ms now' :
  id ∉ ids →
  cancel_queued (quarantine_record c id r reason now') ids now_ms =
  (quarantine_record (cancel_queued c ids now_ms).1 id r reason now',
   (cancel_queued c ids now_ms).2).
Proof.
  revert c. induction ids as [|id' ids IH]; intros c Hnotin; [done|].
  apply not_elem_of_cons in Hnotin as [Hne Hnotin]. cbn [cancel_queued]. unfold on_admission.
  change ((quarantine_record c id r reason now').(admission)) with c.(admission).
  destruct (cancel c.(admission) id') as [a' [[n|o|s]|e]]; try done. cbn.
  rewrite lookup_insert_ne by done. destruct (c.(operations) !! id') as [x|]; [|done].
  rewrite <- IH by done. f_equal. unfold quarantine_record, put, set_operations, set_quarantines,
    set_admission. cbn. f_equal. by apply insert_insert_ne.
Qed.

Lemma no_quarantine_while_running c id r :
  cinv c → c.(operations) !! id = Some r → on_device r.(SafetyOperation.state) = true →
  is_some_and (λ q, negb (bool_decide (q.(DesktopQuarantine.operation_id) = id)))
    (c.(quarantines) !! Ledger.device r) = false →
  c.(quarantines) !! Ledger.device r = None.
Proof.
  intros Hc Hr Hd Hq. destruct (c.(quarantines) !! Ledger.device r) as [q|] eqn:Hqd; [|done].
  cbn in Hq. split_bools. destruct (ci_quarantines _ Hc _ _ Hqd) as (r' & Hr' & Hst & _).
  rewrite Hq in Hr'. simplify_eq. by rewrite Hst in Hd.
Qed.

Lemma quarantine_record_cinv c id r reason now_ms a' next :
  cinv c → c.(operations) !! id = Some r →
  r.(SafetyOperation.execution_lane) = OperationExecutionLane.Normal →
  on_device r.(SafetyOperation.state) = true → c.(quarantines) !! Ledger.device r = None →
  mark_indeterminate c.(admission) id = (a', Ok next) →
  cinv (quarantine_record (set_admission c a') id r reason now_ms).
Proof.
  intros Hc Hr Hl Hd Hnq Ha. pose proof (record_key c Hc id r Hr) as Hkey.
  pose proof (mark_indeterminate_inv _ id (ci_admission _ Hc)) as Hinv. rewrite Ha in Hinv.
  apply mark_indeterminate_Ok in Ha as (-> & _ & o & Ho & _ & [Hops _ Hbl Hret Hrec]). cbn in Hops.
  rewrite (admitted_record c Hc _ _ Hr) in Ho. injection Ho as <-.
  assert (view (<[id := indeterminate_record r reason]> c.(operations)) = a'.(Admission.operations))
    as Hview by by rewrite view_insert, (ci_view _ Hc), Hops.
  pose proof (unknown_kept_settle c id r (indeterminate_record r reason) CompletionDecision.Idle Hr
    (on_device_unsettled _ Hd) I) as Hkept.
  split; cbn; rewrite ?Hbl, ?Hret, ?Hrec; try apply Hc; try done.
  - rewrite fmap_insert, (ci_blocked _ Hc). cbn. by rewrite Hkey.
  - apply ledger_ok_insert; [apply Hc|]. apply indeterminate_ok; [by eapply (ci_ledger _ Hc)|done|done].
  - eapply lanes_ok_settle; [apply Hc|done|by right].
  - intros d q [[<- <-]|[Hne Hq]]%lookup_insert_Some.
    + exists (indeterminate_record r reason). split_and!; [|done..]. cbn.
      rewrite Hkey. apply lookup_insert_eq.
    + exact (quarantines_kept c Hc _ Hkept d q Hq).
  - by apply (archive_ok_promote_insert c Hc id r _ CompletionDecision.Idle).
  - by apply (retirements_kept c Hc).
Qed.

Lemma cancel_queued_other c ids now_ms id :
  id ∉ ids → (cancel_queued c ids now_ms).1.(operations) !! id = c.(operations) !! id.
Proof.
  revert c. induction ids as [|id' ids IH]; intros c Hnotin; [done|].
  apply not_elem_of_cons in Hnotin as [Hne Hnotin]. cbn [cancel_queued]. unfold on_admission.
  destruct (cancel c.(admission) id') as [a' [[n|o|s]|e]]; try done. cbn.
  destruct (c.(operations) !! id') as [x|]; [|done]. rewrite IH by done. cbn.
  by rewrite lookup_insert_ne.
Qed.

Lemma elem_of_queued_ids c d id id' :
  id' ∈ queued_ids c d id ↔
  id' ≠ id ∧ ∃ r, c.(operations) !! id' = Some r ∧ Ledger.device r = d ∧
                  r.(SafetyOperation.state) = Queued.
Proof.
  unfold queued_ids. rewrite list_elem_of_fmap. split.
  - intros ([k r] & -> & ((H1 & H2 & H3) & Hin%elem_of_hash_iter)%list_elem_of_filter). eauto.
  - intros (Hne & r & Hr & Hd & Hst). exists (id', r). split; [done|].
    apply list_elem_of_filter. split; [done|]. by apply elem_of_hash_iter.
Qed.

Lemma NoDup_queued_ids c d id : NoDup (queued_ids c d id).
Proof.
  unfold queued_ids. eapply sublist_NoDup; [|apply fmap_sublist, sublist_filter].
  rewrite hash_iter_perm. apply NoDup_fst_map_to_list.
Qed.

(** The operation [id] is unknown, its device quarantined, the queue cancelled. *)
Definition became_unknown c c' id reason now_ms : Prop :=
  ∃ r a' next, c.(operations) !! id = Some r ∧
  r.(SafetyOperation.execution_lane) = OperationExecutionLane.Normal ∧
  on_device r.(SafetyOperation.state) = true ∧
  c.(quarantines) !! Ledger.device r = None ∧
  mark_indeterminate c.(admission) id = (a', Ok next) ∧
  queue_cancelled (quarantine_record (set_admission c a') id r reason now_ms) c'
    (queued_ids c (Ledger.device r) id) now_ms.

Lemma mark_indeterminate_spec c id reason now_ms :
  cinv c →
  (∃ e, mark_indeterminate_internal c id reason now_ms = (c, Err e)) ∨
  (∃ c', mark_indeterminate_internal c id reason now_ms = (c', Ok CompletionDecision.Idle) ∧
         became_unknown c c' id reason now_ms).
Proof.
  intros Hc. unfold mark_indeterminate_internal.
  destruct (c.(operations) !! id) as [r|] eqn:Hr; [|eauto].
  case_bool_decide as Hl; [|eauto]. destruct (on_device r.(SafetyOperation.state)) eqn:Hd; [|eauto].
  destruct (is_some_and _ _) eqn:Hq; [eauto|]. apply no_quarantine_while_running in Hq; [|done..].
  set (ids := queued_ids c (Ledger.device r) id). unfold on_admission.
  destruct (mark_indeterminate c.(admission) id) as [a' [next|e]] eqn:Ha; cbn.
  2:{ apply mark_indeterminate_Err in Ha as ->. left. eexists. by rewrite set_admission_id. }
  right. apply mark_indeterminate_Ok in Ha as Hok. destruct Hok as (-> & _ & _).
  pose proof (quarantine_record_cinv c id r reason now_ms a' _ Hc Hr Hl Hd Hq Ha) as Hc1.
  assert (id ∉ ids) as Hnotin by by intros [? _]%elem_of_queued_ids.
  destruct (cancel_queued_spec _ ids now_ms Hc1) as (c' & Hrun & Hcancel).
  { apply NoDup_queued_ids. }
  { intros id' (Hne & x & Hx & _ & Hst)%elem_of_queued_ids. exists x. split; [|done]. cbn.
    by rewrite lookup_insert_ne. }
  rewrite cancel_queued_commute in Hrun by done.
  pose proof (cancel_queued_other (set_admission c a') ids now_ms id Hnotin) as Hother.
  destruct (cancel_queued (set_admission c a') ids now_ms) as [c2 res]. cbn in Hrun, Hother |- *.
  injection Hrun as Hc' ->. rewrite Hother. cbn. rewrite Hr. exists c'. split; [by rewrite <- Hc'|].
  exists r, a', CompletionDecision.Idle. split_and!; [done..|]. exact Hcancel.
Qed.

Lemma mark_indeterminate_Err' c id reason now_ms c' e :
  cinv c → mark_indeterminate_internal c id reason now_ms = (c', Err e) → c' = c.
Proof.
  intros Hc H. destruct (mark_indeterminate_spec c id reason now_ms Hc) as [[e' H']|(c1 & H' & _)];
    congruence.
Qed.

Lemma mark_indeterminate_cinv c id reason now_ms c' next :
  cinv c → mark_indeterminate_internal c id reason now_ms = (c', Ok next) → cinv c'.
Proof.
  intros Hc H. destruct (mark_indeterminate_spec c id reason now_ms Hc) as [[e' H']|(c1 & H' & Hb)];
    [congruence|]. assert (c1 = c') as -> by congruence.
  destruct Hb as (r & a' & n & _ & _ & _ & _ & _ & Hcancel). apply Hcancel.
Qed.
End Quarantine.

(** ** The oldest entry *)

Section MinIndex.
Context {A : Type} (keep : A → bool) (before : A → A → bool).
Hypothesis before_trans : ∀ a b d, before a b = true → before b d = true → before a d = true.
Hypothesis before_irrefl : ∀ a, before a a = false.

Lemma min_index_from_spec (pre l : list A) (best : option (nat * A)) :
  match best with
  | Some (i, a) => pre !! i = Some a ∧ keep a = true ∧
      ∀ b, b ∈ pre → keep b = true → before b a = false
  | None => ∀ b, b ∈ pre → keep b = false
  end →
  match min_index_from keep before (length pre) best l with
  | Some (i, a) => (pre ++ l) !! i = Some a ∧ keep a = true ∧
      ∀ b, b ∈ pre ++ l → keep b = true → before b a = false
  | None => ∀ b, b ∈ pre ++ l → keep b = false
  end.
Proof using before_trans before_irrefl.
  revert pre best. induction l as [|a l IH]; intros pre best Hb; cbn.
  { by rewrite app_nil_r. }
  specialize (IH (pre ++ [a])). rewrite length_app, Nat.add_1_r, <- app_assoc in IH. apply IH.
  clear IH. assert (∀ x, x ∈ pre ++ [a] → x ∈ pre ∨ x = a) as Hin by set_solver.
  assert (∀ i x, pre !! i = Some x → (pre ++ [a]) !! i = Some x) as Hl
    by (intros; by apply lookup_app_l_Some).
  assert ((pre ++ [a]) !! length pre = Some a) as Ha
    by (rewrite lookup_app_r, Nat.sub_diag by done; done).
  destruct (keep a) eqn:Hk.
  - destruct best as [[i b]|].
    + destruct Hb as (Hi & Hkb & Hmin). destruct (before a b) eqn:Hab.
      * split_and!; [done..|]. intros x [Hx| ->]%Hin Hkx; [|done]. apply not_true_is_false. intros Hxa.
        specialize (Hmin x Hx Hkx). rewrite (before_trans _ _ _ Hxa Hab) in Hmin. done.
      * split_and!; [by apply Hl|done|]. intros x [Hx| ->]%Hin Hkx; auto.
    + split_and!; [done..|]. intros x [Hx| ->]%Hin Hkx; [|done]. by rewrite (Hb x Hx) in Hkx.
  - destruct best as [[i b]|].
    + destruct Hb as (Hi & Hkb & Hmin). split_and!; [by apply Hl|done|].
      intros x [Hx| ->]%Hin Hkx; [auto|congruence].
    + intros x [Hx| ->]%Hin; auto.
Qed.

Lemma min_index_Some l i a :
  min_index keep before l = Some (i, a) →
  l !! i = Some a ∧ keep a = true ∧ ∀ b, b ∈ l → keep b = true → before b a = false.
Proof using before_trans before_irrefl.
  intros H. pose proof (min_index_from_spec [] l None) as Hs. cbn in Hs. unfold min_index in H.
  rewrite H in Hs. apply Hs. intros b Hb. by apply elem_of_nil in Hb.
Qed.

Lemma min_index_None l : min_index keep before l = None → ∀ b, b ∈ l → keep b = false.
Proof using before_trans before_irrefl.
  intros H. pose proof (min_index_from_spec [] l None) as Hs. cbn in Hs. unfold min_index in H.
  rewrite H in Hs. apply Hs. intros b Hb. by apply elem_of_nil in Hb.
Qed.
End MinIndex.

(** Both orders compare a time, then an identifier. *)
Lemma time_order_trans {A} (at_ms : A → N) (key : A → string) (a b d : A) :
  let before x y := (at_ms x <? at_ms y)%N || ((at_ms x =? at_ms y)%N && String.ltb (key x) (key y)) in
  before a b = true → before b d = true → before a d = true.
Proof.
  cbv zeta. rewrite !orb_true_iff, !andb_true_iff, !N.ltb_lt, !N.eqb_eq.
  intros [H1|[H1 H1']] [H2|[H2 H2']]; [left; lia..|]. right. split; [lia|].
  by eapply string_ltb_trans.
Qed.

Lemma time_order_irrefl {A} (at_ms : A → N) (key : A → string) (a : A) :
  (at_ms a <? at_ms a)%N || ((at_ms a =? at_ms a)%N && String.ltb (key a) (key a)) = false.
Proof. by rewrite N.ltb_irrefl, string_ltb_irrefl, andb_false_r. Qed.

Lemma archived_before_trans a b d :
  archived_before a b = true → archived_before b d = true → archived_before a d = true.
Proof. apply (time_order_trans archived_at archived_id). Qed.

Lemma archived_before_irrefl a : archived_before a a = false.
Proof. apply (time_order_irrefl archived_at archived_id). Qed.

Lemma retired_before_trans a b d :
  retired_before a b = true → retired_before b d = true → retired_before a d = true.
Proof. apply (time_order_trans RetirementRecord.retired_at_ms retired_ref). Qed.

Lemma retired_before_irrefl a : retired_before a a = false.
Proof. apply (time_order_irrefl RetirementRecord.retired_at_ms retired_ref). Qed.

(** ** The bounded archive *)

Section Archive.
Context `{HI : HashIter} `{RS : RecoverySerializer}.
Implicit Types (archive : gmap string ArchivedOperationRecovery) (c : AuthoritativeOperationController).

Definition archive_bounded archive : Prop :=
  (mlen archive ≤ MAX_RECOVERY_ARCHIVE_ENTRIES)%N ∧
  (recovery_archive_encoded_bytes archive ≤ MAX_RECOVERY_ARCHIVE_BYTES)%N.

Definition well_keyed archive : Prop := ∀ id a, archive !! id = Some a → archived_id a = id.

Lemma archive_over archive :
  negb ((MAX_RECOVERY_ARCHIVE_ENTRIES <? mlen archive)%N
        || (MAX_RECOVERY_ARCHIVE_BYTES <? recovery_archive_encoded_bytes archive)%N) = true ↔
  archive_bounded archive.
Proof. unfold archive_bounded. rewrite negb_true_iff, orb_false_iff, !N.ltb_ge. done. Qed.

Lemma archive_bounded_empty : archive_bounded ∅.
Proof.
  unfold archive_bounded, mlen, recovery_archive_encoded_bytes. rewrite map_size_empty.
  assert (hash_iter (∅ : gmap string ArchivedOperationRecovery) = []) as ->; [|done].
  apply Permutation_nil_r. by rewrite hash_iter_perm, map_to_list_empty.
Qed.

Lemma oldest_entry archive i a :
  well_keyed archive → min_index (λ _, true) archived_before (hash_iter archive).*2 = Some (i, a) →
  archive !! archived_id a = Some a ∧
  ∀ id b, archive !! id = Some b → archived_before b a = false.
Proof.
  intros Hk H. apply min_index_Some in H as (Hi & _ & Hmin);
    [|exact archived_before_trans|exact archived_before_irrefl].
  apply list_elem_of_lookup_2, list_elem_of_fmap in Hi as ([id a'] & Heq & Hin%elem_of_hash_iter).
  cbn in Heq. subst a'. split; [by rewrite (Hk id a Hin)|]. intros id' b Hb. apply Hmin; [|done].
  apply list_elem_of_fmap. exists (id', b). split; [done|]. by apply elem_of_hash_iter.
Qed.

Lemma well_keyed_delete archive id : well_keyed archive → well_keyed (delete id archive).
Proof. intros Hk id' a [_ Ha]%lookup_delete_Some. by apply Hk. Qed.

(** The loop ends within the bounds after at most one iteration per entry, and
    what it dropped is not newer than anything it kept. *)
Lemma bound_archive_spec fuel archive :
  well_keyed archive → size archive ≤ fuel →
  let kept := bound_archive fuel archive in
  archive_bounded kept ∧ kept ⊆ archive ∧
  (archive_bounded archive → kept = archive) ∧
  (∀ id a id' b, archive !! id = Some a → kept !! id = None → kept !! id' = Some b →
     archived_before b a = false).
Proof.
  revert archive. induction fuel as [|fuel IH]; intros archive Hk Hsize; cbn zeta; cbn [bound_archive];
    destruct (negb _) eqn:Hover.
  1,3: apply archive_over in Hover; split_and!; [done..|congruence].
  - assert (archive = ∅) as -> by (apply map_size_empty_inv; lia). exfalso.
    apply not_true_iff_false in Hover. apply Hover, archive_over, archive_bounded_empty.
  - apply not_true_iff_false in Hover. rewrite archive_over in Hover.
    destruct (min_index _ _ _) as [[i a]|] eqn:Hmin.
    + destruct (oldest_entry archive i a Hk Hmin) as [Ha Hold]. cbn [snd].
      destruct (IH (delete (archived_id a) archive)) as (Hb & Hsub & _ & Hnew).
      { by apply well_keyed_delete. }
      { rewrite map_size_delete_Some by done. lia. }
      split_and!; [done|by etrans; [|apply delete_subseteq]|done|].
      intros id x id' b Hx Hnone Hb'. destruct (decide (id = archived_id a)) as [->|Hne].
      * assert (x = a) as -> by congruence. eapply Hold.
        by eapply lookup_weaken; [|etrans; [|apply delete_subseteq]].
      * eapply Hnew; [|done|done]. by rewrite lookup_delete_ne.
    + exfalso. apply Hover.
      assert (archive = ∅) as ->; [|apply archive_bounded_empty]. apply map_empty. intros id.
      apply eq_None_not_Some. intros [a Ha].
      pose proof (min_index_None _ _ archived_before_trans archived_before_irrefl _ Hmin a) as Hn.
      discriminate Hn. apply list_elem_of_fmap. exists (id, a). split; [done|].
      by apply elem_of_hash_iter.
Qed.

(** ** Pruning *)

Lemma prunable_view d g r : prunable d g (admitted_view r) = prunable_record d g r.
Proof. done. Qed.

(** A settled record with a result makes a valid archive entry. *)
Lemma archive_entry_valid (r : SafetyOperation) :
  record_ok r → settled r.(SafetyOperation.state) = true →
  opt_some r.(SafetyOperation.recoverable_result) = true →
  ∃ a, archive_entry r = Ok a ∧ valid_archived a = true ∧ archived_id a = Ledger.id r.
Proof.
  intros Hr Hs Hres. destruct (r.(SafetyOperation.recoverable_result)) as [x|] eqn:Hx; [|done].
  pose proof (ro_result _ Hr x Hx) as Hv. pose proof (ro_state _ Hr) as Hst.
  assert (∃ y, r.(SafetyOperation.receipt) = Some y ∧ receipt_about r y) as (y & Hy & Ho & Hw & Hcap & Ht).
  { unfold state_ok in Hst. destruct r.(SafetyOperation.state); try done; naive_solver. }
  unfold archive_entry. rewrite Hx, Hy. eexists. split_and!; [done| |done].
  unfold valid_archived. cbn. rewrite Hs, Hv, !bool_decide_true by done. cbn.
  pose proof (ao_metadata _ (ro_admission _ Hr)) as Hm. unfold validate_metadata in Hm. cbn in Hm.
  run Hm; unfold is_none_or, validate_some in *; by destruct (SafetyOperation.semantic_constraint r);
    try (rewrite Hm).
Qed.

Lemma collect_total {E A B} (f : A → result E B) l :
  (∀ a, a ∈ l → ∃ b, f a = Ok b) → ∃ bs, collect f l = Ok bs.
Proof.
  induction l as [|a l IH]; intros Hf; [by exists []|]. cbn.
  destruct (Hf a) as [b ->]; [set_solver|]. destruct IH as [bs ->]; [set_solver|]. by eexists.
Qed.

Lemma collect_elem {E A B} (f : A → result E B) l bs b :
  collect f l = Ok bs → b ∈ bs → ∃ a, a ∈ l ∧ f a = Ok b.
Proof.
  intros Hc%collect_Forall2 Hb. apply list_elem_of_lookup in Hb as [i Hi].
  destruct (Forall2_lookup_r _ _ _ _ _ Hc Hi) as (a & Ha & Hab). exists a. split; [|done].
  by eapply list_elem_of_lookup_2.
Qed.

Definition file_all archive (entries : list ArchivedOperationRecovery) :=
  foldl (λ m a, <[archived_id a := a]> m) archive entries.

Lemma archive_all_spec c entries :
  Forall (λ a, valid_archived a = true) entries →
  archive_all c entries = (set_archive c (file_all c.(recovery_archive) entries), Ok tt).
Proof.
  intros Hv. revert c. induction Hv as [|a entries Ha _ IH]; intros c; cbn; [by destruct c|].
  rewrite Ha. cbn. apply IH.
Qed.

Lemma file_all_lookup archive entries id a :
  file_all archive entries !! id = Some a →
  archive !! id = Some a ∨ (a ∈ entries ∧ archived_id a = id).
Proof.
  revert archive. induction entries as [|x entries IH]; intros archive; cbn; [by left|].
  intros [[[<- <-]|[_ H]]%lookup_insert_Some|[Hin Hid]]%IH; [|by left|]; right; set_solver.
Qed.

Lemma file_all_kept archive entries id :
  (∀ b, b ∈ entries → archived_id b ≠ id) → file_all archive entries !! id = archive !! id.
Proof.
  revert archive. induction entries as [|x entries IH]; intros archive Hne; [done|]. cbn.
  rewrite IH by set_solver. apply lookup_insert_ne. apply Hne. by left.
Qed.

Lemma file_all_filed archive entries a :
  a ∈ entries → (∀ b, b ∈ entries → archived_id b = archived_id a → b = a) →
  file_all archive entries !! archived_id a = Some a.
Proof.
  revert archive. induction entries as [|x entries IH]; intros archive Hin Huniq;
    [by apply elem_of_nil in Hin|]. cbn.
  destruct (decide (a ∈ entries)) as [Ha|Hn]; [apply IH; [done|set_solver]|].
  apply elem_of_cons in Hin as [<-|]; [|done].
  rewrite file_all_kept; [by rewrite lookup_insert_eq|]. intros b Hb Heq. apply Hn.
  by rewrite <- (Huniq b) by set_solver.
Qed.

Lemma collect_image {E A B} (f : A → result E B) l bs a b :
  collect f l = Ok bs → a ∈ l → f a = Ok b → b ∈ bs.
Proof.
  intros Hc%collect_Forall2 Ha Hb. apply list_elem_of_lookup in Ha as [i Hi].
  destruct (Forall2_lookup_l _ _ _ _ _ Hc Hi) as (b' & Hb' & Hab).
  apply list_elem_of_lookup_2 in Hb'. congruence.
Qed.

(** What is kept of the records of older generations of a device. *)
Record pruned c c' (d : string) (g : N) : Prop := {
  pr_ops : ∀ id, c'.(operations) !! id =
    match c.(operations) !! id with
    | Some r => if prunable_record d g r then None else Some r
    | None => None
    end;
  pr_archive : ∀ id a, c'.(recovery_archive) !! id = Some a →
    c.(recovery_archive) !! id = Some a ∨
    ∃ r, c.(operations) !! id = Some r ∧ prunable_record d g r = true ∧ archive_entry r = Ok a;
  pr_bounded : archive_bounded c'.(recovery_archive);
  pr_admission : (prune_terminal_before_generation c.(admission) d g).1 = c'.(admission);
  pr_rest : c' = set_operations (set_archive (set_admission c c'.(admission))
                   c'.(recovery_archive)) c'.(operations);
  pr_kept : ∀ id a, c.(recovery_archive) !! id = Some a ∨
    (∃ r, c.(operations) !! id = Some r ∧ prunable_record d g r = true ∧ archive_entry r = Ok a) →
    c'.(recovery_archive) !! id = Some a ∨
    ∀ id' b, c'.(recovery_archive) !! id' = Some b → archived_before b a = false
}.

(** The entries a prune files, one for each prunable record with a result. *)
Lemma archive_entries c d g :
  cinv c →
  ∃ entries, collect (λ kv : string * SafetyOperation, archive_entry kv.2)
    (filter (λ kv, prunable_record d g kv.2
                   && opt_some kv.2.(SafetyOperation.recoverable_result) = true)
       (hash_iter c.(operations))) = Ok entries ∧
  (∀ a, a ∈ entries → valid_archived a = true ∧
    ∃ r, c.(operations) !! archived_id a = Some r ∧ prunable_record d g r = true ∧
         archive_entry r = Ok a) ∧
  ∀ id r a, c.(operations) !! id = Some r → prunable_record d g r = true →
    archive_entry r = Ok a → a ∈ entries ∧ archived_id a = id.
Proof.
  intros Hc.
  assert (∀ id r, (id, r) ∈ filter (λ kv, prunable_record d g kv.2
            && opt_some kv.2.(SafetyOperation.recoverable_result) = true) (hash_iter c.(operations)) →
          c.(operations) !! id = Some r ∧ prunable_record d g r = true ∧
          ∃ a, archive_entry r = Ok a ∧ valid_archived a = true ∧ archived_id a = id) as Hentry.
  { intros id r [[Hp Hx]%andb_true_iff Hin%elem_of_hash_iter]%list_elem_of_filter. cbn in *.
    split_and!; [done..|].
    destruct (archive_entry_valid r) as (a & Ha & Hv & Hid);
      [by eapply (ci_ledger _ Hc)|unfold prunable_record in Hp; by split_bools|done|].
    exists a. split_and!; [done..|]. by rewrite Hid, (record_key c Hc id r). }
  destruct (collect_total (λ kv : string * SafetyOperation, archive_entry kv.2)
    (filter (λ kv, prunable_record d g kv.2
                   && opt_some kv.2.(SafetyOperation.recoverable_result) = true)
       (hash_iter c.(operations)))) as [entries He].
  { intros [id r] Hin. apply Hentry in Hin as (_ & _ & a & Ha & _). by exists a. }
  exists entries. split_and!; [done| |].
  - intros a Ha. destruct (collect_elem _ _ _ _ He Ha) as ([id r] & Hin & Har). cbn in Har.
    apply Hentry in Hin as (Hr & Hp & a' & Ha' & Hv & Hid).
    assert (a' = a) as -> by congruence. subst id. split; [done|]. by exists r.
  - intros id r a Hr Hp Ha.
    assert (opt_some r.(SafetyOperation.recoverable_result) = true) as Hx
      by (unfold archive_entry in Ha; by run Ha).
    assert ((id, r) ∈ filter (λ kv, prunable_record d g kv.2
              && opt_some kv.2.(SafetyOperation.recoverable_result) = true) (hash_iter c.(operations)))
      as Hin.
    { apply list_elem_of_filter. cbn. rewrite Hp, Hx. split; [done|]. by apply elem_of_hash_iter. }
    split; [by apply (collect_image _ _ _ (id, r) a He)|].
    apply Hentry in Hin as (_ & _ & a' & Ha' & _ & <-). f_equal. congruence.
Qed.

Lemma filed_entries c d g entries :
  cinv c →
  (∀ a, a ∈ entries → valid_archived a = true ∧
    ∃ r, c.(operations) !! archived_id a = Some r ∧ prunable_record d g r = true ∧
         archive_entry r = Ok a) →
  (∀ id r a, c.(operations) !! id = Some r → prunable_record d g r = true →
    archive_entry r = Ok a → a ∈ entries ∧ archived_id a = id) →
  ∀ id a, c.(recovery_archive) !! id = Some a ∨
    (∃ r, c.(operations) !! id = Some r ∧ prunable_record d g r = true ∧ archive_entry r = Ok a) →
  file_all c.(recovery_archive) entries !! id = Some a.
Proof.
  intros Hc Hsound Hall id a [Ha|(r & Hr & Hp & He)].
  - rewrite file_all_kept; [done|]. intros b (_ & r & Hr & _)%Hsound <-.
    destruct (ci_archive _ Hc _ _ Ha) as (_ & _ & Hnone). congruence.
  - destruct (Hall id r a Hr Hp He) as [Hin <-]. apply file_all_filed; [done|].
    intros b (_ & r' & Hr' & _ & He')%Hsound Heq. rewrite Heq in Hr'. congruence.
Qed.

Lemma prune_spec c d g :
  cinv c → (∃ e, prune_terminal c d g = (c, Err e)) ∨
  ∃ c' n, prune_terminal c d g = (c', Ok n) ∧ pruned c c' d g.
Proof.
  intros Hc. unfold prune_terminal. destruct (trim_is_empty d || (g =? 0)%N) eqn:Hg; [eauto|].
  right. destruct (archive_entries c d g Hc) as (entries & -> & Hentries & Hall).
  rewrite archive_all_spec by (apply Forall_forall; intros a Ha; by apply Hentries).
  set (filed := file_all c.(recovery_archive) entries).
  assert (∀ id a, filed !! id = Some a → archived_id a = id ∧
    (c.(recovery_archive) !! id = Some a ∨
     ∃ r, c.(operations) !! id = Some r ∧ prunable_record d g r = true ∧ archive_entry r = Ok a))
    as Hfiled.
  { intros id a [Ha|[Ha <-]]%file_all_lookup.
    - split; [by apply (ci_archive _ Hc)|by left].
    - split; [done|]. right. by apply Hentries. }
  assert (∀ id a, c.(recovery_archive) !! id = Some a ∨
    (∃ r, c.(operations) !! id = Some r ∧ prunable_record d g r = true ∧ archive_entry r = Ok a) →
    filed !! id = Some a) as Hkept by by apply filed_entries.
  destruct (bound_archive_spec (size filed) filed) as (Hbounded & Hsub & _ & Hold);
    [by intros id a [? _]%Hfiled|done|].
  destruct (prune_Ok c.(admission) d g (ci_admission _ Hc) Hg) as (a' & n & Ha & _).
  unfold on_admission, bound_recovery_archive. cbn. rewrite Ha. do 2 eexists. split; [done|].
  split; cbn; [| |done|by rewrite Ha|done|].
  - intros id. destruct (c.(operations) !! id) as [r|] eqn:Hr.
    + destruct (prunable_record d g r) eqn:Hp.
      * apply map_lookup_filter_None. right. intros r' Hr' ?. simplify_eq/=. congruence.
      * by apply map_lookup_filter_Some.
    + apply map_lookup_filter_None. by left.
  - intros id a Hid. by eapply Hfiled, lookup_weaken.
  - intros id a Hid%Hkept. destruct (bound_archive _ _ !! id) as [a''|] eqn:Hb.
    + left. f_equal. eapply lookup_weaken in Hb; [|exact Hsub]. congruence.
    + right. intros id' b Hb'. by apply (Hold id a id' b).
Qed.

Lemma pruned_cinv c c' d g :
  cinv c → trim_is_empty d || (g =? 0)%N = false → pruned c c' d g → cinv c'.
Proof.
  intros Hc Hg [Hops Harch _ Hadm Hrest _].
  destruct (prune_Ok c.(admission) d g (ci_admission _ Hc) Hg)
    as (a' & n & Ha & Haops & Hbl & Hret & Hrec).
  rewrite Ha in Hadm. cbn in Hadm. subst a'.
  pose proof (prune_inv _ d g (ci_admission _ Hc)) as Hinv. rewrite Ha in Hinv. cbn in Hinv.
  assert (∀ id r, c'.(operations) !! id = Some r → c.(operations) !! id = Some r) as Hold.
  { intros id r. rewrite Hops. destruct (c.(operations) !! id) as [x|]; [|done].
    by destruct (prunable_record d g x). }
  assert (∀ id r, c.(operations) !! id = Some r → r.(SafetyOperation.state) = Indeterminate →
    ∃ r', c'.(operations) !! id = Some r' ∧ same_unknown r r') as Hkept.
  { intros id r Hr Hst. exists r. split; [|apply same_unknown_refl]. rewrite Hops, Hr.
    unfold prunable_record. rewrite Hst. cbn. by rewrite andb_false_r. }
  rewrite Hrest. split; cbn; rewrite ?Hbl, ?Hret, ?Hrec; try apply Hc; try done.
  - apply map_eq. intros id. rewrite view_lookup, Hops, Haops, <- (ci_view _ Hc), view_lookup.
    destruct (c.(operations) !! id) as [r|]; [|done]. cbn. rewrite prunable_view.
    by destruct (prunable_record d g r).
  - intros id r Hr. by eapply (ci_ledger _ Hc), Hold.
  - intros id r Hr. by apply (ci_lanes _ Hc), Hold.
  - by apply (quarantines_kept c Hc).
  - intros id a Hid. rewrite Hops. destruct (Harch id a Hid) as [Hid'|(r & Hr & Hp & He)].
    + destruct (ci_archive _ Hc id a Hid') as (? & ? & Hnone). by rewrite Hnone.
    + rewrite Hr, Hp.
      assert (opt_some r.(SafetyOperation.recoverable_result) = true) as Hres
        by (unfold archive_entry in He; by run He).
      destruct (archive_entry_valid r) as (a' & Ha' & Hv & Hid');
        [by eapply (ci_ledger _ Hc)|unfold prunable_record in Hp; by split_bools|done|].
      assert (a' = a) as -> by congruence. split_and!; [|done|done].
      by rewrite Hid', (record_key c Hc id r).
  - by apply (retirements_kept c Hc).
Qed.
End Archive.

(** ** Results and lost connections *)

Section Results.
Context `{HI : HashIter} `{RS : RecoverySerializer}.
Implicit Types (c : AuthoritativeOperationController) (id : string).

Lemma attach_Ok c id owner g x c' u :
  attach_recoverable_result c id owner g x = (c', Ok u) →
  ∃ r, checked c id owner g = Ok r ∧ is_Some r.(SafetyOperation.receipt) ∧
  r.(SafetyOperation.recoverable_result) = None ∧
  result_valid_for x r.(SafetyOperation.capability) r.(SafetyOperation.state) = true ∧
  c' = put c id (Ledger.set_result r (Some x)).
Proof.
  unfold attach_recoverable_result. destruct (checked c id owner g) as [r|] eqn:Hr; [|done].
  destruct (r.(SafetyOperation.receipt)) as [y|] eqn:Hy; cbn; [|done].
  destruct (result_valid_for _ _ _) eqn:Hx; cbn; [|done].
  destruct (is_none_or _ _); cbn; [done|].
  destruct (r.(SafetyOperation.recoverable_result)) eqn:Hn; cbn; [done|].
  apply checked_Ok in Hr as Hr'. destruct Hr' as (-> & _ & _).
  intros [= <- _]. exists r. by rewrite Hy.
Qed.

Lemma attach_Err c id owner g x c' e :
  attach_recoverable_result c id owner g x = (c', Err e) → c' = c.
Proof. unfold attach_recoverable_result. intros H. by run H. Qed.

Lemma receipt_settled r : record_ok r → is_Some r.(SafetyOperation.receipt) →
  settled r.(SafetyOperation.state) = true.
Proof.
  intros [_ Hs _] [x Hx]. unfold state_ok, open_record in Hs.
  destruct r.(SafetyOperation.state); naive_solver congruence.
Qed.

Lemma attach_cinv c id owner g x c' u :
  cinv c → attach_recoverable_result c id owner g x = (c', Ok u) → cinv c'.
Proof.
  intros Hc (r & (Hr & _ & _)%checked_Ok & Hx & _ & Hv & ->)%attach_Ok.
  pose proof (ci_ledger _ Hc id r Hr) as Hok. pose proof (receipt_settled r Hok Hx) as Hs.
  assert (∀ id' y, c.(operations) !! id' = Some y → y.(SafetyOperation.state) = Indeterminate →
    ∃ y', <[id := Ledger.set_result r (Some x)]> c.(operations) !! id' = Some y' ∧
          same_unknown y y') as Hkept.
  { intros id' y Hy Hst. exists y. split; [|apply same_unknown_refl].
    rewrite lookup_insert_ne; [done|]. intros ->. simplify_eq. by rewrite Hst in Hs. }
  split; cbn; try apply Hc.
  - rewrite view_insert, (ci_view _ Hc). apply insert_id. exact (admitted_record c Hc id r Hr).
  - apply ledger_ok_insert; [apply Hc|]. by apply attached_ok.
  - eapply lanes_ok_settle; [apply Hc|by apply settled_not_unsettled|by right].
  - by apply (quarantines_kept c Hc).
  - by apply (archive_ok_promote_insert c Hc id r _ CompletionDecision.Idle).
  - by apply (retirements_kept c Hc).
Qed.

Lemma connection_lost_Err c id now_ms c' e :
  cinv c → mark_connection_lost c id now_ms = (c', Err e) → c' = c.
Proof.
  intros Hc. unfold mark_connection_lost. destruct (is_recovery_evidence_read c id).
  - destruct (mark_recovery_read_interrupted c id now_ms) as [c1 [[next y]|e']] eqn:Hrun; [done|].
    intros [= <- <-]. by eapply interrupted_Err.
  - by apply mark_indeterminate_Err'.
Qed.

Lemma connection_lost_cinv c id now_ms c' next :
  cinv c → mark_connection_lost c id now_ms = (c', Ok next) → cinv c'.
Proof.
  intros Hc. unfold mark_connection_lost. destruct (is_recovery_evidence_read c id).
  - destruct (mark_recovery_read_interrupted c id now_ms) as [c1 [[n y]|e']] eqn:Hrun; [|done].
    intros [= <- <-]. by eapply interrupted_cinv.
  - by apply mark_indeterminate_cinv.
Qed.

Lemma indeterminate_owned_Err c id owner g reason now_ms c' e :
  cinv c → mark_indeterminate_owned c id owner g reason now_ms = (c', Err e) → c' = c.
Proof.
  intros Hc. unfold mark_indeterminate_owned. destruct (checked c id owner g); [|congruence].
  by apply mark_indeterminate_Err'.
Qed.

Lemma indeterminate_owned_cinv c id owner g reason now_ms c' next :
  cinv c → mark_indeterminate_owned c id owner g reason now_ms = (c', Ok next) → cinv c'.
Proof.
  intros Hc. unfold mark_indeterminate_owned. destruct (checked c id owner g); [|done].
  by apply mark_indeterminate_cinv.
Qed.
End Results.
