(* ===== verification/ControllerRetirement.v ===== *)
(** * Retirement and mutation barriers

    An unknown outcome that will never be known is retired: its device is freed,
    its identifier stays refused, and for a pointer click the device's mutations
    stay barred until the user resumes them. The detailed history is rotated to a
    bound without ever dropping the source of an active barrier. *)

From S2P Require Import Prelude Vocabulary Protocol Tombstone Admission AdmissionSafety.
From S2P Require Import AdmissionRestart AdmissionEffects SafetyTypes Evidence Controller.
From S2P Require Import ControllerLedger ControllerSafety ControllerRecovery.
Import HubOperationState Controller.

(** ** Barriers *)

Section Barriers.
Implicit Types (ts : list RetirementRecord) (bs : gmap string MutationResumeBarrier)
  (ms : list MutationResumeRecord) (t : RetirementRecord).

Lemma requires_barrier_true t :
  requires_mutation_barrier t = true ↔
  t.(RetirementRecord.disposition) = RetirementDisposition.CurrentStateAccepted ∧
  t.(RetirementRecord.policy) = RetirementPolicy.AcknowledgedUnknownPointerClickV1.
Proof.
  unfold requires_mutation_barrier. by rewrite andb_true_iff, !bool_decide_eq_true.
Qed.

Lemma resume_of_true t m :
  resume_of t m = true ↔
  resume_source m = retired_ref t ∧
  m.(MutationResumeRecord.device_id) = t.(RetirementRecord.operation).(OperationRef.device_id) ∧
  m.(MutationResumeRecord.accepted_generation)
    = t.(RetirementRecord.authorized_device_generation) ∧
  m.(MutationResumeRecord.policy) = t.(RetirementRecord.policy).
Proof.
  unfold resume_of. rewrite !andb_true_iff, !bool_decide_eq_true, N.eqb_eq.
  unfold resume_source, retired_ref. tauto.
Qed.

Lemma valid_resume_click m :
  valid_resume m = true →
  m.(MutationResumeRecord.policy) = RetirementPolicy.AcknowledgedUnknownPointerClickV1.
Proof. unfold valid_resume. intros Hv. by split_bools. Qed.

Lemma barriers_ok_perm ts ts' bs ms : ts ≡ₚ ts' → barriers_ok ts bs ms → barriers_ok ts' bs ms.
Proof.
  intros Hp [H1 H2 H3 H4 H5].
  split; [intros; setoid_rewrite <- Hp; eauto..|done|done|intros t; rewrite <- Hp; auto].
Qed.

(** A retirement that raises no barrier. *)
Lemma barriers_ok_retire ts bs ms t :
  barriers_ok ts bs ms →
  t.(RetirementRecord.policy) ≠ RetirementPolicy.AcknowledgedUnknownPointerClickV1 →
  barriers_ok (ts ++ [t]) bs ms.
Proof.
  intros [H1 H2 H3 H4 H5] Hpol. split; [| |done|done|].
  - intros d b Hd. destruct (H1 d b Hd) as (x & ? & ?). exists x. set_solver.
  - intros m Hm. destruct (H2 m Hm) as (? & x & ? & ?). split; [done|]. exists x. set_solver.
  - intros x [Hx|Hx]%elem_of_app Hp; [auto|]. apply list_elem_of_singleton in Hx as ->. done.
Qed.

(** A retirement that raises the barrier of its device. *)
Lemma barriers_ok_raise ts bs ms t :
  barriers_ok ts bs ms → retired_ref t ∉ retired_ref <$> ts →
  bs !! t.(RetirementRecord.operation).(OperationRef.device_id) = None →
  requires_mutation_barrier t = true →
  barriers_ok (ts ++ [t])
    (<[t.(RetirementRecord.operation).(OperationRef.device_id) := barrier_for t]> bs) ms.
Proof.
  intros [H1 H2 H3 H4 H5] Hnew Hfree Hreq. split; [| |done| |].
  - intros d b [[<- <-]|[Hne Hd]]%lookup_insert_Some; [exists t; set_solver|].
    destruct (H1 d b Hd) as (x & ? & ?). exists x. set_solver.
  - intros m Hm. destruct (H2 m Hm) as (? & x & ? & ?). split; [done|]. exists x. set_solver.
  - intros d b m [[<- <-]|[Hne Hd]]%lookup_insert_Some Hm; [|by eapply H4].
    destruct (H2 m Hm) as (_ & x & Hx & (Hs & _)%resume_of_true & _). cbn.
    intros Heq. apply Hnew. fold (retired_ref t) in Heq. rewrite Heq, Hs.
    by apply list_elem_of_fmap_2.
  - intros x [Hx|Hx]%elem_of_app Hp.
    + destruct (H5 x Hx Hp) as [[d Hd]|Hm]; [left|by right]. exists d.
      rewrite lookup_insert_ne; [done|]. congruence.
    + apply list_elem_of_singleton in Hx as ->. left. eexists. apply lookup_insert_eq.
Qed.

(** The user resumes the mutations of device [d]. *)
Lemma barriers_ok_resume ts bs ms d b m :
  barriers_ok ts bs ms → NoDup (retired_ref <$> ts) → bs !! d = Some b → valid_resume m = true →
  resume_source m = b.(MutationResumeBarrier.source_operation_id) →
  m.(MutationResumeRecord.device_id) = b.(MutationResumeBarrier.device_id) →
  m.(MutationResumeRecord.accepted_generation) = b.(MutationResumeBarrier.accepted_generation) →
  m.(MutationResumeRecord.policy) = b.(MutationResumeBarrier.policy) →
  barriers_ok ts (delete d bs) (ms ++ [m]).
Proof.
  intros [H1 H2 H3 H4 H5] Hnd Hd Hv Hs Hdev Hgen Hpol.
  destruct (H1 d b Hd) as (t & Ht & -> & Hreq & Hdd). cbn in Hs, Hdev, Hgen, Hpol, Hdd.
  assert (resume_of t m = true) as Hres by (by apply resume_of_true).
  split.
  - intros d' b' [_ Hb]%lookup_delete_Some. by apply H1.
  - intros m' [Hm|Hm]%elem_of_app; [by apply H2|]. apply list_elem_of_singleton in Hm as ->. eauto.
  - rewrite fmap_app. apply NoDup_app. split_and!; [done| |apply NoDup_singleton].
    intros s (m' & -> & Hm')%list_elem_of_fmap Heq. apply list_elem_of_singleton in Heq.
    apply (H4 _ _ _ Hd Hm'). by rewrite Heq, Hs.
  - intros d' b' m' [Hne Hb]%lookup_delete_Some [Hm|Hm]%elem_of_app; [by eapply H4|].
    apply list_elem_of_singleton in Hm as ->. rewrite Hs.
    destruct (H1 d' b' Hb) as (t' & Ht' & -> & _ & Hdd'). cbn. intros Heq.
    assert (t' = t) as -> by by eapply (NoDup_fmap_inj retired_ref ts).
    cbn in Hdd'. congruence.
  - intros x Hx Hp. destruct (H5 x Hx Hp) as [[d' Hd']|(m' & Hm' & Hr)].
    + destruct (decide (d' = d)) as [->|Hne].
      * right. exists m. split; [set_solver|]. rewrite Hd in Hd'. injection Hd' as Hx1 Hx2.
        assert (x = t) as -> by (by eapply (NoDup_fmap_inj retired_ref ts)). done.
      * left. exists d'. by rewrite lookup_delete_ne.
    + right. exists m'. set_solver.
Qed.

Lemma remove_first_Some {A} (p : A → bool) (l : list A) a :
  a ∈ l → p a = true → ∃ x l', remove_first p l = Some l' ∧ p x = true ∧ l ≡ₚ x :: l'.
Proof.
  induction l as [|b l IH]; intros Hin Hp; [by apply elem_of_nil in Hin|]. cbn.
  destruct (p b) eqn:Hb; [by exists b, l|].
  apply elem_of_cons in Hin as [->|Hin]; [congruence|].
  destruct (IH Hin Hp) as (x & l' & -> & Hx & Hperm). exists x, (b :: l'). split_and!; [done..|].
  rewrite Hperm. apply perm_swap.
Qed.

(** The resumes left when the retirement [t] leaves the history. *)
Definition resumes_without t ms : option (list MutationResumeRecord) :=
  match t.(RetirementRecord.policy) with
  | RetirementPolicy.AcknowledgedUnknownPointerClickV1 => remove_first (resume_of t) ms
  | RetirementPolicy.TransientUiInteractionV1 => Some ms
  end.

(** A retirement that is no barrier's source leaves the history, and its resume
    with it. *)
Lemma barriers_ok_rotate ts bs ms t :
  barriers_ok (t :: ts) bs ms → NoDup (retired_ref <$> t :: ts) →
  (∀ d b, bs !! d = Some b → b.(MutationResumeBarrier.source_operation_id) ≠ retired_ref t) →
  ∃ ms', resumes_without t ms = Some ms' ∧ barriers_ok ts bs ms' ∧ (vlen ms' ≤ vlen ms)%N.
Proof.
  intros [H1 H2 H3 H4 H5] Hnd Hno.
  assert (∀ d b, bs !! d = Some b → ∃ x, x ∈ ts ∧ b = barrier_for x ∧
    requires_mutation_barrier x = true ∧ b.(MutationResumeBarrier.device_id) = d) as Hsource.
  { intros d b Hb. destruct (H1 d b Hb) as (x & Hx & -> & ?). exists x. split; [|done].
    apply elem_of_cons in Hx as [->|Hx]; [|done]. by destruct (Hno d _ Hb). }
  assert (∀ m x, m ∈ ms → x ∈ t :: ts → resume_of x m = true → resume_of t m = false → x ∈ ts)
    as Hother.
  { intros m x Hm Hx Hr Hf. apply elem_of_cons in Hx as [->|Hx]; [congruence|done]. }
  unfold resumes_without. destruct (t.(RetirementRecord.policy)) eqn:Hpol.
  - exists ms. split_and!; [done| |done]. split; [done| |done|done|].
    + intros m Hm. destruct (H2 m Hm) as (Hv & x & Hx & Hr & Hq). split; [done|]. exists x.
      split; [|done]. eapply Hother; [done..|]. apply not_true_is_false.
      intros (_ & _ & _ & Hp)%resume_of_true. rewrite (valid_resume_click m Hv), Hpol in Hp. done.
    + intros x Hx Hp. apply H5; [set_solver|done].
  - destruct (H5 t) as [[d Hd]|(m & Hm & Hr)]; [set_solver|done|by destruct (Hno d _ Hd)|].
    destruct (remove_first_Some (resume_of t) ms m Hm Hr) as (m' & ms' & -> & Hr' & Hperm).
    exists ms'. split_and!; [done| |unfold vlen; rewrite Hperm; cbn; lia].
    assert (NoDup (resume_source <$> m' :: ms')) as [Hn Hnd']%NoDup_cons by by rewrite <- Hperm.
    assert (∀ x, x ∈ ms' → x ∈ ms ∧ resume_of t x = false) as Hleft.
    { intros x Hx. split; [rewrite Hperm; set_solver|]. apply not_true_is_false.
      intros (Hs & _)%resume_of_true. apply resume_of_true in Hr' as (Hs' & _).
      apply Hn. rewrite Hs', <- Hs. by apply list_elem_of_fmap_2. }
    split; [done| |done| |].
    + intros x Hx. apply Hleft in Hx as [Hx Hf]. destruct (H2 x Hx) as (Hv & y & Hy & Hry & Hq).
      split; [done|]. exists y. split; [by eapply Hother|done].
    + intros d b x Hb Hx. apply Hleft in Hx as [Hx _]. by eapply H4.
    + intros x Hx Hp. destruct (H5 x) as [Hd|(y & Hy & Hry)]; [set_solver|done|by left|right].
      exists y. split; [|done]. rewrite Hperm in Hy. apply elem_of_cons in Hy as [->|Hy]; [|done].
      exfalso. apply resume_of_true in Hry as (Hs & _), Hr' as (Hs' & _).
      apply NoDup_cons in Hnd as [Hn' _]. apply Hn'. rewrite <- Hs', Hs.
      by apply list_elem_of_fmap_2.
Qed.
End Barriers.

(** ** Rotation of the history *)

Section Rotation.
Context `{HI : HashIter}.
Implicit Types (c : AuthoritativeOperationController).

Lemma barrier_source_false c t :
  barrier_source c t = false ↔
  ∀ d b, c.(mutation_resume_barriers) !! d = Some b →
    b.(MutationResumeBarrier.source_operation_id) ≠ retired_ref t.
Proof.
  unfold barrier_source. rewrite <- not_true_iff_false, existsb_exists. split.
  - intros Hn d b Hb Heq. apply Hn. exists (d, b). split; [|by apply bool_decide_true].
    by apply list_elem_of_In, elem_of_hash_iter.
  - intros Hall ([d b] & Hin & Hb). apply list_elem_of_In, elem_of_hash_iter in Hin. split_bools.
    by destruct (Hall d b Hin).
Qed.

(** What a rotation step removes. *)
Record rotated c c' (t : RetirementRecord) : Prop := {
  rot_free : barrier_source c t = false;
  rot_oldest : ∀ x, x ∈ c.(retirements) → barrier_source c x = false → retired_before x t = false;
  rot_history : c.(retirements) ≡ₚ t :: c'.(retirements);
  rot_compact : compact_retired_indeterminate_detail c.(admission) (retired_ref t)
                = (c'.(admission), Ok tt);
  rot_rest : c' = mk_controller c'.(admission) (delete (retired_ref t) c.(operations))
    c.(recovery_archive) c.(quarantines) c.(resolutions) c.(auto_resolutions) c'.(retirements)
    c.(mutation_resume_barriers) c'.(mutation_resumes)
}.

Lemma rotated_cinv n c c' t :
  cinv_upto (n + 1) c → rotated c c' t →
  barriers_ok c'.(retirements) c.(mutation_resume_barriers) c'.(mutation_resumes) →
  (vlen c'.(mutation_resumes) ≤ MAX_RETIREMENT_RECORDS)%N → cinv_upto n c'.
Proof.
  intros Hc [_ _ Hhist Hcomp Hrest] Hbars Hres.
  destruct (ci_retirements _ Hc) as [Hnd Hall]. rewrite Hhist in Hnd, Hall.
  rewrite fmap_cons in Hnd. apply NoDup_cons in Hnd as [Hnotin Hnd].
  apply Forall_cons in Hall as [(_ & Hret & _) Hall].
  pose proof (compact_inv _ (retired_ref t) (ci_admission _ Hc)) as Hinv. rewrite Hcomp in Hinv.
  cbn in Hinv. apply compact_Ok in Hcomp as (_ & _ & [Hops _ Hbl Hre Hrec]). cbn in Hops.
  assert (∀ id r, id ≠ retired_ref t → c.(operations) !! id = Some r →
    ∃ r', delete (retired_ref t) c.(operations) !! id = Some r' ∧ same_unknown r r') as Hkept.
  { intros id r Hne Hr. exists r. by rewrite lookup_delete_ne. }
  rewrite Hrest. split; cbn; rewrite ?Hops, ?Hbl, ?Hre, ?Hrec; try apply Hc; try done.
  - by rewrite view_delete, (ci_view _ Hc).
  - intros id r [_ Hr]%lookup_delete_Some. by eapply (ci_ledger _ Hc).
  - intros id r [Hne Hr]%lookup_delete_Some Hu. rewrite (ci_lanes _ Hc id r Hr Hu). set_solver.
  - eapply quarantines_mono; [apply Hc|done|]. intros d q r Hq (Hr & _). apply Hkept; [|done].
    intros Heq. apply (quarantine_unretired c Hc d q Hq). by rewrite Heq.
  - eapply archive_mono; [apply Hc|]. intros id Hn _. apply lookup_delete_None. by right.
  - split; [done|]. apply Forall_forall. intros x Hx. rewrite Forall_forall in Hall.
    destruct (Hall x Hx) as (Hv & Hin & r & Hr & Hrest').
    split_and!; [done..|]. exists r. split; [|done]. rewrite lookup_delete_ne; [done|].
    intros Heq. apply Hnotin. rewrite Heq. by apply list_elem_of_fmap_2.
  - pose proof (ci_history _ Hc) as Hlen. unfold vlen in *. rewrite Hhist in Hlen. cbn in Hlen. lia.
Qed.

(** A step succeeds exactly when some retirement is not a barrier's source. *)
Lemma rotate_step_spec n c :
  cinv_upto (n + 1) c →
  (rotate_step c = (c, Err ExecutionError.InvalidTransition) ∧
   ∀ t, t ∈ c.(retirements) → barrier_source c t = true) ∨
  ∃ c' t, rotate_step c = (c', Ok tt) ∧ rotated c c' t ∧ cinv_upto n c'.
Proof.
  intros Hc. unfold rotate_step. destruct (min_index _ _ _) as [[i t]|] eqn:Hmin.
  2:{ left. split; [done|]. intros t Ht.
      pose proof (min_index_None _ _ retired_before_trans retired_before_irrefl _ Hmin t Ht) as H.
      by apply negb_false_iff in H. }
  right. apply min_index_Some in Hmin as (Hi & Hfree & Hold);
    [|exact retired_before_trans|exact retired_before_irrefl].
  apply negb_true_iff in Hfree. pose proof (delete_Permutation _ _ _ Hi) as Hperm.
  destruct (ci_retirements _ Hc) as [Hnd Hall].
  destruct (barriers_ok_rotate (delete i c.(retirements)) c.(mutation_resume_barriers)
    c.(mutation_resumes) t) as (ms' & Hms & Hbars & Hlen).
  { eapply barriers_ok_perm; [exact Hperm|apply Hc]. }
  { by rewrite <- Hperm. }
  { by apply barrier_source_false. }
  rewrite Forall_forall in Hall. destruct (Hall t) as (_ & Hret & r & Hr & Hst & _).
  { by eapply list_elem_of_lookup_2. }
  destruct (compact_succeeds c.(admission) (retired_ref t) (admitted_view r)) as [a' Ha];
    [apply Hc|done|by apply (admitted_record c Hc)|done|].
  set (c' := mk_controller a' (delete (retired_ref t) c.(operations)) c.(recovery_archive)
    c.(quarantines) c.(resolutions) c.(auto_resolutions) (delete i c.(retirements))
    c.(mutation_resume_barriers) ms').
  exists c', t. assert (rotated c c' t) as Hrot.
  { split; try done. intros x Hx Hf. apply Hold; [done|]. by rewrite Hf. }
  split_and!; [|done|].
  - unfold resumes_without in Hms. destruct (t.(RetirementRecord.policy)); cbn; [injection Hms as <-|
      rewrite Hms; cbn]; unfold on_admission; fold (retired_ref t); cbn; rewrite Ha; cbn;
      by rewrite Hr.
  - eapply rotated_cinv; [done|done|done|]. cbn. pose proof (ci_resumes _ Hc). lia.
Qed.

Lemma rotate_done fuel c :
  (vlen c.(retirements) ≤ MAX_RETIREMENT_RECORDS)%N → rotate_retirements fuel c = (c, Ok tt).
Proof. intros Hlen%N.leb_le. destruct fuel; cbn; by rewrite Hlen. Qed.

(** The loop runs at most once after a retirement, and fails only when every
    retirement is behind an active barrier. *)
Lemma rotate_spec c :
  cinv_upto (MAX_RETIREMENT_RECORDS + 1) c →
  (rotate_retirement_history c = (c, Ok tt) ∧ cinv c) ∨
  (rotate_retirement_history c = (c, Err ExecutionError.InvalidTransition) ∧
   ∀ t, t ∈ c.(retirements) → barrier_source c t = true) ∨
  ∃ c' t, rotate_retirement_history c = (c', Ok tt) ∧ rotated c c' t ∧ cinv c'.
Proof.
  intros Hc. unfold rotate_retirement_history.
  destruct (N.le_gt_cases (vlen c.(retirements)) MAX_RETIREMENT_RECORDS) as [Hle|Hgt].
  { left. split; [by apply rotate_done|]. destruct Hc. by split. }
  right. assert (length c.(retirements) = S (N.to_nat MAX_RETIREMENT_RECORDS)) as ->.
  { pose proof (ci_history _ Hc) as Hlen. unfold vlen, MAX_RETIREMENT_RECORDS in *. lia. }
  cbn [rotate_retirements]. rewrite (proj2 (N.leb_gt _ _) Hgt).
  destruct (rotate_step_spec MAX_RETIREMENT_RECORDS c Hc) as [[-> Hall]|(c' & t & -> & Hrot & Hc')];
    [by left|right]. exists c', t. split_and!; [|done|done]. apply rotate_done. apply Hc'.
Qed.

(** *** Rotation and the start of queued work do not interfere *)

Definition started (next : CompletionDecision) : option string :=
  match next with
  | CompletionDecision.Idle => None
  | CompletionDecision.StartNext o => Some o.(OperationRef.operation_id)
  end.

Lemma delete_promote next (ops : gmap string SafetyOperation) id :
  started next ≠ Some id → delete id (promote_ledger next ops) = promote_ledger next (delete id ops).
Proof.
  destruct next as [|o]; [done|]. cbn. intros Hne. apply map_eq. intros id'.
  destruct (decide (id' = id)) as [->|Hne'].
  - rewrite lookup_delete_eq, lookup_alter_ne, lookup_delete_eq; congruence.
  - rewrite lookup_delete_ne by done.
    destruct (decide (id' = o.(OperationRef.operation_id))) as [->|Hne''].
    + rewrite !lookup_alter_eq, lookup_delete_ne by done. done.
    + by rewrite !lookup_alter_ne, lookup_delete_ne.
Qed.

Lemma rotate_step_activate c next :
  (∀ t, t ∈ c.(retirements) → started next ≠ Some (retired_ref t)) →
  rotate_step (activate_next c next) = (activate_next (rotate_step c).1 next, (rotate_step c).2).
Proof.
  intros Hne. rewrite !activate_next_eq. unfold rotate_step. cbn [retirements set_operations].
  change (barrier_source (set_operations c _)) with (barrier_source c).
  destruct (min_index _ _ _) as [[i t]|] eqn:Hmin; [|done].
  apply min_index_Some in Hmin as (Hi & _ & _);
    [|exact retired_before_trans|exact retired_before_irrefl].
  apply list_elem_of_lookup_2 in Hi. specialize (Hne t Hi). fold (retired_ref t).
  assert (∀ ms, let c1 := set_resumes (set_retirements c (delete i c.(retirements))) ms in
    on_admission (set_operations c1 (promote_ledger next c.(operations)))
      (compact_retired_indeterminate_detail c.(admission) (retired_ref t)) (λ c _,
        match c.(operations) !! retired_ref t with
        | Some _ => (set_operations c (delete (retired_ref t) c.(operations)), Ok tt)
        | None => (c, Err ExecutionError.InvalidTransition)
        end) =
    let res := on_admission c1
      (compact_retired_indeterminate_detail c.(admission) (retired_ref t)) (λ c _,
        match c.(operations) !! retired_ref t with
        | Some _ => (set_operations c (delete (retired_ref t) c.(operations)), Ok tt)
        | None => (c, Err ExecutionError.InvalidTransition)
        end) in
    (set_operations res.1 (promote_ledger next res.1.(operations)), res.2)) as Hgoal.
  { intros ms. unfold on_admission.
    destruct (compact_retired_indeterminate_detail _ _) as [a' [u|e]]; [|done]. cbn.
    destruct (c.(operations) !! retired_ref t) as [r|] eqn:Hr.
    - destruct (promote_ledger next c.(operations) !! retired_ref t) eqn:Hp.
      + cbn. by rewrite delete_promote.
      + by rewrite promote_ledger_None, Hr in Hp.
    - rewrite (proj2 (promote_ledger_None _ _ _) Hr). done. }
  destruct (t.(RetirementRecord.policy)); cbn [set_retirements set_operations mutation_resumes].
  - exact (Hgoal c.(mutation_resumes)).
  - destruct (remove_first (resume_of t) c.(mutation_resumes)) as [ms|]; [|done]. exact (Hgoal ms).
Qed.

Lemma rotate_step_history c t :
  t ∈ (rotate_step c).1.(retirements) → t ∈ c.(retirements).
Proof.
  unfold rotate_step. destruct (min_index _ _ _) as [[i x]|]; [|done].
  assert (∀ c1 k, c1.(retirements) = delete i c.(retirements) →
    (∀ a u, (k (set_admission c1 a) u).1.(retirements) = c1.(retirements)) →
    t ∈ (on_admission c1 (compact_retired_indeterminate_detail c.(admission)
           x.(RetirementRecord.operation).(OperationRef.operation_id)) k
         : outcome unit).1.(retirements) → t ∈ c.(retirements)) as Hdone.
  { intros c1 k H1 H2. unfold on_admission.
    destruct (compact_retired_indeterminate_detail _ _) as [a [u|e]]; cbn; rewrite ?H2, ?H1;
      intros Ht; by eapply elem_of_delete. }
  destruct (x.(RetirementRecord.policy)); cbn.
  - intros H. apply Hdone in H; [done|done|]. intros a u. cbn. by destruct (_ !! _).
  - destruct (remove_first _ _) as [ms|]; cbn.
    + intros H. apply Hdone in H; [done|done|]. intros a u. cbn. by destruct (_ !! _).
    + intros Ht. by eapply elem_of_delete.
Qed.

Lemma rotate_activate fuel c next :
  (∀ t, t ∈ c.(retirements) → started next ≠ Some (retired_ref t)) →
  rotate_retirements fuel (activate_next c next) =
  (activate_next (rotate_retirements fuel c).1 next, (rotate_retirements fuel c).2).
Proof.
  revert c. induction fuel as [|fuel IH]; intros c Hne; cbn [rotate_retirements];
    replace (activate_next c next).(retirements) with c.(retirements) by by destruct next.
  - by destruct (_ <=? _)%N.
  - destruct (_ <=? _)%N; [done|]. rewrite rotate_step_activate by done.
    pose proof (rotate_step_history c) as Hsub.
    destruct (rotate_step c) as [c1 [u|e]]; cbn in *; [|done]. apply IH. auto.
Qed.
(** Rotation of a state whose queued work is about to start. *)
Lemma rotate_then_start c next :
  cinv_upto (MAX_RETIREMENT_RECORDS + 1) (activate_next c next) →
  (∀ t, t ∈ c.(retirements) → started next ≠ Some (retired_ref t)) →
  (∃ c', rotate_retirement_history c = (c', Ok tt) ∧ cinv (activate_next c' next) ∧
     (activate_next c' next = activate_next c next ∨
      ∃ t, rotated (activate_next c next) (activate_next c' next) t)) ∨
  ∃ c', rotate_retirement_history c = (c', Err ExecutionError.InvalidTransition) ∧
    (MAX_RETIREMENT_RECORDS < vlen c'.(retirements))%N ∧
    (∀ t, t ∈ c'.(retirements) → barrier_source c' t = true) ∧
    c'.(retirements) = c.(retirements) ∧
    c'.(mutation_resume_barriers) = c.(mutation_resume_barriers).
Proof.
  intros Hc Hstart. pose proof (rotate_activate (length c.(retirements)) c next Hstart) as Hcommute.
  assert ((activate_next c next).(retirements) = c.(retirements)) as Hlen by by destruct next.
  rewrite <- Hlen in Hcommute at 1.
  fold (rotate_retirement_history (activate_next c next)) (rotate_retirement_history c) in Hcommute.
  destruct (rotate_retirement_history c) as [c3 rot]. cbn in Hcommute.
  destruct (rotate_spec _ Hc) as [[Hrot Hc']|[[Hrot Hall]|(c' & x & Hrot & Hrotated & Hc')]];
    rewrite Hrot in Hcommute; injection Hcommute as Hc3 <-.
  - left. exists c3. rewrite <- Hc3. auto.
  - right. exists c3. split; [done|].
    assert (c3.(retirements) = (activate_next c next).(retirements) ∧
      c3.(mutation_resume_barriers) = (activate_next c next).(mutation_resume_barriers)) as [Hr3 Hb3].
    { rewrite Hc3. by rewrite activate_next_eq. }
    assert ((activate_next c next).(mutation_resume_barriers) = c.(mutation_resume_barriers))
      as Hbars by by destruct next.
    split_and!; [| |by rewrite Hr3|by rewrite Hb3].
    + rewrite Hr3. destruct (N.le_gt_cases (vlen (activate_next c next).(retirements))
        MAX_RETIREMENT_RECORDS) as [Hle|]; [|done].
      unfold rotate_retirement_history in Hrot. by rewrite rotate_done in Hrot.
    + intros y Hy. rewrite Hr3 in Hy. apply Hall in Hy. unfold barrier_source in *. by rewrite Hb3.
  - left. exists c3. rewrite <- Hc3. eauto.
Qed.
End Rotation.

(** ** Retiring *)

Section Retire.
Context `{HI : HashIter}.
Implicit Types (c : AuthoritativeOperationController) (id : string).

(** What the checks of a retirement establish. *)
Record retirement_facts c id (tr : RetirementTransition) (t : RetirementRecord)
    (r : SafetyOperation) (q : DesktopQuarantine) : Prop := {
  rf_record : c.(operations) !! id = Some r;
  rf_unknown : r.(SafetyOperation.state) = Indeterminate;
  rf_quarantine : c.(quarantines) !! Ledger.device r = Some q;
  rf_source : q.(DesktopQuarantine.operation_id) = id;
  rf_new : id ∉ retired_ref <$> c.(retirements);
  rf_valid : valid_retirement t = true;
  rf_operation : t.(RetirementRecord.operation) = r.(SafetyOperation.operation);
  rf_capability : t.(RetirementRecord.capability) = r.(SafetyOperation.capability);
  rf_reason : r.(SafetyOperation.indeterminate_reason)
              = Some t.(RetirementRecord.indeterminate_reason);
  rf_status : t.(RetirementRecord.prior_reconciliation_status)
    = default ReconciliationStatus.OperatorRequired r.(SafetyOperation.reconciliation_status);
  rf_generation : (Ledger.generation r < t.(RetirementRecord.authorized_device_generation))%N;
  rf_transition : t.(RetirementRecord.disposition) = tr.(RetirementTransition.disposition) ∧
    t.(RetirementRecord.authority) = tr.(RetirementTransition.authority) ∧
    t.(RetirementRecord.policy) = tr.(RetirementTransition.requested_policy) ∧
    t.(RetirementRecord.retired_at_ms) = tr.(RetirementTransition.now_ms)
}.

Lemma retirement_for_Ok c id tr t :
  retirement_for c id tr = Ok t → ∃ r q, retirement_facts c id tr t r q.
Proof.
  unfold retirement_for. destruct (_ || _); [done|]. destruct (existsb _ _) eqn:Hnew; [done|].
  destruct (c.(operations) !! id) as [r|] eqn:Hr; [|done].
  case_bool_decide as Hst; [|done]. destruct (opt_none _); [done|].
  destruct (opt_some r.(SafetyOperation.receipt)); [done|].
  destruct (opt_some r.(SafetyOperation.recoverable_result)); [done|].
  destruct (N.leb_spec tr.(RetirementTransition.authorized_device_generation) (Ledger.generation r))
    as [|Hgen]; [done|]. cbn.
  destruct (needs_operator _); [|done]. cbn. destruct (disposition_policy _ _) as [policy|]; [|done].
  case_bool_decide as Hpol; [|done]. cbn.
  destruct (r.(SafetyOperation.indeterminate_reason)) as [reason|] eqn:Hreason; [|done].
  destruct (c.(quarantines) !! Ledger.device r) as [q|] eqn:Hq; [|done].
  case_bool_decide as Hid; [|done]. cbn. destruct (negb _); [done|]. cbn.
  case_bool_decide; [|done]. cbn. destruct (valid_retirement _) eqn:Hv; [|done].
  intros [= <-]. exists r, q. split; try done.
  intros (t & -> & Ht)%list_elem_of_fmap. apply not_true_iff_false in Hnew.
  apply Hnew, existsb_exists. exists t. split; [by apply list_elem_of_In|].
  by apply bool_decide_true.
Qed.

Lemma settle_cancelled_spec c (queued : list OperationRef) now_ms :
  NoDup (OperationRef.operation_id <$> queued) →
  (∀ o, o ∈ queued → ∃ r, c.(operations) !! o.(OperationRef.operation_id) = Some r ∧
                          r.(SafetyOperation.state) = Queued) →
  ∃ ops', settle_cancelled c queued now_ms = (set_operations c ops', Ok tt) ∧
  ∀ id, ops' !! id =
    if decide (id ∈ OperationRef.operation_id <$> queued)
    then (λ r, Ledger.settle r Cancelled ExecutionEvidence.CancelledBeforeDispatch now_ms)
           <$> c.(operations) !! id
    else c.(operations) !! id.
Proof.
  revert c. induction queued as [|o queued IH]; intros c Hnd Hq.
  { exists c.(operations). split; [by destruct c|done]. }
  cbn in Hnd. apply NoDup_cons in Hnd as [Hnotin Hnd].
  destruct (Hq o) as (r & Hr & Hst); [set_solver|]. cbn [settle_cancelled].
  rewrite Hr, bool_decide_true by done. cbn [negb].
  destruct (IH (put c o.(OperationRef.operation_id) (Ledger.settle r Cancelled
    ExecutionEvidence.CancelledBeforeDispatch now_ms))) as (ops' & Hrun & Hops); [done| |].
  { intros o' Ho'. destruct (Hq o') as (r' & Hr' & Hst'); [set_solver|]. exists r'.
    split; [|done]. cbn. rewrite lookup_insert_ne; [done|]. intros Heq. apply Hnotin.
    rewrite Heq. by apply list_elem_of_fmap_2. }
  exists ops'. split; [by rewrite Hrun|]. intros id. rewrite Hops. cbn.
  destruct (decide (id = o.(OperationRef.operation_id))) as [->|Hne].
  - rewrite lookup_insert_eq, decide_False, decide_True, Hr by set_solver. done.
  - rewrite lookup_insert_ne by done. repeat case_decide; set_solver.
Qed.

Lemma retired_ref_id c id tr t r q :
  cinv c → retirement_facts c id tr t r q → retired_ref t = id.
Proof.
  intros Hc Hf. unfold retired_ref. rewrite (rf_operation _ _ _ _ _ _ Hf).
  exact (record_key c Hc id r (rf_record _ _ _ _ _ _ Hf)).
Qed.

(** The device is freed, the retirement recorded, queued work started: all but
    the rotation of the history. *)
Lemma cinv_retire c id tr t r q a' next ledger bs :
  cinv c → retirement_facts c id tr t r q → inv a' →
  becomes a' next (view ledger)
    (delete (Ledger.device r) c.(admission).(blocked_by_indeterminate))
    ({[id]} ∪ c.(admission).(retired_indeterminate))
    c.(admission).(recovery_read_only_operations) →
  ledger_ok ledger → lanes_ok ledger c.(admission).(recovery_read_only_operations) →
  (∀ id r, c.(operations) !! id = Some r → r.(SafetyOperation.state) ≠ Queued →
     ledger !! id = Some r) →
  (∀ id, c.(operations) !! id = None → ledger !! id = None) →
  barriers_ok (c.(retirements) ++ [t]) bs c.(mutation_resumes) →
  cinv_upto (MAX_RETIREMENT_RECORDS + 1)
    (mk_controller a' (promote_ledger next ledger) c.(recovery_archive)
       (delete (Ledger.device r) c.(quarantines)) c.(resolutions) c.(auto_resolutions)
       (c.(retirements) ++ [t]) bs c.(mutation_resumes)).
Proof.
  intros Hc Hf Hinv [Hops Hnext Hbl Hret Hrec] Hledger Hlanes Hkeep Hnone Hbars.
  pose proof (retired_ref_id _ _ _ _ _ _ Hc Hf) as Hid.
  assert (∀ id x, c.(operations) !! id = Some x → x.(SafetyOperation.state) = Indeterminate →
    ∃ x', promote_ledger next ledger !! id = Some x' ∧ same_unknown x x') as Hkept.
  { intros id' x Hx Hst. exists x. split; [|apply same_unknown_refl].
    assert (x.(SafetyOperation.state) ≠ Queued) by by rewrite Hst.
    apply promote_ledger_kept; auto. }
  split; cbn; rewrite ?Hops, ?Hbl, ?Hret, ?Hrec; try apply Hc; try done.
  - apply view_promote.
  - by rewrite fmap_delete, (ci_blocked _ Hc).
  - by apply ledger_ok_promote.
  - by apply lanes_ok_promote.
  - eapply quarantines_mono; [apply Hc|apply delete_subseteq|].
    intros d q' x _ (Hx & Hst & _). eauto.
  - eapply archive_mono; [apply Hc|]. intros id' Hn _. by apply promote_ledger_None, Hnone.
  - destruct (ci_retirements _ Hc) as [Hnd Hall]. split.
    + rewrite fmap_app. apply NoDup_app. split_and!; [done| |apply NoDup_singleton].
      intros x Hx Heq. apply list_elem_of_singleton in Heq. subst x. rewrite Hid in Hx.
      by apply (rf_new _ _ _ _ _ _ Hf).
    + apply Forall_app. split.
      * eapply (retirements_mono c.(operations) _ c.(admission).(retired_indeterminate));
          [apply Hc|set_solver|eauto].
      * apply Forall_singleton. destruct Hf. split_and!; [done|rewrite Hid; set_solver|].
        rewrite Hid. destruct (Hkept id r) as (x & Hx & H1 & H2 & H3 & H4 & H5); [done..|].
        exists x. split_and!; congruence.
  - pose proof (ci_history _ Hc). rewrite vlen_app. unfold vlen at 2. cbn. lia.
Qed.

Lemma transient_policy t :
  valid_retirement t = true → requires_mutation_barrier t = false →
  t.(RetirementRecord.policy) ≠ RetirementPolicy.AcknowledgedUnknownPointerClickV1.
Proof.
  unfold valid_retirement, requires_mutation_barrier, disposition_policy.
  intros Hv Hr Hp. split_bools. rewrite Hp, (bool_decide_true _ eq_refl), andb_true_r in Hr.
  split_bools. destruct (t.(RetirementRecord.disposition)); [|done].
  destruct (t.(RetirementRecord.capability)); simplify_eq/=; congruence.
Qed.

(** The state between the recording of a retirement and its rotation. *)
Definition recorded c t (r : SafetyOperation) a' ledger bs : AuthoritativeOperationController :=
  mk_controller a' ledger c.(recovery_archive) (delete (Ledger.device r) c.(quarantines))
    c.(resolutions) c.(auto_resolutions) (c.(retirements) ++ [t]) bs c.(mutation_resumes).

(** What a retirement makes of a record, before the rotation: queued work starts,
    or is cancelled by the acceptance of the current state. *)
Inductive retire_move (now_ms : N) : option SafetyOperation → option SafetyOperation → Prop :=
| rm_same o : retire_move now_ms o o
| rm_start x : x.(SafetyOperation.state) = Queued →
    retire_move now_ms (Some x) (Some (activated x))
| rm_cancel x : x.(SafetyOperation.state) = Queued →
    retire_move now_ms (Some x)
      (Some (Ledger.settle x Cancelled ExecutionEvidence.CancelledBeforeDispatch now_ms)).

Lemma retire_move_kept now_ms x o :
  retire_move now_ms (Some x) o → x.(SafetyOperation.state) ≠ Queued → o = Some x.
Proof. inversion 1; congruence. Qed.

(** The effect of a retirement on admission, ledger and barriers, before its
    rotation. *)
Record recording c id (tr : RetirementTransition) t r q a' next ledger bs : Prop := {
  rc_facts : retirement_facts c id tr t r q;
  rc_run : retire_in_admission c id t =
    (set_barriers (set_operations (set_admission c a') ledger) bs, Ok next);
  rc_cinv : cinv_upto (MAX_RETIREMENT_RECORDS + 1)
    (recorded c t r a' (promote_ledger next ledger) bs);
  rc_started : ∀ x, x ∈ c.(retirements) ++ [t] → started next ≠ Some (retired_ref x);
  rc_moves : ∀ x, retire_move t.(RetirementRecord.retired_at_ms) (c.(operations) !! x)
    (promote_ledger next ledger !! x);
  rc_retired : a'.(retired_indeterminate) = {[id]} ∪ c.(admission).(retired_indeterminate);
  rc_barriers : bs = if requires_mutation_barrier t
    then <[Ledger.device r := barrier_for t]> c.(mutation_resume_barriers)
    else c.(mutation_resume_barriers);
  rc_free : requires_mutation_barrier t = true →
    c.(mutation_resume_barriers) !! Ledger.device r = None
}.

Lemma device_of_retirement c id tr t r q :
  retirement_facts c id tr t r q →
  t.(RetirementRecord.operation).(OperationRef.device_id) = Ledger.device r.
Proof. intros Hf. by rewrite (rf_operation _ _ _ _ _ _ Hf). Qed.

Lemma retire_transient c id tr t r q :
  cinv c → retirement_facts c id tr t r q → requires_mutation_barrier t = false →
  (∃ e, retire_in_admission c id t = (c, Err e)) ∨
  ∃ a' next ledger bs, recording c id tr t r q a' next ledger bs.
Proof.
  intros Hc Hf Hreq. unfold retire_in_admission. rewrite Hreq. unfold on_admission.
  destruct (retire_indeterminate c.(admission) id) as [a' [next|e]] eqn:Ha; cbn.
  2:{ left. exists e. apply retire_Err in Ha as ->. by rewrite set_admission_id. }
  right. exists a', next, c.(operations), c.(mutation_resume_barriers).
  pose proof (retire_indeterminate_inv _ id (ci_admission _ Hc)) as Hinv. rewrite Ha in Hinv.
  apply retire_Ok in Ha as Hok; [|apply Hc]. destruct Hok as (o & Ho & _ & _ & _ & Hbe).
  rewrite (admitted_record c Hc _ _ (rf_record _ _ _ _ _ _ Hf)) in Ho. injection Ho as <-.
  rewrite <- (ci_view _ Hc) in Hbe.
  assert (cinv_upto (MAX_RETIREMENT_RECORDS + 1)
    (recorded c t r a' (promote_ledger next c.(operations)) c.(mutation_resume_barriers))) as Hcinv.
  { eapply cinv_retire; [done|done|done|exact Hbe|apply Hc..|done|done|].
    apply barriers_ok_retire; [apply Hc|]. apply transient_policy; [apply Hf|done]. }
  split; [done| |done| | |apply Hbe|by rewrite Hreq|congruence].
  - unfold retire_in_admission, on_admission. rewrite Hreq, Ha. by destruct c.
  - intros x Hx Hs. destruct (ci_retirements _ Hcinv) as [_ Hall]. cbn in Hall.
    rewrite Forall_forall in Hall. destruct (Hall x Hx) as (_ & _ & y & Hy & Hst & _).
    destruct next as [|o]; [done|]. cbn in Hs, Hy. injection Hs as Hs. rewrite <- Hs in Hy.
    rewrite lookup_alter_eq in Hy. destruct (c.(operations) !! _); simplify_eq/=.
  - intros x. destruct (promote_ledger next c.(operations) !! x) as [y|] eqn:Hy.
    + destruct (promote_ledger_lookup _ _ _ _ (be_next _ _ _ _ _ _ Hbe) Hy)
        as [->|(y0 & -> & Hq & ->)]; by constructor.
    + apply promote_ledger_None in Hy as ->. constructor.
Qed.

Lemma retire_barred c id tr t r q :
  cinv c → retirement_facts c id tr t r q → requires_mutation_barrier t = true →
  (∃ e, retire_in_admission c id t = (c, Err e)) ∨
  ∃ a' next ledger bs, recording c id tr t r q a' next ledger bs.
Proof.
  intros Hc Hf Hreq. pose proof (device_of_retirement _ _ _ _ _ _ Hf) as Hdev.
  unfold retire_in_admission. rewrite Hreq, Hdev.
  case_bool_decide as Hfree; [eauto|]. apply eq_None_not_Some in Hfree. unfold on_admission.
  destruct (retire_indeterminate_and_cancel_queued c.(admission) id) as [a' [queued|e]] eqn:Ha; cbn.
  2:{ left. exists e. apply retire_and_cancel_Err in Ha as ->. by rewrite set_admission_id. }
  right. pose proof (retire_and_cancel_queued_inv _ id (ci_admission _ Hc)) as Hinv.
  rewrite Ha in Hinv. apply retire_and_cancel_Ok in Ha as Hok; [|apply Hc].
  destruct Hok as (o & Ho & _ & _ & _ & Hnd & Hqueued & Hbe).
  rewrite (admitted_record c Hc _ _ (rf_record _ _ _ _ _ _ Hf)) in Ho. injection Ho as <-.
  assert (∀ o, o ∈ queued → ∃ x, c.(operations) !! o.(OperationRef.operation_id) = Some x ∧
    x.(SafetyOperation.state) = Queued) as Hrecords.
  { intros o Hin. destruct (ledger_record c Hc _ _ (Hqueued o Hin)) as (x & Hx & Heq).
    exists x. split; [done|]. by injection Heq. }
  destruct (settle_cancelled_spec (set_admission c a') queued t.(RetirementRecord.retired_at_ms)
    Hnd Hrecords) as (ledger & Hrun & Hledger). cbn in Hledger.
  assert (view ledger = cancel_each queued c.(admission).(Admission.operations)) as Hview.
  { apply map_eq. intros x. rewrite cancel_each_lookup, view_lookup, Hledger, <- (ci_view _ Hc),
      view_lookup. case_decide; by destruct (c.(operations) !! x). }
  exists a', CompletionDecision.Idle, ledger,
    (<[Ledger.device r := barrier_for t]> c.(mutation_resume_barriers)).
  assert (∀ x y, c.(operations) !! x = Some y → y.(SafetyOperation.state) ≠ Queued →
    ledger !! x = Some y) as Hkeep.
  { intros x y Hy Hst. rewrite Hledger, decide_False; [done|].
    intros (o & -> & Hin)%list_elem_of_fmap. destruct (Hrecords o Hin) as (y' & Hy' & ?). congruence. }
  split; [done| | | | |apply Hbe|by rewrite Hreq|done].
  - unfold retire_in_admission, on_admission. rewrite Hreq, Hdev, bool_decide_false, Ha
      by by rewrite <- eq_None_not_Some. cbn. by rewrite Hrun.
  - eapply (cinv_retire c id tr t r q a' CompletionDecision.Idle); [done|done|done| | | |done| |].
    + rewrite Hview. exact Hbe.
    + intros x y Hy. rewrite Hledger in Hy. case_decide as Hin; [|by eapply (ci_ledger _ Hc)].
      apply list_elem_of_fmap in Hin as (o & -> & Hin). destruct (Hrecords o Hin) as (z & Hz & Hst).
      rewrite Hz in Hy. injection Hy as <-. apply cancelled_ok; [by eapply (ci_ledger _ Hc)|by left].
    + intros x y Hy Hu. rewrite Hledger in Hy. case_decide as Hin; [|by apply (ci_lanes _ Hc)].
      destruct (c.(operations) !! x); simplify_eq/=.
    + intros x Hn. rewrite Hledger, Hn. by case_decide.
    + rewrite <- Hdev. apply barriers_ok_raise; [apply Hc| |by rewrite Hdev|done].
      rewrite (retired_ref_id _ _ _ _ _ _ Hc Hf). apply Hf.
  - done.
  - intros x. cbn. rewrite Hledger. case_decide as Hin; [|constructor].
    apply list_elem_of_fmap in Hin as (o & -> & Hin). destruct (Hrecords o Hin) as (z & -> & Hst).
    by constructor.
Qed.

(** What a successful retirement leaves. *)
Record retired_as c c' id (tr : RetirementTransition) (t : RetirementRecord) : Prop := {
  ra_facts : ∃ r q, retirement_facts c id tr t r q ∧
    c'.(quarantines) = delete (Ledger.device r) c.(quarantines) ∧
    c'.(mutation_resume_barriers) =
      (if requires_mutation_barrier t
       then <[Ledger.device r := barrier_for t]> c.(mutation_resume_barriers)
       else c.(mutation_resume_barriers)) ∧
    (requires_mutation_barrier t = true → c.(mutation_resume_barriers) !! Ledger.device r = None);
  ra_archive : c'.(recovery_archive) = c.(recovery_archive);
  ra_cinv : cinv c';
  ra_retired : c'.(admission).(retired_indeterminate)
               = {[id]} ∪ c.(admission).(retired_indeterminate);
  ra_records : ∀ x,
    retire_move tr.(RetirementTransition.now_ms) (c.(operations) !! x) (c'.(operations) !! x) ∨
    ∃ y, c.(operations) !! x = Some y ∧ y.(SafetyOperation.state) = Indeterminate ∧
         c'.(operations) !! x = None ∧ x ∈ c'.(admission).(retired_indeterminate)
}.

(** A retirement is refused and changes nothing, or is recorded; the only other
    case is a history that is full of active barriers. *)
Lemma retire_spec c id tr :
  cinv c →
  (∃ e, retire_indeterminate_with_disposition c id tr = (c, Err e)) ∨
  (∃ c', retire_indeterminate_with_disposition c id tr
           = (c', Err ExecutionError.InvalidTransition) ∧
         (MAX_RETIREMENT_RECORDS < vlen c'.(retirements))%N ∧
         (∀ t, t ∈ c'.(retirements) → barrier_source c' t = true) ∧
         NoDup (retired_ref <$> c'.(retirements)) ∧
         ∀ d, is_Some (c'.(mutation_resume_barriers) !! d) →
              is_Some (c.(mutation_resume_barriers) !! d) ∨ is_Some (c.(quarantines) !! d)) ∨
  ∃ c' next t, retire_indeterminate_with_disposition c id tr = (c', Ok (next, t)) ∧
    retired_as c c' id tr t.
Proof.
  intros Hc. unfold retire_indeterminate_with_disposition.
  destruct (retirement_for c id tr) as [t|e] eqn:Ht; [|eauto].
  destruct (retirement_for_Ok _ _ _ _ Ht) as (r & q & Hf).
  pose proof (device_of_retirement _ _ _ _ _ _ Hf) as Hdev.
  assert ((∃ e, retire_in_admission c id t = (c, Err e)) ∨
    ∃ a' next ledger bs, recording c id tr t r q a' next ledger bs)
    as [[e ->]|(a' & next & ledger & bs & [_ Hrun Hcinv Hstart Hmoves Hret Hbars Hfree])].
  { destruct (requires_mutation_barrier t) eqn:Hreq; [by eapply retire_barred|by eapply retire_transient]. }
  { eauto. }
  rewrite Hrun, Hdev. set (mid := recorded c t r a' ledger bs).
  change (set_retirements _ _) with mid.
  assert (activate_next mid next = recorded c t r a' (promote_ledger next ledger) bs) as Hact
    by by rewrite activate_next_eq.
  destruct (rf_transition _ _ _ _ _ _ Hf) as (_ & _ & _ & Hnow). rewrite Hnow in Hmoves.
  rewrite <- Hact in Hcinv. right.
  destruct (rotate_then_start mid next Hcinv Hstart) as [(c3 & -> & Hc3 & Hrot)|(c3 & -> & Hlen & Hall & Hr3 & Hb3)].
  2:{ left. exists c3. split_and!; [done..| |].
      - rewrite Hr3. destruct (ci_retirements _ Hcinv) as [Hnd _]. by rewrite Hact in Hnd.
      - intros d. rewrite Hb3. cbn. rewrite Hbars. destruct (requires_mutation_barrier t); [|by left].
        destruct (decide (Ledger.device r = d)) as [<-|Hne]; [|rewrite lookup_insert_ne by done; by left].
        rewrite (rf_quarantine _ _ _ _ _ _ Hf). by right. }
  right.
  exists (activate_next c3 next), next, t. split; [done|].
  destruct Hrot as [Heq|[x [_ _ Hhist Hcomp Hrest]]].
  - rewrite Heq, Hact in *. split; [|done|done|exact Hret|by left]. exists r, q. by rewrite Hbars.
  - assert (∃ y, (activate_next mid next).(operations) !! retired_ref x = Some y ∧
      y.(SafetyOperation.state) = Indeterminate) as Hwas.
    { destruct (ci_retirements _ Hcinv) as [_ Hall]. rewrite Hhist in Hall.
      apply Forall_cons in Hall as [(_ & _ & y & Hy & Hst & _) _]. eauto. }
    apply compact_Ok in Hcomp as (Hin & _ & [_ _ _ Hret' _]). set (c' := activate_next c3 next) in *.
    assert (c'.(admission).(retired_indeterminate)
            = {[id]} ∪ c.(admission).(retired_indeterminate)) as Hret3.
    { rewrite Hret', Hact. exact Hret. }
    split; [| |done|done|].
    + exists r, q. rewrite Hrest, Hact. cbn. by rewrite Hbars.
    + by rewrite Hrest, Hact.
    + intros z. rewrite Hrest. cbn. destruct (decide (z = retired_ref x)) as [->|Hne].
      * right. rewrite lookup_delete_eq, Hret'. destruct Hwas as (y & Hy & Hst).
        exists y. split_and!; [|done..]. pose proof (Hmoves (retired_ref x)) as Hm.
        rewrite Hact in Hy. cbn in Hy. rewrite Hy in Hm. by inversion Hm; simplify_eq.
      * left. rewrite lookup_delete_ne, Hact by done. apply Hmoves.
Qed.
End Retire.

(** ** Resuming mutations *)

Section Resume.
Context `{HI : HashIter}.
Implicit Types (c : AuthoritativeOperationController).

Definition resumed_record (b : MutationResumeBarrier) (authority : RetirementAuthority) (g : N)
    (reason : string) (now_ms : N) : MutationResumeRecord :=
  MutationResumeRecord.mk b.(MutationResumeBarrier.device_id)
    b.(MutationResumeBarrier.source_operation_id) b.(MutationResumeBarrier.accepted_generation)
    g b.(MutationResumeBarrier.policy) authority reason now_ms.

Lemma resume_Ok c d source authority g reason now_ms c' m :
  resume_mutations c d source authority g reason now_ms = (c', Ok m) →
  ∃ b, c.(mutation_resume_barriers) !! d = Some b ∧
  b.(MutationResumeBarrier.source_operation_id) = source ∧
  authority = RetirementAuthority.LocalUserPresence ∧
  (b.(MutationResumeBarrier.accepted_generation) < g)%N ∧
  m = resumed_record b authority g reason now_ms ∧ valid_resume m = true ∧
  (vlen c.(mutation_resumes) < MAX_RETIREMENT_RECORDS)%N ∧
  c' = set_resumes (set_barriers c (delete d c.(mutation_resume_barriers)))
         (c.(mutation_resumes) ++ [m]).
Proof.
  unfold resume_mutations. case_bool_decide as Ha; cbn; [|done]. destruct (_ || _); [done|].
  destruct (c.(mutation_resume_barriers) !! d) as [b|] eqn:Hb; [|done].
  case_bool_decide as Hs; cbn; [|done].
  destruct (N.leb_spec g b.(MutationResumeBarrier.accepted_generation)) as [|Hg]; [done|].
  fold (resumed_record b authority g reason now_ms).
  destruct (valid_resume _) eqn:Hv; cbn; [|done].
  destruct (N.leb_spec MAX_RETIREMENT_RECORDS (vlen c.(mutation_resumes))) as [|Hlen]; [done|].
  intros [= <- <-]. by exists b.
Qed.

Lemma resume_Err c d source authority g reason now_ms c' e :
  resume_mutations c d source authority g reason now_ms = (c', Err e) → c' = c.
Proof. unfold resume_mutations. intros H. by run H. Qed.

Lemma resume_cinv c d source authority g reason now_ms c' m :
  cinv c → resume_mutations c d source authority g reason now_ms = (c', Ok m) → cinv c'.
Proof.
  intros Hc (b & Hb & _ & _ & _ & -> & Hv & Hlen & ->)%resume_Ok.
  split; cbn; try apply Hc.
  - eapply barriers_ok_resume; [apply Hc|apply Hc|done..].
  - rewrite vlen_app. unfold vlen at 2. cbn. lia.
Qed.
End Resume.
