(* ===== verification/ControllerCalls.v ===== *)
(** * The calls of the operation controller and what they do to a record

    One constructor per public call of [AuthoritativeOperationController] that
    changes state, the function that performs it, and the life cycle a ledger
    record follows. *)

From S2P Require Import Prelude Vocabulary Protocol Tombstone Admission AdmissionSafety.
From S2P Require Import AdmissionEffects SafetyTypes Evidence Controller ControllerLedger.
From S2P Require Import ControllerSafety ControllerRecovery ControllerRetirement.
Import HubOperationState Controller.

(** ** Calls *)

Inductive ccall :=
| CPrepare (operation : OperationRef) (owner : OperationOwner) (capability : DeviceCapability)
    (metadata : OperationAdmissionMetadata) (now_ms : N)
| CDispatch (id : string) (owner : OperationOwner) (device_generation : N)
    (binding : option OperationDispatchBinding) (now_ms : N)
| CCancel (id : string) (owner : OperationOwner) (device_generation now_ms : N)
| CFinalize (id : string) (owner : OperationOwner) (device_generation : N)
    (terminal : HubOperationState) (evidence : ExecutionEvidence) (now_ms : N)
| CNonDelivery (id : string) (owner : OperationOwner) (device_generation : N)
    (binding : OperationDispatchBinding) (evidence : ExecutionEvidence) (now_ms : N)
| CInterrupted (id : string) (now_ms : N)
| CMarkIndeterminate (id : string) (owner : OperationOwner) (device_generation : N)
    (reason : IndeterminateReason) (now_ms : N)
| CConnectionLost (id : string) (now_ms : N)
| CEvidenceGap (id : string)
| COperatorRequired (id : string)
| CReconcile (evidence : AgentTerminalEvidence) (now_ms : N)
| CResolve (id : string) (resolver : OperationOwner) (decision : IndeterminateResolution)
    (evidence : string) (now_ms : N)
| CRetire (id : string) (authority : RetirementAuthority) (policy : RetirementPolicy)
    (reason : string) (device_generation now_ms : N)
| CAccept (id : string) (policy : RetirementPolicy) (reason : string)
    (device_generation now_ms : N)
| CResume (device_id source : string) (authority : RetirementAuthority) (device_generation : N)
    (reason : string) (now_ms : N)
| CAttach (id : string) (owner : OperationOwner) (device_generation : N)
    (result : RecoverableOperationResult)
| CPrune (device_id : string) (current_generation : N).

Definition erase {A} (o : outcome A) : outcome unit :=
  (o.1, match o.2 with Ok _ => Ok tt | Err e => Err e end).

Definition perform `{HashIter} `{RecoverySerializer} (c : AuthoritativeOperationController)
    (k : ccall) : outcome unit :=
  match k with
  | CPrepare operation owner capability metadata now_ms =>
      erase (prepare_with_metadata c operation owner capability metadata now_ms)
  | CDispatch id owner g binding now_ms =>
      mark_dispatched_with_binding c id owner g binding now_ms
  | CCancel id owner g now_ms => erase (request_cancel c id owner g now_ms)
  | CFinalize id owner g terminal evidence now_ms =>
      erase (finalize c id owner g terminal evidence now_ms)
  | CNonDelivery id owner g binding evidence now_ms =>
      erase (resolve_hub_pre_enqueue_non_delivery c id owner g binding evidence now_ms)
  | CInterrupted id now_ms => erase (mark_recovery_read_interrupted c id now_ms)
  | CMarkIndeterminate id owner g reason now_ms =>
      erase (mark_indeterminate_owned c id owner g reason now_ms)
  | CConnectionLost id now_ms => erase (mark_connection_lost c id now_ms)
  | CEvidenceGap id => mark_reconciliation_evidence_gap c id
  | COperatorRequired id => mark_reconciliation_operator_required c id
  | CReconcile t now_ms => erase (reconcile_authoritative_terminal c t now_ms)
  | CResolve id resolver decision evidence now_ms =>
      erase (resolve_indeterminate_by c id resolver decision evidence now_ms)
  | CRetire id authority policy reason g now_ms =>
      erase (retire_indeterminate_by c id authority policy reason g now_ms)
  | CAccept id policy reason g now_ms =>
      erase (accept_current_state c id policy reason g now_ms)
  | CResume d source authority g reason now_ms =>
      erase (resume_mutations c d source authority g reason now_ms)
  | CAttach id owner g result => attach_recoverable_result c id owner g result
  | CPrune d g => erase (prune_terminal c d g)
  end.

Lemma erase_Ok {A} (o : outcome A) c u : erase o = (c, Ok u) → ∃ a, o = (c, Ok a).
Proof. destruct o as [c' [a|e]]; cbn; [|done]. intros [= -> _]. eauto. Qed.

Lemma erase_Err {A} (o : outcome A) c e : erase o = (c, Err e) → o = (c, Err e).
Proof. destruct o as [c' [a|e']]; cbn; [done|]. by intros [= -> ->]. Qed.

(** The transition behind the two retirement calls. *)
Definition transition_of (k : ccall) : option (string * RetirementTransition) :=
  match k with
  | CRetire id authority policy reason g now_ms =>
      Some (id, RetirementTransition.mk RetirementDisposition.Retired authority policy reason g
                  now_ms)
  | CAccept id policy reason g now_ms =>
      Some (id, RetirementTransition.mk RetirementDisposition.CurrentStateAccepted
                  RetirementAuthority.LocalUserPresence policy reason g now_ms)
  | _ => None
  end.

(** ** The life cycle of a ledger record *)

Section Lifecycle.
Context `{HI : HashIter} `{RS : RecoverySerializer}.
Implicit Types (c : AuthoritativeOperationController) (id : string) (k : ccall)
  (r : SafetyOperation).

(** The record belongs to the caller and to this generation of its device. *)
Definition fenced r (owner : OperationOwner) (g : N) : Prop :=
  r.(SafetyOperation.owner) = owner ∧ Ledger.generation r = g.

(** The calls that cancel work before it is dispatched: the owner's, and those
    that quarantine or bar the device the work is queued for. *)
Definition may_cancel k id r (now_ms : N) : Prop :=
  match k with
  | CCancel id' owner g now => id' = id ∧ fenced r owner g ∧ now = now_ms
  | CMarkIndeterminate _ _ _ _ now | CConnectionLost _ now | CAccept _ _ _ _ now =>
      r.(SafetyOperation.state) = Queued ∧ now = now_ms
  | CRetire _ _ _ _ _ now => r.(SafetyOperation.state) = Queued ∧ now = now_ms
  | _ => False
  end.

(** The calls that give up on learning the outcome of a dispatched operation. *)
Definition may_lose k id r (reason : IndeterminateReason) : Prop :=
  match k with
  | CMarkIndeterminate id' owner g reason' _ => id' = id ∧ fenced r owner g ∧ reason' = reason
  | CConnectionLost id' _ => id' = id ∧ reason = IndeterminateReason.ConnectionLost
  | _ => False
  end.

Definition may_interrupt k id (now_ms : N) : Prop :=
  k = CInterrupted id now_ms ∨ k = CConnectionLost id now_ms.

(** How a call may change the record filed under [id]. *)
Inductive record_step c k id : option SafetyOperation → option SafetyOperation → Prop :=
| rs_same o : record_step c k id o o
| rs_start r : r.(SafetyOperation.state) = Queued →
    record_step c k id (Some r) (Some (activated r))
| rs_prepare operation owner capability metadata now_ms lane decision :
    k = CPrepare operation owner capability metadata now_ms →
    operation.(OperationRef.operation_id) = id → replayed_id c id = false →
    validate_metadata metadata capability = Ok tt →
    mutation_barrier c capability operation.(OperationRef.device_id) = None →
    choose_lane c operation.(OperationRef.device_id) capability = Ok lane →
    record_step c k id None
      (Some (fresh_record operation owner capability lane metadata decision now_ms))
| rs_dispatch r owner g binding now_ms :
    k = CDispatch id owner g binding now_ms → fenced r owner g →
    r.(SafetyOperation.state) = ActiveNotDispatched →
    record_step c k id (Some r) (Some (Ledger.set_status
      (Ledger.set_dispatch (Ledger.set_state r Dispatched) now_ms binding) None))
| rs_cancel r now_ms :
    may_cancel k id r now_ms →
    r.(SafetyOperation.state) = Queued ∨ r.(SafetyOperation.state) = ActiveNotDispatched →
    record_step c k id (Some r)
      (Some (Ledger.settle r Cancelled ExecutionEvidence.CancelledBeforeDispatch now_ms))
| rs_cancel_sent r owner g now_ms :
    k = CCancel id owner g now_ms → fenced r owner g →
    on_device r.(SafetyOperation.state) = true →
    record_step c k id (Some r) (Some (Ledger.set_state r CancelRequested))
| rs_finalize r owner g terminal evidence now_ms :
    k = CFinalize id owner g terminal evidence now_ms → fenced r owner g →
    on_device r.(SafetyOperation.state) = true →
    authoritative_agent_terminal_pair terminal evidence = true →
    record_step c k id (Some r)
      (Some (Ledger.settle (Ledger.set_reason r None) terminal evidence now_ms))
| rs_non_delivered r owner g binding evidence now_ms :
    k = CNonDelivery id owner g binding evidence now_ms → fenced r owner g →
    r.(SafetyOperation.state) = Dispatched →
    r.(SafetyOperation.dispatch_binding) = Some binding → is_pre_enqueue evidence = true →
    record_step c k id (Some r) (Some (non_delivered_record r evidence now_ms))
| rs_interrupted r now_ms :
    may_interrupt k id now_ms →
    r.(SafetyOperation.execution_lane) = OperationExecutionLane.RecoveryEvidenceRead →
    on_device r.(SafetyOperation.state) = true →
    record_step c k id (Some r) (Some (interrupted_record r now_ms))
| rs_unknown r reason :
    may_lose k id r reason →
    r.(SafetyOperation.execution_lane) = OperationExecutionLane.Normal →
    on_device r.(SafetyOperation.state) = true →
    record_step c k id (Some r) (Some (indeterminate_record r reason))
| rs_gap r : k = CEvidenceGap id → r.(SafetyOperation.state) = Indeterminate →
    r.(SafetyOperation.reconciliation_status) = Some ReconciliationStatus.AutoReconciling →
    record_step c k id (Some r)
      (Some (Ledger.set_status r (Some ReconciliationStatus.UnrecoverableEvidenceGap)))
| rs_operator r : k = COperatorRequired id → r.(SafetyOperation.state) = Indeterminate →
    record_step c k id (Some r)
      (Some (Ledger.set_status r (Some ReconciliationStatus.OperatorRequired)))
| rs_reconcile r t now_ms :
    k = CReconcile t now_ms → validate_terminal_evidence t = Ok tt →
    evidence_matches r t = true →
    record_step c k id (Some r) (Some (reconciled_record r t now_ms))
| rs_resolve r resolver decision evidence now_ms :
    k = CResolve id resolver decision evidence now_ms → trim_is_empty evidence = false →
    r.(SafetyOperation.state) = Indeterminate →
    record_step c k id (Some r) (Some (resolved_record r decision now_ms))
| rs_attach r owner g result :
    k = CAttach id owner g result → fenced r owner g → is_Some r.(SafetyOperation.receipt) →
    r.(SafetyOperation.recoverable_result) = None →
    record_step c k id (Some r) (Some (Ledger.set_result r (Some result)))
| rs_prune r d g :
    k = CPrune d g → prunable_record d g r = true → record_step c k id (Some r) None
| rs_rotate r :
    is_Some (transition_of k) → r.(SafetyOperation.state) = Indeterminate →
    id ∈ (perform c k).1.(admission).(retired_indeterminate) →
    record_step c k id (Some r) None.
End Lifecycle.

(** ** The effect of a successful call *)

(** The calls that end the quarantine caused by [id]. *)
Definition releases_quarantine (k : ccall) (id : string) : Prop :=
  match k with
  | CReconcile t _ => evidence_id t = id
  | CResolve id' _ _ _ _ | CRetire id' _ _ _ _ _ | CAccept id' _ _ _ _ => id' = id
  | _ => False
  end.

(** The call that lifts the barrier [b] of a device. *)
Definition lifts_barrier (k : ccall) (d : string) (b : MutationResumeBarrier) : Prop :=
  match k with
  | CResume d' source authority g _ _ =>
      d' = d ∧ source = b.(MutationResumeBarrier.source_operation_id) ∧
      authority = RetirementAuthority.LocalUserPresence ∧
      (b.(MutationResumeBarrier.accepted_generation) < g)%N
  | _ => False
  end.

Section Effects.
Context `{HI : HashIter} `{RS : RecoverySerializer}.
Implicit Types (c : AuthoritativeOperationController) (id : string) (k : ccall)
  (r : SafetyOperation).

Definition no_queue c (d : string) : Prop :=
  ∀ id r, c.(operations) !! id = Some r → Ledger.device r = d →
    r.(SafetyOperation.state) ≠ Queued.

Record effect c k c' : Prop := {
  ef_cinv : cinv c';
  ef_records : ∀ id, record_step c k id (c.(operations) !! id) (c'.(operations) !! id);
  ef_quarantined : ∀ d q, c'.(quarantines) !! d = Some q →
    c.(quarantines) !! d = Some q ∨ no_queue c' d;
  ef_released : ∀ d q, c.(quarantines) !! d = Some q →
    c'.(quarantines) !! d = Some q ∨ releases_quarantine k q.(DesktopQuarantine.operation_id);
  ef_barred : ∀ d b, c'.(mutation_resume_barriers) !! d = Some b →
    c.(mutation_resume_barriers) !! d = Some b ∨ is_Some (c.(quarantines) !! d);
  ef_lifted : ∀ d b, c.(mutation_resume_barriers) !! d = Some b →
    c'.(mutation_resume_barriers) !! d = Some b ∨ lifts_barrier k d b;
  ef_archive : c'.(recovery_archive) = c.(recovery_archive) ∨ archive_bounded c'.(recovery_archive)
}.

(** A call that leaves quarantines, barriers and archive alone. *)
Lemma effect_ledger c k c' :
  cinv c' → (∀ id, record_step c k id (c.(operations) !! id) (c'.(operations) !! id)) →
  c'.(quarantines) = c.(quarantines) →
  c'.(mutation_resume_barriers) = c.(mutation_resume_barriers) →
  c'.(recovery_archive) = c.(recovery_archive) → effect c k c'.
Proof. intros Hc Hr Hq Hb Ha. split; rewrite ?Hq, ?Hb; auto. Qed.

(** A call that ends the quarantine of a device. *)
Lemma effect_release c k c' d q :
  cinv c' → (∀ id, record_step c k id (c.(operations) !! id) (c'.(operations) !! id)) →
  c.(quarantines) !! d = Some q → releases_quarantine k q.(DesktopQuarantine.operation_id) →
  c'.(quarantines) = delete d c.(quarantines) →
  c'.(mutation_resume_barriers) = c.(mutation_resume_barriers) →
  c'.(recovery_archive) = c.(recovery_archive) → effect c k c'.
Proof.
  intros Hc Hr Hd Hk Hq Hb Ha. split; rewrite ?Hq, ?Hb; auto.
  - intros d' q' [_ H]%lookup_delete_Some. auto.
  - intros d' q' Hd'. destruct (decide (d' = d)) as [->|Hne]; [simplify_eq; auto|].
    rewrite lookup_delete_ne by done. auto.
Qed.

(** One record changes. *)
Lemma records_put c k id o r' :
  c.(operations) !! id = o → record_step c k id o (Some r') →
  ∀ id', record_step c k id' (c.(operations) !! id') (<[id := r']> c.(operations) !! id').
Proof.
  intros Ho Hr id'. destruct (decide (id' = id)) as [->|Hne].
  - by rewrite lookup_insert_eq, Ho.
  - rewrite lookup_insert_ne by done. constructor.
Qed.

(** One record settles and queued work starts. *)
Lemma records_settle c k id r r' next a' blocked retired recovery :
  cinv c → c.(operations) !! id = Some r → record_step c k id (Some r) (Some r') →
  settled r'.(SafetyOperation.state) = true →
  becomes a' next (<[id := admitted_view r']> c.(admission).(Admission.operations))
    blocked retired recovery →
  ∀ id', record_step c k id' (c.(operations) !! id')
    (promote_ledger next (<[id := r']> c.(operations)) !! id').
Proof.
  intros Hc Hr Hstep Hs Hbe id'. pose proof (be_next _ _ _ _ _ _ Hbe) as Hnext.
  rewrite <- (ci_view _ Hc), <- view_insert in Hnext.
  destruct (promote_ledger next _ !! id') as [x|] eqn:Hx.
  - destruct (promote_ledger_lookup _ _ _ _ Hnext Hx) as [Hx'|(x0 & Hx' & Hq & ->)];
      apply lookup_insert_Some in Hx' as [[<- <-]|[Hne Hx']];
      rewrite ?Hr, ?Hx'; try done; try by constructor.
    by rewrite Hq in Hs.
  - apply promote_ledger_None, lookup_insert_None in Hx as [-> _]. constructor.
Qed.
End Effects.

Section CallEffects.
Context `{HI : HashIter} `{RS : RecoverySerializer}.
Implicit Types (c : AuthoritativeOperationController) (id : string) (r : SafetyOperation).

Lemma prepare_effect c operation owner capability metadata now_ms c' decision :
  cinv c → prepare_with_metadata c operation owner capability metadata now_ms = (c', Ok decision) →
  effect c (CPrepare operation owner capability metadata now_ms) c'.
Proof.
  intros Hc Hrun. pose proof (prepare_cinv _ _ _ _ _ _ _ _ Hc Hrun) as Hc'.
  apply prepare_Ok in Hrun as (lane & a' & Hid & Hm & Hb & Hl & _ & ->).
  apply effect_ledger; try done. cbn. eapply (records_put c); [by apply replayed_id_false in Hid as (? & _)|].
  by eapply rs_prepare.
Qed.

Lemma dispatch_effect c id owner g binding now_ms c' u :
  cinv c → mark_dispatched_with_binding c id owner g binding now_ms = (c', Ok u) →
  effect c (CDispatch id owner g binding now_ms) c'.
Proof.
  intros Hc Hrun. pose proof (dispatch_cinv _ _ _ _ _ _ _ _ Hc Hrun) as Hc'.
  apply dispatch_Ok in Hrun as (r & a' & (Hr & Hf)%checked_Ok & Hst & _ & _ & ->).
  apply effect_ledger; try done. cbn. eapply (records_put c); [done|]. by eapply rs_dispatch.
Qed.

Lemma cancel_effect c id owner g now_ms c' decision :
  cinv c → request_cancel c id owner g now_ms = (c', Ok decision) →
  effect c (CCancel id owner g now_ms) c'.
Proof.
  intros Hc Hrun. pose proof (cancel_cinv _ _ _ _ _ _ _ Hc Hrun) as Hc'.
  apply cancel_Ok in Hrun as (r & a' & (Hr & Hf)%checked_Ok & Ha & ->).
  destruct decision as [next|o|s].
  - rewrite activate_next_eq in *. apply cancel_before_dispatch in Ha as (o & Ho & Hst & Hbe);
      [|apply Hc]. rewrite (admitted_record c Hc _ _ Hr) in Ho. injection Ho as <-.
    apply effect_ledger; try done. cbn. eapply (records_settle c _ id r); [done..| |done|exact Hbe].
    apply rs_cancel; [by destruct Hf|]. cbn in Hst. naive_solver.
  - apply cancel_sent in Ha as (o' & Ho & Hd & _). rewrite (admitted_record c Hc _ _ Hr) in Ho.
    injection Ho as <-. apply effect_ledger; try done. cbn. eapply (records_put c); [done|].
    by eapply rs_cancel_sent.
  - apply effect_ledger; try done. constructor.
Qed.

Lemma finalize_effect c id owner g t e now_ms c' res :
  cinv c → finalize c id owner g t e now_ms = (c', Ok res) →
  effect c (CFinalize id owner g t e now_ms) c'.
Proof.
  intros Hc Hrun. pose proof (finalize_cinv _ _ _ _ _ _ _ _ _ Hc Hrun) as Hc'. destruct res as [next x].
  apply finalize_Ok in Hrun as (r & a' & (Hr & Hf)%checked_Ok & Hd & Hp & Ha & _ & ->).
  rewrite activate_next_eq in *.
  apply finalize_terminal_Ok in Ha as (o & Ho & _ & Hs & Hbe); [|apply Hc].
  rewrite (admitted_record c Hc _ _ Hr) in Ho. injection Ho as <-.
  apply effect_ledger; try done. cbn. eapply (records_settle c _ id r); [done..| |done|exact Hbe].
  by eapply rs_finalize.
Qed.

Lemma non_delivery_effect c id owner g binding evidence now_ms c' res :
  cinv c → resolve_hub_pre_enqueue_non_delivery c id owner g binding evidence now_ms = (c', Ok res) →
  effect c (CNonDelivery id owner g binding evidence now_ms) c'.
Proof.
  intros Hc Hrun. pose proof (non_delivery_cinv _ _ _ _ _ _ _ _ _ Hc Hrun) as Hc'.
  destruct res as [next x].
  apply non_delivery_Ok in Hrun as (r & (Hr & Hf)%checked_Ok & He & _ & Hb &
    [(_ & -> & _)|(a' & Hst & _ & _ & Ha & ->)]).
  { apply effect_ledger; try done. constructor. }
  rewrite activate_next_eq in *.
  apply finalize_terminal_Ok in Ha as (o & Ho & _ & Hs & Hbe); [|apply Hc].
  rewrite (admitted_record c Hc _ _ Hr) in Ho. injection Ho as <-.
  apply effect_ledger; try done. cbn. eapply (records_settle c _ id r); [done..| |done|exact Hbe].
  by eapply rs_non_delivered.
Qed.

Lemma interrupted_effect c k id now_ms c' res :
  cinv c → may_interrupt k id now_ms → mark_recovery_read_interrupted c id now_ms = (c', Ok res) →
  effect c k c'.
Proof.
  intros Hc Hk Hrun. pose proof (interrupted_cinv _ _ _ _ _ Hc Hrun) as Hc'. destruct res as [next x].
  apply interrupted_Ok in Hrun as (r & a' & Hr & Hl & Hd & Ha & ->). rewrite activate_next_eq in *.
  apply fail_recovery_Ok in Ha as (o & Ho & _ & Hbe); [|apply Hc].
  rewrite (admitted_record c Hc _ _ Hr) in Ho. injection Ho as <-.
  apply effect_ledger; try done. cbn. eapply (records_settle c _ id r); [done..| |done|exact Hbe].
  by apply rs_interrupted.
Qed.

Lemma evidence_gap_effect c id c' u :
  cinv c → mark_reconciliation_evidence_gap c id = (c', Ok u) → effect c (CEvidenceGap id) c'.
Proof.
  intros Hc Hrun. pose proof (evidence_gap_cinv _ _ _ _ Hc Hrun) as Hc'.
  apply evidence_gap_Ok in Hrun as (r & Hr & Hst & Hs & ->).
  apply effect_ledger; try done. cbn. eapply (records_put c); [done|]. by apply rs_gap.
Qed.

Lemma operator_required_effect c id c' u :
  cinv c → mark_reconciliation_operator_required c id = (c', Ok u) →
  effect c (COperatorRequired id) c'.
Proof.
  intros Hc Hrun. pose proof (operator_required_cinv _ _ _ _ Hc Hrun) as Hc'.
  apply operator_required_Ok in Hrun as (r & Hr & Hst & ->).
  apply effect_ledger; try done. cbn. eapply (records_put c); [done|]. by apply rs_operator.
Qed.

Lemma reconcile_effect c t now_ms c' res :
  cinv c → reconcile_authoritative_terminal c t now_ms = (c', Ok res) →
  effect c (CReconcile t now_ms) c'.
Proof.
  intros Hc Hrun. pose proof (reconcile_terminal_cinv _ _ _ _ _ Hc Hrun) as Hc'.
  destruct res as [next x].
  apply reconcile_terminal_Ok in Hrun as (r & q & a' & Hv & Hr & Hm & Hq & Hid & Ha & _ & ->).
  rewrite activate_next_eq in *. apply reconcile_Ok in Ha as (o & Ho & _ & Hs & _ & Hbe); [|apply Hc].
  rewrite (admitted_record c Hc _ _ Hr) in Ho. injection Ho as <-.
  eapply effect_release; try done. cbn.
  eapply (records_settle c _ (evidence_id t) r); [done..| |done|exact Hbe]. by eapply rs_reconcile.
Qed.

Lemma resolve_effect c id resolver decision evidence now_ms c' res :
  cinv c → resolve_indeterminate_by c id resolver decision evidence now_ms = (c', Ok res) →
  effect c (CResolve id resolver decision evidence now_ms) c'.
Proof.
  intros Hc Hrun. pose proof (resolve_by_cinv _ _ _ _ _ _ _ _ Hc Hrun) as Hc'.
  assert (trim_is_empty evidence = false) as Hev.
  { unfold resolve_indeterminate_by in Hrun. by destruct (trim_is_empty evidence). }
  destruct res as [next x].
  apply resolve_by_Ok in Hrun as (r & q & a' & Hr & Hst & Hq & Hid & _ & Ha & _ & ->).
  rewrite activate_next_eq in *. apply resolve_Ok in Ha as (o & Ho & _ & _ & Hbe); [|apply Hc].
  rewrite (admitted_record c Hc _ _ Hr) in Ho. injection Ho as <-.
  eapply effect_release; try done. cbn.
  eapply (records_settle c _ id r); [done..| |by destruct decision|exact Hbe]. by eapply rs_resolve.
Qed.

Lemma attach_effect c id owner g x c' u :
  cinv c → attach_recoverable_result c id owner g x = (c', Ok u) →
  effect c (CAttach id owner g x) c'.
Proof.
  intros Hc Hrun. pose proof (attach_cinv _ _ _ _ _ _ _ Hc Hrun) as Hc'.
  apply attach_Ok in Hrun as (r & (Hr & Hf)%checked_Ok & Hx & Hn & _ & ->).
  apply effect_ledger; try done. cbn. eapply (records_put c); [done|]. by eapply rs_attach.
Qed.
End CallEffects.

Section RecoveryEffects.
Context `{HI : HashIter} `{RS : RecoverySerializer}.
Implicit Types (c : AuthoritativeOperationController) (id : string) (r : SafetyOperation).

Lemma became_unknown_records c c' id reason now_ms :
  became_unknown c c' id reason now_ms →
  ∃ r, c.(operations) !! id = Some r ∧
  r.(SafetyOperation.execution_lane) = OperationExecutionLane.Normal ∧
  on_device r.(SafetyOperation.state) = true ∧
  c'.(operations) !! id = Some (indeterminate_record r reason) ∧
  c'.(quarantines) = <[Ledger.device r := quarantine_of r reason now_ms]> c.(quarantines) ∧
  c'.(mutation_resume_barriers) = c.(mutation_resume_barriers) ∧
  c'.(recovery_archive) = c.(recovery_archive) ∧
  ∀ id', id' ≠ id →
    (id' ∈ queued_ids c (Ledger.device r) id ∧ c'.(operations) !! id' =
      (λ x, Ledger.settle x Cancelled ExecutionEvidence.CancelledBeforeDispatch now_ms)
        <$> c.(operations) !! id') ∨
    ((id' ∉ queued_ids c (Ledger.device r) id) ∧ c'.(operations) !! id' = c.(operations) !! id').
Proof.
  intros (r & a' & next & Hr & Hl & Hd & Hq & Ha & [_ Hops Hrest]). exists r.
  split_and!; [done..| | | | |].
  2-4: by rewrite Hrest.
  - rewrite Hops, decide_False by by intros [? _]%elem_of_queued_ids. cbn. apply lookup_insert_eq.
  - intros id' Hne. rewrite Hops. cbn. rewrite lookup_insert_ne by done. case_decide; auto.
Qed.

Lemma unknown_effect c k id reason now_ms c' next :
  cinv c →
  (∀ r, c.(operations) !! id = Some r → may_lose k id r reason) →
  (∀ id' r, r.(SafetyOperation.state) = Queued → may_cancel k id' r now_ms) →
  mark_indeterminate_internal c id reason now_ms = (c', Ok next) → effect c k c'.
Proof.
  intros Hc Hlose Hcancel Hrun. pose proof (mark_indeterminate_cinv _ _ _ _ _ _ Hc Hrun) as Hc'.
  destruct (mark_indeterminate_spec c id reason now_ms Hc) as [[e He]|(c1 & Hrun' & Hbecame)];
    [congruence|]. assert (c1 = c') as -> by congruence.
  destruct (became_unknown_records _ _ _ _ _ Hbecame)
    as (r & Hr & Hl & Hd & Hr' & Hq & Hb & Har & Hothers).
  assert (c.(quarantines) !! Ledger.device r = None) as Hfree.
  { destruct Hbecame as (r0 & _ & _ & Hr0 & _ & _ & H & _). by simplify_eq. }
  split; rewrite ?Hb; auto.
  - intros id'. destruct (decide (id' = id)) as [->|Hne].
    { rewrite Hr, Hr'. apply rs_unknown; auto. }
    destruct (Hothers id' Hne) as [[Hin ->]|[_ ->]]; [|constructor].
    apply elem_of_queued_ids in Hin as (_ & x & -> & _ & Hst). cbn.
    apply rs_cancel; auto.
  - rewrite Hq. intros d q [[<- <-]|[_ Hd']]%lookup_insert_Some; [|auto]. right.
    intros id' x Hx Hdev Hst. destruct (decide (id' = id)) as [->|Hne]; [simplify_eq/=|].
    destruct (Hothers id' Hne) as [[Hin Hx']|[Hnotin Hx']]; rewrite Hx' in Hx.
    + destruct (c.(operations) !! id'); simplify_eq/=.
    + apply Hnotin, elem_of_queued_ids. eauto.
  - intros d q Hd'. left. rewrite Hq, lookup_insert_ne; [done|]. intros <-. congruence.
Qed.

Lemma connection_lost_effect c id now_ms c' next :
  cinv c → mark_connection_lost c id now_ms = (c', Ok next) →
  effect c (CConnectionLost id now_ms) c'.
Proof.
  intros Hc. unfold mark_connection_lost. destruct (is_recovery_evidence_read c id).
  - destruct (mark_recovery_read_interrupted c id now_ms) as [c1 [[n y]|e']] eqn:Hrun; [|done].
    intros [= <- <-]. eapply interrupted_effect; [done| |done]. by right.
  - intros Hrun. by eapply unknown_effect.
Qed.

Lemma indeterminate_owned_effect c id owner g reason now_ms c' next :
  cinv c → mark_indeterminate_owned c id owner g reason now_ms = (c', Ok next) →
  effect c (CMarkIndeterminate id owner g reason now_ms) c'.
Proof.
  intros Hc. unfold mark_indeterminate_owned. destruct (checked c id owner g) as [r|] eqn:Hr; [|done].
  apply checked_Ok in Hr as (Hr & Hf). intros Hrun. eapply unknown_effect; [done| |done|done].
  intros r' Hr'. simplify_eq. done.
Qed.

Lemma retire_effect c k id tr c' res :
  cinv c → transition_of k = Some (id, tr) → releases_quarantine k id →
  perform c k = erase (retire_indeterminate_with_disposition c id tr) →
  (∀ id' r, r.(SafetyOperation.state) = Queued →
     may_cancel k id' r tr.(RetirementTransition.now_ms)) →
  retire_indeterminate_with_disposition c id tr = (c', Ok res) → effect c k c'.
Proof.
  intros Hc Htr Hrel Hperf Hcancel Hrun. rewrite Hrun in Hperf.
  destruct (retire_spec c id tr Hc) as [[e He]|[(c1 & He & _)|(c1 & next & t & Hrun' & Has)]];
    [congruence|congruence|]. assert (c1 = c') as -> by congruence.
  destruct Has as [(r & q & Hf & Hq & Hb & Hfree) Har Hc' _ Hrec]. split; auto.
  - intros x. destruct (Hrec x) as [Hm|(y & -> & Hst & -> & Hin)].
    + destruct Hm; [constructor|by apply rs_start|apply rs_cancel; auto].
    + apply rs_rotate; [by rewrite Htr|done|by rewrite Hperf].
  - rewrite Hq. intros d q' [_ H]%lookup_delete_Some. auto.
  - intros d q' Hd. rewrite Hq. destruct (decide (d = Ledger.device r)) as [->|Hne].
    + right. pose proof (rf_quarantine _ _ _ _ _ _ Hf). simplify_eq.
      by rewrite (rf_source _ _ _ _ _ _ Hf).
    + left. by rewrite lookup_delete_ne.
  - rewrite Hb. intros d b. destruct (requires_mutation_barrier t); [|auto].
    intros [[<- _]|[_ H]]%lookup_insert_Some; [|auto]. right.
    rewrite (rf_quarantine _ _ _ _ _ _ Hf). eauto.
  - rewrite Hb. intros d b Hd. left. destruct (requires_mutation_barrier t) eqn:Hreq; [|done].
    rewrite lookup_insert_ne; [done|]. intros <-. rewrite Hfree in Hd; done.
Qed.

Lemma retire_by_effect c id authority policy reason g now_ms c' res :
  cinv c → retire_indeterminate_by c id authority policy reason g now_ms = (c', Ok res) →
  effect c (CRetire id authority policy reason g now_ms) c'.
Proof.
  intros Hc. unfold retire_indeterminate_by. case_bool_decide as Ha; cbn; [|done]. intros Hrun.
  eapply retire_effect; [done|done|done| |done|exact Hrun].
  cbn. unfold retire_indeterminate_by. by rewrite bool_decide_true.
Qed.

Lemma accept_effect c id policy reason g now_ms c' res :
  cinv c → accept_current_state c id policy reason g now_ms = (c', Ok res) →
  effect c (CAccept id policy reason g now_ms) c'.
Proof. intros Hc Hrun. by eapply retire_effect. Qed.

Lemma resume_effect c d source authority g reason now_ms c' m :
  cinv c → resume_mutations c d source authority g reason now_ms = (c', Ok m) →
  effect c (CResume d source authority g reason now_ms) c'.
Proof.
  intros Hc Hrun. pose proof (resume_cinv _ _ _ _ _ _ _ _ _ Hc Hrun) as Hc'.
  apply resume_Ok in Hrun as (b & Hb & Hs & Ha & Hg & _ & _ & _ & ->). split; auto.
  - constructor.
  - cbn. intros d' b' [_ H]%lookup_delete_Some. auto.
  - intros d' b' Hd'. cbn. destruct (decide (d' = d)) as [->|Hne].
    + right. simplify_eq. done.
    + left. by rewrite lookup_delete_ne.
Qed.

Lemma prune_effect c d g c' n :
  cinv c → prune_terminal c d g = (c', Ok n) → effect c (CPrune d g) c'.
Proof.
  intros Hc Hrun. assert (trim_is_empty d || (g =? 0)%N = false) as Hguard.
  { unfold prune_terminal in Hrun. by destruct (trim_is_empty d || (g =? 0)%N). }
  destruct (prune_spec c d g Hc) as [[e He]|(c1 & n1 & Hrun' & Hp)]; [congruence|].
  assert (c1 = c') as -> by congruence. pose proof (pruned_cinv _ _ _ _ Hc Hguard Hp) as Hc'.
  destruct Hp as [Hops _ Hbound _ Hrest _].
  assert (c'.(quarantines) = c.(quarantines) ∧
    c'.(mutation_resume_barriers) = c.(mutation_resume_barriers)) as [Hq Hb] by by rewrite Hrest.
  split; rewrite ?Hq, ?Hb; auto. intros id. rewrite Hops.
  destruct (c.(operations) !! id) as [r|]; [|constructor].
  destruct (prunable_record d g r) eqn:Hpr; [by eapply rs_prune|constructor].
Qed.

(** Every successful call has its effect. *)
Lemma perform_effect c k c' u : cinv c → perform c k = (c', Ok u) → effect c k c'.
Proof.
  intros Hc. destruct k; cbn; try (intros [res Hrun]%erase_Ok || intros Hrun).
  - by eapply prepare_effect.
  - by eapply dispatch_effect.
  - by eapply cancel_effect.
  - by eapply finalize_effect.
  - by eapply non_delivery_effect.
  - eapply interrupted_effect; [done|by left|done].
  - by eapply indeterminate_owned_effect.
  - by eapply connection_lost_effect.
  - by eapply evidence_gap_effect.
  - by eapply operator_required_effect.
  - by eapply reconcile_effect.
  - by eapply resolve_effect.
  - by eapply retire_by_effect.
  - by eapply accept_effect.
  - by eapply resume_effect.
  - by eapply attach_effect.
  - by eapply prune_effect.
Qed.

(** The two ways a refused call leaves a trace: a queue entry without work, and a
    retirement that no rotation makes room for. *)
Definition queue_touched c c' (d : string) : Prop :=
  c' = set_admission c (set_queued c.(admission)
    (<[d := default [] (c.(admission).(queued_by_device) !! d)]>
       c.(admission).(queued_by_device))).

Definition history_overflow c' : Prop :=
  (MAX_RETIREMENT_RECORDS < vlen c'.(retirements))%N ∧
  ∀ t, t ∈ c'.(retirements) → barrier_source c' t = true.

Lemma retire_refused c id tr c' e :
  cinv c → retire_indeterminate_with_disposition c id tr = (c', Err e) →
  c' = c ∨ history_overflow c'.
Proof.
  intros Hc Hrun.
  destruct (retire_spec c id tr Hc) as [[e' He]|[(c1 & He & Hlen & Hall & _)|(c1 & next & t & Hrun' & _)]];
    [left; congruence| |congruence]. right. by assert (c1 = c') as <- by congruence.
Qed.

Lemma perform_refused c k c' e :
  cinv c → perform c k = (c', Err e) →
  c' = c ∨
  (∃ operation owner capability metadata now_ms,
     k = CPrepare operation owner capability metadata now_ms ∧
     e = ExecutionError.BackpressureRejected ∧
     queue_touched c c' operation.(OperationRef.device_id)) ∨
  (is_Some (transition_of k) ∧ history_overflow c').
Proof.
  intros Hc. destruct k; cbn; try (intros Hrun%erase_Err || intros Hrun).
  - destruct (prepare_Err _ _ _ _ _ _ _ _ Hrun) as [->|[-> Hc']]; [by left|]. right. left.
    by do 5 eexists.
  - left. by eapply dispatch_Err.
  - left. by eapply cancel_request_Err.
  - left. by eapply finalize_Err.
  - left. by eapply non_delivery_Err.
  - left. by eapply interrupted_Err.
  - left. by eapply indeterminate_owned_Err.
  - left. by eapply connection_lost_Err.
  - left. by eapply evidence_gap_Err.
  - left. by eapply operator_required_Err.
  - left. by eapply reconcile_terminal_Err.
  - left. by eapply resolve_by_Err.
  - unfold retire_indeterminate_by in Hrun. destruct (negb _); [left; congruence|].
    apply retire_refused in Hrun as [->|?]; eauto.
  - apply retire_refused in Hrun as [->|?]; eauto.
  - left. by eapply resume_Err.
  - left. by eapply attach_Err.
  - left. destruct (prune_spec c device_id current_generation Hc) as [[e' He]|(? & ? & ? & _)];
      congruence.
Qed.
End RecoveryEffects.
