(* ===== verification/ControllerRestart.v ===== *)
(** * The operation controller across a restart

    A restart of the Hub persists [snapshot_for_restart] and rebuilds the
    controller with [restore_after_restart]. Here: the controller a restart
    yields, that it satisfies the invariant, and exactly when the Hub's own
    snapshot restores. *)

From S2P Require Import Prelude Vocabulary Protocol Crypto Tombstone Admission.
From S2P Require Import AdmissionSafety AdmissionRestart AdmissionTheorems.
From S2P Require Import AdmissionEffects SafetyTypes Evidence Controller.
From S2P Require Import ControllerSnapshot ControllerLedger ControllerSafety.
From S2P Require Import ControllerRecovery ControllerRetirement.
Import HubOperationState Controller ControllerSnapshot.

Lemma if_iff {A} (b b' : bool) (x y : A) :
  (b = true ↔ b' = true) → (if b then x else y) = if b' then x else y.
Proof. intros H. by rewrite (proj2 (Bool.eq_iff_eq_true b b') H). Qed.

(** ** Rebuilding a map from its values *)

Section Rebuild.
Context {A : Type} (key : A → string).
Implicit Types (m : gmap string A) (l : list A).

Definition rebuild m l : gmap string A := foldl (λ m x, <[key x := x]> m) m l.

Lemma rebuild_lookup m l i x :
  NoDup (key <$> l) →
  rebuild m l !! i = Some x ↔ (x ∈ l ∧ key x = i) ∨ ((i ∉ key <$> l) ∧ m !! i = Some x).
Proof.
  revert m. induction l as [|y l IH]; intros m Hnd; cbn.
  { split; [intros H; right; split; [apply not_elem_of_nil|done]|].
    intros [[H _]|[_ H]]; [by apply elem_of_nil in H|done]. }
  cbn in Hnd. apply NoDup_cons in Hnd as [Hnotin Hnd]. fold (rebuild (<[key y := y]> m) l).
  rewrite (IH _ Hnd), lookup_insert_Some, elem_of_cons, not_elem_of_cons. split.
  - intros [[Hx Hi]|[Hi [[<- <-]|[Hne Hm]]]]; [left; auto|left; auto|right; auto].
  - intros [[[->|Hx] Hi]|[[Hne Hi] Hm]]; [right|left|right]; [|done|auto].
    subst i. auto.
Qed.

Lemma rebuild_values m l :
  (∀ i x, m !! i = Some x → key x = i) → l ≡ₚ (map_to_list m).*2 →
  rebuild ∅ l = m ∧ NoDup (key <$> l).
Proof.
  intros Hkey Hperm. assert (NoDup (key <$> l)) as Hnd.
  { rewrite Hperm, <- list_fmap_compose.
    rewrite (list_fmap_ext (key ∘ snd) fst); [apply NoDup_fst_map_to_list|].
    intros i [k x] Hi. cbn. apply Hkey. apply elem_of_map_to_list. by eapply list_elem_of_lookup_2. }
  split; [|done]. apply map_eq. intros i. apply option_eq. intros x.
  rewrite (rebuild_lookup ∅ l i x Hnd), lookup_empty, Hperm, list_elem_of_fmap. split.
  - intros [[([k y] & -> & Hin%elem_of_map_to_list) Hi]|[_ ?]]; [|done]. cbn in *.
    by rewrite <- Hi, (Hkey k y Hin).
  - intros Hx. left. split; [|by apply Hkey]. exists (i, x). split; [done|].
    by apply elem_of_map_to_list.
Qed.
End Rebuild.

(** ** The ledger after a restart *)

Section Records.
Import SafetyOperation.
Implicit Types (r : SafetyOperation).

Lemma restart_record_id r : Ledger.id (restart_record r) = Ledger.id r.
Proof.
  unfold restart_record. destruct r.(state); try done; by destruct (bool_decide _).
Qed.

Lemma restart_record_device r : Ledger.device (restart_record r) = Ledger.device r.
Proof.
  unfold restart_record. destruct r.(state); try done; by destruct (bool_decide _).
Qed.

(** What a restart makes of an operation that was on the device. *)
Lemma interrupted_restart_ok r now_ms :
  record_ok r → on_device r.(state) = true →
  r.(execution_lane) = OperationExecutionLane.RecoveryEvidenceRead →
  record_ok (Ledger.set_result (Ledger.settle (Ledger.set_reason r None) Failed
    ExecutionEvidence.RecoveryReadInterrupted now_ms) None).
Proof.
  intros Hr Hd Hl. assert (open_record r ∧ is_Some r.(dispatched_at_ms)) as [(_ & _ & _ & Hst) Hdisp].
  { destruct Hr as [_ Hs _]. unfold state_ok in Hs. by destruct r.(state). }
  destruct Hr as [[] _ _]. split; [by split| |done].
  unfold state_ok. cbn. split; [done|]. eexists. split; [done|]. by split_and!.
Qed.

Lemma restart_record_on_device r :
  record_ok r → on_device r.(state) = true →
  restart_record r =
    if bool_decide (r.(execution_lane) = OperationExecutionLane.RecoveryEvidenceRead)
    then Ledger.set_result (Ledger.settle (Ledger.set_reason r None) Failed
           ExecutionEvidence.RecoveryReadInterrupted
           (default r.(prepared_at_ms) r.(dispatched_at_ms))) None
    else indeterminate_record r IndeterminateReason.HubRestartAfterDispatch.
Proof.
  intros Hr Hd. assert (r.(reconciliation_status) = None) as Hs.
  { destruct Hr as [_ Hs _]. unfold state_ok, open_record in Hs. destruct r.(state); naive_solver. }
  unfold restart_record, indeterminate_record. rewrite Hs. by destruct r.(state).
Qed.

Lemma restart_record_unknown r :
  record_ok r → r.(state) = Indeterminate → restart_record r = r.
Proof.
  intros [_ Hs _] Hst. unfold restart_record. rewrite Hst.
  unfold state_ok in Hs. rewrite Hst in Hs. destruct Hs as (_ & _ & _ & _ & _ & status & Hstat & _).
  destruct r. cbn in *. by subst.
Qed.

Lemma restart_record_undispatched r :
  record_ok r → r.(state) = Queued ∨ r.(state) = ActiveNotDispatched →
  restart_record r = Ledger.settle r Cancelled ExecutionEvidence.CancelledBeforeDispatch
                       r.(prepared_at_ms).
Proof.
  intros Hr Hst. destruct (unsettled_open r Hr) as (_ & _ & Hres & _); [by destruct Hst as [->| ->]|].
  unfold restart_record. destruct r. cbn in *. subst. by destruct Hst as [->| ->].
Qed.

Lemma restart_record_settled r : settled r.(state) = true → restart_record r = r.
Proof. unfold restart_record. by destruct r.(state). Qed.

(** The cases of a restart. *)
Lemma restart_cases r :
  r.(state) = Queued ∨ r.(state) = ActiveNotDispatched ∨ on_device r.(state) = true ∨
  r.(state) = Indeterminate ∨ settled r.(state) = true.
Proof. destruct r.(state); auto. Qed.

Lemma restart_record_ok r : record_ok r → record_ok (restart_record r).
Proof.
  intros Hr. destruct (restart_cases r) as [Hst|[Hst|[Hd|[Hst|Hst]]]].
  - rewrite restart_record_undispatched by auto. apply cancelled_ok; auto.
  - rewrite restart_record_undispatched by auto. apply cancelled_ok; auto.
  - rewrite restart_record_on_device by done. case_bool_decide as Hl.
    + by apply interrupted_restart_ok.
    + apply indeterminate_ok; [done..|]. by destruct r.(execution_lane).
  - by rewrite restart_record_unknown.
  - by rewrite restart_record_settled.
Qed.
End Records.

(** ** The quarantines after a restart *)

Section Quarantines.
Implicit Types (r : SafetyOperation) (l : list SafetyOperation) (d : string).

Lemma restart_quarantine_Some r q :
  restart_quarantine r = Some q ↔
  on_device r.(SafetyOperation.state) = true ∧
  r.(SafetyOperation.execution_lane) = OperationExecutionLane.Normal ∧
  q = quarantine_of r IndeterminateReason.HubRestartAfterDispatch
        (default r.(SafetyOperation.prepared_at_ms) r.(SafetyOperation.dispatched_at_ms)).
Proof.
  unfold restart_quarantine. destruct (on_device _); cbn; [|naive_solver].
  case_bool_decide as Hl; cbn; [naive_solver congruence|].
  split; [intros [= <-]|intros (_ & _ & ->)]; [|done]. split_and!; [done| |done].
  by destruct r.(SafetyOperation.execution_lane).
Qed.

Lemma restart_quarantines_lookup l (qs : gmap string DesktopQuarantine) d q :
  (∀ r r', r ∈ l → r' ∈ l → is_Some (restart_quarantine r) → is_Some (restart_quarantine r') →
     Ledger.device r = Ledger.device r' → r = r') →
  (∀ r, r ∈ l → is_Some (restart_quarantine r) → qs !! Ledger.device r = None) →
  restart_quarantines l qs !! d = Some q ↔
  qs !! d = Some q ∨ ∃ r, r ∈ l ∧ restart_quarantine r = Some q ∧ Ledger.device r = d.
Proof.
  unfold restart_quarantines. induction l as [|r l IH] using rev_ind; intros Huniq Hfree; cbn.
  { split; [by left|]. intros [H|(r & Hr & _)]; [done|by apply elem_of_nil in Hr]. }
  rewrite foldl_snoc. destruct (restart_quarantine r) as [x|] eqn:Hx.
  - rewrite lookup_insert_Some, IH; [|intros; apply Huniq; set_solver|intros; apply Hfree; set_solver].
    split.
    + intros [[<- <-]|[Hne [H|(r' & Hr' & Hq & Hd)]]]; [right; exists r; set_solver|by left|].
      right. exists r'. set_solver.
    + intros [H|(r' & Hr' & Hq & Hd)].
      * right. split; [|by left]. intros <-. rewrite Hfree in H; [done|set_solver|by rewrite Hx].
      * apply elem_of_app in Hr' as [Hr'| ->%list_elem_of_singleton]; [|left; by simplify_eq].
        destruct (decide (Ledger.device r = d)) as [Heq|Hne]; [|right; eauto 10].
        left. assert (r' = r) as ->; [|by simplify_eq].
        apply Huniq; [set_solver..| | |congruence]; [by rewrite Hq|by rewrite Hx].
  - rewrite IH; [|intros; apply Huniq; set_solver|intros; apply Hfree; set_solver].
    split; (intros [H|(r' & Hr' & Hq & Hd)]; [by left|right; exists r']); [set_solver|].
    apply elem_of_app in Hr' as [Hr'| ->%list_elem_of_singleton]; [done|congruence].
Qed.
End Quarantines.

(** ** The controller after a restart *)

Section Restarted.
Context `{HI : HashIter}.
Implicit Types (c : AuthoritativeOperationController) (r : SafetyOperation).

Definition restarted_quarantines c : gmap string DesktopQuarantine :=
  restart_quarantines (hash_iter c.(operations)).*2 c.(quarantines).

Definition restarted_controller c (l : AdmissionLimits) : AuthoritativeOperationController :=
  mk_controller (restarted c.(admission) l) (restart_record <$> c.(operations))
    c.(recovery_archive) (restarted_quarantines c) c.(resolutions) c.(auto_resolutions)
    c.(retirements) c.(mutation_resume_barriers) (merge_sort resume_le c.(mutation_resumes)).

Lemma elem_of_records c r :
  r ∈ (hash_iter c.(operations)).*2 ↔ ∃ id, c.(operations) !! id = Some r.
Proof.
  rewrite list_elem_of_fmap. split.
  - intros ([id x] & -> & Hin%elem_of_hash_iter). by exists id.
  - intros [id Hr]. exists (id, r). split; [done|]. by apply elem_of_hash_iter.
Qed.

Lemma live_unique c id id' r r' :
  cinv c → c.(operations) !! id = Some r → c.(operations) !! id' = Some r' →
  live r.(SafetyOperation.state) = true → live r'.(SafetyOperation.state) = true →
  Ledger.device r = Ledger.device r' → id = id'.
Proof.
  intros Hc Hr Hr' Hl Hl' Hd.
  pose proof (occ_active _ _ _ _ _ _ (inv_occupancy _ (ci_admission _ Hc)) (Ledger.device r)) as Hact.
  assert (c.(admission).(active_by_device) !! Ledger.device r = Some id) as H1.
  { apply Hact. eexists. split_and!; [by apply (admitted_record c Hc)|done|done]. }
  assert (c.(admission).(active_by_device) !! Ledger.device r = Some id') as H2.
  { apply Hact. eexists. split_and!; [by apply (admitted_record c Hc)|done|done]. }
  congruence.
Qed.

Lemma running_unquarantined c id r :
  cinv c → c.(operations) !! id = Some r → live r.(SafetyOperation.state) = true →
  r.(SafetyOperation.execution_lane) = OperationExecutionLane.Normal →
  c.(quarantines) !! Ledger.device r = None.
Proof.
  intros Hc Hr Hlive Hl. destruct (c.(quarantines) !! Ledger.device r) as [q|] eqn:Hq; [|done].
  exfalso. pose proof (inv_occupancy _ (ci_admission _ Hc)) as Hocc.
  assert (id ∈ c.(admission).(recovery_read_only_operations)) as Hin.
  { eapply (occ_exclusive _ _ _ _ _ _ Hocc).
    - rewrite <- (ci_blocked _ Hc), lookup_fmap, Hq. done.
    - apply (occ_active _ _ _ _ _ _ Hocc). eexists. split_and!; [by apply (admitted_record c Hc)|done|done]. }
  apply (ci_lanes _ Hc id r Hr) in Hin; [congruence|]. by destruct r.(SafetyOperation.state).
Qed.

Lemma restarted_quarantines_lookup c d q :
  cinv c →
  restarted_quarantines c !! d = Some q ↔
  c.(quarantines) !! d = Some q ∨
  ∃ id r, c.(operations) !! id = Some r ∧ restart_quarantine r = Some q ∧ Ledger.device r = d.
Proof.
  intros Hc. unfold restarted_quarantines. rewrite restart_quarantines_lookup.
  - setoid_rewrite elem_of_records. naive_solver.
  - intros r r' [id Hr]%elem_of_records [id' Hr']%elem_of_records [q1 H1] [q2 H2] Hd.
    apply restart_quarantine_Some in H1 as (H1 & _), H2 as (H2 & _).
    assert (id = id') as <- by (eapply live_unique; eauto using on_device_live). congruence.
  - intros r [id Hr]%elem_of_records [q1 (H1 & Hl & _)%restart_quarantine_Some].
    eapply running_unquarantined; eauto using on_device_live.
Qed.

(** *** The invariant *)

Lemma restart_view c id r :
  cinv c → c.(operations) !! id = Some r →
  admitted_view (restart_record r) = snapshot_operation c.(admission) (admitted_view r).
Proof.
  intros Hc Hr. pose proof (ci_ledger _ Hc id r Hr) as Hok. pose proof (record_key c Hc id r Hr) as Hid.
  assert (on_device r.(SafetyOperation.state) = true →
    is_recovery_read_only c.(admission) id
    = bool_decide (r.(SafetyOperation.execution_lane) = OperationExecutionLane.RecoveryEvidenceRead))
    as Hlane.
  { intros Hd. unfold is_recovery_read_only. apply bool_decide_ext. symmetry.
    by apply (ci_lanes _ Hc id r Hr), on_device_unsettled. }
  unfold snapshot_operation. cbn. unfold Ledger.id in Hid. rewrite Hid.
  unfold admitted_view, restart_record.
  destruct r.(SafetyOperation.state) eqn:Hst; cbn; try by rewrite Hst.
  all: try done; rewrite Hlane by done; by destruct (bool_decide _).
Qed.

Lemma restarted_view c :
  cinv c → view (restart_record <$> c.(operations))
           = snapshot_operation c.(admission) <$> c.(admission).(Admission.operations).
Proof.
  intros Hc. rewrite <- (ci_view _ Hc). apply map_eq. intros id. unfold view.
  rewrite !lookup_fmap. destruct (c.(operations) !! id) as [r|] eqn:Hr; [|done]. cbn. f_equal.
  by eapply restart_view.
Qed.

Lemma restart_record_state r :
  persistable (restart_record r).(SafetyOperation.state) = true.
Proof.
  unfold restart_record. destruct r.(SafetyOperation.state) eqn:Hst; cbn; try done;
    try (by rewrite Hst); by destruct (bool_decide _).
Qed.

(** A quarantine added by the restart is about its record. *)
Lemma restarted_quarantined_by c id r q :
  cinv c → c.(operations) !! id = Some r → restart_quarantine r = Some q →
  quarantined_by (restart_record <$> c.(operations)) (Ledger.device r) q (restart_record r) ∧
  q.(DesktopQuarantine.operation_id) = id.
Proof.
  intros Hc Hr (Hd & Hl & ->)%restart_quarantine_Some.
  pose proof (record_key c Hc id r Hr) as Hid. split; [|done].
  rewrite (restart_record_on_device r (ci_ledger _ Hc id r Hr) Hd), bool_decide_false by by rewrite Hl.
  split_and!; [|done..]. cbn. rewrite Hid, lookup_fmap, Hr. cbn. f_equal.
  by rewrite (restart_record_on_device r (ci_ledger _ Hc id r Hr) Hd), bool_decide_false by by rewrite Hl.
Qed.

Lemma restarted_quarantines_ok c :
  cinv c → quarantines_ok (restart_record <$> c.(operations)) (restarted_quarantines c).
Proof.
  intros Hc d q [Hq|(id & r & Hr & Hx & <-)]%restarted_quarantines_lookup; [| |done].
  - destruct (ci_quarantines _ Hc d q Hq) as (r & Hr & Hst & Hrest). exists r.
    split_and!; [|done|apply Hrest..]. rewrite lookup_fmap, Hr. cbn. f_equal.
    apply restart_record_unknown; [by eapply (ci_ledger _ Hc)|done].
  - exists (restart_record r). by eapply restarted_quarantined_by.
Qed.

Lemma restarted_blocked c :
  cinv c → DesktopQuarantine.operation_id <$> restarted_quarantines c = restart_blocked c.(admission).
Proof.
  intros Hc. apply map_eq. intros d. apply option_eq. intros id.
  rewrite (restart_blocked_spec _ d id (ci_admission _ Hc)), lookup_fmap_Some. split.
  - intros (q & <- & Hq). pose proof Hq as Hq'.
    destruct (restarted_quarantines_ok c Hc d q Hq) as (r & Hr & Hst & Hd & _).
    split.
    + exists (admitted_view r). rewrite <- restarted_view, view_lookup, Hr by done. done.
    + apply restarted_quarantines_lookup in Hq' as [Hq'|(id & x & Hx & Hrq & _)]; [| |done].
      * by apply (quarantine_unretired c Hc d q).
      * destruct (restarted_quarantined_by c id x q Hc Hx Hrq) as [_ ->]. intros Hret.
        apply restart_quarantine_Some in Hrq as (Hod & Hl & _).
        assert (id ∈ c.(admission).(recovery_read_only_operations)) as Hin.
        { eapply (occ_fresh _ _ _ _ _ _ (inv_occupancy _ (ci_admission _ Hc)));
            [by apply (admitted_record c Hc)|done|right; by apply on_device_live]. }
        apply (ci_lanes _ Hc id x Hx) in Hin; [congruence|by apply on_device_unsettled].
  - intros [(o & Ho & Hd & Hst) Hnr]. rewrite <- restarted_view, view_lookup in Ho by done.
    rewrite lookup_fmap in Ho. destruct (c.(operations) !! id) as [r|] eqn:Hr; [|done].
    cbn in Ho. injection Ho as <-. change (Ledger.device (restart_record r) = d) in Hd.
    change ((restart_record r).(SafetyOperation.state) = Indeterminate) in Hst. rewrite restart_record_device in Hd. pose proof (ci_ledger _ Hc id r Hr) as Hok.
    destruct (restart_cases r) as [H|[H|[H|[H|H]]]].
    + rewrite restart_record_undispatched in Hst by auto. done.
    + rewrite restart_record_undispatched in Hst by auto. done.
    + rewrite restart_record_on_device in Hst by done. case_bool_decide as Hl; [done|].
      eexists. rewrite restarted_quarantines_lookup by done. split.
      2:{ right. exists id, r. split_and!; [done| |done]. apply restart_quarantine_Some.
          split_and!; [done|by destruct r.(SafetyOperation.execution_lane)|done]. }
      exact (record_key c Hc id r Hr).
    + assert (c.(admission).(blocked_by_indeterminate) !! d = Some id) as Hb.
      { apply (occ_blocked _ _ _ _ _ _ (inv_occupancy _ (ci_admission _ Hc))). split; [|done].
        eexists. split_and!; [by apply (admitted_record c Hc)|done|done]. }
      rewrite <- (ci_blocked _ Hc), lookup_fmap in Hb.
      destruct (c.(quarantines) !! d) as [q|] eqn:Hq; [|done]. exists q. split; [by injection Hb|].
      apply restarted_quarantines_lookup; auto.
    + rewrite restart_record_settled in Hst by done. rewrite Hst in H. done.
Qed.
Lemma barriers_ok_resumes ts bs ms ms' :
  ms' ≡ₚ ms → barriers_ok ts bs ms → barriers_ok ts bs ms'.
Proof.
  intros Hp [H1 H2 H3 H4 H5]. split; [done| |by rewrite Hp| |].
  - intros m Hm. apply H2. by rewrite <- Hp.
  - intros d b m Hb Hm. eapply H4; [done|]. by rewrite <- Hp.
  - intros t Ht Hpol. destruct (H5 t Ht Hpol) as [?|(m & Hm & ?)]; [by left|right].
    exists m. by rewrite Hp.
Qed.

Lemma restarted_cinv `{B64 : Base64Url, B64L : !Base64UrlLaws} c l :
  cinv c → (0 < l.(max_global_active))%N → cinv (restarted_controller c l).
Proof.
  intros Hc Hl. split; cbn; try apply Hc.
  - apply restarted_inv; [apply Hc|done].
  - by apply restarted_view.
  - by apply restarted_blocked.
  - intros id r (r0 & <- & Hr0)%lookup_fmap_Some. apply restart_record_ok. by eapply (ci_ledger _ Hc).
  - intros id r (r0 & <- & _)%lookup_fmap_Some Hu. pose proof (restart_record_state r0) as Hp.
    by destruct (restart_record r0).(SafetyOperation.state).
  - by apply restarted_quarantines_ok.
  - eapply archive_mono; [apply Hc|]. intros id Hn _. by rewrite lookup_fmap, Hn.
  - eapply (retirements_mono c.(operations)); [apply Hc|done|].
    intros id r Hr Hst _. exists r. split; [|apply same_unknown_refl].
    rewrite lookup_fmap, Hr. cbn. f_equal.
    apply restart_record_unknown; [by eapply (ci_ledger _ Hc)|done].
  - eapply barriers_ok_resumes; [apply merge_sort_Permutation|apply Hc].
  - rewrite (vlen_perm _ _ (merge_sort_Permutation resume_le c.(mutation_resumes))). apply Hc.
Qed.
End Restarted.

(** ** The phases of a restore *)

Section Phases.
Context `{HI : HashIter}.
Implicit Types (c : AuthoritativeOperationController) (r : SafetyOperation).

Lemma hash_values {A} (m : gmap string A) : (hash_iter m).*2 ≡ₚ (map_to_list m).*2.
Proof. by rewrite hash_iter_perm. Qed.

Lemma sorted_values {A} (R : relation A) `{!RelDecision R} (m : gmap string A) :
  merge_sort R (hash_iter m).*2 ≡ₚ (map_to_list m).*2.
Proof. rewrite merge_sort_Permutation. apply hash_values. Qed.

Lemma sorted_mapped {A B} (f : A → B) (R : relation B) `{!RelDecision R} (m : gmap string A) :
  merge_sort R (f <$> (hash_iter m).*2) ≡ₚ (map_to_list (f <$> m)).*2.
Proof.
  rewrite merge_sort_Permutation, hash_values, map_to_list_fmap, <- !list_fmap_compose. done.
Qed.

Lemma elem_of_values {A} (m : gmap string A) l x :
  l ≡ₚ (map_to_list m).*2 → x ∈ l ↔ ∃ i, m !! i = Some x.
Proof.
  intros ->. rewrite list_elem_of_fmap. split.
  - intros ([i y] & -> & Hin%elem_of_map_to_list). eauto.
  - intros [i Hi%elem_of_map_to_list]. by exists (i, x).
Qed.

Lemma restore_ledger_spec l ops :
  NoDup (Ledger.id <$> l) → (∀ r, r ∈ l → ops !! Ledger.id r = None) →
  restore_ledger l ops =
    if forallb (λ r, negb (invalid_record r)) l then Ok (rebuild Ledger.id ops l)
    else Err ExecutionError.InvalidSnapshot.
Proof.
  revert ops. induction l as [|r l IH]; intros ops Hnd Hnew; [done|].
  cbn in Hnd. apply NoDup_cons in Hnd as [Hnotin Hnd]. cbn [restore_ledger forallb].
  rewrite (bool_decide_false (is_Some _)) by by rewrite (Hnew r) by set_solver.
  destruct (invalid_record r); [done|]. cbn. apply IH; [done|].
  intros x Hx. rewrite lookup_insert_ne; [apply Hnew; set_solver|]. intros Heq. apply Hnotin.
  rewrite Heq. by apply list_elem_of_fmap_2.
Qed.

Lemma restore_archive_spec ops l archive :
  NoDup (archived_id <$> l) →
  (∀ a, a ∈ l → valid_archived a = true ∧ ops !! archived_id a = None ∧
                archive !! archived_id a = None) →
  restore_archive ops l archive = Ok (rebuild archived_id archive l).
Proof.
  revert archive. induction l as [|a l IH]; intros archive Hnd Hok; [done|].
  cbn in Hnd. apply NoDup_cons in Hnd as [Hnotin Hnd]. cbn [restore_archive].
  destruct (Hok a) as (-> & -> & ->); [set_solver|]. rewrite bool_decide_false by done. cbn.
  apply IH; [done|]. intros x Hx. destruct (Hok x) as (Hv & Ho & Ha); [set_solver|].
  split_and!; [done..|]. rewrite lookup_insert_ne; [done|]. intros Heq. apply Hnotin.
  rewrite Heq. by apply list_elem_of_fmap_2.
Qed.

Lemma restore_quarantines_spec ops l qs :
  NoDup (DesktopQuarantine.device_id <$> l) →
  (∀ q, q ∈ l → (∃ r, quarantined_by ops q.(DesktopQuarantine.device_id) q r) ∧
                qs !! q.(DesktopQuarantine.device_id) = None) →
  restore_quarantines ops l qs = Ok (rebuild DesktopQuarantine.device_id qs l).
Proof.
  revert qs. induction l as [|q l IH]; intros qs Hnd Hok; [done|].
  cbn in Hnd. apply NoDup_cons in Hnd as [Hnotin Hnd]. cbn [restore_quarantines].
  destruct (Hok q) as [(r & Hr & Hst & Hd & _ & Hq) Hn]; [set_solver|]. rewrite Hr, Hn.
  rewrite !(bool_decide_true (r.(SafetyOperation.state) = _)), (bool_decide_true (_ = _ :> string)),
    (bool_decide_false (is_Some _)) by done.
  assert (q.(DesktopQuarantine.device_generation) = Ledger.generation r ∧
    q.(DesktopQuarantine.owner) = r.(SafetyOperation.owner)) as [-> ->] by by rewrite Hq.
  rewrite N.eqb_refl, bool_decide_true by done. cbn. apply IH; [done|].
  intros x Hx. destruct (Hok x) as [Hby Hx']; [set_solver|]. split; [done|].
  rewrite lookup_insert_ne; [done|]. intros Heq. apply Hnotin. rewrite Heq.
  by apply list_elem_of_fmap_2.
Qed.
End Phases.

(** ** Which records a restore accepts *)

Section Validity.
Import SafetyOperation.
Implicit Types (r : SafetyOperation).

(** A recovery read that was dispatched with a binding. *)
Definition bound_recovery_read r : bool :=
  bool_decide (r.(execution_lane) = OperationExecutionLane.RecoveryEvidenceRead)
  && opt_some r.(dispatch_binding).

Lemma validate_metadata_ok m cap :
  validate_metadata m cap = Ok tt →
  validate_audit m.(OperationAdmissionMetadata.audit) = Ok tt ∧
  validate_some validate_fingerprint m.(OperationAdmissionMetadata.request_fingerprint) = Ok tt ∧
  validate_some (λ e, validate_envelope e cap) m.(OperationAdmissionMetadata.evidence_envelope)
    = Ok tt ∧
  Evidence.recovery_target_required cap && opt_none m.(OperationAdmissionMetadata.recovery_target) = false ∧
  validate_some (λ t, validate_recovery_target t cap)
    m.(OperationAdmissionMetadata.recovery_target) = Ok tt ∧
  validate_some (λ s, validate_constraint_for_capability s cap)
    m.(OperationAdmissionMetadata.semantic_constraint) = Ok tt.
Proof.
  unfold validate_metadata. intros H.
  destruct (validate_audit _) as [[]|]; [|done]. destruct (validate_some validate_fingerprint _) as [[]|];
    [|done].
  destruct (validate_some (λ v, validate_envelope v cap) _) as [[]|]; [|done].
  destruct (_ && _); [done|]. by destruct (validate_some (λ t, validate_recovery_target t cap) _) as [[]|].
Qed.

(** A target is admitted only with the capabilities that require one. *)
Lemma target_required t cap : validate_recovery_target t cap = Ok tt → Evidence.recovery_target_required cap = true.
Proof.
  destruct t; cbn; rewrite check_ok; unfold invalid_launch; intros H.
  all: case_bool_decide as Hc; [by rewrite Hc|done].
Qed.

Lemma valid_results r :
  record_ok r → persistable r.(state) = true →
  is_some_and (λ x, opt_none r.(receipt) || negb (result_valid_for x r.(capability) r.(state)))
    r.(recoverable_result) = false ∧
  bool_decide (r.(state) = Indeterminate) && opt_some r.(recoverable_result) = false.
Proof.
  intros [_ Hs Hres] Hp. unfold state_ok in Hs.
  destruct r.(recoverable_result) as [x|] eqn:Hx; [|by rewrite andb_false_r].
  cbn. rewrite (Hres x eq_refl). cbn. rewrite orb_false_r.
  destruct r.(state); try done; [destruct Hs as (_ & y & -> & _); done..|].
  by destruct Hs as (_ & _ & _ & Hn & _).
Qed.

Lemma valid_statuses r :
  record_ok r → persistable r.(state) = true →
  valid_reconciliation_state r.(state) r.(reconciliation_status) r.(dispatch_binding) = true.
Proof.
  intros [_ Hs _] Hp. unfold state_ok in Hs. destruct r.(state) eqn:Hst; try done.
  4:{ destruct Hs as (_ & _ & _ & _ & _ & status & -> & Hne & Hb). cbn.
      destruct status; [|done..|done]. destruct Hb as [b ->]; done. }
  all: destruct Hs as (_ & x & _ & _ & Hj); unfold justified, agent_reported in Hj; cbn;
    destruct x.(ExecutionReceipt.evidence); destruct_and?; destruct_or?; destruct_and?;
    repeat match goal with H : reconciliation_status _ = _ |- _ => rewrite H; clear H end;
    try done; match goal with H : is_Some (dispatch_binding _) |- _ => by destruct H as [? ->] end.
Qed.

Lemma valid_lane r :
  record_ok r → persistable r.(state) = true → lane_violation r = bound_recovery_read r.
Proof.
  intros [[_ _ Hl _] Hs _] Hp. unfold lane_violation, bound_recovery_read.
  case_bool_decide as Hlane; [|done]. rewrite (Hl Hlane). cbn. unfold state_ok in Hs.
  assert (r.(state) ≠ Indeterminate ∧ r.(reconciliation_status) = None) as [Hst ->].
  { destruct r.(state); try done; [..|naive_solver congruence]; split; try done;
      destruct Hs as (_ & x & _ & _ & Hj); unfold justified, agent_reported in Hj;
      destruct x.(ExecutionReceipt.evidence); naive_solver congruence. }
  rewrite bool_decide_false by done. by rewrite orb_false_r.
Qed.

Lemma valid_receipts r :
  record_ok r → persistable r.(state) = true → is_some_and (receipt_misplaced r) r.(receipt) = false.
Proof.
  intros [_ Hs _] Hp. unfold state_ok in Hs. destruct r.(state) eqn:Hst; try done.
  4:{ destruct Hs as (_ & _ & -> & _). done. }
  all: destruct Hs as (_ & x & -> & _ & Hj); cbn; unfold receipt_misplaced, justified in *;
    rewrite Hst in *; destruct x.(ExecutionReceipt.evidence); cbn; try done; destruct_and?; try done;
    repeat match goal with H : execution_lane _ = _ |- _ => rewrite H; clear H
           | H : reconciliation_status _ = _ |- _ => rewrite H; clear H end; try done;
    match goal with H : is_Some (dispatch_binding _) |- _ => by destruct H as [? ->] end.
Qed.

(** Of a record that satisfies the invariant, the lane is all there is to check. *)
Lemma record_valid r :
  record_ok r → persistable r.(state) = true → invalid_record r = bound_recovery_read r.
Proof.
  intros Hr Hp. destruct (valid_results r Hr Hp) as [R1 R2].
  pose proof (valid_statuses r Hr Hp) as R3. pose proof (valid_lane r Hr Hp) as R4.
  pose proof (valid_receipts r Hr Hp) as R5. destruct Hr as [[Hm Ht _ Hb] _ _].
  apply validate_metadata_ok in Hm as (H1 & H2 & H3 & H4 & H5 & H6). cbn in *.
  assert (opt_some r.(recovery_target) && negb r.(recovery_target_required) = false) as H7.
  { destruct r.(recovery_target) as [t|]; [|done]. cbn in *. rewrite Ht.
    by rewrite (target_required t _ H5). }
  unfold invalid_record. rewrite Hp, R1, R2, R3, R4, R5, H1, H2, H3, H5, H6, H7, Hb, Ht, H4.
  cbn. by rewrite orb_false_r.
Qed.

Lemma restart_valid r : record_ok r → invalid_record (restart_record r) = bound_recovery_read r.
Proof.
  intros Hr. rewrite record_valid; [|by apply restart_record_ok|apply restart_record_state].
  assert ((restart_record r).(execution_lane) = r.(execution_lane) ∧
    (restart_record r).(dispatch_binding) = r.(dispatch_binding)) as [H1 H2].
  { unfold restart_record. destruct r.(state); try done; by destruct (bool_decide _). }
  unfold bound_recovery_read. by rewrite H1, H2.
Qed.
End Validity.

(** ** Retirements, barriers and resumes *)

Section History.
Implicit Types (s : AuthoritativeSafetySnapshot) (t : RetirementRecord)
  (b : MutationResumeBarrier) (m : MutationResumeRecord) (ids : gset string).

Lemma check_retirements_spec s ops qs l ids :
  NoDup (retired_id <$> l) → (∀ t, t ∈ l → retired_id t ∉ ids) →
  check_retirements s ops qs l ids =
    if forallb (λ t, negb (retirement_conflicts s t) && negb (retirement_mismatch ops qs t)) l
    then Ok (list_to_set (retired_id <$> l) ∪ ids) else Err ExecutionError.InvalidSnapshot.
Proof.
  revert ids. induction l as [|t l IH]; intros ids Hnd Hnew; cbn [check_retirements forallb fmap list_fmap].
  { f_equal. set_solver. }
  cbn in Hnd. apply NoDup_cons in Hnd as [Hnotin Hnd].
  rewrite bool_decide_false by (apply Hnew; by left). cbn [orb].
  destruct (retirement_conflicts s t); [done|]. destruct (retirement_mismatch ops qs t); [done|].
  cbn [negb andb]. rewrite IH; [|done|].
  - destruct (forallb _ _); [|done]. f_equal. set_solver.
  - intros x Hx. apply not_elem_of_union. split; [|apply Hnew; by right].
    intros Heq%elem_of_singleton. apply Hnotin. rewrite <- Heq. by apply list_elem_of_fmap_2.
Qed.

Definition barrier_accepted s (qs : gmap string DesktopQuarantine) b : bool :=
  valid_barrier b
  && existsb (barrier_retirement b) s.(AuthoritativeSafetySnapshot.retirements)
  && negb (bool_decide (is_Some (qs !! b.(MutationResumeBarrier.device_id)))).

Lemma restore_barriers_spec s qs l bs ids :
  NoDup (MutationResumeBarrier.device_id <$> l) →
  NoDup (MutationResumeBarrier.source_operation_id <$> l) →
  (∀ b, b ∈ l → bs !! b.(MutationResumeBarrier.device_id) = None ∧
                (b.(MutationResumeBarrier.source_operation_id) ∉ ids)) →
  restore_barriers s qs l bs ids =
    if forallb (barrier_accepted s qs) l
    then Ok (rebuild MutationResumeBarrier.device_id bs l,
             list_to_set (MutationResumeBarrier.source_operation_id <$> l) ∪ ids)
    else Err ExecutionError.InvalidSnapshot.
Proof.
  revert bs ids. induction l as [|b l IH]; intros bs ids Hd Hs Hnew;
    cbn [restore_barriers forallb fmap list_fmap].
  { f_equal. f_equal. set_solver. }
  cbn in Hd, Hs. apply NoDup_cons in Hd as [Hd1 Hd], Hs as [Hs1 Hs].
  destruct (Hnew b) as [Hb Hi]; [by left|]. unfold barrier_accepted at 1. rewrite Hb.
  rewrite (bool_decide_false (_ ∈ ids)), (bool_decide_false (is_Some None)) by done.
  destruct (valid_barrier b); [|done]. destruct (existsb _ _); [|done].
  destruct (bool_decide (is_Some (qs !! _))); [done|]. cbn [negb andb orb]. rewrite IH; [|done|done|].
  - destruct (forallb _ _); [|done]. cbn. f_equal. f_equal. set_solver.
  - intros x Hx. destruct (Hnew x) as [Hx1 Hx2]; [by right|]. split.
    + rewrite lookup_insert_ne; [done|]. intros Heq. apply Hd1. rewrite Heq. by apply list_elem_of_fmap_2.
    + apply not_elem_of_union. split; [|done]. intros Heq%elem_of_singleton. apply Hs1.
      rewrite <- Heq. by apply (list_elem_of_fmap_2 MutationResumeBarrier.source_operation_id).
Qed.

Lemma check_resumes_spec s sources l ids :
  NoDup (resume_source <$> l) →
  (∀ m, m ∈ l → valid_resume m = true ∧
     existsb (accepted_retirement (resume_source m) m.(MutationResumeRecord.device_id)
       m.(MutationResumeRecord.accepted_generation) m.(MutationResumeRecord.policy))
       s.(AuthoritativeSafetySnapshot.retirements) = true ∧
     (resume_source m ∉ sources) ∧ (resume_source m ∉ ids)) →
  check_resumes s sources l ids = Ok (list_to_set (resume_source <$> l) ∪ ids).
Proof.
  revert ids. induction l as [|m l IH]; intros ids Hnd Hok; cbn [check_resumes fmap list_fmap].
  { f_equal. set_solver. }
  cbn in Hnd. apply NoDup_cons in Hnd as [Hnotin Hnd].
  destruct (Hok m) as (-> & Hacc & Hs & Hi); [by left|]. unfold resume_source in Hacc, Hs, Hi.
  rewrite Hacc, !bool_decide_false by done. cbn [negb orb]. rewrite IH; [|done|].
  - f_equal. unfold resume_source at 2. cbn. set_solver.
  - intros x Hx. destruct (Hok x) as (? & ? & ? & ?); [by right|]. split_and!; [done..|].
    apply not_elem_of_union. split; [|done]. intros Heq%elem_of_singleton. apply Hnotin.
    change (resume_source x = resume_source m) in Heq. rewrite <- Heq. by apply list_elem_of_fmap_2.
Qed.
End History.

(** ** The Hub's own snapshot *)

Section OwnSnapshot.
Context `{HI : HashIter} `{B64 : Base64Url, B64L : !Base64UrlLaws} `{RS : RecoverySerializer}.
Variable c : AuthoritativeOperationController.
Variable l : AdmissionLimits.
Hypothesis Hc : cinv c.
Hypothesis Hl : (0 < l.(max_global_active))%N.

Let c1 : AuthoritativeOperationController := restarted_controller c l.
Let Hc1 : cinv c1 := restarted_cinv c l Hc Hl.

Lemma own_ledger :
  restore_ledger (merge_sort record_le (restart_record <$> (hash_iter c.(operations)).*2)) ∅ =
    if forallb (λ kv, negb (bound_recovery_read kv.2)) (map_to_list c.(operations))
    then Ok c1.(operations) else Err ExecutionError.InvalidSnapshot.
Proof.
  pose proof (sorted_mapped restart_record record_le c.(operations)) as Hperm.
  change (restart_record <$> c.(operations)) with c1.(operations) in Hperm.
  destruct (rebuild_values Ledger.id c1.(operations) _ (record_key c1 Hc1) Hperm) as [Hreb Hnd].
  rewrite restore_ledger_spec, Hreb; [|done|intros; apply lookup_empty].
  apply if_iff. rewrite !forallb_forall. split.
  - intros Hall [id r] Hin%list_elem_of_In%elem_of_map_to_list. cbn.
    rewrite <- (restart_valid r) by by eapply (ci_ledger _ Hc). apply Hall.
    apply list_elem_of_In, (elem_of_values _ _ _ Hperm). exists id. cbn. by rewrite lookup_fmap, Hin.
  - intros Hall x (id & (r & <- & Hr)%lookup_fmap_Some)%list_elem_of_In%(elem_of_values _ _ _ Hperm).
    rewrite restart_valid by by eapply (ci_ledger _ Hc).
    apply (Hall (id, r)). by apply list_elem_of_In, elem_of_map_to_list.
Qed.

Lemma own_agreement :
  ∀ admitted, snapshot_for_restart c1.(admission) = Some admitted →
  ledger_agrees admitted.(snap_operations) c1.(operations) = true.
Proof.
  intros admitted Ha%snapshot_operations. rewrite Ha.
  destruct (snapshot_records c1.(admission)) as (xs & -> & Hxs).
  assert (snapshot_operation c1.(admission) <$> c1.(admission).(Admission.operations)
          = view c1.(operations)) as Hview.
  { rewrite <- (ci_view _ Hc1). unfold view. rewrite <- map_fmap_compose.
    apply map_fmap_ext. intros id r Hr. unfold compose, snapshot_operation, admitted_view. cbn.
    apply lookup_fmap_Some in Hr as (r0 & <- & _). f_equal.
    pose proof (restart_record_state r0). by destruct (restart_record r0).(SafetyOperation.state). }
  rewrite Hview in Hxs. unfold ledger_agrees. apply andb_true_iff. split.
  - apply N.eqb_eq. unfold vlen, mlen. f_equal. rewrite length_fmap, Hxs, length_map_to_list.
    apply map_size_fmap.
  - apply forallb_forall. intros o Ho%list_elem_of_In. rewrite Hxs in Ho.
    apply list_elem_of_fmap in Ho as ([id x] & -> & Hx%elem_of_map_to_list). cbn.
    rewrite view_lookup in Hx. destruct (c1.(operations) !! id) as [r|] eqn:Hr; [|done].
    cbn in Hx. injection Hx as <-. pose proof (record_key c1 Hc1 id r Hr) as Hid.
    cbn. unfold Ledger.id in Hid. rewrite Hid. cbn in Hr. rewrite Hr. cbn.
    by rewrite !bool_decide_true.
Qed.

Lemma own_archive :
  restore_archive c1.(operations) (merge_sort archived_le (hash_iter c.(recovery_archive)).*2) ∅
  = Ok c1.(recovery_archive).
Proof.
  pose proof (sorted_values archived_le c.(recovery_archive)) as Hperm.
  destruct (rebuild_values archived_id c.(recovery_archive) _
    (λ i x Hx, proj1 (ci_archive _ Hc i x Hx)) Hperm) as [Hreb Hnd].
  rewrite restore_archive_spec, Hreb; [done|done|]. intros a [i Hi]%(elem_of_values _ _ _ Hperm).
  destruct (ci_archive _ Hc1 i a Hi) as (Hid & Hv & Hn). rewrite Hid. split_and!; [done..|].
  apply lookup_empty.
Qed.

Lemma own_quarantines :
  restore_quarantines c1.(operations)
    (merge_sort quarantine_le (hash_iter (restarted_quarantines c)).*2) ∅ = Ok c1.(quarantines).
Proof.
  pose proof (sorted_values quarantine_le (restarted_quarantines c)) as Hperm.
  assert (∀ d q, c1.(quarantines) !! d = Some q → q.(DesktopQuarantine.device_id) = d) as Hkey.
  { intros d q Hq. destruct (ci_quarantines _ Hc1 d q Hq) as (r & _ & _ & Hd & _ & ->). done. }
  destruct (rebuild_values DesktopQuarantine.device_id c1.(quarantines) _ Hkey Hperm) as [Hreb Hnd].
  rewrite restore_quarantines_spec, Hreb; [done|done|].
  intros q [d Hd]%(elem_of_values _ _ _ Hperm). split; [|apply lookup_empty].
  rewrite (Hkey d q Hd). by apply (ci_quarantines _ Hc1).
Qed.

(** *** Retirements *)

(** A retirement restores when nothing was resolved under its identifier and the
    reconciliation status of its record is the one that was retired. *)
Definition retirement_restores (t : RetirementRecord) : Prop :=
  (∀ x, x ∈ c.(resolutions) → x.(ResolutionRecord.operation_id) ≠ retired_ref t) ∧
  (∀ h, h ∈ c.(auto_resolutions) → auto_id h ≠ retired_ref t) ∧
  (∀ r, c.(operations) !! retired_ref t = Some r →
     default ReconciliationStatus.OperatorRequired r.(SafetyOperation.reconciliation_status)
     = t.(RetirementRecord.prior_reconciliation_status)).

Lemma own_conflict s t :
  s.(AuthoritativeSafetySnapshot.resolutions) = c.(resolutions) →
  s.(AuthoritativeSafetySnapshot.auto_resolutions) = c.(auto_resolutions) →
  valid_retirement t = true →
  retirement_conflicts s t = false ↔
  (∀ x, x ∈ c.(resolutions) → x.(ResolutionRecord.operation_id) ≠ retired_ref t) ∧
  (∀ h, h ∈ c.(auto_resolutions) → auto_id h ≠ retired_ref t).
Proof.
  intros Hres Hauto Hv. unfold retirement_conflicts. rewrite Hv, Hres, Hauto. cbn [negb orb].
  rewrite orb_false_iff, <- !not_true_iff_false, !existsb_exists. split.
  - intros [H1 H2]. split.
    + intros x Hx Heq. apply H1. exists x. split; [by apply list_elem_of_In|by apply bool_decide_true].
    + intros h Hh Heq. apply H2. exists h. split; [by apply list_elem_of_In|by apply bool_decide_true].
  - intros [H1 H2]. split.
    + intros (x & Hx%list_elem_of_In & Heq%bool_decide_eq_true). by apply (H1 x).
    + intros (h & Hh%list_elem_of_In & Heq%bool_decide_eq_true). by apply (H2 h).
Qed.

Lemma own_mismatch t :
  t ∈ c.(retirements) →
  retirement_mismatch c1.(operations) c1.(quarantines) t = false ↔
  ∀ r, c.(operations) !! retired_ref t = Some r →
    default ReconciliationStatus.OperatorRequired r.(SafetyOperation.reconciliation_status)
    = t.(RetirementRecord.prior_reconciliation_status).
Proof.
  intros Ht. destruct (ci_retirements _ Hc) as [_ Hall]. rewrite Forall_forall in Hall.
  destruct (Hall t Ht) as (_ & Hin & r & Hr & Hst & Hop & Hcap & Hreason).
  pose proof (ci_ledger _ Hc _ _ Hr) as Hok.
  destruct (unknown_facts r Hok Hst) as (_ & _ & Hrec & Hresult & _).
  assert (c1.(operations) !! retired_id t = Some r) as Hr1.
  { cbn. change (retired_id t) with (retired_ref t). rewrite lookup_fmap, Hr. cbn. f_equal.
    by apply restart_record_unknown. }
  assert (existsb (λ kv, bool_decide (kv.2.(DesktopQuarantine.operation_id) = retired_id t))
    (map_to_list c1.(quarantines)) = false) as Hq.
  { apply not_true_iff_false. rewrite existsb_exists.
    intros ([d q] & Hq%list_elem_of_In%elem_of_map_to_list & Heq%bool_decide_eq_true).
    apply (quarantine_unretired c1 Hc1 d q Hq). cbn in Heq |- *. by rewrite Heq. }
  unfold retirement_mismatch. rewrite Hr1, Hq, Hrec, Hresult, Hreason.
  rewrite (bool_decide_true (r.(SafetyOperation.state) = _)), (bool_decide_true (_ = _ :> OperationRef)),
    (bool_decide_true (_ = _ :> DeviceCapability)),
    (bool_decide_true (_ = _ :> option IndeterminateReason)) by done.
  cbn. rewrite !orb_false_r, negb_false_iff, bool_decide_eq_true. split; [|auto].
  intros Heq r' Hr'. by simplify_eq.
Qed.

Lemma own_retirements s :
  s.(AuthoritativeSafetySnapshot.resolutions) = c.(resolutions) →
  s.(AuthoritativeSafetySnapshot.auto_resolutions) = c.(auto_resolutions) →
  (∃ b : bool, (b = true ↔ Forall retirement_restores c.(retirements)) ∧
   check_retirements s c1.(operations) c1.(quarantines) c.(retirements) ∅ =
     if b then Ok (list_to_set (retired_ref <$> c.(retirements)))
     else Err ExecutionError.InvalidSnapshot).
Proof.
  intros Hres Hauto. destruct (ci_retirements _ Hc) as [Hnd Hall].
  rewrite check_retirements_spec; [|exact Hnd|set_solver].
  eexists. split; [|by rewrite union_empty_r_L]. rewrite forallb_forall, Forall_forall.
  split; intros H t Ht.
  - assert (t ∈ c.(retirements)) as Ht' by done. apply list_elem_of_In in Ht as Hin. specialize (H t Hin).
    rewrite Forall_forall in Hall. destruct (Hall t Ht') as (Hv & _).
    apply andb_true_iff in H as [H1%negb_true_iff H2%negb_true_iff].
    apply (own_conflict s t Hres Hauto Hv) in H1 as [? ?]. pose proof (proj1 (own_mismatch t Ht') H2).
    by split_and!.
  - apply list_elem_of_In in Ht. destruct (H t Ht) as (H1 & H2 & H3).
    rewrite Forall_forall in Hall. destruct (Hall t Ht) as (Hv & _).
    rewrite (proj2 (own_conflict s t Hres Hauto Hv)), (proj2 (own_mismatch t Ht)) by done. done.
Qed.

Lemma own_retired_subset :
  list_to_set (retired_ref <$> c.(retirements)) ⊆ c1.(admission).(retired_indeterminate).
Proof.
  intros id (t & -> & Ht)%elem_of_list_to_set%list_elem_of_fmap.
  destruct (ci_retirements _ Hc) as [_ Hall]. rewrite Forall_forall in Hall. by apply (Hall t).
Qed.

(** An unknown outcome is retired or quarantined, not both. *)
Lemma own_consistent :
  indeterminate_consistent c1.(operations) c1.(quarantines)
    c1.(admission).(retired_indeterminate) = true.
Proof.
  apply forallb_forall. intros [id r] Hin%list_elem_of_In%elem_of_map_to_list. cbn [snd].
  case_bool_decide as Hst; [|done]. cbn [implb]. rewrite (record_key c1 Hc1 id r Hin).
  pose proof (occ_blocked _ _ _ _ _ _ (inv_occupancy _ (ci_admission _ Hc1)) (Ledger.device r) id) as Hb.
  assert (unknown_outcome c1.(admission).(Admission.operations) (Ledger.device r) id) as Hu.
  { exists (admitted_view r). split_and!; [by apply (admitted_record c1 Hc1)|done|done]. }
  case_bool_decide as Hret.
  - destruct (c1.(quarantines) !! Ledger.device r) as [q|] eqn:Hq; [|done]. cbn.
    rewrite bool_decide_false; [done|]. intros Heq. apply (quarantine_unretired c1 Hc1 _ q Hq).
    by rewrite Heq.
  - assert (c1.(admission).(blocked_by_indeterminate) !! Ledger.device r = Some id) as Hbl by by apply Hb.
    apply (blocked_quarantine c1 Hc1) in Hbl as (q & Hq & Hid). rewrite Hq. cbn.
    destruct (ci_quarantines _ Hc1 _ q Hq) as (r' & Hr' & _ & _ & _ & Heq).
    rewrite Hid in Hr'. simplify_eq. rewrite (bool_decide_true _ eq_refl). cbn. rewrite Heq. cbn.
    apply N.eqb_refl.
Qed.

(** *** Barriers and resumes *)

Definition barrier_restores (d : string) (b : MutationResumeBarrier) : Prop :=
  (0 < b.(MutationResumeBarrier.created_at_ms))%N ∧ restarted_quarantines c !! d = None.

Lemma accepted_by_user t :
  valid_retirement t = true → requires_mutation_barrier t = true →
  t.(RetirementRecord.disposition) = RetirementDisposition.CurrentStateAccepted ∧
  t.(RetirementRecord.policy) = RetirementPolicy.AcknowledgedUnknownPointerClickV1 ∧
  t.(RetirementRecord.authority) = RetirementAuthority.LocalUserPresence.
Proof.
  unfold valid_retirement, requires_mutation_barrier. intros Hv Hr. split_bools.
  match goal with H : disposition_authorized _ _ = true |- _ => revert H end.
  destruct (t.(RetirementRecord.disposition)), (t.(RetirementRecord.authority)); simplify_eq; done.
Qed.

Lemma accepted_retirement_of t (id device : string) g policy :
  valid_retirement t = true → requires_mutation_barrier t = true →
  retired_ref t = id → t.(RetirementRecord.operation).(OperationRef.device_id) = device →
  t.(RetirementRecord.authorized_device_generation) = g → t.(RetirementRecord.policy) = policy →
  accepted_retirement id device g policy t = true.
Proof.
  intros Hv Hreq <- <- <- <-. destruct (accepted_by_user t Hv Hreq) as (Hd & _ & Ha).
  unfold accepted_retirement. rewrite Hd, Ha, !bool_decide_true, N.eqb_refl by done. done.
Qed.

Lemma barrier_accepted_iff s t :
  s.(AuthoritativeSafetySnapshot.retirements) = c.(retirements) →
  t ∈ c.(retirements) → requires_mutation_barrier t = true →
  barrier_accepted s c1.(quarantines) (barrier_for t) = true ↔
  barrier_restores (barrier_for t).(MutationResumeBarrier.device_id) (barrier_for t).
Proof.
  intros Hret Ht Hreq. destruct (ci_retirements _ Hc) as [_ Hall]. rewrite Forall_forall in Hall.
  destruct (Hall t Ht) as (Hv & _). destruct (accepted_by_user t Hv Hreq) as (_ & Hpol & _).
  unfold barrier_accepted. rewrite Hret.
  assert (valid_barrier (barrier_for t) = (0 <? t.(RetirementRecord.retired_at_ms))%N) as ->.
  { unfold valid_retirement, invalid_operation_identity in Hv. unfold valid_barrier. cbn.
    split_bools. apply Bool.eq_iff_eq_true.
    rewrite !andb_true_iff, !negb_true_iff, !N.leb_le, !N.ltb_lt, bool_decide_eq_true.
    split; [tauto|]. intros. split_and!; try done; lia. }
  assert (existsb (barrier_retirement (barrier_for t)) c.(retirements) = true) as ->.
  { apply existsb_exists. exists t. split; [by apply list_elem_of_In|]. unfold barrier_retirement.
    rewrite (accepted_retirement_of t), N.eqb_refl by done. done. }
  rewrite andb_true_r, andb_true_iff, N.ltb_lt, negb_true_iff, bool_decide_eq_false,
    <- eq_None_not_Some. done.
Qed.

Definition barrier_sources : gset string :=
  list_to_set (MutationResumeBarrier.source_operation_id
    <$> merge_sort barrier_le (hash_iter c.(mutation_resume_barriers)).*2).

Lemma elem_of_barrier_sources id :
  id ∈ barrier_sources ↔ ∃ d b, c.(mutation_resume_barriers) !! d = Some b ∧
                                b.(MutationResumeBarrier.source_operation_id) = id.
Proof.
  unfold barrier_sources. rewrite elem_of_list_to_set, list_elem_of_fmap.
  pose proof (sorted_values barrier_le c.(mutation_resume_barriers)) as Hperm. split.
  - intros (b & -> & [d Hb]%(elem_of_values _ _ _ Hperm)). eauto.
  - intros (d & b & Hb & <-). exists b. split; [done|]. apply (elem_of_values _ _ _ Hperm). eauto.
Qed.

Lemma own_barriers s :
  s.(AuthoritativeSafetySnapshot.retirements) = c.(retirements) →
  (∃ ok : bool, (ok = true ↔ map_Forall barrier_restores c.(mutation_resume_barriers)) ∧
   restore_barriers s c1.(quarantines)
     (merge_sort barrier_le (hash_iter c.(mutation_resume_barriers)).*2) ∅ ∅ =
     if ok then Ok (c1.(mutation_resume_barriers), barrier_sources)
     else Err ExecutionError.InvalidSnapshot).
Proof.
  intros Hret. pose proof (sorted_values barrier_le c.(mutation_resume_barriers)) as Hperm.
  pose proof (ci_barriers _ Hc) as Hbars.
  assert (∀ d b, c.(mutation_resume_barriers) !! d = Some b → b.(MutationResumeBarrier.device_id) = d)
    as Hkey by by intros d b (t & _ & _ & _ & Hd)%(ba_source _ _ _ Hbars).
  destruct (rebuild_values _ _ _ Hkey Hperm) as [Hreb Hnd].
  set (l' := merge_sort barrier_le _) in *.
  assert (NoDup (MutationResumeBarrier.source_operation_id <$> l')) as Hsrc.
  { apply NoDup_fmap_2_strong; [|by eapply NoDup_fmap_1].
    intros b1 b2 [d1 H1]%(elem_of_values _ _ _ Hperm) [d2 H2]%(elem_of_values _ _ _ Hperm) Heq.
    destruct (ba_source _ _ _ Hbars d1 b1 H1) as (t1 & Ht1 & -> & _).
    destruct (ba_source _ _ _ Hbars d2 b2 H2) as (t2 & Ht2 & -> & _). f_equal.
    eapply NoDup_fmap_inj; [apply (ci_retirements _ Hc)|done..|exact Heq]. }
  rewrite restore_barriers_spec, Hreb; [|done|done|intros; split; [apply lookup_empty|set_solver]].
  eexists. split; [|rewrite union_empty_r_L; done]. rewrite forallb_forall, map_Forall_lookup. split.
  - intros Hall d b Hb. destruct (ba_source _ _ _ Hbars d b Hb) as (t & Ht & -> & Hreq & <-).
    apply (barrier_accepted_iff s t Hret Ht Hreq), Hall, list_elem_of_In.
    apply (elem_of_values _ _ _ Hperm). eauto.
  - intros Hall b [d Hb]%list_elem_of_In%(elem_of_values _ _ _ Hperm).
    destruct (ba_source _ _ _ Hbars d b Hb) as (t & Ht & -> & Hreq & <-).
    apply (barrier_accepted_iff s t Hret Ht Hreq). by apply Hall.
Qed.

Lemma own_resumes s :
  s.(AuthoritativeSafetySnapshot.retirements) = c.(retirements) →
  check_resumes s barrier_sources c1.(mutation_resumes) ∅
  = Ok (list_to_set (resume_source <$> c1.(mutation_resumes))).
Proof.
  intros Hret. pose proof (ci_barriers _ Hc1) as Hbars.
  rewrite check_resumes_spec; [by rewrite union_empty_r_L|apply Hbars|].
  intros m Hm. destruct (ba_resume _ _ _ Hbars m Hm) as (Hv & t & Ht & Hr & Hreq).
  apply resume_of_true in Hr as (Hs & Hd & Hg & Hp). split_and!; [done| | |set_solver].
  - rewrite Hret. apply existsb_exists. exists t. split; [by apply list_elem_of_In|].
    destruct (ci_retirements _ Hc) as [_ Hall]. rewrite Forall_forall in Hall.
    by apply accepted_retirement_of; [apply (Hall t)|..].
  - intros (d & b & Hb & Heq)%elem_of_barrier_sources. by apply (ba_disjoint _ _ _ Hbars d b m Hb Hm).
Qed.

Lemma own_clicks s :
  s.(AuthoritativeSafetySnapshot.retirements) = c.(retirements) →
  clicks_accounted s barrier_sources (list_to_set (resume_source <$> c1.(mutation_resumes))) = true.
Proof.
  intros Hret. unfold clicks_accounted. rewrite Hret. apply forallb_forall. intros t Ht%list_elem_of_In.
  case_bool_decide as Hp; [|done]. cbn [implb].
  destruct (ba_clicks _ _ _ (ci_barriers _ Hc1) t Ht Hp) as [[d Hd]|(m & Hm & Hr)].
  - rewrite bool_decide_true; [done|]. apply elem_of_barrier_sources. by exists d, (barrier_for t).
  - rewrite (bool_decide_true (_ ∈ list_to_set _)); [by rewrite orb_true_r|].
    apply resume_of_true in Hr as (Hs & _). apply elem_of_list_to_set, list_elem_of_fmap.
    exists m. done.
Qed.

(** *** The history of automatic resolutions *)

(** The bounded history still covers every record it resolved. *)
Record history_restores : Prop := {
  hr_valid : Forall (λ h, valid_auto_resolution h = true) c.(auto_resolutions);
  hr_distinct : NoDup (auto_id <$> c.(auto_resolutions));
  hr_complete : ∀ id r, c.(operations) !! id = Some r → auto_resolved r = true →
    ∃ h, h ∈ c.(auto_resolutions) ∧ auto_id h = id ∧ history_matches h r = true;
  hr_sound : ∀ h r, h ∈ c.(auto_resolutions) → c.(operations) !! auto_id h = Some r →
    auto_resolved r = true ∧ history_matches h r = true
}.

Lemma auto_restart r :
  record_ok r → auto_resolved (restart_record r) = auto_resolved r ∧
  (auto_resolved r = true → restart_record r = r).
Proof.
  intros Hok. assert (auto_resolved r = true → settled r.(SafetyOperation.state) = true) as Hs.
  { unfold auto_resolved. rewrite bool_decide_eq_true. intros Hauto. destruct Hok as [_ Hs _].
    unfold state_ok, open_record in Hs. destruct r.(SafetyOperation.state); naive_solver congruence. }
  split; [|intros H; by apply restart_record_settled, Hs].
  destruct (restart_cases r) as [H|[H|[H|[H|H]]]].
  - by rewrite restart_record_undispatched by auto.
  - by rewrite restart_record_undispatched by auto.
  - rewrite restart_record_on_device by done. case_bool_decide; [done|].
    transitivity false.
    + unfold auto_resolved. cbn. rewrite bool_decide_false; [done|].
      unfold default_reconciliation_status. by destruct (_ && _).
    + symmetry. apply not_true_iff_false. intros Hsettled%Hs. by destruct r.(SafetyOperation.state).
  - by rewrite restart_record_unknown.
  - by rewrite restart_record_settled.
Qed.

Lemma find_auto h id (l' : list AutoResolutionRecord) :
  NoDup (auto_id <$> l') → h ∈ l' → auto_id h = id →
  find (λ h, bool_decide (auto_id h = id)) l' = Some h.
Proof.
  intros Hnd Hh Hid. destruct (find _ l') as [x|] eqn:Hx.
  - apply find_some in Hx as [Hin%list_elem_of_In Heq%bool_decide_eq_true].
    f_equal. eapply NoDup_fmap_inj; [exact Hnd|done|done|congruence].
  - pose proof (find_none _ _ Hx h) as Hn. cbn in Hn. rewrite bool_decide_true in Hn; [|done].
    discriminate Hn. by apply list_elem_of_In.
Qed.

Lemma own_history s :
  s.(AuthoritativeSafetySnapshot.auto_resolutions) = c.(auto_resolutions) →
  auto_history_valid s c1.(operations) = true ↔ history_restores.
Proof.
  intros Hauto. unfold auto_history_valid. rewrite Hauto, !andb_true_iff, !forallb_forall,
    bool_decide_eq_true, N.leb_le.
  assert (∀ id r, c.(operations) !! id = Some r → record_ok r) as Hok by exact (ci_ledger _ Hc).
  split.
  - intros ((((_ & Hv) & Hnd) & Hcomp) & Hsound). split; [|done| |].
    + apply Forall_forall. intros h Hh. by apply Hv, list_elem_of_In.
    + intros id r Hr Hres. destruct (auto_restart r (Hok id r Hr)) as [_ Hsame].
      specialize (Hcomp (id, r)). cbn [snd] in Hcomp. rewrite Hres in Hcomp. cbn [implb] in Hcomp.
      rewrite (record_key c Hc id r Hr) in Hcomp.
      destruct (find _ _) as [h|] eqn:Hfind; cbn in Hcomp.
      * apply find_some in Hfind as [Hin%list_elem_of_In Heq%bool_decide_eq_true]. exists h.
        split_and!; [done|done|]. apply Hcomp, list_elem_of_In, elem_of_map_to_list.
        cbn. rewrite lookup_fmap, Hr. cbn. by rewrite Hsame.
      * discriminate Hcomp. apply list_elem_of_In, elem_of_map_to_list.
        cbn. rewrite lookup_fmap, Hr. cbn. by rewrite Hsame.
    + intros h r Hh Hr. destruct (auto_restart r (Hok _ r Hr)) as [Hres Hsame].
      apply list_elem_of_In, Hsound in Hh. cbn in Hh. rewrite lookup_fmap, Hr in Hh. cbn in Hh.
      apply andb_true_iff in Hh as [Hh1 Hh2]. rewrite Hres in Hh1. by rewrite (Hsame Hh1) in Hh2.
  - intros [Hv Hnd Hcomp Hsound]. rewrite Forall_forall in Hv. split_and!.
    + apply Hc.
    + intros h Hh%list_elem_of_In. by apply Hv.
    + done.
    + intros [id x] Hx%list_elem_of_In%elem_of_map_to_list. cbn in Hx.
      apply lookup_fmap_Some in Hx as (r & <- & Hr). cbn [snd].
      destruct (auto_restart r (Hok id r Hr)) as [Hres Hsame]. rewrite Hres.
      destruct (auto_resolved r) eqn:Hr'; [|done]. cbn [implb]. rewrite Hsame by done.
      rewrite (record_key c Hc id r Hr). destruct (Hcomp id r Hr Hr') as (h & Hh & Hid & Hm).
      by rewrite (find_auto h id _ Hnd Hh Hid).
    + intros h Hh%list_elem_of_In. cbn. rewrite lookup_fmap.
      destruct (c.(operations) !! auto_id h) as [r|] eqn:Hr; [|done]. cbn.
      destruct (Hsound h r Hh Hr) as [H1 H2].
      destruct (auto_restart r (Hok _ r Hr)) as [_ Hsame]. by rewrite (Hsame H1), H1, H2.
Qed.
End OwnSnapshot.

(** ** When the Hub's own snapshot restores *)

Section Restorable.
Context `{HI : HashIter} `{B64 : Base64Url, B64L : !Base64UrlLaws} `{RS : RecoverySerializer}.
Implicit Types (c : AuthoritativeOperationController) (l : AdmissionLimits).

Record restorable c : Prop := {
  (** every retired identifier has a tombstone that decodes *)
  rs_tombstones : set_Forall has_tombstone c.(admission).(retired_indeterminate);
  (** no record reuses a retired identifier *)
  rs_unused : ∀ id r, c.(operations) !! id = Some r →
    id ∈ c.(admission).(retired_indeterminate) → r.(SafetyOperation.state) = Indeterminate;
  (** no recovery read was dispatched with a binding *)
  rs_unbound : ∀ id r, c.(operations) !! id = Some r → bound_recovery_read r = false;
  rs_retirements : Forall (retirement_restores c) c.(retirements);
  rs_barriers : map_Forall (barrier_restores c) c.(mutation_resume_barriers);
  rs_history : history_restores c
}.

Lemma retired_consistent_iff c l :
  cinv c →
  retired_consistent c.(admission).(retired_indeterminate) (restarted c.(admission) l) = true ↔
  ∀ id r, c.(operations) !! id = Some r → id ∈ c.(admission).(retired_indeterminate) →
    r.(SafetyOperation.state) = Indeterminate.
Proof.
  intros Hc. unfold retired_consistent. rewrite forallb_forall. cbn. split.
  - intros Hall id r Hr Hid. specialize (Hall id).
    rewrite lookup_fmap, (admitted_record c Hc id r Hr) in Hall. cbn [fmap option_fmap option_map] in Hall.
    assert (In id (elements c.(admission).(retired_indeterminate))) as Hin
      by by apply list_elem_of_In, elem_of_elements.
    specialize (Hall Hin). apply bool_decide_eq_true in Hall.
    rewrite (snapshot_operation_state _ id _ (ci_admission _ Hc) (admitted_record c Hc id r Hr)) in Hall.
    apply restart_state_Indeterminate in Hall as [?|[Hd Hrec]]; [done|]. exfalso.
    unfold is_recovery_read_only in Hrec. apply bool_decide_eq_false in Hrec. apply Hrec.
    eapply (occ_fresh _ _ _ _ _ _ (inv_occupancy _ (ci_admission _ Hc)));
      [by apply (admitted_record c Hc)|done|right; by apply on_device_live].
  - intros Hall id Hid%list_elem_of_In%elem_of_elements. rewrite lookup_fmap.
    destruct (c.(admission).(Admission.operations) !! id) as [o|] eqn:Ho; [|done]. cbn.
    destruct (ledger_record c Hc id o Ho) as (r & Hr & ->). cbn. by rewrite (Hall id r Hr Hid).
Qed.

Lemma snapshot_controller_Some c s :
  snapshot_controller c = Some s →
  snapshot_for_restart c.(admission) = Some s.(AuthoritativeSafetySnapshot.admission) ∧
  s = AuthoritativeSafetySnapshot.mk EXECUTION_SAFETY_SCHEMA_VERSION
    s.(AuthoritativeSafetySnapshot.admission)
    (merge_sort record_le (restart_record <$> (hash_iter c.(operations)).*2))
    (merge_sort archived_le (hash_iter c.(recovery_archive)).*2)
    (merge_sort quarantine_le (hash_iter (restarted_quarantines c)).*2)
    c.(resolutions) c.(auto_resolutions) c.(retirements)
    (merge_sort barrier_le (hash_iter c.(mutation_resume_barriers)).*2)
    (merge_sort resume_le c.(mutation_resumes)).
Proof.
  unfold snapshot_controller. destruct (snapshot_for_restart _) as [a|]; [|done]. by intros [= <-].
Qed.

(** The schema gate lets the current schema through. *)
Lemma current_schema s :
  s.(AuthoritativeSafetySnapshot.schema_version) = EXECUTION_SAFETY_SCHEMA_VERSION →
  s.(AuthoritativeSafetySnapshot.admission).(snap_retired_ids) = [] →
  negb (known_schema s.(AuthoritativeSafetySnapshot.schema_version)) || schema_violation s = false.
Proof. intros Hs Hids. unfold schema_violation. rewrite Hs, Hids. done. Qed.

Lemma snapshot_retired_ids a s : snapshot_for_restart a = Some s → s.(snap_retired_ids) = [].
Proof. unfold snapshot_for_restart. intros H. by run H. Qed.

Lemma decoded_usable t id :
  ReplayDenyTombstone.operation_id t = Ok id → ReplayDenyTombstone.unusable_id id = false.
Proof.
  unfold ReplayDenyTombstone.operation_id. intros H. run H; [|done].
  unfold ReplayDenyTombstone.unusable_id. cbn. apply N.ltb_ge. unfold slen.
  match goal with |- context [Crypto.hex ?b] =>
    change (String.length ("op_" +:+ Crypto.hex b)) with (S (S (S (String.length (Crypto.hex b))))) end.
  rewrite length_hex. unfold vlen, ReplayDenyTombstone.MAX_RETIRED_OPERATION_ID_BYTES in *. lia.
Qed.

(** [expect] in [restore_after_restart] cannot fail: a restored controller has a
    snapshot. *)
Lemma restored_snapshot_total l s a :
  restore_after_restart l s = Ok a → is_Some (snapshot_for_restart a).
Proof.
  unfold restore_after_restart. intros H.
  assert (∃ retired, restore_retired s = Ok retired ∧ a.(retired_indeterminate) = retired)
    as (retired & Hret & Hin).
  { run H. eauto. }
  clear H. assert (∀ id, id ∈ retired → ReplayDenyTombstone.unusable_id id = false) as Huse.
  { clear Hin. unfold restore_retired in Hret. run Hret; intros id Hid%elem_of_list_to_set.
    - match goal with H : collect _ _ = _ |- _ => apply collect_Forall2 in H as Hd end.
      apply list_elem_of_lookup_1 in Hid as [i Hi].
      destruct (Forall2_lookup_r _ _ _ _ _ Hd Hi) as (t & _ & Ht). by eapply decoded_usable.
    - match goal with H : existsb _ _ = false |- _ => rename H into Hex end.
      apply not_true_iff_false. intros Hbad. apply not_true_iff_false in Hex. apply Hex, existsb_exists.
      exists id. split; [by apply list_elem_of_In|done]. }
  unfold snapshot_for_restart.
  destruct (collect_total ReplayDenyTombstone.from_operation_id
    (hash_set_iter a.(retired_indeterminate))) as [ts ->]; [|eauto].
  intros id Hid%elem_of_hash_set_iter. rewrite Hin in Hid.
  destruct (ReplayDenyTombstone.from_operation_id_decodes id (Huse id Hid)) as (t & -> & _). eauto.
Qed.

Lemma own_unbound c :
  forallb (λ kv, negb (bound_recovery_read kv.2)) (map_to_list c.(operations)) = true ↔
  ∀ id r, c.(operations) !! id = Some r → bound_recovery_read r = false.
Proof.
  rewrite forallb_forall. split.
  - intros H id r Hr. apply negb_true_iff, (H (id, r)). by apply list_elem_of_In, elem_of_map_to_list.
  - intros H [id r] Hr%list_elem_of_In%elem_of_map_to_list. apply negb_true_iff. by eapply H.
Qed.

(** The admission half of the restore. *)
Lemma own_admission c l s :
  cinv c → (0 < l.(max_global_active))%N → snapshot_for_restart c.(admission) = Some s →
  (∃ e, restore_after_restart l s = Err e ∧ ¬ restorable c) ∨
  (restore_after_restart l s = Ok (restarted c.(admission) l) ∧
   set_Forall has_tombstone c.(admission).(retired_indeterminate) ∧
   ∀ id r, c.(operations) !! id = Some r → id ∈ c.(admission).(retired_indeterminate) →
     r.(SafetyOperation.state) = Indeterminate).
Proof.
  intros Hc Hl Hs. pose proof (ci_admission _ Hc) as Ha.
  rewrite (restore_snapshot _ l s Ha Hl Hs). destruct (restore_retired s) as [ids|e] eqn:Hret.
  - pose proof (retired_consistent_iff c l Hc) as Hiff.
    destruct (retired_consistent _ _) eqn:Hcons.
    + right. split_and!; [done|by eapply restore_retired_tombstones|by apply Hiff].
    + left. eexists. split; [done|]. intros Hrs. discriminate (proj2 Hiff (rs_unused _ Hrs)).
  - left. exists e. split; [done|]. intros Hrs.
    destruct (restore_retired_complete _ (inv_retired _ Ha) (rs_tombstones _ Hrs)) as (s' & Hs' & Hr').
    congruence.
Qed.

(** The Hub's own snapshot restores exactly when [restorable] holds, and what it
    restores to is then determined. *)
Lemma restore_own c l s :
  cinv c → archive_bounded c.(recovery_archive) → (0 < l.(max_global_active))%N →
  snapshot_controller c = Some s →
  (restorable c ∧ restore_controller l s = Ok (restarted_controller c l)) ∨
  (¬ restorable c ∧ ∃ e, restore_controller l s = Err e).
Proof.
  intros Hc Harch Hl (Hadm & Hs)%snapshot_controller_Some.
  pose proof (restarted_cinv c l Hc Hl) as Hc1. unfold restore_controller.
  rewrite (current_schema s); [|by rewrite Hs|by eapply snapshot_retired_ids].
  destruct (own_admission c l _ Hc Hl Hadm) as [(e & -> & Hno)|(Hok & Htomb & Hunused)]; [by right; eauto|].
  rewrite Hok. apply restored_snapshot_total in Hok as [admitted Hadmitted].
  rewrite Hs; cbn [AuthoritativeSafetySnapshot.operations AuthoritativeSafetySnapshot.recoveries
    AuthoritativeSafetySnapshot.quarantines AuthoritativeSafetySnapshot.retirements
    AuthoritativeSafetySnapshot.mutation_resumes AuthoritativeSafetySnapshot.schema_version
    AuthoritativeSafetySnapshot.mutation_resume_barriers AuthoritativeSafetySnapshot.resolutions
    AuthoritativeSafetySnapshot.auto_resolutions].
  rewrite <- Hs. rewrite (own_ledger c l Hc Hl). pose proof (own_unbound c) as Hunb.
  destruct (forallb _ _); [|right; split; [intros Hrs; discriminate (proj2 Hunb (rs_unbound _ Hrs))|eauto]].
  rewrite Hadmitted, (own_agreement c l Hc Hl _ Hadmitted), (own_archive c l Hc Hl).
  cbn [negb]. change (restarted_controller c l).(recovery_archive) with c.(recovery_archive).
  rewrite (proj1 (negb_true_iff _) (proj2 (archive_over _) Harch)), (own_quarantines c l Hc Hl).
  destruct (own_retirements c l Hc Hl s) as (b & Hb & ->); [by rewrite Hs..|].
  destruct b; [|right; split; [intros Hrs; discriminate (proj2 Hb (rs_retirements _ Hrs))|eauto]].
  change (retired_indeterminate (restarted (admission c) l))
    with (restarted_controller c l).(admission).(retired_indeterminate).
  rewrite (bool_decide_true (_ ⊆ _) (own_retired_subset c l Hc)), (own_consistent c l Hc Hl).
  rewrite (proj2 (N.ltb_ge _ (vlen c.(retirements))) (ci_history _ Hc1)).
  rewrite (proj2 (N.ltb_ge _ (vlen (merge_sort resume_le _))) (ci_resumes _ Hc1)). cbn [negb orb andb].
  rewrite (proj2 (N.ltb_ge EXECUTION_SAFETY_SCHEMA_VERSION SEMANTIC_CONSTRAINT_EXECUTION_SAFETY_SCHEMA_VERSION))
    by (unfold EXECUTION_SAFETY_SCHEMA_VERSION, SEMANTIC_CONSTRAINT_EXECUTION_SAFETY_SCHEMA_VERSION; lia).
  cbn [andb orb].
  destruct (own_barriers c l Hc Hl s) as (b & Hbar & ->); [by rewrite Hs|].
  destruct b; [|right; split; [intros Hrs; discriminate (proj2 Hbar (rs_barriers _ Hrs))|eauto]].
  change (merge_sort resume_le c.(mutation_resumes)) with (restarted_controller c l).(mutation_resumes).
  rewrite (own_resumes c l Hc Hl s), (own_clicks c l Hc Hl s) by by rewrite Hs.
  cbn [negb orb]. pose proof (own_history c l Hc s ltac:(by rewrite Hs)) as Hh.
  destruct (auto_history_valid _ _);
    [|right; split; [intros Hrs; discriminate (proj2 Hh (rs_history _ Hrs))|eauto]].
  left. split; [|done]. split; [done|done|by apply Hunb|by apply Hb|by apply Hbar|by apply Hh].
Qed.

(** A restorable controller has a snapshot. *)
Lemma restorable_snapshot c : cinv c → restorable c → is_Some (snapshot_controller c).
Proof.
  intros Hc Hrs. unfold snapshot_controller.
  destruct (restore_retired_complete _ (inv_retired _ (ci_admission _ Hc)) (rs_tombstones _ Hrs))
    as (s & -> & _). eauto.
Qed.
End Restorable.
