(* ===== verification/ControllerRefinement.v ===== *)
(** * The operation controller refines the admission controller

    Whatever a call of [AuthoritativeOperationController] does to the admission
    controller it owns, it does through public calls of
    [HubAdmissionController], and [implements] says through which. Together with
    the abstraction [view] of the ledger this is a forward simulation: the
    theorems about the admission controller hold of the Hub's controller. *)

From S2P Require Import Prelude Vocabulary Protocol Tombstone Admission AdmissionSafety.
From S2P Require Import AdmissionTheorems SafetyTypes Evidence Controller ControllerLedger.
From S2P Require Import ControllerSafety ControllerCalls.
Import HubOperationState Controller.

(** The admission calls a controller call may make. *)
Definition implements (k : ccall) (a : call) : Prop :=
  match a with
  | Admit r | AdmitRecovery r =>
      match k with CPrepare r' _ _ _ _ => r' = r | _ => False end
  | MarkDispatched id => match k with CDispatch id' _ _ _ _ => id' = id | _ => False end
  | Cancel id =>
      match k with
      | CCancel id' _ _ _ => id' = id
      | CMarkIndeterminate _ _ _ _ _ | CConnectionLost _ _ => True
      | _ => False
      end
  | Finalize id terminal =>
      match k with
      | CFinalize id' _ _ terminal' _ _ => id' = id ∧ terminal' = terminal
      | CNonDelivery id' _ _ _ _ _ => id' = id ∧ terminal = Cancelled
      | _ => False
      end
  | FailRecovery id =>
      match k with CInterrupted id' _ | CConnectionLost id' _ => id' = id | _ => False end
  | MarkIndeterminate id =>
      match k with
      | CMarkIndeterminate id' _ _ _ _ | CConnectionLost id' _ => id' = id
      | _ => False
      end
  | Resolve id decision =>
      match k with CResolve id' _ decision' _ _ => id' = id ∧ decision' = decision | _ => False end
  | Reconcile id terminal =>
      match k with
      | CReconcile t _ => evidence_id t = id ∧ t.(AgentTerminalEvidence.terminal_state) = terminal
      | _ => False
      end
  | Retire id | RetireAndCancelQueued id =>
      match k with CRetire id' _ _ _ _ _ | CAccept id' _ _ _ _ => id' = id | _ => False end
  | Compact _ => is_Some (transition_of k)
  | Prune d g => match k with CPrune d' g' => d' = d ∧ g' = g | _ => False end
  end.

Section Refinement.
Context `{HI : HashIter} `{B64 : Base64Url} `{RS : RecoverySerializer}.
Implicit Types (c : AuthoritativeOperationController) (k : ccall) (a : call).

Lemma run_trans ok (a b c : HubAdmissionController) : run ok a b → run ok b c → run ok a c.
Proof. intros Hab Hbc. induction Hbc as [|k b' c' _ IH ? ?]; [done|]. by eapply run_step. Qed.

Lemma run_mono (ok ok' : option call → Prop) (a b : HubAdmissionController) :
  (∀ x, ok x → ok' x) → run ok a b → run ok' a b.
Proof. intros Hok. induction 1; [constructor|]. eapply run_step; eauto. Qed.

(** The calls made on behalf of [k]. *)
Definition by_call k (x : option call) : Prop := ∃ a, x = Some a ∧ implements k a.

Definition follows k c c' : Prop := run (by_call k) c.(admission) c'.(admission).

Lemma follows_refl k c c' : c'.(admission) = c.(admission) → follows k c c'.
Proof. intros H. unfold follows. rewrite H. constructor. Qed.

Lemma follows_trans k c c' c'' : follows k c c' → follows k c' c'' → follows k c c''.
Proof. apply run_trans. Qed.

(** A call goes to the admission controller, and the rest follows. *)
Lemma on_admission_follows {A B} k a c (x : HubAdmissionController * result ExecutionError A)
    (f : AuthoritativeOperationController → A → outcome B) :
  x.1 = exec c.(admission) a → implements k a →
  (∀ c1 y, follows k c1 (f c1 y).1) → follows k c (on_admission c x f).1.
Proof.
  intros Hx Ha Hf. apply follows_trans with (set_admission c x.1).
  - unfold follows. cbn. rewrite Hx. eapply run_step; [constructor|by exists a|constructor].
  - unfold on_admission. destruct x as [a' [y|e]]; cbn; [apply Hf|by apply follows_refl].
Qed.

(** Walks through guards to the call that reaches the admission controller. *)
Ltac walk :=
  repeat (cbn [fst snd];
    match goal with
    | |- follows _ _ (on_admission _ _ _).1 => fail 1
    | |- context [match ?x with _ => _ end] =>
        lazymatch x with context [match _ with _ => _ end] => fail | _ => destruct x end
    end); try by apply follows_refl.

Lemma activate_next_follows k c c' next : follows k c c' → follows k c (activate_next c' next).
Proof. intros H. by destruct next. Qed.

Lemma erase_follows {A} k c (o : outcome A) : follows k c o.1 → follows k c (erase o).1.
Proof. done. Qed.

Lemma cancel_queued_follows k c ids now_ms :
  (∀ id, implements k (Cancel id)) → follows k c (cancel_queued c ids now_ms).1.
Proof.
  intros Hk. revert c. induction ids as [|id ids IH]; intros c; [by apply follows_refl|].
  cbn [cancel_queued]. apply (on_admission_follows k (Cancel id)); [done|done|]. intros c1 y.
  walk. eapply follows_trans; [|apply IH]. by apply follows_refl.
Qed.

Lemma mark_indeterminate_follows k c id reason now_ms :
  implements k (MarkIndeterminate id) → (∀ id', implements k (Cancel id')) →
  follows k c (mark_indeterminate_internal c id reason now_ms).1.
Proof.
  intros Hk Hcancel. unfold mark_indeterminate_internal. walk.
  apply (on_admission_follows k (MarkIndeterminate id)); [done|done|]. intros c1 y.
  pose proof (cancel_queued_follows k c1 (queued_ids c (Ledger.device s) id) now_ms Hcancel) as Hq.
  destruct (cancel_queued _ _ _) as [c2 r]. walk; exact Hq.
Qed.

Lemma interrupted_follows k c id now_ms :
  implements k (FailRecovery id) → follows k c (mark_recovery_read_interrupted c id now_ms).1.
Proof.
  intros Hk. unfold mark_recovery_read_interrupted. walk.
  apply (on_admission_follows k (FailRecovery id)); [done|done|]. intros c1 y. walk.
  apply activate_next_follows. by apply follows_refl.
Qed.

Lemma rotate_step_follows k c : is_Some (transition_of k) → follows k c (rotate_step c).1.
Proof.
  intros Hk. unfold rotate_step. destruct (min_index _ _ _) as [[i t]|]; [|by apply follows_refl].
  apply follows_trans with (set_retirements c (delete i c.(retirements))); [by apply follows_refl|].
  match goal with |- context [match ?x with Some c => @?f c | None => _ end] =>
    destruct x as [c1|] eqn:Hc1; [|by apply follows_refl] end.
  apply follows_trans with c1.
  - apply follows_refl. destruct t.(RetirementRecord.policy); [by injection Hc1 as <-|].
    apply fmap_Some in Hc1 as (ms & _ & ->). done.
  - eapply (on_admission_follows k (Compact _)); [done|done|]. intros c2 y. walk.
Qed.

Lemma rotate_follows k c fuel :
  is_Some (transition_of k) → follows k c (rotate_retirements fuel c).1.
Proof.
  intros Hk. revert c. induction fuel as [|fuel IH]; intros c; cbn [rotate_retirements]; [walk|].
  pose proof (rotate_step_follows k c Hk) as Hs. destruct (rotate_step c) as [c1 r].
  walk; [|exact Hs]. eapply follows_trans; [exact Hs|apply IH].
Qed.

Lemma settle_cancelled_admission c queued now_ms :
  (settle_cancelled c queued now_ms).1.(admission) = c.(admission).
Proof.
  revert c. induction queued as [|q queued IH]; intros c; [done|]. cbn.
  destruct (_ !! _); [|done]. destruct (negb _); [done|]. by rewrite IH.
Qed.

Lemma retire_follows k c id t :
  is_Some (transition_of k) → implements k (Retire id) →
  follows k c (retire_indeterminate_with_disposition c id t).1.
Proof.
  intros Hk Hid. unfold retire_indeterminate_with_disposition.
  destruct (retirement_for _ _ _) as [ret|]; [|by apply follows_refl].
  assert (follows k c (retire_in_admission c id ret).1) as Hret.
  { unfold retire_in_admission. destruct (requires_mutation_barrier ret); [walk|].
    - apply (on_admission_follows k (RetireAndCancelQueued id)); [done|done|]. intros c1 y.
      pose proof (settle_cancelled_admission c1 y ret.(RetirementRecord.retired_at_ms)) as Hs.
      destruct (settle_cancelled _ _ _) as [c2 r]. walk.
    - apply (on_admission_follows k (Retire id)); [done|done|]. intros c1 y. by apply follows_refl. }
  destruct (retire_in_admission _ _ _) as [c1 [next|e]]; [|done]. cbn [fst].
  match goal with |- context [rotate_retirement_history ?x] =>
    pose proof (rotate_follows k x (length x.(retirements)) Hk) as Hrot;
    fold (rotate_retirement_history x) in Hrot; destruct (rotate_retirement_history x) as [c2 r] end.
  destruct r; [apply activate_next_follows|]; exact (follows_trans k c c1 c2 Hret Hrot).
Qed.

Lemma archive_all_admission c entries :
  (archive_all c entries).1.(admission) = c.(admission).
Proof.
  revert c. induction entries as [|a entries IH]; intros c; [done|]. cbn.
  destruct (negb _); [done|]. by rewrite IH.
Qed.

Lemma prune_follows k c d g : implements k (Prune d g) → follows k c (prune_terminal c d g).1.
Proof.
  intros Hk. unfold prune_terminal. destruct (_ || _); [by apply follows_refl|].
  destruct (collect _ _) as [entries|]; [|by apply follows_refl].
  pose proof (archive_all_admission c entries) as Ha.
  destruct (archive_all c entries) as [c1 [[]|e]]; [|by apply follows_refl].
  apply follows_trans with (bound_recovery_archive c1); [by apply follows_refl|].
  apply (on_admission_follows k (Prune d g)); [done|done|]. intros c2 y. by apply follows_refl.
Qed.

(** Every call is a sequence of the admission calls it may make. *)
Lemma perform_follows c k : follows k c (perform c k).1.
Proof.
  destruct k; cbn [perform]; try apply erase_follows.
  - unfold prepare_with_metadata. walk.
    all: match goal with |- context [admit_in_lane _ ?l _] => destruct l end.
    all: first [eapply (on_admission_follows _ (Admit operation)); [done..|]
      |eapply (on_admission_follows _ (AdmitRecovery operation)); [done..|]];
      intros c1 y; by apply follows_refl.
  - unfold mark_dispatched_with_binding. walk.
    eapply (on_admission_follows _ (MarkDispatched id)); [done..|]. intros c1 y. walk.
  - unfold request_cancel. walk.
    eapply (on_admission_follows _ (Cancel id)); [done..|]. intros c1 y. walk.
    all: apply activate_next_follows; by apply follows_refl.
  - unfold finalize. walk.
    eapply (on_admission_follows _ (Finalize id terminal)); [done..|]. intros c1 y. walk.
    all: apply activate_next_follows; by apply follows_refl.
  - unfold resolve_hub_pre_enqueue_non_delivery. walk.
    eapply (on_admission_follows _ (Finalize id Cancelled)); [done..|]. intros c1 y. walk.
    all: apply activate_next_follows; by apply follows_refl.
  - by apply interrupted_follows.
  - unfold mark_indeterminate_owned. walk. by apply mark_indeterminate_follows.
  - unfold Controller.mark_connection_lost. destruct (is_recovery_evidence_read c id).
    + pose proof (interrupted_follows (CConnectionLost id now_ms) c id now_ms eq_refl) as Hi.
      destruct (mark_recovery_read_interrupted _ _ _) as [c1 r]. exact Hi.
    + by apply mark_indeterminate_follows.
  - unfold mark_reconciliation_evidence_gap. walk.
  - unfold mark_reconciliation_operator_required. walk.
  - unfold reconcile_authoritative_terminal. walk.
    eapply (on_admission_follows _ (Reconcile (evidence_id evidence) _)); [done..|].
    intros c1 y. walk. all: apply activate_next_follows; by apply follows_refl.
  - unfold resolve_indeterminate_by. walk.
    eapply (on_admission_follows _ (Resolve id decision)); [done..|].
    intros c1 y. walk. all: apply activate_next_follows; by apply follows_refl.
  - unfold retire_indeterminate_by. walk. by apply retire_follows.
  - by apply retire_follows.
  - unfold resume_mutations. walk.
  - unfold attach_recoverable_result. walk.
  - by apply prune_follows.
Qed.
End Refinement.
