(* ===== verification/ControllerTheorems.v ===== *)
(** * Safety of the authoritative operation controller

    The controller as a transition system of public calls and restarts, the
    containment invariant of quarantined and barred devices, and the theorems
    about every reachable state. *)

From S2P Require Import Prelude Vocabulary Protocol Crypto Tombstone Admission.
From S2P Require Import AdmissionSafety AdmissionRestart AdmissionTheorems SafetyTypes.
From S2P Require Import Evidence Controller ControllerSnapshot ControllerLedger ControllerSafety.
From S2P Require Import ControllerRecovery ControllerRetirement ControllerCalls.
From S2P Require Import ControllerRestart ControllerRefinement.
Import HubOperationState Controller ControllerSnapshot.

(** ** Calls and restarts *)

Section Transitions.
Context `{HI : HashIter} `{B64 : Base64Url} `{RS : RecoverySerializer}.
Implicit Types (c : AuthoritativeOperationController).

(** A call, refused or not, or a restart from the controller's own snapshot. The
    retirement history stays within its limit: it outgrows it only when more
    than [MAX_RETIREMENT_RECORDS] devices are barred at once ([history_overflow]). *)
Inductive cstep c : option ccall → AuthoritativeOperationController → Prop :=
| cstep_call k :
    (vlen (perform c k).1.(retirements) ≤ MAX_RETIREMENT_RECORDS)%N →
    cstep c (Some k) (perform c k).1
| cstep_restart l s c' :
    snapshot_controller c = Some s → restore_controller l s = Ok c' → cstep c None c'.

Inductive crun (ok : option ccall → Prop) c : AuthoritativeOperationController → Prop :=
| crun_refl : crun ok c c
| crun_step k c' c'' : crun ok c c' → ok k → cstep c' k c'' → crun ok c c''.

Definition creachable c : Prop :=
  ∃ l c0, new_controller l = Ok c0 ∧ crun (λ _, True) c0 c.
End Transitions.

(** ** Containment *)

Section Containment.
Context `{HI : HashIter} `{B64 : Base64Url, B64L : !Base64UrlLaws} `{RS : RecoverySerializer}.
Implicit Types (c : AuthoritativeOperationController) (k : ccall) (r : SafetyOperation).

(** Nothing waits for a quarantined device, and only observations are under way
    on a barred one. *)
Record contained c : Prop := {
  ct_quarantined : ∀ d, is_Some (c.(quarantines) !! d) → no_queue c d;
  ct_barred : ∀ d id r, is_Some (c.(mutation_resume_barriers) !! d) →
    c.(operations) !! id = Some r → Ledger.device r = d →
    unsettled r.(SafetyOperation.state) = true →
    class r.(SafetyOperation.capability) = CapabilityClass.Observe
}.

Record safe c : Prop := {
  sf_cinv : cinv c;
  sf_archive : archive_bounded c.(recovery_archive);
  sf_contained : contained c
}.

Lemma unsettled_cases s : unsettled s = true ↔ s = Queued ∨ live s = true.
Proof. destruct s; cbn; naive_solver. Qed.

(** What is under way on a quarantined device is a recovery read. *)
Lemma quarantined_reads c d id r :
  cinv c → is_Some (c.(quarantines) !! d) → c.(operations) !! id = Some r →
  Ledger.device r = d → live r.(SafetyOperation.state) = true →
  r.(SafetyOperation.execution_lane) = OperationExecutionLane.RecoveryEvidenceRead ∧
  is_recovery_evidence_read_only r.(SafetyOperation.capability) = true.
Proof.
  intros Hc [q Hq] Hr Hd Hl. pose proof (inv_occupancy _ (ci_admission _ Hc)) as Hocc.
  assert (r.(SafetyOperation.execution_lane) = OperationExecutionLane.RecoveryEvidenceRead) as Hlane.
  { apply (ci_lanes _ Hc id r Hr); [apply unsettled_cases; auto|].
    eapply (occ_exclusive _ _ _ _ _ _ Hocc d).
    - apply (blocked_quarantine c Hc). by exists q.
    - apply (occ_active _ _ _ _ _ _ Hocc). exists (admitted_view r).
      split_and!; [by apply (admitted_record c Hc)|done|done]. }
  split; [done|]. by apply (ao_lane _ (ro_admission _ (ci_ledger _ Hc id r Hr))).
Qed.

(** A recovery read is never queued. *)
Lemma recovery_not_queued c id r :
  cinv c → c.(operations) !! id = Some r →
  r.(SafetyOperation.execution_lane) = OperationExecutionLane.RecoveryEvidenceRead →
  r.(SafetyOperation.state) ≠ Queued.
Proof.
  intros Hc Hr Hlane Hq.
  assert (id ∈ c.(admission).(recovery_read_only_operations)) as Hin.
  { apply (ci_lanes _ Hc id r Hr); [by rewrite Hq|done]. }
  destruct (occ_recovery _ _ _ _ _ _ (inv_occupancy _ (ci_admission _ Hc)) id Hin) as (d & o & Ho & _ & Hl).
  rewrite (admitted_record c Hc id r Hr) in Ho. simplify_eq/=. by rewrite Hq in Hl.
Qed.

Lemma record_step_None c k id r :
  record_step c k id None (Some r) →
  ∃ lane, r.(SafetyOperation.execution_lane) = lane ∧
    mutation_barrier c r.(SafetyOperation.capability) (Ledger.device r) = None ∧
    choose_lane c (Ledger.device r) r.(SafetyOperation.capability) = Ok lane.
Proof. inversion 1; subst. by eexists. Qed.

(** An open record goes back to the same record, one step less far. *)
Lemma record_step_Some c k id r r' :
  cinv c → c.(operations) !! id = Some r → record_step c k id (Some r) (Some r') →
  unsettled r'.(SafetyOperation.state) = true →
  Ledger.device r' = Ledger.device r ∧
  r'.(SafetyOperation.capability) = r.(SafetyOperation.capability) ∧
  unsettled r.(SafetyOperation.state) = true ∧
  (r'.(SafetyOperation.state) = Queued → r' = r).
Proof.
  intros Hc Hr Hstep Hu. pose proof (ro_state _ (ci_ledger _ Hc id r Hr)) as Hok.
  inversion Hstep; subst; cbn in Hu; try done.
  all: try match goal with H : SafetyOperation.state _ = _ |- _ => rewrite H in * end; try done.
  all: try (cbn; split_and!; [done|done|done|by intros [=]]).
  - cbn. split_and!; [done|done|by apply on_device_unsettled|by intros [=]].
  - match goal with H : authoritative_agent_terminal_pair _ _ = true |- _ =>
      apply agent_pair_settled, settled_not_unsettled in H end. congruence.
  - match goal with H : validate_terminal_evidence _ = _ |- _ =>
      apply validate_terminal_evidence_ok in H as (_ & _ & H%agent_pair_settled%settled_not_unsettled)
    end. congruence.
  - match goal with d : IndeterminateResolution |- _ => by destruct d end.
  - apply (unsettled_open r) in Hu as (_ & Hnone & _); [|by eapply (ci_ledger _ Hc)].
    match goal with H : is_Some _ |- _ => destruct H; congruence end.
Qed.

(** A call keeps quarantined and barred devices contained. *)
Lemma effect_contained c k c' : cinv c → contained c → effect c k c' → contained c'.
Proof.
  intros Hc [Hq Hb] [Hc' Hrec Hqd _ Hbd _ _]. split.
  - intros d [q Hd] id r' Hr' Hdev Hst. destruct (Hqd d q Hd) as [Hold|Hno]; [|by eapply Hno].
    pose proof (Hrec id) as Hstep. rewrite Hr' in Hstep.
    destruct (c.(operations) !! id) as [r|] eqn:Hr.
    + destruct (record_step_Some c k id r r' Hc Hr Hstep) as (Hd' & _ & _ & Heq); [by rewrite Hst|].
      apply (Hq d (mk_is_Some _ _ Hold) id r Hr); [congruence|]. by rewrite <- Heq.
    + apply record_step_None in Hstep as (lane & Hlane & _ & Hl). unfold choose_lane in Hl.
      rewrite Hdev, Hold in Hl. destruct (negb _); simplify_eq.
      by apply (recovery_not_queued c' id r' Hc' Hr').
  - intros d id r' [b Hd] Hr' Hdev Hu. pose proof (Hrec id) as Hstep. rewrite Hr' in Hstep.
    assert (is_Some (c.(mutation_resume_barriers) !! d) ∨ is_Some (c.(quarantines) !! d)) as Hor
      by (destruct (Hbd d b Hd) as [?|?]; eauto).
    destruct (c.(operations) !! id) as [r|] eqn:Hr.
    + destruct (record_step_Some c k id r r' Hc Hr Hstep Hu) as (Hd' & -> & Hu' & _).
      destruct Hor as [Hor|Hor]; [eapply Hb; [done|done|congruence|done]|].
      apply unsettled_cases in Hu' as [Hst|Hl]; [exfalso; eapply Hq; [done|done|congruence|done]|].
      apply recovery_evidence_is_observe, (quarantined_reads c d id r Hc Hor Hr); [congruence|done].
    + apply record_step_None in Hstep as (lane & Hlane & Hm & Hl).
      unfold mutation_barrier in Hm. case_bool_decide as Hobs; [done|]. rewrite Hdev in *.
      destruct Hor as [[b' Hor]|[q Hor]]; [congruence|]. unfold choose_lane in Hl.
      rewrite Hor in Hl. destruct (is_recovery_evidence_read_only _) eqn:Hread; [|done].
      by apply recovery_evidence_is_observe.
Qed.

(** After a restart nothing is under way. *)
Lemma restarted_contained c l : contained (restarted_controller c l).
Proof.
  assert (∀ id r, (restarted_controller c l).(operations) !! id = Some r →
    unsettled r.(SafetyOperation.state) = false) as Hno.
  { intros id r Hr. cbn in Hr. apply lookup_fmap_Some in Hr as (r0 & <- & _).
    pose proof (restart_record_state r0) as Hp.
    by destruct (restart_record r0).(SafetyOperation.state). }
  split.
  - intros d _ id r Hr _ Hq. specialize (Hno id r Hr). by rewrite Hq in Hno.
  - intros d id r _ Hr _ Hu. specialize (Hno id r Hr). congruence.
Qed.

Lemma queue_touched_safe c c' d : safe c → queue_touched c c' d → safe c'.
Proof.
  intros [Hc Ha [Hq Hb]] ->. split; [|done|by split].
  destruct Hc as [[Hkey Hqs Hocc Hret] ? ? ? ? ? ? ? ? ? ? ?]. split; try done. split; try done.
  by apply queues_touch.
Qed.

Lemma new_controller_safe l c : new_controller l = Ok c → safe c.
Proof.
  unfold new_controller, new_admission, validate_limits.
  destruct (N.eqb_spec l.(max_global_active) 0) as [|Hl]; [done|]. intros [= <-].
  split; [|apply archive_bounded_empty|split; [by intros d [q Hq]|by intros d id r [b Hb]]].
  split; cbn; try done.
  - apply inv_empty. lia.
  - split; [constructor|by apply Forall_nil].
  - split; [|by intros m ?%elem_of_nil|constructor| |by intros t ?%elem_of_nil].
    all: intros d b; by rewrite lookup_empty.
Qed.

(** What a step does: a call has its effect or is refused without trace, except
    for an empty queue; a restart gives the restarted controller. *)
Lemma cstep_cases c x c' :
  safe c → cstep c x c' →
  match x with
  | Some k => effect c k c' ∨ c' = c ∨ ∃ d, queue_touched c c' d
  | None => ∃ l, (0 < l.(max_global_active))%N ∧ restorable c ∧ c' = restarted_controller c l
  end.
Proof.
  intros [Hc Ha _] [k Hlen|l s c'' Hs Hr].
  - destruct (perform c k) as [c1 [u|e]] eqn:Hrun; [left; by eapply perform_effect|right].
    destruct (perform_refused c k c1 e Hc Hrun) as [->|[(o & ? & ? & ? & ? & _ & _ & Hd)|[_ [Hover _]]]];
      [by left|right; by eexists|]. cbn in Hlen. lia.
  - assert (0 < l.(max_global_active))%N as Hl.
    { unfold restore_controller in Hr. destruct (_ || _); [done|].
      destruct (restore_after_restart _ _) eqn:Hadm; [|done].
      destruct (snapshot_controller_Some c s Hs) as [Hsa _].
      by destruct (restore_is_restarted _ _ _ _ (ci_admission _ Hc) Hsa Hadm). }
    exists l. split; [done|]. destruct (restore_own c l s Hc Ha Hl Hs) as [[Hok Hr']|[_ [e He]]];
      [|congruence]. split; [done|congruence].
Qed.

Lemma cstep_safe c x c' : safe c → cstep c x c' → safe c'.
Proof.
  intros Hs Hstep. pose proof (cstep_cases c x c' Hs Hstep) as Hcase. destruct Hs as [Hc Ha Hct].
  destruct x as [k|].
  - destruct Hcase as [Hef|[->|[d Hd]]]; [|done|by eapply queue_touched_safe].
    split; [apply Hef| |by eapply effect_contained].
    destruct (ef_archive _ _ _ Hef) as [->|?]; done.
  - destruct Hcase as (l & Hl & _ & ->). split; [by apply restarted_cinv|done|apply restarted_contained].
Qed.

Lemma crun_safe ok c c' : safe c → crun ok c c' → safe c'.
Proof. intros Hs. induction 1; [done|]. by eapply cstep_safe. Qed.

Lemma creachable_safe c : creachable c → safe c.
Proof. intros (l & c0 & Hnew & Hrun). eapply crun_safe; [|done]. by eapply new_controller_safe. Qed.
End Containment.

(** ** Theorems *)

Section Theorems.
Context `{HI : HashIter} `{B64 : Base64Url, B64L : !Base64UrlLaws} `{RS : RecoverySerializer}.
Implicit Types (c : AuthoritativeOperationController) (k : ccall) (r : SafetyOperation).

(** The admission calls behind a step. *)
Definition behind (x : option ccall) (a : option call) : Prop :=
  match x with Some k => by_call k a | None => a = None end.

Lemma cstep_follows c x c' : safe c → cstep c x c' → run (behind x) c.(admission) c'.(admission).
Proof.
  intros Hs [k _|l s c'' Hsnap Hr]; [apply perform_follows|].
  pose proof (snapshot_controller_Some c s Hsnap) as [Hadm _].
  unfold restore_controller in Hr. destruct (_ || _); [done|].
  destruct (restore_after_restart _ _) as [a|] eqn:Ha; [|done].
  assert (c''.(admission) = a) as -> by by run Hr.
  eapply run_step; [constructor|done|by eapply step_restart].
Qed.

Lemma crun_follows ok c c' :
  safe c → crun ok c c' → run (λ a, ∃ x, ok x ∧ behind x a) c.(admission) c'.(admission).
Proof.
  intros Hs. induction 1 as [|x c' c'' Hrun IH Hok Hstep]; [constructor|].
  eapply run_trans; [exact IH|]. eapply run_mono; [|eapply cstep_follows; [|exact Hstep]].
  - intros a Ha. by exists x.
  - by eapply crun_safe.
Qed.

(** C6: The Hub's controller refines the admission controller: it starts with a new
    one, every call and restart is a sequence of the admission calls it may make,
    the ledger shows exactly the admitted operations in their admission states,
    and the quarantines are exactly the devices admission has blocked. *)
Theorem controller_refines_admission c :
  creachable c →
  AdmissionTheorems.reachable c.(admission) ∧
  view c.(operations) = c.(admission).(Admission.operations) ∧
  DesktopQuarantine.operation_id <$> c.(quarantines) = c.(admission).(blocked_by_indeterminate) ∧
  ∀ x c', cstep c x c' → run (behind x) c.(admission) c'.(admission).
Proof.
  intros Hreach. pose proof (creachable_safe c Hreach) as Hs.
  split_and!; [|apply (ci_view _ (sf_cinv _ Hs))|apply (ci_blocked _ (sf_cinv _ Hs))|].
  - destruct Hreach as (l & c0 & Hnew & Hrun). exists l, c0.(admission). split.
    + unfold new_controller in Hnew. by destruct (new_admission l); simplify_eq/=.
    + eapply run_mono; [|eapply crun_follows; [|exact Hrun]]; [done|by eapply new_controller_safe].
  - intros x c' Hstep. by apply cstep_follows.
Qed.

(** C24: A refused call leaves the controller as it was. There are two exceptions:
    backpressure leaves an empty queue entry for the device, and a retirement
    that fails because every record of the full history is behind a barrier has
    already been recorded. *)
Theorem refused_calls_leave_no_trace c k c' e :
  creachable c → perform c k = (c', Err e) →
  c' = c ∨
  (∃ operation owner capability metadata now_ms,
     k = CPrepare operation owner capability metadata now_ms ∧
     e = ExecutionError.BackpressureRejected ∧
     queue_touched c c' operation.(OperationRef.device_id)) ∨
  (is_Some (transition_of k) ∧ history_overflow c').
Proof. intros Hreach. apply perform_refused, (creachable_safe c Hreach). Qed.

(** C22: Every record follows its life cycle. A call changes a record only along
    [record_step], which says who may make the change and with what evidence; a
    restart settles it as [restart_record] does. *)
Theorem ledger_follows_lifecycle c x c' id :
  creachable c → cstep c x c' →
  match x with
  | Some k => record_step c k id (c.(operations) !! id) (c'.(operations) !! id)
  | None => c'.(operations) !! id = restart_record <$> c.(operations) !! id
  end.
Proof.
  intros Hs%creachable_safe Hstep. pose proof (cstep_cases c x c' Hs Hstep) as Hcase.
  destruct x as [k|].
  - destruct Hcase as [Hef|[->|[d ->]]]; [apply Hef|constructor|constructor].
  - destruct Hcase as (l & _ & _ & ->). cbn. apply lookup_fmap.
Qed.

(** C21: An outcome is recorded only with evidence that justifies it. A settled
    record has a receipt about this very operation whose evidence fits its state
    and history; nothing is claimed about an operation that is under way; an
    unknown outcome quarantines its device unless it was retired. *)
Theorem outcomes_are_justified c id r :
  creachable c → c.(operations) !! id = Some r →
  match r.(SafetyOperation.state) with
  | Completed | Failed | Cancelled =>
      ∃ x, r.(SafetyOperation.receipt) = Some x ∧ receipt_about r x ∧
           justified r x.(ExecutionReceipt.evidence)
  | Indeterminate =>
      r.(SafetyOperation.receipt) = None ∧ r.(SafetyOperation.recoverable_result) = None ∧
      (id ∈ c.(admission).(retired_indeterminate) ∨
       ∃ q, c.(quarantines) !! Ledger.device r = Some q ∧ q.(DesktopQuarantine.operation_id) = id)
  | _ => open_record r
  end.
Proof.
  intros [Hc _ _]%creachable_safe Hr. pose proof (ro_state _ (ci_ledger _ Hc id r Hr)) as Hok.
  unfold state_ok in Hok. destruct r.(SafetyOperation.state) eqn:Hst; try apply Hok.
  destruct Hok as (_ & _ & H1 & H2 & _). split_and!; [done|done|].
  destruct (decide (id ∈ c.(admission).(retired_indeterminate))) as [|Hn]; [by left|right].
  apply (blocked_quarantine c Hc), (occ_blocked _ _ _ _ _ _ (inv_occupancy _ (ci_admission _ Hc))).
  split; [|done]. exists (admitted_view r). split_and!; [by apply (admitted_record c Hc)|done|done].
Qed.

(** A preparation that gets no lane, or meets a barrier, is refused. *)
Lemma prepare_without_lane c operation owner capability metadata now_ms e :
  choose_lane c operation.(OperationRef.device_id) capability = Err e →
  ∃ e', prepare_with_metadata c operation owner capability metadata now_ms = (c, Err e').
Proof.
  intros Hl. unfold prepare_with_metadata. rewrite Hl.
  destruct (replayed_id _ _); [eauto|]. destruct (validate_metadata _ _); [|eauto].
  destruct (if bool_decide _ then _ else _); eauto.
Qed.

Lemma prepare_barred c operation owner capability metadata now_ms b :
  mutation_barrier c capability operation.(OperationRef.device_id) = Some b →
  ∃ e', prepare_with_metadata c operation owner capability metadata now_ms = (c, Err e').
Proof.
  unfold mutation_barrier. intros Hb. unfold prepare_with_metadata. rewrite Hb.
  destruct (replayed_id _ _); [eauto|]. destruct (validate_metadata _ _); eauto.
Qed.

Lemma crun_quarantined c c' d q :
  safe c → c.(quarantines) !! d = Some q →
  crun (λ x, ∀ k, x = Some k → ¬ releases_quarantine k q.(DesktopQuarantine.operation_id)) c c' →
  c'.(quarantines) !! d = Some q.
Proof.
  intros Hs Hq. induction 1 as [|x c' c'' Hrun IH Hok Hstep]; [done|].
  pose proof (crun_safe _ _ _ Hs Hrun) as Hs'.
  pose proof (cstep_cases _ _ _ Hs' Hstep) as Hcase. destruct x as [k|].
  - destruct Hcase as [Hef|[->|[d' ->]]]; [|done|done].
    destruct (ef_released _ _ _ Hef d q IH) as [|Hrel]; [done|]. by destruct (Hok k).
  - destruct Hcase as (l & _ & _ & ->). cbn.
    apply restarted_quarantines_lookup; [apply Hs'|by left].
Qed.

(** C19: A quarantine contains its device. Until its operation is reconciled,
    resolved or retired, over any calls and restarts: the quarantine stays as it
    is, no operation waits for the device, what runs on it are recovery reads,
    and every other capability is refused without effect. *)
Theorem quarantine_contains c c' d q :
  creachable c → c.(quarantines) !! d = Some q →
  crun (λ x, ∀ k, x = Some k → ¬ releases_quarantine k q.(DesktopQuarantine.operation_id)) c c' →
  c'.(quarantines) !! d = Some q ∧
  (∀ id r, c'.(operations) !! id = Some r → Ledger.device r = d →
     unsettled r.(SafetyOperation.state) = true →
     r.(SafetyOperation.state) ≠ Queued ∧
     r.(SafetyOperation.execution_lane) = OperationExecutionLane.RecoveryEvidenceRead ∧
     is_recovery_evidence_read_only r.(SafetyOperation.capability) = true) ∧
  (∀ operation owner capability metadata now_ms,
     operation.(OperationRef.device_id) = d → is_recovery_evidence_read_only capability = false →
     ∃ e, prepare_with_metadata c' operation owner capability metadata now_ms = (c', Err e)).
Proof.
  intros Hs%creachable_safe Hq Hrun. pose proof (crun_quarantined c c' d q Hs Hq Hrun) as Hq'.
  destruct (crun_safe _ _ _ Hs Hrun) as [Hc' _ [Hct _]]. split_and!; [done| |].
  - intros id r Hr Hd Hu. assert (r.(SafetyOperation.state) ≠ Queued) as Hnq
      by (eapply Hct; eauto).
    split; [done|]. apply unsettled_cases in Hu as [|Hl]; [done|].
    by apply (quarantined_reads c' d id r Hc').
  - intros operation owner capability metadata now_ms Hd Hcap. eapply prepare_without_lane.
    unfold choose_lane. by rewrite Hd, Hq', Hcap.
Qed.

Lemma crun_barred c c' d b :
  safe c → c.(mutation_resume_barriers) !! d = Some b →
  crun (λ x, ∀ k, x = Some k → ¬ lifts_barrier k d b) c c' →
  c'.(mutation_resume_barriers) !! d = Some b.
Proof.
  intros Hs Hb. induction 1 as [|x c' c'' Hrun IH Hok Hstep]; [done|].
  pose proof (cstep_cases _ _ _ (crun_safe _ _ _ Hs Hrun) Hstep) as Hcase. destruct x as [k|].
  - destruct Hcase as [Hef|[->|[d' ->]]]; [|done|done].
    destruct (ef_lifted _ _ _ Hef d b IH) as [|Hl]; [done|]. by destruct (Hok k).
  - by destruct Hcase as (l & _ & _ & ->).
Qed.

(** C20: A mutation barrier holds. Once the outcome of a pointer click was accepted
    as unknown, and until the local user resumes mutations on that device with a
    later generation, over any calls and restarts: the barrier stays, only
    observations are under way on the device, and every other capability is
    refused without effect. *)
Theorem mutation_barrier_holds c c' d b :
  creachable c → c.(mutation_resume_barriers) !! d = Some b →
  crun (λ x, ∀ k, x = Some k → ¬ lifts_barrier k d b) c c' →
  c'.(mutation_resume_barriers) !! d = Some b ∧
  (∀ id r, c'.(operations) !! id = Some r → Ledger.device r = d →
     unsettled r.(SafetyOperation.state) = true →
     class r.(SafetyOperation.capability) = CapabilityClass.Observe) ∧
  (∀ operation owner capability metadata now_ms,
     operation.(OperationRef.device_id) = d → class capability ≠ CapabilityClass.Observe →
     ∃ e, prepare_with_metadata c' operation owner capability metadata now_ms = (c', Err e)).
Proof.
  intros Hs%creachable_safe Hb Hrun. pose proof (crun_barred c c' d b Hs Hb Hrun) as Hb'.
  destruct (crun_safe _ _ _ Hs Hrun) as [_ _ [_ Hct]]. split_and!; [done| |].
  - intros id r. apply Hct. by exists b.
  - intros operation owner capability metadata now_ms Hd Hcap.
    apply (prepare_barred _ _ _ _ _ _ b). unfold mutation_barrier.
    rewrite bool_decide_false by done. by rewrite Hd.
Qed.

Lemma run_remembered ok a a' id :
  inv a → remembered a id → (∀ x, ok x → establishes id x = false) → run ok a a' → remembered a' id.
Proof.
  intros Hinv Hrem Hok. induction 1 as [|x a' a'' Hrun IH Hx Hstep]; [done|].
  eapply step_remembered; [by eapply run_inv|done|by apply Hok|done].
Qed.

(** The calls that establish the outcome of [id]. *)
Definition establishes_outcome (id : string) (x : option ccall) : Prop :=
  match x with
  | Some (CResolve id' _ _ _ _) => id' = id
  | Some (CReconcile t _) => evidence_id t = id
  | _ => False
  end.

Lemma behind_establishes id x a :
  ¬ establishes_outcome id x → behind x a → establishes id a = false.
Proof.
  intros Hne Hb. destruct x as [k|]; [|by rewrite Hb]. destruct Hb as (a' & -> & Himp).
  destruct a'; try done; cbn in Himp; destruct k; try done; apply bool_decide_false; cbn in Hne;
    naive_solver.
Qed.

Lemma admit_remembered a operation :
  remembered a operation.(OperationRef.operation_id) →
  ∃ e, admit_operation a operation = (a, Err e).
Proof.
  intros Hrem. unfold admit_operation. destruct (blank_operation operation); [eauto|].
  destruct Hrem as [Hret|Hst]; [rewrite (bool_decide_true (_ ∈ _)), orb_true_r by done; eauto|].
  unfold operation_state in Hst. destruct (_ !! _) as [o|] eqn:Ho; [|done].
  rewrite (bool_decide_true (is_Some _)) by eauto. eauto.
Qed.

(** C7: The identifier of an operation whose outcome became unknown is not taken for
    another execution. Over any calls, retirement, rotation and pruning included, and
    restarts, unless its outcome was established, every attempt to prepare an operation
    under that identifier is refused without effect, for every owner and every
    capability, with one exception: a recovery read, on a device that is quarantined,
    once the outcome was retired and nothing but its tombstone is left of the operation
    (not in the ledger, the archive or the retirement history). The controller then
    asks the recovery lane, which does not consult the tombstones
    ([recovery_lane_reuses_retired_identifier]). *)
Theorem unknown_outcome_identifier_refused c c' id r :
  creachable c → c.(operations) !! id = Some r → r.(SafetyOperation.state) = Indeterminate →
  crun (λ x, ¬ establishes_outcome id x) c c' →
  ∀ operation owner capability metadata now_ms,
    operation.(OperationRef.operation_id) = id →
    (∃ e, prepare_with_metadata c' operation owner capability metadata now_ms = (c', Err e)) ∨
    (is_recovery_evidence_read_only capability = true ∧
     is_Some (c'.(quarantines) !! operation.(OperationRef.device_id)) ∧
     id ∈ c'.(admission).(retired_indeterminate) ∧ replayed_id c' id = false).
Proof.
  intros Hs%creachable_safe Hr Hst Hrun operation owner capability metadata now_ms Hid.
  assert (remembered c'.(admission) id) as Hrem.
  { eapply run_remembered; [apply (ci_admission _ (sf_cinv _ Hs))| | |by eapply crun_follows].
    - right. unfold operation_state. rewrite (admitted_record c (sf_cinv _ Hs) id r Hr). cbn. by f_equal.
    - intros a (x & Hx & Ha). by eapply behind_establishes. }
  destruct (crun_safe _ _ _ Hs Hrun) as [Hc' _ _].
  destruct (choose_lane c' operation.(OperationRef.device_id) capability) as [lane|e] eqn:Hl;
    [|left; by eapply prepare_without_lane].
  destruct (replayed_id c' id) eqn:Hreplay.
  { left. unfold prepare_with_metadata. rewrite Hid, Hreplay. eauto. }
  destruct lane.
  - left. destruct (admit_remembered c'.(admission) operation) as [e He]; [by rewrite Hid|].
    unfold prepare_with_metadata. rewrite Hl, Hid, Hreplay.
    destruct (validate_metadata _ _); [|eauto]. destruct (if bool_decide _ then _ else _); [eauto|].
    exists e. unfold on_admission, admit_in_lane. rewrite He. cbn [fst snd].
    by rewrite set_admission_id.
  - right. unfold choose_lane in Hl. destruct (c'.(quarantines) !! _); [|done].
    destruct (is_recovery_evidence_read_only capability); [|done]. split_and!; [done|by eexists| |done].
    destruct Hrem as [?|Hi]; [done|]. exfalso. unfold operation_state in Hi.
    rewrite <- (ci_view _ Hc') in Hi. unfold replayed_id in Hreplay. split_bools.
    rewrite view_lookup in Hi. destruct (c'.(operations) !! id); [|done]. naive_solver.
Qed.

(** C23: A restart restores the controller's own snapshot exactly when the state is
    [restorable], and then to the restarted controller: operations that were not
    dispatched are cancelled, interrupted recovery reads have failed, other
    dispatched operations are unknown and quarantine their devices, and all else
    (archive, resolutions, retirements, barriers, resumes, tombstones) is kept. *)
Theorem controller_restart_iff c l :
  creachable c → (0 < l.(max_global_active))%N →
  (restorable c → ∃ s, snapshot_controller c = Some s ∧
     restore_controller l s = Ok (restarted_controller c l)) ∧
  (∀ s c', snapshot_controller c = Some s → restore_controller l s = Ok c' →
     restorable c ∧ c' = restarted_controller c l).
Proof.
  intros [Hc Ha _]%creachable_safe Hl. split.
  - intros Hrs. destruct (restorable_snapshot c Hc Hrs) as [s Hs]. exists s. split; [done|].
    by destruct (restore_own c l s Hc Ha Hl Hs) as [[_ ?]|[? _]].
  - intros s c' Hs Hr. destruct (restore_own c l s Hc Ha Hl Hs) as [[? ?]|[_ [e ?]]]; [|congruence].
    split; [done|congruence].
Qed.

(** *** Recoverable results *)

(** What the owner is told of a record, and of an archive entry. *)
Definition ledger_answer r : OperationRecoverySnapshot :=
  OperationRecoverySnapshot.mk r.(SafetyOperation.operation) r.(SafetyOperation.capability)
    r.(SafetyOperation.state) r.(SafetyOperation.indeterminate_reason) r.(SafetyOperation.receipt)
    r.(SafetyOperation.recoverable_result).

Definition archived_answer (a : ArchivedOperationRecovery) : OperationRecoverySnapshot :=
  OperationRecoverySnapshot.mk a.(ArchivedOperationRecovery.operation)
    a.(ArchivedOperationRecovery.capability) a.(ArchivedOperationRecovery.state) None
    (Some a.(ArchivedOperationRecovery.receipt)) (Some a.(ArchivedOperationRecovery.result)).

(** A settled record and its archive entry answer alike. *)
Lemma archived_like r a :
  record_ok r → settled r.(SafetyOperation.state) = true → archive_entry r = Ok a →
  a.(ArchivedOperationRecovery.owner) = r.(SafetyOperation.owner) ∧
  ledger_answer r = archived_answer a.
Proof.
  intros [_ Hok _] Hs Ha. unfold state_ok in Hok.
  assert (r.(SafetyOperation.indeterminate_reason) = None) as Hreason
    by (destruct r.(SafetyOperation.state); try done; apply Hok).
  unfold archive_entry in Ha. unfold ledger_answer. rewrite Hreason.
  destruct r.(SafetyOperation.receipt), r.(SafetyOperation.recoverable_result); by simplify_eq/=.
Qed.

(** What an owner is told by the ledger or else the archive *)
Definition answers c (id : string) (owner : OperationOwner) (x : OperationRecoverySnapshot) : Prop :=
  (∃ r, c.(operations) !! id = Some r ∧ r.(SafetyOperation.owner) = owner ∧ x = ledger_answer r) ∨
  (∃ a, c.(recovery_archive) !! id = Some a ∧ a.(ArchivedOperationRecovery.owner) = owner ∧
     x = archived_answer a).

(** The answer of [recovery_for_owner] *)
Lemma recovery_for_owner_Ok c id owner x :
  cinv c →
  recovery_for_owner c id owner = Ok x ↔ answers c id owner x.
Proof.
  intros Hc. unfold answers, recovery_for_owner, opt_filter. pose proof (ci_archive _ Hc id) as Harch.
  destruct (c.(operations) !! id) as [r|] eqn:Hr, (c.(recovery_archive) !! id) as [a|] eqn:Ha; cbn.
  1: by destruct (Harch a eq_refl) as (_ & _ & ?).
  all: repeat case_bool_decide; naive_solver.
Qed.

(** A result the prune meets stays recoverable, unless everything kept is newer. *)
Lemma kept_or_older c c' d g id a owner :
  pruned c c' d g →
  c.(recovery_archive) !! id = Some a ∨ (∃ r, c.(operations) !! id = Some r ∧
    prunable_record d g r = true ∧ archive_entry r = Ok a) →
  a.(ArchivedOperationRecovery.owner) = owner →
  answers c' id owner (archived_answer a) ∨
  ∃ y, (archived_answer a).(OperationRecoverySnapshot.receipt) = Some y ∧
    ∀ id' b, c'.(recovery_archive) !! id' = Some b →
      (y.(ExecutionReceipt.finalized_at_ms) ≤ archived_at b)%N.
Proof.
  intros Hp Ha Ho. destruct (pr_kept _ _ _ _ Hp id a Ha) as [Hk|Hold]; [left; right; by exists a|].
  right. eexists. split; [done|]. intros id' b Hb. specialize (Hold id' b Hb).
  unfold archived_before in Hold. apply orb_false_iff in Hold as [Hlt%N.ltb_ge _].
  exact Hlt.
Qed.

Lemma pruned_answers_before c c' d g id owner x :
  cinv c → pruned c c' d g → answers c' id owner x → answers c id owner x.
Proof.
  intros Hc Hp [(r & Hr & Ho & ->)|(a & Ha & Ho & ->)].
  - left. exists r. split; [|done]. rewrite (pr_ops _ _ _ _ Hp) in Hr.
    destruct (c.(operations) !! id) as [r0|]; [|done]. by destruct (prunable_record d g r0).
  - destruct (pr_archive _ _ _ _ Hp id a Ha) as [Ha'|(r & Hr & Hpr & He)]; [right; by exists a|].
    left. exists r. unfold prunable_record in Hpr. split_bools.
    destruct (archived_like r a) as [Hw Heq]; [by eapply (ci_ledger _ Hc)|done..|].
    split_and!; [done|congruence|done].
Qed.

Lemma pruned_answers_after c c' d g id owner x :
  cinv c → pruned c c' d g → answers c id owner x →
  answers c' id owner x ∨
  match x.(OperationRecoverySnapshot.result) with
  | None =>
      settled x.(OperationRecoverySnapshot.state) = true ∧
      x.(OperationRecoverySnapshot.operation).(OperationRef.device_id) = d ∧
      (x.(OperationRecoverySnapshot.operation).(OperationRef.device_generation) < g)%N
  | Some _ =>
      ∃ y, x.(OperationRecoverySnapshot.receipt) = Some y ∧
        ∀ id' b, c'.(recovery_archive) !! id' = Some b →
          (y.(ExecutionReceipt.finalized_at_ms) ≤ archived_at b)%N
  end.
Proof.
  intros Hc Hp [(r & Hr & Ho & ->)|(a & Ha & Ho & ->)];
    [|by apply (kept_or_older c c' d g id a owner Hp); auto].
  destruct (prunable_record d g r) eqn:Hpr.
  - pose proof (ci_ledger _ Hc id r Hr) as Hok. pose proof Hpr as Hs.
    unfold prunable_record in Hs. split_bools. cbn.
    destruct r.(SafetyOperation.recoverable_result) as [result|] eqn:Hres; [|by right].
    destruct (archive_entry_valid r Hok) as (a & Ha & _); [done|by rewrite Hres|].
    destruct (archived_like r a Hok) as [Hw Heq]; [done..|].
    assert (r.(SafetyOperation.receipt) = (archived_answer a).(OperationRecoverySnapshot.receipt))
      as -> by by rewrite <- Heq. rewrite Heq.
    apply (kept_or_older c c' d g id a owner Hp); [right; by exists r|congruence].
  - left. left. exists r. split; [|done]. by rewrite (pr_ops _ _ _ _ Hp), Hr, Hpr.
Qed.

Lemma recovery_for_owner_cases c id owner :
  is_ok (recovery_for_owner c id owner) = false →
  recovery_for_owner c id owner = Err ExecutionError.UnknownOperation.
Proof. unfold recovery_for_owner. by repeat case_match. Qed.


(** C26: A result attached to a settled operation is returned, with its receipt, to
    the owner who attached it and to nobody else, and is never replaced. *)
Theorem attached_result_is_the_owners c id owner g result c' :
  creachable c → attach_recoverable_result c id owner g result = (c', Ok tt) →
  (∃ x, recovery_for_owner c' id owner = Ok x ∧
     x.(OperationRecoverySnapshot.operation).(OperationRef.operation_id) = id ∧
     settled x.(OperationRecoverySnapshot.state) = true ∧
     is_Some x.(OperationRecoverySnapshot.receipt) ∧
     x.(OperationRecoverySnapshot.result) = Some result) ∧
  (∀ owner', owner' ≠ owner → recovery_for_owner c' id owner' = Err ExecutionError.UnknownOperation) ∧
  (∀ owner' g' result', ∃ e, attach_recoverable_result c' id owner' g' result' = (c', Err e)).
Proof.
  intros [Hc _ _]%creachable_safe Hrun. destruct (attach_Ok _ _ _ _ _ _ _ Hrun)
    as (r & (Hr & Ho & Hg)%checked_Ok & Hrec & Hnone & _ & ->).
  assert (c.(recovery_archive) !! id = None) as Harch.
  { destruct (c.(recovery_archive) !! id) as [a|] eqn:Ha; [|done].
    destruct (ci_archive _ Hc id a Ha) as (_ & _ & ?). congruence. }
  split_and!.
  - exists (ledger_answer (Ledger.set_result r (Some result))).
    unfold recovery_for_owner. cbn [put set_operations operations]. rewrite lookup_insert_eq. cbn.
    rewrite bool_decide_true by done. split_and!; [done|by apply (record_key c Hc)| |done|done].
    by apply (receipt_settled r); [eapply (ci_ledger _ Hc)|].
  - intros owner' Hne. unfold recovery_for_owner. cbn [put set_operations operations recovery_archive].
    rewrite lookup_insert_eq. cbn. rewrite bool_decide_false by congruence. by rewrite Harch.
  - intros owner' g' result'. unfold attach_recoverable_result, checked.
    cbn [put set_operations operations]. rewrite lookup_insert_eq.
    destruct (negb _ || _); [eauto|]. cbn [Ledger.set_result Ledger.amend
      SafetyOperation.recoverable_result opt_some]. rewrite orb_true_r. eauto.
Qed.
End Theorems.

(** ** Witnesses *)

Module ControllerExamples.
#[export] Existing Instance canonical_hash_iter.
Export ReplayDenyTombstone.Examples.

(** Every result is serialized to a hundred bytes. *)
#[export] Instance hundred_bytes : RecoverySerializer := {
  archived_json_len _ := Some 100%N;
  result_json_len _ := Some 100%N
}.

Definition two_slots : AdmissionLimits := mk_limits 2 4.
Definition alice : OperationOwner := OperationOwner.mk "issuer" "alice".
Definition bob : OperationOwner := OperationOwner.mk "issuer" "bob".
Definition op (d : string) (g : N) (id : string) : OperationRef := OperationRef.mk d g id.
Definition start_state : AuthoritativeOperationController :=
  mk_controller (empty_admission two_slots) ∅ ∅ ∅ [] [] [] ∅ [].

Definition perform_all (c : AuthoritativeOperationController) (ks : list ccall)
    : AuthoritativeOperationController := foldl (λ c k, (perform c k).1) c ks.

(** The history stays within its limit all along. *)
Fixpoint history_bounded (c : AuthoritativeOperationController) (ks : list ccall) : bool :=
  match ks with
  | [] => true
  | k :: ks => (vlen (perform c k).1.(retirements) <=? MAX_RETIREMENT_RECORDS)%N
               && history_bounded (perform c k).1 ks
  end.

Lemma crun_call ok c k c' :
  ok (Some k) → (vlen (perform c k).1.(retirements) ≤ MAX_RETIREMENT_RECORDS)%N →
  crun ok (perform c k).1 c' → crun ok c c'.
Proof.
  intros Hok Hlen. induction 1 as [|x c' c'' _ IH Hx Hstep];
    [eapply crun_step; [constructor|done|by apply cstep_call]|by eapply crun_step].
Qed.

Lemma bounded_history c k :
  (vlen (perform c k).1.(retirements) <=? MAX_RETIREMENT_RECORDS)%N = true →
  (vlen (perform c k).1.(retirements) ≤ MAX_RETIREMENT_RECORDS)%N.
Proof. apply N.leb_le. Qed.

Lemma creachable_call c k :
  creachable c → (vlen (perform c k).1.(retirements) <=? MAX_RETIREMENT_RECORDS)%N = true →
  creachable (perform c k).1.
Proof.
  intros (l & c0 & Hnew & Hrun) Hb. exists l, c0. split; [done|].
  eapply crun_step; [done|done|]. by apply cstep_call, bounded_history.
Qed.

Lemma perform_all_run ok c ks :
  Forall (λ k, ok (Some k)) ks → history_bounded c ks = true → crun ok c (perform_all c ks).
Proof.
  intros Hok. revert c. induction Hok as [|k ks Hk _ IH]; intros c; cbn; [constructor|].
  intros [Hlen%N.leb_le Hb]%andb_true_iff. apply (crun_call ok c k); [done|done|]. by apply IH.
Qed.

Lemma perform_all_reachable ks :
  history_bounded start_state ks = true → creachable (perform_all start_state ks).
Proof.
  intros Hb. exists two_slots, start_state. split; [done|].
  apply perform_all_run; [by apply Forall_true|done].
Qed.

(** A click of alice on [dev_a] loses its connection: the device is quarantined. *)
Definition prepare_as (o : OperationRef) (capability : DeviceCapability) (now_ms : N) : ccall :=
  CPrepare o alice capability empty_metadata now_ms.

Definition lost_click : list ccall :=
  [prepare_as (op "dev_a" 1 "op_1") DeviceCapability.PointerClick 10;
   CDispatch "op_1" alice 1 None 11; CConnectionLost "op_1" 12].

Definition c_lost : AuthoritativeOperationController := perform_all start_state lost_click.

Lemma lost_click_reachable : creachable c_lost.
Proof. apply perform_all_reachable. by_eval. Qed.

(** The user accepts the current state: mutations wait for the user. *)
Definition accept_click : ccall :=
  CAccept "op_1" RetirementPolicy.AcknowledgedUnknownPointerClickV1 "seen" 2 20.

Definition c_barred : AuthoritativeOperationController := (perform c_lost accept_click).1.

Lemma accepted_click_reachable : creachable c_barred.
Proof. refine (creachable_call _ _ lost_click_reachable _). by_eval. Qed.

Lemma controller_refines_admission_witness : AdmissionTheorems.reachable c_barred.(admission).
Proof. exact (proj1 (controller_refines_admission c_barred accepted_click_reachable)). Defined.

Definition type_on (d id : string) : ccall := prepare_as (op d 2 id) DeviceCapability.TypeText 30.

Lemma refused_calls_leave_no_trace_witness :
  let e := ExecutionError.DeviceIndeterminate "op_1" in
  perform c_lost (type_on "dev_a" "op_2") = (c_lost, Err e) ∧
  (c_lost = c_lost ∨
   (∃ operation owner capability metadata now_ms,
      type_on "dev_a" "op_2" = CPrepare operation owner capability metadata now_ms ∧
      e = ExecutionError.BackpressureRejected ∧
      queue_touched c_lost c_lost operation.(OperationRef.device_id)) ∨
   (is_Some (transition_of (type_on "dev_a" "op_2")) ∧ history_overflow c_lost)).
Proof.
  assert (perform c_lost (type_on "dev_a" "op_2")
          = (c_lost, Err (ExecutionError.DeviceIndeterminate "op_1"))) as H by by_eval.
  split; [exact H|]. exact (refused_calls_leave_no_trace _ _ _ _ lost_click_reachable H).
Defined.

Lemma ledger_follows_lifecycle_witness :
  opt_some (c_lost.(operations) !! "op_1") = true ∧
  record_step c_lost (COperatorRequired "op_1") "op_1" (c_lost.(operations) !! "op_1")
    ((perform c_lost (COperatorRequired "op_1")).1.(operations) !! "op_1").
Proof.
  split; [by_eval|].
  refine (ledger_follows_lifecycle c_lost (Some (COperatorRequired "op_1")) _ "op_1"
            lost_click_reachable (cstep_call _ _ (bounded_history _ _ _))). by_eval.
Defined.

Lemma op_1_lost :
  ∃ r, c_lost.(operations) !! "op_1" = Some r ∧ r.(SafetyOperation.state) = Indeterminate.
Proof.
  assert (SafetyOperation.state <$> c_lost.(operations) !! "op_1" = Some Indeterminate) as H by by_eval.
  apply fmap_Some in H as (r & Hr & Hst). exact (ex_intro _ r (conj Hr (eq_sym Hst))).
Qed.

Lemma outcomes_are_justified_witness :
  ∃ r, c_lost.(operations) !! "op_1" = Some r ∧ r.(SafetyOperation.state) = Indeterminate ∧
    ("op_1" ∈ c_lost.(admission).(retired_indeterminate) ∨
     ∃ q, c_lost.(quarantines) !! Ledger.device r = Some q ∧
          q.(DesktopQuarantine.operation_id) = "op_1").
Proof.
  destruct op_1_lost as (r & Hr & Hst). exists r. split; [exact Hr|]. split; [exact Hst|].
  pose proof (outcomes_are_justified c_lost "op_1" r lost_click_reachable Hr) as H.
  rewrite Hst in H. exact (proj2 (proj2 H)).
Defined.

(** A window is inspected while [dev_a] is quarantined. *)
Definition read_call : ccall :=
  prepare_as (op "dev_a" 2 "op_read") DeviceCapability.InspectWindow 40.

Lemma quarantine_contains_witness :
  ∃ q e, (perform c_lost read_call).1.(quarantines) !! "dev_a" = Some q ∧
    perform (perform c_lost read_call).1 (type_on "dev_a" "op_3")
    = ((perform c_lost read_call).1, Err e).
Proof.
  assert (DesktopQuarantine.operation_id <$> c_lost.(quarantines) !! "dev_a" = Some "op_1") as Hq
    by by_eval. apply fmap_Some in Hq as (q & Hq & Hid). exists q.
  assert (crun (λ x, ∀ k, x = Some k → ¬ releases_quarantine k q.(DesktopQuarantine.operation_id)) c_lost
            (perform c_lost read_call).1) as Hrun.
  { refine (crun_call _ c_lost read_call _ _ (bounded_history _ _ _) (crun_refl _ _)); [|by_eval].
    intros k Hk. injection Hk as <-. exact (λ H, H). }
  destruct (quarantine_contains c_lost _ "dev_a" _ lost_click_reachable Hq Hrun) as (H1 & _ & H3).
  destruct (H3 (op "dev_a" 2 "op_3") alice DeviceCapability.TypeText empty_metadata 30%N eq_refl
              eq_refl) as [e He].
  exists e. split; [exact H1|]. cbn [perform type_on prepare_as]. rewrite He. reflexivity.
Defined.

Lemma mutation_barrier_holds_witness :
  ∃ b e, c_barred.(mutation_resume_barriers) !! "dev_a" = Some b ∧
    perform c_barred (type_on "dev_a" "op_2") = (c_barred, Err e).
Proof.
  assert (MutationResumeBarrier.device_id <$> c_barred.(mutation_resume_barriers) !! "dev_a"
          = Some "dev_a") as Hb by by_eval. apply fmap_Some in Hb as (b & Hb & _). exists b.
  destruct (mutation_barrier_holds c_barred c_barred "dev_a" _ accepted_click_reachable Hb
              (crun_refl _ _)) as (H1 & _ & H3).
  destruct (H3 (op "dev_a" 2 "op_2") alice DeviceCapability.TypeText empty_metadata 30%N eq_refl)
    as [e He]; [discriminate|].
  exists e. split; [exact H1|]. cbn [perform type_on prepare_as]. rewrite He. reflexivity.
Defined.

Lemma unknown_outcome_identifier_refused_witness :
  ∃ e, perform c_barred (type_on "dev_b" "op_1") = (c_barred, Err e).
Proof.
  destruct op_1_lost as (r & Hr & Hst).
  assert (crun (λ x, ¬ establishes_outcome "op_1" x) c_lost c_barred) as Hrun.
  { refine (crun_call (λ x, ¬ establishes_outcome "op_1" x) c_lost accept_click c_barred (λ H, H)
      (bounded_history _ _ _) (crun_refl _ _)). by_eval. }
  destruct (unknown_outcome_identifier_refused c_lost c_barred "op_1" r lost_click_reachable Hr
    Hst Hrun (op "dev_b" 2 "op_1") alice DeviceCapability.TypeText empty_metadata 30%N
    eq_refl) as [[e He]|[Hc _]]; [|discriminate Hc].
  exists e. cbn [perform type_on prepare_as]. rewrite He. reflexivity.
Defined.

Lemma controller_restart_iff_witness : restorable c_barred.
Proof.
  assert (match snapshot_controller c_barred with
          | Some s => is_ok (restore_controller two_slots s) | None => false end = true) as Hok
    by by_eval.
  pose proof (proj2 (controller_restart_iff c_barred two_slots accepted_click_reachable
    eq_refl)) as Hsound.
  destruct (snapshot_controller c_barred) as [s|]; [|discriminate Hok].
  destruct (restore_controller two_slots s) as [c'|] eqn:Hr; [|discriminate Hok].
  exact (proj1 (Hsound s c' eq_refl Hr)).
Defined.

(** A click of alice that completes, its result, and the prune of its generation. *)
Definition settled_click : list ccall :=
  [prepare_as (op "dev_a" 1 "op_1") DeviceCapability.PointerClick 10;
   CDispatch "op_1" alice 1 None 11;
   CFinalize "op_1" alice 1 Completed ExecutionEvidence.VerifiedAgentResult 12].

Definition c_settled : AuthoritativeOperationController := perform_all start_state settled_click.

Lemma settled_click_reachable : creachable c_settled.
Proof. apply perform_all_reachable. by_eval. Qed.

Definition attach_click : ccall := CAttach "op_1" alice 1 RecoverableOperationResult.EffectfulStatus.
Definition c_attached : AuthoritativeOperationController := (perform c_settled attach_click).1.

Lemma attach_click_reachable : creachable c_attached.
Proof. refine (creachable_call _ _ settled_click_reachable _). by_eval. Qed.

Lemma paired {A B} (p : A * B) a b : p.1 = a → p.2 = b → p = (a, b).
Proof. destruct p. by intros <- <-. Qed.

Lemma attached_result_is_the_owners_witness :
  recovery_for_owner c_attached "op_1" bob = Err ExecutionError.UnknownOperation.
Proof.
  assert (attach_recoverable_result c_settled "op_1" alice 1
            RecoverableOperationResult.EffectfulStatus = (c_attached, Ok tt)) as H.
  { by apply paired; [|by_eval]. }
  refine (proj1 (proj2 (attached_result_is_the_owners _ _ _ _ _ _ settled_click_reachable H)) bob _).
  discriminate.
Defined.

Definition c_pruned : AuthoritativeOperationController := (perform c_attached (CPrune "dev_a" 2)).1.

End ControllerExamples.
