(* ===== verification/ControllerDevice.v ===== *)
(** * The controller of one device

    A Hub serves one device. Then at most one mutation barrier is active, so the
    retirement history never exceeds its limit, whatever the calls are: the runs of
    such a controller need no assumption on it. *)

From S2P Require Import Prelude Vocabulary Protocol Tombstone Admission AdmissionSafety.
From S2P Require Import SafetyTypes Evidence Controller ControllerSnapshot ControllerLedger.
From S2P Require Import ControllerRetirement ControllerCalls ControllerRestart ControllerTheorems.
Import HubOperationState Controller ControllerSnapshot.

(** The calls of a Hub of device [d]: it admits operations of this device only. *)
Definition of_device (d : string) (k : ccall) : Prop :=
  match k with
  | CPrepare operation _ _ _ _ => operation.(OperationRef.device_id) = d
  | _ => True
  end.

Section Device.
Context `{HI : HashIter} `{B64 : Base64Url, B64L : !Base64UrlLaws} `{RS : RecoverySerializer}.
Variable d : string.
Implicit Types (c : AuthoritativeOperationController) (k : ccall) (r : SafetyOperation).

Record one_device c : Prop := {
  od_records : ∀ id r, c.(operations) !! id = Some r → Ledger.device r = d;
  od_barriers : ∀ d', is_Some (c.(mutation_resume_barriers) !! d') → d' = d
}.

Lemma one_device_quarantines c d' :
  cinv c → one_device c → is_Some (c.(quarantines) !! d') → d' = d.
Proof.
  intros Hc Hd [q Hq]. destruct (ci_quarantines _ Hc d' q Hq) as (r & Hr & _ & <- & _).
  by eapply od_records.
Qed.

(** No change of a record moves it to another device. *)
Lemma record_step_device c k id o r' :
  record_step c k id o (Some r') → of_device d k → (∀ r, o = Some r → Ledger.device r = d) →
  Ledger.device r' = d.
Proof.
  intros Hstep Hk Ho. inversion Hstep; subst; try (by apply Ho); try (by rewrite <- (Ho _ eq_refl)).
  exact Hk.
Qed.

Lemma effect_one_device c k c' :
  cinv c → one_device c → of_device d k → effect c k c' → one_device c'.
Proof.
  intros Hc Hd Hk Hef. split.
  - intros id r Hr. pose proof (ef_records _ _ _ Hef id) as Hstep. rewrite Hr in Hstep.
    eapply record_step_device; [done..|]. intros r0 Hr0. by eapply od_records.
  - intros d' [b Hb]. destruct (ef_barred _ _ _ Hef d' b Hb) as [Hold|Hq];
      [by apply od_barriers with c|by apply one_device_quarantines with c].
Qed.

Lemma NoDup_all_equal {A} (l : list A) a : NoDup l → (∀ x, x ∈ l → x = a) → length l ≤ 1.
Proof.
  intros Hnd Hall. destruct l as [|x [|y l]]; cbn; [lia..|]. exfalso.
  apply NoDup_cons in Hnd as [Hx _]. apply Hx.
  rewrite (Hall x), <- (Hall y) by set_solver. by left.
Qed.

(** A history that is full of active barriers has barriers of several devices. *)
Lemma retire_no_overflow c id tr c' e :
  cinv c → one_device c → retire_indeterminate_with_disposition c id tr = (c', Err e) → c' = c.
Proof.
  intros Hc Hd Hrun.
  destruct (retire_spec c id tr Hc) as [[e' He]|[(c1 & He & Hlen & Hall & Hnd & Hbars)|
    (c1 & next & t & Hrun' & _)]]; [congruence| |congruence]. exfalso.
  assert (∀ d', is_Some (c1.(mutation_resume_barriers) !! d') → d' = d) as Hone.
  { intros d' [?|?]%Hbars; [by apply od_barriers with c|by apply one_device_quarantines with c]. }
  assert (∃ a, ∀ x, x ∈ retired_ref <$> c1.(retirements) → x = a) as [a Ha].
  { destruct (c1.(mutation_resume_barriers) !! d) as [b|] eqn:Hb.
    - exists b.(MutationResumeBarrier.source_operation_id). intros x (t & -> & Ht)%list_elem_of_fmap.
      apply Hall in Ht. destruct (decide (b.(MutationResumeBarrier.source_operation_id) = retired_ref t));
        [done|]. apply not_false_iff_true in Ht. destruct Ht. apply barrier_source_false.
      intros d' b' Hb'. rewrite (Hone d') in Hb' by done. congruence.
    - exists "". intros x (t & -> & Ht)%list_elem_of_fmap. apply Hall in Ht.
      apply not_false_iff_true in Ht. destruct Ht. apply barrier_source_false.
      intros d' b' Hb'. rewrite (Hone d') in Hb' by done. congruence. }
  pose proof (NoDup_all_equal _ a Hnd Ha) as Hle. rewrite length_fmap in Hle.
  unfold vlen, MAX_RETIREMENT_RECORDS in Hlen. lia.
Qed.

(** Every call, refused or not, keeps to the device and within the limit. *)
Lemma perform_one_device c k :
  cinv c → one_device c → of_device d k →
  one_device (perform c k).1 ∧ cstep c (Some k) (perform c k).1.
Proof.
  intros Hc Hd Hk.
  assert (one_device (perform c k).1
          ∧ (vlen (perform c k).1.(retirements) ≤ MAX_RETIREMENT_RECORDS)%N) as [Hd' Hlen];
    [|split; [done|by apply cstep_call]].
  destruct (perform c k) as [c' [u|e]] eqn:Hrun; cbn.
  { pose proof (perform_effect c k c' u Hc Hrun) as Hef. split; [by eapply effect_one_device|].
    apply (ci_history _ (ef_cinv _ _ _ Hef)). }
  assert (c' = c ∨ ∃ d', queue_touched c c' d') as [->|[d' ->]].
  { destruct (perform_refused c k c' e Hc Hrun) as [->|[(? & ? & ? & ? & ? & _ & _ & Hq)|[Htr _]]];
      [by left|right; by eexists|]. left. destruct k; cbn in Htr; try by destruct Htr.
    - apply erase_Err in Hrun. unfold retire_indeterminate_by in Hrun.
      destruct (negb _); [congruence|]. by eapply retire_no_overflow.
    - apply erase_Err in Hrun. by eapply retire_no_overflow. }
  - split; [done|apply Hc].
  - split; [destruct Hd; by split|apply Hc].
Qed.

Lemma restart_one_device c c' : safe c → one_device c → cstep c None c' → one_device c'.
Proof.
  intros Hs Hd Hstep. destruct (cstep_cases c None c' Hs Hstep) as (l & _ & _ & ->). split; cbn.
  - intros id r. rewrite lookup_fmap. intros (r0 & Hr0 & ->)%fmap_Some.
    rewrite <- (od_records _ Hd id r0 Hr0). unfold restart_record.
    destruct r0.(SafetyOperation.state); try done. all: by case_match.
  - apply Hd.
Qed.

Lemma new_one_device l c : new_controller l = Ok c → one_device c.
Proof.
  unfold new_controller. destruct (new_admission l); [|done]. intros [= <-].
  split; [by intros id r|by intros d' [b Hb]].
Qed.
End Device.
