(* ===== verification/ControllerFindings.v ===== *)
(** * States the Hub reaches and cannot restore

    Concrete histories of the operation controller, made of public calls only,
    after which the Hub's own snapshot is refused on restart. Each breaks one
    condition of [restorable]. *)

From S2P Require Import Prelude Vocabulary Protocol Tombstone Admission SafetyTypes.
From S2P Require Import Evidence Controller ControllerSnapshot ControllerCalls.
From S2P Require Import ControllerTheorems.
Import HubOperationState Controller ControllerSnapshot ControllerExamples.

(** What restoring the controller's own snapshot gives. *)
Definition restart_result (c : AuthoritativeOperationController) : option (option ExecutionError) :=
  (λ s, match restore_controller two_slots s with Ok _ => None | Err e => Some e end)
  <$> snapshot_controller c.

(** A screenshot is taken while mutations wait for the user, and its connection
    is lost: the device is now quarantined and barred. *)
Definition barred_screenshot : list ccall :=
  [prepare_as (op "dev_a" 2 "op_2") DeviceCapability.Screenshot 30;
   CDispatch "op_2" alice 2 None 31].

Definition c_observing : AuthoritativeOperationController := perform_all c_barred barred_screenshot.

(** A barred device may be observed, but a restart while the observation is on
    the device, or after its connection was lost, finds a snapshot it refuses:
    the operation quarantines the device, and the restore accepts no device that
    is both barred and quarantined. *)
Lemma observation_under_barrier_is_unrestorable :
  state_of c_observing "op_2" = Some Dispatched ∧
  restart_result c_barred = Some None ∧
  restart_result c_observing = Some (Some ExecutionError.InvalidSnapshot) ∧
  restart_result (perform_all c_observing [CConnectionLost "op_2" 32])
    = Some (Some ExecutionError.InvalidSnapshot).
Proof. split_and!; by_eval. Qed.

(** Sixty-five clicks on one device whose frames were never enqueued. *)
Definition binding : OperationDispatchBinding := OperationDispatchBinding.mk 1 "grant".

Definition id_of (n : nat) : string := "op_" +:+ String (Ascii.ascii_of_nat (48 + n)) "".

Definition undelivered (n : nat) : list ccall :=
  [prepare_as (op "dev_a" 1 (id_of n)) DeviceCapability.PointerClick 10;
   CDispatch (id_of n) alice 1 (Some binding) 11;
   CNonDelivery (id_of n) alice 1 binding ExecutionEvidence.HubEncodeFailedBeforeEnqueue 12].

Definition after_undelivered (n : nat) : AuthoritativeOperationController :=
  perform_all start_state (seq 0 n ≫= undelivered).

(** The history of automatic resolutions keeps 64 entries, the ledger keeps every
    automatically resolved record of the generation, and the restore requires an
    entry for each of them: the 65th makes the snapshot unrestorable. *)
Lemma auto_resolution_history_overflow_is_unrestorable :
  restart_result (after_undelivered 64) = Some None ∧
  vlen (after_undelivered 65).(auto_resolutions) = MAX_AUTO_RESOLUTION_RECORDS ∧
  restart_result (after_undelivered 65) = Some (Some ExecutionError.InvalidSnapshot).
Proof. split_and!; by_eval. Qed.

(** A click with an evidence gap is accepted, and then marked for the operator. *)
Definition gap_accepted : list ccall :=
  [prepare_as (op "dev_a" 1 "op_1") DeviceCapability.PointerClick 10;
   CDispatch "op_1" alice 1 (Some binding) 11; CConnectionLost "op_1" 12;
   CEvidenceGap "op_1"; accept_click].

Definition c_gap : AuthoritativeOperationController := perform_all start_state gap_accepted.

(** [mark_reconciliation_operator_required] also changes the status of a retired
    operation, which then differs from the status its retirement recorded. *)
Lemma status_change_after_retirement_is_unrestorable :
  restart_result c_gap = Some None ∧
  (perform c_gap (COperatorRequired "op_1")).2 = Ok tt ∧
  restart_result (perform_all c_gap [COperatorRequired "op_1"])
    = Some (Some ExecutionError.InvalidSnapshot).
Proof. split_and!; by_eval. Qed.

(** An acceptance at time zero raises a barrier that the restore takes for invalid. *)
Lemma barrier_at_time_zero_is_unrestorable :
  restart_result (perform_all c_lost
    [CAccept "op_1" RetirementPolicy.AcknowledgedUnknownPointerClickV1 "seen" 2 0])
  = Some (Some ExecutionError.InvalidSnapshot).
Proof. by_eval. Qed.

(** ** Downgrades *)

(** An application launch, with the target its recovery needs (schema 14). *)
Definition launch : list ccall :=
  [CPrepare (op "dev_a" 1 "op_1") alice DeviceCapability.LaunchApplication
     (OperationAdmissionMetadata.mk empty_audit None None
        (Some (OperationRecoveryTarget.ApplicationLaunch (Some "editor") None)) None) 10].

(** The snapshots for schemas 12 and 13 refuse a recorded recovery target; the
    one for schema 11 is produced, and the restore refuses it. *)
Lemma downgrade_produces_unrestorable_snapshot :
  let c := perform_all start_state launch in
  snapshot_for_restart_compatible_with c 13 = Some (Err ExecutionError.InvalidSnapshot) ∧
  snapshot_for_restart_compatible_with c 12 = Some (Err ExecutionError.InvalidSnapshot) ∧
  (λ r, match r with
        | Ok s => match restore_controller two_slots s with Ok _ => None | Err e => Some e end
        | Err _ => None
        end) <$> snapshot_for_restart_compatible_with c 11
  = Some (Some ExecutionError.InvalidSnapshot).
Proof. split_and!; by_eval. Qed.

(** ** The retirement history *)

(** Sixty-five devices on each of which a click is accepted as unknown. *)
Definition dev_of (n : nat) : string := "dev_" +:+ String (Ascii.ascii_of_nat (48 + n)) "".

Definition accepted_on (n : nat) : list ccall :=
  [prepare_as (op (dev_of n) 1 (id_of n)) DeviceCapability.PointerClick 10;
   CDispatch (id_of n) alice 1 None 11; CConnectionLost (id_of n) 12;
   CAccept (id_of n) RetirementPolicy.AcknowledgedUnknownPointerClickV1 "seen" 2 20].

Definition c_sixty_four : AuthoritativeOperationController :=
  perform_all start_state (seq 0 64 ≫= accepted_on).

(** When all 64 records of the history are behind barriers, the next acceptance
    is reported as refused although the click is retired, its quarantine lifted
    and its barrier raised, and the snapshot is no longer restorable. *)
Lemma refused_acceptance_takes_effect :
  let c := perform_all c_sixty_four (take 3 (accepted_on 64)) in
  let result := perform c (CAccept (id_of 64) RetirementPolicy.AcknowledgedUnknownPointerClickV1
                             "seen" 2 20) in
  restart_result c = Some None ∧
  result.2 = Err ExecutionError.InvalidTransition ∧
  opt_some (c.(quarantines) !! dev_of 64) = true ∧
  opt_none (result.1.(quarantines) !! dev_of 64) = true ∧
  opt_some (result.1.(mutation_resume_barriers) !! dev_of 64) = true ∧
  restart_result result.1 = Some (Some ExecutionError.InvalidSnapshot).
Proof. split_and!; by_eval. Qed.

(** Sixty-five scrolls of unknown outcome on one device, retired one by one. *)
Definition retired_scroll (n : nat) : list ccall :=
  let g := N.of_nat (S n) in
  [prepare_as (op "dev_a" g (id_of n)) DeviceCapability.Scroll 10;
   CDispatch (id_of n) alice g None 11; CConnectionLost (id_of n) 12;
   CRetire (id_of n) RetirementAuthority.LocalMaintenanceOperator
     RetirementPolicy.TransientUiInteractionV1 "transient" (g + 1) (20 + N.of_nat n)].

(** [op_0] has rotated out of the history; the device is quarantined again. *)
Definition c_rotated : AuthoritativeOperationController :=
  perform_all start_state ((seq 0 65 ≫= retired_scroll) ++ take 3 (retired_scroll 65)).

(** The recovery lane admits the identifier of a retired operation that has
    rotated out of the history, and the snapshot is then unrestorable. *)
Lemma rotated_identifier_is_reused_for_recovery :
  let reuse := prepare_as (op "dev_a" 70 (id_of 0)) DeviceCapability.Screenshot 50 in
  bool_decide (id_of 0 ∈ c_rotated.(admission).(retired_indeterminate)) = true ∧
  (perform c_rotated reuse).2 = Ok tt ∧
  restart_result c_rotated = Some None ∧
  restart_result (perform c_rotated reuse).1 = Some (Some ExecutionError.InvalidSnapshot).
Proof. split_and!; by_eval. Qed.
