(* ===== verification/AgentGate.v ===== *)
(** * The Agent's execution gate

    [AgentExecutionGate] of [src/src/v2_m0_execution.rs]: the Agent runs one
    operation at a time and remembers the operations of its generation that it
    has started, across restarts. *)

From S2P Require Import Prelude Vocabulary Protocol Tombstone Admission.

Module AgentOperationState.
Inductive AgentOperationState := Running | CancelRequested.
#[global] Instance AgentOperationState_eq_dec : EqDecision AgentOperationState.
Proof. solve_decision. Defined.
End AgentOperationState.
Abbreviation AgentOperationState := AgentOperationState.AgentOperationState.

Module AgentGate.

Record AgentExecutionSnapshot := mk_agent_snapshot {
  snap_replay_generation : option N;
  snap_terminal_operation_ids : list string
}.

Record AgentExecutionGate := mk_gate {
  active : option (OperationRef * AgentOperationState);
  replay_generation : option N;
  terminal_operation_ids : gset string
}.

Definition default_gate : AgentExecutionGate := mk_gate None None ∅.

(** [Vec::dedup]: drops repeated neighbours. *)
Fixpoint dedup (l : list string) : list string :=
  match l with
  | a :: ((b :: _) as l') => if bool_decide (a = b) then dedup l' else a :: dedup l'
  | _ => l
  end.

Section Operations.
Context `{HashIter}.

Definition snapshot_gate (g : AgentExecutionGate) : AgentExecutionSnapshot :=
  let ids := hash_set_iter g.(terminal_operation_ids) in
  let ids := match g.(active) with
             | Some (o, _) => ids ++ [o.(OperationRef.operation_id)]
             | None => ids
             end in
  mk_agent_snapshot
    (match g.(active) with
     | Some (o, _) => Some o.(OperationRef.device_generation)
     | None => g.(replay_generation)
     end)
    (dedup (merge_sort String.le ids)).

Definition restore_gate (s : AgentExecutionSnapshot) : result ExecutionError AgentExecutionGate :=
  return_if existsb trim_is_empty s.(snap_terminal_operation_ids)
            || (negb (bool_decide (s.(snap_terminal_operation_ids) = []))
                && opt_none s.(snap_replay_generation))
    with Err ExecutionError.InvalidSnapshot ;;
  Ok (mk_gate None s.(snap_replay_generation) (list_to_set s.(snap_terminal_operation_ids))).
End Operations.

Definition prepare_generation (g : AgentExecutionGate) (generation : N)
    : AgentExecutionGate * result ExecutionError unit :=
  return_if (generation =? 0)%N with (g, Err ExecutionError.InvalidOperation) ;;
  return_if is_some_and (λ a, negb (a.1.(OperationRef.device_generation) =? generation)%N) g.(active)
    with (g, Err ExecutionError.GenerationChangeWhileActive) ;;
  return_if bool_decide (g.(replay_generation) = Some generation) with (g, Ok tt) ;;
  return_if opt_some g.(active) with (g, Err ExecutionError.GenerationChangeWhileActive) ;;
  (mk_gate g.(active) (Some generation) ∅, Ok tt).

Definition begin (g : AgentExecutionGate) (operation : OperationRef)
    : AgentExecutionGate * result ExecutionError unit :=
  let '(g, r) := prepare_generation g operation.(OperationRef.device_generation) in
  let_ok _ := r else e => (g, Err e) ;;
  return_if bool_decide (operation.(OperationRef.operation_id) ∈ g.(terminal_operation_ids))
    with (g, Err ExecutionError.OperationReplay) ;;
  return_if opt_some g.(active) with (g, Err ExecutionError.AgentBusy) ;;
  (mk_gate (Some (operation, AgentOperationState.Running)) g.(replay_generation)
     g.(terminal_operation_ids), Ok tt).

Definition request_agent_cancel (g : AgentExecutionGate) (id : string)
    : AgentExecutionGate * result ExecutionError unit :=
  let_some a := g.(active) else (g, Err ExecutionError.UnknownOperation) ;;
  return_if negb (bool_decide (a.1.(OperationRef.operation_id) = id))
    with (g, Err ExecutionError.UnknownOperation) ;;
  (mk_gate (Some (a.1, AgentOperationState.CancelRequested)) g.(replay_generation)
     g.(terminal_operation_ids), Ok tt).

Definition cancellation_requested (g : AgentExecutionGate) (id : string) : bool :=
  match g.(active) with
  | Some (o, AgentOperationState.CancelRequested) => bool_decide (o.(OperationRef.operation_id) = id)
  | _ => false
  end.

Definition finish (g : AgentExecutionGate) (id : string)
    : AgentExecutionGate * result ExecutionError unit :=
  let_some a := g.(active) else (g, Err ExecutionError.UnknownOperation) ;;
  return_if negb (bool_decide (a.1.(OperationRef.operation_id) = id))
    with (mk_gate (Some (a.1, AgentOperationState.Running)) g.(replay_generation)
            g.(terminal_operation_ids), Err ExecutionError.UnknownOperation) ;;
  (mk_gate None g.(replay_generation) ({[id]} ∪ g.(terminal_operation_ids)), Ok tt).

Definition abandon_on_disconnect (g : AgentExecutionGate) (id : string)
    : AgentExecutionGate * result ExecutionError unit := finish g id.

(** ** Transitions *)

Inductive gcall :=
| GPrepare (generation : N)
| GBegin (operation : OperationRef)
| GCancel (id : string)
| GFinish (id : string)
| GAbandon (id : string).

Definition gexec (g : AgentExecutionGate) (k : gcall) : AgentExecutionGate :=
  match k with
  | GPrepare generation => (prepare_generation g generation).1
  | GBegin operation => (begin g operation).1
  | GCancel id => (request_agent_cancel g id).1
  | GFinish id => (finish g id).1
  | GAbandon id => (abandon_on_disconnect g id).1
  end.

(** The generation a call brings. *)
Definition generation_of (k : gcall) : option N :=
  match k with
  | GPrepare generation => Some generation
  | GBegin operation => Some operation.(OperationRef.device_generation)
  | _ => None
  end.

Section Transitions.
Context `{HashIter}.

(** Calls and restarts; the authenticated generation does not go back. *)
Inductive gstep (g : AgentExecutionGate) : AgentExecutionGate → Prop :=
| gstep_call k :
    (∀ n m, generation_of k = Some n → g.(replay_generation) = Some m → (m ≤ n)%N) →
    gstep g (gexec g k)
| gstep_restart g' : restore_gate (snapshot_gate g) = Ok g' → gstep g g'.

Definition greachable (g : AgentExecutionGate) : Prop := rtc gstep default_gate g.
End Transitions.

(** ** The invariant *)

(** The active operation is of the gate's generation and was not run before, and
    operations are remembered only for a known generation. *)
Record gate_ok (g : AgentExecutionGate) : Prop := {
  go_active : ∀ o s, g.(active) = Some (o, s) →
    g.(replay_generation) = Some o.(OperationRef.device_generation) ∧
    (o.(OperationRef.operation_id) ∉ g.(terminal_operation_ids));
  go_terminal : g.(replay_generation) = None → g.(terminal_operation_ids) = ∅
}.

Lemma prepare_cases g n :
  gate_ok g →
  (∃ e, prepare_generation g n = (g, Err e)) ∨
  (prepare_generation g n = (g, Ok tt) ∧ g.(replay_generation) = Some n) ∨
  (prepare_generation g n = (mk_gate None (Some n) ∅, Ok tt) ∧ g.(active) = None ∧
   g.(replay_generation) ≠ Some n).
Proof.
  intros Hg. unfold prepare_generation. destruct (n =? 0)%N; [eauto|].
  destruct g as [[[o s]|] gen ids]; cbn [active is_some_and].
  - destruct (negb _); [eauto|]. cbn. case_bool_decide; cbn; eauto.
  - cbn. case_bool_decide; cbn; eauto.
Qed.

Lemma begin_cases g o :
  gate_ok g →
  let n := o.(OperationRef.device_generation) in
  (∃ g' e, begin g o = (g', Err e) ∧ (g' = g ∨ g' = mk_gate None (Some n) ∅ ∧ g.(active) = None ∧
     g.(replay_generation) ≠ Some n)) ∨
  (∃ ids, begin g o = (mk_gate (Some (o, AgentOperationState.Running)) (Some n) ids, Ok tt) ∧
     g.(active) = None ∧ (o.(OperationRef.operation_id) ∉ ids) ∧
     (g.(replay_generation) = Some n ∧ ids = g.(terminal_operation_ids) ∨
      g.(replay_generation) ≠ Some n ∧ ids = ∅)).
Proof.
  intros Hg n. unfold begin. fold n.
  destruct (prepare_cases g n Hg) as [[e ->]|[[-> Hn]|(-> & Ha & Hn)]]; cbn.
  - left. eauto.
  - case_bool_decide; [left; eauto|]. destruct (g.(active)) as [a|]; cbn; [left; eauto|].
    right. rewrite Hn. eauto 10.
  - rewrite bool_decide_false by set_solver. cbn. right. exists ∅. split_and!; [done|done|set_solver|auto].
Qed.

Lemma finish_cases g id :
  (∃ e g', finish g id = (g', Err e) ∧ g'.(replay_generation) = g.(replay_generation) ∧
     g'.(terminal_operation_ids) = g.(terminal_operation_ids) ∧
     fst <$> g'.(active) = fst <$> g.(active)) ∨
  (∃ o s, g.(active) = Some (o, s) ∧ o.(OperationRef.operation_id) = id ∧
     finish g id = (mk_gate None g.(replay_generation) ({[id]} ∪ g.(terminal_operation_ids)), Ok tt)).
Proof.
  unfold finish. destruct g as [[[o s]|] gen ids]; cbn; [|left; by do 2 eexists].
  case_bool_decide as Hid; cbn; [right; by exists o, s|left; by do 2 eexists].
Qed.

Lemma cancel_cases g id :
  ∃ r g', request_agent_cancel g id = (g', r) ∧ g'.(replay_generation) = g.(replay_generation) ∧
    g'.(terminal_operation_ids) = g.(terminal_operation_ids) ∧
    fst <$> g'.(active) = fst <$> g.(active).
Proof.
  unfold request_agent_cancel. destruct g as [[[o s]|] gen ids]; cbn; [|by do 2 eexists].
  destruct (negb _); by do 2 eexists.
Qed.

(** A gate with the same memory and the same operation. *)
Lemma gate_ok_same g g' :
  gate_ok g → g'.(replay_generation) = g.(replay_generation) →
  g'.(terminal_operation_ids) = g.(terminal_operation_ids) →
  fst <$> g'.(active) = fst <$> g.(active) → gate_ok g'.
Proof.
  intros [Ha Ht] Hr Hids Hact. split; rewrite Hr, Hids; [|done]. intros o s Ho.
  rewrite Ho in Hact. symmetry in Hact. apply fmap_Some in Hact as ([o' s'] & Hg & Heq).
  cbn in Heq. subst o'. by eapply Ha.
Qed.

Lemma gexec_ok g k : gate_ok g → gate_ok (gexec g k).
Proof.
  intros Hg. assert (∀ n, gate_ok (mk_gate None (Some n) ∅)) as Hnew by by split.
  destruct k as [n|o|id|id|id]; cbn [gexec].
  - destruct (prepare_cases g n Hg) as [[e ->]|[[-> _]|(-> & _ & _)]]; [done|done|apply Hnew].
  - destruct (begin_cases g o Hg) as [(g' & e & -> & [->|[-> _]])|(ids & -> & _ & Hid & _)];
      [done|apply Hnew|]. split; cbn; [|done]. intros o' s' [= <- _]. done.
  - destruct (cancel_cases g id) as (r & g' & -> & ? & ? & ?). by eapply gate_ok_same.
  - destruct (finish_cases g id) as [(e & g' & -> & ? & ? & ?)|(o & s & Ho & _ & ->)];
      [by eapply gate_ok_same|]. split; [done|]. cbn. intros Hnone.
    destruct (go_active _ Hg o s Ho) as [Hsome _]. congruence.
  - unfold abandon_on_disconnect.
    destruct (finish_cases g id) as [(e & g' & -> & ? & ? & ?)|(o & s & Ho & _ & ->)];
      [by eapply gate_ok_same|]. split; [done|]. cbn. intros Hnone.
    destruct (go_active _ Hg o s Ho) as [Hsome _]. congruence.
Qed.

(** ** Restart *)

(** The operations the gate has started in its generation. *)
Definition started_ids (g : AgentExecutionGate) : gset string :=
  match g.(active) with
  | Some (o, _) => {[o.(OperationRef.operation_id)]} ∪ g.(terminal_operation_ids)
  | None => g.(terminal_operation_ids)
  end.

Lemma elem_of_dedup x l : x ∈ dedup l ↔ x ∈ l.
Proof.
  induction l as [|a [|b l] IH]; [done|done|]. cbn [dedup] in *. case_bool_decide as Heq.
  - rewrite IH. subst. set_solver.
  - rewrite !elem_of_cons, IH. set_solver.
Qed.

Section Restart.
Context `{HI : HashIter}.

Lemma snapshot_ids g x : x ∈ (snapshot_gate g).(snap_terminal_operation_ids) ↔ x ∈ started_ids g.
Proof.
  unfold snapshot_gate, started_ids. cbn. rewrite elem_of_dedup, merge_sort_Permutation.
  destruct g.(active) as [[o s]|]; [rewrite elem_of_app|]; rewrite elem_of_hash_set_iter; set_solver.
Qed.

Lemma snapshot_generation g :
  gate_ok g → (snapshot_gate g).(snap_replay_generation) = g.(replay_generation).
Proof.
  intros [Ha _]. unfold snapshot_gate. cbn. destruct (g.(active)) as [[o s]|] eqn:Ho; [|done].
  by destruct (Ha o s eq_refl) as [-> _].
Qed.

Lemma restored_gate g :
  gate_ok g →
  restore_gate (snapshot_gate g) =
    if forallb (λ id, negb (trim_is_empty id)) (elements (started_ids g))
    then Ok (mk_gate None g.(replay_generation) (started_ids g))
    else Err ExecutionError.InvalidSnapshot.
Proof.
  intros Hg. unfold restore_gate. rewrite (snapshot_generation g Hg).
  assert (existsb trim_is_empty (snapshot_gate g).(snap_terminal_operation_ids)
          = negb (forallb (λ id, negb (trim_is_empty id)) (elements (started_ids g)))) as ->.
  { apply eq_true_iff_eq. rewrite negb_true_iff, <- not_true_iff_false, existsb_exists, forallb_forall.
    split.
    - intros (x & Hx%list_elem_of_In%snapshot_ids & Hb) Hall.
      assert (In x (elements (started_ids g))) as Hin by by apply list_elem_of_In, elem_of_elements.
      specialize (Hall x Hin). by rewrite Hb in Hall.
    - intros Hn. destruct (decide (set_Exists (λ x, trim_is_empty x = true) (started_ids g)))
        as [(x & Hx & Hb)|Hno].
      + exists x. split; [|done]. by apply list_elem_of_In, snapshot_ids.
      + exfalso. apply Hn. intros x Hx%list_elem_of_In%elem_of_elements. apply negb_true_iff.
        apply not_true_iff_false. intros Hb. apply Hno. by exists x. }
  destruct (forallb _ _); [|done]. cbn [negb orb].
  assert (negb (bool_decide ((snapshot_gate g).(snap_terminal_operation_ids) = []))
          && opt_none g.(replay_generation) = false) as ->.
  { case_bool_decide as Hnil; [done|]. destruct (g.(replay_generation)) as [n|] eqn:Hn; [done|].
    exfalso. apply Hnil. destruct (snap_terminal_operation_ids _) as [|x l] eqn:Hl; [done|].
    assert (x ∈ started_ids g) as Hx by (apply snapshot_ids; rewrite Hl; by left).
    unfold started_ids in Hx. destruct (g.(active)) as [[o s]|] eqn:Ho.
    - destruct (go_active _ Hg o s Ho) as [? _]. congruence.
    - rewrite (go_terminal _ Hg Hn) in Hx. set_solver. }
  cbn. do 2 f_equal. apply set_eq. intros x. rewrite elem_of_list_to_set. apply snapshot_ids.
Qed.
End Restart.

(** ** Theorems *)

Section Theorems.
Context `{HI : HashIter}.
Implicit Types (g : AgentExecutionGate) (o : OperationRef).

Lemma gstep_ok g g' : gate_ok g → gstep g g' → gate_ok g'.
Proof.
  intros Hg [k _|g'' Hr]; [by apply gexec_ok|]. rewrite restored_gate in Hr by done.
  destruct (forallb _ _); [|done]. injection Hr as <-. split; [done|]. cbn. intros Hnone.
  unfold started_ids. destruct (g.(active)) as [[o s]|] eqn:Ho; [|by apply (go_terminal _ Hg)].
  destruct (go_active _ Hg o s Ho). congruence.
Qed.

Lemma greachable_ok g : greachable g → gate_ok g.
Proof.
  intros Hr. eapply (rtc_invariant gstep gate_ok); [|exact Hr|by split].
  intros x y Hstep Hx. by eapply gstep_ok.
Qed.

(** Operation [id] of generation [n] was started, or its generation is over. *)
Definition was_started (n : N) (id : string) g : Prop :=
  (∃ m, g.(replay_generation) = Some m ∧ (n < m)%N) ∨
  (g.(replay_generation) = Some n ∧ id ∈ started_ids g).

Lemma was_started_prepare n id g m :
  gate_ok g → was_started n id g → (∀ x, g.(replay_generation) = Some x → (x ≤ m)%N) →
  g.(replay_generation) ≠ Some m → was_started n id (mk_gate None (Some m) ∅).
Proof.
  intros Hg Hw Hle Hne. left. exists m. split; [done|].
  destruct Hw as [(x & Hx & Hlt)|[Hn _]]; [specialize (Hle x Hx); lia|].
  specialize (Hle n Hn). assert (n ≠ m) by congruence. lia.
Qed.

Lemma was_started_exec n id g k :
  gate_ok g → was_started n id g →
  (∀ x y, generation_of k = Some x → g.(replay_generation) = Some y → (y ≤ x)%N) →
  was_started n id (gexec g k).
Proof.
  intros Hg Hw Hle.
  assert (∀ g', g'.(replay_generation) = g.(replay_generation) →
    started_ids g ⊆ started_ids g' → was_started n id g') as Hsame.
  { intros g' Hr Hsub. unfold was_started in *. rewrite Hr. destruct Hw as [|[? ?]]; [by left|right; auto]. }
  assert (∀ g', g'.(replay_generation) = g.(replay_generation) →
    g'.(terminal_operation_ids) = g.(terminal_operation_ids) →
    fst <$> g'.(active) = fst <$> g.(active) → started_ids g ⊆ started_ids g') as Heq.
  { intros g' _ Hids Hact. unfold started_ids. rewrite Hids.
    destruct (g.(active)) as [[]|], (g'.(active)) as [[]|]; by simplify_eq/=. }
  destruct k as [m|o|x|x|x]; cbn [gexec] in *.
  - destruct (prepare_cases g m Hg) as [[e ->]|[[-> _]|(-> & _ & Hne)]]; [done|done|].
    eapply was_started_prepare; eauto.
  - destruct (begin_cases g o Hg) as [(g' & e & -> & [->|(-> & _ & Hne)])|
      (ids & -> & Hact & _ & [[Hn ->]|[Hne ->]])]; cbn [fst].
    + done.
    + eapply was_started_prepare; eauto.
    + apply Hsame; [done|]. unfold started_ids. rewrite Hact. cbn. set_solver.
    + destruct (was_started_prepare n id g _ Hg Hw (λ x, Hle _ x eq_refl) Hne) as [?|[_ Hin]]; [by left|].
      cbn in Hin. set_solver.
  - destruct (cancel_cases g x) as (r & g' & -> & ? & ? & ?). auto.
  - destruct (finish_cases g x) as [(e & g' & -> & ? & ? & ?)|(o & s & Ho & Hid & ->)]; [auto|].
    apply Hsame; [done|]. unfold started_ids. rewrite Ho, Hid. done.
  - unfold abandon_on_disconnect.
    destruct (finish_cases g x) as [(e & g' & -> & ? & ? & ?)|(o & s & Ho & Hid & ->)]; [auto|].
    apply Hsame; [done|]. unfold started_ids. rewrite Ho, Hid. done.
Qed.

Lemma was_started_step n id g g' :
  gate_ok g → was_started n id g → gstep g g' → was_started n id g'.
Proof.
  intros Hg Hw [k Hle|g'' Hr]; [by apply was_started_exec|].
  rewrite restored_gate in Hr by done. destruct (forallb _ _); [|done]. by injection Hr as <-.
Qed.

(** The Agent starts an operation at most once. After [begin] has accepted an
    operation, over any calls and restarts under a generation that does not go
    back, [begin] refuses its identifier again for as long as its generation
    lasts; after that, the session check refuses its commands as stale. *)
Theorem agent_starts_operation_once g o g1 g2 o' :
  greachable g → begin g o = (g1, Ok tt) → rtc gstep g1 g2 →
  o'.(OperationRef.operation_id) = o.(OperationRef.operation_id) →
  o'.(OperationRef.device_generation) = o.(OperationRef.device_generation) →
  (∃ m, g2.(replay_generation) = Some m ∧ (o.(OperationRef.device_generation) < m)%N) ∨
  ∃ e, begin g2 o' = (g2, Err e).
Proof.
  intros Hg%greachable_ok Hb Hrun Hid Hgen.
  assert (gate_ok g1 ∧ was_started o.(OperationRef.device_generation) o.(OperationRef.operation_id) g1)
    as [Hg1 Hw1].
  { split; [by pose proof (gexec_ok g (GBegin o) Hg) as H; cbn in H; rewrite Hb in H|].
    destruct (begin_cases g o Hg) as [(g' & e & Hb' & _)|(ids & Hb' & _)]; [congruence|].
    rewrite Hb in Hb'. injection Hb' as ->. right. split; [done|]. unfold started_ids. cbn. set_solver. }
  assert (gate_ok g2 ∧ was_started o.(OperationRef.device_generation) o.(OperationRef.operation_id) g2)
    as [Hg2 [Hover|[Hn Hin]]]; [|by left|].
  { revert Hg1 Hw1. clear Hb. induction Hrun as [|x y z Hstep _ IH]; [done|]. intros Hx Hwx.
    apply IH; [by eapply gstep_ok|by eapply was_started_step]. }
  right. destruct (begin_cases g2 o' Hg2) as [(g' & e & Hb' & [->|(_ & _ & Hne)])|
    (ids & Hb' & Hact & Hnotin & [[Hn' ->]|[Hne _]])]; [eauto|congruence| |congruence].
  exfalso. apply Hnotin. unfold started_ids in Hin. rewrite Hact in Hin. by rewrite Hid.
Qed.

(** A restart of the Agent keeps its memory: the snapshot restores, unless an
    operation with a blank identifier was started, to a gate that runs nothing
    and remembers every operation it had started, the active one included. *)
Theorem agent_gate_restart_iff g g' :
  greachable g →
  restore_gate (snapshot_gate g) = Ok g' ↔
  (∀ id, id ∈ started_ids g → trim_is_empty id = false) ∧
  g' = mk_gate None g.(replay_generation) (started_ids g).
Proof.
  intros Hg%greachable_ok. rewrite restored_gate by done.
  destruct (forallb _ _) eqn:Hall.
  - rewrite forallb_forall in Hall. split; [intros [= <-]|intros [_ ->]; done]. split; [|done].
    intros id Hid. apply negb_true_iff, Hall, list_elem_of_In. by apply elem_of_elements.
  - split; [done|]. intros [Hno _]. exfalso. apply not_true_iff_false in Hall. apply Hall.
    apply forallb_forall. intros id Hid%list_elem_of_In%elem_of_elements. by rewrite Hno.
Qed.

(** Finishing an operation that is not the active one is refused, and forgets
    that the cancellation of the active one was requested. *)
Lemma mismatched_finish_forgets_cancellation g o id :
  g.(active) = Some (o, AgentOperationState.CancelRequested) →
  o.(OperationRef.operation_id) ≠ id →
  cancellation_requested g o.(OperationRef.operation_id) = true ∧
  (finish g id).2 = Err ExecutionError.UnknownOperation ∧
  cancellation_requested (finish g id).1 o.(OperationRef.operation_id) = false.
Proof.
  intros Ho Hne. unfold cancellation_requested, finish. rewrite Ho. cbn.
  rewrite bool_decide_true, bool_decide_false by done. done.
Qed.
End Theorems.

Module GateExamples.
#[local] Existing Instance canonical_hash_iter.

Definition click : OperationRef := OperationRef.mk "dev_a" 1 "op_1".
Definition running : AgentExecutionGate := (begin default_gate click).1.

Lemma running_reachable : greachable running.
Proof. eapply rtc_l; [by apply (gstep_call _ (GBegin click))|constructor]. Qed.

(** [op_1] is finished, the Agent restarts, and [op_1] is presented again. *)
Definition restarted_gate : AgentExecutionGate := mk_gate None (Some 1%N) {["op_1"]}.

Lemma agent_starts_operation_once_witness :
  (∃ m, restarted_gate.(replay_generation) = Some m ∧ (1 < m)%N) ∨
  ∃ e, begin restarted_gate click = (restarted_gate, Err e).
Proof.
  refine (agent_starts_operation_once default_gate click running restarted_gate click
            (rtc_refl _ _) eq_refl _ eq_refl eq_refl).
  eapply rtc_l; [apply (gstep_call _ (GFinish "op_1")); done|].
  apply rtc_once, gstep_restart. by_eval.
Defined.

Lemma agent_gate_restart_iff_witness : restore_gate (snapshot_gate running) = Ok restarted_gate.
Proof.
  apply (agent_gate_restart_iff running restarted_gate running_reachable). split; [|by_eval].
  intros id Hid. assert (id = "op_1") as ->; [|reflexivity].
  change (id ∈ ({["op_1"]} ∪ ∅ : gset string)) in Hid. set_solver.
Defined.
End GateExamples.
End AgentGate.
