(* ===== verification/SessionRuntime.v ===== *)
(** * The session runtime of a single remote Agent

    [src/src/v2_m1.rs]: the reconnect policy and the outbound connection loop of
    the Agent, the heartbeat tracker and the router of the Hub, and how the Hub
    applies the Agent's answer to a cancellation. [CancellationDisposition] and
    [AgentHeartbeat] are from [src/src/v2_m0_transport.rs]. *)

From S2P Require Import Prelude Vocabulary Protocol Tombstone Admission Transport.
Import HubOperationState.

(** ** Data *)

Module M1Error.
Inductive M1Error :=
| InvalidReconnectPolicy | ReconnectExhausted | InvalidHeartbeatTimeout
| HeartbeatDeviceMismatch | HeartbeatGenerationMismatch | HeartbeatReplay
| NonMonotonicHeartbeatTime | InvalidDeviceId | WrongDevice | DeviceOffline
| CancellationStateMismatch
| Execution (e : ExecutionError)
| Control (e : ControlError).
End M1Error.
Abbreviation M1Error := M1Error.M1Error.

(** ** Reconnecting *)

Module Runtime.

(** [std::time::Duration], in nanoseconds. *)
Definition nanos_per_milli : N := 1000000.
Definition as_millis (d : N) : N := d / nanos_per_milli.
Definition from_millis (ms : N) : N := ms * nanos_per_milli.
Definition u128_max : N := 2 ^ 128 - 1.

Record ReconnectPolicy := mk_policy {
  initial_delay : N;
  max_delay : N;
  max_attempts : N
}.

Definition validate_policy (p : ReconnectPolicy) : result M1Error ReconnectPolicy :=
  return_if (p.(initial_delay) =? 0)%N || (p.(max_delay) <? p.(initial_delay))%N
            || (p.(max_attempts) =? 0)%N
    with Err M1Error.InvalidReconnectPolicy ;;
  Ok p.

Definition delay_for_attempt (p : ReconnectPolicy) (attempt : N) : result M1Error N :=
  let_ok policy := validate_policy p else e => Err e ;;
  return_if (policy.(max_attempts) <=? attempt)%N with Err M1Error.ReconnectExhausted ;;
  let multiplier := N.shiftl 1 (N.min attempt 63) in
  let delay_ms := N.min (N.min (as_millis policy.(initial_delay) * multiplier) u128_max)
                    (as_millis policy.(max_delay)) in
  Ok (from_millis (if (delay_ms <=? u64_max)%N then delay_ms else u64_max)).

Inductive SessionDirective := Reconnect | Shutdown.

(** How the loop ends: [Ok(())], [Err(Exhausted ..)], or a failed [expect]. *)
Inductive lifecycle_end (E : Type) :=
| Done
| Exhausted (attempts : N) (last_error : E)
| Panicked.
Arguments Done {E}.
Arguments Exhausted {E} attempts last_error.
Arguments Panicked {E}.

(** The closures act on the world [W] they capture. *)
Section Lifecycle.
Context {W C E : Type}.
Variable connect : W → W * result E C.
Variable run_session : C → W → W * result E SessionDirective.
Variable sleep : N → W → W.

(** [connect()] and, on success, [run_session(connection)]. *)
Definition attempt (w : W) : W * result E SessionDirective :=
  let '(w, connection) := connect w in
  let_ok c := connection else e => (w, Err e) ;; run_session c w.

(** The [loop], which may run for ever: [None] when the fuel is used up. *)
Fixpoint lifecycle_loop (fuel : nat) (policy : ReconnectPolicy) (failures : N) (w : W)
    : option (W * lifecycle_end E) :=
  match fuel with
  | O => None
  | S fuel =>
      let '(w, outcome) := attempt w in
      match outcome with
      | Ok Shutdown => Some (w, Done)
      | Ok Reconnect => lifecycle_loop fuel policy 0 (sleep policy.(initial_delay) w)
      | Err e =>
          return_if (policy.(max_attempts) - 1 <=? failures)%N
            with Some (w, Exhausted (N.min (failures + 1) u32_max) e) ;;
          let_ok delay := delay_for_attempt policy failures else _ => Some (w, Panicked) ;;
          lifecycle_loop fuel policy (N.min (failures + 1) u32_max) (sleep delay w)
      end
  end.

Definition run_outbound_lifecycle (fuel : nat) (policy : ReconnectPolicy) (w : W)
    : option (W * lifecycle_end E) :=
  let_ok policy := validate_policy policy else _ => Some (w, Panicked) ;;
  lifecycle_loop fuel policy 0 w.
End Lifecycle.

(** ** Heartbeats *)

Record HeartbeatTracker := mk_tracker {
  tracked_device : string;
  tracked_generation : N;
  timeout_ms : N;
  last_sequence : option N;
  last_seen_ms : N
}.

Definition new_tracker (device_id : string) (device_generation connected_at_ms timeout_ms : N)
    : result M1Error HeartbeatTracker :=
  return_if (timeout_ms =? 0)%N with Err M1Error.InvalidHeartbeatTimeout ;;
  Ok (mk_tracker device_id device_generation timeout_ms None connected_at_ms).

Definition observe (t : HeartbeatTracker) (h : AgentHeartbeat) (received_at_ms : N)
    : HeartbeatTracker * result M1Error unit :=
  return_if negb (bool_decide (h.(AgentHeartbeat.device_id) = t.(tracked_device)))
    with (t, Err M1Error.HeartbeatDeviceMismatch) ;;
  return_if negb (h.(AgentHeartbeat.device_generation) =? t.(tracked_generation))%N
    with (t, Err M1Error.HeartbeatGenerationMismatch) ;;
  return_if is_some_and (λ s, h.(AgentHeartbeat.sequence) <=? s)%N t.(last_sequence)
    with (t, Err M1Error.HeartbeatReplay) ;;
  return_if (received_at_ms <? t.(last_seen_ms))%N
    with (t, Err M1Error.NonMonotonicHeartbeatTime) ;;
  (mk_tracker t.(tracked_device) t.(tracked_generation) t.(timeout_ms)
     (Some h.(AgentHeartbeat.sequence)) received_at_ms, Ok tt).

(** [now_ms.saturating_sub(last_seen_ms) >= timeout_ms] *)
Definition is_timed_out (t : HeartbeatTracker) (now_ms : N) : bool :=
  (t.(timeout_ms) <=? now_ms - t.(last_seen_ms))%N.

(** ** Routing *)

Record SingleDeviceRouter := mk_router {
  router_device : string;
  session : option DeviceSession
}.

Definition new_router (device_id : string) : result M1Error SingleDeviceRouter :=
  return_if trim_is_empty device_id with Err M1Error.InvalidDeviceId ;;
  Ok (mk_router device_id None).

Definition router_connect (r : SingleDeviceRouter) (s : DeviceSession)
    : SingleDeviceRouter * result M1Error unit :=
  return_if negb (bool_decide (s.(DeviceSession.device_id) = r.(router_device)))
    with (r, Err M1Error.WrongDevice) ;;
  (mk_router r.(router_device) (Some s), Ok tt).

Definition router_disconnect (r : SingleDeviceRouter) (generation : N) : SingleDeviceRouter :=
  if is_some_and (λ s, s.(DeviceSession.generation) =? generation)%N r.(session)
  then mk_router r.(router_device) None else r.

Definition route (r : SingleDeviceRouter) (command : CommandEnvelope)
    : result M1Error DeviceSession :=
  let_some s := r.(session) else Err M1Error.DeviceOffline ;;
  let_ok _ := validate_command_session command s else e => Err (M1Error.Control e) ;;
  Ok s.

(** ** Cancellation *)

Definition on_execution {A} (x : HubAdmissionController * result ExecutionError A)
    : HubAdmissionController * result M1Error A :=
  (x.1, match x.2 with Ok a => Ok a | Err e => Err (M1Error.Execution e) end).

Definition apply_cancellation_disposition `{HashIter} (c : HubAdmissionController) (id : string)
    (disposition : CancellationDisposition)
    : HubAdmissionController * result M1Error CompletionDecision :=
  match disposition with
  | CancellationDisposition.CancelledBeforeExecution => on_execution (complete c id true)
  | CancellationDisposition.CancellationRequested =>
      (c, if bool_decide (operation_state c id = Some CancelRequested)
          then Ok CompletionDecision.Idle else Err M1Error.CancellationStateMismatch)
  | CancellationDisposition.IndeterminateAfterPropagation => on_execution (mark_indeterminate c id)
  | CancellationDisposition.AlreadyTerminal =>
      (c, match operation_state c id with
          | Some Completed | Some Cancelled | Some Indeterminate => Ok CompletionDecision.Idle
          | _ => Err M1Error.CancellationStateMismatch
          end)
  end.

(** ** The backoff *)

Lemma validate_policy_Ok p q :
  validate_policy p = Ok q ↔
  q = p ∧ p.(initial_delay) ≠ 0%N ∧ (p.(initial_delay) ≤ p.(max_delay))%N ∧ p.(max_attempts) ≠ 0%N.
Proof.
  unfold validate_policy.
  destruct (N.eqb_spec p.(initial_delay) 0), (N.ltb_spec p.(max_delay) p.(initial_delay)),
    (N.eqb_spec p.(max_attempts) 0); cbn; naive_solver lia.
Qed.

(** Capping the exponent at 63 and saturating at 128 bits do not show. *)
Lemma backoff_uncapped i m n :
  (m ≤ 2 ^ 63)%N →
  N.min (N.min (i * N.shiftl 1 (N.min n 63)) u128_max) m = N.min (i * 2 ^ n) m.
Proof.
  intros Hm. rewrite N.shiftl_1_l.
  assert (2 ^ 63 ≤ u128_max)%N as Hmax by (apply N.leb_le; by_eval).
  destruct (N.le_gt_cases n 63) as [Hn|Hn].
  - rewrite (N.min_l n 63) by done. lia.
  - rewrite (N.min_r n 63) by lia. assert (2 ^ 63 ≤ 2 ^ n)%N as Hpow by (apply N.pow_le_mono_r; lia).
    destruct (decide (i = 0%N)) as [->|Hi]; [rewrite !N.mul_0_l; lia|].
    assert (1 * 2 ^ 63 ≤ i * 2 ^ 63)%N by (apply N.mul_le_mono_r; lia).
    assert (i * 2 ^ 63 ≤ i * 2 ^ n)%N by (apply N.mul_le_mono_l; lia). lia.
Qed.

Lemma millis_within d : (from_millis (as_millis d) ≤ d)%N.
Proof. unfold from_millis, as_millis. rewrite N.mul_comm. by apply N.Div0.mul_div_le. Qed.

(** The delay before a reconnect is the initial delay doubled with every failure
    and cut off at the maximum, in whole milliseconds; it never exceeds the
    maximum delay, never gets shorter with more failures, and after
    [max_attempts] there is none. *)
Theorem reconnect_backoff_is_bounded_exponential p n :
  validate_policy p = Ok p → (as_millis p.(max_delay) ≤ 2 ^ 63)%N →
  delay_for_attempt p n =
    (if (n <? p.(max_attempts))%N
     then Ok (from_millis (N.min (as_millis p.(initial_delay) * 2 ^ n) (as_millis p.(max_delay))))
     else Err M1Error.ReconnectExhausted) ∧
  (∀ d, delay_for_attempt p n = Ok d → (d ≤ p.(max_delay))%N) ∧
  (∀ m d d', (n ≤ m)%N → delay_for_attempt p n = Ok d → delay_for_attempt p m = Ok d' → (d ≤ d')%N).
Proof.
  intros Hv Hmax.
  assert (∀ k, delay_for_attempt p k =
    if (k <? p.(max_attempts))%N
    then Ok (from_millis (N.min (as_millis p.(initial_delay) * 2 ^ k) (as_millis p.(max_delay))))
    else Err M1Error.ReconnectExhausted) as Heq.
  { intros k. unfold delay_for_attempt. rewrite Hv.
    destruct (N.leb_spec p.(max_attempts) k), (N.ltb_spec k p.(max_attempts)); try lia; [done|].
    rewrite backoff_uncapped by done. f_equal. f_equal.
    assert (2 ^ 63 ≤ u64_max)%N by (apply N.leb_le; by_eval).
    destruct (N.leb_spec (N.min (as_millis p.(initial_delay) * 2 ^ k) (as_millis p.(max_delay))) u64_max);
      [done|lia]. }
  split_and!; [apply Heq| |].
  - intros d Hd. rewrite Heq in Hd. destruct (n <? _)%N; [|done]. injection Hd as <-.
    etrans; [|apply millis_within]. unfold from_millis. apply N.mul_le_mono_r. lia.
  - intros m d d' Hle. rewrite !Heq. destruct (n <? _)%N; [|done]. destruct (m <? _)%N; [|done].
    intros [= <-] [= <-]. unfold from_millis. apply N.mul_le_mono_r.
    assert (as_millis p.(initial_delay) * 2 ^ n ≤ as_millis p.(initial_delay) * 2 ^ m)%N; [|lia].
    apply N.mul_le_mono_l, N.pow_le_mono_r; lia.
Qed.

Lemma reconnect_backoff_is_bounded_exponential_witness :
  delay_for_attempt (mk_policy 250000000 4000000000 8) 3 = Ok 2000000000%N.
Proof.
  refine (proj1 (reconnect_backoff_is_bounded_exponential (mk_policy 250000000 4000000000 8) 3
                   eq_refl _)). apply N.leb_le. reflexivity.
Defined.

(** ** The outbound loop *)

Section LifecycleProofs.
Context {W C E : Type}.
Variable connect : W → W * result E C.
Variable run_session : C → W → W * result E SessionDirective.
Variable sleep : N → W → W.

Let run := lifecycle_loop connect run_session sleep.

Lemma loop_ends fuel p failures w w' r :
  validate_policy p = Ok p → (p.(max_attempts) ≤ u32_max)%N → (failures < p.(max_attempts))%N →
  run fuel p failures w = Some (w', r) →
  r = Done ∨ ∃ e, r = Exhausted p.(max_attempts) e.
Proof.
  intros Hv Hmax. revert failures w. induction fuel as [|fuel IH]; intros failures w Hlt; [done|].
  cbn. destruct (attempt _ _ w) as [w1 [[]|e]].
  - apply IH. lia.
  - intros [= _ <-]. by left.
  - destruct (N.leb_spec (p.(max_attempts) - 1) failures).
    + intros [= _ <-]. right. exists e. f_equal. lia.
    + unfold delay_for_attempt. rewrite Hv. destruct (N.leb_spec p.(max_attempts) failures); [lia|].
      apply IH. lia.
Qed.

Lemma loop_exhausts p failures w :
  validate_policy p = Ok p → (p.(max_attempts) ≤ u32_max)%N → (failures < p.(max_attempts))%N →
  (∀ w, is_err (attempt connect run_session w).2 = true) →
  ∃ w' e, run (N.to_nat (p.(max_attempts) - failures)) p failures w
          = Some (w', Exhausted p.(max_attempts) e).
Proof.
  intros Hv Hmax Hlt Hfail. remember (N.to_nat (p.(max_attempts) - failures)) as fuel eqn:Hf.
  revert failures w Hlt Hf. induction fuel as [|fuel IH]; intros failures w Hlt Hf; [lia|].
  cbn. specialize (Hfail w) as Hw. destruct (attempt _ _ w) as [w1 [d|e]]; [done|].
  destruct (N.leb_spec (p.(max_attempts) - 1) failures).
  - exists w1, e. do 2 f_equal. f_equal. lia.
  - unfold delay_for_attempt. rewrite Hv. destruct (N.leb_spec p.(max_attempts) failures); [lia|].
    apply IH; lia.
Qed.

(** C39: The outbound loop of the Agent never panics on a valid policy, gives up only
    after exactly [max_attempts] failures, and does so within [max_attempts]
    attempts when the Hub stays unreachable. *)
Theorem outbound_lifecycle_gives_up p :
  validate_policy p = Ok p → (p.(max_attempts) ≤ u32_max)%N →
  (∀ fuel w w' r, run_outbound_lifecycle connect run_session sleep fuel p w = Some (w', r) →
     r = Done ∨ ∃ e, r = Exhausted p.(max_attempts) e) ∧
  ((∀ w, is_err (attempt connect run_session w).2 = true) →
   ∀ w, ∃ w' e, run_outbound_lifecycle connect run_session sleep (N.to_nat p.(max_attempts)) p w
                = Some (w', Exhausted p.(max_attempts) e)).
Proof.
  intros Hv Hmax. assert (p.(max_attempts) ≠ 0%N) as Hn by by apply validate_policy_Ok in Hv as (_ & _ & _ & ?).
  unfold run_outbound_lifecycle. rewrite Hv. split.
  - intros fuel w w' r. apply loop_ends; [done|done|lia].
  - intros Hfail w. destruct (loop_exhausts p 0 w Hv Hmax) as (w' & e & H); [lia|done|].
    rewrite N.sub_0_r in H. by exists w', e.
Qed.
End LifecycleProofs.

(** The Hub is offline; the world is the list of delays slept. *)
Definition offline (w : list N) : list N * result unit unit := (w, Err tt).

Lemma outbound_lifecycle_gives_up_witness :
  ∃ w e, run_outbound_lifecycle offline (λ _ w, (w, Ok Shutdown)) (λ d w, w ++ [d]) 3
           (mk_policy 10 40 3) [] = Some (w, Exhausted 3 e).
Proof.
  refine (proj2 (outbound_lifecycle_gives_up offline (λ _ w, (w, Ok Shutdown)) (λ d w, w ++ [d])
    (mk_policy 10 40 3) eq_refl _) (λ w, eq_refl) []). apply N.leb_le. reflexivity.
Defined.

(** ** Heartbeats *)

Lemma observe_Ok t h now t' :
  observe t h now = (t', Ok tt) ↔
  h.(AgentHeartbeat.device_id) = t.(tracked_device) ∧
  h.(AgentHeartbeat.device_generation) = t.(tracked_generation) ∧
  (∀ s, t.(last_sequence) = Some s → (s < h.(AgentHeartbeat.sequence))%N) ∧
  (t.(last_seen_ms) ≤ now)%N ∧
  t' = mk_tracker t.(tracked_device) t.(tracked_generation) t.(timeout_ms)
         (Some h.(AgentHeartbeat.sequence)) now.
Proof.
  unfold observe. case_bool_decide; cbn; [|naive_solver].
  destruct (N.eqb_spec h.(AgentHeartbeat.device_generation) t.(tracked_generation)); cbn; [|naive_solver].
  destruct (t.(last_sequence)) as [s|]; cbn;
    [destruct (N.leb_spec h.(AgentHeartbeat.sequence) s)|];
    destruct (N.ltb_spec now t.(last_seen_ms)); naive_solver lia.
Qed.

Lemma observe_Err t h now t' e : observe t h now = (t', Err e) → t' = t.
Proof. unfold observe. intros H. run H; by simplify_eq. Qed.

Definition heartbeat_step (t t' : HeartbeatTracker) : Prop := ∃ h now r, observe t h now = (t', r).

(** What a tracker has seen stays behind it. *)
Definition past (n m : N) (t : HeartbeatTracker) : Prop :=
  (∃ s, t.(last_sequence) = Some s ∧ (n ≤ s)%N) ∧ (m ≤ t.(last_seen_ms))%N.

Lemma past_step n m t t' : heartbeat_step t t' → past n m t → past n m t'.
Proof.
  intros (h & now & [[]|e] & H) Hp; [|by rewrite (observe_Err _ _ _ _ _ H)].
  apply observe_Ok in H as (_ & _ & Hs & Hn & ->). destruct Hp as [(s & Hsome & Hle) Hm].
  split; cbn; [|lia]. exists h.(AgentHeartbeat.sequence). split; [done|]. specialize (Hs s Hsome). lia.
Qed.

(** Accepted heartbeats are in order: whatever the tracker was shown in between,
    a heartbeat it accepts later has a greater sequence number, is for the same
    device and generation, and was not received earlier; the session is timed
    out exactly when [timeout_ms] have passed since the last accepted one. *)
Theorem heartbeats_are_ordered t h now t1 t2 h' now' t3 :
  observe t h now = (t1, Ok tt) → rtc heartbeat_step t1 t2 → observe t2 h' now' = (t3, Ok tt) →
  (h.(AgentHeartbeat.sequence) < h'.(AgentHeartbeat.sequence))%N ∧ (now ≤ now')%N ∧
  h'.(AgentHeartbeat.device_id) = h.(AgentHeartbeat.device_id) ∧
  h'.(AgentHeartbeat.device_generation) = h.(AgentHeartbeat.device_generation) ∧
  (∀ x, t.(timeout_ms) ≠ 0%N → is_timed_out t3 x = true ↔ (now' + t.(timeout_ms) ≤ x)%N).
Proof.
  intros (Hd & Hg & _ & _ & ->)%observe_Ok Hrun (Hd' & Hg' & Hs & Hn & ->)%observe_Ok.
  assert (past h.(AgentHeartbeat.sequence) now t2 ∧ t2.(tracked_device) = t.(tracked_device) ∧
    t2.(tracked_generation) = t.(tracked_generation) ∧ t2.(timeout_ms) = t.(timeout_ms))
    as ([(s & Hsome & Hle) Hm] & Hdev & Hgen & Hto).
  { eapply (rtc_invariant heartbeat_step (λ x, past h.(AgentHeartbeat.sequence) now x ∧
      x.(tracked_device) = t.(tracked_device) ∧ x.(tracked_generation) = t.(tracked_generation) ∧
      x.(timeout_ms) = t.(timeout_ms))); [|exact Hrun|].
    - intros x y Hstep (Hp & Hxd & Hxg & Hxt). split; [by eapply past_step|].
      destruct Hstep as (h0 & now0 & [[]|e] & H); [|by rewrite (observe_Err _ _ _ _ _ H)].
      by apply observe_Ok in H as (_ & _ & _ & _ & ->).
    - split_and!; [|done..]. split; cbn; [by eexists|lia]. }
  specialize (Hs s Hsome). split_and!; [lia|lia|congruence|congruence|].
  intros x Hpos. unfold is_timed_out. cbn. rewrite Hto, N.leb_le. lia.
Qed.

Lemma heartbeats_are_ordered_witness :
  (1 < 2)%N ∧ (2000 ≤ 2500)%N.
Proof.
  pose (beat := λ n, AgentHeartbeat.mk 6 "dev_a" 7 n []).
  assert (∃ t1, observe (mk_tracker "dev_a" 7 5000 None 1000) (beat 1%N) 2000 = (t1, Ok tt) ∧
    ∃ t3, observe t1 (beat 2%N) 2500 = (t3, Ok tt)) as (t1 & H1 & t3 & H3)
    by (eexists; split; [reflexivity|eexists; reflexivity]).
  destruct (heartbeats_are_ordered _ _ _ _ _ _ _ _ H1 (rtc_refl _ _) H3) as (Hs & Hn & _).
  exact (conj Hs Hn).
Defined.

(** ** Routing and cancellation *)

(** The end of an older session does not take down the current one. *)
Lemma stale_disconnect_keeps_session r s g :
  r.(session) = Some s → s.(DeviceSession.generation) ≠ g → router_disconnect r g = r.
Proof.
  intros Hs Hne. unfold router_disconnect. rewrite Hs. cbn.
  by rewrite (proj2 (N.eqb_neq _ _)).
Qed.

Lemma route_Ok r command s :
  route r command = Ok s ↔ r.(session) = Some s ∧ validate_command_session command s = Ok tt.
Proof.
  unfold route. destruct (r.(session)) as [s'|]; [|naive_solver].
  destruct (validate_command_session command s') as [[]|] eqn:Hv; naive_solver congruence.
Qed.

(** An Agent that reports an operation as already terminal is contradicted when
    the Hub has recorded it as failed. *)
Lemma failed_operation_is_not_terminal `{HashIter} c id :
  operation_state c id = Some Failed →
  apply_cancellation_disposition c id CancellationDisposition.AlreadyTerminal
  = (c, Err M1Error.CancellationStateMismatch).
Proof. intros Hs. unfold apply_cancellation_disposition. by rewrite Hs. Qed.
End Runtime.
