(* ===== verification/Trust.v ===== *)
(** * Key rotation and client authorization

    [src/src/v2_m0_trust.rs]: continuity of the Hub's and the devices' keys, and
    the policy that says which authenticated client may be granted which
    capability of which device. The bytes that are signed come from
    [serde_json], which is a parameter. *)

From S2P Require Import Prelude Vocabulary Protocol Crypto Registry Grants.
Import Grants.

Definition TRUST_SCHEMA_VERSION : N := 1.

(** [serde_json::to_vec] on the unsigned rotations. *)
Class RotationSerializer := {
  device_rotation_to_vec : N → string → string → list N → N → option (list N);
  hub_rotation_to_vec : N → string → list N → N → option (list N)
}.

(** Records of strings, integers and byte arrays always serialise. *)
Class RotationSerializerTotal `{RotationSerializer} : Prop := {
  device_rotation_total : ∀ v d k n e, is_Some (device_rotation_to_vec v d k n e);
  hub_rotation_total : ∀ v k n e, is_Some (hub_rotation_to_vec v k n e)
}.

Module TrustError.
Inductive TrustError :=
| Serialization
| Control (e : ControlError)
| UnsupportedSchema (got : N)
| InvalidRotationEpoch
| RotationEpochMismatch (expected got : N)
| PreviousKeyMismatch
| InvalidPublicKey
| InvalidRotationSignature
| InvalidClientPrincipal
| ClientCapabilityDenied
| ClientDeviceCapabilityDenied.
End TrustError.
Abbreviation TrustError := TrustError.TrustError.

Module Trust.

Definition validate_trust_schema (got : N) : result TrustError unit :=
  if (got =? TRUST_SCHEMA_VERSION)%N then Ok tt else Err (TrustError.UnsupportedSchema got).

(** ** Key rotation *)

Record DeviceKeyRotation := mk_device_rotation {
  dr_schema_version : N;
  dr_device_id : string;
  dr_previous_key_id : string;
  dr_next_public_key : list N;
  dr_rotation_epoch : N;
  dr_old_signature : list N;
  dr_new_signature : list N
}.

Record HubKeyRotation := mk_hub_rotation {
  hr_schema_version : N;
  hr_previous_key_id : string;
  hr_next_public_key : list N;
  hr_rotation_epoch : N;
  hr_old_signature : list N;
  hr_new_signature : list N
}.

Section Rotation.
Context `{ED : Ed25519} `{TS : RotationSerializer}.

Record TrustedHubIdentity := mk_trusted {
  current : VerifyingKey;
  epoch : N
}.

Definition new_trusted (initial : VerifyingKey) : TrustedHubIdentity := mk_trusted initial 0.

Definition build_device_key_rotation (device_id : string) (old_identity new_identity : SigningKey)
    (rotation_epoch : N) : result TrustError DeviceKeyRotation :=
  return_if (rotation_epoch =? 0)%N with Err TrustError.InvalidRotationEpoch ;;
  let previous_key_id := verifying_key_id (sk_verifying_key old_identity) in
  let next_public_key := vk_to_bytes (sk_verifying_key new_identity) in
  let_some b := device_rotation_to_vec TRUST_SCHEMA_VERSION device_id previous_key_id
                  next_public_key rotation_epoch else Err TrustError.Serialization ;;
  Ok (mk_device_rotation TRUST_SCHEMA_VERSION device_id previous_key_id next_public_key
        rotation_epoch (sk_sign old_identity b) (sk_sign new_identity b)).

Definition apply_device_key_rotation (r : DeviceRegistry.DeviceRegistry)
    (rotation : DeviceKeyRotation) (expected_epoch : N)
    : DeviceRegistry.DeviceRegistry * result TrustError unit :=
  let_ok _ := validate_trust_schema rotation.(dr_schema_version) else e => (r, Err e) ;;
  return_if negb (rotation.(dr_rotation_epoch) =? expected_epoch)%N || (expected_epoch =? 0)%N
    with (r, Err (TrustError.RotationEpochMismatch expected_epoch rotation.(dr_rotation_epoch))) ;;
  let_some b := device_rotation_to_vec rotation.(dr_schema_version) rotation.(dr_device_id)
                  rotation.(dr_previous_key_id) rotation.(dr_next_public_key)
                  rotation.(dr_rotation_epoch) else (r, Err TrustError.Serialization) ;;
  let '(r, x) := DeviceRegistry.rotate_device_key r rotation.(dr_device_id)
    rotation.(dr_next_public_key) b rotation.(dr_old_signature) rotation.(dr_new_signature) in
  (r, match x with Ok u => Ok u | Err e => Err (TrustError.Control e) end).

Definition hub_rotation_bytes (schema_version : N) (previous_key_id : string)
    (next_public_key : list N) (rotation_epoch : N) : result TrustError (list N) :=
  let_some b := hub_rotation_to_vec schema_version previous_key_id next_public_key rotation_epoch
    else Err TrustError.Serialization ;; Ok b.

Definition build_hub_key_rotation (old_identity new_identity : SigningKey) (rotation_epoch : N)
    : result TrustError HubKeyRotation :=
  return_if (rotation_epoch =? 0)%N with Err TrustError.InvalidRotationEpoch ;;
  let previous_key_id := verifying_key_id (sk_verifying_key old_identity) in
  let next_public_key := vk_to_bytes (sk_verifying_key new_identity) in
  let_ok b := hub_rotation_bytes TRUST_SCHEMA_VERSION previous_key_id next_public_key rotation_epoch
    else e => Err e ;;
  Ok (mk_hub_rotation TRUST_SCHEMA_VERSION previous_key_id next_public_key rotation_epoch
        (sk_sign old_identity b) (sk_sign new_identity b)).

Definition verify_rotation_signature (verifier : VerifyingKey) (b signature : list N)
    : result TrustError unit :=
  let_some raw := try_into_array 64 signature else Err TrustError.InvalidRotationSignature ;;
  if vk_verify verifier b raw then Ok tt else Err TrustError.InvalidRotationSignature.

Definition apply_rotation (t : TrustedHubIdentity) (r : HubKeyRotation)
    : TrustedHubIdentity * result TrustError unit :=
  let_ok _ := validate_trust_schema r.(hr_schema_version) else e => (t, Err e) ;;
  let expected_epoch := saturating_add t.(epoch) 1 in
  return_if negb (r.(hr_rotation_epoch) =? expected_epoch)%N
    with (t, Err (TrustError.RotationEpochMismatch expected_epoch r.(hr_rotation_epoch))) ;;
  return_if negb (bool_decide (r.(hr_previous_key_id) = verifying_key_id t.(current)))
    with (t, Err TrustError.PreviousKeyMismatch) ;;
  let_some next := vk_from_bytes r.(hr_next_public_key)
    else (t, Err TrustError.InvalidPublicKey) ;;
  let_ok b := hub_rotation_bytes r.(hr_schema_version) r.(hr_previous_key_id)
                r.(hr_next_public_key) r.(hr_rotation_epoch) else e => (t, Err e) ;;
  let_ok _ := verify_rotation_signature t.(current) b r.(hr_old_signature) else e => (t, Err e) ;;
  let_ok _ := verify_rotation_signature next b r.(hr_new_signature) else e => (t, Err e) ;;
  (mk_trusted next r.(hr_rotation_epoch), Ok tt).
End Rotation.

(** ** Client authorization *)

Module AuthenticatedClientPrincipal.
Record AuthenticatedClientPrincipal := mk { issuer : string; subject : string }.
#[global] Instance AuthenticatedClientPrincipal_eq_dec : EqDecision AuthenticatedClientPrincipal.
Proof. solve_decision. Defined.
End AuthenticatedClientPrincipal.
Abbreviation AuthenticatedClientPrincipal := AuthenticatedClientPrincipal.AuthenticatedClientPrincipal.

Definition new_principal (issuer subject : string)
    : result TrustError AuthenticatedClientPrincipal :=
  return_if trim_is_empty issuer || trim_is_empty subject
    with Err TrustError.InvalidClientPrincipal ;;
  Ok (AuthenticatedClientPrincipal.mk issuer subject).

(** The key of the policy tables: issuer, subject and device. *)
Definition ClientDeviceKey : Type := string * string * string.

Definition client_device_key (p : AuthenticatedClientPrincipal) (device_id : string)
    : ClientDeviceKey :=
  (p.(AuthenticatedClientPrincipal.issuer), p.(AuthenticatedClientPrincipal.subject), device_id).

(** The sets of the tables are kept as lists; only membership is observed. *)
Record ClientAuthorizationPolicy := mk_policy {
  allowed : gmap ClientDeviceKey (list CapabilityClass);
  allowed_device_capabilities : gmap ClientDeviceKey (list DeviceCapability)
}.

Definition default_policy : ClientAuthorizationPolicy := mk_policy ∅ ∅.

(** [entry(key).or_default().insert(value)] *)
Definition insert_into {A} (m : gmap ClientDeviceKey (list A)) (k : ClientDeviceKey) (a : A)
    : gmap ClientDeviceKey (list A) := <[k := a :: default [] (m !! k)]> m.

Definition allow (p : ClientAuthorizationPolicy) (c : AuthenticatedClientPrincipal)
    (device_id : string) (capability : CapabilityClass) : ClientAuthorizationPolicy :=
  mk_policy (insert_into p.(allowed) (client_device_key c device_id) capability)
    p.(allowed_device_capabilities).

Definition allow_device_capability (p : ClientAuthorizationPolicy)
    (c : AuthenticatedClientPrincipal) (device_id : string) (capability : DeviceCapability)
    : ClientAuthorizationPolicy :=
  mk_policy p.(allowed)
    (insert_into p.(allowed_device_capabilities) (client_device_key c device_id) capability).

Definition authorize_device_capability (p : ClientAuthorizationPolicy)
    (c : AuthenticatedClientPrincipal) (device_id : string) (capability : DeviceCapability)
    : result TrustError unit :=
  if is_some_and (λ l : list DeviceCapability, bool_decide (capability ∈ l))
       (p.(allowed_device_capabilities) !! client_device_key c device_id)
  then Ok tt else Err TrustError.ClientDeviceCapabilityDenied.

Definition authorize (p : ClientAuthorizationPolicy) (c : AuthenticatedClientPrincipal)
    (device_id : string) (capability : CapabilityClass) : result TrustError unit :=
  if is_some_and (λ l : list CapabilityClass, bool_decide (capability ∈ l))
       (p.(allowed) !! client_device_key c device_id)
  then Ok tt else Err TrustError.ClientCapabilityDenied.

Section Issue.
Context `{ED : Ed25519} `{GS : GrantSerializer}.

Definition on_control {A} (x : result ControlError A) : result TrustError A :=
  match x with Ok a => Ok a | Err e => Err (TrustError.Control e) end.

Definition issue_device_grant (p : ClientAuthorizationPolicy) (c : AuthenticatedClientPrincipal)
    (authority : GrantAuthority) (device_id : string) (capability : DeviceCapability)
    (now_ms ttl_ms : N) (random : list N) : result TrustError GrantToken :=
  let_ok _ := authorize_device_capability p c device_id capability else e => Err e ;;
  on_control (issue_for_device_capability authority device_id capability now_ms ttl_ms random).

Definition issue_grant (p : ClientAuthorizationPolicy) (c : AuthenticatedClientPrincipal)
    (authority : GrantAuthority) (device_id : string) (capability : CapabilityClass)
    (now_ms ttl_ms : N) (random : list N) : result TrustError GrantToken :=
  let_ok _ := authorize p c device_id capability else e => Err e ;;
  on_control (issue authority device_id capability now_ms ttl_ms random).
End Issue.

(** ** Continuity of the Hub key *)

Section RotationProofs.
Context `{ED : Ed25519, EDL : !Ed25519Laws}.
Context `{TS : RotationSerializer, TST : !RotationSerializerTotal}.
Implicit Types (t : TrustedHubIdentity) (r : HubKeyRotation).

(** A signature the source accepts under a key. *)
Definition signed_with (k : VerifyingKey) (b signature : list N) : Prop :=
  length signature = 64 ∧ vk_verify k b signature = true.

Lemma verify_rotation_signature_Ok k b signature :
  verify_rotation_signature k b signature = Ok tt ↔ signed_with k b signature.
Proof.
  unfold verify_rotation_signature, try_into_array, signed_with.
  case_bool_decide; [|naive_solver]. destruct (vk_verify k b signature); naive_solver.
Qed.

Lemma apply_rotation_Ok t r t' :
  apply_rotation t r = (t', Ok tt) ↔
  r.(hr_schema_version) = TRUST_SCHEMA_VERSION ∧
  r.(hr_rotation_epoch) = saturating_add t.(epoch) 1 ∧
  r.(hr_previous_key_id) = verifying_key_id t.(current) ∧
  vk_from_bytes r.(hr_next_public_key) = Some t'.(current) ∧
  t'.(epoch) = r.(hr_rotation_epoch) ∧
  ∃ b, hub_rotation_to_vec r.(hr_schema_version) r.(hr_previous_key_id) r.(hr_next_public_key)
         r.(hr_rotation_epoch) = Some b ∧
    signed_with t.(current) b r.(hr_old_signature) ∧ signed_with t'.(current) b r.(hr_new_signature).
Proof.
  unfold apply_rotation, validate_trust_schema, hub_rotation_bytes. split.
  - intros H. run H. repeat match goal with
      | H : verify_rotation_signature _ _ _ = Ok ?u |- _ =>
          destruct u; apply verify_rotation_signature_Ok in H end.
    split_and!; try done. eexists. by split_and!.
  - intros (-> & He & Hp & Hn & Ht & b & Hb & Ho%verify_rotation_signature_Ok &
      Hs%verify_rotation_signature_Ok).
    rewrite N.eqb_refl, He, N.eqb_refl, bool_decide_true by done. cbn [negb].
    rewrite <- He, Hn, Hb, Ho, Hs. destruct t' as [k e]. cbn in *. by subst.
Qed.

Lemma apply_rotation_Err t r t' e : apply_rotation t r = (t', Err e) → t' = t.
Proof. unfold apply_rotation. intros H. run H; by simplify_eq. Qed.

Definition rotation_step t t' : Prop := ∃ r x, apply_rotation t r = (t', x).

Lemma epoch_grows t t' : rotation_step t t' → (t.(epoch) ≤ u64_max)%N →
  (t.(epoch) ≤ t'.(epoch) ≤ u64_max)%N.
Proof.
  intros (r & [[]|e] & H) Hle; [|by rewrite (apply_rotation_Err _ _ _ _ H)].
  apply apply_rotation_Ok in H as (_ & He & _ & _ & -> & _). rewrite He. unfold saturating_add. lia.
Qed.

(** The trusted Hub key changes only by a rotation that both keys signed, with
    the next epoch; and a rotation that was applied is refused for good, whatever
    rotations follow. *)
Theorem hub_rotation_is_continuous t r t1 t2 :
  (t.(epoch) + 1 < u64_max)%N → apply_rotation t r = (t1, Ok tt) → rtc rotation_step t1 t2 →
  (∃ b, signed_with t.(current) b r.(hr_old_signature) ∧
        signed_with t1.(current) b r.(hr_new_signature)) ∧
  t1.(epoch) = (t.(epoch) + 1)%N ∧
  apply_rotation t2 r = (t2, Err (TrustError.RotationEpochMismatch (saturating_add t2.(epoch) 1)
                                    (t.(epoch) + 1))).
Proof.
  intros Hmax (Hv & He & _ & _ & Ht1 & b & _ & Ho & Hn)%apply_rotation_Ok Hrun.
  assert (r.(hr_rotation_epoch) = (t.(epoch) + 1)%N) as Hr.
  { rewrite He. unfold saturating_add. lia. }
  split_and!; [by exists b|congruence|].
  assert (t.(epoch) + 1 ≤ t2.(epoch) ≤ u64_max)%N as Hle.
  { eapply (rtc_invariant rotation_step (λ x, t.(epoch) + 1 ≤ x.(epoch) ≤ u64_max)%N);
      [|exact Hrun|lia]. intros x y Hstep Hx. pose proof (epoch_grows x y Hstep). lia. }
  unfold apply_rotation, validate_trust_schema. rewrite Hv, N.eqb_refl, Hr.
  destruct (N.eqb_spec (t.(epoch) + 1) (saturating_add t2.(epoch) 1)) as [Heq|]; [|done].
  unfold saturating_add in Heq. lia.
Qed.

(** A rotation that the Hub builds from its old to its new key is accepted by
    every Agent that trusts the old key at the epoch before, and by every
    registry for a device that still has the old key and is not revoked. *)
Theorem built_rotations_are_accepted t registry d old new e :
  t.(current) = sk_verifying_key old → t.(epoch) = e → (e < u64_max)%N →
  (∃ r, build_hub_key_rotation old new (e + 1) = Ok r ∧
        apply_rotation t r = (mk_trusted (sk_verifying_key new) (e + 1), Ok tt)) ∧
  (∀ id, registry.(DeviceRegistry.devices) !! id = Some d →
     d.(DeviceRegistry.verifying_key) = sk_verifying_key old →
     (id ∉ registry.(DeviceRegistry.revoked)) →
     ∃ dr, build_device_key_rotation id old new (e + 1) = Ok dr ∧
       apply_device_key_rotation registry dr (e + 1) =
         (DeviceRegistry.set_device registry id (DeviceRegistry.mk_enrolled (sk_verifying_key new)
            (DeviceRegistry.next_generation d.(DeviceRegistry.generation)) None), Ok tt)).
Proof.
  intros Hcur He Hlt. assert ((e + 1 =? 0)%N = false) as Hne by (apply N.eqb_neq; lia). split.
  - unfold build_hub_key_rotation, hub_rotation_bytes. rewrite Hne.
    destruct (hub_rotation_total TRUST_SCHEMA_VERSION (verifying_key_id (sk_verifying_key old))
      (vk_to_bytes (sk_verifying_key new)) (e + 1)) as [b Hb]. rewrite Hb. eexists. split; [done|].
    apply apply_rotation_Ok. cbn. rewrite Hcur, He. unfold signed_with, saturating_add.
    split_and!; [done|lia|done|apply vk_from_to_bytes|done|].
    exists b. split_and!; [done|apply sk_sign_length|apply sk_sign_verifies|apply sk_sign_length|
      apply sk_sign_verifies].
  - intros id Hd Hk Hrev. unfold build_device_key_rotation. rewrite Hne.
    destruct (device_rotation_total TRUST_SCHEMA_VERSION id (verifying_key_id (sk_verifying_key old))
      (vk_to_bytes (sk_verifying_key new)) (e + 1)) as [b Hb]. rewrite Hb. eexists. split; [done|].
    unfold apply_device_key_rotation, validate_trust_schema. cbn. rewrite N.eqb_refl, Hne. cbn.
    rewrite Hb. unfold DeviceRegistry.rotate_device_key, try_into_array.
    rewrite (bool_decide_false (id ∈ _)), (bool_decide_true (length (vk_to_bytes _) = 32)),
      vk_from_to_bytes, !bool_decide_true, Hd, Hk, !sk_sign_verifies
      by (done || apply sk_sign_length || apply vk_to_bytes_length). done.
Qed.
End RotationProofs.

(** ** Clients get what they were allowed *)

Section PolicyProofs.
Context `{ED : Ed25519, EDL : !Ed25519Laws} `{GS : GrantSerializer}.

(** The policy after a list of [allow_device_capability] calls. *)
Definition policy_of (l : list (AuthenticatedClientPrincipal * string * DeviceCapability))
    : ClientAuthorizationPolicy :=
  foldl (λ p x, allow_device_capability p x.1.1 x.1.2 x.2) default_policy l.

Lemma client_device_key_inj c c' d d' :
  client_device_key c d = client_device_key c' d' → c = c' ∧ d = d'.
Proof. destruct c, c'. by intros [= -> -> ->]. Qed.

Lemma permitted_iff (P : Prop) `{Decision P} (e : TrustError) :
  (if bool_decide P then Ok tt else Err e) = Ok tt ↔ P.
Proof. case_bool_decide; naive_solver. Qed.

Lemma authorize_after_allow p c d x c' d' x' :
  authorize_device_capability (allow_device_capability p c d x) c' d' x' = Ok tt ↔
  (c' = c ∧ d' = d ∧ x' = x) ∨ authorize_device_capability p c' d' x' = Ok tt.
Proof.
  unfold authorize_device_capability, allow_device_capability, insert_into. cbn.
  destruct (decide (client_device_key c d = client_device_key c' d')) as [Heq|Hne].
  - rewrite Heq, lookup_insert_eq. apply client_device_key_inj in Heq as [-> ->]. cbn.
    rewrite permitted_iff, elem_of_cons.
    destruct (p.(allowed_device_capabilities) !! client_device_key c' d') as [l|]; cbn.
    + rewrite permitted_iff. naive_solver.
    + rewrite elem_of_nil. naive_solver.
  - rewrite lookup_insert_ne by done.
    split; [by right|]. intros [(-> & -> & _)|]; [done|done].
Qed.

Lemma authorize_policy_of l c d x :
  authorize_device_capability (policy_of l) c d x = Ok tt ↔ (c, d, x) ∈ l.
Proof.
  induction l as [|[[c' d'] x'] l IH] using rev_ind.
  - split; [done|]. intros H. by apply elem_of_nil in H.
  - unfold policy_of. rewrite foldl_app. cbn. fold (policy_of l).
    rewrite authorize_after_allow, IH, elem_of_app, list_elem_of_singleton. naive_solver.
Qed.

(** A client is granted exactly what the policy allows it: a grant is issued only
    for a client, device and capability that were allowed together, and the token
    is then accepted only for that capability of that device. *)
Theorem only_allowed_clients_get_grants l c authority d x now_ms ttl_ms random token :
  issue_device_grant (policy_of l) c authority d x now_ms ttl_ms random = Ok token →
  (c, d, x) ∈ l ∧
  ∀ ledger d' x' t ledger',
    authorize_device_capability_once ledger token d' x' t = (ledger', Ok tt) → d' = d ∧ x' = x.
Proof.
  unfold issue_device_grant, on_control. intros H.
  destruct (authorize_device_capability _ c d x) as [[]|] eqn:Ha; [|done].
  apply authorize_policy_of in Ha. split; [done|].
  destruct (issue_for_device_capability _ _ _ _ _ _) as [tok|] eqn:Hi; [|done].
  injection H as ->. apply issue_for_device_capability_Ok in Hi as (b & _ & Hp & _).
  intros ledger d' x' t ledger'. unfold authorize_device_capability_once.
  destruct (validate_unconsumed_grant ledger token d' t) as [l1 [[]|]] eqn:Hv; [|done].
  apply validate_unconsumed_grant_Ok in Hv as (_ & (_ & Hd & _) & _). rewrite Hp in *. cbn in *.
  case_bool_decide; [|done]. case_bool_decide as Hx; [|done]. intros _. by injection Hx.
Qed.
End PolicyProofs.

Module TrustExamples.
Import ToyCrypto.
#[local] Instance rotation_serializer : RotationSerializer := {
  device_rotation_to_vec v d k n e := Some (bytes d ++ n ++ [v; e]);
  hub_rotation_to_vec v k n e := Some (bytes k ++ n ++ [v; e])
}.
#[local] Instance rotation_serializer_total : RotationSerializerTotal.
Proof. split; eauto. Qed.
#[local] Instance grant_serializer : GrantSerializer := λ p, Some (bytes p.(GrantPayload.grant_id)).

Definition old_key : SigningKey := key_of_byte 1.
Definition new_key : SigningKey := key_of_byte 2.
Definition trusted : TrustedHubIdentity := new_trusted (sk_verifying_key old_key).

Lemma built_rotations_are_accepted_witness :
  ∃ r, build_hub_key_rotation old_key new_key 1 = Ok r ∧
       apply_rotation trusted r = (mk_trusted (sk_verifying_key new_key) 1, Ok tt).
Proof.
  refine (proj1 (built_rotations_are_accepted trusted DeviceRegistry.default_registry
    (DeviceRegistry.mk_enrolled (sk_verifying_key old_key) 0 None) old_key new_key 0 eq_refl eq_refl _)).
  reflexivity.
Defined.

Definition rotation : HubKeyRotation :=
  match build_hub_key_rotation old_key new_key 1 with
  | Ok r => r
  | Err _ => mk_hub_rotation 0 "" [] 0 [] []
  end.

Lemma hub_rotation_is_continuous_witness :
  ∃ t, (apply_rotation trusted rotation).1 = t ∧ epoch t = 1%N ∧
    apply_rotation t rotation = (t, Err (TrustError.RotationEpochMismatch 2 1)).
Proof.
  exists (mk_trusted (sk_verifying_key new_key) 1). split; [by_eval|].
  refine (proj2 (hub_rotation_is_continuous trusted rotation
    (mk_trusted (sk_verifying_key new_key) 1) _ _ _ (rtc_refl _ _))); [reflexivity|by_eval].
Defined.

Definition reader : AuthenticatedClientPrincipal := AuthenticatedClientPrincipal.mk "issuer" "reader".
Definition reader_policy : list (AuthenticatedClientPrincipal * string * DeviceCapability) :=
  [(reader, "dev_a", DeviceCapability.Screenshot)].

Definition authority : GrantAuthority := mk_authority (key_of_byte 9).

Lemma only_allowed_clients_get_grants_witness :
  ∃ token, issue_device_grant (policy_of reader_policy) reader authority "dev_a"
             DeviceCapability.Screenshot 1000 500 [1]%N = Ok token ∧
    (reader, "dev_a", DeviceCapability.Screenshot) ∈ reader_policy.
Proof.
  destruct (issue_device_grant (policy_of reader_policy) reader authority "dev_a"
    DeviceCapability.Screenshot 1000 500 [1]%N) as [token|e] eqn:H; [|vm_compute in H; discriminate H].
  exists token. split; [reflexivity|].
  exact (proj1 (only_allowed_clients_get_grants _ _ _ _ _ _ _ _ _ H)).
Defined.
End TrustExamples.
End Trust.
