(* ===== verification/WorkflowRefs.v ===== *)
(** * Workflow references: managed jobs, interaction contexts and scoped handles

    [src/src/v2_managed_job_refs.rs]: the Hub's references to Agent-local jobs,
    which are reserved before the job is dispatched and bound to the Agent's
    locator afterwards. [src/src/v2_interaction_context.rs]: the interaction
    contexts of authenticated clients and the references to backend handles that
    live inside a context. Random bytes are arguments. *)

From S2P Require Import Prelude Vocabulary Protocol Crypto SafetyTypes EphemeralRefs.
From S2P Require Import EphemeralRefsTheorems Registry Grants Trust.

(** ** Managed jobs *)

Module HubManagedJobRefError.
Inductive HubManagedJobRefError :=
| InvalidLimits | InvalidBinding | Unavailable | RefLimitExceeded | OwnerRefLimitExceeded
| IdentifierCollision.
#[global] Instance HubManagedJobRefError_eq_dec : EqDecision HubManagedJobRefError.
Proof. solve_decision. Defined.
End HubManagedJobRefError.
Abbreviation HubManagedJobRefError := HubManagedJobRefError.HubManagedJobRefError.

Module JobRefs.
Import HubManagedJobRefError.

Definition DEFAULT_MAX_MANAGED_JOB_REFS : N := 128.
Definition DEFAULT_MAX_MANAGED_JOB_REFS_PER_OWNER : N := 32.

Record HubManagedJobRefLimits := mk_limits { max_refs : N; max_refs_per_owner : N }.

Definition default_limits : HubManagedJobRefLimits :=
  mk_limits DEFAULT_MAX_MANAGED_JOB_REFS DEFAULT_MAX_MANAGED_JOB_REFS_PER_OWNER.

Record ResolvedManagedJobRef := mk_resolved {
  resolved_locator : string;
  resolved_operation_id : string
}.

Record ManagedJobRefEntry := mk_entry {
  owner : OperationOwner;
  device_id : string;
  generation : N;
  capability_revision : N;
  agent_locator : option string;
  source_operation_id : string;
  expires_at_ms : N
}.

Record HubManagedJobRefRegistry := mk {
  limits : HubManagedJobRefLimits;
  prefix : string;
  refs : gmap string ManagedJobRefEntry
}.

Definition new_with_prefix (l : HubManagedJobRefLimits) (prefix : string)
    : result HubManagedJobRefError HubManagedJobRefRegistry :=
  if (l.(max_refs) =? 0)%N || (l.(max_refs_per_owner) =? 0)%N || is_empty_string prefix
     || (24 <? slen prefix)%N
     || negb (all_bytes (λ b, is_ascii_alphanumeric b || (b =? 95)%N) prefix)
  then Err InvalidLimits else Ok (mk l prefix ∅).

Definition new_job_registry (l : HubManagedJobRefLimits) := new_with_prefix l "job_".

Definition prune (r : HubManagedJobRefRegistry) (now_ms : N) : HubManagedJobRefRegistry :=
  mk r.(limits) r.(prefix) (filter (λ kv, now_ms < kv.2.(expires_at_ms))%N r.(refs)).

Definition with_refs (r : HubManagedJobRefRegistry) (refs : gmap string ManagedJobRefEntry) :=
  mk r.(limits) r.(prefix) refs.

Definition owner_count (r : HubManagedJobRefRegistry) (o : OperationOwner) : N :=
  mlen (filter (λ kv, kv.2.(owner) = o) r.(refs)).

Definition reserve (r : HubManagedJobRefRegistry) (o : OperationOwner) (device : string)
    (g revision : N) (operation : string) (expires now_ms : N) (attempts : list (list N))
    : HubManagedJobRefRegistry * result HubManagedJobRefError string :=
  let r := prune r now_ms in
  return_if trim_is_empty device || trim_is_empty operation || (expires <=? now_ms)%N
    with (r, Err InvalidBinding) ;;
  return_if (r.(limits).(max_refs) <=? mlen r.(refs))%N with (r, Err RefLimitExceeded) ;;
  return_if (r.(limits).(max_refs_per_owner) <=? owner_count r o)%N
    with (r, Err OwnerRefLimitExceeded) ;;
  let_some ref := fresh_id r.(prefix) r.(refs) (take 8 attempts)
    else (r, Err IdentifierCollision) ;;
  (with_refs r (<[ref := mk_entry o device g revision None operation expires]> r.(refs)), Ok ref).

(** The session fence that [bind], [release_unbound] and [resolve_owned] compare. *)
Definition fenced (e : ManagedJobRefEntry) (o : OperationOwner) (device : string)
    (g revision : N) : bool :=
  bool_decide (e.(owner) = o) && bool_decide (e.(device_id) = device)
  && (e.(generation) =? g)%N && (e.(capability_revision) =? revision)%N.

Definition bind (r : HubManagedJobRefRegistry) (ref : string) (o : OperationOwner)
    (device : string) (g revision : N) (operation locator : string) (now_ms : N)
    : HubManagedJobRefRegistry * result HubManagedJobRefError unit :=
  let r := prune r now_ms in
  return_if trim_is_empty locator with (r, Err InvalidBinding) ;;
  let_some e := r.(refs) !! ref else (r, Err Unavailable) ;;
  return_if negb (fenced e o device g revision)
            || negb (bool_decide (e.(source_operation_id) = operation))
            || opt_some e.(agent_locator)
    with (r, Err Unavailable) ;;
  (with_refs r (<[ref := mk_entry e.(owner) e.(device_id) e.(generation)
                           e.(capability_revision) (Some locator) e.(source_operation_id)
                           e.(expires_at_ms)]> r.(refs)), Ok tt).

Definition release_unbound (r : HubManagedJobRefRegistry) (ref : string) (o : OperationOwner)
    (device : string) (g revision : N) : HubManagedJobRefRegistry :=
  if is_some_and (λ e, fenced e o device g revision && opt_none e.(agent_locator))
       (r.(refs) !! ref)
  then with_refs r (delete ref r.(refs)) else r.

Definition mint_job (r : HubManagedJobRefRegistry) (o : OperationOwner) (device : string)
    (g revision : N) (operation locator : string) (expires now_ms : N)
    (attempts : list (list N))
    : HubManagedJobRefRegistry * result HubManagedJobRefError string :=
  let '(r, reserved) := reserve r o device g revision operation expires now_ms attempts in
  let_ok ref := reserved else e => (r, Err e) ;;
  let '(r, bound) := bind r ref o device g revision operation locator now_ms in
  let_ok _ := bound else e => (release_unbound r ref o device g revision, Err e) ;;
  (r, Ok ref).

Definition resolve_owned (r : HubManagedJobRefRegistry) (ref : string) (o : OperationOwner)
    (device : string) (g revision now_ms : N)
    : HubManagedJobRefRegistry * result HubManagedJobRefError ResolvedManagedJobRef :=
  let r := prune r now_ms in
  let_some e := r.(refs) !! ref else (r, Err Unavailable) ;;
  return_if negb (fenced e o device g revision) with (r, Err Unavailable) ;;
  let_some locator := e.(agent_locator) else (r, Err Unavailable) ;;
  (r, Ok (mk_resolved locator e.(source_operation_id))).

End JobRefs.

(** ** Interaction contexts *)

Module InteractionContextError.
Inductive InteractionContextError :=
| InvalidLimits | InvalidBinding | InvalidIdentifier | ContextLimitExceeded
| IdentifierCollision | UnknownContext | Expired | PrincipalMismatch | DeviceMismatch
| GenerationMismatch | CapabilityRevisionMismatch.
#[global] Instance InteractionContextError_eq_dec : EqDecision InteractionContextError.
Proof. solve_decision. Defined.
End InteractionContextError.
Abbreviation InteractionContextError := InteractionContextError.InteractionContextError.

Module ScopedRefError.
Inductive ScopedRefError :=
| InvalidLimit | InvalidBackendRef | RefLimitExceeded | IdentifierCollision | UnknownRef
| ContextMismatch | GenerationMismatch | CapabilityRevisionMismatch | KindMismatch.
#[global] Instance ScopedRefError_eq_dec : EqDecision ScopedRefError.
Proof. solve_decision. Defined.
End ScopedRefError.
Abbreviation ScopedRefError := ScopedRefError.ScopedRefError.

Module InteractionScope.
Inductive InteractionScope := WindowScoped | DesktopScoped.
#[global] Instance InteractionScope_eq_dec : EqDecision InteractionScope.
Proof. solve_decision. Defined.
End InteractionScope.
Abbreviation InteractionScope := InteractionScope.InteractionScope.

Module ScopedRefKind.
Inductive ScopedRefKind :=
| Snapshot | Element | BrowserTarget | BrowserTab | BrowserElement | UploadFile | DownloadFile.
#[global] Instance ScopedRefKind_eq_dec : EqDecision ScopedRefKind.
Proof. solve_decision. Defined.
End ScopedRefKind.
Abbreviation ScopedRefKind := ScopedRefKind.ScopedRefKind.

Module Contexts.
Import InteractionContextError Trust.

Definition DEFAULT_MAX_CONTEXTS_PER_OWNER : N := 8.
Definition DEFAULT_CONTEXT_IDLE_TIMEOUT_MS : N := 900000.
Definition DEFAULT_CONTEXT_MAX_LIFETIME_MS : N := 7200000.

(** [InteractionContextId::parse] *)
Definition parse_context_id (value : string) : result InteractionContextError string :=
  let_some hex := strip_prefix "ctx_" value else Err InvalidIdentifier ;;
  return_if negb (slen hex =? 32)%N
            || negb (all_bytes (λ b, is_ascii_hexdigit b && negb (is_ascii_uppercase b)) hex)
    with Err InvalidIdentifier ;;
  Ok value.

Record InteractionContextBinding := mk_context {
  id : string;
  issuer : string;
  subject : string;
  device_id : string;
  device_generation : N;
  capability_revision : N;
  scope : InteractionScope;
  created_at_ms : N;
  last_used_at_ms : N
}.

Record InteractionContextLimits := mk_limits {
  max_contexts_per_owner : N;
  idle_timeout_ms : N;
  max_lifetime_ms : N
}.

Definition default_context_limits : InteractionContextLimits :=
  mk_limits DEFAULT_MAX_CONTEXTS_PER_OWNER DEFAULT_CONTEXT_IDLE_TIMEOUT_MS
    DEFAULT_CONTEXT_MAX_LIFETIME_MS.

Definition validate_context_limits (l : InteractionContextLimits)
    : result InteractionContextError InteractionContextLimits :=
  if (l.(max_contexts_per_owner) =? 0)%N || (l.(idle_timeout_ms) =? 0)%N
     || (l.(max_lifetime_ms) =? 0)%N || (l.(max_lifetime_ms) <? l.(idle_timeout_ms))%N
  then Err InvalidLimits else Ok l.

Record InteractionContextManager := mk {
  limits : InteractionContextLimits;
  contexts : gmap string InteractionContextBinding
}.

Definition new_manager (l : InteractionContextLimits)
    : result InteractionContextError InteractionContextManager :=
  let_ok l := validate_context_limits l else e => Err e ;; Ok (mk l ∅).

(** [now_ms.saturating_sub(...)] is the truncated subtraction of [N]. *)
Definition is_expired (c : InteractionContextBinding) (l : InteractionContextLimits)
    (now_ms : N) : bool :=
  (l.(max_lifetime_ms) <? now_ms - c.(created_at_ms))%N
  || (l.(idle_timeout_ms) <? now_ms - c.(last_used_at_ms))%N.

Definition prune_contexts (m : InteractionContextManager) (now_ms : N)
    : InteractionContextManager :=
  mk m.(limits) (filter (λ kv, is_expired kv.2 m.(limits) now_ms = false) m.(contexts)).

Definition of_principal (c : InteractionContextBinding) (p : AuthenticatedClientPrincipal) : bool :=
  bool_decide (c.(issuer) = p.(AuthenticatedClientPrincipal.issuer))
  && bool_decide (c.(subject) = p.(AuthenticatedClientPrincipal.subject)).

Definition context_count (m : InteractionContextManager) (p : AuthenticatedClientPrincipal)
    (device : string) : N :=
  mlen (filter (λ kv, of_principal kv.2 p = true ∧ kv.2.(device_id) = device) m.(contexts)).

Definition open (m : InteractionContextManager) (p : AuthenticatedClientPrincipal)
    (device : string) (generation revision now_ms : N) (attempts : list (list N))
    : InteractionContextManager * result InteractionContextError InteractionContextBinding :=
  return_if trim_is_empty p.(AuthenticatedClientPrincipal.issuer)
            || trim_is_empty p.(AuthenticatedClientPrincipal.subject)
            || trim_is_empty device || (generation =? 0)%N || (revision =? 0)%N
    with (m, Err InvalidBinding) ;;
  let m := prune_contexts m now_ms in
  return_if (m.(limits).(max_contexts_per_owner) <=? context_count m p device)%N
    with (m, Err ContextLimitExceeded) ;;
  let_some id := fresh_id "ctx_" m.(contexts) (take 4 attempts)
    else (m, Err IdentifierCollision) ;;
  let c := mk_context id p.(AuthenticatedClientPrincipal.issuer)
    p.(AuthenticatedClientPrincipal.subject) device generation revision
    InteractionScope.WindowScoped now_ms now_ms in
  (mk m.(limits) (<[id := c]> m.(contexts)), Ok c).

Definition touched (c : InteractionContextBinding) (now_ms : N) : InteractionContextBinding :=
  mk_context c.(id) c.(issuer) c.(subject) c.(device_id) c.(device_generation)
    c.(capability_revision) c.(scope) c.(created_at_ms) now_ms.

Definition expanded (c : InteractionContextBinding) : InteractionContextBinding :=
  mk_context c.(id) c.(issuer) c.(subject) c.(device_id) c.(device_generation)
    c.(capability_revision) InteractionScope.DesktopScoped c.(created_at_ms)
    c.(last_used_at_ms).

Definition remove_context (m : InteractionContextManager) (id : string) :=
  mk m.(limits) (delete id m.(contexts)).

Definition validate_and_touch (m : InteractionContextManager) (id : string)
    (p : AuthenticatedClientPrincipal) (device : string) (generation revision now_ms : N)
    : InteractionContextManager * result InteractionContextError InteractionContextBinding :=
  let_some c := m.(contexts) !! id else (m, Err UnknownContext) ;;
  return_if is_expired c m.(limits) now_ms with (remove_context m id, Err Expired) ;;
  return_if negb (of_principal c p) with (m, Err PrincipalMismatch) ;;
  return_if negb (bool_decide (c.(device_id) = device)) with (m, Err DeviceMismatch) ;;
  return_if negb (c.(device_generation) =? generation)%N
    with (remove_context m id, Err GenerationMismatch) ;;
  return_if negb (c.(capability_revision) =? revision)%N
    with (remove_context m id, Err CapabilityRevisionMismatch) ;;
  (mk m.(limits) (<[id := touched c now_ms]> m.(contexts)), Ok (touched c now_ms)).

Definition expand_to_desktop_after_authorization (m : InteractionContextManager) (id : string)
    (p : AuthenticatedClientPrincipal) (device : string) (generation revision now_ms : N)
    : InteractionContextManager * result InteractionContextError InteractionContextBinding :=
  let '(m, validated) := validate_and_touch m id p device generation revision now_ms in
  let_ok c := validated else e => (m, Err e) ;;
  (mk m.(limits) (<[c.(Contexts.id) := expanded c]> m.(contexts)), Ok (expanded c)).

Definition close (m : InteractionContextManager) (id : string)
    (p : AuthenticatedClientPrincipal) (device : string)
    : InteractionContextManager * result InteractionContextError unit :=
  let_some c := m.(contexts) !! id else (m, Err UnknownContext) ;;
  return_if negb (of_principal c p) with (m, Err PrincipalMismatch) ;;
  return_if negb (bool_decide (c.(device_id) = device)) with (m, Err DeviceMismatch) ;;
  (remove_context m id, Ok tt).

(** [invalidate_device_generation] and [invalidate_capability_revision] return the
    identifiers they removed, in the order of the map. *)
Definition retain_contexts `{HashIter} (m : InteractionContextManager)
    (keep : InteractionContextBinding → bool) : InteractionContextManager * list string :=
  (mk m.(limits) (filter (λ kv, keep kv.2 = true) m.(contexts)),
   (List.filter (λ kv, negb (keep kv.2)) (hash_iter m.(contexts))).*1).

Definition invalidate_contexts_of_generation `{HashIter} (m : InteractionContextManager)
    (device : string) (current_generation : N) :=
  retain_contexts m (λ c, negb (bool_decide (c.(device_id) = device))
                          || (c.(device_generation) =? current_generation)%N).

Definition invalidate_contexts_of_revision `{HashIter} (m : InteractionContextManager)
    (device : string) (current_revision : N) :=
  retain_contexts m (λ c, negb (bool_decide (c.(device_id) = device))
                          || (c.(capability_revision) =? current_revision)%N).

(** ** Scoped references *)

Definition DEFAULT_MAX_REFS_PER_CONTEXT : N := 2048.
Definition MAX_BACKEND_REF_BYTES : N := 4096.

Record ScopedBackendRef := mk_ref {
  public_ref : string;
  context_id : string;
  ref_device_id : string;
  ref_device_generation : N;
  ref_capability_revision : N;
  kind : ScopedRefKind;
  backend_ref : string
}.

Record ScopedBackendRefRegistry := mk_registry {
  max_refs_per_context : N;
  refs : gmap string ScopedBackendRef
}.

Definition new_scoped_registry (max_refs_per_context : N)
    : result ScopedRefError ScopedBackendRefRegistry :=
  if (max_refs_per_context =? 0)%N then Err ScopedRefError.InvalidLimit
  else Ok (mk_registry max_refs_per_context ∅).

Definition refs_of_context (r : ScopedBackendRefRegistry) (context : string) : N :=
  mlen (filter (λ kv, kv.2.(context_id) = context) r.(refs)).

Definition mint_scoped (r : ScopedBackendRefRegistry) (c : InteractionContextBinding)
    (k : ScopedRefKind) (backend : string) (attempts : list (list N))
    : ScopedBackendRefRegistry * result ScopedRefError string :=
  return_if is_empty_string backend || (MAX_BACKEND_REF_BYTES <? slen backend)%N
    with (r, Err ScopedRefError.InvalidBackendRef) ;;
  return_if (r.(max_refs_per_context) <=? refs_of_context r c.(id))%N
    with (r, Err ScopedRefError.RefLimitExceeded) ;;
  let_some ref := fresh_id "ref_" r.(refs) (take 4 attempts)
    else (r, Err ScopedRefError.IdentifierCollision) ;;
  (mk_registry r.(max_refs_per_context)
     (<[ref := mk_ref ref c.(id) c.(device_id) c.(device_generation) c.(capability_revision)
                 k backend]> r.(refs)), Ok ref).

Definition resolve_scoped (r : ScopedBackendRefRegistry) (ref : string)
    (c : InteractionContextBinding) (expected_kind : ScopedRefKind)
    : result ScopedRefError string :=
  let_some reference := r.(refs) !! ref else Err ScopedRefError.UnknownRef ;;
  return_if negb (bool_decide (reference.(public_ref) = ref))
            || negb (bool_decide (reference.(context_id) = c.(id)))
            || negb (bool_decide (reference.(ref_device_id) = c.(device_id)))
    with Err ScopedRefError.ContextMismatch ;;
  return_if negb (reference.(ref_device_generation) =? c.(device_generation))%N
    with Err ScopedRefError.GenerationMismatch ;;
  return_if negb (reference.(ref_capability_revision) =? c.(capability_revision))%N
    with Err ScopedRefError.CapabilityRevisionMismatch ;;
  return_if negb (bool_decide (reference.(kind) = expected_kind))
    with Err ScopedRefError.KindMismatch ;;
  Ok reference.(backend_ref).

(** The first loop of [consume_many]. *)
Fixpoint resolve_many (r : ScopedBackendRefRegistry) (public_refs : list string)
    (c : InteractionContextBinding) (expected_kind : ScopedRefKind)
    : result ScopedRefError (list string) :=
  match public_refs with
  | [] => Ok []
  | ref :: public_refs =>
      let_ok backend := resolve_scoped r ref c expected_kind else e => Err e ;;
      let_ok rest := resolve_many r public_refs c expected_kind else e => Err e ;;
      Ok (backend :: rest)
  end.

Definition consume_many (r : ScopedBackendRefRegistry) (public_refs : list string)
    (c : InteractionContextBinding) (expected_kind : ScopedRefKind)
    : ScopedBackendRefRegistry * result ScopedRefError (list string) :=
  let_ok backend_refs := resolve_many r public_refs c expected_kind else e => (r, Err e) ;;
  (mk_registry r.(max_refs_per_context)
     (foldl (λ refs ref, delete ref refs) r.(refs) public_refs), Ok backend_refs).

Definition retain_scoped (r : ScopedBackendRefRegistry) (keep : ScopedBackendRef → bool) :=
  mk_registry r.(max_refs_per_context) (filter (λ kv, keep kv.2 = true) r.(refs)).

Definition invalidate_context (r : ScopedBackendRefRegistry) (context : string) :=
  retain_scoped r (λ reference, negb (bool_decide (reference.(context_id) = context))).

Definition invalidate_refs_of_generation (r : ScopedBackendRefRegistry) (device : string)
    (current_generation : N) :=
  retain_scoped r (λ reference, negb (bool_decide (reference.(ref_device_id) = device))
                                || (reference.(ref_device_generation) =? current_generation)%N).

Definition invalidate_refs_of_revision (r : ScopedBackendRefRegistry) (device : string)
    (current_revision : N) :=
  retain_scoped r (λ reference, negb (bool_decide (reference.(ref_device_id) = device))
                                || (reference.(ref_capability_revision) =? current_revision)%N).

End Contexts.
