(* ===== verification/WorkflowRefsTheorems.v ===== *)
(** * Properties of workflow references

    A managed-job reference resolves only for the session that reserved it, and to
    the locator it was bound to, once; an interaction context serves only the
    client, device and session it was opened for, for a bounded time, and widens
    to the desktop only by the authorized call; a scoped reference resolves only
    inside its context, and once consumed it is gone. *)

From S2P Require Import Prelude Vocabulary Protocol Crypto SafetyTypes EphemeralRefs.
From S2P Require Import EphemeralRefsTheorems Registry Grants Trust WorkflowRefs.

(** ** Managed jobs *)

Module JobRefsTheorems.
Import JobRefs.

(** Every state of a registry, with the latest entry of each reference. *)
Inductive job_history : HubManagedJobRefRegistry → gmap string ManagedJobRefEntry → Prop :=
| job_new l prefix r : new_with_prefix l prefix = Ok r → job_history r ∅
| job_reserved r m o d g v op t now attempts r' ref :
    job_history r m → reserve r o d g v op t now attempts = (r', Ok ref) →
    job_history r' (<[ref := mk_entry o d g v None op t]> m)
| job_not_reserved r m o d g v op t now attempts r' e :
    job_history r m → reserve r o d g v op t now attempts = (r', Err e) → job_history r' m
| job_bound r m ref o d g v op loc now r' t :
    job_history r m → m !! ref = Some (mk_entry o d g v None op t) →
    bind r ref o d g v op loc now = (r', Ok tt) →
    job_history r' (<[ref := mk_entry o d g v (Some loc) op t]> m)
| job_not_bound r m ref o d g v op loc now r' e :
    job_history r m → bind r ref o d g v op loc now = (r', Err e) → job_history r' m
| job_release r m ref o d g v :
    job_history r m → job_history (release_unbound r ref o d g v) m
| job_resolve r m ref o d g v now :
    job_history r m → job_history (resolve_owned r ref o d g v now).1 m.

Definition jobs_ok (r : HubManagedJobRefRegistry) (m : gmap string ManagedJobRefEntry) : Prop :=
  r.(refs) ⊆ m ∧ (mlen r.(refs) ≤ r.(limits).(max_refs))%N
  ∧ ∀ o, (owner_count r o ≤ r.(limits).(max_refs_per_owner))%N.

Lemma jobs_ok_subseteq r m refs' :
  refs' ⊆ r.(refs) → jobs_ok r m → jobs_ok (with_refs r refs') m.
Proof.
  intros Hs (Hm & Hn & Ho). split; [by transitivity (refs r)|]. split.
  - pose proof (map_subseteq_size _ _ Hs). unfold mlen in *. cbn. lia.
  - intros o. specialize (Ho o). unfold owner_count, mlen in *. cbn.
    assert (filter (λ kv, kv.2.(owner) = o) refs' ⊆ filter (λ kv, kv.2.(owner) = o) r.(refs))
      as Hf by (by apply map_filter_subseteq_mono).
    pose proof (map_subseteq_size _ _ Hf). lia.
Qed.

Lemma jobs_ok_prune r m now : jobs_ok r m → jobs_ok (prune r now) m.
Proof. apply (jobs_ok_subseteq r m), map_filter_subseteq. Qed.

Lemma fenced_iff e o d g v :
  fenced e o d g v = true ↔
  e.(owner) = o ∧ e.(device_id) = d ∧ e.(generation) = g ∧ e.(capability_revision) = v.
Proof.
  unfold fenced. rewrite !andb_true_iff, !bool_decide_eq_true, !N.eqb_eq. tauto.
Qed.

Lemma reserve_Ok r o d g v op t now attempts r' ref :
  reserve r o d g v op t now attempts = (r', Ok ref) →
  (prune r now).(refs) !! ref = None
  ∧ r' = with_refs r (<[ref := mk_entry o d g v None op t]> (prune r now).(refs))
  ∧ (mlen (prune r now).(refs) < r.(limits).(max_refs))%N
  ∧ (owner_count (prune r now) o < r.(limits).(max_refs_per_owner))%N
  ∧ (now < t)%N.
Proof.
  unfold reserve. intros Hr. run Hr. split_bools.
  repeat split; eauto using fresh_id_None; lia.
Qed.

Lemma jobs_ok_reserved r m o d g v op t now attempts r' ref :
  jobs_ok r m → reserve r o d g v op t now attempts = (r', Ok ref) →
  jobs_ok r' (<[ref := mk_entry o d g v None op t]> m).
Proof.
  intros Hr Hres. apply reserve_Ok in Hres as (Hnew & -> & Hn & Ho & _).
  apply (jobs_ok_prune _ _ now) in Hr as (Hm & _ & Hother). split; [by apply insert_mono|].
  assert (limits (prune r now) = limits r) as Hl by done.
  revert Hl Hm Hother Hnew Hn Ho. generalize (prune r now). intros p Hl Hm Hother Hnew Hn Ho.
  rewrite Hl in *. split; cbn.
  - unfold mlen in *. rewrite map_size_insert_None by done. lia.
  - intros o'. specialize (Hother o'). unfold owner_count, mlen in *. cbn in *.
    destruct (decide (o = o')) as [<-|Hne].
    + rewrite map_filter_insert_True by done. rewrite map_size_insert_None; [lia|].
      apply map_lookup_filter_None. by left.
    + rewrite map_filter_insert_not'; [done|cbn; congruence|]. intros; congruence.
Qed.

Lemma bind_Ok r ref o d g v op loc now r' :
  bind r ref o d g v op loc now = (r', Ok tt) →
  ∃ t, (prune r now).(refs) !! ref = Some (mk_entry o d g v None op t)
  ∧ r' = with_refs (prune r now)
           (<[ref := mk_entry o d g v (Some loc) op t]> (prune r now).(refs)).
Proof.
  unfold bind. intros Hb. run Hb. split_bools. apply fenced_iff in H as (<- & <- & <- & <-).
  match goal with H : _ !! ref = Some ?e |- _ => destruct e as [? ? ? ? [?|] ? t]; cbn in * end;
    [done|]. subst. by exists t.
Qed.

Lemma jobs_ok_replace r m ref e e' :
  r.(refs) !! ref = Some e → e'.(owner) = e.(owner) →
  jobs_ok r m → jobs_ok (with_refs r (<[ref := e']> r.(refs))) (<[ref := e']> m).
Proof.
  intros Hin Ho (Hm & Hn & Hc). split; [by apply insert_mono|]. split; cbn.
  - unfold mlen in *. rewrite map_size_insert_Some by eauto. lia.
  - intros o. specialize (Hc o). unfold owner_count, mlen in *. cbn in *.
    destruct (decide (e.(owner) = o)) as [<-|Hne].
    + rewrite map_filter_insert_True by done. rewrite map_size_insert_Some; [done|].
      exists e. by apply map_lookup_filter_Some.
    + rewrite map_filter_insert_not' ; [done|cbn; congruence|].
      intros e'' He''. cbn. congruence.
Qed.

Lemma job_history_ok r m : job_history r m → jobs_ok r m.
Proof.
  induction 1; eauto using jobs_ok_reserved.
  - unfold new_with_prefix in *. destruct (_ || _) eqn:E in *; simplify_eq. split_bools.
    split; [done|]. unfold owner_count, mlen. cbn [refs limits].
    split; intros; rewrite ?map_filter_empty, map_size_empty; lia.
  - assert (r' = prune r now) as ->; [|by apply jobs_ok_prune].
    match goal with Hr : reserve _ _ _ _ _ _ _ _ _ = _ |- _ => unfold reserve in Hr; by run Hr end.
  - match goal with Hb : bind _ _ _ _ _ _ _ _ _ = _ |- _ =>
      apply bind_Ok in Hb as (t' & Hin & ->) end.
    apply (jobs_ok_prune _ _ now) in IHjob_history.
    assert (t' = t) as -> by (destruct IHjob_history as [Hs _];
      pose proof (lookup_weaken _ _ _ _ Hin Hs); congruence).
    by apply (jobs_ok_replace _ _ _ _ _ Hin).
  - assert (r' = prune r now) as ->; [|by apply jobs_ok_prune].
    match goal with Hb : bind _ _ _ _ _ _ _ _ _ = _ |- _ => unfold bind in Hb; by run Hb end.
  - unfold release_unbound. destruct (is_some_and _ _); [|done].
    apply jobs_ok_subseteq; [apply delete_subseteq|done].
  - assert ((resolve_owned r ref o d g v now).1 = prune r now) as ->; [|by apply jobs_ok_prune].
    unfold resolve_owned. by repeat case_match.
Qed.

(** The registry stays within its limits. A reference resolves only for the owner,
    device and session that reserved it, before it expires, to the locator it was
    bound to; and a bound reference is never bound again. *)
Theorem job_references_are_bound r m :
  job_history r m →
  ((mlen r.(refs) ≤ r.(limits).(max_refs))%N
   ∧ ∀ o, (owner_count r o ≤ r.(limits).(max_refs_per_owner))%N)
  ∧ (∀ ref o d g v now res,
       (resolve_owned r ref o d g v now).2 = Ok res →
       ∃ t, m !! ref = Some (mk_entry o d g v (Some res.(resolved_locator))
                               res.(resolved_operation_id) t) ∧ (now < t)%N)
  ∧ (∀ ref o d g v op loc now,
       (∃ e, m !! ref = Some e ∧ is_Some e.(agent_locator)) →
       is_ok (bind r ref o d g v op loc now).2 = false).
Proof.
  intros (Hm & Hn)%job_history_ok. split; [done|]. split.
  - intros ref o d g v now res Hr. unfold resolve_owned in Hr. cbn zeta in Hr.
    destruct ((prune r now).(refs) !! ref) as [e|] eqn:E; [|done].
    destruct (fenced e o d g v) eqn:Hf; [|done]. apply fenced_iff in Hf as (<- & <- & <- & <-).
    destruct e as [eo ed eg ev [loc|] eop t]; [|done]. cbn in *. simplify_eq. cbn.
    apply map_lookup_filter_Some in E as [E Ht]. exists t. split; [|done].
    by eapply lookup_weaken.
  - intros ref o d g v op loc now (e & He & Hloc).
    destruct (bind r ref o d g v op loc now) as [r' [[]|?]] eqn:Hb; [|done].
    apply bind_Ok in Hb as (t & Hin & _). apply map_lookup_filter_Some in Hin as [Hin _].
    pose proof (lookup_weaken _ _ _ _ Hin Hm). simplify_eq. by destruct Hloc.
Qed.

End JobRefsTheorems.

(** ** Interaction contexts *)

Module ContextsTheorems.
Import Contexts Trust.

(** Every state of a manager, with each context as it was opened and the contexts
    that were widened to the desktop since. *)
Inductive context_history `{HashIter} :
    InteractionContextManager → gmap string InteractionContextBinding → gset string → Prop :=
| context_new l m : new_manager l = Ok m → context_history m ∅ ∅
| context_opened m o w p d g v now attempts m' c :
    context_history m o w → open m p d g v now attempts = (m', Ok c) →
    context_history m' (<[c.(id) := c]> o) (w ∖ {[c.(id)]})
| context_refused m o w p d g v now attempts m' e :
    context_history m o w → open m p d g v now attempts = (m', Err e) → context_history m' o w
| context_touch m o w i p d g v now :
    context_history m o w → context_history (validate_and_touch m i p d g v now).1 o w
| context_widened m o w i p d g v now m' c :
    context_history m o w →
    expand_to_desktop_after_authorization m i p d g v now = (m', Ok c) →
    context_history m' o ({[i]} ∪ w)
| context_not_widened m o w i p d g v now m' e :
    context_history m o w →
    expand_to_desktop_after_authorization m i p d g v now = (m', Err e) → context_history m' o w
| context_close m o w i p d : context_history m o w → context_history (close m i p d).1 o w
| context_prune m o w now : context_history m o w → context_history (prune_contexts m now) o w
| context_retain m o w keep :
    context_history m o w → context_history (retain_contexts m keep).1 o w.

(** What never changes in a context. *)
Definition same_context (c c0 : InteractionContextBinding) : Prop :=
  c.(id) = c0.(id) ∧ c.(issuer) = c0.(issuer) ∧ c.(subject) = c0.(subject)
  ∧ c.(device_id) = c0.(device_id) ∧ c.(device_generation) = c0.(device_generation)
  ∧ c.(capability_revision) = c0.(capability_revision)
  ∧ c.(created_at_ms) = c0.(created_at_ms).

Lemma same_context_trans a b c : same_context a b → same_context b c → same_context a c.
Proof. unfold same_context. intuition congruence. Qed.

Record contexts_ok (m : InteractionContextManager) (o : gmap string InteractionContextBinding)
    (w : gset string) : Prop := {
  ok_context i c : m.(contexts) !! i = Some c →
    c.(id) = i ∧ (∃ c0, o !! i = Some c0 ∧ same_context c c0)
    ∧ (c.(scope) = InteractionScope.DesktopScoped → i ∈ w);
  ok_contexts p d : (context_count m p d ≤ m.(limits).(max_contexts_per_owner))%N
}.

Lemma contexts_ok_subseteq m o w cs :
  cs ⊆ m.(contexts) → contexts_ok m o w → contexts_ok (mk m.(limits) cs) o w.
Proof.
  intros Hs [Hc Hn]. split; cbn.
  - intros i c Hin. apply Hc. by eapply lookup_weaken.
  - intros p d. specialize (Hn p d). unfold context_count, mlen in *. cbn.
    assert (filter (λ kv, of_principal kv.2 p = true ∧ kv.2.(device_id) = d) cs
            ⊆ filter (λ kv, of_principal kv.2 p = true ∧ kv.2.(device_id) = d) m.(contexts))
      as Hf by (by apply map_filter_subseteq_mono).
    pose proof (map_subseteq_size _ _ Hf). lia.
Qed.

(** Replacing a context by one of the same client and device. *)
Lemma contexts_ok_replace m o w w' i c c' :
  m.(contexts) !! i = Some c → same_context c' c → w ⊆ w' →
  (c'.(scope) = InteractionScope.DesktopScoped → i ∈ w') →
  contexts_ok m o w → contexts_ok (mk m.(limits) (<[i := c']> m.(contexts))) o w'.
Proof.
  intros Hin Hsame Hw Hscope [Hc Hn]. split; cbn.
  - intros j cj. rewrite lookup_insert_Some. intros [[<- <-]|[Hne Hj]].
    + destruct (Hc _ _ Hin) as (Hi & (c0 & Ho & Hs0) & _). split; [by destruct Hsame; congruence|].
      split; [|done]. exists c0. eauto using same_context_trans.
    + destruct (Hc _ _ Hj) as (? & ? & ?). split; [done|]. split; [done|]. set_solver.
  - intros p d. specialize (Hn p d). unfold context_count, mlen in *. cbn.
    assert (of_principal c' p = of_principal c p ∧ c'.(device_id) = c.(device_id)) as [Hp Hd].
    { destruct Hsame as (_ & Hi & Hs & Hd & _). unfold of_principal. by rewrite Hi, Hs, Hd. }
    destruct (decide (of_principal c p = true ∧ c.(device_id) = d)) as [Hyes|Hno].
    + rewrite map_filter_insert_True by (cbn; by rewrite Hp, Hd).
      rewrite map_size_insert_Some; [done|]. exists c. by apply map_lookup_filter_Some.
    + rewrite map_filter_insert_not'; [done|cbn; by rewrite Hp, Hd|].
      intros c'' Hc''. by simplify_eq.
Qed.

Lemma open_Ok m p d g v now attempts m' c :
  open m p d g v now attempts = (m', Ok c) →
  let q := prune_contexts m now in
  q.(contexts) !! c.(id) = None
  ∧ m' = mk m.(limits) (<[c.(id) := c]> q.(contexts))
  ∧ (context_count q p d < m.(limits).(max_contexts_per_owner))%N
  ∧ c = mk_context c.(id) p.(AuthenticatedClientPrincipal.issuer)
          p.(AuthenticatedClientPrincipal.subject) d g v InteractionScope.WindowScoped now now.
Proof.
  unfold open. intros Ho. run Ho. split_bools. repeat split; eauto using fresh_id_None.
Qed.

Lemma of_principal_iff c p :
  of_principal c p = true ↔
  c.(issuer) = p.(AuthenticatedClientPrincipal.issuer)
  ∧ c.(subject) = p.(AuthenticatedClientPrincipal.subject).
Proof. unfold of_principal. by rewrite andb_true_iff, !bool_decide_eq_true. Qed.

Lemma contexts_ok_opened m o w p d g v now attempts m' c :
  contexts_ok m o w → open m p d g v now attempts = (m', Ok c) →
  contexts_ok m' (<[c.(id) := c]> o) (w ∖ {[c.(id)]}).
Proof.
  intros Hm Ho. apply open_Ok in Ho as (Hnew & -> & Hn & Hc).
  assert (contexts_ok (prune_contexts m now) o w) as [Hold Hcount].
  { apply (contexts_ok_subseteq m), Hm. apply map_filter_subseteq. }
  revert Hnew Hn Hold Hcount.
  assert (limits (prune_contexts m now) = limits m) as Hl by done. revert Hl.
  generalize (prune_contexts m now). intros q Hl Hnew Hn Hold Hcount. split; cbn.
  - intros i ci. rewrite !lookup_insert_Some. intros [[<- <-]|[Hne Hin]].
    + split; [done|]. split; [|by rewrite Hc]. exists c. by rewrite lookup_insert_eq.
    + destruct (Hold _ _ Hin) as (? & (c0 & ? & ?) & Hw). split; [done|].
      split; [|set_solver]. exists c0. by rewrite lookup_insert_ne.
  - intros p' d'. specialize (Hcount p' d'). unfold context_count, mlen in *. cbn.
    rewrite Hl in *.
    destruct (decide (of_principal c p' = true ∧ c.(device_id) = d')) as [[Hp Hd]|Hno].
    + apply of_principal_iff in Hp as [Hi Hs]. rewrite Hc in Hi, Hs, Hd. cbn in *.
      destruct p as [i1 s1], p' as [i2 s2]. cbn in *. subst i2 s2 d'.
      rewrite map_filter_insert_True.
      * rewrite map_size_insert_None; [lia|]. apply map_lookup_filter_None. by left.
      * cbn. rewrite of_principal_iff, Hc. done.
    + rewrite map_filter_insert_not'; [done|done|]. intros; congruence.
Qed.

Lemma validate_and_touch_cases m i p d g v now :
  (∃ c, m.(contexts) !! i = Some c ∧ is_expired c m.(limits) now = false
        ∧ of_principal c p = true ∧ c.(device_id) = d ∧ c.(device_generation) = g
        ∧ c.(capability_revision) = v
        ∧ validate_and_touch m i p d g v now
          = (mk m.(limits) (<[i := touched c now]> m.(contexts)), Ok (touched c now)))
  ∨ ∃ e, (validate_and_touch m i p d g v now).2 = Err e
         ∧ ((validate_and_touch m i p d g v now).1 = m
            ∨ (validate_and_touch m i p d g v now).1 = remove_context m i).
Proof.
  unfold validate_and_touch. destruct (m.(contexts) !! i) as [c|] eqn:Hin; [|right; eauto].
  destruct (is_expired c _ _) eqn:He; [right; eauto|].
  destruct (of_principal c p) eqn:Hp; [|right; eauto].
  destruct (bool_decide _) eqn:Hd; [|right; eauto].
  destruct (c.(device_generation) =? g)%N eqn:Hg; [|right; eauto].
  destruct (c.(capability_revision) =? v)%N eqn:Hv; [|right; eauto].
  split_bools. left. exists c. done.
Qed.

Lemma same_context_touched c now : same_context (touched c now) c.
Proof. done. Qed.

Lemma contexts_ok_touch m o w i p d g v now :
  contexts_ok m o w → contexts_ok (validate_and_touch m i p d g v now).1 o w.
Proof.
  intros Hm. destruct (validate_and_touch_cases m i p d g v now)
    as [(c & Hin & _ & _ & _ & _ & _ & ->)|(e & _ & [-> | ->])]; [|done|].
  - apply (contexts_ok_replace m o w w i c); try done. cbn. by apply (ok_context _ _ _ Hm).
  - by apply contexts_ok_subseteq; [apply delete_subseteq|].
Qed.

Lemma contexts_ok_widened m o w i p d g v now m' c :
  contexts_ok m o w → expand_to_desktop_after_authorization m i p d g v now = (m', Ok c) →
  contexts_ok m' o ({[i]} ∪ w).
Proof.
  intros Hm. pose proof (contexts_ok_touch m o w i p d g v now Hm) as Ht.
  unfold expand_to_desktop_after_authorization.
  destruct (validate_and_touch_cases m i p d g v now)
    as [(c0 & Hin & _ & _ & _ & _ & _ & Heq)|(e & He & _)].
  - rewrite Heq in *. intros Hx%(f_equal fst). cbn [fst] in Hx, Ht. subst m'.
    assert (c0.(id) = i) as Hi by (by destruct (ok_context _ _ _ Hm _ _ Hin)).
    cbn [touched id]. rewrite Hi.
    apply (contexts_ok_replace (mk m.(limits) (<[i := touched c0 now]> m.(contexts))) o w _ i
             (touched c0 now)); [apply lookup_insert_eq|done|set_solver|set_solver|done].
  - destruct (validate_and_touch m i p d g v now) as [m1 [?|?]]; by cbn in *.
Qed.

Lemma context_history_ok `{HashIter} m o w : context_history m o w → contexts_ok m o w.
Proof.
  induction 1; eauto using contexts_ok_opened, contexts_ok_touch, contexts_ok_widened.
  - unfold new_manager, validate_context_limits in *. destruct (_ || _) eqn:E in *; simplify_eq.
    split; cbn; [by intros|]. intros p d. unfold context_count, mlen. cbn.
    rewrite map_filter_empty, map_size_empty. lia.
  - match goal with Ho : open _ _ _ _ _ _ _ = _ |- _ => unfold open in Ho; run Ho; try done end;
      (apply contexts_ok_subseteq; [apply map_filter_subseteq|done]).
  - assert (m' = (validate_and_touch m i p d g v now).1) as ->; [|by apply contexts_ok_touch].
    unfold expand_to_desktop_after_authorization in *.
    by destruct (validate_and_touch m i p d g v now) as [m1 [?|?]]; simplify_eq.
  - unfold close. destruct (_ !! _); [|done]. repeat case_match; try done.
    by apply contexts_ok_subseteq; [apply delete_subseteq|].
  - by apply contexts_ok_subseteq; [apply map_filter_subseteq|].
  - by apply contexts_ok_subseteq; [apply map_filter_subseteq|].
Qed.

(** A context is served only to the client, device and session it was opened for,
    during its life and while it is in use, and is desktop-wide only after it was
    widened by the authorized call; no client holds more contexts on a device
    than the limit. *)
Theorem contexts_serve_their_client `{HashIter} m o w :
  context_history m o w →
  (∀ p d, (context_count m p d ≤ m.(limits).(max_contexts_per_owner))%N)
  ∧ ∀ i p d g v now m' c,
      validate_and_touch m i p d g v now = (m', Ok c) →
      ∃ c0, o !! i = Some c0 ∧ same_context c c0
      ∧ c0.(issuer) = p.(AuthenticatedClientPrincipal.issuer)
      ∧ c0.(subject) = p.(AuthenticatedClientPrincipal.subject)
      ∧ c0.(device_id) = d ∧ c0.(device_generation) = g ∧ c0.(capability_revision) = v
      ∧ (now ≤ c0.(created_at_ms) + m.(limits).(max_lifetime_ms))%N
      ∧ (∃ used, m.(contexts) !! i = Some used
                 ∧ (now ≤ used.(last_used_at_ms) + m.(limits).(idle_timeout_ms))%N)
      ∧ (c.(scope) = InteractionScope.DesktopScoped → i ∈ w).
Proof.
  intros Hm%context_history_ok. split; [apply (ok_contexts _ _ _ Hm)|].
  intros i p d g v now m' c Hv.
  destruct (validate_and_touch_cases m i p d g v now)
    as [(c1 & Hin & He & Hp & Hd & Hg & Hr & Heq)|(e & He & _)];
    [|rewrite Hv in He; done].
  rewrite Heq in Hv. injection Hv as <- <-. apply of_principal_iff in Hp as [Hi Hs].
  destruct (ok_context _ _ _ Hm _ _ Hin) as (_ & (c0 & Ho & Hsame) & Hw).
  unfold is_expired in He. split_bools.
  exists c0. destruct Hsame as (Hs1 & Hs2 & Hs3 & Hs4 & Hs5 & Hs6 & Hs7).
  repeat split; try done; try congruence; [lia|]. exists c1. split; [done|lia].
Qed.

(** ** Scoped references *)

(** Every state of a registry, with the latest mint of each reference. *)
Inductive scoped_history : ScopedBackendRefRegistry → gmap string ScopedBackendRef → Prop :=
| scoped_new n r : new_scoped_registry n = Ok r → scoped_history r ∅
| scoped_minted r m c k backend attempts r' ref :
    scoped_history r m → mint_scoped r c k backend attempts = (r', Ok ref) →
    scoped_history r'
      (<[ref := mk_ref ref c.(id) c.(device_id) c.(device_generation) c.(capability_revision)
                  k backend]> m)
| scoped_refused r m c k backend attempts r' e :
    scoped_history r m → mint_scoped r c k backend attempts = (r', Err e) → scoped_history r' m
| scoped_consume r m l c k : scoped_history r m → scoped_history (consume_many r l c k).1 m
| scoped_retain r m keep : scoped_history r m → scoped_history (retain_scoped r keep) m.

Lemma foldl_delete_lookup {A} (l : list string) (m : gmap string A) i :
  foldl (λ m i, delete i m) m l !! i = if bool_decide (i ∈ l) then None else m !! i.
Proof.
  revert m. induction l as [|j l IH]; intros m; cbn; [done|]. rewrite IH.
  destruct (decide (i = j)) as [->|Hne].
  - rewrite lookup_delete_eq, (bool_decide_true (j ∈ j :: l)) by set_solver. by case_bool_decide.
  - rewrite lookup_delete_ne by done. do 2 case_bool_decide; set_solver.
Qed.

Lemma foldl_delete_subseteq {A} (l : list string) (m : gmap string A) :
  foldl (λ m i, delete i m) m l ⊆ m.
Proof.
  apply map_subseteq_spec. intros i a. rewrite foldl_delete_lookup. by case_bool_decide.
Qed.

Definition scoped_ok (r : ScopedBackendRefRegistry) (m : gmap string ScopedBackendRef) : Prop :=
  r.(refs) ⊆ m ∧ ∀ context, (refs_of_context r context ≤ r.(max_refs_per_context))%N.

Lemma scoped_ok_subseteq r m refs' :
  refs' ⊆ r.(refs) → scoped_ok r m → scoped_ok (mk_registry r.(max_refs_per_context) refs') m.
Proof.
  intros Hs [Hm Hn]. split; [by transitivity r.(refs)|]. intros context.
  specialize (Hn context). unfold refs_of_context, mlen in *. cbn.
  assert (filter (λ kv, kv.2.(context_id) = context) refs'
          ⊆ filter (λ kv, kv.2.(context_id) = context) r.(refs))
    as Hf by (by apply map_filter_subseteq_mono).
  pose proof (map_subseteq_size _ _ Hf). lia.
Qed.

Lemma scoped_history_ok r m : scoped_history r m → scoped_ok r m.
Proof.
  induction 1 as [n r Hr|r m c k backend attempts r' ref _ [Hm Hn] Hr|r m c k backend attempts r' e
    _ IH Hr|r m l c k _ IH|r m keep _ IH].
  - unfold new_scoped_registry in Hr. destruct (n =? 0)%N; simplify_eq. split; [done|].
    intros context. unfold refs_of_context, mlen. cbn. rewrite map_filter_empty, map_size_empty. lia.
  - unfold mint_scoped in Hr. run Hr. split_bools.
    match goal with H : fresh_id _ _ _ = Some _ |- _ => apply fresh_id_None in H as Hnew end.
    split; [by apply insert_mono|]. intros context. specialize (Hn context).
    unfold refs_of_context, mlen in *. cbn in *.
    destruct (decide (c.(id) = context)) as [<-|Hne].
    + rewrite map_filter_insert_True by done. rewrite map_size_insert_None; [lia|].
      apply map_lookup_filter_None. by left.
    + rewrite map_filter_insert_not'; [done|cbn; congruence|]. intros; congruence.
  - unfold mint_scoped in Hr. by run Hr.
  - unfold consume_many. destruct (resolve_many r l c k); [|done].
    apply scoped_ok_subseteq; [apply foldl_delete_subseteq|done].
  - by apply scoped_ok_subseteq; [apply map_filter_subseteq|].
Qed.

Lemma resolve_scoped_Ok r ref c k backend :
  resolve_scoped r ref c k = Ok backend ↔
  r.(refs) !! ref = Some (mk_ref ref c.(id) c.(device_id) c.(device_generation)
                            c.(capability_revision) k backend).
Proof.
  unfold resolve_scoped. split.
  - intros Hr. run Hr. split_bools.
    match goal with H : refs _ !! _ = Some ?x |- _ => destruct x; cbn in *; by subst end.
  - intros ->. cbn. by rewrite !bool_decide_true, !N.eqb_refl by done.
Qed.

Lemma resolve_many_Ok r l c k backends :
  resolve_many r l c k = Ok backends →
  Forall2 (λ ref backend, resolve_scoped r ref c k = Ok backend) l backends.
Proof.
  revert backends. induction l as [|ref l IH]; cbn; intros backends Hr; run Hr; by constructor; auto.
Qed.

(** A scoped reference resolves only inside the context, session and kind it was
    minted for, to what was minted; consuming references is all or nothing:
    either every one of them resolved and is gone and no other is touched, or the
    registry is unchanged; and no context holds more than the limit. *)
Theorem scoped_references_are_bound r m :
  scoped_history r m →
  (∀ context, (refs_of_context r context ≤ r.(max_refs_per_context))%N)
  ∧ (∀ ref c k backend, resolve_scoped r ref c k = Ok backend →
       m !! ref = Some (mk_ref ref c.(id) c.(device_id) c.(device_generation)
                          c.(capability_revision) k backend))
  ∧ (∀ l c k r' res, consume_many r l c k = (r', res) →
       match res with
       | Ok backends =>
           Forall2 (λ ref backend, resolve_scoped r ref c k = Ok backend) l backends
           ∧ ∀ ref c' k', resolve_scoped r' ref c' k'
               = if bool_decide (ref ∈ l) then Err ScopedRefError.UnknownRef
                 else resolve_scoped r ref c' k'
       | Err _ => r' = r
       end).
Proof.
  intros [Hm Hn]%scoped_history_ok. split; [done|]. split.
  - intros ref c k backend Hr. apply resolve_scoped_Ok in Hr. by eapply lookup_weaken.
  - intros l c k r' res. unfold consume_many.
    destruct (resolve_many r l c k) as [backends|e] eqn:Hr; intros [= <- <-]; [|done].
    split; [by apply resolve_many_Ok|]. intros ref c' k'. unfold resolve_scoped. cbn [refs].
    rewrite foldl_delete_lookup. by case_bool_decide.
Qed.

End ContextsTheorems.
