(* ===== verification/Persistence.v ===== *)
(** * Checkpoints

    [src/src/v2_m1_persistence.rs]: what the Agent and the Hub persist, how a
    restart restores it, and the append-only directory of checkpoint files. The
    bytes of a checkpoint come from [serde_json], which is a parameter; the
    directory is a map from file names to entries, and what the file system does
    with the requests of one call is an argument of the call. *)

From S2P Require Import Prelude Vocabulary Protocol Crypto Tombstone Admission Registry Grants.
From S2P Require Import SafetyTypes Evidence Transport Controller ControllerSnapshot AgentGate.
From S2P Require Import Trust.
Import ControllerSnapshot.

Definition LEGACY_M1_STATE_SCHEMA_VERSION : N := 5.
Definition M1_STATE_SCHEMA_VERSION : N := 6.
Definition HUB_M1_STATE_SCHEMA_VERSION : N := 7.
Definition HUB_PERSISTENCE_FENCE_SCHEMA_VERSION : N := 1.
Definition BACKEND_RECEIPT_M1_STATE_SCHEMA_VERSION : N := 6.
Definition MAX_CHECKPOINT_BYTES : N := 1048576.
Definition MAX_RETAINED_CHECKPOINTS : N := 64.

Module PersistenceError.
Inductive PersistenceError :=
| Io | Serialization
| Control (e : ControlError)
| Execution (e : ExecutionError)
| UnsupportedSchema (got : N)
| InvalidPrefix | UnsafePath | UnsafePermissions | CheckpointTooLarge | NoCheckpoint
| SequenceContention | ConditionalConflict | PublicationUncertain | InvalidRetention
| InvalidState.
#[global] Instance PersistenceError_eq_dec : EqDecision PersistenceError.
Proof. solve_decision. Defined.
End PersistenceError.
Abbreviation PersistenceError := PersistenceError.PersistenceError.

(** [?] on a result with another error type. *)
Definition map_err {E F A} (f : E → F) (r : result E A) : result F A :=
  match r with Ok a => Ok a | Err e => Err (f e) end.

Module Persistence.
Import PersistenceError.

Definition validate_state_schema (got : N) : result PersistenceError unit :=
  if (got =? LEGACY_M1_STATE_SCHEMA_VERSION)%N || (got =? M1_STATE_SCHEMA_VERSION)%N
  then Ok tt else Err (UnsupportedSchema got).

Definition validate_hub_state_schema (got : N) : result PersistenceError unit :=
  if (got =? LEGACY_M1_STATE_SCHEMA_VERSION)%N || (got =? M1_STATE_SCHEMA_VERSION)%N
     || (got =? HUB_M1_STATE_SCHEMA_VERSION)%N
  then Ok tt else Err (UnsupportedSchema got).

(** ** The Agent's state *)

Record AgentPersistentState := mk_agent_state {
  agent_schema_version : N;
  agent_device_id : string;
  trusted_hub_public_key : list N;
  trusted_hub_epoch : N;
  agent_grant_ledger : Grants.GrantLedgerSnapshot;
  agent_execution : AgentGate.AgentExecutionSnapshot;
  terminal_evidence : list AgentTerminalEvidence;
  backend_execution_receipts : list BackendExecutionReceipt;
  managed_job_fail_closed : bool
}.

Section Agent.
Context `{ED : Ed25519} `{HashIter}.

Record RestoredAgentRuntimeSafety := mk_restored {
  restored_device_id : string;
  restored_hub : Trust.TrustedHubIdentity;
  restored_ledger : Grants.GrantLedger;
  restored_gate : AgentGate.AgentExecutionGate;
  restored_evidence : list AgentTerminalEvidence;
  restored_receipts : list BackendExecutionReceipt;
  restored_fail_closed : bool
}.

(** The conditions that [capture_with_runtime_evidence] and
    [restore_with_runtime_safety] share. *)
Definition invalid_runtime_evidence (device_id : string) (evidence : list AgentTerminalEvidence)
    (receipts : list BackendExecutionReceipt) : bool :=
  trim_is_empty device_id
  || (MAX_AGENT_TERMINAL_EVIDENCE_ENTRIES <? vlen evidence)%N
  || existsb (λ e, is_err (validate_terminal_evidence e)) evidence
  || is_err (validate_backend_execution_receipt_journal receipts)
  || existsb (λ r, negb (bool_decide (as_terminal_evidence r ∈ evidence))) receipts.

Definition capture_with_runtime_evidence (device_id : string) (hub : Trust.TrustedHubIdentity)
    (ledger : Grants.GrantLedger) (gate : AgentGate.AgentExecutionGate)
    (evidence : list AgentTerminalEvidence) (receipts : list BackendExecutionReceipt)
    (fail_closed : bool) : result PersistenceError AgentPersistentState :=
  return_if invalid_runtime_evidence device_id evidence receipts with Err InvalidState ;;
  Ok (mk_agent_state M1_STATE_SCHEMA_VERSION device_id
        (vk_to_bytes hub.(Trust.current)) hub.(Trust.epoch) (Grants.snapshot ledger)
        (AgentGate.snapshot_gate gate) evidence receipts fail_closed).

Definition capture_with_runtime_safety device_id hub ledger gate evidence fail_closed :=
  capture_with_runtime_evidence device_id hub ledger gate evidence [] fail_closed.

Definition capture_with_terminal_evidence device_id hub ledger gate evidence :=
  capture_with_runtime_safety device_id hub ledger gate evidence false.

Definition capture_agent device_id hub ledger gate :=
  capture_with_terminal_evidence device_id hub ledger gate [].

Definition restore_with_runtime_safety (s : AgentPersistentState)
    : result PersistenceError RestoredAgentRuntimeSafety :=
  let_ok _ := validate_state_schema s.(agent_schema_version) else e => Err e ;;
  return_if invalid_runtime_evidence s.(agent_device_id) s.(terminal_evidence)
              s.(backend_execution_receipts)
            || ((s.(agent_schema_version) <? BACKEND_RECEIPT_M1_STATE_SCHEMA_VERSION)%N
                && negb (bool_decide (s.(backend_execution_receipts) = [])))
    with Err InvalidState ;;
  let_some hub_key := vk_from_bytes s.(trusted_hub_public_key) else Err InvalidState ;;
  let trusted_hub := Trust.mk_trusted hub_key s.(trusted_hub_epoch) in
  let_ok ledger := Grants.from_persisted_snapshot s.(agent_grant_ledger)
    else e => Err (Control e) ;;
  let_ok gate := AgentGate.restore_gate s.(agent_execution) else e => Err (Execution e) ;;
  Ok (mk_restored s.(agent_device_id) trusted_hub ledger gate s.(terminal_evidence)
        s.(backend_execution_receipts) s.(managed_job_fail_closed)).
End Agent.

(** ** The Hub's state *)

Record HubPersistenceFenceSnapshot := mk_fence {
  fence_schema_version : N;
  fence_revision : N;
  fence_writer_epoch : N
}.

Definition validate_fence (f : HubPersistenceFenceSnapshot) : result PersistenceError unit :=
  if negb (f.(fence_schema_version) =? HUB_PERSISTENCE_FENCE_SCHEMA_VERSION)%N
     || (f.(fence_revision) =? 0)%N || (f.(fence_writer_epoch) =? 0)%N
  then Err InvalidState else Ok tt.

Record HubPersistentState := mk_hub_state {
  schema_version : N;
  registry : DeviceRegistry.DeviceRegistrySnapshot;
  execution : AuthoritativeSafetySnapshot;
  durable_fence : option HubPersistenceFenceSnapshot
}.

#[export] Instance HubPersistentState_eq_dec : EqDecision HubPersistentState.
Proof.
  assert (EqDecision HubPersistenceFenceSnapshot) by solve_decision.
  assert (EqDecision DeviceRegistry.EnrolledDeviceSnapshot) by solve_decision.
  assert (EqDecision DeviceRegistry.DeviceRegistrySnapshot) by solve_decision.
  assert (EqDecision HubOperation) by solve_decision.
  pose proof ReplayDenyTombstone.tombstone_eq_dec.
  assert (EqDecision HubAdmissionSnapshot) by solve_decision.
  assert (EqDecision AuthoritativeSafetySnapshot) by solve_decision.
  solve_decision.
Defined.

Section Hub.
Context `{ED : Ed25519} `{Base64Url} `{HashIter} `{RecoverySerializer}.

(** [None] is the panic of [snapshot_for_restart]. *)
Definition capture_hub (r : DeviceRegistry.DeviceRegistry)
    (c : Controller.AuthoritativeOperationController) : option HubPersistentState :=
  let_some s := snapshot_controller c else None ;;
  Some (mk_hub_state HUB_M1_STATE_SCHEMA_VERSION (DeviceRegistry.snapshot r) s None).

(** The generation that authorized a retirement was a later generation of the
    device, and one that the device had reached. *)
Definition retirement_consistent (devices : list DeviceRegistry.EnrolledDeviceSnapshot)
    (r : RetirementRecord) : bool :=
  let op := r.(RetirementRecord.operation) in
  let authorized := r.(RetirementRecord.authorized_device_generation) in
  match List.find (λ d, bool_decide (d.(DeviceRegistry.snap_device_id)
                                     = op.(OperationRef.device_id))) devices with
  | None => false
  | Some d => negb ((d.(DeviceRegistry.snap_generation) <? authorized)%N
                    || (authorized <=? op.(OperationRef.device_generation))%N)
  end.

Definition restore_hub (l : AdmissionLimits) (s : HubPersistentState)
    : result PersistenceError
        (DeviceRegistry.DeviceRegistry * Controller.AuthoritativeOperationController) :=
  let_ok _ := validate_hub_state_schema s.(schema_version) else e => Err e ;;
  let_ok _ := match s.(durable_fence) with Some f => validate_fence f | None => Ok tt end
    else e => Err e ;;
  let_ok registry := DeviceRegistry.from_persisted_snapshot s.(registry)
    else e => Err (Control e) ;;
  let registry := DeviceRegistry.mark_all_offline registry in
  let_ok execution := restore_controller l s.(execution) else e => Err (Execution e) ;;
  let devices := (DeviceRegistry.snapshot registry).(DeviceRegistry.snap_devices) in
  return_if negb (forallb (retirement_consistent devices)
                    execution.(Controller.retirements))
    with Err InvalidState ;;
  Ok (registry, execution).
End Hub.

(** ** The checkpoint directory *)

(** [{n:020}]: at least 20 decimal digits; a [u64] has at most 20. *)
Fixpoint digits (k : nat) (n : N) : list N :=
  match k with O => [] | S k => digits k (n / 10) ++ [48 + n mod 10]%N end.

Definition from_digits (l : list N) : N := foldl (λ n b, n * 10 + (b - 48))%N 0%N l.

Definition checkpoint_name (prefix : string) (sequence : N) : string :=
  prefix +:+ "-" +:+ of_bytes (digits 20 sequence) +:+ ".json".

Definition pending_name (prefix : string) (random : list N) : string :=
  "." +:+ prefix +:+ ".pending-" +:+ hex random +:+ ".tmp".

Definition strip_suffix (suffix s : string) : option string :=
  let n := String.length s - String.length suffix in
  if bool_decide (drop n (bytes s) = bytes suffix) then Some (of_bytes (take n (bytes s)))
  else None.

Definition parse_checkpoint_name (prefix name : string) : option N :=
  let_some rest := strip_prefix prefix name else None ;;
  let_some rest := strip_prefix "-" rest else None ;;
  let_some number := strip_suffix ".json" rest else None ;;
  return_if negb (slen number =? 20)%N || negb (all_bytes is_ascii_digit number) with None ;;
  let n := from_digits (bytes number) in
  if (n <=? u64_max)%N then Some n else None.

(** A regular file with its permission bits, or anything else (a link, a
    directory). *)
Inductive DirEntry := RegularFile (payload : list N) (mode : N) | OtherEntry.

#[export] Instance DirEntry_eq_dec : EqDecision DirEntry.
Proof. solve_decision. Defined.

(** The directory as processes see it, and as it would be found after a crash. *)
Record Disk := mk_disk {
  visible : gmap string DirEntry;
  durable : gmap string DirEntry
}.

(** How [ensure_directory] and [create_pending_checkpoint] may fail. *)
Inductive DirectoryFault := DirectoryIo | NotADirectory | DirectoryNotPrivate.
Inductive PendingFault := CreateFails | NamesTaken.

(** What the file system does with the requests of one call. [meanwhile] is what
    other processes do to the directory between its listing and the link. *)
Record CheckpointIo := mk_io {
  directory_fault : option DirectoryFault;
  listing_fails : bool;
  pending_random : list N;
  pending_fault : option PendingFault;
  write_fails : bool;
  meanwhile : gmap string DirEntry → gmap string DirEntry;
  link_fails : bool;
  sync_fails : bool;
  cleanup_fails : bool;
  resync_fails : bool;
  prune_sync_fails : bool;
  removal_fails : string → bool;
  read_fails : bool
}.

Definition no_faults : CheckpointIo :=
  mk_io None false [] None false (λ d, d) false false false false false (λ _, false) false.

(** [serde_json] on the persisted value. *)
Class CheckpointJson (T : Type) := {
  checkpoint_to_vec : T → option (list N);
  checkpoint_from_slice : list N → option T
}.

Class CheckpointJsonLaws (T : Type) `{CheckpointJson T} : Prop := {
  checkpoint_roundtrip : ∀ v b, checkpoint_to_vec v = Some b → checkpoint_from_slice b = Some v
}.

Record CheckpointStore := mk_store { prefix : string }.

Definition new_checkpoint_store (prefix : string) : result PersistenceError CheckpointStore :=
  if is_empty_string prefix
     || negb (all_bytes (λ b, is_ascii_alphanumeric b || (b =? 45)%N || (b =? 95)%N) prefix)
  then Err InvalidPrefix else Ok (mk_store prefix).

Section Checkpoints.
Context `{HashIter} {T : Type} `{CheckpointJson T}.
Variable store : CheckpointStore.

Definition sequences (d : gmap string DirEntry) : list N :=
  omap (parse_checkpoint_name store.(prefix)) (hash_iter d).*1.

Definition latest_sequence (d : gmap string DirEntry) : option N :=
  foldl (λ latest sequence,
           Some match latest with None => sequence | Some current => N.max current sequence end)
    None (sequences d).

Definition private_mode (mode : N) : bool := (N.land mode 63 =? 0)%N.

Definition read_secure_json (d : Disk) (io : CheckpointIo) (name : string)
    : result PersistenceError T :=
  match d.(visible) !! name with
  | None => Err Io
  | Some OtherEntry => Err UnsafePath
  | Some (RegularFile payload mode) =>
      return_if (MAX_CHECKPOINT_BYTES <? vlen payload)%N with Err CheckpointTooLarge ;;
      return_if negb (private_mode mode) with Err UnsafePermissions ;;
      return_if io.(read_fails) with Err Io ;;
      let_some value := checkpoint_from_slice payload else Err Serialization ;;
      Ok value
  end.

Definition ensure_directory (io : CheckpointIo) : result PersistenceError unit :=
  match io.(directory_fault) with
  | None => Ok tt
  | Some DirectoryIo => Err Io
  | Some NotADirectory => Err UnsafePath
  | Some DirectoryNotPrivate => Err UnsafePermissions
  end.

(** The errors of [create_pending_checkpoint] *)
Definition pending_error (io : CheckpointIo) : option PersistenceError :=
  match io.(pending_fault) with
  | None => None
  | Some CreateFails => Some Io
  | Some NamesTaken => Some SequenceContention
  end.

Definition load_latest_with_sequence (d : Disk) (io : CheckpointIo)
    : result PersistenceError (N * T) :=
  let_ok _ := ensure_directory io else e => Err e ;;
  return_if io.(listing_fails) with Err Io ;;
  let_some sequence := latest_sequence d.(visible) else Err NoCheckpoint ;;
  let_ok value := read_secure_json d io (checkpoint_name store.(prefix) sequence)
    else e => Err e ;;
  Ok (sequence, value).

(** [sync_directory] when it succeeds *)
Definition synced (d : Disk) : Disk := mk_disk d.(visible) d.(visible).

Definition on_visible (f : gmap string DirEntry → gmap string DirEntry) (d : Disk) : Disk :=
  mk_disk (f d.(visible)) d.(durable).

(** The checkpoints by sequence, as [prune_old_checkpoints] sorts them. *)
Definition sequence_le (a b : N * string) : Prop := (a.1 ≤ b.1)%N.
#[export] Instance sequence_le_dec : RelDecision sequence_le.
Proof. intros a b. unfold sequence_le. apply _. Defined.

Definition checkpoints (d : gmap string DirEntry) : list (N * string) :=
  merge_sort sequence_le
    (omap (λ name, (λ n, (n, name)) <$> parse_checkpoint_name store.(prefix) name)
       (hash_iter d).*1).

Fixpoint remove_files (d : Disk) (io : CheckpointIo) (names : list string)
    : Disk * result PersistenceError unit :=
  match names with
  | [] => (d, Ok tt)
  | name :: names =>
      match d.(visible) !! name with
      | Some (RegularFile _ _) =>
          return_if io.(removal_fails) name with (d, Err Io) ;;
          remove_files (on_visible (delete name) d) io names
      | Some OtherEntry => (d, Err UnsafePath)
      | None => (d, Err Io)
      end
  end.

Definition prune_old_checkpoints (d : Disk) (io : CheckpointIo) (retain : N)
    : Disk * result PersistenceError unit :=
  return_if (retain =? 0)%N with (d, Err InvalidRetention) ;;
  return_if io.(listing_fails) with (d, Err Io) ;;
  let all := checkpoints d.(visible) in
  let remove_count := (vlen all - retain)%N in
  let '(d, removed) := remove_files d io (take (N.to_nat remove_count) all).*2 in
  let_ok _ := removed else e => (d, Err e) ;;
  return_if (remove_count =? 0)%N with (d, Ok tt) ;;
  if io.(prune_sync_fails) then (d, Err Io) else (synced d, Ok tt).

(** [let _ = fs::remove_file(&pending_path)] *)
Definition discard_pending (io : CheckpointIo) (pending : string) (d : Disk) : Disk :=
  if io.(cleanup_fails) then d else on_visible (delete pending) d.

(** The end of a publication: the pending file goes, and if it went the
    directory is synced again. *)
Definition finish_pending (io : CheckpointIo) (pending : string) (d : Disk) : Disk :=
  let d' := discard_pending io pending d in
  if io.(cleanup_fails) || io.(resync_fails) then d' else synced d'.

Definition save_if_latest_sequence_with_size (d : Disk) (io : CheckpointIo)
    (expected_latest : option N) (value : T) : Disk * result PersistenceError (string * N) :=
  let_ok _ := ensure_directory io else e => (d, Err e) ;;
  return_if io.(listing_fails) with (d, Err Io) ;;
  return_if negb (bool_decide (latest_sequence d.(visible) = expected_latest))
    with (d, Err ConditionalConflict) ;;
  let_some sequence := checked_add (default 0%N expected_latest) 1
    else (d, Err SequenceContention) ;;
  let_some payload := checkpoint_to_vec value else (d, Err Serialization) ;;
  return_if (MAX_CHECKPOINT_BYTES <? vlen payload)%N with (d, Err CheckpointTooLarge) ;;
  match pending_error io with
  | Some e => (d, Err e)
  | None =>
      let pending := pending_name store.(prefix) io.(pending_random) in
      let d := on_visible (<[pending := RegularFile [] 384]>) d in
      return_if io.(write_fails) with (discard_pending io pending d, Err Io) ;;
      let d := on_visible (<[pending := RegularFile payload 384]>) d in
      let d := on_visible io.(meanwhile) d in
      let path := checkpoint_name store.(prefix) sequence in
      return_if bool_decide (is_Some (d.(visible) !! path))
        with (discard_pending io pending d, Err ConditionalConflict) ;;
      return_if io.(link_fails) with (discard_pending io pending d, Err Io) ;;
      let d := on_visible (<[path := RegularFile payload 384]>) d in
      return_if io.(sync_fails) with (discard_pending io pending d, Err PublicationUncertain) ;;
      let d := finish_pending io pending (synced d) in
      let '(d, _) := prune_old_checkpoints d io MAX_RETAINED_CHECKPOINTS in
      (d, Ok (path, vlen payload))
  end.

(** The link loop of [save_with_size_inner]: at most eight sequence numbers. *)
Fixpoint link_next (tries : nat) (d : Disk) (io : CheckpointIo) (pending : string)
    (payload : list N) (sequence : N) : Disk * result PersistenceError (string * N) :=
  match tries with
  | O => (discard_pending io pending d, Err SequenceContention)
  | S tries =>
      let path := checkpoint_name store.(prefix) sequence in
      return_if bool_decide (is_Some (d.(visible) !! path))
        with link_next tries d io pending payload (saturating_add sequence 1) ;;
      return_if io.(link_fails) with (discard_pending io pending d, Err Io) ;;
      let d := on_visible (<[path := RegularFile payload 384]>) d in
      return_if io.(sync_fails) with (d, Err Io) ;;
      let d := finish_pending io pending (synced d) in
      let '(d, pruned) := prune_old_checkpoints d io MAX_RETAINED_CHECKPOINTS in
      let_ok _ := pruned else e => (d, Err e) ;;
      (d, Ok (path, vlen payload))
  end.

Definition save_with_size (d : Disk) (io : CheckpointIo) (value : T)
    : Disk * result PersistenceError (string * N) :=
  let_ok _ := ensure_directory io else e => (d, Err e) ;;
  let_some payload := checkpoint_to_vec value else (d, Err Serialization) ;;
  return_if (MAX_CHECKPOINT_BYTES <? vlen payload)%N with (d, Err CheckpointTooLarge) ;;
  match pending_error io with
  | Some e => (d, Err e)
  | None =>
      let pending := pending_name store.(prefix) io.(pending_random) in
      let d := on_visible (<[pending := RegularFile [] 384]>) d in
      return_if io.(write_fails) with (discard_pending io pending d, Err Io) ;;
      let d := on_visible (<[pending := RegularFile payload 384]>) d in
      return_if io.(listing_fails) with (discard_pending io pending d, Err Io) ;;
      let next := match latest_sequence d.(visible) with
                  | None => 1%N
                  | Some s => saturating_add s 1
                  end in
      link_next 8 (on_visible io.(meanwhile) d) io pending payload next
  end.
End Checkpoints.

(** A crash: every name of the directory is found either as it was seen or as it
    had been made durable. *)
Definition crash (d d' : Disk) : Prop :=
  d'.(visible) = d'.(durable)
  ∧ ∀ name, d'.(visible) !! name = d.(visible) !! name
            ∨ d'.(visible) !! name = d.(durable) !! name.

End Persistence.
