(* ===== verification/PersistenceTheorems.v ===== *)
(** * Properties of checkpoints

    Checkpoint names are in bijection with sequence numbers; publishing a
    checkpoint is atomic under every fault and crash; what the Agent and the Hub
    captured is what a restart restores. *)

From S2P Require Import Prelude Vocabulary Protocol Crypto Tombstone Admission Registry Grants.
From S2P Require Import SafetyTypes Evidence Transport Controller ControllerSnapshot AgentGate.
From S2P Require Import Trust Persistence.
Import Persistence PersistenceError.

(** ** Names *)

Lemma length_digits k : ∀ n, length (digits k n) = k.
Proof. induction k as [|k IH]; intros n; cbn; [done|]. rewrite length_app, IH. cbn. lia. Qed.

Lemma digits_ok k : ∀ n, forallb is_ascii_digit (digits k n) = true.
Proof.
  induction k as [|k IH]; intros n; cbn [digits]; [done|].
  rewrite forallb_app, IH. cbn [forallb andb]. unfold is_ascii_digit, in_range.
  pose proof (N.mod_lt n 10 ltac:(done)). rewrite andb_true_r. apply andb_true_iff.
  rewrite !N.leb_le. revert H. generalize (n mod 10)%N. lia.
Qed.

Lemma digits_u8 k : ∀ n, Forall (λ b, b < 256)%N (digits k n).
Proof.
  induction k as [|k IH]; intros n; cbn [digits]; [done|].
  apply Forall_app. split; [done|]. constructor; [|done].
  pose proof (N.mod_lt n 10 ltac:(done)) as Hm. revert Hm. generalize (n mod 10)%N. lia.
Qed.

Lemma from_digits_snoc l b : from_digits (l ++ [b]) = (from_digits l * 10 + (b - 48))%N.
Proof. unfold from_digits. by rewrite foldl_app. Qed.

Lemma from_digits_digits k : ∀ n, from_digits (digits k n) = (n mod 10 ^ N.of_nat k)%N.
Proof.
  induction k as [|k IH]; intros n; cbn [digits].
  - by rewrite N.mod_1_r.
  - rewrite from_digits_snoc, IH, Nat2N.inj_succ, N.pow_succ_r'.
    rewrite N.Div0.mod_mul_r. generalize (n mod 10)%N, ((n / 10) mod 10 ^ N.of_nat k)%N. lia.
Qed.

Lemma digits_from_digits k : ∀ l,
  length l = k → forallb is_ascii_digit l = true → digits k (from_digits l) = l.
Proof.
  induction k as [|k IH]; intros l Hl Hd.
  - by destruct l.
  - destruct l as [|b l _] using rev_ind; [done|]. rewrite length_app in Hl. cbn in Hl.
    rewrite forallb_app in Hd. cbn in Hd. split_bools.
    unfold is_ascii_digit, in_range in *. split_bools.
    rewrite from_digits_snoc. cbn [digits].
    replace ((from_digits l * 10 + (b - 48)) / 10)%N with (from_digits l).
    2: { rewrite N.div_add_l by done. rewrite N.div_small; lia. }
    rewrite IH by (done || lia). f_equal. f_equal.
    assert ((from_digits l * 10 + (b - 48)) mod 10 = b - 48)%N as ->; [|lia].
    rewrite N.add_comm, N.Div0.mod_add. apply N.mod_small. lia.
Qed.

Lemma bytes_app s t : bytes (s +:+ t) = bytes s ++ bytes t.
Proof.
  unfold bytes. rewrite <- fmap_app. f_equal.
  induction s as [|a s IH]; [done|]. apply (f_equal (cons a) IH).
Qed.

Lemma strip_suffix_app s t : strip_suffix t (s +:+ t) = Some s.
Proof.
  unfold strip_suffix.
  assert (String.length (s +:+ t) - String.length t = length (bytes s)) as ->.
  { rewrite <- !length_bytes, bytes_app, length_app. lia. }
  rewrite bytes_app, drop_app_length, bool_decide_true by done.
  by rewrite take_app_length, of_bytes_bytes.
Qed.

Lemma bytes_of_bytes l : Forall (λ b, b < 256)%N l → bytes (of_bytes l) = l.
Proof.
  intros Hl. unfold bytes, of_bytes.
  rewrite String.list_ascii_of_string_of_list_ascii.
  induction Hl as [|b l Hb _ IH]; [done|]. rewrite !fmap_cons, IH.
  by rewrite N_ascii_embedding.
Qed.

Lemma strip_suffix_Some s t s' : strip_suffix t s = Some s' → s = s' +:+ t.
Proof.
  unfold strip_suffix. case_bool_decide as Hd; [|done]. intros [= <-].
  apply bytes_inj. rewrite bytes_app, <- Hd.
  set (n := String.length s - String.length t).
  assert (bytes (of_bytes (take n (bytes s))) = take n (bytes s)) as ->;
    [|by rewrite take_drop].
  apply bytes_of_bytes, Forall_take, bytes_u8.
Qed.

Lemma checkpoint_name_roundtrip prefix n :
  (n ≤ u64_max)%N → parse_checkpoint_name prefix (checkpoint_name prefix n) = Some n.
Proof.
  intros Hn. unfold parse_checkpoint_name, checkpoint_name.
  rewrite strip_prefix_app, strip_prefix_app, strip_suffix_app.
  assert (bytes (of_bytes (digits 20 n)) = digits 20 n) as Hb.
  { apply bytes_of_bytes, digits_u8. }
  unfold slen, all_bytes. rewrite <- length_bytes, Hb, length_digits, digits_ok. cbn [orb negb].
  rewrite from_digits_digits, N.mod_small by (unfold u64_max in Hn; lia).
  by rewrite (proj2 (N.leb_le _ _) Hn).
Qed.

Lemma parse_checkpoint_name_Some prefix name n :
  parse_checkpoint_name prefix name = Some n →
  name = checkpoint_name prefix n ∧ (n ≤ u64_max)%N.
Proof.
  unfold parse_checkpoint_name, checkpoint_name. intros Hp.
  destruct (strip_prefix prefix name) as [rest|] eqn:E1; [|done].
  destruct (strip_prefix "-" rest) as [rest'|] eqn:E2; [|done].
  destruct (strip_suffix ".json" rest') as [number|] eqn:E3; [|done].
  destruct (_ || _) eqn:E4; [done|]. destruct (_ <=? _)%N eqn:E5; [|done]. injection Hp as <-.
  apply strip_prefix_Some in E1 as ->. apply strip_prefix_Some in E2 as ->.
  apply strip_suffix_Some in E3 as ->. split_bools. unfold slen, all_bytes in *.
  split; [|done]. do 3 f_equal.
  rewrite digits_from_digits; [by rewrite of_bytes_bytes| |done]. rewrite length_bytes. lia.
Qed.

(** ** The directory *)

Section Directory.
Context `{HashIter} {T : Type} `{CJ : CheckpointJson T}.
Variable store : CheckpointStore.

Definition ckpt (d : gmap string DirEntry) (n : N) : option DirEntry :=
  d !! checkpoint_name store.(prefix) n.

Definition holds (d : gmap string DirEntry) (n : N) : Prop :=
  is_Some (ckpt d n) ∧ (n ≤ u64_max)%N.

Lemma elem_of_sequences d n : n ∈ sequences store d ↔ holds d n.
Proof.
  unfold sequences, holds, ckpt. rewrite list_elem_of_omap. split.
  - intros (name & Hin & Hp). apply parse_checkpoint_name_Some in Hp as [-> Hn]. split; [|done].
    apply list_elem_of_fmap in Hin as ([name' e] & Heq & Hin). cbn in Heq. subst name'.
    apply elem_of_hash_iter in Hin. eauto.
  - intros [[e He] Hn]. exists (checkpoint_name store.(prefix) n).
    split; [|by apply checkpoint_name_roundtrip].
    apply list_elem_of_fmap. eexists (_, e). split; [done|]. by apply elem_of_hash_iter.
Qed.

Definition max_opt (latest : option N) (n : N) : option N :=
  Some match latest with None => n | Some current => N.max current n end.

Lemma foldl_max_spec l : ∀ acc,
  match foldl max_opt acc l with
  | None => acc = None ∧ l = []
  | Some n => (acc = Some n ∨ n ∈ l) ∧ (∀ m, m ∈ l → (m ≤ n)%N)
              ∧ (∀ m, acc = Some m → (m ≤ n)%N)
  end.
Proof.
  induction l as [|a l IH]; intros acc; cbn [foldl].
  - destruct acc; [|done]. split; [by left|]. split; [by intros ? ?%elem_of_nil|].
    intros m [= ->]. done.
  - specialize (IH (max_opt acc a)). destruct (foldl max_opt (max_opt acc a) l) as [n|];
      [|by destruct IH as [? _]].
    destruct IH as (Hin & Hmax & Hacc).
    assert (a ≤ n ∧ ∀ m, acc = Some m → m ≤ n)%N as [Ha Hm].
    { unfold max_opt in Hacc. split.
      - specialize (Hacc _ eq_refl). destruct acc; lia.
      - intros m ->. specialize (Hacc _ eq_refl). lia. }
    split; [|split; [|done]].
    + destruct Hin as [Heq|Hin]; [|right; by right].
      unfold max_opt in Heq. destruct acc as [c|]; injection Heq as <-.
      * destruct (N.max_spec c a) as [[_ ->]|[_ ->]]; [right; by left|by left].
      * right. by left.
    + intros m [->|Hl]%elem_of_cons; eauto.
Qed.

Lemma latest_sequence_Some d n :
  latest_sequence store d = Some n ↔ holds d n ∧ ∀ m, holds d m → (m ≤ n)%N.
Proof.
  unfold latest_sequence. pose proof (foldl_max_spec (sequences store d) None) as Hf.
  fold max_opt. change (foldl _ None) with (foldl max_opt None).
  destruct (foldl max_opt None (sequences store d)) as [n'|].
  - destruct Hf as ([?|Hin] & Hmax & _); [done|]. rewrite elem_of_sequences in Hin.
    setoid_rewrite elem_of_sequences in Hmax. split.
    + intros [= <-]. done.
    + intros [Hn Hm]. f_equal. pose proof (Hm _ Hin). pose proof (Hmax _ Hn). lia.
  - destruct Hf as [_ Hnil]. split; [done|]. intros [Hn _].
    apply elem_of_sequences in Hn. rewrite Hnil in Hn. by apply elem_of_nil in Hn.
Qed.

Lemma latest_sequence_None d : latest_sequence store d = None ↔ ∀ m, ¬ holds d m.
Proof.
  unfold latest_sequence. pose proof (foldl_max_spec (sequences store d) None) as Hf.
  change (foldl _ None) with (foldl max_opt None).
  destruct (foldl max_opt None (sequences store d)) as [n'|].
  - destruct Hf as ([?|Hin] & _); [done|]. apply elem_of_sequences in Hin.
    split; [done|]. intros Hno. by destruct (Hno _ Hin).
  - destruct Hf as [_ Hnil]. split; [|done]. intros _ m Hm.
    apply elem_of_sequences in Hm. rewrite Hnil in Hm. by apply elem_of_nil in Hm.
Qed.

Lemma latest_sequence_ext d d' :
  (∀ n, holds d n ↔ holds d' n) → latest_sequence store d = latest_sequence store d'.
Proof.
  intros Hh. destruct (latest_sequence store d') as [n|] eqn:E.
  - apply latest_sequence_Some. apply latest_sequence_Some in E as [Hn Hm].
    split; [by apply Hh|]. intros m Hd. by apply Hm, Hh.
  - apply latest_sequence_None. rewrite latest_sequence_None in E. intros m Hm. by apply (E m), Hh.
Qed.

Lemma string_head a b (s t : string) : String a s = String b t → a = b.
Proof. by intros [= -> _]. Qed.

Hypothesis valid_store : new_checkpoint_store store.(prefix) = Ok store.

Lemma pending_not_checkpoint random n :
  pending_name store.(prefix) random ≠ checkpoint_name store.(prefix) n.
Proof.
  unfold pending_name, checkpoint_name. unfold new_checkpoint_store in valid_store.
  destruct (_ || _) eqn:E in valid_store; [done|]. split_bools.
  destruct store as [[|a p]]; cbn [prefix] in *; [done|].
  intros Heq. apply string_head in Heq as <-. done.
Qed.

Lemma ckpt_insert_pending d random e n :
  ckpt (<[pending_name store.(prefix) random := e]> d) n = ckpt d n.
Proof. unfold ckpt. by rewrite lookup_insert_ne by apply pending_not_checkpoint. Qed.

Lemma ckpt_delete_pending d random n :
  ckpt (delete (pending_name store.(prefix) random) d) n = ckpt d n.
Proof. unfold ckpt. by rewrite lookup_delete_ne by apply pending_not_checkpoint. Qed.

Lemma checkpoint_name_inj n m :
  (n ≤ u64_max)%N → (m ≤ u64_max)%N →
  checkpoint_name store.(prefix) n = checkpoint_name store.(prefix) m → n = m.
Proof.
  intros Hn Hm Heq. apply (f_equal (parse_checkpoint_name store.(prefix))) in Heq.
  rewrite !checkpoint_name_roundtrip in Heq by done. congruence.
Qed.

(** Two directories with the same checkpoints. *)
Definition same_checkpoints (d d' : gmap string DirEntry) : Prop :=
  ∀ n, (n ≤ u64_max)%N → ckpt d n = ckpt d' n.

#[local] Instance same_checkpoints_equiv : Equivalence same_checkpoints.
Proof.
  split; unfold same_checkpoints.
  - done.
  - intros d d' Hs n Hn. by rewrite Hs.
  - intros d1 d2 d3 H1 H2 n Hn. by rewrite H1, H2.
Qed.

Lemma same_checkpoints_latest d d' :
  same_checkpoints d d' → latest_sequence store d = latest_sequence store d'.
Proof.
  intros Hs. apply latest_sequence_ext. intros n. unfold holds. split; intros [He Hn];
    (split; [|done]); [rewrite <- Hs|rewrite Hs]; done.
Qed.

Definition load (d : Disk) : result PersistenceError (N * T) :=
  load_latest_with_sequence store d no_faults.

Lemma load_ext d d' :
  latest_sequence store d.(visible) = latest_sequence store d'.(visible) →
  (∀ n, latest_sequence store d.(visible) = Some n → ckpt d.(visible) n = ckpt d'.(visible) n) →
  load d = load d'.
Proof.
  intros Hl He. unfold load, load_latest_with_sequence. cbn. rewrite <- Hl.
  destruct (latest_sequence store d.(visible)) as [n|]; [|done].
  unfold read_secure_json. specialize (He n eq_refl). unfold ckpt in He. by rewrite He.
Qed.

Lemma load_same d d' : same_checkpoints d.(visible) d'.(visible) → load d = load d'.
Proof.
  intros Hs. apply load_ext; [by apply same_checkpoints_latest|].
  intros n [[_ Hn] _]%latest_sequence_Some. by apply Hs.
Qed.

(** The latest checkpoint that is seen is durable. *)
Definition top_synced (d : Disk) : Prop :=
  latest_sequence store d.(visible) = latest_sequence store d.(durable)
  ∧ ∀ n, latest_sequence store d.(visible) = Some n →
         ckpt d.(visible) n = ckpt d.(durable) n.

Lemma all_durable_top_synced d : d.(visible) = d.(durable) → top_synced d.
Proof. intros Hd. unfold top_synced. by rewrite Hd. Qed.

Lemma synced_top_synced d : top_synced (synced d).
Proof. by apply all_durable_top_synced. Qed.

(** Every checkpoint is found as it was seen or as it had been made durable. *)
Definition found_after (d d' : Disk) : Prop :=
  ∀ n, (n ≤ u64_max)%N → ckpt d'.(visible) n = ckpt d.(visible) n
                         ∨ ckpt d'.(visible) n = ckpt d.(durable) n.

Lemma crash_found d d' : crash d d' → found_after d d'.
Proof. intros [_ Hc] n _. apply Hc. Qed.

Lemma found_holds d d' n :
  found_after d d' → holds d'.(visible) n → holds d.(visible) n ∨ holds d.(durable) n.
Proof.
  intros Hc [He Hn]. unfold holds. destruct (Hc n Hn) as [Heq|Heq]; rewrite Heq in He; eauto.
Qed.

Lemma found_top_synced d d' : top_synced d → found_after d d' → load d' = load d.
Proof.
  intros [Hl He] Hc. symmetry.
  destruct (latest_sequence store d.(visible)) as [n|] eqn:E.
  - specialize (He n eq_refl). apply latest_sequence_Some in E as [Hn Hmax].
    assert (ckpt d'.(visible) n = ckpt d.(visible) n) as Hsame
      by (destruct (Hc n (proj2 Hn)); congruence).
    assert (latest_sequence store d'.(visible) = Some n) as Hl'.
    { apply latest_sequence_Some. split; [unfold holds in *; by rewrite Hsame|].
      intros m Hm. destruct (found_holds _ _ _ Hc Hm) as [|Hd]; [by apply Hmax|].
      symmetry in Hl. apply latest_sequence_Some in Hl as [_ Hl]. by apply Hl. }
    apply load_ext; rewrite (proj2 (latest_sequence_Some _ _) (conj Hn Hmax)); [done|].
    intros ? [= <-]. done.
  - symmetry in Hl. rewrite latest_sequence_None in Hl, E.
    apply load_ext; rewrite (proj2 (latest_sequence_None _) E); [|done].
    symmetry. apply latest_sequence_None. intros m Hm.
    destruct (found_holds _ _ _ Hc Hm); naive_solver.
Qed.

(** Checkpoint [n] is the latest one and has this payload. *)
Definition latest_is (d : gmap string DirEntry) (n : N) (payload : list N) : Prop :=
  latest_sequence store d = Some n ∧ ckpt d n = Some (RegularFile payload 384).

Lemma latest_is_load d n payload v :
  latest_is d.(visible) n payload → checkpoint_from_slice payload = Some v →
  (vlen payload ≤ MAX_CHECKPOINT_BYTES)%N → load d = Ok (n, v).
Proof.
  intros [Hl He] Hv Hlen. unfold load, load_latest_with_sequence. cbn [ensure_directory
    no_faults directory_fault listing_fails]. rewrite Hl.
  unfold read_secure_json. unfold ckpt in He. rewrite He, (proj2 (N.ltb_ge _ _) Hlen), Hv. done.
Qed.

Lemma latest_is_subseteq d d' n payload :
  latest_is d n payload → d' ⊆ d → ckpt d' n = ckpt d n → latest_is d' n payload.
Proof.
  intros [Hl He] Hs Hn. split; [|by rewrite Hn].
  apply latest_sequence_Some in Hl as [[_ Hu] Hmax]. apply latest_sequence_Some.
  split; [split; [rewrite Hn, He; eauto|done]|]. intros m [[e Hm] Hmu]. apply Hmax.
  split; [|done]. exists e. by eapply lookup_weaken.
Qed.

Lemma latest_is_same d d' n payload :
  same_checkpoints d d' → latest_is d n payload → latest_is d' n payload.
Proof.
  intros Hs [Hl He]. split; [by rewrite <- (same_checkpoints_latest _ _ Hs)|].
  apply latest_sequence_Some in Hl as [[_ Hu] _]. by rewrite <- Hs.
Qed.

Lemma elem_of_checkpoints d n name :
  (n, name) ∈ checkpoints store d ↔ holds d n ∧ name = checkpoint_name store.(prefix) n.
Proof.
  unfold checkpoints. rewrite merge_sort_Permutation, list_elem_of_omap. split.
  - intros (name' & Hin & Hp). destruct (parse_checkpoint_name _ name') as [m|] eqn:E; [|done].
    injection Hp as <- <-. apply parse_checkpoint_name_Some in E as [-> Hm]. split; [|done].
    split; [|done]. apply list_elem_of_fmap in Hin as ([? e] & Heq & Hin). cbn in Heq. subst.
    apply elem_of_hash_iter in Hin. by exists e.
  - intros [[[e He] Hn] ->]. exists (checkpoint_name store.(prefix) n).
    rewrite checkpoint_name_roundtrip by done. split; [|done].
    apply list_elem_of_fmap. eexists (_, e). split; [done|]. by apply elem_of_hash_iter.
Qed.

Lemma NoDup_checkpoints d : NoDup (checkpoints store d).
Proof.
  unfold checkpoints. rewrite merge_sort_Permutation.
  assert (NoDup (hash_iter d).*1) as Hnd.
  { rewrite hash_iter_perm. apply NoDup_fst_map_to_list. }
  revert Hnd. generalize ((hash_iter d).*1). intros l.
  induction 1 as [|name l Hni _ IH]; cbn; [constructor|].
  destruct (parse_checkpoint_name _ name) as [n|] eqn:E; cbn; [|done].
  constructor; [|done]. intros (name' & Hin & Hp)%list_elem_of_omap.
  destruct (parse_checkpoint_name _ name'); [|done]. injection Hp as _ <-. done.
Qed.

(** Pruning never takes the latest checkpoint. *)
Lemma latest_not_pruned d n k :
  latest_sequence store d = Some n → k < length (checkpoints store d) →
  checkpoint_name store.(prefix) n ∉ (take k (checkpoints store d)).*2.
Proof.
  intros [Hn Hmax]%latest_sequence_Some Hk Hin.
  apply list_elem_of_fmap in Hin as ([m name] & Heq & Hin). cbn in Heq. subst name.
  assert ((m, checkpoint_name store.(prefix) n) ∈ checkpoints store d) as Hall
    by (by apply (subseteq_take k (checkpoints store d))).
  apply elem_of_checkpoints in Hall as [Hm Heq].
  apply checkpoint_name_inj in Heq; [|apply Hn|apply Hm]. subst m.
  assert (StronglySorted sequence_le (checkpoints store d)) as Hsort.
  { apply Sorted_StronglySorted; [intros a b c; unfold sequence_le; lia|].
    apply Sorted_merge_sort. intros a b. unfold sequence_le. lia. }
  pose proof (NoDup_checkpoints d) as Hnd. rewrite <- (take_drop k (checkpoints store d)) in Hsort, Hnd.
  destruct (drop k (checkpoints store d)) as [|[m name] rest] eqn:Hd.
  { apply (f_equal length) in Hd. rewrite length_drop in Hd. cbn in Hd. lia. }
  assert ((m, name) ∈ checkpoints store d) as Hlast.
  { rewrite <- (take_drop k (checkpoints store d)), Hd. set_solver. }
  apply elem_of_checkpoints in Hlast as [Hm' ->].
  pose proof (Hmax _ Hm') as Hle.
  pose proof (StronglySorted_app_1_elem_of _ _ _ _ _ Hsort Hin ltac:(by left)) as Hge.
  unfold sequence_le in Hge. cbn in Hge. assert (m = n) as -> by lia.
  apply NoDup_app in Hnd as (_ & Hdis & _). apply (Hdis _ Hin). by left.
Qed.

Lemma remove_files_spec io names : ∀ d,
  let d' := (remove_files d io names).1 in
  d'.(visible) ⊆ d.(visible) ∧ d'.(durable) = d.(durable)
  ∧ ∀ name, name ∉ names → d'.(visible) !! name = d.(visible) !! name.
Proof.
  induction names as [|name names IH]; intros d; cbn; [done|].
  destruct (d.(visible) !! name) as [[?|]|] eqn:E; cbn; [|done|done].
  destruct (removal_fails io name); cbn; [done|].
  destruct (IH (on_visible (delete name) d)) as (Hs & Hd & Hl). cbn in *. split; [|split].
  - transitivity (delete name d.(visible)); [done|apply delete_subseteq].
  - done.
  - intros name' Hni. rewrite Hl by set_solver. by rewrite lookup_delete_ne by set_solver.
Qed.

Lemma prune_keeps_latest d io n payload :
  latest_is d.(visible) n payload → latest_is d.(durable) n payload →
  let d' := (prune_old_checkpoints store d io MAX_RETAINED_CHECKPOINTS).1 in
  latest_is d'.(visible) n payload ∧ latest_is d'.(durable) n payload.
Proof.
  intros Hv Hd. unfold prune_old_checkpoints.
  change (MAX_RETAINED_CHECKPOINTS =? 0)%N with false. cbn iota.
  destruct (listing_fails io); [done|].
  set (all := checkpoints store d.(visible)). set (k := N.to_nat (vlen all - _)).
  pose proof (remove_files_spec io (take k all).*2 d) as (Hs & Hdur & Hsame).
  destruct (remove_files d io (take k all).*2) as [d' r]. cbn [fst] in *.
  assert (latest_is d'.(visible) n payload) as Hv'.
  { apply (latest_is_subseteq d.(visible)); [done|done|]. apply Hsame.
    destruct Hv as [Hl He]. destruct (decide (k < length all)) as [Hk|Hk].
    - by apply latest_not_pruned.
    - assert (length all = 0) as Hz by (unfold k, vlen, MAX_RETAINED_CHECKPOINTS in Hk; lia).
      apply latest_sequence_Some in Hl as [Hn _].
      assert ((n, checkpoint_name store.(prefix) n) ∈ all) as Hin by (by apply elem_of_checkpoints).
      destruct all; [by apply elem_of_nil in Hin|done]. }
  rewrite <- Hdur in Hd. destruct r; [|by split]. destruct (_ =? 0)%N; [by split|].
  destruct (prune_sync_fails io); by split.
Qed.

Context `{CJL : !CheckpointJsonLaws T}.

(** A directory with one checkpoint more on top of [d]'s, which is not durable. *)
Record linked (d x : Disk) (n : N) (payload : list N) : Prop := {
  linked_old m : (m ≤ u64_max)%N → m ≠ n → ckpt x.(visible) m = ckpt d.(visible) m;
  linked_new : latest_is x.(visible) n payload;
  linked_durable : same_checkpoints x.(durable) d.(durable);
  linked_above m : latest_sequence store d.(visible) = Some m → (m < n)%N
}.

Lemma linked_on_top d x n payload :
  (n ≤ u64_max)%N → (∀ m, holds d.(visible) m → (m < n)%N) →
  same_checkpoints x.(visible) (<[checkpoint_name store.(prefix) n := RegularFile payload 384]>
                                  d.(visible)) →
  same_checkpoints x.(durable) d.(durable) → linked d x n payload.
Proof.
  intros Hn Hlt Hv Hd.
  assert (∀ m, (m ≤ u64_max)%N → m ≠ n → ckpt x.(visible) m = ckpt d.(visible) m) as Hold.
  { intros m Hm Hne. rewrite Hv by done. unfold ckpt. rewrite lookup_insert_ne; [done|].
    intros Heq. by apply Hne, eq_sym, checkpoint_name_inj. }
  assert (ckpt x.(visible) n = Some (RegularFile payload 384)) as Hnew.
  { rewrite Hv by done. unfold ckpt. apply lookup_insert_eq. }
  split; [done| |done|].
  - split; [|done]. apply latest_sequence_Some. split; [split; [rewrite Hnew; eauto|done]|].
    intros m [Hm Hmu]. destruct (decide (m = n)) as [->|Hne]; [done|].
    rewrite Hold in Hm by done. assert (holds d.(visible) m) as Hh by done. apply Hlt in Hh. lia.
  - intros m [Hm _]%latest_sequence_Some. by apply Hlt.
Qed.

(** Nothing durable is later than what is seen. *)
Definition durable_below (d : Disk) : Prop :=
  ∀ n, holds d.(durable) n → ∃ m, holds d.(visible) m ∧ (n ≤ m)%N.

Lemma top_synced_durable_below d : top_synced d → durable_below d.
Proof.
  intros [Hl _] n Hn. destruct (latest_sequence store d.(durable)) as [m|] eqn:E.
  - exists m. apply latest_sequence_Some in Hl as [Hh _]. split; [done|].
    apply latest_sequence_Some in E as [_ Hmax]. by apply Hmax.
  - rewrite latest_sequence_None in E. by destruct (E n).
Qed.

(** After a crash a directory with a linked checkpoint loads it, or is one that a
    crash before the link could have left. *)
Lemma linked_found d x n payload v d' :
  durable_below d → linked d x n payload → checkpoint_from_slice payload = Some v →
  (vlen payload ≤ MAX_CHECKPOINT_BYTES)%N → found_after x d' →
  load d' = Ok (n, v) ∨ found_after d d'.
Proof.
  intros Hbelow [Hold [Hl He] Hdur Habove] Hv Hlen Hc.
  assert (n ≤ u64_max)%N as Hn by (by apply latest_sequence_Some in Hl as [[_ ?] _]).
  destruct (Hc n Hn) as [Heq|Heq].
  - left. apply (latest_is_load _ _ payload); [|done..]. split; [|congruence].
    apply latest_sequence_Some in Hl as [Hh Hmax]. apply latest_sequence_Some. split.
    + split; [|done]. rewrite Heq, He. eauto.
    + intros m Hm. destruct (found_holds _ _ _ Hc Hm) as [?|[Hd Hmu]]; [by apply Hmax|].
      rewrite Hdur in Hd by done. destruct (Hbelow m (conj Hd Hmu)) as (t & Ht & Hle).
      destruct (decide (t = n)) as [->|Hne]; [done|].
      destruct Ht as [Ht Htu]. rewrite <- Hold in Ht by done.
      pose proof (Hmax t (conj Ht Htu)). lia.
  - right. intros m Hm. destruct (decide (m = n)) as [->|Hne].
    + right. by rewrite Heq, Hdur.
    + destruct (Hc m Hm) as [-> | ->]; [left; by apply Hold|right; by apply Hdur].
Qed.

Lemma discard_visible io random d :
  same_checkpoints (discard_pending io (pending_name store.(prefix) random) d).(visible)
    d.(visible).
Proof.
  intros n Hn. unfold discard_pending. destruct (cleanup_fails io); [done|].
  apply ckpt_delete_pending.
Qed.

Lemma discard_durable io pending d : (discard_pending io pending d).(durable) = d.(durable).
Proof. unfold discard_pending. by destruct (cleanup_fails io). Qed.

Lemma top_synced_same d d' :
  same_checkpoints d'.(visible) d.(visible) → same_checkpoints d'.(durable) d.(durable) →
  top_synced d → top_synced d'.
Proof.
  intros Hv Hd [Hl He]. unfold top_synced.
  rewrite (same_checkpoints_latest _ _ Hv), (same_checkpoints_latest _ _ Hd).
  split; [done|]. intros n Hn. pose proof Hn as [[_ Hu] _]%latest_sequence_Some.
  rewrite Hv, Hd by done. by apply He.
Qed.

(** No other process changes the directory during the call. *)
Definition plain_faults (io : CheckpointIo) : Prop := ∀ m, io.(meanwhile) m = m.

Definition next_of (expected : option N) : N := (default 0 expected + 1)%N.

Lemma linked_publish d d2 expected payload :
  latest_sequence store d.(visible) = expected → (next_of expected ≤ u64_max)%N →
  same_checkpoints d2.(visible) d.(visible) → d2.(durable) = d.(durable) →
  linked d (on_visible (<[checkpoint_name store.(prefix) (next_of expected)
                          := RegularFile payload 384]>) d2) (next_of expected) payload.
Proof.
  intros <- Hn Hv Hd. apply linked_on_top; [done| | |cbn; by rewrite Hd].
  - intros m Hm. destruct (latest_sequence store d.(visible)) as [t|] eqn:E.
    + apply latest_sequence_Some in E as [_ Hmax]. apply Hmax in Hm.
      change (next_of (Some t)) with (t + 1)%N. lia.
    + rewrite latest_sequence_None in E. by destruct (E m).
  - intros m Hm. cbn [on_visible visible]. unfold ckpt.
    destruct (decide (checkpoint_name store.(prefix) (next_of (latest_sequence store d.(visible)))
                      = checkpoint_name store.(prefix) m)) as [->|Hne].
    + by rewrite !lookup_insert_eq.
    + rewrite !lookup_insert_ne by done. by apply Hv.
Qed.

Lemma finish_latest io random d n payload :
  latest_is d.(visible) n payload → latest_is d.(durable) n payload →
  let d' := finish_pending io (pending_name store.(prefix) random) d in
  latest_is d'.(visible) n payload ∧ latest_is d'.(durable) n payload.
Proof.
  intros Hv Hd. unfold finish_pending.
  assert (latest_is (discard_pending io (pending_name store.(prefix) random) d).(visible) n payload)
    as Hv' by (eapply latest_is_same; [symmetry; apply discard_visible|done]).
  destruct (_ || _); [|by split]. split; [done|]. by rewrite discard_durable.
Qed.

(** What a publication does to the directory, by its result. *)
Lemma save_cases d io expected v d' r :
  plain_faults io → save_if_latest_sequence_with_size store d io expected v = (d', r) →
  match r with
  | Err PublicationUncertain =>
      ∃ payload, linked d d' (next_of expected) payload ∧ checkpoint_to_vec v = Some payload
      ∧ (vlen payload ≤ MAX_CHECKPOINT_BYTES)%N ∧ latest_sequence store d.(visible) = expected
  | Err _ => same_checkpoints d'.(visible) d.(visible)
             ∧ same_checkpoints d'.(durable) d.(durable)
  | Ok (path, size) =>
      ∃ payload, checkpoint_to_vec v = Some payload
      ∧ (vlen payload ≤ MAX_CHECKPOINT_BYTES)%N ∧ latest_sequence store d.(visible) = expected
      ∧ latest_is d'.(visible) (next_of expected) payload
      ∧ latest_is d'.(durable) (next_of expected) payload
      ∧ path = checkpoint_name store.(prefix) (next_of expected) ∧ size = vlen payload
  end.
Proof.
  intros Hmean Hs. unfold save_if_latest_sequence_with_size in Hs.
  destruct (ensure_directory io) as [?|e] eqn:He.
  2: { unfold ensure_directory in He. injection Hs as <- <-.
       destruct (directory_fault io) as [[]|]; by simplify_eq. }
  destruct (listing_fails io) eqn:Hlist; [by injection Hs as <- <-|].
  case_bool_decide as Hlatest; cbn [negb] in Hs; [|by injection Hs as <- <-].
  destruct (checked_add _ 1) as [n|] eqn:Hn; [|by injection Hs as <- <-].
  apply checked_add_Some in Hn as [-> Hn].
  destruct (checkpoint_to_vec v) as [payload|] eqn:Hvec; [|by injection Hs as <- <-].
  destruct (_ <? _)%N eqn:Hlen; [by injection Hs as <- <-|]. apply N.ltb_ge in Hlen.
  destruct (pending_error io) as [e|] eqn:Hpe;
    [injection Hs as <- <-; unfold pending_error in Hpe;
     destruct (pending_fault io) as [[]|]; by simplify_eq|].
  change (default 0 expected + 1)%N with (next_of expected) in *.
  set (pending := pending_name store.(prefix) io.(pending_random)) in *.
  set (d1 := on_visible (<[pending := RegularFile [] 384]>) d) in *.
  assert (same_checkpoints d1.(visible) d.(visible)) as H1
    by (intros m _; apply ckpt_insert_pending).
  destruct (write_fails io).
  { injection Hs as <- <-. split; [|by rewrite discard_durable].
    transitivity d1.(visible); [apply discard_visible|done]. }
  set (d2 := on_visible io.(meanwhile) _) in *.
  assert (same_checkpoints d2.(visible) d.(visible)) as H2.
  { unfold d2. cbn [on_visible visible]. rewrite Hmean. intros m Hm. cbn [on_visible visible].
    unfold pending. rewrite ckpt_insert_pending. by apply H1. }
  assert (d2.(durable) = d.(durable)) as Hd2 by done. clearbody d2.
  destruct (bool_decide _).
  { injection Hs as <- <-. rewrite discard_durable, Hd2. split; [|done].
    transitivity d2.(visible); [apply discard_visible|done]. }
  destruct (link_fails io).
  { injection Hs as <- <-. rewrite discard_durable, Hd2. split; [|done].
    transitivity d2.(visible); [apply discard_visible|done]. }
  pose proof (linked_publish d d2 expected payload Hlatest Hn H2 Hd2) as Hlink.
  set (d3 := on_visible (<[checkpoint_name _ _ := _]>) d2) in *.
  destruct (sync_fails io).
  { injection Hs as <- <-. exists payload. split; [|done].
    destruct Hlink as [Hold Hnew Hdur Habove]. split.
    - intros m Hm Hne. unfold pending. by rewrite discard_visible, Hold by done.
    - eapply latest_is_same; [symmetry; apply discard_visible|done].
    - by rewrite discard_durable.
    - done. }
  destruct (finish_latest io io.(pending_random) (synced d3) (next_of expected) payload)
    as [Hf1 Hf2]; [apply Hlink|apply Hlink|].
  pose proof (prune_keeps_latest _ io _ _ Hf1 Hf2) as [Hp1 Hp2].
  fold pending in Hp1, Hp2.
  destruct (prune_old_checkpoints store _ io MAX_RETAINED_CHECKPOINTS) as [d4 r'].
  injection Hs as <- <-. by exists payload.
Qed.

(** C31: Publishing a checkpoint is atomic. Under every fault of the file system and
    every crash (a crash in the middle of the call leaves what some fault at that
    point leaves), the latest checkpoint is the old one or the complete new one;
    a success is durable, an uncertain publication is seen, and after any other
    error the old checkpoint is still the latest one, also after a crash. *)
Theorem checkpoint_publication_is_atomic d io expected v d' r :
  plain_faults io → top_synced d →
  save_if_latest_sequence_with_size store d io expected v = (d', r) →
  (∀ d'', crash d' d'' → load d'' = load d ∨ load d'' = Ok (next_of expected, v))
  ∧ match r with
    | Ok _ => latest_sequence store d.(visible) = expected
              ∧ load d' = Ok (next_of expected, v) ∧ top_synced d'
              ∧ ∀ d'', crash d' d'' → load d'' = Ok (next_of expected, v)
    | Err PublicationUncertain => load d' = Ok (next_of expected, v)
    | Err _ => load d' = load d ∧ top_synced d' ∧ ∀ d'', crash d' d'' → load d'' = load d
    end.
Proof.
  intros Hio Htop Hs. pose proof (save_cases _ _ _ _ _ _ Hio Hs) as Hc.
  assert (∀ payload, checkpoint_to_vec v = Some payload → checkpoint_from_slice payload = Some v)
    as Hv by (intros payload; apply checkpoint_roundtrip).
  destruct r as [[path size]|e].
  - destruct Hc as (payload & Hvec & Hlen & Hlatest & Hvis & Hdur & _).
    assert (top_synced d') as Htop'.
    { destruct Hvis as [Hl He], Hdur as [Hl' He']. split; [congruence|]. intros. congruence. }
    assert (load d' = Ok (next_of expected, v)) as Hload by eauto using latest_is_load.
    assert (∀ d'', crash d' d'' → load d'' = Ok (next_of expected, v)) as Hcrash.
    { intros d'' Hcr. rewrite <- Hload. by apply found_top_synced, crash_found. }
    split; [by right; apply Hcrash|]. done.
  - assert (e = PublicationUncertain ∨ same_checkpoints d'.(visible) d.(visible)
            ∧ same_checkpoints d'.(durable) d.(durable)) as [->|[Hsv Hsd]]
      by (destruct e; eauto).
    + destruct Hc as (payload & Hlink & Hvec & Hlen & _). split.
      * intros d'' Hcr%crash_found.
        destruct (linked_found d d' (next_of expected) payload v d'') as [Hn|Hf];
          [by apply top_synced_durable_below|by eauto..|by right|left].
        by apply found_top_synced.
      * eapply latest_is_load; [apply Hlink|eauto..].
    + pose proof (top_synced_same _ _ Hsv Hsd Htop) as Htop'.
      pose proof (load_same _ _ Hsv) as Hload.
      assert (∀ d'', crash d' d'' → load d'' = load d) as Hcrash.
      { intros d'' Hcr. rewrite <- Hload. by apply found_top_synced, crash_found. }
      split; [by left; apply Hcrash|]. destruct e; try done.
      destruct Hc as (payload & Hlink & Hvec & Hlen & _).
      eapply latest_is_load; [apply Hlink|eauto..].
Qed.

(** A rival that publishes the next checkpoint between the listing and the link
    makes the publication fail. *)
Lemma rival_publication_conflicts d io expected v d' r :
  (∀ m, is_Some (ckpt (io.(meanwhile) m) (next_of expected))) →
  save_if_latest_sequence_with_size store d io expected v = (d', r) → is_ok r = false.
Proof.
  intros Hrival Hs. unfold save_if_latest_sequence_with_size in Hs.
  destruct (ensure_directory io); [|by simplify_eq].
  destruct (listing_fails io); [by simplify_eq|].
  destruct (negb _); [by simplify_eq|].
  destruct (checked_add _ 1) as [n|] eqn:Hn; [|by simplify_eq].
  apply checked_add_Some in Hn as [-> _].
  destruct (checkpoint_to_vec v); [|by simplify_eq]. destruct (_ <? _)%N; [by simplify_eq|].
  destruct (pending_error io); [by simplify_eq|]. destruct (write_fails io); [by simplify_eq|].
  rewrite bool_decide_true in Hs by apply Hrival. by simplify_eq.
Qed.
End Directory.

Module PersistenceExamples.
Existing Instance canonical_hash_iter.

#[export] Instance bytes_json : CheckpointJson (list N) :=
  {| checkpoint_to_vec := Some; checkpoint_from_slice := Some |}.
#[export] Instance bytes_json_laws : CheckpointJsonLaws (list N).
Proof. split. by intros v b [= ->]. Qed.

Definition hub_store : CheckpointStore := mk_store "hub".
Definition stored (n : N) : string * DirEntry :=
  (checkpoint_name "hub" n, RegularFile [n] 384).
Definition disk_of (l : list N) : Disk :=
  let d := list_to_map (stored <$> l) in mk_disk d d.

(** The sync after the link fails, and the crash that follows keeps the old
    checkpoint only. *)
Definition sync_failure : CheckpointIo :=
  mk_io None false [7]%N None false (λ d, d) false true false false false (λ _, false) false.
Definition uncertain :=
  save_if_latest_sequence_with_size hub_store (disk_of [1; 2]%N) sync_failure (Some 2%N) [9]%N.

Lemma checkpoint_publication_is_atomic_witness :
  load hub_store uncertain.1 = Ok (3%N, [9]%N) ∧
  uncertain.2 = Err PublicationUncertain ∧
  load hub_store (disk_of [1; 2]%N) = Ok (2%N, [2]%N).
Proof.
  destruct (checkpoint_publication_is_atomic hub_store eq_refl (disk_of [1; 2]%N) sync_failure
    (Some 2%N) [9]%N uncertain.1 (Err PublicationUncertain)) as [_ Hload].
  - done.
  - apply (synced_top_synced hub_store (disk_of [1; 2]%N)).
  - vm_compute. reflexivity.
  - split; [exact Hload|]. split; vm_compute; reflexivity.
Defined.

(** With 64 checkpoints in the directory and the removal of the oldest one
    refused, the unconditional save reports an I/O error although the new
    checkpoint has been published and synced. *)
Definition full_disk : Disk := disk_of (N.of_nat <$> seq 1 64).
Definition removal_failure : CheckpointIo :=
  mk_io None false [7]%N None false (λ d, d) false false false false false (λ _, true) false.

Definition refused_removal := save_with_size hub_store full_disk removal_failure [9]%N.

Lemma error_after_commit :
  refused_removal.2 = Err Io
  ∧ load hub_store refused_removal.1 = Ok (65%N, [9]%N) ∧ top_synced hub_store refused_removal.1.
Proof.
  split; [vm_compute; reflexivity|]. split; [vm_compute; reflexivity|].
  apply all_durable_top_synced, (bool_decide_unpack _). vm_compute. exact I.
Qed.
End PersistenceExamples.
