(* ===== verification/StateStore.v ===== *)
(** * The authoritative state store of the Hub

    [src/src/v2_hub_state_store.rs]: the durable record with its revision and
    writer epoch, the interface of a store, the store over the checkpoint
    directory and the store in memory. What happens outside a call is an argument
    of it: the faults of each access to the directory, a poisoned lock. *)

From S2P Require Import Prelude Vocabulary Protocol Crypto Tombstone Admission Registry Grants.
From S2P Require Import SafetyTypes Evidence Controller ControllerSnapshot Persistence.
Import Persistence.

Definition HUB_DURABLE_RECORD_SCHEMA_VERSION : N := 1.

Module HubStateStoreError.
Inductive HubStateStoreError :=
| Persistence (e : PersistenceError)
| Unavailable | RevisionConflict | StaleWriter | RevisionOverflow | EpochOverflow
| InvalidState | InvalidConfiguration | ProviderSchemaMismatch | ReadAfterCommitMismatch.
#[global] Instance HubStateStoreError_eq_dec : EqDecision HubStateStoreError.
Proof. solve_decision. Defined.
End HubStateStoreError.
Abbreviation HubStateStoreError := HubStateStoreError.HubStateStoreError.

Module StateStore.
Import HubStateStoreError.

Definition fences_current_writer (e : HubStateStoreError) : bool :=
  match e with
  | RevisionConflict | StaleWriter | RevisionOverflow | InvalidState | ProviderSchemaMismatch
  | ReadAfterCommitMismatch => true
  | _ => false
  end.

(** ** Durable records *)

Record HubWriterLease := mk_lease { lease_epoch : N; lease_revision : N }.

#[export] Instance HubWriterLease_eq_dec : EqDecision HubWriterLease.
Proof. solve_decision. Defined.

Record DurableHubState := mk_durable {
  store_schema_version : N;
  revision : N;
  writer_epoch : N;
  state : HubPersistentState
}.

#[export] Instance DurableHubState_eq_dec : EqDecision DurableHubState.
Proof. solve_decision. Defined.

Definition validate_committed (r : DurableHubState) : result HubStateStoreError unit :=
  return_if negb (r.(store_schema_version) =? HUB_DURABLE_RECORD_SCHEMA_VERSION)%N
            || (r.(revision) =? 0)%N || (r.(writer_epoch) =? 0)%N with Err InvalidState ;;
  let_some fence := r.(state).(durable_fence) else Err InvalidState ;;
  let_ok _ := validate_fence fence else e => Err (Persistence e) ;;
  if negb (r.(state).(schema_version) =? HUB_M1_STATE_SCHEMA_VERSION)%N
     || negb (fence.(fence_schema_version) =? HUB_PERSISTENCE_FENCE_SCHEMA_VERSION)%N
     || negb (fence.(fence_revision) =? r.(revision))%N
     || negb (fence.(fence_writer_epoch) =? r.(writer_epoch))%N
  then Err InvalidState else Ok tt.

Definition fenced_state (revision epoch : N) (s : HubPersistentState) : HubPersistentState :=
  mk_hub_state HUB_M1_STATE_SCHEMA_VERSION s.(registry) s.(execution)
    (Some (mk_fence HUB_PERSISTENCE_FENCE_SCHEMA_VERSION revision epoch)).

Definition committed (revision epoch : N) (s : HubPersistentState)
    : result HubStateStoreError DurableHubState :=
  return_if (revision =? 0)%N || (epoch =? 0)%N with Err InvalidState ;;
  let record := mk_durable HUB_DURABLE_RECORD_SCHEMA_VERSION revision epoch
                  (fenced_state revision epoch s) in
  let_ok _ := validate_committed record else e => Err e ;;
  Ok record.

Definition legacy (s : HubPersistentState) : DurableHubState :=
  mk_durable HUB_DURABLE_RECORD_SCHEMA_VERSION 0 0 s.

Definition is_legacy_unfenced (r : DurableHubState) : bool :=
  (r.(revision) =? 0)%N && (r.(writer_epoch) =? 0)%N.

Definition lease (r : DurableHubState) : HubWriterLease :=
  mk_lease r.(writer_epoch) r.(revision).

(** ** The interface

    [HubAuthoritativeStateStore]: a store [S] whose calls meet [Io]. *)
Class HubAuthoritativeStateStore (S Io : Type) := {
  load_current : S → Io → result HubStateStoreError (option DurableHubState);
  acquire_writer : S → Io → HubPersistentState → S * result HubStateStoreError DurableHubState;
  compare_and_commit :
    S → Io → HubWriterLease → HubPersistentState → S * result HubStateStoreError DurableHubState
}.

(** ** The checkpoint directory *)

(** What the calls of one operation on the directory meet. *)
Record LocalIo := mk_local_io {
  gate_poisoned : bool;
  load_io : CheckpointIo;
  save_io : CheckpointIo;
  verify_io : CheckpointIo;
  classify_io : CheckpointIo
}.

Section Local.
Context `{HashIter} `{CheckpointJson HubPersistentState}.

(** [LocalCheckpointHubStateStore::new] *)
Definition hub_checkpoints : CheckpointStore := mk_store "hub".

Definition load_compat_with_sequence_unlocked (d : Disk) (io : CheckpointIo)
    : result HubStateStoreError (option (N * DurableHubState)) :=
  match load_latest_with_sequence hub_checkpoints d io with
  | Err PersistenceError.NoCheckpoint => Ok None
  | Err e => Err (Persistence e)
  | Ok (sequence, s) =>
      match s.(durable_fence) with
      | None =>
          if (s.(schema_version) =? HUB_M1_STATE_SCHEMA_VERSION)%N then Err InvalidState
          else Ok (Some (sequence, legacy s))
      | Some fence =>
          let_ok _ := validate_fence fence else e => Err (Persistence e) ;;
          let record := mk_durable HUB_DURABLE_RECORD_SCHEMA_VERSION fence.(fence_revision)
                          fence.(fence_writer_epoch) s in
          let_ok _ := validate_committed record else e => Err e ;;
          Ok (Some (sequence, record))
      end
  end.

Definition load_compat_unlocked (d : Disk) (io : CheckpointIo)
    : result HubStateStoreError (option DurableHubState) :=
  let_ok found := load_compat_with_sequence_unlocked d io else e => Err e ;;
  Ok (snd <$> found).

Definition save_and_verify_unlocked (d : Disk) (io : LocalIo) (expected_sequence : option N)
    (record : DurableHubState) : Disk * result HubStateStoreError DurableHubState :=
  let_ok _ := validate_committed record else e => (d, Err e) ;;
  let '(d, saved) := save_if_latest_sequence_with_size hub_checkpoints d io.(save_io)
                       expected_sequence record.(state) in
  let_ok _ := saved else e =>
    (d, Err match e with
            | PersistenceError.PublicationUncertain => ReadAfterCommitMismatch
            | other => Persistence other
            end) ;;
  let_ok found := load_compat_with_sequence_unlocked d io.(verify_io) else e => (d, Err e) ;;
  let_some found := found else (d, Err ReadAfterCommitMismatch) ;;
  let '(verified_sequence, verified) := found in
  return_if negb (verified_sequence =? saturating_add (default 0%N expected_sequence) 1)%N
            || negb (bool_decide (verified = record))
    with (d, Err ReadAfterCommitMismatch) ;;
  (d, Ok verified).

Definition classify_conditional_conflict (d : Disk) (io : CheckpointIo) (l : HubWriterLease)
    : result HubStateStoreError HubStateStoreError :=
  let_ok found := load_compat_unlocked d io else e => Err e ;;
  let_some current := found else Err RevisionConflict ;;
  Ok (if negb (current.(writer_epoch) =? l.(lease_epoch))%N then StaleWriter
      else RevisionConflict).

Definition local_load_current (d : Disk) (io : LocalIo)
    : result HubStateStoreError (option DurableHubState) :=
  return_if io.(gate_poisoned) with Err InvalidState ;;
  load_compat_unlocked d io.(load_io).

Definition local_acquire_writer (d : Disk) (io : LocalIo) (initial : HubPersistentState)
    : Disk * result HubStateStoreError DurableHubState :=
  return_if io.(gate_poisoned) with (d, Err InvalidState) ;;
  let_ok current := load_compat_with_sequence_unlocked d io.(load_io) else e => (d, Err e) ;;
  let_ok next :=
    match current with
    | Some (sequence, current) =>
        let_some revision := checked_add current.(revision) 1 else Err RevisionOverflow ;;
        let_some epoch := checked_add current.(writer_epoch) 1 else Err EpochOverflow ;;
        Ok (Some sequence, revision, epoch, current.(state))
    | None => Ok (None, 1%N, 1%N, initial)
    end else e => (d, Err e) ;;
  let '(expected_sequence, revision, epoch, s) := next in
  let_ok record := committed revision epoch s else e => (d, Err e) ;;
  let '(d, saved) := save_and_verify_unlocked d io expected_sequence record in
  (d, match saved with
      | Err (Persistence PersistenceError.ConditionalConflict) => Err RevisionConflict
      | result => result
      end).

Definition local_compare_and_commit (d : Disk) (io : LocalIo) (l : HubWriterLease)
    (s : HubPersistentState) : Disk * result HubStateStoreError DurableHubState :=
  return_if io.(gate_poisoned) with (d, Err InvalidState) ;;
  let_ok found := load_compat_with_sequence_unlocked d io.(load_io) else e => (d, Err e) ;;
  let_some found := found else (d, Err RevisionConflict) ;;
  let '(sequence, current) := found in
  return_if negb (current.(writer_epoch) =? l.(lease_epoch))%N with (d, Err StaleWriter) ;;
  return_if negb (current.(revision) =? l.(lease_revision))%N with (d, Err RevisionConflict) ;;
  let_some revision := checked_add current.(revision) 1 else (d, Err RevisionOverflow) ;;
  let_ok record := committed revision l.(lease_epoch) s else e => (d, Err e) ;;
  let '(d, saved) := save_and_verify_unlocked d io (Some sequence) record in
  match saved with
  | Err (Persistence PersistenceError.ConditionalConflict) =>
      let_ok e := classify_conditional_conflict d io.(classify_io) l else e => (d, Err e) ;;
      (d, Err e)
  | result => (d, result)
  end.

#[export] Instance LocalCheckpointHubStateStore : HubAuthoritativeStateStore Disk LocalIo := {
  load_current := local_load_current;
  acquire_writer := local_acquire_writer;
  compare_and_commit := local_compare_and_commit
}.
End Local.

(** ** The store in memory *)

Record MemoryHubStateStore := mk_memory {
  current : option DurableHubState;
  fail_next_commit : bool
}.

Definition seeded (s : HubPersistentState) : result HubStateStoreError MemoryHubStateStore :=
  let_ok record := committed 1 1 s else e => Err e ;;
  Ok (mk_memory (Some record) false).

(** The argument of each call: is the lock poisoned? *)
Definition memory_load_current (m : MemoryHubStateStore) (poisoned : bool)
    : result HubStateStoreError (option DurableHubState) :=
  return_if poisoned with Err InvalidState ;;
  Ok m.(current).

Definition memory_acquire_writer (m : MemoryHubStateStore) (poisoned : bool)
    (initial : HubPersistentState) : MemoryHubStateStore * result HubStateStoreError DurableHubState :=
  return_if poisoned with (m, Err InvalidState) ;;
  let_ok next :=
    match m.(current) with
    | Some current =>
        let_some revision := checked_add current.(revision) 1 else Err RevisionOverflow ;;
        let_some epoch := checked_add current.(writer_epoch) 1 else Err EpochOverflow ;;
        Ok (revision, epoch, current.(state))
    | None => Ok (1%N, 1%N, initial)
    end else e => (m, Err e) ;;
  let '(revision, epoch, s) := next in
  let_ok record := committed revision epoch s else e => (m, Err e) ;;
  (mk_memory (Some record) m.(fail_next_commit), Ok record).

Definition memory_compare_and_commit (m : MemoryHubStateStore) (poisoned : bool)
    (l : HubWriterLease) (s : HubPersistentState)
    : MemoryHubStateStore * result HubStateStoreError DurableHubState :=
  return_if poisoned with (m, Err InvalidState) ;;
  let_some cur := m.(current) else (m, Err RevisionConflict) ;;
  return_if negb (cur.(writer_epoch) =? l.(lease_epoch))%N with (m, Err StaleWriter) ;;
  return_if negb (cur.(revision) =? l.(lease_revision))%N with (m, Err RevisionConflict) ;;
  return_if m.(fail_next_commit) with (mk_memory m.(current) false, Err Unavailable) ;;
  let_some revision := checked_add cur.(revision) 1 else (m, Err RevisionOverflow) ;;
  let_ok record := committed revision l.(lease_epoch) s else e => (m, Err e) ;;
  (mk_memory (Some record) false, Ok record).

#[export] Instance MemoryStore : HubAuthoritativeStateStore MemoryHubStateStore bool := {
  load_current := memory_load_current;
  acquire_writer := memory_acquire_writer;
  compare_and_commit := memory_compare_and_commit
}.

End StateStore.
