(* ===== verification/StateStoreTheorems.v ===== *)
(** * Guarantees of the state store

    The contract that the documentation of [HubAuthoritativeStateStore] gives to
    the Hub, as a class of laws: what is authoritative, what a crash may leave, and
    what each call does to it. Both stores satisfy it; the guarantees over all
    histories of writers, faults and crashes are proved from the laws. *)

From S2P Require Import Prelude Vocabulary Protocol Crypto Tombstone Admission Registry Grants.
From S2P Require Import SafetyTypes Evidence Controller ControllerSnapshot Persistence.
From S2P Require Import PersistenceTheorems StateStore.
Import Persistence StateStore HubStateStoreError.

(** The record a commit of [s] on top of [cur] publishes, and the one a writer
    publishes when it takes over. *)
Definition next_record (cur : DurableHubState) (s : HubPersistentState) : DurableHubState :=
  mk_durable HUB_DURABLE_RECORD_SCHEMA_VERSION (cur.(revision) + 1) cur.(writer_epoch)
    (fenced_state (cur.(revision) + 1) cur.(writer_epoch) s).

Definition takeover_record (cur : option DurableHubState) (initial : HubPersistentState)
    : DurableHubState :=
  let '(revision, epoch, s) := match cur with
                               | Some cur => (cur.(revision) + 1, cur.(writer_epoch) + 1, cur.(state))
                               | None => (1, 1, initial)
                               end%N in
  mk_durable HUB_DURABLE_RECORD_SCHEMA_VERSION revision epoch (fenced_state revision epoch s).

(** What a commit of [v] under the lease [l], and a takeover, may publish on top of
    what is authoritative. *)
Definition commits (l : HubWriterLease) (v : HubPersistentState) (cur : option DurableHubState)
    (rec : DurableHubState) : Prop :=
  ∃ c, cur = Some c ∧ lease c = l ∧ rec = next_record c v.

Definition takes_over (v : HubPersistentState) (cur : option DurableHubState)
    (rec : DurableHubState) : Prop :=
  rec = takeover_record cur v.

(** ** The contract *)

Section Effect.
Context {S : Type} (authoritative : S → result HubStateStoreError (option DurableHubState))
  (crash : S → S → Prop).

(** [rec] is authoritative and stays so in a crash. *)
Definition settled (s : S) (rec : DurableHubState) : Prop :=
  authoritative s = Ok (Some rec) ∧ ∀ s', crash s s' → authoritative s' = Ok (Some rec).

(** A crash leaves what one before the call could have left. *)
Definition as_before (s s' : S) : Prop :=
  ∃ s0, crash s s0 ∧ authoritative s' = authoritative s0.

(** A successful call has published its record durably on top of what was
    authoritative. A failed one has changed nothing, or it has published the record,
    perhaps not durably, and then it says so with [ReadAfterCommitMismatch] or with
    the failure of the verifying read. *)
Definition store_effect (new : option DurableHubState → DurableHubState → Prop) (s s' : S)
    (r : result HubStateStoreError DurableHubState) : Prop :=
  match r with
  | Ok rec => (∃ cur, authoritative s = Ok cur ∧ new cur rec) ∧ settled s' rec
  | Err e =>
      (authoritative s' = authoritative s ∧ ∀ s'', crash s' s'' → as_before s s'')
      ∨ ((e = ReadAfterCommitMismatch ∨ ∃ p, e = Persistence p)
         ∧ ∃ cur rec, authoritative s = Ok cur ∧ new cur rec ∧ authoritative s' = Ok (Some rec)
           ∧ ∀ s'', crash s' s'' → authoritative s'' = Ok (Some rec) ∨ as_before s s'')
  end.
End Effect.

Class StoreLaws (S Io : Type) `{HubAuthoritativeStateStore S Io} := {
  (** what a load without faults returns *)
  authoritative : S → result HubStateStoreError (option DurableHubState);
  (** what a crash of the provider may leave *)
  store_crash : S → S → Prop;
  store_ok : S → Prop;
  store_io : Io → Prop;
  crash_ok s s' : store_ok s → store_crash s s' → store_ok s';
  crash_settles s s' s'' :
    store_crash s s' → store_crash s' s'' → authoritative s'' = authoritative s';
  load_law s io o : load_current s io = Ok o → authoritative s = Ok o;
  commit_law s io l v s' r :
    store_ok s → store_io io → compare_and_commit s io l v = (s', r) →
    store_ok s' ∧ store_effect authoritative store_crash (commits l v) s s' r;
  acquire_law s io v s' r :
    store_ok s → store_io io → acquire_writer s io v = (s', r) →
    store_ok s' ∧ store_effect authoritative store_crash (takes_over v) s s' r
}.

(** ** Records *)

Lemma committed_Ok revision epoch s rec :
  committed revision epoch s = Ok rec →
  rec = mk_durable HUB_DURABLE_RECORD_SCHEMA_VERSION revision epoch (fenced_state revision epoch s)
  ∧ validate_committed rec = Ok tt.
Proof.
  unfold committed. destruct (_ || _); [done|].
  destruct (validate_committed _) as [[]|] eqn:E; [|done]. by intros [= <-].
Qed.

Lemma committed_total revision epoch s :
  revision ≠ 0%N → epoch ≠ 0%N → is_ok (committed revision epoch s) = true.
Proof.
  intros Hr He. unfold committed, validate_committed, validate_fence.
  cbn [store_schema_version StateStore.revision writer_epoch state fenced_state durable_fence
    schema_version fence_schema_version fence_revision fence_writer_epoch].
  apply N.eqb_neq in Hr, He. by rewrite Hr, He, !N.eqb_refl.
Qed.

Lemma next_record_lease cur v :
  lease (next_record cur v) = mk_lease cur.(writer_epoch) (cur.(revision) + 1).
Proof. done. Qed.

(** ** The checkpoint directory *)

Section LocalStore.
Context `{HI : HashIter} `{CJ : CheckpointJson HubPersistentState}.

Definition local_authoritative (d : Disk) : result HubStateStoreError (option DurableHubState) :=
  load_compat_unlocked d no_faults.

(** A crash may lose every checkpoint that is not durable; what it does to the
    other files does not matter. *)
Definition local_crash (d d' : Disk) : Prop :=
  d'.(visible) = d'.(durable) ∧ found_after hub_checkpoints d d'.

Definition local_io (io : LocalIo) : Prop := plain_faults io.(save_io).

Abbreviation local_ok := (durable_below hub_checkpoints).
Abbreviation loaded := (load hub_checkpoints).

Lemma crash_local_crash d d' : crash d d' → local_crash d d'.
Proof. intros Hc. split; [apply Hc|by apply crash_found]. Qed.

Lemma load_with_faults d io r :
  load_latest_with_sequence hub_checkpoints d io = r →
  match r with
  | Ok x => loaded d = Ok x
  | Err PersistenceError.NoCheckpoint => loaded d = Err PersistenceError.NoCheckpoint
  | Err _ => True
  end.
Proof.
  intros <-. unfold load, load_latest_with_sequence. cbn [ensure_directory no_faults
    directory_fault listing_fails].
  destruct (ensure_directory io) as [|e] eqn:He.
  2: { unfold ensure_directory in He. destruct (directory_fault io) as [[]|]; by simplify_eq. }
  destruct (listing_fails io); [done|].
  destruct (latest_sequence _ _) as [n|]; [|done]. unfold read_secure_json.
  destruct (d.(visible) !! _) as [[payload mode|]|]; [|done|done].
  destruct (_ <? _)%N; [done|]. destruct (negb _); [done|]. destruct (read_fails io); [done|].
  by destruct (checkpoint_from_slice payload).
Qed.

(** A load depends on the directory through what it reads. *)
Lemma compat_with_faults d io o :
  load_compat_with_sequence_unlocked d io = Ok o →
  load_compat_with_sequence_unlocked d no_faults = Ok o.
Proof.
  unfold load_compat_with_sequence_unlocked.
  destruct (load_latest_with_sequence hub_checkpoints d io) as [x|e] eqn:E;
    apply load_with_faults in E; unfold load in E; [by rewrite E|].
  destruct e; intros ?; try done. by rewrite E.
Qed.

Lemma compat_ext d d' :
  loaded d = loaded d' →
  load_compat_with_sequence_unlocked d no_faults = load_compat_with_sequence_unlocked d' no_faults.
Proof. unfold load, load_compat_with_sequence_unlocked. by intros ->. Qed.

Lemma authoritative_ext d d' :
  loaded d = loaded d' → local_authoritative d = local_authoritative d'.
Proof.
  intros Heq%compat_ext. unfold local_authoritative, load_compat_unlocked. by rewrite Heq.
Qed.

Lemma authoritative_compat d :
  local_authoritative d = match load_compat_with_sequence_unlocked d no_faults with
                          | Ok o => Ok (snd <$> o)
                          | Err e => Err e
                          end.
Proof. done. Qed.

(** A valid record is read back as what was saved. *)
Lemma compat_of_record d n rec :
  loaded d = Ok (n, rec.(state)) → validate_committed rec = Ok tt →
  load_compat_with_sequence_unlocked d no_faults = Ok (Some (n, rec)).
Proof.
  intros Hl Hv. unfold load in Hl. unfold load_compat_with_sequence_unlocked. rewrite Hl.
  pose proof Hv as Hv'. unfold validate_committed in Hv. destruct (_ || _) eqn:E1 in Hv; [done|].
  destruct (durable_fence (state rec)) as [f|] eqn:Hf; [|done].
  destruct (validate_fence f) as [[]|]; [|done]. destruct (_ || _) eqn:E2 in Hv; [done|].
  split_bools. destruct rec as [v r e s]. cbn in *. subst. by rewrite Hv'.
Qed.

Lemma local_crash_ok d d' : local_ok d → local_crash d d' → local_ok d'.
Proof. intros _ [Hd _] n Hn. exists n. by rewrite Hd. Qed.

Lemma local_crash_settles d d' d'' :
  local_crash d d' → local_crash d' d'' → local_authoritative d'' = local_authoritative d'.
Proof.
  intros [Hd _] [_ Hf]. apply authoritative_ext, load_same. intros n Hn.
  destruct (Hf n Hn) as [|Hf']; [done|]. by rewrite Hd.
Qed.

Lemma local_load_law d io o :
  local_load_current d io = Ok o → local_authoritative d = Ok o.
Proof.
  unfold local_load_current. destruct (gate_poisoned io); [done|].
  rewrite authoritative_compat. unfold load_compat_unlocked.
  destruct (load_compat_with_sequence_unlocked d (load_io io)) as [x|] eqn:E; [|done].
  intros [= <-]. by rewrite (compat_with_faults _ _ _ E).
Qed.

Lemma same_local_ok d d' :
  same_checkpoints hub_checkpoints d'.(visible) d.(visible) →
  same_checkpoints hub_checkpoints d'.(durable) d.(durable) → local_ok d → local_ok d'.
Proof.
  intros Hv Hd Hok n [Hn Hnu]. rewrite Hd in Hn by done.
  destruct (Hok n (conj Hn Hnu)) as (m & [Hm Hmu] & Hle). exists m. split; [|done].
  split; [by rewrite Hv|done].
Qed.

Lemma same_found d d' d'' :
  same_checkpoints hub_checkpoints d'.(visible) d.(visible) →
  same_checkpoints hub_checkpoints d'.(durable) d.(durable) →
  local_crash d' d'' → local_crash d d''.
Proof.
  intros Hv Hd [Heq Hf]. split; [done|]. intros n Hn.
  destruct (Hf n Hn) as [-> | ->]; [left; by apply Hv|right; by apply Hd].
Qed.

Abbreviation unchanged d d' :=
  (local_authoritative d' = local_authoritative d
   ∧ ∀ d'', local_crash d' d'' → as_before local_authoritative local_crash d d'').

Lemma same_unchanged d d' :
  same_checkpoints hub_checkpoints d'.(visible) d.(visible) →
  same_checkpoints hub_checkpoints d'.(durable) d.(durable) → unchanged d d'.
Proof.
  intros Hv Hd. split; [by apply authoritative_ext, load_same|].
  intros d'' Hc. exists d''. split; [by eapply same_found|done].
Qed.

Lemma unchanged_refl d : unchanged d d.
Proof. by apply same_unchanged. Qed.

Context `{CJL : !CheckpointJsonLaws HubPersistentState}.

(** A load of a readable store fails only because the directory, its listing or the
    file cannot be read. *)
Lemma failed_load d io e x :
  load_compat_with_sequence_unlocked d io = Err e →
  load_compat_with_sequence_unlocked d no_faults = Ok x →
  ∃ p, e = Persistence p ∧ p ≠ PersistenceError.ConditionalConflict.
Proof.
  unfold load_compat_with_sequence_unlocked.
  destruct (load_latest_with_sequence hub_checkpoints d io) as [y|p] eqn:E.
  - pose proof (load_with_faults _ _ _ E) as Hl. unfold load in Hl. rewrite Hl. congruence.
  - intros Hp _. exists p. split; [by destruct p; simplify_eq|]. intros ->. clear Hp.
    unfold load_latest_with_sequence, ensure_directory, read_secure_json in E.
    destruct (directory_fault io) as [[]|]; try done. destruct (listing_fails io); [done|].
    destruct (latest_sequence _ _); [|done].
    destruct (d.(visible) !! _) as [[]|]; try done. destruct (_ <? _)%N; [done|].
    destruct (negb _); [done|]. destruct (read_fails io); [done|].
    by destruct (checkpoint_from_slice _).
Qed.

Lemma published_effect d d' expected rec payload :
  local_ok d → linked hub_checkpoints d d' (next_of expected) payload →
  checkpoint_to_vec rec.(state) = Some payload → (vlen payload ≤ MAX_CHECKPOINT_BYTES)%N →
  validate_committed rec = Ok tt →
  local_ok d' ∧ local_authoritative d' = Ok (Some rec)
  ∧ ∀ d'', local_crash d' d'' →
      local_authoritative d'' = Ok (Some rec) ∨ as_before local_authoritative local_crash d d''.
Proof.
  intros Hok Hlink Hvec Hlen Hrec.
  assert (∀ x n, loaded x = Ok (n, rec.(state)) → local_authoritative x = Ok (Some rec)) as Hauth.
  { intros x n Hx. by rewrite authoritative_compat, (compat_of_record x n rec). }
  pose proof (checkpoint_roundtrip _ _ Hvec) as Hv. split; [|split].
  - intros n [Hn Hnu]. rewrite (linked_durable _ _ _ _ _ Hlink) in Hn by done.
    destruct (Hok n (conj Hn Hnu)) as (m & Hm & Hle).
    destruct (linked_new _ _ _ _ _ Hlink) as [[Hh Hmax]%latest_sequence_Some _].
    exists (next_of expected). split; [done|].
    destruct (decide (m = next_of expected)) as [->|Hne]; [done|].
    assert (holds hub_checkpoints d'.(visible) m) as Hm'.
    { destruct Hm as [Hm Hmu]. split; [|done]. by rewrite (linked_old _ _ _ _ _ Hlink). }
    apply Hmax in Hm'. lia.
  - apply (Hauth d' (next_of expected)). eapply latest_is_load; [apply Hlink|done..].
  - intros d'' [Heq Hf]. destruct (linked_found hub_checkpoints d d' (next_of expected) payload rec.(state) d'')
      as [Hl|Hf']; [done..| |].
    + left. by eapply Hauth.
    + right. exists d''. by split; [split|].
Qed.

Lemma synced_effect d n payload rec :
  latest_is hub_checkpoints d.(visible) n payload → latest_is hub_checkpoints d.(durable) n payload →
  checkpoint_to_vec rec.(state) = Some payload → (vlen payload ≤ MAX_CHECKPOINT_BYTES)%N →
  validate_committed rec = Ok tt →
  local_ok d ∧ settled local_authoritative local_crash d rec
  ∧ load_compat_with_sequence_unlocked d no_faults = Ok (Some (n, rec)).
Proof.
  intros Hv Hd Hvec Hlen Hrec.
  assert (top_synced hub_checkpoints d) as Htop.
  { destruct Hv as [Hl He], Hd as [Hl' He']. split; [congruence|]. intros. congruence. }
  assert (loaded d = Ok (n, rec.(state))) as Hload
    by eauto using latest_is_load, checkpoint_roundtrip.
  pose proof (compat_of_record _ _ _ Hload Hrec) as Hc.
  assert (local_authoritative d = Ok (Some rec)) as Ha by (by rewrite authoritative_compat, Hc).
  split; [by apply top_synced_durable_below|]. split; [|done]. split; [done|].
  intros d' [_ Hf]. rewrite <- Ha. by apply authoritative_ext, found_top_synced.
Qed.

Lemma save_and_verify_effect d io expected rec d' r :
  local_ok d → local_io io → save_and_verify_unlocked d io expected rec = (d', r) →
  local_ok d' ∧
  match r with
  | Ok rec' => rec' = rec ∧ settled local_authoritative local_crash d' rec
  | Err e =>
      unchanged d d'
      ∨ ((e = ReadAfterCommitMismatch
          ∨ ∃ p, e = Persistence p ∧ p ≠ PersistenceError.ConditionalConflict)
         ∧ local_authoritative d' = Ok (Some rec)
         ∧ ∀ d'', local_crash d' d'' →
             local_authoritative d'' = Ok (Some rec)
             ∨ as_before local_authoritative local_crash d d'')
  end.
Proof.
  intros Hok Hio Hs. unfold save_and_verify_unlocked in Hs.
  destruct (validate_committed rec) as [[]|e] eqn:Hrec;
    [|injection Hs as <- <-; split; [done|left; apply unchanged_refl]].
  destruct (save_if_latest_sequence_with_size _ _ _ _ _) as [d1 saved] eqn:Hsave.
  pose proof (save_cases hub_checkpoints eq_refl _ _ _ _ _ _ Hio Hsave) as Hcases.
  destruct saved as [[path size]|e].
  - destruct Hcases as (payload & Hvec & Hlen & _ & Hv & Hd & _).
    destruct (synced_effect _ _ _ _ Hv Hd Hvec Hlen Hrec) as (Hok1 & Hset & Hload).
    destruct (load_compat_with_sequence_unlocked d1 (verify_io io)) as [o|e] eqn:E.
    + pose proof (compat_with_faults _ _ _ E) as E'. rewrite Hload in E'. injection E' as <-.
      destruct (_ || _); injection Hs as <- <-; [|done].
      split; [done|]. right. split; [by left|]. split; [apply (proj1 Hset)|].
      intros d'' Hc. left. by apply (proj2 Hset).
    + injection Hs as <- <-. split; [done|]. right.
      split; [right; by eapply failed_load|]. split; [apply (proj1 Hset)|].
      intros d'' Hc. left. by apply (proj2 Hset).
  - assert (e = PersistenceError.PublicationUncertain
            ∨ same_checkpoints hub_checkpoints d1.(visible) d.(visible)
              ∧ same_checkpoints hub_checkpoints d1.(durable) d.(durable)) as [->|[Hv Hd]]
      by (destruct e; eauto).
    + destruct Hcases as (payload & Hlink & Hvec & Hlen & _). injection Hs as <- <-.
      destruct (published_effect _ _ _ _ _ Hok Hlink Hvec Hlen Hrec) as (Hok' & Ha & Hc).
      split; [done|]. right. split; [by left|done].
    + injection Hs as <- <-. split; [by eapply same_local_ok|]. left. by apply same_unchanged.
Qed.

Lemma local_commit_law d io l v d' r :
  local_ok d → local_io io → local_compare_and_commit d io l v = (d', r) →
  local_ok d' ∧ store_effect local_authoritative local_crash (commits l v) d d' r.
Proof.
  intros Hok Hio Hc. unfold local_compare_and_commit in Hc.
  assert (∀ e, local_ok d ∧ store_effect local_authoritative local_crash (commits l v) d d (Err e))
    as Hsame by (intros e; split; [done|left; apply unchanged_refl]).
  destruct (gate_poisoned io); [by injection Hc as <- <-|].
  destruct (load_compat_with_sequence_unlocked d (load_io io)) as [[[n cur]|]|] eqn:Hload;
    [|by injection Hc as <- <-..].
  apply compat_with_faults in Hload.
  destruct (negb _) eqn:He in Hc; [by injection Hc as <- <-|].
  destruct (negb _) eqn:Hr in Hc; [by injection Hc as <- <-|]. split_bools.
  destruct (checked_add cur.(revision) 1) as [r1|] eqn:Hadd; [|by injection Hc as <- <-].
  apply checked_add_Some in Hadd as [-> _].
  destruct (committed _ _ v) as [rec|] eqn:Hrec; [|by injection Hc as <- <-].
  apply committed_Ok in Hrec as [Hrec _].
  assert (local_authoritative d = Ok (Some cur) ∧ commits l v (Some cur) rec) as [Ha Hnew].
  { split; [by rewrite authoritative_compat, Hload|]. exists cur. split; [done|].
    destruct l as [le lr]. cbn in *. by subst. }
  destruct (save_and_verify_unlocked d io (Some n) rec) as [d1 saved] eqn:Hs.
  destruct (save_and_verify_effect _ _ _ _ _ _ Hok Hio Hs) as [Hok' Heff].
  destruct saved as [rec'|e].
  - injection Hc as <- <-. destruct Heff as [-> Hset]. split; [done|]. split; [by eauto|done].
  - destruct Heff as [Heff|(Hp & Ha' & Hcr)].
    + assert (∃ e', (d1, Err e') = (d', r)) as [e' [= <- <-]].
      { destruct e as [[]| | | | | | | | |]; eauto. destruct (classify_conditional_conflict _ _ _); eauto. }
      split; [done|]. by left.
    + assert ((d1, Err e) = (d', r)) as [= <- <-].
      { rewrite <- Hc. destruct e as [[]| | | | | | | | |]; try done. destruct Hp as [|(? & [= <-] & ?)]; done. }
      split; [done|]. right. split; [naive_solver|]. by exists (Some cur), rec.
Qed.

Lemma local_acquire_law d io v d' r :
  local_ok d → local_io io → local_acquire_writer d io v = (d', r) →
  local_ok d' ∧ store_effect local_authoritative local_crash (takes_over v) d d' r.
Proof.
  intros Hok Hio Hc. unfold local_acquire_writer in Hc.
  assert (∀ e, local_ok d ∧ store_effect local_authoritative local_crash (takes_over v) d d (Err e))
    as Hsame by (intros e; split; [done|left; apply unchanged_refl]).
  destruct (gate_poisoned io); [by injection Hc as <- <-|].
  destruct (load_compat_with_sequence_unlocked d (load_io io)) as [cur|] eqn:Hload;
    [|by injection Hc as <- <-].
  apply compat_with_faults in Hload.
  destruct (match cur with Some _ => _ | None => _ end) as [[[[expected r1] e1] s1]|] eqn:Hnext in Hc;
    [|by injection Hc as <- <-].
  destruct (committed r1 e1 s1) as [rec|] eqn:Hrec; [|by injection Hc as <- <-].
  apply committed_Ok in Hrec as [Hrec _].
  assert (local_authoritative d = Ok (snd <$> cur) ∧ takes_over v (snd <$> cur) rec) as [Ha Hnew].
  { split; [by rewrite authoritative_compat, Hload|]. unfold takes_over, takeover_record.
    destruct cur as [[n cur]|]; cbn; [|by simplify_eq].
    destruct (checked_add cur.(revision) 1) eqn:H1; [|done].
    destruct (checked_add cur.(writer_epoch) 1) eqn:H2; [|done].
    apply checked_add_Some in H1 as [-> _], H2 as [-> _]. by simplify_eq. }
  destruct (save_and_verify_unlocked d io expected rec) as [d1 saved] eqn:Hs.
  destruct (save_and_verify_effect _ _ _ _ _ _ Hok Hio Hs) as [Hok' Heff].
  injection Hc as <- <-. split; [done|]. destruct saved as [rec'|e].
  - destruct Heff as [-> Hset]. split; [by eauto|done].
  - destruct Heff as [Heff|(Hp & Ha' & Hcr)].
    + destruct e as [[]| | | | | | | | |]; by left.
    + assert (e ≠ Persistence PersistenceError.ConditionalConflict) as Hne
        by (destruct Hp as [->|(p & -> & Hp)]; congruence).
      assert (store_effect local_authoritative local_crash (takes_over v) d d1 (Err e)) as Hgoal.
      { right. split; [naive_solver|]. by exists (snd <$> cur), rec. }
      by destruct e as [[]| | | | | | | | |].
Qed.

#[export] Instance local_store_laws : StoreLaws Disk LocalIo := {
  authoritative := local_authoritative;
  store_crash := local_crash;
  store_ok := local_ok;
  store_io := local_io;
  crash_ok := local_crash_ok;
  crash_settles := local_crash_settles;
  load_law := local_load_law;
  commit_law := local_commit_law;
  acquire_law := local_acquire_law
}.
End LocalStore.

(** ** The store in memory *)

Lemma memory_commit_law m poisoned l v m' r :
  memory_compare_and_commit m poisoned l v = (m', r) →
  store_effect (λ m, Ok m.(current)) eq (commits l v) m m' r.
Proof.
  unfold memory_compare_and_commit.
  assert (∀ m' e, m'.(current) = m.(current) →
            store_effect (λ m, Ok m.(current)) eq (commits l v) m m' (Err e)) as Hsame.
  { intros m1 e Heq. left. rewrite Heq. split; [done|]. intros ? <-. exists m. by rewrite Heq. }
  destruct poisoned; [intros [= <- <-]; by apply Hsame|].
  destruct (current m) as [cur|] eqn:Hcur; [|intros [= <- <-]; by apply Hsame].
  destruct (negb _) eqn:He; [intros [= <- <-]; by apply Hsame|].
  destruct (negb (cur.(revision) =? _)%N) eqn:Hr; [intros [= <- <-]; by apply Hsame|].
  destruct (fail_next_commit m); [intros [= <- <-]; by apply Hsame|].
  destruct (checked_add cur.(revision) 1) as [r1|] eqn:Hadd; [|intros [= <- <-]; by apply Hsame].
  apply checked_add_Some in Hadd as [-> _].
  destruct (committed _ _ v) as [rec|] eqn:Hrec; [|intros [= <- <-]; by apply Hsame].
  apply committed_Ok in Hrec as [Hrec _]. intros [= <- <-]. split_bools. split.
  - exists (Some cur). split; [by rewrite Hcur|]. exists cur. split; [done|].
    destruct l as [le lr]. cbn in *. by subst.
  - split; [done|]. by intros ? <-.
Qed.

Lemma memory_acquire_law m poisoned v m' r :
  memory_acquire_writer m poisoned v = (m', r) →
  store_effect (λ m, Ok m.(current)) eq (takes_over v) m m' r.
Proof.
  unfold memory_acquire_writer.
  assert (∀ e, store_effect (λ m, Ok m.(current)) eq (takes_over v) m m (Err e)) as Hsame.
  { intros e. left. split; [done|]. intros ? <-. by exists m. }
  destruct poisoned; [intros [= <- <-]; by apply Hsame|].
  destruct (match m.(current) with Some _ => _ | None => _ end) as [[[r1 e1] s1]|] eqn:Hnext;
    [|intros [= <- <-]; by apply Hsame].
  destruct (committed r1 e1 s1) as [rec|] eqn:Hrec; [|intros [= <- <-]; by apply Hsame].
  apply committed_Ok in Hrec as [Hrec _]. intros [= <- <-]. split.
  - exists m.(current). split; [done|]. unfold takes_over, takeover_record.
    destruct m.(current) as [cur|]; [|by simplify_eq].
    destruct (checked_add cur.(revision) 1) eqn:H1; [|done].
    destruct (checked_add cur.(writer_epoch) 1) eqn:H2; [|done].
    apply checked_add_Some in H1 as [-> _], H2 as [-> _]. by simplify_eq.
  - split; [done|]. by intros ? <-.
Qed.

#[export] Instance memory_store_laws : StoreLaws MemoryHubStateStore bool.
Proof.
  refine {| authoritative := λ m, Ok m.(current); store_crash := eq;
            store_ok := λ _, True; store_io := λ _, True |}.
  - done.
  - by intros s s' s'' -> ->.
  - intros m poisoned o. cbn. unfold memory_load_current. by destruct poisoned.
  - intros m p l v m' r _ _ Hc. split; [done|]. by eapply memory_commit_law.
  - intros m p v m' r _ _ Hc. split; [done|]. by eapply memory_acquire_law.
Defined.

(** ** Histories of writers, faults and crashes *)

Section Histories.
Context {S Io : Type} `{SL : StoreLaws S Io}.

Definition acknowledged (r : result HubStateStoreError DurableHubState)
    (a : list DurableHubState) : list DurableHubState :=
  match r with Ok rec => rec :: a | Err _ => a end.

(** Any number of writers call the store, each with whatever lease and state; the
    list holds the acknowledged records, the latest first. *)
Inductive store_history : S → list DurableHubState → Prop :=
| store_start s : store_ok s → store_history s []
| store_commit s a io l v s' r :
    store_history s a → store_io io → compare_and_commit s io l v = (s', r) →
    store_history s' (acknowledged r a)
| store_acquire s a io v s' r :
    store_history s a → store_io io → acquire_writer s io v = (s', r) →
    store_history s' (acknowledged r a)
| store_crashes s a s' : store_history s a → store_crash s s' → store_history s' a.

(** [rec] is [old], or it was published later. *)
Definition later (old rec : DurableHubState) : Prop :=
  (old.(revision) < rec.(revision))%N ∧ (old.(writer_epoch) ≤ rec.(writer_epoch))%N.
Definition follows (old rec : DurableHubState) : Prop := rec = old ∨ later old rec.

Lemma later_follows a b c : follows a b → later b c → later a c.
Proof. intros [->|[H1 H2]] [H3 H4]; unfold later; [done|lia]. Qed.

(** The record that a call publishes is later than what was authoritative. *)
Definition builds (new : option DurableHubState → DurableHubState → Prop) : Prop :=
  ∀ c rec, new (Some c) rec → later c rec.

Lemma commits_builds l v : builds (commits l v).
Proof. intros c rec (c' & [= <-] & _ & ->). unfold later, next_record. cbn. lia. Qed.

Lemma takes_over_builds v : builds (takes_over v).
Proof. intros c rec ->. unfold later, takeover_record. cbn. lia. Qed.

(** The latest acknowledged record is authoritative, or a later one is; and a
    crash does not change that. *)
Definition holds_ack (s : S) (a : list DurableHubState) : Prop :=
  ∀ last, head a = Some last → ∃ rec, authoritative s = Ok (Some rec) ∧ follows last rec.

Definition ack_ok (s : S) (a : list DurableHubState) : Prop :=
  store_ok s ∧ StronglySorted (λ new old, later old new) a ∧ holds_ack s a
  ∧ ∀ s', store_crash s s' → holds_ack s' a.

Lemma holds_ack_same s s' a : authoritative s' = authoritative s → holds_ack s a → holds_ack s' a.
Proof. unfold holds_ack. by intros ->. Qed.

Lemma follows_all a last rec old :
  StronglySorted (λ new old, later old new) a → head a = Some last → old ∈ a →
  later last rec → later old rec.
Proof.
  intros Hs Hh Hin Hl. destruct Hs as [|x a Hs Hx]; [done|]. injection Hh as ->.
  apply elem_of_cons in Hin as [->|Hin]; [done|]. rewrite Forall_forall in Hx.
  apply (later_follows _ last); [right; by apply Hx|done].
Qed.

Lemma effect_ack new s s' r a :
  builds new → store_ok s' → store_effect authoritative store_crash new s s' r →
  ack_ok s a → ack_ok s' (acknowledged r a).
Proof.
  intros Hnew Hok' Heff (Hok & Hsort & Hnow & Hcrash). destruct r as [rec|e]; cbn.
  - destruct Heff as [(cur & Ha & Hrec) [Ha' Hset]].
    assert (∀ s1, authoritative s1 = Ok (Some rec) → holds_ack s1 (rec :: a)) as Hh.
    { intros s1 Hs1 last [= <-]. exists rec. split; [done|by left]. }
    split_and!; [done| |by apply Hh|by eauto].
    constructor; [done|]. apply Forall_forall. intros old Hold.
    destruct a as [|last a]; [by apply elem_of_nil in Hold|].
    destruct (Hnow last eq_refl) as (c & Hc & Hf). rewrite Ha in Hc. injection Hc as ->.
    apply (follows_all (last :: a) last); [done..|]. by eapply later_follows, Hnew.
  - assert (∀ s'', as_before authoritative store_crash s s'' → holds_ack s'' a) as Hbefore
      by (intros s'' (s0 & Hs0 & Heq); eapply holds_ack_same; eauto).
    destruct Heff as [[Ha Hc]|(_ & cur & rec & Ha & Hrec & Ha' & Hc)].
    + split_and!; [done|done|by eapply holds_ack_same|by eauto].
    + assert (∀ s1, authoritative s1 = Ok (Some rec) → holds_ack s1 a) as Hh.
      { intros s1 Hs1 last Hlast. exists rec. split; [done|]. right.
        destruct (Hnow last Hlast) as (c & Hc1 & Hf). rewrite Ha in Hc1. injection Hc1 as ->.
        by eapply later_follows, Hnew. }
      split_and!; [done|done|by apply Hh|]. intros s'' Hs''. destruct (Hc _ Hs''); eauto.
Qed.

Lemma store_history_ok s a : store_history s a → ack_ok s a.
Proof.
  induction 1 as [s Hs|s a io l v s' r _ IH Hio Hc|s a io v s' r _ IH Hio Hc|s a s' _ IH Hc].
  - split; [done|]. split; [constructor|]. split; [by intros ? [=]|]. by intros s' _ ? [=].
  - pose proof IH as [Hok _]. apply commit_law in Hc as [Hok' Heff]; [|done..].
    eapply effect_ack; eauto using commits_builds.
  - pose proof IH as [Hok _]. apply acquire_law in Hc as [Hok' Heff]; [|done..].
    eapply effect_ack; eauto using takes_over_builds.
  - destruct IH as (Hok & Hsort & Hnow & Hcrash). split; [by eapply crash_ok|].
    split; [done|]. split; [by apply Hcrash|]. intros s'' Hs''.
    eapply holds_ack_same; [exact (crash_settles s s' s'' Hc Hs'')|]. by apply Hcrash.
Qed.

(** C32: The store is linear and loses nothing it acknowledged, over every history of
    writers, faults and crashes: acknowledged records have strictly increasing
    revisions and never decreasing writer epochs; whatever is loaded is the latest
    acknowledged record or a later one; and a commit succeeds only under a lease
    that is at least as late as every acknowledged record, so that a writer that
    was superseded never commits again. *)
Theorem acknowledged_states_are_linear s a :
  store_history s a →
  StronglySorted (λ new old, later old new) a
  ∧ (∀ io o last, load_current s io = Ok o → head a = Some last →
       ∃ rec, o = Some rec ∧ follows last rec)
  ∧ ∀ io l v s' rec old, store_io io → compare_and_commit s io l v = (s', Ok rec) → old ∈ a →
      rec.(writer_epoch) = l.(lease_epoch) ∧ rec.(revision) = (l.(lease_revision) + 1)%N
      ∧ (old.(writer_epoch) ≤ l.(lease_epoch))%N ∧ (old.(revision) ≤ l.(lease_revision))%N.
Proof.
  intros (Hok & Hsort & Hnow & Hcrash)%store_history_ok. split; [done|]. split.
  - intros io o last Hl Hlast. apply load_law in Hl. destruct (Hnow last Hlast) as (rec & Ha & Hf).
    rewrite Hl in Ha. injection Ha as ->. eauto.
  - intros io l v s' rec old Hio Hc Hold. apply commit_law in Hc as [_ [(cur & Ha & Hnew) _]]; [|done..].
    destruct Hnew as (c & -> & <- & ->). cbn. split; [done|]. split; [done|].
    destruct a as [|last a]; [by apply elem_of_nil in Hold|].
    destruct (Hnow last eq_refl) as (c' & Hc' & Hf). rewrite Ha in Hc'. injection Hc' as <-.
    destruct Hf as [->|Hf].
    + apply elem_of_cons in Hold as [->|Hold]; [done|].
      apply StronglySorted_inv in Hsort as [_ Hall]. rewrite Forall_forall in Hall.
      destruct (Hall _ Hold). lia.
    + destruct (follows_all _ _ c _ Hsort eq_refl Hold Hf). lia.
Qed.
End Histories.

Module StoreExamples.
Existing Instance canonical_hash_iter.

(** Idle Hub states, told apart by a number, and an encoding of their records. *)
Definition idle (k : N) : HubPersistentState :=
  mk_hub_state HUB_M1_STATE_SCHEMA_VERSION (DeviceRegistry.mk_registry_snapshot k [] [])
    (AuthoritativeSafetySnapshot.mk 15 (mk_admission_snapshot [] [] []) [] [] [] [] [] [] [] []) None.

Definition idle_number (v : HubPersistentState) : N :=
  v.(registry).(DeviceRegistry.snap_schema_version).

#[export] Instance idle_json : CheckpointJson HubPersistentState := {
  checkpoint_to_vec v :=
    let_some f := v.(durable_fence) else None ;;
    if bool_decide (v = fenced_state f.(fence_revision) f.(fence_writer_epoch) (idle (idle_number v)))
    then Some [idle_number v; f.(fence_revision); f.(fence_writer_epoch)] else None;
  checkpoint_from_slice b :=
    match b with [k; r; e] => Some (fenced_state r e (idle k)) | _ => None end
}.

#[export] Instance idle_json_laws : CheckpointJsonLaws HubPersistentState.
Proof.
  split. intros v b. cbn. destruct (durable_fence v) as [f|]; [|done].
  case_bool_decide as Hv; [|done]. intros [= <-]. by rewrite Hv.
Qed.

Definition quiet : LocalIo := mk_local_io false no_faults no_faults no_faults no_faults.
Definition empty_disk : Disk := mk_disk ∅ ∅.

(** A writer takes over and commits, a second writer takes over. *)
Definition first := acquire_writer empty_disk quiet (idle 1).
Definition second := compare_and_commit first.1 quiet (mk_lease 1 1) (idle 2).
Definition third := acquire_writer second.1 quiet (idle 3).
Definition rec (r e k : N) : DurableHubState := mk_durable 1 r e (fenced_state r e (idle k)).

Lemma acknowledged_states_are_linear_witness :
  StronglySorted (λ new old, later old new) [rec 3 2 2; rec 2 1 2; rec 1 1 1]
  ∧ load_current third.1 quiet = Ok (Some (rec 3 2 2))
  ∧ (compare_and_commit third.1 quiet (mk_lease 1 2) (idle 4)).2 = Err StaleWriter.
Proof.
  assert (store_history third.1 [rec 3 2 2; rec 2 1 2; rec 1 1 1]) as Hh.
  { apply (store_acquire second.1 [rec 2 1 2; rec 1 1 1] quiet (idle 3) third.1 (Ok (rec 3 2 2)));
      [|done|vm_compute; reflexivity].
    apply (store_commit first.1 [rec 1 1 1] quiet (mk_lease 1 1) (idle 2) second.1 (Ok (rec 2 1 2)));
      [|done|vm_compute; reflexivity].
    apply (store_acquire empty_disk [] quiet (idle 1) first.1 (Ok (rec 1 1 1)));
      [|done|vm_compute; reflexivity].
    apply store_start. intros n [[e He] _]. discriminate He. }
  destruct (acknowledged_states_are_linear third.1 [rec 3 2 2; rec 2 1 2; rec 1 1 1] Hh)
    as (Hsort & _ & _).
  split; [exact Hsort|]. split; vm_compute; reflexivity.
Defined.

(** The read that verifies a commit fails after the commit has been published: the
    error neither is [ReadAfterCommitMismatch] nor fences the writer. *)
Definition unverified :=
  compare_and_commit first.1
    (mk_local_io false no_faults no_faults
       (mk_io None false [] None false (λ d, d) false false false false false (λ _, false) true)
       no_faults) (mk_lease 1 1) (idle 2).

Lemma unverified_commit_is_not_fencing :
  unverified.2 = Err (Persistence PersistenceError.Io)
  ∧ fences_current_writer (Persistence PersistenceError.Io) = false
  ∧ load_current unverified.1 quiet = Ok (Some (rec 2 1 2)).
Proof. split_and!; vm_compute; reflexivity. Qed.
End StoreExamples.
