(* ===== verification/Hub.v ===== *)
(** * The Hub: state, durable commits and the effects of its tasks

    [src/src/v2_m1_hub.rs]: what the tasks of one Hub process share, the errors,
    the commit of the shared state to the authoritative store, and the small monad
    in which the handlers are written. The clock, random bytes, the grant signer,
    the outbound channel and what the store meets are an environment that each
    effect reads at the next tick. *)

From S2P Require Import Prelude Vocabulary Protocol Crypto Tombstone Admission Registry Grants.
From S2P Require Import SafetyTypes Recovery EphemeralRefs Evidence Transport Controller.
From S2P Require Import ControllerSnapshot Trust Persistence StateStore.
Import Persistence StateStore.

(** ** Constants *)

Definition SESSION_QUEUE_DEPTH : N := 16.
Definition DEFAULT_GRANT_TTL_MS : N := 30000.
Definition DEFAULT_CHECKPOINT_GENERATION_ROLLOVER_BYTES : N := MAX_CHECKPOINT_BYTES / 2.
Definition GRANT_ISSUED_AT_SAFETY_MS : N := 5000.
Definition DEFAULT_MAX_RETAINED_OUTPUT_BYTES_PER_STREAM : N := 4194304.

(** ** Errors *)

Module HubCommandError.
Inductive HubCommandError :=
| AgentOffline | SessionSuperseded | SessionClosed | CancelledBeforeDispatch
| ConfirmedNotExecuted | SemanticConstraintSnapshotStale | OperationReplay | Busy
| UnknownOperation
| DeviceIndeterminate (operation_id : string)
| MutationResumeRequired (operation_id : string)
| Rejected | GrantSigningUnavailable
| EphemeralRef (e : HubEphemeralRefError)
| Remote (code : DeviceErrorCode)
| UnexpectedResult | Indeterminate.
#[global] Instance HubCommandError_eq_dec : EqDecision HubCommandError.
Proof. solve_decision. Defined.
End HubCommandError.
Abbreviation HubCommandError := HubCommandError.HubCommandError.

Module HubServiceError.
Inductive HubServiceError :=
| InvalidConfig (why : string)
| Persistence (e : PersistenceError)
| StateStore (e : HubStateStoreError)
| OnlineRecovery (e : RecoveryError)
| StateDirectoryLock
| Control (e : ControlError)
| Execution (e : ExecutionError)
| Transport (e : TransportError)
| Trust (e : TrustError)
| Carrier | Status | WrongDevice | StaleSession | InboundClosed | OutboundClosed
| HeartbeatTimeout
| UnexpectedMessage (expected got : string)
| UnexpectedResultType | PendingOperationMissing | CheckpointDeviceTrustMismatch | StateBusy
| SystemClockBeforeEpoch.
End HubServiceError.
Abbreviation HubServiceError := HubServiceError.HubServiceError.

(** A task ends with an error or by a panic. *)
Inductive failure (E : Type) := Panicked | Raised (e : E).
Arguments Panicked {E}.
Arguments Raised {E} e.

Module Hub.

(** ** Configuration and keys *)

(** [HubServiceConfig], durations in milliseconds. *)
Record HubServiceConfig := mk_config {
  heartbeat_timeout : N;
  max_agent_session_lifetime : N;
  agent_session_reauth_drain : N;
  checkpoint_generation_rollover_bytes : N;
  max_queued_per_device : N;
  max_agent_sessions : N;
  max_agent_session_starts_per_minute : N
}.

Definition admission_limits (c : HubServiceConfig) : AdmissionLimits :=
  mk_limits 1 c.(max_queued_per_device).

Definition validate_config (c : HubServiceConfig) : result HubServiceError unit :=
  return_if (c.(heartbeat_timeout) =? 0)%N
    with Err (HubServiceError.InvalidConfig "heartbeat timeout must be non-zero") ;;
  return_if (c.(max_agent_session_lifetime) =? 0)%N || (c.(agent_session_reauth_drain) =? 0)%N
            || (c.(max_agent_session_lifetime) <=? c.(agent_session_reauth_drain))%N
    with Err (HubServiceError.InvalidConfig
      "Agent session lifetime must be non-zero and greater than its reauthentication drain window") ;;
  return_if (c.(checkpoint_generation_rollover_bytes) =? 0)%N
            || (DEFAULT_CHECKPOINT_GENERATION_ROLLOVER_BYTES
                <? c.(checkpoint_generation_rollover_bytes))%N
    with Err (HubServiceError.InvalidConfig
      "checkpoint generation rollover bytes must be between 1 and half the checkpoint ceiling") ;;
  return_if (c.(max_agent_sessions) =? 0)%N || (c.(max_agent_session_starts_per_minute) =? 0)%N
    with Err (HubServiceError.InvalidConfig "Agent session limits must be non-zero") ;;
  Ok tt.

(** [SemanticConstraintSnapshotIdentity] *)
Record SnapshotIdentity := mk_identity { identity_revision : N; identity_digest : string }.

#[export] Instance SnapshotIdentity_eq_dec : EqDecision SnapshotIdentity.
Proof. solve_decision. Defined.

Definition from_evidence (e : SemanticConstraintAdmissionEvidence) : SnapshotIdentity :=
  mk_identity e.(SemanticConstraintAdmissionEvidence.revision)
    e.(SemanticConstraintAdmissionEvidence.snapshot_digest).

(** ** What clients receive *)

Record HubCommandResult := mk_command_result {
  result_operation_id : string;
  device_result : DeviceResult;
  receipt : ExecutionReceipt
}.

(** The values sent on the [oneshot] channels of requests. *)
Inductive Reply :=
| CommandReply (r : result HubCommandError HubCommandResult)
| CancelReply (r : result HubCommandError CancellationDisposition)
| EndReply (r : result HubCommandError bool)
| HandoffReply (r : result HubCommandError RemoteHandoffResponseKind).

Inductive HubRequest :=
| Execute (operation_id : string) (owner : OperationOwner) (command : DeviceCommand)
    (metadata : OperationAdmissionMetadata) (handoff : option RemoteHandoffAuthority) (reply : N)
| Handoff (request_id : string) (request : RemoteHandoffRequestKind) (reply : N)
| Cancel (operation_id : string) (owner : OperationOwner) (reply : N)
| EndBackendSession (context_id : string) (reply : N).

Inductive RecoverySessionDisposition := Continue | Reconnect.

Section Hub.
Context `{ED : Ed25519}.

Record HubProvisionedMaterial := mk_material {
  hub_identity : SigningKey;
  material_verifier : VerifyingKey;
  device_rotation : option Trust.DeviceKeyRotation
}.

(** ** Shared state *)

Record PersistentHubState := mk_persistent {
  registry : DeviceRegistry.DeviceRegistry;
  execution : Controller.AuthoritativeOperationController;
  writer : HubWriterLease;
  committed_registry : DeviceRegistry.DeviceRegistry;
  committed_execution : Controller.AuthoritativeOperationController
}.

Record RecoveryRuntimeState := mk_runtime {
  pending_challenge : option RecoveryChallenge;
  last_resolved : option (RecoveryAuthorization * RecoveryResolved);
  last_warned_subject : option (RecoveryPhase * list N)
}.

(** What the tasks of a Hub have committed and hold in local variables: [outgoing] are
    the operations whose command is about to be handed to the transport, [settled]
    the receipts for the clients, [granted] the generations of the sessions that are
    about to be accepted. No decision depends on them. *)
Record Tickets := mk_tickets {
  outgoing : list string;
  settled : list ExecutionReceipt;
  granted : list N
}.

Definition no_tickets : Tickets := mk_tickets [] [] [].

Definition hold_command (id : string) (k : Tickets) : Tickets :=
  mk_tickets (id :: k.(outgoing)) k.(settled) k.(granted).
Definition hold_receipt (x : ExecutionReceipt) (k : Tickets) : Tickets :=
  mk_tickets k.(outgoing) (x :: k.(settled)) k.(granted).
Definition hold_session (g : N) (k : Tickets) : Tickets :=
  mk_tickets k.(outgoing) k.(settled) (g :: k.(granted)).

(** The first occurrence is removed. *)
Definition hand_over `{EqDecision A} (a : A) : list A → list A :=
  fix go l := match l with
              | [] => []
              | x :: l => if bool_decide (x = a) then l else x :: go l
              end.

Definition hand_over_command (id : string) (k : Tickets) : Tickets :=
  mk_tickets (hand_over id k.(outgoing)) k.(settled) k.(granted).
Definition hand_over_session (g : N) (k : Tickets) : Tickets :=
  mk_tickets k.(outgoing) k.(settled) (hand_over g k.(granted)).

(** [HubInner]: the session that receives requests is known by its generation and
    capability revision. *)
Record HubInner := mk_inner {
  persistent : PersistentHubState;
  live : option (N * N);
  draining : bool;
  writer_fenced : bool;
  semantic_constraint_snapshot : option SnapshotIdentity;
  last_checkpoint_bytes : N;
  recovery_runtime : RecoveryRuntimeState;
  ephemeral_refs : HubRefs.HubEphemeralRefRegistry;
  tickets : Tickets
}.

(** ** The state of one session *)

Record PendingOperation := mk_pending {
  owner : OperationOwner;
  command : DeviceCommand;
  expected_snapshot : option SnapshotIdentity;
  handoff : option RemoteHandoffAuthority;
  envelope : option CommandEnvelope;
  reply : N
}.

Record SessionState := mk_session {
  pending : gmap string PendingOperation;
  queue_order : list string;
  cancel_waiters : gmap string N;
  backend_session_end_waiters : gmap string N;
  handoff_waiters : gmap string N;
  session_reauth_requested : bool;
  generation_rollover_requested : bool
}.

Definition new_session : SessionState := mk_session ∅ [] ∅ ∅ ∅ false false.

(** What the handlers of a session know about it. *)
Record SessionContext := mk_context {
  hello : AgentHello;
  challenge : HubChallenge;
  generation : N;
  capability_revision : N
}.

(** ** The environment and the world of one Hub *)

Context {S Io : Type} `{HubAuthoritativeStateStore S Io}.

Record HubEnv := mk_env {
  env_unix_time_ms : nat → option N;
  env_session_clock : nat → N;
  env_io : nat → Io;
  env_sign_grant : nat → string → DeviceCapability → N → N → option GrantToken;
  env_random : nat → list (list N);
  env_outbound_open : nat → bool;
  env_encodes : HubToAgent → bool
}.

Record World := mk_world {
  hub : HubInner;
  store : S;
  sent : list HubToAgent;
  replies : list (N * Reply);
  tick : nat
}.

(** ** Tasks *)

Record Task := mk_task { world : World; session : SessionState }.

Definition M (E A : Type) : Type := Task → Task * result (failure E) A.

#[export] Instance M_ret E : MRet (M E) := λ A a t, (t, Ok a).
#[export] Instance M_bind E : MBind (M E) := λ A B f m t,
  let '(t, r) := m t in
  match r with Ok a => f a t | Err e => (t, Err e) end.

Definition fail {E A} (e : E) : M E A := λ t, (t, Err (Raised e)).
Definition panic {E A} : M E A := λ t, (t, Err Panicked).
Definition gets {E A} (f : Task → A) : M E A := λ t, (t, Ok (f t)).

(** [?] on a result, with the conversion of its error. *)
Definition lift {E F A} (f : E → F) (r : result E A) : M F A :=
  λ t, (t, match r with Ok a => Ok a | Err e => Err (Raised (f e)) end).
Definition ok_or {E A} (e : E) (o : option A) : M E A :=
  λ t, (t, match o with Some a => Ok a | None => Err (Raised e) end).

(** [match m.await { Ok(..) => .., Err(e) => .. }] *)
Definition attempt {E F A} (m : M E A) : M F (result E A) := λ t,
  let '(t, r) := m t in
  (t, match r with
      | Ok a => Ok (Ok a)
      | Err (Raised e) => Ok (Err e)
      | Err Panicked => Err Panicked
      end).

(** Assignments to the fields of the shared state *)
Definition set_persistent (h : HubInner) x := mk_inner x h.(live) h.(draining) h.(writer_fenced)
  h.(semantic_constraint_snapshot) h.(last_checkpoint_bytes) h.(recovery_runtime)
  h.(ephemeral_refs) h.(tickets).
Definition set_live (h : HubInner) x := mk_inner h.(persistent) x h.(draining) h.(writer_fenced)
  h.(semantic_constraint_snapshot) h.(last_checkpoint_bytes) h.(recovery_runtime)
  h.(ephemeral_refs) h.(tickets).
Definition set_draining (h : HubInner) x := mk_inner h.(persistent) h.(live) x h.(writer_fenced)
  h.(semantic_constraint_snapshot) h.(last_checkpoint_bytes) h.(recovery_runtime)
  h.(ephemeral_refs) h.(tickets).
Definition set_fenced (h : HubInner) x := mk_inner h.(persistent) h.(live) h.(draining) x
  h.(semantic_constraint_snapshot) h.(last_checkpoint_bytes) h.(recovery_runtime)
  h.(ephemeral_refs) h.(tickets).
Definition set_snapshot (h : HubInner) x := mk_inner h.(persistent) h.(live) h.(draining)
  h.(writer_fenced) x h.(last_checkpoint_bytes) h.(recovery_runtime) h.(ephemeral_refs)
  h.(tickets).
Definition set_checkpoint_bytes (h : HubInner) x := mk_inner h.(persistent) h.(live) h.(draining)
  h.(writer_fenced) h.(semantic_constraint_snapshot) x h.(recovery_runtime) h.(ephemeral_refs)
  h.(tickets).
Definition set_runtime (h : HubInner) x := mk_inner h.(persistent) h.(live) h.(draining)
  h.(writer_fenced) h.(semantic_constraint_snapshot) h.(last_checkpoint_bytes) x
  h.(ephemeral_refs) h.(tickets).
Definition set_refs (h : HubInner) x := mk_inner h.(persistent) h.(live) h.(draining)
  h.(writer_fenced) h.(semantic_constraint_snapshot) h.(last_checkpoint_bytes)
  h.(recovery_runtime) x h.(tickets).
Definition on_tickets (f : Tickets → Tickets) (h : HubInner) := mk_inner h.(persistent) h.(live)
  h.(draining) h.(writer_fenced) h.(semantic_constraint_snapshot) h.(last_checkpoint_bytes)
  h.(recovery_runtime) h.(ephemeral_refs) (f h.(tickets)).

Definition set_execution (h : HubInner) x :=
  let p := h.(persistent) in
  set_persistent h (mk_persistent p.(registry) x p.(writer) p.(committed_registry)
                      p.(committed_execution)).
Definition set_registry (h : HubInner) x :=
  let p := h.(persistent) in
  set_persistent h (mk_persistent x p.(execution) p.(writer) p.(committed_registry)
                      p.(committed_execution)).

Definition on_hub {E} (f : HubInner → HubInner) : M E unit := λ t,
  let w := t.(world) in
  (mk_task (mk_world (f w.(hub)) w.(store) w.(sent) w.(replies) w.(tick)) t.(session), Ok tt).

Definition on_session {E} (f : SessionState → SessionState) : M E unit := λ t,
  (mk_task t.(world) (f t.(session)), Ok tt).

Definition the_hub {E} : M E HubInner := gets (λ t, t.(world).(hub)).
Definition the_execution {E} : M E Controller.AuthoritativeOperationController :=
  gets (λ t, t.(world).(hub).(persistent).(execution)).
Definition the_registry {E} : M E DeviceRegistry.DeviceRegistry :=
  gets (λ t, t.(world).(hub).(persistent).(registry)).
Definition the_session {E} : M E SessionState := gets (λ t, t.(session)).

(** A call of the operation controller on the live state, with [?]. *)
Definition on_execution {E A} (f : ExecutionError → E)
    (call : Controller.AuthoritativeOperationController → Controller.outcome A) : M E A :=
  c ← the_execution;
  on_hub (λ h, set_execution h (call c).1);;
  lift f (call c).2.

(** ** What one Hub is set up with *)

Class Setup := {
  env : HubEnv;
  config : HubServiceConfig;
  material : HubProvisionedMaterial;
  device_id : string;
  recovery_verifier : option RecoveryVerifierKind
}.

Context `{Setup}.

Definition next_tick {E} : M E nat := λ t,
  let w := t.(world) in
  (mk_task (mk_world w.(hub) w.(store) w.(sent) w.(replies) (Datatypes.S w.(tick))) t.(session),
   Ok w.(tick)).

Definition unix_time_ms : M HubServiceError N :=
  n ← next_tick; ok_or HubServiceError.SystemClockBeforeEpoch (env.(env_unix_time_ms) n).

(** [session_clock.now_ms()] *)
Definition session_time_ms {E} : M E N := n ← next_tick; mret (env.(env_session_clock) n).

Definition send_reply {E} (channel : N) (r : Reply) : M E unit := λ t,
  let w := t.(world) in
  (mk_task (mk_world w.(hub) w.(store) w.(sent) (w.(replies) ++ [(channel, r)]) w.(tick))
     t.(session), Ok tt).

Definition enqueue {E} (m : HubToAgent) : M E unit := λ t,
  let w := t.(world) in
  (mk_task (mk_world w.(hub) w.(store) (w.(sent) ++ [m]) w.(replies) w.(tick)) t.(session), Ok tt).

Definition send_hub (m : HubToAgent) : M HubServiceError unit :=
  if negb (env.(env_encodes) m) then fail HubServiceError.Carrier else
  n ← next_tick;
  if negb (env.(env_outbound_open) n) then fail HubServiceError.OutboundClosed else
  enqueue m.

Inductive HubCommandSendError := EncodeBeforeEnqueue | OutboundClosedBeforeEnqueue.

Definition send_evidence (e : HubCommandSendError) : ExecutionEvidence :=
  match e with
  | EncodeBeforeEnqueue => ExecutionEvidence.HubEncodeFailedBeforeEnqueue
  | OutboundClosedBeforeEnqueue => ExecutionEvidence.HubOutboundClosedBeforeEnqueue
  end.

Definition closes_session (e : HubCommandSendError) : bool :=
  match e with OutboundClosedBeforeEnqueue => true | EncodeBeforeEnqueue => false end.

Definition into_service_error (e : HubCommandSendError) : HubServiceError :=
  match e with
  | EncodeBeforeEnqueue => HubServiceError.Carrier
  | OutboundClosedBeforeEnqueue => HubServiceError.OutboundClosed
  end.

(** The task gives up the command it holds, sent or not. *)
Definition send_command_hub {E} (id : string) (m : RemoteCommand)
    : M E (result HubCommandSendError unit) :=
  on_hub (on_tickets (hand_over_command id));;
  if negb (env.(env_encodes) (HubToAgent.Command m)) then mret (Err EncodeBeforeEnqueue) else
  n ← next_tick;
  if negb (env.(env_outbound_open) n) then mret (Err OutboundClosedBeforeEnqueue) else
  enqueue (HubToAgent.Command m);;
  mret (Ok tt).

(** ** Durable commits *)

Context `{HashIter} `{Base64Url} `{RecoverySerializer} `{CheckpointJson HubPersistentState}.

Definition committed_state_bytes (s : HubPersistentState) : N :=
  match checkpoint_to_vec s with Some payload => vlen payload | None => u64_max end.

Definition finalize_hub_state_commit (r : result HubStateStoreError DurableHubState)
    : M HubServiceError DurableHubState :=
  match r with
  | Ok committed =>
      on_hub (λ h, set_checkpoint_bytes h (committed_state_bytes committed.(StateStore.state)));;
      mret committed
  | Err e =>
      (if fences_current_writer e then on_hub (λ h, set_fenced h true) else mret tt);;
      fail (HubServiceError.StateStore e)
  end.

Definition commit_hub_state (lease : HubWriterLease) (s : HubPersistentState)
    : M HubServiceError DurableHubState :=
  n ← next_tick;
  r ← (λ t, let w := t.(world) in
            let '(store, r) := compare_and_commit w.(store) (env.(env_io) n) lease s in
            (mk_task (mk_world w.(hub) store w.(sent) w.(replies) w.(tick)) t.(session), Ok r));
  finalize_hub_state_commit r.

(** [HubPersistentState::capture], which may panic *)
Definition capture {E} (r : DeviceRegistry.DeviceRegistry)
    (c : Controller.AuthoritativeOperationController) : M E HubPersistentState :=
  match capture_hub r c with Some s => mret s | None => panic end.

Definition promoted (p : PersistentHubState) (c : Controller.AuthoritativeOperationController)
    (writer : HubWriterLease) : PersistentHubState :=
  mk_persistent p.(registry) c writer p.(registry) c.

Definition rolled_back (p : PersistentHubState) : PersistentHubState :=
  mk_persistent p.(committed_registry) p.(committed_execution) p.(writer) p.(committed_registry)
    p.(committed_execution).

Definition persist_locked : M HubServiceError unit :=
  h ← the_hub;
  let p := h.(persistent) in
  s ← capture p.(registry) p.(execution);
  r ← attempt (commit_hub_state p.(writer) s);
  match r with
  | Ok committed =>
      on_hub (λ h, set_persistent h (promoted p p.(execution) (lease committed)))
  | Err e => on_hub (λ h, set_persistent h (rolled_back p));; fail e
  end.

Definition persist_execution_candidate_locked
    (candidate : Controller.AuthoritativeOperationController) : M HubServiceError unit :=
  h ← the_hub;
  let p := h.(persistent) in
  s ← capture p.(registry) candidate;
  committed ← commit_hub_state p.(writer) s;
  on_hub (λ h, set_persistent h (promoted p candidate (lease committed))).
End Hub.
End Hub.
