(* ===== verification/HubSession.v ===== *)
(** * The sessions of the Hub

    [src/src/v2_m1_hub.rs]: the handlers of one authenticated Agent session, from the
    admission of a request to the settlement of its operation, with the recovery
    protocol, the reports after a reconnect and the end of the session. Each block
    that holds the lock of the persistent state is one definition. *)

From S2P Require Import Prelude Vocabulary Protocol Crypto Tombstone Admission Registry Grants.
From S2P Require Import SafetyTypes Recovery EphemeralRefs Evidence Transport Controller.
From S2P Require Import ControllerSnapshot Trust Persistence StateStore Hub.
Import HubOperationState ControllerSnapshot Persistence StateStore Hub.

Module HubSession.

Section Session.
Context `{ED : Ed25519} {S Io : Type} `{ST : HubAuthoritativeStateStore S Io}
  `{SU : !Setup (Io := Io)} `{HI : HashIter} `{B64 : Base64Url} `{RS : RecoverySerializer}
  `{CJ : CheckpointJson HubPersistentState}.

Abbreviation H := (M (S := S) HubServiceError).

(** ** Sessions' own state *)

Definition with_pending (s : SessionState) x := mk_session x s.(queue_order) s.(cancel_waiters)
  s.(backend_session_end_waiters) s.(handoff_waiters) s.(session_reauth_requested)
  s.(generation_rollover_requested).
Definition with_queue (s : SessionState) x := mk_session s.(pending) x s.(cancel_waiters)
  s.(backend_session_end_waiters) s.(handoff_waiters) s.(session_reauth_requested)
  s.(generation_rollover_requested).
Definition with_cancel_waiters (s : SessionState) x := mk_session s.(pending) s.(queue_order) x
  s.(backend_session_end_waiters) s.(handoff_waiters) s.(session_reauth_requested)
  s.(generation_rollover_requested).
Definition with_end_waiters (s : SessionState) x := mk_session s.(pending) s.(queue_order)
  s.(cancel_waiters) x s.(handoff_waiters) s.(session_reauth_requested)
  s.(generation_rollover_requested).
Definition with_handoff_waiters (s : SessionState) x := mk_session s.(pending) s.(queue_order)
  s.(cancel_waiters) s.(backend_session_end_waiters) x s.(session_reauth_requested)
  s.(generation_rollover_requested).
Definition with_reauth (s : SessionState) x := mk_session s.(pending) s.(queue_order)
  s.(cancel_waiters) s.(backend_session_end_waiters) s.(handoff_waiters) x
  s.(generation_rollover_requested).
Definition with_rollover (s : SessionState) x := mk_session s.(pending) s.(queue_order)
  s.(cancel_waiters) s.(backend_session_end_waiters) s.(handoff_waiters)
  s.(session_reauth_requested) x.

(** [queue_order.retain(|queued| queued != id)] *)
Definition unqueue (id : string) : H unit :=
  on_session (λ s, with_queue s (filter (λ q, q ≠ id) s.(queue_order))).

(** [if let Some(operation) = pending.remove(id) { operation.reply.send(r) }] *)
Definition answer_pending (id : string) (r : result HubCommandError HubCommandResult) : H unit :=
  s ← the_session;
  match s.(pending) !! id with
  | Some operation =>
      on_session (λ s, with_pending s (delete id s.(pending)));;
      send_reply operation.(reply) (CommandReply r)
  | None => mret tt
  end.

Definition pending_operation (id : string) : H PendingOperation :=
  s ← the_session; ok_or HubServiceError.PendingOperationMissing (s.(pending) !! id).

(** ** Errors for clients *)

Definition command_error_from_execution (e : ExecutionError) : HubCommandError :=
  match e with
  | ExecutionError.OperationReplay => HubCommandError.OperationReplay
  | ExecutionError.BackpressureRejected | ExecutionError.AgentBusy => HubCommandError.Busy
  | ExecutionError.DeviceIndeterminate id => HubCommandError.DeviceIndeterminate id
  | ExecutionError.MutationResumeRequired id => HubCommandError.MutationResumeRequired id
  | ExecutionError.UnknownOperation => HubCommandError.UnknownOperation
  | _ => HubCommandError.Rejected
  end.

Definition semantic_constraint_snapshot_is_current (h : HubInner)
    (expected : option SnapshotIdentity) : bool :=
  match expected with
  | None => true
  | Some expected => bool_decide (h.(semantic_constraint_snapshot) = Some expected)
  end.

(** ** Dispatch *)

Inductive DispatchOutcome := Sent | RejectedDispatch (next : CompletionDecision).

Section Dispatch.
Variable ctx : SessionContext.

(** The locked block of [reject_for_semantic_constraint_snapshot],
    [reject_for_grant_signer] and [cancel_for_shutdown_drain]. *)
Definition cancel_undispatched (id : string) (o : OperationOwner) : H CompletionDecision :=
  now ← unix_time_ms;
  decision ← on_execution HubServiceError.Execution
               (λ c, Controller.request_cancel c id o ctx.(generation) now);
  persist_locked;;
  match decision with
  | CancellationDecision.CancelledBeforeDispatch next => mret next
  | CancellationDecision.AlreadyTerminal _ => mret CompletionDecision.Idle
  | CancellationDecision.SendCancellation _ => fail HubServiceError.StateBusy
  end.

Definition reject_before_dispatch (id : string) (o : OperationOwner) (answer : HubCommandError)
    : H DispatchOutcome :=
  next ← cancel_undispatched id o;
  answer_pending id (Err answer);;
  mret (RejectedDispatch next).

Definition reject_for_semantic_constraint_snapshot (id : string) (o : OperationOwner) :=
  reject_before_dispatch id o HubCommandError.SemanticConstraintSnapshotStale.
Definition reject_for_grant_signer (id : string) (o : OperationOwner) :=
  reject_before_dispatch id o HubCommandError.GrantSigningUnavailable.
Definition cancel_for_shutdown_drain (id : string) (o : OperationOwner) :=
  reject_before_dispatch id o HubCommandError.CancelledBeforeDispatch.

(** The locked block of [dispatch_operation]: [Dispatched] is durable before any
    byte is on the network. *)
Definition commit_dispatch (id : string) (o : OperationOwner)
    (binding : option OperationDispatchBinding) : H unit :=
  now ← unix_time_ms;
  on_execution HubServiceError.Execution
    (λ c, Controller.mark_dispatched_with_binding c id o ctx.(generation) binding now);;
  persist_locked;;
  on_hub (on_tickets (hold_command id)).

Definition commit_hub_pre_enqueue_non_delivery (id : string) (o : OperationOwner)
    (binding : OperationDispatchBinding) (evidence : ExecutionEvidence) : H CompletionDecision :=
  now ← unix_time_ms;
  c ← the_execution;
  let '(candidate, r) := Controller.resolve_hub_pre_enqueue_non_delivery c id o ctx.(generation)
                           binding evidence now in
  next ← lift HubServiceError.Execution r;
  persist_execution_candidate_locked candidate;;
  mret next.1.

Context `{WJ : WireJson}.

Definition dispatch_operation (id : string) : H DispatchOutcome :=
  operation ← pending_operation id;
  let o := operation.(owner) in
  h ← the_hub;
  if h.(draining) then cancel_for_shutdown_drain id o else
  let envelope := CommandEnvelope.mk CONTROL_SCHEMA_VERSION device_id ctx.(generation)
                    ctx.(capability_revision) id operation.(command) in
  session_now ← session_time_ms;
  n ← next_tick;
  match env.(env_sign_grant) n device_id (capability operation.(command))
          (session_now - GRANT_ISSUED_AT_SAFETY_MS)%N DEFAULT_GRANT_TTL_MS with
  | None => reject_for_grant_signer id o
  | Some grant =>
      binding ← (if is_read_only operation.(command) then mret None
                 else b ← lift HubServiceError.Execution
                            (new_binding ctx.(capability_revision)
                               grant.(GrantToken.payload).(GrantPayload.grant_id));
                      mret (Some b));
      remote ← lift HubServiceError.Transport
                 (Transport.remote_command_with_handoff ctx.(hello) ctx.(challenge)
                    material.(hub_identity) envelope grant operation.(handoff));
      h ← the_hub;
      if h.(draining) then cancel_for_shutdown_drain id o else
      if negb (semantic_constraint_snapshot_is_current h operation.(expected_snapshot))
      then reject_for_semantic_constraint_snapshot id o else
      commit_dispatch id o binding;;
      operation ← pending_operation id;
      on_session (λ s, with_pending s
        (<[id := mk_pending operation.(owner) operation.(command) operation.(expected_snapshot)
                   operation.(handoff) (Some envelope) operation.(reply)]> s.(pending)));;
      delivered ← send_command_hub id remote;
      match delivered with
      | Ok _ => mret Sent
      | Err failure =>
          binding ← ok_or (into_service_error failure) binding;
          next ← commit_hub_pre_enqueue_non_delivery id o binding (send_evidence failure);
          answer_pending id (Err HubCommandError.ConfirmedNotExecuted);;
          if closes_session failure then fail HubServiceError.OutboundClosed
          else mret (RejectedDispatch next)
      end
  end.

(** The loop of [dispatch_next]. Every rejected operation leaves [pending], so one
    unit of fuel more than there are pending operations is enough
    ([dispatch_loop_enough]). *)
Fixpoint dispatch_loop (fuel : nat) (next : CompletionDecision) : H unit :=
  match fuel, next with
  | O, _ | _, CompletionDecision.Idle => mret tt
  | Datatypes.S fuel, CompletionDecision.StartNext operation =>
      let id := operation.(OperationRef.operation_id) in
      unqueue id;;
      outcome ← dispatch_operation id;
      match outcome with
      | Sent => mret tt
      | RejectedDispatch following => dispatch_loop fuel following
      end
  end.

Definition dispatch_next (next : CompletionDecision) : H unit :=
  s ← the_session;
  dispatch_loop (Datatypes.S (size s.(pending))) next.

(** ** Recovery challenges *)

Context `{SHA : Sha256}.

(** What the local user has to decide about, as a quarantine. *)
Definition recovery_subject (c : Controller.AuthoritativeOperationController)
    : option (RecoveryPhase * DesktopQuarantine * option MutationResumeBarrier) :=
  match c.(Controller.quarantines) !! device_id with
  | Some q => Some (RecoveryPhase.QuarantineResolution, q, None)
  | None =>
      let_some b := c.(Controller.mutation_resume_barriers) !! device_id else None ;;
      if (ctx.(generation) <=? b.(MutationResumeBarrier.accepted_generation))%N then None
      else Some (RecoveryPhase.MutationResume,
                 DesktopQuarantine.mk b.(MutationResumeBarrier.device_id)
                   b.(MutationResumeBarrier.source_operation_id)
                   b.(MutationResumeBarrier.source_device_generation) local_hub
                   IndeterminateReason.BackendOutcomeUnproven
                   b.(MutationResumeBarrier.created_at_ms),
                 Some b)
  end.

Definition challenge_still_pending (h : HubInner) (phase : RecoveryPhase) (fingerprint : list N)
    (now_ms : N) : bool :=
  is_some_and (λ p,
    bool_decide (p.(RecoveryChallenge.phase) = phase)
    && (p.(RecoveryChallenge.current_generation) =? ctx.(generation))%N
    && bool_decide (p.(RecoveryChallenge.quarantine_fingerprint) = fingerprint)
    && (now_ms <=? p.(RecoveryChallenge.expires_at_ms))%N)
    h.(recovery_runtime).(pending_challenge).

Definition maybe_send_recovery_challenge : H unit :=
  match recovery_verifier with
  | None => mret tt
  | Some _ =>
      c ← the_execution;
      match recovery_subject c with
      | None => mret tt
      | Some (phase, quarantine_like, barrier) =>
          now ← session_time_ms;
          let fingerprint := match barrier with
                             | Some b => Recovery.mutation_resume_barrier_fingerprint b
                             | None => Recovery.quarantine_fingerprint quarantine_like
                             end in
          h ← the_hub;
          if challenge_still_pending h phase fingerprint now then mret tt else
          n ← next_tick;
          let nonce := default [] (head (env.(env_random) n)) in
          challenge ← lift HubServiceError.OnlineRecovery
            match barrier with
            | Some b => Recovery.build_mutation_resume_challenge material.(hub_identity) b
                          ctx.(generation) now nonce
            | None => Recovery.build_recovery_challenge material.(hub_identity) quarantine_like
                        ctx.(generation) now nonce
            end;
          on_hub (λ h, set_runtime h
            (mk_runtime (Some challenge) None (Some (phase, fingerprint))));;
          send_hub (HubToAgent.RecoveryChallenge challenge)
      end
  end.

(** ** Results *)

Definition stream_kind (stream : ProcessOutputStream) : EphemeralDataKind :=
  match stream with
  | ProcessOutputStream.Stdout => EphemeralDataKind.ProcessStdout
  | ProcessOutputStream.Stderr => EphemeralDataKind.ProcessStderr
  end.

(** One round of the loop of [publicize_process_output_refs]. *)
Definition publicize_stream (o : OperationOwner) (id : string) (stream : ProcessOutputStream)
    (now_ms : N) (locator : option AgentProcessOutputLocator) : H (option ProcessOutputRef) :=
  match locator with
  | None => mret None
  | Some l =>
      let size := l.(AgentProcessOutputLocator.retained_bytes) in
      if (size =? 0)%N || (DEFAULT_MAX_RETAINED_OUTPUT_BYTES_PER_STREAM <? size)%N
      then fail HubServiceError.UnexpectedResultType else
      n ← next_tick;
      h ← the_hub;
      let '(refs, minted) := HubRefs.mint h.(ephemeral_refs) o device_id ctx.(generation)
            ctx.(capability_revision) (Some id) (stream_kind stream)
            l.(AgentProcessOutputLocator.locator) size now_ms (env.(env_random) n) in
      on_hub (λ h, set_refs h refs);;
      match minted with
      | Ok ref => mret (Some (ProcessOutputRef.mk ref size l.(AgentProcessOutputLocator.complete)))
      | Err HubEphemeralRefError.RefLimitExceeded
      | Err HubEphemeralRefError.OwnerRefLimitExceeded
      | Err HubEphemeralRefError.OwnerByteLimitExceeded
      | Err HubEphemeralRefError.IdentifierCollision => mret None
      | Err _ => fail HubServiceError.UnexpectedResultType
      end
  end.

Definition public_refs (o : OperationOwner) (id : string) (output : ProcessOutput)
    (incoming : option ProcessOutputRefs) (locators : option AgentProcessOutputLocators)
    : H (option ProcessOutputRefs) :=
  match incoming with
  | Some _ => fail HubServiceError.UnexpectedResultType
  | None =>
      match locators with
      | None => mret None
      | Some l =>
          let out := l.(AgentProcessOutputLocators.stdout) in
          let err := l.(AgentProcessOutputLocators.stderr) in
          if (negb (opt_none out) && negb output.(ProcessOutput.stdout_truncated))
             || (negb (opt_none err) && negb output.(ProcessOutput.stderr_truncated))
          then fail HubServiceError.UnexpectedResultType else
          now ← unix_time_ms;
          stdout ← publicize_stream o id ProcessOutputStream.Stdout now out;
          stderr ← publicize_stream o id ProcessOutputStream.Stderr now err;
          mret (if opt_none stdout && opt_none stderr then None
                else Some (ProcessOutputRefs.mk stdout stderr))
      end
  end.

Definition publicize_process_output_refs (o : OperationOwner) (id : string) (r : DeviceResult)
    : H DeviceResult :=
  match r with
  | DeviceResult.Process output refs locators =>
      refs ← public_refs o id output refs locators;
      mret (DeviceResult.Process output refs None)
  | DeviceResult.Shell output refs locators =>
      refs ← public_refs o id output refs locators;
      mret (DeviceResult.Shell output refs None)
  | other => mret other
  end.

Definition recoverable_result_for (c : DeviceCapability) (r : DeviceResult)
    : option RecoverableOperationResult :=
  let effectful := if bool_decide (class c = CapabilityClass.Observe) then None
                   else Some RecoverableOperationResult.EffectfulStatus in
  match c, r with
  | DeviceCapability.ExecuteProcess, DeviceResult.Process output _ _ =>
      Some (RecoverableOperationResult.Process output)
  | DeviceCapability.Shell, DeviceResult.Shell output _ _ =>
      Some (RecoverableOperationResult.Shell output)
  | DeviceCapability.ExecuteProcess, DeviceResult.Error code
  | DeviceCapability.Shell, DeviceResult.Error code =>
      Some (RecoverableOperationResult.Error code)
  | _, _ => effectful
  end.

(** The locked block of [handle_result] that settles an operation. *)
Definition commit_settlement (id : string) (o : OperationOwner) (terminal : HubOperationState)
    (evidence : ExecutionEvidence) (recoverable : option RecoverableOperationResult)
    : H (CompletionDecision * ExecutionReceipt) :=
  now ← unix_time_ms;
  settlement ← on_execution HubServiceError.Execution
                 (λ c, Controller.finalize c id o ctx.(generation) terminal evidence now);
  match recoverable with
  | Some result =>
      on_execution HubServiceError.Execution
        (λ c, Controller.attach_recoverable_result c id o ctx.(generation) result)
  | None => mret tt
  end;;
  persist_locked;;
  on_hub (on_tickets (hold_receipt settlement.2));;
  mret settlement.

Definition commit_read_interrupted (id : string) : H CompletionDecision :=
  now ← unix_time_ms;
  settlement ← on_execution HubServiceError.Execution
                 (λ c, Controller.mark_recovery_read_interrupted c id now);
  persist_locked;;
  mret settlement.1.

(** The pending operations that the loss of [id] cancelled. *)
Definition cancelled_with (id : string) (s : SessionState)
    (c : Controller.AuthoritativeOperationController) : list string :=
  filter (λ other, other ≠ id ∧ Controller.state_of c other = Some Cancelled)
    (hash_iter s.(pending)).*1.

Definition lose_outcome (id : string) (o : OperationOwner) (recovery_read : bool)
    (reason : IndeterminateReason) : H unit :=
  now ← unix_time_ms;
  if recovery_read then
    on_execution HubServiceError.Execution
      (λ c, Controller.mark_recovery_read_interrupted c id now);; mret tt
  else
    on_execution HubServiceError.Execution
      (λ c, Controller.mark_indeterminate_owned c id o ctx.(generation) reason now);; mret tt.

(** The end of the locked blocks: the operations that were cancelled, committed. *)
Definition commit_cancelled_with (id : string) : H (list string) :=
  s ← the_session;
  c ← the_execution;
  let cancelled := cancelled_with id s c in
  persist_locked;;
  mret cancelled.

Definition commit_outcome_unknown (id : string) (o : OperationOwner) (reason : IndeterminateReason)
    : H (list string) :=
  lose_outcome id o false reason;;
  commit_cancelled_with id.

Fixpoint answer_cancelled (ids : list string) : H unit :=
  match ids with
  | [] => mret tt
  | id :: ids =>
      unqueue id;;
      answer_pending id (Err HubCommandError.CancelledBeforeDispatch);;
      answer_cancelled ids
  end.

Definition outcome_unknown (r : DeviceResult) : bool :=
  match r with
  | DeviceResult.Error DeviceErrorCode.BackendOutcomeIndeterminate => true
  | _ => false
  end.

(** The part of [handle_result] for a result that proves no outcome. *)
Definition handle_unknown_outcome (id : string) (o : OperationOwner) : H unit :=
  c ← the_execution;
  if Controller.is_recovery_evidence_read c id then
    next ← commit_read_interrupted id;
    answer_pending id (Err (HubCommandError.Remote DeviceErrorCode.BackendOutcomeIndeterminate));;
    dispatch_next next
  else
    cancelled ← commit_outcome_unknown id o IndeterminateReason.BackendOutcomeUnproven;
    answer_cancelled cancelled;;
    answer_pending id (Err (HubCommandError.DeviceIndeterminate id));;
    maybe_send_recovery_challenge.

Definition handle_result (remote : RemoteResult) : H unit :=
  registry ← the_registry;
  lift HubServiceError.Transport
    (Transport.verify_remote_result ctx.(hello) ctx.(challenge) registry remote);;
  let r := remote.(RemoteResult.device_result) in
  let id := r.(CommandResultEnvelope.operation_id) in
  operation ← pending_operation id;
  envelope ← ok_or HubServiceError.PendingOperationMissing operation.(envelope);
  lift HubServiceError.Control (validate_command_result envelope r);;
  let o := operation.(owner) in
  let cap := capability operation.(command) in
  device_result ← publicize_process_output_refs o id r.(CommandResultEnvelope.device_result);
  if outcome_unknown device_result then handle_unknown_outcome id o else
  verdict ← ok_or HubServiceError.UnexpectedResultType
              (terminal_evidence_for_device_result device_result);
  settlement ← commit_settlement id o verdict.1 verdict.2 (recoverable_result_for cap device_result);
  answer_pending id
    match device_result with
    | DeviceResult.Error code => Err (HubCommandError.Remote code)
    | result => Ok (mk_command_result id result settlement.2)
    end;;
  dispatch_next settlement.1.

(** ** Acknowledgements that leave the outcome unknown *)

Definition settled_or_unknown (s : option HubOperationState) : bool :=
  match s with
  | Some (Indeterminate | Completed | Failed | Cancelled) => true
  | _ => false
  end.

Definition in_flight (s : option HubOperationState) : bool :=
  match s with Some (Dispatched | CancelRequested) => true | _ => false end.

Definition unknown_answer (recovery_read : bool) (id : string)
    : result HubCommandError HubCommandResult :=
  if recovery_read
  then Err (HubCommandError.Remote DeviceErrorCode.BackendOutcomeIndeterminate)
  else Err (HubCommandError.DeviceIndeterminate id).

Definition handle_indeterminate_ack (ack : RemoteIndeterminateAck) : H unit :=
  if negb (ack.(RemoteIndeterminateAck.device_generation) =? ctx.(generation))%N
  then fail HubServiceError.StaleSession else
  registry ← the_registry;
  lift HubServiceError.Transport
    (Transport.verify_remote_indeterminate_ack ctx.(hello) ctx.(challenge) registry ack);;
  let id := ack.(RemoteIndeterminateAck.operation_id) in
  let reason := match ack.(RemoteIndeterminateAck.cause) with
                | RemoteIndeterminateCause.BackendTimedOut => IndeterminateReason.BackendTimedOut
                end in
  c ← the_execution;
  if settled_or_unknown (Controller.state_of c id) then mret tt else
  operation ← pending_operation id;
  c ← the_execution;
  let recovery_read := Controller.is_recovery_evidence_read c id in
  cancelled ← (c ← the_execution;
               if negb (in_flight (Controller.state_of c id)) then fail HubServiceError.StateBusy
               else lose_outcome id operation.(owner) recovery_read reason;;
                    commit_cancelled_with id);
  answer_cancelled cancelled;;
  unqueue id;;
  answer_pending id (unknown_answer recovery_read id);;
  if recovery_read then mret tt else maybe_send_recovery_challenge.

(** [if let Some(waiter) = cancel_waiters.remove(id) { waiter.send(Ok(disposition)) }] *)
Definition answer_cancel_waiter (id : string) (d : CancellationDisposition) : H unit :=
  s ← the_session;
  match s.(cancel_waiters) !! id with
  | Some waiter =>
      on_session (λ s, with_cancel_waiters s (delete id s.(cancel_waiters)));;
      send_reply waiter (CancelReply (Ok d))
  | None => mret tt
  end.

Definition handle_unproven_cancellation (id : string) : H unit :=
  operation ← pending_operation id;
  c ← the_execution;
  let recovery_read := Controller.is_recovery_evidence_read c id in
  cancelled ← (c ← the_execution;
               (if in_flight (Controller.state_of c id)
                then lose_outcome id operation.(owner) recovery_read
                       IndeterminateReason.CancellationUnproven
                else mret tt);;
               commit_cancelled_with id);
  answer_cancelled cancelled;;
  answer_pending id (unknown_answer recovery_read id);;
  if recovery_read then mret tt else maybe_send_recovery_challenge.

Definition handle_cancellation_ack (ack : RemoteCancellationAck) : H unit :=
  if negb (ack.(RemoteCancellationAck.device_generation) =? ctx.(generation))%N
  then fail HubServiceError.StaleSession else
  registry ← the_registry;
  lift HubServiceError.Transport
    (Transport.verify_remote_cancellation_ack ctx.(hello) ctx.(challenge) registry ack);;
  let id := ack.(RemoteCancellationAck.operation_id) in
  let disposition := ack.(RemoteCancellationAck.disposition) in
  let unproven := match disposition with
                  | CancellationDisposition.IndeterminateAfterPropagation => true
                  | _ => false
                  end in
  s ← the_session;
  c ← the_execution;
  if unproven && opt_none (s.(pending) !! id) && settled_or_unknown (Controller.state_of c id)
  then answer_cancel_waiter id disposition else
  (if unproven then handle_unproven_cancellation id else mret tt);;
  answer_cancel_waiter id disposition.

(** ** The report after a reconnect *)

Definition escalates (e : ExecutionError) : bool :=
  match e with
  | ExecutionError.OwnershipFenceMismatch | ExecutionError.InvalidOperation
  | ExecutionError.InvalidTransition => true
  | _ => false
  end.

(** One piece of evidence of the report on the candidate state. *)
Definition reconcile_evidence (c : Controller.AuthoritativeOperationController)
    (t : AgentTerminalEvidence) (now_ms : N) : Controller.outcome unit :=
  let op := t.(AgentTerminalEvidence.operation) in
  let id := op.(OperationRef.operation_id) in
  return_if negb (bool_decide (Controller.state_of c id = Some Indeterminate)) with (c, Ok tt) ;;
  return_if negb (bool_decide (op.(OperationRef.device_id) = device_id))
            || (ctx.(generation) <=? op.(OperationRef.device_generation))%N
    with Controller.mark_reconciliation_operator_required c id ;;
  let '(c, r) := Controller.reconcile_authoritative_terminal c t now_ms in
  match r with
  | Ok _ => (c, Ok tt)
  | Err e => if escalates e then Controller.mark_reconciliation_operator_required c id
             else (c, Err e)
  end.

Fixpoint reconcile_all (c : Controller.AuthoritativeOperationController)
    (l : list AgentTerminalEvidence) (now_ms : N) : Controller.outcome unit :=
  match l with
  | [] => (c, Ok tt)
  | t :: l =>
      let '(c, r) := reconcile_evidence c t now_ms in
      let_ok _ := r else e => (c, Err e) ;;
      reconcile_all c l now_ms
  end.

Fixpoint mark_gaps (c : Controller.AuthoritativeOperationController)
    (l : list QuarantineInspectionSnapshot) : Controller.outcome unit :=
  match l with
  | [] => (c, Ok tt)
  | i :: l =>
      let op := i.(QuarantineInspectionSnapshot.operation) in
      return_if negb (bool_decide (op.(OperationRef.device_id) = device_id))
                || negb (bool_decide (i.(QuarantineInspectionSnapshot.reconciliation_status)
                                      = ReconciliationStatus.AutoReconciling))
        with mark_gaps c l ;;
      let '(c, r) := Controller.mark_reconciliation_evidence_gap c op.(OperationRef.operation_id) in
      let_ok _ := r else e => (c, Err e) ;;
      mark_gaps c l
  end.

(** The candidate state that a report leads to. *)
Definition reconciled (c : Controller.AuthoritativeOperationController)
    (l : list AgentTerminalEvidence) (now_ms : N) : Controller.outcome unit :=
  let '(c, r) := reconcile_all c l now_ms in
  let_ok _ := r else e => (c, Err e) ;;
  let_ok remaining := Controller.quarantine_inspections c else e => (c, Err e) ;;
  mark_gaps c remaining.

Definition handle_reconciliation_report (report : RemoteReconciliationReport) : H unit :=
  if negb (report.(RemoteReconciliationReport.reporting_generation) =? ctx.(generation))%N
  then fail HubServiceError.StaleSession else
  now ← unix_time_ms;
  registry ← the_registry;
  lift HubServiceError.Transport
    (Transport.verify_remote_reconciliation_report ctx.(hello) ctx.(challenge) registry report);;
  c ← the_execution;
  let '(candidate, r) := reconciled c report.(RemoteReconciliationReport.terminal_evidence) now in
  lift HubServiceError.Execution r;;
  persist_execution_candidate_locked candidate.

(** ** Recovery authorizations *)

Context `{P : P256} `{WAJ : WebAuthnJson}.

Definition mismatch : HubServiceError :=
  HubServiceError.OnlineRecovery RecoveryError.ChallengeMismatch.

Definition local_user (v : RecoveryVerifierKind) : H OperationOwner :=
  lift HubServiceError.Execution (new_owner "cumg://local-user-recovery" (Recovery.key_id v)).

(** The decision of the local user about a quarantine, on the live state; [true]
    asks for a fresh session. *)
Definition apply_quarantine_decision (v : RecoveryVerifierKind) (a : RecoveryAuthorization)
    (resolved_at_ms : N) : H bool :=
  let id := a.(RecoveryAuthorization.operation_id) in
  let resolve decision :=
    resolver ← local_user v;
    on_execution HubServiceError.Execution
      (λ c, Controller.resolve_indeterminate_by c id resolver decision
              a.(RecoveryAuthorization.evidence) resolved_at_ms);;
    mret false in
  match a.(RecoveryAuthorization.decision) with
  | RecoveryDecision.ConfirmedCompleted => resolve IndeterminateResolution.ConfirmedCompleted
  | RecoveryDecision.ConfirmedNotExecuted => resolve IndeterminateResolution.ConfirmedNotExecuted
  | RecoveryDecision.CurrentStateAccepted =>
      r ← the_registry;
      current ← lift HubServiceError.Control (DeviceRegistry.current_session r device_id);
      if negb (current.(DeviceSession.generation)
               =? a.(RecoveryAuthorization.current_generation))%N
      then fail HubServiceError.StaleSession else
      policy ← ok_or mismatch a.(RecoveryAuthorization.current_state_policy);
      on_execution HubServiceError.Execution
        (λ c, Controller.accept_current_state c id policy a.(RecoveryAuthorization.evidence)
                a.(RecoveryAuthorization.current_generation) resolved_at_ms);;
      mret (bool_decide (policy = RetirementPolicy.AcknowledgedUnknownPointerClickV1))
  | RecoveryDecision.MutationsResumed => fail mismatch
  end.

Definition apply_mutation_resume (a : RecoveryAuthorization) (resolved_at_ms : N) : H bool :=
  if negb (bool_decide (a.(RecoveryAuthorization.decision) = RecoveryDecision.MutationsResumed))
     || negb (opt_none a.(RecoveryAuthorization.current_state_policy))
  then fail mismatch else
  c ← the_execution;
  barrier ← ok_or mismatch (c.(Controller.mutation_resume_barriers) !! device_id);
  if negb (bool_decide (barrier.(MutationResumeBarrier.source_operation_id)
                        = a.(RecoveryAuthorization.operation_id)))
     || negb (barrier.(MutationResumeBarrier.source_device_generation)
              =? a.(RecoveryAuthorization.quarantine_generation))%N
     || negb (bool_decide (Recovery.mutation_resume_barrier_fingerprint barrier
                           = a.(RecoveryAuthorization.quarantine_fingerprint)))
     || (a.(RecoveryAuthorization.current_generation)
         <=? barrier.(MutationResumeBarrier.accepted_generation))%N
  then fail mismatch else
  on_execution HubServiceError.Execution
    (λ c, Controller.resume_mutations c device_id a.(RecoveryAuthorization.operation_id)
            RetirementAuthority.LocalUserPresence a.(RecoveryAuthorization.current_generation)
            a.(RecoveryAuthorization.evidence) resolved_at_ms);;
  mret false.

Definition apply_authorization (v : RecoveryVerifierKind) (a : RecoveryAuthorization)
    (resolved_at_ms : N) : H bool :=
  match a.(RecoveryAuthorization.phase) with
  | RecoveryPhase.QuarantineResolution =>
      c ← the_execution;
      q ← ok_or mismatch (c.(Controller.quarantines) !! device_id);
      if negb (bool_decide (q.(DesktopQuarantine.operation_id)
                            = a.(RecoveryAuthorization.operation_id)))
         || negb (q.(DesktopQuarantine.device_generation)
                  =? a.(RecoveryAuthorization.quarantine_generation))%N
         || negb (bool_decide (Recovery.quarantine_fingerprint q
                               = a.(RecoveryAuthorization.quarantine_fingerprint)))
      then fail mismatch else apply_quarantine_decision v a resolved_at_ms
  | RecoveryPhase.MutationResume => apply_mutation_resume a resolved_at_ms
  end.

(** A change that is rolled back to a restart of the state before it when it cannot
    be committed: the locked blocks of [handle_recovery_authorization] and
    [resolve_indeterminate]. *)
Definition commit_or_restart {E A} (of_execution : ExecutionError → E)
    (of_service : HubServiceError → E) (change : M (S := S) E A) : M (S := S) E A :=
  c ← the_execution;
  rollback ← match snapshot_controller c with Some s => mret s | None => panic end;
  a ← change;
  r ← attempt persist_locked;
  match r with
  | Ok _ => mret a
  | Err e =>
      restored ← lift of_execution (restore_controller (admission_limits config) rollback);
      on_hub (λ h, set_execution h restored);;
      fail (of_service e)
  end.

Definition disposition (force_reconnect : bool) : RecoverySessionDisposition :=
  if force_reconnect then Reconnect else Continue.

(** The disposition after a repeated authorization *)
Definition duplicate_disposition (a : RecoveryAuthorization) : RecoverySessionDisposition :=
  if bool_decide (a.(RecoveryAuthorization.phase) = RecoveryPhase.QuarantineResolution)
     && bool_decide (a.(RecoveryAuthorization.decision) = RecoveryDecision.CurrentStateAccepted)
     && bool_decide (a.(RecoveryAuthorization.current_state_policy)
                     = Some RetirementPolicy.AcknowledgedUnknownPointerClickV1)
  then Reconnect else Continue.

Definition accept_authorization (v : RecoveryVerifierKind) (pending : option RecoveryChallenge)
    (a : RecoveryAuthorization) : H RecoverySessionDisposition :=
  pending ← ok_or mismatch pending;
  now ← session_time_ms;
  lift HubServiceError.OnlineRecovery (Recovery.verify_authorization v pending a now);;
  if negb (a.(RecoveryAuthorization.current_generation) =? ctx.(generation))%N
  then fail HubServiceError.StaleSession else
  resolved_at ← session_time_ms;
  force_reconnect ← commit_or_restart HubServiceError.Execution (λ e, e)
                      (apply_authorization v a resolved_at);
  ack ← lift HubServiceError.OnlineRecovery
          (Recovery.build_recovery_resolved material.(hub_identity) a resolved_at);
  on_hub (λ h, set_runtime h (mk_runtime None (Some (a, ack))
                                h.(recovery_runtime).(last_warned_subject)));;
  send_hub (HubToAgent.RecoveryResolved ack);;
  mret (disposition force_reconnect).

Definition handle_recovery_authorization (a : RecoveryAuthorization)
    : H RecoverySessionDisposition :=
  v ← ok_or (HubServiceError.OnlineRecovery RecoveryError.KeyUnavailable) recovery_verifier;
  h ← the_hub;
  let runtime := h.(recovery_runtime) in
  match runtime.(last_resolved) with
  | Some (accepted, ack) =>
      if bool_decide (accepted.(RecoveryAuthorization.request_id)
                      = a.(RecoveryAuthorization.request_id)) then
        if negb (bool_decide (accepted = a)) then fail mismatch else
        send_hub (HubToAgent.RecoveryResolved ack);;
        mret (duplicate_disposition accepted)
      else accept_authorization v runtime.(pending_challenge) a
  | None => accept_authorization v runtime.(pending_challenge) a
  end.

(** ** The end of a session *)

Definition ensure_current_generation : H unit :=
  r ← the_registry;
  current ← lift HubServiceError.Control (DeviceRegistry.current_session r device_id);
  if (current.(DeviceSession.generation) =? ctx.(generation))%N then mret tt
  else fail HubServiceError.StaleSession.

(** What the end of its session does to an operation. *)
Definition settle_operation (r : SafetyOperation) : H unit :=
  let id := Ledger.id r in
  c ← the_execution;
  match Controller.state_of c id with
  | Some (Dispatched | CancelRequested) =>
      now ← unix_time_ms;
      on_execution HubServiceError.Execution (λ c, Controller.mark_connection_lost c id now);;
      mret tt
  | Some (Queued | ActiveNotDispatched) =>
      now ← unix_time_ms;
      on_execution HubServiceError.Execution
        (λ c, Controller.request_cancel c id r.(SafetyOperation.owner) ctx.(generation) now);;
      mret tt
  | _ => mret tt
  end.

Fixpoint settle_operations (l : list SafetyOperation) : H unit :=
  match l with
  | [] => mret tt
  | r :: l => settle_operation r;; settle_operations l
  end.

Definition is_live_session (h : HubInner) : bool :=
  is_some_and (λ live, (live.1 =? ctx.(generation))%N) h.(live).

Definition cleanup_session : H unit :=
  h ← the_hub;
  let is_current := is_live_session h in
  (if is_current then on_hub (λ h, set_live h None) else mret tt);;
  c ← the_execution;
  snapshot ← match snapshot_controller c with Some s => mret s | None => panic end;
  settle_operations
    (filter (λ r, Ledger.generation r = ctx.(generation))
       snapshot.(AuthoritativeSafetySnapshot.operations));;
  r ← the_registry;
  (if is_current && match DeviceRegistry.current_session r device_id with
                    | Ok current => (current.(DeviceSession.generation) =? ctx.(generation))%N
                    | Err _ => false
                    end
   then on_hub (λ h, set_registry h (DeviceRegistry.disconnect r device_id).1);;
        lift HubServiceError.Control (DeviceRegistry.disconnect r device_id).2
   else mret tt);;
  persist_locked.

(** ** Requests of clients *)

Definition fence_handoff_authority_change : H unit :=
  h ← the_hub;
  if h.(writer_fenced) then fail HubServiceError.StateBusy else persist_locked.

(** The locked block that admits an operation; an execution error is for the
    client. *)
Definition commit_admission (operation : OperationRef) (o : OperationOwner)
    (cap : DeviceCapability) (metadata : OperationAdmissionMetadata)
    : H (result HubCommandError AdmissionDecision) :=
  now ← unix_time_ms;
  r ← attempt (on_execution (λ e, e)
        (λ c, Controller.prepare_with_metadata c operation o cap metadata now));
  match r with
  | Ok decision => persist_locked;; mret (Ok decision)
  | Err e => mret (Err (command_error_from_execution e))
  end.

Definition handle_execute (id : string) (o : OperationOwner) (cmd : DeviceCommand)
    (metadata : OperationAdmissionMetadata) (authority : option RemoteHandoffAuthority)
    (channel : N) : H unit :=
  h ← the_hub;
  s ← the_session;
  if h.(draining) || s.(session_reauth_requested) || s.(generation_rollover_requested)
  then send_reply channel (CommandReply (Err HubCommandError.Busy)) else
  if bool_decide (is_Some (s.(pending) !! id))
  then send_reply channel (CommandReply (Err HubCommandError.OperationReplay)) else
  let operation := OperationRef.mk device_id ctx.(generation) id in
  let expected := from_evidence <$> metadata.(OperationAdmissionMetadata.semantic_constraint) in
  admitted ← commit_admission operation o (capability cmd) metadata;
  match admitted with
  | Err e => send_reply channel (CommandReply (Err e))
  | Ok decision =>
      on_session (λ s, with_pending s
        (<[id := mk_pending o cmd expected authority None channel]> s.(pending)));;
      match decision with
      | AdmissionDecision.StartNow started =>
          outcome ← dispatch_operation started.(OperationRef.operation_id);
          match outcome with
          | Sent => mret tt
          | RejectedDispatch next => dispatch_next next
          end
      | AdmissionDecision.Queued _ =>
          on_session (λ s, with_queue s (s.(queue_order) ++ [id]))
      end
  end.

(** The locked block that requests a cancellation *)
Definition commit_cancellation (id : string) (o : OperationOwner)
    : H (result HubCommandError CancellationDecision) :=
  now ← unix_time_ms;
  r ← attempt (on_execution (λ e, e)
        (λ c, Controller.request_cancel c id o ctx.(generation) now));
  match r with
  | Ok decision => persist_locked;; mret (Ok decision)
  | Err e => mret (Err (command_error_from_execution e))
  end.

Definition handle_cancel (id : string) (o : OperationOwner) (channel : N) : H unit :=
  decision ← commit_cancellation id o;
  match decision with
  | Err e => send_reply channel (CancelReply (Err e))
  | Ok (CancellationDecision.CancelledBeforeDispatch next) =>
      answer_pending id (Err HubCommandError.CancelledBeforeDispatch);;
      unqueue id;;
      send_reply channel (CancelReply (Ok CancellationDisposition.CancelledBeforeExecution));;
      dispatch_next next
  | Ok (CancellationDecision.SendCancellation operation) =>
      let cancelled := operation.(OperationRef.operation_id) in
      remote ← lift HubServiceError.Transport
                 (Transport.remote_cancel ctx.(hello) ctx.(challenge) material.(hub_identity)
                    device_id ctx.(generation) cancelled);
      on_session (λ s, with_cancel_waiters s (<[cancelled := channel]> s.(cancel_waiters)));;
      send_hub (HubToAgent.Cancel remote)
  | Ok (CancellationDecision.AlreadyTerminal _) =>
      send_reply channel (CancelReply (Ok CancellationDisposition.AlreadyTerminal))
  end.

Definition handle_handoff (request_id : string) (request : RemoteHandoffRequestKind)
    (channel : N) : H unit :=
  s ← the_session;
  if bool_decide (is_Some (s.(handoff_waiters) !! request_id))
  then send_reply channel (HandoffReply (Err HubCommandError.Rejected)) else
  remote ← lift HubServiceError.Transport
             (Transport.remote_handoff_request ctx.(hello) ctx.(challenge)
                material.(hub_identity) device_id ctx.(generation) request_id request);
  fence_handoff_authority_change;;
  on_session (λ s, with_handoff_waiters s (<[request_id := channel]> s.(handoff_waiters)));;
  send_hub (HubToAgent.HandoffRequest remote).

Definition handle_end_backend_session (context_id : string) (channel : N) : H unit :=
  s ← the_session;
  if bool_decide (is_Some (s.(backend_session_end_waiters) !! context_id))
  then send_reply channel (EndReply (Err HubCommandError.Rejected)) else
  remote ← lift HubServiceError.Transport
             (Transport.backend_session_end ctx.(hello) ctx.(challenge)
                material.(hub_identity) device_id ctx.(generation) context_id);
  on_session (λ s, with_end_waiters s
    (<[context_id := channel]> s.(backend_session_end_waiters)));;
  send_hub (HubToAgent.BackendSessionEnd remote).

Definition handle_request (r : HubRequest) : H unit :=
  match r with
  | Execute id o cmd metadata authority channel =>
      handle_execute id o cmd metadata authority channel
  | Handoff request_id request channel => handle_handoff request_id request channel
  | Cancel id o channel => handle_cancel id o channel
  | EndBackendSession context_id channel => handle_end_backend_session context_id channel
  end.

(** ** Messages of the Agent *)

Definition unexpected_agent_message {A} (expected : string) (m : AgentToHub) : H A :=
  fail (HubServiceError.UnexpectedMessage expected (Transport.agent_message_kind m)).

Definition handle_heartbeat (heartbeat : AgentHeartbeat) : H unit :=
  r ← the_registry;
  lift HubServiceError.Transport
    (Transport.verify_agent_heartbeat ctx.(hello) ctx.(challenge) r heartbeat);;
  if negb (heartbeat.(AgentHeartbeat.device_generation) =? ctx.(generation))%N
  then fail HubServiceError.StaleSession else
  now ← session_time_ms;
  ack ← lift HubServiceError.Transport
          (Transport.heartbeat_ack ctx.(hello) ctx.(challenge) material.(hub_identity) heartbeat now);
  send_hub (HubToAgent.HeartbeatAck ack);;
  maybe_send_recovery_challenge.

Definition handle_backend_session_ended (ack : RemoteBackendSessionEnded) : H unit :=
  r ← the_registry;
  lift HubServiceError.Transport
    (Transport.verify_remote_backend_session_ended ctx.(hello) ctx.(challenge) r ack);;
  if negb (ack.(RemoteBackendSessionEnded.device_generation) =? ctx.(generation))%N
  then fail HubServiceError.StaleSession else
  s ← the_session;
  let id := ack.(RemoteBackendSessionEnded.context_id) in
  channel ← ok_or (HubServiceError.UnexpectedMessage "backend_session_end_ack"
                     "unmatched_backend_session_end_ack")
              (s.(backend_session_end_waiters) !! id);
  on_session (λ s, with_end_waiters s (delete id s.(backend_session_end_waiters)));;
  send_reply channel (EndReply (Ok ack.(RemoteBackendSessionEnded.ended))).

Definition handle_handoff_response (response : RemoteHandoffResponse) : H unit :=
  r ← the_registry;
  lift HubServiceError.Transport
    (Transport.verify_remote_handoff_response ctx.(hello) ctx.(challenge) r response);;
  if negb (response.(RemoteHandoffResponse.device_generation) =? ctx.(generation))%N
  then fail HubServiceError.StaleSession else
  s ← the_session;
  let id := response.(RemoteHandoffResponse.request_id) in
  channel ← ok_or (HubServiceError.UnexpectedMessage "handoff_response"
                     "unmatched_handoff_response") (s.(handoff_waiters) !! id);
  on_session (λ s, with_handoff_waiters s (delete id s.(handoff_waiters)));;
  send_reply channel (HandoffReply (Ok response.(RemoteHandoffResponse.response))).

(** [true] when the session goes on *)
Definition handle_message (m : AgentToHub) : H bool :=
  match m with
  | AgentToHub.Heartbeat heartbeat => handle_heartbeat heartbeat;; mret true
  | AgentToHub.Result r => handle_result r;; mret true
  | AgentToHub.ReconciliationReport report => handle_reconciliation_report report;; mret true
  | AgentToHub.BackendSessionEnded ack => handle_backend_session_ended ack;; mret true
  | AgentToHub.RecoveryAuthorization a =>
      d ← handle_recovery_authorization a;
      mret match d with Continue => true | Reconnect => false end
  | AgentToHub.HandoffResponse response => handle_handoff_response response;; mret true
  | AgentToHub.IndeterminateAck ack => handle_indeterminate_ack ack;; mret true
  | AgentToHub.CancellationAck ack => handle_cancellation_ack ack;; mret true
  | AgentToHub.Hello _ | AgentToHub.Proof _ => unexpected_agent_message "session_message" m
  end.

(** ** The loop of a session *)

(** What [tokio::select!] wakes up for. A frame that does not decode is [None]. *)
Inductive SessionEvent :=
| ReauthDeadline | SessionHardDeadline | HeartbeatDeadline | Superseded | RequestsClosed
| Request (r : HubRequest)
| Frame (m : option AgentToHub)
| StreamFailed | StreamClosed.

Definition no_waiters (s : SessionState) : bool :=
  bool_decide (s.(pending) = ∅) && bool_decide (s.(cancel_waiters) = ∅)
  && bool_decide (s.(backend_session_end_waiters) = ∅) && bool_decide (s.(handoff_waiters) = ∅).

(** The checks at the head of the loop: [true] when the session goes on. *)
Definition before_event : H bool :=
  h ← the_hub;
  (if (config.(checkpoint_generation_rollover_bytes) <=? h.(last_checkpoint_bytes))%N
   then on_session (λ s, with_rollover s true) else mret tt);;
  s ← the_session;
  mret (negb ((s.(session_reauth_requested) && no_waiters s)
              || (s.(generation_rollover_requested) && bool_decide (s.(pending) = ∅)))).

Definition handle_event (e : SessionEvent) : H bool :=
  match e with
  | ReauthDeadline => on_session (λ s, with_reauth s true);; mret true
  | SessionHardDeadline | Superseded | RequestsClosed | StreamClosed => mret false
  | HeartbeatDeadline => fail HubServiceError.HeartbeatTimeout
  | Request r => handle_request r;; mret true
  | Frame m =>
      ensure_current_generation;;
      m ← ok_or HubServiceError.Carrier m;
      handle_message m
  | StreamFailed => fail HubServiceError.Status
  end.

(** The loop on the events of a session; [false] while it still runs. *)
Fixpoint run_session_loop (l : list SessionEvent) : H bool :=
  goes_on ← before_event;
  if (goes_on : bool) then
    match l with
    | [] => mret false
    | e :: l =>
        goes_on ← handle_event e;
        if (goes_on : bool) then run_session_loop l else mret true
    end
  else mret true.
End Dispatch.

(** ** A session *)

Context `{WJ : WireJson} `{SHA : Sha256} `{P : P256} `{WAJ : WebAuthnJson}.

(** The locked block of [run_session]: the new generation is durable before the Agent
    is accepted. *)
Definition commit_connection (h : AgentHello) (c : HubChallenge) (proof : AgentProof)
    : H DeviceSession :=
  r ← the_registry;
  lift HubServiceError.Transport (Transport.verify_agent_proof r h c proof);;
  let '(r, connected) := DeviceRegistry.connect r device_id h.(AgentHello.capabilities) in
  on_hub (λ h, set_registry h r);;
  session ← lift HubServiceError.Control connected;
  on_execution HubServiceError.Execution
    (λ c, Controller.prune_terminal c device_id session.(DeviceSession.generation));;
  persist_locked;;
  on_hub (on_tickets (hold_session session.(DeviceSession.generation)));;
  mret session.

(** The handshake, from the first messages of the Agent. *)
Definition open_session (first second : result HubServiceError AgentToHub) : H SessionContext :=
  first ← lift (λ e, e) first;
  match first with
  | AgentToHub.Hello hello =>
      h ← the_hub;
      if h.(writer_fenced) || h.(draining) then fail HubServiceError.StateBusy else
      if negb (bool_decide (hello.(AgentHello.device_id) = device_id))
      then fail HubServiceError.WrongDevice else
      n ← next_tick;
      challenge ← lift HubServiceError.Transport
                    (Transport.hub_challenge material.(hub_identity) hello
                       (default [] (head (env.(env_random) n))));
      send_hub (HubToAgent.Challenge challenge);;
      second ← lift (λ e, e) second;
      match second with
      | AgentToHub.Proof proof =>
          session ← commit_connection hello challenge proof;
          accepted_at ← unix_time_ms;
          let generation := session.(DeviceSession.generation) in
          let revision := session.(DeviceSession.capabilities).(CapabilityAdvertisement.revision) in
          accepted ← lift HubServiceError.Transport
                       (Transport.accept_session material.(hub_identity) hello challenge
                          generation revision accepted_at);
          on_hub (on_tickets (hand_over_session generation));;
          send_hub (HubToAgent.Accepted accepted);;
          on_hub (λ h, set_live h (Some (generation, revision)));;
          mret (mk_context hello challenge generation revision)
      | other => unexpected_agent_message "proof" other
      end
  | other => unexpected_agent_message "hello" other
  end.

Definition run_session (first second : result HubServiceError AgentToHub)
    (events : list SessionEvent) : H bool :=
  ctx ← open_session first second;
  maybe_send_recovery_challenge ctx;;
  r ← attempt (run_session_loop ctx events);
  match r with
  | Ok false => mret false
  | _ => cleanup_session ctx;; lift (λ e, e) r
  end.
End Session.
End HubSession.
