(* ===== verification/HubService.v ===== *)
(** * The start of the Hub and the handle of its clients

    [src/src/v2_m1_hub.rs]: the construction of a Hub over an authoritative store,
    with the restart of what the store holds, and the operations of [HubHandle]. *)

From S2P Require Import Prelude Vocabulary Protocol Crypto Tombstone Admission Registry Grants.
From S2P Require Import SafetyTypes Recovery EphemeralRefs Evidence Transport Controller.
From S2P Require Import ControllerSnapshot Trust Persistence StateStore Hub HubSession.
Import HubOperationState ControllerSnapshot Persistence StateStore Hub.

Module HubService.

Section Service.
Context `{ED : Ed25519} {S Io : Type} `{ST : HubAuthoritativeStateStore S Io}
  `{HI : HashIter} `{B64 : Base64Url} `{RS : RecoverySerializer}
  `{CJ : CheckpointJson HubPersistentState} `{RT : RotationSerializer}.

(** ** Construction *)

Section Start.
Variable start_env : HubEnv (Io := Io).
Variable start_config : HubServiceConfig.
Variable start_material : HubProvisionedMaterial.
(** the result of [RecoveryVerifier::load_optional] *)
Variable verifier_file : result RecoveryError (option RecoveryVerifierKind).

Definition verifier_of (r : DeviceRegistry.DeviceRegistry) (id : string)
    : result HubServiceError VerifyingKey :=
  map_err HubServiceError.Control (DeviceRegistry.device_verifier r id).

(** The device's key is the provisioned one, perhaps after the provisioned
    rotation. *)
Definition rotate_to_material (r : DeviceRegistry.DeviceRegistry) (id : string)
    : result HubServiceError DeviceRegistry.DeviceRegistry :=
  let_ok key := verifier_of r id else e => Err e ;;
  return_if bool_decide (key = start_material.(material_verifier)) with Ok r ;;
  let_some rotation := start_material.(device_rotation)
    else Err HubServiceError.CheckpointDeviceTrustMismatch ;;
  return_if negb (bool_decide (rotation.(Trust.dr_device_id) = id))
    with Err HubServiceError.CheckpointDeviceTrustMismatch ;;
  let '(r, applied) := Trust.apply_device_key_rotation r rotation
                         rotation.(Trust.dr_rotation_epoch) in
  let_ok _ := applied else e => Err (HubServiceError.Trust e) ;;
  let_ok key := verifier_of r id else e => Err e ;;
  if bool_decide (key = start_material.(material_verifier)) then Ok r
  else Err HubServiceError.CheckpointDeviceTrustMismatch.

Definition restore_runtime_state (s : HubPersistentState)
    : result HubServiceError
        (string * DeviceRegistry.DeviceRegistry * Controller.AuthoritativeOperationController) :=
  match s.(Persistence.registry).(DeviceRegistry.snap_devices) with
  | [device] =>
      let id := device.(DeviceRegistry.snap_device_id) in
      let_ok restored := restore_hub (admission_limits start_config) s
        else e => Err (HubServiceError.Persistence e) ;;
      let_ok r := rotate_to_material restored.1 id else e => Err e ;;
      Ok (id, r, restored.2)
  | _ => Err HubServiceError.CheckpointDeviceTrustMismatch
  end.

(** [None] is the panic of [capture]. *)
Definition bootstrap_state : result HubServiceError (option HubPersistentState) :=
  let r := (DeviceRegistry.provision_trusted_device DeviceRegistry.default_registry
              start_material.(material_verifier)).1 in
  let_ok c := Controller.new_controller (admission_limits start_config)
    else e => Err (HubServiceError.Execution e) ;;
  Ok (capture_hub r c).

Definition new_inner (r : DeviceRegistry.DeviceRegistry)
    (c : Controller.AuthoritativeOperationController) (writer : HubWriterLease)
    : result HubServiceError HubInner :=
  let_ok refs := HubRefs.new_registry HubRefs.default_limits
    else _ => Err (HubServiceError.InvalidConfig "invalid ephemeral ref registry limits") ;;
  Ok (mk_inner (mk_persistent r c writer r c) None false false None 0
        (mk_runtime None None None) refs no_tickets).

(** The Hub over what [acquire_writer] returned. *)
Definition assemble_from_acquired (acquired : DurableHubState)
    : result HubServiceError (string * option RecoveryVerifierKind * HubInner) :=
  let_ok verifier := verifier_file else e => Err (HubServiceError.OnlineRecovery e) ;;
  let_ok restored := restore_runtime_state acquired.(StateStore.state) else e => Err e ;;
  let '(id, r, c) := restored in
  let_ok inner := new_inner r c (lease acquired) else e => Err e ;;
  Ok (id, verifier, inner).

(** [load_current], and the check that what it returns can be restored *)
Definition load_and_check (s : S) (io : Io) : result HubServiceError unit :=
  let_ok current := load_current s io else e => Err (HubServiceError.StateStore e) ;;
  match current with
  | None => Ok tt
  | Some current =>
      let_ok _ := restore_runtime_state current.(StateStore.state) else e => Err e ;; Ok tt
  end.

(** [new_with_state_store]: the running Hub, which has persisted what the restart
    changed, with its device and its setup. *)
Definition new_with_state_store (s : S)
    : S * result (failure HubServiceError) (Setup (Io := Io) * HubInner) :=
  let_ok _ := validate_config start_config else e => (s, Err (Raised e)) ;;
  let_ok bootstrap := bootstrap_state else e => (s, Err (Raised e)) ;;
  let_some bootstrap := bootstrap else (s, Err Panicked) ;;
  let_ok _ := load_and_check s (start_env.(env_io) 0) else e => (s, Err (Raised e)) ;;
  let '(s, acquired) := acquire_writer s (start_env.(env_io) 1) bootstrap in
  let_ok acquired := acquired
    else e => (s, Err (Raised (HubServiceError.StateStore e))) ;;
  let_ok assembled := assemble_from_acquired acquired else e => (s, Err (Raised e)) ;;
  let '(id, verifier, inner) := assembled in
  let SU := {| env := start_env; config := start_config; material := start_material;
               device_id := id; recovery_verifier := verifier |} in
  let '(t, persisted) := persist_locked (mk_task (mk_world inner s [] [] 2) new_session) in
  (t.(world).(store),
   match persisted with Ok _ => Ok (SU, t.(world).(hub)) | Err e => Err e end).
End Start.

(** ** The handle *)

Section Handle.
Context `{SU : !Setup (Io := Io)}.

Abbreviation C := (M (S := S) HubCommandError).

Definition begin_shutdown_drain : C bool :=
  h ← the_hub;
  on_hub (λ h, set_draining h true);;
  mret (negb h.(draining)).

Definition install_semantic_constraint_snapshot (revision : N) (digest : string) : C unit :=
  if (revision =? 0)%N || negb (slen digest =? 64)%N || negb (all_bytes is_ascii_hexdigit digest)
  then fail HubCommandError.Rejected else
  let requested := mk_identity revision digest in
  h ← the_hub;
  match h.(semantic_constraint_snapshot) with
  | Some current =>
      if bool_decide (current = requested) then mret tt else fail HubCommandError.Rejected
  | None => on_hub (λ h, set_snapshot h (Some requested))
  end.

Inductive CommandSessionFence :=
| NoFence
| SessionFence (generation capability_revision : N)
| HandoffFence (authority : RemoteHandoffAuthority).

Definition expected_session (f : CommandSessionFence) : option (N * N) :=
  match f with
  | NoFence => None
  | SessionFence g r => Some (g, r)
  | HandoffFence a => Some (a.(RemoteHandoffAuthority.generation),
                            a.(RemoteHandoffAuthority.capability_revision))
  end.

Definition fence_handoff (f : CommandSessionFence) : option RemoteHandoffAuthority :=
  match f with HandoffFence a => Some a | _ => None end.

(** The request that [start_command_as_with_id_and_metadata_inner] puts into the queue
    of the live session *)
Definition start_command (o : OperationOwner) (id : string) (cmd : DeviceCommand)
    (metadata : OperationAdmissionMetadata) (f : CommandSessionFence) (channel : N)
    : C HubRequest :=
  h ← the_hub;
  if h.(draining) || h.(writer_fenced) then fail HubCommandError.Busy else
  if is_empty_string id then fail HubCommandError.Rejected else
  session ← ok_or HubCommandError.AgentOffline h.(live);
  if is_some_and (λ e, negb (session.1 =? e.1)%N || negb (session.2 =? e.2)%N)
       (expected_session f)
  then fail HubCommandError.SessionSuperseded else
  mret (Execute id o cmd metadata (fence_handoff f) channel).

(** What keeps a human from taking control of the device *)
Definition handoff_block (c : Controller.AuthoritativeOperationController)
    : option HubCommandError :=
  match c.(Controller.quarantines) !! device_id with
  | Some q => Some (HubCommandError.DeviceIndeterminate q.(DesktopQuarantine.operation_id))
  | None =>
      let_some b := c.(Controller.mutation_resume_barriers) !! device_id else None ;;
      Some (HubCommandError.MutationResumeRequired b.(MutationResumeBarrier.source_operation_id))
  end.

Definition handoff_request (request_id : string) (request : RemoteHandoffRequestKind)
    (channel : N) : C HubRequest :=
  h ← the_hub;
  if h.(writer_fenced) then fail HubCommandError.Busy else
  let c := h.(persistent).(execution) in
  (if Transport.requires_agent_idle request then
     match (if Transport.starts_human_control request then handoff_block c else None) with
     | Some e => fail e
     | None =>
         if Controller.has_unsettled_work c device_id then fail HubCommandError.Busy else mret tt
     end
   else mret tt);;
  ok_or HubCommandError.AgentOffline h.(live);;
  mret (Handoff request_id request channel).

Definition cancel_as (o : OperationOwner) (id : string) (channel : N) : C HubRequest :=
  h ← the_hub;
  ok_or HubCommandError.AgentOffline h.(live);;
  mret (Cancel id o channel).

Definition end_backend_interaction_session (context_id : string) (channel : N) : C HubRequest :=
  h ← the_hub;
  ok_or HubCommandError.AgentOffline h.(live);;
  mret (EndBackendSession context_id channel).

Definition resolve_indeterminate (id : string) (resolver : OperationOwner)
    (decision : IndeterminateResolution) (evidence : string) : C ExecutionReceipt :=
  HubSession.commit_or_restart (λ _, HubCommandError.Rejected) (λ _, HubCommandError.Rejected)
    (time ← attempt unix_time_ms;
     now ← lift (λ _, HubCommandError.Rejected) time;
     settlement ← on_execution HubSession.command_error_from_execution
       (λ c, Controller.resolve_indeterminate_by c id resolver decision evidence now);
     mret settlement.2).

Definition desktop_quarantine : C (option DesktopQuarantine) :=
  c ← the_execution; mret (c.(Controller.quarantines) !! device_id).

Definition operation_receipt (id : string) : C (option ExecutionReceipt) :=
  c ← the_execution; mret (Controller.receipt_of c id).

Definition operation_recovery_as (o : OperationOwner) (id : string)
    : C OperationRecoverySnapshot :=
  c ← the_execution;
  lift HubSession.command_error_from_execution (Controller.recovery_for_owner c id o).
End Handle.
End Service.
End HubService.
