(* ===== verification/HubDispatch.v ===== *)
(** * The dispatch loop of the Hub

    The loop of [dispatch_next] ends: an operation that is rejected before its
    dispatch leaves the pending operations of the session. *)

From S2P Require Import Prelude Vocabulary Protocol Crypto Tombstone Admission Registry Grants.
From S2P Require Import SafetyTypes Recovery EphemeralRefs Evidence Transport Controller.
From S2P Require Import ControllerSnapshot Trust Persistence StateStore Hub HubSession.
Import HubOperationState ControllerSnapshot Persistence StateStore Hub HubSession.

Section Dispatch.
Context `{ED : Ed25519} {S Io : Type} `{ST : HubAuthoritativeStateStore S Io}
  `{SU : !Setup (Io := Io)} `{HI : HashIter} `{B64 : Base64Url} `{RS : RecoverySerializer}
  `{CJ : CheckpointJson HubPersistentState} `{WJ : WireJson}.

Abbreviation Task := (Task (S := S)).
Abbreviation M := (M (S := S)).
Implicit Types t : Task.

(** ** Programs that leave the session alone *)

Definition keeps {E A} (m : M E A) : Prop := ∀ t, (m t).1.(session) = t.(session).

Lemma keeps_bind {E A B} (m : M E A) (f : A → M E B) :
  keeps m → (∀ a, keeps (f a)) → keeps (m ≫= f).
Proof.
  intros Hm Hf t. specialize (Hm t). unfold mbind, M_bind.
  destruct (m t) as [t1 [a|e]]; cbn in *; [|done]. by rewrite Hf.
Qed.

Lemma keeps_attempt {E F A} (m : M E A) : keeps m → keeps (attempt (F := F) m).
Proof. intros Hm t. specialize (Hm t). unfold attempt. by destruct (m t). Qed.

Ltac keeps :=
  repeat match goal with
  | |- ∀ _, _ => intros ?
  | |- keeps (_ ≫= _) => apply keeps_bind
  | |- keeps (attempt _) => apply keeps_attempt
  | |- keeps (match ?x with _ => _ end) => destruct x
  | |- keeps _ => solve [done | intros ?; cbn; by repeat case_match]
  end.

Lemma keeps_commit lease v : keeps (commit_hub_state lease v).
Proof. unfold commit_hub_state, finalize_hub_state_commit. keeps. Qed.

Lemma keeps_capture {E} r c : keeps (capture (E := E) r c).
Proof. unfold capture. keeps. Qed.

Lemma keeps_persist : keeps persist_locked.
Proof.
  apply keeps_bind; [keeps|]. intros h. apply keeps_bind; [apply keeps_capture|]. intros s.
  apply keeps_bind; [apply keeps_attempt, keeps_commit|]. keeps.
Qed.

Section Session.
Variable ctx : SessionContext.

Lemma keeps_cancel_undispatched id o : keeps (cancel_undispatched ctx id o).
Proof.
  unfold cancel_undispatched, unix_time_ms, on_execution.
  apply keeps_bind; [keeps|]. intros now. apply keeps_bind; [keeps|]. intros d.
  apply keeps_bind; [apply keeps_persist|]. keeps.
Qed.

Lemma keeps_commit_dispatch id o b : keeps (commit_dispatch ctx id o b).
Proof.
  unfold commit_dispatch, unix_time_ms, on_execution.
  apply keeps_bind; [keeps|]. intros now. apply keeps_bind; [keeps|]. intros d.
  apply keeps_bind; [apply keeps_persist|]. keeps.
Qed.

Lemma keeps_send_command {E} id m : keeps (send_command_hub (E := E) id m).
Proof. unfold send_command_hub. keeps. Qed.

Lemma keeps_non_delivery id o b evidence :
  keeps (commit_hub_pre_enqueue_non_delivery ctx id o b evidence).
Proof.
  unfold commit_hub_pre_enqueue_non_delivery, unix_time_ms, persist_execution_candidate_locked.
  apply keeps_bind; [keeps|]. intros now. apply keeps_bind; [keeps|]. intros c.
  destruct (Controller.resolve_hub_pre_enqueue_non_delivery _ _ _ _ _ _ _) as [c' r].
  apply keeps_bind; [keeps|]. intros next. apply keeps_bind; [|keeps].
  apply keeps_bind; [keeps|]. intros h. apply keeps_bind; [apply keeps_capture|]. intros s.
  apply keeps_bind; [apply keeps_commit|]. keeps.
Qed.

(** ** Rejected operations leave the session *)

(** From [n] pending operations with [id] among them, a value [Q] is returned with
    fewer pending operations. *)
Definition rejects (n : nat) (id : string) (m : M HubServiceError DispatchOutcome) : Prop :=
  ∀ t t' next, is_Some (t.(session).(pending) !! id) → size t.(session).(pending) = n →
    m t = (t', Ok (RejectedDispatch next)) → size t'.(session).(pending) < n.

Lemma rejects_bind {A} n id (m : M HubServiceError A) f :
  keeps m → (∀ a, rejects n id (f a)) → rejects n id (m ≫= f).
Proof.
  intros Hm Hf t t' next Hid Hn. specialize (Hm t). unfold mbind, M_bind.
  destruct (m t) as [t1 [a|e]]; cbn in *; [|done]. apply Hf; by rewrite Hm.
Qed.

Lemma rejects_answer n id e {A} (r : A) (f : A → DispatchOutcome) :
  rejects n id (answer_pending id (Err e);; mret (f r)).
Proof.
  intros t t' next [operation Hid] Hn. unfold answer_pending, mbind, M_bind. cbn. rewrite Hid. cbn.
  intros [= <- _]. cbn. rewrite map_size_delete_Some by eauto.
  assert (size t.(session).(pending) ≠ 0); [|lia]. intros H%map_size_empty_inv.
  by rewrite H, lookup_empty in Hid.
Qed.

Lemma rejects_before n id o e : rejects n id (reject_before_dispatch ctx id o e).
Proof.
  apply rejects_bind; [apply keeps_cancel_undispatched|]. intros next.
  apply (rejects_answer n id e next RejectedDispatch).
Qed.

(** [envelope] is written into the pending operation. *)
Lemma rejects_update n id x k :
  rejects n id k →
  rejects n id (on_session (λ s, with_pending s (<[id := x]> s.(pending)));; k).
Proof.
  intros Hk t t' next [y Hid] Hn. apply Hk; cbn.
  - rewrite lookup_insert_eq. eauto.
  - by rewrite map_size_insert_Some by eauto.
Qed.

Lemma rejects_undelivered n id o binding failure :
  rejects n id (binding ← ok_or (into_service_error failure) binding;
                next ← commit_hub_pre_enqueue_non_delivery ctx id o binding (send_evidence failure);
                answer_pending id (Err HubCommandError.ConfirmedNotExecuted);;
                if closes_session failure then fail HubServiceError.OutboundClosed
                else mret (RejectedDispatch next)).
Proof.
  apply rejects_bind; [keeps|]. intros b. apply rejects_bind; [apply keeps_non_delivery|]. intros next.
  destruct (closes_session failure); [|apply (rejects_answer n id _ next RejectedDispatch)].
  intros t t' following _ _. unfold answer_pending, mbind, M_bind. cbn.
  by destruct (t.(session).(pending) !! id).
Qed.

Lemma dispatch_operation_rejects n id : rejects n id (dispatch_operation ctx id).
Proof.
  unfold dispatch_operation, pending_operation. apply rejects_bind; [keeps|]. intros operation.
  apply rejects_bind; [keeps|]. intros h. destruct h.(draining); [apply rejects_before|].
  apply rejects_bind; [unfold session_time_ms; keeps|]. intros now. apply rejects_bind; [keeps|].
  intros k. destruct (env.(env_sign_grant) _ _ _ _ _) as [grant|]; [|apply rejects_before].
  apply rejects_bind; [keeps|]. intros binding. apply rejects_bind; [keeps|]. intros remote.
  apply rejects_bind; [keeps|]. intros h'. destruct h'.(draining); [apply rejects_before|].
  destruct (negb _); [apply rejects_before|].
  apply rejects_bind; [apply keeps_commit_dispatch|]. intros _.
  apply rejects_bind; [keeps|]. intros updated. apply rejects_update.
  apply rejects_bind; [apply keeps_send_command|].
  intros [u|failure]; [by intros ??|apply rejects_undelivered].
Qed.

(** An operation that is rejected was pending, and is not any more. *)
Lemma rejected_smaller id t t' following :
  dispatch_operation ctx id t = (t', Ok (RejectedDispatch following)) →
  size t'.(session).(pending) < size t.(session).(pending).
Proof.
  intros E. eapply (dispatch_operation_rejects _ id); [|done|exact E].
  destruct (t.(session).(pending) !! id) eqn:Hid; [done|]. revert E.
  unfold dispatch_operation, pending_operation, mbind, M_bind, ok_or. cbn. by rewrite Hid.
Qed.

(** With more fuel than there are pending operations, the fuel does not matter. *)
Lemma dispatch_loop_enough fuel fuel' next t :
  size t.(session).(pending) < fuel → size t.(session).(pending) < fuel' →
  dispatch_loop ctx fuel next t = dispatch_loop ctx fuel' next t.
Proof.
  revert fuel' next t. induction fuel as [|fuel IH]; intros [|fuel'] next t H H'; [lia..|].
  destruct next as [|operation]; [done|]. cbn [dispatch_loop].
  unfold unqueue, on_session, mbind, M_bind. cbn beta iota.
  destruct (dispatch_operation ctx _ _) as [t2 [[|following]|e]] eqn:E; [done| |done].
  apply rejected_smaller in E. cbn in E. apply IH; lia.
Qed.

(** C38: The loop of [dispatch_next] ends by itself: the definition satisfies the equation
    of the loop in the code, which has no bound. *)
Theorem dispatch_next_ends next t :
  dispatch_next ctx next t =
  match next with
  | CompletionDecision.Idle => (t, Ok tt)
  | CompletionDecision.StartNext operation =>
      let id := operation.(OperationRef.operation_id) in
      (unqueue id;;
       outcome ← dispatch_operation ctx id;
       match outcome with
       | Sent => mret tt
       | RejectedDispatch following => dispatch_next ctx following
       end) t
  end.
Proof.
  destruct next as [|operation]; [done|]. unfold dispatch_next at 1, the_session, gets.
  unfold mbind at 1, M_bind at 1. cbn [dispatch_loop].
  unfold unqueue, on_session, mbind, M_bind. cbn beta iota.
  destruct (dispatch_operation ctx _ _) as [t2 [[|following]|e]] eqn:E; [done| |done].
  apply rejected_smaller in E. cbn in E. apply dispatch_loop_enough; lia.
Qed.
End Session.
End Dispatch.
