(* ===== verification/HubSteps.v ===== *)
(** * What the tasks of the Hub do to its shared state

    Every handler of the Hub is a sequence of a few kinds of steps on the state that
    the tasks share: calls of the operation controller on the live state, commits to
    the store, the hand-over of a committed command to the transport. The steps of
    several tasks may interleave; the blocks that hold the lock of the persistent
    state and have to be uninterrupted are single steps. *)

From S2P Require Import Prelude Vocabulary Protocol Crypto Tombstone Admission Registry Grants.
From S2P Require Import SafetyTypes Recovery EphemeralRefs Evidence Transport Controller.
From S2P Require Import ControllerSnapshot ControllerCalls ControllerDevice Trust Persistence.
From S2P Require Import StateStore Hub.
From S2P Require Import StateStoreTheorems HubSession HubService.
Import HubOperationState ControllerSnapshot Persistence StateStore Hub HubSession.

(** ** Calls in a row *)

Section Calls.
Context `{HI : HashIter} `{RS : RecoverySerializer}.

Fixpoint performs (c : Controller.AuthoritativeOperationController) (l : list ccall)
    : Controller.AuthoritativeOperationController :=
  match l with [] => c | k :: l => performs (perform c k).1 l end.

Lemma performs_app c l l' : performs c (l ++ l') = performs (performs c l) l'.
Proof. revert c. induction l as [|k l IH]; intros c; cbn; [done|apply IH]. Qed.
End Calls.

(** ** Messages and replies *)

(** The messages that promise nothing: neither commands nor the acceptance of a
    session. *)
Definition is_plain (m : HubToAgent) : bool :=
  match m with HubToAgent.Command _ | HubToAgent.Accepted _ => false | _ => true end.

Definition command_id (m : RemoteCommand) : string :=
  m.(RemoteCommand.command).(CommandEnvelope.operation_id).

(** A reply that reports success carries a receipt. *)
Definition reply_receipt (r : Reply) : option ExecutionReceipt :=
  match r with CommandReply (Ok x) => Some x.(receipt) | _ => None end.

Section Steps.
Context `{ED : Ed25519} {S Io : Type} `{ST : HubAuthoritativeStateStore S Io}
  `{SU : !Setup (Io := Io)} `{HI : HashIter} `{B64 : Base64Url} `{RS : RecoverySerializer}
  `{CJ : CheckpointJson HubPersistentState} `{SL : !StoreLaws S Io}.

Abbreviation World := (World (S := S)).
Abbreviation Task := (Task (S := S)).
Implicit Types (w : World) (t : Task) (p : PersistentHubState).

(** A commit of the registry [r] and the controller [c] by the writer of [p]. *)
Definition commits_to (p : PersistentHubState) (r : DeviceRegistry.DeviceRegistry)
    (c : Controller.AuthoritativeOperationController) (s s' : S)
    (result : result HubStateStoreError DurableHubState) : Prop :=
  ∃ v io, capture_hub r c = Some v ∧ store_io io
          ∧ compare_and_commit s io p.(writer) v = (s', result).

(** The parts of the world that matter, written as an update of [w]. *)
Definition becomes w (p : PersistentHubState) (s : S) (tickets : Tickets)
    (sent : list HubToAgent) (replies : list (N * Reply)) w' : Prop :=
  w'.(hub).(persistent) = p ∧ w'.(store) = s ∧ w'.(hub).(Hub.tickets) = tickets
  ∧ w'.(Hub.sent) = sent ∧ w'.(Hub.replies) = replies.

Definition with_execution p c := mk_persistent p.(registry) c p.(writer) p.(committed_registry)
  p.(committed_execution).
Definition with_registry p r := mk_persistent r p.(execution) p.(writer) p.(committed_registry)
  p.(committed_execution).

(** The calls of the registry that a session makes *)
Definition registry_call (r r' : DeviceRegistry.DeviceRegistry) : Prop :=
  (∃ c, r' = (DeviceRegistry.connect r device_id c).1) ∨ r' = (DeviceRegistry.disconnect r device_id).1.

Inductive wstep w w' : Prop :=
| w_quiet :
    becomes w w.(hub).(persistent) w.(store) w.(hub).(tickets) w.(sent)
      w.(replies) w' → wstep w w'
| w_message m :
    is_plain m = true →
    becomes w w.(hub).(persistent) w.(store) w.(hub).(tickets)
      (w.(sent) ++ [m]) w.(replies) w' → wstep w w'
| w_reply channel r :
    (∀ x, reply_receipt r = Some x → x ∈ w.(hub).(tickets).(settled)) →
    becomes w w.(hub).(persistent) w.(store) w.(hub).(tickets) w.(sent)
      (w.(replies) ++ [(channel, r)]) w' → wstep w w'
| w_call k :
    of_device device_id k →
    becomes w (with_execution w.(hub).(persistent) (perform w.(hub).(persistent).(execution) k).1)
      w.(store) w.(hub).(tickets) w.(sent) w.(replies) w' → wstep w w'
| w_registry r :
    registry_call w.(hub).(persistent).(registry) r →
    becomes w (with_registry w.(hub).(persistent) r) w.(store) w.(hub).(tickets) w.(sent) w.(replies) w' → wstep w w'
| w_persist s r :
    let p := w.(hub).(persistent) in
    commits_to p p.(registry) p.(execution) w.(store) s r →
    becomes w (match r with Ok rec => promoted p p.(execution) (lease rec) | Err _ => rolled_back p end)
      s w.(hub).(tickets) w.(sent) w.(replies) w' → wstep w w'
| w_candidate l s r :
    let p := w.(hub).(persistent) in
    let c := performs p.(execution) l in
    Forall (of_device device_id) l →
    commits_to p p.(registry) c w.(store) s r →
    becomes w (match r with Ok rec => promoted p c (lease rec) | Err _ => p end)
      s w.(hub).(tickets) w.(sent) w.(replies) w' → wstep w w'
| w_dispatch id o g b now c s rec :
    let p := w.(hub).(persistent) in
    Controller.mark_dispatched_with_binding p.(execution) id o g b now = (c, Ok tt) →
    commits_to p p.(registry) c w.(store) s (Ok rec) →
    becomes w (promoted p c (lease rec)) s (hold_command id w.(hub).(tickets)) w.(sent)
      w.(replies) w' → wstep w w'
| w_settle id o g terminal evidence now c1 next x l s rec :
    let p := w.(hub).(persistent) in
    Controller.finalize p.(execution) id o g terminal evidence now = (c1, Ok (next, x)) →
    l = [] ∨ (∃ result, l = [CAttach id o g result]) →
    commits_to p p.(registry) (performs c1 l) w.(store) s (Ok rec) →
    becomes w (promoted p (performs c1 l) (lease rec)) s (hold_receipt x w.(hub).(tickets)) w.(sent) w.(replies) w' → wstep w w'
| w_restart l s e v c :
    let p := w.(hub).(persistent) in
    Forall (of_device device_id) l →
    commits_to p p.(registry) (performs p.(execution) l) w.(store) s (Err e) →
    snapshot_controller p.(execution) = Some v →
    restore_controller (admission_limits config) v = Ok c →
    becomes w (with_execution (rolled_back p) c) s w.(hub).(tickets) w.(sent)
      w.(replies) w' → wstep w w'
| w_send id (m : RemoteCommand) :
    id ∈ w.(hub).(tickets).(outgoing) → command_id m = id →
    becomes w w.(hub).(persistent) w.(store) (hand_over_command id w.(hub).(tickets))
      (w.(sent) ++ [HubToAgent.Command m]) w.(replies) w' → wstep w w'
| w_drop id :
    becomes w w.(hub).(persistent) w.(store) (hand_over_command id w.(hub).(tickets))
      w.(sent) w.(replies) w' → wstep w w'
| w_connect cap r session s rec :
    let p := w.(hub).(persistent) in
    let c := (perform p.(execution) (CPrune device_id session.(DeviceSession.generation))).1 in
    DeviceRegistry.connect p.(registry) device_id cap = (r, Ok session) →
    commits_to p r c w.(store) s (Ok rec) →
    becomes w (promoted (with_registry p r) c (lease rec)) s
      (hold_session session.(DeviceSession.generation) w.(hub).(tickets)) w.(sent) w.(replies) w' →
    wstep w w'
| w_accept m :
    m.(SessionAccepted.device_generation) ∈ w.(hub).(tickets).(granted) →
    becomes w w.(hub).(persistent) w.(store)
      (hand_over_session m.(SessionAccepted.device_generation) w.(hub).(tickets))
      (w.(sent) ++ [HubToAgent.Accepted m]) w.(replies) w' → wstep w w'
| w_abandon g :
    becomes w w.(hub).(persistent) w.(store) (hand_over_session g w.(hub).(tickets)) w.(sent)
      w.(replies) w' → wstep w w'.

(** ** Programs as sequences of steps *)

(** From a task that satisfies [P], the program makes a sequence of steps, and if it
    returns a value, [Q] holds of it. *)
Definition runs {E A} (P : Task → Prop) (m : M E A) (Q : A → Task → Prop) : Prop :=
  ∀ t, P t → rtc wstep t.(world) (m t).1.(world) ∧ ∀ a, (m t).2 = Ok a → Q a (m t).1.

Abbreviation anything := (λ _, True).
Definition steps {E A} (m : M E A) : Prop := runs anything m (λ _ _, True).

Lemma runs_bind {E A B} P (m : M E A) Q (f : A → M E B) R :
  runs P m Q → (∀ a, runs (Q a) (f a) R) → runs P (m ≫= f) R.
Proof.
  intros Hm Hf t Ht. destruct (Hm t Ht) as [Hs Hq]. unfold mbind, M_bind.
  destruct (m t) as [t1 [a|e]]; cbn in *; [|done].
  destruct (Hf a t1 (Hq a eq_refl)) as [Hs' Hr]. split; [by etransitivity|done].
Qed.

Lemma runs_weaken {E A} P P' (m : M E A) Q Q' :
  runs P' m Q' → (∀ t, P t → P' t) → (∀ a t, Q' a t → Q a t) → runs P m Q.
Proof. intros Hm HP HQ t Ht. destruct (Hm t (HP t Ht)) as [Hs Hq]. split; [done|eauto]. Qed.

Lemma steps_runs {E A} P (m : M E A) : steps m → runs P m (λ _ _, True).
Proof. intros Hm. by eapply runs_weaken. Qed.

Lemma steps_bind {E A B} (m : M E A) (f : A → M E B) :
  steps m → (∀ a, steps (f a)) → steps (m ≫= f).
Proof. intros Hm Hf. eapply runs_bind; [done|]. intros a. by apply steps_runs. Qed.

(** Programs that do not touch the world *)
Definition pure {E A} (m : M E A) : Prop := ∀ t, (m t).1.(world) = t.(world).

Lemma pure_steps {E A} (m : M E A) : pure m → steps m.
Proof. intros Hm t _. rewrite Hm. by split. Qed.

Lemma pure_ret {E A} (a : A) : pure (mret a : M E A).
Proof. done. Qed.
Lemma pure_fail {E A} (e : E) : pure (fail (A := A) (S := S) e).
Proof. done. Qed.
Lemma pure_panic {E A} : pure (panic (E := E) (A := A) (S := S)).
Proof. done. Qed.
Lemma pure_gets {E A} (f : Task → A) : pure (gets (E := E) f).
Proof. done. Qed.
Lemma pure_lift {E F A} (f : E → F) (r : result E A) : pure (lift (S := S) f r).
Proof. done. Qed.
Lemma pure_ok_or {E A} (e : E) (o : option A) : pure (ok_or (S := S) e o).
Proof. done. Qed.
Lemma pure_on_session {E} f : pure (on_session (E := E) (S := S) f).
Proof. done. Qed.

Lemma steps_attempt {E F A} (m : M E A) : steps m → steps (attempt (F := F) m).
Proof.
  intros Hm t _. destruct (Hm t I) as [Hs _]. unfold attempt.
  destruct (m t) as [t1 r]. by split.
Qed.

(** The program leaves the core of the state alone. *)
Definition same_core w w' : Prop :=
  becomes w w.(hub).(persistent) w.(store) w.(hub).(tickets) w.(sent)
    w.(replies) w'.

Lemma quiet_steps {E A} (m : M E A) : (∀ t, same_core t.(world) (m t).1.(world)) → steps m.
Proof. intros Hm t _. split; [|done]. apply rtc_once, w_quiet, Hm. Qed.

Lemma steps_next_tick {E} : steps (next_tick (E := E)).
Proof. by apply quiet_steps. Qed.

Lemma steps_unix_time_ms : steps unix_time_ms.
Proof. apply steps_bind; [apply steps_next_tick|]. intros n. by apply pure_steps. Qed.

Lemma steps_session_time_ms {E} : steps (session_time_ms (E := E)).
Proof. apply steps_bind; [apply steps_next_tick|]. intros n. by apply pure_steps. Qed.

Lemma steps_on_hub {E} f :
  (∀ h, (f h).(persistent) = h.(persistent) ∧ (f h).(tickets) = h.(tickets)) →
  steps (on_hub (E := E) f).
Proof. intros Hf. apply quiet_steps. intros t. unfold same_core, becomes. cbn. naive_solver. Qed.

Lemma steps_send_reply {E} channel r :
  reply_receipt r = None → steps (send_reply (E := E) channel r).
Proof.
  intros Hr t _. split; [|done]. apply rtc_once, (w_reply _ _ channel r); [congruence|done].
Qed.

Lemma steps_send_hub m : is_plain m = true → steps (send_hub m).
Proof.
  intros Hm. unfold send_hub. destruct (negb _); [by apply pure_steps|].
  apply steps_bind; [apply steps_next_tick|]. intros n.
  destruct (negb _); [by apply pure_steps|]. intros t _. split; [|done].
  by apply rtc_once, (w_message _ _ m).
Qed.

(** ** Calls on the live state *)

Lemma with_execution_same p : with_execution p p.(execution) = p.
Proof. by destruct p. Qed.

(** The program makes these calls on the live state and changes nothing else. *)
Definition made_calls w l w' : Prop :=
  becomes w (with_execution w.(hub).(persistent) (performs w.(hub).(persistent).(execution) l))
    w.(store) w.(hub).(tickets) w.(sent) w.(replies) w'.

Lemma made_calls_steps w l w' :
  Forall (of_device device_id) l → made_calls w l w' → rtc wstep w w'.
Proof.
  intros Hl. revert w. induction Hl as [|k l Hk Hl IH]; intros w Hw.
  - apply rtc_once, w_quiet. unfold made_calls in Hw. cbn in Hw. by rewrite with_execution_same in Hw.
  - set (w1 := mk_world (set_execution w.(hub) (perform w.(hub).(persistent).(execution) k).1)
                 w.(store) w.(sent) w.(replies) w.(tick)).
    apply (rtc_l _ w w1); [by apply (w_call _ _ k)|]. by apply IH.
Qed.

Definition calls {E A} (m : M E A) : Prop :=
  ∀ t, ∃ l, Forall (of_device device_id) l ∧ made_calls t.(world) l (m t).1.(world).

Lemma calls_steps {E A} (m : M E A) : calls m → steps m.
Proof.
  intros Hm t _. destruct (Hm t) as (l & Hl & Hw). split; [|done]. by eapply made_calls_steps.
Qed.

Lemma same_core_calls {E A} (m : M E A) : (∀ t, same_core t.(world) (m t).1.(world)) → calls m.
Proof.
  intros Hm t. exists []. split; [constructor|]. unfold made_calls. cbn.
  rewrite with_execution_same. apply Hm.
Qed.

Lemma pure_calls {E A} (m : M E A) : pure m → calls m.
Proof. intros Hm. apply same_core_calls. intros t. by rewrite Hm. Qed.

Lemma calls_bind {E A B} (m : M E A) (f : A → M E B) :
  calls m → (∀ a, calls (f a)) → calls (m ≫= f).
Proof.
  intros Hm Hf t. destruct (Hm t) as (l & Hl & Hw). unfold mbind, M_bind.
  destruct (m t) as [t1 [a|e]]; cbn in *; [|by exists l].
  destruct (Hf a t1) as (l' & Hl' & Hw'). exists (l ++ l').
  split; [by apply Forall_app|]. unfold made_calls, becomes in *.
  destruct Hw as (Hp & H1 & H2 & H3 & H4). rewrite Hp, H1, H2, H3, H4 in Hw'. cbn in Hw'.
  rewrite performs_app. apply Hw'.
Qed.

Lemma calls_on_execution {E A} (f : ExecutionError → E) call k :
  of_device device_id k → (∀ c, (call c).1 = (perform c k).1) →
  calls (on_execution (A := A) f call).
Proof.
  intros Hk Hcall t. exists [k]. split; [by constructor|]. unfold made_calls. cbn.
  rewrite <- Hcall. done.
Qed.

Lemma calls_unix_time_ms : calls unix_time_ms.
Proof. apply calls_bind; [by apply same_core_calls|]. intros n. by apply pure_calls. Qed.

(** ** Commits *)

Hypothesis env_ok : ∀ n, store_io (env.(env_io) n).

(** What a commit of a captured state does. *)
Lemma commit_hub_state_spec lease v t t' res :
  commit_hub_state lease v t = (t', res) →
  ∃ s r io, store_io io ∧ compare_and_commit t.(world).(store) io lease v = (s, r)
    ∧ becomes t.(world) t.(world).(hub).(persistent) s t.(world).(hub).(tickets)
        t.(world).(sent) t.(world).(replies) t'.(world)
    ∧ t'.(session) = t.(session)
    ∧ match r with
      | Ok rec => res = Ok rec
      | Err e => res = Err (Raised (HubServiceError.StateStore e))
      end.
Proof.
  unfold commit_hub_state, mbind, M_bind, next_tick. cbn.
  destruct (compare_and_commit _ _ _ _) as [s [rec|e]] eqn:E; cbn.
  - intros [= <- <-]. by exists s, (Ok rec), (env.(env_io) t.(world).(tick)).
  - destruct (fences_current_writer e); intros [= <- <-];
      by exists s, (Err e), (env.(env_io) t.(world).(tick)).
Qed.

Lemma persist_locked_spec t t' res :
  let p := t.(world).(hub).(persistent) in
  persist_locked t = (t', res) →
  (t' = t ∧ res = Err Panicked) ∨
  ∃ s r, commits_to p p.(registry) p.(execution) t.(world).(store) s r
    ∧ becomes t.(world)
        (match r with Ok rec => promoted p p.(execution) (lease rec) | Err _ => rolled_back p end)
        s t.(world).(hub).(tickets) t.(world).(sent)
        t.(world).(replies) t'.(world)
    ∧ match r with
      | Ok _ => res = Ok tt
      | Err e => res = Err (Raised (HubServiceError.StateStore e))
      end.
Proof.
  intros p. unfold persist_locked, the_hub, gets, mbind, M_bind, capture. fold p.
  destruct (capture_hub p.(registry) p.(execution)) as [v|] eqn:Hv; cbn;
    [|intros [= <- <-]; by left].
  unfold attempt. destruct (commit_hub_state p.(writer) v t) as [t1 r1] eqn:E.
  destruct (commit_hub_state_spec _ _ _ _ _ E) as (s & r & io & Hio & Hc & Hb & _ & Hr).
  destruct Hb as (Hp & H1 & H2 & H3 & H4). intros Hrun. right. exists s, r.
  split; [by exists v, io|]. destruct r as [rec|e]; subst r1; cbn in Hrun;
    injection Hrun as <- <-; by repeat split.
Qed.

Lemma steps_persist_locked : steps persist_locked.
Proof.
  intros t _. split; [|done]. destruct (persist_locked t) as [t' res] eqn:E.
  destruct (persist_locked_spec _ _ _ E) as [[-> _]|(s & r & Hc & Hb & _)]; [done|].
  by eapply rtc_once, w_persist.
Qed.

Lemma candidate_spec candidate t t' res :
  let p := t.(world).(hub).(persistent) in
  persist_execution_candidate_locked candidate t = (t', res) →
  t' = t ∨
  ∃ s r, commits_to p p.(registry) candidate t.(world).(store) s r
    ∧ becomes t.(world) (match r with Ok rec => promoted p candidate (lease rec) | Err _ => p end)
        s t.(world).(hub).(tickets) t.(world).(sent)
        t.(world).(replies) t'.(world).
Proof.
  intros p. unfold persist_execution_candidate_locked, the_hub, gets, mbind, M_bind, capture. fold p.
  destruct (capture_hub p.(registry) candidate) as [v|] eqn:Hv; cbn;
    [|intros [= <- <-]; by left].
  destruct (commit_hub_state p.(writer) v t) as [t1 r1] eqn:E.
  destruct (commit_hub_state_spec _ _ _ _ _ E) as (s & r & io & Hio & Hc & Hb & _ & Hr).
  destruct Hb as (Hp & H1 & H2 & H3 & H4). intros Hrun. right. exists s, r.
  split; [by exists v, io|]. destruct r as [rec|e]; subst r1; cbn in Hrun;
    injection Hrun as <- <-; by repeat split.
Qed.

(** A program that commits a candidate made by calls on the live state *)
Lemma steps_candidate candidate l t :
  Forall (of_device device_id) l →
  candidate = performs t.(world).(hub).(persistent).(execution) l →
  rtc wstep t.(world) (persist_execution_candidate_locked candidate t).1.(world).
Proof.
  intros Hl ->. destruct (persist_execution_candidate_locked _ t) as [t' res] eqn:E.
  destruct (candidate_spec _ _ _ _ E) as [->|(s & r & Hc & Hb)]; [done|].
  by eapply rtc_once, w_candidate.
Qed.

Section Blocks.
Variable ctx : SessionContext.

(** A run of [unix_time_ms] and one call *)
Lemma now_then_run {A B} (k : N → A → M (S := S) HubServiceError B) (call : N → _) (ks : N → ccall) t :
  (∀ n, of_device device_id (ks n)) → (∀ n c, (call n c).1 = (perform c (ks n)).1) →
  let m := (now ← unix_time_ms; a ← on_execution HubServiceError.Execution (call now); k now a) in
  (∃ l, Forall (of_device device_id) l ∧ made_calls t.(world) l (m t).1.(world)
        ∧ ∃ e, (m t).2 = Err e)
  ∨ ∃ now a t1, call now t.(world).(hub).(persistent).(execution)
                = ((perform t.(world).(hub).(persistent).(execution) (ks now)).1, Ok a)
      ∧ made_calls t.(world) [ks now] t1.(world) ∧ t1.(session) = t.(session) ∧ m t = k now a t1.
Proof.
  intros Hk Hcall. unfold unix_time_ms, next_tick, ok_or, on_execution, the_execution, on_hub, gets,
    lift, mbind, M_bind. cbn.
  destruct (env.(env_unix_time_ms) _) as [now|]; cbn.
  - destruct (call now _) as [c1 r] eqn:E. cbn.
    assert (c1 = (perform t.(world).(hub).(persistent).(execution) (ks now)).1) as ->
      by (by rewrite <- Hcall, E).
    destruct r as [a|e]; cbn.
    + right. exists now, a. eexists. split; [done|]. split; [|split; [|reflexivity]]; done.
    + left. exists [ks now]. split; [by constructor|]. split; [done|eauto].
  - left. exists []. split; [constructor|]. split; [|eauto]. unfold made_calls. cbn.
    by rewrite with_execution_same.
Qed.

Lemma runs_commit_dispatch id o b :
  runs anything (commit_dispatch ctx id o b) (λ _ t, id ∈ t.(world).(hub).(tickets).(outgoing)).
Proof.
  intros t _. unfold commit_dispatch.
  destruct (now_then_run (λ _ _, persist_locked;; on_hub (on_tickets (hold_command id)))
    (λ now c, Controller.mark_dispatched_with_binding c id o ctx.(generation) b now)
    (λ now, CDispatch id o ctx.(generation) b now) t)
    as [(l & Hl & Hw & e & He)|(now & [] & t1 & Hcall & Hw & _ & ->)]; [done|done| |].
  { split; [by eapply made_calls_steps|]. congruence. }
  cbn [perform] in Hcall. unfold mbind at 1 3, M_bind. unfold mbind, M_bind.
  destruct (persist_locked t1) as [t2 res] eqn:E.
  destruct (persist_locked_spec _ _ _ E) as [[-> ->]|(s & r & Hc & Hb & Hr)]; cbn.
  { split; [|done]. eapply made_calls_steps; [|done]. by constructor. }
  pose proof Hw as (Hp & H1 & H2 & H3 & H4). cbn in Hp.
  destruct r as [rec|e]; subst res; cbn.
  - split; [|by left]. rewrite Hp in Hc, Hb. cbn in Hc, Hb. rewrite H1 in Hc.
    rewrite H2, H3, H4 in Hb. destruct Hb as (G0 & G1 & G2 & G3 & G4).
    apply rtc_once. eapply (w_dispatch _ _ id o ctx.(generation) b now); [exact Hcall|exact Hc|].
    unfold becomes. cbn. rewrite G0, G2. by repeat split.
  - split; [|done]. etransitivity; [eapply made_calls_steps; [|exact Hw]; by constructor|].
    by eapply rtc_once, w_persist.
Qed.

(** The optional attachment of a result *)
Definition attach id o (recoverable : option RecoverableOperationResult) : M (S := S) HubServiceError unit :=
  match recoverable with
  | Some result =>
      on_execution HubServiceError.Execution
        (λ c, Controller.attach_recoverable_result c id o ctx.(generation) result)
  | None => mret tt
  end.

Lemma attach_calls id o recoverable t t' res :
  attach id o recoverable t = (t', res) →
  ∃ l, (l = [] ∨ ∃ result, l = [CAttach id o ctx.(generation) result])
       ∧ made_calls t.(world) l t'.(world).
Proof.
  unfold attach. destruct recoverable as [result|].
  - intros E. exists [CAttach id o ctx.(generation) result]. split; [eauto|].
    replace t' with (t', res).1 by done. by rewrite <- E.
  - intros [= <- <-]. exists []. split; [by left|]. unfold made_calls. cbn. by rewrite with_execution_same.
Qed.

Lemma attached_of_device id o l :
  (l = [] ∨ ∃ result, l = [CAttach id o ctx.(generation) result]) →
  Forall (of_device device_id) l.
Proof. intros [->|[? ->]]; by repeat constructor. Qed.

Lemma runs_commit_settlement id o terminal evidence recoverable :
  runs anything (commit_settlement ctx id o terminal evidence recoverable)
    (λ a t, a.2 ∈ t.(world).(hub).(tickets).(settled)).
Proof.
  intros t _. unfold commit_settlement. change (match recoverable with
    | Some result => _ | None => _ end) with (attach id o recoverable).
  destruct (now_then_run (λ _ settlement, attach id o recoverable;; persist_locked;;
      on_hub (on_tickets (hold_receipt settlement.2));; mret settlement)
    (λ now c, Controller.finalize c id o ctx.(generation) terminal evidence now)
    (λ now, CFinalize id o ctx.(generation) terminal evidence now) t)
    as [(l & Hl & Hw & e & He)|(now & [next x] & t1 & Hcall & Hw & _ & ->)]; [done|done| |].
  { split; [by eapply made_calls_steps|]. congruence. }
  unfold mbind, M_bind. destruct (attach id o recoverable t1) as [t2 res] eqn:E2.
  destruct (attach_calls _ _ _ _ _ _ E2) as (l & Hl & Hw2). apply attached_of_device in Hl as Hdl.
  assert (rtc wstep t.(world) t2.(world)) as Hsteps.
  { etransitivity; [eapply made_calls_steps; [|exact Hw]; by constructor|by eapply made_calls_steps]. }
  destruct res as [[]|e]; cbn; [|done].
  destruct (persist_locked t2) as [t3 res] eqn:E.
  destruct (persist_locked_spec _ _ _ E) as [[-> ->]|(s & r & Hc & Hb & Hr)]; [done|].
  destruct r as [rec|e]; subst res; cbn.
  - split; [|intros ? [= <-]; by left].
    destruct Hw as (Hp & H1 & H2 & H3 & H4), Hw2 as (Hp2 & K1 & K2 & K3 & K4).
    rewrite Hp in Hp2. rewrite Hp2 in Hc, Hb. cbn in Hc, Hb.
    rewrite K1, H1 in Hc. rewrite K2, K3, K4, H2, H3, H4 in Hb.
    destruct Hb as (G0 & G1 & G2 & G3 & G4). apply rtc_once.
    eapply (w_settle _ _ id o ctx.(generation) terminal evidence now); [exact Hcall|exact Hl|exact Hc|].
    unfold becomes. cbn. rewrite G0, G2. by repeat split.
  - split; [|done]. etransitivity; [exact Hsteps|]. by eapply rtc_once, w_persist.
Qed.

(** A block that is restarted from its first state when it cannot be committed *)
Lemma steps_commit_or_restart {E A} f g (change : M (S := S) E A) :
  calls change → steps (commit_or_restart f g change).
Proof.
  intros Hcalls t _. split; [|done]. unfold commit_or_restart, mbind, M_bind. cbn.
  destruct (snapshot_controller _) as [v|] eqn:Hv; cbn; [|done].
  destruct (Hcalls t) as (l & Hl & Hw). destruct (change t) as [t1 [a|e]]; cbn in *;
    [|by eapply made_calls_steps].
  unfold attempt. destruct (persist_locked t1) as [t2 res] eqn:Hp.
  destruct (persist_locked_spec _ _ _ Hp) as [[-> ->]|(s & r & Hc & Hb & Hr)];
    [by eapply made_calls_steps|].
  destruct r as [rec|e]; subst res; cbn.
  - etransitivity; [by eapply made_calls_steps|]. by eapply rtc_once, w_persist.
  - destruct (restore_controller _ v) as [c|] eqn:Hrest; cbn.
    + destruct Hw as (H0 & H1 & H2 & H3 & H4). rewrite H0 in Hc, Hb. cbn in Hc, Hb.
      rewrite H1 in Hc. rewrite H2, H3, H4 in Hb. destruct Hb as (G0 & G1 & G2 & G3 & G4).
      apply rtc_once. eapply (w_restart _ _ l s e v c); [done|exact Hc|done|done|].
      unfold becomes, with_execution. cbn. rewrite G0. by repeat split.
    + etransitivity; [by eapply made_calls_steps|]. by eapply rtc_once, w_persist.
Qed.
End Blocks.
End Steps.
