(* ===== verification/HubHandlers.v ===== *)
(** * The handlers of the Hub, as steps

    Every handler of a session, the session itself and every operation of the handle
    is a sequence of the steps of [HubSteps], whatever its input is and wherever it
    fails. *)

From S2P Require Import Prelude Vocabulary Protocol Crypto Tombstone Admission Registry Grants.
From S2P Require Import SafetyTypes Recovery EphemeralRefs Evidence Transport Controller.
From S2P Require Import ControllerSnapshot ControllerCalls ControllerDevice Trust Persistence.
From S2P Require Import StateStore Hub.
From S2P Require Import StateStoreTheorems HubSession HubService HubSteps.
Import HubOperationState ControllerSnapshot Persistence StateStore Hub HubSession.

Create HintDb steps.
#[export] Hint Resolve pure_ret pure_fail pure_panic pure_gets pure_lift pure_ok_or
  pure_on_session : steps.
#[export] Hint Resolve steps_next_tick steps_unix_time_ms steps_session_time_ms steps_attempt
  calls_unix_time_ms : steps.

Section Handlers.
Context `{ED : Ed25519} {S Io : Type} `{ST : HubAuthoritativeStateStore S Io}
  `{SU : !Setup (Io := Io)} `{HI : HashIter} `{B64 : Base64Url} `{RS : RecoverySerializer}
  `{CJ : CheckpointJson HubPersistentState} `{SL : !StoreLaws S Io}
  `{WJ : WireJson} `{SHA : Sha256} `{P : P256} `{WAJ : WebAuthnJson}
  `{RT : RotationSerializer}.

Hypothesis env_ok : ∀ n, store_io (env.(env_io) n).

Abbreviation Task := (Task (S := S)).
Abbreviation M := (M (S := S)).

(** ** More on programs *)

Lemma runs_pure {E A} (Q : World → Prop) (m : M E A) :
  pure m → runs (λ t, Q t.(world)) m (λ _ t, Q t.(world)).
Proof. intros Hm t Ht. split; [by rewrite Hm|]. intros a _. by rewrite Hm. Qed.

Lemma steps_lift_bind {E F A B} (f : E → F) (r : result E A) (k : A → M F B) :
  (∀ a, r = Ok a → steps (k a)) → steps (lift f r ≫= k).
Proof. destruct r as [a|e]; intros Hk; [exact (Hk a eq_refl)|by apply pure_steps]. Qed.

Lemma the_hub_pure {E} : pure (the_hub (E := E) (S := S)).
Proof. done. Qed.
Lemma the_execution_pure {E} : pure (the_execution (E := E) (S := S)).
Proof. done. Qed.
Lemma the_registry_pure {E} : pure (the_registry (E := E) (S := S)).
Proof. done. Qed.
Lemma the_session_pure {E} : pure (the_session (E := E) (S := S)).
Proof. done. Qed.

(** The calls of the handlers *)
Section Calls.
Context {E : Type} (f : ExecutionError → E) (id : string) (o : OperationOwner) (g now : N).

Lemma calls_cancel : calls (S := S) (on_execution f (λ c, Controller.request_cancel c id o g now)).
Proof. by apply (calls_on_execution _ _ (CCancel id o g now)). Qed.
Lemma calls_interrupted :
  calls (S := S) (on_execution f (λ c, Controller.mark_recovery_read_interrupted c id now)).
Proof. by apply (calls_on_execution _ _ (CInterrupted id now)). Qed.
Lemma calls_indeterminate reason :
  calls (S := S) (on_execution f (λ c, Controller.mark_indeterminate_owned c id o g reason now)).
Proof. by apply (calls_on_execution _ _ (CMarkIndeterminate id o g reason now)). Qed.
Lemma calls_lost : calls (S := S) (on_execution f (λ c, Controller.mark_connection_lost c id now)).
Proof. by apply (calls_on_execution _ _ (CConnectionLost id now)). Qed.
Lemma calls_resolve decision evidence :
  calls (S := S)
    (on_execution f (λ c, Controller.resolve_indeterminate_by c id o decision evidence now)).
Proof. by apply (calls_on_execution _ _ (CResolve id o decision evidence now)). Qed.
Lemma calls_accept policy evidence :
  calls (S := S) (on_execution f (λ c, Controller.accept_current_state c id policy evidence g now)).
Proof. by apply (calls_on_execution _ _ (CAccept id policy evidence g now)). Qed.
Lemma calls_resume d authority evidence :
  calls (S := S)
    (on_execution f (λ c, Controller.resume_mutations c d id authority g evidence now)).
Proof. by apply (calls_on_execution _ _ (CResume d id authority g evidence now)). Qed.
Lemma calls_prune d : calls (S := S) (on_execution f (λ c, Controller.prune_terminal c d g)).
Proof. by apply (calls_on_execution _ _ (CPrune d g)). Qed.
Lemma calls_prepare operation cap metadata :
  operation.(OperationRef.device_id) = device_id →
  calls (S := S)
    (on_execution f (λ c, Controller.prepare_with_metadata c operation o cap metadata now)).
Proof. intros Hd. by apply (calls_on_execution _ _ (CPrepare operation o cap metadata now)). Qed.
End Calls.

#[local] Hint Resolve the_hub_pure the_execution_pure the_registry_pure the_session_pure : steps.
#[local] Hint Resolve calls_cancel calls_interrupted calls_indeterminate calls_lost calls_resolve
  calls_accept calls_resume calls_prune calls_prepare : steps.
#[local] Hint Resolve steps_persist_locked : steps.

(** Programs are taken apart at their binds and case distinctions. *)
Ltac step :=
  match goal with
  | |- ∀ _, _ => intros ?
  | |- steps (_ ≫= _) => apply steps_bind
  | |- calls (_ ≫= _) => apply calls_bind
  | |- steps (attempt _) => apply steps_attempt
  | |- _ (match ?x with _ => _ end) => destruct x
  | |- _ => solve [eauto with steps | apply pure_steps; eauto with steps
                  | apply calls_steps; eauto with steps | apply pure_calls; eauto with steps]
  end.
Ltac steps := repeat step.

Lemma steps_answer id r : reply_receipt (CommandReply r) = None → steps (S := S) (answer_pending id r).
Proof. intros Hr. unfold answer_pending. steps. by apply steps_send_reply. Qed.

Lemma runs_answer id r x :
  (∀ y, reply_receipt (CommandReply r) = Some y → y = x) →
  runs (S := S) (λ t, x ∈ t.(world).(hub).(tickets).(settled)) (answer_pending id r) (λ _ _, True).
Proof.
  intros Hr. unfold answer_pending. eapply runs_bind; [by apply (runs_pure (λ w, x ∈ w.(hub).(tickets).(settled)))|].
  intros s. cbn. destruct (s.(pending) !! id) as [operation|]; [|by apply steps_runs, pure_steps].
  eapply runs_bind; [by apply (runs_pure (λ w, x ∈ w.(hub).(tickets).(settled)))|]. intros [] t Ht. split; [|done].
  apply rtc_once, (w_reply _ _ operation.(reply) (CommandReply r)); [|done].
  intros y Hy. by rewrite (Hr y Hy).
Qed.

Lemma steps_unqueue id : steps (S := S) (unqueue id).
Proof. by apply pure_steps. Qed.
#[local] Hint Resolve steps_unqueue : steps.
#[local] Hint Extern 2 (steps (answer_pending _ _)) => apply steps_answer; reflexivity : steps.
#[local] Hint Extern 2 (steps (send_reply _ _)) => apply steps_send_reply; reflexivity : steps.
#[local] Hint Extern 2 (steps (send_hub _)) => apply steps_send_hub; reflexivity : steps.

(** ** Dispatch *)

Section Session.
Variable ctx : SessionContext.

Lemma steps_cancel_undispatched id o : steps (S := S) (cancel_undispatched ctx id o).
Proof. unfold cancel_undispatched. steps. Qed.
#[local] Hint Resolve steps_cancel_undispatched : steps.

Lemma steps_reject id o e : steps (S := S) (reject_before_dispatch ctx id o e).
Proof. unfold reject_before_dispatch. steps. Qed.
#[local] Hint Resolve steps_reject : steps.

Lemma steps_non_delivery id o binding evidence :
  steps (S := S) (commit_hub_pre_enqueue_non_delivery ctx id o binding evidence).
Proof.
  unfold commit_hub_pre_enqueue_non_delivery. apply steps_bind; [steps|]. intros now t _.
  split; [|done]. unfold mbind at 1, M_bind, the_execution, gets. cbn beta iota.
  destruct (Controller.resolve_hub_pre_enqueue_non_delivery _ _ _ _ _ _ _) as [c r] eqn:E.
  assert (c = performs t.(world).(hub).(persistent).(execution)
                [CNonDelivery id o ctx.(generation) binding evidence now]) as Hc.
  { cbn. by rewrite E. }
  destruct r as [next|e]; [|done]. unfold lift, mbind, M_bind. cbn beta iota.
  assert (rtc wstep t.(world) (persist_execution_candidate_locked c t).1.(world)) as Hs
    by (eapply (steps_candidate env_ok); [|exact Hc]; by repeat constructor).
  by destruct (persist_execution_candidate_locked c t) as [t' [a|e]].
Qed.
#[local] Hint Resolve steps_non_delivery : steps.

Lemma command_sent_id h c hub envelope grant authority remote :
  Transport.remote_command_with_handoff h c hub envelope grant authority = Ok remote →
  command_id remote = envelope.(CommandEnvelope.operation_id).
Proof.
  unfold Transport.remote_command_with_handoff, Transport.sign_into. intros Hr. run Hr; done.
Qed.

Lemma runs_send_command {E} id m :
  command_id m = id →
  runs (S := S) (λ t, id ∈ t.(world).(hub).(tickets).(outgoing)) (send_command_hub (E := E) id m)
    (λ _ _, True).
Proof.
  intros Hid t Ht. split; [|done]. apply rtc_once. unfold send_command_hub, mbind, M_bind. cbn.
  destruct (env.(env_encodes) _); cbn; [|by apply (w_drop _ _ id)].
  destruct (env.(env_outbound_open) _); cbn; [|by apply (w_drop _ _ id)].
  by apply (w_send _ _ id m).
Qed.

Lemma steps_dispatch_operation id : steps (S := S) (dispatch_operation ctx id).
Proof.
  unfold dispatch_operation, pending_operation, cancel_for_shutdown_drain, reject_for_grant_signer,
    reject_for_semantic_constraint_snapshot.
  apply steps_bind; [steps|]. intros operation. apply steps_bind; [steps|]. intros h.
  destruct h.(draining); [steps|]. apply steps_bind; [steps|]. intros session_now.
  apply steps_bind; [steps|]. intros n. destruct (env.(env_sign_grant) _ _ _ _ _) as [grant|]; [|steps].
  apply steps_bind; [steps|]. intros binding. apply steps_lift_bind. intros remote Hremote.
  apply command_sent_id in Hremote. apply steps_bind; [steps|]. intros h'.
  destruct h'.(draining); [steps|]. destruct (negb _); [steps|].
  set (Q := λ w : World (S := S), id ∈ w.(hub).(tickets).(outgoing)).
  eapply runs_bind; [by apply (runs_commit_dispatch env_ok)|]. intros [].
  eapply runs_bind; [apply (runs_pure Q); by intros t|]. intros pending.
  eapply runs_bind; [by apply (runs_pure Q)|]. intros []. 
  eapply runs_bind; [by apply runs_send_command|]. intros [[]|e]; apply steps_runs; steps.
Qed.
#[local] Hint Resolve steps_dispatch_operation : steps.

Lemma steps_dispatch_loop fuel next : steps (S := S) (dispatch_loop ctx fuel next).
Proof.
  revert next. induction fuel as [|fuel IH]; intros []; cbn [dispatch_loop]; steps.
Qed.

Lemma steps_dispatch_next next : steps (S := S) (dispatch_next ctx next).
Proof. unfold dispatch_next. pose proof steps_dispatch_loop. steps. Qed.
#[local] Hint Resolve steps_dispatch_next : steps.

(** ** Results and acknowledgements *)

Lemma steps_maybe_send_recovery_challenge : steps (S := S) (maybe_send_recovery_challenge ctx).
Proof.
  unfold maybe_send_recovery_challenge. steps.
Qed.
#[local] Hint Resolve steps_maybe_send_recovery_challenge : steps.

Lemma steps_publicize_stream o id stream now locator :
  steps (S := S) (publicize_stream ctx o id stream now locator).
Proof. unfold publicize_stream. steps. Qed.
#[local] Hint Resolve steps_publicize_stream : steps.

Lemma steps_public_refs o id output incoming locators :
  steps (S := S) (public_refs ctx o id output incoming locators).
Proof. unfold public_refs. steps. Qed.
#[local] Hint Resolve steps_public_refs : steps.

Lemma steps_publicize o id r : steps (S := S) (publicize_process_output_refs ctx o id r).
Proof. unfold publicize_process_output_refs. steps. Qed.
#[local] Hint Resolve steps_publicize : steps.

Lemma steps_lose_outcome id o recovery_read reason :
  steps (S := S) (lose_outcome ctx id o recovery_read reason).
Proof. unfold lose_outcome. steps. Qed.
#[local] Hint Resolve steps_lose_outcome : steps.

Lemma steps_commit_cancelled_with id : steps (S := S) (commit_cancelled_with id).
Proof. unfold commit_cancelled_with. steps. Qed.
#[local] Hint Resolve steps_commit_cancelled_with : steps.

Lemma steps_answer_cancelled ids : steps (S := S) (answer_cancelled ids).
Proof. induction ids; cbn [answer_cancelled]; steps. Qed.
#[local] Hint Resolve steps_answer_cancelled : steps.

Lemma steps_handle_unknown_outcome id o : steps (S := S) (handle_unknown_outcome ctx id o).
Proof. unfold handle_unknown_outcome, commit_read_interrupted, commit_outcome_unknown. steps. Qed.
#[local] Hint Resolve steps_handle_unknown_outcome : steps.

Lemma steps_handle_result remote : steps (S := S) (handle_result ctx remote).
Proof.
  unfold handle_result, pending_operation. do 5 (apply steps_bind; [steps|]; intros ?).
  apply steps_bind; [steps|]. intros device_result.
  destruct (outcome_unknown _); [steps|]. apply steps_bind; [steps|]. intros [terminal evidence].
  eapply runs_bind; [by apply (runs_commit_settlement env_ok)|]. intros [next x].
  eapply runs_bind; [apply runs_answer with (x := x)|intros []; apply steps_runs; steps].
  destruct device_result; naive_solver.
Qed.
#[local] Hint Resolve steps_handle_result : steps.

Lemma steps_answer_unknown id recovery_read id' :
  steps (S := S) (answer_pending id (unknown_answer recovery_read id')).
Proof. apply steps_answer. by destruct recovery_read. Qed.
#[local] Hint Resolve steps_answer_unknown : steps.

Lemma steps_handle_indeterminate_ack ack : steps (S := S) (handle_indeterminate_ack ctx ack).
Proof. unfold handle_indeterminate_ack, pending_operation. steps. Qed.

Lemma steps_answer_cancel_waiter id d : steps (S := S) (answer_cancel_waiter id d).
Proof. unfold answer_cancel_waiter. steps. Qed.
#[local] Hint Resolve steps_answer_cancel_waiter : steps.

Lemma steps_handle_cancellation_ack ack : steps (S := S) (handle_cancellation_ack ctx ack).
Proof.
  unfold handle_cancellation_ack, handle_unproven_cancellation, pending_operation.
  steps.
Qed.
#[local] Hint Resolve steps_handle_indeterminate_ack steps_handle_cancellation_ack : steps.

(** ** The report after a reconnect *)

(** The outcome is what calls on [c] lead to. *)
Definition by_calls {A} c (o : Controller.outcome A) : Prop :=
  ∃ l, Forall (of_device device_id) l ∧ o.1 = performs c l.

Lemma by_no_calls {A} c (r : result ExecutionError A) : by_calls c (c, r).
Proof. by exists []. Qed.

Lemma by_one_call {A} c (o : Controller.outcome A) k :
  of_device device_id k → o.1 = (perform c k).1 → by_calls c o.
Proof. intros Hk Ho. exists [k]. by repeat constructor. Qed.

Lemma by_calls_trans {A B} c (o : Controller.outcome A) (o' : Controller.outcome B) :
  by_calls c o → by_calls o.1 o' → by_calls c o'.
Proof.
  intros (l & Hl & Ho) (l' & Hl' & Ho'). exists (l ++ l'). split; [by apply Forall_app|].
  by rewrite performs_app, <- Ho.
Qed.

Lemma reconcile_evidence_calls c t now : by_calls c (reconcile_evidence ctx c t now).
Proof.
  unfold reconcile_evidence. set (id := OperationRef.operation_id _).
  assert (∀ c', by_calls c' (Controller.mark_reconciliation_operator_required c' id)) as Hop.
  { intros c'. by apply (by_one_call _ _ (COperatorRequired id)). }
  destruct (negb _); [apply by_no_calls|]. destruct (_ || _); [apply Hop|].
  destruct (Controller.reconcile_authoritative_terminal c t now) as [c1 r] eqn:E.
  assert (by_calls c (c1, r)) as Hc.
  { apply (by_one_call _ _ (CReconcile t now)); [done|]. cbn. by rewrite E. }
  destruct r as [a|e]; [exact Hc|]. destruct (escalates e); [|exact Hc].
  by eapply by_calls_trans.
Qed.

Lemma reconcile_all_calls c l now : by_calls c (reconcile_all ctx c l now).
Proof.
  revert c. induction l as [|t l IH]; intros c; cbn; [apply by_no_calls|].
  pose proof (reconcile_evidence_calls c t now) as Hc.
  destruct (reconcile_evidence ctx c t now) as [c1 [a|e]]; [|exact Hc].
  eapply by_calls_trans; [exact Hc|apply IH].
Qed.

Lemma mark_gaps_calls c l : by_calls c (mark_gaps c l).
Proof.
  revert c. induction l as [|i l IH]; intros c; cbn; [apply by_no_calls|].
  destruct (_ || _); [apply IH|]. set (id := OperationRef.operation_id _).
  assert (by_calls c (Controller.mark_reconciliation_evidence_gap c id)) as Hc
    by (by apply (by_one_call _ _ (CEvidenceGap id))).
  destruct (Controller.mark_reconciliation_evidence_gap c id) as [c1 [a|e]]; [|exact Hc].
  eapply by_calls_trans; [exact Hc|apply IH].
Qed.

Lemma reconciled_calls c l now : by_calls c (reconciled ctx c l now).
Proof.
  unfold reconciled. pose proof (reconcile_all_calls c l now) as Hc.
  destruct (reconcile_all ctx c l now) as [c1 [a|e]]; [|exact Hc].
  destruct (Controller.quarantine_inspections c1) as [remaining|e]; [|exact Hc].
  eapply by_calls_trans; [exact Hc|apply mark_gaps_calls].
Qed.

Lemma steps_handle_reconciliation_report report :
  steps (S := S) (handle_reconciliation_report ctx report).
Proof.
  unfold handle_reconciliation_report. destruct (negb _); [steps|].
  do 3 (apply steps_bind; [steps|]; intros ?). intros t _. split; [|done].
  unfold mbind, M_bind, the_execution, gets, lift. cbn beta iota.
  set (c := t.(world).(hub).(persistent).(execution)).
  destruct (reconciled_calls c report.(RemoteReconciliationReport.terminal_evidence) a)
    as (l & Hl & Hc).
  destruct (reconciled ctx c _ a) as [candidate [x|e]]; [|done].
  by eapply (steps_candidate env_ok).
Qed.
#[local] Hint Resolve steps_handle_reconciliation_report : steps.

(** ** Recovery authorizations *)

Lemma calls_apply_authorization v a at_ms : calls (S := S) (apply_authorization v a at_ms).
Proof.
  unfold apply_authorization, apply_quarantine_decision, apply_mutation_resume, local_user. steps.
Qed.

Lemma steps_accept_authorization v pending a :
  steps (S := S) (accept_authorization ctx v pending a).
Proof.
  unfold accept_authorization. do 3 (apply steps_bind; [steps|]; intros ?).
  destruct (negb _); [steps|]. apply steps_bind; [steps|]. intros at_ms.
  apply steps_bind; [apply (steps_commit_or_restart env_ok), calls_apply_authorization|]. steps.
Qed.
#[local] Hint Resolve steps_accept_authorization : steps.

Lemma steps_handle_recovery_authorization a :
  steps (S := S) (handle_recovery_authorization ctx a).
Proof. unfold handle_recovery_authorization. steps. Qed.
#[local] Hint Resolve steps_handle_recovery_authorization : steps.

(** ** The end of a session *)

Lemma steps_settle_operations l : steps (S := S) (settle_operations ctx l).
Proof. induction l; cbn [settle_operations]; [steps|]. unfold settle_operation. steps. Qed.
#[local] Hint Resolve steps_settle_operations : steps.

(** The registry that was read under the lock *)
Definition with_the_registry (r : DeviceRegistry.DeviceRegistry) (t : Task) : Prop :=
  t.(world).(hub).(persistent).(registry) = r.

Lemma runs_the_registry {E} : runs (λ _, True) (the_registry (E := E)) with_the_registry.
Proof. intros t _. split; [done|]. by intros r [= <-]. Qed.

Lemma runs_set_registry {E} r r' :
  registry_call r r' →
  runs (with_the_registry r) (on_hub (E := E) (λ h, set_registry h r')) (λ _ _, True).
Proof. intros Hr t <-. split; [|done]. by apply rtc_once, (w_registry _ _ r'). Qed.

Lemma steps_cleanup_session : steps (S := S) (cleanup_session ctx).
Proof.
  unfold cleanup_session. do 5 (apply steps_bind; [steps|]; intros ?).
  eapply runs_bind; [apply runs_the_registry|]. intros r.
  apply runs_bind with (Q := λ _ _, True); [|intros []; apply steps_runs; steps].
  destruct (_ && _); [|apply steps_runs; steps].
  eapply runs_bind; [apply runs_set_registry; by right|]. intros []. apply steps_runs. steps.
Qed.

(** ** Requests of clients *)

Lemma steps_commit_admission operation o cap metadata :
  operation.(OperationRef.device_id) = device_id →
  steps (S := S) (commit_admission operation o cap metadata).
Proof.
  intros Hd. unfold commit_admission. apply steps_bind; [steps|]. intros now.
  apply steps_bind; [apply steps_attempt, calls_steps, calls_prepare, Hd|]. steps.
Qed.

Lemma steps_handle_execute id o cmd metadata authority channel :
  steps (S := S) (handle_execute ctx id o cmd metadata authority channel).
Proof.
  unfold handle_execute. do 2 (apply steps_bind; [steps|]; intros ?).
  destruct (_ || _); [steps|]. destruct (bool_decide _); [steps|].
  apply steps_bind; [by apply steps_commit_admission|]. steps.
Qed.

Lemma steps_commit_cancellation id o : steps (S := S) (commit_cancellation ctx id o).
Proof. unfold commit_cancellation. steps. Qed.
#[local] Hint Resolve steps_handle_execute steps_commit_cancellation : steps.

Lemma steps_handle_request r : steps (S := S) (handle_request ctx r).
Proof.
  unfold handle_request, handle_handoff, handle_cancel, handle_end_backend_session,
    fence_handoff_authority_change. steps.
Qed.
#[local] Hint Resolve steps_handle_request : steps.

(** ** The loop of a session *)

Lemma steps_handle_message m : steps (S := S) (handle_message ctx m).
Proof.
  unfold handle_message, handle_heartbeat, handle_backend_session_ended, handle_handoff_response,
    unexpected_agent_message. steps.
Qed.
#[local] Hint Resolve steps_handle_message : steps.

Lemma steps_handle_event e : steps (S := S) (handle_event ctx e).
Proof. unfold handle_event, ensure_current_generation. steps. Qed.
#[local] Hint Resolve steps_handle_event : steps.

Lemma steps_run_session_loop l : steps (S := S) (run_session_loop ctx l).
Proof.
  induction l as [|e l IH]; cbn [run_session_loop]; unfold before_event; steps.
Qed.
End Session.

(** The world after the registry and the controller know the new session *)
Definition connected_world (w : World (S := S)) r g : World (S := S) :=
  mk_world (set_execution (set_registry w.(hub) r)
    (perform w.(hub).(persistent).(execution) (CPrune device_id g)).1)
    w.(store) w.(sent) w.(replies) w.(tick).

Lemma connected_world_steps w cap r x g :
  DeviceRegistry.connect w.(hub).(persistent).(registry) device_id cap = (r, x) →
  rtc (wstep (S := S)) w (connected_world w r g).
Proof.
  intros Hr. set (w1 := mk_world (set_registry w.(hub) r) w.(store) w.(sent) w.(replies) w.(tick)).
  apply (rtc_l _ w w1).
  - apply (w_registry _ _ r); [|done]. left. exists cap. by rewrite Hr.
  - by apply rtc_once, (w_call _ _ (CPrune device_id g)).
Qed.

Lemma runs_commit_connection h c proof :
  runs (S := S) (λ _, True) (commit_connection h c proof)
    (λ session t, session.(DeviceSession.generation) ∈ t.(world).(hub).(tickets).(granted)).
Proof.
  intros t _. unfold commit_connection, on_execution, the_registry, the_execution, gets, on_hub,
    lift, mbind, M_bind. cbn beta iota.
  destruct (Transport.verify_agent_proof _ _ _ _) as [[]|e]; [|done].
  destruct (DeviceRegistry.connect _ device_id h.(AgentHello.capabilities)) as [r [session|e]] eqn:Hr.
  2:{ split; [|done]. apply rtc_once. apply (w_registry _ _ r); [|done]. left. eexists. by rewrite Hr. }
  set (g := session.(DeviceSession.generation)).
  pose proof (connected_world_steps _ _ _ _ g Hr) as Hsteps.
  set (t1 := mk_task (connected_world t.(world) r g) t.(Hub.session)).
  cbn [world hub persistent set_registry set_persistent Hub.execution Hub.session store sent replies tick].
  destruct (Controller.prune_terminal t.(world).(hub).(persistent).(execution) device_id g).2
    as [n|e]; [|done].
  change (persist_locked (mk_task _ _)) with (persist_locked t1).
  destruct (persist_locked t1) as [t2 res] eqn:E.
  destruct (persist_locked_spec env_ok _ _ _ E) as [[-> ->]|(s & x & Hc & Hb & Hres)]; [done|].
  destruct x as [rec|e]; subst res; cbn.
  - split; [|intros a [= <-]; by left]. apply rtc_once.
    destruct Hb as (G0 & G1 & G2 & G3 & G4).
    eapply (w_connect _ _ h.(AgentHello.capabilities) r session s rec); [exact Hr|exact Hc|].
    unfold becomes. cbn. rewrite G0, G2. by repeat split.
  - split; [|done]. etransitivity; [exact Hsteps|]. by eapply rtc_once, (w_persist t1.(world)).
Qed.
#[local] Hint Resolve steps_cleanup_session
  steps_maybe_send_recovery_challenge steps_run_session_loop : steps.

Lemma session_accepted_generation hub hello challenge g revision now m :
  Transport.accept_session hub hello challenge g revision now = Ok m →
  m.(SessionAccepted.device_generation) = g.
Proof. unfold Transport.accept_session, Transport.sign_into. intros Hr. run Hr; done. Qed.

(** The generation is given up, and the acceptance is sent if it can be. *)
Lemma runs_accept {A} g m (k : M HubServiceError A) :
  m.(SessionAccepted.device_generation) = g → steps k →
  runs (S := S) (λ t, g ∈ t.(world).(hub).(tickets).(granted))
    (on_hub (on_tickets (hand_over_session g));; send_hub (HubToAgent.Accepted m);; k) (λ _ _, True).
Proof.
  intros <- Hk t Ht. split; [|done]. unfold send_hub, mbind, M_bind. cbn.
  set (g := m.(SessionAccepted.device_generation)).
  destruct (negb _); cbn; [by apply rtc_once, (w_abandon _ _ g)|].
  destruct (negb _); cbn; [by apply rtc_once, (w_abandon _ _ g)|].
  eapply rtc_l; [|apply Hk; done]. by apply (w_accept _ _ m).
Qed.

(** The rest of the handshake, once the new generation is durable *)
Lemma runs_accept_session hello challenge g revision :
  runs (S := S) (λ t, g ∈ t.(world).(hub).(tickets).(granted))
    (accepted_at ← unix_time_ms;
     accepted ← lift HubServiceError.Transport
                  (Transport.accept_session material.(hub_identity) hello challenge g revision
                     accepted_at);
     on_hub (on_tickets (hand_over_session g));;
     send_hub (HubToAgent.Accepted accepted);;
     on_hub (λ h, set_live h (Some (g, revision)));;
     mret (mk_context hello challenge g revision)) (λ _ _, True).
Proof.
  eapply runs_bind with (Q := λ _ t, g ∈ t.(world).(hub).(tickets).(granted)).
  { intros t Ht. split; [by apply steps_unix_time_ms|]. unfold unix_time_ms, mbind, M_bind, next_tick.
    cbn. by destruct (env.(env_unix_time_ms) _). }
  intros now. destruct (Transport.accept_session _ _ _ _ _ _) as [m|e] eqn:Hm;
    [|by apply steps_runs, pure_steps].
  apply session_accepted_generation in Hm. apply runs_accept; [done|]. steps.
Qed.

Lemma steps_open_session first second : steps (S := S) (open_session first second).
Proof.
  unfold open_session, unexpected_agent_message. apply steps_bind; [steps|].
  intros [hello| | | | | | | | |]; try by steps.
  apply steps_bind; [steps|]. intros h. destruct (_ || _); [steps|].
  destruct (negb _); [steps|]. do 4 (apply steps_bind; [steps|]; intros ?).
  destruct a2 as [|proof| | | | | | | |]; try by steps.
  eapply runs_bind; [apply runs_commit_connection|]. intros session. apply runs_accept_session.
Qed.
#[local] Hint Resolve steps_open_session : steps.

Lemma steps_run_session first second events : steps (S := S) (run_session first second events).
Proof. unfold run_session. steps. Qed.

(** ** The handle *)

Lemma calls_attempt {E F A} (m : M E A) : calls m → calls (attempt (F := F) m).
Proof.
  intros Hm t. destruct (Hm t) as (l & Hl & Hw). exists l. split; [done|]. unfold attempt.
  by destruct (m t).
Qed.

Lemma steps_resolve_indeterminate id resolver decision evidence :
  steps (S := S) (HubService.resolve_indeterminate id resolver decision evidence).
Proof.
  apply (steps_commit_or_restart env_ok). apply calls_bind; [apply calls_attempt; steps|]. steps.
Qed.

Lemma steps_begin_shutdown_drain : steps (S := S) HubService.begin_shutdown_drain.
Proof. unfold HubService.begin_shutdown_drain. steps. Qed.

Lemma steps_install_snapshot revision digest :
  steps (S := S) (HubService.install_semantic_constraint_snapshot revision digest).
Proof. unfold HubService.install_semantic_constraint_snapshot. steps. Qed.

Lemma steps_requests o id cmd metadata f channel request :
  steps (S := S) (HubService.start_command o id cmd metadata f channel)
  ∧ steps (S := S) (HubService.handoff_request id request channel)
  ∧ steps (S := S) (HubService.cancel_as o id channel)
  ∧ steps (S := S) (HubService.end_backend_interaction_session id channel).
Proof.
  unfold HubService.start_command, HubService.handoff_request, HubService.cancel_as,
    HubService.end_backend_interaction_session. split_and!; steps.
Qed.
End Handlers.
