(* ===== verification/HubSystem.v ===== *)
(** * Hubs, their store and their crashes

    Any number of Hub processes run over one authoritative store. They start, take
    the store over from each other, make the steps of their tasks in any order, stop
    or crash, and the store itself may crash. The invariant says that whatever the
    store holds, now or after a crash, is a state of the operation controller that
    has dispatched every command that was sent, and settled every operation that was
    answered; and that no session was accepted that it does not know. *)

From S2P Require Import Prelude Vocabulary Protocol Crypto Tombstone Admission Registry Grants.
From S2P Require Import SafetyTypes Recovery EphemeralRefs Evidence Transport Controller.
From S2P Require Import ControllerSnapshot ControllerCalls ControllerTheorems ControllerDevice Trust.
From S2P Require Import Persistence StateStore StateStoreTheorems Hub HubSession HubService HubSteps.
Import HubOperationState ControllerSnapshot Persistence StateStore Hub HubSession HubService.

(** ** The history of a controller *)

(** A call, with the state it met, or a restart *)
Inductive event :=
| Called (c : Controller.AuthoritativeOperationController) (k : ccall)
| Restarted.

Section History.
Context `{HI : HashIter} `{B64 : Base64Url} `{RS : RecoverySerializer}.

(** The dispatch that an event records *)
Definition dispatched_by (e : event) : option string :=
  match e with
  | Called c (CDispatch id o g b now as k) => if is_ok (perform c k).2 then Some id else None
  | _ => None
  end.

(** The receipt that an event produces *)
Definition settled_by (e : event) : option ExecutionReceipt :=
  match e with
  | Called c (CFinalize id o g terminal evidence now) =>
      match (Controller.finalize c id o g terminal evidence now).2 with
      | Ok (_, x) => Some x
      | Err _ => None
      end
  | _ => None
  end.

Definition dispatched (tr : list event) : list string := omap dispatched_by tr.
Definition receipts (tr : list event) : list ExecutionReceipt := omap settled_by tr.

(** The runs of the controller of device [d] *)
Inductive ctrace (d : string) : list event → Controller.AuthoritativeOperationController → Prop :=
| tr_new l c : Controller.new_controller l = Ok c → ctrace d [] c
| tr_call tr c k :
    ctrace d tr c → of_device d k → ctrace d (tr ++ [Called c k]) (perform c k).1
| tr_restart tr c l s c' :
    ctrace d tr c → snapshot_controller c = Some s → restore_controller l s = Ok c' →
    ctrace d (tr ++ [Restarted]) c'.

(** The calls of a list, as events *)
Fixpoint called (c : Controller.AuthoritativeOperationController) (l : list ccall) : list event :=
  match l with [] => [] | k :: l => Called c k :: called (perform c k).1 l end.

Lemma ctrace_calls d tr c l :
  ctrace d tr c → Forall (of_device d) l → ctrace d (tr ++ called c l) (performs c l).
Proof.
  intros Htr Hl. revert tr c Htr. induction Hl as [|k l Hk _ IH]; intros tr c Htr; cbn.
  - by rewrite app_nil_r.
  - change (Called c k :: _) with ([Called c k] ++ called (perform c k).1 l). rewrite (assoc_L (++)).
    by apply IH, tr_call.
Qed.

Context `{B64L : !Base64UrlLaws}.

(** The runs of one device are runs of the controller, with no assumption. *)
Lemma ctrace_reachable d tr c : ctrace d tr c → creachable c ∧ one_device d c.
Proof.
  induction 1 as [l c Hnew|tr c k _ [Hr Hd] Hk|tr c l s c' _ [Hr Hd] Hs Hrest].
  - split; [exists l, c; split; [done|constructor]|by eapply new_one_device].
  - pose proof (creachable_safe c Hr) as Hs.
    destruct (perform_one_device d c k (sf_cinv _ Hs) Hd Hk) as [Hd' Hstep]. split; [|done].
    destruct Hr as (l & c0 & Hnew & Hrun). exists l, c0. split; [done|]. by eapply crun_step.
  - assert (cstep c None c') as Hstep by by eapply cstep_restart.
    split; [|eapply restart_one_device; [by apply creachable_safe|done..]].
    destruct Hr as (l0 & c0 & Hnew & Hrun). exists l0, c0. split; [done|]. by eapply crun_step.
Qed.
End History.

(** ** What a registry knows *)

Section Registry.
Context `{ED : Ed25519} `{HI : HashIter}.
Implicit Types (r : DeviceRegistry.DeviceRegistry) (d : string) (G : list N).

(** There is only device [d], and it has reached the generations [G], as far as they
    can be told from the last one, at which the counter stops. *)
Definition reached G (n : N) : Prop := ∀ g, g ∈ G → (g < u64_max → g ≤ n)%N.

Definition knows d G r : Prop :=
  ∀ id x, r.(DeviceRegistry.devices) !! id = Some x →
    id = d ∧ reached G x.(DeviceRegistry.generation).

Definition snapshot_knows d G (s : DeviceRegistry.DeviceRegistrySnapshot) : Prop :=
  ∀ x, x ∈ s.(DeviceRegistry.snap_devices) →
    x.(DeviceRegistry.snap_device_id) = d ∧ reached G x.(DeviceRegistry.snap_generation).

Lemma knows_mono d G G' r : (∀ g, g ∈ G' → g ∈ G) → knows d G r → knows d G' r.
Proof. intros HG Hr id x Hx. destruct (Hr id x Hx) as [Hd Hg]. split; [done|]. intros g Hin. auto. Qed.

Lemma snapshot_knows_mono d G G' s :
  (∀ g, g ∈ G' → g ∈ G) → snapshot_knows d G s → snapshot_knows d G' s.
Proof. intros HG Hs x Hx. destruct (Hs x Hx) as [Hd Hg]. split; [done|]. intros g Hin. auto. Qed.

Lemma knows_snapshot d G r : knows d G r → snapshot_knows d G (DeviceRegistry.snapshot r).
Proof.
  intros Hr x Hx. cbn in Hx. rewrite (merge_sort_Permutation DeviceRegistry.snapshot_le) in Hx.
  apply list_elem_of_fmap in Hx as ([id y] & -> & Hy%elem_of_hash_iter). by apply Hr.
Qed.

Lemma load_devices_knows d G l m m' :
  (∀ x, x ∈ l → x.(DeviceRegistry.snap_device_id) = d
                ∧ reached G x.(DeviceRegistry.snap_generation)) →
  knows d G (DeviceRegistry.mk_registry m ∅) →
  DeviceRegistry.load_devices l m = Ok m' → knows d G (DeviceRegistry.mk_registry m' ∅).
Proof.
  revert m. induction l as [|x l IH]; intros m Hl Hm; cbn; [by intros [= <-]|].
  destruct (bool_decide _); [done|]. destruct (vk_from_bytes _) as [key|]; [|done].
  assert (∀ e, e.(DeviceRegistry.generation) = x.(DeviceRegistry.snap_generation) →
    DeviceRegistry.load_devices l (<[x.(DeviceRegistry.snap_device_id) := e]> m) = Ok m' →
    knows d G (DeviceRegistry.mk_registry m' ∅)) as Hgo.
  { intros e He Hload. eapply IH; [| |exact Hload]; [by intros; apply Hl; right|].
    intros id y. cbn. intros [[<- <-]|[_ Hy]]%lookup_insert_Some; [|by apply Hm].
    rewrite He. apply Hl. by left. }
  destruct (x.(DeviceRegistry.snap_capabilities)); [destruct (negb _); [done|]|]; by apply Hgo.
Qed.

Lemma from_snapshot_knows d G s r :
  snapshot_knows d G s → DeviceRegistry.from_snapshot s = Ok r → knows d G r.
Proof.
  intros Hs. unfold DeviceRegistry.from_snapshot. destruct (negb _); [done|].
  destruct (DeviceRegistry.load_devices _ ∅) as [m|] eqn:Hm; [|done]. intros [= <-].
  eapply load_devices_knows in Hm; [exact Hm|done|]. intros id x Hx. cbn in Hx. by apply lookup_empty_Some in Hx.
Qed.

Lemma restored_knows d G s r :
  snapshot_knows d G s → DeviceRegistry.from_persisted_snapshot s = Ok r →
  knows d G (DeviceRegistry.mark_all_offline r).
Proof.
  intros Hs Hr. assert (knows d G r) as Hk.
  { unfold DeviceRegistry.from_persisted_snapshot in Hr. destruct (_ && _);
      [by eapply from_snapshot_knows|]. destruct (DeviceRegistry.check_pairings _ _); [|done].
    eapply from_snapshot_knows; [|exact Hr]. intros x (y & -> & Hy)%list_elem_of_fmap. exact (Hs y Hy). }
  intros id x. cbn. rewrite lookup_fmap. intros (y & Hy & ->)%fmap_Some. by apply (Hk id y).
Qed.

(** A device is replaced by a later version of itself. *)
Lemma set_device_knows d G G' r id x x' :
  knows d G r → r.(DeviceRegistry.devices) !! id = Some x →
  reached G' x'.(DeviceRegistry.generation) →
  knows d G' (DeviceRegistry.set_device r id x').
Proof.
  intros Hr Hx Hlater i y. cbn. intros [[<- <-]|[Hne Hy]]%lookup_insert_Some.
  - split; [by eapply Hr|done].
  - destruct (Hr _ _ Hx) as [-> _]. destruct (Hr _ _ Hy) as [-> _]. done.
Qed.

Lemma reached_next G n : reached G n → reached G (DeviceRegistry.next_generation n).
Proof.
  intros Hn g Hg Hlt. apply N.lt_le_incl, DeviceRegistry.next_generation_ge; [done|]. by apply Hn.
Qed.

Lemma disconnect_knows d G r id : knows d G r → knows d G (DeviceRegistry.disconnect r id).1.
Proof.
  intros Hr. unfold DeviceRegistry.disconnect.
  destruct (r.(DeviceRegistry.devices) !! id) as [x|] eqn:Hx; [|done].
  eapply set_device_knows; [done..|]. exact (proj2 (Hr _ _ Hx)).
Qed.

Lemma rotate_knows d G r id key message old new :
  knows d G r → knows d G (DeviceRegistry.rotate_device_key r id key message old new).1.
Proof.
  intros Hr. unfold DeviceRegistry.rotate_device_key. 
  repeat (case_match; try done). eapply set_device_knows; [done..|].
  apply reached_next. by eapply Hr.
Qed.

Lemma connect_knows d G r id cap r' x :
  knows d G r → DeviceRegistry.connect r id cap = (r', x) →
  knows d G r' ∧ ∀ session, x = Ok session →
    let g := session.(DeviceSession.generation) in
    knows d (g :: G) r' ∧ ((g < u64_max)%N → g ∉ G).
Proof.
  intros Hr. unfold DeviceRegistry.connect. destruct (bool_decide _); [by intros [= <- <-]|].
  destruct (negb _); [by intros [= <- <-]|].
  destruct (r.(DeviceRegistry.devices) !! id) as [y|] eqn:Hy; [|by intros [= <- <-]].
  intros [= <- <-]. destruct (Hr _ _ Hy) as [-> Hg]. apply reached_next in Hg as Hnext.
  split; [by eapply set_device_knows|]. intros session [= <-]. cbn. split.
  - eapply set_device_knows; [done..|]. intros g [->|Hin]%elem_of_cons Hlt; [done|by apply Hnext].
  - intros Hlt Hin. assert (DeviceRegistry.next_generation y.(DeviceRegistry.generation)
      ≤ y.(DeviceRegistry.generation))%N as Hle by by apply Hg.
    unfold DeviceRegistry.next_generation, saturating_add in *. lia.
Qed.
End Registry.

(** ** The system *)

(** What left the Hubs, and what they hold to send *)
Record Outputs := mk_outputs {
  commands : list string;
  answers : list ExecutionReceipt;
  generations : list N
}.

Definition sent_command (m : HubToAgent) : option string :=
  match m with HubToAgent.Command c => Some (command_id c) | _ => None end.
Definition sent_generation (m : HubToAgent) : option N :=
  match m with HubToAgent.Accepted a => Some a.(SessionAccepted.device_generation) | _ => None end.

Section System.
Context `{ED : Ed25519} {S Io : Type} `{ST : HubAuthoritativeStateStore S Io}
  `{HI : HashIter} `{B64 : Base64Url} `{RS : RecoverySerializer}
  `{CJ : CheckpointJson HubPersistentState} `{SL : !StoreLaws S Io} `{RT : RotationSerializer}.

Abbreviation Setup := (Setup (Io := Io)).

Record Sys := mk_sys {
  hubs : list (Setup * HubInner);
  sys_store : S;
  sys_sent : list HubToAgent;
  sys_replies : list (N * Reply)
}.
Implicit Types (σ : Sys) (s : S) (h : HubInner).

Definition outputs σ : Outputs :=
  mk_outputs
    (omap sent_command σ.(sys_sent) ++ (σ.(hubs) ≫= λ x, x.2.(tickets).(outgoing)))
    (omap (λ r, reply_receipt r.2) σ.(sys_replies) ++ (σ.(hubs) ≫= λ x, x.2.(tickets).(settled)))
    (omap sent_generation σ.(sys_sent) ++ (σ.(hubs) ≫= λ x, x.2.(tickets).(granted))).

Definition started (r : result (failure HubServiceError) (Setup * HubInner))
    : list (Setup * HubInner) :=
  match r with Ok h => [h] | Err _ => [] end.

Inductive sys_step σ : Sys → Prop :=
| sys_task i SU h n (w : World (S := S)) :
    σ.(hubs) !! i = Some (SU, h) →
    wstep (SU := SU) (mk_world h σ.(sys_store) σ.(sys_sent) σ.(sys_replies) n) w →
    sys_step σ (mk_sys (<[i := (SU, w.(hub))]> σ.(hubs)) w.(store) w.(sent) w.(replies))
| sys_stop i :
    sys_step σ (mk_sys (delete i σ.(hubs)) σ.(sys_store) σ.(sys_sent) σ.(sys_replies))
| sys_crash s :
    store_crash σ.(sys_store) s → sys_step σ (mk_sys σ.(hubs) s σ.(sys_sent) σ.(sys_replies))
| sys_start env cfg mat verifier s r :
    (∀ n, store_io (env.(env_io) n)) →
    new_with_state_store env cfg mat verifier σ.(sys_store) = (s, r) →
    sys_step σ (mk_sys (σ.(hubs) ++ started r) s σ.(sys_sent) σ.(sys_replies)).

(** What the store may hold, now or after a crash *)
Definition possible s (o : option DurableHubState) : Prop :=
  authoritative s = Ok o ∨ ∃ s', store_crash s s' ∧ authoritative s' = Ok o.

(** A store that never held a state *)
Definition fresh s : Prop := store_ok s ∧ ∀ p, ¬ possible s (Some p).

Definition initial s : Sys := mk_sys [] s [] [].
Definition reachable σ : Prop := ∃ s, fresh s ∧ rtc sys_step (initial s) σ.

(** ** The invariant *)

Definition covers (K : Outputs) (tr : list event) : Prop :=
  K.(commands) ⊆+ dispatched tr ∧ ∀ x, x ∈ K.(answers) → x ∈ receipts tr.

Definition record_ok (K : Outputs) (p : DurableHubState) : Prop :=
  ∃ d tr c, ctrace d tr c ∧ snapshot_controller c = Some p.(state).(Persistence.execution)
    ∧ covers K tr ∧ snapshot_knows d K.(generations) p.(state).(Persistence.registry).

(** The state of a Hub that still holds the lease *)
Record current_ok (K : Outputs) (d : string) (p : PersistentHubState) : Prop := {
  co_trace : ∃ tr ext, covers K tr ∧ ctrace d tr p.(committed_execution)
                       ∧ ctrace d (tr ++ ext) p.(execution);
  co_committed : knows d K.(generations) p.(committed_registry);
  co_registry : knows d K.(generations) p.(registry)
}.

Definition hub_ok (K : Outputs) s (x : Setup * HubInner) : Prop :=
  let p := x.2.(persistent) in
  ∀ rec, possible s (Some rec) →
    (p.(writer).(lease_revision) ≤ rec.(revision))%N
    ∧ (lease rec = p.(writer) → current_ok K (device_id (Setup := x.1)) p).

(** The revision that a Hub has committed last *)
Definition lease_of (x : Setup * HubInner) : N := x.2.(persistent).(writer).(lease_revision).

Record Inv (K : Outputs) s (l : list (Setup * HubInner)) : Prop := {
  inv_store : store_ok s;
  inv_records : ∀ rec, possible s (Some rec) → record_ok K rec;
  inv_empty : possible s None → l = [] ∧ K = mk_outputs [] [] [];
  inv_hubs : Forall (hub_ok K s) l;
  inv_leases : NoDup (lease_of <$> l);
  inv_fresh : NoDup (filter (λ g, (g < u64_max)%N) K.(generations))
}.

(** ** What the store may hold *)

Lemma possible_crash s s' o : store_crash s s' → possible s' o → possible s o.
Proof.
  intros Hc [Ho|(s'' & Hc' & Ho)]; right; exists s'; split; [done..|].
  by rewrite <- (crash_settles s s' s'' Hc Hc').
Qed.

(** A call leaves what was possible before, or the record it was to publish; after a
    success there is only this record. *)
Lemma possible_effect new s s' r o :
  store_effect authoritative store_crash new s s' r → possible s' o →
  match r with
  | Ok rec => o = Some rec ∧ ∃ cur, authoritative s = Ok cur ∧ new cur rec
  | Err _ => possible s o ∨ ∃ cur rec, authoritative s = Ok cur ∧ new cur rec ∧ o = Some rec
  end.
Proof.
  assert (∀ s'', as_before authoritative store_crash s s'' → authoritative s'' = Ok o → possible s o)
    as Hbefore.
  { intros s'' (s0 & Hs0 & Heq) Ho. right. exists s0. split; [done|]. by rewrite <- Heq. }
  destruct r as [rec|e]; cbn.
  - intros [Hcur [Ha Hset]] Ho. split; [|done].
    destruct Ho as [Ho|(s'' & Hc & Ho)]; [|rewrite (Hset s'' Hc) in Ho]; congruence.
  - intros [[Ha Hc]|(_ & cur & rec & Ha & Hnew & Ha' & Hc)] [Ho|(s'' & Hs'' & Ho)].
    + left. left. congruence.
    + left. by eapply Hbefore, Ho; apply Hc.
    + right. exists cur, rec. split_and!; [done..|congruence].
    + destruct (Hc s'' Hs'') as [Hrec|Hb]; [right|left; by eapply Hbefore].
      exists cur, rec. split_and!; [done..|congruence].
Qed.

(** ** Fewer outputs *)

Record within (K' K : Outputs) : Prop := {
  wi_commands : K'.(commands) ⊆+ K.(commands);
  wi_answers : ∀ x, x ∈ K'.(answers) → x ∈ K.(answers);
  wi_generations : K'.(generations) ⊆+ K.(generations)
}.

Lemma within_covers K K' tr : within K' K → covers K tr → covers K' tr.
Proof.
  intros [Hc Ha _] [H1 H2]. split; [by etransitivity|auto].
Qed.

Lemma within_generations K K' g : within K' K → g ∈ K'.(generations) → g ∈ K.(generations).
Proof. intros [_ _ Hg] Hin. by eapply elem_of_submseteq. Qed.

Lemma within_record K K' p : within K' K → record_ok K p → record_ok K' p.
Proof.
  intros Hw (d & tr & c & Htr & Hs & Hcov & Hk). exists d, tr, c.
  split_and!; [done|done|by eapply within_covers|].
  eapply snapshot_knows_mono; [|exact Hk]. intros g. by apply within_generations.
Qed.

Lemma within_current K K' d (p : PersistentHubState) : within K' K → current_ok K d p → current_ok K' d p.
Proof.
  intros Hw [(tr & ext & Hcov & Htr) Hc Hr]. split.
  - exists tr, ext. split; [by eapply within_covers|done].
  - eapply knows_mono; [|exact Hc]. intros g. by apply within_generations.
  - eapply knows_mono; [|exact Hr]. intros g. by apply within_generations.
Qed.

Lemma within_hub K K' s x : within K' K → hub_ok K s x → hub_ok K' s x.
Proof.
  intros Hw Hx rec Hrec. destruct (Hx rec Hrec) as [Hle Hok]. split; [done|].
  intros Hl. by eapply within_current, Hok.
Qed.

Lemma within_NoDup K K' :
  within K' K → NoDup (filter (λ g, (g < u64_max)%N) K.(generations)) →
  NoDup (filter (λ g, (g < u64_max)%N) K'.(generations)).
Proof.
  intros [_ _ [k ->]%submseteq_Permutation]. rewrite filter_app. by intros [? _]%NoDup_app.
Qed.

Lemma within_Inv K K' s l : within K' K → Inv K s l → Inv K' s l.
Proof.
  intros Hw [Hs Hr He Hh Hl Hf]. split; [done|..].
  - intros rec Hrec. by eapply within_record, Hr.
  - intros [-> ->]%He. split; [done|]. destruct Hw as [Hc Ha Hg]. destruct K' as [C A G]. cbn in *.
    apply submseteq_nil_r in Hc as ->. apply submseteq_nil_r in Hg as ->.
    destruct A as [|x A]; [done|]. by destruct (not_elem_of_nil x (Ha x (list_elem_of_here _ _))).
  - eapply Forall_impl; [exact Hh|]. intros x. by apply within_hub.
  - done.
  - by eapply within_NoDup.
Qed.

(** ** Steps of a Hub *)

Lemma NoDup_replace {A} (l : list A) i x : NoDup l → x ∉ l → NoDup (<[i := x]> l).
Proof.
  revert i. induction l as [|y l IH]; intros [|i] Hnd Hx; cbn; [done..| |];
    apply NoDup_cons in Hnd as [Hy Hnd]; apply not_elem_of_cons in Hx as [Hne Hx]; apply NoDup_cons.
  - done.
  - split; [|by apply IH]. intros [j Hj]%list_elem_of_lookup.
    apply list_lookup_insert_Some in Hj as [(_ & <- & _)|[_ Hj]]; [done|].
    by apply Hy, (list_elem_of_lookup_2 _ j).
Qed.

Section Hub.
Context (K : Outputs) (s : S) (l : list (Setup * HubInner)) (i : nat) (SU : Setup) (h : HubInner).
Hypotheses (HI_ : Inv K s l) (Hi : l !! i = Some (SU, h)).

Abbreviation d := (device_id (Setup := SU)).

Lemma this_hub : hub_ok K s (SU, h).
Proof. pose proof (inv_hubs _ _ _ HI_) as Hh. rewrite Forall_lookup in Hh. by apply (Hh i). Qed.

Lemma not_empty : ¬ possible s None.
Proof. intros [-> _]%(inv_empty _ _ _ HI_). done. Qed.

(** The Hub changes its own state. *)
Lemma inv_local h' :
  h'.(persistent).(writer) = h.(persistent).(writer) →
  (current_ok K d h.(persistent) → current_ok K d h'.(persistent)) →
  Inv K s (<[i := (SU, h')]> l).
Proof.
  intros Hw Hok. destruct HI_ as [Hs Hr He Hh Hl Hf]. split; [done|done| | | |done].
  - by intros ?%not_empty.
  - apply Forall_insert; [done|]. intros rec Hrec. cbn. rewrite Hw.
    destruct (this_hub rec Hrec) as [Hle Hcur]. split; [done|auto].
  - rewrite list_fmap_insert, list_insert_id; [done|]. rewrite list_lookup_fmap, Hi. cbn.
    unfold lease_of. cbn. by rewrite Hw.
Qed.

(** What a commit under the lease of the Hub may leave *)
Lemma commit_possible r c s' x :
  commits_to h.(persistent) r c s s' x →
  store_ok s' ∧ ∃ v, capture_hub r c = Some v ∧
  (∀ rec, x = Ok rec → ∃ cur, possible s (Some cur) ∧ lease cur = h.(persistent).(writer)
                              ∧ rec = next_record cur v) ∧
  ∀ o, possible s' o →
    match x with
    | Ok rec => o = Some rec
    | Err _ => possible s o ∨ ∃ cur, possible s (Some cur) ∧ lease cur = h.(persistent).(writer)
                                     ∧ o = Some (next_record cur v)
    end.
Proof.
  intros (v & io & Hv & Hio & Hc). destruct HI_ as [Hs _ _ _ _ _].
  destruct (commit_law s io _ v s' x Hs Hio Hc) as [Hs' Heff]. split; [done|]. exists v. split; [done|].
  split.
  - intros rec ->. destruct Heff as [(cur & Ha & c' & -> & Hl & ->) _]. exists c'.
    split_and!; [by left|done|done].
  - intros o Ho. pose proof (possible_effect _ _ _ _ _ Heff Ho) as Hp. destruct x as [rec|e]; [apply Hp|].
    destruct Hp as [Hp|(cur & rec & Ha & (c' & -> & Hl & ->) & ->)]; [by left|right].
    exists c'. split_and!; [by left|done|done].
Qed.

(** The record that a commit publishes *)
Lemma published_ok K' r c v cur tr :
  capture_hub r c = Some v → ctrace d tr c → covers K' tr → knows d K'.(generations) r →
  record_ok K' (next_record cur v).
Proof.
  unfold capture_hub. destruct (snapshot_controller c) as [y|] eqn:Hy; [|done]. intros [= <-] Htr Hcov Hk.
  exists d, tr, c. split_and!; [done|done|done|]. by apply knows_snapshot.
Qed.

(** No other lease is as late as the published record. *)
Lemma published_later K' y cur v :
  hub_ok K' s y → possible s (Some cur) →
  (y.2.(persistent).(writer).(lease_revision) ≤ (next_record cur v).(revision))%N
  ∧ lease (next_record cur v) ≠ y.2.(persistent).(writer).
Proof.
  intros Hy Hcur. destruct (Hy cur Hcur) as [Hle _]. split; [cbn; lia|].
  intros Heq. rewrite <- Heq in Hle. cbn in Hle. lia.
Qed.

Lemma inv_commit_ok K' r c s' rec h' :
  commits_to h.(persistent) r c s s' (Ok rec) →
  h'.(persistent) = mk_persistent r c (lease rec) r c →
  (current_ok K d h.(persistent) →
   (∃ tr, ctrace d tr c ∧ covers K' tr) ∧ knows d K'.(generations) r
   ∧ NoDup (filter (λ g, (g < u64_max)%N) K'.(generations))) →
  Inv K' s' (<[i := (SU, h')]> l).
Proof.
  intros Hc Hh' Hok. destruct (commit_possible _ _ _ _ Hc) as (Hs' & v & Hv & Hpub & Hposs).
  destruct (Hpub rec eq_refl) as (cur & Hcur & Hl & ->).
  destruct Hok as ((tr & Htr & Hcov) & Hk & Hnd); [by apply (this_hub cur Hcur)|].
  split; [done|..|done].
  - intros rec [= ->]%Hposs. by eapply published_ok.
  - by intros [=]%Hposs.
  - apply Forall_insert.
    + eapply Forall_impl; [exact (inv_hubs _ _ _ HI_)|]. intros y Hy rec [= ->]%Hposs.
      destruct (published_later K y cur v Hy Hcur). done.
    + intros rec [= ->]%Hposs. cbn. rewrite Hh'. split; [done|]. intros _. split; cbn; [|done|done].
      exists tr, []. by rewrite app_nil_r.
  - rewrite list_fmap_insert. apply NoDup_replace; [apply HI_|]. unfold lease_of at 1. cbn. rewrite Hh'.
    cbn. intros (y & Hy & Hin)%list_elem_of_fmap.
    pose proof (inv_hubs _ _ _ HI_) as Hh. rewrite Forall_forall in Hh.
    destruct (Hh y Hin cur Hcur) as [Hle _]. unfold lease_of in Hy. lia.
Qed.

Lemma inv_commit_err r c s' e h' :
  commits_to h.(persistent) r c s s' (Err e) →
  h'.(persistent).(writer) = h.(persistent).(writer) →
  (current_ok K d h.(persistent) →
   (∃ tr, ctrace d tr c ∧ covers K tr) ∧ knows d K.(generations) r
   ∧ current_ok K d h'.(persistent)) →
  Inv K s' (<[i := (SU, h')]> l).
Proof.
  intros Hc Hh' Hok. destruct (commit_possible _ _ _ _ Hc) as (Hs' & v & Hv & _ & Hposs).
  assert (∀ y, hub_ok K s y → hub_ok K s' y) as Hothers.
  { intros y Hy rec [Hrec|(cur & Hcur & Hl & [= ->])]%Hposs; [by apply Hy|].
    by destruct (published_later K y cur v Hy Hcur). }
  split; [done|..].
  - intros rec [Hrec|(cur & Hcur & Hl & [= ->])]%Hposs; [by apply (inv_records _ _ _ HI_)|].
    destruct Hok as ((tr & Htr & Hcov) & Hk & _); [by apply (this_hub cur Hcur)|].
    by eapply published_ok.
  - intros [Hn|(cur & _ & _ & [=])]%Hposs. by destruct not_empty.
  - apply Forall_insert; [eapply Forall_impl; [exact (inv_hubs _ _ _ HI_)|done]|].
    apply Hothers. intros rec Hrec. cbn. rewrite Hh'. destruct (this_hub rec Hrec) as [Hle Hcur].
    split; [done|]. intros Hl. by apply Hok, Hcur.
  - apply (inv_local h'); [done|]. intros Hcur. by apply Hok.
  - apply HI_.
Qed.
End Hub.

(** ** The outputs, from one Hub *)

Definition beside (i : nat) (l : list (Setup * HubInner)) : Outputs :=
  mk_outputs (delete i l ≫= λ x, x.2.(tickets).(outgoing))
    (delete i l ≫= λ x, x.2.(tickets).(settled)) (delete i l ≫= λ x, x.2.(tickets).(granted)).

Definition with_hub (sent : list HubToAgent) (replies : list (N * Reply)) (k : Tickets)
    (rest : Outputs) : Outputs :=
  mk_outputs (omap sent_command sent ++ k.(outgoing) ++ rest.(commands))
    (omap (λ r, reply_receipt r.2) replies ++ k.(settled) ++ rest.(answers))
    (omap sent_generation sent ++ k.(granted) ++ rest.(generations)).

Lemma outputs_from σ i x :
  σ.(hubs) !! i = Some x →
  let K := with_hub σ.(sys_sent) σ.(sys_replies) x.2.(tickets) (beside i σ.(hubs)) in
  within (outputs σ) K ∧ within K (outputs σ).
Proof.
  intros Hi%delete_Permutation K.
  assert (∀ A (f : Setup * HubInner → list A),
    (σ.(hubs) ≫= f) ≡ₚ f x ++ (delete i σ.(hubs) ≫= f)) as Hbind.
  { intros A f. rewrite Hi at 1. done. }
  assert (∀ A (a b c : list A), b ≡ₚ c → a ++ b ⊆+ a ++ c) as Happ.
  { intros A a b c Hp. by rewrite Hp. }
  split; split; cbn.
  1,3,4,6: apply Happ; by rewrite <- ?Hbind, ?Hbind.
  all: intros y; by rewrite !elem_of_app, (Hbind _ _), elem_of_app.
Qed.

Lemma beside_insert i x (l : list (Setup * HubInner)) : beside i (<[i := x]> l) = beside i l.
Proof.
  assert (delete i (<[i := x]> l) = delete i l) as Heq; [|unfold beside; by rewrite Heq].
  revert i. induction l as [|y l IH]; intros [|i]; cbn; [done..|]. f_equal. apply IH.
Qed.

(** ** Histories grow *)

Lemma covers_app K tr ext : covers K tr → covers K (tr ++ ext).
Proof.
  intros [Hc Ha]. unfold covers, dispatched, receipts in *. rewrite !omap_app. split.
  - etransitivity; [exact Hc|]. by apply submseteq_inserts_r.
  - intros x Hx. apply elem_of_app. auto.
Qed.

Section Current.
Context (K : Outputs) (d : string) (p : PersistentHubState).
Hypothesis Hp : current_ok K d p.

Lemma current_live : ∃ tr, ctrace d tr p.(execution) ∧ covers K tr.
Proof.
  destruct (co_trace _ _ _ Hp) as (tr & ext & Hcov & _ & Htr). exists (tr ++ ext).
  split; [done|by apply covers_app].
Qed.

Lemma current_calls l :
  Forall (of_device d) l → ∃ tr, ctrace d tr (performs p.(execution) l) ∧ covers K tr.
Proof.
  intros Hl. destruct current_live as (tr & Htr & Hcov). exists (tr ++ called p.(execution) l).
  split; [by apply ctrace_calls|by apply covers_app].
Qed.

Lemma current_extended tr' c :
  (∀ tr, ctrace d tr p.(execution) → ctrace d (tr ++ tr') c) → current_ok K d (with_execution p c).
Proof.
  intros Hext. destruct Hp as [(tr & ext & Hcov & Hc & Htr) H1 H2]. split; [|done|done].
  exists tr, (ext ++ tr'). split_and!; [done..|]. rewrite (assoc_L (++)). by apply Hext.
Qed.

Lemma current_performs l :
  Forall (of_device d) l → current_ok K d (with_execution p (performs p.(execution) l)).
Proof. intros Hl. apply (current_extended (called p.(execution) l)). intros tr Htr. by apply ctrace_calls. Qed.

Lemma current_rolled_back : current_ok K d (rolled_back p).
Proof.
  destruct Hp as [(tr & ext & Hcov & Hc & _) H1 H2]. split; [|done|done].
  exists tr, []. by rewrite app_nil_r.
Qed.
End Current.

(** A restart after a failed commit goes on from the live state, as if its calls had
    never been made. *)
Lemma current_restarted K d p l v c :
  current_ok K d p → snapshot_controller p.(execution) = Some v → restore_controller l v = Ok c →
  current_ok K d (with_execution (rolled_back p) c).
Proof.
  intros [(tr & ext & Hcov & Hc & Htr) H1 H2] Hv Hr. split; [|done|done].
  exists tr, (ext ++ [Restarted]). split_and!; [done..|]. rewrite (assoc_L (++)). by eapply tr_restart.
Qed.

Lemma registry_call_knows (SU : Setup) G r r' :
  registry_call (SU := SU) r r' → knows (device_id (Setup := SU)) G r →
  knows (device_id (Setup := SU)) G r'.
Proof.
  intros [[cap ->]| ->] Hk; [|by apply disconnect_knows].
  destruct (DeviceRegistry.connect r _ cap) as [r' x] eqn:E. by eapply connect_knows in E as [? _].
Qed.
End System.
