(* ===== verification/HubInvariant.v ===== *)
(** * The invariant of the Hubs

    Every step of the system keeps the invariant of [HubSystem]: the steps of a
    Hub's tasks, the start of a Hub, and the crashes. *)

From S2P Require Import Prelude Vocabulary Protocol Crypto Tombstone Admission Registry Grants.
From S2P Require Import SafetyTypes Recovery EphemeralRefs Evidence Transport Controller.
From S2P Require Import ControllerSnapshot ControllerCalls ControllerTheorems ControllerDevice Trust.
From S2P Require Import Persistence StateStore StateStoreTheorems Hub HubSession HubService HubSteps.
From S2P Require Import HubSystem.
Import HubOperationState ControllerSnapshot Persistence StateStore Hub HubSession HubService.

Section Invariant.
Context `{ED : Ed25519} {S Io : Type} `{ST : HubAuthoritativeStateStore S Io}
  `{HI : HashIter} `{B64 : Base64Url} `{RS : RecoverySerializer}
  `{CJ : CheckpointJson HubPersistentState} `{SL : !StoreLaws S Io} `{RT : RotationSerializer}.

Abbreviation Setup := (Setup (Io := Io)).

Lemma hand_over_Permutation `{EqDecision A} (a : A) l : a ∈ l → a :: hand_over a l ≡ₚ l.
Proof.
  induction l as [|x l IH]; [by intros ?%elem_of_nil|]. cbn. case_bool_decide as Hx; [by subst|].
  intros [->|Hin]%elem_of_cons; [done|]. rewrite <- IH at 2 by done. constructor.
Qed.

Lemma hand_over_submseteq `{EqDecision A} (a : A) l : hand_over a l ⊆+ l.
Proof.
  induction l as [|x l IH]; cbn; [done|]. case_bool_decide; [by apply submseteq_cons|].
  by apply submseteq_skip.
Qed.

Section Task.
Context (SU : Setup) (h : HubInner) (s : S) (sent : list HubToAgent) (replies : list (N * Reply))
  (n : nat) (l : list (Setup * HubInner)) (i : nat) (rest : Outputs).

Abbreviation K := (with_hub sent replies h.(tickets) rest).
Abbreviation d := (device_id (Setup := SU)).
Hypotheses (Hinv : Inv K s l) (Hi : l !! i = Some (SU, h)).

(** A step that only gives outputs up *)
Lemma quiet_Inv h' sent' replies' :
  h'.(persistent) = h.(persistent) →
  within (with_hub sent' replies' h'.(tickets) rest) K →
  Inv (with_hub sent' replies' h'.(tickets) rest) s (<[i := (SU, h')]> l).
Proof.
  intros Hp Hw. eapply within_Inv; [exact Hw|]. apply (inv_local K s l i SU h); [done|done|by rewrite Hp|].
  by rewrite Hp.
Qed.

Lemma within_refl X : within X X.
Proof. by split. Qed.

Lemma within_same sent' replies' k :
  omap sent_command sent' ++ k.(outgoing) ⊆+ omap sent_command sent ++ h.(tickets).(outgoing) →
  (∀ x, x ∈ omap (λ r, reply_receipt r.2) replies' ++ k.(settled) →
        x ∈ omap (λ r, reply_receipt r.2) replies ++ h.(tickets).(settled)) →
  omap sent_generation sent' ++ k.(granted) ⊆+ omap sent_generation sent ++ h.(tickets).(granted) →
  within (with_hub sent' replies' k rest) K.
Proof.
  intros H1 H2 H3. split; cbn; rewrite !(assoc_L (++)); [by apply submseteq_app| |by apply submseteq_app].
  intros x. rewrite !(elem_of_app _ rest.(answers)). intros [Hx|Hx]; [left; by apply H2|by right].
Qed.

Abbreviation w := (mk_world h s sent replies n).
Abbreviation after w' := (Inv (with_hub w'.(Hub.sent) w'.(Hub.replies) w'.(hub).(tickets) rest)
                            w'.(store) (<[i := (SU, w'.(hub))]> l)).

Ltac becomes Hb := destruct Hb as (Hp & Hs & Hk & Hsent & Hrep); cbn in Hp, Hs, Hk, Hsent, Hrep.

(** Messages, replies, and tickets that are given up *)
Lemma outputs_Inv w' sent' replies' k :
  becomes w h.(persistent) s k sent' replies' w' →
  omap sent_command sent' ++ k.(outgoing) ⊆+ omap sent_command sent ++ h.(tickets).(outgoing) →
  (∀ x, x ∈ omap (λ r, reply_receipt r.2) replies' ++ k.(settled) →
        x ∈ omap (λ r, reply_receipt r.2) replies ++ h.(tickets).(settled)) →
  omap sent_generation sent' ++ k.(granted) ⊆+ omap sent_generation sent ++ h.(tickets).(granted) →
  after w'.
Proof.
  intros Hb H1 H2 H3. becomes Hb. rewrite Hs, Hsent, Hrep. apply quiet_Inv; [done|].
  rewrite Hk. by apply within_same.
Qed.

Lemma live_Inv w' p :
  becomes w p s h.(tickets) sent replies w' → p.(writer) = h.(persistent).(writer) →
  (current_ok K d h.(persistent) → current_ok K d p) → after w'.
Proof.
  intros Hb Hw Hok. becomes Hb. rewrite Hs, Hsent, Hrep, Hk. eapply inv_local; [done|done|..]; by rewrite Hp.
Qed.

(** A commit, with what it adds to the outputs *)
Lemma committed_Inv w' r c s' rec k :
  commits_to h.(persistent) r c s s' (Ok rec) →
  becomes w (mk_persistent r c (lease rec) r c) s' k sent replies w' →
  (current_ok K d h.(persistent) →
   (∃ tr, ctrace d tr c ∧ covers (with_hub sent replies k rest) tr)
   ∧ knows d (with_hub sent replies k rest).(generations) r
   ∧ NoDup (filter (λ g, (g < u64_max)%N) (with_hub sent replies k rest).(generations))) →
  after w'.
Proof.
  intros Hc Hb Hok. becomes Hb. rewrite Hs, Hsent, Hrep, Hk. by eapply inv_commit_ok.
Qed.

Lemma failed_Inv w' r c s' e p :
  commits_to h.(persistent) r c s s' (Err e) →
  becomes w p s' h.(tickets) sent replies w' → p.(writer) = h.(persistent).(writer) →
  (current_ok K d h.(persistent) →
   (∃ tr, ctrace d tr c ∧ covers K tr) ∧ knows d K.(generations) r ∧ current_ok K d p) →
  after w'.
Proof.
  intros Hc Hb Hw Hok. becomes Hb. rewrite Hs, Hsent, Hrep, Hk.
  eapply inv_commit_err; [done|done|exact Hc|by rewrite Hp|by rewrite Hp].
Qed.

Lemma K_fresh : NoDup (filter (λ g, (g < u64_max)%N) K.(generations)).
Proof. apply Hinv. Qed.

Lemma persist_Inv w' c s' x pe :
  commits_to h.(persistent) h.(persistent).(registry) c s s' x →
  becomes w (match x with Ok rec => promoted h.(persistent) c (lease rec) | Err _ => pe end) s'
    h.(tickets) sent replies w' →
  pe.(writer) = h.(persistent).(writer) →
  (current_ok K d h.(persistent) →
   (∃ tr, ctrace d tr c ∧ covers K tr) ∧ current_ok K d pe) →
  after w'.
Proof.
  intros Hc Hb Hw Hok. destruct x as [rec|e].
  - eapply committed_Inv; [exact Hc|exact Hb|]. intros Hcur.
    destruct (Hok Hcur) as [Htr _]. split_and!; [done|apply Hcur|apply K_fresh].
  - eapply failed_Inv; [exact Hc|exact Hb|done|]. intros Hcur.
    destruct (Hok Hcur) as [Htr Hpe]. split_and!; [done|apply Hcur|done].
Qed.

Lemma dispatch_covered id o g b now c k :
  Controller.mark_dispatched_with_binding h.(persistent).(execution) id o g b now = (c, Ok tt) →
  k = hold_command id h.(tickets) → current_ok K d h.(persistent) →
  ∃ tr, ctrace d tr c ∧ covers (with_hub sent replies k rest) tr.
Proof.
  intros Hd -> Hcur. destruct (current_live _ _ _ Hcur) as (tr & Htr & Hc & Ha).
  set (kall := CDispatch id o g b now).
  exists (tr ++ [Called h.(persistent).(execution) kall]). split.
  - replace c with (perform h.(persistent).(execution) kall).1 by (cbn; by rewrite Hd). by apply tr_call.
  - unfold covers, dispatched, receipts in *. rewrite !omap_app. cbn. rewrite Hd. cbn. split.
    + rewrite <- Permutation_middle, <- Permutation_cons_append. by apply submseteq_skip.
    + intros x Hx. apply elem_of_app. left. by apply Ha.
Qed.

Lemma settle_covered id o g terminal evidence now c next x lc k :
  Controller.finalize h.(persistent).(execution) id o g terminal evidence now = (c, Ok (next, x)) →
  lc = [] ∨ (∃ result, lc = [CAttach id o g result]) →
  k = hold_receipt x h.(tickets) → current_ok K d h.(persistent) →
  ∃ tr, ctrace d tr (performs c lc) ∧ covers (with_hub sent replies k rest) tr.
Proof.
  intros Hf Hlc -> Hcur. destruct (current_live _ _ _ Hcur) as (tr & Htr & Hcov).
  set (kall := CFinalize id o g terminal evidence now).
  exists ((tr ++ [Called h.(persistent).(execution) kall]) ++ called c lc). split.
  - apply ctrace_calls; [|destruct Hlc as [->|[? ->]]; by repeat constructor].
    replace c with (perform h.(persistent).(execution) kall).1 by (cbn; by rewrite Hf). by apply tr_call.
  - apply covers_app. destruct Hcov as [Hc Ha]. unfold covers, dispatched, receipts in *.
    rewrite !omap_app. cbn. rewrite Hf. cbn. rewrite app_nil_r. split; [done|].
    intros y. cbn. rewrite <- Permutation_middle. intros [->|Hy]%elem_of_cons; apply elem_of_app;
      [right; by left|left; by apply Ha].
Qed.

Lemma connect_Inv w' cap r session s' rec :
  let p := h.(persistent) in
  let g := session.(DeviceSession.generation) in
  let c := (perform p.(execution) (CPrune d g)).1 in
  DeviceRegistry.connect p.(registry) d cap = (r, Ok session) →
  commits_to p r c s s' (Ok rec) →
  becomes w (promoted (with_registry p r) c (lease rec)) s' (hold_session g h.(tickets)) sent replies w' →
  after w'.
Proof.
  intros p g c Hr Hc Hb. eapply committed_Inv; [exact Hc|exact Hb|]. intros Hcur.
  destruct (connect_knows _ _ _ _ _ _ _ (co_registry _ _ _ Hcur) Hr) as [_ Hsession].
  destruct (Hsession session eq_refl) as [Hk Hnew]. fold g in Hk, Hnew.
  assert ((with_hub sent replies (hold_session g h.(tickets)) rest).(generations)
          ≡ₚ g :: K.(generations)) as Hperm.
  { cbn. by rewrite <- Permutation_middle. }
  split_and!.
  - apply (current_calls _ _ _ Hcur [CPrune d g]). by repeat constructor.
  - eapply knows_mono; [|exact Hk]. intros x. by rewrite Hperm.
  - rewrite Hperm, filter_cons. case_decide as Hlt; [|apply K_fresh]. apply NoDup_cons.
    split; [|apply K_fresh]. intros [_ Hin]%list_elem_of_filter. by apply Hnew.
Qed.

Lemma message_Inv w' m :
  is_plain m = true → becomes w h.(persistent) s h.(tickets) (sent ++ [m]) replies w' → after w'.
Proof.
  intros Hm Hb. eapply outputs_Inv; [exact Hb|..|done|]; rewrite omap_app; destruct m; try done;
    cbn; by rewrite app_nil_r.
Qed.

Lemma reply_Inv w' channel r :
  (∀ x, reply_receipt r = Some x → x ∈ h.(tickets).(settled)) →
  becomes w h.(persistent) s h.(tickets) sent (replies ++ [(channel, r)]) w' → after w'.
Proof.
  intros Hr Hb. eapply outputs_Inv; [exact Hb|done|..|done]. intros x. rewrite omap_app. cbn.
  destruct (reply_receipt r) as [y|]; cbn; rewrite ?app_nil_r, ?elem_of_app, ?list_elem_of_singleton;
    [|done]. intros [[?| ->]|?]; auto.
Qed.

Lemma send_Inv w' (m : RemoteCommand) :
  command_id m ∈ h.(tickets).(outgoing) →
  becomes w h.(persistent) s (hand_over_command (command_id m) h.(tickets))
    (sent ++ [HubToAgent.Command m]) replies w' → after w'.
Proof.
  intros Hid Hb. eapply outputs_Inv; [exact Hb|..|done|]; rewrite omap_app; cbn.
  - rewrite <- (assoc_L (++)). cbn. by rewrite (hand_over_Permutation _ _ Hid).
  - by rewrite app_nil_r.
Qed.

Lemma accept_Inv w' m :
  m.(SessionAccepted.device_generation) ∈ h.(tickets).(granted) →
  becomes w h.(persistent) s (hand_over_session m.(SessionAccepted.device_generation) h.(tickets))
    (sent ++ [HubToAgent.Accepted m]) replies w' → after w'.
Proof.
  intros Hg Hb. eapply outputs_Inv; [exact Hb|..|done|]; rewrite omap_app; cbn.
  - by rewrite app_nil_r.
  - rewrite <- (assoc_L (++)). cbn. by rewrite (hand_over_Permutation _ _ Hg).
Qed.

(** Every step of a task keeps the invariant. *)
Lemma task_Inv w' : wstep (SU := SU) w w' → after w'.
Proof.
  intros [Hb|m Hm Hb|channel r Hr Hb|k Hk Hb|r Hr Hb|s' x p Hc Hb|lc s' x p c Hlc Hc Hb
    |id o g b now c s' rec p Hd Hc Hb|id o g terminal evidence now c1 next x lc s' rec p Hf Hlc Hc Hb
    |lc s' e v c p Hlc Hc Hv Hrest Hb|id m Hid Hm Hb|id Hb|cap r session s' rec p c Hr Hc Hb
    |m Hg Hb|g Hb]; cbn in *.
  - by eapply outputs_Inv.
  - by eapply message_Inv.
  - by eapply reply_Inv.
  - eapply live_Inv; [exact Hb|done|]. intros Hcur. apply (current_performs _ _ _ Hcur [k]).
    by repeat constructor.
  - eapply live_Inv; [exact Hb|done|]. intros [Htr Hc Hreg]. split; [done|done|].
    by eapply registry_call_knows.
  - eapply persist_Inv; [exact Hc|exact Hb|done|]. intros Hcur.
    split; [by apply current_live|by apply current_rolled_back].
  - eapply persist_Inv; [exact Hc|exact Hb|done|]. intros Hcur. split; [by apply current_calls|done].
  - eapply committed_Inv; [exact Hc|exact Hb|]. intros Hcur.
    split_and!; [by eapply dispatch_covered|apply Hcur|apply K_fresh].
  - eapply committed_Inv; [exact Hc|exact Hb|]. intros Hcur.
    split_and!; [by eapply settle_covered|apply Hcur|apply K_fresh].
  - eapply failed_Inv; [exact Hc|exact Hb|done|]. intros Hcur.
    split_and!; [by apply current_calls|apply Hcur|by eapply current_restarted].
  - subst id. by eapply send_Inv.
  - eapply outputs_Inv; [exact Hb|cbn|done|done]. apply submseteq_app; [done|apply hand_over_submseteq].
  - by eapply connect_Inv.
  - by eapply accept_Inv.
  - eapply outputs_Inv; [exact Hb|done|done|cbn]. apply submseteq_app; [done|apply hand_over_submseteq].
Qed.
End Task.

Implicit Types (σ : Sys (S := S) (Io := Io)) (l : list (Setup * HubInner)).

(** Many steps of the tasks of one Hub *)
Lemma tasks_Inv (SU : Setup) (w w' : World (S := S)) l i rest :
  rtc (wstep (SU := SU)) w w' →
  Inv (with_hub w.(sent) w.(replies) w.(hub).(tickets) rest) w.(store) l →
  l !! i = Some (SU, w.(hub)) →
  Inv (with_hub w'.(sent) w'.(replies) w'.(hub).(tickets) rest) w'.(store)
    (<[i := (SU, w'.(hub))]> l).
Proof.
  intros Hsteps. revert l. induction Hsteps as [w|w w1 w' Hstep _ IH]; intros l Hinv Hi.
  - by rewrite list_insert_id.
  - rewrite <- (list_insert_insert_eq l i (SU, w'.(hub)) (SU, w1.(hub))).
    apply IH; [|apply list_lookup_insert_eq; by eapply lookup_lt_Some].
    destruct w as [h s sent replies n]. by eapply task_Inv.
Qed.

(** ** The start of a Hub *)

Section Start.
Context (start_env : HubEnv (Io := Io)) (start_config : HubServiceConfig)
  (start_material : HubProvisionedMaterial)
  (verifier_file : result RecoveryError (option RecoveryVerifierKind)).

Lemma bootstrap_ok v : 
  bootstrap_state start_config start_material = Ok (Some v) →
  ∃ d c, ctrace d [] c ∧ snapshot_controller c = Some v.(Persistence.execution)
         ∧ snapshot_knows d [] v.(Persistence.registry).
Proof.
  unfold bootstrap_state, capture_hub. destruct (Controller.new_controller _) as [c|] eqn:Hc; [|done].
  destruct (snapshot_controller c) as [y|] eqn:Hy; [|done]. cbn. intros [= <-].
  exists (device_id_of_key_bytes (vk_to_bytes start_material.(material_verifier))), c.
  split_and!; [by eapply tr_new|done|]. apply knows_snapshot.
  intros id x. cbn. unfold DeviceRegistry.or_insert_device. cbn. rewrite lookup_empty. cbn.
  intros [[<- <-]|[_ Hx]]%lookup_insert_Some; [|by apply lookup_empty_Some in Hx].
  split; [done|]. by intros g ?%elem_of_nil.
Qed.

(** The record of a takeover *)
Lemma takeover_ok K s l v cur :
  Inv K s l → bootstrap_state start_config start_material = Ok (Some v) →
  authoritative s = Ok cur → record_ok K (takeover_record cur v).
Proof.
  intros Hinv Hboot Ha. destruct cur as [rec|].
  - destruct (inv_records _ _ _ Hinv rec) as (d & tr & c & Hrec); [by left|]. by exists d, tr, c.
  - destruct (inv_empty _ _ _ Hinv) as [_ ->]; [by left|].
    destruct (bootstrap_ok v Hboot) as (d & c & Htr & Hc & Hk). exists d, [], c.
    split_and!; [done|done| |done]. split; [done|]. by intros x ?%elem_of_nil.
Qed.

(** A lease is behind what takes over. *)
Lemma takeover_later K s l v cur y :
  Inv K s l → authoritative s = Ok cur → y ∈ l →
  (lease_of y < (takeover_record cur v).(revision))%N.
Proof.
  intros Hinv Ha Hy. destruct cur as [rec|].
  - pose proof (inv_hubs _ _ _ Hinv) as Hh. rewrite Forall_forall in Hh.
    destruct (Hh y Hy rec) as [Hle _]; [by left|]. unfold lease_of. cbn. lia.
  - destruct (inv_empty _ _ _ Hinv) as [-> _]; [by left|]. by apply elem_of_nil in Hy.
Qed.

Lemma acquire_Inv K s l io v s' x :
  Inv K s l → store_io io → bootstrap_state start_config start_material = Ok (Some v) →
  acquire_writer s io v = (s', x) →
  Inv K s' l ∧ ∀ rec, x = Ok rec → record_ok K rec ∧ (∀ o, possible s' o → o = Some rec)
                                   ∧ ∀ y, y ∈ l → (lease_of y < rec.(revision))%N.
Proof.
  intros Hinv Hio Hboot Hacq.
  destruct (acquire_law s io v s' x (inv_store _ _ _ Hinv) Hio Hacq) as [Hs' Heff].
  assert (∀ o, possible s' o → possible s o ∨ ∃ cur, authoritative s = Ok cur
            ∧ o = Some (takeover_record cur v)) as Hposs.
  { intros o Ho. pose proof (possible_effect _ _ _ _ _ Heff Ho) as Hp. destruct x as [rec|e].
    - destruct Hp as (-> & cur & Ha & Ht). right. exists cur. by rewrite Ht.
    - destruct Hp as [Hp|(cur & rec & Ha & Ht & ->)]; [by left|right]. exists cur. by rewrite Ht. }
  split.
  - split; [done|..|apply Hinv|apply Hinv].
    + intros rec [Hrec|(cur & Ha & [= ->])]%Hposs; [by apply Hinv|by eapply takeover_ok].
    + intros [Hn|(cur & _ & [=])]%Hposs. by apply Hinv.
    + apply Forall_forall. intros y Hy rec [Hrec|(cur & Ha & [= ->])]%Hposs.
      * pose proof (inv_hubs _ _ _ Hinv) as Hh. rewrite Forall_forall in Hh. by apply Hh.
      * pose proof (takeover_later K s l v cur y Hinv Ha Hy) as Hlt. unfold lease_of in Hlt.
        split; [lia|]. intros Heq. rewrite <- Heq in Hlt. cbn in Hlt. lia.
  - intros rec ->. destruct Heff as [(cur & Ha & Ht) [Ha' Hset]].
    split_and!; [rewrite Ht; by eapply takeover_ok| |].
    + intros o [Ho|(s'' & Hc & Ho)]; [|rewrite (Hset s'' Hc) in Ho]; congruence.
    + intros y Hy. rewrite Ht. by eapply takeover_later.
Qed.

Lemma rotated_knows d G r id r' :
  rotate_to_material start_material r id = Ok r' → knows d G r → knows d G r'.
Proof.
  unfold rotate_to_material, Trust.apply_device_key_rotation. intros Hr Hk.
  destruct (verifier_of r id); [|done]. destruct (bool_decide _); [by injection Hr as <-|].
  destruct start_material.(device_rotation) as [rotation|]; [|done]. destruct (negb _); [done|].
  destruct (Trust.validate_trust_schema _); [|done]. destruct (_ || _); [done|].
  destruct (device_rotation_to_vec _ _ _ _ _) as [b|]; [|done].
  pose proof (rotate_knows d G r rotation.(Trust.dr_device_id) rotation.(Trust.dr_next_public_key) b
    rotation.(Trust.dr_old_signature) rotation.(Trust.dr_new_signature) Hk) as Hk'.
  destruct (DeviceRegistry.rotate_device_key _ _ _ _ _ _) as [r1 [u|e]]; [|done].
  destruct (verifier_of r1 id); [|done]. destruct (bool_decide _); [by injection Hr as <-|done].
Qed.

(** A Hub that has taken over is current. *)
Lemma assembled_ok K rec id verifier inner :
  record_ok K rec →
  assemble_from_acquired start_config start_material verifier_file rec = Ok (id, verifier, inner) →
  inner.(tickets) = no_tickets ∧ inner.(persistent).(writer) = lease rec
  ∧ current_ok K id inner.(persistent).
Proof.
  intros (d & tr & c & Htr & Hc & Hcov & Hk). unfold assemble_from_acquired, restore_runtime_state.
  destruct verifier_file as [v|]; [|done].
  destruct (rec.(state).(Persistence.registry).(DeviceRegistry.snap_devices)) as [|device []] eqn:Hdev;
    [done| |done].
  unfold restore_hub. destruct (validate_hub_state_schema _); [|done].
  destruct (match _.(durable_fence) with Some _ => _ | None => _ end); [|done].
  destruct (DeviceRegistry.from_persisted_snapshot _) as [r0|] eqn:Hr0; [|done].
  destruct (restore_controller _ _) as [c'|] eqn:Hc'; [|done]. destruct (negb _); [done|]. cbn.
  destruct (rotate_to_material _ _ _) as [r|] eqn:Hr; [|done]. unfold new_inner.
  intros [= <- <- <-]. cbn. split_and!; [done|done|].
  destruct (Hk device) as [-> _]; [rewrite Hdev; by left|].
  assert (ctrace d (tr ++ [Restarted]) c') as Htr' by by eapply tr_restart.
  assert (knows d K.(generations) r) as Hkr by by eapply rotated_knows, restored_knows.
  split; cbn; [|done|done]. exists (tr ++ [Restarted]), []. rewrite app_nil_r.
  split_and!; [by apply covers_app|done|done].
Qed.

(** The new Hub joins the others. *)
Lemma join_Inv K s l (SU : Setup) inner rec :
  Inv K s l → (∀ o, possible s o → o = Some rec) → (∀ y, y ∈ l → (lease_of y < rec.(revision))%N) →
  inner.(persistent).(writer) = lease rec →
  current_ok K (device_id (Setup := SU)) inner.(persistent) → Inv K s (l ++ [(SU, inner)]).
Proof.
  intros Hinv Hposs Hnew Hw Hcur. split; [apply Hinv|apply Hinv| | | |apply Hinv].
  - by intros [=]%Hposs.
  - apply Forall_app. split; [apply Hinv|]. apply Forall_singleton. intros rec' [= ->]%Hposs. cbn.
    by rewrite Hw.
  - rewrite fmap_app. cbn. apply NoDup_app. split_and!; [apply Hinv| |apply NoDup_singleton].
    intros n (y & -> & Hy%Hnew)%list_elem_of_fmap Heq%list_elem_of_singleton.
    rewrite Heq in Hy. unfold lease_of in Hy. cbn in Hy. rewrite Hw in Hy. cbn in Hy. lia.
Qed.

Lemma drop_Inv K s l l' : l' `sublist_of` l → Inv K s l → Inv K s l'.
Proof.
  intros Hsub [Hs Hr He Hh Hl Hf]. split; [done|done| | | |done].
  - intros [-> ->]%He. by apply sublist_nil_r in Hsub as ->.
  - eapply Forall_forall. intros y Hy. rewrite Forall_forall in Hh. by eapply Hh, elem_of_submseteq, sublist_submseteq.
  - eapply sublist_NoDup; [exact Hl|]. by apply fmap_sublist.
Qed.

(** The first commit of a Hub, as a step of the system *)
Lemma first_commit_Inv σ (SU : Setup) inner s rec t res :
  (∀ n, store_io ((env (Setup := SU)).(env_io) n)) →
  Inv (outputs σ) s σ.(hubs) → (∀ o, possible s o → o = Some rec) →
  (∀ y, y ∈ σ.(hubs) → (lease_of y < rec.(revision))%N) →
  inner.(tickets) = no_tickets → inner.(persistent).(writer) = lease rec →
  current_ok (outputs σ) (device_id (Setup := SU)) inner.(persistent) →
  persist_locked (mk_task (mk_world inner s [] [] 2) new_session) = (t, res) →
  let σ' := mk_sys (σ.(hubs) ++ [(SU, t.(world).(hub))]) t.(world).(store) σ.(sys_sent)
              σ.(sys_replies) in
  Inv (outputs σ') t.(world).(store) σ'.(hubs).
Proof.
  intros Hio Hinv Hposs Hnew Hk Hw Hcur Hrun σ'.
  set (l := σ.(hubs) ++ [(SU, inner)]). set (i := length σ.(hubs)).
  set (σ1 := mk_sys l s σ.(sys_sent) σ.(sys_replies)).
  assert (σ1.(hubs) !! i = Some (SU, inner)) as Hi by (cbn; subst l i; by rewrite list_lookup_middle).
  assert (Inv (outputs σ1) s l) as Hinv1.
  { eapply within_Inv; [|by eapply join_Inv].
    split; cbn; unfold l; rewrite bind_app; cbn; rewrite Hk; cbn; by rewrite !app_nil_r. }
  destruct (outputs_from σ1 i _ Hi) as [_ Hfrom].
  set (w := mk_world inner s σ.(sys_sent) σ.(sys_replies) 2).
  set (w' := mk_world t.(world).(hub) t.(world).(store) σ.(sys_sent) σ.(sys_replies) 2).
  assert (rtc (wstep (SU := SU)) w w') as Hsteps.
  { destruct (persist_locked_spec Hio _ _ _ Hrun) as [[-> _]|(s' & r & Hc & Hb & _)]; [done|].
    destruct Hb as (Hp & Hs & Htk & _). apply rtc_once. by eapply w_persist. }
  pose proof (tasks_Inv SU w w' l i (beside i l) Hsteps (within_Inv _ _ _ _ Hfrom Hinv1) Hi) as Hinv'.
  assert (<[i := (SU, t.(world).(hub))]> l = σ'.(hubs)) as Hl.
  { cbn. unfold l, i. by rewrite insert_app_r_alt, Nat.sub_diag by lia. }
  cbn [Hub.hub w'] in Hinv'. rewrite Hl in Hinv'.
  assert (σ'.(hubs) !! i = Some (SU, t.(world).(hub))) as Hi'.
  { cbn. unfold i. by rewrite list_lookup_middle. }
  destruct (outputs_from σ' i _ Hi') as [Hto _]. rewrite <- Hl, beside_insert in Hto.
  by eapply within_Inv.
Qed.

Lemma not_started σ s e :
  Inv (outputs σ) s σ.(hubs) →
  Inv (outputs (mk_sys (σ.(hubs) ++ started (Err e)) s σ.(sys_sent) σ.(sys_replies))) s
    (σ.(hubs) ++ started (Err e)).
Proof. unfold outputs. cbn. by rewrite app_nil_r. Qed.

Lemma start_Inv σ s r :
  (∀ n, store_io (start_env.(env_io) n)) → Inv (outputs σ) σ.(sys_store) σ.(hubs) →
  new_with_state_store start_env start_config start_material verifier_file σ.(sys_store) = (s, r) →
  Inv (outputs (mk_sys (σ.(hubs) ++ started r) s σ.(sys_sent) σ.(sys_replies))) s
    (σ.(hubs) ++ started r).
Proof.
  intros Hio Hinv.
  unfold new_with_state_store.
  destruct (validate_config _); [|intros [= <- <-]; by apply not_started].
  destruct (bootstrap_state _ _) as [[v|]|] eqn:Hboot;
    [|intros [= <- <-]; by apply not_started..].
  destruct (load_and_check _ _ _ _); [|intros [= <- <-]; by apply not_started].
  destruct (acquire_writer _ _ v) as [s1 x] eqn:Hacq.
  destruct (acquire_Inv _ _ _ _ _ _ _ Hinv (Hio 1) Hboot Hacq) as [Hinv1 Hrec].
  destruct x as [rec|]; [|intros [= <- <-]; by apply not_started].
  destruct (Hrec rec eq_refl) as (Hok & Hposs & Hnew).
  destruct (assemble_from_acquired _ _ _ _) as [[[id verifier] inner]|] eqn:Has;
    [|intros [= <- <-]; by apply not_started].
  destruct (assembled_ok _ _ _ _ _ Hok Has) as (Hk & Hw & Hcur).
  set (SU := {| env := start_env; config := _; material := _; device_id := id;
                recovery_verifier := verifier |}).
  destruct (persist_locked _) as [t res] eqn:Hrun.
  pose proof (first_commit_Inv σ SU inner s1 rec t res Hio Hinv1 Hposs Hnew Hk Hw Hcur
    Hrun) as Hfirst.
  destruct res as [u|e]; intros [= <- <-]; [exact Hfirst|]. apply not_started.
  eapply drop_Inv; [|eapply within_Inv; [|exact Hfirst]]; [by apply sublist_inserts_r|].
  split; cbn; rewrite bind_app.
  - apply submseteq_app; [done|by apply submseteq_inserts_r].
  - intros y. rewrite !elem_of_app. intros [?|?]; auto.
  - apply submseteq_app; [done|by apply submseteq_inserts_r].
Qed.
End Start.

(** ** The system *)

Lemma delete_bind_submseteq {A B} (l : list A) i (f : A → list B) : (delete i l ≫= f) ⊆+ (l ≫= f).
Proof.
  revert i. induction l as [|x l IH]; intros [|i]; cbn; [done..| |].
  - by apply submseteq_inserts_l.
  - by apply submseteq_app.
Qed.

Lemma stop_Inv σ i :
  Inv (outputs σ) σ.(sys_store) σ.(hubs) →
  Inv (outputs (mk_sys (delete i σ.(hubs)) σ.(sys_store) σ.(sys_sent) σ.(sys_replies)))
    σ.(sys_store) (delete i σ.(hubs)).
Proof.
  intros Hinv. eapply within_Inv; [|eapply drop_Inv; [apply sublist_delete|exact Hinv]]. split; cbn.
  - apply submseteq_app; [done|apply delete_bind_submseteq].
  - intros x. rewrite !elem_of_app. intros [?|?]; [by left|right].
    by eapply elem_of_submseteq, delete_bind_submseteq.
  - apply submseteq_app; [done|apply delete_bind_submseteq].
Qed.

Lemma crash_Inv K s s' l : store_crash s s' → Inv K s l → Inv K s' l.
Proof.
  intros Hc [Hs Hr He Hh Hl Hf].
  split; [by eapply crash_ok|by eauto using possible_crash|by eauto using possible_crash| |done|done].
  eapply Forall_impl; [exact Hh|]. intros x Hx rec Hrec. by eapply Hx, possible_crash.
Qed.

Lemma sys_step_Inv σ σ' :
  sys_step σ σ' → Inv (outputs σ) σ.(sys_store) σ.(hubs) → Inv (outputs σ') σ'.(sys_store) σ'.(hubs).
Proof.
  intros [i SU h n w Hi Hstep|i|s Hc|env cfg mat verifier s r Hio Hstart] Hinv.
  - destruct (outputs_from σ i _ Hi) as [_ Hfrom]. 
    pose proof (task_Inv SU h _ _ _ n _ i _ (within_Inv _ _ _ _ Hfrom Hinv) Hi w Hstep) as Hinv'.
    set (σ1 := mk_sys _ _ _ _). assert (σ1.(hubs) !! i = Some (SU, w.(hub))) as Hi'.
    { cbn. apply list_lookup_insert_eq. by eapply lookup_lt_Some. }
    destruct (outputs_from σ1 i _ Hi') as [Hto _]. cbn [hubs σ1] in Hto. rewrite beside_insert in Hto.
    by eapply within_Inv.
  - exact (stop_Inv σ i Hinv).
  - exact (crash_Inv _ _ _ _ Hc Hinv).
  - exact (start_Inv _ _ _ _ σ s r Hio Hinv Hstart).
Qed.

Lemma initial_Inv s : fresh s → Inv (outputs (initial (Io := Io) s)) s [].
Proof.
  intros [Hs Hnone]. split; [done|..]; cbn; [by intros rec ?%Hnone|done|constructor..].
Qed.

Lemma reachable_Inv σ : reachable σ → Inv (outputs σ) σ.(sys_store) σ.(hubs).
Proof.
  intros (s & Hs & Hrun). remember (initial s) as σ0 eqn:H0.
  assert (Inv (outputs σ0) σ0.(sys_store) σ0.(hubs)) as Hinv by (subst σ0; by apply initial_Inv).
  clear H0. induction Hrun as [|σ0 σ1 σ Hstep _ IH]; [done|]. by eapply IH, sys_step_Inv.
Qed.
End Invariant.
