(* ===== verification/HubRuns.v ===== *)
(** * The runs of the Hubs

    A run of the system is the list of the steps that it has made. What the Hubs
    ([src/src/v2_m1_hub.rs]) sent and answered is traced back to these steps: every
    command to a step that made its dispatch durable, one step for each command,
    and every receipt to a step that made it durable. *)

From S2P Require Import Prelude Vocabulary Protocol Crypto Tombstone Admission AdmissionSafety.
From S2P Require Import AdmissionEffects Registry Grants SafetyTypes Recovery EphemeralRefs Evidence.
From S2P Require Import Transport Controller ControllerLedger ControllerSafety ControllerRecovery.
From S2P Require Import ControllerSnapshot ControllerCalls ControllerTheorems ControllerDevice Trust.
From S2P Require Import Persistence StateStore StateStoreTheorems Hub HubSession HubService HubSteps.
From S2P Require Import HubSystem HubInvariant.
Import HubOperationState ControllerSnapshot Persistence StateStore Hub HubSession HubService.

Section Runs.
Context `{ED : Ed25519} {S Io : Type} `{ST : HubAuthoritativeStateStore S Io}
  `{HI : HashIter} `{B64 : Base64Url, B64L : !Base64UrlLaws} `{RS : RecoverySerializer}
  `{CJ : CheckpointJson HubPersistentState} `{SL : !StoreLaws S Io} `{RT : RotationSerializer}.
Implicit Types (σ : Sys (S := S) (Io := Io)) (rec : DurableHubState) (h : HubInner)
  (l : list (Sys (S := S) (Io := Io) * Sys (S := S) (Io := Io))).

(** The steps that led to a state, the last one first *)
Inductive run : list (Sys * Sys) → Sys → Prop :=
| run_initial s : fresh s → run [] (initial s)
| run_step l σ σ' : run l σ → sys_step σ σ' → run ((σ, σ') :: l) σ'.

Lemma run_reachable l σ : run l σ → reachable σ.
Proof.
  induction 1 as [s Hs|l σ σ' _ (s & Hs & Hrun) Hstep]; [by exists s|].
  exists s. split; [done|]. by eapply rtc_r.
Qed.

Lemma run_steps l σ σ' : run l σ → rtc sys_step σ σ' → ∃ l', run (l' ++ l) σ'.
Proof.
  intros Hrun Hsteps. revert l Hrun. induction Hsteps as [σ|σ σ1 σ' Hs _ IH]; intros l Hrun; [by exists []|].
  destruct (IH _ (run_step _ _ _ Hrun Hs)) as [l' Hl']. exists (l' ++ [(σ, σ1)]). by rewrite <- app_assoc.
Qed.

(** ** What a step makes durable *)

(** [rec] is what the store holds, now and after a crash. *)
Abbreviation durable := (StateStoreTheorems.settled authoritative store_crash).

(** The record holds this operation. *)
Definition records rec (x : SafetyOperation) : Prop :=
  x ∈ rec.(state).(Persistence.execution).(AuthoritativeSafetySnapshot.operations).

(** The operation [id] in the live state of a Hub *)
Definition live_operation h (id : string) : option SafetyOperation :=
  h.(persistent).(execution).(Controller.operations) !! id.

(** One of the Hubs marks an operation that it has not dispatched yet as dispatched,
    and what the store holds after this step, [rec], says so. (A record stores an
    operation as a restart will find it.) *)
Definition dispatch_step σ σ' (id : string) rec : Prop :=
  ∃ i SU h h' r r', σ.(hubs) !! i = Some (SU, h) ∧ σ'.(hubs) !! i = Some (SU, h')
    ∧ live_operation h id = Some r ∧ r.(SafetyOperation.state) = ActiveNotDispatched
    ∧ live_operation h' id = Some r' ∧ r'.(SafetyOperation.state) = Dispatched
    ∧ Ledger.id r' = id ∧ r'.(SafetyOperation.operation) = r.(SafetyOperation.operation)
    ∧ durable σ'.(sys_store) rec ∧ records rec (restart_record r').

(** One of the Hubs settles an operation on the device with the receipt [x], and what the
    store holds after this step has the receipt. *)
Definition settle_step σ σ' (x : ExecutionReceipt) : Prop :=
  ∃ i SU h h' id r r' rec, σ.(hubs) !! i = Some (SU, h) ∧ σ'.(hubs) !! i = Some (SU, h')
    ∧ live_operation h id = Some r ∧ on_device r.(SafetyOperation.state) = true
    ∧ live_operation h' id = Some r' ∧ r'.(SafetyOperation.receipt) = Some x
    ∧ durable σ'.(sys_store) rec ∧ records rec r'.

(** Identifiers that were dispatched by different steps, with the records *)
Inductive dispatches : list (Sys * Sys) → list (string * DurableHubState) → Prop :=
| no_dispatch : dispatches [] []
| other_step x l ds : dispatches l ds → dispatches (x :: l) ds
| one_dispatch σ σ' id rec l ds :
    dispatch_step σ σ' id rec → dispatches l ds → dispatches ((σ, σ') :: l) ((id, rec) :: ds).

(** ** Commits *)

Lemma snapshot_has_record c s id r :
  snapshot_controller c = Some s → c.(Controller.operations) !! id = Some r →
  restart_record r ∈ s.(AuthoritativeSafetySnapshot.operations).
Proof.
  unfold snapshot_controller. destruct (snapshot_for_restart _); [|done]. intros [= <-] Hr. cbn.
  rewrite merge_sort_Permutation. apply list_elem_of_fmap_2, list_elem_of_fmap. exists (id, r).
  split; [done|]. by apply elem_of_hash_iter.
Qed.

Lemma commit_durable p r c s s' rec :
  store_ok s → commits_to p r c s s' (Ok rec) →
  durable s' rec ∧ (∃ cur, possible s (Some cur) ∧ lease cur = p.(writer))
  ∧ ∀ id x, c.(Controller.operations) !! id = Some x → records rec (restart_record x).
Proof.
  intros Hs (v & io & Hv & Hio & Hc). destruct (commit_law _ _ _ _ _ _ Hs Hio Hc) as [_ [Hcur Hset]].
  destruct Hcur as (cur & Ha & cur' & -> & Hl & ->). split; [done|]. split; [exists cur'; split; [by left|done]|].
  intros id x Hx. unfold capture_hub in Hv. destruct (snapshot_controller c) as [y|] eqn:Hy; [|done].
  injection Hv as <-. by eapply snapshot_has_record.
Qed.

(** The Hub that has just committed was current. *)
Lemma committer_safe K s hs i SU h :
  Inv K s hs → hs !! i = Some (SU, h) →
  (∃ cur, possible s (Some cur) ∧ lease cur = h.(persistent).(writer)) →
  cinv h.(persistent).(execution).
Proof.
  intros Hinv Hi (cur & Hcur & Hl). destruct (this_hub _ _ _ _ _ _ Hinv Hi cur Hcur) as [_ Hok].
  destruct (current_live _ _ _ (Hok Hl)) as (tr & Htr & _).
  destruct (ctrace_reachable _ _ _ Htr) as [Hr _]. by apply sf_cinv, creachable_safe.
Qed.

Section Task.
Context (σ : Sys (S := S) (Io := Io)) (i : nat) (SU : Setup (Io := Io)) (h : HubInner).
Hypotheses (Hinv : Inv (outputs σ) σ.(sys_store) σ.(hubs)) (Hi : σ.(hubs) !! i = Some (SU, h)).

Abbreviation after w := (mk_sys (<[i := (SU, w.(hub))]> σ.(hubs)) w.(store) w.(sent) w.(replies)).

Lemma after_hub (w : World (S := S)) : (after w).(hubs) !! i = Some (SU, w.(hub)).
Proof. cbn. apply list_lookup_insert_eq. by eapply lookup_lt_Some. Qed.

Lemma dispatched_durably (w : World (S := S)) id o g b now c rec :
  let p := h.(persistent) in
  Controller.mark_dispatched_with_binding p.(execution) id o g b now = (c, Ok tt) →
  commits_to p p.(registry) c σ.(sys_store) w.(store) (Ok rec) →
  w.(hub).(persistent) = promoted p c (lease rec) → dispatch_step σ (after w) id rec.
Proof.
  intros p (r & a' & (Hr & _ & _)%checked_Ok & Hst & _ & _ & ->)%dispatch_Ok Hc Hw.
  destruct (commit_durable _ _ _ _ _ _ (inv_store _ _ _ Hinv) Hc) as (Hd & Hcur & Hrec).
  pose proof (committer_safe _ _ _ _ _ _ Hinv Hi Hcur) as Hsafe.
  eexists i, SU, h, w.(hub), r, _. unfold live_operation. rewrite Hw. cbn.
  split_and!; [done|apply after_hub|done|done|apply lookup_insert_eq|done| |done|done|].
  - exact (record_key _ Hsafe id r Hr).
  - eapply Hrec. cbn. apply lookup_insert_eq.
Qed.

Lemma settled_durably (w : World (S := S)) id o g terminal evidence now c1 next x lc rec :
  let p := h.(persistent) in
  Controller.finalize p.(execution) id o g terminal evidence now = (c1, Ok (next, x)) →
  lc = [] ∨ (∃ result, lc = [CAttach id o g result]) →
  commits_to p p.(registry) (performs c1 lc) σ.(sys_store) w.(store) (Ok rec) →
  w.(hub).(persistent) = promoted p (performs c1 lc) (lease rec) → settle_step σ (after w) x.
Proof.
  cbn zeta. intros Hf Hlc Hc Hw.
  destruct (commit_durable _ _ _ _ _ _ (inv_store _ _ _ Hinv) Hc) as (Hd & Hcur & Hrec).
  pose proof (committer_safe _ _ _ _ _ _ Hinv Hi Hcur) as Hsafe.
  apply finalize_Ok in Hf as (r & a' & (Hr & _ & _)%checked_Ok & Hdev & _ & Ha & -> & ->).
  apply finalize_terminal_Ok in Ha as (y & Hy & _ & Hterm & Hbe); [|apply Hsafe].
  pose proof (admitted_record _ Hsafe _ _ Hr) as Hadm. rewrite Hadm in Hy. injection Hy as <-.
  set (r1 := Ledger.settle _ _ _ _) in *. set (c1 := Controller.activate_next _ _) in *.
  assert (c1.(Controller.operations) !! id = Some r1) as Hr1.
  { subst c1. rewrite activate_next_eq. cbn. apply promote_ledger_kept.
    - pose proof (be_next _ _ _ _ _ _ Hbe) as Hp. rewrite <- (ci_view _ Hsafe) in Hp.
      rewrite view_insert. exact Hp.
    - apply lookup_insert_eq.
    - cbn. intros Hq. by rewrite Hq in Hterm. }
  assert (∃ r', (performs c1 lc).(Controller.operations) !! id = Some r' ∧ restart_record r' = r'
            ∧ r'.(SafetyOperation.receipt) = r1.(SafetyOperation.receipt)) as (r' & Hr' & Hst & Hx).
  { assert (∀ r', r'.(SafetyOperation.state) = terminal → restart_record r' = r') as Hst.
    { intros r' Heq. unfold restart_record. rewrite Heq. by destruct terminal. }
    destruct Hlc as [->|[result ->]]; cbn; [exists r1; split_and!; [done|by apply Hst|done]|].
    destruct (Controller.attach_recoverable_result c1 id o g result) as [c2 [[]|e]] eqn:Hat; cbn.
    - apply attach_Ok in Hat as (r2 & (Hr2 & _ & _)%checked_Ok & _ & _ & _ & ->). rewrite Hr1 in Hr2.
      injection Hr2 as <-. eexists. split; [apply lookup_insert_eq|]. split; [by apply Hst|done].
    - apply attach_Err in Hat as ->. exists r1. split_and!; [done|by apply Hst|done]. }
  exists i, SU, h, w.(hub), id, r, r', rec. unfold live_operation. rewrite Hw. cbn.
  split_and!; [done|apply after_hub|done|done|done|by rewrite Hx|done|]. rewrite <- Hst. by eapply Hrec.
Qed.

(** What a task adds to the commands that are sent or about to be *)
Lemma task_commands w n :
  wstep (SU := SU) (mk_world h σ.(sys_store) σ.(sys_sent) σ.(sys_replies) n) w →
  let K := omap sent_command σ.(sys_sent) ++ h.(tickets).(outgoing) in
  let K' := omap sent_command w.(sent) ++ w.(hub).(tickets).(outgoing) in
  K' ⊆+ K ∨ ∃ id rec, dispatch_step σ (after w) id rec ∧ K' ⊆+ id :: K.
Proof.
  cbn zeta.
  intros [Hb|m Hm Hb|channel r Hr Hb|k Hk Hb|r Hr Hb|s' x p Hc Hb|lc s' x p c Hlc Hc Hb
    |id o g b now c s' rec p Hd Hc Hb|id o g terminal evidence now c1 next x lc s' rec p Hf Hlc Hc Hb
    |lc s' e v c p Hlc Hc Hv Hrest Hb|id m Hid Hm Hb|id Hb|cap r session s' rec p c Hr Hc Hb
    |m Hg Hb|g Hb];
    destruct Hb as (Hp & Hs & Hk' & Hsent & _); cbn in *; rewrite Hk', Hsent; try (left; done).
  - left. rewrite omap_app. destruct m; try done; cbn; by rewrite app_nil_r.
  - right. exists id, rec. subst s'. split; [by eapply dispatched_durably|]. cbn.
    by rewrite <- Permutation_middle.
  - left. rewrite omap_app. cbn. rewrite Hm, <- (assoc_L (++)). cbn.
    by rewrite (hand_over_Permutation _ _ Hid).
  - left. apply submseteq_app; [done|apply hand_over_submseteq].
  - left. rewrite omap_app. cbn. by rewrite app_nil_r.
Qed.

(** ... and to the receipts *)
Lemma task_answers w n x :
  wstep (SU := SU) (mk_world h σ.(sys_store) σ.(sys_sent) σ.(sys_replies) n) w →
  x ∈ omap (λ r, reply_receipt r.2) w.(replies) ++ w.(hub).(tickets).(settled) →
  x ∈ omap (λ r, reply_receipt r.2) σ.(sys_replies) ++ h.(tickets).(settled)
  ∨ settle_step σ (after w) x.
Proof.
  intros [Hb|m Hm Hb|channel r Hr Hb|k Hk Hb|r Hr Hb|s' y p Hc Hb|lc s' y p c Hlc Hc Hb
    |id o g b now c s' rec p Hd Hc Hb|id o g terminal evidence now c1 next y lc s' rec p Hf Hlc Hc Hb
    |lc s' e v c p Hlc Hc Hv Hrest Hb|id m Hid Hm Hb|id Hb|cap r session s' rec p c Hr Hc Hb
    |m Hg Hb|g Hb];
    destruct Hb as (Hp & Hs & Hk' & _ & Hrep); cbn in *; rewrite Hk', Hrep; try (intros ?; left; done).
  - rewrite omap_app. cbn. destruct (reply_receipt r) as [y|]; cbn;
      rewrite ?app_nil_r, !elem_of_app, ?list_elem_of_singleton; [|by left].
    intros [[?| ->]|?]; left; auto.
  - cbn. rewrite <- Permutation_middle. intros [->|?]%elem_of_cons; [right|by left]. subst s'.
    by eapply settled_durably.
Qed.

(** The store changes by commits only. *)
Lemma task_store w n :
  wstep (SU := SU) (mk_world h σ.(sys_store) σ.(sys_sent) σ.(sys_replies) n) w →
  w.(store) = σ.(sys_store) ∨ ∃ r c x, commits_to h.(persistent) r c σ.(sys_store) w.(store) x.
Proof.
  intros [Hb|m Hm Hb|channel r Hr Hb|k Hk Hb|r Hr Hb|s' y p Hc Hb|lc s' y p c Hlc Hc Hb
    |id o g b now c s' rec p Hd Hc Hb|id o g terminal evidence now c1 next y lc s' rec p Hf Hlc Hc Hb
    |lc s' e v c p Hlc Hc Hv Hrest Hb|id m Hid Hm Hb|id Hb|cap r session s' rec p c Hr Hc Hb
    |m Hg Hb|g Hb];
    destruct Hb as (Hp & Hs & _); cbn in *; rewrite Hs; first [by left|right; by eauto].
Qed.
End Task.

(** ** Starts *)

(** A Hub that has started holds nothing, and it has taken the store over and perhaps
    committed. *)
Lemma start_spec env cfg mat verifier s s' r :
  (∀ n, store_io (env.(env_io) n)) → new_with_state_store env cfg mat verifier s = (s', r) →
  Forall (λ x, x.2.(tickets) = no_tickets) (started r)
  ∧ (s' = s ∨ ∃ io v s1 x, store_io io ∧ acquire_writer s io v = (s1, x)
       ∧ (s' = s1 ∨ ∃ p reg c y, commits_to p reg c s1 s' y)).
Proof.
  intros Hio. unfold new_with_state_store.
  destruct (validate_config _); [|intros [= <- <-]; split; [constructor|by left]].
  destruct (bootstrap_state _ _) as [[v|]|]; [|intros [= <- <-]; split; [constructor|by left]..].
  destruct (load_and_check _ _ _ _); [|intros [= <- <-]; split; [constructor|by left]].
  destruct (acquire_writer _ _ v) as [s1 [rec|e]] eqn:Hacq;
    [|intros [= <- <-]; split; [constructor|right; eauto 10]].
  destruct (assemble_from_acquired _ _ _ _) as [[[id key] inner]|] eqn:Has;
    [|intros [= <- <-]; split; [constructor|right; eauto 10]].
  set (SU := {| env := env; config := _; material := _; device_id := id; recovery_verifier := key |}).
  destruct (persist_locked _) as [t res] eqn:Hrun. intros [= <- <-].
  apply (persist_locked_spec (SU := SU) Hio) in Hrun. split.
  - destruct res as [u|e]; [|constructor]. apply Forall_singleton. cbn.
    assert (inner.(tickets) = no_tickets) as Hk.
    { unfold assemble_from_acquired, new_inner in Has. repeat (case_match; try done). by simplify_eq. }
    destruct Hrun as [[_ [=]]|(s2 & x & _ & (_ & _ & -> & _) & _)]. exact Hk.
  - right. exists (env.(env_io) 1), v, s1, (Ok rec). split_and!; [done..|].
    destruct Hrun as [[-> _]|(s2 & x & Hc & (_ & -> & _) & _)]; [by left|right; eauto].
Qed.

(** ** The store does not go back *)

Definition at_least (n : N) (s : S) : Prop :=
  ∀ o, possible s o → ∃ rec, o = Some rec ∧ (n ≤ rec.(revision))%N.

Lemma durable_at_least s rec : durable s rec → at_least rec.(revision) s.
Proof.
  intros [Ha Hc] o [Ho|(s' & Hs & Ho)]; exists rec; (split; [|done]); [congruence|].
  rewrite (Hc s' Hs) in Ho. congruence.
Qed.

Lemma effect_at_least n new s s' r :
  (∀ cur rec, new cur rec → match cur with
     | Some c => (c.(revision) ≤ rec.(revision))%N | None => True end) →
  store_effect authoritative store_crash new s s' r → at_least n s → at_least n s'.
Proof.
  intros Hnew Heff Hn o Ho. pose proof (possible_effect _ _ _ _ _ Heff Ho) as Hp.
  assert (∀ cur rec, authoritative s = Ok cur → new cur rec → (n ≤ rec.(revision))%N) as Hrec.
  { intros cur rec Ha Hr. destruct (Hn cur) as (c & -> & Hle); [by left|].
    specialize (Hnew _ _ Hr). cbn in Hnew. lia. }
  destruct r as [rec|e].
  - destruct Hp as (-> & cur & Ha & Hr). eauto.
  - destruct Hp as [Hp|(cur & rec & Ha & Hr & ->)]; [by apply Hn|eauto].
Qed.

Lemma commit_at_least n p reg c s s' x :
  store_ok s → commits_to p reg c s s' x → at_least n s → at_least n s'.
Proof.
  intros Hs (v & io & _ & Hio & Hc). destruct (commit_law _ _ _ _ _ _ Hs Hio Hc) as [_ Heff].
  eapply effect_at_least; [|exact Heff]. intros cur rec (c' & -> & _ & ->). cbn. lia.
Qed.

Lemma step_at_least n σ σ' :
  Inv (outputs σ) σ.(sys_store) σ.(hubs) → sys_step σ σ' →
  at_least n σ.(sys_store) → at_least n σ'.(sys_store).
Proof.
  intros Hinv [i SU h k w Hi Hstep|i|s Hc|env cfg mat verifier s r Hio Hstart] Hn; cbn; [|done| |].
  - destruct (task_store σ SU h w k Hstep) as [->|(reg & c & x & Hc)]; [done|].
    eapply commit_at_least; [apply Hinv|done..].
  - intros o Ho. eapply Hn, possible_crash; done.
  - destruct (start_spec _ _ _ _ _ _ _ Hio Hstart) as [_ [->|(io & v & s1 & x & Hio' & Hacq & Hs)]]; [done|].
    destruct (acquire_law _ _ _ _ _ (inv_store _ _ _ Hinv) Hio' Hacq) as [Hok Heff].
    assert (at_least n s1) as Hn1.
    { eapply effect_at_least; [|exact Heff|done]. intros [c|] rec ->; cbn; [lia|done]. }
    destruct Hs as [->|(p & reg & c & y & Hc)]; [done|]. by eapply commit_at_least.
Qed.

(** ** Commands and receipts along a step *)

Lemma bind_nothing {A B} (f : A → list B) hs : Forall (λ x, f x = []) hs → hs ≫= f = [].
Proof. induction 1 as [|x hs Hx _ IH]; cbn; [done|]. by rewrite Hx. Qed.

Lemma step_commands σ σ' :
  Inv (outputs σ) σ.(sys_store) σ.(hubs) → sys_step σ σ' →
  (outputs σ').(commands) ⊆+ (outputs σ).(commands)
  ∨ ∃ id rec, dispatch_step σ σ' id rec ∧ (outputs σ').(commands) ⊆+ id :: (outputs σ).(commands).
Proof.
  intros Hinv [i SU h k w Hi Hstep|i|s Hc|env cfg mat verifier s r Hio Hstart].
  - destruct (outputs_from σ i _ Hi) as [_ [Hfrom _ _]]. set (σ1 := mk_sys _ _ _ _).
    assert (σ1.(hubs) !! i = Some (SU, w.(hub))) as Hi' by by eapply after_hub.
    destruct (outputs_from σ1 i _ Hi') as [[Hto _ _] _]. cbn [hubs σ1] in Hto.
    rewrite beside_insert in Hto. cbn in Hfrom, Hto. rewrite (assoc_L (++)) in Hfrom, Hto.
    destruct (task_commands σ i SU h Hinv Hi w k Hstep) as [Hsub|(id & rec & Hd & Hsub)]; [left|right].
    + etransitivity; [exact Hto|]. etransitivity; [|exact Hfrom]. by apply submseteq_app.
    + exists id, rec. split; [done|]. etransitivity; [exact Hto|].
      etransitivity; [apply submseteq_app; [exact Hsub|reflexivity]|]. cbn. by apply submseteq_skip.
  - left. cbn. apply submseteq_app; [done|apply delete_bind_submseteq].
  - by left.
  - left. destruct (start_spec _ _ _ _ _ _ _ Hio Hstart) as [Hk _]. cbn. rewrite bind_app.
    rewrite (bind_nothing (λ x, x.2.(tickets).(outgoing)) (started r)); [by rewrite app_nil_r|].
    eapply Forall_impl; [exact Hk|]. by intros x ->.
Qed.

Lemma step_answers σ σ' x :
  Inv (outputs σ) σ.(sys_store) σ.(hubs) → sys_step σ σ' →
  x ∈ (outputs σ').(answers) → x ∈ (outputs σ).(answers) ∨ settle_step σ σ' x.
Proof.
  intros Hinv [i SU h k w Hi Hstep|i|s Hc|env cfg mat verifier s r Hio Hstart].
  - destruct (outputs_from σ i _ Hi) as [_ [_ Hfrom _]]. set (σ1 := mk_sys _ _ _ _).
    assert (σ1.(hubs) !! i = Some (SU, w.(hub))) as Hi' by by eapply after_hub.
    destruct (outputs_from σ1 i _ Hi') as [[_ Hto _] _]. cbn [hubs σ1] in Hto.
    rewrite beside_insert in Hto. cbn in Hfrom, Hto. intros [Hx|Hx]%Hto%elem_of_app.
    1: destruct (task_answers σ i SU h Hinv Hi w k x Hstep) as [Hin|?]; [apply elem_of_app; by left| |by right].
    2: apply elem_of_app in Hx as [Hx|Hx];
         [destruct (task_answers σ i SU h Hinv Hi w k x Hstep) as [Hin|?];
            [apply elem_of_app; by right| |by right]|].
    all: left; apply Hfrom; rewrite ?elem_of_app in *; naive_solver.
  - cbn. rewrite !elem_of_app. intros [?|?]; left; [by left|right].
    by eapply elem_of_submseteq, delete_bind_submseteq.
  - by left.
  - destruct (start_spec _ _ _ _ _ _ _ Hio Hstart) as [Hk _]. cbn. rewrite bind_app.
    rewrite (bind_nothing (λ x, x.2.(tickets).(settled)) (started r)); [rewrite app_nil_r; by left|].
    eapply Forall_impl; [exact Hk|]. by intros y ->.
Qed.

(** ** Along a run *)

Lemma run_commands l σ :
  run l σ → ∃ ds, dispatches l ds ∧ (outputs σ).(commands) ⊆+ ds.*1
                  ∧ Forall (λ x, at_least x.2.(revision) σ.(sys_store)) ds.
Proof.
  induction 1 as [s Hs|l σ σ' Hrun (ds & Hds & Hsub & Hrev) Hstep].
  { exists []. split_and!; [constructor|done|constructor]. }
  pose proof (reachable_Inv _ (run_reachable _ _ Hrun)) as Hinv.
  assert (Forall (λ x, at_least x.2.(revision) σ'.(sys_store)) ds) as Hrev'.
  { eapply Forall_impl; [exact Hrev|]. intros x. by apply step_at_least. }
  destruct (step_commands σ σ' Hinv Hstep) as [Hle|(id & rec & Hd & Hle)].
  - exists ds. split_and!; [by constructor|by etransitivity|done].
  - exists ((id, rec) :: ds). split_and!; [by constructor| |].
    + etransitivity; [exact Hle|]. cbn. by apply submseteq_skip.
    + constructor; [|done]. apply durable_at_least. by destruct Hd as (? & ? & ? & ? & ? & ? & H); apply H.
Qed.

Lemma run_answers l σ x :
  run l σ → x ∈ (outputs σ).(answers) → ∃ σ1 σ2, (σ1, σ2) ∈ l ∧ settle_step σ1 σ2 x.
Proof.
  induction 1 as [s Hs|l σ σ' Hrun IH Hstep]; [by intros ?%elem_of_nil|]. intros Hx.
  pose proof (reachable_Inv _ (run_reachable _ _ Hrun)) as Hinv.
  destruct (step_answers σ σ' x Hinv Hstep Hx) as [Hin|?]; [|exists σ, σ'; split; [by left|done]].
  destruct (IH Hin) as (σ1 & σ2 & ? & ?). exists σ1, σ2. split; [by right|done].
Qed.
End Runs.
