(* ===== verification/HubTheorems.v ===== *)
(** * What the Hubs promise

    The theorems about any number of Hubs over one store, through crashes, restarts
    and takeovers, with a run of two Hubs as their witness. *)

From S2P Require Import Prelude Vocabulary Protocol Crypto Tombstone Admission Registry Grants.
From S2P Require Import SafetyTypes Recovery EphemeralRefs Evidence Transport Controller.
From S2P Require Import ControllerSnapshot ControllerCalls ControllerTheorems ControllerDevice Trust.
From S2P Require Import Persistence StateStore StateStoreTheorems Hub HubSession HubService.
From S2P Require Import HubDispatch HubSteps HubHandlers HubSystem HubInvariant HubRuns.
Import HubOperationState ControllerSnapshot Persistence StateStore Hub HubSession HubService.

Section Theorems.
Context `{ED : Ed25519} {S Io : Type} `{ST : HubAuthoritativeStateStore S Io}
  `{HI : HashIter} `{B64 : Base64Url, B64L : !Base64UrlLaws} `{RS : RecoverySerializer}
  `{CJ : CheckpointJson HubPersistentState} `{SL : !StoreLaws S Io} `{RT : RotationSerializer}
  `{WJ : WireJson} `{SHA : Sha256} `{P : P256} `{WAJ : WebAuthnJson}.
Implicit Types (σ : Sys (S := S) (Io := Io)) (SU : Setup (Io := Io)).

Definition sent_commands σ : list string := omap sent_command σ.(sys_sent).
Definition replied_receipts σ : list ExecutionReceipt :=
  omap (λ r, reply_receipt r.2) σ.(sys_replies).
Definition accepted_generations σ : list N := omap sent_generation σ.(sys_sent).

Lemma accepted_fresh σ :
  reachable σ → NoDup (filter (λ g, (g < u64_max)%N) (accepted_generations σ)).
Proof.
  intros Hinv%reachable_Inv. pose proof (inv_fresh _ _ _ Hinv) as Hnd. cbn in Hnd.
  rewrite filter_app in Hnd. by apply NoDup_app in Hnd as [? _].
Qed.

(** The state of the system after a task of Hub [i] *)
Definition after_task σ (i : nat) SU (t : Task (S := S)) : Sys :=
  mk_sys (<[i := (SU, t.(world).(hub))]> σ.(hubs)) t.(world).(store) t.(world).(sent)
    t.(world).(replies).

Lemma tasks_steps σ i SU h n w :
  σ.(hubs) !! i = Some (SU, h) →
  rtc (wstep (SU := SU)) (mk_world h σ.(sys_store) σ.(sys_sent) σ.(sys_replies) n) w →
  rtc sys_step σ (mk_sys (<[i := (SU, w.(hub))]> σ.(hubs)) w.(store) w.(sent) w.(replies)).
Proof.
  intros Hi Hsteps. remember (mk_world h _ _ _ n) as w0 eqn:Hw0.
  assert (rtc sys_step σ (mk_sys (<[i := (SU, w0.(hub))]> σ.(hubs)) w0.(store) w0.(sent)
            w0.(replies))) as Hrun0.
  { subst w0. cbn. rewrite list_insert_id by done. by destruct σ. }
  clear Hw0. induction Hsteps as [w0|w0 w1 w Hstep _ IH]; [done|]. apply IH.
  eapply rtc_r; [exact Hrun0|]. set (σ0 := mk_sys _ _ _ _) in Hrun0 |- *.
  rewrite <- (list_insert_insert_eq σ.(hubs) i (SU, w1.(hub)) (SU, w0.(hub))).
  apply (sys_task σ0 i SU w0.(hub) w0.(tick)); [|by destruct w0].
  apply list_lookup_insert_eq. by eapply lookup_lt_Some.
Qed.

Lemma tasks_reachable σ i SU h n w :
  reachable σ → σ.(hubs) !! i = Some (SU, h) →
  rtc (wstep (SU := SU)) (mk_world h σ.(sys_store) σ.(sys_sent) σ.(sys_replies) n) w →
  reachable (mk_sys (<[i := (SU, w.(hub))]> σ.(hubs)) w.(store) w.(sent) w.(replies)).
Proof.
  intros (s & Hs & Hrun) Hi Hsteps. exists s. split; [done|].
  etransitivity; [exact Hrun|]. by eapply tasks_steps.
Qed.

(** What the code of one Hub makes of a state: nothing, a whole session with an Agent,
    with any messages, requests and faults, an event of a session or a decision of an
    operator *)
Inductive continues σ : Sys → Prop :=
| at_rest : continues σ σ
| a_session i SU h n session first second events :
    σ.(hubs) !! i = Some (SU, h) → (∀ k, store_io (env.(env_io) k)) →
    continues σ (after_task σ i SU (run_session first second events
      (mk_task (mk_world h σ.(sys_store) σ.(sys_sent) σ.(sys_replies) n) session)).1)
| an_event i SU h n session ctx event :
    σ.(hubs) !! i = Some (SU, h) → (∀ k, store_io (env.(env_io) k)) →
    continues σ (after_task σ i SU (handle_event ctx event
      (mk_task (mk_world h σ.(sys_store) σ.(sys_sent) σ.(sys_replies) n) session)).1)
| a_resolution i SU h n session id resolver decision evidence :
    σ.(hubs) !! i = Some (SU, h) → (∀ k, store_io (env.(env_io) k)) →
    continues σ (after_task σ i SU (resolve_indeterminate id resolver decision evidence
      (mk_task (mk_world h σ.(sys_store) σ.(sys_sent) σ.(sys_replies) n) session)).1).

Lemma continues_steps σ σ' : continues σ σ' → rtc sys_step σ σ'.
Proof.
  intros [|i SU h n session first second events Hi Hio|i SU h n session ctx event Hi Hio
    |i SU h n session id resolver decision evidence Hi Hio]; [done|..];
    eapply tasks_steps; try done.
  - apply (steps_run_session Hio first second events (mk_task (mk_world _ _ _ _ _) session) I).
  - apply (steps_handle_event Hio ctx event (mk_task (mk_world _ _ _ _ _) session) I).
  - apply (steps_resolve_indeterminate Hio id resolver decision evidence
      (mk_task (mk_world _ _ _ _ _) session) I).
Qed.

(** What a run accounts for: each command that was sent, by a step that made its
    dispatch durable, of which the store still knows (what it holds is not older than the
    record of that step); each receipt that a client was given, by a step that made it
    durable; and what the store holds, by a controller that was reached by calls and
    restarts. *)
Record accounted (l : list (Sys * Sys)) σ : Prop := {
  accounted_commands :
    ∃ ds, dispatches l ds ∧ sent_commands σ ⊆+ ds.*1
          ∧ Forall (λ x, at_least x.2.(revision) σ.(sys_store)) ds;
  accounted_receipts x :
    x ∈ replied_receipts σ → ∃ σ1 σ2, (σ1, σ2) ∈ l ∧ settle_step σ1 σ2 x;
  accounted_store rec :
    possible σ.(sys_store) (Some rec) →
    ∃ c, creachable c ∧ snapshot_controller c = Some rec.(state).(Persistence.execution)
}.

Lemma run_accounted l σ : run l σ → accounted l σ.
Proof.
  intros Hrun. split.
  - destruct (run_commands _ _ Hrun) as (ds & Hds & Hsub & Hrev). exists ds. split_and!; [done| |done].
    etransitivity; [|exact Hsub]. by apply submseteq_inserts_r.
  - intros x Hx. eapply run_answers; [done|]. cbn. apply elem_of_app. by left.
  - intros rec Hrec. pose proof (reachable_Inv _ (run_reachable _ _ Hrun)) as Hinv.
    destruct (inv_records _ _ _ Hinv rec Hrec) as (d & tr & c & Htr & Hc & _).
    exists c. split; [by apply (ctrace_reachable d tr)|done].
Qed.

(** C4: The Hubs refine the operation controller. From any state that a run of the Hubs has
    led to, what the code of a Hub does next (a session, an event of one, a decision of an
    operator) continues the run, and the run accounts for everything that is visible of it:
    every command that any Hub has sent has a step of its own in which the operation went
    from not dispatched to dispatched and the store durably recorded it, and the store has
    not gone back since; every receipt that any client was given comes from a step that
    durably recorded it; and whatever the store holds, now or after a crash, is the
    snapshot of a controller that was reached by calls and restarts. *)
Theorem hubs_refine_controller l σ σ' :
  run l σ → continues σ σ' → ∃ l', run (l' ++ l) σ' ∧ accounted (l' ++ l) σ'.
Proof.
  intros Hrun Hc%continues_steps. destruct (run_steps _ _ _ Hrun Hc) as [l' Hl'].
  exists l'. split; [done|]. by apply run_accounted.
Qed.

(** C5: At most one Hub can commit. When a commit of one Hub succeeds, no other Hub could
    have committed in its place, and none can afterwards. *)
Theorem at_most_one_hub_commits σ i j SU SU' h h' io io' v v' s rec :
  reachable σ → σ.(hubs) !! i = Some (SU, h) → σ.(hubs) !! j = Some (SU', h') → i ≠ j →
  store_io io → store_io io' →
  compare_and_commit σ.(sys_store) io h.(persistent).(writer) v = (s, Ok rec) →
  is_ok (compare_and_commit σ.(sys_store) io' h'.(persistent).(writer) v').2 = false
  ∧ is_ok (compare_and_commit s io' h'.(persistent).(writer) v').2 = false.
Proof.
  intros Hinv%reachable_Inv Hi Hj Hne Hio Hio' Hc. pose proof (inv_store _ _ _ Hinv) as Hok.
  destruct (commit_law _ _ _ _ _ _ Hok Hio Hc) as [Hok' [(cur & Ha & c & -> & Hl & ->) [Ha' _]]].
  pose proof (inv_hubs _ _ _ Hinv) as Hh. rewrite Forall_lookup in Hh.
  destruct (Hh j _ Hj c (or_introl Ha)) as [Hle _]. cbn in Hle.
  assert (lease c ≠ h'.(persistent).(writer)) as Hdiff.
  { intros Heq. apply Hne. eapply NoDup_lookup; [apply (inv_leases _ _ _ Hinv)|..];
      rewrite list_lookup_fmap; [by rewrite Hi|]. rewrite Hj. unfold lease_of. cbn. by rewrite <- Hl, Heq. }
  assert (∀ s' y, store_ok s' → authoritative s' = Ok (Some y) → lease y ≠ h'.(persistent).(writer) →
    is_ok (compare_and_commit s' io' h'.(persistent).(writer) v').2 = false) as Hfails.
  { intros s' y Hs' Hy Hly. destruct (compare_and_commit s' _ _ _) as [s'' [rec'|e]] eqn:E; [|done].
    destruct (commit_law _ _ _ _ _ _ Hs' Hio' E) as [_ [(cur & Ha'' & c' & -> & Hl' & _) _]].
    congruence. }
  split; [by eapply Hfails|]. eapply Hfails; [done|exact Ha'|]. intros Heq.
  rewrite <- Heq in Hle. cbn in Hle. lia.
Qed.

(** C8: No generation is given to two sessions: the sessions that the Hubs have accepted,
    over all restarts and takeovers, have different generations, and the store knows
    a generation at least as late. (The counter stops at its last value.) *)
Theorem accepted_generations_are_fresh σ :
  reachable σ →
  NoDup (filter (λ g, (g < u64_max)%N) (accepted_generations σ))
  ∧ ∀ rec x g, possible σ.(sys_store) (Some rec) →
      x ∈ rec.(state).(Persistence.registry).(DeviceRegistry.snap_devices) →
      g ∈ accepted_generations σ → (g < u64_max)%N →
      (g ≤ x.(DeviceRegistry.snap_generation))%N.
Proof.
  intros Hr. split; [by apply accepted_fresh|].
  pose proof (reachable_Inv _ Hr) as Hinv.
  - intros rec x g Hrec Hx Hg Hlt.
    destruct (inv_records _ _ _ Hinv rec Hrec) as (d & tr & c & _ & _ & _ & Hk).
    apply (Hk x Hx); [|done]. cbn. apply elem_of_app. by left.
Qed.


End Theorems.
