(* ===== verification/HubExamples.v ===== *)
(** * A run of two Hubs

    A Hub starts on an empty store, accepts its Agent, runs two commands for a
    client, one of which completes; then it stops and a second Hub takes over. *)

From S2P Require Import Prelude Vocabulary Protocol Crypto Tombstone Admission Registry Grants.
From S2P Require Import SafetyTypes Recovery EphemeralRefs Evidence Transport Controller.
From S2P Require Import ControllerSnapshot ControllerCalls ControllerTheorems ControllerDevice Trust.
From S2P Require Import Persistence StateStore StateStoreTheorems Hub HubSession HubService.
From S2P Require Import HubDispatch HubSteps HubHandlers HubSystem HubInvariant HubRuns HubTheorems.
Import HubOperationState ControllerSnapshot Persistence StateStore Hub HubSession HubService.

Module HubExamples.
Import ToyCrypto ControllerExamples.
#[local] Existing Instances ReplayDenyTombstone.Examples.hex_engine
  ReplayDenyTombstone.Examples.hex_engine_laws.
#[local] Instance brace_json : WireJson := λ _, Some [123; 125]%N.
#[local] Instance toy_sha256 : Sha256 := digest.
#[local] Instance no_p256 : P256 := λ _ _ _, false.
#[local] Instance no_webauthn : WebAuthnJson := {
  verifier_from_slice _ := None; proof_to_vec _ := None; proof_from_slice _ := None;
  client_data_to_vec _ := None
}.
#[local] Instance no_rotations : RotationSerializer := {
  device_rotation_to_vec _ _ _ _ _ := None; hub_rotation_to_vec _ _ _ _ := None
}.
#[local] Instance short_checkpoints : CheckpointJson HubPersistentState := {
  checkpoint_to_vec _ := Some []; checkpoint_from_slice _ := None
}.

Definition hub_key : SigningKey := key_of_byte 1.
Definition device_key : SigningKey := key_of_byte 2.
Definition dev : string := device_id_of_key_bytes (vk_to_bytes (sk_verifying_key device_key)).

Definition grant (k : nat) (d : string) (cap : DeviceCapability) (at_ms ttl : N) : GrantToken :=
  GrantToken.mk (GrantPayload.mk 2 "hub" "grant" d (class cap) (Some cap) at_ms (at_ms + ttl)) [].

Definition calm : HubEnv (Io := bool) := {|
  env_unix_time_ms n := Some (1000 + N.of_nat n)%N;
  env_session_clock n := (1000 + N.of_nat n)%N;
  env_io _ := false;
  env_sign_grant k d cap at_ms ttl := Some (grant k d cap at_ms ttl);
  env_random _ := [replicate 32 9%N];
  env_outbound_open _ := true;
  env_encodes _ := true
|}.

Definition small : HubServiceConfig := mk_config 1000 10000 100 1000 4 1 1.
Definition provisioned : HubProvisionedMaterial := mk_material hub_key (sk_verifying_key device_key) None.

Definition start_hub (s : MemoryHubStateStore) :=
  new_with_state_store calm small provisioned (Ok None) s.

Definition empty_store : MemoryHubStateStore := mk_memory None false.

Definition signature : list N := sk_sign device_key [123; 125]%N.
Definition adverts : CapabilityAdvertisement :=
  CapabilityAdvertisement.mk "b" "1" "linux" CAPABILITY_SCHEMA_VERSION 1 [].
Definition hello : AgentHello := Transport.new_hello dev adverts [1; 2]%N.
Definition proof : AgentProof :=
  AgentProof.mk HUB_AGENT_SCHEMA_VERSION dev [1; 2]%N (replicate 32 9%N) signature.

Definition request (id : string) : SessionEvent :=
  Request (Execute id alice (DeviceCommand.TypeText "hi") empty_metadata None 1).
Definition result_of (id : string) (r : DeviceResult) : SessionEvent :=
  Frame (Some (AgentToHub.Result (RemoteResult.mk HUB_AGENT_SCHEMA_VERSION
    (CommandResultEnvelope.mk CONTROL_SCHEMA_VERSION dev 1 1 id r) signature))).

(** A Hub of the system, by its position *)
Definition no_hub : Setup (Io := bool) * HubInner :=
  ({| env := calm; config := small; material := provisioned; device_id := dev;
      recovery_verifier := None |},
   mk_inner (mk_persistent DeviceRegistry.default_registry start_state (mk_lease 0 0)
     DeviceRegistry.default_registry start_state) None false false None 0 (mk_runtime None None None)
     (HubRefs.mk HubRefs.default_limits ∅) no_tickets).
Definition hub_at (σ : Sys (S := MemoryHubStateStore) (Io := bool)) (i : nat) : Setup * HubInner :=
  default no_hub (σ.(hubs) !! i).

Definition add_hub (σ : Sys) : Sys :=
  let r := start_hub σ.(sys_store) in
  mk_sys (σ.(hubs) ++ started r.2) r.1 σ.(sys_sent) σ.(sys_replies).

Definition one_hub : Sys := add_hub (initial empty_store).
Definition new_task : Task (S := MemoryHubStateStore) :=
  mk_task (mk_world (hub_at one_hub 0).2 one_hub.(sys_store) one_hub.(sys_sent)
    one_hub.(sys_replies) 0) new_session.
Definition session_run : Task (S := MemoryHubStateStore) * result (failure HubServiceError) bool :=
  run_session (SU := (hub_at one_hub 0).1) (Ok (AgentToHub.Hello hello)) (Ok (AgentToHub.Proof proof))
    [request "op_1"; request "op_2"; result_of "op_1" DeviceResult.TypeTextCompleted] new_task.
Definition session_over : Sys := after_task one_hub 0 (hub_at one_hub 0).1 session_run.1.
Definition two_hubs : Sys := add_hub session_over.

Lemma empty_store_fresh : fresh empty_store.
Proof. split; [exact I|]. by intros rec [[=]|(s' & <- & [=])]. Qed.

Lemma add_hub_step σ : sys_step σ (add_hub σ).
Proof.
  eapply (sys_start σ calm small provisioned (Ok None)); [done|]. unfold add_hub, start_hub.
  by destruct (new_with_state_store _ _ _ _ _).
Qed.

Lemma add_hub_reachable σ : reachable σ → reachable (add_hub σ).
Proof.
  intros (s & Hs & Hrun). exists s. split; [done|]. eapply rtc_r; [exact Hrun|apply add_hub_step].
Qed.

Lemma hub_at_lookup σ i : i < length σ.(hubs) → σ.(hubs) !! i = Some (hub_at σ i).
Proof. intros [x Hx]%lookup_lt_is_Some. unfold hub_at. by rewrite Hx. Qed.

Lemma one_hub_reachable : reachable one_hub.
Proof.
  apply add_hub_reachable. exists empty_store. split; [exact empty_store_fresh|apply rtc_refl].
Qed.

Lemma first_hub : one_hub.(hubs) !! 0 = Some ((hub_at one_hub 0).1, (hub_at one_hub 0).2).
Proof.
  rewrite (hub_at_lookup one_hub 0); [by destruct (hub_at one_hub 0)|]. vm_compute. lia.
Qed.

Lemma session_over_reachable : reachable session_over.
Proof.
  apply (tasks_reachable one_hub 0 (hub_at one_hub 0).1 (hub_at one_hub 0).2 0);
    [exact one_hub_reachable|exact first_hub|].
  refine (proj1 (steps_run_session (SU := (hub_at one_hub 0).1) _ _ _ _ new_task I)). by intros n.
Qed.

Lemma two_hubs_reachable : reachable two_hubs.
Proof. apply add_hub_reachable, session_over_reachable. Qed.

Lemma default_is_Some {A} (a : A) o : match o with Some _ => true | None => false end = true → o = Some (default a o).
Proof. by destruct o. Qed.

Lemma current_possible (m : MemoryHubStateStore) rec : m.(current) = Some rec → possible m (Some rec).
Proof. intros H. left. cbn. by rewrite H. Qed.

Lemma ok_outcome {A B E} (x : A * result E B) (b : B) :
  is_ok x.2 = true → x = (x.1, Ok (match x.2 with Ok y => y | Err _ => b end)).
Proof. destruct x as [a [y|e]]; by intros. Qed.

(** What the store holds at the end *)
Definition held : DurableHubState :=
  default (mk_durable 0 0 0 (StoreExamples.idle 0)) two_hubs.(sys_store).(current).

Lemma held_possible : possible two_hubs.(sys_store) (Some held).
Proof. apply current_possible, default_is_Some. vm_compute. reflexivity. Qed.

(** The first session continues the run that started the first Hub. *)
Lemma one_hub_run : run [(initial empty_store, one_hub)] one_hub.
Proof. eapply run_step; [|apply add_hub_step]. apply run_initial, empty_store_fresh. Qed.

Lemma session_continues : continues one_hub session_over.
Proof. refine (a_session one_hub 0 _ _ 0 new_session _ _ _ first_hub _). by intros k. Qed.

Lemma one_receipt (l : list ExecutionReceipt) (P : ExecutionReceipt → Prop) :
  length l = 1 → (∀ x, x ∈ l → P x) → ∃ x, P x.
Proof. destruct l as [|x l]; [done|]. intros _ HP. exists x. apply HP. by left. Qed.

Lemma hubs_refine_controller_witness :
  ∃ l, run l session_over
    ∧ (∃ ds, dispatches l ds ∧ ["op_1"; "op_2"] ⊆+ ds.*1)
    ∧ ∃ x σ1 σ2, (σ1, σ2) ∈ l ∧ settle_step σ1 σ2 x.
Proof.
  destruct (hubs_refine_controller _ one_hub session_over one_hub_run session_continues)
    as (l' & Hrun & [(ds & Hds & Hsub & _) Hx _]).
  eexists. split; [exact Hrun|]. split.
  - exists ds. split; [exact Hds|].
    replace ["op_1"; "op_2"] with (sent_commands session_over); [exact Hsub|]. vm_compute. reflexivity.
  - apply (one_receipt (replied_receipts session_over)); [vm_compute; reflexivity|exact Hx].
Defined.

(** The new Hub commits; the old one cannot. *)
Definition commit_by (i : nat) (s : MemoryHubStateStore) :=
  compare_and_commit s false (hub_at two_hubs i).2.(persistent).(writer) held.(state).
Definition committed_record : DurableHubState :=
  match (commit_by 1 two_hubs.(sys_store)).2 with Ok rec => rec | Err _ => held end.

Lemma commit_succeeds :
  commit_by 1 two_hubs.(sys_store) = ((commit_by 1 two_hubs.(sys_store)).1, Ok committed_record).
Proof.
  apply ok_outcome. vm_compute. reflexivity.
Qed.

Lemma hub_of_two i : i < 2 → two_hubs.(hubs) !! i = Some ((hub_at two_hubs i).1, (hub_at two_hubs i).2).
Proof.
  intros Hi. rewrite (hub_at_lookup two_hubs i); [by destruct (hub_at two_hubs i)|].
  replace (length two_hubs.(hubs)) with 2; [exact Hi|]. vm_compute. reflexivity.
Qed.

Lemma at_most_one_hub_commits_witness :
  is_ok (commit_by 0 two_hubs.(sys_store)).2 = false
  ∧ is_ok (commit_by 0 (commit_by 1 two_hubs.(sys_store)).1).2 = false.
Proof.
  exact (at_most_one_hub_commits two_hubs 1 0 (hub_at two_hubs 1).1 (hub_at two_hubs 0).1
    (hub_at two_hubs 1).2 (hub_at two_hubs 0).2 false false held.(state) held.(state)
    (commit_by 1 two_hubs.(sys_store)).1 committed_record two_hubs_reachable
    (hub_of_two 1 ltac:(lia)) (hub_of_two 0 ltac:(lia)) ltac:(lia) I I commit_succeeds).
Defined.

Lemma accepted_generations_are_fresh_witness :
  accepted_generations two_hubs = [1%N]
  ∧ ∀ x, x ∈ held.(state).(Persistence.registry).(DeviceRegistry.snap_devices) →
         (1 ≤ x.(DeviceRegistry.snap_generation))%N.
Proof.
  assert (accepted_generations two_hubs = [1%N]) as H by (vm_compute; reflexivity).
  split; [exact H|]. intros x Hx.
  apply (proj2 (accepted_generations_are_fresh two_hubs two_hubs_reachable) held x 1%N held_possible Hx);
    [rewrite H; by left|done].
Defined.

(** ** A queued operation that is never dispatched *)

Definition hub_setup : Setup (Io := bool) := (hub_at one_hub 0).1.
#[local] Existing Instance hub_setup.

Definition ctx : SessionContext := mk_context hello
  (HubChallenge.mk HUB_AGENT_SCHEMA_VERSION [1; 2]%N (replicate 32 9%N)
     (vk_to_bytes (sk_verifying_key hub_key)) []) 1 1.
Definition timed_out (id : string) : SessionEvent :=
  Frame (Some (AgentToHub.IndeterminateAck (RemoteIndeterminateAck.mk HUB_AGENT_SCHEMA_VERSION dev 1 id
    RemoteIndeterminateCause.BackendTimedOut signature))).
Definition look (id : string) : SessionEvent :=
  Request (Execute id alice DeviceCommand.Screenshot empty_metadata None 2).

(** A typed text of unknown outcome, and a screenshot to find out *)
Definition unknown_text : M (S := MemoryHubStateStore) HubServiceError unit :=
  open_session (Ok (AgentToHub.Hello hello)) (Ok (AgentToHub.Proof proof));;
  handle_event ctx (request "op_1");;
  handle_event ctx (result_of "op_1" (DeviceResult.Error DeviceErrorCode.BackendOutcomeIndeterminate));;
  handle_event ctx (look "op_2");;
  mret tt.
Definition resolve : M (S := MemoryHubStateStore) HubServiceError _ :=
  attempt (resolve_indeterminate "op_1" alice IndeterminateResolution.ConfirmedCompleted "seen").

(** The unknown outcome is resolved while the screenshot is under way, the next text
    waits for it; then the screenshot ends with [last]. *)
Definition queued_behind (last : SessionEvent) : Task * result (failure HubServiceError) bool :=
  (unknown_text;; resolve;; handle_event ctx (request "op_3");; handle_event ctx last) new_task.

Definition commands_of (t : Task (S := MemoryHubStateStore)) : list string :=
  omap sent_command t.(world).(sent).
Definition state_in (t : Task (S := MemoryHubStateStore)) (id : string) : option HubOperationState :=
  Controller.state_of t.(world).(hub).(persistent).(execution) id.
Definition committed_state_in (t : Task (S := MemoryHubStateStore)) (id : string) :=
  Controller.state_of t.(world).(hub).(persistent).(committed_execution) id.

(** An acknowledged timeout of the screenshot activates the queued text and drops the
    decision to send it; an error result of the same screenshot sends it. *)
Lemma interrupted_read_strands_the_queue :
  (let (t, r) := queued_behind (timed_out "op_2") in
   r = Ok true ∧ state_in t "op_3" = Some ActiveNotDispatched ∧ commands_of t = ["op_1"; "op_2"])
  ∧ let (t, r) := queued_behind
        (result_of "op_2" (DeviceResult.Error DeviceErrorCode.BackendOutcomeIndeterminate)) in
    r = Ok true ∧ state_in t "op_3" = Some Dispatched ∧ commands_of t = ["op_1"; "op_2"; "op_3"].
Proof. vm_compute. by repeat split. Qed.

(** ** A failed resolution *)

Definition fail_next : M (S := MemoryHubStateStore) HubServiceError unit := λ t,
  let w := t.(world) in
  (mk_task (mk_world w.(hub) (mk_memory w.(store).(current) true) w.(sent) w.(replies) w.(tick))
     t.(session), Ok tt).

Definition failed_resolution := (unknown_text;; fail_next;; resolve) new_task.

(** When the resolution cannot be committed, the state is not the committed one but a
    restart of it: the screenshot under way has failed in memory, and its result ends
    the session with an error. *)
Lemma failed_resolution_fails_the_read :
  let (t, r) := failed_resolution in
  r = Ok (Err HubCommandError.Rejected) ∧ committed_state_in t "op_2" = Some Dispatched
  ∧ state_in t "op_2" = Some Failed
  ∧ is_ok (handle_event ctx (result_of "op_2" (DeviceResult.Screenshot "" "image/png" 1 1)) t).2 = false.
Proof. vm_compute. by repeat split. Qed.

(** ** A challenge that is not sent *)

Definition guarded : Setup (Io := bool) := {|
  env := {| env_unix_time_ms := calm.(env_unix_time_ms); env_session_clock := calm.(env_session_clock);
            env_io := calm.(env_io); env_sign_grant := calm.(env_sign_grant);
            env_random := calm.(env_random); env_outbound_open := calm.(env_outbound_open);
            env_encodes m := match m with HubToAgent.RecoveryChallenge _ => false | _ => true end |};
  config := small; material := provisioned; device_id := dev;
  recovery_verifier := Some (RecoveryVerifierKind.DirectP256 (4%N :: replicate 64 0%N))
|}.

Definition second_session :=
  run_session (SU := guarded) (Ok (AgentToHub.Hello hello)) (Ok (AgentToHub.Proof proof)) []
    (unknown_text new_task).1.

(** When the challenge cannot be sent, the session ends without its clean-up: the Hub
    still takes the device for online. *)
Lemma lost_challenge_leaves_the_session_live :
  let (t, r) := second_session in
  r = Err (Raised HubServiceError.Carrier) ∧ t.(world).(hub).(live) = Some (2%N, 1%N).
Proof. vm_compute. by repeat split. Qed.

End HubExamples.
