(* ===== verification/MutationAuthority.v ===== *)
(** * The mutation authority of a desktop

    [src/src/mutation_authority.rs]: gateways of two generations may run side by side, but
    only the owner named in a file may act on the shared desktop, and only while it holds
    the lock beside it; the owner is switched under the same lock. The directory is modelled
    with what its files may be, the faults of each call are an argument, and the power
    may fail. JSON is the class [StatusJson]. *)

From S2P Require Import Prelude.

Module MutationAuthorityRole.
Inductive MutationAuthorityRole := V1 | V2.
#[global] Instance MutationAuthorityRole_eq_dec : EqDecision MutationAuthorityRole.
Proof. solve_decision. Defined.

Definition as_str (r : MutationAuthorityRole) : string := match r with V1 => "v1" | V2 => "v2" end.
End MutationAuthorityRole.
Abbreviation MutationAuthorityRole := MutationAuthorityRole.MutationAuthorityRole.

Module MutationAuthorityError.
Inductive MutationAuthorityError :=
| NotInitialized | AlreadyInitialized | Busy
| WrongOwner (expected actual : MutationAuthorityRole)
| UnsafePath | UnsafePermissions | InvalidState | InvalidRole | InvalidTransition
| TransitionGuardFailed | Io.

Definition safe_code (e : MutationAuthorityError) : string :=
  match e with
  | NotInitialized => "mutation_authority_not_initialized"
  | AlreadyInitialized => "mutation_authority_already_initialized"
  | Busy => "mutation_authority_busy"
  | WrongOwner _ _ => "mutation_authority_wrong_owner"
  | UnsafePath => "mutation_authority_unsafe_path"
  | UnsafePermissions => "mutation_authority_unsafe_permissions"
  | InvalidState => "mutation_authority_invalid_state"
  | InvalidRole => "mutation_authority_invalid_role"
  | InvalidTransition => "mutation_authority_invalid_transition"
  | TransitionGuardFailed => "mutation_authority_transition_guard_failed"
  | Io => "mutation_authority_io_failure"
  end.
End MutationAuthorityError.
Abbreviation MutationAuthorityError := MutationAuthorityError.MutationAuthorityError.

Module MutationAuthority.
Import MutationAuthorityError.

Definition AUTHORITY_SCHEMA_VERSION : N := 1.
Definition MAX_STATE_BYTES : N := 1024.

Definition from_str (s : string) : result MutationAuthorityError MutationAuthorityRole :=
  if bool_decide (s = "v1") then Ok MutationAuthorityRole.V1
  else if bool_decide (s = "v2") then Ok MutationAuthorityRole.V2
  else Err InvalidRole.

Record MutationAuthorityStatus := mk_status {
  schema_version : N;
  owner : MutationAuthorityRole;
  epoch : N
}.

Record MutationAuthorityPermit := mk_permit {
  permit_owner : MutationAuthorityRole;
  permit_epoch : N
}.

(** [serde_json]; white space at the end does not matter. *)
Class StatusJson := {
  status_to_vec : MutationAuthorityStatus → option (list N);
  status_from_slice : list N → option MutationAuthorityStatus
}.
Class StatusJsonLaws `{StatusJson} : Prop := {
  status_roundtrip s b : status_to_vec s = Some b → status_from_slice (b ++ [10%N]) = Some s
}.

(** What [symlink_metadata] finds at a path *)
Inductive Entry :=
| Missing
| Unreadable
| Symlink (target_exists : bool)
| Directory (mode : N)
| Regular (mode : N)
| Special.
#[global] Instance Entry_eq_dec : EqDecision Entry.
Proof. solve_decision. Defined.

(** [holder] has the lock on an open file, which ends with its process; [durable_owner] is what
    is left of the owner file after the power failed. *)
Record Place := mk_place {
  directory : Entry;
  lock_file : Entry;
  owner_file : Entry * list N;
  durable_owner : Entry * list N;
  holder : option MutationAuthorityPermit
}.

(** The outcome of a [try_lock] with regard to those who hold the lock during a call *)
Inductive LockOutcome := Locked | WouldBlock | LockFailed.

Record AuthorityIo := mk_io {
  directory_created : bool;
  lock_opens : bool;
  lock_outcome : LockOutcome;
  owner_opens : bool;
  owner_reads : bool;
  temp_opens : bool;
  temp_written : bool;
  renamed : bool;
  directory_synced : bool
}.

Definition exists_ (e : Entry) : bool :=
  match e with Missing | Unreadable => false | Symlink b => b | _ => true end.

Definition private (mode : N) : bool := (N.land mode 63 =? 0)%N.

Definition validate_private_directory (e : Entry) : result MutationAuthorityError unit :=
  match e with
  | Missing => Err NotInitialized
  | Unreadable => Err Io
  | Directory mode => if private mode then Ok tt else Err UnsafePermissions
  | _ => Err UnsafePath
  end.

Definition validate_private_regular_file (e : Entry) : result MutationAuthorityError unit :=
  match e with
  | Missing => Err NotInitialized
  | Unreadable => Err Io
  | Regular mode => if private mode then Ok tt else Err UnsafePermissions
  | _ => Err UnsafePath
  end.

Definition open_existing_private_file (e : Entry) (opens : bool) : result MutationAuthorityError unit :=
  let_ok _ := validate_private_regular_file e else e => Err e ;;
  if opens then Ok tt else Err Io.

Section Authority.
Context `{SJ : StatusJson}.

Definition read_status_locked (p : Place) (io : AuthorityIo)
    : result MutationAuthorityError MutationAuthorityStatus :=
  let_ok _ := open_existing_private_file p.(owner_file).1 io.(owner_opens) else e => Err e ;;
  return_if negb io.(owner_reads) with Err Io ;;
  let bytes := p.(owner_file).2 in
  return_if bool_decide (bytes = []) || (MAX_STATE_BYTES <? vlen bytes)%N with Err InvalidState ;;
  let_some s := status_from_slice bytes else Err InvalidState ;;
  return_if negb (s.(schema_version) =? AUTHORITY_SCHEMA_VERSION)%N || (s.(epoch) =? 0)%N
    with Err InvalidState ;;
  Ok s.

(** The new file replaces the old one at once, and for good when the directory is synced. *)
Definition write_status_atomic (p : Place) (io : AuthorityIo) (s : MutationAuthorityStatus)
    : Place * result MutationAuthorityError unit :=
  let valid := if exists_ p.(owner_file).1 then validate_private_regular_file p.(owner_file).1
               else Ok tt in
  let_ok _ := valid else e => (p, Err e) ;;
  return_if negb io.(temp_opens) with (p, Err Io) ;;
  let_some encoded := status_to_vec s else (p, Err InvalidState) ;;
  let encoded := encoded ++ [10%N] in
  return_if (MAX_STATE_BYTES <? vlen encoded)%N with (p, Err InvalidState) ;;
  return_if negb io.(temp_written) with (p, Err Io) ;;
  return_if negb io.(renamed) with (p, Err Io) ;;
  let file := (Regular 384, encoded) in
  if io.(directory_synced)
  then (mk_place p.(directory) p.(lock_file) file file p.(holder), Ok tt)
  else (mk_place p.(directory) p.(lock_file) file p.(durable_owner) p.(holder), Err Io).

(** [try_lock_exclusive] and [try_lock_shared]: the lock of a permit is exclusive. *)
Definition try_lock (p : Place) (io : AuthorityIo) : result MutationAuthorityError unit :=
  return_if opt_some p.(holder) with Err Busy ;;
  match io.(lock_outcome) with
  | Locked => Ok tt
  | WouldBlock => Err Busy
  | LockFailed => Err Io
  end.

Definition open_and_lock (p : Place) (io : AuthorityIo) : result MutationAuthorityError unit :=
  let_ok _ := validate_private_directory p.(directory) else e => Err e ;;
  let_ok _ := open_existing_private_file p.(lock_file) io.(lock_opens) else e => Err e ;;
  try_lock p io.

Definition with_holder (p : Place) (h : option MutationAuthorityPermit) : Place :=
  mk_place p.(directory) p.(lock_file) p.(owner_file) p.(durable_owner) h.

Definition try_acquire (p : Place) (io : AuthorityIo) (role : MutationAuthorityRole)
    : Place * result MutationAuthorityError MutationAuthorityPermit :=
  let_ok _ := open_and_lock p io else e => (p, Err e) ;;
  let_ok s := read_status_locked p io else e => (p, Err e) ;;
  return_if negb (bool_decide (s.(owner) = role)) with (p, Err (WrongOwner role s.(owner))) ;;
  let permit := mk_permit s.(owner) s.(epoch) in
  (with_holder p (Some permit), Ok permit).

Definition drop_permit (p : Place) : Place := with_holder p None.

Definition inspect_mutation_authority (p : Place) (io : AuthorityIo)
    : result MutationAuthorityError MutationAuthorityStatus :=
  let_ok _ := open_and_lock p io else e => Err e ;;
  read_status_locked p io.

Definition switch_mutation_authority_guarded (p : Place) (io : AuthorityIo)
    (expected_owner new_owner : MutationAuthorityRole) (guard : bool)
    : Place * result MutationAuthorityError MutationAuthorityStatus :=
  return_if bool_decide (expected_owner = new_owner) with (p, Err InvalidTransition) ;;
  let_ok _ := open_and_lock p io else e => (p, Err e) ;;
  let_ok current := read_status_locked p io else e => (p, Err e) ;;
  return_if negb (bool_decide (current.(owner) = expected_owner))
    with (p, Err (WrongOwner expected_owner current.(owner))) ;;
  return_if negb guard with (p, Err TransitionGuardFailed) ;;
  let_some next := checked_add current.(epoch) 1 else (p, Err InvalidState) ;;
  let s := mk_status AUTHORITY_SCHEMA_VERSION new_owner next in
  let '(p, written) := write_status_atomic p io s in
  let_ok _ := written else e => (p, Err e) ;;
  (p, Ok s).

Definition switch_mutation_authority (p : Place) (io : AuthorityIo)
    (expected_owner new_owner : MutationAuthorityRole) :=
  switch_mutation_authority_guarded p io expected_owner new_owner true.

Definition ensure_private_directory (p : Place) (io : AuthorityIo)
    : Place * result MutationAuthorityError unit :=
  if exists_ p.(directory) then (p, validate_private_directory p.(directory)) else
  return_if negb (io.(directory_created) && bool_decide (p.(directory) = Missing)) with (p, Err Io) ;;
  let p := mk_place (Directory 448) p.(lock_file) p.(owner_file) p.(durable_owner) p.(holder) in
  (p, validate_private_directory p.(directory)).

Definition open_or_create_private_lock (p : Place) (io : AuthorityIo)
    : Place * result MutationAuthorityError unit :=
  if exists_ p.(lock_file) then (p, open_existing_private_file p.(lock_file) io.(lock_opens)) else
  return_if negb (io.(lock_opens) && bool_decide (p.(lock_file) = Missing)) with (p, Err Io) ;;
  (mk_place p.(directory) (Regular 384) p.(owner_file) p.(durable_owner) p.(holder), Ok tt).

Definition initialize_mutation_authority (p : Place) (io : AuthorityIo) (owner : MutationAuthorityRole)
    : Place * result MutationAuthorityError MutationAuthorityStatus :=
  let '(p, r) := ensure_private_directory p io in
  let_ok _ := r else e => (p, Err e) ;;
  return_if exists_ p.(owner_file).1 with (p, Err AlreadyInitialized) ;;
  let '(p, r) := open_or_create_private_lock p io in
  let_ok _ := r else e => (p, Err e) ;;
  let_ok _ := try_lock p io else e => (p, Err e) ;;
  return_if exists_ p.(owner_file).1 with (p, Err AlreadyInitialized) ;;
  let s := mk_status AUTHORITY_SCHEMA_VERSION owner 1 in
  let '(p, written) := write_status_atomic p io s in
  let_ok _ := written else e => (p, Err e) ;;
  (p, Ok s).

(** ** Histories *)

(** A place with the permits that it granted, the last one first *)
Record History := mk_history { place : Place; granted : list MutationAuthorityPermit }.

Definition granted_by (r : result MutationAuthorityError MutationAuthorityPermit)
    : list MutationAuthorityPermit :=
  match r with Ok permit => [permit] | Err _ => [] end.

Inductive authority_call (h : History) : History → Prop :=
| call_acquire io role :
    authority_call h (mk_history (try_acquire h.(place) io role).1
      (granted_by (try_acquire h.(place) io role).2 ++ h.(granted)))
| call_drop : authority_call h (mk_history (drop_permit h.(place)) h.(granted))
| call_switch io expected new guard :
    authority_call h (mk_history
      (switch_mutation_authority_guarded h.(place) io expected new guard).1 h.(granted))
| call_initialize io role :
    authority_call h (mk_history (initialize_mutation_authority h.(place) io role).1 h.(granted)).

(** After a power failure nobody holds the lock, and the owner file is what was durable or
    what was visible. *)
Inductive authority_step (h : History) : History → Prop :=
| step_call h' : authority_call h h' → authority_step h h'
| step_power_failure (file : Entry * list N) :
    file = h.(place).(owner_file) ∨ file = h.(place).(durable_owner) →
    authority_step h (mk_history (mk_place h.(place).(directory) h.(place).(lock_file) file file None)
      h.(granted)).

Definition nowhere : Place := mk_place Missing Missing (Missing, []) (Missing, []) None.
End Authority.
End MutationAuthority.
