(* ===== verification/MutationAuthorityTheorems.v ===== *)
(** * One family of gateways acts on a desktop at a time

    Theorems about [src/src/mutation_authority.rs]. *)

From S2P Require Import Prelude MutationAuthority.
Import MutationAuthority MutationAuthorityError.

Section Theorems.
Context `{SJ : StatusJson} `{SJL : !StatusJsonLaws}.
Implicit Types (p : Place) (io : AuthorityIo) (h : History).

Lemma locked_free p io : open_and_lock p io = Ok tt → p.(holder) = None.
Proof. unfold open_and_lock, try_lock. intros H. run H. by destruct (holder p). Qed.

Lemma read_any p io io' s :
  read_status_locked p io = Ok s → io'.(owner_opens) = true → io'.(owner_reads) = true →
  read_status_locked p io' = Ok s.
Proof.
  unfold read_status_locked, open_existing_private_file. intros H Ho Hr. run H. rewrite Ho, Hr. cbn.
  by repeat case_bool_decide || case_match || done.
Qed.

Lemma read_schema p io s : read_status_locked p io = Ok s → s.(schema_version) = AUTHORITY_SCHEMA_VERSION.
Proof. unfold read_status_locked. intros H. run H. split_bools. by subst. Qed.

(** The file says that the permit is the owner's. *)
Definition names p (permit : MutationAuthorityPermit) : Prop := ∀ io,
  io.(owner_opens) = true → io.(owner_reads) = true →
  read_status_locked p io
  = Ok (mk_status AUTHORITY_SCHEMA_VERSION permit.(permit_owner) permit.(permit_epoch)).

Lemma read_same p p' io : p'.(owner_file) = p.(owner_file) → read_status_locked p' io = read_status_locked p io.
Proof. unfold read_status_locked. by intros ->. Qed.

Lemma names_same p p' permit : p'.(owner_file) = p.(owner_file) → names p permit → names p' permit.
Proof. intros Hf Hn io Ho Hr. rewrite (read_same _ _ _ Hf). by apply Hn. Qed.

Lemma names_exists p permit : names p permit → exists_ p.(owner_file).1 = true.
Proof.
  intros Hn. specialize (Hn (mk_io true true Locked true true true true true true) eq_refl eq_refl).
  unfold read_status_locked, open_existing_private_file, validate_private_regular_file in Hn.
  by destruct (p.(owner_file).1).
Qed.

(** ** What the calls do *)

Lemma acquire_spec p io role p' r :
  try_acquire p io role = (p', r) →
  p'.(owner_file) = p.(owner_file) ∧
  match r with
  | Ok permit => p.(holder) = None ∧ p'.(holder) = Some permit ∧ permit.(permit_owner) = role
                 ∧ names p' permit
                 ∧ read_status_locked p io
                   = Ok (mk_status AUTHORITY_SCHEMA_VERSION permit.(permit_owner) permit.(permit_epoch))
  | Err _ => p' = p
  end.
Proof.
  unfold try_acquire. destruct (open_and_lock p io) as [[]|e] eqn:Hl; [|by intros [= <- <-]].
  destruct (read_status_locked p io) as [s|e] eqn:Hr; [|by intros [= <- <-]].
  destruct (bool_decide (owner s = role)) eqn:Ho; [|by intros [= <- <-]]. intros [= <- <-].
  apply bool_decide_eq_true in Ho. pose proof (read_schema _ _ _ Hr) as Hs.
  assert (s = mk_status AUTHORITY_SCHEMA_VERSION (owner s) (epoch s)) as Heq by (destruct s; cbn in *; congruence).
  split; [done|]. split_and!; [by eapply locked_free|done|done| |cbn; congruence].
  intros io' Hopen Hread. rewrite (read_same p) by done. cbn. rewrite <- Heq. by eapply read_any.
Qed.

(** The file is as before, or the new status. *)
Definition stores p (s : MutationAuthorityStatus) : Prop :=
  ∃ b, status_to_vec s = Some b ∧ p.(owner_file) = (Regular 384, b ++ [10%N]).

Lemma stores_read p s io s' : stores p s → read_status_locked p io = Ok s' → s' = s.
Proof.
  intros (b & Hb & Hf). unfold read_status_locked. rewrite Hf. intros H. run H.
  rewrite (status_roundtrip _ _ Hb) in E2. congruence.
Qed.

Lemma write_spec p io s p' r :
  write_status_atomic p io s = (p', r) →
  p'.(holder) = p.(holder) ∧ (p'.(owner_file) = p.(owner_file) ∧ is_ok r = false ∨ stores p' s).
Proof.
  unfold write_status_atomic.
  destruct (if exists_ _ then _ else _) as [[]|e]; [|intros [= <- <-]; split; [done|by left]].
  destruct (temp_opens io); [|intros [= <- <-]; split; [done|by left]]. cbn.
  destruct (status_to_vec s) as [b|] eqn:Hb; [|intros [= <- <-]; split; [done|by left]].
  destruct (_ <? _)%N; [intros [= <- <-]; split; [done|by left]|].
  destruct (temp_written io); [|intros [= <- <-]; split; [done|by left]]. cbn.
  destruct (renamed io); [|intros [= <- <-]; split; [done|by left]]. cbn.
  destruct (directory_synced io); intros [= <- <-]; (split; [done|]); right; by exists b.
Qed.

Lemma switch_spec p io e n guard p' r :
  switch_mutation_authority_guarded p io e n guard = (p', r) →
  p'.(holder) = p.(holder) ∧
  (p'.(owner_file) = p.(owner_file) ∨
   p.(holder) = None ∧ ∃ s, read_status_locked p io = Ok s ∧ s.(owner) = e ∧ e ≠ n
     ∧ stores p' (mk_status AUTHORITY_SCHEMA_VERSION n (s.(epoch) + 1))).
Proof.
  unfold switch_mutation_authority_guarded.
  case_bool_decide as Hne; [intros [= <- <-]; split; [done|by left]|].
  destruct (open_and_lock p io) as [[]|err] eqn:Hl; [|intros [= <- <-]; split; [done|by left]].
  destruct (read_status_locked p io) as [s|err] eqn:Hr; [|intros [= <- <-]; split; [done|by left]].
  case_bool_decide as Ho; cbn; [|intros [= <- <-]; split; [done|by left]].
  destruct guard; cbn; [|intros [= <- <-]; split; [done|by left]].
  unfold checked_add. destruct (_ <=? _)%N; [|intros [= <- <-]; split; [done|by left]].
  destruct (write_status_atomic _ _ _) as [p1 w] eqn:Hw.
  apply write_spec in Hw as [Hh Hw].
  intros Heq. assert (p' = p1) as -> by (by destruct w; injection Heq). split; [done|].
  destruct Hw as [[Hw _]|Hw]; [by left|]. right. split; [by eapply locked_free|]. by exists s.
Qed.

Lemma directory_spec p io p' r :
  ensure_private_directory p io = (p', r) →
  p'.(holder) = p.(holder) ∧ p'.(owner_file) = p.(owner_file).
Proof.
  unfold ensure_private_directory. destruct (exists_ _); [by intros [= <- _]|].
  destruct (directory_created io && _); by intros [= <- _].
Qed.

Lemma lock_spec p io p' r :
  open_or_create_private_lock p io = (p', r) →
  p'.(holder) = p.(holder) ∧ p'.(owner_file) = p.(owner_file).
Proof.
  unfold open_or_create_private_lock. destruct (exists_ _); [by intros [= <- _]|].
  destruct (lock_opens io && _); by intros [= <- _].
Qed.

Lemma initialize_spec p io role p' r :
  initialize_mutation_authority p io role = (p', r) →
  p'.(holder) = p.(holder) ∧
  (p'.(owner_file) = p.(owner_file) ∨
   p.(holder) = None ∧ exists_ p.(owner_file).1 = false
     ∧ stores p' (mk_status AUTHORITY_SCHEMA_VERSION role 1)).
Proof.
  unfold initialize_mutation_authority.
  destruct (ensure_private_directory p io) as [p1 r1] eqn:Hd. apply directory_spec in Hd as [Hh1 Ho1].
  destruct r1; [|intros [= <- _]; rewrite Ho1; split; [done|by left]]. rewrite Ho1.
  destruct (exists_ p.(owner_file).1) eqn:He; [intros [= <- _]; rewrite Ho1; split; [done|by left]|].
  destruct (open_or_create_private_lock p1 io) as [p2 r2] eqn:Hd. apply lock_spec in Hd as [Hh2 Ho2].
  rewrite Hh1 in Hh2. rewrite Ho1 in Ho2.
  destruct r2; [|intros [= <- _]; split; [done|by left]].
  destruct (try_lock p2 io) as [[]|e] eqn:Hl; [|intros [= <- _]; split; [done|by left]].
  rewrite Ho2, He. destruct (write_status_atomic p2 io _) as [p3 w] eqn:Hw.
  apply write_spec in Hw as [Hh3 Hw]. rewrite Hh2 in Hh3. rewrite Ho2 in Hw.
  intros Heq. assert (p' = p3) as -> by (by destruct w; injection Heq). split; [done|].
  destruct Hw as [[Hw _]|Hw]; [by left|]. right. split_and!; [|done..].
  unfold try_lock in Hl. rewrite Hh2 in Hl. by destruct (holder p).
Qed.

(** ** Histories *)

Lemma call_holder h h' :
  (∀ permit, h.(place).(holder) = Some permit → names h.(place) permit) → authority_call h h' →
  ∀ permit, h'.(place).(holder) = Some permit → names h'.(place) permit.
Proof.
  intros Hinv [io role| |io e n guard|io role] permit; cbn.
  - destruct (try_acquire _ _ _) as [p' r] eqn:H. apply acquire_spec in H as [Hf H]. cbn.
    destruct r; [|by rewrite H; apply Hinv]. destruct H as (_ & -> & _ & Hn & _). by intros [= <-].
  - done.
  - destruct (switch_mutation_authority_guarded _ _ _ _ _) as [p' r] eqn:H.
    apply switch_spec in H as [Hh H]. cbn. rewrite Hh. intros Hp.
    destruct H as [Hf|[Hfree _]]; [|congruence]. eapply names_same; [done|by apply Hinv].
  - destruct (initialize_mutation_authority _ _ _) as [p' r] eqn:H.
    apply initialize_spec in H as [Hh H]. cbn. rewrite Hh. intros Hp.
    destruct H as [Hf|[Hfree _]]; [|congruence]. eapply names_same; [done|by apply Hinv].
Qed.

Lemma holder_named h : rtc authority_step (mk_history nowhere []) h →
  ∀ permit, h.(place).(holder) = Some permit → names h.(place) permit.
Proof.
  revert h. refine (rtc_ind_r _ _ _ _); [done|]. intros h h' _ Hs IH. destruct Hs as [h' Hc|file _]; [by eapply call_holder|done].
Qed.

Lemma busy p io : opt_some p.(holder) = true → is_ok (open_and_lock p io) = false.
Proof.
  intros Hh. unfold open_and_lock, try_lock. destruct (validate_private_directory _); [|done].
  destruct (open_existing_private_file _ _); [|done]. by rewrite Hh.
Qed.

(** C18: As long as a permit is held, whatever was done before and however often the power failed,
    the owner file names its holder, nobody else gets a permit, and neither the owner nor anything
    else at the place can be changed by a switch. *)
Theorem mutation_permit_is_exclusive h permit :
  rtc authority_step (mk_history nowhere []) h → h.(place).(holder) = Some permit →
  names h.(place) permit
  ∧ (∀ io role, ∃ e, try_acquire h.(place) io role = (h.(place), Err e))
  ∧ (∀ io expected new guard, ∃ e,
       switch_mutation_authority_guarded h.(place) io expected new guard = (h.(place), Err e))
  ∧ (∀ io role, (initialize_mutation_authority h.(place) io role).1.(owner_file) = h.(place).(owner_file)).
Proof.
  intros Hh Hp. split; [by apply holder_named|].
  assert (∀ io, is_ok (open_and_lock h.(place) io) = false) as Hb by (intros io; apply busy; by rewrite Hp).
  split_and!.
  - intros io role. unfold try_acquire. specialize (Hb io). destruct (open_and_lock _ _); [done|]. eauto.
  - intros io e n guard. unfold switch_mutation_authority_guarded. specialize (Hb io).
    case_bool_decide; [eauto|]. destruct (open_and_lock _ _); [done|]. eauto.
  - intros io role. destruct (initialize_mutation_authority _ _ _) as [p' r] eqn:H.
    apply initialize_spec in H as [_ [H|[H _]]]; [done|congruence].
Qed.

(** The second permit was granted before the first one. *)
Definition supersedes (new old : MutationAuthorityPermit) : Prop :=
  (old.(permit_epoch) < new.(permit_epoch))%N ∨ old = new.

Definition ordered h : Prop :=
  StronglySorted supersedes h.(granted)
  ∧ (∀ io s, read_status_locked h.(place) io = Ok s →
       Forall (supersedes (mk_permit s.(owner) s.(epoch))) h.(granted))
  ∧ (h.(granted) ≠ [] → exists_ h.(place).(owner_file).1 = true).

Lemma ordered_same h p : p.(owner_file) = h.(place).(owner_file) → ordered h → ordered (mk_history p h.(granted)).
Proof.
  intros Hf (Hs & Hr & He). split_and!; cbn; [done| |by rewrite Hf].
  intros io s. rewrite (read_same _ _ _ Hf). apply Hr.
Qed.

Lemma ordered_stores h p s :
  stores p s → Forall (supersedes (mk_permit s.(owner) s.(epoch))) h.(granted) →
  ordered h → ordered (mk_history p h.(granted)).
Proof.
  intros Hst Hall (Hs & _ & _). split_and!; cbn; [done| |].
  - intros io s' Hr. by rewrite (stores_read _ _ _ _ Hst Hr).
  - intros _. by destruct Hst as (b & _ & ->).
Qed.

Lemma acquire_ordered h io role : ordered h →
  ordered (mk_history (try_acquire h.(place) io role).1
    (granted_by (try_acquire h.(place) io role).2 ++ h.(granted))).
Proof.
  destruct (try_acquire _ _ _) as [p' r] eqn:H. apply acquire_spec in H as [Hf H]. cbn.
  destruct r as [permit|e]; [|intros Ho; by apply ordered_same].
  destruct H as (_ & _ & _ & Hn & Hr). intros (Hs & Hrd & He). specialize (Hrd _ _ Hr). cbn in Hrd.
  destruct permit as [o ep]. cbn in *. split_and!; cbn.
  - by constructor.
  - intros io' s Hr'. assert (s = mk_status AUTHORITY_SCHEMA_VERSION o ep) as ->.
    { pose proof (read_any _ _ (mk_io true true Locked true true true true true true) _ Hr' eq_refl eq_refl) as H.
      rewrite Hn in H by done. by simplify_eq/=. }
    constructor; [by right|done].
  - intros _. by eapply names_exists.
Qed.

Lemma call_ordered h h' : authority_call h h' → ordered h → ordered h'.
Proof.
  intros [io role| |io e n guard|io role] Ho.
  - by apply acquire_ordered.
  - by apply ordered_same.
  - destruct (switch_mutation_authority_guarded _ _ _ _ _) as [p' r] eqn:H.
    apply switch_spec in H as [_ [Hf|(_ & s & Hr & _ & _ & Hst)]]; [by apply ordered_same|].
    eapply ordered_stores; [done| |done]. destruct Ho as (_ & Hrd & _).
    eapply Forall_impl; [by eapply Hrd|]. intros permit [Hlt| ->]; left; cbn in *; lia.
  - destruct (initialize_mutation_authority _ _ _) as [p' r] eqn:H.
    apply initialize_spec in H as [_ [Hf|(_ & Hne & Hst)]]; [by apply ordered_same|].
    eapply ordered_stores; [done| |done]. destruct Ho as (_ & _ & He).
    destruct (granted h); [constructor|]. by rewrite He in Hne.
Qed.

(** While the power lasts, the epochs of the permits never go back, and two permits of the same
    epoch are of the same owner: every change of the owner begins an epoch of its own. *)
Theorem mutation_permits_are_ordered h :
  rtc authority_call (mk_history nowhere []) h → StronglySorted supersedes h.(granted).
Proof.
  intros H. enough (ordered h) as [Hs _]; [done|].
  revert h H. refine (rtc_ind_r _ _ _ _); [|intros h h' _ Hs IH; by eapply call_ordered].
  split_and!; cbn; [constructor| |done]. intros io s _. constructor.
Qed.
End Theorems.

(** ** A desktop that moves from the first family to the second *)

Module MutationAuthorityExamples.
#[local] Instance two_bytes : StatusJson := {|
  status_to_vec s :=
    Some [s.(schema_version); match s.(owner) with MutationAuthorityRole.V1 => 1 | MutationAuthorityRole.V2 => 2 end; s.(epoch)]%N;
  status_from_slice b :=
    match b with
    | [v; 1; e; 10]%N => Some (mk_status v MutationAuthorityRole.V1 e)
    | [v; 2; e; 10]%N => Some (mk_status v MutationAuthorityRole.V2 e)
    | _ => None
    end
|}.

#[local] Instance two_bytes_laws : StatusJsonLaws.
Proof. constructor. by intros [v [] e] b [= <-]. Qed.

Definition fine : AuthorityIo := mk_io true true Locked true true true true true true.

Definition initialized : History :=
  mk_history (initialize_mutation_authority nowhere fine MutationAuthorityRole.V1).1 [].
Definition acquired : History :=
  let r := try_acquire initialized.(place) fine MutationAuthorityRole.V1 in
  mk_history r.1 (granted_by r.2 ++ []).
Definition released : History := mk_history (drop_permit acquired.(place)) acquired.(granted).
Definition switched : History :=
  mk_history (switch_mutation_authority_guarded released.(place) fine
    MutationAuthorityRole.V1 MutationAuthorityRole.V2 true).1 released.(granted).
Definition moved : History :=
  let r := try_acquire switched.(place) fine MutationAuthorityRole.V2 in
  mk_history r.1 (granted_by r.2 ++ switched.(granted)).

Lemma moved_run : rtc authority_call (mk_history nowhere []) moved.
Proof.
  eapply rtc_l; [apply (call_initialize _ fine MutationAuthorityRole.V1)|].
  eapply rtc_l; [apply (call_acquire _ fine MutationAuthorityRole.V1)|].
  eapply rtc_l; [apply call_drop|].
  eapply rtc_l; [apply (call_switch _ fine MutationAuthorityRole.V1 MutationAuthorityRole.V2 true)|].
  eapply rtc_l; [apply (call_acquire _ fine MutationAuthorityRole.V2)|]. apply rtc_refl.
Qed.

Lemma mutation_permit_is_exclusive_witness :
  moved.(place).(holder) = Some (mk_permit MutationAuthorityRole.V2 2)
  ∧ ∃ e, try_acquire moved.(place) fine MutationAuthorityRole.V2 = (moved.(place), Err e).
Proof.
  split; [reflexivity|].
  assert (rtc authority_step (mk_history nowhere []) moved) as Hrun.
  { eapply rtc_subrel; [|exact moved_run]. intros h h' H. by apply step_call. }
  pose proof (mutation_permit_is_exclusive moved (mk_permit MutationAuthorityRole.V2 2) Hrun eq_refl) as H.
  destruct H as (_ & H & _). apply H.
Defined.

Lemma mutation_permits_are_ordered_witness :
  moved.(granted) = [mk_permit MutationAuthorityRole.V2 2; mk_permit MutationAuthorityRole.V1 1]
  ∧ StronglySorted supersedes moved.(granted).
Proof. split; [reflexivity|]. exact (mutation_permits_are_ordered moved moved_run). Defined.
End MutationAuthorityExamples.
