(* ===== verification/AgentErrors.v ===== *)
(** * What an Agent's workers report

    The errors of the Agent's executors ([src/src/v2_m1_process.rs],
    [v2_m1_shell.rs], [v2_m1_filesystem.rs], [v2_m1_workspace_mutation.rs],
    [v2_managed_job.rs], [v2_playwright_sandbox.rs], [v2_browser_staging.rs],
    [v2_browser_execute.rs], [v2_m1_backend.rs]) and how
    [src/src/v2_m1_agent.rs] turns them into outcomes and error codes. Payloads of
    errors that no decision reads are left out; of an [io::Error] only its kind
    matters. *)

From S2P Require Import Prelude Vocabulary Protocol Tombstone SafetyTypes Evidence.
From S2P Require Import EphemeralRefs.

(** ** Errors of the executors *)

(** [std::io::Error], by whether its kind is [NotFound]. *)
Inductive IoError := IoNotFound | IoOther.

Module ProcessUnprovenStage.
Inductive ProcessUnprovenStage := PipeSetup | ReaderSetup | Poll | Termination | Wait | Worker.
#[global] Instance ProcessUnprovenStage_eq_dec : EqDecision ProcessUnprovenStage.
Proof. solve_decision. Defined.
End ProcessUnprovenStage.
Abbreviation ProcessUnprovenStage := ProcessUnprovenStage.ProcessUnprovenStage.

Module ProcessError.
Inductive ProcessError :=
| NoAllowedWorkingDirectories | InvalidPolicyLimit | InvalidRequest | InvalidProgram
| ShellProgramDenied | ShellUnsupportedPlatform | TooManyArguments | TooManyEnvironmentEntries
| InvalidTimeout | WorkingDirectoryNotDirectory | WorkingDirectoryDenied | InvalidEnvironment
| EnvironmentKeyDenied (key : string)
| Spawn (e : IoError)
| PipeUnavailable | ReaderPanicked
| Io (e : IoError)
| LinuxCgroupUnavailable
| OutcomeUnproven (stage : ProcessUnprovenStage)
| Execution (e : ExecutionError).

Definition outcome_unproven_stage (e : ProcessError) : option ProcessUnprovenStage :=
  match e with OutcomeUnproven stage => Some stage | _ => None end.
End ProcessError.
Abbreviation ProcessError := ProcessError.ProcessError.

Module ShellError.
Inductive ShellError := InvalidCommand | CommandTooLarge | Process (e : ProcessError).

Definition outcome_unproven_stage (e : ShellError) : option ProcessUnprovenStage :=
  match e with Process e => ProcessError.outcome_unproven_stage e | _ => None end.
End ShellError.
Abbreviation ShellError := ShellError.ShellError.

Module FilesystemError.
Inductive FilesystemError :=
| NoAllowedRoots | RootNotDirectory | InvalidLimit | InvalidPath | PathDenied | NotFile
| NotDirectory | NonUtf8Name | RangeTooLarge | RangeOverflow | DirectoryScanLimitExceeded
| DirectoryEntryTooLarge
| Io (e : IoError).
End FilesystemError.
Abbreviation FilesystemError := FilesystemError.FilesystemError.

Module WorkspaceMutationError.
Inductive WorkspaceMutationError :=
| NoAllowedRoots | RootNotDirectory | DeniedPathOutsideRoot | InvalidLimit | InvalidPath
| PathTooLarge | PathDenied | InvalidPrecondition | InvalidPayload | PreconditionFailed
| PayloadTooLarge | ExistingFileTooLarge | HardLinkDenied | TempNameExhausted
| Io (e : IoError)
| OutcomeUnproven (e : IoError).

Definition outcome_unproven (e : WorkspaceMutationError) : bool :=
  match e with OutcomeUnproven _ => true | _ => false end.
End WorkspaceMutationError.
Abbreviation WorkspaceMutationError := WorkspaceMutationError.WorkspaceMutationError.

Module ManagedJobError.
Inductive ManagedJobError :=
| InvalidLimits | InvalidLifetime | InvalidLease | InvalidRead | CapacityExceeded | UnknownJob
| TerminalJob | LockPoisoned
| ThreadSpawn (e : IoError)
| Process (e : ProcessError).

Definition outcome_unproven_stage (e : ManagedJobError) : option ProcessUnprovenStage :=
  match e with Process e => ProcessError.outcome_unproven_stage e | _ => None end.
End ManagedJobError.
Abbreviation ManagedJobError := ManagedJobError.ManagedJobError.

Module PlaywrightSandboxError.
Inductive PlaywrightSandboxError :=
| InvalidConfig | RuntimeUnavailable | InvalidImage | InvalidWorkspace | InvalidRequest
| InvalidTestPath | InvalidProject | InvalidGrep | InvalidWorkers | UnknownJob
| IdentifierCollision | MonitorUnavailable | ProviderOutcomeUnproven | ArtifactIo | LockPoisoned
| Process (e : ProcessError)
| ManagedJob (e : ManagedJobError).

Definition outcome_unproven_stage (e : PlaywrightSandboxError) : option ProcessUnprovenStage :=
  match e with
  | ManagedJob e => ManagedJobError.outcome_unproven_stage e
  | Process e => ProcessError.outcome_unproven_stage e
  | _ => None
  end.
End PlaywrightSandboxError.
Abbreviation PlaywrightSandboxError := PlaywrightSandboxError.PlaywrightSandboxError.

Module BrowserUploadStagingError.
Inductive BrowserUploadStagingError :=
| InvalidRoot | InvalidFileName | InvalidData | FileTooLarge | FileLimitExceeded | UnknownHandle
| ContextMismatch | GenerationMismatch | CapabilityRevisionMismatch | InvalidStagedFile | Io.
End BrowserUploadStagingError.
Abbreviation BrowserUploadStagingError := BrowserUploadStagingError.BrowserUploadStagingError.

Module BrowserDownloadStagingError.
Inductive BrowserDownloadStagingError :=
| InvalidRoot | InvalidFileName | InvalidBound | FileLimitExceeded | Collision | UnknownOperation
| ContextMismatch | GenerationMismatch | CapabilityRevisionMismatch | InvalidBackendId
| InvalidCompletedFile | FileTooLarge | Io.
End BrowserDownloadStagingError.
Abbreviation BrowserDownloadStagingError := BrowserDownloadStagingError.BrowserDownloadStagingError.

Module BrowserRefusalReason.
Inductive BrowserRefusalReason :=
| RouteUnavailable | RequiresSetup | BindingAmbiguous | BindingStale | WrongTarget | TabRequired
| TabNotFound | RefStale | InputTrustUnavailable | EndpointOwnerMismatch | ConsentRequired
| ConsentRevoked | ReconnectExhausted | InputIncomplete | ActionUnavailable | OriginOutsideScope
| Other.
End BrowserRefusalReason.
Abbreviation BrowserRefusalReason := BrowserRefusalReason.BrowserRefusalReason.

Module M1BackendError.
Inductive M1BackendError :=
| Backend | MutationAuthority | BackendToolError
| MalformedResponse (what : string)
| NumericOverflow | ScreenshotTooLarge | ExecutionBudgetExceeded
| InvalidRequest (what : string)
| UnsupportedCommand (c : DeviceCapability)
| BrowserRefused (reason : BrowserRefusalReason).
End M1BackendError.
Abbreviation M1BackendError := M1BackendError.M1BackendError.

Module AgentOperationError.
Inductive AgentOperationError :=
| Process (e : ProcessError)
| ManagedJob (e : ManagedJobError)
| PlaywrightSandbox (e : PlaywrightSandboxError)
| Shell (e : ShellError)
| Filesystem (e : FilesystemError)
| WorkspaceMutation (e : WorkspaceMutationError)
| BrowserUploadStaging (e : BrowserUploadStagingError)
| BrowserDownloadStaging (e : BrowserDownloadStagingError)
| Backend (e : M1BackendError)
| WorkerPanicked.
End AgentOperationError.
Abbreviation AgentOperationError := AgentOperationError.AgentOperationError.

(** ** Outcomes of operations *)

Module AgentIndeterminateCause.
Inductive AgentIndeterminateCause :=
| CancellationPropagated
| BackendTimedOut
| ProcessOutcomeUnproven (stage : ProcessUnprovenStage)
| PlaywrightProviderOutcomeUnproven
| WorkspaceMutationOutcomeUnproven.
End AgentIndeterminateCause.
Abbreviation AgentIndeterminateCause := AgentIndeterminateCause.AgentIndeterminateCause.

Module AgentOperationOutcome.
Inductive AgentOperationOutcome :=
| Result (r : result AgentOperationError DeviceResult)
| BackendReceipt (receipt : BackendExecutionReceipt)
| Indeterminate (cause : AgentIndeterminateCause).
End AgentOperationOutcome.
Abbreviation AgentOperationOutcome := AgentOperationOutcome.AgentOperationOutcome.

Module AgentErrors.
Import AgentOperationOutcome AgentIndeterminateCause.

(** What [spawn_blocking(..).await] gives: [None] is a [JoinError]. *)
Definition joined (A : Type) : Type := option A.

(** An error with an unproven stage, or the ordinary error. *)
Definition unless_unproven (stage : option ProcessUnprovenStage) (e : AgentOperationError)
    : AgentOperationOutcome :=
  match stage with
  | Some stage => Indeterminate (ProcessOutcomeUnproven stage)
  | None => Result (Err e)
  end.

Definition process_operation_outcome (r : joined (result ProcessError DeviceResult))
    : AgentOperationOutcome :=
  match r with
  | Some (Ok r) => Result (Ok r)
  | Some (Err e) =>
      unless_unproven (ProcessError.outcome_unproven_stage e) (AgentOperationError.Process e)
  | None => Indeterminate (ProcessOutcomeUnproven ProcessUnprovenStage.Worker)
  end.

Definition managed_job_operation_outcome (r : joined (result ManagedJobError DeviceResult))
    : AgentOperationOutcome :=
  match r with
  | Some (Ok r) => Result (Ok r)
  | Some (Err e) =>
      unless_unproven (ManagedJobError.outcome_unproven_stage e) (AgentOperationError.ManagedJob e)
  | None => Indeterminate (ProcessOutcomeUnproven ProcessUnprovenStage.Worker)
  end.

Definition playwright_operation_outcome (r : joined (result PlaywrightSandboxError DeviceResult))
    : AgentOperationOutcome :=
  match r with
  | Some (Ok r) => Result (Ok r)
  | Some (Err PlaywrightSandboxError.ProviderOutcomeUnproven) =>
      Indeterminate PlaywrightProviderOutcomeUnproven
  | Some (Err e) =>
      unless_unproven (PlaywrightSandboxError.outcome_unproven_stage e)
        (AgentOperationError.PlaywrightSandbox e)
  | None => Indeterminate (ProcessOutcomeUnproven ProcessUnprovenStage.Worker)
  end.

Definition shell_operation_outcome (r : joined (result ShellError DeviceResult))
    : AgentOperationOutcome :=
  match r with
  | Some (Ok r) => Result (Ok r)
  | Some (Err e) =>
      unless_unproven (ShellError.outcome_unproven_stage e) (AgentOperationError.Shell e)
  | None => Indeterminate (ProcessOutcomeUnproven ProcessUnprovenStage.Worker)
  end.

Definition workspace_mutation_operation_outcome
    (r : joined (result WorkspaceMutationError DeviceResult)) : AgentOperationOutcome :=
  match r with
  | Some (Ok r) => Result (Ok r)
  | Some (Err e) =>
      if WorkspaceMutationError.outcome_unproven e
      then Indeterminate WorkspaceMutationOutcomeUnproven
      else Result (Err (AgentOperationError.WorkspaceMutation e))
  | None => Indeterminate WorkspaceMutationOutcomeUnproven
  end.

(** ** Error codes on the wire *)

Definition ephemeral_data_error_code (e : AgentEphemeralDataError) : DeviceErrorCode :=
  match e with
  | AgentEphemeralDataError.UnknownLocator | AgentEphemeralDataError.Expired =>
      DeviceErrorCode.NotFound
  | AgentEphemeralDataError.DeviceMismatch | AgentEphemeralDataError.GenerationMismatch
  | AgentEphemeralDataError.CapabilityRevisionMismatch | AgentEphemeralDataError.KindMismatch
  | AgentEphemeralDataError.OperationMismatch => DeviceErrorCode.PermissionDenied
  | AgentEphemeralDataError.Io => DeviceErrorCode.IoFailure
  | _ => DeviceErrorCode.InvalidRequest
  end.

Definition managed_job_error_code (e : ManagedJobError) : DeviceErrorCode :=
  match e with
  | ManagedJobError.UnknownJob => DeviceErrorCode.NotFound
  | ManagedJobError.CapacityExceeded => DeviceErrorCode.ExecutionBudgetExceeded
  | ManagedJobError.InvalidLifetime | ManagedJobError.InvalidLease | ManagedJobError.InvalidRead
  | ManagedJobError.InvalidLimits | ManagedJobError.TerminalJob => DeviceErrorCode.InvalidRequest
  | ManagedJobError.LockPoisoned | ManagedJobError.ThreadSpawn _ => DeviceErrorCode.InternalFailure
  | ManagedJobError.Process e =>
      match e with
      | ProcessError.WorkingDirectoryDenied => DeviceErrorCode.WorkingDirectoryDenied
      | ProcessError.WorkingDirectoryNotDirectory => DeviceErrorCode.WorkingDirectoryInvalid
      | ProcessError.InvalidTimeout => DeviceErrorCode.InvalidTimeout
      | ProcessError.InvalidProgram => DeviceErrorCode.InvalidProgram
      | ProcessError.ShellProgramDenied => DeviceErrorCode.ProgramDenied
      | ProcessError.TooManyArguments => DeviceErrorCode.TooManyArguments
      | ProcessError.EnvironmentKeyDenied _ => DeviceErrorCode.EnvironmentKeyDenied
      | ProcessError.InvalidEnvironment => DeviceErrorCode.InvalidEnvironment
      | ProcessError.TooManyEnvironmentEntries => DeviceErrorCode.TooManyEnvironmentEntries
      | ProcessError.Spawn _ => DeviceErrorCode.ProcessSpawnFailed
      | ProcessError.OutcomeUnproven _ => DeviceErrorCode.BackendOutcomeIndeterminate
      | ProcessError.InvalidRequest => DeviceErrorCode.InvalidRequest
      | _ => DeviceErrorCode.InternalFailure
      end
  end.

Definition playwright_error_code (e : PlaywrightSandboxError) : DeviceErrorCode :=
  match e with
  | PlaywrightSandboxError.UnknownJob => DeviceErrorCode.NotFound
  | PlaywrightSandboxError.InvalidWorkspace => DeviceErrorCode.WorkingDirectoryDenied
  | PlaywrightSandboxError.InvalidRequest | PlaywrightSandboxError.InvalidTestPath
  | PlaywrightSandboxError.InvalidProject | PlaywrightSandboxError.InvalidGrep
  | PlaywrightSandboxError.InvalidWorkers | PlaywrightSandboxError.InvalidConfig
  | PlaywrightSandboxError.InvalidImage => DeviceErrorCode.InvalidRequest
  | PlaywrightSandboxError.RuntimeUnavailable | PlaywrightSandboxError.ArtifactIo =>
      DeviceErrorCode.IoFailure
  | PlaywrightSandboxError.IdentifierCollision | PlaywrightSandboxError.MonitorUnavailable
  | PlaywrightSandboxError.LockPoisoned => DeviceErrorCode.InternalFailure
  | PlaywrightSandboxError.ProviderOutcomeUnproven => DeviceErrorCode.BackendOutcomeIndeterminate
  | PlaywrightSandboxError.Process e =>
      match e with
      | ProcessError.OutcomeUnproven _ => DeviceErrorCode.BackendOutcomeIndeterminate
      | ProcessError.Spawn _ => DeviceErrorCode.ProcessSpawnFailed
      | ProcessError.Io _ => DeviceErrorCode.IoFailure
      | _ => DeviceErrorCode.InvalidRequest
      end
  | PlaywrightSandboxError.ManagedJob e => managed_job_error_code e
  end.

Definition browser_refusal_error_code (r : BrowserRefusalReason) : DeviceErrorCode :=
  match r with
  | BrowserRefusalReason.RouteUnavailable => DeviceErrorCode.BrowserRouteUnavailable
  | BrowserRefusalReason.RequiresSetup => DeviceErrorCode.BrowserRequiresSetup
  | BrowserRefusalReason.BindingAmbiguous => DeviceErrorCode.BrowserBindingAmbiguous
  | BrowserRefusalReason.BindingStale => DeviceErrorCode.BrowserBindingStale
  | BrowserRefusalReason.WrongTarget => DeviceErrorCode.BrowserWrongTargetRefused
  | BrowserRefusalReason.TabRequired => DeviceErrorCode.BrowserTabRequired
  | BrowserRefusalReason.TabNotFound => DeviceErrorCode.BrowserTabNotFound
  | BrowserRefusalReason.RefStale => DeviceErrorCode.BrowserRefStale
  | BrowserRefusalReason.InputTrustUnavailable => DeviceErrorCode.BrowserInputTrustUnavailable
  | BrowserRefusalReason.EndpointOwnerMismatch => DeviceErrorCode.BrowserEndpointOwnerMismatch
  | BrowserRefusalReason.ConsentRequired => DeviceErrorCode.BrowserConsentRequired
  | BrowserRefusalReason.ConsentRevoked => DeviceErrorCode.BrowserConsentRevoked
  | BrowserRefusalReason.ReconnectExhausted => DeviceErrorCode.BrowserReconnectExhausted
  | BrowserRefusalReason.InputIncomplete => DeviceErrorCode.BrowserInputIncomplete
  | BrowserRefusalReason.ActionUnavailable => DeviceErrorCode.BrowserActionUnavailable
  | BrowserRefusalReason.OriginOutsideScope => DeviceErrorCode.BrowserOriginOutsideScope
  | BrowserRefusalReason.Other => DeviceErrorCode.BrowserRefused
  end.

(** The rows of [operation_error_code] for [ProcessError], which are the same for a
    process and for a shell. *)
Definition process_error_code (e : ProcessError) : DeviceErrorCode :=
  match e with
  | ProcessError.OutcomeUnproven _ => DeviceErrorCode.BackendOutcomeIndeterminate
  | ProcessError.Io _ => DeviceErrorCode.IoFailure
  | ProcessError.Spawn _ => DeviceErrorCode.ProcessSpawnFailed
  | ProcessError.EnvironmentKeyDenied _ => DeviceErrorCode.EnvironmentKeyDenied
  | ProcessError.InvalidEnvironment => DeviceErrorCode.InvalidEnvironment
  | ProcessError.TooManyEnvironmentEntries => DeviceErrorCode.TooManyEnvironmentEntries
  | ProcessError.WorkingDirectoryDenied => DeviceErrorCode.WorkingDirectoryDenied
  | ProcessError.WorkingDirectoryNotDirectory => DeviceErrorCode.WorkingDirectoryInvalid
  | ProcessError.InvalidTimeout => DeviceErrorCode.InvalidTimeout
  | ProcessError.InvalidProgram => DeviceErrorCode.InvalidProgram
  | ProcessError.ShellProgramDenied => DeviceErrorCode.ProgramDenied
  | ProcessError.TooManyArguments => DeviceErrorCode.TooManyArguments
  | ProcessError.InvalidRequest => DeviceErrorCode.InvalidRequest
  | ProcessError.NoAllowedWorkingDirectories | ProcessError.InvalidPolicyLimit
  | ProcessError.ShellUnsupportedPlatform | ProcessError.PipeUnavailable
  | ProcessError.ReaderPanicked | ProcessError.LinuxCgroupUnavailable
  | ProcessError.Execution _ => DeviceErrorCode.InternalFailure
  end.

Definition operation_error_code (e : AgentOperationError) : DeviceErrorCode :=
  match e with
  | AgentOperationError.ManagedJob e => managed_job_error_code e
  | AgentOperationError.PlaywrightSandbox e => playwright_error_code e
  | AgentOperationError.WorkspaceMutation e =>
      match e with
      | WorkspaceMutationError.PreconditionFailed => DeviceErrorCode.WorkspacePreconditionFailed
      | WorkspaceMutationError.PayloadTooLarge => DeviceErrorCode.WorkspacePayloadTooLarge
      | WorkspaceMutationError.PathDenied | WorkspaceMutationError.HardLinkDenied =>
          DeviceErrorCode.PermissionDenied
      | WorkspaceMutationError.Io _ => DeviceErrorCode.IoFailure
      | WorkspaceMutationError.OutcomeUnproven _ => DeviceErrorCode.BackendOutcomeIndeterminate
      | _ => DeviceErrorCode.InvalidRequest
      end
  | AgentOperationError.Filesystem e =>
      match e with
      | FilesystemError.PathDenied => DeviceErrorCode.PermissionDenied
      | FilesystemError.Io IoNotFound => DeviceErrorCode.NotFound
      | FilesystemError.Io _ => DeviceErrorCode.IoFailure
      | _ => DeviceErrorCode.InvalidRequest
      end
  | AgentOperationError.Process e => process_error_code e
  | AgentOperationError.Shell (ShellError.Process e) => process_error_code e
  | AgentOperationError.Shell _ => DeviceErrorCode.InvalidRequest
  | AgentOperationError.BrowserUploadStaging e =>
      match e with
      | BrowserUploadStagingError.UnknownHandle | BrowserUploadStagingError.ContextMismatch
      | BrowserUploadStagingError.GenerationMismatch
      | BrowserUploadStagingError.CapabilityRevisionMismatch => DeviceErrorCode.BrowserRefStale
      | BrowserUploadStagingError.Io | BrowserUploadStagingError.InvalidRoot =>
          DeviceErrorCode.IoFailure
      | _ => DeviceErrorCode.InvalidRequest
      end
  | AgentOperationError.BrowserDownloadStaging e =>
      match e with
      | BrowserDownloadStagingError.UnknownOperation | BrowserDownloadStagingError.ContextMismatch
      | BrowserDownloadStagingError.GenerationMismatch
      | BrowserDownloadStagingError.CapabilityRevisionMismatch => DeviceErrorCode.BrowserRefStale
      | BrowserDownloadStagingError.Io | BrowserDownloadStagingError.InvalidRoot =>
          DeviceErrorCode.IoFailure
      | _ => DeviceErrorCode.InvalidRequest
      end
  | AgentOperationError.Backend e =>
      match e with
      | M1BackendError.ExecutionBudgetExceeded => DeviceErrorCode.ExecutionBudgetExceeded
      | M1BackendError.BrowserRefused reason => browser_refusal_error_code reason
      | M1BackendError.MutationAuthority => DeviceErrorCode.MutationAuthorityUnavailable
      | _ => DeviceErrorCode.InternalFailure
      end
  | AgentOperationError.WorkerPanicked => DeviceErrorCode.InternalFailure
  end.

Definition normalized_device_result (r : result AgentOperationError DeviceResult) : DeviceResult :=
  match r with
  | Ok r => r
  | Err e => DeviceResult.Error (operation_error_code e)
  end.

(** ** Unproven outcomes *)

(** The error says that it is not known whether the operation took effect. *)
Definition unproven (e : AgentOperationError) : bool :=
  match e with
  | AgentOperationError.Process e => opt_some (ProcessError.outcome_unproven_stage e)
  | AgentOperationError.ManagedJob e => opt_some (ManagedJobError.outcome_unproven_stage e)
  | AgentOperationError.PlaywrightSandbox PlaywrightSandboxError.ProviderOutcomeUnproven => true
  | AgentOperationError.PlaywrightSandbox e =>
      opt_some (PlaywrightSandboxError.outcome_unproven_stage e)
  | AgentOperationError.Shell e => opt_some (ShellError.outcome_unproven_stage e)
  | AgentOperationError.WorkspaceMutation e => WorkspaceMutationError.outcome_unproven e
  | _ => false
  end.

(** On the wire exactly the unproven errors are [BackendOutcomeIndeterminate], the
    one code that is no evidence of a failure. *)
Lemma unproven_code e :
  operation_error_code e = DeviceErrorCode.BackendOutcomeIndeterminate ↔ unproven e = true.
Proof.
  destruct e as [e|e|e|e|e|e|e|e|e|]; try destruct e; try done;
    repeat match goal with x : IoError |- _ => destruct x
           | x : ProcessError |- _ => destruct x
           | x : ManagedJobError |- _ => destruct x
           | x : BrowserRefusalReason |- _ => destruct x end; done.
Qed.

Lemma unproven_no_evidence e :
  terminal_evidence_for_device_result (normalized_device_result (Err e)) = None ↔
  unproven e = true.
Proof.
  rewrite <-unproven_code. cbn. destruct (operation_error_code e); naive_solver.
Qed.

(** The workers do not let an unproven error through as a result. *)
Lemma worker_outcomes_proven e :
  (∀ r, process_operation_outcome r = Result (Err e) → unproven e = false) ∧
  (∀ r, managed_job_operation_outcome r = Result (Err e) → unproven e = false) ∧
  (∀ r, playwright_operation_outcome r = Result (Err e) → unproven e = false) ∧
  (∀ r, shell_operation_outcome r = Result (Err e) → unproven e = false) ∧
  (∀ r, workspace_mutation_operation_outcome r = Result (Err e) → unproven e = false).
Proof.
  split_and!; intros [[]|]; cbn; intros H; try discriminate H.
  - destruct (ProcessError.outcome_unproven_stage _) eqn:Hs; [done|]. injection H as <-.
    cbn. by rewrite Hs.
  - destruct (ManagedJobError.outcome_unproven_stage _) eqn:Hs; [done|]. injection H as <-.
    cbn. by rewrite Hs.
  - destruct e0; cbn in H; try done; try (by injection H as <-).
    + destruct (ProcessError.outcome_unproven_stage _) eqn:Hs; [done|]. injection H as <-.
      cbn. by rewrite Hs.
    + destruct (ManagedJobError.outcome_unproven_stage _) eqn:Hs; [done|]. injection H as <-.
      cbn. by rewrite Hs.
  - destruct (ShellError.outcome_unproven_stage _) eqn:Hs; [done|]. injection H as <-.
    cbn. by rewrite Hs.
  - destruct (WorkspaceMutationError.outcome_unproven _) eqn:Hs; [done|]. injection H as <-. done.
Qed.

End AgentErrors.
