(* ===== verification/AgentWorker.v ===== *)
(** * The workers of the Agent

    [src/src/v2_m1_agent.rs]: the task that the Agent starts for a command, from the
    call of an executor to the outcome that it reports. What an executor, a staging
    broker or the backend answers is an argument; the store of retained output is the
    one of [EphemeralRefs]. *)

From S2P Require Import Prelude Vocabulary Protocol Tombstone Admission SafetyTypes Evidence.
From S2P Require Import EphemeralRefs AgentErrors.
Import AgentOperationOutcome.

Module CapturedProcessOutput.
Record RetainedProcessOutput := mk_retained { retained_bytes : list N; complete : bool }.
Record CapturedProcessOutput := mk {
  output : ProcessOutput;
  stdout_retained : option RetainedProcessOutput;
  stderr_retained : option RetainedProcessOutput
}.
End CapturedProcessOutput.
Abbreviation CapturedProcessOutput := CapturedProcessOutput.CapturedProcessOutput.

Module BackendExecutionOutcome.
Inductive BackendExecutionOutcome :=
| Completed (r : DeviceResult)
| CancellationPropagatedIndeterminate
| TimedOutIndeterminate
| BackendOutcomeIndeterminate.
End BackendExecutionOutcome.
Abbreviation BackendExecutionOutcome := BackendExecutionOutcome.BackendExecutionOutcome.

Module BackendExecutionReceiptContext.
Record BackendExecutionReceiptContext := mk {
  operation : OperationRef;
  capability_revision : N;
  capability : DeviceCapability;
  dispatch_grant_id : string;
  backend : string;
  backend_version : string;
  target_binding : option BackendReceiptTargetBinding
}.

Definition matches_receipt (c : BackendExecutionReceiptContext) (r : BackendExecutionReceipt)
    : bool :=
  is_ok (validate_receipt r)
  && bool_decide (r.(BackendExecutionReceipt.operation) = c.(operation))
  && (r.(BackendExecutionReceipt.capability_revision) =? c.(capability_revision))%N
  && bool_decide (r.(BackendExecutionReceipt.capability) = c.(capability))
  && bool_decide (r.(BackendExecutionReceipt.dispatch_grant_id) = c.(dispatch_grant_id))
  && bool_decide (r.(BackendExecutionReceipt.backend) = c.(backend))
  && bool_decide (r.(BackendExecutionReceipt.backend_version) = c.(backend_version))
  && (r.(BackendExecutionReceipt.provider_contract_schema_version)
      =? BACKEND_EXECUTION_RECEIPT_SCHEMA_VERSION)%N
  && bool_decide (r.(BackendExecutionReceipt.target_binding) = c.(target_binding)).
End BackendExecutionReceiptContext.
Abbreviation BackendExecutionReceiptContext :=
  BackendExecutionReceiptContext.BackendExecutionReceiptContext.

Module AgentWorker.
Import AgentErrors.

(** What the executors, the brokers, the clock and the file system answer to one
    worker. *)
Record Answers := mk_answers {
  unix_time : option N;
  lock_poisoned : bool;
  file_io : EphemeralDataKind → AgentData.FileIo;
  random : EphemeralDataKind → list (list N);
  joins : bool;
  execute : ProcessRequest → joined (result ProcessError ProcessOutput);
  execute_captured : ProcessRequest → joined (result ProcessError CapturedProcessOutput);
  shell_execute : ShellRequest → joined (result ShellError ProcessOutput);
  shell_execute_captured : ShellRequest → joined (result ShellError CapturedProcessOutput);
  job_start : ProcessRequest → joined (result ManagedJobError (string * ManagedJobStatus));
  job_status : string → joined (result ManagedJobError ManagedJobStatus);
  job_output : string → ProcessOutputStream → N → N →
    joined (result ManagedJobError ManagedJobOutputRange);
  job_renew : string → N → joined (result ManagedJobError ManagedJobStatus);
  job_stop : string → joined (result ManagedJobError ManagedJobStatus);
  test_start : PlaywrightTestRequest →
    joined (result PlaywrightSandboxError (string * PlaywrightTestStatus));
  test_status : string → joined (result PlaywrightSandboxError PlaywrightTestStatus);
  test_output : string → ProcessOutputStream → N → N →
    joined (result PlaywrightSandboxError ManagedJobOutputRange);
  test_stop : string → joined (result PlaywrightSandboxError PlaywrightTestStatus);
  stage_upload : string → N → N → string → string → N →
    joined (result BrowserUploadStagingError (string * N));
  read_file_range : string → N → option N → joined (result FilesystemError DeviceResult);
  list_directory_page : string → option string → joined (result FilesystemError DeviceResult);
  decode_payload : string → option (list N);
  sha256_hex : list N → string;
  write_file : string → list N → WorkspaceWritePrecondition →
    joined (result WorkspaceMutationError DeviceResult);
  backend_execute : DeviceCommand → result M1BackendError BackendExecutionOutcome;
  backend_upload : BrowserBackendCommand → list string →
    result M1BackendError BackendExecutionOutcome;
  backend_download : BrowserBackendCommand → string →
    result M1BackendError BackendExecutionOutcome;
  recover_execution_receipt : BackendExecutionReceiptContext →
    result M1BackendError (option BackendExecutionReceipt);
  resolve_upload : string → string → N → N → result BrowserUploadStagingError string;
  consume_handles : list string → string → N → N → result BrowserUploadStagingError unit;
  prepare_download : string → N → N → string → N → bool →
    result BrowserDownloadStagingError string;
  finalize_download : string → string → N → N → string → N →
    result BrowserDownloadStagingError (string * string * N * string)
}.

Section Worker.
Context `{HI : HashIter}.
Variable a : Answers.

(** ** Retained output *)

Definition stage_stream (s : AgentData.AgentEphemeralDataStore) (device_id : string)
    (generation revision : N) (operation_id : string) (k : EphemeralDataKind) (now : N)
    (retained : option CapturedProcessOutput.RetainedProcessOutput)
    : AgentData.AgentEphemeralDataStore * option AgentProcessOutputLocator :=
  let_some r := retained else (s, None) ;;
  let_ok b := AgentData.new_agent_binding device_id generation revision (Some operation_id) k
    else _ => (s, None) ;;
  let '(s, staged) := AgentData.stage s (a.(file_io) k) b
                        r.(CapturedProcessOutput.retained_bytes) now (a.(random) k) in
  (s, match staged with
      | Ok d => Some (AgentProcessOutputLocator.mk d.(AgentData.locator)
                        d.(AgentData.staged_bytes) r.(CapturedProcessOutput.complete))
      | Err _ => None
      end).

Definition stage_captured_process_result (captured : CapturedProcessOutput)
    (store : option AgentData.AgentEphemeralDataStore) (device_id : string)
    (generation revision : N) (operation_id : string) (shell : bool)
    : option AgentData.AgentEphemeralDataStore * DeviceResult :=
  let '(store, stdout, stderr) :=
    match store, a.(unix_time) with
    | Some s, Some now =>
        if a.(lock_poisoned) then (Some s, None, None) else
        let '(s, stdout) := stage_stream s device_id generation revision operation_id
          EphemeralDataKind.ProcessStdout now captured.(CapturedProcessOutput.stdout_retained) in
        let '(s, stderr) := stage_stream s device_id generation revision operation_id
          EphemeralDataKind.ProcessStderr now captured.(CapturedProcessOutput.stderr_retained) in
        (Some s, stdout, stderr)
    | _, _ => (store, None, None)
    end in
  let locators := if opt_some stdout || opt_some stderr
                  then Some (AgentProcessOutputLocators.mk stdout stderr) else None in
  (store, if shell then DeviceResult.Shell captured.(CapturedProcessOutput.output) None locators
          else DeviceResult.Process captured.(CapturedProcessOutput.output) None locators).

(** The commands that run a process or a shell *)
Definition run_captured {E} (store : option AgentData.AgentEphemeralDataStore)
    (device_id : string) (generation revision : N) (operation_id : string) (shell : bool)
    (plain : joined (result E ProcessOutput)) (captured : joined (result E CapturedProcessOutput))
    : option AgentData.AgentEphemeralDataStore * joined (result E DeviceResult) :=
  let of_output output := if shell then DeviceResult.Shell output None None
                          else DeviceResult.Process output None None in
  match store with
  | None =>
      (None, match plain with
             | Some (Ok output) => Some (Ok (of_output output))
             | Some (Err e) => Some (Err e)
             | None => None
             end)
  | Some _ =>
      match captured with
      | Some (Ok c) =>
          let '(store, r) := stage_captured_process_result c store device_id generation revision
                               operation_id shell in
          (store, Some (Ok r))
      | Some (Err e) => (store, Some (Err e))
      | None => (store, None)
      end
  end.

Definition stream_kind (s : ProcessOutputStream) : EphemeralDataKind :=
  match s with
  | ProcessOutputStream.Stdout => EphemeralDataKind.ProcessStdout
  | ProcessOutputStream.Stderr => EphemeralDataKind.ProcessStderr
  end.

Definition read_process_output (store : option AgentData.AgentEphemeralDataStore)
    (device_id : string) (generation revision : N) (locator source_operation_id : string)
    (stream : ProcessOutputStream) (offset max_bytes : N)
    : option AgentData.AgentEphemeralDataStore * DeviceResult :=
  let_some s := store else (None, DeviceResult.Error DeviceErrorCode.InvalidRequest) ;;
  let_some now := a.(unix_time) else (store, DeviceResult.Error DeviceErrorCode.IoFailure) ;;
  return_if a.(lock_poisoned) with (store, DeviceResult.Error DeviceErrorCode.IoFailure) ;;
  let k := stream_kind stream in
  let b := AgentData.mk_binding device_id generation revision (Some source_operation_id) k in
  let '(s, range) := AgentData.read_range s (a.(file_io) k) locator b offset max_bytes now in
  (Some s, match range with
           | Ok r => DeviceResult.ProcessOutputRange r.(AgentData.range_bytes) stream
                       source_operation_id r.(AgentData.offset) r.(AgentData.next_offset)
                       r.(AgentData.total_bytes) r.(AgentData.eof)
           | Err e => DeviceResult.Error (ephemeral_data_error_code e)
           end).

(** ** The computer-use backend *)

Definition recover_authoritative_backend_receipt (context : BackendExecutionReceiptContext)
    (fallback : AgentOperationOutcome) : AgentOperationOutcome :=
  if bool_decide (class context.(BackendExecutionReceiptContext.capability)
                  = CapabilityClass.Observe) then fallback else
  match a.(recover_execution_receipt) context with
  | Ok (Some receipt) =>
      if BackendExecutionReceiptContext.matches_receipt context receipt
      then BackendReceipt receipt else fallback
  | _ => fallback
  end.

(** The rows of [execute_computer_use_operation] for the outcomes that prove
    nothing. *)
Definition recover_indeterminate (context : BackendExecutionReceiptContext)
    (o : BackendExecutionOutcome) : AgentOperationOutcome :=
  recover_authoritative_backend_receipt context
    match o with
    | BackendExecutionOutcome.CancellationPropagatedIndeterminate =>
        Indeterminate AgentIndeterminateCause.CancellationPropagated
    | BackendExecutionOutcome.TimedOutIndeterminate =>
        Indeterminate AgentIndeterminateCause.BackendTimedOut
    | _ => Result (Ok (DeviceResult.Error DeviceErrorCode.BackendOutcomeIndeterminate))
    end.

Fixpoint resolve_uploads (files : list BrowserStagedUploadFile) (context_id : string)
    (generation revision : N) : result BrowserUploadStagingError (list string) :=
  match files with
  | [] => Ok []
  | f :: files =>
      let_ok path := a.(resolve_upload) f.(BrowserStagedUploadFile.backend_file_handle) context_id
                       generation revision else e => Err e ;;
      let_ok paths := resolve_uploads files context_id generation revision else e => Err e ;;
      Ok (path :: paths)
  end.

Definition execute_browser_upload (command : BrowserBackendCommand) (context_id : string)
    (files : list BrowserStagedUploadFile) (context : BackendExecutionReceiptContext)
    : AgentOperationOutcome :=
  let generation :=
    context.(BackendExecutionReceiptContext.operation).(OperationRef.device_generation) in
  let revision := context.(BackendExecutionReceiptContext.capability_revision) in
  let handles := BrowserStagedUploadFile.backend_file_handle <$> files in
  let_ok resolved := resolve_uploads files context_id generation revision
    else e => Result (Err (AgentOperationError.BrowserUploadStaging e)) ;;
  match a.(backend_upload) command resolved with
  | Ok (BackendExecutionOutcome.Completed r) =>
      match a.(consume_handles) handles context_id generation revision with
      | Ok _ => Result (Ok r)
      | Err e => Result (Err (AgentOperationError.BrowserUploadStaging e))
      end
  | Ok o => recover_indeterminate context o
  | Err e => Result (Err (AgentOperationError.Backend e))
  end.

Definition execute_browser_download (command : BrowserBackendCommand) (context_id : string)
    (destination_name : string) (max_bytes : N) (overwrite : bool)
    (context : BackendExecutionReceiptContext) : AgentOperationOutcome :=
  let generation :=
    context.(BackendExecutionReceiptContext.operation).(OperationRef.device_generation) in
  let revision := context.(BackendExecutionReceiptContext.capability_revision) in
  let_ok prepared := a.(prepare_download) context_id generation revision destination_name
                       max_bytes overwrite
    else e => Result (Err (AgentOperationError.BrowserDownloadStaging e)) ;;
  match a.(backend_download) command prepared with
  | Ok (BackendExecutionOutcome.Completed
          (DeviceResult.Browser (BrowserBackendResult.DownloadStaged id bytes))) =>
      match a.(finalize_download) prepared context_id generation revision id bytes with
      | Ok (handle, name, bytes, data) =>
          Result (Ok (DeviceResult.Browser
                        (BrowserBackendResult.DownloadCompleted handle name bytes data)))
      | Err e => Result (Err (AgentOperationError.BrowserDownloadStaging e))
      end
  | Ok (BackendExecutionOutcome.Completed _) =>
      Result (Err (AgentOperationError.Backend (M1BackendError.MalformedResponse
        "browser download adapter returned an unexpected result")))
  | Ok o => recover_indeterminate context o
  | Err e => Result (Err (AgentOperationError.Backend e))
  end.

Definition execute_computer_use_operation (command : DeviceCommand)
    (context : BackendExecutionReceiptContext) : AgentOperationOutcome :=
  match command with
  | DeviceCommand.Browser (BrowserBackendCommand.Upload context_id _ _ _ files as c) =>
      execute_browser_upload c context_id files context
  | DeviceCommand.Browser (BrowserBackendCommand.Download context_id _ _ _ name max over as c) =>
      execute_browser_download c context_id name max over context
  | _ =>
      match a.(backend_execute) command with
      | Ok (BackendExecutionOutcome.Completed r) => Result (Ok r)
      | Ok o => recover_indeterminate context o
      | Err e => Result (Err (AgentOperationError.Backend e))
      end
  end.

(** ** The worker of a command *)

Definition map_joined {E A B} (f : A → B) (r : joined (result E A)) : joined (result E B) :=
  match r with
  | Some (Ok x) => Some (Ok (f x))
  | Some (Err e) => Some (Err e)
  | None => None
  end.

(** [.map_err(|_| WorkerPanicked).and_then(|r| r.map_err(wrap))] *)
Definition or_panicked {E} (wrap : E → AgentOperationError) (r : joined (result E DeviceResult))
    : AgentOperationOutcome :=
  Result match r with
         | Some (Ok x) => Ok x
         | Some (Err e) => Err (wrap e)
         | None => Err AgentOperationError.WorkerPanicked
         end.

Definition with_runner {A} (playwright : bool) (r : joined (result PlaywrightSandboxError A))
    : joined (result PlaywrightSandboxError A) :=
  if playwright then r else Some (Err PlaywrightSandboxError.InvalidConfig).

Definition write_workspace_file (enabled : bool) (path : string) (data : string)
    (expected_bytes : N) (content_sha256 : string) (precondition : WorkspaceWritePrecondition)
    : joined (result WorkspaceMutationError DeviceResult) :=
  return_if negb enabled with Some (Err WorkspaceMutationError.NoAllowedRoots) ;;
  let_some payload := a.(decode_payload) data
    else Some (Err WorkspaceMutationError.InvalidPayload) ;;
  return_if negb (vlen payload =? expected_bytes)%N
            || negb (bool_decide (a.(sha256_hex) payload = content_sha256))
    with Some (Err WorkspaceMutationError.InvalidPayload) ;;
  a.(write_file) path payload precondition.

(** The commands of a computer-use backend *)
Definition is_computer_use (c : DeviceCommand) : bool :=
  match c with
  | DeviceCommand.ExecuteProcess _ | DeviceCommand.Shell _
  | DeviceCommand.ReadProcessOutput _ _ _ _ _ | DeviceCommand.ManagedJobStart _
  | DeviceCommand.ManagedJobStatus _ | DeviceCommand.ManagedJobOutput _ _ _ _
  | DeviceCommand.ManagedJobRenew _ _ | DeviceCommand.ManagedJobStop _
  | DeviceCommand.PlaywrightTestStart _ | DeviceCommand.PlaywrightTestStatus _
  | DeviceCommand.PlaywrightTestOutput _ _ _ _ | DeviceCommand.PlaywrightTestStop _
  | DeviceCommand.StageBrowserUploadFile _ _ _ _ | DeviceCommand.ReadFile _ _ _
  | DeviceCommand.ListDirectory _ _ | DeviceCommand.WriteWorkspaceFile _ _ _ _ _ => false
  | _ => true
  end.

Definition run_worker (store : option AgentData.AgentEphemeralDataStore)
    (playwright workspace_mutation : bool) (context : BackendExecutionReceiptContext)
    (command : DeviceCommand)
    : option AgentData.AgentEphemeralDataStore * AgentOperationOutcome :=
  let o := context.(BackendExecutionReceiptContext.operation) in
  let device_id := o.(OperationRef.device_id) in
  let generation := o.(OperationRef.device_generation) in
  let id := o.(OperationRef.operation_id) in
  let revision := context.(BackendExecutionReceiptContext.capability_revision) in
  let jobs r := (store, managed_job_operation_outcome r) in
  let tests r := (store, playwright_operation_outcome (with_runner playwright r)) in
  match command with
  | DeviceCommand.ExecuteProcess request =>
      let '(store, r) := run_captured store device_id generation revision id false
                           (a.(execute) request) (a.(execute_captured) request) in
      (store, process_operation_outcome r)
  | DeviceCommand.Shell request =>
      let '(store, r) := run_captured store device_id generation revision id true
                           (a.(shell_execute) request) (a.(shell_execute_captured) request) in
      (store, shell_operation_outcome r)
  | DeviceCommand.ReadProcessOutput locator source stream offset max_bytes =>
      if negb a.(joins) then (store, Result (Err AgentOperationError.WorkerPanicked)) else
      let '(store, r) := read_process_output store device_id generation revision locator source
                           stream offset max_bytes in
      (store, Result (Ok r))
  | DeviceCommand.ManagedJobStart request =>
      jobs (map_joined (λ r, DeviceResult.ManagedJobStarted r.1 r.2) (a.(job_start) request))
  | DeviceCommand.ManagedJobStatus locator =>
      jobs (map_joined DeviceResult.ManagedJobStatus (a.(job_status) locator))
  | DeviceCommand.ManagedJobOutput locator stream offset max_bytes =>
      jobs (map_joined (DeviceResult.ManagedJobOutput stream)
              (a.(job_output) locator stream offset max_bytes))
  | DeviceCommand.ManagedJobRenew locator lease_ms =>
      jobs (map_joined DeviceResult.ManagedJobRenewed (a.(job_renew) locator lease_ms))
  | DeviceCommand.ManagedJobStop locator =>
      jobs (map_joined DeviceResult.ManagedJobStopped (a.(job_stop) locator))
  | DeviceCommand.PlaywrightTestStart request =>
      tests (map_joined (λ r, DeviceResult.PlaywrightTestStarted r.1 r.2) (a.(test_start) request))
  | DeviceCommand.PlaywrightTestStatus locator =>
      tests (map_joined DeviceResult.PlaywrightTestStatus (a.(test_status) locator))
  | DeviceCommand.PlaywrightTestOutput locator stream offset max_bytes =>
      tests (map_joined (DeviceResult.PlaywrightTestOutput stream)
               (a.(test_output) locator stream offset max_bytes))
  | DeviceCommand.PlaywrightTestStop locator =>
      tests (map_joined DeviceResult.PlaywrightTestStopped (a.(test_stop) locator))
  | DeviceCommand.StageBrowserUploadFile context_id file_name data expected_bytes =>
      (store, or_panicked AgentOperationError.BrowserUploadStaging
                (map_joined (λ r, DeviceResult.BrowserUploadStaged r.1 r.2)
                   (a.(stage_upload) context_id generation revision file_name
                      data.(BrowserUploadPayload.as_str) expected_bytes)))
  | DeviceCommand.ReadFile path offset max_bytes =>
      (store, or_panicked AgentOperationError.Filesystem
                (a.(read_file_range) path offset max_bytes))
  | DeviceCommand.ListDirectory path after =>
      (store, or_panicked AgentOperationError.Filesystem (a.(list_directory_page) path after))
  | DeviceCommand.WriteWorkspaceFile path data expected_bytes content_sha256 precondition =>
      (store, workspace_mutation_operation_outcome
                (write_workspace_file workspace_mutation path.(WorkspaceWritePath.as_str)
                   data.(WorkspaceWritePayload.as_str) expected_bytes content_sha256 precondition))
  | command => (store, execute_computer_use_operation command context)
  end.

(** ** What an outcome says *)

(** A receipt is about this operation, and an error is known to have had no
    effect. *)
Definition honest (context : BackendExecutionReceiptContext) (o : AgentOperationOutcome) : Prop :=
  match o with
  | BackendReceipt r => BackendExecutionReceiptContext.matches_receipt context r = true
                        ∧ class context.(BackendExecutionReceiptContext.capability)
                          ≠ CapabilityClass.Observe
  | Result (Err e) => unproven e = false
  | _ => True
  end.

Lemma recover_receipt_honest context o :
  honest context o → honest context (recover_authoritative_backend_receipt context o).
Proof.
  intros Ho. unfold recover_authoritative_backend_receipt. case_bool_decide; [done|].
  destruct (recover_execution_receipt _ _) as [[r|]|]; [|done..].
  by destruct (BackendExecutionReceiptContext.matches_receipt context r) eqn:Hm.
Qed.

Lemma recover_indeterminate_honest context o : honest context (recover_indeterminate context o).
Proof. apply recover_receipt_honest. by destruct o. Qed.

Lemma computer_use_honest command context :
  honest context (execute_computer_use_operation command context).
Proof.
  unfold execute_computer_use_operation, execute_browser_upload, execute_browser_download.
  repeat (case_match; try done); try apply recover_indeterminate_honest.
Qed.

Lemma outcome_honest context o :
  (∀ e, o = Result (Err e) → unproven e = false) → (∀ r, o ≠ BackendReceipt r) → honest context o.
Proof. destruct o as [[]| |]; naive_solver. Qed.

Lemma outcomes_honest context :
  (∀ r, honest context (process_operation_outcome r)) ∧
  (∀ r, honest context (managed_job_operation_outcome r)) ∧
  (∀ r, honest context (playwright_operation_outcome r)) ∧
  (∀ r, honest context (shell_operation_outcome r)) ∧
  (∀ r, honest context (workspace_mutation_operation_outcome r)).
Proof.
  split_and!; intros r; (apply outcome_honest;
    [intros e; eapply worker_outcomes_proven
    |destruct r as [[|[]]|]; cbn; unfold unless_unproven; intros r'; by repeat case_match]).
Qed.

Lemma or_panicked_honest {E} context (f : E → AgentOperationError) r :
  (∀ e, unproven (f e) = false) → honest context (or_panicked f r).
Proof. intros Hf. destruct r as [[]|]; naive_solver. Qed.

Lemma worker_honest store playwright workspace context command :
  honest context (run_worker store playwright workspace context command).2.
Proof.
  destruct (outcomes_honest context) as (Hp & Hj & Ht & Hs & Hw).
  destruct command; try exact (computer_use_honest _ _); cbn [run_worker];
    repeat case_match; cbn [snd]; try done; try (by apply or_panicked_honest).
Qed.
End Worker.
End AgentWorker.
