(* ===== verification/Agent.v ===== *)
(** * The Agent: state, checkpoints and the effects of its process

    [src/src/v2_m1_agent.rs]: the configuration, what the process keeps, the journals
    of terminal proofs, the checkpoint, and the start of the process from its last
    checkpoint. The process may die before any of its effects; what the file system,
    the clock, the channels, the local user and the workers do is an environment that
    each effect reads at the next tick. *)

From S2P Require Import Prelude Vocabulary Protocol Crypto Tombstone Admission Registry Grants.
From S2P Require Import SafetyTypes Recovery EphemeralRefs Evidence Transport AgentGate.
From S2P Require Import SessionRuntime Trust Persistence AgentErrors AgentWorker.
Import Persistence.

(** [tonic::Code], as far as the Agent distinguishes them. *)
Inductive StatusCode := Unavailable | CancelledCode | DeadlineExceeded | UnknownCode | OtherCode.

Module AgentServiceError.
Inductive AgentServiceError :=
| InvalidConfig (what : string)
| Transport
| Status (c : StatusCode)
| Carrier
| Protocol (e : TransportError)
| Trust (e : TrustError)
| Control (e : ControlError)
| Execution (e : ExecutionError)
| Process (e : ProcessError)
| ManagedJob (e : ManagedJobError)
| PlaywrightSandbox (e : PlaywrightSandboxError)
| ManagedJobFailClosed
| Filesystem (e : FilesystemError)
| WorkspaceMutationStartup (e : WorkspaceMutationError)
| EphemeralDataStartup (e : AgentEphemeralDataError)
| BrowserUploadStagingStartup
| BrowserDownloadStagingStartup
| BrowserUploadStaging (e : BrowserUploadStagingError)
| BrowserDownloadStaging (e : BrowserDownloadStagingError)
| Backend (e : M1BackendError)
| Operation (e : AgentOperationError)
| Persistence (e : PersistenceError)
| OnlineRecovery (e : RecoveryError)
| UnexpectedMessage (expected got : string)
| HeartbeatAckMismatch | RecoveryResultMismatch | CancellationMismatch | AgentBusy
| UnsupportedCommand | InboundClosed | OutboundClosed | OperationWorkerClosed
| OperationStateMismatch | OperationTerminationTimeout | ReconnectExhausted
| CheckpointIdentityMismatch | CheckpointTrustMismatch | CheckpointGrantTrustMismatch.

Definition reconnectable (e : AgentServiceError) : bool :=
  match e with
  | Transport | InboundClosed | OutboundClosed => true
  | Status (Unavailable | CancelledCode | DeadlineExceeded | UnknownCode) => true
  | _ => false
  end.
End AgentServiceError.
Abbreviation AgentServiceError := AgentServiceError.AgentServiceError.

(** How a run of the process ends early: it dies, or raises an error. *)
Inductive stop := Crash | Raised (e : AgentServiceError).

Module Agent.
Import AgentServiceError.

(** ** Configuration *)

Record CuaAgentConfig := mk_cua {
  cua_command : string;
  cua_backend_version : string;
  cua_platform : string;
  cua_revision : N;
  cua_connect_timeout : N;
  cua_tool_timeout : N;
  cua_reconnect_attempts : N;
  cua_reconnect_backoff : N
}.

Definition validate_cua (c : CuaAgentConfig) : result AgentServiceError unit :=
  return_if trim_is_empty c.(cua_command) || trim_is_empty c.(cua_backend_version)
            || trim_is_empty c.(cua_platform) || (c.(cua_revision) =? 0)%N
            || (c.(cua_connect_timeout) =? 0)%N || (c.(cua_tool_timeout) =? 0)%N
            || (c.(cua_reconnect_attempts) =? 0)%N || (c.(cua_reconnect_backoff) =? 0)%N
    with Err (InvalidConfig "invalid Cua backend settings") ;;
  Ok tt.

(** [AgentServiceConfig], durations in nanoseconds. *)
Record AgentServiceConfig := mk_config {
  hub_endpoint : string;
  hub_domain : string;
  device_id : string;
  allowed_cwd_roots : list string;
  allowed_file_roots : list string;
  allowed_write_roots : list string;
  denied_write_subpaths : list string;
  ephemeral_data_parent : option string;
  heartbeat_interval : N;
  reconnect : Runtime.ReconnectPolicy;
  cua : option CuaAgentConfig
}.

Definition validate_agent_config (c : AgentServiceConfig) : result AgentServiceError unit :=
  return_if opt_none (strip_prefix "https://" c.(hub_endpoint))
    with Err (InvalidConfig "Hub endpoint must use https://") ;;
  return_if trim_is_empty c.(hub_domain) || trim_is_empty c.(device_id)
    with Err (InvalidConfig "Hub domain and device id must be non-empty") ;;
  return_if (c.(heartbeat_interval) =? 0)%N
    with Err (InvalidConfig "heartbeat interval must be non-zero") ;;
  let_ok _ := Runtime.validate_policy c.(reconnect)
    else _ => Err (InvalidConfig "invalid reconnect policy") ;;
  return_if bool_decide (c.(allowed_cwd_roots) = [])
    with Err (InvalidConfig "at least one allowed cwd root is required") ;;
  return_if bool_decide (c.(allowed_file_roots) = [])
    with Err (InvalidConfig "at least one allowed file root is required") ;;
  return_if bool_decide (c.(allowed_write_roots) = [])
            && negb (bool_decide (c.(denied_write_subpaths) = []))
    with Err (InvalidConfig
      "workspace mutation deny subpaths require at least one writable root") ;;
  match c.(cua) with Some cua => validate_cua cua | None => Ok tt end.

(** ** The journals of terminal proofs *)

(** [while journal.len() > max { journal.pop_front(); }] *)
Definition keep_last {A} (max : N) (l : list A) : list A := drop (length l - N.to_nat max) l.

(** What the Agent remembers of the operation that runs. *)
Inductive ActiveCancellation := CancelProcess | CancelBackend | NoCancellation.

(** [VerificationToken] *)
Record VerificationToken := mk_token { intervention_id : string; token_epoch : N }.

Record ActiveOperation := mk_active {
  operation_id : string;
  device_generation : N;
  capability_revision : N;
  operation_capability : DeviceCapability;
  dispatch_grant_id : string;
  handoff_verification : option (RemoteHandoffAuthority * VerificationToken);
  cancellation : ActiveCancellation
}.

Definition record_terminal_evidence (journal : list AgentTerminalEvidence) (device_id : string)
    (o : ActiveOperation) (r : DeviceResult)
    : result AgentServiceError (list AgentTerminalEvidence) :=
  return_if bool_decide (class o.(operation_capability) = CapabilityClass.Observe)
    with Ok journal ;;
  let_some proved := terminal_evidence_for_device_result r else Ok journal ;;
  let entry := AgentTerminalEvidence.mk
    (OperationRef.mk device_id o.(device_generation) o.(operation_id)) o.(capability_revision)
    o.(operation_capability) o.(dispatch_grant_id) proved.1 proved.2 in
  let_ok _ := validate_terminal_evidence entry else e => Err (Execution e) ;;
  return_if existsb (λ x, bool_decide (x.(AgentTerminalEvidence.operation).(OperationRef.operation_id)
                                       = o.(operation_id))) journal
    with Ok journal ;;
  Ok (keep_last MAX_AGENT_TERMINAL_EVIDENCE_ENTRIES (journal ++ [entry])).

Definition same_operation_receipt (r x : BackendExecutionReceipt) : bool :=
  bool_decide (x.(BackendExecutionReceipt.operation).(OperationRef.operation_id)
               = r.(BackendExecutionReceipt.operation).(OperationRef.operation_id)).

Definition same_operation_evidence (r x : AgentTerminalEvidence) : bool :=
  bool_decide (x.(AgentTerminalEvidence.operation).(OperationRef.operation_id)
               = r.(AgentTerminalEvidence.operation).(OperationRef.operation_id)).

(** A receipt of the same backend that is not older *)
Definition not_older (r x : BackendExecutionReceipt) : bool :=
  bool_decide (x.(BackendExecutionReceipt.backend) = r.(BackendExecutionReceipt.backend))
  && bool_decide (x.(BackendExecutionReceipt.backend_version)
                  = r.(BackendExecutionReceipt.backend_version))
  && (r.(BackendExecutionReceipt.sequence) <=? x.(BackendExecutionReceipt.sequence))%N.

Definition record_backend_execution_receipt (receipts : list BackendExecutionReceipt)
    (journal : list AgentTerminalEvidence) (r : BackendExecutionReceipt)
    : result AgentServiceError (list BackendExecutionReceipt * list AgentTerminalEvidence) :=
  let_ok _ := validate_receipt r else e => Err (Execution e) ;;
  match List.find (same_operation_receipt r) receipts with
  | Some existing =>
      if bool_decide (existing = r) then Ok (receipts, journal)
      else Err (Execution ExecutionError.InvalidOperation)
  | None =>
      return_if existsb (not_older r) receipts
        with Err (Execution ExecutionError.InvalidOperation) ;;
      let terminal := as_terminal_evidence r in
      let_ok journal :=
        match List.find (same_operation_evidence terminal) journal with
        | Some existing =>
            if bool_decide (existing = terminal) then Ok journal
            else Err (Execution ExecutionError.InvalidOperation)
        | None => Ok (keep_last MAX_AGENT_TERMINAL_EVIDENCE_ENTRIES (journal ++ [terminal]))
        end else e => Err e ;;
      Ok (keep_last MAX_AGENT_BACKEND_EXECUTION_RECEIPTS (receipts ++ [r]), journal)
  end.

(** ** State *)

(** A file of the recovery hand-off: absent, or with contents that parse or do not. *)
Definition json_file (A : Type) : Type := option (option A).

Record RecoveryFiles := mk_files {
  challenge_file : json_file RecoveryChallenge;
  authorization_file : json_file RecoveryAuthorization;
  resolved_file : json_file RecoveryResolved
}.

(** A task that runs beside the session's loop *)
Record Worker := mk_worker {
  worker_command : DeviceCommand;
  worker_context : BackendExecutionReceiptContext;
  worker_cancelled : bool
}.

Record AgentSession := mk_session {
  active : option ActiveOperation;
  worker : option Worker;
  heartbeat_sequence : N;
  pending_heartbeat : option (N * N);
  pending_backend_session_ends : list RemoteBackendSessionEnd;
  pending_recovery_request : option RecoveryAuthorization
}.

Definition new_session : AgentSession := mk_session None None 0 None [] None.

Section Agent.
Context `{ED : Ed25519} `{TS : RotationSerializer} `{HI : HashIter}.

Record AgentProvisionedMaterial := mk_material {
  device_identity : SigningKey;
  trusted_hub_key : VerifyingKey;
  grant_verifier : VerifyingKey;
  additional_grant_verifiers : list VerifyingKey;
  hub_rotation : option Trust.HubKeyRotation
}.

(** The fields of [AgentService] that change *)
Record AgentService := mk_service {
  trusted_hub : Trust.TrustedHubIdentity;
  grants : Grants.GrantLedger;
  execution : AgentGate.AgentExecutionGate;
  terminal_evidence : list AgentTerminalEvidence;
  backend_execution_receipts : list BackendExecutionReceipt;
  managed_job_fail_closed : bool;
  ephemeral_data : option AgentData.AgentEphemeralDataStore
}.

(** What has happened on the device, of which the Agent keeps no record itself:
    [sessions] are the generations of the sessions it entered (the last one first),
    [spawned] the operations that it handed to a worker, [completed] what their
    workers reported, [refused] the operations that the hand-off refused. *)
Record History := mk_history {
  sessions : list N;
  spawned : list (OperationRef * RemoteCommand);
  completed : list (BackendExecutionReceiptContext * AgentOperationOutcome);
  refused : list OperationRef
}.

Definition no_history : History := mk_history [] [] [] [].

(** The answers of the hand-off coordinator *)
Inductive AgentAuthorityDecision := Allow | Deny | Verification (token : VerificationToken).

(** [AgentHandoffSessionFence], before the device is hashed *)
Record SessionFence := mk_fence {
  fence_device : string;
  fence_generation : N;
  fence_revision : N
}.

(** A call of the hand-off coordinator, with its answer: the final gate before a command, the
    report of a verification, a request of the Hub *)
Inductive Consultation :=
| Asked (authority : RemoteHandoffAuthority) (command : DeviceCommand) (fence : SessionFence)
    (answer : option AgentAuthorityDecision)
| Reported (authority : RemoteHandoffAuthority) (token : VerificationToken) (satisfied : bool)
    (fence : SessionFence) (answer : bool)
| Requested (request : RemoteHandoffRequestKind) (fence : SessionFence)
    (answer : RemoteHandoffResponseKind).

Record World := mk_world {
  agent : AgentService;
  disk : Disk;
  files : RecoveryFiles;
  outbox : list AgentToHub;
  history : History;
  consulted : list Consultation;
  tick : nat
}.

Record Task := mk_task { world : World; session : AgentSession }.

(** What happens outside the process. [env_alive] is false from the moment on at which the
    process is dead; the cleanup of a staging broker is of one context, or of all
    ([None]); [env_jobs_shut_down] says whether the managed jobs and the Playwright jobs
    were terminated, [None] if the task that does it panics. *)
Record AgentEnv := mk_env {
  env_alive : nat → bool;
  env_io : nat → CheckpointIo;
  env_instant : nat → N;
  env_outbound_open : nat → bool;
  env_encodes : AgentToHub → bool;
  env_recovery_fails : nat → bool;
  env_final_admit : nat → RemoteHandoffAuthority → DeviceCommand → SessionFence →
    option AgentAuthorityDecision;
  env_verification_reported : nat → RemoteHandoffAuthority → VerificationToken → bool →
    SessionFence → bool;
  env_handle_remote : nat → RemoteHandoffRequestKind → SessionFence → RemoteHandoffResponseKind;
  env_upload_cleanup : nat → option string → result BrowserUploadStagingError unit;
  env_download_cleanup : nat → option string → result BrowserDownloadStagingError unit;
  env_end_interaction_session : nat → string → result M1BackendError unit;
  env_jobs_indeterminate : nat → result ManagedJobError bool;
  env_tests_indeterminate : nat → result PlaywrightSandboxError bool;
  env_jobs_shut_down : nat → option (bool * bool);
  env_termination_timeout : nat → bool;
  env_backend_connects : nat → result M1BackendError unit;
  env_backend_shuts_down : nat → result M1BackendError unit;
  env_answers : nat → AgentWorker.Answers;
  env_executors : option AgentServiceError;
  env_staging : option AgentServiceError
}.

Class AgentSetup := {
  env : AgentEnv;
  config : AgentServiceConfig;
  material : AgentProvisionedMaterial;
  backend : option CapabilityAdvertisement;
  handoff : bool;
  playwright : bool;
  package_version : string;
  platform : string
}.

Context `{SU : AgentSetup}.

Definition workspace_mutation : bool := negb (bool_decide (config.(allowed_write_roots) = [])).

(** ** Programs *)

Definition A (X : Type) : Type := Task → Task * result stop X.

#[export] Instance A_ret : MRet A := λ X x t, (t, Ok x).
#[export] Instance A_bind : MBind A := λ X Y f m t,
  let '(t, r) := m t in
  match r with Ok x => f x t | Err e => (t, Err e) end.

Definition fail {X} (e : AgentServiceError) : A X := λ t, (t, Err (Raised e)).
Definition crash_now {X} : A X := λ t, (t, Err Crash).
Definition gets {X} (f : Task → X) : A X := λ t, (t, Ok (f t)).
Definition lift {E X} (f : E → AgentServiceError) (r : result E X) : A X :=
  λ t, (t, match r with Ok x => Ok x | Err e => Err (Raised (f e)) end).
Definition ok_or {X} (e : AgentServiceError) (o : option X) : A X :=
  λ t, (t, match o with Some x => Ok x | None => Err (Raised e) end).

(** The result of a program, as a value; a dead process gives none. *)
Definition attempt {X} (m : A X) : A (result AgentServiceError X) := λ t,
  let '(t, r) := m t in
  (t, match r with
      | Ok x => Ok (Ok x)
      | Err (Raised e) => Ok (Err e)
      | Err Crash => Err Crash
      end).

Definition on_world (f : World → World) : A unit := λ t,
  (mk_task (f t.(world)) t.(session), Ok tt).
Definition on_session (f : AgentSession → AgentSession) : A unit := λ t,
  (mk_task t.(world) (f t.(session)), Ok tt).
Definition on_agent (f : AgentService → AgentService) : A unit :=
  on_world (λ w, mk_world (f w.(agent)) w.(disk) w.(files) w.(outbox) w.(history) w.(consulted) w.(tick)).
Definition on_history (f : History → History) : A unit :=
  on_world (λ w, mk_world w.(agent) w.(disk) w.(files) w.(outbox) (f w.(history)) w.(consulted)
                   w.(tick)).
Definition on_files (f : RecoveryFiles → RecoveryFiles) : A unit :=
  on_world (λ w, mk_world w.(agent) w.(disk) (f w.(files)) w.(outbox) w.(history) w.(consulted) w.(tick)).

Definition the_agent : A AgentService := gets (λ t, t.(world).(agent)).
Definition the_session : A AgentSession := gets session.
Definition the_files : A RecoveryFiles := gets (λ t, t.(world).(files)).

Definition set_trusted_hub (s : AgentService) x := mk_service x s.(grants) s.(execution)
  s.(terminal_evidence) s.(backend_execution_receipts) s.(managed_job_fail_closed)
  s.(ephemeral_data).
Definition set_grants (s : AgentService) x := mk_service s.(trusted_hub) x s.(execution)
  s.(terminal_evidence) s.(backend_execution_receipts) s.(managed_job_fail_closed)
  s.(ephemeral_data).
Definition set_execution (s : AgentService) x := mk_service s.(trusted_hub) s.(grants) x
  s.(terminal_evidence) s.(backend_execution_receipts) s.(managed_job_fail_closed)
  s.(ephemeral_data).
Definition set_journals (s : AgentService) receipts evidence := mk_service s.(trusted_hub)
  s.(grants) s.(execution) evidence receipts s.(managed_job_fail_closed) s.(ephemeral_data).
Definition set_evidence (s : AgentService) x :=
  set_journals s s.(backend_execution_receipts) x.
Definition set_fail_closed (s : AgentService) := mk_service s.(trusted_hub) s.(grants)
  s.(execution) s.(terminal_evidence) s.(backend_execution_receipts) true s.(ephemeral_data).
Definition set_ephemeral (s : AgentService) x := mk_service s.(trusted_hub) s.(grants)
  s.(execution) s.(terminal_evidence) s.(backend_execution_receipts)
  s.(managed_job_fail_closed) x.

(** A call of the execution gate, with [?]. *)
Definition on_gate (call : AgentGate.AgentExecutionGate →
                     AgentGate.AgentExecutionGate * result ExecutionError unit) : A unit :=
  s ← the_agent;
  on_agent (λ a, set_execution a (call s.(execution)).1);;
  lift Execution (call s.(execution)).2.

(** The next effect: the process may be dead by then. *)
Definition effect : A nat := λ t,
  let w := t.(world) in
  if env.(env_alive) w.(tick)
  then (mk_task (mk_world w.(agent) w.(disk) w.(files) w.(outbox) w.(history) w.(consulted)
                   (S w.(tick)))
          t.(session), Ok w.(tick))
  else (t, Err Crash).

(** A call of the coordinator; the calls are kept, the latest first. *)
Definition consult {X} (answer : nat → X) (call : X → Consultation) : A X :=
  n ← effect;
  on_world (λ w, mk_world w.(agent) w.(disk) w.(files) w.(outbox) w.(history)
                   (call (answer n) :: w.(consulted)) w.(tick));;
  mret (answer n).

Definition send_agent (m : AgentToHub) : A unit :=
  if negb (env.(env_encodes) m) then fail Carrier else
  n ← effect;
  if negb (env.(env_outbound_open) n) then fail OutboundClosed else
  on_world (λ w, mk_world w.(agent) w.(disk) w.(files) (w.(outbox) ++ [m]) w.(history) w.(consulted) w.(tick)).

(** ** Checkpoints *)

Context `{CJ : CheckpointJson AgentPersistentState}.

Definition agent_checkpoints : CheckpointStore := mk_store "agent".

(** The receipts whose terminal proof is still in the journal *)
Definition kept_receipts (s : AgentService) : list BackendExecutionReceipt :=
  filter (λ r, as_terminal_evidence r ∈ s.(terminal_evidence)) s.(backend_execution_receipts).

Definition capture (s : AgentService) : result PersistenceError AgentPersistentState :=
  capture_with_runtime_evidence config.(device_id) s.(trusted_hub) s.(grants) s.(execution)
    s.(terminal_evidence) (kept_receipts s) s.(managed_job_fail_closed).

(** [self.checkpoint.save(&state)] *)
Definition save_checkpoint (s : AgentPersistentState) : A unit :=
  n ← effect;
  r ← (λ t, let w := t.(world) in
            let '(d, r) := save_with_size agent_checkpoints w.(disk) (env.(env_io) n) s in
            (mk_task (mk_world w.(agent) d w.(files) w.(outbox) w.(history) w.(consulted) w.(tick))
               t.(session), Ok r));
  lift Persistence (match r with Ok _ => Ok tt | Err e => Err e end).

Definition persist_state : A unit :=
  s ← the_agent;
  state ← lift Persistence (capture s);
  save_checkpoint state.

(** ** Start *)

Definition configured_verifiers : list VerifyingKey :=
  material.(grant_verifier) :: material.(additional_grant_verifiers).

Definition retire_unconfigured (l : Grants.GrantLedger) (key : list N) : Grants.GrantLedger :=
  match vk_from_bytes key with
  | Some v =>
      if bool_decide (verifying_key_id v ∈ verifying_key_id <$> configured_verifiers) then l
      else (Grants.retire_verifier l (verifying_key_id v)).1
  | None => l
  end.

Definition reconcile_grant_verifiers (l : Grants.GrantLedger) : Grants.GrantLedger :=
  let l := foldl (λ l v, (Grants.trust_verifier l v).1) l configured_verifiers in
  foldl retire_unconfigured l (Grants.snapshot l).(Grants.snap_verifier_keys).

(** The Hub key of the checkpoint is the provisioned one, or rotates to it. *)
Definition reconcile_trusted_hub (t : Trust.TrustedHubIdentity)
    : result AgentServiceError Trust.TrustedHubIdentity :=
  return_if bool_decide (vk_to_bytes t.(Trust.current) = vk_to_bytes material.(trusted_hub_key))
    with Ok t ;;
  let_some rotation := material.(hub_rotation) else Err CheckpointTrustMismatch ;;
  let '(t, rotated) := Trust.apply_rotation t rotation in
  let_ok _ := rotated else e => Err (Trust e) ;;
  return_if negb (bool_decide (vk_to_bytes t.(Trust.current)
                               = vk_to_bytes material.(trusted_hub_key)))
    with Err CheckpointTrustMismatch ;;
  Ok t.

(** What [build] makes of the last checkpoint *)
Definition restored_service (loaded : result PersistenceError AgentPersistentState)
    : result AgentServiceError AgentService :=
  match loaded with
  | Ok state =>
      let_ok r := restore_with_runtime_safety state else e => Err (Persistence e) ;;
      return_if negb (bool_decide (r.(restored_device_id) = config.(device_id)))
        with Err CheckpointIdentityMismatch ;;
      let_ok hub := reconcile_trusted_hub r.(restored_hub) else e => Err e ;;
      Ok (mk_service hub (reconcile_grant_verifiers r.(restored_ledger)) r.(restored_gate)
            r.(restored_evidence) r.(restored_receipts) r.(restored_fail_closed) None)
  | Err PersistenceError.NoCheckpoint =>
      Ok (mk_service (Trust.new_trusted material.(trusted_hub_key))
            (reconcile_grant_verifiers (Grants.new_ledger material.(grant_verifier)))
            AgentGate.default_gate [] [] false None)
  | Err e => Err (Persistence e)
  end.

Definition new_ephemeral_store : result AgentServiceError
    (option AgentData.AgentEphemeralDataStore) :=
  match config.(ephemeral_data_parent) with
  | None => Ok None
  | Some _ =>
      let_ok s := AgentData.new_store AgentData.default_agent_limits
        else e => Err (EphemeralDataStartup e) ;; Ok (Some s)
  end.

Definition load_checkpoint : A (result PersistenceError AgentPersistentState) :=
  n ← effect;
  gets (λ t, match load_latest_with_sequence agent_checkpoints t.(world).(disk) (env.(env_io) n)
             with Ok (_, s) => Ok s | Err e => Err e end).

(** [AgentService::new] and [build]: the executors and the staging directories are made
    by code that may refuse. *)
Definition build : A unit :=
  lift id (validate_agent_config config);;
  match env.(env_executors) with Some e => fail e | None => mret tt end;;
  loaded ← load_checkpoint;
  s ← lift id (restored_service loaded);
  store ← lift id new_ephemeral_store;
  match env.(env_staging) with Some e => fail e | None => mret tt end;;
  on_agent (λ _, set_ephemeral s store);;
  persist_state.

(** ** What the Agent advertises *)

Definition native_capabilities : list DeviceCapability :=
  [DeviceCapability.ExecuteProcess; DeviceCapability.Shell; DeviceCapability.ManagedJobControl;
   DeviceCapability.ManagedJobObserve; DeviceCapability.ReadFile; DeviceCapability.ListDirectory]
  ++ (if workspace_mutation then [DeviceCapability.WriteWorkspaceFile] else [])
  ++ (if playwright
      then [DeviceCapability.PlaywrightTestControl; DeviceCapability.PlaywrightTestObserve]
      else [])
  ++ (if opt_some config.(ephemeral_data_parent)
      then [DeviceCapability.ReadProcessOutput] else []).

Definition add_capability (supported : list DeviceCapability) (c : DeviceCapability)
    : list DeviceCapability :=
  if bool_decide (c ∈ supported) then supported else supported ++ [c].

Definition capabilities : CapabilityAdvertisement :=
  let native := native_capabilities in
  let '(name, supported) :=
    match backend with
    | Some b => ("agent-native+" +:+ b.(CapabilityAdvertisement.backend),
                 foldl add_capability native b.(CapabilityAdvertisement.supported))
    | None => ("agent-native", native)
    end in
  CapabilityAdvertisement.mk name package_version platform CAPABILITY_SCHEMA_VERSION 8 supported.

(** ** The files of the recovery hand-off *)

Definition io_error {X} (fails : bool) (k : A X) : A X :=
  if fails then fail (OnlineRecovery RecoveryError.Io) else k.

Definition read_file {X} (f : RecoveryFiles → json_file X) : A (option X) :=
  n ← effect;
  io_error (env.(env_recovery_fails) n) (fs ← the_files;
    match f fs with
    | None => mret None
    | Some (Some x) => mret (Some x)
    | Some None => fail (OnlineRecovery RecoveryError.InvalidMessage)
    end).

Definition write_files (f : RecoveryFiles → RecoveryFiles) : A unit :=
  n ← effect;
  io_error (env.(env_recovery_fails) n) (on_files f).

Definition set_challenge (f : RecoveryFiles) x :=
  mk_files x f.(authorization_file) f.(resolved_file).
Definition set_authorization (f : RecoveryFiles) x :=
  mk_files f.(challenge_file) x f.(resolved_file).
Definition set_resolved (f : RecoveryFiles) x :=
  mk_files f.(challenge_file) f.(authorization_file) x.

Definition load_challenge : A (option RecoveryChallenge) := read_file challenge_file.
Definition load_authorization : A (option RecoveryAuthorization) := read_file authorization_file.
Definition store_challenge (c : RecoveryChallenge) : A unit :=
  write_files (λ f, set_challenge f (Some (Some c))).
Definition store_recovery_resolved (r : RecoveryResolved) : A unit :=
  write_files (λ f, set_resolved f (Some (Some r))).
Definition clear_recovery_resolved : A unit := write_files (λ f, set_resolved f None).
Definition clear_authorization : A unit := write_files (λ f, set_authorization f None).
Definition clear_challenge : A unit := write_files (λ f, set_challenge f None).
Definition clear_recovery_handoff : A unit := clear_challenge;; clear_authorization.

Definition persist_verified_recovery_completion (hub : VerifyingKey)
    (expected : RecoveryAuthorization) (resolved : RecoveryResolved) : A unit :=
  lift OnlineRecovery (Recovery.verify_recovery_resolved_for_authorization resolved hub expected);;
  store_recovery_resolved resolved;;
  clear_recovery_handoff.
End Agent.
End Agent.
