(* ===== verification/AgentSession.v ===== *)
(** * The sessions of the Agent

    [src/src/v2_m1_agent.rs]: the authenticated session of the Agent with a Hub, its
    loop with the handler of each event, the end of a session, and the life cycle of
    the process. The rules of the hand-off on commands are from
    [src/src/v2_operator_handoff.rs]. *)

From S2P Require Import Prelude Vocabulary Protocol Crypto Tombstone Admission Registry Grants.
From S2P Require Import SafetyTypes Recovery EphemeralRefs Evidence Transport AgentGate.
From S2P Require Import SessionRuntime Trust Persistence AgentErrors AgentWorker Agent.
Import Persistence Agent AgentServiceError.

Module AgentSession.

(** ** The hand-off's view of commands *)

Definition is_phase1_protected_command (c : DeviceCommand) : bool :=
  match c with
  | DeviceCommand.ExecuteProcess _ | DeviceCommand.Shell _ | DeviceCommand.ReadFile _ _ _
  | DeviceCommand.ListDirectory _ _ => false
  | _ => true
  end.

Definition pointer_window (t : PointerTarget) : option (N * N) :=
  match t with
  | PointerTarget.WindowPhysical p w _ _ => Some (p, w)
  | PointerTarget.Element p w _ => Some (p, w)
  | _ => None
  end.

Definition input_window (t : InputTarget) : option (N * N) :=
  match t with
  | InputTarget.Window p (Some w) => Some (p, w)
  | InputTarget.WindowPoint p w _ _ => Some (p, w)
  | InputTarget.Element p w _ => Some (p, w)
  | _ => None
  end.

Definition scroll_window (t : ScrollTarget) : option (N * N) :=
  match t with
  | ScrollTarget.Window p (Some w) => Some (p, w)
  | ScrollTarget.WindowPoint p w _ _ => Some (p, w)
  | _ => None
  end.

(** The context (before it is hashed), the process and the window *)
Definition exact_window_binding (c : DeviceCommand) : option (string * N * N) :=
  let within context (window : option (N * N)) :=
    match window with Some (p, w) => Some (context, p, w) | None => None end in
  match c with
  | DeviceCommand.InspectWindowContextual context p w _ _ _ _ => Some (context, p, w)
  | DeviceCommand.VerifyUiStateContextual context p w _ _ _ _ => Some (context, p, w)
  | DeviceCommand.PointerClickAdvanced (Some context) target _ _ _ _ _ =>
      within context (pointer_window target)
  | DeviceCommand.PointerDragAdvanced (Some context) from to _ _ _ _ _ =>
      let_some from := pointer_window from else None ;;
      let_some to := pointer_window to else None ;;
      if bool_decide (from = to) then Some (context, from.1, from.2) else None
  | DeviceCommand.TypeTextAdvanced (Some context) _ target _ _ =>
      within context (input_window target)
  | DeviceCommand.KeyboardInput (Some context) _ _ target _ =>
      within context (input_window target)
  | DeviceCommand.Scroll (Some context) _ _ _ target _ => within context (scroll_window target)
  | DeviceCommand.SetWindowFrame (Some context) p w _ => Some (context, p, w)
  | DeviceCommand.InvokeMenu (Some context) p w _ => Some (context, p, w)
  | DeviceCommand.SetUiValue context p w _ _ => Some (context, p, w)
  | DeviceCommand.CaptureRegion (Some context) p w _ => Some (context, p, w)
  | _ => None
  end.

Definition is_exact_verification_candidate (c : DeviceCommand) : bool :=
  match c with
  | DeviceCommand.VerifyUiStateContextual _ _ _ _ _ _ false => opt_some (exact_window_binding c)
  | _ => false
  end.

Inductive SessionExit := Reconnect | Shutdown.

(** A message of the inbound stream: an error status, the end of the stream, a frame
    that does not decode, or a message. *)
Definition inbound : Type := result StatusCode (option (option HubToAgent)).

(** The branches of [select!], and what the local user does to the files of the recovery
    hand-off. *)
Inductive Event :=
| ShutdownChanged (closed_or_true : bool)
| SafetyPoll
| HeartbeatTick
| OperationDone
| RecoveryPoll
| Inbound (m : inbound)
| LocalUser (files : RecoveryFiles).

Section Session.
Context `{ED : Ed25519} `{TS : RotationSerializer} `{HI : HashIter} `{SU : !AgentSetup}
  `{CJ : CheckpointJson AgentPersistentState} `{WJ : WireJson} `{GS : GrantSerializer}
  `{SHA : Sha256}.

Definition instant : A N := n ← effect; mret (env.(env_instant) n).

(** ** The session's own state *)

Definition with_active (s : AgentSession) a w := mk_session a w s.(heartbeat_sequence)
  s.(pending_heartbeat) s.(pending_backend_session_ends) s.(pending_recovery_request).
Definition with_heartbeat (s : AgentSession) n p := mk_session s.(active) s.(worker) n p
  s.(pending_backend_session_ends) s.(pending_recovery_request).
Definition with_ends (s : AgentSession) x := mk_session s.(active) s.(worker)
  s.(heartbeat_sequence) s.(pending_heartbeat) x s.(pending_recovery_request).
Definition with_request (s : AgentSession) x := mk_session s.(active) s.(worker)
  s.(heartbeat_sequence) s.(pending_heartbeat) s.(pending_backend_session_ends) x.

(** What the handlers of a session know about it. *)
Record Context_ := mk_context {
  hello : AgentHello;
  challenge : HubChallenge;
  device : DeviceSession;
  hub_time_ms : N
}.

(** [started] is the instant at which the trusted clock of the session was made. *)
Section Handlers.
Variables (ctx : Context_) (started : N).

#[local] Abbreviation generation := (ctx.(device).(DeviceSession.generation)).
#[local] Abbreviation this_device := (ctx.(device).(DeviceSession.device_id)).
#[local] Abbreviation revision :=
  (ctx.(device).(DeviceSession.capabilities).(CapabilityAdvertisement.revision)).
#[local] Abbreviation fence := (mk_fence this_device generation revision).
#[local] Abbreviation identity := material.(device_identity).

(** [trusted_clock.now_ms()] *)
Definition now_ms : A N :=
  now ← instant;
  mret (Transport.session_now_ms ctx.(hub_time_ms) (Runtime.as_millis (now - started))).

Definition hub_verifier : A VerifyingKey :=
  s ← the_agent; mret s.(trusted_hub).(Trust.current).

Definition record_evidence (o : ActiveOperation) (r : DeviceResult) : A unit :=
  s ← the_agent;
  journal ← lift id (record_terminal_evidence s.(terminal_evidence) this_device o r);
  on_agent (λ s, set_evidence s journal).

Definition record_receipt (r : BackendExecutionReceipt) : A unit :=
  s ← the_agent;
  journals ← lift id (record_backend_execution_receipt s.(backend_execution_receipts)
                        s.(terminal_evidence) r);
  on_agent (λ s, set_journals s journals.1 journals.2).

Definition send_terminal_result (operation_id : string) (r : DeviceResult) : A unit :=
  signed ← lift Protocol (Transport.build_remote_result ctx.(hello) ctx.(challenge) identity
             (CommandResultEnvelope.mk CONTROL_SCHEMA_VERSION this_device generation revision
                operation_id r));
  send_agent (AgentToHub.Result signed).

(** ** Workers *)

(** The worker ends and reports. *)
Definition worker_completion (w : Worker) : A AgentOperationOutcome :=
  n ← effect;
  s ← the_agent;
  let '(store, outcome) := AgentWorker.run_worker (env.(env_answers) n) s.(ephemeral_data)
    playwright workspace_mutation w.(worker_context) w.(worker_command) in
  on_agent (λ s, set_ephemeral s store);;
  on_history (λ h, mk_history h.(sessions) h.(spawned)
                     (h.(completed) ++ [(w.(worker_context), outcome)]) h.(refused));;
  mret outcome.

(** [completion.operation_id], [completion.device_generation] *)
Definition completes (w : Worker) (o : ActiveOperation) : bool :=
  let r := w.(worker_context).(BackendExecutionReceiptContext.operation) in
  bool_decide (r.(OperationRef.operation_id) = o.(operation_id))
  && (r.(OperationRef.device_generation) =? o.(device_generation))%N.

Definition signal_cancellation (w : Worker) : Worker :=
  mk_worker w.(worker_command) w.(worker_context) true.

(** [active.take()] and the rest. The channel of the workers is open as long as the
    session is, so that a missing worker cannot be noticed but by the timeout. *)
Definition terminate_active : A unit :=
  s ← the_session;
  match s.(active) with
  | None => mret tt
  | Some o =>
      on_session (λ s, with_active s None None);;
      n ← effect;
      match s.(worker) with
      | None => fail OperationTerminationTimeout
      | Some w =>
          if env.(env_termination_timeout) n then fail OperationTerminationTimeout else
          outcome ← worker_completion (match o.(cancellation) with
                                       | NoCancellation => w
                                       | _ => signal_cancellation w
                                       end);
          if negb (completes w o) then fail OperationStateMismatch else
          match outcome with
          | AgentOperationOutcome.Result r =>
              record_evidence o (AgentErrors.normalized_device_result r)
          | AgentOperationOutcome.BackendReceipt r => record_receipt r
          | AgentOperationOutcome.Indeterminate _ => mret tt
          end;;
          on_gate (λ g, AgentGate.abandon_on_disconnect g o.(operation_id))
      end
  end.

(** ** Ends of interaction sessions *)

Definition end_backend_session (r : RemoteBackendSessionEnd) : A unit :=
  n ← effect;
  let c := r.(RemoteBackendSessionEnd.context_id) in
  let staging_ended := is_ok (env.(env_upload_cleanup) n (Some c)) in
  let download_staging_ended := is_ok (env.(env_download_cleanup) n (Some c)) in
  let backend_ended := match backend with
                       | Some _ => is_ok (env.(env_end_interaction_session) n c)
                       | None => true
                       end in
  ack ← lift Protocol (Transport.build_remote_backend_session_ended ctx.(hello) ctx.(challenge)
          identity r (staging_ended && download_staging_ended && backend_ended));
  send_agent (AgentToHub.BackendSessionEnded ack).

Fixpoint drain (pending : list RemoteBackendSessionEnd) : A unit :=
  match pending with
  | [] => mret tt
  | r :: pending =>
      on_session (λ s, with_ends s pending);;
      end_backend_session r;;
      drain pending
  end.

Definition drain_backend_session_ends : A unit :=
  s ← the_session; drain s.(pending_backend_session_ends).

(** ** Events *)

Definition handle_shutdown (closed_or_true : bool) : A (option SessionExit) :=
  if closed_or_true then terminate_active;; persist_state;; mret (Some Shutdown)
  else mret None.

(** [self.managed_job_fail_closed = true], and what follows *)
Definition fail_closed {X} : A X :=
  on_agent set_fail_closed;; persist_state;; fail ManagedJobFailClosed.

Definition handle_safety_poll : A (option SessionExit) :=
  n ← effect;
  jobs ← lift ManagedJob (env.(env_jobs_indeterminate) n);
  tests ← (if playwright then lift PlaywrightSandbox (env.(env_tests_indeterminate) n)
           else mret false);
  if jobs || tests
  then fail_closed else mret None.

(** [interval.saturating_mul(3)], of a [Duration] *)
Definition heartbeat_deadline : N :=
  N.min (config.(heartbeat_interval) * 3) (u64_max * 1000000000 + 999999999).

Definition handle_heartbeat_tick : A (option SessionExit) :=
  now ← instant;
  s ← the_session;
  match s.(pending_heartbeat) with
  | Some (_, sent) =>
      if (heartbeat_deadline <=? now - sent)%N
      then terminate_active;; persist_state;; mret (Some Reconnect)
      else mret None
  | None =>
      let sequence := saturating_add s.(heartbeat_sequence) 1 in
      on_session (λ s, with_heartbeat s sequence s.(pending_heartbeat));;
      m ← lift Protocol (Transport.build_agent_heartbeat ctx.(hello) ctx.(challenge) identity
            generation sequence);
      send_agent (AgentToHub.Heartbeat m);;
      sent ← instant;
      on_session (λ s, with_heartbeat s sequence (Some (sequence, sent)));;
      mret None
  end.

Definition verification_reported (authority : RemoteHandoffAuthority)
    (token : VerificationToken) (satisfied : bool) : A bool :=
  if handoff
  then consult (λ n, env.(env_verification_reported) n authority token satisfied fence)
         (Reported authority token satisfied fence)
  else mret false.

Definition verified_result (reported : bool) (r : DeviceResult) : DeviceResult :=
  match r with
  | DeviceResult.Error DeviceErrorCode.BackendOutcomeIndeterminate => r
  | _ => if reported then r
         else DeviceResult.Error DeviceErrorCode.HandoffVerificationUnavailable
  end.

(** A verification for the hand-off is reported to its coordinator. *)
Definition report_verification (o : ActiveOperation) (r : DeviceResult) : A DeviceResult :=
  match o.(handoff_verification) with
  | None => mret r
  | Some (authority, token) =>
      let satisfied := match r with
                       | DeviceResult.UiStateVerification VerificationStatus.Satisfied _ _ _ _ =>
                           true
                       | _ => false
                       end in
      reported ← verification_reported authority token satisfied;
      mret (verified_result reported r)
  end.

Definition handle_result (o : ActiveOperation) (r : result AgentOperationError DeviceResult)
    : A (option SessionExit) :=
  device_result ← report_verification o (AgentErrors.normalized_device_result r);
  record_evidence o device_result;;
  persist_state;;
  send_terminal_result o.(operation_id) device_result;;
  drain_backend_session_ends;;
  mret None.

Definition handle_indeterminate (o : ActiveOperation) (cause : AgentIndeterminateCause)
    : A (option SessionExit) :=
  persist_state;;
  match cause with
  | AgentIndeterminateCause.CancellationPropagated => drain_backend_session_ends;; mret None
  | AgentIndeterminateCause.BackendTimedOut =>
      ack ← lift Protocol (Transport.build_remote_indeterminate_ack ctx.(hello) ctx.(challenge)
              identity generation o.(operation_id) RemoteIndeterminateCause.BackendTimedOut);
      send_agent (AgentToHub.IndeterminateAck ack);;
      mret (Some Reconnect)
  | _ => mret (Some Reconnect)
  end.

(** [operation_done_rx.recv(), if active.is_some()] *)
Definition handle_operation_done : A (option SessionExit) :=
  s ← the_session;
  match s.(active), s.(worker) with
  | Some o, Some w =>
      outcome ← worker_completion w;
      on_session (λ s, with_active s None None);;
      if negb (completes w o) || negb (o.(device_generation) =? generation)%N
      then fail OperationStateMismatch else
      on_gate (λ g, AgentGate.finish g o.(operation_id));;
      match outcome with
      | AgentOperationOutcome.Result r => handle_result o r
      | AgentOperationOutcome.BackendReceipt r =>
          record_receipt r;; persist_state;; mret (Some Reconnect)
      | AgentOperationOutcome.Indeterminate cause => handle_indeterminate o cause
      end
  | _, _ => mret None
  end.

Definition handle_recovery_poll : A (option SessionExit) :=
  s ← the_session;
  if opt_some s.(pending_recovery_request) then mret None else
  authorization ← load_authorization;
  match authorization with
  | None => mret None
  | Some authorization =>
      challenge ← load_challenge;
      match challenge with
      | None => clear_authorization;; mret None
      | Some challenge =>
          now ← now_ms;
          match Recovery.validate_authorization_against_challenge challenge authorization now with
          | Err _ => clear_authorization;; mret None
          | Ok _ =>
              clear_recovery_resolved;;
              send_agent (AgentToHub.RecoveryAuthorization authorization);;
              on_session (λ s, with_request s (Some authorization));;
              mret None
          end
      end
  end.

(** ** Messages *)

Definition handle_handoff_request (m : RemoteHandoffRequest) : A unit :=
  hub ← hub_verifier;
  lift Protocol (Transport.verify_remote_handoff_request ctx.(hello) ctx.(challenge) m hub);;
  if negb (m.(RemoteHandoffRequest.device_generation) =? generation)%N
  then fail (Control (ControlError.StaleDeviceGeneration generation
                        m.(RemoteHandoffRequest.device_generation))) else
  s ← the_session;
  let request := m.(RemoteHandoffRequest.request) in
  response ← (if requires_agent_idle request && opt_some s.(active)
              then mret (RemoteHandoffResponseKind.Rejected RemoteHandoffErrorCode.Rejected)
              else if handoff
              then consult (λ n, env.(env_handle_remote) n request fence) (Requested request fence)
              else mret (RemoteHandoffResponseKind.Rejected RemoteHandoffErrorCode.Unsupported));
  signed ← lift Protocol (Transport.build_remote_handoff_response ctx.(hello) ctx.(challenge)
             identity this_device generation m.(RemoteHandoffRequest.request_id) response);
  send_agent (AgentToHub.HandoffResponse signed).

Definition handle_heartbeat_ack (m : HubHeartbeatAck) : A unit :=
  hub ← hub_verifier;
  lift Protocol (Transport.verify_hub_heartbeat_ack ctx.(hello) ctx.(challenge) m hub);;
  s ← the_session;
  match s.(pending_heartbeat) with
  | None => fail HeartbeatAckMismatch
  | Some (expected, _) =>
      if negb (m.(HubHeartbeatAck.device_generation) =? generation)%N
         || negb (m.(HubHeartbeatAck.sequence) =? expected)%N
      then fail HeartbeatAckMismatch
      else on_session (λ s, with_heartbeat s s.(heartbeat_sequence) None)
  end.

Definition handle_recovery_challenge (c : RecoveryChallenge) : A unit :=
  hub ← hub_verifier;
  now ← now_ms;
  lift OnlineRecovery (Recovery.verify_recovery_challenge c hub this_device generation now);;
  clear_authorization;;
  store_challenge c;;
  on_session (λ s, with_request s None).

Definition handle_recovery_resolved (r : RecoveryResolved) : A unit :=
  s ← the_session;
  expected ← ok_or RecoveryResultMismatch s.(pending_recovery_request);
  hub ← hub_verifier;
  persist_verified_recovery_completion hub expected r;;
  on_session (λ s, with_request s None).

Definition handle_backend_session_end (m : RemoteBackendSessionEnd) : A unit :=
  hub ← hub_verifier;
  lift Protocol (Transport.verify_remote_backend_session_end ctx.(hello) ctx.(challenge) m hub);;
  if negb (m.(RemoteBackendSessionEnd.device_generation) =? generation)%N
  then fail (Control (ControlError.StaleDeviceGeneration generation
                        m.(RemoteBackendSessionEnd.device_generation))) else
  on_session (λ s, with_ends s (s.(pending_backend_session_ends) ++ [m]));;
  s ← the_session;
  if opt_none s.(active) then drain_backend_session_ends else mret tt.

(** *** Commands *)

(** The final decision of the hand-off: a code with which the command is refused, or the
    verification that the command is part of. *)
Definition handoff_decision (m : RemoteCommand)
    : A (result DeviceErrorCode (option (RemoteHandoffAuthority * VerificationToken))) :=
  let command := m.(RemoteCommand.command).(CommandEnvelope.command) in
  if negb (is_phase1_protected_command command) then mret (Ok None) else
  match handoff, m.(RemoteCommand.handoff) with
  | true, Some authority =>
      answer ← consult (λ n, env.(env_final_admit) n authority command fence)
                 (Asked authority command fence);
      mret match answer with
           | Some Allow => Ok None
           | Some (Verification token) =>
               if is_exact_verification_candidate command then Ok (Some (authority, token))
               else Err DeviceErrorCode.HandoffAuthoritySuspended
           | Some Deny => Err DeviceErrorCode.HandoffAuthoritySuspended
           | None => Err DeviceErrorCode.HandoffRuntimeUnavailable
           end
  | true, None | false, Some _ => mret (Err DeviceErrorCode.HandoffRuntimeUnavailable)
  | false, None => mret (Ok None)
  end.

Definition operation_of (m : RemoteCommand) : OperationRef :=
  OperationRef.mk this_device generation m.(RemoteCommand.command).(CommandEnvelope.operation_id).

Definition active_of (m : RemoteCommand)
    (verification : option (RemoteHandoffAuthority * VerificationToken))
    (c : ActiveCancellation) : ActiveOperation :=
  let e := m.(RemoteCommand.command) in
  mk_active e.(CommandEnvelope.operation_id) generation e.(CommandEnvelope.capability_revision)
    (capability e.(CommandEnvelope.command))
    m.(RemoteCommand.grant).(GrantToken.payload).(GrantPayload.grant_id) verification c.

Definition refuse_command (m : RemoteCommand) (code : DeviceErrorCode) : A unit :=
  let id := m.(RemoteCommand.command).(CommandEnvelope.operation_id) in
  on_gate (λ g, AgentGate.finish g id);;
  on_history (λ h, mk_history h.(sessions) h.(spawned) h.(completed)
                     (operation_of m :: h.(refused)));;
  record_evidence (active_of m None NoCancellation) (DeviceResult.Error code);;
  persist_state;;
  send_terminal_result id (DeviceResult.Error code).

(** What the worker of a command may be told to do about a cancellation *)
Definition cancellation_of (c : DeviceCommand) : ActiveCancellation :=
  match c with
  | DeviceCommand.ExecuteProcess _ | DeviceCommand.Shell _ => CancelProcess
  | c => if AgentWorker.is_computer_use c then CancelBackend else NoCancellation
  end.

(** [receipt_context]; only the commands of a backend have one in the source. *)
Definition receipt_context (m : RemoteCommand) : BackendExecutionReceiptContext :=
  let c := m.(RemoteCommand.command).(CommandEnvelope.command) in
  let '(name, version) :=
    match backend with
    | Some b => (b.(CapabilityAdvertisement.backend), b.(CapabilityAdvertisement.backend_version))
    | None => ("", "")
    end in
  BackendExecutionReceiptContext.mk (operation_of m) revision (capability c)
    m.(RemoteCommand.grant).(GrantToken.payload).(GrantPayload.grant_id) name version
    (target_binding_for_command c).

Definition spawn_worker (m : RemoteCommand)
    (verification : option (RemoteHandoffAuthority * VerificationToken)) : A unit :=
  let c := m.(RemoteCommand.command).(CommandEnvelope.command) in
  if AgentWorker.is_computer_use c && opt_none backend then fail UnsupportedCommand else
  effect;;
  on_history (λ h, mk_history h.(sessions) ((operation_of m, m) :: h.(spawned)) h.(completed)
                     h.(refused));;
  on_session (λ s, with_active s (Some (active_of m verification (cancellation_of c)))
                     (Some (mk_worker c (receipt_context m) false))).

Definition authorize_command (m : RemoteCommand) : A unit :=
  hub ← hub_verifier;
  lift Protocol (Transport.verify_remote_command ctx.(hello) ctx.(challenge) m hub);;
  lift Control (validate_command_session m.(RemoteCommand.command) ctx.(device));;
  now ← now_ms;
  s ← the_agent;
  let '(ledger, authorized) := Grants.authorize_device_capability_once s.(grants)
    m.(RemoteCommand.grant) this_device
    (capability m.(RemoteCommand.command).(CommandEnvelope.command)) now in
  on_agent (λ s, set_grants s ledger);;
  lift Control authorized.

Definition handle_command (m : RemoteCommand) : A unit :=
  authorize_command m;;
  persist_state;;
  s ← the_session;
  if opt_some s.(active) then fail AgentBusy else
  on_gate (λ g, AgentGate.begin g (operation_of m));;
  persist_state;;
  decision ← handoff_decision m;
  match decision with
  | Err code => refuse_command m code
  | Ok verification => spawn_worker m verification
  end.

Definition handle_cancel (m : RemoteCancel) : A unit :=
  hub ← hub_verifier;
  lift Protocol (Transport.verify_remote_cancel ctx.(hello) ctx.(challenge) m hub);;
  if negb (m.(RemoteCancel.device_generation) =? generation)%N then fail CancellationMismatch else
  s ← the_session;
  match s.(active) with
  | None => fail CancellationMismatch
  | Some o =>
      if negb (bool_decide (o.(operation_id) = m.(RemoteCancel.operation_id)))
      then fail CancellationMismatch else
      on_gate (λ g, AgentGate.request_agent_cancel g m.(RemoteCancel.operation_id));;
      persist_state;;
      (match o.(cancellation) with
       | NoCancellation => mret tt
       | _ => on_session (λ s, with_active s s.(active) (signal_cancellation <$> s.(worker)))
       end);;
      let disposition := match o.(cancellation) with
                         | CancelProcess => CancellationDisposition.CancellationRequested
                         | _ => CancellationDisposition.IndeterminateAfterPropagation
                         end in
      ack ← lift Protocol (Transport.build_remote_cancellation_ack ctx.(hello) ctx.(challenge)
              identity m disposition);
      send_agent (AgentToHub.CancellationAck ack)
  end.

Definition handle_message (m : HubToAgent) : A unit :=
  match m with
  | HubToAgent.HandoffRequest m => handle_handoff_request m
  | HubToAgent.HeartbeatAck m => handle_heartbeat_ack m
  | HubToAgent.RecoveryChallenge c => handle_recovery_challenge c
  | HubToAgent.RecoveryResolved r => handle_recovery_resolved r
  | HubToAgent.BackendSessionEnd m => handle_backend_session_end m
  | HubToAgent.Command m => handle_command m
  | HubToAgent.Cancel m => handle_cancel m
  | other => fail (UnexpectedMessage "session_message" (Transport.hub_message_kind other))
  end.

Definition handle_inbound (m : inbound) : A (option SessionExit) :=
  match m with
  | Err c => fail (Status c)
  | Ok None => terminate_active;; persist_state;; mret (Some Reconnect)
  | Ok (Some None) => fail Carrier
  | Ok (Some (Some m)) => handle_message m;; mret None
  end.

Definition handle_event (e : Event) : A (option SessionExit) :=
  match e with
  | ShutdownChanged b => handle_shutdown b
  | SafetyPoll => handle_safety_poll
  | HeartbeatTick => handle_heartbeat_tick
  | OperationDone => handle_operation_done
  | RecoveryPoll => handle_recovery_poll
  | Inbound m => handle_inbound m
  | LocalUser files => on_files (λ _, files);; mret None
  end.

(** The loop runs for ever or until a handler leaves it; the events of a run that was
    observed up to some point end with the death of the process. *)
Fixpoint session_loop (events : list Event) : A SessionExit :=
  match events with
  | [] => crash_now
  | e :: events =>
      exit ← handle_event e;
      match exit with Some exit => mret exit | None => session_loop events end
  end.

Definition run_session_loop (events : list Event) : A SessionExit :=
  r ← attempt (session_loop events);
  match r with
  | Ok exit => mret exit
  | Err e =>
      s ← the_session;
      (if opt_some s.(active) then terminate_active;; persist_state else mret tt);;
      fail e
  end.
End Handlers.

(** ** One session *)

Record SessionInputs := mk_inputs {
  agent_nonce : list N;
  opened : option StatusCode;
  first : inbound;
  second : inbound;
  events : list Event
}.

Definition next_hub (m : inbound) : A HubToAgent :=
  match m with
  | Err c => fail (Status c)
  | Ok None => fail InboundClosed
  | Ok (Some None) => fail Carrier
  | Ok (Some (Some m)) => mret m
  end.

Definition unexpected_hub_message {X} (expected : string) (m : HubToAgent) : A X :=
  fail (UnexpectedMessage expected (Transport.hub_message_kind m)).

(** The handshake, up to the Hub's acceptance *)
Definition open_session (i : SessionInputs) : A Context_ :=
  match i.(opened) with Some c => fail (Status c) | None => mret tt end;;
  let hello := Transport.new_hello config.(device_id) capabilities i.(agent_nonce) in
  send_agent (AgentToHub.Hello hello);;
  m ← next_hub i.(first);
  challenge ← (match m with
               | HubToAgent.Challenge c => mret c
               | m => unexpected_hub_message "challenge" m
               end);
  hub ← hub_verifier;
  lift Protocol (Transport.verify_hub_challenge hello challenge hub);;
  proof ← lift Protocol (Transport.build_agent_proof material.(device_identity) hello challenge);
  send_agent (AgentToHub.Proof proof);;
  m ← next_hub i.(second);
  accepted ← (match m with
              | HubToAgent.Accepted a => mret a
              | m => unexpected_hub_message "accepted" m
              end);
  lift Protocol (Transport.verify_session_accepted hello challenge accepted hub);;
  mret (mk_context hello challenge
          (DeviceSession.mk config.(device_id) accepted.(SessionAccepted.device_generation)
             hello.(AgentHello.capabilities)) accepted.(SessionAccepted.hub_time_ms)).

(** The generation is on disk before any work is accepted. *)
Definition prepare_session (ctx : Context_) : A unit :=
  let generation := ctx.(device).(DeviceSession.generation) in
  on_gate (λ g, AgentGate.prepare_generation g generation);;
  persist_state;;
  s ← the_agent;
  report ← lift Protocol (Transport.build_remote_reconciliation_report ctx.(hello)
             ctx.(challenge) material.(device_identity) generation s.(terminal_evidence));
  send_agent (AgentToHub.ReconciliationReport report);;
  n ← effect;
  lift BrowserUploadStaging (env.(env_upload_cleanup) n None);;
  lift BrowserDownloadStaging (env.(env_download_cleanup) n None);;
  clear_recovery_handoff.

Definition enter_session (ctx : Context_) : A unit :=
  s ← the_agent;
  if s.(managed_job_fail_closed) then fail ManagedJobFailClosed else
  on_history (λ h, mk_history (ctx.(device).(DeviceSession.generation) :: h.(sessions))
                     h.(spawned) h.(completed) h.(refused));;
  prepare_session ctx.

(** After the loop the managed jobs are terminated, or the Agent fails closed. *)
Definition end_session (r : result AgentServiceError SessionExit) : A SessionExit :=
  n ← effect;
  match env.(env_jobs_shut_down) n with
  | None => fail ManagedJobFailClosed
  | Some (jobs, tests) =>
      if negb jobs || negb tests
      then fail_closed else lift id r
  end.

Definition run_authenticated_session (i : SessionInputs) : A SessionExit :=
  ctx ← open_session i;
  enter_session ctx;;
  started ← instant;
  on_session (λ _, new_session);;
  r ← attempt (run_session_loop ctx started i.(events));
  end_session r.

(** ** The life cycle of the process *)

(** What one turn of the loop meets: whether shutdown was requested before it or while
    it sleeps, and the session if the Hub can be reached. *)
Record Turn := mk_turn {
  shutdown_before : bool;
  connection : option SessionInputs;
  shutdown_asleep : bool
}.

Definition connect_and_run (t : Turn) : A SessionExit :=
  match t.(connection) with
  | None => fail Transport
  | Some i => run_authenticated_session i
  end.

Fixpoint run_connected_lifecycle (failures : N) (turns : list Turn) : A unit :=
  match turns with
  | [] => crash_now
  | t :: turns =>
      if t.(shutdown_before) then mret tt else
      r ← attempt (connect_and_run t);
      match r with
      | Ok Shutdown => mret tt
      | Ok Reconnect =>
          if t.(shutdown_asleep) then mret tt else run_connected_lifecycle 0 turns
      | Err e =>
          if negb (reconnectable e) then fail e else
          let failures := N.min (failures + 1) u32_max in
          if (config.(reconnect).(Runtime.max_attempts) <=? failures)%N then fail e else
          lift (λ _, ReconnectExhausted)
            (Runtime.delay_for_attempt config.(reconnect) (failures - 1));;
          if t.(shutdown_asleep) then mret tt else run_connected_lifecycle failures turns
      end
  end.

Definition run (turns : list Turn) : A unit :=
  (match backend with
   | Some _ => n ← effect; lift Backend (env.(env_backend_connects) n)
   | None => mret tt
   end);;
  r ← attempt (run_connected_lifecycle 0 turns);
  match backend with
  | Some _ =>
      n ← effect;
      match r with
      | Ok _ => lift Backend (env.(env_backend_shuts_down) n)
      | Err e => fail e
      end
  | None => lift id r
  end.

(** A process from its start *)
Definition process (turns : list Turn) : A unit := build;; run turns.
End Session.
End AgentSession.
