(* ===== verification/HandoffRuntime.v ===== *)
(** * The hand-off runtime of a device

    [src/src/v2_operator_handoff.rs]: the managed runtime is a child process that owns the
    hand-off between an agent and a human; this is the side that asks it over a pipe,
    one JSON line per request, and that stops it at the first fault. What the child
    answers is an argument of the model, and its JSON the class [HandoffJson]. *)

From S2P Require Import Prelude Vocabulary Protocol Crypto Trust Recovery Transport Agent AgentSession.

Module ExactWindowBinding.
Record ExactWindowBinding := mk {
  context_binding : string;
  process_id : N;
  window_id : N
}.
#[global] Instance ExactWindowBinding_eq_dec : EqDecision ExactWindowBinding.
Proof. solve_decision. Defined.
End ExactWindowBinding.
Abbreviation ExactWindowBinding := ExactWindowBinding.ExactWindowBinding.

Module AgentAuthorityRequest.
Record AgentAuthorityRequest := mk {
  principal_binding : string;
  device_binding : string;
  generation : N;
  capability_revision : N;
  exact_window : option ExactWindowBinding;
  verification_candidate : bool
}.
End AgentAuthorityRequest.
Abbreviation AgentAuthorityRequest := AgentAuthorityRequest.AgentAuthorityRequest.

Module VerificationReport.
Record VerificationReport := mk {
  authority : AgentAuthorityRequest;
  token : Agent.VerificationToken;
  satisfied : bool
}.
End VerificationReport.
Abbreviation VerificationReport := VerificationReport.VerificationReport.

Module HandoffRuntimeStatus.
Record HandoffRuntimeStatus := mk {
  active : option HandoffActiveStatus;
  recovery_required : bool;
  recovery_status : option HandoffInterventionStatus;
  recovery_epoch : option N;
  recovery_expired : bool;
  resume_requested : bool;
  faulted : bool;
  human_surface : option HandoffSurfaceKind;
  locator : option string
}.
End HandoffRuntimeStatus.
Abbreviation HandoffRuntimeStatus := HandoffRuntimeStatus.HandoffRuntimeStatus.

Module HandoffRuntimeControl.
Inductive HandoffRuntimeControl :=
| Begin (authority : AgentAuthorityRequest)
| RecoverReissue (authority : AgentAuthorityRequest)
| RecoverRebind (authority : AgentAuthorityRequest) (prior_context_id : string)
    (prior_generation prior_capability_revision : option N)
| RebindLive (authority : AgentAuthorityRequest)
| AbandonExpiredRecovery (expected_epoch : N)
| RequestResume (intervention_id : string) (epoch : N)
| CancelBeforeHuman (intervention_id : string) (epoch : N).
End HandoffRuntimeControl.
Abbreviation HandoffRuntimeControl := HandoffRuntimeControl.HandoffRuntimeControl.

Module HandoffControlError.
Inductive HandoffControlError := Unavailable | Rejected | Protocol.
End HandoffControlError.
Abbreviation HandoffControlError := HandoffControlError.HandoffControlError.

Module OperatorHandoffError.
Inductive OperatorHandoffError := Unavailable | Protocol | Unsupported.
End OperatorHandoffError.
Abbreviation OperatorHandoffError := OperatorHandoffError.OperatorHandoffError.

(** ** Terminals *)

Module TerminalPtyHandoffBinding.
Record TerminalPtyHandoffBinding := mk {
  session_id : string;
  session_generation : N;
  principal_binding : string
}.
End TerminalPtyHandoffBinding.
Abbreviation TerminalPtyHandoffBinding := TerminalPtyHandoffBinding.TerminalPtyHandoffBinding.

Module TerminalPtyHandoffControl.
Inductive TerminalPtyHandoffControl :=
| Bind (binding : TerminalPtyHandoffBinding)
| Status
| AgentInput (binding : TerminalPtyHandoffBinding)
| AgentObserve (binding : TerminalPtyHandoffBinding)
| AgentResize (binding : TerminalPtyHandoffBinding)
| BeginFence (binding : TerminalPtyHandoffBinding)
| ClaimHuman (binding : TerminalPtyHandoffBinding) (intervention_id : string) (epoch : N)
| HumanInput (binding : TerminalPtyHandoffBinding) (intervention_id : string) (epoch : N)
| HumanObserve (binding : TerminalPtyHandoffBinding) (intervention_id : string) (epoch : N)
| HumanResize (binding : TerminalPtyHandoffBinding) (intervention_id : string) (epoch : N)
| HumanDisconnect (binding : TerminalPtyHandoffBinding) (intervention_id : string) (epoch : N)
| DoneFence (binding : TerminalPtyHandoffBinding) (intervention_id : string) (epoch : N)
| ConfirmHumanDrain (binding : TerminalPtyHandoffBinding) (intervention_id : string) (epoch : N)
| Verify (binding : TerminalPtyHandoffBinding) (intervention_id : string) (epoch : N)
    (satisfied : bool)
| Resume (binding : TerminalPtyHandoffBinding) (intervention_id : string) (epoch : N)
| AckStateSync (binding : TerminalPtyHandoffBinding)
| SessionExit (binding : TerminalPtyHandoffBinding)
| ReleaseClosed (binding : TerminalPtyHandoffBinding).
End TerminalPtyHandoffControl.
Abbreviation TerminalPtyHandoffControl := TerminalPtyHandoffControl.TerminalPtyHandoffControl.

Module TerminalPtyExecutionAuthority.
Inductive TerminalPtyExecutionAuthority := Agent | Human | NoAuthority.
#[global] Instance TerminalPtyExecutionAuthority_eq_dec : EqDecision TerminalPtyExecutionAuthority.
Proof. solve_decision. Defined.
End TerminalPtyExecutionAuthority.
Abbreviation TerminalPtyExecutionAuthority :=
  TerminalPtyExecutionAuthority.TerminalPtyExecutionAuthority.

Module TerminalPtyHandoffStatus.
Record TerminalPtyHandoffStatus := mk {
  authority : TerminalPtyExecutionAuthority;
  intervention_status : option HandoffInterventionStatus;
  intervention_epoch : option N;
  session_generation : N;
  session_alive : bool;
  human_disconnected : bool;
  agent_state_synchronization_required : bool
}.
End TerminalPtyHandoffStatus.
Abbreviation TerminalPtyHandoffStatus := TerminalPtyHandoffStatus.TerminalPtyHandoffStatus.

Module TerminalPtyInterventionRef.
Record TerminalPtyInterventionRef := mk {
  intervention_id : string;
  epoch : N;
  status : HandoffInterventionStatus
}.
End TerminalPtyInterventionRef.
Abbreviation TerminalPtyInterventionRef := TerminalPtyInterventionRef.TerminalPtyInterventionRef.

Module TerminalPtyResumeReceipt.
Record TerminalPtyResumeReceipt := mk {
  epoch : N;
  session_alive : bool;
  agent_state_sync_required : bool
}.
End TerminalPtyResumeReceipt.
Abbreviation TerminalPtyResumeReceipt := TerminalPtyResumeReceipt.TerminalPtyResumeReceipt.

Module TerminalPtyHandoffResult.
Inductive TerminalPtyHandoffResult :=
| Done
| Status (status : option TerminalPtyHandoffStatus)
| Transition (reference : TerminalPtyInterventionRef)
| Resume (receipt : TerminalPtyResumeReceipt).
End TerminalPtyHandoffResult.
Abbreviation TerminalPtyHandoffResult := TerminalPtyHandoffResult.TerminalPtyHandoffResult.

Module TerminalPtyTransportStatus.
Record TerminalPtyTransportStatus := mk {
  transport_ready : bool;
  human_active : bool;
  disconnected : bool;
  completed : bool;
  faulted : bool;
  queued_events : N
}.
End TerminalPtyTransportStatus.
Abbreviation TerminalPtyTransportStatus := TerminalPtyTransportStatus.TerminalPtyTransportStatus.

Module TerminalPtyTransportEvent.
Inductive TerminalPtyTransportEvent :=
| Input (bytes : list N)
| Resize (rows cols : N)
| Done.
End TerminalPtyTransportEvent.
Abbreviation TerminalPtyTransportEvent := TerminalPtyTransportEvent.TerminalPtyTransportEvent.

(** ** The requests on the pipe *)

Module ManagedWireAuthority.
Record ManagedWireAuthority := mk {
  protocol : N;
  principal_binding : string;
  device_binding : string;
  generation : N;
  capability_revision : N;
  exact_window : ExactWindowBinding;
  verification_candidate : bool
}.
End ManagedWireAuthority.
Abbreviation ManagedWireAuthority := ManagedWireAuthority.ManagedWireAuthority.

Module ManagedWireControlRequest.
Inductive ManagedWireControlRequest :=
| Status
| Begin (authority : ManagedWireAuthority)
| RecoverReissue (authority : ManagedWireAuthority)
| RecoverRebind (authority : ManagedWireAuthority) (prior_context_id : string)
    (prior_generation prior_capability_revision : option N)
| RebindLive (authority : ManagedWireAuthority)
| AbandonExpiredRecovery (expected_epoch : N)
| RequestResume (intervention_id : string) (epoch : N)
| CancelBeforeHuman (intervention_id : string) (epoch : N).
End ManagedWireControlRequest.
Abbreviation ManagedWireControlRequest := ManagedWireControlRequest.ManagedWireControlRequest.

Module WireRequest.
Inductive WireRequest :=
| AdmitAgent (protocol : N) (principal_binding device_binding : string)
    (generation capability_revision : N) (exact_window : option ExactWindowBinding)
    (verification_candidate : bool)
| ReportVerification (protocol : N) (principal_binding device_binding : string)
    (generation capability_revision : N) (exact_window : option ExactWindowBinding)
    (intervention_id : string) (epoch : N) (satisfied : bool).
End WireRequest.
Abbreviation WireRequest := WireRequest.WireRequest.

(** [ManagedTerminalPtyRequest] has the constructors and fields of the control it is made
    from. *)
Module ManagedTerminalTransportRequest.
Inductive ManagedTerminalTransportRequest :=
| Start (terminal_pty : TerminalPtyHandoffBinding) (intervention_id : string) (epoch : N)
| Status (terminal_pty : TerminalPtyHandoffBinding)
| Activate (terminal_pty : TerminalPtyHandoffBinding) (intervention_id : string) (epoch : N)
| NextEvent (terminal_pty : TerminalPtyHandoffBinding) (intervention_id : string) (epoch : N)
| Output (terminal_pty : TerminalPtyHandoffBinding) (intervention_id : string) (epoch : N)
    (data_base64 : string)
| Revoke (terminal_pty : TerminalPtyHandoffBinding) (intervention_id : string) (epoch : N).
End ManagedTerminalTransportRequest.
Abbreviation ManagedTerminalTransportRequest :=
  ManagedTerminalTransportRequest.ManagedTerminalTransportRequest.

(** ** The responses *)

Module WireResponse.
Record WireResponse := mk {
  ok : bool;
  decision : option string;
  intervention_id : option string;
  epoch : option N
}.
End WireResponse.
Abbreviation WireResponse := WireResponse.WireResponse.

Module WireRuntimeStatus.
Record WireRuntimeStatus := mk {
  ok : bool;
  active : option HandoffActiveStatus;
  recovery_required : bool;
  recovery_status : option HandoffInterventionStatus;
  recovery_epoch : option N;
  recovery_expired : bool;
  resume_requested : bool;
  faulted : bool;
  human_surface : option HandoffSurfaceKind;
  locator : option string
}.
End WireRuntimeStatus.
Abbreviation WireRuntimeStatus := WireRuntimeStatus.WireRuntimeStatus.

Module ManagedTerminalPtyResponse.
Record ManagedTerminalPtyResponse := mk {
  ok : bool;
  status : option TerminalPtyHandoffStatus;
  intervention_id : option string;
  epoch : option N;
  intervention_status : option HandoffInterventionStatus;
  resume_policy : option string;
  session_alive : option bool;
  agent_state_sync_required : option bool
}.
End ManagedTerminalPtyResponse.
Abbreviation ManagedTerminalPtyResponse := ManagedTerminalPtyResponse.ManagedTerminalPtyResponse.

Module ManagedTerminalTransportEvent.
Inductive ManagedTerminalTransportEvent :=
| Input (data_base64 : string)
| Resize (rows cols : N)
| Done.
End ManagedTerminalTransportEvent.
Abbreviation ManagedTerminalTransportEvent :=
  ManagedTerminalTransportEvent.ManagedTerminalTransportEvent.

Module ManagedTerminalTransportResponse.
Record ManagedTerminalTransportResponse := mk {
  ok : bool;
  locator : option string;
  transport_status : option TerminalPtyTransportStatus;
  event : option ManagedTerminalTransportEvent
}.
End ManagedTerminalTransportResponse.
Abbreviation ManagedTerminalTransportResponse :=
  ManagedTerminalTransportResponse.ManagedTerminalTransportResponse.

Inductive Request :=
| ControlRequest (r : ManagedWireControlRequest)
| AuthorityRequest (r : WireRequest)
| TerminalRequest (r : TerminalPtyHandoffControl)
| TransportRequest (r : ManagedTerminalTransportRequest).

(** [serde_json], with the values that it reads and their typed views *)
Class HandoffJson := {
  json_value : Type;
  request_to_vec : Request → option (list N);
  value_from_slice : list N → option json_value;
  value_ok : json_value → option bool;
  value_wire_response : json_value → option WireResponse;
  value_runtime_status : json_value → option WireRuntimeStatus;
  value_terminal_response : json_value → option ManagedTerminalPtyResponse;
  value_transport_response : json_value → option ManagedTerminalTransportResponse
}.

(** [base64::engine::general_purpose::STANDARD] *)
Class Base64Standard := {
  standard_encode : list N → string;
  standard_decode : string → option (list N)
}.

Module HandoffRuntime.
Definition PROTOCOL_VERSION : N := 1.
Definition MAX_WIRE_BYTES : N := 4096.

(** *** Making requests *)

Definition valid_terminal_intervention (intervention_id : string) (epoch : N) : bool :=
  (0 <? epoch)%N && negb (is_empty_string intervention_id) && (slen intervention_id <=? 160)%N
  && all_bytes (λ b, is_ascii_alphanumeric b || (b =? 45)%N || (b =? 95)%N) intervention_id.

(** [value.len() == n && value.bytes().all(..)], lower-case hexadecimal digits *)
Definition lower_hex (n : N) (s : string) : bool :=
  (slen s =? n)%N && all_bytes (λ b, is_ascii_hexdigit b && negb (is_ascii_uppercase b)) s.

Definition new_terminal_binding (session_id : string) (session_generation : N)
    (principal_binding : string) : result HandoffControlError TerminalPtyHandoffBinding :=
  return_if negb (lower_hex 32 session_id) || (session_generation =? 0)%N
            || negb (lower_hex 64 principal_binding)
    with Err HandoffControlError.Protocol ;;
  Ok (TerminalPtyHandoffBinding.mk session_id session_generation principal_binding).

Definition managed_wire_authority (a : AgentAuthorityRequest)
    : result HandoffControlError ManagedWireAuthority :=
  return_if a.(AgentAuthorityRequest.verification_candidate)
    with Err HandoffControlError.Protocol ;;
  let_some window := a.(AgentAuthorityRequest.exact_window) else Err HandoffControlError.Protocol ;;
  Ok (ManagedWireAuthority.mk PROTOCOL_VERSION a.(AgentAuthorityRequest.principal_binding)
        a.(AgentAuthorityRequest.device_binding) a.(AgentAuthorityRequest.generation)
        a.(AgentAuthorityRequest.capability_revision) window false).

Definition managed_wire_control (c : HandoffRuntimeControl)
    : result HandoffControlError ManagedWireControlRequest :=
  let with_authority a f :=
    let_ok a := managed_wire_authority a else e => Err e ;; Ok (f a) in
  match c with
  | HandoffRuntimeControl.Begin a => with_authority a ManagedWireControlRequest.Begin
  | HandoffRuntimeControl.RecoverReissue a =>
      with_authority a ManagedWireControlRequest.RecoverReissue
  | HandoffRuntimeControl.RecoverRebind a context generation revision =>
      with_authority a (λ a, ManagedWireControlRequest.RecoverRebind a context generation revision)
  | HandoffRuntimeControl.RebindLive a => with_authority a ManagedWireControlRequest.RebindLive
  | HandoffRuntimeControl.AbandonExpiredRecovery epoch =>
      Ok (ManagedWireControlRequest.AbandonExpiredRecovery epoch)
  | HandoffRuntimeControl.RequestResume id epoch =>
      Ok (ManagedWireControlRequest.RequestResume id epoch)
  | HandoffRuntimeControl.CancelBeforeHuman id epoch =>
      Ok (ManagedWireControlRequest.CancelBeforeHuman id epoch)
  end.

(** [managed_terminal_pty_request]: a control with an intervention needs a valid one. *)
Definition managed_terminal_pty_request (c : TerminalPtyHandoffControl)
    : result HandoffControlError TerminalPtyHandoffControl :=
  let valid id epoch :=
    if negb (valid_terminal_intervention id epoch) then Err HandoffControlError.Protocol else Ok c in
  match c with
  | TerminalPtyHandoffControl.ClaimHuman _ id epoch
  | TerminalPtyHandoffControl.HumanInput _ id epoch
  | TerminalPtyHandoffControl.HumanObserve _ id epoch
  | TerminalPtyHandoffControl.HumanResize _ id epoch
  | TerminalPtyHandoffControl.HumanDisconnect _ id epoch
  | TerminalPtyHandoffControl.DoneFence _ id epoch
  | TerminalPtyHandoffControl.ConfirmHumanDrain _ id epoch
  | TerminalPtyHandoffControl.Verify _ id epoch _
  | TerminalPtyHandoffControl.Resume _ id epoch => valid id epoch
  | _ => Ok c
  end.

Definition wire_admission_request (a : AgentAuthorityRequest) : WireRequest :=
  WireRequest.AdmitAgent PROTOCOL_VERSION a.(AgentAuthorityRequest.principal_binding)
    a.(AgentAuthorityRequest.device_binding) a.(AgentAuthorityRequest.generation)
    a.(AgentAuthorityRequest.capability_revision) a.(AgentAuthorityRequest.exact_window)
    a.(AgentAuthorityRequest.verification_candidate).

Definition wire_verification_report (r : VerificationReport) : WireRequest :=
  let a := r.(VerificationReport.authority) in
  let t := r.(VerificationReport.token) in
  WireRequest.ReportVerification PROTOCOL_VERSION a.(AgentAuthorityRequest.principal_binding)
    a.(AgentAuthorityRequest.device_binding) a.(AgentAuthorityRequest.generation)
    a.(AgentAuthorityRequest.capability_revision) a.(AgentAuthorityRequest.exact_window)
    t.(Agent.intervention_id) t.(Agent.token_epoch) r.(VerificationReport.satisfied).

(** *** Reading responses *)

Definition map_control_transport_error (e : OperatorHandoffError) : HandoffControlError :=
  match e with
  | OperatorHandoffError.Unavailable | OperatorHandoffError.Unsupported =>
      HandoffControlError.Unavailable
  | OperatorHandoffError.Protocol => HandoffControlError.Protocol
  end.

Definition bounded_intervention_id (value : option string) : result OperatorHandoffError string :=
  let_some value := value else Err OperatorHandoffError.Protocol ;;
  return_if is_empty_string value || (160 <? slen value)%N
            || negb (all_bytes (λ b, is_ascii_alphanumeric b || (b =? 45)%N || (b =? 95)%N) value)
    with Err OperatorHandoffError.Protocol ;;
  Ok value.

Definition parse_admission_response (r : WireResponse)
    : result OperatorHandoffError Agent.AgentAuthorityDecision :=
  return_if negb r.(WireResponse.ok) with Err OperatorHandoffError.Protocol ;;
  match r.(WireResponse.decision) with
  | Some decision =>
      if bool_decide (decision = "allow") then Ok Agent.Allow
      else if bool_decide (decision = "deny") then Ok Agent.Deny
      else if bool_decide (decision = "verification") then
        let_ok id := bounded_intervention_id r.(WireResponse.intervention_id) else e => Err e ;;
        let_some epoch := r.(WireResponse.epoch) else Err OperatorHandoffError.Protocol ;;
        return_if (epoch =? 0)%N with Err OperatorHandoffError.Protocol ;;
        Ok (Agent.Verification (Agent.mk_token id epoch))
      else Err OperatorHandoffError.Protocol
  | None => Err OperatorHandoffError.Protocol
  end.

Definition validate_verification_response (r : WireResponse) : result OperatorHandoffError unit :=
  if r.(WireResponse.ok) && opt_none r.(WireResponse.decision) then Ok tt
  else Err OperatorHandoffError.Protocol.

Definition starts_with (p s : string) : bool := opt_some (strip_prefix p s).

Definition expected_authority (s : HandoffInterventionStatus) : HandoffExecutionAuthority :=
  match s with
  | HandoffInterventionStatus.HumanActive => HandoffExecutionAuthority.Human
  | _ => HandoffExecutionAuthority.NoAuthority
  end.

Definition authority_eqb (a b : HandoffExecutionAuthority) : bool :=
  match a, b with
  | HandoffExecutionAuthority.Human, HandoffExecutionAuthority.Human
  | HandoffExecutionAuthority.NoAuthority, HandoffExecutionAuthority.NoAuthority => true
  | _, _ => false
  end.

Definition valid_active (a : HandoffActiveStatus) : bool :=
  let id := a.(HandoffActiveStatus.intervention_id) in
  negb (is_empty_string id) && (slen id <=? 160)%N && negb (a.(HandoffActiveStatus.epoch) =? 0)%N
  && authority_eqb a.(HandoffActiveStatus.authority)
       (expected_authority a.(HandoffActiveStatus.status))
  && all_bytes (λ b, is_ascii_alphanumeric b || (b =? 45)%N || (b =? 95)%N) id.

Definition valid_locator (l : string) : bool :=
  negb (is_empty_string l) && (slen l <=? 2048)%N && negb (any_control (bytes l))
  && (starts_with "http://127.0.0.1:" l || starts_with "https://" l).

Definition parse_runtime_status (s : option WireRuntimeStatus)
    : result HandoffControlError HandoffRuntimeStatus :=
  let_some s := s else Err HandoffControlError.Protocol ;;
  let required := s.(WireRuntimeStatus.recovery_required) in
  return_if negb s.(WireRuntimeStatus.ok) with Err HandoffControlError.Rejected ;;
  return_if xorb required (opt_some s.(WireRuntimeStatus.recovery_status))
            || xorb required (opt_some s.(WireRuntimeStatus.recovery_epoch))
            || bool_decide (s.(WireRuntimeStatus.recovery_epoch) = Some 0%N)
    with Err HandoffControlError.Protocol ;;
  return_if match s.(WireRuntimeStatus.active) with Some a => negb (valid_active a) | None => false end
    with Err HandoffControlError.Protocol ;;
  return_if match s.(WireRuntimeStatus.locator) with Some l => negb (valid_locator l) | None => false end
    with Err HandoffControlError.Protocol ;;
  Ok (HandoffRuntimeStatus.mk s.(WireRuntimeStatus.active) required
        s.(WireRuntimeStatus.recovery_status) s.(WireRuntimeStatus.recovery_epoch)
        s.(WireRuntimeStatus.recovery_expired) s.(WireRuntimeStatus.resume_requested)
        s.(WireRuntimeStatus.faulted) s.(WireRuntimeStatus.human_surface)
        s.(WireRuntimeStatus.locator)).

Definition valid_terminal_status (s : TerminalPtyHandoffStatus) : bool :=
  let status := s.(TerminalPtyHandoffStatus.intervention_status) in
  let epoch := s.(TerminalPtyHandoffStatus.intervention_epoch) in
  negb (s.(TerminalPtyHandoffStatus.session_generation) =? 0)%N
  && negb (xorb (opt_some status) (opt_some epoch)) && negb (bool_decide (epoch = Some 0%N))
  && (negb (bool_decide (s.(TerminalPtyHandoffStatus.authority) = TerminalPtyExecutionAuthority.Human))
      || match status with Some HandoffInterventionStatus.HumanActive => true | _ => false end).

Definition parse_terminal_pty_response (c : TerminalPtyHandoffControl) (r : ManagedTerminalPtyResponse)
    : result HandoffControlError TerminalPtyHandoffResult :=
  match c with
  | TerminalPtyHandoffControl.Status | TerminalPtyHandoffControl.Bind _
  | TerminalPtyHandoffControl.HumanDisconnect _ _ _ | TerminalPtyHandoffControl.SessionExit _ =>
      match r.(ManagedTerminalPtyResponse.status) with
      | Some s => if negb (valid_terminal_status s) then Err HandoffControlError.Protocol
                  else Ok (TerminalPtyHandoffResult.Status (Some s))
      | None => Ok (TerminalPtyHandoffResult.Status None)
      end
  | TerminalPtyHandoffControl.BeginFence _ | TerminalPtyHandoffControl.ClaimHuman _ _ _
  | TerminalPtyHandoffControl.DoneFence _ _ _ | TerminalPtyHandoffControl.ConfirmHumanDrain _ _ _
  | TerminalPtyHandoffControl.Verify _ _ _ _ =>
      let_some id := r.(ManagedTerminalPtyResponse.intervention_id)
        else Err HandoffControlError.Protocol ;;
      let_some epoch := r.(ManagedTerminalPtyResponse.epoch) else Err HandoffControlError.Protocol ;;
      return_if negb (valid_terminal_intervention id epoch) with Err HandoffControlError.Protocol ;;
      let_some status := r.(ManagedTerminalPtyResponse.intervention_status)
        else Err HandoffControlError.Protocol ;;
      Ok (TerminalPtyHandoffResult.Transition (TerminalPtyInterventionRef.mk id epoch status))
  | TerminalPtyHandoffControl.Resume _ _ _ =>
      return_if negb (bool_decide (r.(ManagedTerminalPtyResponse.resume_policy) = Some "never_replay"))
        with Err HandoffControlError.Protocol ;;
      let_some epoch := r.(ManagedTerminalPtyResponse.epoch) else Err HandoffControlError.Protocol ;;
      return_if (epoch =? 0)%N with Err HandoffControlError.Protocol ;;
      let_some alive := r.(ManagedTerminalPtyResponse.session_alive)
        else Err HandoffControlError.Protocol ;;
      let_some sync := r.(ManagedTerminalPtyResponse.agent_state_sync_required)
        else Err HandoffControlError.Protocol ;;
      Ok (TerminalPtyHandoffResult.Resume (TerminalPtyResumeReceipt.mk epoch alive sync))
  | _ => Ok TerminalPtyHandoffResult.Done
  end.

(** ** The child *)

Section Runtime.
Context `{HJ : HandoffJson}.

(** [faulted] never goes back; [asked] counts the exchanges; [exchanges] are those that the
    child answered with a value, the last one first. *)
Record Runtime := mk_runtime {
  faulted : bool;
  asked : nat;
  exchanges : list (Request * json_value)
}.

(** What an exchange meets: the state of the child, and what [read_until] returned, or
    nothing if the pipe failed or the time ran out. *)
Inductive ChildState := Exited | Alive | WaitFailed.
Record Exchange := mk_exchange { child : ChildState; line : option (list N) }.

Definition M (E X : Type) : Type := Runtime → Runtime * result E X.
#[global] Instance M_ret {E} : MRet (M E) := λ X x rt, (rt, Ok x).
#[global] Instance M_bind {E} : MBind (M E) := λ X Y f m rt,
  let '(rt, r) := m rt in
  match r with Ok x => f x rt | Err e => (rt, Err e) end.
Definition fail {E X} (e : E) : M E X := λ rt, (rt, Err e).
Definition lift {E X} (r : result E X) : M E X := λ rt, (rt, r).
Definition ok_or {E X} (e : E) (o : option X) : M E X :=
  match o with Some x => mret x | None => fail e end.
Definition map_err {E F X} (f : E → F) (m : M E X) : M F X := λ rt,
  let '(rt, r) := m rt in
  (rt, match r with Ok x => Ok x | Err e => Err (f e) end).

Definition stop_faulted_child (rt : Runtime) : Runtime := mk_runtime true rt.(asked) rt.(exchanges).

(** [fault] and [shutdown] *)
Definition fault {E} : M E unit := λ rt,
  (if rt.(faulted) then rt else stop_faulted_child rt, Ok tt).
Definition shutdown {E} : M E unit := fault.

Definition read_line (bytes : list N) : result OperatorHandoffError json_value :=
  return_if bool_decide (bytes = []) with Err OperatorHandoffError.Unavailable ;;
  return_if (MAX_WIRE_BYTES <? vlen bytes)%N || negb (bool_decide (last bytes = Some 10%N))
    with Err OperatorHandoffError.Protocol ;;
  let_some v := value_from_slice (removelast bytes) else Err OperatorHandoffError.Protocol ;;
  Ok v.

Definition answer (x : Exchange) : result OperatorHandoffError json_value :=
  match x.(line) with
  | None => Err OperatorHandoffError.Unavailable
  | Some bytes => read_line bytes
  end.

Section Pipe.
Variable io : nat → Exchange.

Definition exchange_value (r : Request) : M OperatorHandoffError json_value := λ rt,
  let_some encoded := request_to_vec r else (rt, Err OperatorHandoffError.Protocol) ;;
  return_if (MAX_WIRE_BYTES <? vlen encoded + 1)%N with (rt, Err OperatorHandoffError.Protocol) ;;
  return_if rt.(faulted) with (rt, Err OperatorHandoffError.Unavailable) ;;
  let x := io rt.(asked) in
  let rt := mk_runtime false (S rt.(asked)) rt.(exchanges) in
  match x.(child) with
  | Exited | WaitFailed => (stop_faulted_child rt, Err OperatorHandoffError.Unavailable)
  | Alive =>
      match answer x with
      | Ok v => (mk_runtime false rt.(asked) ((r, v) :: rt.(exchanges)), Ok v)
      | Err e => (stop_faulted_child rt, Err e)
      end
  end.

Definition exchange (r : WireRequest) : M OperatorHandoffError WireResponse :=
  v ← exchange_value (AuthorityRequest r);
  match value_wire_response v with
  | Some response => mret response
  | None => fault;; fail OperatorHandoffError.Protocol
  end.

(** [spawn], after the child has been started *)
Definition spawn : M OperatorHandoffError unit :=
  v ← exchange_value (ControlRequest ManagedWireControlRequest.Status);
  if bool_decide (value_ok v = Some true) then mret tt
  else fault;; fail OperatorHandoffError.Protocol.

Definition status : M HandoffControlError HandoffRuntimeStatus :=
  v ← map_err map_control_transport_error
        (exchange_value (ControlRequest ManagedWireControlRequest.Status));
  lift (parse_runtime_status (value_runtime_status v)).

Definition control (c : HandoffRuntimeControl) : M HandoffControlError HandoffRuntimeStatus :=
  r ← lift (managed_wire_control c);
  v ← map_err map_control_transport_error (exchange_value (ControlRequest r));
  match value_ok v with
  | Some true => status
  | Some false => fail HandoffControlError.Rejected
  | None => fault;; fail HandoffControlError.Protocol
  end.

Definition admit_agent (a : AgentAuthorityRequest)
    : M OperatorHandoffError Agent.AgentAuthorityDecision :=
  response ← exchange (wire_admission_request a);
  match parse_admission_response response with
  | Ok decision => mret decision
  | Err e => fault;; fail e
  end.

Definition report_verification (r : VerificationReport) : M OperatorHandoffError unit :=
  response ← exchange (wire_verification_report r);
  match validate_verification_response response with
  | Ok _ => mret tt
  | Err e => fault;; fail e
  end.

(** *** Terminals *)

Definition terminal_pty_control (c : TerminalPtyHandoffControl)
    : M HandoffControlError TerminalPtyHandoffResult :=
  r ← lift (managed_terminal_pty_request c);
  v ← map_err map_control_transport_error (exchange_value (TerminalRequest r));
  response ← ok_or HandoffControlError.Protocol (value_terminal_response v);
  if negb response.(ManagedTerminalPtyResponse.ok) then fail HandoffControlError.Rejected
  else lift (parse_terminal_pty_response c response).

Definition terminal_transport_exchange (r : ManagedTerminalTransportRequest)
    : M HandoffControlError ManagedTerminalTransportResponse :=
  v ← map_err map_control_transport_error (exchange_value (TransportRequest r));
  match value_transport_response v with
  | None => fault;; fail HandoffControlError.Protocol
  | Some response =>
      if negb response.(ManagedTerminalTransportResponse.ok) then fail HandoffControlError.Rejected
      else mret response
  end.

(** [byte.is_ascii_control() || byte.is_ascii_whitespace()] *)
Definition control_or_space (b : N) : bool :=
  (b <? 32)%N || (b =? 127)%N || (b =? 32)%N.

Definition terminal_transport_start (binding : TerminalPtyHandoffBinding)
    (i : TerminalPtyInterventionRef) : M HandoffControlError string :=
  let id := i.(TerminalPtyInterventionRef.intervention_id) in
  let epoch := i.(TerminalPtyInterventionRef.epoch) in
  if negb (valid_terminal_intervention id epoch) then fail HandoffControlError.Protocol else
  response ← terminal_transport_exchange (ManagedTerminalTransportRequest.Start binding id epoch);
  locator ← ok_or HandoffControlError.Protocol response.(ManagedTerminalTransportResponse.locator);
  if (2048 <? slen locator)%N || negb (all_bytes (λ b, negb (control_or_space b)) locator)
     || negb (starts_with "https://" locator || starts_with "http://127.0.0.1:" locator)
  then fault;; fail HandoffControlError.Protocol else mret locator.

Definition terminal_transport_status (binding : TerminalPtyHandoffBinding)
    : M HandoffControlError TerminalPtyTransportStatus :=
  response ← terminal_transport_exchange (ManagedTerminalTransportRequest.Status binding);
  ok_or HandoffControlError.Protocol response.(ManagedTerminalTransportResponse.transport_status).

Definition terminal_transport_activate (binding : TerminalPtyHandoffBinding)
    (i : TerminalPtyInterventionRef) : M HandoffControlError unit :=
  terminal_transport_exchange (ManagedTerminalTransportRequest.Activate binding
    i.(TerminalPtyInterventionRef.intervention_id) i.(TerminalPtyInterventionRef.epoch));;
  mret tt.

Definition terminal_transport_revoke (binding : TerminalPtyHandoffBinding)
    (i : TerminalPtyInterventionRef) : M HandoffControlError unit :=
  terminal_transport_exchange (ManagedTerminalTransportRequest.Revoke binding
    i.(TerminalPtyInterventionRef.intervention_id) i.(TerminalPtyInterventionRef.epoch));;
  mret tt.

Definition terminal_transport_next_event `{Base64Standard} (binding : TerminalPtyHandoffBinding)
    (i : TerminalPtyInterventionRef) : M HandoffControlError (option TerminalPtyTransportEvent) :=
  response ← terminal_transport_exchange (ManagedTerminalTransportRequest.NextEvent binding
    i.(TerminalPtyInterventionRef.intervention_id) i.(TerminalPtyInterventionRef.epoch));
  match response.(ManagedTerminalTransportResponse.event) with
  | None => mret None
  | Some (ManagedTerminalTransportEvent.Input data) =>
      if (2800 <? slen data)%N then fault;; fail HandoffControlError.Protocol else
      bytes ← ok_or HandoffControlError.Protocol (standard_decode data);
      if bool_decide (bytes = []) || (2048 <? vlen bytes)%N
         || negb (bool_decide (standard_encode bytes = data))
      then fault;; fail HandoffControlError.Protocol
      else mret (Some (TerminalPtyTransportEvent.Input bytes))
  | Some (ManagedTerminalTransportEvent.Resize rows cols) =>
      if in_range 2 200 rows && in_range 2 400 cols
      then mret (Some (TerminalPtyTransportEvent.Resize rows cols))
      else fault;; fail HandoffControlError.Protocol
  | Some ManagedTerminalTransportEvent.Done => mret (Some TerminalPtyTransportEvent.Done)
  end.

Definition terminal_transport_output `{Base64Standard} (binding : TerminalPtyHandoffBinding)
    (i : TerminalPtyInterventionRef) (bytes : list N) : M HandoffControlError unit :=
  if bool_decide (bytes = []) || (2048 <? vlen bytes)%N then fail HandoffControlError.Protocol else
  terminal_transport_exchange (ManagedTerminalTransportRequest.Output binding
    i.(TerminalPtyInterventionRef.intervention_id) i.(TerminalPtyInterventionRef.epoch)
    (standard_encode bytes));;
  mret tt.
End Pipe.
End Runtime.

(** ** The bindings *)

Section Bindings.
Context `{SHA : Sha256}.

Definition bounded_hash (domain : list N) (parts : list (list N)) : string :=
  hex (sha256 (domain ++ concat parts)).

Definition principal_binding (p : Trust.AuthenticatedClientPrincipal) : string :=
  bounded_hash (bytes "cumg/operator-handoff/principal/v1" ++ [0%N])
    [bytes p.(Trust.AuthenticatedClientPrincipal.issuer); [0%N];
     bytes p.(Trust.AuthenticatedClientPrincipal.subject)].
Definition device_binding (device_id : string) : string :=
  bounded_hash (bytes "cumg/operator-handoff/device/v1" ++ [0%N]) [bytes device_id].
Definition interaction_context_binding (context_id : string) : string :=
  bounded_hash (bytes "cumg/operator-handoff/context/v1" ++ [0%N]) [bytes context_id].

(** [exact_window_binding], whose context the function of [AgentSession] leaves unhashed *)
Definition window_binding (c : DeviceCommand) : option ExactWindowBinding :=
  (λ '(context, p, w), ExactWindowBinding.mk (interaction_context_binding context) p w)
    <$> AgentSession.exact_window_binding c.
End Bindings.
End HandoffRuntime.
