(* ===== verification/AgentHandoff.v ===== *)
(** * The Agent's hand-off coordinator

    [src/src/v2_agent_handoff.rs]: the coordinator checks what the Hub says about the session
    and the surface, translates the requests of the Hub for the runtime of the device and
    is the last gate before a protected command reaches the backend. *)

From S2P Require Import Prelude Vocabulary Protocol Crypto Trust Recovery Transport Agent AgentSession.
From S2P Require Import HandoffRuntime.

Module AgentHandoff.
Import HandoffRuntime.

Record AgentHandoffSessionFence := mk_session_fence {
  fence_device_binding : string;
  fence_generation : N;
  fence_capability_revision : N
}.

Definition valid_binding (s : string) : bool := lower_hex 64 s.

(** [value.len() == 36 && value.starts_with("ctx_") && value[4..]..] *)
Definition valid_context_id (s : string) : bool :=
  match strip_prefix "ctx_" s with
  | Some rest => lower_hex 32 rest
  | None => false
  end.

Definition authority_matches_session (a : RemoteHandoffAuthority) (s : AgentHandoffSessionFence)
    : bool :=
  (a.(RemoteHandoffAuthority.generation) =? s.(fence_generation))%N
  && (a.(RemoteHandoffAuthority.capability_revision) =? s.(fence_capability_revision))%N
  && bool_decide (a.(RemoteHandoffAuthority.device_binding) = s.(fence_device_binding))
  && valid_binding a.(RemoteHandoffAuthority.principal_binding)
  && valid_binding a.(RemoteHandoffAuthority.device_binding).

Definition exact_window (w : RemoteHandoffExactWindow) : ExactWindowBinding :=
  ExactWindowBinding.mk w.(RemoteHandoffExactWindow.context_binding)
    w.(RemoteHandoffExactWindow.process_id) w.(RemoteHandoffExactWindow.window_id).

Definition surface_window (s : RemoteHandoffSurfaceBinding) : ExactWindowBinding :=
  match s with RemoteHandoffSurfaceBinding.OsWindow w => exact_window w end.

Definition admission_decision (d : Agent.AgentAuthorityDecision) : RemoteHandoffAdmissionDecision :=
  match d with
  | Agent.Allow => RemoteHandoffAdmissionDecision.Allow
  | Agent.Deny => RemoteHandoffAdmissionDecision.Deny
  | Agent.Verification t =>
      RemoteHandoffAdmissionDecision.Verification t.(Agent.intervention_id) t.(Agent.token_epoch)
  end.

Definition remote_status (s : HandoffRuntimeStatus) : RemoteHandoffStatus :=
  RemoteHandoffStatus.mk s.(HandoffRuntimeStatus.active) s.(HandoffRuntimeStatus.recovery_required)
    s.(HandoffRuntimeStatus.recovery_status) s.(HandoffRuntimeStatus.recovery_epoch)
    s.(HandoffRuntimeStatus.recovery_expired) s.(HandoffRuntimeStatus.resume_requested)
    s.(HandoffRuntimeStatus.faulted) s.(HandoffRuntimeStatus.human_surface).

Definition operator_status (s : HandoffRuntimeStatus) : RemoteHandoffResponseKind :=
  RemoteHandoffResponseKind.Operator (remote_status s) s.(HandoffRuntimeStatus.locator).

Definition map_authority_error (e : OperatorHandoffError) : RemoteHandoffErrorCode :=
  match e with
  | OperatorHandoffError.Unavailable => RemoteHandoffErrorCode.Unavailable
  | OperatorHandoffError.Protocol => RemoteHandoffErrorCode.Protocol
  | OperatorHandoffError.Unsupported => RemoteHandoffErrorCode.Unsupported
  end.

Definition map_control_error (e : HandoffControlError) : RemoteHandoffErrorCode :=
  match e with
  | HandoffControlError.Unavailable => RemoteHandoffErrorCode.Unavailable
  | HandoffControlError.Rejected => RemoteHandoffErrorCode.Rejected
  | HandoffControlError.Protocol => RemoteHandoffErrorCode.Protocol
  end.

(** [authority] *)
Definition session_authority (a : RemoteHandoffAuthority) (s : AgentHandoffSessionFence)
    : result RemoteHandoffErrorCode AgentAuthorityRequest :=
  return_if negb (authority_matches_session a s)
    with Err RemoteHandoffErrorCode.SessionFenceMismatch ;;
  let window := surface_window <$> a.(RemoteHandoffAuthority.surface) in
  return_if match window with
            | Some w => negb (valid_binding w.(ExactWindowBinding.context_binding))
                        || (w.(ExactWindowBinding.process_id) =? 0)%N
                        || (w.(ExactWindowBinding.window_id) =? 0)%N
            | None => false
            end
    with Err RemoteHandoffErrorCode.InvalidRequest ;;
  Ok (AgentAuthorityRequest.mk a.(RemoteHandoffAuthority.principal_binding)
        a.(RemoteHandoffAuthority.device_binding) a.(RemoteHandoffAuthority.generation)
        a.(RemoteHandoffAuthority.capability_revision) window
        a.(RemoteHandoffAuthority.verification_candidate)).

Definition required_control_authority (a : option RemoteHandoffAuthority)
    (s : AgentHandoffSessionFence) : result RemoteHandoffErrorCode AgentAuthorityRequest :=
  let_some a := a else Err RemoteHandoffErrorCode.InvalidRequest ;;
  let_ok a := session_authority a s else e => Err e ;;
  return_if a.(AgentAuthorityRequest.verification_candidate)
            || opt_none a.(AgentAuthorityRequest.exact_window)
    with Err RemoteHandoffErrorCode.InvalidRequest ;;
  Ok a.

Section Coordinator.
Context `{SHA : Sha256} `{HJ : HandoffJson}.

Definition for_device (device_id : string) (generation capability_revision : N)
    : AgentHandoffSessionFence :=
  mk_session_fence (device_binding device_id) generation capability_revision.

Definition authority_matches_command (a : RemoteHandoffAuthority) (c : DeviceCommand) : bool :=
  Bool.eqb a.(RemoteHandoffAuthority.verification_candidate)
    (AgentSession.is_exact_verification_candidate c)
  && match a.(RemoteHandoffAuthority.surface), window_binding c with
     | Some remote, Some expected => bool_decide (surface_window remote = expected)
     | None, None => true
     | _, _ => false
     end.

(** [io] is what the runtime does; [permit] the result of [mutation_authority_permit],
    which a coordinator without a gate always has. *)
Variable io : nat → Exchange.
Variable permit : bool.

Definition mutation_authority_permit : M RemoteHandoffErrorCode unit :=
  if permit then mret tt else fail RemoteHandoffErrorCode.Rejected.

Definition runtime_status : M RemoteHandoffErrorCode HandoffRuntimeStatus :=
  map_err map_control_error (status io).

Definition runtime_control (c : HandoffRuntimeControl)
    : M RemoteHandoffErrorCode RemoteHandoffResponseKind :=
  s ← map_err map_control_error (control io c);
  mret (operator_status s).

(** The active intervention, in the state that the command needs *)
Definition active_in (wanted : HandoffInterventionStatus → bool) (s : HandoffRuntimeStatus)
    : M RemoteHandoffErrorCode HandoffActiveStatus :=
  match s.(HandoffRuntimeStatus.active) with
  | Some a => if wanted a.(HandoffActiveStatus.status) then mret a
              else fail RemoteHandoffErrorCode.Rejected
  | None => fail RemoteHandoffErrorCode.Rejected
  end.

Definition is_ready_to_resume (s : HandoffInterventionStatus) : bool :=
  match s with HandoffInterventionStatus.ReadyToResume => true | _ => false end.
Definition is_awaiting_human (s : HandoffInterventionStatus) : bool :=
  match s with HandoffInterventionStatus.AwaitingHuman => true | _ => false end.

Definition operator (command : RemoteHandoffOperatorCommand) (authority : option RemoteHandoffAuthority)
    (session : AgentHandoffSessionFence) : M RemoteHandoffErrorCode RemoteHandoffResponseKind :=
  match command with
  | RemoteHandoffOperatorCommand.Status =>
      if opt_some authority then fail RemoteHandoffErrorCode.InvalidRequest else
      s ← runtime_status;
      mret (RemoteHandoffResponseKind.Status (remote_status s))
  | RemoteHandoffOperatorCommand.Begin =>
      mutation_authority_permit;;
      a ← lift (required_control_authority authority session);
      runtime_control (HandoffRuntimeControl.Begin a)
  | RemoteHandoffOperatorCommand.RecoverReissue =>
      mutation_authority_permit;;
      a ← lift (required_control_authority authority session);
      s ← runtime_status;
      if negb s.(HandoffRuntimeStatus.recovery_required) || s.(HandoffRuntimeStatus.recovery_expired)
      then fail RemoteHandoffErrorCode.Rejected else
      runtime_control (HandoffRuntimeControl.RecoverReissue a)
  | RemoteHandoffOperatorCommand.RecoverRebind context generation revision =>
      mutation_authority_permit;;
      a ← lift (required_control_authority authority session);
      if negb (valid_context_id context)
         || match generation with
            | Some g => (g =? 0)%N || (session.(fence_generation) <? g)%N
            | None => false
            end
         || match revision with
            | Some r => (session.(fence_capability_revision) <? r)%N
            | None => false
            end
      then fail RemoteHandoffErrorCode.InvalidRequest else
      s ← runtime_status;
      if negb s.(HandoffRuntimeStatus.recovery_required) then fail RemoteHandoffErrorCode.Rejected else
      runtime_control (HandoffRuntimeControl.RecoverRebind a context generation revision)
  | RemoteHandoffOperatorCommand.RebindLive =>
      mutation_authority_permit;;
      a ← lift (required_control_authority authority session);
      s ← runtime_status;
      if s.(HandoffRuntimeStatus.recovery_required) || opt_none s.(HandoffRuntimeStatus.active)
         || s.(HandoffRuntimeStatus.faulted)
      then fail RemoteHandoffErrorCode.Rejected else
      runtime_control (HandoffRuntimeControl.RebindLive a)
  | RemoteHandoffOperatorCommand.AbandonExpiredRecovery epoch =>
      if opt_some authority || (epoch =? 0)%N then fail RemoteHandoffErrorCode.InvalidRequest else
      s ← runtime_status;
      if negb s.(HandoffRuntimeStatus.recovery_required)
         || negb s.(HandoffRuntimeStatus.recovery_expired)
         || negb (bool_decide (s.(HandoffRuntimeStatus.recovery_epoch) = Some epoch))
         || opt_some s.(HandoffRuntimeStatus.active) || s.(HandoffRuntimeStatus.faulted)
      then fail RemoteHandoffErrorCode.Rejected else
      runtime_control (HandoffRuntimeControl.AbandonExpiredRecovery epoch)
  | RemoteHandoffOperatorCommand.RequestResume =>
      if opt_some authority then fail RemoteHandoffErrorCode.InvalidRequest else
      s ← runtime_status;
      active ← active_in is_ready_to_resume s;
      runtime_control (HandoffRuntimeControl.RequestResume
        active.(HandoffActiveStatus.intervention_id) active.(HandoffActiveStatus.epoch))
  | RemoteHandoffOperatorCommand.CancelBeforeHuman =>
      if opt_some authority then fail RemoteHandoffErrorCode.InvalidRequest else
      s ← runtime_status;
      active ← active_in is_awaiting_human s;
      runtime_control (HandoffRuntimeControl.CancelBeforeHuman
        active.(HandoffActiveStatus.intervention_id) active.(HandoffActiveStatus.epoch))
  end.

Definition handle_remote_inner (r : RemoteHandoffRequestKind) (session : AgentHandoffSessionFence)
    : M RemoteHandoffErrorCode RemoteHandoffResponseKind :=
  match r with
  | RemoteHandoffRequestKind.Admission authority =>
      a ← lift (session_authority authority session);
      d ← map_err map_authority_error (admit_agent io a);
      mret (RemoteHandoffResponseKind.Admission (admission_decision d))
  | RemoteHandoffRequestKind.Operator command authority => operator command authority session
  end.

Definition handle_remote (r : RemoteHandoffRequestKind) (session : AgentHandoffSessionFence)
    (rt : Runtime) : Runtime * RemoteHandoffResponseKind :=
  let '(rt, response) := handle_remote_inner r session rt in
  (rt, match response with
       | Ok response => response
       | Err code => RemoteHandoffResponseKind.Rejected code
       end).

Definition final_admit (a : RemoteHandoffAuthority) (c : DeviceCommand)
    (session : AgentHandoffSessionFence) : M RemoteHandoffErrorCode Agent.AgentAuthorityDecision :=
  if negb (authority_matches_command a c) then fail RemoteHandoffErrorCode.InvalidRequest else
  a ← lift (session_authority a session);
  map_err map_authority_error (admit_agent io a).

Definition report_verification_local (a : RemoteHandoffAuthority) (token : Agent.VerificationToken)
    (satisfied : bool) (session : AgentHandoffSessionFence) : M RemoteHandoffErrorCode unit :=
  a ← lift (session_authority a session);
  let id := token.(Agent.intervention_id) in
  if negb a.(AgentAuthorityRequest.verification_candidate)
     || opt_none a.(AgentAuthorityRequest.exact_window) || is_empty_string id || (160 <? slen id)%N
     || (token.(Agent.token_epoch) =? 0)%N
  then fail RemoteHandoffErrorCode.InvalidRequest else
  map_err map_authority_error (report_verification io (VerificationReport.mk a token satisfied)).
End Coordinator.
End AgentHandoff.
