(* ===== verification/HandoffCoordinator.v ===== *)
(** * The Hub's hand-off coordinator

    [src/src/v2_handoff_coordinator.rs]: the coordinator admits the commands of clients before
    they are dispatched, remembers for a minute which window was observed and which one
    admitted, and relays the operator's commands about exactly such a window, either to
    the Agent over the session or to a runtime of its own. Instants and durations are in
    nanoseconds. *)

From S2P Require Import Prelude Vocabulary Protocol Crypto Trust Recovery Transport Hub.
From S2P Require Import Agent AgentSession HandoffRuntime AgentHandoff.

Module HandoffSurfaceBinding.
Inductive HandoffSurfaceBinding := OsWindow (window : ExactWindowBinding).
End HandoffSurfaceBinding.
Abbreviation HandoffSurfaceBinding := HandoffSurfaceBinding.HandoffSurfaceBinding.

Module HandoffAgentBinding.
Record HandoffAgentBinding := mk {
  principal_binding : string;
  device_binding : string;
  generation : N;
  capability_revision : N;
  surface : option HandoffSurfaceBinding;
  verification_candidate : bool
}.
End HandoffAgentBinding.
Abbreviation HandoffAgentBinding := HandoffAgentBinding.HandoffAgentBinding.

Module HandoffAdmission.
Record HandoffAdmission := mk {
  binding : HandoffAgentBinding;
  verification : option Agent.VerificationToken;
  verification_local_to_agent : bool
}.
End HandoffAdmission.
Abbreviation HandoffAdmission := HandoffAdmission.HandoffAdmission.

Module HandoffCoordinatorError.
Inductive HandoffCoordinatorError :=
| AuthoritySuspended
| InvalidSemanticDecision
| Backend (e : OperatorHandoffError).
End HandoffCoordinatorError.
Abbreviation HandoffCoordinatorError := HandoffCoordinatorError.HandoffCoordinatorError.

Module HandoffOperatorCommand.
Inductive HandoffOperatorCommand :=
| Status
| Begin
| RecoverReissue
| RecoverRebind (prior_context_id : string) (prior_generation prior_capability_revision : option N)
| RebindLive
| AbandonExpiredRecovery (expected_epoch : N)
| RequestResume
| CancelBeforeHuman.
End HandoffOperatorCommand.
Abbreviation HandoffOperatorCommand := HandoffOperatorCommand.HandoffOperatorCommand.

Module HandoffOperatorControlError.
Inductive HandoffOperatorControlError :=
| Unsupported | NoFreshExactWindow | SessionFenceMismatch | ContextHandleMismatch
| InvalidRecoveryProof | AgentNotIdle | DeviceQuarantined | InvalidLifecycleState
| Runtime (e : HandoffControlError).

Definition safe_code (e : HandoffOperatorControlError) : string :=
  match e with
  | Unsupported => "handoff_control_unsupported"
  | NoFreshExactWindow => "handoff_no_fresh_exact_window"
  | SessionFenceMismatch => "handoff_session_fence_mismatch"
  | ContextHandleMismatch => "handoff_context_handle_mismatch"
  | InvalidRecoveryProof => "handoff_invalid_recovery_proof"
  | AgentNotIdle => "handoff_agent_not_idle"
  | DeviceQuarantined => "handoff_device_quarantined"
  | InvalidLifecycleState => "handoff_invalid_lifecycle_state"
  | Runtime HandoffControlError.Unavailable => "handoff_runtime_unavailable"
  | Runtime HandoffControlError.Rejected => "handoff_control_rejected"
  | Runtime HandoffControlError.Protocol => "handoff_runtime_protocol_invalid"
  end.
End HandoffOperatorControlError.
Abbreviation HandoffOperatorControlError := HandoffOperatorControlError.HandoffOperatorControlError.

Module HandoffCoordinator.
Import HandoffRuntime HandoffOperatorControlError.

(** ** Selections *)

Definition HANDOFF_CONTROL_SELECTION_TTL : N := 60000000000.

Record HandoffSessionFence := mk_handoff_fence {
  handoff_generation : N;
  handoff_capability_revision : N
}.

Record SelectedWindowAuthority := mk_selected {
  selected_authority : AgentAuthorityRequest;
  expires_at : N;
  context_handle : string
}.

Record HandoffSelectionState := mk_selections {
  last_observed : option SelectedWindowAuthority;
  last_admitted : option SelectedWindowAuthority
}.

Definition no_selections : HandoffSelectionState := mk_selections None None.

Definition control_authority (a : AgentAuthorityRequest) : AgentAuthorityRequest :=
  AgentAuthorityRequest.mk a.(AgentAuthorityRequest.principal_binding)
    a.(AgentAuthorityRequest.device_binding) a.(AgentAuthorityRequest.generation)
    a.(AgentAuthorityRequest.capability_revision) a.(AgentAuthorityRequest.exact_window) false.

Definition selection_expiry (now : N) (context_valid_for : option N) : N :=
  (now + N.min (default HANDOFF_CONTROL_SELECTION_TTL context_valid_for)
           HANDOFF_CONTROL_SELECTION_TTL)%N.

Definition random_operator_context_handle (random : list N) : string := "hctx_" +:+ hex random.

Definition valid_operator_context_handle (s : string) : bool :=
  match strip_prefix "hctx_" s with
  | Some rest => lower_hex 32 rest
  | None => false
  end.

Definition select (a : AgentAuthorityRequest) (now : N) (random : list N) (valid_for : option N)
    : SelectedWindowAuthority :=
  mk_selected (control_authority a) (selection_expiry now valid_for)
    (random_operator_context_handle random).

Definition remember_observed_window (s : HandoffSelectionState) (a : AgentAuthorityRequest)
    (now : N) (random : list N) (valid_for : option N) : HandoffSelectionState :=
  if opt_none a.(AgentAuthorityRequest.exact_window) then s
  else mk_selections (Some (select a now random valid_for)) s.(last_admitted).

Definition remember_admitted_window (s : HandoffSelectionState) (a : AgentAuthorityRequest)
    (now : N) (random : list N) (valid_for : option N) : HandoffSelectionState :=
  if opt_none a.(AgentAuthorityRequest.exact_window) then s
  else mk_selections s.(last_observed) (Some (select a now random valid_for)).

(** A fresh selection of the session *)
Definition fresh_selection (s : HandoffSelectionState) (admitted : bool)
    (session : option HandoffSessionFence) (now : N)
    : result HandoffOperatorControlError SelectedWindowAuthority :=
  let_some session := session else Err SessionFenceMismatch ;;
  let_some x := (if admitted then s.(last_admitted) else s.(last_observed))
    else Err NoFreshExactWindow ;;
  return_if (x.(expires_at) <=? now)%N with Err NoFreshExactWindow ;;
  let a := x.(selected_authority) in
  return_if negb (a.(AgentAuthorityRequest.generation) =? session.(handoff_generation))%N
            || negb (a.(AgentAuthorityRequest.capability_revision)
                     =? session.(handoff_capability_revision))%N
    with Err SessionFenceMismatch ;;
  Ok x.

Definition selected_authority_for_context (s : HandoffSelectionState) (admitted : bool)
    (session : option HandoffSessionFence) (expected : option string) (now : N)
    : result HandoffOperatorControlError AgentAuthorityRequest :=
  let_ok x := fresh_selection s admitted session now else e => Err e ;;
  return_if match expected with
            | Some handle => negb (bool_decide (handle = x.(context_handle)))
            | None => false
            end
    with Err ContextHandleMismatch ;;
  Ok x.(selected_authority).

Definition issue_operator_context_handle (s : HandoffSelectionState) (admitted : bool)
    (session : option HandoffSessionFence) (now : N) : result HandoffOperatorControlError string :=
  let_ok x := fresh_selection s admitted session now else e => Err e ;;
  Ok x.(context_handle).

(** ** Translations *)

Definition legacy_request (b : HandoffAgentBinding) : AgentAuthorityRequest :=
  AgentAuthorityRequest.mk b.(HandoffAgentBinding.principal_binding)
    b.(HandoffAgentBinding.device_binding) b.(HandoffAgentBinding.generation)
    b.(HandoffAgentBinding.capability_revision)
    ((λ '(HandoffSurfaceBinding.OsWindow w), w) <$> b.(HandoffAgentBinding.surface))
    b.(HandoffAgentBinding.verification_candidate).

Definition remote_surface (w : ExactWindowBinding) : RemoteHandoffSurfaceBinding :=
  RemoteHandoffSurfaceBinding.OsWindow (RemoteHandoffExactWindow.mk
    w.(ExactWindowBinding.context_binding) w.(ExactWindowBinding.process_id)
    w.(ExactWindowBinding.window_id)).

Definition remote_authority (a : AgentAuthorityRequest) : RemoteHandoffAuthority :=
  RemoteHandoffAuthority.mk a.(AgentAuthorityRequest.principal_binding)
    a.(AgentAuthorityRequest.device_binding) a.(AgentAuthorityRequest.generation)
    a.(AgentAuthorityRequest.capability_revision)
    (remote_surface <$> a.(AgentAuthorityRequest.exact_window))
    a.(AgentAuthorityRequest.verification_candidate).

Definition map_remote_hub_error (e : HubCommandError) : OperatorHandoffError :=
  match e with
  | HubCommandError.AgentOffline | HubCommandError.SessionClosed
  | HubCommandError.SessionSuperseded => OperatorHandoffError.Unavailable
  | _ => OperatorHandoffError.Protocol
  end.

Definition map_remote_error (code : RemoteHandoffErrorCode) : OperatorHandoffError :=
  match code with
  | RemoteHandoffErrorCode.Unsupported => OperatorHandoffError.Unsupported
  | RemoteHandoffErrorCode.Unavailable => OperatorHandoffError.Unavailable
  | _ => OperatorHandoffError.Protocol
  end.

Definition local_status_from_remote (s : RemoteHandoffStatus) (locator : option string)
    : HandoffRuntimeStatus :=
  HandoffRuntimeStatus.mk s.(RemoteHandoffStatus.active) s.(RemoteHandoffStatus.recovery_required)
    s.(RemoteHandoffStatus.recovery_status) s.(RemoteHandoffStatus.recovery_epoch)
    s.(RemoteHandoffStatus.recovery_expired) s.(RemoteHandoffStatus.resume_requested)
    s.(RemoteHandoffStatus.faulted) s.(RemoteHandoffStatus.human_surface) locator.

(** ** Over the session with the Agent *)

(** What [HubHandle::handoff_request] answers *)
Definition Relay : Type := RemoteHandoffRequestKind → result HubCommandError RemoteHandoffResponseKind.

Definition remote_admit_agent (ask : Relay) (a : AgentAuthorityRequest)
    : result OperatorHandoffError Agent.AgentAuthorityDecision :=
  match ask (RemoteHandoffRequestKind.Admission (remote_authority a)) with
  | Err e => Err (map_remote_hub_error e)
  | Ok (RemoteHandoffResponseKind.Admission d) =>
      Ok match d with
         | RemoteHandoffAdmissionDecision.Allow => Agent.Allow
         | RemoteHandoffAdmissionDecision.Deny => Agent.Deny
         | RemoteHandoffAdmissionDecision.Verification id epoch =>
             Agent.Verification (Agent.mk_token id epoch)
         end
  | Ok (RemoteHandoffResponseKind.Rejected code) => Err (map_remote_error code)
  | Ok _ => Err OperatorHandoffError.Protocol
  end.

Definition remote_relay_error (e : HubCommandError) : HandoffOperatorControlError :=
  match e with
  | HubCommandError.AgentOffline | HubCommandError.SessionClosed
  | HubCommandError.SessionSuperseded => Runtime HandoffControlError.Unavailable
  | HubCommandError.Busy => AgentNotIdle
  | HubCommandError.DeviceIndeterminate _ => DeviceQuarantined
  | _ => Runtime HandoffControlError.Protocol
  end.

Definition rejected_control (code : RemoteHandoffErrorCode) : HandoffOperatorControlError :=
  match code with
  | RemoteHandoffErrorCode.SessionFenceMismatch => SessionFenceMismatch
  | RemoteHandoffErrorCode.InvalidRequest => InvalidRecoveryProof
  | RemoteHandoffErrorCode.Unsupported => Unsupported
  | RemoteHandoffErrorCode.Unavailable => Runtime HandoffControlError.Unavailable
  | RemoteHandoffErrorCode.Rejected => InvalidLifecycleState
  | RemoteHandoffErrorCode.Protocol => Runtime HandoffControlError.Protocol
  end.

Definition remote_command (s : HandoffSelectionState) (c : HandoffOperatorCommand)
    (session : option HandoffSessionFence) (handle : option string) (now : N)
    : result HandoffOperatorControlError
        (RemoteHandoffOperatorCommand * option RemoteHandoffAuthority) :=
  let about admitted command :=
    let_ok a := selected_authority_for_context s admitted session handle now else e => Err e ;;
    Ok (command, Some (remote_authority a)) in
  match c with
  | HandoffOperatorCommand.Status => Ok (RemoteHandoffOperatorCommand.Status, None)
  | HandoffOperatorCommand.Begin => about true RemoteHandoffOperatorCommand.Begin
  | HandoffOperatorCommand.RecoverReissue => about false RemoteHandoffOperatorCommand.RecoverReissue
  | HandoffOperatorCommand.RecoverRebind context generation revision =>
      return_if negb (AgentHandoff.valid_context_id context) with Err InvalidRecoveryProof ;;
      about false (RemoteHandoffOperatorCommand.RecoverRebind context generation revision)
  | HandoffOperatorCommand.RebindLive => about false RemoteHandoffOperatorCommand.RebindLive
  | HandoffOperatorCommand.AbandonExpiredRecovery epoch =>
      Ok (RemoteHandoffOperatorCommand.AbandonExpiredRecovery epoch, None)
  | HandoffOperatorCommand.RequestResume => Ok (RemoteHandoffOperatorCommand.RequestResume, None)
  | HandoffOperatorCommand.CancelBeforeHuman =>
      Ok (RemoteHandoffOperatorCommand.CancelBeforeHuman, None)
  end.

Definition remote_operator_control (ask : Relay) (s : HandoffSelectionState)
    (c : HandoffOperatorCommand) (session : option HandoffSessionFence) (handle : option string)
    (now : N) : result HandoffOperatorControlError HandoffRuntimeStatus :=
  let_ok x := remote_command s c session handle now else e => Err e ;;
  match ask (RemoteHandoffRequestKind.Operator x.1 x.2) with
  | Err e => Err (remote_relay_error e)
  | Ok (RemoteHandoffResponseKind.Status status) => Ok (local_status_from_remote status None)
  | Ok (RemoteHandoffResponseKind.Operator status locator) =>
      Ok (local_status_from_remote status locator)
  | Ok (RemoteHandoffResponseKind.Rejected code) => Err (rejected_control code)
  | Ok (RemoteHandoffResponseKind.Admission _) => Err (Runtime HandoffControlError.Protocol)
  end.

(** ** Over a runtime of its own *)

Section Managed.
Context `{HJ : HandoffJson}.
Variable io : nat → Exchange.

Definition managed_status : M HandoffOperatorControlError HandoffRuntimeStatus :=
  map_err Runtime (status io).
Definition managed_control (c : HandoffRuntimeControl)
    : M HandoffOperatorControlError HandoffRuntimeStatus := map_err Runtime (control io c).

Definition managed_active (wanted : HandoffInterventionStatus → bool) (s : HandoffRuntimeStatus)
    : M HandoffOperatorControlError HandoffActiveStatus :=
  match s.(HandoffRuntimeStatus.active) with
  | Some a => if wanted a.(HandoffActiveStatus.status) then mret a else fail InvalidLifecycleState
  | None => fail InvalidLifecycleState
  end.

Definition managed_operator_control (s : HandoffSelectionState) (c : HandoffOperatorCommand)
    (session : option HandoffSessionFence) (handle : option string) (now : N)
    : M HandoffOperatorControlError HandoffRuntimeStatus :=
  let selected admitted := lift (selected_authority_for_context s admitted session handle now) in
  match c with
  | HandoffOperatorCommand.Status => managed_status
  | HandoffOperatorCommand.Begin =>
      a ← selected true;
      managed_control (HandoffRuntimeControl.Begin a)
  | HandoffOperatorCommand.RecoverReissue =>
      st ← managed_status;
      if negb st.(HandoffRuntimeStatus.recovery_required) || st.(HandoffRuntimeStatus.recovery_expired)
      then fail InvalidLifecycleState else
      a ← selected false;
      managed_control (HandoffRuntimeControl.RecoverReissue a)
  | HandoffOperatorCommand.RecoverRebind context generation revision =>
      if negb (AgentHandoff.valid_context_id context) then fail InvalidRecoveryProof else
      st ← managed_status;
      if negb st.(HandoffRuntimeStatus.recovery_required) then fail InvalidLifecycleState else
      a ← selected false;
      if match generation with
         | Some g => (g =? 0)%N || (a.(AgentAuthorityRequest.generation) <? g)%N
         | None => false
         end
         || match revision with
            | Some r => (a.(AgentAuthorityRequest.capability_revision) <? r)%N
            | None => false
            end
      then fail InvalidRecoveryProof else
      managed_control (HandoffRuntimeControl.RecoverRebind a context generation revision)
  | HandoffOperatorCommand.RebindLive =>
      a ← selected false;
      managed_control (HandoffRuntimeControl.RebindLive a)
  | HandoffOperatorCommand.AbandonExpiredRecovery epoch =>
      st ← managed_status;
      if negb st.(HandoffRuntimeStatus.recovery_required)
         || negb st.(HandoffRuntimeStatus.recovery_expired)
         || negb (bool_decide (st.(HandoffRuntimeStatus.recovery_epoch) = Some epoch))
         || opt_some st.(HandoffRuntimeStatus.active) || st.(HandoffRuntimeStatus.faulted)
      then fail InvalidLifecycleState else
      managed_control (HandoffRuntimeControl.AbandonExpiredRecovery epoch)
  | HandoffOperatorCommand.RequestResume =>
      st ← managed_status;
      active ← managed_active AgentHandoff.is_ready_to_resume st;
      managed_control (HandoffRuntimeControl.RequestResume
        active.(HandoffActiveStatus.intervention_id) active.(HandoffActiveStatus.epoch))
  | HandoffOperatorCommand.CancelBeforeHuman =>
      st ← managed_status;
      active ← managed_active AgentHandoff.is_awaiting_human st;
      managed_control (HandoffRuntimeControl.CancelBeforeHuman
        active.(HandoffActiveStatus.intervention_id) active.(HandoffActiveStatus.epoch))
  end.

(** [operator_control_inner]: an Agent that owns the runtime comes first; the compatibility
    backend has no control. *)
Inductive Control := AgentOwned (ask : Relay) | Managed | Compatibility.

Definition operator_control_inner (mode : Control) (s : HandoffSelectionState)
    (c : HandoffOperatorCommand) (session : option HandoffSessionFence) (handle : option string)
    (now : N) : M HandoffOperatorControlError HandoffRuntimeStatus :=
  match mode with
  | AgentOwned ask => lift (remote_operator_control ask s c session handle now)
  | Managed => managed_operator_control s c session handle now
  | Compatibility => fail Unsupported
  end.

Definition operator_control (mode : Control) (s : HandoffSelectionState) (c : HandoffOperatorCommand)
    (session : option HandoffSessionFence) (now : N)
    : M HandoffOperatorControlError HandoffRuntimeStatus :=
  operator_control_inner mode s c session None now.

Definition operator_control_for_context (mode : Control) (s : HandoffSelectionState)
    (c : HandoffOperatorCommand) (session : option HandoffSessionFence) (handle : string) (now : N)
    : M HandoffOperatorControlError HandoffRuntimeStatus :=
  if negb (valid_operator_context_handle handle) then fail ContextHandleMismatch
  else operator_control_inner mode s c session (Some handle) now.
End Managed.

(** ** Admission before dispatch *)

Section Admission.
Context `{SHA : Sha256}.

Definition about_context (context : string) (x : option SelectedWindowAuthority) : bool :=
  match x with
  | Some x =>
      match x.(selected_authority).(AgentAuthorityRequest.exact_window) with
      | Some w => bool_decide (w.(ExactWindowBinding.context_binding)
                               = interaction_context_binding context)
      | None => false
      end
  | None => false
  end.

Definition invalidate_context (s : HandoffSelectionState) (context : string) : HandoffSelectionState :=
  mk_selections
    (if about_context context s.(last_observed) then None else s.(last_observed))
    (if about_context context s.(last_admitted) then None else s.(last_admitted)).

Definition agent_binding (p : Trust.AuthenticatedClientPrincipal) (device_id : string)
    (generation capability_revision : N) (c : DeviceCommand) : HandoffAgentBinding :=
  HandoffAgentBinding.mk (principal_binding p) (device_binding device_id) generation
    capability_revision (HandoffSurfaceBinding.OsWindow <$> window_binding c)
    (AgentSession.is_exact_verification_candidate c).

(** [backend] is the backend, the trait [OperatorHandoffAuthority]; the two instants and random
    strings are those of the two selections. *)
Definition admit_agent_with_context_valid_for
    (backend : AgentAuthorityRequest → result OperatorHandoffError Agent.AgentAuthorityDecision)
    (local_to_agent : bool) (s : HandoffSelectionState) (p : Trust.AuthenticatedClientPrincipal)
    (device_id : string) (generation capability_revision : N) (c : DeviceCommand)
    (valid_for : option N) (observed_at admitted_at : N) (random random' : list N)
    : HandoffSelectionState * result HandoffCoordinatorError (option HandoffAdmission) :=
  return_if negb (AgentSession.is_phase1_protected_command c) with (s, Ok None) ;;
  let binding := agent_binding p device_id generation capability_revision c in
  let request := legacy_request binding in
  let s := remember_observed_window s request observed_at random valid_for in
  match backend request with
  | Err e => (s, Err (HandoffCoordinatorError.Backend e))
  | Ok Agent.Allow =>
      (remember_admitted_window s request admitted_at random' valid_for,
       Ok (Some (HandoffAdmission.mk binding None local_to_agent)))
  | Ok Agent.Deny => (s, Err HandoffCoordinatorError.AuthoritySuspended)
  | Ok (Agent.Verification token) =>
      if negb binding.(HandoffAgentBinding.verification_candidate)
         || opt_none binding.(HandoffAgentBinding.surface)
      then (s, Err HandoffCoordinatorError.InvalidSemanticDecision)
      else (s, Ok (Some (HandoffAdmission.mk binding (Some token) local_to_agent)))
  end.

Definition satisfied_result (r : DeviceResult) : bool :=
  match r with
  | DeviceResult.UiStateVerification VerificationStatus.Satisfied _ _ _ _ => true
  | _ => false
  end.

Definition report_verification
    (report : VerificationReport → result OperatorHandoffError unit) (a : HandoffAdmission)
    (r : DeviceResult) : result HandoffCoordinatorError unit :=
  let_some token := a.(HandoffAdmission.verification) else Ok tt ;;
  match report (VerificationReport.mk (legacy_request a.(HandoffAdmission.binding)) token
                  (satisfied_result r)) with
  | Ok _ => Ok tt
  | Err e => Err (HandoffCoordinatorError.Backend e)
  end.
End Admission.
End HandoffCoordinator.
