(* ===== verification/AgentLogic.v ===== *)
(** * Reasoning about the Agent

    What a later start may find after [save] of [src/src/v2_m1_persistence.rs] was
    called, under every fault and power failure, and the rules with which the programs of the
    Agent ([src/src/v2_m1_agent.rs]) are shown to stay within a relation on its state
    wherever they end: with a result, with an error, or by the death of the process. *)

From S2P Require Import Prelude Vocabulary Protocol Crypto Tombstone Admission Registry Grants.
From S2P Require Import SafetyTypes Recovery EphemeralRefs Evidence Transport AgentGate.
From S2P Require Import SessionRuntime Trust Persistence PersistenceTheorems AgentErrors.
From S2P Require Import AgentWorker Agent AgentSession.
Import Persistence Agent.

(** ** What may be loaded *)

Section Saving.
Context `{HI : HashIter} {T : Type} `{CJ : CheckpointJson T} `{CJL : !CheckpointJsonLaws T}.
Variable store : CheckpointStore.
Hypothesis valid_store : new_checkpoint_store store.(prefix) = Ok store.

(** What the next start may find: the checkpoint of the directory as it is seen, or as
    it is after a power failure. *)
Definition may_load (d : Disk) (x : result PersistenceError T) : Prop :=
  ∃ d', found_after store d d' ∧ x = match load store d' with Ok (_, v) => Ok v | Err e => Err e end.

Lemma found_after_refl d : found_after store d d.
Proof. intros n _. by left. Qed.

Lemma found_after_same d d' x :
  same_checkpoints store d'.(visible) d.(visible) →
  same_checkpoints store d'.(durable) d.(durable) → found_after store d' x → found_after store d x.
Proof. intros Hv Hd Hf n Hn. rewrite <- Hv, <- Hd by done. by apply Hf. Qed.

Lemma may_load_crash d d' x : crash d d' → may_load d' x → may_load d x.
Proof.
  intros [Heq Hc] (y & Hf & ->). exists y. split; [|done]. intros n Hn.
  specialize (Hc (checkpoint_name store.(prefix) n)). unfold ckpt in *.
  destruct (Hf n Hn) as [Hy|Hy]; unfold ckpt in Hy; rewrite Hy; rewrite <- ?Heq; done.
Qed.

Lemma durable_below_crash d d' : crash d d' → durable_below store d'.
Proof. intros [Heq _] n Hn. exists n. by rewrite Heq. Qed.

Lemma load_may_load d io x :
  load_latest_with_sequence store d io = x →
  match x with
  | Ok (_, v) => may_load d (Ok v)
  | Err PersistenceError.NoCheckpoint => may_load d (Err PersistenceError.NoCheckpoint)
  | Err _ => True
  end.
Proof.
  intros <-. unfold may_load. destruct (load_latest_with_sequence store d io) as [[n v]|e] eqn:E.
  - exists d. split; [apply found_after_refl|]. unfold load.
    unfold load_latest_with_sequence in *. destruct (ensure_directory io); [|done].
    destruct (listing_fails io); [done|]. cbn. destruct (latest_sequence store _); [|done].
    unfold read_secure_json in *. destruct (_ !! _) as [[payload mode|]|]; [|done|done].
    destruct (_ <? _)%N; [done|]. destruct (negb _); [done|]. destruct (read_fails io); [done|].
    cbn. destruct (checkpoint_from_slice payload); [|done]. by simplify_eq.
  - destruct e; try exact I. exists d. split; [apply found_after_refl|].
    unfold load, load_latest_with_sequence in *. unfold ensure_directory in E.
    destruct (directory_fault io) as [[]|]; [done..|].
    destruct (listing_fails io); [done|]. cbn. destruct (latest_sequence store _); [|done].
    unfold read_secure_json in *. destruct (_ !! _) as [[payload mode|]|]; [|done|done].
    destruct (_ <? _)%N; [done|]. destruct (negb _); [done|]. destruct (read_fails io); [done|].
    by destruct (checkpoint_from_slice payload).
Qed.

(** How a save may end: without a change, with a link that is not known to be durable, or
    with the new checkpoint in place. *)
Inductive saved (d : Disk) (v : T) (d' : Disk) : bool → Prop :=
| saved_not :
    same_checkpoints store d'.(visible) d.(visible) →
    same_checkpoints store d'.(durable) d.(durable) → saved d v d' false
| saved_linked n payload :
    linked store d d' n payload → checkpoint_to_vec v = Some payload →
    (vlen payload ≤ MAX_CHECKPOINT_BYTES)%N → saved d v d' false
| saved_published n payload ok :
    latest_is store d'.(visible) n payload → latest_is store d'.(durable) n payload →
    checkpoint_to_vec v = Some payload → (vlen payload ≤ MAX_CHECKPOINT_BYTES)%N →
    saved d v d' ok.

Lemma link_next_taken tries d io pending payload :
  is_Some (d.(visible) !! checkpoint_name store.(prefix) u64_max) →
  link_next store tries d io pending payload u64_max =
    (discard_pending io pending d, Err PersistenceError.SequenceContention).
Proof.
  intros Hn. induction tries as [|k IH]; [done|]. cbn [link_next].
  rewrite bool_decide_true by done.
  replace (saturating_add u64_max 1) with u64_max by (unfold saturating_add; lia). done.
Qed.

Lemma link_next_saved tries d d2 io v payload expected d' r :
  latest_sequence store d.(visible) = expected → (next_of expected ≤ u64_max)%N →
  same_checkpoints store d2.(visible) d.(visible) → d2.(durable) = d.(durable) →
  checkpoint_to_vec v = Some payload → (vlen payload ≤ MAX_CHECKPOINT_BYTES)%N →
  link_next store (S tries) d2 io (pending_name store.(prefix) io.(pending_random)) payload
    (next_of expected) = (d', r) → saved d v d' (is_ok r).
Proof.
  intros Hl Hn Hv Hd Hvec Hlen Hrun. cbn [link_next] in Hrun.
  pose proof (linked_publish store d d2 expected payload Hl Hn Hv Hd) as Hlink.
  rewrite bool_decide_false in Hrun.
  2: { intros Hs. assert (holds store d.(visible) (next_of expected)) as Hh
         by (split; [rewrite <- Hv by done; exact Hs|done]).
       destruct expected as [m|].
       - apply latest_sequence_Some in Hl as [_ Hmax]. apply Hmax in Hh.
         change (next_of (Some m)) with (m + 1)%N in Hh. lia.
       - by apply latest_sequence_None in Hh. }
  destruct (link_fails io).
  { injection Hrun as <- <-. apply saved_not; [|by rewrite discard_durable, Hd].
    intros n Hu. by rewrite (discard_visible store valid_store io io.(pending_random) d2 n Hu), Hv. }
  destruct (sync_fails io); [injection Hrun as <- <-; by eapply saved_linked|].
  set (d3 := on_visible _ d2) in *.
  destruct (finish_latest store valid_store io io.(pending_random) (synced d3) (next_of expected) payload)
    as [Hf1 Hf2]; [apply Hlink|apply Hlink|].
  pose proof (prune_keeps_latest store valid_store _ io _ _ Hf1 Hf2) as [Hp1 Hp2].
  destruct (prune_old_checkpoints store _ io MAX_RETAINED_CHECKPOINTS) as [d4 r'].
  assert (d' = d4) as -> by (destruct r'; by injection Hrun as <- <-). by eapply saved_published.
Qed.

Lemma save_saved d io v d' r :
  plain_faults io → save_with_size store d io v = (d', r) → saved d v d' (is_ok r).
Proof.
  intros Hmean Hs. unfold save_with_size in Hs.
  assert (∀ e, (d, Err e) = (d', r) → saved d v d' (is_ok r)) as Hnot
    by (intros e [= <- <-]; by apply saved_not).
  destruct (ensure_directory io); [|eauto].
  destruct (checkpoint_to_vec v) as [payload|] eqn:Hvec; [|eauto].
  destruct (_ <? _)%N eqn:Hlen; [eauto|]. apply N.ltb_ge in Hlen.
  destruct (pending_error io); [eauto|].
  set (pending := pending_name store.(prefix) io.(pending_random)) in *.
  set (d1 := on_visible (<[pending := RegularFile [] 384]>) d) in *.
  assert (same_checkpoints store d1.(visible) d.(visible)) as H1
    by (intros m _; by apply ckpt_insert_pending).
  assert (∀ x e, same_checkpoints store x.(visible) d.(visible) → x.(durable) = d.(durable) →
    (discard_pending io pending x, Err e) = (d', r) → saved d v d' (is_ok r)) as Hdiscard.
  { intros x e Hx Hxd [= <- <-]. apply saved_not; [|by rewrite discard_durable, Hxd].
    intros n Hu. unfold pending. by rewrite (discard_visible store valid_store io _ x n Hu), Hx. }
  destruct (write_fails io); [by eapply Hdiscard|].
  set (d2 := on_visible (<[pending := RegularFile payload 384]>) d1) in *.
  assert (same_checkpoints store d2.(visible) d.(visible)) as H2.
  { intros m Hm. unfold d2, pending. cbn [on_visible visible]. rewrite ckpt_insert_pending by done.
    by apply H1. }
  destruct (listing_fails io); [by eapply Hdiscard|].
  assert (on_visible io.(meanwhile) d2 = d2) as Heq
    by (unfold on_visible; rewrite Hmean; by destruct d2).
  rewrite Heq, (same_checkpoints_latest store _ _ H2) in Hs.
  destruct (latest_sequence store d.(visible)) as [s|] eqn:Hl.
  - destruct (decide (s = u64_max)) as [->|Hne].
    + replace (saturating_add u64_max 1) with u64_max in Hs by (unfold saturating_add; lia).
      rewrite link_next_taken in Hs; [by eapply Hdiscard|].
      pose proof Hl as [[Hh Hu] _]%latest_sequence_Some.
      rewrite <- H2 in Hh by done. exact Hh.
    + pose proof Hl as [[_ Hu] _]%latest_sequence_Some.
      assert (saturating_add s 1 = next_of (Some s)) as Hnext
        by (unfold saturating_add; change (next_of (Some s)) with (s + 1)%N; lia).
      rewrite Hnext in Hs. eapply (link_next_saved 7 d d2); eauto.
      change (next_of (Some s)) with (s + 1)%N. lia.
  - eapply (link_next_saved 7 d d2 io v payload None); eauto.
    change (next_of None) with 1%N. unfold u64_max. lia.
Qed.

(** Every save leaves what was there or the new value, and a save that succeeds leaves
    the new value only. *)
Lemma save_may_load d io v d' r :
  plain_faults io → durable_below store d → save_with_size store d io v = (d', r) →
  durable_below store d' ∧ (∀ x, may_load d' x → may_load d x ∨ x = Ok v)
  ∧ (is_ok r = true → ∀ x, may_load d' x → x = Ok v).
Proof.
  intros Hio Hb Hs. pose proof (save_saved _ _ _ _ _ Hio Hs) as Hc.
  destruct Hc as [Hv Hd|n payload Hlink Hvec Hlen|n payload ok Hlv Hld Hvec Hlen].
  - split_and!; [|intros x (y & Hf & ->); left; exists y; eauto using found_after_same|done].
    intros m [Hm Hu]. rewrite Hd in Hm by done. destruct (Hb m (conj Hm Hu)) as (k & [Hk Hku] & Hle).
    exists k. split; [|done]. split; [|done]. by rewrite Hv.
  - split_and!; [| |done].
    + intros m [Hm Hu]. rewrite (linked_durable _ _ _ _ _ Hlink) in Hm by done.
      destruct (Hb m (conj Hm Hu)) as (k & [Hk Hku] & Hle).
      destruct (linked_new _ _ _ _ _ Hlink) as [Hl He]. exists n.
      apply latest_sequence_Some in Hl as [Hh Hmax]. split; [done|].
      destruct (decide (k = n)) as [->|Hne]; [done|]. assert (holds store d'.(visible) k) as Hk'
        by (split; [by rewrite (linked_old _ _ _ _ _ Hlink)|done]). apply Hmax in Hk'. lia.
    + intros x (y & Hf & ->). pose proof (checkpoint_roundtrip v payload Hvec) as Hdec.
      destruct (linked_found store d d' n payload v y) as [-> |Hf']; eauto using Hb.
      left. by exists y.
  - assert (∀ x, may_load d' x → x = Ok v) as Hall.
    { intros x (y & Hf & ->). assert (top_synced store d') as Htop.
      { destruct Hlv as [Hl He], Hld as [Hl' He']. split; [congruence|]. intros. congruence. }
      rewrite (found_top_synced store d' y Htop Hf).
      rewrite (latest_is_load store d' n payload v Hlv); eauto using checkpoint_roundtrip. }
    split_and!; [|by right; apply Hall|done]. intros m Hm. destruct Hld as [Hl' He'].
    apply latest_sequence_Some in Hl' as [_ Hmax]. exists n. split; [|by apply Hmax].
    by destruct Hlv as [[Hh _]%latest_sequence_Some _].
Qed.
End Saving.

(** ** Programs *)

Section Programs.
Context `{ED : Ed25519} `{TS : RotationSerializer} `{HI : HashIter} `{SU : !AgentSetup}
  `{CJ : CheckpointJson AgentPersistentState}.

(** Wherever [m] ends, it ends in a state that is related to the one it started in. *)
Definition along (R : relation Task) {X} (m : A X) : Prop := ∀ t, R t (m t).1.

Section Along.
Variable R : relation Task.
Context `{HR : !PreOrder R}.

Lemma along_bind {X Y} (m : A X) (f : X → A Y) :
  along R m → (∀ x, along R (f x)) → along R (m ≫= f).
Proof.
  intros Hm Hf t. specialize (Hm t). unfold mbind, A_bind. destruct (m t) as [t1 [x|e]]; [|done].
  cbn in Hm. transitivity t1; [done|apply Hf].
Qed.

Lemma along_attempt {X} (m : A X) : along R m → along R (attempt m).
Proof. intros Hm t. specialize (Hm t). unfold attempt. by destruct (m t) as [? [?|[|?]]]. Qed.

Lemma along_ret {X} (x : X) : along R (mret x).
Proof. intros t. reflexivity. Qed.
Lemma along_fail {X} e : along R (fail e : A X).
Proof. intros t. reflexivity. Qed.
Lemma along_crash {X} : along R (crash_now : A X).
Proof. intros t. reflexivity. Qed.
Lemma along_gets {X} (f : Task → X) : along R (gets f).
Proof. intros t. reflexivity. Qed.
Lemma along_lift {E X} (f : E → AgentServiceError) (r : result E X) : along R (lift f r).
Proof. intros t. reflexivity. Qed.
Lemma along_ok_or {X} e (o : option X) : along R (ok_or e o).
Proof. intros t. reflexivity. Qed.
End Along.

(** From a state with [P], [m] ends with a result in a state with [Q], or otherwise in a
    state with [E]. *)
Definition triple {X} (P : Task → Prop) (m : A X) (Q : X → Task → Prop) (E : Task → Prop)
    : Prop :=
  ∀ t, P t → match (m t).2 with Ok x => Q x (m t).1 | Err _ => E (m t).1 end.

Lemma triple_bind {X Y} P (m : A X) Q (f : X → A Y) Q' E :
  triple P m Q E → (∀ x, triple (Q x) (f x) Q' E) → triple P (m ≫= f) Q' E.
Proof.
  intros Hm Hf t Ht. specialize (Hm t Ht). unfold mbind, A_bind.
  destruct (m t) as [t1 [x|e]]; [|done]. by apply Hf.
Qed.

Lemma triple_weaken {X} P P' (m : A X) Q Q' E E' :
  triple P' m Q' E' → (∀ t, P t → P' t) → (∀ x t, Q' x t → Q x t) → (∀ t, E' t → E t) →
  triple P m Q E.
Proof.
  intros Hm HP HQ HE t Ht. specialize (Hm t (HP t Ht)). destruct (m t) as [t1 [x|e]]; cbn; auto.
Qed.

Lemma triple_gets {X Y} P (g : Task → X) (f : X → A Y) Q E :
  (∀ x, triple (λ t, P t ∧ g t = x) (f x) Q E) → triple P (gets g ≫= f) Q E.
Proof. intros Hf t Ht. by apply (Hf (g t)). Qed.

Lemma triple_lift {E X Y} P (g : E → AgentServiceError) (r : result E X) (f : X → A Y) Q F :
  (∀ x, r = Ok x → triple P (f x) Q F) → (∀ t, P t → F t) → triple P (lift g r ≫= f) Q F.
Proof.
  intros Hf HF t Ht. unfold lift, mbind, A_bind. destruct r as [x|e]; [by apply Hf|by apply HF].
Qed.

Lemma triple_pure {X} (φ : Prop) P (m : A X) Q E :
  (φ → triple P m Q E) → triple (λ t, P t ∧ φ) m Q E.
Proof. intros Hm t [Ht Hφ]. by apply Hm. Qed.

Lemma triple_exists {X Y} (P : Y → Task → Prop) (m : A X) Q E :
  (∀ y, triple (P y) m Q E) → triple (λ t, ∃ y, P y t) m Q E.
Proof. intros Hm t (y & Ht). by apply (Hm y). Qed.

Lemma triple_along {X} (I : Task → Prop) (m : A X) :
  along (λ t t', I t → I t') m → triple I m (λ _, I) I.
Proof. intros Hm t Ht. specialize (Hm t Ht). by destruct (m t) as [t1 [x|e]]. Qed.

Lemma along_triple {X} (I : Task → Prop) (m : A X) :
  triple I m (λ _, I) I → along (λ t t', I t → I t') m.
Proof. intros Hm t Ht. specialize (Hm t Ht). by destruct (m t) as [t1 [x|e]]. Qed.

(** A bind whose first program establishes something about its result *)
Lemma along_bind_with {X Y} R `{!PreOrder R} P (S : X → Prop) (m : A X) (f : X → A Y) t :
  P t → along R m → triple P m (λ x _, S x) (λ _, True) → (∀ x, S x → along R (f x)) →
  R t ((m ≫= f) t).1.
Proof.
  intros Ht Hm HS Hf. specialize (Hm t). specialize (HS t Ht). unfold mbind, A_bind.
  destruct (m t) as [t1 [x|e]]; [|done]. cbn in *. transitivity t1; [done|]. by apply Hf.
Qed.

#[export] Instance keeps_preorder (I : Task → Prop) : PreOrder (λ t t', I t → I t').
Proof. split; [by intros t|]. intros t1 t2 t3. auto. Qed.

(** *** Programs that change nothing of importance *)

(** Messages that report no outcome of an operation *)
Definition harmless (m : AgentToHub) : Prop :=
  match m with AgentToHub.Result _ | AgentToHub.ReconciliationReport _ => False | _ => True end.

Record quiet_step (t t' : Task) : Prop := {
  quiet_agent : t'.(world).(agent) = t.(world).(agent);
  quiet_disk : t'.(world).(disk) = t.(world).(disk);
  quiet_history : t'.(world).(history) = t.(world).(history);
  quiet_active : t'.(session).(active) = t.(session).(active);
  quiet_worker : t'.(session).(worker) = t.(session).(worker);
  quiet_outbox : ∃ l, t'.(world).(outbox) = t.(world).(outbox) ++ l ∧ Forall harmless l;
  quiet_consulted : ∃ l, t'.(world).(consulted) = l ++ t.(world).(consulted)
}.

#[export] Instance quiet_preorder : PreOrder quiet_step.
Proof.
  split.
  - intros t. split; try done; exists []; [by rewrite app_nil_r|done].
  - intros t1 t2 t3 [????? (l & Hl1 & Hl) (k & Hk)] [????? (l' & Hl2 & Hl') (k' & Hk')].
    split; try congruence.
    + rewrite Hl2, Hl1. exists (l ++ l'). rewrite <- app_assoc. split; [done|by apply Forall_app].
    + rewrite Hk', Hk. exists (k' ++ k). by rewrite <- app_assoc.
Qed.

Lemma quiet_effect : along quiet_step effect.
Proof.
  intros t. unfold effect. destruct (env_alive env _); [|reflexivity].
  split; try done; exists []; [by rewrite app_nil_r|done].
Qed.

Lemma quiet_files f : along quiet_step (on_files f).
Proof. intros t. split; try done; exists []; [by rewrite app_nil_r|done]. Qed.

Lemma quiet_session f :
  (∀ s, (f s).(active) = s.(active) ∧ (f s).(worker) = s.(worker)) →
  along quiet_step (on_session f).
Proof.
  intros Hf t. split; try apply Hf; try done; exists []; [by rewrite app_nil_r|done].
Qed.

Lemma quiet_push m :
  harmless m →
  along quiet_step (on_world (λ w, mk_world w.(agent) w.(disk) w.(files) (w.(outbox) ++ [m])
                                     w.(history) w.(consulted) w.(tick))).
Proof. intros Hm t. split; try done; [exists [m]; auto|by exists []]. Qed.

Lemma consult_Ok {X} (answer : nat → X) call t x :
  (consult answer call t).2 = Ok x →
  x = answer t.(world).(tick)
  ∧ (consult answer call t).1.(world).(consulted) = call x :: t.(world).(consulted).
Proof.
  unfold consult, effect, mbind, A_bind. destruct (env_alive env _); [|done]. by intros [= <-].
Qed.

Lemma quiet_consult {X} (answer : nat → X) call : along quiet_step (consult answer call).
Proof.
  unfold consult. apply along_bind; [typeclasses eauto|apply quiet_effect|]. intros n.
  apply along_bind; [typeclasses eauto| |intros ?; apply (along_ret quiet_step)].
  intros t. split; try done; [exists []; by rewrite app_nil_r|by exists [call (answer n)]].
Qed.
End Programs.

Create HintDb along.
#[export] Hint Resolve along_ret along_fail along_crash along_gets along_lift along_ok_or
  quiet_effect quiet_files quiet_consult : along.
#[export] Hint Extern 0 (PreOrder _) => typeclasses eauto : along.

(** Follow a program: binds, attempts and branches; what is left are its primitive steps. *)
Ltac walk_step :=
  lazymatch goal with
  | |- ∀ _, _ => intro
  | |- along _ (_ ≫= _) => apply along_bind; [typeclasses eauto| |]
  | |- along _ (attempt _) => apply along_attempt
  | |- along _ (match ?x with _ => _ end) => destruct x
  | |- along _ _ => solve [eauto 3 with along]
  end.
Ltac walk := repeat walk_step.
