(* ===== verification/AgentQuiet.v ===== *)
(** * The programs of the Agent that leave its records alone

    Which programs of [src/src/v2_m1_agent.rs] change neither the state of the Agent, nor its
    checkpoints, nor the active operation, and send no outcome; what [persist_state]
    does to the checkpoints. *)

From S2P Require Import Prelude Vocabulary Protocol Crypto Tombstone Admission Registry Grants.
From S2P Require Import SafetyTypes Recovery EphemeralRefs Evidence Transport AgentGate.
From S2P Require Import SessionRuntime Trust Persistence PersistenceTheorems AgentErrors.
From S2P Require Import AgentWorker Agent AgentSession AgentLogic.
Import Persistence Agent AgentSession.AgentSession.

Lemma agent_checkpoints_valid :
  new_checkpoint_store agent_checkpoints.(prefix) = Ok agent_checkpoints.
Proof. reflexivity. Qed.

Section Quiet.
Context `{ED : Ed25519} `{TS : RotationSerializer} `{HI : HashIter} `{SU : !AgentSetup}
  `{CJ : CheckpointJson AgentPersistentState} `{WJ : WireJson} `{GS : GrantSerializer}
  `{SHA : Sha256}.
Variables (ctx : Context_) (started : N).

Lemma quiet_send m : harmless m → along quiet_step (send_agent m).
Proof. intros Hm. unfold send_agent. walk. by apply quiet_push. Qed.

Lemma quiet_instant : along quiet_step instant.
Proof. unfold instant. walk. Qed.
#[local] Hint Resolve quiet_instant quiet_send : along.
#[local] Hint Extern 1 (harmless _) => exact I : along.
#[local] Hint Extern 2 (along quiet_step (on_session _)) => by apply quiet_session : along.

Lemma quiet_now : along quiet_step (now_ms ctx started).
Proof. unfold now_ms. walk. Qed.

Lemma quiet_verifier : along quiet_step hub_verifier.
Proof. unfold hub_verifier, the_agent. walk. Qed.
#[local] Hint Resolve quiet_now quiet_verifier : along.

Lemma quiet_read_file {X} (f : RecoveryFiles → json_file X) : along quiet_step (read_file f).
Proof. unfold read_file, io_error, the_files. walk. Qed.

Lemma quiet_write_files f : along quiet_step (write_files f).
Proof. unfold write_files, io_error. walk. Qed.
#[local] Hint Resolve quiet_read_file quiet_write_files : along.
#[local] Hint Unfold load_challenge load_authorization store_challenge store_recovery_resolved
  clear_recovery_resolved clear_authorization clear_challenge the_session the_agent : along.

Lemma quiet_clear_handoff : along quiet_step clear_recovery_handoff.
Proof. unfold clear_recovery_handoff, clear_challenge, clear_authorization. walk. Qed.

Lemma quiet_completion hub a r :
  along quiet_step (persist_verified_recovery_completion hub a r).
Proof.
  unfold persist_verified_recovery_completion, store_recovery_resolved, clear_recovery_handoff,
    clear_challenge, clear_authorization. walk.
Qed.
#[local] Hint Resolve quiet_clear_handoff quiet_completion : along.

Lemma quiet_drain l : along quiet_step (drain ctx l).
Proof.
  induction l as [|r l IH]; cbn [drain]; unfold end_backend_session; walk.
Qed.

Lemma quiet_drain_all : along quiet_step (drain_backend_session_ends ctx).
Proof.
  unfold drain_backend_session_ends, the_session. walk. apply quiet_drain.
Qed.
#[local] Hint Resolve quiet_drain_all : along.

Lemma quiet_report_verification o r : along quiet_step (report_verification ctx o r).
Proof. unfold report_verification, verification_reported. walk. Qed.

Lemma quiet_decision m : along quiet_step (handoff_decision ctx m).
Proof. unfold handoff_decision. walk. Qed.

Lemma quiet_handoff_request m : along quiet_step (handle_handoff_request ctx m).
Proof. unfold handle_handoff_request, the_session. walk. Qed.

Lemma quiet_heartbeat_ack m : along quiet_step (handle_heartbeat_ack ctx m).
Proof. unfold handle_heartbeat_ack, the_session. walk. Qed.

Lemma quiet_recovery_challenge c : along quiet_step (handle_recovery_challenge ctx started c).
Proof. unfold handle_recovery_challenge, clear_authorization, store_challenge. walk. Qed.

Lemma quiet_recovery_resolved r : along quiet_step (handle_recovery_resolved r).
Proof. unfold handle_recovery_resolved, the_session. walk. Qed.

Lemma quiet_backend_session_end m : along quiet_step (handle_backend_session_end ctx m).
Proof. unfold handle_backend_session_end, the_session. walk. Qed.

Lemma quiet_recovery_poll : along quiet_step (handle_recovery_poll ctx started).
Proof.
  unfold handle_recovery_poll, the_session, load_authorization, load_challenge,
    clear_authorization, clear_recovery_resolved. walk.
Qed.

Lemma quiet_send_indeterminate_ack a :
  along quiet_step (send_agent (AgentToHub.IndeterminateAck a)).
Proof. by apply quiet_send. Qed.
Lemma quiet_send_cancellation_ack a :
  along quiet_step (send_agent (AgentToHub.CancellationAck a)).
Proof. by apply quiet_send. Qed.

Lemma quiet_open_session i : along quiet_step (open_session i).
Proof. unfold open_session, next_hub, unexpected_hub_message. walk. Qed.

(** ** Checkpoints *)

Context `{CJL : !CheckpointJsonLaws AgentPersistentState}.

(** No other process writes to the state directory: [acquire_state_lock]. *)
Definition single_writer : Prop := ∀ n, plain_faults (env.(env_io) n).

Definition on_disk (t : Task) (x : result PersistenceError AgentPersistentState) : Prop :=
  may_load agent_checkpoints t.(world).(disk) x.

Definition sound_disk (t : Task) : Prop := durable_below agent_checkpoints t.(world).(disk).

Record persisted (t t' : Task) (ok : bool) : Prop := {
  persisted_agent : t'.(world).(agent) = t.(world).(agent);
  persisted_history : t'.(world).(history) = t.(world).(history);
  persisted_outbox : t'.(world).(outbox) = t.(world).(outbox);
  persisted_session : t'.(session) = t.(session);
  persisted_sound : sound_disk t';
  persisted_either x :
    on_disk t' x → on_disk t x ∨ ∃ s, capture t.(world).(agent) = Ok s ∧ x = Ok s;
  persisted_only :
    ok = true → ∃ s, capture t.(world).(agent) = Ok s ∧ ∀ x, on_disk t' x → x = Ok s
}.

(** After [persist_state] the checkpoint is the old one or the current state, and only
    the current state if it succeeds. *)
Lemma persist_spec t :
  single_writer → sound_disk t →
  persisted t (persist_state t).1 (is_ok (persist_state t).2).
Proof.
  intros Hio Hs. unfold persist_state, the_agent, gets, lift, mbind, A_bind.
  destruct (capture t.(world).(agent)) as [s|e] eqn:Hcap; [|by split; eauto].
  unfold save_checkpoint, effect, mbind, A_bind.
  destruct (env_alive env _); [|by split; eauto].
  cbn [world session agent disk history tick files outbox].
  destruct (save_with_size agent_checkpoints t.(world).(disk) _ s) as [d r] eqn:Hsave.
  pose proof (save_may_load agent_checkpoints agent_checkpoints_valid _ _ _ _ _ (Hio _) Hs Hsave)
    as (Hs' & Heither & Honly).
  destruct r as [[path size]|e]; cbn; (split; [done..|exact Hs'| |]); unfold on_disk; cbn;
    rewrite Hcap; [intros x Hx; destruct (Heither x Hx); eauto|by eauto|
    intros x Hx; destruct (Heither x Hx); eauto|done].
Qed.

(** Two tasks whose checkpoints are the same *)
Lemma quiet_on_disk t t' x : quiet_step t t' → on_disk t' x ↔ on_disk t x.
Proof. intros Hq. unfold on_disk. by rewrite (quiet_disk _ _ Hq). Qed.
End Quiet.

#[export] Hint Resolve quiet_instant quiet_now quiet_verifier quiet_clear_handoff quiet_completion
  quiet_drain_all quiet_report_verification quiet_decision quiet_handoff_request
  quiet_heartbeat_ack quiet_recovery_challenge quiet_recovery_resolved
  quiet_backend_session_end quiet_recovery_poll quiet_send_indeterminate_ack
  quiet_send_cancellation_ack quiet_open_session : along.
#[export] Hint Extern 2 (along quiet_step (on_session _)) => by apply quiet_session : along.
#[export] Hint Extern 2 (along quiet_step (send_agent _)) => by apply quiet_send : along.
