(* ===== verification/AgentOnce.v ===== *)
(** * The Agent starts every operation at most once

    Over the lives of the processes of [src/src/v2_m1_agent.rs] on one device, with power
    failures and deaths at any effect: the replay barrier of the execution gate is durable
    before an operation is handed to a worker or refused, and is found again by every
    later process. *)

From S2P Require Import Prelude Vocabulary Protocol Crypto Tombstone Admission Registry Grants.
From S2P Require Import SafetyTypes Recovery EphemeralRefs Evidence Transport AgentGate.
From S2P Require Import SessionRuntime Trust Persistence PersistenceTheorems AgentErrors.
From S2P Require Import AgentWorker Agent AgentSession AgentLogic AgentQuiet.
Import Persistence Agent AgentSession.AgentSession.

(** ** What is remembered *)

(** The operations whose begin was accepted: they were handed to a worker or refused by
    the hand-off. *)
Definition accepted (h : History) : list OperationRef := h.(spawned).*1 ++ h.(refused).

(** The generations of the sessions, the last one first: a generation may come again only
    directly after itself. *)
Fixpoint regular (l : list N) : Prop :=
  match l with
  | [] => True
  | g :: l => (g ∈ l → head l = Some g) ∧ regular l
  end.

Lemma regular_app l1 l2 : regular (l1 ++ l2) → regular l2.
Proof. induction l1 as [|g l1 IH]; [done|]. intros [_ H]. by apply IH. Qed.

Lemma NoDup_regular l : NoDup l → regular l.
Proof. induction 1 as [|g l Hg _ IH]; [done|]. by split. Qed.

(** The operations of the last session are in the memory of the gate, given by the
    generation and the identifiers that it remembers. *)
Definition barrier (h : History) (generation : option N) (ids : string → Prop) : Prop :=
  ∀ o, o ∈ accepted h → head h.(sessions) = Some o.(OperationRef.device_generation) →
  generation = Some o.(OperationRef.device_generation) ∧ ids o.(OperationRef.operation_id).

Definition gate_barrier (h : History) (g : AgentGate.AgentExecutionGate) : Prop :=
  barrier h g.(AgentGate.replay_generation) (λ id, id ∈ AgentGate.started_ids g).

Definition state_barrier (h : History) (s : AgentPersistentState) : Prop :=
  barrier h s.(agent_execution).(AgentGate.snap_replay_generation)
    (λ id, id ∈ s.(agent_execution).(AgentGate.snap_terminal_operation_ids)).

Definition disk_barrier (h : History) (x : result PersistenceError AgentPersistentState) : Prop :=
  match x with
  | Ok s => state_barrier h s
  | Err PersistenceError.NoCheckpoint => accepted h = []
  | Err _ => True
  end.

Record known (h : History) : Prop := {
  known_sessions o : o ∈ accepted h → o.(OperationRef.device_generation) ∈ h.(sessions);
  known_once : NoDup (accepted h)
}.

Definition enter (g : N) (h : History) : History :=
  mk_history (g :: h.(sessions)) h.(spawned) h.(completed) h.(refused).

Lemma barrier_enter h g generation ids :
  known h → regular (g :: h.(sessions)) → barrier h generation ids →
  barrier (enter g h) generation ids.
Proof.
  intros Hk [Hreg _] Hb o Ho [= ->]. apply Hb; [done|]. apply Hreg. by apply (known_sessions _ Hk).
Qed.

Lemma known_enter h g : known h → known (enter g h).
Proof. intros [Hs Hn]. split; [|done]. intros o Ho. right. by apply Hs. Qed.

Lemma disk_barrier_enter h g x :
  known h → regular (g :: h.(sessions)) → disk_barrier h x → disk_barrier (enter g h) x.
Proof.
  intros Hk Hr. destruct x as [s|[]]; cbn; try done. by apply barrier_enter.
Qed.

(** Nothing that is remembered is forgotten. *)
Record gate_le (g g' : AgentGate.AgentExecutionGate) : Prop := {
  gate_le_ok : AgentGate.gate_ok g';
  gate_le_generation : g'.(AgentGate.replay_generation) = g.(AgentGate.replay_generation);
  gate_le_ids : AgentGate.started_ids g ⊆ AgentGate.started_ids g'
}.

Lemma gate_le_barrier h g g' : gate_le g g' → gate_barrier h g → gate_barrier h g'.
Proof.
  intros [_ Hg Hi] Hb o Ho Hh. destruct (Hb o Ho Hh) as [Hb1 Hb2]. rewrite Hg. split; [done|].
  by apply Hi.
Qed.

Lemma same_memory_le g g' :
  AgentGate.gate_ok g →
  g'.(AgentGate.replay_generation) = g.(AgentGate.replay_generation) →
  g'.(AgentGate.terminal_operation_ids) = g.(AgentGate.terminal_operation_ids) →
  fst <$> g'.(AgentGate.active) = fst <$> g.(AgentGate.active) → gate_le g g'.
Proof.
  intros Hg Hr Hi Ha. split; [by eapply AgentGate.gate_ok_same|done|].
  unfold AgentGate.started_ids. rewrite Hi.
  destruct (AgentGate.active g) as [[]|], (AgentGate.active g') as [[]|]; by simplify_eq/=.
Qed.

Lemma finish_le g id : AgentGate.gate_ok g → gate_le g (AgentGate.finish g id).1.
Proof.
  intros Hg.
  destruct (AgentGate.finish_cases g id) as [(e & g' & -> & ? & ? & ?)|(o & s & Ho & Hid & E)];
    [by apply same_memory_le|].
  pose proof (AgentGate.gexec_ok g (AgentGate.GFinish id) Hg) as Hok. cbn in Hok.
  rewrite E in *. split; [done|done|]. unfold AgentGate.started_ids. rewrite Ho, Hid. done.
Qed.

Lemma cancel_le g id : AgentGate.gate_ok g → gate_le g (AgentGate.request_agent_cancel g id).1.
Proof.
  intros Hg. destruct (AgentGate.cancel_cases g id) as (r & g' & -> & ? & ? & ?).
  by apply same_memory_le.
Qed.

Lemma prepare_barrier h g n :
  AgentGate.gate_ok g → gate_barrier h g → head h.(sessions) = Some n →
  AgentGate.gate_ok (AgentGate.prepare_generation g n).1 ∧
  gate_barrier h (AgentGate.prepare_generation g n).1.
Proof.
  intros Hg Hb Hn. split; [by apply (AgentGate.gexec_ok g (AgentGate.GPrepare n))|].
  destruct (AgentGate.prepare_cases g n Hg) as [[e ->]|[[-> _]|(-> & _ & Hne)]]; [done..|].
  intros o Ho Hh. destruct (Hb o Ho Hh). congruence.
Qed.

(** An accepted begin: the operation is new to the generation and is remembered. *)
Lemma begin_barrier h g o :
  AgentGate.gate_ok g → gate_barrier h g →
  head h.(sessions) = Some o.(OperationRef.device_generation) →
  let '(g', r) := AgentGate.begin g o in
  AgentGate.gate_ok g' ∧ gate_barrier h g' ∧
  (r = Ok tt → (o ∉ accepted h) ∧
     g'.(AgentGate.replay_generation) = Some o.(OperationRef.device_generation) ∧
     o.(OperationRef.operation_id) ∈ AgentGate.started_ids g').
Proof.
  intros Hg Hb Hh. pose proof (AgentGate.gexec_ok g (AgentGate.GBegin o) Hg) as Hok. cbn in Hok.
  destruct (AgentGate.begin_cases g o Hg) as [(g' & e & E & Hcases)|(ids & E & Ha & Hid & Hcases)];
    rewrite E in *; cbn in Hok.
  - split_and!; [done| |done]. destruct Hcases as [->|(-> & _ & Hne)]; [done|].
    intros o' Ho' Hh'. destruct (Hb o' Ho' Hh'). congruence.
  - assert (∀ o', o' ∈ accepted h → head h.(sessions) = Some o'.(OperationRef.device_generation) →
      o'.(OperationRef.operation_id) ∈ ids) as Hids.
    { intros o' Ho' Hh'. destruct (Hb o' Ho' Hh') as [Hr Hi].
      destruct Hcases as [[_ ->]|[Hne _]]; [|congruence].
      unfold AgentGate.started_ids in Hi. by rewrite Ha in Hi. }
    split_and!; [done| |].
    + intros o' Ho' Hh'. cbn. split; [congruence|]. unfold AgentGate.started_ids. cbn.
      apply elem_of_union_r. auto.
    + intros _. split; [|split; [done|cbn; unfold AgentGate.started_ids; cbn; set_solver]].
      intros Ho. by apply Hid, Hids.
Qed.

(** ** The invariant *)

Section Once.
Context `{ED : Ed25519} `{TS : RotationSerializer} `{HI : HashIter} `{SU : !AgentSetup}
  `{CJ : CheckpointJson AgentPersistentState} `{WJ : WireJson} `{GS : GrantSerializer}
  `{SHA : Sha256} `{CJL : !CheckpointJsonLaws AgentPersistentState}.
Hypothesis alone : single_writer.

Definition gate (t : Task) : AgentGate.AgentExecutionGate := t.(world).(agent).(execution).
Definition past (t : Task) : History := t.(world).(history).

(** What holds of a device, also while no process runs *)
Record device_inv (t : Task) : Prop := {
  inv_sound : sound_disk t;
  inv_known : known (past t);
  inv_disk x : on_disk t x → disk_barrier (past t) x
}.

(** What holds while a process runs *)
Record inv (t : Task) : Prop := {
  inv_device : device_inv t;
  inv_gate_ok : AgentGate.gate_ok (gate t);
  inv_gate : gate_barrier (past t) (gate t)
}.

Lemma capture_execution a s :
  capture a = Ok s → s.(agent_execution) = AgentGate.snapshot_gate a.(execution).
Proof.
  unfold capture, capture_with_runtime_evidence. destruct (invalid_runtime_evidence _ _ _); [done|].
  by intros [= <-].
Qed.

Lemma capture_barrier h a s :
  AgentGate.gate_ok a.(execution) → gate_barrier h a.(execution) → capture a = Ok s →
  state_barrier h s.
Proof.
  intros Hg Hb Hs o Ho Hh. destruct (Hb o Ho Hh) as [Hr Hi].
  rewrite (capture_execution _ _ Hs). split; [by rewrite AgentGate.snapshot_generation|].
  by apply AgentGate.snapshot_ids.
Qed.

(** States that agree on everything the invariant is about *)
Record same_core (t t' : Task) : Prop := {
  same_gate : gate t' = gate t;
  same_disk : t'.(world).(disk) = t.(world).(disk);
  same_sessions : (past t').(sessions) = (past t).(sessions);
  same_accepted : accepted (past t') = accepted (past t)
}.

#[export] Instance same_core_preorder : PreOrder same_core.
Proof. split; [by intros t|]. intros t1 t2 t3 [] []. split; congruence. Qed.

Lemma barrier_same h h' generation ids :
  accepted h' = accepted h → h'.(sessions) = h.(sessions) →
  barrier h generation ids → barrier h' generation ids.
Proof. unfold barrier. by intros -> ->. Qed.

Lemma device_inv_same t t' : same_core t t' → device_inv t → device_inv t'.
Proof.
  intros [_ Hd Hs Ha] [Hsound [Hk1 Hk2] Hdisk]. unfold sound_disk in Hsound. split.
  - unfold sound_disk. by rewrite Hd.
  - split; [|by rewrite Ha]. intros o. rewrite Ha, Hs. apply Hk1.
  - unfold on_disk. rewrite Hd. intros x Hx%Hdisk. destruct x as [s|[]]; cbn in *; try done;
      [by eapply barrier_same|congruence].
Qed.

Lemma inv_same t t' : same_core t t' → inv t → inv t'.
Proof.
  intros Hc [Hd Hg Hb]. pose proof Hc as [Hgate _ Hs Ha]. split.
  - by eapply device_inv_same.
  - by rewrite Hgate.
  - rewrite Hgate. by eapply barrier_same.
Qed.

Lemma quiet_same_core t t' : quiet_step t t' → same_core t t'.
Proof. intros [Ha Hd Hh _ _ _ _]. split; unfold gate, past; by rewrite ?Ha, ?Hd, ?Hh. Qed.

(** In a session of generation [generation] *)
Definition in_session (generation : N) (t : Task) : Prop :=
  inv t ∧ head (past t).(sessions) = Some generation.

Lemma in_session_same generation t t' : same_core t t' → in_session generation t → in_session generation t'.
Proof. intros Hc [Hi Hh]. split; [by eapply inv_same|]. by rewrite (same_sessions _ _ Hc). Qed.

Lemma persisted_inv t t' ok : persisted t t' ok → inv t → inv t'.
Proof.
  intros Hp [[Hs Hk Hd] Hg Hb]. destruct Hp as [Ha Hh _ _ Hs' Heither _].
  assert (past t' = past t) as Hpast by done. assert (gate t' = gate t) as Hgate
    by (unfold gate; by rewrite Ha).
  split; [|by rewrite Hgate|by rewrite Hgate, Hpast]. split; rewrite ?Hpast; [done..|].
  intros x [Hx|(s & Hs1 & ->)]%Heither; [by apply Hd|]. by eapply capture_barrier.
Qed.

(** The sessions so far stay, and the invariant is kept. *)
Definition within (generation : N) (t t' : Task) : Prop :=
  (past t').(sessions) = (past t).(sessions) ∧ (in_session generation t → in_session generation t').

#[export] Instance within_preorder generation : PreOrder (within generation).
Proof. split; [by intros t|]. intros t1 t2 t3 [H1 H2] [H3 H4]. split; [congruence|auto]. Qed.

Lemma within_same_core {X} generation (m : A X) : along same_core m → along (within generation) m.
Proof.
  intros Hm t. pose proof (Hm t) as Hc. split; [apply (same_sessions _ _ Hc)|].
  by apply in_session_same.
Qed.

Lemma within_quiet {X} generation (m : A X) : along quiet_step m → along (within generation) m.
Proof. intros Hm. apply within_same_core. intros t. apply quiet_same_core, Hm. Qed.

Lemma persist_within generation : along (within generation) persist_state.
Proof.
  intros t. unfold within, past. split.
  - unfold persist_state, the_agent, gets, lift, mbind, A_bind.
    destruct (capture _); [|done]. unfold save_checkpoint, effect, mbind, A_bind.
    destruct (env_alive env _); [|done]. cbn. by destruct (save_with_size _ _ _ _).
  - intros [Hi Hh]. pose proof (persist_spec t alone (inv_sound _ (inv_device _ Hi))) as Hp.
    split; [by eapply persisted_inv|]. unfold past. by rewrite (persisted_history _ _ _ Hp).
Qed.

(** ** Handlers *)

Section Handlers.
Variables (ctx : Context_) (started : N).
#[local] Abbreviation generation := (ctx.(device).(DeviceSession.generation)).
#[local] Abbreviation within_ := (within generation).

Lemma on_session_within f : along within_ (on_session f).
Proof. apply within_same_core. intros t. by split. Qed.

Lemma on_agent_within f :
  (∀ a, (f a).(execution) = a.(execution)) → along within_ (on_agent f).
Proof. intros Hf. apply within_same_core. intros t. split; try done. unfold gate. cbn. apply Hf. Qed.

Lemma on_history_within f :
  (∀ h, (f h).(sessions) = h.(sessions) ∧ accepted (f h) = accepted h) →
  along within_ (on_history f).
Proof. intros Hf. apply within_same_core. intros t. split; try done; apply Hf. Qed.

Lemma send_within m : along within_ (send_agent m).
Proof.
  apply within_same_core. unfold send_agent. walk.
  - intros t. apply quiet_same_core, quiet_effect.
  - intros t. by split.
Qed.

Lemma on_gate_within call :
  (∀ g, AgentGate.gate_ok g → gate_le g (call g).1) → along within_ (on_gate call).
Proof.
  intros Hcall t. split; [done|]. intros [[Hd Hg Hb] Hh].
  assert (gate_le (gate t) (call (gate t)).1) as Hle by auto. split; [|done].
  split; [by destruct Hd|apply Hle|by eapply gate_le_barrier].
Qed.

Lemma effect_within : along within_ effect.
Proof. apply within_quiet, quiet_effect. Qed.

#[local] Hint Resolve on_session_within send_within persist_within effect_within : along.
#[local] Hint Extern 1 (along _ (on_agent _)) => by apply on_agent_within : along.
#[local] Hint Extern 1 (along _ (on_history _)) => by apply on_history_within : along.
#[local] Hint Extern 1 (along _ (on_gate _)) =>
  apply on_gate_within; intros; by auto using finish_le, cancel_le : along.
#[local] Hint Extern 2 (along (within _) _) =>
  apply within_quiet; solve [auto with along] : along.
#[local] Hint Unfold the_session the_agent : along.

Lemma worker_completion_within w : along within_ (worker_completion w).
Proof. unfold worker_completion, the_agent. walk. Qed.

Lemma record_evidence_within o r : along within_ (record_evidence ctx o r).
Proof. unfold record_evidence, the_agent. walk. Qed.

Lemma record_receipt_within r : along within_ (record_receipt r).
Proof. unfold record_receipt, the_agent. walk. Qed.
#[local] Hint Resolve worker_completion_within record_evidence_within record_receipt_within : along.

Lemma terminate_within : along within_ (terminate_active ctx).
Proof. unfold terminate_active, the_session, AgentGate.abandon_on_disconnect. walk. Qed.

Lemma send_result_within id r : along within_ (send_terminal_result ctx id r).
Proof. unfold send_terminal_result. walk. Qed.
#[local] Hint Resolve terminate_within send_result_within : along.

Lemma operation_done_within : along within_ (handle_operation_done ctx).
Proof.
  unfold handle_operation_done, handle_result, handle_indeterminate, the_session. walk.
Qed.

Lemma safety_poll_within : along within_ handle_safety_poll.
Proof. unfold handle_safety_poll, fail_closed. walk. Qed.

Lemma heartbeat_within : along within_ (handle_heartbeat_tick ctx).
Proof. unfold handle_heartbeat_tick, the_session. walk. Qed.

Lemma cancel_within m : along within_ (handle_cancel ctx m).
Proof. unfold handle_cancel, the_session. walk. Qed.

Lemma authorize_within m : along within_ (authorize_command ctx started m).
Proof. unfold authorize_command, the_agent. walk. Qed.

(** *** Commands *)

Definition sessions_stay (t t' : Task) : Prop := (past t').(sessions) = (past t).(sessions).

#[local] Instance sessions_stay_preorder : PreOrder sessions_stay.
Proof. split; [by intros t|]. intros t1 t2 t3 H1 H2. unfold sessions_stay in *. congruence. Qed.

Lemma within_stay {X} (m : A X) : along within_ m → along sessions_stay m.
Proof. intros Hm t. apply Hm. Qed.

Lemma within_triple {X} (m : A X) :
  along sessions_stay m → triple (in_session generation) m (λ _, in_session generation) (in_session generation) →
  along within_ m.
Proof. intros Hs Hm t. split; [apply Hs|]. by apply along_triple. Qed.

Lemma triple_within {X} (m : A X) :
  along within_ m → triple (in_session generation) m (λ _, in_session generation) (in_session generation).
Proof. intros Hm. apply triple_along. intros t. apply Hm. Qed.

(** The gate has begun [o], which is new. *)
Record begun (o : OperationRef) (t : Task) : Prop := {
  begun_session : in_session generation t;
  begun_here : o.(OperationRef.device_generation) = generation;
  begun_new : o ∉ accepted (past t);
  begun_generation : (gate t).(AgentGate.replay_generation) = Some generation;
  begun_id : o.(OperationRef.operation_id) ∈ AgentGate.started_ids (gate t)
}.

(** ... and every later process will know. *)
Definition durably_begun (o : OperationRef) (t : Task) : Prop :=
  begun o t ∧ ∀ x, on_disk t x → ∃ s, x = Ok s ∧
    s.(agent_execution).(AgentGate.snap_replay_generation) = Some generation ∧
    o.(OperationRef.operation_id) ∈ s.(agent_execution).(AgentGate.snap_terminal_operation_ids).

Lemma begin_triple o :
  o.(OperationRef.device_generation) = generation →
  triple (in_session generation) (on_gate (λ g, AgentGate.begin g o)) (λ _, begun o) (in_session generation).
Proof.
  intros Ho t [[Hd Hg Hb] Hh].
  pose proof (begin_barrier (past t) (gate t) o Hg Hb) as Hbegin. rewrite Ho in Hbegin.
  specialize (Hbegin Hh). unfold on_gate, the_agent, gets, lift, mbind, A_bind. cbn.
  change (execution (agent (world t))) with (gate t).
  destruct (AgentGate.begin (gate t) o) as [g' r]. destruct Hbegin as (Hg' & Hb' & Hok).
  assert (∀ t', gate t' = g' → t'.(world).(disk) = t.(world).(disk) → past t' = past t →
    in_session generation t') as Hin.
  { intros t' Hgate Hdisk Hpast. split; [|by rewrite Hpast]. split; rewrite ?Hgate, ?Hpast; [|done..].
    destruct Hd as [Hs Hk Hx]. split; unfold sound_disk, on_disk; by rewrite ?Hdisk, ?Hpast. }
  destruct r as [[]|e]; cbn; [|by apply Hin]. destruct (Hok eq_refl) as (Hnew & Hgen & Hid).
  split; [by apply Hin|done..].
Qed.

Lemma persist_begun o : triple (begun o) persist_state (λ _, durably_begun o) (in_session generation).
Proof.
  intros t Hbegun. pose proof (begun_session _ _ Hbegun) as [Hi Hh].
  pose proof (persist_spec t alone (inv_sound _ (inv_device _ Hi))) as Hp.
  pose proof (proj2 (persist_within generation t) (conj Hi Hh)) as Hin.
  destruct (persist_state t) as [t' [[]|e]]; cbn in *; [|done].
  destruct Hp as [Ha Hhist _ _ _ _ Honly]. destruct (Honly eq_refl) as (s & Hs & Hall).
  destruct Hbegun as [_ Hhere Hnew Hgen Hid].
  assert (gate t' = gate t) as Hgate by (unfold gate; by rewrite Ha).
  split; [split; rewrite ?Hgate; unfold past; by rewrite ?Hhist|].
  intros x ->%Hall. exists s. split; [done|]. rewrite (capture_execution _ _ Hs).
  split; [by rewrite AgentGate.snapshot_generation by apply Hi|]. by apply AgentGate.snapshot_ids.
Qed.

Lemma durably_begun_le o t t' :
  gate_le (gate t) (gate t') → t'.(world).(disk) = t.(world).(disk) → past t' = past t →
  in_session generation t' → durably_begun o t → durably_begun o t'.
Proof.
  intros [Hok Hr Hi] Hd Hpast Hin [[Hs Hhere Hnew Hgen Hid] Hdisk].
  split; [|unfold on_disk; by rewrite Hd].
  split; [done|done|by rewrite Hpast|by rewrite Hr|by apply Hi].
Qed.

Lemma quiet_durably_begun {X} o (m : A X) :
  along quiet_step m → triple (durably_begun o) m (λ _, durably_begun o) (in_session generation).
Proof.
  intros Hm t Ho. specialize (Hm t). pose proof (begun_session _ _ (proj1 Ho)) as Hin.
  pose proof (quiet_same_core _ _ Hm) as Hc.
  assert (in_session generation (m t).1) as Hin' by (by eapply in_session_same).
  assert (durably_begun o (m t).1) as Ho'.
  { destruct Hc as [Hg Hd _ _]. apply (durably_begun_le o t); [|done|by destruct Hm|done|done].
    rewrite Hg. split; [apply Hin|done|done]. }
  by destruct (m t) as [t' [x|e]].
Qed.

(** A history in which [o] is accepted *)
Definition accepts (o : OperationRef) (f : History → History) : Prop :=
  ∀ h, (f h).(sessions) = h.(sessions) ∧ accepted (f h) ≡ₚ o :: accepted h.

Lemma barrier_accepts h o f generation' (ids : string → Prop) :
  accepts o f → barrier h generation' ids →
  (generation' = Some o.(OperationRef.device_generation) ∧ ids o.(OperationRef.operation_id)) →
  barrier (f h) generation' ids.
Proof.
  intros Hf Hb Hnew o' Ho'. destruct (Hf h) as [-> Hp]. rewrite Hp in Ho'.
  apply elem_of_cons in Ho' as [->|Ho']; [done|]. by apply Hb.
Qed.

Lemma accept_triple o f :
  accepts o f →
  triple (durably_begun o) (on_history f) (λ _, in_session generation) (in_session generation).
Proof.
  intros Hf t [[[[[Hs [Hk1 Hk2] Hx] Hg Hb] Hh] Hhere Hnew Hgen Hid] Hdisk]. cbn.
  destruct (Hf (past t)) as [Hsess Hp].
  split; [|unfold past; cbn; fold (past t); by rewrite Hsess].
  split; [split| |]; try done; unfold past; cbn; fold (past t).
  - split; [|rewrite Hp; by apply NoDup_cons].
    intros o'. rewrite Hp, Hsess, elem_of_cons. intros [->|Ho']; [|by apply Hk1].
    rewrite Hhere. destruct (sessions (past t)); [done|]. injection Hh as ->. by left.
  - intros x Hx'. destruct (Hdisk x Hx') as (s & -> & Hs1 & Hs2).
    apply (barrier_accepts _ o); [done|by apply Hx in Hx'|]. by rewrite Hhere.
  - apply (barrier_accepts _ o); [done..|]. unfold gate in *. by rewrite Hhere.
Qed.

Lemma spawn_triple m v :
  triple (durably_begun (operation_of ctx m)) (spawn_worker ctx m v)
    (λ _, in_session generation) (in_session generation).
Proof.
  unfold spawn_worker. destruct (_ && _).
  { intros t Ho. apply (begun_session _ _ (proj1 Ho)). }
  eapply triple_bind; [apply quiet_durably_begun, quiet_effect|]. intros ?.
  eapply triple_bind; [|intros ?; apply triple_within, on_session_within].
  apply accept_triple. intros h. by split.
Qed.

Lemma finish_durably_begun o id :
  triple (durably_begun o) (on_gate (λ g, AgentGate.finish g id)) (λ _, durably_begun o)
    (in_session generation).
Proof.
  intros t Ho. pose proof (begun_session _ _ (proj1 Ho)) as Hin.
  assert (in_session generation (on_gate (λ g, AgentGate.finish g id) t).1) as Hin'
    by (apply (on_gate_within _ (λ g, finish_le g id)); done).
  unfold on_gate, the_agent, gets, lift, mbind, A_bind in *. cbn in *.
  destruct (AgentGate.finish _ id).2 as [[]|e] eqn:E; [|done].
  apply (durably_begun_le o t); try done. apply finish_le, Hin.
Qed.

Lemma refuse_triple m code :
  triple (durably_begun (operation_of ctx m)) (refuse_command ctx m code)
    (λ _, in_session generation) (in_session generation).
Proof.
  unfold refuse_command. eapply triple_bind; [apply finish_durably_begun|]. intros ?.
  eapply triple_bind; [apply accept_triple|intros ?; apply triple_within; walk].
  intros h. split; [done|]. unfold accepted. cbn. by rewrite Permutation_middle.
Qed.

Lemma command_within m : along within_ (handle_command ctx started m).
Proof.
  unfold handle_command. apply along_bind; [typeclasses eauto|apply authorize_within|intros _].
  apply along_bind; [typeclasses eauto|apply persist_within|intros _].
  unfold the_session. apply along_bind; [typeclasses eauto|apply along_gets; typeclasses eauto|].
  intros s. destruct (opt_some _); [apply along_fail; typeclasses eauto|]. apply within_triple.
  - unfold refuse_command, spawn_worker. walk; try (apply within_stay; by eauto 3 with along).
    all: intros t; done.
  - eapply triple_bind; [by apply begin_triple|]. intros ?.
    eapply triple_bind; [apply persist_begun|]. intros ?.
    eapply triple_bind; [apply quiet_durably_begun, quiet_decision|].
    intros [v|code]; [apply spawn_triple|apply refuse_triple].
Qed.
#[local] Hint Resolve command_within cancel_within authorize_within heartbeat_within
  safety_poll_within operation_done_within : along.

Lemma event_within e : along within_ (handle_event ctx started e).
Proof.
  unfold handle_event, handle_shutdown, handle_inbound, handle_message. walk.
Qed.

Lemma loop_within events : along within_ (run_session_loop ctx started events).
Proof.
  assert (∀ l, along within_ (session_loop ctx started l)) as Hloop.
  { induction l as [|e l IH]; cbn [session_loop]; walk. apply event_within. }
  unfold run_session_loop, the_session. walk; eauto with along.
Qed.

(** ** Sessions *)

Lemma prepare_within :
  along within_ (on_gate (λ g, AgentGate.prepare_generation g generation)).
Proof.
  intros t. split; [done|]. intros [[Hd Hg Hb] Hh].
  destruct (prepare_barrier (past t) (gate t) generation Hg Hb Hh) as [Hg' Hb'].
  split; [|done]. split; [by destruct Hd|done|done].
Qed.
#[local] Hint Resolve prepare_within loop_within : along.

Lemma prepare_session_within : along within_ (prepare_session ctx).
Proof. unfold prepare_session, the_agent. walk. Qed.

Lemma end_session_within r : along within_ (end_session r).
Proof. unfold end_session, fail_closed. walk. Qed.
#[local] Hint Resolve end_session_within : along.

Lemma inv_enter t t' :
  past t' = enter generation (past t) → gate t' = gate t →
  t'.(world).(disk) = t.(world).(disk) → regular (past t').(sessions) → inv t → in_session generation t'.
Proof.
  intros Hp Hg Hd Hr [[Hs Hk Hx] Hok Hb]. rewrite Hp in Hr. split; [|by rewrite Hp].
  split; rewrite ?Hg, ?Hp; [|done|by apply barrier_enter].
  split; rewrite ?Hp; [unfold sound_disk; by rewrite Hd|by apply known_enter|].
  intros x. unfold on_disk. rewrite Hd. intros Hx'. by apply disk_barrier_enter, Hx.
Qed.

(** Sessions may be added, and if they are regular then the invariant is kept. *)
Definition evolves (t t' : Task) : Prop :=
  (∃ l, (past t').(sessions) = l ++ (past t).(sessions)) ∧
  (regular (past t').(sessions) → inv t → inv t').

#[export] Instance evolves_preorder : PreOrder evolves.
Proof.
  split; [intros t; split; [by exists []|done]|].
  intros t1 t2 t3 [(l1 & H1) H2] [(l2 & H3) H4]. split; [exists (l2 ++ l1); by rewrite H3, H1, app_assoc|].
  intros Hr Hi. apply H4; [done|]. apply H2; [|done]. rewrite H3 in Hr. by eapply regular_app.
Qed.

Lemma evolves_quiet {X} (m : A X) : along quiet_step m → along evolves m.
Proof.
  intros Hm t. pose proof (quiet_same_core _ _ (Hm t)) as Hc.
  split; [exists []; apply (same_sessions _ _ Hc)|]. intros _. by apply inv_same.
Qed.

Lemma within_evolves t t' :
  head (past t).(sessions) = Some generation → within_ t t' → evolves t t'.
Proof.
  intros Hh [Hs Hi]. split; [by exists []|]. intros _ Ht. by apply Hi.
Qed.

Lemma enter_then {X} (m : A X) : along within_ m → along evolves (enter_session ctx;; m).
Proof.
  intros Hm t. unfold enter_session, the_agent, gets, mbind, A_bind. cbn.
  destruct (managed_job_fail_closed _); cbn; [reflexivity|].
  set (t1 := mk_task _ _). assert (evolves t t1) as H1.
  { split; [by exists [generation]|]. intros Hr Hi.
    apply (inv_enter t t1 eq_refl eq_refl eq_refl Hr Hi). }
  transitivity t1; [done|]. apply within_evolves; [done|].
  pose proof (prepare_session_within t1) as Hp.
  destruct (prepare_session ctx t1) as [t2 [x|e]]; cbn in *; [|done].
  transitivity t2; [done|]. apply Hm.
Qed.
End Handlers.

#[local] Hint Extern 2 (along evolves _) => apply evolves_quiet; solve [auto with along] : along.

Lemma session_evolves i : along evolves (run_authenticated_session i).
Proof.
  unfold run_authenticated_session. apply along_bind; [typeclasses eauto|eauto with along|].
  intros ctx. apply enter_then.
  assert (∀ f, along (within (DeviceSession.generation (device ctx))) (on_session f)) as Hs
    by apply on_session_within.
  pose proof (within_quiet (DeviceSession.generation (device ctx)) _ quiet_instant) as Hq.
  walk; [apply loop_within|apply end_session_within].
Qed.

Lemma lifecycle_evolves turns : ∀ failures, along evolves (run_connected_lifecycle failures turns).
Proof.
  induction turns as [|t turns IH]; intros failures; cbn [run_connected_lifecycle]; walk;
    unfold connect_and_run; walk; [apply session_evolves|apply IH..].
Qed.

Lemma run_evolves turns : along evolves (run turns).
Proof. unfold run. walk; apply lifecycle_evolves. Qed.

(** ** Start *)

Lemma restored_barrier h x a :
  restored_service x = Ok a → disk_barrier h x →
  AgentGate.gate_ok a.(execution) ∧ gate_barrier h a.(execution).
Proof.
  unfold restored_service. destruct x as [s|e].
  - destruct (restore_with_runtime_safety s) as [r|] eqn:Hr; [|done].
    destruct (negb _); [done|]. destruct (reconcile_trusted_hub _); [|done].
    intros [= <-] Hb. cbn. unfold restore_with_runtime_safety in Hr.
    destruct (validate_state_schema _); [|done]. destruct (_ || _); [done|].
    destruct (vk_from_bytes _); [|done]. destruct (Grants.from_persisted_snapshot _); [|done].
    destruct (AgentGate.restore_gate _) as [g|] eqn:Hg; [|done]. injection Hr as <-. cbn.
    unfold AgentGate.restore_gate in Hg. destruct (_ || _) eqn:Hv; [done|]. injection Hg as <-.
    apply orb_false_iff in Hv as [_ Hv]. split.
    + split; cbn; [done|]. intros Hn. rewrite Hn in Hv. cbn in Hv. rewrite andb_true_r in Hv.
      apply negb_false_iff, bool_decide_eq_true in Hv. by rewrite Hv.
    + intros o Ho Hh. destruct (Hb o Ho Hh) as [? ?]. split; [done|]. unfold AgentGate.started_ids.
      cbn. by apply elem_of_list_to_set.
  - destruct e; try done. intros [= <-] Hb. cbn. split; [by split|].
    intros o Ho. cbn in Hb. rewrite Hb in Ho. by apply elem_of_nil in Ho.
Qed.

Definition past_stays (t t' : Task) : Prop := past t' = past t.
#[export] Instance past_stays_preorder : PreOrder past_stays.
Proof. split; [by intros t|]. intros t1 t2 t3 H1 H2. unfold past_stays in *. congruence. Qed.

Lemma persist_past : along past_stays persist_state.
Proof.
  unfold persist_state, save_checkpoint, the_agent. walk.
  - intros t. apply quiet_effect.
  - intros t. unfold past_stays, past. cbn. by destruct (save_with_size _ _ _ _).
Qed.

Lemma build_past : along past_stays build.
Proof.
  pose proof persist_past. unfold build, load_checkpoint. walk; intros t; try done.
  apply quiet_effect.
Qed.

(** [device_inv] is kept, and established for the process. *)
Lemma build_spec t :
  device_inv t → device_inv (build t).1 ∧ (is_ok (build t).2 = true → inv (build t).1).
Proof.
  intros Hd. unfold build, lift, mbind, A_bind, fail.
  destruct (validate_agent_config config); [|done]. cbn.
  destruct (env_executors env); [done|]. cbn. unfold load_checkpoint, gets, mbind, A_bind.
  pose proof (quiet_same_core _ _ (quiet_effect t)) as Hc.
  pose proof (device_inv_same _ _ Hc Hd) as Hd1.
  destruct (effect t) as [t1 [n|e]]; cbn in *; [|done].
  destruct (restored_service _) as [svc|] eqn:Ha; [|done]. cbn.
  destruct new_ephemeral_store as [store|]; [|done]. cbn.
  destruct (env_staging env); [done|]. cbn. set (t2 := mk_task _ _).
  assert (inv t2) as Hi.
  { assert (disk_barrier (past t1) match load_latest_with_sequence agent_checkpoints
      (disk (world t1)) (env_io env n) with Ok (_, s) => Ok s | Err e => Err e end) as Hb.
    { pose proof (load_may_load agent_checkpoints (disk (world t1)) (env_io env n) _ eq_refl) as Hl.
      destruct (load_latest_with_sequence _ _ _) as [[k s]|e]; [by apply Hd1|].
      destruct e; try done. by apply (inv_disk _ Hd1 (Err PersistenceError.NoCheckpoint)). }
    destruct (restored_barrier _ _ _ Ha Hb) as [Hg Hgb].
    split; [by destruct Hd1|done|done]. }
  pose proof (persist_spec t2 alone (inv_sound _ (inv_device _ Hi))) as Hp.
  pose proof (persisted_inv _ _ _ Hp Hi) as Hi'. split; [apply Hi'|done].
Qed.

Lemma process_spec turns t :
  (∃ l, (past (process turns t).1).(sessions) = l ++ (past t).(sessions)) ∧
  (regular (past (process turns t).1).(sessions) → device_inv t →
   device_inv (process turns t).1).
Proof.
  pose proof (build_past t) as Hp. pose proof (build_spec t) as Hb. unfold process, mbind, A_bind.
  destruct (build t) as [t1 [[]|e]]; cbn in *; [|split; [exists []; by rewrite Hp|intros _; by apply Hb]].
  destruct (run_evolves turns t1) as [Hl Hr]. rewrite Hp in Hl. split; [done|].
  intros Hreg Hd. by apply Hr, Hb.
Qed.
End Once.

(** ** The device *)

Section Device.
Context `{ED : Ed25519} `{TS : RotationSerializer} `{HI : HashIter}
  `{CJ : CheckpointJson AgentPersistentState} `{WJ : WireJson} `{GS : GrantSerializer}
  `{SHA : Sha256} `{CJL : !CheckpointJsonLaws AgentPersistentState}.

(** One process of the Agent after the other, each with its own configuration and what
    happens around it; a process may be dead at any effect, and between two processes
    the power may fail. *)
Inductive device_step (w : World) : World → Prop :=
| device_process (SU : AgentSetup) turns :
    single_writer → device_step w (process turns (mk_task w new_session)).1.(world)
| device_power_failure d :
    crash w.(disk) d →
    device_step w (mk_world w.(agent) d w.(files) w.(outbox) w.(history) w.(consulted) w.(tick)).

Definition new_device (w : World) : Prop :=
  w.(history) = no_history ∧ w.(disk) = mk_disk ∅ ∅ ∧ w.(outbox) = [].

Definition idle (w : World) : Task := mk_task w new_session.

Lemma device_inv_world t : device_inv t → device_inv (idle t.(world)).
Proof. intros [Hs Hk Hd]. by split. Qed.

Lemma new_device_inv w : new_device w → device_inv (idle w).
Proof.
  intros (Hh & Hd & _). split.
  - unfold sound_disk. cbn. rewrite Hd. intros n [He _]. cbn in He. unfold ckpt in He.
    rewrite lookup_empty in He. by destruct He.
  - unfold past. cbn. rewrite Hh. split; [|constructor]. intros o Ho. by apply elem_of_nil in Ho.
  - intros [s|[]] (d & Hf & Hx); unfold past; cbn; rewrite ?Hh; done.
Qed.

Definition develops (w w' : World) : Prop :=
  (∃ l, w'.(history).(sessions) = l ++ w.(history).(sessions)) ∧
  (regular w'.(history).(sessions) → device_inv (idle w) → device_inv (idle w')).

Lemma device_step_develops w w' : device_step w w' → develops w w'.
Proof.
  intros [SU turns Halone|d Hc].
  - destruct (process_spec Halone turns (idle w)) as [Hl Hd]. split; [exact Hl|].
    intros Hr Hi. apply device_inv_world, Hd; [exact Hr|done].
  - split; [by exists []|]. intros _ [Hs Hk Hd]. split; [by eapply durable_below_crash|done|].
    intros x Hx. apply Hd. by eapply may_load_crash.
Qed.

Lemma device_develops w w' : rtc device_step w w' → develops w w'.
Proof.
  induction 1 as [w|w1 w2 w3 Hstep _ IH]; [by split; [exists []|]|].
  destruct (device_step_develops _ _ Hstep) as [(l1 & H1) Hd1], IH as [(l2 & H2) Hd2]. split.
  - exists (l2 ++ l1). by rewrite H2, H1, app_assoc.
  - intros Hr Hi. apply Hd2; [done|]. apply Hd1; [|done]. rewrite H2 in Hr. by eapply regular_app.
Qed.

End Device.
