(* ===== verification/AgentHonest.v ===== *)
(** * The Agent reports only what happened

    Every terminal evidence in a checkpoint or in a reconciliation report of the Agent
    ([src/src/v2_m1_agent.rs]), and every result that it sends, is about an operation
    that it handed to a worker and says what that worker reported, or is the
    refusal of an operation by the hand-off. *)

From S2P Require Import Prelude Vocabulary Protocol Crypto Tombstone Admission Registry Grants.
From S2P Require Import SafetyTypes Recovery EphemeralRefs Evidence Transport AgentGate.
From S2P Require Import SessionRuntime Trust Persistence PersistenceTheorems AgentErrors.
From S2P Require Import AgentWorker Agent AgentSession AgentLogic AgentQuiet AgentOnce.
Import Persistence Agent AgentSession.AgentSession.

(** ** What evidence and results may say *)

(** The evidence that an outcome of a worker is *)
Definition shows (outcome : AgentOperationOutcome) (e : AgentTerminalEvidence) : Prop :=
  match outcome with
  | AgentOperationOutcome.Result r =>
      terminal_evidence_for_device_result (AgentErrors.normalized_device_result r)
      = Some (e.(AgentTerminalEvidence.terminal_state), e.(AgentTerminalEvidence.evidence))
  | AgentOperationOutcome.BackendReceipt r => as_terminal_evidence r = e
  | AgentOperationOutcome.Indeterminate _ => False
  end.

(** The evidence names the command's capability and grant. *)
Definition binds (m : RemoteCommand) (e : AgentTerminalEvidence) : Prop :=
  e.(AgentTerminalEvidence.capability) = capability m.(RemoteCommand.command).(CommandEnvelope.command)
  ∧ e.(AgentTerminalEvidence.capability_revision)
    = m.(RemoteCommand.command).(CommandEnvelope.capability_revision)
  ∧ e.(AgentTerminalEvidence.dispatch_grant_id)
    = m.(RemoteCommand.grant).(GrantToken.payload).(GrantPayload.grant_id)
  ∧ class e.(AgentTerminalEvidence.capability) ≠ CapabilityClass.Observe.

Definition reported (h : History) (o : OperationRef) (outcome : AgentOperationOutcome) : Prop :=
  ∃ context, (context, outcome) ∈ h.(completed) ∧
    context.(BackendExecutionReceiptContext.operation) = o.

Definition evidence_honest (h : History) (e : AgentTerminalEvidence) : Prop :=
  (∃ m outcome, (e.(AgentTerminalEvidence.operation), m) ∈ h.(spawned) ∧ binds m e ∧
     reported h e.(AgentTerminalEvidence.operation) outcome ∧ shows outcome e) ∨
  (e.(AgentTerminalEvidence.operation) ∈ h.(refused) ∧
   e.(AgentTerminalEvidence.terminal_state) = HubOperationState.Failed ∧
   e.(AgentTerminalEvidence.evidence) = ExecutionEvidence.VerifiedRemoteError).

Definition refusal (r : DeviceResult) : Prop :=
  r = DeviceResult.Error DeviceErrorCode.HandoffAuthoritySuspended ∨
  r = DeviceResult.Error DeviceErrorCode.HandoffRuntimeUnavailable.

(** What a result says about the report of its worker; a verification for the hand-off
    counts only if the coordinator took it. *)
Definition passes_on (m : RemoteCommand) (r : result AgentOperationError DeviceResult)
    (sent : DeviceResult) : Prop :=
  sent = AgentErrors.normalized_device_result r ∨
  (is_exact_verification_candidate m.(RemoteCommand.command).(CommandEnvelope.command) = true ∧
   sent = DeviceResult.Error DeviceErrorCode.HandoffVerificationUnavailable).

Definition result_honest (h : History) (e : CommandResultEnvelope) : Prop :=
  let o := OperationRef.mk e.(CommandResultEnvelope.device_id)
             e.(CommandResultEnvelope.device_generation) e.(CommandResultEnvelope.operation_id) in
  (∃ m r, (o, m) ∈ h.(spawned) ∧ reported h o (AgentOperationOutcome.Result r) ∧
     passes_on m r e.(CommandResultEnvelope.device_result)) ∨
  (o ∈ h.(refused) ∧ refusal e.(CommandResultEnvelope.device_result)).

Definition message_honest (h : History) (m : AgentToHub) : Prop :=
  match m with
  | AgentToHub.Result r => result_honest h r.(RemoteResult.device_result)
  | AgentToHub.ReconciliationReport r =>
      Forall (evidence_honest h) r.(RemoteReconciliationReport.terminal_evidence)
  | _ => True
  end.

(** The operations of completed workers *)
Definition completed_operations (h : History) : list OperationRef :=
  (λ c, c.1.(BackendExecutionReceiptContext.operation)) <$> h.(completed).

Record later (h h' : History) : Prop := {
  later_spawned : h.(spawned) ⊆ h'.(spawned);
  later_completed : h.(completed) ⊆ h'.(completed);
  later_refused : h.(refused) ⊆ h'.(refused)
}.

Lemma evidence_later h h' e : later h h' → evidence_honest h e → evidence_honest h' e.
Proof.
  intros [Hs Hc Hr] [(m & o & Hm & Hb & (c & Hc1 & Hc2) & Hsh)|[Ho He]]; [left|right; auto].
  exists m, o. split_and!; [auto|done|exists c; auto|done].
Qed.

Lemma result_later h h' e : later h h' → result_honest h e → result_honest h' e.
Proof.
  intros [Hs Hc Hr] [(m & r & Hm & (c & Hc1 & Hc2) & Hp)|[Ho He]]; [left|right; auto].
  exists m, r. split_and!; [auto|exists c; auto|done].
Qed.

Lemma message_later h h' m : later h h' → message_honest h m → message_honest h' m.
Proof.
  intros Hl. destruct m; cbn; try done; [by apply result_later|].
  intros Hf. eapply Forall_impl; [exact Hf|]. intros e. by apply evidence_later.
Qed.

(** ** The journals *)

Lemma keep_last_subseteq {X} n (l : list X) : keep_last n l ⊆ l.
Proof. unfold keep_last. intros x Hx. eapply elem_of_submseteq, submseteq_drop; done. Qed.

Lemma record_terminal_evidence_In journal dev o r journal' e :
  record_terminal_evidence journal dev o r = Ok journal' → e ∈ journal' →
  e ∈ journal ∨ ∃ pair, terminal_evidence_for_device_result r = Some pair ∧
    class o.(operation_capability) ≠ CapabilityClass.Observe ∧
    e = AgentTerminalEvidence.mk (OperationRef.mk dev o.(device_generation) o.(operation_id))
          o.(capability_revision) o.(operation_capability) o.(dispatch_grant_id) pair.1 pair.2.
Proof.
  unfold record_terminal_evidence. case_bool_decide as Hobs; [intros [= <-]; auto|].
  destruct (terminal_evidence_for_device_result r) as [pair'|]; [|intros [= <-]; auto].
  destruct (validate_terminal_evidence _); [|done].
  destruct (existsb _ journal); [intros [= <-]; auto|]. intros [= <-] He%keep_last_subseteq.
  apply elem_of_app in He as [He|He%list_elem_of_singleton]; [auto|right; eauto].
Qed.

Lemma record_receipt_In receipts journal r journals e :
  record_backend_execution_receipt receipts journal r = Ok journals → e ∈ journals.2 →
  e ∈ journal ∨ e = as_terminal_evidence r.
Proof.
  unfold record_backend_execution_receipt. destruct (validate_receipt r); [|done].
  destruct (List.find (same_operation_receipt r) receipts).
  { case_bool_decide; [|done]. intros [= <-]. auto. }
  destruct (existsb _ receipts); [done|].
  destruct (List.find _ journal).
  { case_bool_decide; [|done]. intros [= <-]. auto. }
  intros [= <-] He%keep_last_subseteq. apply elem_of_app in He as [He|He%list_elem_of_singleton]; auto.
Qed.

(** ** The invariant *)

Section Honest.
Context `{ED : Ed25519} `{TS : RotationSerializer} `{HI : HashIter} `{SU : !AgentSetup}
  `{CJ : CheckpointJson AgentPersistentState} `{WJ : WireJson} `{GS : GrantSerializer}
  `{SHA : Sha256} `{CJL : !CheckpointJsonLaws AgentPersistentState}.
Hypothesis alone : single_writer.

(** Of a device, also while no process runs. [owed] are operations whose worker has
    not reported. *)
Record device_honest (owed : list OperationRef) (t : Task) : Prop := {
  honest_sound : sound_disk t;
  honest_disk s : on_disk t (Ok s) →
    Forall (evidence_honest (past t)) s.(Persistence.terminal_evidence);
  honest_outbox : Forall (message_honest (past t)) t.(world).(outbox);
  honest_completed : completed_operations (past t) ++ owed ⊆+ (past t).(spawned).*1
}.

Definition memory_honest (t : Task) : Prop :=
  Forall (evidence_honest (past t)) t.(world).(agent).(terminal_evidence).

Lemma capture_evidence a s :
  capture a = Ok s → s.(Persistence.terminal_evidence) = a.(terminal_evidence).
Proof.
  unfold capture, capture_with_runtime_evidence. destruct (invalid_runtime_evidence _ _ _); [done|].
  by intros [= <-].
Qed.

Lemma persisted_honest owed t t' ok :
  persisted t t' ok → device_honest owed t → memory_honest t →
  device_honest owed t' ∧ memory_honest t'.
Proof.
  intros [Ha Hh Ho Hsess Hs Heither _] [_ Hd Hout Hc] Hm.
  assert (past t' = past t) as Hp by done. unfold memory_honest. rewrite Ha, Hp.
  split; [|done]. split; rewrite ?Hp, ?Ho; try done.
  intros s Hs'. destruct (Heither _ Hs') as [|(s' & Hcap & [= ->])]; [auto|].
  by rewrite (capture_evidence _ _ Hcap).
Qed.

Lemma quiet_honest owed t t' :
  quiet_step t t' → device_honest owed t → device_honest owed t'.
Proof.
  intros [Ha Hd Hh _ _ (l & Ho & Hl)] [Hs Hx Hout Hc].
  unfold sound_disk, on_disk, past in *. split; unfold sound_disk, on_disk, past; rewrite ?Hd, ?Hh, ?Ho;
    try done. apply Forall_app. split; [done|]. eapply Forall_impl; [exact Hl|]. by intros [].
Qed.

Lemma quiet_memory t t' : quiet_step t t' → memory_honest t → memory_honest t'.
Proof. intros [Ha _ Hh _ _ _ _]. unfold memory_honest, past. by rewrite Ha, Hh. Qed.

Section Session.
Variables (ctx : Context_) (started : N).

(** The active operation and its worker are of this command. *)
Record serves (m : RemoteCommand) (o : ActiveOperation) (w : Worker) (h : History) : Prop := {
  serves_spawned : (operation_of ctx m, m) ∈ h.(spawned);
  serves_session : validate_command_session m.(RemoteCommand.command) ctx.(device) = Ok tt;
  serves_active : ∃ v c, o = active_of ctx m v c ∧
    (v ≠ None → is_exact_verification_candidate m.(RemoteCommand.command).(CommandEnvelope.command) = true);
  serves_worker : w.(worker_context) = receipt_context ctx m
}.

Definition worker_operation (w : Worker) : OperationRef :=
  w.(worker_context).(BackendExecutionReceiptContext.operation).

Definition session_honest (t : Task) : Prop :=
  memory_honest t ∧
  match t.(session).(active), t.(session).(worker) with
  | None, None => device_honest [] t
  | Some o, Some w => device_honest [worker_operation w] t ∧ ∃ m, serves m o w (past t)
  | _, _ => False
  end.

Definition stays_honest (t t' : Task) : Prop := session_honest t → session_honest t'.

#[export] Instance stays_honest_preorder : PreOrder stays_honest := keeps_preorder session_honest.

Lemma quiet_stays {X} (m : A X) : along quiet_step m → along stays_honest m.
Proof.
  intros Hm t [Hmem Hs]. specialize (Hm t). split; [by eapply quiet_memory|].
  pose proof Hm as [_ _ Hh Ha Hw _]. rewrite Ha, Hw.
  destruct (t.(session).(active)) as [o|], (t.(session).(worker)) as [w|]; try done;
    [|by eapply quiet_honest].
  destruct Hs as [Hd Hm']. split; [by eapply quiet_honest|]. unfold past in *. by rewrite Hh.
Qed.

Lemma persist_stays : along stays_honest persist_state.
Proof.
  intros t [Hmem Hs].
  assert (sound_disk t) as Hsound
    by (destruct (t.(session).(active)), (t.(session).(worker)); try done; apply Hs).
  pose proof (persist_spec t alone Hsound) as Hp.
  unfold session_honest. rewrite (persisted_session _ _ _ Hp).
  destruct (t.(session).(active)) as [o|], (t.(session).(worker)) as [w|]; try done.
  - destruct Hs as [Hd Hm]. destruct (persisted_honest _ _ _ _ Hp Hd Hmem). split_and!; [done..|].
    unfold past. by rewrite (persisted_history _ _ _ Hp).
  - by destruct (persisted_honest _ _ _ _ Hp Hs Hmem).
Qed.

Lemma on_agent_stays f :
  (∀ a, (f a).(terminal_evidence) = a.(terminal_evidence)) → along stays_honest (on_agent f).
Proof.
  intros Hf t [Hmem Hs]. split; [unfold memory_honest; cbn; by rewrite Hf|].
  cbn. destruct (t.(session).(active)) as [o|], (t.(session).(worker)) as [w|]; try done;
    [destruct Hs as [[] Hm]; by split|by destruct Hs].
Qed.

Lemma on_gate_stays call : along stays_honest (on_gate call).
Proof.
  unfold on_gate, the_agent. apply along_bind; [typeclasses eauto|apply along_gets; typeclasses eauto|].
  intros a. apply along_bind; [typeclasses eauto|by apply on_agent_stays|].
  intros ?. apply along_lift. typeclasses eauto.
Qed.

#[local] Hint Resolve persist_stays on_gate_stays : along.
#[local] Hint Extern 1 (along stays_honest (on_agent _)) => by apply on_agent_stays : along.
#[local] Hint Extern 2 (along stays_honest _) => apply quiet_stays; solve [auto with along] : along.

(** *** Outcomes *)

(** The worker of [m] has reported [outcome]. *)
Record reports (m : RemoteCommand) (o : ActiveOperation) (outcome : AgentOperationOutcome)
    (h : History) : Prop := {
  reports_serves : ∃ w, serves m o w h;
  reports_outcome : reported h (operation_of ctx m) outcome;
  reports_honest : AgentWorker.honest (receipt_context ctx m) outcome
}.

(** The evidence of result [r] of [o] would be honest. *)
Definition provable (o : ActiveOperation) (r : DeviceResult) (h : History) : Prop :=
  ∀ pair, terminal_evidence_for_device_result r = Some pair →
  class o.(operation_capability) ≠ CapabilityClass.Observe →
  evidence_honest h (AgentTerminalEvidence.mk
    (OperationRef.mk ctx.(device).(DeviceSession.device_id) o.(device_generation) o.(operation_id))
    o.(capability_revision) o.(operation_capability) o.(dispatch_grant_id) pair.1 pair.2).

Lemma session_revision m :
  validate_command_session m.(RemoteCommand.command) ctx.(device) = Ok tt →
  m.(RemoteCommand.command).(CommandEnvelope.capability_revision)
  = ctx.(device).(DeviceSession.capabilities).(CapabilityAdvertisement.revision).
Proof.
  unfold validate_command_session. destruct (negb _); [intros [=]|].
  destruct (negb _); [intros [=]|]. destruct (negb _); [intros [=]|].
  destruct (negb _) eqn:Hrev; [intros [=]|]. intros _. by apply N.eqb_eq, negb_false_iff.
Qed.

Lemma reports_provable m o r h :
  reports m o (AgentOperationOutcome.Result r) h →
  provable o (AgentErrors.normalized_device_result r) h.
Proof.
  intros [(w & [Hs _ (v & c & -> & _) _]) Hr _] pair Hpair Hclass. left.
  exists m, (AgentOperationOutcome.Result r). split_and!; [exact Hs|by repeat split|exact Hr|].
  unfold shows. rewrite Hpair. by destruct pair.
Qed.

Lemma receipt_provable m o r h :
  reports m o (AgentOperationOutcome.BackendReceipt r) h → evidence_honest h (as_terminal_evidence r).
Proof.
  intros [(w & [Hs Hv _ _]) Hr [Hmatch Hclass]]. left.
  unfold BackendExecutionReceiptContext.matches_receipt in Hmatch.
  repeat match goal with H : _ && _ = true |- _ => apply andb_true_iff in H as [? ?] end.
  repeat match goal with H : bool_decide _ = true |- _ => apply bool_decide_eq_true in H end.
  assert (operation_of ctx m = (as_terminal_evidence r).(AgentTerminalEvidence.operation)) as Hop.
  { unfold as_terminal_evidence. destruct (receipt_pair _). cbn. unfold receipt_context in *.
    by destruct Agent.backend. }
  exists m, (AgentOperationOutcome.BackendReceipt r). rewrite <- Hop. split_and!; [done| |done|done].
  unfold binds, as_terminal_evidence. destruct (receipt_pair _). cbn.
  rewrite (session_revision m Hv). unfold receipt_context in *. destruct Agent.backend; cbn in *;
    (split_and!; [congruence|by apply N.eqb_eq|congruence|congruence]).
Qed.

Lemma record_evidence_triple o r :
  triple (λ t, session_honest t ∧ provable o r (past t)) (record_evidence ctx o r)
    (λ _, session_honest) session_honest.
Proof.
  intros t [[Hmem Hs] Hp]. unfold record_evidence, the_agent, gets, lift, mbind, A_bind. cbn.
  destruct (record_terminal_evidence _ _ o r) as [journal|] eqn:Hj; cbn; [|by split].
  split.
  - apply Forall_forall. intros e He. cbn in He.
    destruct (record_terminal_evidence_In _ _ _ _ _ _ Hj He) as [Hin|(pair & Hpair & Hclass & ->)].
    + unfold memory_honest in Hmem. rewrite Forall_forall in Hmem. by apply Hmem.
    + by apply Hp.
  - cbn. destruct (t.(session).(active)) as [a|], (t.(session).(worker)) as [w|]; try done;
      [destruct Hs as [[] Hm]; by split|by destruct Hs].
Qed.

Lemma record_receipt_triple r :
  triple (λ t, session_honest t ∧ evidence_honest (past t) (as_terminal_evidence r))
    (record_receipt r) (λ _, session_honest) session_honest.
Proof.
  intros t [[Hmem Hs] Hp]. unfold record_receipt, the_agent, gets, lift, mbind, A_bind. cbn.
  destruct (record_backend_execution_receipt _ _ r) as [journals|] eqn:Hj; cbn; [|by split].
  split.
  - apply Forall_forall. intros e He. cbn in He.
    destruct (record_receipt_In _ _ _ _ _ Hj He) as [Hin| ->]; [|done].
    unfold memory_honest in Hmem. rewrite Forall_forall in Hmem. by apply Hmem.
  - cbn. destruct (t.(session).(active)) as [a|], (t.(session).(worker)) as [w|]; try done;
      [destruct Hs as [[] Hm]; by split|by destruct Hs].
Qed.

Lemma triple_frame {X} (F : History → Prop) (m : A X) :
  along stays_honest m → along past_stays m →
  triple (λ t, session_honest t ∧ F (past t)) m (λ _ t, session_honest t ∧ F (past t)) session_honest.
Proof.
  intros Hs Hp t [Ht HF]. specialize (Hs t Ht). specialize (Hp t). unfold past_stays in Hp.
  destruct (m t) as [t' [x|e]]; cbn in *; [|done]. by rewrite Hp.
Qed.

Lemma triple_stays {X} (m : A X) :
  along stays_honest m → triple session_honest m (λ _, session_honest) session_honest.
Proof. apply triple_along. Qed.

(** The result [d] of operation [id] of this session *)
Definition envelope (id : string) (d : DeviceResult) : CommandResultEnvelope :=
  CommandResultEnvelope.mk CONTROL_SCHEMA_VERSION ctx.(device).(DeviceSession.device_id)
    ctx.(device).(DeviceSession.generation)
    ctx.(device).(DeviceSession.capabilities).(CapabilityAdvertisement.revision) id d.

Lemma reports_passes_on m o r h d :
  reports m o (AgentOperationOutcome.Result r) h → passes_on m r d →
  result_honest h (envelope o.(operation_id) d).
Proof.
  intros [(w & [Hs _ (v & c & -> & _) _]) Hr _] Hp. left. exists m, r. split_and!; [exact Hs|exact Hr|exact Hp].
Qed.

Lemma push_honest msg t :
  session_honest t → message_honest (past t) msg →
  session_honest (mk_task (mk_world t.(world).(agent) t.(world).(disk) t.(world).(files)
    (t.(world).(outbox) ++ [msg]) t.(world).(history) t.(world).(consulted) t.(world).(tick))
    t.(session)).
Proof.
  intros [Hmem Hs] Hmsg. split; [exact Hmem|]. cbn. set (t' := mk_task _ _).
  assert (∀ owed, device_honest owed t → device_honest owed t') as Hpush.
  { intros owed [Hso Hd Ho Hc]. split; [done|done| |done]. apply Forall_app. auto. }
  destruct (t.(session).(active)), (t.(session).(worker)); naive_solver.
Qed.

Lemma send_triple msg :
  triple (λ t, session_honest t ∧ message_honest (past t) msg) (send_agent msg)
    (λ _, session_honest) session_honest.
Proof.
  intros t [Hs Hr]. unfold send_agent. destruct (negb _); [done|]. unfold mbind, A_bind.
  pose proof (quiet_stays _ quiet_effect t Hs) as Hs1.
  pose proof (quiet_history _ _ (quiet_effect t)) as Hh.
  destruct (effect t) as [t1 [n|e]]; cbn in Hs1, Hh |- *; [|done].
  destruct (negb _); [done|]. apply push_honest; [done|]. unfold past in *. by rewrite Hh.
Qed.

Lemma send_result_triple id d :
  triple (λ t, session_honest t ∧ result_honest (past t)
            (envelope id d))
    (send_terminal_result ctx id d) (λ _, session_honest) session_honest.
Proof.
  intros t [Hs Hr]. unfold send_terminal_result, lift, mbind, A_bind.
  destruct (Transport.build_remote_result _ _ _ _) as [signed|] eqn:Hb; [|done].
  unfold Transport.build_remote_result, Transport.sign_into in Hb.
  destruct (Transport.remote_result_bytes _ _ _); [|done]. injection Hb as <-.
  by apply send_triple.
Qed.

(** The end of a worker *)
Lemma worker_completion_run w t :
  worker_completion w t = (t, Err Crash) ∨
  ∃ store outcome, AgentWorker.honest w.(worker_context) outcome ∧
    worker_completion w t =
    (mk_task (mk_world (set_ephemeral t.(world).(agent) store) t.(world).(disk) t.(world).(files)
       t.(world).(outbox)
       (mk_history (past t).(sessions) (past t).(spawned)
          ((past t).(completed) ++ [(w.(worker_context), outcome)]) (past t).(refused))
       t.(world).(consulted) (S t.(world).(tick))) t.(session), Ok outcome).
Proof.
  unfold worker_completion, effect, the_agent, gets, mbind, A_bind.
  destruct (env_alive env _); [|by left]. right. cbn.
  pose proof (AgentWorker.worker_honest (env_answers env (tick (world t)))
    (ephemeral_data (agent (world t))) playwright workspace_mutation w.(worker_context)
    w.(worker_command)) as Hh.
  destruct (AgentWorker.run_worker _ _ _ _ _ _) as [store outcome]. by exists store, outcome.
Qed.

Lemma completion_spec m o w w' t :
  w'.(worker_context) = w.(worker_context) →
  memory_honest t → device_honest [worker_operation w] t → serves m o w (past t) →
  match worker_completion w' t with
  | (t', Ok outcome) => memory_honest t' ∧ device_honest [] t' ∧ reports m o outcome (past t')
                        ∧ t'.(session) = t.(session)
  | (t', Err _) => t' = t
  end.
Proof.
  intros Hw Hmem [Hs Hd Ho Hc] Hm.
  destruct (worker_completion_run w' t) as [-> |(store & outcome & Hh & ->)]; [done|].
  rewrite Hw in *. set (t' := mk_task _ _).
  assert (later (past t) (past t')) as Hl by (split; cbn; set_solver).
  assert (w.(worker_context) = receipt_context ctx m) as Hctx by apply Hm.
  assert (w.(worker_context).(BackendExecutionReceiptContext.operation) = operation_of ctx m) as Hop
    by (rewrite Hctx; unfold receipt_context; by destruct Agent.backend).
  split_and!; [|split| |done].
  - eapply Forall_impl; [exact Hmem|]. intros e. by apply evidence_later.
  - exact Hs.
  - intros s Hs'. eapply Forall_impl; [by apply Hd|]. intros e. by apply evidence_later.
  - eapply Forall_impl; [exact Ho|]. intros e. by apply message_later.
  - rewrite app_nil_r. unfold completed_operations. cbn. rewrite fmap_app. exact Hc.
  - split.
    + exists w. destruct Hm as [H1 H2 H3 H4]. by split.
    + exists w.(worker_context). split; [|done]. cbn. set_solver.
    + by rewrite <- Hctx.
Qed.

(** *** The end of operations *)

#[local] Hint Extern 1 (along past_stays (on_agent _)) => intros t; reflexivity : along.
#[local] Hint Extern 1 (along past_stays (on_session _)) => intros t; reflexivity : along.
#[local] Hint Extern 1 (along past_stays (on_gate _)) => intros t; reflexivity : along.
#[local] Hint Resolve persist_past : along.
Lemma past_quiet {X} (m : A X) : along quiet_step m → along past_stays m.
Proof. intros Hm t. apply (quiet_history _ _ (Hm t)). Qed.
#[local] Hint Extern 2 (along past_stays _) => apply past_quiet; solve [auto with along] : along.

(** The active operation was taken, and its worker has not reported. *)
Record waiting (m : RemoteCommand) (o : ActiveOperation) (w : Worker) (t : Task) : Prop := {
  waiting_memory : memory_honest t;
  waiting_device : device_honest [worker_operation w] t;
  waiting_serves : serves m o w (past t);
  waiting_active : t.(session).(active) = None;
  waiting_worker : t.(session).(worker) = None
}.

Lemma device_honest_drop owed t : device_honest owed t → device_honest [] t.
Proof.
  intros [Hs Hd Ho Hc]. split; [done..|]. rewrite app_nil_r.
  etrans; [by apply submseteq_inserts_r|exact Hc].
Qed.

Lemma waiting_honest m o w t : waiting m o w t → session_honest t.
Proof.
  intros [Hm Hd _ Ha Hw]. split; [done|]. rewrite Ha, Hw. by eapply device_honest_drop.
Qed.

Lemma waiting_effect m o w :
  triple (waiting m o w) effect (λ _, waiting m o w) session_honest.
Proof.
  intros t [Hm Hd Hs Ha Hw]. pose proof (quiet_effect t) as Hq.
  assert (waiting m o w (effect t).1) as Hwait.
  { pose proof Hq as [_ _ Hh Ha' Hw' _].
    split; [by eapply quiet_memory|by eapply quiet_honest| |congruence|congruence].
    unfold past in *. by rewrite Hh. }
  destruct (effect t) as [t' [n|e]]; cbn in *; [done|]. by eapply waiting_honest.
Qed.

Definition settled (m : RemoteCommand) (o : ActiveOperation) (outcome : AgentOperationOutcome)
    (t : Task) : Prop :=
  session_honest t ∧ reports m o outcome (past t).

Lemma waiting_completion m o w w' :
  w'.(worker_context) = w.(worker_context) →
  triple (waiting m o w) (worker_completion w') (settled m o) session_honest.
Proof.
  intros Hc t Hwait. pose proof Hwait as [Hm Hd Hs Ha Hw].
  pose proof (completion_spec m o w w' t Hc Hm Hd Hs) as Hspec.
  destruct (worker_completion w' t) as [t' [outcome|e]]; cbn.
  - destruct Hspec as (Hm' & Hd' & Hr & Hsess). split; [|done]. split; [done|]. by rewrite Hsess, Ha, Hw.
  - subst t'. by eapply waiting_honest.
Qed.

Lemma record_outcome_triple m o outcome :
  triple (settled m o outcome)
    (match outcome with
     | AgentOperationOutcome.Result r => record_evidence ctx o (AgentErrors.normalized_device_result r)
     | AgentOperationOutcome.BackendReceipt r => record_receipt r
     | AgentOperationOutcome.Indeterminate _ => mret tt
     end) (λ _, session_honest) session_honest.
Proof.
  destruct outcome as [r|r|c].
  - eapply triple_weaken; [apply (record_evidence_triple o)| |done|done].
    intros t [Hs Hr]. split; [done|by eapply reports_provable].
  - eapply triple_weaken; [apply record_receipt_triple| |done|done].
    intros t [Hs Hr]. split; [done|by eapply receipt_provable].
  - by intros t [Hs _].
Qed.

Definition busy (o : ActiveOperation) (w : Worker) (t : Task) : Prop :=
  session_honest t ∧ t.(session).(active) = Some o ∧ t.(session).(worker) = Some w.

Lemma busy_serves o w t :
  busy o w t → memory_honest t ∧ device_honest [worker_operation w] t ∧ ∃ m, serves m o w (past t).
Proof. intros ([Hm Hs] & Ha & Hw). rewrite Ha, Hw in Hs. by split. Qed.

Lemma take_active o w :
  triple (busy o w) (on_session (λ s, with_active s None None)) (λ _ t, ∃ m, waiting m o w t)
    session_honest.
Proof.
  intros t (Hm & Hd & m & Hs)%busy_serves. exists m. destruct Hd. by split.
Qed.

Lemma terminate_stays : along stays_honest (terminate_active ctx).
Proof.
  apply along_triple. unfold terminate_active, the_session. apply triple_gets. intros s.
  destruct (s.(active)) as [o|] eqn:Ha; [|by intros t [Ht _]].
  destruct (s.(worker)) as [w|] eqn:Hw.
  2: { intros t [[_ Ht] <-]. by rewrite Ha, Hw in Ht. }
  eapply triple_bind.
  { eapply triple_weaken; [apply (take_active o w)| |done|done]. intros t [Ht <-]. by split. }
  intros ?. apply triple_exists. intros m.
  eapply triple_bind; [apply waiting_effect|]. intros n.
  destruct (env_termination_timeout env n); [intros t1 Hwait; by eapply waiting_honest|].
  eapply triple_bind; [apply waiting_completion; by destruct (cancellation o)|]. intros outcome.
  destruct (negb _); [by intros t1 [Hs _]|].
  eapply triple_bind; [apply record_outcome_triple|]. intros ?.
  apply triple_stays, on_gate_stays.
Qed.

(** The worker has reported, and the operation is still the active one. *)
Record ending (m : RemoteCommand) (o : ActiveOperation) (outcome : AgentOperationOutcome) (t : Task)
    : Prop := {
  ending_memory : memory_honest t;
  ending_device : device_honest [] t;
  ending_reports : reports m o outcome (past t)
}.

Lemma done_triple o w :
  triple (busy o w) (worker_completion w) (λ outcome t, ∃ m, ending m o outcome t) session_honest.
Proof.
  intros t Hbusy. pose proof (busy_serves _ _ _ Hbusy) as (Hm & Hd & m & Hs).
  pose proof (completion_spec m o w w t eq_refl Hm Hd Hs) as Hspec.
  destruct (worker_completion w t) as [t' [outcome|e]]; cbn.
  - destruct Hspec as (Hm' & Hd' & Hr & _). exists m. by split.
  - subst t'. apply Hbusy.
Qed.

Lemma ending_triple m o outcome :
  triple (ending m o outcome) (on_session (λ s, with_active s None None)) (λ _, settled m o outcome)
    session_honest.
Proof. intros t [Hm [] Hr]. by split. Qed.

Lemma candidate_observes c :
  is_exact_verification_candidate c = true → class (capability c) = CapabilityClass.Observe.
Proof. by destruct c. Qed.

Lemma verified_cases b r :
  verified_result b r = r ∨
  verified_result b r = DeviceResult.Error DeviceErrorCode.HandoffVerificationUnavailable.
Proof. destruct r; cbn; try (destruct b; auto; fail). destruct code, b; auto. Qed.

Lemma unavailable_provable m o r h :
  reports m o (AgentOperationOutcome.Result r) h → o.(handoff_verification) ≠ None →
  let u := DeviceResult.Error DeviceErrorCode.HandoffVerificationUnavailable in
  passes_on m r u ∧ provable o u h.
Proof.
  intros [(w & [_ _ (v & c & -> & Hcand) _]) _ _] Hv. specialize (Hcand Hv). split; [by right|].
  intros pair _ Hclass. exfalso. by apply Hclass, candidate_observes.
Qed.

Lemma verification_triple m o r :
  triple (settled m o (AgentOperationOutcome.Result r))
    (report_verification ctx o (AgentErrors.normalized_device_result r))
    (λ d t, settled m o (AgentOperationOutcome.Result r) t ∧ passes_on m r d ∧ provable o d (past t))
    session_honest.
Proof.
  set (d := AgentErrors.normalized_device_result r). unfold report_verification.
  assert (∀ t, settled m o (AgentOperationOutcome.Result r) t → passes_on m r d ∧ provable o d (past t))
    as Hplain by (intros t [_ Hr]; split; [by left|by eapply reports_provable]).
  destruct (o.(handoff_verification)) as [[authority token]|] eqn:Hv; [|by intros t Ht; split; auto].
  eapply triple_bind.
  { apply (triple_frame (reports m o (AgentOperationOutcome.Result r)));
      unfold verification_reported; walk. }
  intros b t Ht. split; [done|].
  destruct (verified_cases b d) as [-> | ->]; [auto|].
  destruct Ht as [_ Hr]. apply (unavailable_provable m o r); [done|]. by rewrite Hv.
Qed.

Lemma triple_keep_past {X} (F : History → Prop) P (m : A X) Q E :
  triple P m Q E → along past_stays m →
  triple (λ t, P t ∧ F (past t)) m (λ x t, Q x t ∧ F (past t)) E.
Proof.
  intros Hm Hp t [Ht HF]. specialize (Hm t Ht). specialize (Hp t). unfold past_stays in Hp.
  destruct (m t) as [t' [x|e]]; cbn in *; [|done]. by rewrite Hp.
Qed.

Lemma record_evidence_past o r : along past_stays (record_evidence ctx o r).
Proof. unfold record_evidence, the_agent. walk. Qed.

(** Evidence first, then the result *)
Lemma deliver_triple {X} o id d (k : A X) :
  along stays_honest k →
  triple (λ t, (session_honest t ∧ provable o d (past t)) ∧ result_honest (past t)
            (envelope id d))
    (record_evidence ctx o d;; persist_state;; send_terminal_result ctx id d;; k)
    (λ _, session_honest) session_honest.
Proof.
  intros Hk. eapply triple_bind.
  { apply (triple_keep_past (λ h, result_honest h (envelope id d)));
      [apply record_evidence_triple|apply record_evidence_past]. }
  intros ?. eapply triple_bind.
  { apply (triple_frame (λ h, result_honest h (envelope id d))); auto with along. }
  intros ?. eapply triple_bind; [apply send_result_triple|]. intros ?. by apply triple_stays.
Qed.

Lemma handle_result_triple m o r :
  triple (settled m o (AgentOperationOutcome.Result r)) (handle_result ctx o r)
    (λ _, session_honest) session_honest.
Proof.
  unfold handle_result. eapply triple_bind; [apply verification_triple|]. intros d.
  eapply triple_weaken; [apply deliver_triple; walk| |done|done].
  intros t ([Hs Hr] & Hp & Hpr). split; [done|]. by eapply reports_passes_on.
Qed.

Lemma indeterminate_stays o cause : along stays_honest (handle_indeterminate ctx o cause).
Proof. unfold handle_indeterminate. walk. Qed.

Lemma operation_done_stays : along stays_honest (handle_operation_done ctx).
Proof.
  apply along_triple. unfold handle_operation_done, the_session. apply triple_gets. intros s.
  destruct (s.(active)) as [o|] eqn:Ha; [|by intros t [Ht _]].
  destruct (s.(worker)) as [w|] eqn:Hw; [|by intros t [Ht _]].
  eapply triple_bind.
  { eapply triple_weaken; [apply (done_triple o w)| |done|done]. intros t [Ht <-]. by split. }
  intros outcome. apply triple_exists. intros m.
  eapply triple_bind; [apply ending_triple|]. intros ?.
  destruct (_ || _); [by intros t [Ht _]|].
  eapply triple_bind; [apply (triple_frame (reports m o outcome)); auto with along|]. intros ?.
  destruct outcome as [r|r|cause].
  - apply handle_result_triple.
  - eapply triple_bind; [apply (record_outcome_triple m o (AgentOperationOutcome.BackendReceipt r))|].
    intros ?. apply triple_stays. walk.
  - eapply triple_weaken; [apply triple_stays, indeterminate_stays|by intros t [Ht _]|done|done].
Qed.
#[local] Hint Resolve terminate_stays operation_done_stays : along.

Lemma safety_poll_stays : along stays_honest handle_safety_poll.
Proof. unfold handle_safety_poll, fail_closed. walk. Qed.

Lemma heartbeat_stays : along stays_honest (handle_heartbeat_tick ctx).
Proof. unfold handle_heartbeat_tick, the_session. walk. Qed.

(** *** Commands *)

Definition active_stays (t t' : Task) : Prop := t'.(session).(active) = t.(session).(active).
#[local] Instance active_stays_preorder : PreOrder active_stays.
Proof. split; [by intros t|]. intros t1 t2 t3 H1 H2. unfold active_stays in *. congruence. Qed.

Lemma active_quiet {X} (m : A X) : along quiet_step m → along active_stays m.
Proof. intros Hm t. apply (quiet_active _ _ (Hm t)). Qed.

Lemma persist_active : along active_stays persist_state.
Proof.
  unfold persist_state, save_checkpoint, the_agent. walk; [by apply active_quiet, quiet_effect|].
  intros t. unfold active_stays. cbn. by destruct (save_with_size _ _ _ _).
Qed.
#[local] Hint Resolve persist_active : along.
#[local] Hint Extern 1 (along active_stays (on_agent _)) => intros t; reflexivity : along.
#[local] Hint Extern 1 (along active_stays (on_gate _)) => intros t; reflexivity : along.
#[local] Hint Extern 1 (along active_stays (on_history _)) => intros t; reflexivity : along.
#[local] Hint Extern 2 (along active_stays _) => apply active_quiet; solve [auto with along] : along.

(** No operation is active. *)
Definition free (t : Task) : Prop := session_honest t ∧ t.(session).(active) = None.

Lemma triple_free {X} (m : A X) :
  along stays_honest m → along active_stays m → triple free m (λ _, free) session_honest.
Proof.
  intros Hs Ha t [Ht Hact]. specialize (Hs t Ht). specialize (Ha t). unfold active_stays in Ha.
  destruct (m t) as [t' [x|e]]; cbn in *; [|done]. split; [done|congruence].
Qed.

Lemma free_honest t :
  free t ↔ memory_honest t ∧ device_honest [] t ∧ t.(session).(active) = None ∧ t.(session).(worker) = None.
Proof.
  unfold free, session_honest. split.
  - intros [[Hm Hs] Ha]. rewrite Ha in Hs. by destruct (t.(session).(worker)) eqn:Hw.
  - intros (Hm & Hd & Ha & Hw). by rewrite Ha, Hw.
Qed.

(** What the hand-off may decide about a command *)
Definition decided (m : RemoteCommand)
    (d : result DeviceErrorCode (option (RemoteHandoffAuthority * VerificationToken))) : Prop :=
  match d with
  | Ok v => v ≠ None →
      is_exact_verification_candidate m.(RemoteCommand.command).(CommandEnvelope.command) = true
  | Err code => refusal (DeviceResult.Error code)
  end.

Lemma decision_value m t d : (handoff_decision ctx m t).2 = Ok d → decided m d.
Proof.
  assert (∀ v, v = None → decided m (Ok v)) as Hnone by (intros ? -> []; done).
  unfold handoff_decision, refusal. destruct (negb _); [intros [= <-]; auto|].
  destruct Agent.handoff, (m.(RemoteCommand.handoff)); try (intros [= <-]; cbn; unfold refusal; by auto).
  unfold mbind, A_bind. destruct (consult _ _ t) as [t' [answer|e]]; [|done]. cbn. intros [= <-].
  destruct answer as [[| |token]|]; cbn; unfold refusal; try by auto.
  destruct (is_exact_verification_candidate _) eqn:Hc; cbn; [done|by left].
Qed.

Lemma decision_triple m :
  triple free (handoff_decision ctx m) (λ d t, free t ∧ decided m d) session_honest.
Proof.
  intros t Ht. pose proof (triple_free (handoff_decision ctx m)) as Hfree.
  specialize (Hfree ltac:(auto with along) ltac:(auto with along) t Ht).
  pose proof (decision_value m t) as Hv. destruct (handoff_decision ctx m t) as [t' [d|e]]; cbn in *; auto.
Qed.

Lemma spawn_honest_triple m v :
  validate_command_session m.(RemoteCommand.command) ctx.(device) = Ok tt → decided m (Ok v) →
  triple free (spawn_worker ctx m v) (λ _, session_honest) session_honest.
Proof.
  intros Hval Hv. unfold spawn_worker. destruct (_ && _); [by intros t [Ht _]|].
  eapply triple_bind; [apply triple_free; auto with along|]. intros ? t Hfree.
  apply free_honest in Hfree as (Hm & [Hs Hd Ho Hc] & Ha & Hw).
  unfold on_history, on_world, on_session, mbind, A_bind. cbn. set (t' := mk_task _ _).
  assert (later (past t) (past t')) as Hl by (split; cbn; set_solver).
  split; [eapply Forall_impl; [exact Hm|]; intros e; by apply evidence_later|]. cbn. split.
  - split.
    + exact Hs.
    + intros s Hs'. eapply Forall_impl; [by apply Hd|]. intros e. by apply evidence_later.
    + eapply Forall_impl; [exact Ho|]. intros e. by apply message_later.
    + unfold worker_operation. cbn. rewrite app_nil_r in Hc.
      replace (receipt_context ctx m).(BackendExecutionReceiptContext.operation)
        with (operation_of ctx m) by (unfold receipt_context; by destruct Agent.backend).
      rewrite (comm (++)). by apply submseteq_skip.
  - exists m. split; [by left|done|by eexists _, _|done].
Qed.

Lemma refused_triple m :
  triple free (on_history (λ h, mk_history h.(sessions) h.(spawned) h.(completed)
                                  (operation_of ctx m :: h.(refused))))
    (λ _ t, free t ∧ operation_of ctx m ∈ (past t).(refused)) session_honest.
Proof.
  intros t (Hm & [Hs Hd Ho Hc] & Ha & Hw)%free_honest. cbn. set (t' := mk_task _ _).
  assert (later (past t) (past t')) as Hl by (split; cbn; set_solver).
  split; [|by left]. apply free_honest. split_and!; [|split|done..].
  - eapply Forall_impl; [exact Hm|]. intros e. by apply evidence_later.
  - exact Hs.
  - intros s Hs'. eapply Forall_impl; [by apply Hd|]. intros e. by apply evidence_later.
  - eapply Forall_impl; [exact Ho|]. intros e. by apply message_later.
  - exact Hc.
Qed.

Lemma refuse_honest_triple m code :
  refusal (DeviceResult.Error code) →
  triple free (refuse_command ctx m code) (λ _, session_honest) session_honest.
Proof.
  intros Hcode. unfold refuse_command.
  eapply triple_bind; [apply triple_free; auto with along|]. intros ?.
  eapply triple_bind; [apply refused_triple|]. intros ?.
  eapply triple_weaken.
  - eapply triple_bind; [apply (triple_keep_past
      (λ h, result_honest h (envelope (CommandEnvelope.operation_id (RemoteCommand.command m))
              (DeviceResult.Error code)))); [apply record_evidence_triple|apply record_evidence_past]|].
    intros ?. eapply triple_bind; [apply (triple_frame
      (λ h, result_honest h (envelope (CommandEnvelope.operation_id (RemoteCommand.command m))
              (DeviceResult.Error code)))); auto with along|].
    intros ?. apply send_result_triple.
  - intros t [[Ht _] Hr]. split; [split; [done|]|right; by split].
    intros pair Hpair _. right. split; [done|].
    destruct Hcode as [[= ->]|[= ->]]; injection Hpair as <-; done.
  - done.
  - done.
Qed.

Lemma authorize_triple m :
  triple session_honest (authorize_command ctx started m)
    (λ _ t, session_honest t ∧
       validate_command_session m.(RemoteCommand.command) ctx.(device) = Ok tt) session_honest.
Proof.
  unfold authorize_command. eapply triple_bind; [apply triple_stays; walk|]. intros hub.
  apply triple_lift; [|done]. intros [] _. apply triple_lift; [|done]. intros [] Hval.
  eapply triple_weaken;
    [apply (triple_frame (λ _, validate_command_session (RemoteCommand.command m) (device ctx) = Ok tt))
    | |done|done].
  - unfold the_agent. walk.
  - unfold the_agent. walk.
  - done.
Qed.

Lemma command_stays m : along stays_honest (handle_command ctx started m).
Proof.
  apply along_triple. unfold handle_command. eapply triple_bind; [apply authorize_triple|]. intros ?.
  eapply triple_bind.
  { apply (triple_frame (λ _, validate_command_session (RemoteCommand.command m) (device ctx) = Ok tt));
      auto with along. }
  intros ?. apply triple_pure. intros Hval. unfold the_session. apply triple_gets. intros s.
  destruct (s.(active)) eqn:Ha; cbn [opt_some]; [by intros t [Ht _]|].
  apply (triple_weaken _ free _ _ (λ _, session_honest) _ session_honest); [|intros t [Ht <-]; by split|done|done].
  eapply triple_bind; [apply triple_free; auto with along|]. intros ?.
  eapply triple_bind; [apply triple_free; auto with along|]. intros ?.
  eapply triple_bind; [apply decision_triple|]. intros d t [Ht Hd].
  destruct d as [v|code]; [by apply spawn_honest_triple|by apply refuse_honest_triple].
Qed.

(** The worker of a cancelled operation is told. *)
Lemma signal_stays :
  along stays_honest (on_session (λ s, with_active s s.(active) (signal_cancellation <$> s.(worker)))).
Proof.
  intros t [Hm Hs]. split; [exact Hm|]. cbn.
  destruct (t.(session).(active)) as [o|], (t.(session).(worker)) as [w|]; try done; cbn.
  - destruct Hs as [[] (m & [])]. split; [by split|]. exists m. by split.
  - by destruct Hs.
Qed.
#[local] Hint Resolve signal_stays command_stays safety_poll_stays heartbeat_stays : along.

Lemma cancel_stays m : along stays_honest (handle_cancel ctx m).
Proof. unfold handle_cancel, the_session. walk. Qed.
#[local] Hint Resolve cancel_stays : along.

Lemma event_stays e : along stays_honest (handle_event ctx started e).
Proof. unfold handle_event, handle_shutdown, handle_inbound, handle_message. walk. Qed.

Lemma loop_stays events : along stays_honest (run_session_loop ctx started events).
Proof.
  assert (∀ l, along stays_honest (session_loop ctx started l)) as Hloop.
  { induction l as [|e l IH]; cbn [session_loop]; walk. apply event_stays. }
  unfold run_session_loop, the_session. walk.
Qed.

Lemma end_session_stays r : along stays_honest (end_session r).
Proof. unfold end_session, fail_closed. walk. Qed.
End Session.

(** ** Processes *)

Definition process_honest (t : Task) : Prop := memory_honest t ∧ device_honest [] t.
Definition process_stays (t t' : Task) : Prop := process_honest t → process_honest t'.
#[export] Instance process_stays_preorder : PreOrder process_stays := keeps_preorder process_honest.

Lemma session_process ctx t : session_honest ctx t → process_honest t.
Proof.
  intros [Hm Hs]. split; [done|].
  destruct (t.(session).(active)), (t.(session).(worker)); try done. destruct Hs. by eapply device_honest_drop.
Qed.

Lemma triple_process {X} (m : A X) :
  along process_stays m → triple process_honest m (λ _, process_honest) process_honest.
Proof. apply triple_along. Qed.

Lemma process_quiet {X} (m : A X) : along quiet_step m → along process_stays m.
Proof.
  intros Hm t [Hmem Hd]. specialize (Hm t). split; [by eapply quiet_memory|by eapply quiet_honest].
Qed.

Lemma process_persist : along process_stays persist_state.
Proof.
  intros t [Hm Hd]. destruct (persisted_honest [] t _ _ (persist_spec t alone (honest_sound _ _ Hd)) Hd Hm).
  by split.
Qed.

Lemma process_gate call : along process_stays (on_gate call).
Proof. intros t [Hm []]. by split. Qed.
#[local] Hint Resolve process_persist process_gate : along.
#[local] Hint Extern 2 (along process_stays _) => apply process_quiet; solve [auto with along] : along.

Lemma prepare_honest ctx :
  triple process_honest (prepare_session ctx) (λ _, process_honest) process_honest.
Proof.
  unfold prepare_session. eapply triple_bind; [apply triple_process; walk|]. intros ?.
  eapply triple_bind; [apply triple_process; walk|]. intros ?. unfold the_agent.
  apply triple_gets. intros a. apply triple_lift; [|by intros t [Ht _]]. intros report Hreport.
  unfold Transport.build_remote_reconciliation_report, Transport.sign_into in Hreport.
  destruct (Transport.invalid_report _ _); [done|].
  destruct (Transport.remote_reconciliation_report_bytes _ _ _); [|done]. injection Hreport as <-.
  eapply triple_bind with (Q := λ _, process_honest); [|intros ?; apply triple_process; walk].
  intros t [[Hm Hd] <-]. unfold send_agent. destruct (negb _); [by split|]. unfold mbind, A_bind.
  pose proof (process_quiet _ quiet_effect t (conj Hm Hd)) as Ht1.
  pose proof (quiet_history _ _ (quiet_effect t)) as Hh.
  destruct (effect t) as [t1 [n|e]]; cbn in Ht1, Hh |- *; [|done].
  destruct (negb _); [done|]. destruct Ht1 as [Hm1 [Hs Hx Ho Hc]]. split; [done|].
  split; [done|done| |done]. apply Forall_app. split; [done|]. constructor; [|done]. cbn.
  unfold memory_honest, past in *. cbn. by rewrite Hh.
Qed.

Lemma enter_honest ctx :
  triple process_honest (enter_session ctx) (λ _, process_honest) process_honest.
Proof.
  unfold enter_session, the_agent. apply triple_gets. intros a.
  destruct (managed_job_fail_closed a); [by intros t [Ht _]|].
  eapply triple_bind with (Q := λ _, process_honest); [|intros ?; apply prepare_honest].
  intros t [[Hm [Hs Hd Ho Hc]] _]. cbn. set (t' := mk_task _ _).
  assert (later (past t) (past t')) as Hl by (split; cbn; set_solver).
  split; [eapply Forall_impl; [exact Hm|]; intros e; by apply evidence_later|]. split.
  - exact Hs.
  - intros s Hs'. eapply Forall_impl; [by apply Hd|]. intros e. by apply evidence_later.
  - eapply Forall_impl; [exact Ho|]. intros e. by apply message_later.
  - exact Hc.
Qed.

Lemma session_run_honest i : along process_stays (run_authenticated_session i).
Proof.
  unfold run_authenticated_session. apply along_bind; [typeclasses eauto|auto with along|].
  intros ctx. apply along_triple.
  eapply triple_bind; [apply enter_honest|]. intros ?.
  eapply triple_bind; [apply triple_process, process_quiet, quiet_instant|]. intros started.
  eapply triple_bind with (Q := λ _, session_honest ctx); [by intros t [Hm []]|]. intros ?.
  eapply triple_weaken; [|done| |apply session_process];
    [apply triple_stays, along_bind; [apply stays_honest_preorder|apply along_attempt, loop_stays|];
     intros r; apply end_session_stays|].
  intros ? t. apply session_process.
Qed.

Lemma lifecycle_honest turns : ∀ failures, along process_stays (run_connected_lifecycle failures turns).
Proof.
  induction turns as [|t turns IH]; intros failures; cbn [run_connected_lifecycle]; walk;
    unfold connect_and_run; walk; [apply session_run_honest|apply IH..].
Qed.

Lemma run_honest turns : along process_stays (run turns).
Proof. unfold run. walk; apply lifecycle_honest. Qed.

Lemma restored_evidence_honest x a :
  restored_service x = Ok a →
  a.(terminal_evidence) = match x with Ok s => s.(Persistence.terminal_evidence) | Err _ => [] end.
Proof.
  unfold restored_service. destruct x as [s|[]]; try done; [|by intros [= <-]].
  destruct (restore_with_runtime_safety s) as [r|] eqn:Hr; [|done].
  destruct (negb _); [done|]. destruct (reconcile_trusted_hub _); [|done]. intros [= <-]. cbn.
  unfold restore_with_runtime_safety in Hr.
  destruct (validate_state_schema _); [|done]. destruct (_ || _); [done|].
  destruct (vk_from_bytes _); [|done]. destruct (Grants.from_persisted_snapshot _); [|done].
  destruct (AgentGate.restore_gate _); [|done]. by injection Hr as <-.
Qed.

Lemma build_honest :
  triple (device_honest []) build (λ _, process_honest) (device_honest []).
Proof.
  unfold build. apply triple_lift; [|done]. intros ? _.
  eapply triple_bind with (Q := λ _, device_honest []); [destruct (env_executors env); by intros t Ht|]. intros ?.
  unfold load_checkpoint. eapply triple_bind with
    (Q := λ x t, device_honest [] t ∧ ∀ a, restored_service x = Ok a →
                 Forall (evidence_honest (past t)) a.(terminal_evidence)).
  { intros t Ht. unfold gets, mbind, A_bind. pose proof (quiet_honest [] _ _ (quiet_effect t) Ht) as Ht1.
    destruct (effect t) as [t1 [n|e]]; cbn in *; [|done]. split; [done|]. intros a ->%restored_evidence_honest.
    pose proof (load_may_load agent_checkpoints (disk (world t1)) (env_io env n) _ eq_refl) as Hl.
    destruct (load_latest_with_sequence _ _ _) as [[k s]|e]; [by apply Ht1|done]. }
  intros loaded. apply triple_lift; [|by intros t [Ht _]]. intros a Ha.
  apply triple_lift; [|by intros t [Ht _]]. intros store _.
  eapply triple_bind with (Q := λ _ t, device_honest [] t ∧ Forall (evidence_honest (past t)) a.(terminal_evidence)).
  { destruct (env_staging env); intros t [Ht He]; [done|]. split; [done|]. by apply He. }
  intros ?. eapply triple_bind with (Q := λ _, process_honest).
  { intros t [[] He]. by split. }
  intros ?. eapply triple_weaken; [apply triple_process, process_persist|done|done|]. by intros t [_ Hd].
Qed.

Lemma process_run_honest turns t : device_honest [] t → device_honest [] (process turns t).1.
Proof.
  intros Ht. unfold process, mbind, A_bind. pose proof (build_honest t Ht) as Hb.
  destruct (build t) as [t1 [[]|e]]; cbn in *; [|done]. by apply run_honest.
Qed.
End Honest.
