(* ===== verification/AgentDurable.v ===== *)
(** * Results of the Agent follow their evidence

    [src/src/v2_m1_agent.rs] stores the replay barrier and the terminal evidence of an
    operation before it sends the result. *)

From S2P Require Import Prelude Vocabulary Protocol Crypto Tombstone Admission Registry Grants.
From S2P Require Import SafetyTypes Recovery EphemeralRefs Evidence Transport AgentGate.
From S2P Require Import SessionRuntime Trust Persistence PersistenceTheorems AgentErrors.
From S2P Require Import AgentWorker Agent AgentSession AgentLogic AgentQuiet AgentOnce AgentHonest.
Import Persistence Agent AgentSession.AgentSession.

Lemma keep_last_snoc {X} n (l : list X) x : (0 < n)%N → x ∈ keep_last n (l ++ [x]).
Proof.
  intros Hn. unfold keep_last. rewrite drop_app, elem_of_app. right.
  replace (length (l ++ [x]) - N.to_nat n - length l)%nat with 0%nat
    by (rewrite length_app; cbn [length]; lia). by left.
Qed.

Lemma record_terminal_evidence_has journal dev o r journal' :
  record_terminal_evidence journal dev o r = Ok journal' →
  class o.(operation_capability) ≠ CapabilityClass.Observe →
  terminal_evidence_for_device_result r ≠ None →
  ∃ e, e ∈ journal' ∧ e.(AgentTerminalEvidence.operation).(OperationRef.operation_id) = o.(operation_id).
Proof.
  unfold record_terminal_evidence. intros Hj Hc Hr. rewrite bool_decide_false in Hj by done.
  destruct (terminal_evidence_for_device_result r) as [pair'|]; [|done].
  destruct (validate_terminal_evidence _); [|done].
  destruct (existsb _ journal) eqn:Hex; injection Hj as <-.
  - apply existsb_exists in Hex as (e & He & Heq%bool_decide_eq_true). exists e.
    split; [by apply list_elem_of_In|done].
  - eexists. split; [by apply keep_last_snoc|done].
Qed.

(** The state remembers the operation of the result, and has its evidence when there is
    any. *)
Definition keeps_evidence (c : DeviceCapability) (e : CommandResultEnvelope) (s : AgentPersistentState)
    : Prop :=
  e.(CommandResultEnvelope.operation_id)
    ∈ s.(agent_execution).(AgentGate.snap_terminal_operation_ids) ∧
  (class c ≠ CapabilityClass.Observe →
   terminal_evidence_for_device_result e.(CommandResultEnvelope.device_result) ≠ None →
   ∃ x, x ∈ s.(Persistence.terminal_evidence) ∧
     x.(AgentTerminalEvidence.operation).(OperationRef.operation_id)
     = e.(CommandResultEnvelope.operation_id)).

Section Durable.
Context `{ED : Ed25519} `{TS : RotationSerializer} `{HI : HashIter} `{SU : !AgentSetup}
  `{CJ : CheckpointJson AgentPersistentState} `{WJ : WireJson} `{GS : GrantSerializer}
  `{SHA : Sha256} `{CJL : !CheckpointJsonLaws AgentPersistentState}.
Hypothesis alone : single_writer.
Variables (ctx : Context_) (started : N).

Definition no_result (l : list AgentToHub) : Prop := ∀ r, AgentToHub.Result r ∉ l.

Definition durable_result (c : DeviceCapability) (t : Task) (r : RemoteResult) : Prop :=
  ∀ x, on_disk t x → ∃ s, x = Ok s ∧ keeps_evidence c r.(RemoteResult.device_result) s.

(** No result is sent. *)
Definition silent (t t' : Task) : Prop :=
  (sound_disk t → sound_disk t') ∧ ∃ l, t'.(world).(outbox) = t.(world).(outbox) ++ l ∧ no_result l.

#[local] Instance silent_preorder : PreOrder silent.
Proof.
  split.
  - intros t. split; [done|]. exists []. rewrite app_nil_r. split; [done|]. intros r. set_solver.
  - intros t1 t2 t3 [H1 (l1 & E1 & Hl1)] [H2 (l2 & E2 & Hl2)]. split; [auto|]. exists (l1 ++ l2).
    rewrite E2, E1, app_assoc. split; [done|]. intros r. rewrite elem_of_app. intros [?|?];
      [by eapply Hl1|by eapply Hl2].
Qed.

Lemma silent_same t t' :
  t'.(world).(disk) = t.(world).(disk) → t'.(world).(outbox) = t.(world).(outbox) → silent t t'.
Proof.
  intros Hd Ho. split; [unfold sound_disk; by rewrite Hd|]. exists []. rewrite app_nil_r.
  split; [done|]. intros r. set_solver.
Qed.

Lemma silent_quiet {X} (m : A X) : along quiet_step m → along silent m.
Proof.
  intros Hm t. destruct (Hm t) as [_ Hd _ _ _ (l & Ho & Hl)].
  split; [unfold sound_disk; by rewrite Hd|]. exists l. split; [done|]. intros r Hr.
  by apply (proj1 (Forall_forall _ _) Hl) in Hr.
Qed.

Lemma silent_persist : along silent persist_state.
Proof.
  intros t. split.
  - intros Hs. by destruct (persist_spec t alone Hs).
  - exists []. rewrite app_nil_r. split; [|intros r; set_solver].
    unfold persist_state, the_agent, gets, lift, mbind, A_bind. destruct (capture _); [|done].
    unfold save_checkpoint, effect, mbind, A_bind. destruct (env_alive env _); [|done]. cbn.
    by destruct (save_with_size _ _ _ _).
Qed.

#[local] Hint Resolve silent_persist : along.
#[local] Hint Extern 1 (along silent (on_agent _)) => intros ?; by apply silent_same : along.
#[local] Hint Extern 1 (along silent (on_session _)) => intros ?; by apply silent_same : along.
#[local] Hint Extern 1 (along silent (on_history _)) => intros ?; by apply silent_same : along.
#[local] Hint Extern 1 (along silent (on_gate _)) => intros ?; by apply silent_same : along.
#[local] Hint Extern 2 (along silent _) => apply silent_quiet; solve [auto with along] : along.

Lemma completion_silent w : along silent (worker_completion w).
Proof. unfold worker_completion, the_agent. walk. Qed.
Lemma record_evidence_silent o r : along silent (record_evidence ctx o r).
Proof. unfold record_evidence, the_agent. walk. Qed.
Lemma record_receipt_silent r : along silent (record_receipt r).
Proof. unfold record_receipt, the_agent. walk. Qed.
#[local] Hint Resolve completion_silent record_evidence_silent record_receipt_silent : along.

Lemma terminate_silent : along silent (terminate_active ctx).
Proof. unfold terminate_active, the_session. walk. Qed.
#[local] Hint Resolve terminate_silent : along.

Lemma authorize_silent m : along silent (authorize_command ctx started m).
Proof. unfold authorize_command, the_agent. walk. Qed.
Lemma spawn_silent m v : along silent (spawn_worker ctx m v).
Proof. unfold spawn_worker. walk. Qed.
Lemma cancel_silent m : along silent (handle_cancel ctx m).
Proof. unfold handle_cancel, the_session. walk. Qed.
Lemma safety_poll_silent : along silent handle_safety_poll.
Proof. unfold handle_safety_poll, fail_closed. walk. Qed.
Lemma heartbeat_silent : along silent (handle_heartbeat_tick ctx).
Proof. unfold handle_heartbeat_tick, the_session. walk. Qed.
#[local] Hint Resolve authorize_silent spawn_silent cancel_silent safety_poll_silent
  heartbeat_silent : along.

(** ** Sending *)

Section Sending.
Variables (sent : list AgentToHub) (c : DeviceCapability).

Definition before (t : Task) : Prop :=
  sound_disk t ∧ ∃ l, t.(world).(outbox) = sent ++ l ∧ no_result l.

Definition after (t : Task) : Prop :=
  ∃ l, t.(world).(outbox) = sent ++ l ∧ ∀ r, AgentToHub.Result r ∈ l → durable_result c t r.

Lemma before_after t : before t → after t.
Proof. intros [_ (l & Ho & Hl)]. exists l. split; [done|]. intros r Hr. by destruct (Hl r). Qed.

Lemma silent_before t t' : silent t t' → before t → before t'.
Proof.
  intros [Hs (l' & Ho' & Hl')] [Hsound (l & Ho & Hl)]. split; [auto|]. exists (l ++ l').
  rewrite Ho', Ho, app_assoc. split; [done|]. intros r. rewrite elem_of_app.
  intros [?|?]; [by eapply Hl|by eapply Hl'].
Qed.

Lemma silent_triple {X} (m : A X) : along silent m → triple before m (λ _, before) after.
Proof.
  intros Hm t Ht. pose proof (silent_before _ _ (Hm t) Ht) as Hb.
  destruct (m t) as [t' [x|e]]; [done|]. by apply before_after.
Qed.

Lemma quiet_after t t' : quiet_step t t' → after t → after t'.
Proof.
  intros [_ Hd _ _ _ (l' & Ho' & Hl')] (l & Ho & Hl). exists (l ++ l').
  rewrite Ho', Ho, app_assoc. split; [done|]. intros r. rewrite elem_of_app. intros [Hr|Hr].
  - intros x. unfold on_disk. rewrite Hd. by apply Hl.
  - by apply (proj1 (Forall_forall _ _) Hl') in Hr.
Qed.

Lemma quiet_after_triple {X} (m : A X) : along quiet_step m → triple after m (λ _, after) after.
Proof. intros Hm. apply triple_along. intros t. by apply quiet_after. Qed.

(** The gate remembers [id]. *)
Definition ready (id : string) (t : Task) : Prop :=
  before t ∧ id ∈ AgentGate.started_ids (gate t).

Lemma ready_triple {X} id (m : A X) :
  along silent m → along (λ t t', gate t' = gate t) m → triple (ready id) m (λ _, ready id) after.
Proof.
  intros Hs Hg t [Ht Hid]. pose proof (silent_before _ _ (Hs t) Ht) as Hb. specialize (Hg t).
  destruct (m t) as [t' [x|e]]; cbn in *; [|by apply before_after]. split; [done|]. by rewrite Hg.
Qed.

Lemma finish_ready id :
  triple before (on_gate (λ g, AgentGate.finish g id)) (λ _, ready id) after.
Proof.
  intros t Ht. pose proof (silent_before t (on_gate (λ g, AgentGate.finish g id) t).1) as Hb.
  specialize (Hb ltac:(by apply silent_same) Ht).
  unfold on_gate, the_agent, gets, lift, mbind, A_bind in *. cbn in *.
  destruct (AgentGate.finish_cases (execution (agent (world t))) id)
    as [(e & g' & E & _)|(o & s & _ & _ & E)]; rewrite E in *; cbn in *; [by apply before_after|].
  split; [done|]. unfold gate, AgentGate.started_ids. cbn. set_solver.
Qed.

(** ... and the journal has its evidence. *)
Definition recorded (o : ActiveOperation) (d : DeviceResult) (t : Task) : Prop :=
  ready o.(operation_id) t ∧
  (class o.(operation_capability) ≠ CapabilityClass.Observe →
   terminal_evidence_for_device_result d ≠ None →
   ∃ x, x ∈ t.(world).(agent).(terminal_evidence) ∧
     x.(AgentTerminalEvidence.operation).(OperationRef.operation_id) = o.(operation_id)).

Lemma record_recorded o d :
  triple (ready o.(operation_id)) (record_evidence ctx o d) (λ _, recorded o d) after.
Proof.
  intros t [[Hs Hb] Hid]. unfold record_evidence, the_agent, gets, lift, mbind, A_bind. cbn.
  destruct (record_terminal_evidence _ _ o d) as [journal|] eqn:Hj; cbn; [|by apply before_after; split].
  split; [by split|]. intros Hc Hd. by apply (record_terminal_evidence_has _ _ _ _ _ Hj).
Qed.

Definition stored (o : ActiveOperation) (d : DeviceResult) (t : Task) : Prop :=
  before t ∧ ∀ x, on_disk t x → ∃ s, x = Ok s ∧
    keeps_evidence o.(operation_capability) (envelope ctx o.(operation_id) d) s.

Lemma persist_stored o d :
  triple (recorded o d) persist_state (λ _, stored o d) after.
Proof.
  intros t [[Hb Hid] Hev]. pose proof (persist_spec t alone (proj1 Hb)) as Hp.
  pose proof (silent_before _ _ (silent_persist t) Hb) as Hb'.
  destruct (persist_state t) as [t' [[]|e]]; cbn in *; [|by apply before_after].
  destruct Hp as [_ _ _ _ _ _ Honly]. destruct (Honly eq_refl) as (s & Hcap & Hall). split; [done|].
  intros x ->%Hall. exists s. split; [done|]. split.
  - rewrite (capture_execution _ _ Hcap). by apply AgentGate.snapshot_ids.
  - rewrite (capture_evidence _ _ Hcap). exact Hev.
Qed.

Lemma send_stored o d :
  o.(operation_capability) = c →
  triple (stored o d) (send_terminal_result ctx o.(operation_id) d) (λ _, after) after.
Proof.
  intros Hcap t [Hb Hd]. unfold send_terminal_result, lift, mbind, A_bind.
  destruct (Transport.build_remote_result _ _ _ _) as [signed|] eqn:Hr; [|by apply before_after].
  unfold Transport.build_remote_result, Transport.sign_into in Hr.
  destruct (Transport.remote_result_bytes _ _ _); [|done]. injection Hr as <-.
  unfold send_agent. destruct (negb _); [by apply before_after|]. unfold mbind, A_bind.
  pose proof (quiet_effect t) as Hq. pose proof (quiet_disk _ _ Hq) as Hdisk.
  pose proof (quiet_after _ _ Hq (before_after _ Hb)) as Ha.
  destruct (effect t) as [t1 [n|e]]; cbn in *; [|done]. destruct (negb _); [done|].
  destruct Ha as (l & Ho & Hl). eexists (l ++ [_]). cbn. rewrite Ho, <- app_assoc. split; [done|].
  intros r. rewrite elem_of_app. intros [Hr|Hr%list_elem_of_singleton]; [by apply Hl|].
  injection Hr as ->. intros x. unfold on_disk. cbn. rewrite Hdisk. intros Hx.
  destruct (Hd x Hx) as (s & -> & Hk). exists s. split; [done|]. by rewrite <- Hcap.
Qed.

Lemma deliver_after {X} o d (k : A X) :
  o.(operation_capability) = c → along quiet_step k →
  triple (ready o.(operation_id))
    (record_evidence ctx o d;; persist_state;; send_terminal_result ctx o.(operation_id) d;; k)
    (λ _, after) after.
Proof.
  intros Hc Hk. eapply triple_bind; [apply record_recorded|]. intros ?.
  eapply triple_bind; [apply persist_stored|]. intros ?.
  eapply triple_bind; [by apply send_stored|]. intros ?. by apply quiet_after_triple.
Qed.

Definition gate_stays (t t' : Task) : Prop := gate t' = gate t.
#[local] Instance gate_stays_preorder : PreOrder gate_stays.
Proof. split; [by intros t|]. intros t1 t2 t3 H1 H2. unfold gate_stays in *. congruence. Qed.

Lemma gate_quiet {X} (m : A X) : along quiet_step m → along gate_stays m.
Proof. intros Hm t. unfold gate_stays, gate. by rewrite (quiet_agent _ _ (Hm t)). Qed.

Lemma handle_result_after o r :
  o.(operation_capability) = c →
  triple (ready o.(operation_id)) (handle_result ctx o r) (λ _, after) after.
Proof.
  intros Hc. unfold handle_result. eapply triple_bind.
  { apply ready_triple; [auto with along|]. apply gate_quiet. auto with along. }
  intros d. apply deliver_after; [done|]. walk.
Qed.

Lemma operation_done_after t0 :
  before t0 → operation_capability <$> t0.(session).(active) = Some c →
  after (handle_operation_done ctx t0).1.
Proof.
  intros Hb Hc. assert (triple (λ t, before t ∧ operation_capability <$> t.(session).(active) = Some c)
    (handle_operation_done ctx) (λ _, after) after) as Htriple.
  { unfold handle_operation_done, the_session. apply triple_gets. intros s.
    destruct (s.(active)) as [o|] eqn:Ha; [|intros t [[Ht _] _]; by apply before_after].
    destruct (s.(worker)) as [w|] eqn:Hw; [|intros t [[Ht _] _]; by apply before_after].
    apply (triple_weaken _ (λ t, before t ∧ o.(operation_capability) = c) _ _ (λ _, after) _ after);
      [|intros t [[Ht Hcap] <-]; rewrite Ha in Hcap; by injection Hcap|done|done].
    apply triple_pure. intros Hcap.
    eapply triple_bind; [apply silent_triple; auto with along|]. intros outcome.
    eapply triple_bind; [apply silent_triple; auto with along|]. intros ?.
    destruct (_ || _); [intros t Ht; by apply before_after|].
    eapply triple_bind; [apply finish_ready|]. intros ?.
    destruct outcome as [r|r|cause]; [by apply handle_result_after| |];
      (eapply triple_weaken; [apply silent_triple|by intros t [Ht _]|intros ?; apply before_after|done]).
    - walk.
    - unfold handle_indeterminate. walk. }
  specialize (Htriple t0 (conj Hb Hc)). by destruct (handle_operation_done ctx t0) as [t' [x|e]].
Qed.

Lemma refuse_after m code :
  capability m.(RemoteCommand.command).(CommandEnvelope.command) = c →
  triple before (refuse_command ctx m code) (λ _, after) after.
Proof.
  intros Hc. unfold refuse_command. eapply triple_bind; [apply finish_ready|]. intros ?.
  eapply triple_bind; [apply ready_triple; [auto with along|by intros t]|]. intros ?.
  change (CommandEnvelope.operation_id (RemoteCommand.command m))
    with (operation_id (active_of ctx m None NoCancellation)).
  eapply triple_bind; [apply record_recorded|]. intros ?.
  eapply triple_bind; [apply persist_stored|]. intros ?. by apply send_stored.
Qed.

Lemma command_after m :
  capability m.(RemoteCommand.command).(CommandEnvelope.command) = c →
  triple before (handle_command ctx started m) (λ _, after) after.
Proof.
  intros Hc. unfold handle_command. eapply triple_bind; [apply silent_triple; auto with along|]. intros ?.
  eapply triple_bind; [apply silent_triple; auto with along|]. intros ?.
  unfold the_session. apply triple_gets. intros s.
  apply (triple_weaken _ before _ _ (λ _, after) _ after); [|by intros t [Ht _]|done|done].
  destruct (opt_some _); [intros t Ht; by apply before_after|].
  eapply triple_bind; [apply silent_triple; auto with along|]. intros ?.
  eapply triple_bind; [apply silent_triple; auto with along|]. intros ?.
  eapply triple_bind; [apply silent_triple; auto with along|]. intros [v|code]; [|by apply refuse_after].
  eapply triple_weaken; [apply silent_triple; auto with along|done|intros ?; apply before_after|done].
Qed.
End Sending.

(** The capability of the operation whose result the handling of an event may send *)
Definition handled_capability (t : Task) (e : Event) : option DeviceCapability :=
  match e with
  | OperationDone => operation_capability <$> t.(session).(active)
  | Inbound (Ok (Some (Some (HubToAgent.Command m)))) =>
      Some (capability m.(RemoteCommand.command).(CommandEnvelope.command))
  | _ => None
  end.

Lemma other_events_silent t e :
  handled_capability t e = None → silent t (handle_event ctx started e t).1.
Proof.
  intros He. assert (∀ X (m : A X), along silent m → silent t (m t).1) as Hrun by (intros X m Hm; apply Hm).
  destruct e as [b| | | | |[[[m|]|]|]|]; cbn [handled_capability] in He; try done; unfold handle_event;
    try (apply Hrun; unfold handle_shutdown, handle_inbound; walk; fail).
  - unfold handle_operation_done, the_session, gets, mbind, A_bind.
    destruct (t.(session).(active)); [done|]. reflexivity.
  - apply Hrun. unfold handle_inbound, handle_message. destruct m; try done; walk.
Qed.

(** C11: A result follows its evidence. When the handling of an event, also one that fails or
    during which the process dies, has sent the result of an operation, then every
    checkpoint that a later start may load remembers the operation as started, and has
    terminal evidence for it whenever the result is evidence of a change. *)
Theorem results_follow_their_evidence t t' e x l r :
  sound_disk t → handle_event ctx started e t = (t', x) →
  t'.(world).(outbox) = t.(world).(outbox) ++ l → AgentToHub.Result r ∈ l →
  ∃ c, handled_capability t e = Some c ∧ durable_result c t' r.
Proof.
  intros Hs Hrun Ho Hr.
  assert (before t.(world).(outbox) t) as Hb.
  { split; [done|]. exists []. rewrite app_nil_r. split; [done|]. intros r'. set_solver. }
  assert (∀ c, after t.(world).(outbox) c t' → durable_result c t' r) as Hafter.
  { intros c (l' & Ho' & Hl'). rewrite Ho in Ho'. apply app_inv_head in Ho'. subst l'. by apply Hl'. }
  destruct (handled_capability t e) as [c|] eqn:He.
  - exists c. split; [done|]. apply Hafter.
    destruct e as [b| | | | |[[[m|]|]|]|]; cbn [handled_capability] in He; try done.
    + replace t' with (handle_operation_done ctx t).1
        by (change (handle_event ctx started OperationDone) with (handle_operation_done ctx) in Hrun; by rewrite Hrun).
      by apply operation_done_after.
    + destruct m; try done. injection He as Hc.
      pose proof (command_after t.(world).(outbox) c _ Hc t Hb) as Ha.
      unfold handle_event, handle_inbound, handle_message, mbind, A_bind in Hrun.
      destruct (handle_command ctx started _ t) as [t1 [[]|err]]; cbn in *; by injection Hrun as <- <-.
  - exfalso. pose proof (other_events_silent t e He) as [_ (l' & Ho' & Hl')]. rewrite Hrun in Ho'. cbn in Ho'.
    rewrite Ho in Ho'. apply app_inv_head in Ho'. subst l'. by eapply Hl'.
Qed.
End Durable.
