(* ===== verification/AgentAuthority.v ===== *)
(** * What the Agent may start

    Every operation that a process of the Agent ([src/src/v2_m1_agent.rs]) hands to a worker
    was commanded in an authenticated session, under the Hub key the device was
    provisioned with, by a command whose signature, session and grant were checked, and a
    command that the hand-off protects has the consent of its coordinator. *)

From S2P Require Import Prelude Vocabulary Protocol Crypto Tombstone Admission Registry Grants.
From S2P Require Import SafetyTypes Recovery EphemeralRefs Evidence Transport AgentGate.
From S2P Require Import SessionRuntime Trust Persistence PersistenceTheorems AgentErrors.
From S2P Require Import AgentWorker Agent AgentSession AgentLogic AgentQuiet AgentOnce.
Import Persistence Agent AgentSession.AgentSession.

Section Authority.
Context `{ED : Ed25519} `{TS : RotationSerializer} `{HI : HashIter} `{SU : !AgentSetup}
  `{CJ : CheckpointJson AgentPersistentState} `{WJ : WireJson} `{GS : GrantSerializer}
  `{SHA : Sha256} `{EDL : !Ed25519Laws}.

(** The handshake of the session was the Hub's, for this hello, and gave the session its
    generation. *)
Record authenticated (ctx : Context_) (accepted : SessionAccepted) : Prop := {
  auth_device : ctx.(device).(DeviceSession.device_id) = config.(device_id);
  auth_hello : ctx.(hello).(AgentHello.device_id) = config.(device_id);
  auth_challenge :
    Transport.verify_hub_challenge ctx.(hello) ctx.(challenge) material.(trusted_hub_key) = Ok tt;
  auth_accepted : Transport.verify_session_accepted ctx.(hello) ctx.(challenge) accepted
                    material.(trusted_hub_key) = Ok tt;
  auth_generation :
    ctx.(device).(DeviceSession.generation) = accepted.(SessionAccepted.device_generation)
}.

(** The hand-off does not protect the command, there is none on both sides, or its
    coordinator has answered with consent. *)
Definition consents (ctx : Context_) (m : RemoteCommand) : Prop :=
  let c := m.(RemoteCommand.command).(CommandEnvelope.command) in
  let fence := mk_fence ctx.(device).(DeviceSession.device_id) ctx.(device).(DeviceSession.generation)
    ctx.(device).(DeviceSession.capabilities).(CapabilityAdvertisement.revision) in
  is_phase1_protected_command c = false ∨
  (handoff = false ∧ m.(RemoteCommand.handoff) = None) ∨
  (handoff = true ∧ ∃ authority n, m.(RemoteCommand.handoff) = Some authority ∧
     (env.(env_final_admit) n authority c fence = Some Allow ∨
      (is_exact_verification_candidate c = true ∧
       ∃ token, env.(env_final_admit) n authority c fence = Some (Verification token)))).

(** A ledger that trusts no grant key but those of the configuration *)
Definition ledger_configured (l : Grants.GrantLedger) : Prop :=
  map_Forall (λ _ v, v ∈ configured_verifiers) l.(Grants.verifiers).

(** The checks of one command *)
Record command_checked (ctx : Context_) (m : RemoteCommand) : Prop := {
  checked_signature :
    Transport.verify_remote_command ctx.(hello) ctx.(challenge) m material.(trusted_hub_key) = Ok tt;
  checked_session : validate_command_session m.(RemoteCommand.command) ctx.(device) = Ok tt;
  checked_grant : ∃ ledger now, ledger_configured ledger ∧
    (Grants.authorize_device_capability_once ledger m.(RemoteCommand.grant)
       ctx.(device).(DeviceSession.device_id)
       (capability m.(RemoteCommand.command).(CommandEnvelope.command)) now).2 = Ok tt
}.

Definition authorized (x : OperationRef * RemoteCommand) : Prop :=
  ∃ ctx accepted, authenticated ctx accepted ∧ x.1 = operation_of ctx x.2 ∧ command_checked ctx x.2 ∧
    consents ctx x.2.

(** The coordinator was asked about this command, for this session of this device, and gave
    its consent. *)
Definition asked_about (x : OperationRef * RemoteCommand) (k : Consultation) : Prop :=
  let e := x.2.(RemoteCommand.command) in
  ∃ authority d, x.2.(RemoteCommand.handoff) = Some authority ∧
    k = Asked authority e.(CommandEnvelope.command)
          (mk_fence config.(device_id) x.1.(OperationRef.device_generation)
             e.(CommandEnvelope.capability_revision)) (Some d) ∧
    (d = Allow ∨ is_exact_verification_candidate e.(CommandEnvelope.command) = true
                 ∧ ∃ token, d = Verification token).

Definition is_protected (x : OperationRef * RemoteCommand) : Prop :=
  is_phase1_protected_command x.2.(RemoteCommand.command).(CommandEnvelope.command) = true.
#[export] Instance is_protected_dec x : Decision (is_protected x) := decide (_ = true).

(** Each protected one of these commands has a consultation of its own among these, in the
    same order. *)
Definition asked (l : list (OperationRef * RemoteCommand)) (calls : list Consultation) : Prop :=
  handoff = true →
  ∃ ks, ks `sublist_of` calls ∧ Forall2 asked_about (filter is_protected l) ks.

Lemma asked_nil calls : asked [] calls.
Proof. intros _. exists []. split; [apply sublist_nil_l|constructor]. Qed.
Lemma asked_app l l' calls calls' :
  asked l calls → asked l' calls' → asked (l ++ l') (calls ++ calls').
Proof.
  intros H H' Hh. destruct (H Hh) as (ks & Hs & Hk), (H' Hh) as (ks' & Hs' & Hk').
  exists (ks ++ ks'). rewrite filter_app. split; [by apply sublist_app|by apply Forall2_app].
Qed.

(** ** The invariant *)

Definition trusts (a : AgentService) : Prop :=
  a.(trusted_hub).(Trust.current) = material.(trusted_hub_key) ∧ ledger_configured a.(grants).
Definition trusting (t : Task) : Prop := trusts t.(world).(agent).

Definition same_trust (a a' : AgentService) : Prop :=
  a'.(trusted_hub) = a.(trusted_hub) ∧ a'.(grants).(Grants.verifiers) = a.(grants).(Grants.verifiers).
Lemma same_trust_trusts a a' : same_trust a a' → trusts a → trusts a'.
Proof. intros [Hh Hv] []. unfold trusts, ledger_configured. by rewrite Hh, Hv. Qed.

Definition obeys (t t' : Task) : Prop :=
  trusting t → trusting t' ∧
  ∃ l calls, (past t').(spawned) = l ++ (past t).(spawned)
    ∧ t'.(world).(consulted) = calls ++ t.(world).(consulted)
    ∧ Forall authorized l ∧ asked l calls.

#[export] Instance obeys_preorder : PreOrder obeys.
Proof.
  split; [intros t Ht; split; [done|]; exists [], []; split_and!; [done..|apply asked_nil]|].
  intros t1 t2 t3 H12 H23 Ht. destruct (H12 Ht) as [Ht2 (l1 & k1 & E1 & F1 & H1 & K1)].
  destruct (H23 Ht2) as [Ht3 (l2 & k2 & E2 & F2 & H2 & K2)]. split; [done|].
  exists (l2 ++ l1), (k2 ++ k1). rewrite E2, E1, F2, F1, !app_assoc.
  split_and!; [done..|by apply Forall_app|by apply asked_app].
Qed.

Lemma obeys_same t t' :
  same_trust t.(world).(agent) t'.(world).(agent) → (past t').(spawned) = (past t).(spawned) →
  (∃ calls, t'.(world).(consulted) = calls ++ t.(world).(consulted)) → obeys t t'.
Proof.
  intros Ha Hs [calls Hc] Ht. split; [by eapply same_trust_trusts|]. exists [], calls.
  split_and!; [done..|apply asked_nil].
Qed.

Lemma obeys_quiet {X} (m : A X) : along quiet_step m → along obeys m.
Proof.
  intros Hm t. destruct (Hm t) as [Ha _ Hh _ _ _ Hc]. apply obeys_same; unfold past; by rewrite ?Ha, ?Hh.
Qed.

Lemma obeys_persist : along obeys persist_state.
Proof.
  intros t. apply obeys_same; [| |exists []];
    unfold persist_state, the_agent, gets, lift, mbind, A_bind, past;
    (destruct (capture _); [|done]); unfold save_checkpoint, effect, mbind, A_bind;
    (destruct (env_alive env _); [|done]); cbn; by destruct (save_with_size _ _ _ _).
Qed.

Lemma obeys_send m : along obeys (send_agent m).
Proof.
  unfold send_agent. walk; [by apply obeys_quiet, quiet_effect|]. intros t. apply obeys_same; [done..|by exists []].
Qed.
#[local] Hint Resolve obeys_persist obeys_send : along.
#[local] Hint Extern 1 (along obeys (on_agent _)) => intros ?; apply obeys_same; [done..|by exists []] : along.
#[local] Hint Extern 1 (along obeys (on_session _)) => intros ?; apply obeys_same; [done..|by exists []] : along.
#[local] Hint Extern 1 (along obeys (on_history _)) => intros ?; apply obeys_same; [done..|by exists []] : along.
#[local] Hint Extern 1 (along obeys (on_gate _)) => intros ?; apply obeys_same; [done..|by exists []] : along.
#[local] Hint Extern 2 (along obeys _) => apply obeys_quiet; solve [auto with along] : along.

Section Session.
Variables (ctx : Context_) (started : N) (accepted : SessionAccepted).
Hypothesis auth : authenticated ctx accepted.

Lemma completion_obeys w : along obeys (worker_completion w).
Proof. unfold worker_completion, the_agent. walk. Qed.
Lemma record_evidence_obeys o r : along obeys (record_evidence ctx o r).
Proof. unfold record_evidence, the_agent. walk. Qed.
Lemma record_receipt_obeys r : along obeys (record_receipt r).
Proof. unfold record_receipt, the_agent. walk. Qed.
#[local] Hint Resolve completion_obeys record_evidence_obeys record_receipt_obeys : along.
Lemma terminate_obeys : along obeys (terminate_active ctx).
Proof. unfold terminate_active, the_session. walk. Qed.
#[local] Hint Resolve terminate_obeys : along.
Lemma operation_done_obeys : along obeys (handle_operation_done ctx).
Proof.
  unfold handle_operation_done, handle_result, handle_indeterminate, send_terminal_result, the_session. walk.
Qed.
Lemma cancel_obeys m : along obeys (handle_cancel ctx m).
Proof. unfold handle_cancel, the_session. walk. Qed.
Lemma safety_poll_obeys : along obeys handle_safety_poll.
Proof. unfold handle_safety_poll, fail_closed. walk. Qed.
Lemma heartbeat_obeys : along obeys (handle_heartbeat_tick ctx).
Proof. unfold handle_heartbeat_tick, the_session. walk. Qed.
Lemma refuse_obeys m code : along obeys (refuse_command ctx m code).
Proof. unfold refuse_command, send_terminal_result. walk. Qed.
#[local] Hint Resolve operation_done_obeys cancel_obeys safety_poll_obeys heartbeat_obeys refuse_obeys : along.

(** *** Commands *)

Lemma authorize_verifiers l token d c now l' r :
  Grants.authorize_device_capability_once l token d c now = (l', r) →
  l'.(Grants.verifiers) = l.(Grants.verifiers).
Proof.
  unfold Grants.authorize_device_capability_once.
  assert ((Grants.validate_unconsumed_grant l token d now).1.(Grants.verifiers) = l.(Grants.verifiers)) as Hv.
  { unfold Grants.validate_unconsumed_grant. destruct (Grants.verify_signature _ _); [|done].
    do 2 (destruct (negb _); [done|]). destruct (checked_sub _ _); [|done]. destruct (_ || _); [done|].
    do 4 (destruct (_ : bool); [done|]). done. }
  destruct (Grants.validate_unconsumed_grant _ _ _ _) as [l1 [[]|e]]; cbn in Hv; [|by intros [= <- _]].
  do 2 (destruct (negb _); [by intros [= <- _]|]). by intros [= <- _].
Qed.

(** With [l] spawned and [k] consulted so far *)
Definition at_history (l : list (OperationRef * RemoteCommand)) (k : list Consultation) (t : Task)
    : Prop :=
  trusting t ∧ (past t).(spawned) = l ∧ ∃ calls, t.(world).(consulted) = calls ++ k.

Definition obeyed (l : list (OperationRef * RemoteCommand)) (k : list Consultation) (t : Task) : Prop :=
  trusting t ∧ ∃ l' calls, (past t).(spawned) = l' ++ l ∧ t.(world).(consulted) = calls ++ k
    ∧ Forall authorized l' ∧ asked l' calls.

Definition idles (t t' : Task) : Prop :=
  same_trust t.(world).(agent) t'.(world).(agent) ∧ (past t').(spawned) = (past t).(spawned)
  ∧ ∃ calls, t'.(world).(consulted) = calls ++ t.(world).(consulted).

#[local] Instance idles_preorder : PreOrder idles.
Proof.
  split; [intros t; split_and!; [done..|by exists []]|].
  intros t1 t2 t3 ([] & ? & k1 & Hk1) ([] & ? & k2 & Hk2). split; [split; congruence|].
  split; [congruence|]. exists (k2 ++ k1). by rewrite Hk2, Hk1, app_assoc.
Qed.

Lemma idles_quiet {X} (m : A X) : along quiet_step m → along idles m.
Proof.
  intros Hm t. destruct (Hm t) as [Ha _ Hh _ _ _ Hc]. unfold idles, past. by rewrite Ha, Hh.
Qed.

Lemma idles_persist : along idles persist_state.
Proof.
  intros t. split_and!; [| |exists []];
    unfold persist_state, the_agent, gets, lift, mbind, A_bind, past;
    (destruct (capture _); [|done]); unfold save_checkpoint, effect, mbind, A_bind;
    (destruct (env_alive env _); [|done]); cbn; by destruct (save_with_size _ _ _ _).
Qed.

Lemma at_history_obeyed l k t : at_history l k t → obeyed l k t.
Proof.
  intros (? & ? & calls & ?). split; [done|]. exists [], calls. split_and!; [done..|apply asked_nil].
Qed.

Lemma idles_at_history l k t t' : idles t t' → at_history l k t → at_history l k t'.
Proof.
  intros (Ha & Hp & c' & Hc') (Ht & Hs & c & Hc). split_and!; [by eapply same_trust_trusts|congruence|].
  exists (c' ++ c). by rewrite Hc', Hc, app_assoc.
Qed.

Lemma idles_triple {X} l k (m : A X) :
  along idles m → triple (at_history l k) m (λ _, at_history l k) (obeyed l k).
Proof.
  intros Hm t Ht. pose proof (idles_at_history l k _ _ (Hm t) Ht) as H.
  destruct (m t) as [t' [x|e]]; cbn in *; [done|by apply at_history_obeyed].
Qed.

Lemma decision_consents m t v : (handoff_decision ctx m t).2 = Ok (Ok v) → consents ctx m.
Proof.
  unfold handoff_decision, consents. destruct (is_phase1_protected_command _); [|by left]. cbn.
  destruct Agent.handoff, (m.(RemoteCommand.handoff)) as [authority|]; try done; [|by right; left].
  unfold mbind, A_bind. destruct (consult _ _ t) as [t' [answer|e]] eqn:Hc; [|done].
  apply (f_equal snd) in Hc. apply consult_Ok in Hc as [Ha _]. cbn. intros Hv. right. right.
  split; [done|]. exists authority, t.(world).(tick). split; [done|]. rewrite <- Ha.
  destruct answer as [[| |token]|]; try done; [by left|].
  destruct (is_exact_verification_candidate _); [|done]. right. split; [done|]. by exists token.
Qed.

(** A command that goes on was asked about. *)
Lemma decision_asked m t v :
  command_checked ctx m → (handoff_decision ctx m t).2 = Ok (Ok v) →
  ∃ calls, (handoff_decision ctx m t).1.(world).(consulted) = calls ++ t.(world).(consulted)
    ∧ asked [(operation_of ctx m, m)] calls.
Proof.
  intros [_ Hval _]. unfold handoff_decision. destruct (is_phase1_protected_command _) eqn:Hp; cbn.
  2: { intros _. exists []. split; [done|]. intros _. exists []. split; [apply sublist_nil_l|].
       rewrite filter_cons_False; [constructor|]. unfold is_protected. cbn. by rewrite Hp. }
  destruct Agent.handoff eqn:Hh, (m.(RemoteCommand.handoff)) as [authority|] eqn:Ha; try done.
  2: { intros _. exists []. split; [done|]. unfold asked. by rewrite Hh. }
  unfold mbind, A_bind. destruct (consult _ _ t) as [t' [answer|e]] eqn:Hc; [|done].
  pose proof (f_equal snd Hc) as Hk. apply consult_Ok in Hk as [_ Hk]. rewrite Hc in Hk. cbn in Hk |- *.
  intros Hv. eexists [_]. split; [exact Hk|]. intros _. eexists [_]. split; [reflexivity|].
  rewrite filter_cons_True by done. constructor; [|constructor].
  destruct auth as [Hdev _ _ _ _]. unfold validate_command_session in Hval. run Hval. split_bools.
  unfold asked_about. cbn. rewrite Hdev.
  match goal with H : _ = CapabilityAdvertisement.revision _ |- _ => rewrite H end.
  destruct answer as [[| |token]|]; try done; eexists authority, _; (split_and!; [done..|]); [by left|].
  destruct (is_exact_verification_candidate _); [|done]. right. split; [done|]. by exists token.
Qed.

Lemma authorize_checked l k m :
  triple (at_history l k) (authorize_command ctx started m)
    (λ _ t, at_history l k t ∧ command_checked ctx m) (obeyed l k).
Proof.
  unfold authorize_command. eapply triple_bind with
    (Q := λ hub t, at_history l k t ∧ hub = material.(trusted_hub_key)).
  { intros t Ht. split; [exact Ht|]. by destruct Ht as [[Hh _] _]. }
  intros hub. apply triple_lift; [|intros t [Ht _]; by apply at_history_obeyed]. intros [] Hsig.
  apply triple_lift; [|intros t [Ht _]; by apply at_history_obeyed]. intros [] Hval.
  apply triple_pure. intros ->.
  eapply triple_bind; [apply idles_triple, idles_quiet; auto with along|]. intros now.
  unfold the_agent. apply triple_gets. intros a.
  destruct (Grants.authorize_device_capability_once _ _ _ _ _) as [ledger granted] eqn:Hg.
  intros t [(Ht & Hs & Hk) <-]. destruct (Ht) as [Hh Hl]. unfold lift, mbind, A_bind. cbn.
  assert (trusts (set_grants (agent (world t)) ledger)) as Hledger.
  { split; [exact Hh|]. unfold ledger_configured. cbn. by rewrite (authorize_verifiers _ _ _ _ _ _ _ Hg). }
  destruct granted as [[]|e]; cbn.
  - split; [by split_and!|]. split; [done|done|]. exists (grants (agent (world t))), now. by rewrite Hg.
  - apply at_history_obeyed. by split_and!.
Qed.

Lemma spawn_obeyed l k m v :
  command_checked ctx m → consents ctx m →
  triple (λ t, trusting t ∧ (past t).(spawned) = l ∧
            ∃ calls, t.(world).(consulted) = calls ++ k ∧ asked [(operation_of ctx m, m)] calls)
    (spawn_worker ctx m v) (λ _, obeyed l k) (obeyed l k).
Proof.
  intros Hc Hd. unfold spawn_worker. destruct (_ && _).
  { intros t (Ht & Hs & calls & Hk & _). apply at_history_obeyed. split_and!; [done..|by exists calls]. }
  intros t (Ht & Hs & calls & Hk & Hask). unfold mbind, A_bind, effect.
  destruct (env_alive env _); cbn; [|apply at_history_obeyed; split_and!; [done..|by exists calls]].
  split; [done|]. exists [(operation_of ctx m, m)], calls. unfold past. cbn.
  unfold past in Hs. rewrite Hs. split_and!; [done..| |done]. constructor; [|done]. by exists ctx, accepted.
Qed.

Lemma command_obeyed l k m :
  triple (at_history l k) (handle_command ctx started m) (λ _, obeyed l k) (obeyed l k).
Proof.
  unfold handle_command. eapply triple_bind; [apply authorize_checked|]. intros ?.
  apply triple_pure. intros Hc.
  eapply triple_bind; [apply idles_triple, idles_persist|]. intros ?.
  unfold the_session. apply triple_gets. intros s.
  apply (triple_weaken _ (at_history l k) _ _ (λ _, obeyed l k) _ (obeyed l k)); [|by intros t [Ht _]|done|done].
  destruct (opt_some _); [intros t Ht; by apply at_history_obeyed|].
  eapply triple_bind; [apply idles_triple; intros t; split_and!; [done..|by exists []]|]. intros ?.
  eapply triple_bind; [apply idles_triple, idles_persist|]. intros ? t Ht.
  pose proof (idles_triple l k _ (idles_quiet _ (quiet_decision ctx m)) t Ht) as Hd.
  pose proof (decision_consents m t) as Hv. pose proof (decision_asked m t) as Hask. unfold mbind, A_bind.
  destruct (handoff_decision ctx m t) as [t1 [[v|code]|e]]; cbn in *; [|..|done].
  - destruct Ht as (_ & _ & calls & Hk), Hd as (Ht1 & Hs1 & _).
    destruct (Hask v Hc eq_refl) as (calls' & Hk' & Ha).
    apply spawn_obeyed; [done|by eapply Hv|]. split_and!; [done..|]. exists (calls' ++ calls).
    rewrite Hk', Hk, app_assoc. split; [done|]. rewrite <- (app_nil_r [_]).
    apply asked_app; [done|apply asked_nil].
  - destruct Hd as (Ht1 & Hs1 & calls & Hk1).
    destruct (refuse_obeys m code t1 Ht1) as [Ht2 (l' & calls' & Hl' & Hk' & Ha)].
    rewrite Hs1 in Hl'. rewrite Hk1, app_assoc in Hk'.
    assert (obeyed l k (refuse_command ctx m code t1).1) as Ho.
    { split; [done|]. exists l', (calls' ++ calls). split_and!; [done..|apply Ha|].
      rewrite <- (app_nil_r l'). apply asked_app; [apply Ha|apply asked_nil]. }
    by destruct (refuse_command ctx m code t1) as [t2 [r|e]].
Qed.

Lemma command_obeys m : along obeys (handle_command ctx started m).
Proof.
  intros t Ht. assert (at_history (past t).(spawned) t.(world).(consulted) t) as Hat
    by (split_and!; [done..|by exists []]).
  pose proof (command_obeyed _ _ m t Hat) as H.
  by destruct (handle_command ctx started m t) as [t' [x|e]].
Qed.
#[local] Hint Resolve command_obeys : along.

Lemma event_obeys e : along obeys (handle_event ctx started e).
Proof. unfold handle_event, handle_shutdown, handle_inbound, handle_message. walk. Qed.

Lemma loop_obeys events : along obeys (run_session_loop ctx started events).
Proof.
  assert (∀ l, along obeys (session_loop ctx started l)) as Hloop.
  { induction l as [|e l IH]; cbn [session_loop]; walk. apply event_obeys. }
  unfold run_session_loop, the_session. walk.
Qed.
End Session.

(** ** Processes *)

Lemma hub_verifier_run t : hub_verifier t = (t, Ok t.(world).(agent).(trusted_hub).(Trust.current)).
Proof. reflexivity. Qed.

(** A session that was opened is authenticated. *)
Lemma open_authenticated i :
  triple trusting (open_session i) (λ ctx t, trusting t ∧ ∃ a, authenticated ctx a) trusting.
Proof.
  assert (∀ X (m : A X), along quiet_step m → triple trusting m (λ _, trusting) trusting) as Hquiet.
  { intros X m Hm. apply triple_along. intros t Ht. unfold trusting. by rewrite (quiet_agent _ _ (Hm t)). }
  unfold open_session. eapply triple_bind; [apply Hquiet; walk|]. intros ?.
  eapply triple_bind; [apply Hquiet; auto with along|]. intros ?.
  eapply triple_bind; [apply Hquiet; unfold next_hub; walk|]. intros m1.
  eapply triple_bind; [apply Hquiet; unfold unexpected_hub_message; walk|]. intros challenge.
  eapply triple_bind with (Q := λ hub t, trusting t ∧ hub = material.(trusted_hub_key)).
  { intros t Ht. rewrite hub_verifier_run. split; [exact Ht|]. by destruct Ht. }
  intros hub. apply triple_pure. intros ->.
  apply triple_lift; [|done]. intros [] Hchallenge.
  apply triple_lift; [|done]. intros proof _.
  eapply triple_bind; [apply Hquiet; auto with along|]. intros ?.
  eapply triple_bind; [apply Hquiet; unfold next_hub; walk|]. intros m2.
  eapply triple_bind; [apply Hquiet; unfold unexpected_hub_message; walk|]. intros a.
  apply triple_lift; [|done]. intros [] Haccepted t Ht. split; [done|]. exists a. by split.
Qed.

Lemma session_obeys i : along obeys (run_authenticated_session i).
Proof.
  intros t Ht. refine (along_bind_with obeys trusting (λ ctx, ∃ a, authenticated ctx a) _ _ t Ht _ _ _ Ht).
  - apply obeys_quiet, quiet_open_session.
  - eapply triple_weaken; [apply open_authenticated|done| |done]. by intros ctx t1 [_ Ha].
  - intros ctx (a & Ha). pose proof (loop_obeys ctx) as Hloop.
    unfold enter_session, prepare_session, end_session, fail_closed, the_agent. walk.
Qed.

Lemma lifecycle_obeys turns : ∀ failures, along obeys (run_connected_lifecycle failures turns).
Proof.
  induction turns as [|t turns IH]; intros failures; cbn [run_connected_lifecycle]; walk;
    unfold connect_and_run; walk; [apply session_obeys|apply IH..].
Qed.

Lemma run_obeys turns : along obeys (run turns).
Proof. unfold run. walk; apply lifecycle_obeys. Qed.

Lemma vk_to_bytes_inj a b : vk_to_bytes a = vk_to_bytes b → a = b.
Proof.
  intros Heq. assert (Some a = Some b) as [= ->] by (by rewrite <- !vk_from_to_bytes, Heq). done.
Qed.

Lemma reconciled_hub k k' :
  reconcile_trusted_hub k = Ok k' → k'.(Trust.current) = material.(trusted_hub_key).
Proof.
  unfold reconcile_trusted_hub. case_bool_decide as Heq; [intros [= <-]; by apply vk_to_bytes_inj|].
  destruct (hub_rotation _); [|done]. destruct (Trust.apply_rotation _ _) as [k'' [|]]; [|done].
  case_bool_decide as Heq'; cbn; [|done]. intros [= <-]. by apply vk_to_bytes_inj.
Qed.

(** The configured grant keys are trusted and all others retired. *)
Definition named (l : Grants.GrantLedger) : Prop :=
  map_Forall (λ key_id v, key_id = verifying_key_id v) l.(Grants.verifiers).

Lemma load_verifiers_named keys : ∀ m vs,
  map_Forall (λ key_id v, key_id = verifying_key_id v) m → Grants.load_verifiers keys m = Ok vs →
  map_Forall (λ key_id v, key_id = verifying_key_id v) vs.
Proof.
  induction keys as [|k keys IH]; cbn; intros m vs Hm; [by intros [= <-]|].
  destruct (vk_from_bytes k) as [v|]; [|done]. apply IH. by apply map_Forall_insert_2.
Qed.

Lemma restored_named s l : Grants.from_persisted_snapshot s = Ok l → named l.
Proof.
  assert (∀ s, Grants.from_snapshot s = Ok l → named l) as Hfrom.
  { clear s. intros s. unfold Grants.from_snapshot. do 2 (destruct (_ : bool); [done|]).
    destruct (Grants.load_verifiers _ _) as [vs|] eqn:Hv; [|done].
    destruct (Grants.load_consumed _ _); [|done]. intros [= <-].
    by eapply load_verifiers_named in Hv. }
  unfold Grants.from_persisted_snapshot. repeat (destruct (_ : bool)); [apply Hfrom..|done].
Qed.

Lemma trust_named vs : ∀ l, named l → named (foldl (λ l v, (Grants.trust_verifier l v).1) l vs).
Proof. induction vs as [|v vs IH]; cbn; intros l Hl; [done|]. apply IH. by apply map_Forall_insert_2. Qed.

Lemma retire_configured keys : ∀ l,
  named l → map_Forall (λ _ v, v ∈ configured_verifiers ∨ vk_to_bytes v ∈ keys) l.(Grants.verifiers) →
  ledger_configured (foldl retire_unconfigured l keys).
Proof.
  induction keys as [|k keys IH]; cbn; intros l Hn Hl.
  - intros i v Hv. destruct (Hl i v Hv) as [?|Hin]; [done|]. by apply elem_of_nil in Hin.
  - apply IH.
    + unfold retire_unconfigured. destruct (vk_from_bytes k); [|done]. case_bool_decide; [done|].
      by apply map_Forall_delete.
    + unfold retire_unconfigured. intros i v. destruct (vk_from_bytes k) as [v'|] eqn:Hk; [case_bool_decide as Hc|].
      * intros Hv. destruct (Hl i v Hv) as [?|[Heq|?]%elem_of_cons]; [by left| |by right].
        left. rewrite <- Heq, vk_from_to_bytes in Hk. injection Hk as ->.
        apply list_elem_of_fmap in Hc as (w & Heq' & Hw). by apply verifying_key_id_inj in Heq' as ->.
      * cbn. intros [Hne Hv]%lookup_delete_Some.
        destruct (Hl i v Hv) as [?|[Heq|?]%elem_of_cons]; [by left| |by right].
        rewrite <- Heq, vk_from_to_bytes in Hk. injection Hk as ->. by destruct Hne; rewrite (Hn i v' Hv).
      * intros Hv. destruct (Hl i v Hv) as [?|[Heq|?]%elem_of_cons]; [by left| |by right].
        by rewrite <- Heq, vk_from_to_bytes in Hk.
Qed.

Lemma reconciled_grants l : named l → ledger_configured (reconcile_grant_verifiers l).
Proof.
  intros Hl. unfold reconcile_grant_verifiers. apply retire_configured; [by apply trust_named|].
  intros i v Hv. right. cbn. rewrite merge_sort_Permutation. apply list_elem_of_fmap. exists (i, v).
  split; [done|]. by apply elem_of_hash_iter.
Qed.

Lemma restored_ledger_named s r :
  restore_with_runtime_safety s = Ok r → named r.(restored_ledger).
Proof.
  unfold restore_with_runtime_safety. destruct (validate_state_schema _); [|done].
  destruct (_ || _); [done|]. destruct (vk_from_bytes _); [|done].
  destruct (Grants.from_persisted_snapshot _) eqn:Hl; [|done].
  destruct (AgentGate.restore_gate _); [|done]. intros [= <-]. by eapply restored_named.
Qed.

Lemma restored_trusting x a : restored_service x = Ok a → trusts a.
Proof.
  unfold restored_service. destruct x as [s|[]]; try done.
  - destruct (restore_with_runtime_safety s) as [r|] eqn:Hr; [|done]. destruct (negb _); [done|].
    destruct (reconcile_trusted_hub _) eqn:Hk; [|done]. intros [= <-].
    split; [by eapply reconciled_hub|]. by eapply reconciled_grants, restored_ledger_named.
  - intros [= <-]. split; [done|]. apply reconciled_grants. by apply map_Forall_singleton.
Qed.

Lemma build_trusting :
  triple (λ _, True) build (λ _, trusting) (λ _, True).
Proof.
  unfold build. apply triple_lift; [|done]. intros ? _.
  eapply triple_bind with (Q := λ _ _, True); [destruct (env_executors env); by intros t _|]. intros ?.
  eapply triple_bind with (Q := λ _ _, True);
    [intros t _; by destruct (load_checkpoint t) as [? [?|?]]|]. intros loaded.
  apply triple_lift; [|done]. intros a Ha. apply triple_lift; [|done]. intros store _.
  eapply triple_bind with (Q := λ _ _, True); [destruct (env_staging env); by intros t _|]. intros ?.
  eapply triple_bind with (Q := λ _, trusting); [intros t _; exact (restored_trusting _ _ Ha)|].
  intros ? t Ht. pose proof (obeys_persist t Ht) as [Ht' _].
  by destruct (persist_state t) as [t' [?|?]].
Qed.

(** Nothing is asked before the sessions. *)
Lemma build_asks_nothing : along (λ t t', t'.(world).(consulted) = t.(world).(consulted)) build.
Proof.
  assert (PreOrder (λ t t' : Task, t'.(world).(consulted) = t.(world).(consulted)))
    by (split; [by intros t|intros ???; congruence]).
  assert (along (λ t t', t'.(world).(consulted) = t.(world).(consulted)) effect) as He.
  { intros t. unfold effect. by destruct (env_alive env _). }
  unfold build, load_checkpoint, persist_state, save_checkpoint, the_agent.
  walk; try exact He; intros t; [done|]. by destruct (save_with_size _ _ _ _).
Qed.

Lemma process_obeys turns t :
  ∃ l calls, (past (process turns t).1).(spawned) = l ++ (past t).(spawned)
    ∧ (process turns t).1.(world).(consulted) = calls ++ t.(world).(consulted)
    ∧ Forall authorized l ∧ asked l calls.
Proof.
  unfold process, mbind, A_bind. pose proof (build_trusting t I) as Hb.
  pose proof (build_past t) as Hp. pose proof (build_asks_nothing t) as Hk. unfold past_stays in Hp.
  destruct (build t) as [t1 [[]|e]]; cbn in *.
  - destruct (run_obeys turns t1 Hb) as [_ Hl]. by rewrite Hp, Hk in Hl.
  - exists [], []. rewrite Hp, Hk. split_and!; [done..|apply asked_nil].
Qed.

Lemma process_authorized turns t :
  ∃ l, (past (process turns t).1).(spawned) = l ++ (past t).(spawned) ∧ Forall authorized l.
Proof. destruct (process_obeys turns t) as (l & _ & Hl & _ & Ha & _). by exists l. Qed.

(** C10: Every operation that a process starts is authorized: it was commanded in a session
    that the holder of the provisioned Hub key accepted for this device, by a command under
    the same key for this handshake, for this session and capability revision, with a grant
    that was accepted for its capability by a ledger that trusts only the configured grant
    keys, and a command that the hand-off protects has its consent. *)
Theorem started_operations_are_authorized turns t :
  ∃ l, (past (process turns t).1).(spawned) = l ++ (past t).(spawned) ∧ Forall authorized l.
Proof. apply process_authorized. Qed.
End Authority.
