(* ===== verification/AgentClosed.v ===== *)
(** * Failing closed

    When [src/src/v2_m1_agent.rs] cannot prove that its managed jobs have ended, it fails
    closed. Wherever a process ends with that error, every checkpoint that a later start
    may load says so. *)

From S2P Require Import Prelude Vocabulary Protocol Crypto Tombstone Admission Registry Grants.
From S2P Require Import SafetyTypes Recovery EphemeralRefs Evidence Transport AgentGate.
From S2P Require Import SessionRuntime Trust Persistence PersistenceTheorems AgentErrors.
From S2P Require Import AgentWorker Agent AgentSession AgentLogic AgentQuiet.
Import Persistence Agent AgentSession.AgentSession.

(** Every checkpoint that a later start may load says that the Agent fails closed. *)
Definition closed `{HI : HashIter} `{CJ : CheckpointJson AgentPersistentState} (d : Disk) : Prop :=
  durable_below agent_checkpoints d ∧
  ∀ x, may_load agent_checkpoints d x →
    ∃ s, x = Ok s ∧ s.(Persistence.managed_job_fail_closed) = true.

Section Closing.
Context `{ED : Ed25519} `{TS : RotationSerializer} `{HI : HashIter} `{SU : !AgentSetup}
  `{CJ : CheckpointJson AgentPersistentState} `{WJ : WireJson} `{GS : GrantSerializer}
  `{SHA : Sha256} `{CJL : !CheckpointJsonLaws AgentPersistentState}.
Hypothesis alone : single_writer.

Lemma capture_closed a s :
  capture a = Ok s → s.(Persistence.managed_job_fail_closed) = a.(managed_job_fail_closed).
Proof.
  unfold capture, capture_with_runtime_evidence. destruct (invalid_runtime_evidence _ _ _); [done|].
  by intros [= <-].
Qed.

Definition flagged (t : Task) : Prop := t.(world).(agent).(managed_job_fail_closed) = true.

(** Saving the flag makes it durable. *)
Lemma persist_closes t :
  sound_disk t → flagged t → is_ok (persist_state t).2 = true → closed (persist_state t).1.(world).(disk).
Proof.
  intros Hs Hflag Hok. destruct (persist_spec t alone Hs) as [_ _ _ _ Hs' _ Honly].
  split; [exact Hs'|]. destruct (Honly Hok) as (s & Hcap & Hall).
  intros x Hx. exists s. split; [by apply Hall|]. by rewrite (capture_closed _ _ Hcap).
Qed.

Lemma persist_closed t : closed t.(world).(disk) → flagged t → closed (persist_state t).1.(world).(disk).
Proof.
  intros [Hs Hc] Hflag. destruct (persist_spec t alone Hs) as [_ _ _ _ Hs' Heither _].
  split; [exact Hs'|]. intros x [Hx|(s & Hcap & ->)]%Heither; [by apply Hc|].
  exists s. by rewrite (capture_closed _ _ Hcap).
Qed.

(** The process runs as long as this holds. *)
Definition guarded (t : Task) : Prop := sound_disk t ∧ (flagged t → closed t.(world).(disk)).

(** How a program ends that starts there: with an error after which the Agent connects
    again only where it still holds, and with [ManagedJobFailClosed] only where every
    checkpoint says so. *)
Definition ends {X} (t : Task) (r : result stop X) : Prop :=
  match r with
  | Ok _ => guarded t
  | Err Crash => True
  | Err (Raised e) =>
      sound_disk t
      ∧ (e = AgentServiceError.ManagedJobFailClosed → flagged t ∧ closed t.(world).(disk))
      ∧ (AgentServiceError.reconnectable e = true → guarded t)
  end.
Definition guards {X} (m : A X) : Prop := ∀ t, guarded t → ends (m t).1 (m t).2.

Lemma guards_bind {X Y} (m : A X) (f : X → A Y) :
  guards m → (∀ x, guards (f x)) → guards (m ≫= f).
Proof.
  intros Hm Hf t Ht. specialize (Hm t Ht). unfold mbind, A_bind.
  destruct (m t) as [t1 [x|e]]; [by apply Hf|done].
Qed.

Lemma guards_ret {X} (x : X) : guards (mret x).
Proof. by intros t Ht. Qed.
Lemma guards_gets {X} (f : Task → X) : guards (gets f).
Proof. by intros t Ht. Qed.
Lemma guards_crash {X} : guards (crash_now : A X).
Proof. by intros t Ht. Qed.
Lemma guards_fail {X} e : e ≠ AgentServiceError.ManagedJobFailClosed → guards (fail e : A X).
Proof. intros He t Ht. split; [apply (proj1 Ht)|]. by split. Qed.
Lemma guards_ok_or {X} e (o : option X) :
  e ≠ AgentServiceError.ManagedJobFailClosed → guards (ok_or e o).
Proof. intros He t Ht. destruct o; [done|]. split; [apply (proj1 Ht)|]. by split. Qed.
Lemma guards_lift {E X} (f : E → AgentServiceError) (r : result E X) :
  (∀ e, r = Err e → f e ≠ AgentServiceError.ManagedJobFailClosed) → guards (lift f r).
Proof.
  intros Hf t Ht. destruct r as [x|e]; [done|]. split; [apply (proj1 Ht)|]. split; [|done].
  intros He. by destruct (Hf e).
Qed.

Lemma guards_effect : guards effect.
Proof. intros t Ht. unfold effect. by destruct (env_alive env _). Qed.
Lemma guards_session f : guards (on_session f).
Proof. by intros t Ht. Qed.
Lemma guards_history f : guards (on_history f).
Proof. by intros t Ht. Qed.
Lemma guards_files f : guards (on_files f).
Proof. by intros t Ht. Qed.
Lemma guards_agent f :
  (∀ a, (f a).(managed_job_fail_closed) = a.(managed_job_fail_closed)) → guards (on_agent f).
Proof. intros Hf t [Hs Hc]. split; [exact Hs|]. unfold flagged. cbn. by rewrite Hf. Qed.
Lemma guards_gate call : guards (on_gate call).
Proof.
  unfold on_gate. apply guards_bind; [apply guards_gets|]. intros s. apply guards_bind.
  - by apply guards_agent.
  - intros []. by apply guards_lift.
Qed.

Lemma guards_consult {X} (answer : nat → X) call : guards (consult answer call).
Proof.
  unfold consult. apply guards_bind; [apply guards_effect|]. intros n. apply guards_bind; [|by intros ? t].
  by intros t Ht.
Qed.

Lemma guards_send m : guards (send_agent m).
Proof.
  unfold send_agent. destruct (negb _); [by apply guards_fail|]. apply guards_bind; [apply guards_effect|].
  intros n. destruct (negb _); [by apply guards_fail|]. by intros t Ht.
Qed.

Lemma persist_ends t r : (persist_state t).2 = r → match r with
  | Err (Raised e) => ∃ x, e = AgentServiceError.Persistence x | _ => True end.
Proof.
  intros <-. unfold persist_state, the_agent, gets, lift, mbind, A_bind. destruct (capture _); cbn; [|eauto].
  unfold save_checkpoint, effect, lift, mbind, A_bind. destruct (env_alive env _); [|done]. cbn.
  destruct (save_with_size _ _ _ _) as [d [[]|]]; cbn; eauto.
Qed.

Lemma guards_persist : guards persist_state.
Proof.
  intros t [Hs Hc]. pose proof (persist_spec t alone Hs) as Hp. pose proof (persist_ends t _ eq_refl) as He.
  pose proof (persist_closed t) as Hclosed. destruct (persist_state t) as [t' [[]|[|e]]]; cbn in *;
    [|done|]; pose proof (persisted_sound _ _ _ Hp) as Hs'.
  - split; [exact Hs'|]. unfold flagged. rewrite (persisted_agent _ _ _ Hp). intros Hf.
    by apply Hclosed; [apply Hc|].
  - destruct He as [x ->]. by split.
Qed.
End Closing.

Create HintDb guards.
#[export] Hint Resolve guards_ret guards_gets guards_crash guards_effect guards_session
  guards_history guards_files guards_gate guards_consult guards_send : guards.
#[export] Hint Extern 1 (guards (fail _)) => by apply guards_fail : guards.
#[export] Hint Extern 1 (guards (ok_or _ _)) => by apply guards_ok_or : guards.
#[export] Hint Extern 2 (guards (lift _ _)) => by apply guards_lift : guards.
#[export] Hint Extern 1 (guards (on_agent _)) => by apply guards_agent : guards.

(** Follow a program. *)
Ltac follow_step :=
  lazymatch goal with
  | |- ∀ _, _ => intro
  | |- guards (_ ≫= _) => apply guards_bind
  | |- guards (match ?x with _ => _ end) => destruct x eqn:?
  | |- guards _ => solve [eauto 3 with guards]
  end.
Ltac follow := repeat follow_step.

Section Handlers.
Context `{ED : Ed25519} `{TS : RotationSerializer} `{HI : HashIter} `{SU : !AgentSetup}
  `{CJ : CheckpointJson AgentPersistentState} `{WJ : WireJson} `{GS : GrantSerializer}
  `{SHA : Sha256} `{CJL : !CheckpointJsonLaws AgentPersistentState}.
Hypothesis alone : single_writer.
Variables (ctx : Context_) (started : N).
#[local] Hint Extern 1 (guards persist_state) => exact (guards_persist alone) : guards.

Lemma evidence_error journal d o r e :
  record_terminal_evidence journal d o r = Err e → e ≠ AgentServiceError.ManagedJobFailClosed.
Proof. unfold record_terminal_evidence. intros H. run H; done. Qed.

Lemma receipt_error receipts journal r e :
  record_backend_execution_receipt receipts journal r = Err e →
  e ≠ AgentServiceError.ManagedJobFailClosed.
Proof. unfold record_backend_execution_receipt. intros H. run H; done. Qed.

Lemma guards_record_evidence o r : guards (record_evidence ctx o r).
Proof.
  unfold record_evidence, the_agent. follow. apply guards_lift. intros e. apply evidence_error.
Qed.
Lemma guards_record_receipt r : guards (record_receipt r).
Proof.
  unfold record_receipt, the_agent. follow. apply guards_lift. intros e. apply receipt_error.
Qed.
#[local] Hint Resolve guards_record_evidence guards_record_receipt : guards.

Lemma guards_instant : guards instant.
Proof. unfold instant. follow. Qed.
Lemma guards_verifier : guards hub_verifier.
Proof. unfold hub_verifier, the_agent. follow. Qed.
Lemma guards_write_files f : guards (write_files f).
Proof. unfold write_files, io_error. follow. Qed.
Lemma guards_read_file {X} (f : RecoveryFiles → json_file X) : guards (read_file f).
Proof. unfold read_file, io_error, the_files. follow. Qed.
#[local] Hint Resolve guards_instant guards_verifier guards_write_files guards_read_file : guards.

Lemma guards_now : guards (now_ms ctx started).
Proof. unfold now_ms. follow. Qed.
Lemma guards_send_result id r : guards (send_terminal_result ctx id r).
Proof. unfold send_terminal_result. follow. Qed.
Lemma guards_completion w : guards (worker_completion w).
Proof. unfold worker_completion, the_agent. follow. Qed.
#[local] Hint Resolve guards_now guards_send_result guards_completion : guards.

Lemma guards_terminate : guards (terminate_active ctx).
Proof. unfold terminate_active, the_session. follow. Qed.
Lemma guards_drain l : guards (drain ctx l).
Proof. induction l as [|r l IH]; cbn [drain]; unfold end_backend_session; follow. Qed.
Lemma guards_drain_all : guards (drain_backend_session_ends ctx).
Proof. unfold drain_backend_session_ends, the_session. follow. apply guards_drain. Qed.
Lemma guards_report_verification o r : guards (report_verification ctx o r).
Proof. unfold report_verification, verification_reported. follow. Qed.
#[local] Hint Resolve guards_terminate guards_drain_all guards_report_verification : guards.

Lemma guards_shutdown b : guards (handle_shutdown ctx b).
Proof. unfold handle_shutdown. follow. Qed.
Lemma guards_heartbeat_tick : guards (handle_heartbeat_tick ctx).
Proof. unfold handle_heartbeat_tick, the_session. follow. Qed.
Lemma guards_operation_done : guards (handle_operation_done ctx).
Proof.
  unfold handle_operation_done, the_session, handle_result, handle_indeterminate. follow.
Qed.
Lemma guards_recovery_poll : guards (handle_recovery_poll ctx started).
Proof.
  unfold handle_recovery_poll, the_session, load_authorization, load_challenge, clear_authorization,
    clear_recovery_resolved. follow.
Qed.
#[local] Hint Resolve guards_shutdown guards_heartbeat_tick guards_operation_done
  guards_recovery_poll : guards.

Lemma guards_command m : guards (handle_command ctx started m).
Proof.
  unfold handle_command, authorize_command, the_session, the_agent, handoff_decision, refuse_command,
    spawn_worker. follow.
Qed.
#[local] Hint Resolve guards_command : guards.

Lemma guards_message m : guards (handle_message ctx started m).
Proof.
  destruct m; cbn [handle_message]; unfold handle_handoff_request, handle_heartbeat_ack,
    handle_recovery_challenge, handle_recovery_resolved, handle_backend_session_end, handle_cancel,
    persist_verified_recovery_completion, store_recovery_resolved, clear_recovery_handoff,
    clear_challenge, clear_authorization, store_challenge, the_session; follow.
Qed.

(** *** Failing closed *)

Lemma fail_closed_ends {X} t : sound_disk t → ends ((fail_closed : A X) t).1 (fail_closed (X := X) t).2.
Proof.
  intros Hs. unfold fail_closed, mbind, A_bind. cbn. set (t1 := mk_task _ _).
  pose proof (persist_closes alone t1 Hs eq_refl) as Hc. pose proof (persist_ends t1 _ eq_refl) as He.
  destruct (persist_spec t1 alone Hs) as [Ha _ _ _ Hs' _ _].
  destruct (persist_state t1) as [t2 [[]|[|e]]]; cbn in *; [|done|destruct He as [x ->]; by split].
  split; [done|]. split; [|done]. intros _. split; [|by apply Hc]. unfold flagged. by rewrite Ha.
Qed.

Lemma guards_fail_closed {X} : guards (fail_closed (X := X)).
Proof. intros t [Hs _]. by apply fail_closed_ends. Qed.
#[local] Hint Resolve guards_fail_closed : guards.

Lemma guards_safety_poll : guards handle_safety_poll.
Proof. unfold handle_safety_poll. follow. Qed.
#[local] Hint Resolve guards_safety_poll guards_message : guards.

Lemma guards_event e : guards (handle_event ctx started e).
Proof. destruct e; cbn [handle_event]; unfold handle_inbound; follow. Qed.

Lemma guards_loop events : guards (session_loop ctx started events).
Proof.
  induction events as [|e events IH]; cbn [session_loop]; [apply guards_crash|].
  apply guards_bind; [apply guards_event|]. intros [exit|]; [apply guards_ret|exact IH].
Qed.
(** *** After an error of the loop *)

(** Programs that change neither the checkpoints nor the flag *)
Definition apart (t t' : Task) : Prop :=
  t'.(world).(disk) = t.(world).(disk) ∧
  t'.(world).(agent).(managed_job_fail_closed) = t.(world).(agent).(managed_job_fail_closed).
#[local] Instance apart_preorder : PreOrder apart.
Proof.
  split; [by intros t|]. intros t1 t2 t3 [H1 H2] [H3 H4]. split; congruence.
Qed.
#[local] Hint Extern 2 (along apart (on_session _)) => by intros ? : along.
#[local] Hint Extern 2 (along apart (on_history _)) => by intros ? : along.
#[local] Hint Extern 2 (along apart (on_agent _)) => by intros ? : along.
Lemma apart_effect : along apart effect.
Proof. intros t. unfold effect. by destruct (env_alive env _). Qed.
#[local] Hint Resolve apart_effect : along.

Lemma apart_terminate : along apart (terminate_active ctx).
Proof.
  unfold terminate_active, the_session, worker_completion, record_evidence, record_receipt, on_gate,
    the_agent. walk.
Qed.

(** Errors after which the process ends, other than the one of interest *)
Definition fatal {X} (m : A X) : Prop :=
  ∀ t e, (m t).2 = Err (Raised e) →
    e ≠ AgentServiceError.ManagedJobFailClosed ∧ AgentServiceError.reconnectable e = false.

Lemma fatal_bind {X Y} (m : A X) (f : X → A Y) : fatal m → (∀ x, fatal (f x)) → fatal (m ≫= f).
Proof.
  intros Hm Hf t e. specialize (Hm t). unfold mbind, A_bind.
  destruct (m t) as [t1 [x|e']]; [apply Hf|]. cbn in *. intros [= ->]. by apply Hm.
Qed.
Lemma fatal_lift {E X} (f : E → AgentServiceError) (r : result E X) :
  (∀ e, r = Err e → f e ≠ AgentServiceError.ManagedJobFailClosed
                    ∧ AgentServiceError.reconnectable (f e) = false) → fatal (lift f r).
Proof. intros Hf t e. unfold lift. destruct r; [done|]. intros [= <-]. by apply Hf. Qed.
Lemma fatal_effect : fatal effect.
Proof. intros t e. unfold effect. by destruct (env_alive env _). Qed.
Lemma fatal_persist : fatal persist_state.
Proof. intros t e He. destruct (persist_ends t _ He) as [x ->]. done. Qed.

Ltac fatal_step :=
  lazymatch goal with
  | |- ∀ _, _ => intro
  | |- fatal (_ ≫= _) => apply fatal_bind
  | |- fatal (match ?x with _ => _ end) => destruct x
  | |- fatal effect => apply fatal_effect
  | |- fatal (lift AgentServiceError.Execution _) => by apply fatal_lift
  | |- fatal (fail _) => intros ?? [= <-]; done
  | |- fatal _ => by intros ???
  end.

Lemma fatal_record_evidence o r : fatal (record_evidence ctx o r).
Proof.
  unfold record_evidence. repeat fatal_step. apply fatal_lift. intros e.
  unfold record_terminal_evidence. intros H. run H; done.
Qed.
Lemma fatal_record_receipt r : fatal (record_receipt r).
Proof.
  unfold record_receipt. repeat fatal_step. apply fatal_lift. intros e.
  unfold record_backend_execution_receipt. intros H. run H; done.
Qed.
Lemma fatal_terminate : fatal (terminate_active ctx).
Proof.
  unfold terminate_active, worker_completion, on_gate. repeat fatal_step;
    [apply fatal_record_evidence|apply fatal_record_receipt].
Qed.
End Handlers.

(** ** Sessions and processes *)

Section Process.
Context `{ED : Ed25519} `{TS : RotationSerializer} `{HI : HashIter} `{SU : !AgentSetup}
  `{CJ : CheckpointJson AgentPersistentState} `{WJ : WireJson} `{GS : GrantSerializer}
  `{SHA : Sha256} `{CJL : !CheckpointJsonLaws AgentPersistentState}.
Hypothesis alone : single_writer.
#[local] Hint Extern 1 (guards persist_state) => exact (guards_persist alone) : guards.
#[local] Hint Resolve guards_instant guards_verifier guards_write_files : guards.

Lemma guards_attempt {X Y} (m : A X) (f : result AgentServiceError X → A Y) :
  guards m → (∀ t r, ends t (match r with Ok x => Ok x | Err e => Err (Raised e) end) →
              ends (f r t).1 (f r t).2) → guards (attempt m ≫= f).
Proof.
  intros Hm Hf t Ht. specialize (Hm t Ht). unfold attempt, mbind, A_bind.
  destruct (m t) as [t1 [x|[|e]]]; cbn in *; [by apply Hf|done|by apply Hf].
Qed.

(** An operation is terminated after an error, and the state is saved. *)
Lemma ends_abandon {X Y} ctx e t :
  ends (X := X) t (Err (Raised e)) →
  ends ((terminate_active ctx;; persist_state;; (fail e : A Y)) t).1
    ((terminate_active ctx;; persist_state;; (fail e : A Y)) t).2.
Proof.
  intros (Hs & Hc & Hg). unfold mbind, A_bind.
  destruct (apart_terminate ctx t) as [Hd Hf]. pose proof (fatal_terminate ctx t) as Hfatal.
  pose proof (λ H, guards_terminate ctx t (Hg H)) as Hg1.
  destruct (terminate_active ctx t) as [t1 [[]|[|e1]]]; cbn in *; [|done|].
  2: { destruct (Hfatal e1 eq_refl) as [Hne Hrec]. unfold sound_disk. rewrite Hd, Hrec. by split. }
  assert (sound_disk t1) as Hs1 by by (unfold sound_disk; rewrite Hd).
  destruct (persist_spec t1 alone Hs1) as [Ha _ _ _ Hs2 _ _]. pose proof (fatal_persist t1) as Hfatal1.
  pose proof (λ H, guards_persist alone t1 (Hg1 H)) as Hg2. pose proof (persist_closed alone t1) as Hc2.
  destruct (persist_state t1) as [t2 [[]|[|e2]]]; cbn in *; [|done|].
  2: { destruct (Hfatal1 e2 eq_refl) as [Hne Hrec]. rewrite Hrec. by split. }
  split; [done|]. split; [|done]. intros He. destruct (Hc He) as [Hflag Hcl].
  assert (flagged t1) as Hflag1 by by (unfold flagged; rewrite Hf).
  split; [unfold flagged; by rewrite Ha|]. apply Hc2; [by rewrite Hd|done].
Qed.

Lemma guards_session_loop ctx started events : guards (run_session_loop ctx started events).
Proof.
  unfold run_session_loop. apply guards_attempt; [by apply guards_loop|]. intros t [exit|e] Ht; [done|].
  unfold the_session, gets, mbind, A_bind. cbn. destruct (opt_some _); [|exact Ht].
  pose proof (ends_abandon (X := SessionExit) (Y := SessionExit) ctx e t Ht) as H.
  unfold mbind, A_bind in H. by destruct (terminate_active ctx t) as [? [[]|]].
Qed.

Hypothesis cleanup_ends : ∀ n, env.(env_jobs_shut_down) n ≠ None.

Lemma ends_session t r :
  ends t (match r with Ok x => Ok x | Err e => Err (Raised e) end) →
  ends (end_session r t).1 (end_session r t).2.
Proof.
  intros Ht. assert (sound_disk t) as Hs by by destruct r; [apply (proj1 Ht)|destruct Ht].
  unfold end_session, effect, mbind, A_bind. destruct (env_alive env _); [|done].
  pose proof (cleanup_ends t.(world).(tick)) as Hne.
  destruct (env_jobs_shut_down env _) as [[jobs tests]|]; [|done].
  destruct (negb jobs || negb tests); [by apply (fail_closed_ends alone)|]. by destruct r.
Qed.

Lemma guards_open i : guards (open_session i).
Proof. unfold open_session, next_hub, unexpected_hub_message. follow. Qed.

Lemma guards_enter ctx : guards (enter_session ctx).
Proof.
  assert (guards (prepare_session ctx)) as Hp.
  { unfold prepare_session, the_agent, clear_recovery_handoff, clear_challenge, clear_authorization.
    follow. }
  intros t Ht. unfold enter_session, the_agent, gets, mbind, A_bind. cbn.
  destruct (managed_job_fail_closed _) eqn:Hf; [|by apply Hp].
  destruct Ht as [Hs Hc]. split; [done|]. split; [|done]. intros _. split; [done|by apply Hc].
Qed.

Lemma guards_authenticated i : guards (run_authenticated_session i).
Proof.
  unfold run_authenticated_session. apply guards_bind; [apply guards_open|]. intros ctx.
  apply guards_bind; [apply guards_enter|]. intros []. apply guards_bind; [apply guards_instant|].
  intros started. apply guards_bind; [apply guards_session|]. intros [].
  apply guards_attempt; [apply guards_session_loop|apply ends_session].
Qed.

Lemma guards_lifecycle turns : ∀ failures, guards (run_connected_lifecycle failures turns).
Proof.
  induction turns as [|x turns IH]; intros failures; cbn [run_connected_lifecycle]; [apply guards_crash|].
  destruct (shutdown_before x); [apply guards_ret|]. apply guards_attempt.
  { unfold connect_and_run. destruct (connection x); [apply guards_authenticated|by apply guards_fail]. }
  intros t [[]|e] Ht; [destruct (shutdown_asleep x); [done|by apply IH]|done|].
  destruct (negb _) eqn:Hr; [exact Ht|]. apply negb_false_iff in Hr. destruct Ht as (Hs & Hc & Hg).
  destruct (_ <=? _)%N; [by split|]. specialize (Hg Hr). unfold mbind, A_bind, lift.
  destruct (Runtime.delay_for_attempt _ _); [|by split; [apply (proj1 Hg)|split]].
  destruct (shutdown_asleep x); [done|by apply IH].
Qed.

Lemma guards_run turns : guards (run turns).
Proof.
  unfold run. apply guards_bind; [follow|]. intros []. apply guards_attempt; [apply guards_lifecycle|].
  intros t r Ht. destruct backend; [|by destruct r]. unfold effect, mbind, A_bind.
  destruct (env_alive env _); [|done]. destruct r as [[]|e]; [|exact Ht].
  unfold lift. destruct (env_backend_shuts_down _ _); [done|]. by split; [apply (proj1 Ht)|].
Qed.
End Process.
