(* ===== verification/HandoffTheorems.v ===== *)
(** * Who holds the device

    Theorems about the hand-off ([src/src/v2_operator_handoff.rs],
    [src/src/v2_agent_handoff.rs] and [src/src/v2_handoff_coordinator.rs]): the runtime decides
    or is stopped for good, the Hub and the Agent ask it the same question, and a protected
    command runs only if the runtime of the device allowed exactly this command. *)

From S2P Require Import Prelude Vocabulary Protocol Crypto Tombstone Trust Recovery RecoveryTheorems.
From S2P Require Import Admission SafetyTypes Registry EphemeralRefs Evidence Transport Hub Grants Persistence Agent AgentSession HandoffRuntime.
From S2P Require Import AgentHandoff HandoffCoordinator AgentLogic AgentQuiet AgentOnce AgentAuthority.
Import HandoffRuntime AgentHandoff HandoffCoordinator.

(** ** The pipe *)

Section Pipe.
Context `{HJ : HandoffJson} `{SHA : Sha256}.
Implicit Types (rt : Runtime) (io : nat → Exchange).

(** A stopped runtime stays as it is, and answers are only added. *)
Definition grows rt rt' : Prop :=
  (rt.(faulted) = true → rt' = rt) ∧ ∃ l, rt'.(exchanges) = l ++ rt.(exchanges).

#[local] Instance grows_preorder : PreOrder grows.
Proof.
  split; [intros rt; split; [done|by exists []]|].
  intros r1 r2 r3 [H12 (l1 & E1)] [H23 (l2 & E2)]. split.
  - intros Hf. rewrite <- (H12 Hf). apply H23. by rewrite (H12 Hf).
  - exists (l2 ++ l1). by rewrite E2, E1, app_assoc.
Qed.

Definition growing {E X} (m : M E X) : Prop := ∀ rt, grows rt (m rt).1.

(** A program that needs the runtime fails once it has been stopped. *)
Definition needs_runtime {E X} (m : M E X) : Prop :=
  growing m ∧ ∀ rt, rt.(faulted) = true → ∃ e, m rt = (rt, Err e).

Lemma growing_ret {E X} (x : X) : growing (mret x : M E X).
Proof. intros rt. reflexivity. Qed.
Lemma growing_fail {E X} (e : E) : growing (fail e : M E X).
Proof. intros rt. reflexivity. Qed.
Lemma growing_lift {E X} (r : result E X) : growing (lift r).
Proof. intros rt. reflexivity. Qed.
Lemma growing_ok_or {E X} (e : E) (o : option X) : growing (ok_or e o).
Proof. destruct o; [apply growing_ret|apply growing_fail]. Qed.
Lemma growing_fault {E} : growing (fault : M E unit).
Proof.
  intros rt. unfold fault. cbn. destruct (faulted rt) eqn:Hf; [reflexivity|].
  split; [by rewrite Hf|by exists []].
Qed.
Lemma growing_bind {E X Y} (m : M E X) (f : X → M E Y) :
  growing m → (∀ x, growing (f x)) → growing (m ≫= f).
Proof.
  intros Hm Hf rt. unfold mbind, M_bind. specialize (Hm rt). destruct (m rt) as [rt' [x|e]]; [|done].
  etransitivity; [exact Hm|apply Hf].
Qed.
Lemma growing_map_err {E F X} (f : E → F) (m : M E X) : growing m → growing (map_err f m).
Proof. intros Hm rt. unfold map_err. specialize (Hm rt). by destruct (m rt). Qed.

Lemma exchange_value_needs io r : needs_runtime (exchange_value io r).
Proof.
  split.
  - intros rt. unfold exchange_value. destruct (request_to_vec r); [|reflexivity].
    destruct (_ <? _)%N; [reflexivity|]. destruct (faulted rt) eqn:Hf; [reflexivity|].
    destruct (child _); cbn; try (split; [by rewrite Hf|by exists []]).
    destruct (answer _) as [v|e]; (split; [by rewrite Hf|]); [by exists [(r, v)]|by exists []].
  - intros rt Hf. unfold exchange_value. destruct (request_to_vec r); [|by eexists].
    destruct (_ <? _)%N; [by eexists|]. rewrite Hf. by eexists.
Qed.

Lemma needs_bind {E X Y} (m : M E X) (f : X → M E Y) :
  needs_runtime m → (∀ x, growing (f x)) → needs_runtime (m ≫= f).
Proof.
  intros [Hg Hn] Hf. split; [by apply growing_bind|]. intros rt Hrt.
  destruct (Hn rt Hrt) as [e He]. exists e. unfold mbind, M_bind. by rewrite He.
Qed.
Lemma needs_lift {E X Y} (r : result E X) (f : X → M E Y) :
  (∀ x, needs_runtime (f x)) → needs_runtime (lift r ≫= f).
Proof.
  intros Hf. split; [apply growing_bind; [apply growing_lift|]; intros x; apply Hf|].
  intros rt Hrt. unfold mbind, M_bind, lift. destruct r as [x|e]; [by apply Hf|by exists e].
Qed.
Lemma needs_ret {E X Y} (x : X) (f : X → M E Y) :
  needs_runtime (f x) → needs_runtime (mret x ≫= f).
Proof. by intros []. Qed.
Lemma needs_fail {E X} (e : E) : needs_runtime (fail e : M E X).
Proof. split; [apply growing_fail|]. intros rt _. by exists e. Qed.
Lemma needs_map_err {E F X} (f : E → F) (m : M E X) : needs_runtime m → needs_runtime (map_err f m).
Proof.
  intros [Hg Hn]. split; [by apply growing_map_err|]. intros rt Hrt. destruct (Hn rt Hrt) as [e He].
  exists (f e). unfold map_err. by rewrite He.
Qed.
Lemma needs_growing {E X} (m : M E X) : needs_runtime m → growing m.
Proof. by intros []. Qed.
End Pipe.

Create HintDb runtime.
#[export] Hint Resolve growing_ret growing_fail growing_lift growing_ok_or growing_fault growing_bind
  growing_map_err needs_growing exchange_value_needs needs_bind needs_lift needs_fail needs_map_err
  : runtime.
Ltac runtime_step :=
  match goal with
  | |- growing (match ?x with _ => _ end) => destruct x
  | |- needs_runtime (match ?x with _ => _ end) => destruct x
  | |- growing (_ ≫= _) => apply growing_bind; [|intros ?]
  | |- needs_runtime (lift _ ≫= _) => apply needs_lift; intros ?
  | |- needs_runtime (mret _ ≫= _) => apply needs_ret
  | |- needs_runtime (_ ≫= _) => apply needs_bind; [|intros ?]
  | |- needs_runtime (map_err _ _) => apply needs_map_err
  | |- growing (map_err _ _) => apply growing_map_err
  | |- _ => solve [auto with runtime]
  end.
Ltac runtime := repeat runtime_step.

Section Calls.
Context `{HJ : HandoffJson} `{SHA : Sha256}.
Implicit Types (rt : Runtime) (io : nat → Exchange).

Lemma exchange_needs io r : needs_runtime (exchange io r).
Proof. unfold exchange. runtime. Qed.
#[local] Hint Resolve exchange_needs : runtime.
Lemma status_needs io : needs_runtime (status io).
Proof. unfold status. runtime. Qed.
#[local] Hint Resolve status_needs : runtime.
Lemma control_needs io c : needs_runtime (control io c).
Proof. unfold control. runtime. Qed.
Lemma admit_needs io a : needs_runtime (admit_agent io a).
Proof. unfold admit_agent. runtime. Qed.
Lemma report_needs io r : needs_runtime (HandoffRuntime.report_verification io r).
Proof. unfold HandoffRuntime.report_verification. runtime. Qed.
#[local] Hint Resolve control_needs admit_needs report_needs : runtime.
Lemma final_admit_needs io a c s : needs_runtime (final_admit io a c s).
Proof. unfold final_admit. runtime. Qed.
Lemma report_local_needs io a t b s : needs_runtime (report_verification_local io a t b s).
Proof. unfold report_verification_local. runtime. Qed.
Lemma runtime_status_needs io : needs_runtime (runtime_status io).
Proof. unfold runtime_status. runtime. Qed.
Lemma runtime_control_needs io c : needs_runtime (runtime_control io c).
Proof. unfold runtime_control. runtime. Qed.
#[local] Hint Resolve runtime_status_needs runtime_control_needs : runtime.
Lemma operator_needs io permit c a s : needs_runtime (operator io permit c a s).
Proof.
  unfold operator, mutation_authority_permit, active_in. destruct permit, c; cbn match; runtime.
Qed.
Lemma handle_inner_needs io permit r s : needs_runtime (handle_remote_inner io permit r s).
Proof. unfold handle_remote_inner. destruct r; [runtime|apply operator_needs]. Qed.
End Calls.

(** ** Decisions *)

(** The response says this. *)
Definition says (r : WireResponse) (d : Agent.AgentAuthorityDecision) : Prop :=
  r.(WireResponse.ok) = true ∧
  match d with
  | Agent.Allow => r.(WireResponse.decision) = Some "allow"
  | Agent.Deny => r.(WireResponse.decision) = Some "deny"
  | Agent.Verification t =>
      r.(WireResponse.decision) = Some "verification"
      ∧ r.(WireResponse.intervention_id) = Some t.(Agent.intervention_id)
      ∧ r.(WireResponse.epoch) = Some t.(Agent.token_epoch)
      ∧ valid_terminal_intervention t.(Agent.intervention_id) t.(Agent.token_epoch) = true
  end.

Lemma parse_admission_says r d : parse_admission_response r = Ok d → says r d.
Proof.
  unfold parse_admission_response, says. destruct r as [[] decision id epoch]; cbn; [|done].
  destruct decision as [x|]; [|done]. split; [done|]. revert H.
  case_bool_decide as Ha; [by intros [= <-]; subst|].
  case_bool_decide as Hd; [by intros [= <-]; subst|].
  case_bool_decide as Hv; [|done]. subst x. unfold bounded_intervention_id.
  destruct id as [id|]; [|done]. destruct (_ || _) eqn:Hid; [done|]. destruct epoch as [epoch|]; [|done].
  destruct (epoch =? 0)%N eqn:He; [done|]. intros [= <-]. split_and!; [done..|].
  unfold valid_terminal_intervention. cbn. split_bools.
  rewrite !andb_true_iff. split_and!; [apply N.ltb_lt; lia|by apply negb_true_iff|apply N.leb_le; lia|done].
Qed.

Section Admission.
Context `{HJ : HandoffJson} `{SHA : Sha256}.
Implicit Types (rt : Runtime) (io : nat → Exchange).

Definition encodable (r : Request) : Prop :=
  ∃ b, request_to_vec r = Some b ∧ (vlen b + 1 ≤ MAX_WIRE_BYTES)%N.

(** The runtime was asked about this authority, as the last thing, and decided. *)
Definition decided rt rt' (a : AgentAuthorityRequest) (d : Agent.AgentAuthorityDecision) : Prop :=
  rt.(faulted) = false ∧ rt'.(faulted) = false ∧
  ∃ v r, rt'.(exchanges) = (AuthorityRequest (wire_admission_request a), v) :: rt.(exchanges)
    ∧ value_wire_response v = Some r ∧ says r d.

Lemma exchange_value_Ok io r rt rt' v :
  exchange_value io r rt = (rt', Ok v) →
  rt.(faulted) = false ∧ rt'.(faulted) = false ∧ rt'.(exchanges) = (r, v) :: rt.(exchanges).
Proof.
  unfold exchange_value. destruct (request_to_vec r); [|done]. destruct (_ <? _)%N; [done|].
  destruct (faulted rt); [done|]. destruct (child _); [done| |done].
  destruct (answer _); [|done]. by intros [= <- <-].
Qed.

Lemma exchange_value_Err io r rt rt' e :
  encodable r → exchange_value io r rt = (rt', Err e) → rt'.(faulted) = true.
Proof.
  intros (b & Hb & Hlen). unfold exchange_value. rewrite Hb.
  destruct (_ <? _)%N eqn:Hl; [apply N.ltb_lt in Hl; lia|].
  destruct (faulted rt) eqn:Hf; [by intros [= <- _]|].
  destruct (child _); [by intros [= <- _]| |by intros [= <- _]].
  destruct (answer _); [done|]. by intros [= <- _].
Qed.

Lemma admit_agent_Ok io a rt rt' d : admit_agent io a rt = (rt', Ok d) → decided rt rt' a d.
Proof.
  unfold admit_agent, exchange, mbind, M_bind.
  destruct (exchange_value io _ rt) as [rt1 [v|e]] eqn:Hx; [|done].
  destruct (value_wire_response v) as [r|] eqn:Hr; [|done]. cbn.
  destruct (parse_admission_response r) as [d'|e] eqn:Hp; [|done]. intros [= <- <-].
  apply exchange_value_Ok in Hx as (H1 & H2 & H3). split_and!; [done..|]. exists v, r.
  split_and!; [done..|]. by apply parse_admission_says.
Qed.

Lemma fault_stops {E X} (e : E) rt : ((fault;; fail e) rt : Runtime * result E X).1.(faulted) = true.
Proof. unfold fault, mbind, M_bind. cbn. by destruct (faulted rt) eqn:Hf. Qed.

Lemma admit_agent_Err io a rt rt' e :
  encodable (AuthorityRequest (wire_admission_request a)) →
  admit_agent io a rt = (rt', Err e) → rt'.(faulted) = true.
Proof.
  intros Hc. unfold admit_agent, exchange.
  unfold mbind at 1, M_bind at 1. unfold mbind at 1, M_bind at 1.
  destruct (exchange_value io _ rt) as [rt1 [v|e1]] eqn:Hx;
    [|intros [= <- _]; by eapply exchange_value_Err].
  destruct (value_wire_response v) as [r|] eqn:Hr.
  - cbn. destruct (parse_admission_response r) as [d|e1] eqn:Hp; [done|]. intros Heq.
    pose proof (fault_stops (X := Agent.AgentAuthorityDecision) e1 rt1) as Hf. by rewrite Heq in Hf.
  - pose proof (fault_stops (X := WireResponse) OperatorHandoffError.Protocol rt1) as Hf.
    destruct ((fault;; fail _) rt1) as [rt2 [x|e2]] eqn:Hx2; [by cbn in Hx2|].
    by intros [= <- _].
Qed.
End Admission.

Section Guarantees.
Context `{HJ : HandoffJson} `{SHA : Sha256}.
Implicit Types (rt : Runtime) (io : nat → Exchange).

(** The calls of the Agent to its coordinator *)
Inductive coordinator_call io rt : Runtime → Prop :=
| call_final_admit a c s : coordinator_call io rt (final_admit io a c s rt).1
| call_handle_remote permit r s : coordinator_call io rt (handle_remote io permit r s rt).1
| call_report a t b s : coordinator_call io rt (report_verification_local io a t b s rt).1
| call_shutdown : coordinator_call io rt (shutdown (E := RemoteHandoffErrorCode) rt).1.

Lemma stopped_call io rt rt' : rt.(faulted) = true → coordinator_call io rt rt' → rt' = rt.
Proof.
  intros Hf [a c s|permit r s|a t b s|].
  - by apply (needs_growing _ (final_admit_needs io a c s)).
  - unfold handle_remote. pose proof (proj1 (handle_inner_needs io permit r s) rt) as [H _].
    specialize (H Hf). by destruct (handle_remote_inner io permit r s rt).
  - by apply (needs_growing _ (report_local_needs io a t b s)).
  - unfold shutdown, fault. cbn. by rewrite Hf.
Qed.

Lemma stopped_for_good io rt rt' : rt.(faulted) = true → rtc (coordinator_call io) rt rt' → rt' = rt.
Proof.
  intros Hf Hrun. induction Hrun as [rt|rt1 rt2 rt3 Hcall _ IH]; [done|].
  apply stopped_call in Hcall as ->; [by apply IH|done].
Qed.

(** Nothing is admitted, begun or verified any more. *)
Definition runtime_refuses io rt : Prop :=
  (∀ a c s d, (final_admit io a c s rt).2 ≠ Ok d)
  ∧ (∀ permit r s, ∃ code, (handle_remote io permit r s rt).2 = RemoteHandoffResponseKind.Rejected code)
  ∧ ∀ a t b s, (report_verification_local io a t b s rt).2 ≠ Ok tt.

Lemma stopped_refuses io rt : rt.(faulted) = true → runtime_refuses io rt.
Proof.
  intros Hf. split_and!.
  - intros a c s d. destruct (proj2 (final_admit_needs io a c s) rt Hf) as [e He]. by rewrite He.
  - intros permit r s. unfold handle_remote.
    destruct (proj2 (handle_inner_needs io permit r s) rt Hf) as [e He]. rewrite He. by exists e.
  - intros a t b s. destruct (proj2 (report_local_needs io a t b s) rt Hf) as [e He]. by rewrite He.
Qed.

(** C15: An admission is decided by the runtime, or it is the last thing that the runtime is asked.
    When the question can be written, the runtime was asked exactly it and answered with
    the decision, or it is stopped: after that, over any calls, it is asked nothing,
    admits nothing and lets no human begin. *)
Theorem admission_decides_or_stops io a rt :
  encodable (AuthorityRequest (wire_admission_request a)) →
  match admit_agent io a rt with
  | (rt', Ok d) => decided rt rt' a d
  | (rt', Err _) => ∀ rt'', rtc (coordinator_call io) rt' rt'' → rt'' = rt' ∧ runtime_refuses io rt''
  end.
Proof.
  intros Hc. destruct (admit_agent io a rt) as [rt' [d|e]] eqn:Ha; [by eapply admit_agent_Ok|].
  pose proof (admit_agent_Err io a rt rt' e Hc Ha) as Hf. intros rt'' Hrun.
  apply stopped_for_good in Hrun as ->; [|done]. split; [done|by apply stopped_refuses].
Qed.

(** ** The final gate *)

(** What the runtime is asked about a command in a session *)
Definition question (principal device_id : string) (generation revision : N) (c : DeviceCommand)
    : AgentAuthorityRequest :=
  AgentAuthorityRequest.mk principal (device_binding device_id) generation revision
    (window_binding c) (AgentSession.is_exact_verification_candidate c).

Lemma session_authority_Ok a s b :
  session_authority a s = Ok b →
  b = AgentAuthorityRequest.mk a.(RemoteHandoffAuthority.principal_binding) s.(fence_device_binding)
        s.(AgentHandoff.fence_generation) s.(fence_capability_revision)
        (surface_window <$> a.(RemoteHandoffAuthority.surface))
        a.(RemoteHandoffAuthority.verification_candidate).
Proof.
  unfold session_authority. destruct (authority_matches_session a s) eqn:Hm; [|done]. cbn.
  destruct (match _ with Some _ => _ | None => false end); [done|]. intros [= <-].
  unfold authority_matches_session in Hm. split_bools. by f_equal.
Qed.

Lemma matches_command_window a c :
  authority_matches_command a c = true →
  surface_window <$> a.(RemoteHandoffAuthority.surface) = window_binding c
  ∧ a.(RemoteHandoffAuthority.verification_candidate) = AgentSession.is_exact_verification_candidate c.
Proof.
  unfold authority_matches_command. intros [Hv Hs]%andb_true_iff. apply eqb_prop in Hv.
  split; [|done]. destruct (RemoteHandoffAuthority.surface a) as [w|], (window_binding c); try done.
  cbn. by apply bool_decide_eq_true in Hs as ->.
Qed.

Lemma final_admit_Ok io a c device_id g r rt rt' d :
  final_admit io a c (for_device device_id g r) rt = (rt', Ok d) →
  decided rt rt' (question a.(RemoteHandoffAuthority.principal_binding) device_id g r c) d.
Proof.
  unfold final_admit. destruct (authority_matches_command a c) eqn:Hm; [|done]. cbn [negb].
  unfold mbind, M_bind, lift. destruct (session_authority a _) as [b|e] eqn:Hs; [|done].
  apply session_authority_Ok in Hs as ->. apply matches_command_window in Hm as [Hw Hv].
  rewrite Hw, Hv. cbn. unfold map_err, question.
  destruct (admit_agent io _ rt) as [rt1 [d1|e]] eqn:Ha; [|done]. intros [= <- <-]. by eapply admit_agent_Ok.
Qed.
End Guarantees.

(** ** The Hub and the Agent *)

Section Agreement.
Context `{HJ : HandoffJson} `{SHA : Sha256} `{SHAL : !Sha256Laws}.
Implicit Types (rt : Runtime) (io : nat → Exchange).

Lemma bounded_hash_valid domain parts : valid_binding (bounded_hash domain parts) = true.
Proof.
  unfold valid_binding, lower_hex, bounded_hash, slen, all_bytes.
  by rewrite hex_lower, hex_length, sha256_length by apply sha256_u8.
Qed.

(** The windows of the operating system have numbers; 0 is none. *)
Definition real_window (w : option ExactWindowBinding) : Prop :=
  match w with
  | Some w => w.(ExactWindowBinding.process_id) ≠ 0%N ∧ w.(ExactWindowBinding.window_id) ≠ 0%N
  | None => True
  end.

Lemma hub_request p device_id g r c :
  legacy_request (agent_binding p device_id g r c)
  = question (principal_binding p) device_id g r c.
Proof. unfold legacy_request, agent_binding, question. cbn. by destruct (window_binding c). Qed.

Lemma remote_surface_window w : surface_window (remote_surface w) = w.
Proof. by destruct w. Qed.

Lemma window_binding_valid c w :
  window_binding c = Some w → valid_binding w.(ExactWindowBinding.context_binding) = true.
Proof.
  unfold window_binding. intros ([[context p] w'] & _ & ->)%fmap_Some. apply bounded_hash_valid.
Qed.

Lemma hub_authority_matches p device_id g r c :
  authority_matches_command (remote_authority (question (principal_binding p) device_id g r c)) c = true.
Proof.
  unfold authority_matches_command. cbn. rewrite eqb_reflx.
  destruct (window_binding c) as [w|]; [|done]. cbn [fmap option_fmap option_map].
  by rewrite remote_surface_window, bool_decide_eq_true_2.
Qed.

Lemma hub_authority_of_session p device_id g r c :
  real_window (window_binding c) →
  session_authority (remote_authority (question (principal_binding p) device_id g r c))
    (for_device device_id g r) = Ok (question (principal_binding p) device_id g r c).
Proof.
  intros Hw. unfold session_authority, authority_matches_session. cbn.
  rewrite !N.eqb_refl, bool_decide_eq_true_2 by done. cbn. unfold principal_binding, device_binding.
  rewrite !bounded_hash_valid. cbn. unfold question, device_binding.
  destruct (window_binding c) as [[context pid wid]|] eqn:Hb; cbn; [|done].
  apply window_binding_valid in Hb. cbn in Hb, Hw. destruct Hw as [Hp Hw]. apply N.eqb_neq in Hp, Hw.
  by rewrite Hb, Hp, Hw.
Qed.

Lemma errors_survive (e : OperatorHandoffError) : map_remote_error (map_authority_error e) = e.
Proof. by destruct e. Qed.

(** C17: The Hub before dispatch and the Agent before execution ask the runtime the same
    question. For a command with a real window in a session, the authority that the Hub
    attaches passes the checks of the Agent, the final gate is the runtime's decision on
    the Hub's own question, and an admission that the Hub asks for over the session
    returns exactly what the runtime of the device answers, errors included. *)
Theorem hub_and_agent_ask_alike io permit p device_id g r c rt :
  real_window (window_binding c) →
  let asked := legacy_request (agent_binding p device_id g r c) in
  let fence := for_device device_id g r in
  final_admit io (remote_authority asked) c fence rt
  = map_err map_authority_error (admit_agent io asked) rt
  ∧ remote_admit_agent (λ k, Ok (handle_remote io permit k fence rt).2) asked
    = (admit_agent io asked rt).2.
Proof.
  intros Hw. cbn zeta. rewrite hub_request. split.
  - unfold final_admit. rewrite hub_authority_matches. cbn [negb].
    unfold mbind, M_bind, lift. by rewrite hub_authority_of_session.
  - unfold remote_admit_agent, handle_remote, handle_remote_inner, mbind, M_bind, lift.
    rewrite hub_authority_of_session by done. unfold map_err.
    destruct (admit_agent io _ rt) as [rt' [d|e]]; cbn; [|by rewrite errors_survive].
    by destruct d as [| |[]].
Qed.
End Agreement.

(** ** The Agent *)

Section Agent.
Context `{ED : Ed25519} `{TS : RotationSerializer} `{HI : HashIter} `{SU : !Agent.AgentSetup}
  `{CJ : Persistence.CheckpointJson Persistence.AgentPersistentState} `{WJ : WireJson}
  `{GS : GrantSerializer} `{SHA : Sha256} `{EDL : !Ed25519Laws} `{HJ : HandoffJson}.

(** The coordinator of the Agent over a runtime: [io] is what the runtime does, [permit] what
    the gate of the mutations answers to each call. The calls that the Agent made, the
    latest first, take the runtime from one state to the next. *)
Variable io : nat → Exchange.
Variable permit : nat → bool.
Implicit Types (rt : Runtime) (k : Agent.Consultation) (calls : list Agent.Consultation).

Definition session_fence (f : Agent.SessionFence) : AgentHandoffSessionFence :=
  for_device f.(Agent.fence_device) f.(Agent.fence_generation) f.(Agent.fence_revision).

Definition after_call (n : nat) k rt : Runtime :=
  match k with
  | Agent.Asked a c f _ => (final_admit io a c (session_fence f) rt).1
  | Agent.Reported a token b f _ => (report_verification_local io a token b (session_fence f) rt).1
  | Agent.Requested r f _ => (handle_remote io (permit n) r (session_fence f) rt).1
  end.

Fixpoint runtime_after rt calls : Runtime :=
  match calls with
  | [] => rt
  | k :: calls => after_call (length calls) k (runtime_after rt calls)
  end.

(** The answer is the one that the coordinator gives over this runtime. *)
Definition answers_call (n : nat) k rt : Prop :=
  match k with
  | Agent.Asked a c f answer =>
      answer = match (final_admit io a c (session_fence f) rt).2 with Ok d => Some d | Err _ => None end
  | Agent.Reported a token b f answer =>
      answer = is_ok (report_verification_local io a token b (session_fence f) rt).2
  | Agent.Requested r f answer => answer = (handle_remote io (permit n) r (session_fence f) rt).2
  end.

Fixpoint answered rt calls : Prop :=
  match calls with
  | [] => True
  | k :: calls => answered rt calls ∧ answers_call (length calls) k (runtime_after rt calls)
  end.

(** Each call with the calls before it *)
Fixpoint moments calls : list (Agent.Consultation * list Agent.Consultation) :=
  match calls with [] => [] | k :: calls => (k, calls) :: moments calls end.

(** At this moment the runtime of the device, which was running, was asked about this command,
    in this session and on this window, and allowed it, or asked for it as the verification of
    what a human did. *)
Definition allowed_at rt (x : OperationRef * RemoteCommand)
    (moment : Agent.Consultation * list Agent.Consultation) : Prop :=
  let e := x.2.(RemoteCommand.command) in
  ∃ authority d, x.2.(RemoteCommand.handoff) = Some authority
    ∧ decided (runtime_after rt moment.2) (runtime_after rt (moment.1 :: moment.2))
        (question authority.(RemoteHandoffAuthority.principal_binding) Agent.config.(Agent.device_id)
           x.1.(OperationRef.device_generation) e.(CommandEnvelope.capability_revision)
           e.(CommandEnvelope.command)) d
    ∧ (d = Agent.Allow
       ∨ AgentSession.is_exact_verification_candidate e.(CommandEnvelope.command) = true
         ∧ ∃ token, d = Agent.Verification token).

Lemma asked_allowed rt x k calls :
  answers_call (length calls) k (runtime_after rt calls) → asked_about x k → allowed_at rt x (k, calls).
Proof.
  intros Hans (authority & d & Hh & -> & Hd). exists authority, d. split; [done|]. split; [|done].
  cbn in Hans |- *. unfold session_fence in *. cbn in *.
  destruct (final_admit io _ _ _ _) as [rt' [d'|e]] eqn:Hf; [|done]. injection Hans as <-.
  by apply final_admit_Ok in Hf.
Qed.

(** The moments of some of the calls *)
Lemma moments_of rt l calls ks :
  answered rt calls → ks `sublist_of` calls → Forall2 asked_about l ks →
  ∃ ms, ms `sublist_of` moments calls ∧ Forall2 (allowed_at rt) l ms.
Proof.
  intros Hans Hsub. revert l. induction Hsub as [|k ks calls Hsub IH|k ks calls Hsub IH]; intros l Hl.
  - inversion Hl; subst. exists []. split; [done|constructor].
  - destruct Hans as [Hans Hk]. inversion Hl as [|x ? l' ? Hx Hl']; subst.
    destruct (IH Hans l' Hl') as (ms & Hms & Ha). exists ((k, calls) :: ms). split; [by constructor|].
    constructor; [by apply asked_allowed|done].
  - destruct Hans as [Hans _]. destruct (IH Hans l Hl) as (ms & Hms & Ha). exists ms.
    split; [by constructor|done].
Qed.

(** C14: A protected command runs only if the runtime of the device allowed exactly it. Take a
    process of the Agent with a coordinator, any state of the runtime at its start, and the
    calls that the process made to the coordinator, answered by the coordinator over this
    runtime. Then each protected operation that the process started has a call of its own
    among them, in the same order, at which the runtime was running, was asked about this
    device, session, capability revision, command and window, and allowed it. *)
Theorem protected_commands_were_allowed rt turns t calls :
  Agent.handoff = true →
  (AgentSession.process turns t).1.(Agent.world).(Agent.consulted)
  = calls ++ t.(Agent.world).(Agent.consulted) →
  answered rt calls →
  ∃ l ms, (past (AgentSession.process turns t).1).(Agent.spawned) = l ++ (past t).(Agent.spawned)
    ∧ ms `sublist_of` moments calls ∧ Forall2 (allowed_at rt) (filter is_protected l) ms.
Proof.
  intros Hh Hcalls Hans. destruct (process_obeys turns t) as (l & calls' & Hl & Hk & _ & Hask).
  rewrite Hcalls in Hk. apply app_inv_tail in Hk as <-. destruct (Hask Hh) as (ks & Hsub & Hks).
  destruct (moments_of rt _ calls ks Hans Hsub Hks) as (ms & Hms & Ha). by exists l, ms.
Qed.
End Agent.

(** ** The window of a hand-off *)

Section Selections.
Context `{SHA : Sha256}.

(** What the coordinator of a Hub goes through: the admission of a command, with what the
    backend answers, and the end of a context *)
Inductive selection_event :=
| AdmissionEvent (answer : result OperatorHandoffError Agent.AgentAuthorityDecision)
    (p : Trust.AuthenticatedClientPrincipal) (device_id : string) (generation revision : N)
    (c : DeviceCommand) (valid_for : option N) (observed_at admitted_at : N) (random random' : list N)
| InvalidatedContext (context : string).

Definition after_event (s : HandoffSelectionState) (e : selection_event) : HandoffSelectionState :=
  match e with
  | AdmissionEvent answer p d g r c valid_for t t' random random' =>
      (admit_agent_with_context_valid_for (λ _, answer) true s p d g r c valid_for t t' random random').1
  | InvalidatedContext context => invalidate_context s context
  end.

Definition selections (l : list selection_event) : HandoffSelectionState :=
  foldl after_event no_selections l.

(** The event admitted this authority, at this time. *)
Definition admits (e : selection_event) (a : AgentAuthorityRequest) (at_time : N) : Prop :=
  match e with
  | AdmissionEvent answer p d g r c valid_for t t' random random' =>
      answer = Ok Agent.Allow ∧ AgentSession.is_phase1_protected_command c = true ∧ t' = at_time
      ∧ a = control_authority (question (principal_binding p) d g r c)
      ∧ window_binding c ≠ None
  | InvalidatedContext _ => False
  end.

Definition ends_context (e : selection_event) (a : AgentAuthorityRequest) : Prop :=
  match e, a.(AgentAuthorityRequest.exact_window) with
  | InvalidatedContext context, Some w =>
      w.(ExactWindowBinding.context_binding) = interaction_context_binding context
  | _, _ => False
  end.

Lemma expiry_bound now valid_for :
  (selection_expiry now valid_for ≤ now + HANDOFF_CONTROL_SELECTION_TTL)%N.
Proof. unfold selection_expiry. lia. Qed.

Lemma admission_selects s answer p d g r c valid_for t t' random random' x :
  (after_event s (AdmissionEvent answer p d g r c valid_for t t' random random')).(last_admitted) = Some x →
  s.(last_admitted) = Some x ∨
  (admits (AdmissionEvent answer p d g r c valid_for t t' random random') x.(selected_authority) t'
   ∧ (x.(expires_at) ≤ t' + HANDOFF_CONTROL_SELECTION_TTL)%N).
Proof.
  cbn. unfold admit_agent_with_context_valid_for. rewrite hub_request.
  destruct (AgentSession.is_phase1_protected_command c) eqn:Hp; cbn [negb]; [|by left].
  assert (∀ a, (remember_observed_window s a t random valid_for).(last_admitted) = s.(last_admitted)) as Ho
    by (intros a; unfold remember_observed_window; by destruct (opt_none _)).
  destruct answer as [[| |token]|e]; cbn; try (rewrite Ho; by left).
  - unfold remember_admitted_window. destruct (window_binding c) as [w|] eqn:Hw; cbn;
      rewrite Hw; cbn; [|rewrite Ho; by left].
    intros [= <-]. right. cbn. split; [|apply expiry_bound]. by split_and!.
  - destruct (_ || _); cbn; rewrite Ho; by left.
Qed.

Lemma invalidation_keeps s context x :
  (invalidate_context s context).(last_admitted) = Some x →
  s.(last_admitted) = Some x ∧ ¬ ends_context (InvalidatedContext context) x.(selected_authority).
Proof.
  unfold invalidate_context, about_context, ends_context. cbn.
  destruct (last_admitted s) as [y|]; [|done].
  destruct (AgentAuthorityRequest.exact_window _) as [w|] eqn:Hw; [case_bool_decide as Hc; [done|]|];
    intros [= ->]; rewrite Hw; (split; [done|]); [exact Hc|intros []].
Qed.

Lemma admitted_selection l x :
  (selections l).(last_admitted) = Some x →
  ∃ l1 e l2 t, l = l1 ++ e :: l2 ∧ admits e x.(selected_authority) t
    ∧ (x.(expires_at) ≤ t + HANDOFF_CONTROL_SELECTION_TTL)%N
    ∧ Forall (λ e, ¬ ends_context e x.(selected_authority)) l2.
Proof.
  induction l as [|e l IH] using rev_ind; [done|]. unfold selections. rewrite foldl_app. cbn [foldl].
  assert (∀ e', ¬ ends_context e' x.(selected_authority) → (selections l).(last_admitted) = Some x →
    ∃ l1 e0 l2 t, l ++ [e'] = l1 ++ e0 :: l2 ∧ admits e0 x.(selected_authority) t
      ∧ (x.(expires_at) ≤ t + HANDOFF_CONTROL_SELECTION_TTL)%N
      ∧ Forall (λ e, ¬ ends_context e x.(selected_authority)) l2) as Hkeep.
  { intros e' He' (l1 & e0 & l2 & t & -> & H1 & H2 & H3)%IH. exists l1, e0, (l2 ++ [e']), t.
    split_and!; [by rewrite <- app_assoc|done..|]. apply Forall_app. by split; [|constructor]. }
  destruct e as [answer p d g r c valid_for t t' random random'|context].
  - intros [Hs|[Ha Ht]]%admission_selects; [apply Hkeep; [intros []|exact Hs]|]. eexists l, _, [], t'. by split_and!.
  - cbn [after_event]. intros [Hs He]%invalidation_keeps. by apply Hkeep.
Qed.

(** C16: A human can be given control only over a window that the Hub has just admitted. When the
    coordinator finds the authority for the operator's command to begin, then the
    runtime allowed a command of the current session on exactly this window less than a
    minute ago, its context has not ended since, and the authority is not one for a
    verification. *)
Theorem human_control_needs_a_fresh_window l session handle now a :
  selected_authority_for_context (selections l) true (Some session) handle now = Ok a →
  ∃ l1 e l2 t, l = l1 ++ e :: l2 ∧ admits e a t ∧ (now < t + HANDOFF_CONTROL_SELECTION_TTL)%N
    ∧ Forall (λ e, ¬ ends_context e a) l2
    ∧ a.(AgentAuthorityRequest.generation) = session.(handoff_generation)
    ∧ a.(AgentAuthorityRequest.capability_revision) = session.(handoff_capability_revision)
    ∧ a.(AgentAuthorityRequest.verification_candidate) = false.
Proof.
  unfold selected_authority_for_context, fresh_selection. intros H. run H.
  all: match goal with H : last_admitted _ = Some _ |- _ =>
    apply admitted_selection in H as (l1 & e & l2 & t & -> & Ha & Ht & Hf) end;
    exists l1, e, l2, t; split_and!; try done; try lia;
    (destruct e; [|done]; by destruct Ha as (_ & _ & _ & -> & _)).
Qed.
End Selections.
