(* ===== verification/AgentTheorems.v ===== *)
(** * The Agent on its device

    Theorems about the processes of the Agent ([src/src/v2_m1_agent.rs]) over their lives on
    one device: operations run at most once, reports say what happened, results follow
    their durable evidence, a fail-closed Agent stays closed, and protected commands need
    the consent of the hand-off. *)

From S2P Require Import Prelude Vocabulary Protocol Crypto Tombstone Admission Registry Grants.
From S2P Require Import SafetyTypes Recovery EphemeralRefs Evidence Transport AgentGate.
From S2P Require Import SessionRuntime Trust Persistence PersistenceTheorems AgentErrors.
From S2P Require Import AgentWorker Agent AgentSession AgentLogic AgentQuiet AgentOnce AgentHonest.
From S2P Require Import AgentClosed.
Import Persistence Agent AgentSession.AgentSession.

Section Device.
Context `{ED : Ed25519} `{TS : RotationSerializer} `{HI : HashIter}
  `{CJ : CheckpointJson AgentPersistentState} `{WJ : WireJson} `{GS : GrantSerializer}
  `{SHA : Sha256} `{CJL : !CheckpointJsonLaws AgentPersistentState}.

Lemma device_accepted w0 w :
  new_device w0 → rtc device_step w0 w → regular w.(history).(sessions) → known w.(history).
Proof.
  intros Hnew Hrun Hr. destruct (device_develops _ _ Hrun) as [_ Hd].
  by destruct (Hd Hr (new_device_inv _ Hnew)).
Qed.

(** C2: The Agent hands an operation to a worker at most once, and never one that it has
    refused: over all the processes of a device, each of which may die at any effect,
    with faults of the file system and power failures in between, provided that a
    generation that is over does not come back. *)
Theorem agent_executes_at_most_once w0 w :
  new_device w0 → rtc device_step w0 w → regular w.(history).(sessions) →
  NoDup (w.(history).(spawned).*1 ++ w.(history).(refused)) ∧
  ∀ o, o ∈ w.(history).(spawned).*1 → o.(OperationRef.device_generation) ∈ w.(history).(sessions).
Proof.
  intros Hnew Hrun Hr. destruct (device_accepted _ _ Hnew Hrun Hr) as [Hs Hn]. split; [done|].
  intros o Ho. apply Hs, elem_of_app. by left.
Qed.

Lemma device_honest_world owed t : device_honest owed t → device_honest owed (idle t.(world)).
Proof. intros []. by split. Qed.

Lemma device_step_honest w w' :
  device_step w w' → device_honest [] (idle w) → device_honest [] (idle w').
Proof.
  intros [SU turns Halone|d Hc] Hw.
  - by apply device_honest_world, process_run_honest.
  - destruct Hw as [Hs Hd Ho Hcomp]. split; [by eapply durable_below_crash| |done|done].
    intros s Hs'. apply Hd. by eapply may_load_crash.
Qed.

Lemma new_device_honest w : new_device w → device_honest [] (idle w).
Proof.
  intros Hnew. pose proof (inv_sound _ (new_device_inv _ Hnew)) as Hs.
  destruct Hnew as (Hh & Hd & Ho). split; [done| | |].
  - intros s (d & Hf & Hx). exfalso. cbn in Hf. rewrite Hd in Hf. unfold load in Hx.
    unfold load_latest_with_sequence in Hx. cbn in Hx.
    rewrite (proj2 (latest_sequence_None agent_checkpoints (visible d))) in Hx; [done|].
    intros n [He Hn]. destruct (Hf n Hn) as [Hn'|Hn']; rewrite Hn' in He; unfold ckpt in He; cbn in He;
      rewrite lookup_empty in He; by destruct He.
  - cbn. by rewrite Ho.
  - unfold past. cbn. by rewrite Hh.
Qed.

Lemma device_run_honest w0 w :
  new_device w0 → rtc device_step w0 w → device_honest [] (idle w).
Proof.
  intros Hnew%new_device_honest Hrun. induction Hrun as [w|w1 w2 w3 Hstep _ IH]; [done|].
  by apply IH, (device_step_honest w1).
Qed.

Lemma reported_In h o outcome : reported h o outcome → o ∈ completed_operations h.
Proof.
  intros (c & Hc & <-). unfold completed_operations. apply list_elem_of_fmap. by exists (c, outcome).
Qed.

Lemma reported_unique h o x y :
  NoDup (completed_operations h) → reported h o x → reported h o y → x = y.
Proof.
  unfold completed_operations. intros Hn (c & Hc & <-) (c' & Hc' & Hop).
  apply list_elem_of_lookup_1 in Hc as (i & Hi), Hc' as (j & Hj).
  assert (i = j) as ->; [|congruence].
  eapply NoDup_lookup; [exact Hn|by rewrite list_lookup_fmap, Hi|].
  rewrite list_lookup_fmap, Hj. cbn. by rewrite Hop.
Qed.

(** C3: The Agent reports only what happened. Whatever the processes of a device went
    through, every terminal evidence that a later start may load from a checkpoint, every
    evidence in a reconciliation report that was sent and every result that was sent is
    honest: it is about an operation that was handed to a worker and says what this worker
    reported, never more than a receipt or a result proves, or it is the hand-off's refusal.
    And if a generation that is over does not come back, then an operation has at most one
    outcome, and none if it was refused. *)
Theorem agent_reports_what_happened w0 w :
  new_device w0 → rtc device_step w0 w →
  (∀ s, may_load agent_checkpoints w.(disk) (Ok s) →
     Forall (evidence_honest w.(history)) s.(Persistence.terminal_evidence)) ∧
  Forall (message_honest w.(history)) w.(outbox) ∧
  (regular w.(history).(sessions) → ∀ o x, reported w.(history) o x →
     o ∈ w.(history).(spawned).*1 ∧ (o ∉ w.(history).(refused)) ∧
     ∀ y, reported w.(history) o y → y = x).
Proof.
  intros Hnew Hrun. destruct (device_run_honest _ _ Hnew Hrun) as [_ Hd Ho Hc].
  rewrite app_nil_r in Hc. split_and!; [exact Hd|exact Ho|]. intros Hr o x Hx.
  destruct (device_accepted _ _ Hnew Hrun Hr) as [_ Hn].
  apply NoDup_app in Hn as (Hn & Hdisj & _).
  assert (o ∈ w.(history).(spawned).*1) as Hin
    by (eapply elem_of_submseteq; [by eapply reported_In|exact Hc]).
  split_and!; [done|by apply Hdisj|]. intros y Hy. eapply reported_unique; [|done|done].
  apply submseteq_Permutation in Hc as (k & Hp). unfold past in Hp. cbn in Hp. rewrite Hp in Hn.
  by apply NoDup_app in Hn as [? _].
Qed.
End Device.

(** ** Failing closed *)

Section Closed.
Context `{ED : Ed25519} `{TS : RotationSerializer} `{HI : HashIter} `{SU : !AgentSetup}
  `{CJ : CheckpointJson AgentPersistentState} `{WJ : WireJson} `{GS : GrantSerializer}
  `{SHA : Sha256} `{CJL : !CheckpointJsonLaws AgentPersistentState}.
Hypothesis alone : single_writer.

(** A process that knows, with the history [h] *)
Definition sealed (h : History) (t : Task) : Prop :=
  flagged t ∧ closed t.(world).(disk) ∧ past t = h.

Definition stays_sealed (h : History) (t t' : Task) : Prop := sealed h t → sealed h t'.
#[local] Instance stays_sealed_preorder h : PreOrder (stays_sealed h) := keeps_preorder (sealed h).

Lemma sealed_quiet {X} h (m : A X) : along quiet_step m → along (stays_sealed h) m.
Proof.
  intros Hm t (Hf & Hc & Hp). destruct (Hm t) as [Ha Hd Hh _ _ _ _]. unfold sealed, flagged, past in *.
  by rewrite Ha, Hd, Hh.
Qed.

Lemma sealed_persist h t : sealed h t → sealed h (persist_state t).1.
Proof.
  intros (Hf & Hc & Hp). pose proof (persist_closed alone t Hc Hf) as Hc'.
  destruct Hc as [Hs _]. destruct (persist_spec t alone Hs) as [Ha Hh _ _ _ _ _].
  unfold sealed, flagged, past in *. by rewrite Ha, Hh.
Qed.

#[local] Hint Extern 2 (along (stays_sealed _) _) => apply sealed_quiet; solve [auto with along] : along.

Lemma session_sealed h i : along (stays_sealed h) (run_authenticated_session i).
Proof.
  unfold run_authenticated_session. apply along_bind; [typeclasses eauto|auto with along|].
  intros ctx t Ht. unfold enter_session, the_agent, gets, mbind, A_bind. cbn.
  destruct Ht as (Hf & Hc & Hp). rewrite Hf. by split_and!.
Qed.

Lemma lifecycle_sealed h turns :
  ∀ failures, along (stays_sealed h) (run_connected_lifecycle failures turns).
Proof.
  induction turns as [|t turns IH]; intros failures; cbn [run_connected_lifecycle]; walk;
    unfold connect_and_run; walk; [apply session_sealed|apply IH..].
Qed.

Lemma run_sealed h turns : along (stays_sealed h) (run turns).
Proof. unfold run. walk; apply lifecycle_sealed. Qed.

Lemma restored_closed s a :
  restored_service (Ok s) = Ok a →
  a.(managed_job_fail_closed) = s.(Persistence.managed_job_fail_closed).
Proof.
  unfold restored_service. destruct (restore_with_runtime_safety s) as [r|] eqn:Hr; [|done].
  destruct (negb _); [done|]. destruct (reconcile_trusted_hub _); [|done]. intros [= <-]. cbn.
  unfold restore_with_runtime_safety in Hr.
  destruct (validate_state_schema _); [|done]. destruct (_ || _); [done|].
  destruct (vk_from_bytes _); [|done]. destruct (Grants.from_persisted_snapshot _); [|done].
  destruct (AgentGate.restore_gate _); [|done]. by injection Hr as <-.
Qed.

Definition closed_with (h : History) (t : Task) : Prop := closed t.(world).(disk) ∧ past t = h.

Lemma build_sealed h : triple (closed_with h) build (λ _, sealed h) (closed_with h).
Proof.
  unfold build. apply triple_lift; [|done]. intros ? _.
  eapply triple_bind with (Q := λ _, closed_with h);
    [destruct (env_executors env); by intros t Ht|]. intros ?.
  unfold load_checkpoint. eapply triple_bind with
    (Q := λ x t, closed_with h t ∧ ∀ a, restored_service x = Ok a → a.(managed_job_fail_closed) = true).
  { intros t [Hc Hp]. unfold gets, mbind, A_bind. destruct (quiet_effect t) as [_ Hd Hh _ _ _ _].
    destruct (effect t) as [t1 [n|e]]; cbn in *; unfold closed_with, past in *; rewrite Hd, Hh; [|done].
    split; [done|]. intros a.
    pose proof (load_may_load agent_checkpoints (disk (world t)) (env_io env n) _ eq_refl) as Hl.
    destruct (load_latest_with_sequence _ _ _) as [[k s]|e].
    - intros ->%restored_closed. destruct Hc as [_ Hc]. by destruct (Hc _ Hl) as (s' & [= ->] & Hs).
    - destruct e; try done. destruct Hc as [_ Hc]. by destruct (Hc _ Hl) as (s' & ? & _). }
  intros loaded. apply triple_lift; [|by intros t [Ht _]]. intros a Ha.
  apply triple_lift; [|by intros t [Ht _]]. intros store _.
  eapply triple_bind with (Q := λ _ t, closed_with h t ∧ a.(managed_job_fail_closed) = true).
  { destruct (env_staging env); intros t [Ht He]; [done|]. split; [done|]. by apply He. }
  intros ?. eapply triple_bind with (Q := λ _, sealed h).
  { intros t [[Hc Hp] He]. by split_and!. }
  intros ? t Ht. pose proof (sealed_persist h t Ht) as Hs.
  destruct (persist_state t) as [t' [[]|e]]; [done|]. by destruct Hs as (_ & ? & ?).
Qed.

Lemma process_closed turns t :
  closed t.(world).(disk) →
  closed (process turns t).1.(world).(disk) ∧ past (process turns t).1 = past t.
Proof.
  intros Hc. unfold process, mbind, A_bind.
  pose proof (build_sealed (past t) t (conj Hc eq_refl)) as Hb.
  destruct (build t) as [t1 [[]|e]]; cbn in *; [|done].
  by destruct (run_sealed (past t) turns t1 Hb) as (_ & ? & ?).
Qed.

(** What [build] leaves of a sound state directory *)
Lemma build_error t e t' :
  sound_disk t → build t = (t', Err (Raised e)) →
  env.(env_executors) ≠ Some e → env.(env_staging) ≠ Some e →
  e ≠ AgentServiceError.ManagedJobFailClosed.
Proof.
  intros Hs. unfold build, load_checkpoint, effect, lift, mbind, A_bind, gets.
  destruct (validate_agent_config config) as [[]|e0] eqn:Hcfg; cbn.
  2: { intros [= _ <-] _ _. unfold validate_agent_config, validate_cua in Hcfg. run Hcfg; done. }
  destruct (env_executors env) as [e0|]; [intros [= _ <-] Hne ?; by destruct Hne|]. cbn.
  destruct (env_alive env _); [|done]. cbn.
  destruct (restored_service _) as [a|e0] eqn:Hr; cbn.
  2: { intros [= _ <-] _ _. unfold restored_service, reconcile_trusted_hub in Hr. run Hr; done. }
  destruct new_ephemeral_store as [store|e0] eqn:Hst; cbn.
  2: { intros [= _ <-] _ _. unfold new_ephemeral_store in Hst. run Hst; done. }
  destruct (env_staging env) as [e0|]; [intros [= _ <-] Hne ?; by destruct Hne|]. cbn.
  intros Hrun _ _. match type of Hrun with persist_state ?x = _ =>
    destruct (persist_ends x _ (f_equal snd Hrun)) as [y ->] end. done.
Qed.

Lemma build_guarded t t' :
  sound_disk t → build t = (t', Ok tt) → guarded t'.
Proof.
  intros Hs. unfold build, load_checkpoint, effect, lift, mbind, A_bind, gets.
  destruct (validate_agent_config config) as [[]|e0]; [|done].
  destruct (env_executors env); [done|]. cbn. destruct (env_alive env _); [|done]. cbn.
  destruct (restored_service _) as [a|e0]; [|done]. destruct new_ephemeral_store as [store|e0]; [|done].
  destruct (env_staging env); [done|]. cbn. intros Hrun.
  match type of Hrun with persist_state ?x = _ =>
    pose proof (persist_closes alone x Hs) as Hc; destruct (persist_spec x alone Hs) as [Ha _ _ _ Hs' _ _]
  end. rewrite Hrun in *. cbn in *. split; [done|]. unfold flagged in *. rewrite Ha. auto.
Qed.

(** C13: An Agent that cannot prove that its managed jobs ended fails closed durably. When the
    poll of a session finds a job whose end is unknown, or the cleanup after a session could
    not terminate the jobs, then the session ends with an error; and whenever a process ends
    with [ManagedJobFailClosed], from its start and through any sessions, messages, deaths of
    connections and faults of the file system, every checkpoint that a later start may load
    says so. Two things are assumed: the cleanup task does not panic (a panic raises the
    same error and stores nothing), and the code that sets up executors and staging
    directories does not raise this error itself. *)
Theorem unproven_jobs_fail_closed t :
  sound_disk t → (∀ n, env.(env_jobs_shut_down) n ≠ None) →
  env.(env_executors) ≠ Some AgentServiceError.ManagedJobFailClosed →
  env.(env_staging) ≠ Some AgentServiceError.ManagedJobFailClosed →
  (∀ turns t', process turns t = (t', Err (Raised AgentServiceError.ManagedJobFailClosed)) →
     closed t'.(world).(disk))
  ∧ (env.(env_jobs_indeterminate) t.(world).(tick) = Ok true →
     is_ok (handle_safety_poll t).2 = false)
  ∧ ∀ r jobs tests, env.(env_jobs_shut_down) t.(world).(tick) = Some (jobs, tests) →
      jobs && tests = false → is_ok (end_session r t).2 = false.
Proof.
  intros Hs Hshut Hex Hst. split_and!.
  - intros turns t'. unfold process, mbind, A_bind. destruct (build t) as [t1 [[]|[|e]]] eqn:Hb; [|done|].
    + pose proof (guards_run alone Hshut turns t1 (build_guarded _ _ Hs Hb)) as Hrun.
      intros Heq. rewrite Heq in Hrun. by destruct Hrun as (_ & [_ Hc] & _).
    + intros [= -> ->]. by destruct (build_error _ _ _ Hs Hb Hex Hst).
  - intros Hjobs. unfold handle_safety_poll, effect, lift, mbind, A_bind.
    destruct (env_alive env _); [|done]. rewrite Hjobs. cbn.
    assert (∀ t0, is_ok (fail_closed (X := option SessionExit) t0).2 = false) as Hf.
    { intros t0. unfold fail_closed, mbind, A_bind. cbn. by destruct (persist_state _) as [? [|]]. }
    destruct playwright; [destruct (env_tests_indeterminate env _); [|done]|]; apply Hf.
  - intros r jobs tests Hj Hjt. unfold end_session, effect, mbind, A_bind.
    destruct (env_alive env _); [|done]. rewrite Hj.
    replace (negb jobs || negb tests) with true by by destruct jobs, tests.
    unfold fail_closed, mbind, A_bind. cbn. by destruct (persist_state _) as [? [|]].
Qed.
End Closed.

Section ClosedDevice.
Context `{ED : Ed25519} `{TS : RotationSerializer} `{HI : HashIter}
  `{CJ : CheckpointJson AgentPersistentState} `{WJ : WireJson} `{GS : GrantSerializer}
  `{SHA : Sha256} `{CJL : !CheckpointJsonLaws AgentPersistentState}.

(** C12: An Agent that has failed closed stays closed. Once every checkpoint that may be loaded
    says so, no process of the device, over any number of starts, deaths and power
    failures, enters a session or hands an operation to a worker again. *)
Theorem closed_agent_stays_closed w w' :
  closed w.(disk) → rtc device_step w w' → closed w'.(disk) ∧ w'.(history) = w.(history).
Proof.
  intros Hc Hrun. induction Hrun as [w|w1 w2 w3 Hstep _ IH]; [done|].
  assert (closed w2.(disk) ∧ w2.(history) = w1.(history)) as [Hc2 Hh].
  { destruct Hstep as [SU turns Halone|d Hcrash]; [exact (process_closed Halone turns (idle w1) Hc)|].
    split; [|done]. split; [by eapply durable_below_crash|]. intros x Hx.
    destruct Hc as [_ Hc]. apply Hc. by eapply may_load_crash. }
  destruct (IH Hc2) as [Hc3 Hh3]. split; [exact Hc3|]. by rewrite Hh3.
Qed.
End ClosedDevice.
