(* ===== verification/EndToEnd.v ===== *)
(** * From the Hubs to the device

    The Hubs ([src/src/v2_m1_hub.rs]) and the Agent ([src/src/v2_m1_agent.rs]) together: what
    the Agent executes are dispatches that a Hub has made durable, each executed at most
    once, over failures of Hubs, Agents, stores and connections. *)

From S2P Require Import Prelude Vocabulary Protocol Crypto Tombstone Admission Registry Grants.
From S2P Require Import SafetyTypes Recovery EphemeralRefs Evidence Transport Controller.
From S2P Require Import ControllerSnapshot ControllerCalls ControllerTheorems Trust Persistence.
From S2P Require Import StateStore StateStoreTheorems Hub HubSession HubService HubDispatch HubSteps.
From S2P Require Import HubHandlers HubSystem HubInvariant HubRuns HubTheorems.
From S2P Require Import Agent AgentSession AgentQuiet AgentOnce AgentAuthority AgentTheorems.
Import ControllerSnapshot Persistence StateStore.

Section EndToEnd.
Context `{ED : Ed25519} {S Io : Type} `{ST : HubAuthoritativeStateStore S Io}
  `{HI : HashIter} `{B64 : Base64Url} `{B64L : !Base64UrlLaws} `{RS : RecoverySerializer}
  `{CJ : CheckpointJson HubPersistentState} `{SL : !StoreLaws S Io} `{RT : RotationSerializer}
  `{WJ : WireJson} `{SHA : Sha256} `{P : P256} `{WAJ : WebAuthnJson}.
Context `{EDL : !Ed25519Laws} `{GS : GrantSerializer} `{CA : CheckpointJson AgentPersistentState}
  `{CAL : !CheckpointJsonLaws AgentPersistentState}.
Implicit Types (σ : Sys (S := S) (Io := Io)) (w : Agent.World).

(** What signatures and nonces are for: the device entered a session for different
    acceptances of the Hubs, and was given no command that they have not sent. (Generation
    counters stop at their last value, which is not reached.) *)
Record delivered σ w : Prop := {
  delivered_sessions : w.(Agent.history).(Agent.sessions) ⊆+ accepted_generations σ;
  delivered_below : Forall (λ g, g < u64_max)%N w.(Agent.history).(Agent.sessions);
  delivered_commands o m :
    (o, m) ∈ w.(Agent.history).(Agent.spawned) → HubToAgent.Command m ∈ σ.(sys_sent)
}.

(** The operation of a command *)
Definition fits (x : OperationRef * RemoteCommand) : Prop :=
  x.1.(OperationRef.device_id) = x.2.(RemoteCommand.command).(CommandEnvelope.device_id) ∧
  x.1.(OperationRef.device_generation)
  = x.2.(RemoteCommand.command).(CommandEnvelope.device_generation) ∧
  x.1.(OperationRef.operation_id) = x.2.(RemoteCommand.command).(CommandEnvelope.operation_id).

Lemma fits_inj x y : fits x → fits y → x.2 = y.2 → x.1 = y.1.
Proof.
  destruct x as [[d g i] m], y as [[d' g' i'] m']. intros (H1 & H2 & H3) (H4 & H5 & H6) Heq.
  cbn in *. congruence.
Qed.

Lemma authorized_fits {SU : Agent.AgentSetup} x : authorized x → fits x.
Proof.
  intros (ctx & a & _ & Hop & [_ Hval _] & _). unfold fits. rewrite Hop. cbn.
  unfold validate_command_session in Hval. run Hval. split_bools. by split_and!.
Qed.

Lemma device_fits w0 w :
  new_device w0 → rtc device_step w0 w → Forall fits w.(Agent.history).(Agent.spawned).
Proof.
  intros (Hh & _) Hrun. assert (Forall fits w0.(Agent.history).(Agent.spawned)) as H0 by by rewrite Hh.
  clear Hh. induction Hrun as [w|w1 w2 w3 Hstep _ IH]; [done|]. apply IH.
  destruct Hstep as [SU turns _|d _]; [|exact H0].
  destruct (process_authorized turns (idle w1)) as (l & Hl & Ha). unfold past in Hl.
  change (Agent.mk_task w1 Agent.new_session) with (idle w1). rewrite Hl.
  apply Forall_app. split; [|exact H0]. eapply Forall_impl; [exact Ha|]. apply authorized_fits.
Qed.

Lemma delivered_regular σ w :
  reachable σ → delivered σ w → regular w.(Agent.history).(Agent.sessions).
Proof.
  intros Hr [Hs Hb _]. apply NoDup_regular. pose proof (accepted_fresh _ Hr) as Hn.
  apply submseteq_Permutation in Hs as (k & Hp). rewrite Hp, filter_app in Hn.
  apply NoDup_app in Hn as [Hn _]. revert Hn. clear Hp. induction Hb as [|g l Hg _ IH]; [done|].
  rewrite filter_cons_True by done. intros [Hg' Hn]%NoDup_cons. constructor; [|by apply IH].
  intros Hin. apply Hg', list_elem_of_filter. by split.
Qed.

(** The commands that were executed are among those that were sent, each counted. *)
Lemma executed_sent σ w :
  NoDup w.(Agent.history).(Agent.spawned).*1 → Forall fits w.(Agent.history).(Agent.spawned) →
  delivered σ w →
  OperationRef.operation_id <$> w.(Agent.history).(Agent.spawned).*1 ⊆+ sent_commands σ.
Proof.
  intros Hn Hf [_ _ Hc]. set (l := w.(Agent.history).(Agent.spawned)) in *.
  assert (NoDup (HubToAgent.Command <$> l.*2)) as Hn2.
  { apply NoDup_fmap_2; [by intros ? ? [=]|]. clear Hc. revert Hn Hf. clearbody l.
    induction l as [|x l IH]; [constructor|]. cbn. intros [Hx Hn]%NoDup_cons [Hfx Hf]%Forall_cons.
    constructor; [|by apply IH]. intros ([o m] & Heq & Hin)%list_elem_of_fmap. apply Hx.
    apply list_elem_of_fmap. exists (o, m). split; [|done]. apply fits_inj; [done| |done].
    by apply (proj1 (Forall_forall _ _) Hf). }
  assert (HubToAgent.Command <$> l.*2 ⊆+ σ.(sys_sent)) as Hsub.
  { apply NoDup_submseteq; [done|]. intros x (m & -> & Hm)%list_elem_of_fmap.
    apply list_elem_of_fmap in Hm as ([o m'] & -> & Hin). by eapply Hc. }
  assert (OperationRef.operation_id <$> l.*1 = omap sent_command (HubToAgent.Command <$> l.*2)) as ->.
  { clear -Hf. induction Hf as [|x l (_ & _ & Hid) _ IH]; [done|]. cbn. by rewrite Hid, IH. }
  unfold sent_commands. apply submseteq_Permutation in Hsub as (k & ->). rewrite omap_app.
  by apply submseteq_inserts_r.
Qed.

(** C1: Everything the device executes is a dispatch that the Hubs have made durable, executed at
    most once. Whatever run of the Hubs led to a state, and whatever the code of a Hub does
    next, an operation is executed at most once per generation, and every execution on the
    device has a step of its own in that run, in which a Hub took the operation from not
    dispatched to dispatched and the store durably recorded it; what the store holds, now
    or after a crash, is never older than these records. (So if the store may turn out to
    be empty, nothing was executed.) *)
Theorem executions_are_durable_dispatches l σ σ' w0 w :
  run l σ → continues σ σ' → new_device w0 → rtc device_step w0 w → delivered σ' w →
  NoDup w.(Agent.history).(Agent.spawned).*1
  ∧ ∃ l' ds, run (l' ++ l) σ' ∧ dispatches (l' ++ l) ds
      ∧ OperationRef.operation_id <$> w.(Agent.history).(Agent.spawned).*1 ⊆+ ds.*1
      ∧ Forall (λ x, at_least x.2.(revision) σ'.(sys_store)) ds.
Proof.
  intros Hl Hc%continues_steps Hnew Hrun Hd. destruct (run_steps _ _ _ Hl Hc) as [l' Hl'].
  destruct (device_accepted w0 w Hnew Hrun (delivered_regular _ _ (run_reachable _ _ Hl') Hd)) as [_ Hn].
  apply NoDup_app in Hn as [Hn _]. split; [exact Hn|].
  destruct (accounted_commands _ _ (run_accounted _ _ Hl')) as (ds & Hds & Hsub & Hrev).
  exists l', ds. split_and!; [done..| |done]. etransitivity; [|exact Hsub].
  exact (executed_sent σ' w Hn (device_fits _ _ Hnew Hrun) Hd).
Qed.
End EndToEnd.
