(* ===== verification/AgentExamples.v ===== *)
(** * Runs of the Agent with the Hub

    A Hub starts on an empty store and accepts the Agent of a device, which executes the
    command of a client; the Agent's process dies, and the next one is given the same
    messages again. The messages of the run are those that the Hub sends. *)

From S2P Require Import Prelude Vocabulary Protocol Crypto Tombstone Admission Registry Grants.
From S2P Require Import SafetyTypes Recovery EphemeralRefs Evidence Transport Controller.
From S2P Require Import ControllerSnapshot ControllerCalls ControllerTheorems ControllerDevice Trust.
From S2P Require Import Persistence StateStore StateStoreTheorems Hub HubSession HubService.
From S2P Require Import HubDispatch HubSteps HubHandlers HubSystem HubInvariant HubRuns HubTheorems HubExamples.
From S2P Require Import SessionRuntime AgentGate AgentErrors AgentWorker Agent AgentSession.
From S2P Require Import AgentLogic AgentQuiet AgentOnce AgentHonest AgentDurable AgentAuthority.
From S2P Require Import AgentClosed AgentTheorems EndToEnd.

Module AgentExamples.
Import ToyCrypto ControllerExamples StateStore Agent.
#[local] Existing Instances ReplayDenyTombstone.Examples.hex_engine
  ReplayDenyTombstone.Examples.hex_engine_laws HubExamples.brace_json HubExamples.toy_sha256
  HubExamples.no_p256 HubExamples.no_webauthn HubExamples.no_rotations HubExamples.short_checkpoints
  Grants.Examples.serializer.
#[export] Instance ConsumedGrantSnapshot_eq_dec : EqDecision Grants.ConsumedGrantSnapshot.
Proof. solve_decision. Defined.
#[export] Instance GrantLedgerSnapshot_eq_dec : EqDecision Grants.GrantLedgerSnapshot.
Proof. solve_decision. Defined.
#[export] Instance AgentExecutionSnapshot_eq_dec : EqDecision AgentGate.AgentExecutionSnapshot.
Proof. solve_decision. Defined.
#[export] Instance AgentPersistentState_eq_dec : EqDecision Persistence.AgentPersistentState.
Proof. solve_decision. Defined.

(** ** The device *)

Definition no_answers : AgentWorker.Answers := {|
  AgentWorker.unix_time := Some 1000%N;
  AgentWorker.lock_poisoned := false;
  AgentWorker.file_io _ := AgentData.no_faults;
  AgentWorker.random _ := [];
  AgentWorker.joins := true;
  AgentWorker.execute _ := Some (Ok (ProcessOutput.mk (Some 0%Z) "hi" "" false false false false 1));
  AgentWorker.execute_captured _ := None;
  AgentWorker.shell_execute _ := None;
  AgentWorker.shell_execute_captured _ := None;
  AgentWorker.job_start _ := None;
  AgentWorker.job_status _ := None;
  AgentWorker.job_output _ _ _ _ := None;
  AgentWorker.job_renew _ _ := None;
  AgentWorker.job_stop _ := None;
  AgentWorker.test_start _ := None;
  AgentWorker.test_status _ := None;
  AgentWorker.test_output _ _ _ _ := None;
  AgentWorker.test_stop _ := None;
  AgentWorker.stage_upload _ _ _ _ _ _ := None;
  AgentWorker.read_file_range _ _ _ := None;
  AgentWorker.list_directory_page _ _ := None;
  AgentWorker.decode_payload _ := None;
  AgentWorker.sha256_hex _ := "";
  AgentWorker.write_file _ _ _ := None;
  AgentWorker.backend_execute _ := Err M1BackendError.Backend;
  AgentWorker.backend_upload _ _ := Err M1BackendError.Backend;
  AgentWorker.backend_download _ _ := Err M1BackendError.Backend;
  AgentWorker.recover_execution_receipt _ := Ok None;
  AgentWorker.resolve_upload _ _ _ _ := Err BrowserUploadStagingError.UnknownHandle;
  AgentWorker.consume_handles _ _ _ _ := Ok tt;
  AgentWorker.prepare_download _ _ _ _ _ _ := Err BrowserDownloadStagingError.UnknownOperation;
  AgentWorker.finalize_download _ _ _ _ _ _ := Err BrowserDownloadStagingError.UnknownOperation
|}.

Definition grant_key : SigningKey := key_of_byte 9.

Definition device_config : AgentServiceConfig :=
  mk_config "https://hub" "hub" HubExamples.dev ["/"] ["/"] [] [] None 1000000000
    (Runtime.mk_policy 1000000 1000000 3) None.

(** Every effect takes a tenth of a second; [lost] says that a job got out of control. *)
Definition device_env (lost : bool) : AgentEnv := {|
  env_alive _ := true;
  env_io _ := Persistence.no_faults;
  env_instant n := (N.of_nat n * 100000000)%N;
  env_outbound_open _ := true;
  env_encodes _ := true;
  env_recovery_fails _ := false;
  env_final_admit _ _ _ _ := None;
  env_verification_reported _ _ _ _ _ := false;
  env_handle_remote _ _ _ := RemoteHandoffResponseKind.Rejected RemoteHandoffErrorCode.Unsupported;
  env_upload_cleanup _ _ := Ok tt;
  env_download_cleanup _ _ := Ok tt;
  env_end_interaction_session _ _ := Ok tt;
  env_jobs_indeterminate _ := Ok lost;
  env_tests_indeterminate _ := Ok false;
  env_jobs_shut_down _ := Some (true, true);
  env_termination_timeout _ := false;
  env_backend_connects _ := Ok tt;
  env_backend_shuts_down _ := Ok tt;
  env_answers _ := no_answers;
  env_executors := None;
  env_staging := None
|}.

Definition setup (lost : bool) : AgentSetup := {|
  env := device_env lost;
  config := device_config;
  material := mk_material HubExamples.device_key (sk_verifying_key HubExamples.hub_key)
                (sk_verifying_key grant_key) [] None;
  backend := None;
  handoff := false;
  playwright := false;
  package_version := "1";
  platform := "linux"
|}.

Definition living : AgentSetup := setup false.

(** ** The Hub *)

Definition nonce : list N := [1; 2]%N.
Definition device_hello : AgentHello :=
  Transport.new_hello HubExamples.dev (capabilities (SU := living)) nonce.

Definition granting : Hub.HubEnv (Io := bool) := {|
  Hub.env_unix_time_ms n := Some (1000 + N.of_nat n)%N;
  Hub.env_session_clock n := (1000 + N.of_nat n)%N;
  Hub.env_io _ := false;
  Hub.env_sign_grant k d cap at_ms ttl :=
    match Grants.issue_for_device_capability (Grants.mk_authority grant_key) d cap at_ms ttl
            [N.of_nat k] with
    | Ok token => Some token
    | Err _ => None
    end;
  Hub.env_random _ := [replicate 32 9%N];
  Hub.env_outbound_open _ := true;
  Hub.env_encodes _ := true
|}.

Definition no_requests : Sys (S := StateStore.MemoryHubStateStore) (Io := bool) :=
  let r := HubService.new_with_state_store granting HubExamples.small HubExamples.provisioned (Ok None)
             HubExamples.empty_store in
  mk_sys (started r.2) r.1 [] [].

Definition process_request : ProcessRequest := ProcessRequest.mk "/bin/echo" ["hi"] "/" [] 1000.
Definition hub_task : Hub.Task (S := StateStore.MemoryHubStateStore) :=
  Hub.mk_task (Hub.mk_world (HubExamples.hub_at no_requests 0).2 no_requests.(sys_store) [] [] 0)
    Hub.new_session.
Definition hub_run :=
  HubSession.run_session (SU := (HubExamples.hub_at no_requests 0).1)
    (Ok (AgentToHub.Hello device_hello)) (Ok (AgentToHub.Proof HubExamples.proof))
    [HubSession.Request (Hub.Execute "op_1" alice (DeviceCommand.ExecuteProcess process_request)
       empty_metadata None 1)] hub_task.
Definition hubs_after : Sys :=
  after_task no_requests 0 (HubExamples.hub_at no_requests 0).1 hub_run.1.

(** ** The run *)

Definition sent (n : nat) : AgentSession.inbound := Ok (Some (hubs_after.(sys_sent) !! n)).
Definition command : AgentSession.Event := AgentSession.Inbound (sent 2).
Definition shutdown : AgentSession.Event := AgentSession.ShutdownChanged true.
Definition connected (events : list AgentSession.Event) : list AgentSession.Turn :=
  [AgentSession.mk_turn false
     (Some (AgentSession.mk_inputs nonce None (sent 0) (sent 1) events)) false].

Definition blank : AgentService :=
  mk_service (Trust.new_trusted (sk_verifying_key HubExamples.hub_key))
    (Grants.new_ledger (sk_verifying_key grant_key)) AgentGate.default_gate [] [] false None.
Definition new_world : World :=
  mk_world blank (Persistence.mk_disk ∅ ∅) (mk_files None None None) [] no_history [] 0.
Definition boot (w : World) : Task := mk_task w new_session.

(** The states that the run stores, computed with a store that forgets them *)
Definition forgetful : Persistence.CheckpointJson Persistence.AgentPersistentState :=
  {| Persistence.checkpoint_to_vec _ := Some []; Persistence.checkpoint_from_slice _ := None |}.
Definition service_after (events : list AgentSession.Event) : AgentService :=
  (AgentSession.process (SU := living) (CJ := forgetful) (connected events) (boot new_world))
    .1.(world).(agent).
Definition stored_states : list Persistence.AgentPersistentState :=
  Eval vm_compute in
  omap (λ a, match capture (SU := living) a with Ok s => Some s | Err _ => None end)
    [blank; service_after []; set_grants (service_after []) (service_after [command]).(grants);
     service_after [command]; service_after [command; AgentSession.OperationDone];
     set_fail_closed (service_after [])].

(** Checkpoints as their position among these states *)
#[local] Instance indexed : Persistence.CheckpointJson Persistence.AgentPersistentState :=
  {| Persistence.checkpoint_to_vec s :=
       (λ x, [N.of_nat x.1]) <$> list_find (s =.) stored_states;
     Persistence.checkpoint_from_slice b :=
       match b with [n] => stored_states !! N.to_nat n | _ => None end |}.
#[local] Instance indexed_laws :
  Persistence.CheckpointJsonLaws Persistence.AgentPersistentState.
Proof.
  split. intros v b Hb. change ((λ x, [N.of_nat x.1]) <$> list_find (v =.) stored_states = Some b) in Hb.
  apply fmap_Some in Hb as ([n v'] & Hn & ->). apply list_find_Some in Hn as (Hn & <- & _).
  change (stored_states !! N.to_nat (N.of_nat n) = Some v). by rewrite Nat2N.id.
Qed.

(** *** The Agent executes the command; its process dies, and the next one starts on what it
    left and receives the same command again. *)

Definition life (events : list AgentSession.Event) (w : World) : Task :=
  (AgentSession.process (SU := living) (connected events) (boot w)).1.
Definition first_life : World := (life [command; AgentSession.OperationDone] new_world).(world).
Definition second_life : World := (life [command; shutdown] first_life).(world).

Lemma living_alone lost : single_writer (SU := setup lost).
Proof. by intros n m. Qed.
Lemma new_world_new : new_device new_world.
Proof. by split_and!. Qed.
Lemma life_step events w : device_step w (life events w).(world).
Proof. apply (device_process w living), living_alone. Qed.
#[local] Opaque life.
Lemma first_life_run : rtc device_step new_world first_life.
Proof. eapply rtc_once, life_step. Qed.
Lemma second_life_run : rtc device_step new_world second_life.
Proof. eapply rtc_r; [exact first_life_run|apply life_step]. Qed.

Lemma second_life_sessions : second_life.(history).(sessions) = [1%N; 1%N].
Proof. vm_compute. reflexivity. Qed.
Lemma second_life_regular : regular second_life.(history).(sessions).
Proof. rewrite second_life_sessions. split; [done|]. split; [by intros ?%elem_of_nil|done]. Qed.
Definition op_1 : OperationRef := OperationRef.mk HubExamples.dev 1 "op_1".
Lemma second_life_spawned : second_life.(history).(spawned).*1 = [op_1].
Proof. vm_compute. reflexivity. Qed.

Lemma agent_executes_at_most_once_witness :
  NoDup (second_life.(history).(spawned).*1 ++ second_life.(history).(refused)) ∧
  second_life.(history).(spawned).*1 = [op_1] ∧
  op_1.(OperationRef.device_generation) ∈ second_life.(history).(sessions).
Proof.
  pose proof (agent_executes_at_most_once new_world second_life new_world_new second_life_run
    second_life_regular) as H. destruct H as [Hn Hs].
  split; [exact Hn|]. split; [exact second_life_spawned|]. apply Hs. rewrite second_life_spawned. by left.
Defined.

Definition executed : AgentOperationOutcome :=
  AgentOperationOutcome.Result (Ok (DeviceResult.Process
    (ProcessOutput.mk (Some 0%Z) "hi" "" false false false false 1) None None)).
Lemma op_1_reported : reported second_life.(history) op_1 executed.
Proof. eexists (BackendExecutionReceiptContext.mk op_1 _ _ _ _ _ _). split; [|done]. vm_compute. by left. Qed.

Lemma agent_reports_what_happened_witness :
  Forall (message_honest second_life.(history)) second_life.(outbox) ∧
  length (omap (λ m, match m with AgentToHub.Result r => Some r | _ => None end) second_life.(outbox)) = 1 ∧
  ∀ y, reported second_life.(history) op_1 y → y = executed.
Proof.
  pose proof (agent_reports_what_happened new_world second_life new_world_new second_life_run) as H.
  destruct H as (_ & Hm & Hr).
  split; [exact Hm|]. split; [vm_compute; reflexivity|].
  apply (Hr second_life_regular op_1 executed op_1_reported).
Defined.

(** *** The result of the command *)

Definition running : Task := life [command] new_world.
Definition session_context : AgentSession.Context_ :=
  match (AgentSession.open_session (SU := living)
           (AgentSession.mk_inputs nonce None (sent 0) (sent 1) []) (boot new_world)).2 with
  | Ok ctx => ctx
  | Err _ => AgentSession.mk_context device_hello (HubChallenge.mk 0 [] [] [] [])
               (DeviceSession.mk "" 0 (capabilities (SU := living))) 0
  end.
Definition finished : Task * result stop (option AgentSession.SessionExit) :=
  AgentSession.handle_event (SU := living) session_context 0 AgentSession.OperationDone running.
Definition answer : list AgentToHub := drop (length running.(world).(outbox)) finished.1.(world).(outbox).
Definition result_of (l : list AgentToHub) : RemoteResult :=
  match l with
  | AgentToHub.Result r :: _ => r
  | _ => RemoteResult.mk 0 (CommandResultEnvelope.mk 0 "" 0 0 "" DeviceResult.TypeTextCompleted) []
  end.

Lemma sound_idle t : sound_disk (idle t.(world)) → sound_disk t.
Proof. exact (λ H, H). Qed.
Lemma life_sound events :
  (life events new_world).(world).(history).(sessions) = [1%N] → sound_disk (life events new_world).
Proof.
  intros Hs. destruct (device_develops _ _ (rtc_once _ _ (life_step events new_world))) as [_ Hd].
  rewrite Hs in Hd. assert (regular [1%N]) as Hr.
  { split; [|exact I]. intros Hin. apply elem_of_nil in Hin. contradiction. }
  pose proof (Hd Hr (new_device_inv _ new_world_new)) as Hv.
  exact (sound_idle _ (inv_sound _ Hv)).
Qed.
Lemma running_sound : sound_disk running.
Proof. apply life_sound. vm_compute. reflexivity. Qed.

Lemma finished_run :
  AgentSession.handle_event (SU := living) session_context 0 AgentSession.OperationDone running
  = (finished.1, finished.2).
Proof. apply surjective_pairing. Qed.
Lemma answer_sent :
  finished.1.(world).(outbox) = running.(world).(outbox) ++ answer
  ∧ AgentToHub.Result (result_of answer) ∈ answer.
Proof. split; [vm_compute; reflexivity|]. vm_compute. by left. Qed.

Lemma results_follow_their_evidence_witness :
  ∃ c, handled_capability running AgentSession.OperationDone = Some c ∧
    durable_result c finished.1 (result_of answer).
Proof.
  exact (results_follow_their_evidence (SU := living) (living_alone false) session_context 0 running
    finished.1 AgentSession.OperationDone finished.2 answer (result_of answer) running_sound
    finished_run (proj1 answer_sent) (proj2 answer_sent)).
Defined.

Lemma first_start :
  (past (AgentSession.process (SU := living) (connected [command]) (boot new_world)).1).(spawned).*1
  = [op_1].
Proof. vm_compute. reflexivity. Qed.

Lemma head_authorized l l' :
  l = l' ++ [] → l.*1 = [op_1] → Forall (authorized (SU := living)) l' →
  ∃ x, x.1 = op_1 ∧ authorized (SU := living) x.
Proof.
  rewrite app_nil_r. intros -> Hl Ha. destruct l' as [|x l']; [done|]. exists x.
  split; [by injection Hl|]. by inversion Ha.
Qed.

Lemma started_operations_are_authorized_witness : ∃ x, x.1 = op_1 ∧ authorized (SU := living) x.
Proof.
  pose proof (started_operations_are_authorized (SU := living) (connected [command]) (boot new_world))
    as H. destruct H as (l & Hl & Ha).
  exact (head_authorized _ l Hl first_start Ha).
Defined.

(** *** A job out of control *)

Definition troubled : AgentSetup := setup true.
Definition connected_device : Task := life [] new_world.
Definition polled : Task * result stop unit :=
  AgentSession.process (SU := troubled) (connected [AgentSession.SafetyPoll]) (boot new_world).

Lemma connected_sound : sound_disk connected_device.
Proof. apply life_sound. vm_compute. reflexivity. Qed.
Lemma new_sound : sound_disk (boot new_world).
Proof. exact (inv_sound _ (new_device_inv _ new_world_new)). Qed.
Lemma polled_error : polled.2 = Err (Raised AgentServiceError.ManagedJobFailClosed).
Proof. vm_compute. reflexivity. Qed.
Lemma polled_fails :
  AgentSession.process (SU := troubled) (connected [AgentSession.SafetyPoll]) (boot new_world)
  = (polled.1, Err (Raised AgentServiceError.ManagedJobFailClosed)).
Proof. rewrite <- polled_error. apply surjective_pairing. Qed.

Lemma unproven_jobs_fail_closed_witness : closed polled.1.(world).(disk).
Proof.
  refine (proj1 (unproven_jobs_fail_closed (SU := troubled) (living_alone true) (boot new_world)
    new_sound _ _ _) _ polled.1 polled_fails); discriminate.
Defined.

(** The flag is stored, and the Agent that starts on it takes no command. *)
Definition close (t : Task) : Task * result stop unit :=
  persist_state (SU := living) (mk_task (mk_world (set_fail_closed t.(world).(agent)) t.(world).(disk)
    t.(world).(files) t.(world).(outbox) t.(world).(history) t.(world).(consulted) t.(world).(tick)) t.(session)).
Lemma close_closed t : sound_disk t → is_ok (close t).2 = true → closed (close t).1.(world).(disk).
Proof. intros Hs Hok. by apply (persist_closes (SU := living) (living_alone false)). Qed.
Definition closing : Task * result stop unit := close connected_device.
Lemma closing_closed : closed closing.1.(world).(disk).
Proof. apply (close_closed connected_device connected_sound). vm_compute. reflexivity. Qed.

Lemma closed_agent_stays_closed_witness :
  closed (life [command] closing.1.(world)).(world).(disk) ∧
  (life [command] closing.1.(world)).(world).(history) = closing.1.(world).(history).
Proof.
  exact (closed_agent_stays_closed _ _ closing_closed (rtc_once _ _ (life_step [command] _))).
Defined.

(** *** The Hub and the device *)

Lemma no_requests_run : run [(initial HubExamples.empty_store, no_requests)] no_requests.
Proof.
  eapply run_step; [apply run_initial, HubExamples.empty_store_fresh|].
  eapply (sys_start (initial HubExamples.empty_store) granting HubExamples.small
            HubExamples.provisioned (Ok None)); [done|]. apply surjective_pairing.
Qed.
Lemma no_requests_hub :
  no_requests.(hubs) !! 0 = Some ((HubExamples.hub_at no_requests 0).1, (HubExamples.hub_at no_requests 0).2).
Proof.
  rewrite (HubExamples.hub_at_lookup no_requests 0);
    [by destruct (HubExamples.hub_at no_requests 0)|]. vm_compute. lia.
Qed.
Lemma hubs_continue : continues no_requests hubs_after.
Proof. refine (a_session no_requests 0 _ _ 0 _ _ _ _ no_requests_hub _). by intros k. Qed.

Lemma first_life_sessions : first_life.(history).(sessions) = [1%N].
Proof. vm_compute. reflexivity. Qed.
Lemma first_life_commands :
  HubToAgent.Command <$> first_life.(history).(spawned).*2 = option_list (hubs_after.(sys_sent) !! 2).
Proof. vm_compute. reflexivity. Qed.
Lemma option_list_elem {A} (l : list A) n x : x ∈ option_list (l !! n) → x ∈ l.
Proof.
  destruct (l !! n) as [y|] eqn:Hy; cbn; [|by intros ?%elem_of_nil].
  intros ->%list_elem_of_singleton. by eapply list_elem_of_lookup_2.
Qed.
Lemma first_life_delivered : delivered hubs_after first_life.
Proof.
  split.
  - rewrite first_life_sessions.
    replace (accepted_generations hubs_after) with [1%N] by (vm_compute; reflexivity). done.
  - rewrite first_life_sessions. by repeat constructor.
  - intros o m Hin. apply (list_elem_of_fmap_2 snd), (list_elem_of_fmap_2 HubToAgent.Command) in Hin.
    rewrite first_life_commands in Hin. exact (option_list_elem _ 2 _ Hin).
Qed.
Lemma first_life_operations :
  OperationRef.operation_id <$> first_life.(history).(spawned).*1 = ["op_1"].
Proof. vm_compute. reflexivity. Qed.

Lemma executions_are_durable_dispatches_witness :
  ∃ l ds, run l hubs_after ∧ dispatches l ds ∧ ["op_1"] ⊆+ ds.*1
          ∧ Forall (λ x, at_least x.2.(revision) hubs_after.(sys_store)) ds.
Proof.
  rewrite <- first_life_operations.
  destruct (executions_are_durable_dispatches _ no_requests hubs_after new_world first_life
    no_requests_run hubs_continue new_world_new first_life_run first_life_delivered)
    as [_ (l' & ds & H1 & H2 & H3 & H4)].
  eexists _, ds. split; [exact H1|]. split; [exact H2|]. split; [exact H3|exact H4].
Defined.
End AgentExamples.
