(* ===== verification/HandoffExamples.v ===== *)
(** * A device with a hand-off

    A runtime that answers every question with the same line, and an Agent whose coordinator
    asks it: the Hub sends a command of the desktop with the authority of its client, the
    runtime allows it and the Agent executes it. *)

From S2P Require Import Prelude Vocabulary Protocol Crypto Tombstone Admission Registry Grants.
From S2P Require Import SafetyTypes Recovery RecoveryTheorems EphemeralRefs Evidence Transport Controller.
From S2P Require Import ControllerSnapshot ControllerCalls ControllerTheorems ControllerDevice Trust.
From S2P Require Import Persistence StateStore StateStoreTheorems Hub HubSession HubService.
From S2P Require Import HubDispatch HubSteps HubHandlers HubSystem HubInvariant HubTheorems HubExamples.
From S2P Require Import SessionRuntime AgentGate AgentErrors AgentWorker Agent AgentSession.
From S2P Require Import HandoffRuntime AgentHandoff HandoffCoordinator.
From S2P Require Import AgentLogic AgentQuiet AgentOnce AgentAuthority HandoffTheorems.
From S2P Require Import AgentTheorems EndToEnd AgentExamples.

Module HandoffExamples.
Import ToyCrypto ControllerExamples StateStore HandoffRuntime AgentHandoff HandoffCoordinator.
#[local] Existing Instances ReplayDenyTombstone.Examples.hex_engine
  ReplayDenyTombstone.Examples.hex_engine_laws HubExamples.brace_json HubExamples.toy_sha256
  HubExamples.no_p256 HubExamples.no_webauthn HubExamples.no_rotations HubExamples.short_checkpoints
  Grants.Examples.serializer AgentExamples.forgetful.

(** ** The runtime: the line ["a"] allows, ["d"] denies. *)

#[local] Instance one_letter : HandoffJson := {|
  json_value := WireResponse;
  request_to_vec _ := Some [];
  value_from_slice b :=
    match b with
    | [97%N] => Some (WireResponse.mk true (Some "allow") None None)
    | [100%N] => Some (WireResponse.mk true (Some "deny") None None)
    | _ => None
    end;
  value_ok r := Some r.(WireResponse.ok);
  value_wire_response r := Some r;
  value_runtime_status _ := None;
  value_terminal_response _ := None;
  value_transport_response _ := None
|}.
Definition says_line (l : list N) (_ : nat) : Exchange := mk_exchange Alive (Some l).
Definition allowing : nat → Exchange := says_line [97; 10]%N.
Definition garbled : nat → Exchange := says_line [0; 10]%N.
Definition running : Runtime := mk_runtime false 0 [].

(** ** The device *)

Definition desktop : CapabilityAdvertisement :=
  CapabilityAdvertisement.mk "cua" "1" "linux" 0 0 [DeviceCapability.ListApplications].

Definition asks (n : nat) (a : RemoteHandoffAuthority) (c : DeviceCommand) (f : Agent.SessionFence)
    : option Agent.AgentAuthorityDecision :=
  match (final_admit allowing a c (for_device f.(Agent.fence_device) f.(Agent.fence_generation)
           f.(Agent.fence_revision)) running).2 with
  | Ok d => Some d
  | Err _ => None
  end.

Definition handoff_env : Agent.AgentEnv := {|
  Agent.env_alive _ := true;
  Agent.env_io _ := Persistence.no_faults;
  Agent.env_instant n := (N.of_nat n * 100000000)%N;
  Agent.env_outbound_open _ := true;
  Agent.env_encodes _ := true;
  Agent.env_recovery_fails _ := false;
  Agent.env_final_admit := asks;
  Agent.env_verification_reported _ _ _ _ _ := false;
  Agent.env_handle_remote _ _ _ :=
    RemoteHandoffResponseKind.Rejected RemoteHandoffErrorCode.Unsupported;
  Agent.env_upload_cleanup _ _ := Ok tt;
  Agent.env_download_cleanup _ _ := Ok tt;
  Agent.env_end_interaction_session _ _ := Ok tt;
  Agent.env_jobs_indeterminate _ := Ok false;
  Agent.env_tests_indeterminate _ := Ok false;
  Agent.env_jobs_shut_down _ := Some (true, true);
  Agent.env_termination_timeout _ := false;
  Agent.env_backend_connects _ := Ok tt;
  Agent.env_backend_shuts_down _ := Ok tt;
  Agent.env_answers _ := AgentExamples.no_answers;
  Agent.env_executors := None;
  Agent.env_staging := None
|}.

#[local] Instance handed : Agent.AgentSetup := {|
  Agent.env := handoff_env;
  Agent.config := AgentExamples.device_config;
  Agent.material := AgentExamples.living.(Agent.material);
  Agent.backend := Some desktop;
  Agent.handoff := true;
  Agent.playwright := false;
  Agent.package_version := "1";
  Agent.platform := "linux"
|}.

(** ** The Hub *)

Definition device_hello : AgentHello :=
  Transport.new_hello HubExamples.dev Agent.capabilities AgentExamples.nonce.
Definition principal : Trust.AuthenticatedClientPrincipal :=
  Trust.AuthenticatedClientPrincipal.mk "https://issuer" "alice".
Definition hub_authority : RemoteHandoffAuthority :=
  remote_authority (legacy_request
    (agent_binding principal HubExamples.dev 1 8 DeviceCommand.ListApplications)).
Definition hub_run :=
  HubSession.run_session (SU := (HubExamples.hub_at AgentExamples.no_requests 0).1)
    (Ok (AgentToHub.Hello device_hello)) (Ok (AgentToHub.Proof HubExamples.proof))
    [HubSession.Request (Hub.Execute "op_1" alice DeviceCommand.ListApplications
       empty_metadata (Some hub_authority) 1)] AgentExamples.hub_task.
Definition sent_by_hub (n : nat) : AgentSession.inbound :=
  Ok (Some (hub_run.1.(Hub.world).(Hub.sent) !! n)).
Definition turns : list AgentSession.Turn :=
  [AgentSession.mk_turn false (Some (AgentSession.mk_inputs AgentExamples.nonce None
     (sent_by_hub 0) (sent_by_hub 1) [AgentSession.Inbound (sent_by_hub 2)])) false].

(** ** Witnesses *)

Definition started : Agent.Task := AgentExamples.boot AgentExamples.new_world.
Lemma started_ids :
  (past (AgentSession.process turns started).1).(Agent.spawned).*1 = [AgentExamples.op_1].
Proof. vm_compute. reflexivity. Qed.
Lemma started_commands :
  (λ x, x.2.(RemoteCommand.command).(CommandEnvelope.command))
    <$> (past (AgentSession.process turns started).1).(Agent.spawned) = [DeviceCommand.ListApplications].
Proof. vm_compute. reflexivity. Qed.

Definition calls : list Agent.Consultation :=
  (AgentSession.process turns started).1.(Agent.world).(Agent.consulted).
Lemma calls_made :
  (AgentSession.process turns started).1.(Agent.world).(Agent.consulted)
  = calls ++ started.(Agent.world).(Agent.consulted).
Proof. symmetry. apply app_nil_r. Qed.
Lemma calls_answered : answered allowing (λ _, true) running calls.
Proof. vm_compute. split; [exact I|reflexivity]. Qed.

Lemma head_allowed l l' ms (P : OperationRef * RemoteCommand → _ → Prop) :
  l = l' ++ [] → l.*1 = [AgentExamples.op_1] →
  (λ x, x.2.(RemoteCommand.command).(CommandEnvelope.command)) <$> l = [DeviceCommand.ListApplications] →
  ms `sublist_of` moments calls → Forall2 P (filter is_protected l') ms →
  ∃ x m, x.1 = AgentExamples.op_1 ∧ m ∈ moments calls ∧ P x m.
Proof.
  rewrite app_nil_r. intros -> Hl Hc Hms Ha. destruct l' as [|x l']; [done|].
  injection Hl as Hx _. injection Hc as Hc _. rewrite filter_cons_True in Ha by (unfold is_protected; by rewrite Hc).
  inversion Ha as [|? m ? ? Hp]; subst. exists x, m. split_and!; [done| |done].
  eapply elem_of_submseteq; [|by apply sublist_submseteq]. by left.
Qed.

Lemma protected_commands_were_allowed_witness :
  ∃ x m, x.1 = AgentExamples.op_1 ∧ m ∈ moments calls
    ∧ allowed_at allowing (λ _, true) running x m.
Proof.
  pose proof (protected_commands_were_allowed allowing (λ _, true) running turns started calls
    eq_refl calls_made calls_answered) as H.
  destruct H as (l & ms & Hl & Hms & Ha).
  exact (head_allowed _ l ms _ Hl started_ids started_commands Hms Ha).
Defined.

Definition the_question : AgentAuthorityRequest :=
  legacy_request (agent_binding principal HubExamples.dev 1 8 DeviceCommand.ListApplications).

Lemma admission_decides_or_stops_witness :
  decided running (admit_agent allowing the_question running).1 the_question Agent.Allow
  ∧ runtime_refuses garbled (admit_agent garbled the_question running).1.
Proof.
  assert (encodable (AuthorityRequest (wire_admission_request the_question))) as He by (by exists []).
  split.
  - exact (admission_decides_or_stops allowing the_question running He).
  - exact (proj2 (admission_decides_or_stops garbled the_question running He _ (rtc_refl _ _))).
Defined.

#[local] Instance toy_sha256_laws : Sha256Laws.
Proof. split; [apply digest_length|apply digest_u8]. Qed.

(** A change in a window *)
Definition change : DeviceCommand :=
  DeviceCommand.SetUiValue "ctx_1" 4 5 "field" "value".
Lemma hub_and_agent_ask_alike_witness :
  let asked := legacy_request (agent_binding principal HubExamples.dev 1 8 change) in
  let fence := for_device HubExamples.dev 1 8 in
  opt_some asked.(AgentAuthorityRequest.exact_window) = true
  ∧ (final_admit allowing (remote_authority asked) change fence running).2 = Ok Agent.Allow
  ∧ remote_admit_agent (λ k, Ok (handle_remote allowing true k fence running).2) asked = Ok Agent.Allow.
Proof.
  cbn zeta. split; [reflexivity|].
  assert (real_window (window_binding change)) as Hw by (vm_compute; split; intros [=]).
  destruct (hub_and_agent_ask_alike allowing true principal HubExamples.dev 1 8 change running Hw)
    as [H1 H2].
  rewrite H1, H2. split; vm_compute; reflexivity.
Defined.

(** The change is admitted after five seconds; ten seconds later a human may take over. *)
Definition seen : list selection_event :=
  [AdmissionEvent (Ok Agent.Allow) principal HubExamples.dev 1 8 change None 5000000000 5000000000
     [1%N] [2%N]].
Definition fence_of_hub : HandoffSessionFence := mk_handoff_fence 1 8.

Lemma human_control_needs_a_fresh_window_witness :
  ∃ a, a.(AgentAuthorityRequest.exact_window) = window_binding change
    ∧ ∃ l1 e l2 t, seen = l1 ++ e :: l2 ∧ admits e a t
        ∧ (15000000000 < t + HANDOFF_CONTROL_SELECTION_TTL)%N.
Proof.
  exists (control_authority (question (principal_binding principal) HubExamples.dev 1 8 change)).
  split; [reflexivity|].
  destruct (human_control_needs_a_fresh_window seen fence_of_hub None 15000000000
    (control_authority (question (principal_binding principal) HubExamples.dev 1 8 change)))
    as (l1 & e & l2 & t & Hl & Ha & Ht & _); [vm_compute; reflexivity|].
  exists l1, e, l2, t. by split_and!.
Defined.
End HandoffExamples.
